(* ===== verification/_CoqProject ===== *)
-Q . S2P
Prelude.v
Utf8.v
GoStd.v
Codes.v
Limits.v
Value.v
Canonical.v
SetsSpec.v
Primitives.v
PrimitivesSpec.v
Ids.v
IdsSpec.v
Parse.v
ParseTotal.v
ParsePrint.v
ParseSound.v
ParseDoc.v
ParseExact.v
Reader.v
ReaderSpec.v
Result.v
ResultSpec.v
Ticket.v
Updates.v
Collision.v
Inventory.v
GraphSpec.v
TarjanSpec.v
InventorySpec.v
LazySpec.v
PlanSpec.v
Marks.v
MarksSpec.v
Lifecycle.v
KnowHow.v
KnowHowSpec.v
RecordParts.v
Escalations.v
RecordCodec.v
View.v
Intent.v
PartsSpec.v
RecordSpec.v
RecordValid.v
ViewSpec.v
Facets.v
Obligations.v
ObligationEvents.v
NoteEvents.v
ObligationLedger.v
Mutation.v
Outcomes.v
Screen.v
Writer.v
Apply.v
Adopt.v
WriterSpec.v
ObligationPlan.v
ObligationParts.v
EventsSpec.v
LedgerSpec.v
LedgerSteps.v
ChainSpec.v
ValueSpec.v
StepSpec.v
ApplySpec.v
TotalSpec.v
CreateSpec.v
LedgerWrite.v
AdoptSpec.v
ScreenSpec.v
Attempt.v
Clock.v
Pools.v
Planner.v
PlannerSpec.v
LeaseRequest.v
Lease.v
LeaseSpec.v
LeaseHistory.v
