(* ===== verification/Prelude.v ===== *)
(** * Corvint Tasks: a verification development of the ticket store's core

    Corvint Tasks keeps a queue of tickets as files of canonical JSON.  Every
    part of it reads and writes through [src/internal/tasks/wire]: a strict
    JSON parser and encoder, the primitive fields, a reader of closed objects,
    the error codes and the result envelope.  On top of it
    [src/internal/tasks/ticket] holds the ticket record, its know-how and
    obligation ledgers, the inventory of a queue with its dependency graph, and
    the derived views; [src/internal/tasks/lifecycle] derives a ticket's
    delivery state; and [src/internal/tasks/mutation] is the ticket writer: it
    decodes a mutation envelope, checks it against its context (the trusted
    binding, the queue manifest and policy of [src/internal/tasks/intent], the
    inventory, the recorded requests) and plans the next revision of a record.
    Agents work on tickets under leases: [src/internal/tasks/snapshot] holds
    the attempt records, the reservations and the state of the pools, and
    [src/internal/tasks/transaction] plans which tickets can be claimed and
    what a claim, a renewal, a release, a reaping or a widening writes.  This
    development models these packages and proves what they promise each
    other.

    ** How the program is modelled

    A Go string is a [string] of bytes, a slice a list, a map with string keys
    a [gmap] (an association list where the order of its keys is seen), an
    [int64] a [Z] with its bounds written out, a pointer that may be nil an
    [option].  A fallible function returns an [outcome]: [Ok], [Err] with the
    structured error of [codes.go] (in the writer: with a refusal or a panic),
    or [OutOfFuel], which the theorems show away for every modelled entry
    point.  A loop over mutable state is a recursion that passes the state; the
    record reader's shared first error is a state monad.  An assignment to a
    field of a record is [r <| p := v |>].  A message is its format and
    operands; rendering it is not modelled.  SHA-256, the loader of closed
    tickets, the stores of obligation and note events, the attempt oracle,
    the secret screen, the decoder of [programs.json] and the comparison of
    two policies at a handoff are parameters.

    ** The files

    [wire]:
    - [Prelude]: strings, stable sorting, the result type, tactics.  [Utf8],
      [GoStd]: the parts of Go's [unicode/utf8], [strings], [strconv] and
      [sort] that the source uses.
    - [Codes] ([codes.go], [retry.go], [context.go]): the retry table is total
      on the closed codes, what makes a result retryable.
    - [Limits] ([limits.go]); [Value] ([value.go], [encode.go]); [Canonical]
      and [SetsSpec]: the canonical form of a value, what encoding depends on,
      sorted sets.
    - [Primitives] ([primitives.go]); [PrimitivesSpec]: each
      field's grammar and bounds, the fast path of the hostile-text check.
    - [Ids] ([ids.go], [identity.go], [optional.go], [ticketkeys.go],
      [obligations.go], [escalation_hold.go]); [IdsSpec].
    - [Parse] ([parse.go]); [ParseTotal] (fuel, and how it fails),
      [ParsePrint] (printed documents are read back, and printing is
      injective), [ParseSound] (what is read was printed), [ParseExact] (which
      documents are refused, and for what), [ParseDoc] (the entry points).
    - [Reader] ([reader.go]); [ReaderSpec]: every operation keeps the first
      failure; what a successful read says of the value.
    - [Result] ([result.go], [facets.go]); [ResultSpec]: the
      round trips of the envelope and what a decoded facet summary satisfies.

    [ticket] and [lifecycle]:
    - [Ticket] ([record.go], [lazy.go] and the data of the other files of the
      package); [Updates]: a setter for each field; [Collision]
      ([collision.go]); [Inventory] ([graph.go], [lazy.go]) with [GraphSpec],
      [TarjanSpec], [InventorySpec], [LazySpec] and [PlanSpec]; [Marks] ([progress.go], [hold_condition.go],
      [prereq.go], [attached_evidence.go], [verdict_paths.go]) with
      [MarksSpec].
    - [KnowHow] ([know_how.go]) with [KnowHowSpec].  [RecordParts],
      [Escalations] and [RecordCodec] ([record.go] and the optional members of
      a record: [escalation.go], [operator_note.go], [external_review.go])
      with [PartsSpec] (a field by field account of a closed object),
      [RecordSpec] and [RecordValid].
    - [Obligations], [ObligationEvents], [ObligationLedger] and
      [ObligationPlan] ([obligations.go], [obligation_scope.go],
      [obligation_review.go], [obligation_mirror.go], [obligation_plan.go])
      with [ObligationParts] and [EventsSpec] (codecs), [LedgerSpec] (the
      credit of a review, the invariant of a ledger),
      [LedgerSteps] (one event) and [ChainSpec] (a chain of them).
      [NoteEvents] ([operator_note.go]): note requests and events.
    - [Lifecycle] ([lifecycle.go]).
    - [View] ([view.go]) with [ViewSpec]: what eligibility means, and what
      observing more changes.  [Facets] ([facets.go] of
      [src/internal/tasks/cli]): the counts over the views of a list, which
      the decoder of command results accepts.

    [intent] and [mutation]:
    - [Intent] ([queue.go] and what the writer reads of [policy.go] and
      [pools.go]); [Mutation] ([mutation.go]: payloads and envelopes);
      [Outcomes] ([outcome.go], [replay.go]); [Screen] ([value_screen.go]);
      [Writer] ([apply.go], [know_how.go], [know_how_provenance.go]: contexts,
      plans and [step], one operation); [Apply] ([apply.go],
      [operator_note.go], [external_review.go], [obligations.go],
      [verified.go]); [Adopt] ([adopt.go]).
    - [WriterSpec] (what a planned envelope did), [ValueSpec] (the chain
      fields, the check of the record written), [StepSpec] (the transitions of a record and its
      status machine), [ApplySpec] (authority, chains, status, dependencies,
      replay), [TotalSpec] (every envelope is answered), [CreateSpec] (new
      tickets and their serials),
      [LedgerWrite] (obligation writes), [AdoptSpec], [ScreenSpec].

    [snapshot] and [transaction]:
    - [Attempt] ([attempt.go], [supervision.go], [shared_allocation.go],
      [released_allocation.go], [lane_untouched.go]): attempt records and the
      reservation set, read, checked and written.  [Clock]: the part of Go's
      [time] that timestamps use, [addMinutes] and [addSeconds], and that
      timestamps compare as text as their times do.  [Pools] ([pools.go],
      [waiters.go], [slots.go], [pool_identity.go], [pool_operation.go],
      [pool_recovery.go]): the state of the pools.
    - [Planner] ([plan.go], [priority_admission.go], [authors.go],
      [loop_detect.go], [retry_observation.go], [pool_wait.go]): the plan of a
      queue; [PlannerSpec]: what a plan selects, in which order, and that its
      cached waits are those each claim derives.
    - [LeaseRequest] ([lease.go], [lease_gate.go], [pool_operation.go],
      [pool_observation.go]): the request of every verb, its checks, its
      digest preimage, and that the preimage identifies the request.
    - [Lease] ([lease.go], [lease_claim.go], [lease_handoff.go],
      [pool_share.go], [pool_report.go], [attempt_detail.go],
      [lease_state.go], [claim_next.go]): one command, from the state its
      transaction loads to the files it posts; [LeaseSpec]: what each command
      does, and that the state stays consistent; [LeaseHistory]: that it does
      over any number of transactions, through the bytes they store.

    ** What the theorems show

    - The writer plans only what its role's row permits, or a review that was
      observed, for a request it has not seen; a planned write is the next revision of its target, raises the
      acceptance revision exactly when the operation is REOPEN, RESTORE or
      COMPLETE_MANUAL or what was accepted changes, moves the
      status as the status machine says and closes no dependency cycle; each
      operation is exactly one declarative transition; a new ticket leaves the
      queue well-formed; an adopted file becomes the record written; an
      obligation write extends the chain a reader folds; screened text is not
      stored; and every envelope is answered.
    - A record, a know-how ledger or an obligation event that is decoded is
      encoded to the same bytes; a decoded record satisfies the invariants its
      validation states, and the validation accepts exactly those.
    - A know-how ledger is valid exactly when it is a run of the abstract
      ledger.  A chain of obligation events folds to one ledger in order, and
      two stores that fold under one head hold the same ledger or the digest
      collides; each event is accepted exactly when its conditions hold.
    - The parser accepts exactly the canonical files of values within its
      bounds and returns the value encoded; encoding and parsing are inverse.
      Equal encodings mean equal values up to the order of keys, so equality
      of records and digests may compare bytes.
    - The fields accept exactly their grammars; counts and sizes exactly the
      decimal forms within 31 and 64 bits.
    - An inventory holds exactly the tickets it was built of; the cycles it
      reports are the strongly connected components of the dependency graph;
      the search that admits new dependencies accepts exactly those that close
      no path; a lazy inventory answers as the eager one.
    - A view finds a ticket admissible exactly when every condition of
      admission holds; observing more settles unknowns only; the facet summary
      of a list counts its views and is within the closed vocabularies.
    - A derived lifecycle is confirmed by its evidence and stable under more.
    - The live attempts are exactly the reserved ones, at most one to a
      ticket, no two reservations exclude each other, and a command adds one
      only within the limit of the policy: what a transaction loads agrees,
      and whatever a lease command modelled posts keeps it so.  So the files
      stored after any history of these commands, decoded again at each
      transaction, are consistent, also with transactions between them that
      leave the reservations, drop some or rewrite only the bookkeeping of
      one, which is all COMPLETE and SUPERVISOR do; but under policies that
      drop no shared path, for nothing checks the reservations again when one
      does.  A reservation set is read back as it was written.
    - A claim is admitted only past every refusal, a retry is charged within
      the budget unless the generation before ended in a clean handoff, a
      fenced command posts nothing, a renewal moves the expiry and a reaping
      ends exactly what it names.  The bytes a lease command is digested by
      identify it.
    - A plan selects what can be claimed together, in the order of priority;
      CLAIM_NEXT posts the claim of the first selected ticket it can take;
      author exclusion keeps the authors it walks from reviewing their own
      work: all, or in the mode LATEST the newest.

    ** Fuel

    The parser: one more than the bytes of the document, as each step consumes
    one.  The dependency search: one step per edge and ticket.  The fold of an
    obligation chain: 1025 steps, one more than [ObligationsMaxEvents], at
    which the code refuses.  The serial of a new ticket: one more than the
    number of tickets, which cannot all be in the way.  The value screen: the
    bytes of the text.  A theorem shows each enough.  The planner and the
    lease commands recurse on their lists and use no fuel but that of the
    documents they read.

    The interfaces between components are the classes [Sticky] (reader
    operations), [TextParser] (text fields), [Codec] (a decoder and its
    encoder), [Setter] (a field and its update) and [Ends] and [Settles] (a
    computation that answers), and [WeakOrder] (the ranks the planner sorts
    by): a client's theorem uses only them.

    ** Not modelled

    Of [wire], [RawProfileVersion] (reads through [encoding/json]) and
    [Error.Error].  Of [ticket], escalation and external review events.
    Of [mutation], [CanonicalPayload] and [PayloadEffects] (request
    normalization for the command line), the files of declared values
    ([ParseDenyValues]) and the argument screens of the command line; of
    [intent], the policy codec and the parts of the policy nothing modelled
    reads.  Of [snapshot], receipts, heads, stages, gates and programs.  Of
    [transaction], the lease verbs of pools, slots, gates, programs and
    escalations, and the transaction around a command ([Plan]), which writes
    the head and the receipt.  That no ticket is reserved twice and that no
    reservations exclude each other is no check of the load but a hypothesis
    on the state loaded: it holds of the empty state and is kept by every
    command modelled.  The other packages of [src/internal/tasks]: the journal
    and the store on disk, dispatch, services and the rest of the command
    line.  The rest of the repository (analyzers, indexes, documentation, test running, servers) is
    listed with reasons beside this development's manifest. *)

From stdpp Require Export prelude strings gmap sorting.
From Stdlib Require Export ZArith Lia.
From Stdlib Require Import Ascii String.
Export Stdlib.Strings.Ascii (ascii(..)).
Export (notations) Stdlib.Strings.Ascii.

Declare Scope go_scope.
Delimit Scope go_scope with go.

(** ** Bytes

    A Go string is a sequence of bytes; here it is a [string], whose
    characters are the 256 bytes.  [code] is a byte's number and [byte_of]
    the byte of a number. *)

Definition code (c : ascii) : Z := Z.of_N (N_of_ascii c).

Definition byte_of (z : Z) : ascii := ascii_of_N (Z.to_N z).

(** [lo <= c && c <= hi] on bytes. *)
Definition between (lo hi c : ascii) : bool :=
  (code lo <=? code c)%Z && (code c <=? code hi)%Z.

(** [c == d] on bytes. *)
Notation "c =b d" := (Ascii.eqb c d) (at level 70, no associativity) : go_scope.

(** The list of all 256 bytes, by which a decidable statement about one byte
    is checked. *)
Definition all_bytes : list ascii := ascii_of_N ∘ N.of_nat <$> seq 0 256.

(** ** Strings *)

Definition slen (s : string) : Z := Z.of_nat (String.length s).

Abbreviation ε := EmptyString.

(** [string(c)] for one byte. *)
Definition str1 (c : ascii) : string := String c ε.

(** Byte-order comparison, Go's [<] and [==] on strings. *)
Notation "a <s b" := (String.ltb a b) (at level 70, no associativity) : go_scope.
Notation "a =s b" := (String.eqb a b) (at level 70, no associativity) : go_scope.

(** [x[n:]] of a prefix: the rest of [s] after [p], if [s] starts with [p]. *)
Fixpoint strip_prefix (p s : string) : option string :=
  match p, s with
  | ε, _ => Some s
  | String a p', String b s' => if Ascii.eqb a b then strip_prefix p' s' else None
  | String _ _, ε => None
  end.

(** Some byte of [s] satisfies [f]. *)
Fixpoint str_exists (f : ascii → bool) (s : string) : bool :=
  match s with
  | ε => false
  | String c s' => f c || str_exists f s'
  end.

(** Every byte of [s] satisfies [f]. *)
Fixpoint str_forall (f : ascii → bool) (s : string) : bool :=
  match s with
  | ε => true
  | String c s' => f c && str_forall f s'
  end.

Fixpoint str_map (f : ascii → ascii) (s : string) : string :=
  match s with
  | ε => ε
  | String c s' => String (f c) (str_map f s')
  end.

(** The longest prefix of [s] whose bytes satisfy [f], and the rest. *)
Fixpoint str_span (f : ascii → bool) (s : string) : string * string :=
  match s with
  | ε => (ε, ε)
  | String c s' =>
      if f c then let '(a, b) := str_span f s' in (String c a, b) else (ε, s)
  end.

(** ** Stable sorting

    [sort.SliceStable] by a boolean "less or equal", and [sort.Strings]. *)
Section sorting.
Context {A : Type} (le : A → A → bool).

Fixpoint insert_sorted (x : A) (l : list A) : list A :=
  match l with
  | [] => [x]
  | y :: l' => if le x y then x :: l else y :: insert_sorted x l'
  end.

Definition isort (l : list A) : list A := foldr insert_sorted [] l.
End sorting.

Definition SortStrings (l : list string) : list string := isort String.leb l.

(** ** Results

    A fallible operation that may also run out of the fuel its model
    carries; the theorems show the last case away. *)
Inductive outcome (E A : Type) : Type :=
  | Ok (a : A)
  | Err (e : E)
  | OutOfFuel.
Arguments Ok {E A} a.
Arguments Err {E A} e.
Arguments OutOfFuel {E A}.

Definition obind {E A B} (x : outcome E A) (k : A → outcome E B) : outcome E B :=
  match x with
  | Ok a => k a
  | Err e => Err e
  | OutOfFuel => OutOfFuel
  end.

Notation "'let*' x := c 'in' k" := (obind c (λ x, k))
  (at level 10, x pattern, c at level 100, k at level 200) : go_scope.

(** An operation that returns only an [error]; [None] is [nil]. *)
Notation "'try' e ; k" := (match e with Some err => Err err | None => k end)
  (at level 10, e at level 100, k at level 200) : go_scope.

(** ** Tactics *)

(** [lia] also on division and remainder by constants. *)
Ltac Zify.zify_post_hook ::= Z.to_euclidean_division_equations.

(** Split every boolean conjunction and disjunction of the context, and turn
    the comparisons into propositions. *)
Ltac bool_hyps :=
  repeat match goal with
  | H : andb _ _ = true |- _ => apply andb_true_iff in H; destruct H
  | H : orb _ _ = false |- _ => apply orb_false_iff in H; destruct H
  | H : negb _ = true |- _ => apply negb_true_iff in H
  | H : negb _ = false |- _ => apply negb_false_iff in H
  | H : Z.leb _ _ = true |- _ => apply Z.leb_le in H
  | H : Z.leb _ _ = false |- _ => apply Z.leb_gt in H
  | H : Z.ltb _ _ = true |- _ => apply Z.ltb_lt in H
  | H : Z.ltb _ _ = false |- _ => apply Z.ltb_ge in H
  | H : Z.eqb _ _ = true |- _ => apply Z.eqb_eq in H
  | H : Z.eqb _ _ = false |- _ => apply Z.eqb_neq in H
  | H : String.eqb _ _ = true |- _ => apply String.eqb_eq in H
  | H : String.eqb _ _ = false |- _ => apply String.eqb_neq in H
  | H : Ascii.eqb _ _ = true |- _ => apply Ascii.eqb_eq in H
  | H : Ascii.eqb _ _ = false |- _ => apply Ascii.eqb_neq in H
  end.

(** Decide a closed boolean statement about one byte by trying all of them. *)
Ltac all_bytes c := destruct c as [[] [] [] [] [] [] [] []]; vm_compute.

Lemma length_omap {A B} (f : A → option B) (l : list A) : (base.length (omap f l) ≤ base.length l)%nat.
Proof. induction l as [|a l IH]; cbn; [done|]. destruct (f a); cbn; lia. Qed.

Lemma obind_Ok {E A B} (x : outcome E A) (k : A → outcome E B) b :
  obind x k = Ok b ↔ ∃ a, x = Ok a ∧ k a = Ok b.
Proof. destruct x; simpl; (split; [by eauto|]); intros (? & ? & ?); congruence. Qed.

Lemma obind_Err {E A B} (x : outcome E A) (k : A → outcome E B) e :
  obind x k = Err e ↔ x = Err e ∨ ∃ a, x = Ok a ∧ k a = Err e.
Proof.
  destruct x; simpl; (split; [intros H; first [left; congruence|right; by eauto|discriminate]|]);
    intros [?|(? & ? & ?)]; congruence.
Qed.

Lemma obind_OutOfFuel {E A B} (x : outcome E A) (k : A → outcome E B) :
  obind x k = OutOfFuel ↔ x = OutOfFuel ∨ ∃ a, x = Ok a ∧ k a = OutOfFuel.
Proof.
  destruct x; simpl; (split; [intros H; first [left; congruence|right; by eauto|discriminate]|]);
    intros [?|(? & ? & ?)]; congruence.
Qed.

(** ** Lemmas on bytes *)

Lemma code_range c : (0 ≤ code c < 256)%Z.
Proof. by all_bytes c. Qed.

Lemma code_inj c d : code c = code d → c = d.
Proof.
  unfold code. intros H%N2Z.inj. rewrite <-(ascii_N_embedding c), <-(ascii_N_embedding d).
  by rewrite H.
Qed.

Lemma code_byte_of z : (0 ≤ z < 256)%Z → code (byte_of z) = z.
Proof. intros. unfold code, byte_of. rewrite N_ascii_embedding; lia. Qed.

Lemma byte_of_code c : byte_of (code c) = c.
Proof. unfold code, byte_of. rewrite N2Z.id. apply ascii_N_embedding. Qed.

(** ** Lemmas on strings *)

Lemma app_cons_str c s t : String c s +:+ t = String c (s +:+ t).
Proof. done. Qed.

Lemma app_nil_str s : ε +:+ s = s.
Proof. done. Qed.

Lemma app_str_nil s : s +:+ ε = s.
Proof. induction s as [|c s IH]; [done|]. by rewrite app_cons_str, IH. Qed.

Lemma app_str_assoc a b c : (a +:+ b) +:+ c = a +:+ (b +:+ c).
Proof. induction a as [|x a IH]; [done|]. by rewrite !app_cons_str, IH. Qed.

Lemma length_app_str a b : String.length (a +:+ b) = String.length a + String.length b.
Proof. induction a as [|x a IH]; [done|]. rewrite app_cons_str. simpl. lia. Qed.

Lemma slen_app a b : slen (a +:+ b) = (slen a + slen b)%Z.
Proof. unfold slen. rewrite length_app_str. lia. Qed.

(** Arithmetic on the lengths of concatenations. *)
Ltac len_lia :=
  repeat first [progress rewrite !length_app_str in * | progress cbn [String.length] in *]; lia.

Lemma app_str_inj_l a b c : a +:+ b = a +:+ c → b = c.
Proof. induction a as [|x a IH]; [done|]. rewrite !app_cons_str. naive_solver. Qed.

Lemma app_str_inj_r a b c : a +:+ c = b +:+ c → a = b.
Proof.
  revert b; induction a as [|x a IH]; intros [|y b] H; [done| | |].
  1-2: exfalso; apply (f_equal String.length) in H; rewrite ?length_app_str in H;
    simpl in H; rewrite ?length_app_str in H; lia.
  rewrite !app_cons_str in H. injection H as -> H. by rewrite (IH b).
Qed.

Lemma str1_app c s : str1 c +:+ s = String c s.
Proof. done. Qed.

Create Rewrite HintDb str.
Create Rewrite HintDb strlen.
#[export] Hint Rewrite app_str_nil app_str_assoc app_cons_str app_nil_str str1_app : str.
#[export] Hint Rewrite length_app_str : strlen.

Lemma str_forall_app f a b : str_forall f (a +:+ b) = str_forall f a && str_forall f b.
Proof. induction a as [|x a IH]; [done|]. simpl. by rewrite IH, andb_assoc. Qed.

Lemma str_exists_app f a b : str_exists f (a +:+ b) = str_exists f a || str_exists f b.
Proof. induction a as [|x a IH]; [done|]. simpl. by rewrite IH, orb_assoc. Qed.

Lemma str_exists_forall f s : str_exists f s = false ↔ str_forall (λ c, negb (f c)) s = true.
Proof. induction s as [|c s IH]; [done|]. simpl. rewrite orb_false_iff, andb_true_iff, negb_true_iff, IH. done. Qed.

Lemma str_forall_and f g s :
  str_forall (λ c, f c && g c) s = str_forall f s && str_forall g s.
Proof. induction s as [|c s IH]; [done|]. simpl. rewrite IH. by destruct (f c), (g c), (str_forall f s). Qed.

Lemma str_forall_impl (f g : ascii → bool) s :
  (∀ c, f c = true → g c = true) → str_forall f s = true → str_forall g s = true.
Proof.
  intros Hfg. induction s as [|c s IH]; [done|]. simpl.
  rewrite !andb_true_iff. intros [? ?]; split; auto.
Qed.

Lemma str_span_app f s : (str_span f s).1 +:+ (str_span f s).2 = s.
Proof.
  induction s as [|c s IH]; [done|]. simpl. destruct (f c); [|done].
  destruct (str_span f s). simpl in *. by rewrite app_cons_str, IH.
Qed.

Lemma str_span_forall f s : str_forall f (str_span f s).1 = true.
Proof.
  induction s as [|c s IH]; [done|]. simpl. destruct (f c) eqn:E; [|done].
  destruct (str_span f s). simpl in *. by rewrite E.
Qed.

Lemma str_span_stop f s c r : (str_span f s).2 = String c r → f c = false.
Proof.
  induction s as [|d s IH]; [done|]. simpl. destruct (f d) eqn:E; [|naive_solver].
  destruct (str_span f s). by apply IH.
Qed.

(** A run of [f] bytes is taken whole when the next byte is not one. *)
Lemma str_span_run f a b :
  str_forall f a = true → (∀ c r, b = String c r → f c = false) →
  str_span f (a +:+ b) = (a, b).
Proof.
  intros Ha Hb. induction a as [|x a IH]; simpl in *.
  - destruct b as [|c r]; [done|]. by rewrite app_nil_str; simpl; rewrite (Hb c r).
  - apply andb_true_iff in Ha as [Hx Ha]. by rewrite Hx, (IH Ha).
Qed.

Lemma strip_prefix_Some p s r : strip_prefix p s = Some r ↔ s = p +:+ r.
Proof.
  revert s; induction p as [|a p IH]; intros s; simpl.
  - rewrite app_nil_str. naive_solver.
  - destruct s as [|b s]; [done|]. rewrite app_cons_str.
    destruct (Ascii.eqb_spec a b) as [->|Hne]; [|naive_solver].
    rewrite IH. naive_solver.
Qed.

Lemma strip_prefix_app p r : strip_prefix p (p +:+ r) = Some r.
Proof. by apply strip_prefix_Some. Qed.

(** ** The order of strings *)

Lemma leb_le a b : String.leb a b = true ↔ String.le a b.
Proof. unfold String.le. by rewrite Is_true_true. Qed.

Lemma leb_refl a : String.leb a a = true.
Proof. by apply leb_le. Qed.

Lemma leb_trans a b c : String.leb a b = true → String.leb b c = true → String.leb a c = true.
Proof. rewrite !leb_le. apply transitivity. Qed.

Lemma leb_total a b : String.leb a b = false → String.leb b a = true.
Proof. destruct (String.leb_total a b) as [H|H]; congruence. Qed.

Lemma leb_antisym a b : String.leb a b = true → String.leb b a = true → a = b.
Proof. rewrite !leb_le. apply (anti_symm String.le). Qed.

Lemma ltb_leb a b : String.ltb a b = negb (String.leb b a).
Proof.
  unfold String.ltb, String.leb. rewrite (String.compare_antisym a b).
  by destruct (String.compare b a).
Qed.

(** ** Lemmas on sorting *)
Section sorting_lemmas.
Context {A : Type} (le : A → A → bool).
Implicit Types l : list A.

Lemma insert_sorted_perm x l : insert_sorted le x l ≡ₚ x :: l.
Proof. induction l as [|y l IH]; simpl; [done|]. destruct (le x y); [done|]. rewrite IH. constructor. Qed.

Lemma isort_perm l : isort le l ≡ₚ l.
Proof. induction l as [|x l IH]; simpl; [done|]. by rewrite insert_sorted_perm, IH. Qed.

Context (le_total : ∀ x y, le x y = false → le y x = true).
Context (le_trans : ∀ x y z, le x y = true → le y z = true → le x z = true).

Lemma insert_sorted_StronglySorted x l :
  StronglySorted (λ x y, le x y = true) l → StronglySorted (λ x y, le x y = true) (insert_sorted le x l).
Proof using le_total le_trans.
  induction 1 as [|y l Hl IH Hy]; simpl; [by repeat constructor|].
  destruct (le x y) eqn:E.
  - constructor; [by constructor|]. constructor; [done|].
    eapply Forall_impl; [exact Hy|]. intros z. by apply le_trans.
  - constructor; [done|]. rewrite insert_sorted_perm. constructor; auto.
Qed.

Lemma isort_StronglySorted l : StronglySorted (λ x y, le x y = true) (isort le l).
Proof using le_total le_trans.
  induction l; simpl; [constructor|]. by apply insert_sorted_StronglySorted.
Qed.

Lemma insert_sorted_least x l : Forall (λ y, le x y = true) l → insert_sorted le x l = x :: l.
Proof. destruct 1 as [|y l H _]; simpl; [done|]. by rewrite H. Qed.

(** Sorting changes nothing that is sorted already. *)
Lemma isort_sorted l : StronglySorted (λ x y, le x y = true) l → isort le l = l.
Proof. induction 1 as [|x l _ IH H]; simpl; [done|]. rewrite IH. by apply insert_sorted_least. Qed.

Lemma elem_of_isort x l : x ∈ isort le l ↔ x ∈ l.
Proof. by rewrite isort_perm. Qed.

Lemma length_isort l : List.length (isort le l) = List.length l.
Proof. apply Permutation_length, isort_perm. Qed.
End sorting_lemmas.

Lemma SortStrings_perm l : SortStrings l ≡ₚ l.
Proof. apply isort_perm. Qed.

Lemma SortStrings_StronglySorted l : StronglySorted (λ x y, String.leb x y = true) (SortStrings l).
Proof. apply isort_StronglySorted; eauto using leb_total, leb_trans. Qed.

Lemma SortStrings_sorted l :
  StronglySorted (λ x y, String.leb x y = true) l → SortStrings l = l.
Proof. apply isort_sorted. Qed.

(** Two permutations sort to the same list. *)
Lemma SortStrings_proper l k : l ≡ₚ k → SortStrings l = SortStrings k.
Proof.
  intros H. apply (StronglySorted_unique_strong (λ x y, String.leb x y = true)).
  - intros x y _ _. apply leb_antisym.
  - apply SortStrings_StronglySorted.
  - apply SortStrings_StronglySorted.
  - by rewrite !SortStrings_perm.
Qed.

#[global] Instance SortStrings_Proper : Proper ((≡ₚ) ==> (=)) SortStrings.
Proof. intros l k. apply SortStrings_proper. Qed.
