(* ===== verification/Utf8.v ===== *)
(** * Go's unicode/utf8

    The part of the standard library that decodes and encodes runes.  A Go
    string is a byte string and a rune is a [Z]. *)

From S2P Require Import Prelude.
Local Open Scope Z_scope.
Local Open Scope go_scope.

(** ** unicode/utf8 *)
Module utf8.

Definition RuneError : Z := 0xFFFD.

(** A continuation byte within [lo..hi]. *)
Definition cont (lo hi : Z) (c : ascii) : bool := (lo <=? code c) && (code c <=? hi).

Definition tail (c : ascii) : Z := code c - 0x80.

(** [utf8.DecodeRuneInString]: the first rune of [s] and its size in bytes;
    [(RuneError, 0)] for the empty string and [(RuneError, 1)] for invalid
    bytes.  The bounds on the second byte are those of the first-byte table:
    they exclude overlong forms, surrogates and values above U+10FFFF. *)
Definition DecodeRuneInString (s : string) : Z * nat :=
  match s with
  | ε => (RuneError, 0%nat)
  | String c0 s1 =>
      let b0 := code c0 in
      if b0 <? 0x80 then (b0, 1%nat)
      else if (0xC2 <=? b0) && (b0 <=? 0xDF) then
        match s1 with
        | String c1 _ =>
            if cont 0x80 0xBF c1 then ((b0 - 0xC0) * 64 + tail c1, 2%nat) else (RuneError, 1%nat)
        | _ => (RuneError, 1%nat)
        end
      else if (0xE0 <=? b0) && (b0 <=? 0xEF) then
        let lo := if b0 =? 0xE0 then 0xA0 else 0x80 in
        let hi := if b0 =? 0xED then 0x9F else 0xBF in
        match s1 with
        | String c1 (String c2 _) =>
            if cont lo hi c1 && cont 0x80 0xBF c2
            then ((b0 - 0xE0) * 4096 + tail c1 * 64 + tail c2, 3%nat) else (RuneError, 1%nat)
        | _ => (RuneError, 1%nat)
        end
      else if (0xF0 <=? b0) && (b0 <=? 0xF4) then
        let lo := if b0 =? 0xF0 then 0x90 else 0x80 in
        let hi := if b0 =? 0xF4 then 0x8F else 0xBF in
        match s1 with
        | String c1 (String c2 (String c3 _)) =>
            if cont lo hi c1 && cont 0x80 0xBF c2 && cont 0x80 0xBF c3
            then ((b0 - 0xF0) * 262144 + tail c1 * 4096 + tail c2 * 64 + tail c3, 4%nat)
            else (RuneError, 1%nat)
        | _ => (RuneError, 1%nat)
        end
      else (RuneError, 1%nat)
  end.

(** [s[i:]] for the loop [for i := 0; i < len(s); i += size]: [skip] bytes
    belong to the rune just decoded.  [f] sees each rune and its size; the
    first [Some] ends the loop. *)
Fixpoint scan {E} (f : Z → nat → option E) (skip : nat) (s : string) : option E :=
  match s with
  | ε => None
  | String _ s' =>
      match skip with
      | S k => scan f k s'
      | O =>
          let '(r, size) := DecodeRuneInString s in
          match f r size with
          | Some e => Some e
          | None => scan f (pred size) s'
          end
      end
  end.

(** [r == utf8.RuneError && size <= 1] *)
Definition invalid (r : Z) (size : nat) : bool := (r =? RuneError) && (size <=? 1)%nat.

(** [utf8.Valid] *)
Definition Valid (s : string) : bool :=
  match scan (λ r size, if invalid r size then Some tt else None) 0 s with
  | Some _ => false
  | None => true
  end.

(** A Unicode scalar value. *)
Definition ValidRune (r : Z) : bool :=
  (0 <=? r) && (r <? 0xD800) || (0xDFFF <? r) && (r <=? 0x10FFFF).

(** [utf8.AppendRune(nil, r)]; an invalid rune is written as U+FFFD. *)
Definition EncodeRune (r : Z) : string :=
  let r := if ValidRune r then r else RuneError in
  if r <? 0x80 then str1 (byte_of r)
  else if r <? 0x800 then
    String (byte_of (0xC0 + r / 64)) (str1 (byte_of (0x80 + r mod 64)))
  else if r <? 0x10000 then
    String (byte_of (0xE0 + r / 4096))
      (String (byte_of (0x80 + r / 64 mod 64)) (str1 (byte_of (0x80 + r mod 64))))
  else
    String (byte_of (0xF0 + r / 262144))
      (String (byte_of (0x80 + r / 4096 mod 64))
        (String (byte_of (0x80 + r / 64 mod 64)) (str1 (byte_of (0x80 + r mod 64))))).

(** The text of a list of runes. *)
Fixpoint EncodeRunes (rs : list Z) : string :=
  match rs with
  | [] => ε
  | r :: rs' => EncodeRune r +:+ EncodeRunes rs'
  end.

(** *** Decoding inverts encoding *)

Lemma EncodeRune_nonempty r : EncodeRune r ≠ ε.
Proof. unfold EncodeRune, str1. by repeat case_match. Qed.

Lemma EncodeRune_length r : (1 ≤ String.length (EncodeRune r) ≤ 4)%nat.
Proof. unfold EncodeRune, str1. repeat case_match; simpl; lia. Qed.

(** Decide the comparisons of the goal by [lia], equalities first. *)
Ltac rune_tests :=
  repeat match goal with
  | |- context [Z.eqb ?a ?b] => destruct (Z.eqb_spec a b); try lia; simpl
  end;
  repeat match goal with
  | |- context [Z.leb ?a ?b] => destruct (Z.leb_spec a b); try lia; simpl
  | |- context [Z.ltb ?a ?b] => destruct (Z.ltb_spec a b); try lia; simpl
  end.

Lemma ValidRune_spec r :
  ValidRune r = true ↔ 0 ≤ r < 0xD800 ∨ 0xDFFF < r ≤ 0x10FFFF.
Proof. unfold ValidRune. rewrite orb_true_iff, !andb_true_iff. lia. Qed.

Lemma Decode_Encode r s :
  ValidRune r = true →
  DecodeRuneInString (EncodeRune r +:+ s) = (r, String.length (EncodeRune r)).
Proof.
  intros Hv. unfold EncodeRune. rewrite Hv. apply ValidRune_spec in Hv. unfold str1.
  destruct (Z.ltb_spec r 0x80); [|destruct (Z.ltb_spec r 0x800);
    [|destruct (Z.ltb_spec r 0x10000)]]; cbn [String.length];
    rewrite !app_cons_str, app_nil_str; unfold DecodeRuneInString, cont, tail; cbv zeta;
    rewrite !code_byte_of by lia; rune_tests; f_equal; lia.
Qed.

Lemma Decode_inv s r n :
  DecodeRuneInString s = (r, n) → invalid r n = false → s ≠ ε →
  ∃ s', s = EncodeRune r +:+ s' ∧ ValidRune r = true ∧ n = String.length (EncodeRune r).
Proof.
  intros H Hi Hne. destruct s as [|c0 s1]; [done|]. clear Hne.
  assert (∀ b, (RuneError, 1%nat) = (r, n) → b = true → False) as Habs.
  { intros b [= <- <-] _. done. }
  unfold DecodeRuneInString, cont, tail in H. pose proof (code_range c0).
  repeat case_match; bool_hyps; try (exfalso; by eapply (Habs true)); simplify_eq;
    repeat match goal with c : ascii |- _ => lazymatch goal with
      | _ : (0 ≤ code c < 256) |- _ => fail | _ => pose proof (code_range c) end end;
    try lia; eexists; (split; [|split; [by apply ValidRune_spec; lia|]]).
  all: unfold EncodeRune;
    match goal with |- context [ValidRune ?r] =>
      replace (ValidRune r) with true by (symmetry; apply ValidRune_spec; lia) end.
  all: rune_tests; try reflexivity.
  all: unfold str1; rewrite !app_cons_str, app_nil_str.
  all: repeat f_equal; symmetry;
    match goal with |- byte_of ?z = ?c => replace z with (code c) by lia; apply byte_of_code
    | |- _ => idtac end.
Qed.

End utf8.

(** ** Loops over the runes of a string

    What a loop [for i := 0; i < len(s); i += size] over the decoded runes of
    a string sees, and [utf8.Valid]. *)


Import utf8.

Lemma scan_skip {E} (f : Z → nat → option E) a s :
  scan f (String.length a) (a +:+ s) = scan f 0 s.
Proof. induction a as [|x a IH]; [done|]. rewrite app_cons_str. apply IH. Qed.

Lemma scan_EncodeRune {E} (f : Z → nat → option E) r s :
  ValidRune r = true →
  scan f 0 (EncodeRune r +:+ s) =
    match f r (String.length (EncodeRune r)) with Some e => Some e | None => scan f 0 s end.
Proof.
  intros Hr. pose proof (Decode_Encode r s Hr) as HD.
  destruct (EncodeRune r) as [|x a] eqn:HE; [by destruct (EncodeRune_nonempty r)|].
  rewrite app_cons_str in *. cbn [scan]. rewrite HD. cbn [String.length pred].
  case_match; [done|]. apply scan_skip.
Qed.

(** Every string is the text of some runes, followed by nothing or by bytes
    that do not decode. *)
Lemma runes_of s :
  ∃ rs bad, s = EncodeRunes rs +:+ bad ∧ Forall (λ r, ValidRune r = true) rs ∧
    (bad = ε ∨ DecodeRuneInString bad = (RuneError, 1%nat)).
Proof.
  remember (String.length s) as n eqn:Hn. revert s Hn.
  induction (lt_wf n) as [n _ IH]; intros s ->.
  destruct (decide (s = ε)) as [->|Hne]; [by exists [], ε; eauto|].
  destruct (DecodeRuneInString s) as [r k] eqn:HD.
  destruct (invalid r k) eqn:Hi.
  - exists [], s. split; [done|]. split; [done|]. right. rewrite HD.
    unfold invalid in Hi. bool_hyps. subst r.
    destruct s as [|c s]; [done|]. destruct k as [|[|k]]; [|done|done].
    exfalso. clear -HD. unfold DecodeRuneInString in HD. by repeat case_match.
  - destruct (Decode_inv s r k HD Hi Hne) as (s' & -> & Hv & ->).
    destruct (IH (String.length s')) with (s := s') as (rs & bad & -> & Hrs & Hbad); [|done|].
    { rewrite length_app_str. pose proof (EncodeRune_length r). lia. }
    exists (r :: rs), bad. simpl. rewrite app_str_assoc. eauto.
Qed.

(** An error of the loop is an error of its body. *)
Lemma scan_Some {E} (f : Z → nat → option E) k s e :
  scan f k s = Some e → ∃ r n, f r n = Some e.
Proof.
  revert k; induction s as [|c s IH]; intros k; [done|]. destruct k as [|k]; [|apply IH].
  cbn [scan]. destruct (DecodeRuneInString (String c s)) as [r n].
  destruct (f r n) as [e'|] eqn:Hf; [intros [= ->]; eauto|apply IH].
Qed.

Lemma scan_EncodeRunes {E} (f : Z → nat → option E) rs s :
  Forall (λ r, ValidRune r = true) rs →
  (∀ r, r ∈ rs → f r (String.length (EncodeRune r)) = None) →
  scan f 0 (EncodeRunes rs +:+ s) = scan f 0 s.
Proof.
  induction 1 as [|r rs Hr _ IH]; intros Hf; [done|]. simpl.
  rewrite app_str_assoc, scan_EncodeRune by done.
  rewrite Hf by set_solver. apply IH. set_solver.
Qed.

(** A loop that refuses invalid bytes ends without an error exactly on the
    texts of runes it accepts. *)
Lemma scan_None_spec {E} (f : Z → nat → option E) s :
  f RuneError 1%nat ≠ None →
  scan f 0 s = None ↔
    ∃ rs, s = EncodeRunes rs ∧ Forall (λ r, ValidRune r = true) rs ∧
      Forall (λ r, f r (String.length (EncodeRune r)) = None) rs.
Proof.
  intros Hbad. split.
  - destruct (runes_of s) as (rs & bad & -> & Hrs & Hb). intros H.
    assert (Forall (λ r, f r (String.length (EncodeRune r)) = None) rs) as Hf.
    { clear Hb. induction Hrs as [|r rs Hr _ IH]; constructor.
      - simpl in H. rewrite app_str_assoc, scan_EncodeRune in H by done.
        by destruct (f r _).
      - apply IH. simpl in H. rewrite app_str_assoc, scan_EncodeRune in H by done.
        by destruct (f r _). }
    rewrite scan_EncodeRunes in H by (try done; by apply Forall_forall).
    exists rs. destruct Hb as [->|HD]; [by rewrite app_str_nil|].
    destruct bad as [|c bad]; [by rewrite app_str_nil|].
    cbn [scan] in H. rewrite HD in H. by destruct (f RuneError 1%nat).
  - intros (rs & -> & Hrs & Hf). rewrite <-(app_str_nil (EncodeRunes rs)).
    rewrite scan_EncodeRunes; [done..|]. by apply Forall_forall.
Qed.

Lemma invalid_EncodeRune r :
  ValidRune r = true → invalid r (String.length (EncodeRune r)) = false.
Proof.
  intros Hr. unfold invalid. destruct (Z.eqb_spec r RuneError) as [->|]; [done|done].
Qed.

Lemma Valid_spec s :
  Valid s = true ↔ ∃ rs, s = EncodeRunes rs ∧ Forall (λ r, ValidRune r = true) rs.
Proof.
  unfold Valid. set (f := λ (r : Z) (size : nat), if invalid r size then Some tt else None).
  transitivity (scan f 0 s = None); [by destruct (scan f 0 s)|].
  rewrite scan_None_spec by done. split.
  - intros (rs & -> & Hrs & _). eauto.
  - intros (rs & -> & Hrs). exists rs. split; [done|]. split; [done|].
    eapply Forall_impl; [exact Hrs|]. intros r Hr. unfold f.
    by rewrite invalid_EncodeRune.
Qed.

Lemma EncodeRunes_app rs rs' : EncodeRunes (rs ++ rs') = EncodeRunes rs +:+ EncodeRunes rs'.
Proof. induction rs as [|r rs IH]; simpl; [done|]. by rewrite IH, app_str_assoc. Qed.

Lemma Valid_app a b : Valid a = true → Valid b = true → Valid (a +:+ b) = true.
Proof.
  rewrite !Valid_spec. intros (ra & -> & Ha) (rb & -> & Hb).
  exists (ra ++ rb). rewrite EncodeRunes_app. split; [done|]. by apply Forall_app.
Qed.

(** An ASCII string is the text of its bytes. *)
Lemma EncodeRune_ascii c : code c < 0x80 → EncodeRune (code c) = str1 c.
Proof.
  intros Hc. pose proof (code_range c). unfold EncodeRune.
  replace (ValidRune (code c)) with true by (symmetry; apply ValidRune_spec; lia).
  destruct (Z.ltb_spec (code c) 0x80); [|lia]. by rewrite byte_of_code.
Qed.

Lemma Valid_ascii s : str_forall (λ c, code c <? 0x80) s = true → Valid s = true.
Proof.
  intros H. apply Valid_spec. induction s as [|c s IH]; [by exists []|].
  simpl in H. apply andb_true_iff in H as [Hc H]. apply Z.ltb_lt in Hc.
  destruct (IH H) as (rs & -> & Hrs). pose proof (code_range c).
  exists (code c :: rs). simpl. rewrite EncodeRune_ascii by done. split; [done|].
  constructor; [apply ValidRune_spec; lia|done].
Qed.

(** The bytes of a rune above ASCII are all above ASCII. *)
Lemma EncodeRune_high r : 0x80 ≤ r → ValidRune r = true →
  str_forall (λ c, 0x80 <=? code c) (EncodeRune r) = true.
Proof.
  intros Hr Hv. unfold EncodeRune. rewrite Hv. apply ValidRune_spec in Hv. unfold str1.
  destruct (Z.ltb_spec r 0x80); [lia|]. destruct (Z.ltb_spec r 0x800);
    [|destruct (Z.ltb_spec r 0x10000)]; cbn [str_forall]; rewrite !code_byte_of by lia;
    rewrite !andb_true_iff, ?Z.leb_le; lia.
Qed.
