(* ===== verification/GoStd.v ===== *)
(** * Go's strings and strconv

    The functions of the standard library that the modelled code calls. *)

From S2P Require Import Prelude.
Local Open Scope Z_scope.
Local Open Scope go_scope.

(** ** strings *)
Module strings.

Definition HasPrefix (s pre : string) : bool :=
  match strip_prefix pre s with Some _ => true | None => false end.

(** [strings.Split(s, sep)] for a one-byte separator. *)
Fixpoint Split (s : string) (sep : ascii) : list string :=
  match s with
  | ε => [ε]
  | String c s' =>
      match Split s' sep with
      | [] => []
      | w :: ws => if c =b sep then ε :: w :: ws else String c w :: ws
      end
  end.

(** [strings.Join] *)
Fixpoint Join (ws : list string) (sep : string) : string :=
  match ws with
  | [] => ε
  | [w] => w
  | w :: ws' => w +:+ sep +:+ Join ws' sep
  end.

(** [strings.HasSuffix] *)
Fixpoint HasSuffix (s suf : string) : bool :=
  String.eqb s suf || match s with ε => false | String _ s' => HasSuffix s' suf end.

(** [strings.Contains] *)
Fixpoint Contains (s sub : string) : bool :=
  HasPrefix s sub || match s with ε => false | String _ s' => Contains s' sub end.

(** The last byte of a string. *)
Fixpoint last (s : string) : option ascii :=
  match s with
  | ε => None
  | String c ε => Some c
  | String _ s' => last s'
  end.

(** [s[:len(s)-1]] *)
Fixpoint init (s : string) : string :=
  match s with
  | ε => ε
  | String _ ε => ε
  | String c s' => String c (init s')
  end.

(** [strings.HasSuffix(s, string(c))] for one byte. *)
Definition HasSuffixByte (s : string) (c : ascii) : bool :=
  match last s with Some d => d =b c | None => false end.

(** [strings.LastIndex(s, string(c))] for one byte, with [s] split there:
    the text before and after the last [c]. *)
Fixpoint CutLast (s : string) (c : ascii) : option (string * string) :=
  match s with
  | ε => None
  | String d s' =>
      match CutLast s' c with
      | Some (a, b) => Some (String d a, b)
      | None => if d =b c then Some (ε, s') else None
      end
  end.

Definition lower (c : ascii) : ascii :=
  if between "A" "Z" c then byte_of (code c + 32) else c.

(** [strings.ToLower] of an ASCII string: letters are folded byte by byte. *)
Definition ToLowerASCII (s : string) : string := str_map lower s.

Lemma HasPrefix_spec s pre : HasPrefix s pre = true ↔ ∃ r, s = pre +:+ r.
Proof.
  unfold HasPrefix. destruct (strip_prefix pre s) as [r|] eqn:E.
  - apply strip_prefix_Some in E. naive_solver.
  - split; [done|]. intros [r ->]. by rewrite strip_prefix_app in E.
Qed.

Lemma Split_nonempty s sep : Split s sep ≠ [].
Proof.
  induction s as [|c s IH]; [done|]. simpl. destruct (Split s sep); [done|]. by case_match.
Qed.

(** Joining the parts gives the string back. *)
Lemma Join_Split s sep : Join (Split s sep) (str1 sep) = s.
Proof.
  induction s as [|c s IH]; [done|]. simpl.
  pose proof (Split_nonempty s sep). destruct (Split s sep) as [|w ws]; [done|].
  destruct (Ascii.eqb_spec c sep) as [->|_].
  - change (Join (ε :: w :: ws) (str1 sep)) with (ε +:+ str1 sep +:+ Join (w :: ws) (str1 sep)).
    by rewrite IH.
  - destruct ws; simpl in *; rewrite ?app_cons_str; by f_equal.
Qed.

Lemma Split_no_sep s sep :
  Forall (λ w, str_forall (λ c, negb (c =b sep)) w = true) (Split s sep).
Proof.
  induction s as [|c s IH]; [by repeat constructor|]. simpl.
  destruct (Split s sep) as [|w ws]; [constructor|]. inv IH.
  destruct (c =b sep) eqn:E; repeat constructor; auto. simpl. by rewrite E.
Qed.

(** Splitting parts joined by a byte none of them has gives them back. *)
Lemma Split_app_no_sep w s sep :
  str_forall (λ c, negb (c =b sep)) w = true →
  Split (w +:+ String sep s) sep = w :: Split s sep.
Proof.
  induction w as [|c w IH]; intros H.
  - rewrite app_nil_str. simpl. pose proof (Split_nonempty s sep).
    destruct (Split s sep); [done|]. by rewrite Ascii.eqb_refl.
  - simpl in H. apply andb_true_iff in H as [Hc Hw]. rewrite app_cons_str. simpl.
    rewrite (IH Hw). by destruct (c =b sep).
Qed.

Lemma Split_none w sep :
  str_forall (λ c, negb (c =b sep)) w = true → Split w sep = [w].
Proof.
  induction w as [|c w IH]; intros H; [done|].
  simpl in H. apply andb_true_iff in H as [Hc Hw]. simpl. rewrite (IH Hw).
  by destruct (c =b sep).
Qed.

Lemma last_None s : last s = None → s = ε.
Proof. induction s as [|c s IH]; [done|]. destruct s; [done|]. intros H. by apply IH in H. Qed.

Lemma last_init s c : last s = Some c → s = init s +:+ str1 c.
Proof.
  induction s as [|d s IH]; [done|]. destruct s as [|e s]; [by intros [= ->]|].
  intros H. change (init (String d (String e s))) with (String d (init (String e s))).
  rewrite app_cons_str. f_equal. by apply IH.
Qed.

Lemma init_snoc s c : init (s +:+ str1 c) = s.
Proof.
  induction s as [|d s IH]; [done|]. rewrite app_cons_str.
  destruct s as [|e s]; [done|]. rewrite app_cons_str in *.
  change (init (String d (String e (s +:+ str1 c))))
    with (String d (init (String e (s +:+ str1 c)))). by rewrite IH.
Qed.

Lemma last_snoc s c : last (s +:+ str1 c) = Some c.
Proof.
  induction s as [|d s IH]; [done|]. rewrite app_cons_str.
  destruct s as [|e s]; [done|]. rewrite app_cons_str in *. exact IH.
Qed.

(** Splitting what was joined, the parts holding no separator. *)
Lemma Split_Join ws sep :
  ws ≠ [] → Forall (λ w, str_forall (λ c, negb (c =b sep)) w = true) ws →
  Split (Join ws (str1 sep)) sep = ws.
Proof.
  intros Hne. induction 1 as [|w ws Hw Hws IH]; [done|]. destruct ws as [|w' ws].
  { by apply Split_none. }
  change (Join (w :: w' :: ws) (str1 sep)) with (w +:+ String sep (Join (w' :: ws) (str1 sep))).
  rewrite Split_app_no_sep by done. by rewrite IH.
Qed.

Lemma Split_snoc x sep : Split (x +:+ str1 sep) sep = Split x sep ++ [ε].
Proof.
  induction x as [|c x IH].
  - rewrite app_nil_str. simpl. by rewrite Ascii.eqb_refl.
  - rewrite app_cons_str. simpl. rewrite IH. pose proof (Split_nonempty x sep).
    destruct (Split x sep) as [|w ws]; [done|]. simpl. by destruct (c =b sep).
Qed.

Lemma Join_forall f ws sep :
  str_forall f sep = true →
  str_forall f (Join ws sep) = true ↔ Forall (λ w, str_forall f w = true) ws.
Proof.
  intros Hsep. induction ws as [|w ws IH]; [by split; [constructor|]|].
  rewrite Forall_cons, <-IH. destruct ws as [|w' ws].
  - simpl. tauto.
  - change (Join (w :: w' :: ws) sep) with (w +:+ sep +:+ Join (w' :: ws) sep).
    rewrite !str_forall_app, Hsep, !andb_true_iff. tauto.
Qed.

Lemma CutLast_app a c b :
  str_forall (λ d, negb (d =b c)) b = true → CutLast (a +:+ String c b) c = Some (a, b).
Proof.
  intros Hb. assert (CutLast b c = None) as Hn.
  { induction b as [|d b IH]; [done|]. simpl in *. apply andb_true_iff in Hb as [Hd Hb].
    rewrite IH by done. by destruct (d =b c). }
  induction a as [|d a IH]; [rewrite app_nil_str; simpl; by rewrite Hn, Ascii.eqb_refl|].
  rewrite app_cons_str. simpl. by rewrite IH.
Qed.

Lemma CutLast_Some s c a b :
  CutLast s c = Some (a, b) → s = a +:+ String c b ∧ str_forall (λ d, negb (d =b c)) b = true.
Proof.
  revert a b; induction s as [|d s IH]; intros a b; [done|]. simpl.
  destruct (CutLast s c) as [[a' b']|] eqn:E.
  - intros [= <- <-]. destruct (IH a' b' eq_refl) as [-> Hb]. by rewrite app_cons_str.
  - destruct (Ascii.eqb_spec d c) as [->|]; [|done]. intros [= <- <-]. split; [done|].
    clear -E. induction s as [|e s IH]; [done|]. simpl in *.
    destruct (CutLast s c) as [[]|]; [done|]. destruct (e =b c); [done|]. by apply IH.
Qed.

End strings.

(** ** strconv *)
Module strconv.

(** The value of a string of decimal digits, from the left. *)
Fixpoint digits (acc : Z) (s : string) : Z :=
  match s with
  | ε => acc
  | String c s' => digits (acc * 10 + (code c - code "0")) s'
  end.

Definition isDigit (c : ascii) : bool := between "0" "9" c.

(** [strconv.ParseUint(s, 10, bits)]: an error on an empty string, a byte
    that is no digit, or a value of [2^bits] or more. *)
Definition ParseUint (s : string) (bits : Z) : option Z :=
  if (s =s ε) || negb (str_forall isDigit s) then None
  else let n := digits 0 s in if n <? 2 ^ bits then Some n else None.

(** The value [strconv.ParseUint(s, 10, bits)] returns beside its error: 0 on
    a syntax error and the largest value on a range error. *)
Definition ParseUint_value (s : string) (bits : Z) : Z :=
  if (s =s ε) || negb (str_forall isDigit s) then 0
  else let n := digits 0 s in if n <? 2 ^ bits then n else 2 ^ bits - 1.

(** The value [strconv.ParseInt(s, 10, bits)] returns beside its error. *)
Definition ParseInt_value (s : string) (bits : Z) : Z :=
  let '(neg, d) := match s with
    | String c s' => if Ascii.eqb c "+" then (false, s') else if Ascii.eqb c "-" then (true, s') else (false, s)
    | ε => (false, s)
    end in
  let un := ParseUint_value d bits in
  let cutoff := 2 ^ (bits - 1) in
  if negb neg && (cutoff <=? un) then cutoff - 1
  else if neg && (cutoff <? un) then - cutoff
  else if neg then - un else un.

(** [strconv.FormatUint(n, 10)]; [fuel] bounds the number of digits. *)
Fixpoint format_go (fuel : nat) (n : Z) (acc : string) : string :=
  match fuel with
  | O => acc
  | S k =>
      let acc := String (byte_of (code "0" + n mod 10)) acc in
      if n <? 10 then acc else format_go k (n / 10) acc
  end.

(** A number below [2^n] has at most [n] decimal digits, so this fuel is
    enough for every non-negative [Z]. *)
Definition FormatUint (n : Z) : string := format_go (S (Z.to_nat (Z.log2 n))) n ε.

(** [strconv.FormatInt(n, 10)] *)
Definition FormatInt (n : Z) : string :=
  if n <? 0 then String "-" (FormatUint (- n)) else FormatUint n.

Lemma digits_app acc a b : digits acc (a +:+ b) = digits (digits acc a) b.
Proof. revert acc; induction a as [|c a IH]; intros acc; [done|]. apply IH. Qed.

Lemma digits_nonneg acc s : 0 ≤ acc → str_forall isDigit s = true → acc ≤ digits acc s.
Proof.
  revert acc; induction s as [|c s IH]; intros acc Ha H; [done|]. simpl in *.
  apply andb_true_iff in H as [Hc Hs]. unfold isDigit, between in Hc. bool_hyps.
  change (code "0") with 48 in *. change (code "9") with 57 in *.
  transitivity (acc * 10 + (code c - 48)); [lia|]. apply IH; [lia|done].
Qed.

Lemma digit_code n : 0 ≤ n < 10 → code (byte_of (code "0" + n)) - code "0" = n.
Proof. intros. change (code "0") with 48. rewrite code_byte_of by lia. lia. Qed.

Lemma isDigit_byte n : 0 ≤ n < 10 → isDigit (byte_of (code "0" + n)) = true.
Proof.
  intros. unfold isDigit, between. change (code "0") with 48. change (code "9") with 57.
  rewrite code_byte_of by lia. apply andb_true_iff. rewrite !Z.leb_le. lia.
Qed.

Lemma format_go_digits fuel n acc :
  0 ≤ n < 10 ^ Z.of_nat fuel →
  ∃ d, format_go fuel n acc = d +:+ acc ∧ str_forall isDigit d = true ∧ digits 0 d = n ∧
    (fuel ≠ 0%nat → d ≠ ε).
Proof.
  revert n acc. induction fuel as [|k IH]; intros n acc Hn.
  { exists ε. simpl in *. repeat split; [lia|done]. }
  simpl. destruct (Z.ltb_spec n 10).
  - exists (str1 (byte_of (code "0" + n mod 10))). rewrite Z.mod_small by lia.
    rewrite str1_app. split; [done|]. simpl. rewrite isDigit_byte, digit_code by lia. done.
  - destruct (IH (n / 10) (String (byte_of (code "0" + n mod 10)) acc)) as (d & -> & Hd & Hv & _).
    { rewrite Nat2Z.inj_succ, Z.pow_succ_r in Hn by lia. lia. }
    exists (d +:+ str1 (byte_of (code "0" + n mod 10))).
    rewrite app_str_assoc, str1_app, str_forall_app, digits_app, Hd, Hv. simpl.
    rewrite isDigit_byte, digit_code by lia. split; [done|]. split; [done|]. split; [lia|].
    intros _. by destruct d.
Qed.

Lemma FormatUint_digits n :
  0 ≤ n → str_forall isDigit (FormatUint n) = true ∧ digits 0 (FormatUint n) = n ∧ FormatUint n ≠ ε.
Proof.
  intros Hn. unfold FormatUint.
  destruct (format_go_digits (S (Z.to_nat (Z.log2 n))) n ε) as (d & -> & Hd & Hv & Hne).
  { split; [done|]. rewrite Nat2Z.inj_succ, Z2Nat.id by apply Z.log2_nonneg.
    destruct (decide (n = 0)) as [->|]; [done|].
    apply Z.lt_le_trans with (2 ^ Z.succ (Z.log2 n)); [apply Z.log2_spec; lia|].
    apply Z.pow_le_mono_l. lia. }
  rewrite app_str_nil. auto.
Qed.

(** Reading back what was written. *)
Lemma ParseUint_FormatUint n bits :
  0 ≤ n < 2 ^ bits → ParseUint (FormatUint n) bits = Some n.
Proof.
  intros Hn. destruct (FormatUint_digits n) as (Hd & Hv & Hne); [lia|].
  unfold ParseUint. rewrite Hd, Hv. apply String.eqb_neq in Hne as ->. simpl.
  destruct (Z.ltb_spec n (2 ^ bits)); [done|lia].
Qed.

(** ** The decimal form is unique *)

Definition digit (n : Z) : ascii := byte_of (code "0" + n).

Lemma format_go_acc fuel n acc : format_go fuel n acc = format_go fuel n ε +:+ acc.
Proof.
  revert n acc. induction fuel as [|k IH]; intros n acc; [done|]. simpl.
  destruct (n <? 10); [done|]. rewrite IH, (IH _ (String _ ε)). by rewrite app_str_assoc.
Qed.

Lemma format_go_fuel k : ∀ k' n, 0 ≤ n < 10 ^ Z.of_nat (S k) → 0 ≤ n < 10 ^ Z.of_nat (S k') →
  format_go (S k) n ε = format_go (S k') n ε.
Proof.
  induction k as [|k IH]; intros k' n Hn Hn'.
  - simpl. destruct (Z.ltb_spec n 10); [done|]. change (10 ^ Z.of_nat 1) with 10 in Hn. lia.
  - destruct k' as [|k'].
    + simpl. destruct (Z.ltb_spec n 10); [done|]. change (10 ^ Z.of_nat 1) with 10 in Hn'. lia.
    + rewrite Nat2Z.inj_succ, Z.pow_succ_r in Hn, Hn' by lia. cbn [format_go].
      destruct (n <? 10); [done|].
      change (format_go (S k) (n / 10) (String (byte_of (code "0" + n mod 10)) ε) =
              format_go (S k') (n / 10) (String (byte_of (code "0" + n mod 10)) ε)).
      rewrite (format_go_acc (S k)), (format_go_acc (S k')), (IH k'); [done|lia|lia].
Qed.

Lemma FormatUint_fuel n k : 0 ≤ n < 10 ^ Z.of_nat (S k) → FormatUint n = format_go (S k) n ε.
Proof.
  intros Hn. unfold FormatUint. apply format_go_fuel; [|done]. split; [lia|].
  rewrite Nat2Z.inj_succ, Z2Nat.id by apply Z.log2_nonneg.
  destruct (decide (n = 0)) as [->|]; [done|].
  apply Z.lt_le_trans with (2 ^ Z.succ (Z.log2 n)); [apply Z.log2_spec; lia|].
  apply Z.pow_le_mono_l. lia.
Qed.

Lemma FormatUint_small n : 0 ≤ n < 10 → FormatUint n = str1 (digit n).
Proof.
  intros. rewrite (FormatUint_fuel n 0) by (simpl; lia). simpl.
  destruct (Z.ltb_spec n 10); [|lia]. rewrite Z.mod_small by lia. done.
Qed.

Lemma FormatUint_step n : 10 ≤ n → FormatUint n = FormatUint (n / 10) +:+ str1 (digit (n mod 10)).
Proof.
  intros Hn. assert (∃ k, n < 10 ^ Z.of_nat (S k)) as [k Hk].
  { exists (Z.to_nat n). rewrite Nat2Z.inj_succ, Z2Nat.id by lia.
    apply Z.lt_le_trans with (10 ^ n); [apply Z.pow_gt_lin_r; lia|]. apply Z.pow_le_mono_r; lia. }
  rewrite (FormatUint_fuel n (S k)), (FormatUint_fuel (n / 10) k).
  - cbn [format_go]. destruct (Z.ltb_spec n 10); [lia|].
    change (format_go (S k) (n / 10) (String (digit (n mod 10)) ε) =
            format_go (S k) (n / 10) ε +:+ str1 (digit (n mod 10))).
    by rewrite format_go_acc.
  - lia.
  - rewrite (Nat2Z.inj_succ (S k)), Z.pow_succ_r by lia. lia.
Qed.

Lemma FormatUint_length n k : 0 ≤ n < 10 ^ Z.of_nat (S k) → (String.length (FormatUint n) ≤ S k)%nat.
Proof.
  revert n. induction k as [|k IH]; intros n Hn.
  - rewrite FormatUint_small by (simpl in Hn; lia). done.
  - destruct (Z.ltb_spec n 10); [rewrite FormatUint_small by lia; simpl; lia|].
    rewrite FormatUint_step, length_app_str by lia. specialize (IH (n / 10)).
    rewrite Nat2Z.inj_succ, Z.pow_succ_r in Hn by lia. simpl. lia.
Qed.

Lemma isDigit_inv c : isDigit c = true → ∃ n, 0 ≤ n < 10 ∧ c = digit n ∧ code c - code "0" = n.
Proof.
  intros H. unfold isDigit, between in H. bool_hyps.
  change (code "0") with 48 in *. change (code "9") with 57 in *.
  exists (code c - 48). split; [lia|]. split; [|done]. unfold digit. change (code "0") with 48.
  replace (48 + (code c - 48)) with (code c) by lia. by rewrite byte_of_code.
Qed.

(** A digit string that does not start with a zero is the decimal form of its
    value. *)
Lemma FormatUint_of_digits c s :
  isDigit c = true → c ≠ "0"%char → str_forall isDigit s = true →
  FormatUint (digits 0 (String c s)) = String c s.
Proof.
  intros Hc Hne. remember (String.length s) as m eqn:Hm. revert s Hm.
  destruct (isDigit_inv c Hc) as (n & Hn & Hcn & Hv).
  assert (0 < n). { assert (n ≠ 0); [|lia]. intros ->. by subst c. }
  induction m as [|m IH]; intros s Hm Hs.
  { destruct s; [|done]. cbn [digits]. rewrite Hv. rewrite FormatUint_small by lia. by subst c. }
  destruct (strings.last s) as [d|] eqn:Hl; [|by apply strings.last_None in Hl as ->].
  apply strings.last_init in Hl. set (s' := strings.init s) in *. clearbody s'. subst s.
  rewrite str_forall_app in Hs. apply andb_true_iff in Hs as [Hs Hd]. simpl in Hd. rewrite andb_true_r in Hd.
  rewrite length_app_str in Hm. simpl in Hm. specialize (IH s' ltac:(lia) Hs).
  change (String c (s' +:+ str1 d)) with (String c s' +:+ str1 d). rewrite digits_app.
  set (v := digits 0 (String c s')) in *. destruct (isDigit_inv d Hd) as (k & Hk & -> & Hkv).
  assert (1 ≤ v).
  { subst v. cbn [digits]. rewrite Hv. pose proof (digits_nonneg (0 * 10 + n) s' ltac:(lia) Hs). lia. }
  cbn [digits str1]. rewrite Hkv. rewrite FormatUint_step by lia.
  replace ((v * 10 + k) / 10) with v by lia. replace ((v * 10 + k) mod 10) with k by lia.
  by rewrite IH.
Qed.

(** A number whose decimal form has at most [k] digits is below [10^k]. *)
Lemma digits_bound s : ∀ acc, 0 ≤ acc → str_forall isDigit s = true →
  digits acc s < (acc + 1) * 10 ^ Z.of_nat (String.length s).
Proof.
  induction s as [|c s IH]; intros acc Ha H; [simpl; lia|].
  cbn [str_forall] in H. apply andb_true_iff in H as [Hc Hs].
  destruct (isDigit_inv c Hc) as (n & Hn & _ & Hv). cbn [digits String.length]. rewrite Hv.
  specialize (IH (acc * 10 + n) ltac:(lia) Hs). rewrite Nat2Z.inj_succ, Z.pow_succ_r by lia.
  assert (0 < 10 ^ Z.of_nat (String.length s)) by (apply Z.pow_pos_nonneg; lia). nia.
Qed.

Lemma FormatUint_short n k :
  0 ≤ n → (String.length (FormatUint n) ≤ k)%nat → n < 10 ^ Z.of_nat k.
Proof.
  intros Hn Hk. destruct (FormatUint_digits n Hn) as (Hd & Hv & _).
  pose proof (digits_bound _ 0 ltac:(lia) Hd) as Hb. rewrite Hv in Hb.
  apply Z.lt_le_trans with (10 ^ Z.of_nat (String.length (FormatUint n))); [lia|].
  apply Z.pow_le_mono_r; lia.
Qed.

Lemma ParseUint_value_FormatUint n bits : 0 ≤ n < 2 ^ bits → ParseUint_value (FormatUint n) bits = n.
Proof.
  intros Hn. destruct (FormatUint_digits n) as (Hd & Hv & Hne); [lia|].
  unfold ParseUint_value. rewrite Hd, Hv. apply String.eqb_neq in Hne as ->. simpl.
  destruct (Z.ltb_spec n (2 ^ bits)); [done|lia].
Qed.

(** The first byte of a decimal form, zero only for zero. *)
Lemma FormatUint_head n : 0 ≤ n → ∃ c s, FormatUint n = String c s ∧
  isDigit c = true ∧ str_forall isDigit s = true ∧ (c = "0"%char → n = 0 ∧ s = ε).
Proof.
  intros Hn. assert (∃ m, n ≤ Z.of_nat m) as [m Hm] by (exists (Z.to_nat n); lia).
  revert n Hn Hm. induction m as [|m IH]; intros n Hn Hm.
  { replace n with 0 by lia. rewrite FormatUint_small by lia. by eexists _, ε. }
  destruct (Z.ltb_spec n 10).
  - rewrite FormatUint_small by lia. exists (digit n), ε. split; [done|].
    split; [by apply isDigit_byte|]. split; [done|]. intros H0%(f_equal code).
    unfold digit in H0. rewrite code_byte_of in H0 by (change (code "0") with 48; lia).
    split; [lia|done].
  - destruct (IH (n / 10)) as (c & s & Hf & Hc & Hs & H0); [lia..|].
    rewrite FormatUint_step, Hf by lia. exists c, (s +:+ str1 (digit (n mod 10))).
    split; [done|]. split; [done|]. rewrite str_forall_app, Hs. simpl.
    split; [unfold digit; by rewrite isDigit_byte by lia|]. intros [? ?]%H0. lia.
Qed.

Lemma ParseInt_value_FormatUint n bits : 0 < bits → 0 ≤ n < 2 ^ (bits - 1) → ParseInt_value (FormatUint n) bits = n.
Proof.
  intros Hb Hn. assert (n < 2 ^ bits) as Hn'.
  { apply Z.lt_le_trans with (2 ^ (bits - 1)); [lia|]. apply Z.pow_le_mono_r; lia. }
  unfold ParseInt_value.
  destruct (FormatUint_head n) as (c & s & Hf & Hc & _); [lia|].
  assert (match FormatUint n with
    | String c s' => if Ascii.eqb c "+" then (false, s') else if Ascii.eqb c "-" then (true, s') else (false, FormatUint n)
    | ε => (false, FormatUint n) end = (false, FormatUint n)) as ->.
  { rewrite Hf. revert Hc. clear. by all_bytes c. }
  rewrite ParseUint_value_FormatUint by lia. simpl.
  destruct (Z.leb_spec (2 ^ (bits - 1)) n); [lia|done].
Qed.

End strconv.

(** ** Binary search

    [sort.Search] of Go's standard library, and what it finds. *)


(** [sort.Search] over the indices from [i], of which there are [j - i]: the
    least index at which [f] holds. *)
Fixpoint sort_Search (fuel : nat) (f : nat → bool) (i j : nat) : nat :=
  match fuel with
  | O => i
  | S fuel =>
      if (i <? j)%nat then
        let h := ((i + j) / 2)%nat in
        if negb (f h) then sort_Search fuel f (S h) j else sort_Search fuel f i h
      else i
  end.

(** [sort.SearchStrings(a, x)] *)
Definition SearchStrings (a : list string) (x : string) : nat :=
  sort_Search (length a) (λ i, String.leb x (default ε (a !! i))) 0 (length a).

Section search.
Context (f : nat → bool) (Hmono : ∀ i j, (i ≤ j)%nat → f i = true → f j = true).

(** Halving reaches the least index of [i..j] at which [f] holds, [j] when
    there is none below it. *)
Lemma sort_Search_least fuel i j : (j - i ≤ fuel)%nat → (i ≤ j)%nat →
  let h := sort_Search fuel f i j in
  (i ≤ h ≤ j)%nat ∧ (∀ k, (i ≤ k < h)%nat → f k = false) ∧ ((h < j)%nat → f h = true).
Proof.
  revert i j. induction fuel as [|fuel IH]; intros i j Hf Hij; cbn [sort_Search]; cbv zeta;
    [split_and!; intros; lia|].
  destruct (Nat.ltb_spec i j) as [Hlt|?]; [|split_and!; intros; lia].
  set (h := ((i + j) / 2)%nat).
  assert (i ≤ h < j)%nat as [Hih Hhj].
  { subst h. split; [apply Nat.div_le_lower_bound; lia|apply Nat.Div0.div_lt_upper_bound; lia]. }
  clearbody h. destruct (f h) eqn:E; simpl.
  all: cbn [negb].
  - destruct (IH i h ltac:(lia) ltac:(lia)) as (Hb & Hlo & Hhi).
    split_and!; [lia|lia|exact Hlo|]. intros _.
    destruct (decide (sort_Search fuel f i h < h)%nat); [by apply Hhi|].
    replace (sort_Search fuel f i h) with h by lia. done.
  - destruct (IH (S h) j ltac:(lia) ltac:(lia)) as (Hb & Hlo & Hhi).
    split_and!; [lia|lia| |exact Hhi]. intros k Hk.
    destruct (decide (k ≤ h)%nat); [|apply Hlo; lia].
    destruct (f k) eqn:Ek; [|done]. rewrite (Hmono k h) in E; [done|lia|done].
Qed.
End search.

Lemma StronglySorted_lookup_lt {A} (R : A → A → Prop) l : StronglySorted R l →
  ∀ i j a b, l !! i = Some a → l !! j = Some b → (i < j)%nat → R a b.
Proof.
  induction 1 as [|x l _ IH Hx]; intros [|i] [|j] a b Ha Hb Hij; simplify_eq/=; try lia.
  - rewrite Forall_forall in Hx. apply Hx. by eapply list_elem_of_lookup_2.
  - eapply IH; [done..|lia].
Qed.

(** [SearchStrings] in a sorted list finds a string that is there, the first
    time it is. *)
Lemma SearchStrings_least l x k : StronglySorted (λ a b, String.leb a b = true) l → l !! k = Some x →
  (SearchStrings l x ≤ k)%nat ∧ l !! SearchStrings l x = Some x.
Proof.
  intros Hs Hk.
  (* beyond the end the test holds as it does at the last element *)
  set (f := λ i, String.leb x (default ε (l !! i))).
  set (g := λ i, f i || (length l <=? i)%nat).
  assert (∀ i j, (i ≤ j)%nat → g i = true → g j = true) as Hg.
  { intros i j Hij. unfold g, f. rewrite !orb_true_iff, !Nat.leb_le. intros [H|H]; [|right; lia].
    destruct (decide (length l ≤ j)%nat); [by right|left].
    destruct (lookup_lt_is_Some_2 l i ltac:(lia)) as [a Ha]. destruct (lookup_lt_is_Some_2 l j ltac:(lia)) as [b Hb].
    rewrite Ha in H. rewrite Hb. simpl in *. eapply leb_trans; [exact H|].
    destruct (decide (i = j)) as [<-|]; [assert (a = b) as -> by congruence; apply leb_refl|].
    apply (StronglySorted_lookup_lt _ l Hs i j a b); [done..|lia]. }
  assert (∀ fuel i j, (j ≤ length l)%nat → sort_Search fuel f i j = sort_Search fuel g i j) as Hfg.
  { induction fuel as [|fuel IH]; intros i j Hj; [done|]. cbn [sort_Search]. destruct (Nat.ltb_spec i j); [|done]. cbv zeta.
    assert (((i + j) / 2 < length l)%nat) as Hh by (apply Nat.Div0.div_lt_upper_bound; lia).
    assert (g ((i + j) / 2)%nat = f ((i + j) / 2)%nat) as ->.
    { unfold g. by rewrite (proj2 (Nat.leb_gt _ _) Hh), orb_false_r. }
    destruct (negb _); apply IH; lia. }
  unfold SearchStrings. fold f. rewrite Hfg by done.
  pose proof (lookup_lt_Some _ _ _ Hk) as Hlt.
  destruct (sort_Search_least g Hg (length l) 0 (length l) ltac:(lia) ltac:(lia)) as (Hb & Hlo & Hhi).
  set (h := sort_Search (length l) g 0 (length l)) in *.
  assert (h ≤ k)%nat as Hhk.
  { destruct (decide (h ≤ k)%nat); [done|]. specialize (Hlo k ltac:(lia)). unfold g, f in Hlo.
    rewrite Hk in Hlo. simpl in Hlo. by rewrite leb_refl in Hlo. }
  split; [done|]. destruct (lookup_lt_is_Some_2 l h ltac:(lia)) as [a Ha]. rewrite Ha. f_equal.
  specialize (Hhi ltac:(lia)). unfold g, f in Hhi. rewrite Ha, orb_true_iff, Nat.leb_le in Hhi. simpl in Hhi.
  destruct Hhi as [Hhi|]; [|lia]. destruct (decide (h = k)) as [->|]; [congruence|].
  apply leb_antisym; [|done]. apply (StronglySorted_lookup_lt _ l Hs h k); [done..|lia].
Qed.

Lemma SearchStrings_elem l x : StronglySorted (λ a b, String.leb a b = true) l →
  x ∈ l ↔ l !! SearchStrings l x = Some x.
Proof.
  intros Hs. split; [|apply list_elem_of_lookup_2]. intros [k Hk]%list_elem_of_lookup. by destruct (SearchStrings_least l x k Hs Hk).
Qed.


Lemma sort_Search_ext fuel f g i j : (∀ k, f k = g k) → sort_Search fuel f i j = sort_Search fuel g i j.
Proof.
  intros H. revert i j. induction fuel as [|fuel IH]; intros i j; [done|]. cbn [sort_Search].
  destruct (i <? j)%nat; [|done]. cbv zeta. by rewrite H, !IH.
Qed.
