(* ===== verification/Codes.v ===== *)
(** * Detail codes, errors and retryability

    [codes.go], [retry.go] and [context.go] of [src/internal/tasks/wire]: the
    closed set of detail codes, the [*Error] value with the errors it wraps,
    and the classification that says which refusals the same command may be
    retried after. *)

From S2P Require Import Prelude.
Local Open Scope Z_scope.
Local Open Scope go_scope.

Definition CodeAdjudication : string := "ADJUDICATION".
Definition CodeAdoptUnsupportedField : string := "ADOPT_UNSUPPORTED_FIELD".
Definition CodeApprovalMissing : string := "APPROVAL_MISSING".
Definition CodeApprovalRevoked : string := "APPROVAL_REVOKED".
Definition CodeAttemptLive : string := "ATTEMPT_LIVE".
Definition CodeBootFenced : string := "BOOT_FENCED".
Definition CodeBootTimeout : string := "BOOT_TIMEOUT".
Definition CodeBudgetExceeded : string := "BUDGET_EXCEEDED".
Definition CodeBudgetUnknown : string := "BUDGET_UNKNOWN".
Definition CodeCapabilityUnavailable : string := "CAPABILITY_UNAVAILABLE".
Definition CodeCemMissing : string := "CEM_MISSING".
Definition CodeCommitNotIntegrated : string := "COMMIT_NOT_INTEGRATED".
Definition CodeContaminated : string := "CONTAMINATED".
Definition CodeCoverageUnknown : string := "COVERAGE_UNKNOWN".
Definition CodeCutoverInProgress : string := "CUTOVER_IN_PROGRESS".
Definition CodeCutoverMissing : string := "CUTOVER_MISSING".
Definition CodeCycle : string := "CYCLE".
Definition CodeDependencyMissing : string := "DEPENDENCY_MISSING".
Definition CodeDependencyUnsatisfied : string := "DEPENDENCY_UNSATISFIED".
Definition CodeDevelopmentMode : string := "DEVELOPMENT_MODE".
Definition CodeDirtyWorktree : string := "DIRTY_WORKTREE".
Definition CodeDocsMissing : string := "DOCS_MISSING".
Definition CodeDuplicateID : string := "DUPLICATE_ID".
Definition CodeEffectOwned : string := "EFFECT_OWNED".
Definition CodeEscalationPending : string := "ESCALATION_PENDING".
Definition CodeExternalUnbounded : string := "EXTERNAL_UNBOUNDED".
Definition CodeFenced : string := "FENCED".
Definition CodeGateFailed : string := "GATE_FAILED".
Definition CodeGateStale : string := "GATE_STALE".
Definition CodeGateUnknown : string := "GATE_UNKNOWN".
Definition CodeHandoff : string := "HANDOFF".
Definition CodeIndependenceUnverified : string := "INDEPENDENCE_UNVERIFIED".
Definition CodeIntentBranchMismatch : string := "INTENT_BRANCH_MISMATCH".
Definition CodeIntentDiverged : string := "INTENT_DIVERGED".
Definition CodeInvalidPriority : string := "INVALID_PRIORITY".
Definition CodeJournalForked : string := "JOURNAL_FORKED".
Definition CodeJournalSaturated : string := "JOURNAL_SATURATED".
Definition CodeLimitExceeded : string := "LIMIT_EXCEEDED".
Definition CodeLockTimeout : string := "LOCK_TIMEOUT".
Definition CodeLoopDetected : string := "LOOP_DETECTED".
Definition CodeMalformed : string := "MALFORMED".
Definition CodeMilestoneRequired : string := "MILESTONE_REQUIRED".
Definition CodeMissingEvidence : string := "MISSING_EVIDENCE".
Definition CodeMissingGate : string := "MISSING_GATE".
Definition CodeNoexec : string := "NOEXEC".
Definition CodeOcmMissing : string := "OCM_MISSING".
Definition CodeOutOfScope : string := "OUT_OF_SCOPE".
Definition CodePaused : string := "PAUSED".
Definition CodePlanStale : string := "PLAN_STALE".
Definition CodeProvenanceUnverified : string := "PROVENANCE_UNVERIFIED".
Definition CodePoolMemberRecoveryStalled : string := "POOL_MEMBER_RECOVERY_STALLED".
Definition CodePrerequisiteUnsatisfied : string := "PREREQUISITE_UNSATISFIED".
Definition CodeQuiescenceUnproved : string := "QUIESCENCE_UNPROVED".
Definition CodeRedoPending : string := "REDO_PENDING".
Definition CodeRequestIDConflict : string := "REQUEST_ID_CONFLICT".
Definition CodeResourceCollision : string := "RESOURCE_COLLISION".
Definition CodeResourceExhausted : string := "RESOURCE_EXHAUSTED".
Definition CodeRestored : string := "RESTORED".
Definition CodeRestoreIncomplete : string := "RESTORE_INCOMPLETE".
Definition CodeRetryExhausted : string := "RETRY_EXHAUSTED".
Definition CodeReviewIncomplete : string := "REVIEW_INCOMPLETE".
Definition CodeReviewRejected : string := "REVIEW_REJECTED".
Definition CodeReviewReturned : string := "REVIEW_RETURNED".
Definition CodeSecretDetected : string := "SECRET_DETECTED".
Definition CodeSignalRefusedIdentity : string := "SIGNAL_REFUSED_IDENTITY".
Definition CodeSnapshotMoved : string := "SNAPSHOT_MOVED".
Definition CodeStalePolicy : string := "STALE_POLICY".
Definition CodeStaleTicket : string := "STALE_TICKET".
Definition CodeStaleTree : string := "STALE_TREE".
Definition CodeSupervisorLost : string := "SUPERVISOR_LOST".
Definition CodeSurvivors : string := "SURVIVORS".
Definition CodeTicketHeld : string := "TICKET_HELD".
Definition CodeTicketState : string := "TICKET_STATE".
Definition CodeUncertainEffect : string := "UNCERTAIN_EFFECT".
Definition CodeUninitialized : string := "UNINITIALIZED".
Definition CodeUnpublished : string := "UNPUBLISHED".
Definition CodeUnresolvedFinding : string := "UNRESOLVED_FINDING".
Definition CodeUnsupported : string := "UNSUPPORTED".
Definition CodeUnsupportedFilesystem : string := "UNSUPPORTED_FILESYSTEM".
Definition CodeUnsupportedVersion : string := "UNSUPPORTED_VERSION".

(** The closed set of detail codes. *)
Definition Codes : list string := [
  CodeAdjudication; CodeAdoptUnsupportedField; CodeApprovalMissing; CodeApprovalRevoked;
  CodeAttemptLive; CodeBootFenced; CodeBootTimeout; CodeBudgetExceeded; CodeBudgetUnknown;
  CodeCapabilityUnavailable; CodeCemMissing; CodeCommitNotIntegrated; CodeContaminated;
  CodeCoverageUnknown; CodeCutoverInProgress; CodeCutoverMissing; CodeCycle;
  CodeDependencyMissing; CodeDependencyUnsatisfied; CodeDevelopmentMode; CodeDirtyWorktree;
  CodeDocsMissing; CodeDuplicateID; CodeEffectOwned; CodeEscalationPending;
  CodeExternalUnbounded; CodeFenced; CodeGateFailed; CodeGateStale; CodeGateUnknown;
  CodeHandoff; CodeIndependenceUnverified; CodeIntentBranchMismatch; CodeIntentDiverged;
  CodeInvalidPriority; CodeJournalForked; CodeJournalSaturated; CodeLimitExceeded;
  CodeLockTimeout; CodeLoopDetected; CodeMalformed; CodeMilestoneRequired; CodeMissingEvidence;
  CodeMissingGate; CodeNoexec; CodeOcmMissing; CodeOutOfScope; CodePaused; CodePlanStale;
  CodePoolMemberRecoveryStalled; CodePrerequisiteUnsatisfied; CodeProvenanceUnverified;
  CodeQuiescenceUnproved; CodeRedoPending; CodeRequestIDConflict; CodeResourceCollision;
  CodeResourceExhausted; CodeRestored; CodeRestoreIncomplete; CodeRetryExhausted;
  CodeReviewIncomplete; CodeReviewRejected; CodeReviewReturned; CodeSecretDetected;
  CodeSignalRefusedIdentity; CodeSnapshotMoved; CodeStalePolicy; CodeStaleTicket;
  CodeStaleTree; CodeSupervisorLost; CodeSurvivors; CodeTicketHeld; CodeTicketState;
  CodeUncertainEffect; CodeUninitialized; CodeUnpublished; CodeUnresolvedFinding;
  CodeUnsupported; CodeUnsupportedFilesystem; CodeUnsupportedVersion
].


(** Membership in the map built from [Codes]. *)
Definition IsCode (s : string) : bool := existsb (String.eqb s) Codes.

(** ** Errors

    Go's [error] values as the code builds and inspects them.  A message is
    kept as its format string and operands; nothing in the code branches on
    the formatted text.  [AWrap] is the operand of a [%w] verb, [AMsg] an error
    whose text alone is kept ([%v], or [err.Error()] under [%s]). *)

Inductive fmtargOf (E : Type) : Type :=
  | AStr (s : string)
  | AInt (z : Z)
  | AWrap (e : E)
  | AMsg (e : E).
Arguments AStr {E} s.
Arguments AInt {E} z.
Arguments AWrap {E} e.
Arguments AMsg {E} e.

Record ErrorOf (E : Type) : Type := mkError {
  Code : string;
  Where : string;
  Format : string;
  Args : list (fmtargOf E);
  NotRetryable : bool;
  cause : list E
}.
Arguments mkError {E} _ _ _ _ _ _.
Arguments Code {E} _.
Arguments Where {E} _.
Arguments Format {E} _.
Arguments Args {E} _.
Arguments NotRetryable {E} _.
Arguments cause {E} _.

Inductive errno : Type := EMFILE | ENFILE | ENOSPC | OtherErrno (n : Z).

Inductive ctxerr : Type := DeadlineExceeded | Canceled.

(** The errors that reach the wire package: its own [*Error], the
    [*retryForbiddenError] mark, a [syscall.Errno], the two context errors, a
    plain text, and what [fmt.Errorf] makes of [%w] operands. *)
Inductive goerror : Type :=
  | EWire (e : ErrorOf goerror)
  | EForbidden (e : goerror)
  | EErrno (n : errno)
  | EContext (c : ctxerr)
  | EText (msg : string)
  | EWrap (format : string) (causes : list goerror).

Abbreviation Error := (ErrorOf goerror).
Abbreviation fmtarg := (fmtargOf goerror).

#[global] Instance errno_eq_dec : EqDecision errno.
Proof. solve_decision. Defined.
#[global] Instance ctxerr_eq_dec : EqDecision ctxerr.
Proof. solve_decision. Defined.

(** [fmt.Errorf(format, args...)] unwraps to the operands of its [%w] verbs. *)
Definition wrapped (args : list fmtarg) : list goerror :=
  omap (λ a, match a with AWrap e => Some e | _ => None end) args.

Definition Errorf (detailCode where_ format : string) (args : list fmtarg) : Error :=
  let detailCode := if negb (IsCode detailCode) then CodeMalformed else detailCode in
  mkError detailCode where_ format args false (wrapped args).

(** [errors.As(err, &e)] for [e *Error]: depth first, pre-order. *)
Fixpoint AsError (err : goerror) : option Error :=
  match err with
  | EWire e => Some e
  | EForbidden e => AsError e
  | EWrap _ cs =>
      (fix first l :=
         match l with
         | [] => None
         | e :: l' => match AsError e with Some x => Some x | None => first l' end
         end) cs
  | _ => None
  end.

(** [errors.As(err, &marked)] for [marked *retryForbiddenError]. *)
Fixpoint AsForbidden (err : goerror) : bool :=
  match err with
  | EForbidden _ => true
  | EWire e => match e with mkError _ _ _ _ _ cs => existsb AsForbidden cs end
  | EWrap _ cs => existsb AsForbidden cs
  | _ => false
  end.

(** [errors.Is(err, target)] for a [syscall.Errno]. *)
Fixpoint IsErrno (n : errno) (err : goerror) : bool :=
  match err with
  | EErrno m => bool_decide (m = n)
  | EForbidden e => IsErrno n e
  | EWire e => match e with mkError _ _ _ _ _ cs => existsb (IsErrno n) cs end
  | EWrap _ cs => existsb (IsErrno n) cs
  | _ => false
  end.

(** [errors.Is(err, target)] for a context error. *)
Fixpoint IsContext (c : ctxerr) (err : goerror) : bool :=
  match err with
  | EContext d => bool_decide (d = c)
  | EForbidden e => IsContext c e
  | EWire e => match e with mkError _ _ _ _ _ cs => existsb (IsContext c) cs end
  | EWrap _ cs => existsb (IsContext c) cs
  | _ => false
  end.

(** The code an error carries; [None] is the nil error and the empty string. *)
Definition CodeOf (err : option goerror) : string :=
  match err with
  | None => ε
  | Some err =>
      match AsError err with
      | Some e => e.(Code)
      | None =>
          if IsErrno EMFILE err || IsErrno ENFILE err || IsErrno ENOSPC err
          then CodeResourceExhausted else CodeMalformed
      end
  end.

(** ** Retryability *)

Definition whyFenced : string :=
  "fencing: the attempt or generation really lost and a retry cannot recover it; start a new attempt".
Definition whyInput : string :=
  "the request, payload or recorded input must change first; an identical retry repeats the refusal".
Definition whyReread : string :=
  "a recorded fact moved; re-read and rebuild the request before trying again".
Definition whyActor : string :=
  "another actor, the owner or a recorded state must change first; retry only after that change is observed".
Definition whyResult : string :=
  "an execution or review result, not a contention failure; the same inputs reproduce it".
Definition whyReserved : string :=
  "reserved in §11 with no in-tree producer; unclassified codes are not retryable".
Definition whyCapacity : string :=
  "capacity or storage condition that backoff alone is not known to clear; uncertain, so not retryable".
Definition whyDisposition : string :=
  "a disposition, not a failure; the outcome is final for this request".

Record Retry := { Retryable : bool; Condition : string }.

(** The classification of every code. *)
Definition retries : list (string * Retry) := [
  (CodeResourceExhausted, {| Retryable := true; Condition := "process or system file descriptors, disk space or inotify watches are exhausted (PSR-V0-901); after bounded backoff the identical request with the same --request-id can succeed when pressure clears; explicit post-program or unfinished-commit marks still forbid retry (CAL-V0-215)" |});
  (CodeLockTimeout, {| Retryable := true; Condition := "the store lock or a preparation admission was held by another writer past the wait budget, or the write's context ended before it committed (ATR-V0-050); nothing was locked or written, so the same command with the same --request-id can succeed once the holder releases" |});
  (CodeRedoPending, {| Retryable := true; Condition := "a writer is between receipt link-in and head rename; the read or command can succeed once that writer finishes, and if it outlives the budget the next mutating command redoes the pending receipt" |});
  (CodeSnapshotMoved, {| Retryable := true; Condition := "the store, head, intent tree or worktree changed during a read or before commit; nothing was decided, so the same command can succeed against a quiet snapshot (a release or attestation candidate whose head no longer matches, and a criterion capture wrapping a refused read, repeat until their input changes)" |});
  (CodeFenced, {| Retryable := false; Condition := whyFenced |});
  (CodeBootFenced, {| Retryable := false; Condition := whyFenced |});
  (CodeSupervisorLost, {| Retryable := false; Condition := whyFenced |});
  (CodeLimitExceeded, {| Retryable := false; Condition := "mostly a static size bound; the transient preparation-slot and active-attempt caps share this code, so it is not retryable until they are split" |});
  (CodeJournalSaturated, {| Retryable := false; Condition := whyCapacity |});
  (CodeUnsupportedFilesystem, {| Retryable := false; Condition := whyCapacity |});
  (CodeStaleTicket, {| Retryable := false; Condition := whyReread |});
  (CodeStalePolicy, {| Retryable := false; Condition := whyReread |});
  (CodeStaleTree, {| Retryable := false; Condition := whyReread |});
  (CodeCommitNotIntegrated, {| Retryable := false; Condition := "the commit is in neither the intent branch nor its remote-tracking upstream; integrate it or fetch the upstream, then complete again" |});
  (CodeRequestIDConflict, {| Retryable := false; Condition := whyInput |});
  (CodeMalformed, {| Retryable := false; Condition := whyInput |});
  (CodeMilestoneRequired, {| Retryable := false; Condition := whyInput |});
  (CodeSecretDetected, {| Retryable := false; Condition := whyInput |});
  (CodeProvenanceUnverified, {| Retryable := false; Condition := whyInput |});
  (CodeDuplicateID, {| Retryable := false; Condition := whyInput |});
  (CodeCycle, {| Retryable := false; Condition := whyInput |});
  (CodeDependencyMissing, {| Retryable := false; Condition := whyInput |});
  (CodeInvalidPriority, {| Retryable := false; Condition := whyInput |});
  (CodeGateUnknown, {| Retryable := false; Condition := whyInput |});
  (CodeAdoptUnsupportedField, {| Retryable := false; Condition := whyInput |});
  (CodeOutOfScope, {| Retryable := false; Condition := whyInput |});
  (CodeUnsupported, {| Retryable := false; Condition := whyInput |});
  (CodeUnsupportedVersion, {| Retryable := false; Condition := whyInput |});
  (CodeIntentBranchMismatch, {| Retryable := false; Condition := whyInput |});
  (CodeDirtyWorktree, {| Retryable := false; Condition := whyInput |});
  (CodeAttemptLive, {| Retryable := false; Condition := whyActor |});
  (CodeResourceCollision, {| Retryable := false; Condition := whyActor |});
  (CodePaused, {| Retryable := false; Condition := whyActor |});
  (CodeDependencyUnsatisfied, {| Retryable := false; Condition := whyActor |});
  (CodeTicketHeld, {| Retryable := false; Condition := whyActor |});
  (CodeTicketState, {| Retryable := false; Condition := whyActor |});
  (CodeApprovalMissing, {| Retryable := false; Condition := whyActor |});
  (CodeApprovalRevoked, {| Retryable := false; Condition := whyActor |});
  (CodeCutoverMissing, {| Retryable := false; Condition := whyActor |});
  (CodeQuiescenceUnproved, {| Retryable := false; Condition := whyActor |});
  (CodeRetryExhausted, {| Retryable := false; Condition := whyActor |});
  (CodeGateFailed, {| Retryable := false; Condition := whyActor |});
  (CodeGateStale, {| Retryable := false; Condition := whyActor |});
  (CodeMissingGate, {| Retryable := false; Condition := whyActor |});
  (CodeMissingEvidence, {| Retryable := false; Condition := whyActor |});
  (CodeBudgetUnknown, {| Retryable := false; Condition := whyActor |});
  (CodeCoverageUnknown, {| Retryable := false; Condition := whyActor |});
  (CodeExternalUnbounded, {| Retryable := false; Condition := whyActor |});
  (CodeUninitialized, {| Retryable := false; Condition := whyActor |});
  (CodeRestoreIncomplete, {| Retryable := false; Condition := whyActor |});
  (CodeIntentDiverged, {| Retryable := false; Condition := whyActor |});
  (CodeJournalForked, {| Retryable := false; Condition := whyActor |});
  (CodeEscalationPending, {| Retryable := false; Condition := whyActor |});
  (CodePrerequisiteUnsatisfied, {| Retryable := false; Condition := whyActor |});
  (CodeLoopDetected, {| Retryable := false; Condition := whyActor |});
  (CodePoolMemberRecoveryStalled, {| Retryable := false; Condition := whyActor |});
  (CodeNoexec, {| Retryable := false; Condition := whyResult |});
  (CodeSurvivors, {| Retryable := false; Condition := whyResult |});
  (CodeHandoff, {| Retryable := false; Condition := whyDisposition |});
  (CodeReviewReturned, {| Retryable := false; Condition := whyDisposition |});
  (CodeDevelopmentMode, {| Retryable := false; Condition := whyDisposition |});
  (CodeAdjudication, {| Retryable := false; Condition := whyReserved |});
  (CodeBootTimeout, {| Retryable := false; Condition := whyReserved |});
  (CodeBudgetExceeded, {| Retryable := false; Condition := whyReserved |});
  (CodeCapabilityUnavailable, {| Retryable := false; Condition := whyReserved |});
  (CodeCemMissing, {| Retryable := false; Condition := whyReserved |});
  (CodeContaminated, {| Retryable := false; Condition := whyReserved |});
  (CodeCutoverInProgress, {| Retryable := false; Condition := whyReserved |});
  (CodeDocsMissing, {| Retryable := false; Condition := whyReserved |});
  (CodeEffectOwned, {| Retryable := false; Condition := whyReserved |});
  (CodeIndependenceUnverified, {| Retryable := false; Condition := whyReserved |});
  (CodeOcmMissing, {| Retryable := false; Condition := whyReserved |});
  (CodePlanStale, {| Retryable := false; Condition := whyReserved |});
  (CodeRestored, {| Retryable := false; Condition := whyReserved |});
  (CodeReviewIncomplete, {| Retryable := false; Condition := whyReserved |});
  (CodeReviewRejected, {| Retryable := false; Condition := whyReserved |});
  (CodeSignalRefusedIdentity, {| Retryable := false; Condition := whyReserved |});
  (CodeUncertainEffect, {| Retryable := false; Condition := whyReserved |});
  (CodeUnpublished, {| Retryable := false; Condition := whyReserved |});
  (CodeUnresolvedFinding, {| Retryable := false; Condition := whyReserved |})
].

Definition OutcomeOK : string := "OK".
Definition OutcomeRefused : string := "REFUSED".
Definition OutcomeError : string := "ERROR".
Definition OutcomeNotRun : string := "NOT_RUN".

Fixpoint assoc {A} (k : string) (l : list (string * A)) : option A :=
  match l with
  | [] => None
  | (k', a) :: l' => if k =s k' then Some a else assoc k l'
  end.

Definition RetryOf (c : string) : Retry :=
  match assoc c retries with
  | Some r => r
  | None => {| Retryable := false; Condition := "not a §11 code; not retryable" |}
  end.

(** The envelope's [retryable] member: its value and whether it is present. *)
Definition ResultRetryable (out : string) (codes : list string) : bool * bool :=
  if (out =s OutcomeOK) || (length codes =? 0)%nat then (false, false)
  else (forallb (λ c, (RetryOf c).(Retryable)) codes, true).

Definition WithoutRetry (err : goerror) : goerror :=
  match AsError err with
  | None => if (RetryOf (CodeOf (Some err))).(Retryable) then EForbidden err else err
  | Some e => EWire (mkError e.(Code) e.(Where) e.(Format) e.(Args) true e.(cause))
  end.

Definition RetryForbidden (err : option goerror) : bool :=
  match err with
  | None => false
  | Some err =>
      AsForbidden err || match AsError err with Some e => e.(NotRetryable) | None => false end
  end.

Definition Annotatef (cause_ : option goerror) (where_ format : string) (args : list fmtarg) : Error :=
  let e := Errorf (CodeOf cause_) where_ format args in
  mkError e.(Code) e.(Where) e.(Format) e.(Args) (RetryForbidden cause_) e.(cause).

(** A store write whose context ended becomes the retryable LOCK_TIMEOUT. *)
Definition ContextEnded (err : option goerror) (where_ : string) : option goerror :=
  match err with
  | None => None
  | Some e =>
      if negb (IsContext DeadlineExceeded e || IsContext Canceled e) then err
      else match AsError e with
           | Some _ => err
           | None =>
               Some (EWrap "%w: %w" [
                 EWire (Errorf CodeLockTimeout where_
                   "the store write's context ended (write budget, ceiling or interrupt) before the request completed; retry with the same --request-id" []);
                 e])
           end
  end.

(** ** Lemmas *)

Lemma IsCode_spec s : IsCode s = true ↔ s ∈ Codes.
Proof.
  unfold IsCode. rewrite existsb_exists, list_elem_of_In. split.
  - intros (x & Hx & ->%String.eqb_eq). done.
  - intros H. exists s. split; [done|]. apply String.eqb_refl.
Qed.

Lemma Errorf_code c w f a : IsCode (Errorf c w f a).(Code) = true.
Proof. unfold Errorf. simpl. by destruct (IsCode c) eqn:E; simpl. Qed.

Lemma Errorf_known c w f a : IsCode c = true → (Errorf c w f a).(Code) = c.
Proof. unfold Errorf. simpl. by intros ->. Qed.

Lemma assoc_Some {A} k (l : list (string * A)) a : assoc k l = Some a → (k, a) ∈ l.
Proof.
  induction l as [|[k' b] l IH]; [done|]. simpl. destruct (String.eqb_spec k k') as [->|].
  - intros [= ->]. constructor.
  - intros. constructor. auto.
Qed.

Lemma assoc_None {A} k (l : list (string * A)) : assoc k l = None ↔ k ∉ l.*1.
Proof.
  induction l as [|[k' b] l IH]; simpl; [set_solver|].
  destruct (String.eqb_spec k k') as [->|]; [set_solver|]. rewrite IH. set_solver.
Qed.

Lemma CodeOf_Errorf e : CodeOf (Some (EWire e)) = e.(Code).
Proof. done. Qed.

(** The retryable codes. *)
Definition retryable_codes : list string :=
  [CodeResourceExhausted; CodeLockTimeout; CodeRedoPending; CodeSnapshotMoved].

Lemma RetryOf_spec c : (RetryOf c).(Retryable) = true ↔ c ∈ retryable_codes.
Proof.
  split.
  - unfold RetryOf. destruct (assoc c retries) as [r|] eqn:E; [|done].
    apply assoc_Some in E. intros Hr.
    assert (Forall (λ kr, kr.2.(Retryable) = true → kr.1 ∈ retryable_codes) retries) as H.
    { apply (bool_decide_unpack _). vm_compute. done. }
    rewrite Forall_forall in H. exact (H _ E Hr).
  - intros H. repeat (apply elem_of_cons in H as [->|H]; [reflexivity|]).
    by apply not_elem_of_nil in H.
Qed.

(** ** Retryability of errors

    What the classification of codes promises, and that the mark that forbids
    a retry survives wrapping, annotating and repetition. *)


(** An error whose [*Error]s were built by [Errorf]. *)
Definition well_coded (err : goerror) : Prop :=
  ∀ e, AsError err = Some e → IsCode (Code e) = true.

(** A result that carries this error may not be retried. *)
Definition never_retried (err : goerror) : Prop :=
  RetryForbidden (Some err) = true ∨ (RetryOf (CodeOf (Some err))).(Retryable) = false.

Lemma IsErrno_forbidden n e : IsErrno n (EForbidden e) = IsErrno n e.
Proof. done. Qed.

Lemma CodeOf_WithoutRetry err : CodeOf (Some (WithoutRetry err)) = CodeOf (Some err).
Proof.
  unfold WithoutRetry. destruct (AsError err) as [e|] eqn:E.
  - unfold CodeOf. rewrite E. done.
  - destruct (Retryable _); [|done]. unfold CodeOf. cbn [AsError]. by rewrite E.
Qed.

Lemma WithoutRetry_never err : never_retried (WithoutRetry err).
Proof.
  unfold never_retried. rewrite CodeOf_WithoutRetry. unfold WithoutRetry.
  destruct (AsError err) as [e|] eqn:E.
  - left. cbn. apply orb_true_r.
  - destruct (Retryable _) eqn:Hr; [|by right]. by left.
Qed.

Lemma IsCode_CodeOf err : well_coded err → IsCode (CodeOf (Some err)) = true.
Proof.
  intros Hw. unfold CodeOf. destruct (AsError err) as [e|] eqn:E; [by apply Hw|].
  by case_match.
Qed.

Lemma Annotatef_never err w f args :
  well_coded err → never_retried err → never_retried (EWire (Annotatef (Some err) w f args)).
Proof.
  intros Hw [H|H]; [left|right].
  - unfold Annotatef. rewrite H. cbn. apply orb_true_r.
  - unfold Annotatef. cbn [CodeOf AsError Code]. by rewrite Errorf_known by by apply IsCode_CodeOf.
Qed.

(** The retry table classifies every code of the closed set exactly once
    and nothing else, and the codes listed are distinct. *)
Theorem retries_classify : NoDup Codes ∧ retries.*1 ≡ₚ Codes.
Proof.
  assert (NoDup Codes) as HC by (apply (bool_decide_unpack _); vm_compute; done).
  split; [done|]. apply NoDup_Permutation; [|done|].
  - apply (bool_decide_unpack _). vm_compute. done.
  - intros x. split; intros Hx.
    + assert (Forall (λ y, y ∈ Codes) retries.*1) as H
        by (apply (bool_decide_unpack _); vm_compute; done).
      by apply (proj1 (Forall_forall _ _) H).
    + assert (Forall (λ y, y ∈ retries.*1) Codes) as H
        by (apply (bool_decide_unpack _); vm_compute; done).
      by apply (proj1 (Forall_forall _ _) H).
Qed.

(** A result says it may be retried exactly when it is not OK, carries a
    code, and every code it carries is one of the four retryable ones; and it
    says nothing exactly when it is OK or carries no code. *)
Theorem ResultRetryable_spec out codes :
  (ResultRetryable out codes = (true, true) ↔
    out ≠ OutcomeOK ∧ codes ≠ [] ∧ Forall (λ c, c ∈ retryable_codes) codes) ∧
  ((ResultRetryable out codes).2 = false ↔ out = OutcomeOK ∨ codes = []).
Proof.
  unfold ResultRetryable.
  assert (forallb (λ c, Retryable (RetryOf c)) codes = true ↔
    Forall (λ c, c ∈ retryable_codes) codes) as Hall.
  { rewrite forallb_forall, Forall_forall. setoid_rewrite list_elem_of_In.
    setoid_rewrite <-list_elem_of_In. by setoid_rewrite RetryOf_spec. }
  destruct (String.eqb_spec out OutcomeOK) as [->|Hne]; simpl.
  { split; [split; [done|by intros (? & _)]|]. split; auto. }
  destruct codes as [|c cs]; simpl.
  { split; [split; [done|by intros (_ & ? & _)]|]. split; auto. }
  split; [|split; [done|by intros [|]]]. rewrite <-Hall. simpl. split.
  - intros [= ->]. done.
  - intros (_ & _ & ->). done.
Qed.

(** [WithoutRetry] never changes an error's code and always makes the
    error one whose result is not retried; annotating the marked error with
    [Annotatef] keeps both. *)
Theorem WithoutRetry_survives err w f args :
  well_coded err →
  let marked := WithoutRetry err in
  let annotated := EWire (Annotatef (Some marked) w f args) in
  CodeOf (Some marked) = CodeOf (Some err) ∧ never_retried marked ∧
  CodeOf (Some annotated) = CodeOf (Some err) ∧ never_retried annotated.
Proof.
  intros Hw marked annotated.
  assert (well_coded marked) as Hm.
  { intros e. subst marked. unfold WithoutRetry. destruct (AsError err) as [e'|] eqn:E.
    - intros [= <-]. simpl. by apply Hw.
    - destruct (Retryable _); simpl; by rewrite E. }
  split_and!.
  - apply CodeOf_WithoutRetry.
  - apply WithoutRetry_never.
  - subst annotated. unfold Annotatef. cbn [CodeOf AsError Code].
    rewrite Errorf_known by by apply IsCode_CodeOf. apply CodeOf_WithoutRetry.
  - apply Annotatef_never; [done|]. apply WithoutRetry_never.
Qed.

Lemma WithoutRetry_survives_witness :
  let err := EWrap "%w: lock" [EWire (Errorf CodeLockTimeout "/" "held" [])] in
  let annotated := EWire (Annotatef (Some (WithoutRetry err)) "/x" "again" []) in
  CodeOf (Some annotated) = CodeLockTimeout ∧ RetryForbidden (Some annotated) = true.
Proof.
  intros err annotated.
  destruct (WithoutRetry_survives err "/x" "again" []) as (_ & _ & Hc & [Hr|Hr]).
  - intros e [= <-]. reflexivity.
  - split; [exact Hc|exact Hr].
  - exfalso. vm_compute in Hr. discriminate.
Defined.

(** A context error that reaches a store write becomes LOCK_TIMEOUT, and
    an error that already carries a code, or is no context error, is returned
    unchanged; the context error stays visible in the result. *)
Theorem ContextEnded_spec err w :
  let ended := IsContext DeadlineExceeded err || IsContext Canceled err in
  (ended = false ∨ is_Some (AsError err) → ContextEnded (Some err) w = Some err) ∧
  (ended = true → AsError err = None →
    CodeOf (ContextEnded (Some err) w) = CodeLockTimeout ∧
    ∃ e, ContextEnded (Some err) w = Some e ∧
      ∀ c, IsContext c e = IsContext c err).
Proof.
  cbv zeta. unfold ContextEnded. split.
  - intros [->|[e He]]; [done|]. destruct (negb _); [done|]. by rewrite He.
  - intros -> HN. rewrite HN. cbn [negb]. split; [done|]. eexists. split; [done|].
    intros c. cbn [IsContext existsb Errorf wrapped omap list_omap]. by rewrite orb_false_r.
Qed.

Lemma ContextEnded_spec_witness :
  CodeOf (ContextEnded (Some (EContext Canceled)) "/") = CodeLockTimeout.
Proof. apply (ContextEnded_spec (EContext Canceled) "/"); reflexivity. Defined.
