(* ===== verification/Limits.v ===== *)
(** * Numeric limits

    [limits.go] of [src/internal/tasks/wire]: the bounds every document and
    field is validated against. *)

From S2P Require Import Prelude.
Local Open Scope Z_scope.

Definition KiB : Z := 1024.
Definition MiB : Z := 1024 * KiB.
Definition GiB : Z := 1024 * MiB.
Definition MaxIdentifierBytes : Z := 128.
Definition MaxLabelBytes : Z := 64.
Definition MaxLocalTokenBytes : Z := 64.
Definition MaxRequestIDBytes : Z := 64.
Definition MaxPathTextBytes : Z := 4096.
Definition MaxTitleBytes : Z := 512.
Definition MaxBodyBytes : Z := 64 * KiB.
Definition MaxCriterionBytes : Z := 4 * KiB.
Definition MaxProseBytes : Z := 64 * KiB.
Definition MaxTicketFileBytes : Z := 128 * KiB.
Definition MaxReleaseFileBytes : Z := 256 * KiB.
Definition MaxMutationEnvelopeBytes : Z := 256 * KiB.
Definition MaxOutcomeBytes : Z := 64 * KiB.
Definition MaxAcceptanceCriteria : Z := 64.
Definition MaxDependencies : Z := 64.
Definition MaxRequirementRefs : Z := 64.
Definition MaxResources : Z := 64.
Definition MaxApprovals : Z := 64.
Definition MaxTouchPaths : Z := 256.
Definition MaxLabels : Z := 32.
Definition MaxHolds : Z := 16.
Definition MaxRequiredGates : Z := 32.
Definition MaxCapabilities : Z := 32.
Definition MaxTicketsPerQueue : Z := 10000.
Definition MaxReleasesPerQueue : Z := 1000.
Definition MaxIntentTreeBytes : Z := 256 * MiB.
Definition MaxQueueFileBytes : Z := 1 * MiB.
Definition MaxPolicyFileBytes : Z := 256 * KiB.
Definition MaxImportMapBytes : Z := 8 * MiB.
Definition MaxImportMapEntries : Z := 10000.
Definition MaxReceiptFileBytes : Z := 1 * MiB.
Definition MaxInlinePostEntryBytes : Z := 64 * KiB.
Definition MaxInlinePostEntries : Z := 8.
Definition MaxAttemptRecordBytes : Z := 64 * KiB.
Definition MaxJournalHeadBytes : Z := 4 * KiB.
Definition MaxBarrierBytes : Z := 4 * KiB.
Definition MaxCommandResultBytes : Z := 64 * KiB.
Definition MaxListResultBytes : Z := 16 * MiB.
Definition MaxReservationSetBytes : Z := 64 * MiB.
Definition MaxPoolStateBytes : Z := 3 * MiB.
Definition MaxEvidenceBlobBytes : Z := 64 * MiB.
Definition MaxEvidenceStoreBytes : Z := 16 * GiB.
Definition MaxImportPlanBytes : Z := 16 * MiB.
Definition MaxArchiveBytes : Z := 64 * GiB.
Definition MaxPinnedBytes : Z := 16 * MiB.
Definition MaxArchiveFiles : Z := 2100000.
Definition MaxArchiveManifestBytes : Z := 768 * MiB.
Definition MaxArchiveScanEntries : Z := MaxArchiveFiles + 4096.
Definition MaxGateArgv : Z := 16.
Definition MaxRuntimeArgv : Z := 16.
Definition MaxActiveAttempts : Z := 64.
Definition MaxWorkersTotal : Z := 256.
Definition MaxAdmissionsPerRev : Z := 16.
Definition MaxRepairRounds : Z := 2.
Definition MaxMalformedRetry : Z := 1.
Definition MaxGateRerunStale : Z := 1.
Definition MaxReconcileAttempt : Z := 3.
Definition MinEvidenceDays : Z := 30.
Definition MaxLaneWallMinutes : Z := 240.
Definition MaxGateTimeoutSecs : Z := 240 * 60.
Definition MaxGateOutputBytes : Z := 16 * MiB.
Definition PageDefault : Z := 100.
Definition PageMax : Z := 1000.
Definition MaxJSONDepth : Z := 24.
Definition MaxJSONArrayElements : Z := 10000.
Definition MaxJSONNodes : Z := 250000.
Definition MaxCountValue : Z := 2147483647.
Definition VersionSuffix : string := "/0".
