(* ===== verification/Value.v ===== *)
(** * JSON values and their canonical encoding

    [value.go] and [encode.go] of [src/internal/tasks/wire].  A value is a string, a boolean, null, an
    array or an object; an object keeps its members in the order they were
    set, with distinct keys, and is written with its keys sorted. *)

From S2P Require Import Prelude GoStd Codes.
From S2P Require Export Limits.
Local Open Scope Z_scope.
Local Open Scope go_scope.

(** ** Values *)

Inductive Kind : Type := KindNull | KindBool | KindString | KindArray | KindObject.

(** [Value]: the [Kind] field is the constructor, and each constructor keeps
    the field that kind uses.  An [*Object] is the list of its members in
    [Keys] order. *)
Inductive Value : Type :=
  | VNull
  | VBool (b : bool)
  | VString (s : string)
  | VArray (vs : list Value)
  | VObject (o : list (string * Value)).

Abbreviation Object := (list (string * Value)).

Definition kind (v : Value) : Kind :=
  match v with
  | VNull => KindNull
  | VBool _ => KindBool
  | VString _ => KindString
  | VArray _ => KindArray
  | VObject _ => KindObject
  end.

Definition Kind_String (k : Kind) : string :=
  match k with
  | KindNull => "null"
  | KindBool => "boolean"
  | KindString => "string"
  | KindArray => "array"
  | KindObject => "object"
  end.

Definition NewObject : Object := [].

(** [o.Keys] *)
Definition Keys (o : Object) : list string := o.*1.

(** [o.Vals[key]]: the member and whether it exists. *)
Definition Get (o : Object) (key : string) : option Value := assoc key o.

(** [o.Set(key, v)]: a member already there keeps its place. *)
Fixpoint Set_ (o : Object) (key : string) (v : Value) : Object :=
  match o with
  | [] => [(key, v)]
  | (k, w) :: o' => if key =s k then (k, v) :: o' else (k, w) :: Set_ o' key v
  end.

Definition SortedKeys (o : Object) : list string := SortStrings (Keys o).

Definition StringOrNull (p : option string) : Value :=
  match p with None => VNull | Some s => VString s end.

Definition Strings (ss : list string) : Value := VArray (VString <$> ss).

(** ** Canonical encoding *)

Definition dquote : ascii := "034".
Definition backslash : ascii := "092".
Definition tab : ascii := "009".
Definition newline : ascii := "010".
Definition creturn : ascii := "013".

Definition hexdigits : string := "0123456789abcdef".

Definition hexdigit (i : Z) : ascii :=
  match String.get (Z.to_nat i) hexdigits with Some c => c | None => "0"%char end.

(** The bytes a canonical string never holds as written. *)
Definition escapedByte (c : ascii) : bool :=
  (code c <? 0x20) || (c =b dquote) || (c =b backslash).

(** The escape the [switch] of [appendString] writes for an escaped byte. *)
Definition escape (c : ascii) : string :=
  if c =b dquote then String backslash (str1 dquote)
  else if c =b backslash then String backslash (str1 backslash)
  else if c =b tab then String backslash (str1 "t")
  else if c =b newline then String backslash (str1 "n")
  else if c =b creturn then String backslash (str1 "r")
  else String backslash (String "u" (String "0" (String "0"
         (String (hexdigit (Z.shiftr (code c) 4)) (str1 (hexdigit (Z.land (code c) 0xF))))))).

(** The loop of [appendString]: [run] is [s[run:i]], the bytes read since the
    last escape and not yet copied. *)
Fixpoint appendString_loop (b run s : string) : string :=
  match s with
  | ε => b +:+ run
  | String c s' =>
      if negb (escapedByte c) then appendString_loop b (run +:+ str1 c) s'
      else appendString_loop (b +:+ run +:+ escape c) ε s'
  end.

Definition appendString (b s : string) : string :=
  appendString_loop (b +:+ str1 dquote) ε s +:+ str1 dquote.

(** [appendValue]: each member's writer is paired with its key, the keys are
    sorted, and the writers run in that order. *)
Fixpoint appendValue (b : string) (v : Value) {struct v} : string :=
  match v with
  | VNull => b +:+ "null"
  | VBool x => if x then b +:+ "true" else b +:+ "false"
  | VString s => appendString b s
  | VArray vs =>
      let body := (fix loop (i : nat) (b : string) (vs : list Value) : string :=
        match vs with
        | [] => b
        | e :: vs' =>
            let b := if (0 <? i)%nat then b +:+ "," else b in
            loop (S i) (appendValue b e) vs'
        end) 0%nat (b +:+ "[") vs in
      body +:+ "]"
  | VObject o =>
      let writers := map (λ kv, let '(k, w) := kv in (k, λ b, appendValue b w)) o in
      let body := (fix loop (i : nat) (b : string) (ks : list string) : string :=
        match ks with
        | [] => b
        | k :: ks' =>
            let b := if (0 <? i)%nat then b +:+ "," else b in
            let b := appendString b k +:+ ":" in
            let b := match assoc k writers with Some f => f b | None => b +:+ "null" end in
            loop (S i) b ks'
        end) 0%nat (b +:+ "{") (SortedKeys o) in
      body +:+ "}"
  end.

Definition Encode (v : Value) : string := appendValue ε v.

Definition EncodeFile (v : Value) : string := Encode v +:+ str1 newline.

(** ** Sets of values *)

(** The stable sort of [SortedSet], by the canonical bytes. *)
Definition keyed_le (a b : string * Value) : bool := String.leb a.1 b.1.

(** The first key that equals its predecessor in the sorted list. *)
Fixpoint first_dup (prev : option string) (l : list string) : option string :=
  match l with
  | [] => None
  | k :: l' => if bool_decide (prev = Some k) then Some k else first_dup (Some k) l'
  end.

Definition SortedSet (where_ : string) (vs : list Value) : outcome Error Value :=
  let ks := isort keyed_le ((λ v, (Encode v, v)) <$> vs) in
  match first_dup None ks.*1 with
  | Some k => Err (Errorf CodeMalformed where_ "duplicate element %s" [AStr k])
  | None => Ok (VArray ks.*2)
  end.

(** [utf8.RuneStart] *)
Definition RuneStart (c : ascii) : bool := negb (Z.land (code c) 0xC0 =? 0x80).

(** [for n > 0 && !utf8.RuneStart(s[n]) { n-- }] *)
Fixpoint clip_at (s : string) (n : nat) : nat :=
  match n with
  | O => O
  | S k => match String.get n s with
           | Some c => if RuneStart c then n else clip_at s k
           | None => n
           end
  end.

Definition clip (s : string) : string :=
  if slen s <=? 96 then s else String.substring 0 (clip_at s 93) s +:+ "...".

(** [slices.Min] of a non-empty list of strings. *)
Definition MinString (k : string) (ks : list string) : string :=
  foldl (λ m x, if x <s m then x else m) k ks.

(** The loop of [CheckSortedUnique] from index [i], with the previous key. *)
Fixpoint CheckSortedUnique_loop (where_ : string) (i : nat) (prev : string) (vs : list Value) :
    option Error :=
  match vs with
  | [] => None
  | v :: vs' =>
      let key := Encode v in
      if (0 <? i)%nat && (key =s prev) then
        Some (Errorf CodeMalformed where_ "duplicate element at index %d" [AInt (Z.of_nat i)])
      else if (0 <? i)%nat && (key <s prev) then
        let order := match v with VObject ((k, _) :: o) => [AStr (MinString k (Keys o))] | _ => [] end in
        Some (Errorf CodeMalformed where_ "array is not canonical-byte sorted at index %d"
          (AInt (Z.of_nat i) :: order ++ [AStr (clip key); AStr (clip prev)]))
      else CheckSortedUnique_loop where_ (S i) key vs'
  end.

Definition CheckSortedUnique (where_ : string) (vs : list Value) : option Error :=
  CheckSortedUnique_loop where_ 0 ε vs.

Definition Equal (a b : Value) : bool := Encode a =s Encode b.
