(* ===== verification/Canonical.v ===== *)
(** * The canonical encoding, reasoned about

    [enc] is the encoding written as a plain recursive function and [print]
    the same text with an object's members in the order they are stored;
    [canon] sorts every object.  The lemmas relate the builder loops of
    [Value] to these, and give the order facts that sets of values rely on. *)

From S2P Require Import Prelude Utf8 GoStd Codes Value.
Local Open Scope Z_scope.
Local Open Scope go_scope.

(** ** Induction on values *)
Section value_ind.
Context (P : Value → Prop).
Context (HNull : P VNull) (HBool : ∀ b, P (VBool b)) (HString : ∀ s, P (VString s)).
Context (HArray : ∀ vs, Forall P vs → P (VArray vs)).
Context (HObject : ∀ o : Object, Forall (λ kv, P kv.2) o → P (VObject o)).

Fixpoint Value_rect_Forall (v : Value) : P v :=
  match v with
  | VNull => HNull
  | VBool b => HBool b
  | VString s => HString s
  | VArray vs =>
      HArray vs ((fix go vs : Forall P vs :=
        match vs with
        | [] => Forall_nil_2 _
        | v :: vs' => Forall_cons_2 _ _ _ (Value_rect_Forall v) (go vs')
        end) vs)
  | VObject o =>
      HObject o ((fix go o : Forall (λ kv, P kv.2) o :=
        match o with
        | [] => Forall_nil_2 _
        | kv :: o' => Forall_cons_2 _ _ _ (Value_rect_Forall kv.2) (go o')
        end) o)
  end.
End value_ind.

(** ** Reference encoders *)

(** The escaped text of a string. *)
Fixpoint escaped (s : string) : string :=
  match s with
  | ε => ε
  | String c s' => (if escapedByte c then escape c else str1 c) +:+ escaped s'
  end.

Definition quote (s : string) : string := str1 dquote +:+ escaped s +:+ str1 dquote.

Fixpoint enc (v : Value) : string :=
  match v with
  | VNull => "null"
  | VBool b => if b then "true" else "false"
  | VString s => quote s
  | VArray vs => "[" +:+ strings.Join (enc <$> vs) "," +:+ "]"
  | VObject o =>
      let ms := (λ kv : string * Value, (kv.1, enc kv.2)) <$> o in
      "{" +:+ strings.Join
        ((λ k, quote k +:+ ":" +:+ default "null" (assoc k ms)) <$> SortedKeys o) ","
      +:+ "}"
  end.

Fixpoint print (v : Value) : string :=
  match v with
  | VNull => "null"
  | VBool b => if b then "true" else "false"
  | VString s => quote s
  | VArray vs => "[" +:+ strings.Join (print <$> vs) "," +:+ "]"
  | VObject o =>
      "{" +:+ strings.Join ((λ kv : string * Value, quote kv.1 +:+ ":" +:+ print kv.2) <$> o) ","
      +:+ "}"
  end.

Definition key_le {A} (a b : string * A) : bool := String.leb a.1 b.1.

(** Every object with its members in key order. *)
Fixpoint canon (v : Value) : Value :=
  match v with
  | VArray vs => VArray (canon <$> vs)
  | VObject o => VObject (isort key_le ((λ kv : string * Value, (kv.1, canon kv.2)) <$> o))
  | _ => v
  end.

(** Distinct keys in every object: what a [map] gives. *)
Inductive distinct : Value → Prop :=
  | distinct_null : distinct VNull
  | distinct_bool b : distinct (VBool b)
  | distinct_string s : distinct (VString s)
  | distinct_array vs : Forall distinct vs → distinct (VArray vs)
  | distinct_object o : NoDup (Keys o) → Forall (λ kv, distinct kv.2) o → distinct (VObject o).

(** Every object has its members in key order. *)
Inductive sorted_keys : Value → Prop :=
  | sorted_null : sorted_keys VNull
  | sorted_bool b : sorted_keys (VBool b)
  | sorted_string s : sorted_keys (VString s)
  | sorted_array vs : Forall sorted_keys vs → sorted_keys (VArray vs)
  | sorted_object o :
      StronglySorted (λ x y, String.leb x y = true) (Keys o) →
      Forall (λ kv, sorted_keys kv.2) o → sorted_keys (VObject o).

(** ** The builders compute the reference encoding *)

Lemma appendString_loop_eq b run s : appendString_loop b run s = b +:+ run +:+ escaped s.
Proof.
  revert b run; induction s as [|c s IH]; intros b run; simpl.
  - by rewrite app_str_nil.
  - destruct (escapedByte c); simpl; rewrite IH; by autorewrite with str.
Qed.

Lemma appendString_eq b s : appendString b s = b +:+ quote s.
Proof. unfold appendString, quote. rewrite appendString_loop_eq. by autorewrite with str. Qed.

Lemma Join_cons w ws sep :
  strings.Join (w :: ws) sep = w +:+ match ws with [] => ε | _ => sep +:+ strings.Join ws sep end.
Proof. destruct ws; simpl; by rewrite ?app_str_nil. Qed.

(** A loop that writes a separator before every element but the first. *)
Lemma join_loop {A} (f : string → A → string) (g : A → string) (sep : string) xs i b :
  (∀ b x, x ∈ xs → f b x = b +:+ g x) →
  (fix loop (i : nat) (b : string) (xs : list A) : string :=
     match xs with
     | [] => b
     | x :: xs' =>
         let b := if (0 <? i)%nat then b +:+ sep else b in
         loop (S i) (f b x) xs'
     end) i b xs
  = b +:+ match xs with [] => ε | _ => (if (0 <? i)%nat then sep else ε) +:+ strings.Join (g <$> xs) sep end.
Proof.
  revert i b; induction xs as [|x xs IH]; intros i b Hf; [by rewrite app_str_nil|].
  rewrite IH by set_solver. rewrite Hf by set_solver. rewrite fmap_cons, Join_cons.
  destruct xs; destruct i; simpl; by autorewrite with str.
Qed.

Lemma assoc_fmap {A B} (f : A → B) k (l : list (string * A)) :
  assoc k ((λ kv, (kv.1, f kv.2)) <$> l) = f <$> assoc k l.
Proof. induction l as [|[k' a] l IH]; [done|]. simpl. by destruct (k =s k'). Qed.

Lemma appendValue_eq v : ∀ b, appendValue b v = b +:+ enc v.
Proof.
  induction v as [|x|s|vs IH|o IH] using Value_rect_Forall; intros b.
  - done.
  - by destruct x.
  - apply appendString_eq.
  - cbn [appendValue enc].
    rewrite (join_loop appendValue enc).
    2:{ intros b' x Hx. by apply (proj1 (Forall_forall _ _) IH x Hx). }
    destruct vs; [by autorewrite with str|]. by autorewrite with str.
  - cbn [appendValue enc].
    set (ws := map _ o).
    assert (∀ k b', match assoc k ws with Some f => f b' | None => b' +:+ "null" end =
      b' +:+ default "null" (assoc k ((λ kv : string * Value, (kv.1, enc kv.2)) <$> o))) as Hws.
    { intros k b'. subst ws. induction IH as [|[k' w] o Hw _ IHo]; [done|]. simpl in *.
      destruct (k =s k'); simpl; auto. }
    rewrite (join_loop (λ b k, match assoc k ws with Some f => f (appendString b k +:+ ":")
        | None => (appendString b k +:+ ":") +:+ "null" end)
      (λ k, quote k +:+ ":" +:+ default "null" (assoc k ((λ kv : string * Value, (kv.1, enc kv.2)) <$> o)))).
    2:{ intros b' k _. rewrite Hws, appendString_eq. by autorewrite with str. }
    destruct (SortedKeys o); by autorewrite with str.
Qed.

Lemma Encode_enc v : Encode v = enc v.
Proof. unfold Encode. by rewrite appendValue_eq. Qed.

(** ** Sorting members by key *)

Lemma insert_sorted_fst {A} (x : string * A) l :
  (insert_sorted key_le x l).*1 = insert_sorted String.leb x.1 l.*1.
Proof. induction l as [|y l IH]; [done|]. simpl. unfold key_le at 1. case_match; [done|]. simpl. by f_equal. Qed.

Lemma isort_fst {A} (l : list (string * A)) : (isort key_le l).*1 = SortStrings l.*1.
Proof. induction l as [|x l IH]; [done|]. simpl. rewrite insert_sorted_fst, IH. done. Qed.

Lemma insert_sorted_fmap {A B} (f : A → B) (x : string * A) l :
  insert_sorted key_le (x.1, f x.2) ((λ kv, (kv.1, f kv.2)) <$> l) =
  (λ kv, (kv.1, f kv.2)) <$> insert_sorted key_le x l.
Proof.
  induction l as [|y l IH]; [done|]. rewrite fmap_cons. cbn [insert_sorted].
  change (key_le (x.1, f x.2) (y.1, f y.2)) with (key_le x y).
  destruct (key_le x y); [done|]. by rewrite fmap_cons, IH.
Qed.

Lemma isort_fmap {A B} (f : A → B) (l : list (string * A)) :
  isort key_le ((λ kv, (kv.1, f kv.2)) <$> l) = (λ kv, (kv.1, f kv.2)) <$> isort key_le l.
Proof.
  induction l as [|x l IH]; [done|]. rewrite fmap_cons.
  change (isort key_le (x :: l)) with (insert_sorted key_le x (isort key_le l)).
  rewrite <-insert_sorted_fmap, <-IH. done.
Qed.

Lemma key_le_total {A} (x y : string * A) : key_le x y = false → key_le y x = true.
Proof. apply leb_total. Qed.

Lemma key_le_trans {A} (x y z : string * A) : key_le x y = true → key_le y z = true → key_le x z = true.
Proof. apply leb_trans. Qed.

Lemma assoc_Some_NoDup {A} k a (l : list (string * A)) :
  NoDup l.*1 → (k, a) ∈ l → assoc k l = Some a.
Proof.
  induction l as [|[k' b] l IH]; [set_solver|]. simpl. intros [Hk Hl]%NoDup_cons.
  rewrite elem_of_cons. intros [[= -> ->]|H].
  - by rewrite String.eqb_refl.
  - destruct (String.eqb_spec k k') as [->|]; [|auto].
    exfalso. apply Hk. by apply (list_elem_of_fmap_2' fst l (k', a)).
Qed.

(** Looking the sorted keys up gives the members sorted by key. *)
Lemma lookup_sorted_members {A B} (g : string → option A → B) (o : list (string * A)) :
  NoDup o.*1 →
  (λ k, g k (assoc k o)) <$> SortStrings o.*1 = (λ kv, g kv.1 (Some kv.2)) <$> isort key_le o.
Proof.
  intros Hnd. rewrite <-isort_fst.
  assert (∀ l, l ⊆ o → (λ k, g k (assoc k o)) <$> l.*1 = (λ kv, g kv.1 (Some kv.2)) <$> l) as H.
  { induction l as [|[k a] l IH]; intros Hl; [done|]. simpl.
    rewrite (assoc_Some_NoDup k a o) by set_solver. f_equal. apply IH. set_solver. }
  apply H. intros x. by rewrite elem_of_isort.
Qed.

Lemma Keys_fmap {A B} (f : A → B) (o : list (string * A)) :
  ((λ kv : string * A, (kv.1, f kv.2)) <$> o).*1 = o.*1.
Proof. induction o as [|x o IH]; [done|]. simpl. by f_equal. Qed.

(** The canonical encoding prints the sorted value. *)
Lemma enc_print_canon v : distinct v → enc v = print (canon v).
Proof.
  induction v as [|b|s|vs IH|o IH] using Value_rect_Forall; intros Hd; try done.
  - cbn [enc print canon]. do 2 f_equal. inv Hd. f_equal.
    rewrite <-list_fmap_compose. apply list_fmap_ext. intros i x Hx.
    apply list_elem_of_lookup_2 in Hx. rewrite !Forall_forall in *. simpl. auto.
  - cbn [enc print canon]. inv Hd as [| | | |? Hnd Hw]. do 2 f_equal. f_equal.
    unfold SortedKeys, Keys in *.
    rewrite <-(Keys_fmap enc o) in *.
    rewrite (lookup_sorted_members (λ k w, quote k +:+ ":" +:+ default "null" w)) by done.
    rewrite !isort_fmap, <-!list_fmap_compose. apply list_fmap_ext. intros i [k w] Hx.
    apply list_elem_of_lookup_2 in Hx. rewrite elem_of_isort in Hx. simpl.
    rewrite Forall_forall in *. do 2 f_equal. apply (IH (k, w)); [done|]. by apply (Hw (k, w)).
Qed.

Lemma canon_distinct v : distinct v → distinct (canon v).
Proof.
  induction v as [|b|s|vs IH|o IH] using Value_rect_Forall; intros Hd; try done;
    inv Hd; constructor.
  - apply Forall_fmap. rewrite Forall_forall in *. simpl. auto.
  - unfold Keys. by rewrite isort_fst, SortStrings_perm, Keys_fmap.
  - rewrite isort_perm, Forall_fmap. rewrite Forall_forall in *. simpl. auto.
Qed.

Lemma distinct_canon v : distinct (canon v) → distinct v.
Proof.
  induction v as [|b|s|vs IH|o IH] using Value_rect_Forall; intros Hd; try constructor; simpl in Hd; inv Hd.
  - rewrite Forall_fmap, Forall_forall in *. simpl in *. auto.
  - unfold Keys in *. rewrite isort_fst, SortStrings_perm in *. by rewrite Keys_fmap in *.
  - rewrite isort_perm, Forall_fmap in *. rewrite Forall_forall in *. simpl in *. auto.
Qed.

Lemma canon_sorted v : sorted_keys (canon v).
Proof.
  induction v as [|b|s|vs IH|o IH] using Value_rect_Forall; constructor.
  - by apply Forall_fmap.
  - unfold Keys. rewrite isort_fst. apply SortStrings_StronglySorted.
  - rewrite isort_perm. by apply Forall_fmap.
Qed.

Lemma canon_id v : sorted_keys v → canon v = v.
Proof.
  induction v as [|b|s|vs IH|o IH] using Value_rect_Forall; intros Hs; try done;
    inv Hs; simpl; f_equal.
  - rewrite <-(list_fmap_id vs) at 2. apply list_fmap_ext. intros i x Hx.
    apply list_elem_of_lookup_2 in Hx. rewrite Forall_forall in *. simpl. auto.
  - assert ((λ kv : string * Value, (kv.1, canon kv.2)) <$> o = o) as ->.
    { rewrite <-(list_fmap_id o) at 2. apply list_fmap_ext. intros i [k w] Hx.
      apply list_elem_of_lookup_2 in Hx. rewrite Forall_forall in *. simpl. f_equal.
      by apply (IH (k, w)), (H1 (k, w)). }
    apply isort_sorted. clear -H0. unfold Keys in H0. induction o as [|x o IHo]; [constructor|].
    inv H0 as [|? ? Hs Hf]. constructor; [auto|]. by apply Forall_fmap in Hf.
Qed.

Lemma canon_idemp v : canon (canon v) = canon v.
Proof. apply canon_id, canon_sorted. Qed.

(** A value with sorted keys is printed as it is encoded. *)
Lemma enc_print v : distinct v → sorted_keys v → enc v = print v.
Proof. intros Hd Hs. by rewrite enc_print_canon, canon_id. Qed.

Lemma enc_canon v : distinct v → enc (canon v) = enc v.
Proof.
  intros Hd. rewrite (enc_print_canon (canon v)) by by apply canon_distinct.
  by rewrite canon_idemp, enc_print_canon.
Qed.

(** ** Escapes *)

Lemma escaped_app a b : escaped (a +:+ b) = escaped a +:+ escaped b.
Proof. induction a as [|c a IH]; [done|]. simpl. by rewrite IH, app_str_assoc. Qed.

Lemma escaped_plain s : str_forall (λ c, negb (escapedByte c)) s = true → escaped s = s.
Proof.
  induction s as [|c s IH]; [done|]. simpl. intros [Hc Hs]%andb_true_iff.
  destruct (escapedByte c); [done|]. by rewrite IH.
Qed.
