(* ===== verification/SetsSpec.v ===== *)
(** * Sets of values

    [SortedSet] and [CheckSortedUnique]: a set is an array in strictly
    increasing order of its elements' canonical bytes. *)

From S2P Require Import Prelude GoStd Codes Value Canonical.
Local Open Scope Z_scope.
Local Open Scope go_scope.

(** Strictly before, by canonical bytes. *)
Definition before (a b : Value) : Prop := (Encode a <s Encode b) = true.

Lemma ltb_trans a b c : String.ltb a b = true → String.ltb b c = true → String.ltb a c = true.
Proof.
  rewrite !ltb_leb, !negb_true_iff. intros Hab Hbc. apply not_true_iff_false. intros Hca.
  apply not_true_iff_false in Hab. apply Hab. eapply leb_trans; [|exact Hca]. by apply leb_total.
Qed.

Lemma before_trans a b c : before a b → before b c → before a c.
Proof. apply ltb_trans. Qed.

Lemma ltb_irrefl a : String.ltb a a = false.
Proof. by rewrite ltb_leb, leb_refl. Qed.

Lemma CheckSortedUnique_loop_S w i prev vs :
  CheckSortedUnique_loop w (S i) prev vs = None ↔
  StronglySorted before vs ∧ match vs with [] => True | v :: _ => (prev <s Encode v) = true end.
Proof.
  revert i prev. induction vs as [|v vs IH]; intros i prev.
  { split; [intros _; split; [constructor|done]|done]. }
  cbn [CheckSortedUnique_loop Nat.ltb Nat.leb andb].
  destruct (String.eqb_spec (Encode v) prev) as [<-|Hne].
  { split; [done|]. intros [_ H]. by rewrite ltb_irrefl in H. }
  destruct (Encode v <s prev) eqn:Hlt.
  { split; [done|]. intros [_ H]. pose proof (ltb_trans _ _ _ H Hlt) as Hx. by rewrite ltb_irrefl in Hx. }
  rewrite IH. assert ((prev <s Encode v) = true) as Hpv.
  { rewrite ltb_leb, negb_false_iff in Hlt. rewrite ltb_leb, negb_true_iff. apply not_true_iff_false.
    intros Hle. apply Hne. by apply leb_antisym. }
  split.
  - intros [Hs Hh]. split; [|done]. constructor; [done|]. destruct vs as [|x vs]; [done|].
    inv Hs as [|? ? Hs' Hf]. constructor; [done|]. eapply Forall_impl; [exact Hf|].
    intros y Hy. by apply (before_trans _ x).
  - intros [Hs _]. inv Hs as [|? ? Hs' Hf]. split; [done|]. destruct vs; [done|]. by inv Hf.
Qed.

Lemma CheckSortedUnique_sorted w vs : CheckSortedUnique w vs = None ↔ StronglySorted before vs.
Proof.
  unfold CheckSortedUnique. destruct vs as [|v vs]; [split; [constructor|done]|].
  cbn [CheckSortedUnique_loop Nat.ltb Nat.leb andb]. rewrite CheckSortedUnique_loop_S. split.
  - intros [Hs Hh]. constructor; [done|]. destruct vs as [|x vs]; [done|].
    inv Hs as [|? ? Hs' Hf]. constructor; [done|]. eapply Forall_impl; [exact Hf|].
    intros y Hy. by apply (before_trans _ x).
  - intros Hs. inv Hs as [|? ? Hs' Hf]. split; [done|]. destruct vs; [done|]. by inv Hf.
Qed.

(** ** Sorting *)

Lemma keyed_le_total (x y : string * Value) : keyed_le x y = false → keyed_le y x = true.
Proof. apply leb_total. Qed.

Lemma keyed_le_trans (x y z : string * Value) : keyed_le x y = true → keyed_le y z = true → keyed_le x z = true.
Proof. apply leb_trans. Qed.

(** No key is repeated in a sorted list without adjacent duplicates. *)
Lemma first_dup_None l : ∀ prev,
  StronglySorted (λ x y, String.leb x y = true) l →
  first_dup prev l = None ↔ StronglySorted (λ x y, String.ltb x y = true) l ∧
    match prev, l with Some p, x :: _ => p ≠ x | _, _ => True end.
Proof.
  induction l as [|x l IH]; intros prev Hs.
  { split; [intros _; split; [constructor|by destruct prev]|done]. }
  inv Hs as [|? ? Hs' Hf]. cbn [first_dup]. case_bool_decide as Hd.
  { subst prev. split; [done|]. by intros [_ ?]. }
  rewrite IH by done. split.
  - intros [Hl Hx]. split; [|destruct prev; [congruence|done]]. constructor; [done|].
    destruct l as [|y l]; [constructor|]. inv Hf as [|? ? Hxy Hf']. inv Hl as [|? ? Hl' Hfl].
    assert (String.ltb x y = true) as Hlt.
    { rewrite ltb_leb, negb_true_iff. apply not_true_iff_false. intros Hyx. by apply Hx, leb_antisym. }
    constructor; [done|]. eapply Forall_impl; [exact Hfl|]. intros z. by apply ltb_trans.
  - intros [Hl _]. inv Hl as [|? ? Hl' Hf']. split; [done|]. destruct l as [|y l]; [done|].
    inv Hf' as [|? ? Hlt _]. intros ->. by rewrite ltb_irrefl in Hlt.
Qed.

Lemma StronglySorted_fmap {A B} (f : A → B) (R : B → B → Prop) l :
  StronglySorted R (f <$> l) ↔ StronglySorted (λ x y, R (f x) (f y)) l.
Proof.
  induction l as [|x l IH]; [by split; constructor|]. rewrite fmap_cons. split; intros H;
    inv H as [|? ? Hs Hf]; constructor; try by apply IH.
  - apply (Forall_fmap f) in Hf. exact Hf.
  - apply Forall_fmap. exact Hf.
Qed.

Lemma StronglySorted_weaken {A} (R S : A → A → Prop) l :
  (∀ x y, x ∈ l → y ∈ l → R x y → S x y) → StronglySorted R l → StronglySorted S l.
Proof.
  intros H. induction 1 as [|x l _ IH Hf]; [constructor|]. constructor.
  - apply IH. intros y z Hy Hz. apply H; by constructor.
  - rewrite Forall_forall in *. intros y Hy. apply H; [by constructor|by constructor|auto].
Qed.

(** Without repetition, sorted by a relation or equality is sorted by it. *)
Lemma StronglySorted_strict {A} (R S : A → A → Prop) l :
  NoDup l → (∀ x y, R x y → S x y ∨ x = y) → StronglySorted R l → StronglySorted S l.
Proof.
  intros Hnd H. induction 1 as [|x l _ IH Hf]; [constructor|]. apply NoDup_cons in Hnd as [Hx Hnd].
  constructor; [auto|]. rewrite Forall_forall in *. intros y Hy.
  destruct (H x y (Hf y Hy)) as [|Heq]; [done|]. subst. by destruct Hx.
Qed.

Lemma ltb_sorted_NoDup l : StronglySorted (λ x y, String.ltb x y = true) l → NoDup l.
Proof.
  induction 1 as [|x l _ IH Hf]; constructor; [|done]. intros Hx.
  rewrite Forall_forall in Hf. specialize (Hf x Hx). simpl in Hf. by rewrite ltb_irrefl in Hf.
Qed.

(** Sorted without repetition is strictly sorted. *)
Lemma leb_sorted_NoDup l :
  StronglySorted (λ x y, String.leb x y = true) l → NoDup l → StronglySorted (λ x y, String.ltb x y = true) l.
Proof.
  induction 1 as [|x l _ IH Hf]; intros Hnd; [constructor|]. apply NoDup_cons in Hnd as [Hx Hnd].
  constructor; [auto|]. apply Forall_forall. intros y Hy. rewrite Forall_forall in Hf.
  rewrite ltb_leb, negb_true_iff. apply not_true_iff_false. intros Hyx.
  apply Hx. by rewrite (leb_antisym x y (Hf y Hy) Hyx).
Qed.

Section sorted_set.
Context (vs : list Value).
Let keyed := (λ v, (Encode v, v)) <$> vs.

Lemma keyed_sorted : StronglySorted (λ x y, keyed_le x y = true) (isort keyed_le keyed).
Proof. apply isort_StronglySorted; [apply keyed_le_total|apply keyed_le_trans]. Qed.

Lemma keyed_keys : (isort keyed_le keyed).*1 = Encode <$> (isort keyed_le keyed).*2.
Proof.
  assert (Forall (λ kv : string * Value, kv.1 = Encode kv.2) (isort keyed_le keyed)) as H.
  { rewrite isort_perm. subst keyed. apply Forall_fmap, Forall_forall. done. }
  induction H as [|x l Hx _ IH]; [done|]. rewrite !fmap_cons. by rewrite Hx, IH.
Qed.

Lemma keyed_values : (isort keyed_le keyed).*2 ≡ₚ vs.
Proof.
  rewrite isort_perm. subst keyed. rewrite <-list_fmap_compose.
  assert (snd ∘ (λ v : Value, (Encode v, v)) <$> vs = vs) as ->; [|done].
  induction vs as [|v vs' IH]; [done|]. rewrite fmap_cons. by f_equal.
Qed.

Lemma keyed_leb : StronglySorted (λ x y, String.leb x y = true) (isort keyed_le keyed).*1.
Proof. apply StronglySorted_fmap, keyed_sorted. Qed.
End sorted_set.

(** [SortedSet] returns the values given, in an order [CheckSortedUnique]
    accepts, exactly when no two of them have the same encoding, and fails as
    MALFORMED otherwise; and [CheckSortedUnique] accepts exactly the arrays
    whose encodings strictly increase. *)
Theorem SortedSet_spec w vs :
  (NoDup (Encode <$> vs) → ∃ ws, SortedSet w vs = Ok (VArray ws) ∧ ws ≡ₚ vs ∧ CheckSortedUnique w ws = None) ∧
  (¬ NoDup (Encode <$> vs) → ∃ e, SortedSet w vs = Err e ∧ Code e = CodeMalformed) ∧
  (CheckSortedUnique w vs = None ↔ StronglySorted before vs).
Proof.
  pose proof (keyed_leb vs) as Hl. pose proof (keyed_keys vs) as Hk. pose proof (keyed_values vs) as Hv.
  unfold SortedSet. set (ks := isort keyed_le _) in *. split_and!; [| |apply CheckSortedUnique_sorted].
  - intros Hnd. assert (StronglySorted (λ x y, String.ltb x y = true) ks.*1) as Hs.
    { apply leb_sorted_NoDup; [done|]. by rewrite Hk, Hv. }
    assert (first_dup None ks.*1 = None) as ->. { by apply first_dup_None. }
    eexists. split; [done|]. split; [done|]. apply CheckSortedUnique_sorted.
    rewrite Hk in Hs. by apply StronglySorted_fmap in Hs.
  - intros Hnd. destruct (first_dup None ks.*1) eqn:E; [by eexists|].
    apply first_dup_None in E as [Hs _]; [|done]. exfalso. apply Hnd.
    rewrite <-Hv, <-Hk. by apply ltb_sorted_NoDup.
Qed.
