(* ===== verification/Primitives.v ===== *)
(** * Primitive fields

    [primitives.go] of [src/internal/tasks/wire]: decimal counts and sizes,
    digests, hostile code points, text, tokens, paths, timestamps and profile
    strings.  [RawProfileVersion], which reads through [encoding/json], is
    not modelled. *)

From S2P Require Import Prelude Utf8 GoStd Codes Value.
Local Open Scope Z_scope.
Local Open Scope go_scope.

Abbreviation res := (outcome Error).

(** ** Decimal strings *)

Definition decimalShape (s : string) : bool :=
  match s with
  | ε => false
  | String c s' =>
      if s =s "0" then true
      else if (code c <? code "1") || (code "9" <? code c) then false
      else str_forall strconv.isDigit s'
  end.

Definition ParseCount (where_ s : string) : res string :=
  if negb (decimalShape s) then
    Err (Errorf CodeMalformed where_ "Count must be 0 or a decimal integer without sign or leading zero, got %q" [AStr s])
  else if 10 <? slen s then
    Err (Errorf CodeMalformed where_ "Count above 2147483647: %q" [AStr s])
  else match strconv.ParseUint s 64 with
       | Some n =>
           if MaxCountValue <? n then
             Err (Errorf CodeMalformed where_ "Count above 2147483647: %q" [AStr s])
           else Ok s
       | None => Err (Errorf CodeMalformed where_ "Count above 2147483647: %q" [AStr s])
       end.

(** [Count.Int]: the value [ParseInt] returns, its error ignored. *)
Definition Count_Int (c : string) : Z := strconv.ParseInt_value c 64.

Definition CountOf (n : Z) : string := strconv.FormatInt (if n <? 0 then 0 else n).

Definition ParseSize (where_ s : string) : res string :=
  if negb (decimalShape s) then
    Err (Errorf CodeMalformed where_ "Size must be 0 or a decimal integer without sign or leading zero, got %q" [AStr s])
  else if 20 <? slen s then Err (Errorf CodeMalformed where_ "Size above uint64: %q" [AStr s])
  else match strconv.ParseUint s 64 with
       | Some _ => Ok s
       | None => Err (Errorf CodeMalformed where_ "Size above uint64: %q" [AStr s])
       end.

(** [Size.Uint64]: the value [ParseUint] returns, its error ignored. *)
Definition Size_Uint64 (s : string) : Z := strconv.ParseUint_value s 64.

Definition SizeOf (n : Z) : string := strconv.FormatUint n.

(** ** Digests and object ids *)

Definition isLowerHex (s : string) : bool :=
  str_forall (λ c, between "0" "9" c || between "a" "f" c) s.

Definition ParseDigest (where_ s : string) : res string :=
  if negb (slen s =? 64) || negb (isLowerHex s) then
    Err (Errorf CodeMalformed where_ "Digest must be 64 lowercase hex characters" [])
  else Ok s.

Definition ParseOID (where_ s : string) : res string :=
  if negb (slen s =? 40) && negb (slen s =? 64) || negb (isLowerHex s) then
    Err (Errorf CodeMalformed where_ "OID must be 40 or 64 lowercase hex characters" [])
  else Ok s.

(** ** Hostile code points *)

Definition hostileRune (r : Z) (allowTabLfCr : bool) : bool :=
  if r =? 0 then true
  else if (r =? 9) || (r =? 10) || (r =? 13) then negb allowTabLfCr
  else if r <? 0x20 then true
  else if (0x80 <=? r) && (r <=? 0x9F) then true
  else if r =? 0xFEFF then true
  else if (r =? 0x061C) || (r =? 0x200E) || (r =? 0x200F) then true
  else if (0x202A <=? r) && (r <=? 0x202E) then true
  else if (0x2066 <=? r) && (r <=? 0x2069) then true
  else if (0xD800 <=? r) && (r <=? 0xDFFF) then true
  else (0x10FFFF <? r).

(** One byte the scan of [plainASCII] stops at. *)
Definition notPlain (allowTabLfCr : bool) (c : ascii) : bool :=
  (0x80 <=? code c) ||
  (code c <? 0x20) && negb (allowTabLfCr && ((c =b tab) || (c =b newline) || (c =b creturn))).

Definition plainASCII (s : string) (allowTabLfCr : bool) : bool :=
  negb (str_exists (notPlain allowTabLfCr) s).

(** The body of the rune loop of [checkHostile]. *)
Definition hostileStep (where_ : string) (allowTabLfCr : bool) (r : Z) (size : nat) : option Error :=
  if utf8.invalid r size then Some (Errorf CodeMalformed where_ "invalid UTF-8" [])
  else if hostileRune r allowTabLfCr then
    Some (Errorf CodeMalformed where_ "hostile code point U+%04X" [AInt r])
  else None.

Definition checkHostile (s where_ : string) (allowTabLfCr : bool) : option Error :=
  if plainASCII s allowTabLfCr then None
  else utf8.scan (hostileStep where_ allowTabLfCr) 0 s.

(** ** Text *)

Definition parseText (where_ s : string) (min max : Z) (allowTabLfCr : bool) (kind_ : string) : res string :=
  if slen s <? min then
    Err (Errorf CodeMalformed where_ "%s must be at least %d byte(s)" [AStr kind_; AInt min])
  else if max <? slen s then
    Err (Errorf CodeLimitExceeded where_ "%s longer than %d bytes (%d)" [AStr kind_; AInt max; AInt (slen s)])
  else try checkHostile s where_ allowTabLfCr; Ok s.

Definition ParseIdentifier (where_ s : string) : res string :=
  parseText where_ s 1 MaxIdentifierBytes false "Identifier".

Definition ParseLabel (where_ s : string) : res string :=
  parseText where_ s 1 MaxLabelBytes false "label".

Definition ParseProse (where_ s : string) (min max : Z) : res string :=
  parseText where_ s min max true "prose".

(** [s[0] == c] *)
Definition first_is (c : ascii) (s : string) : bool :=
  match s with String d _ => d =b c | ε => false end.

Definition ParsePathText (where_ s : string) : res string :=
  if slen s <? 1 then Err (Errorf CodeMalformed where_ "PathText must not be empty" [])
  else if MaxPathTextBytes <? slen s then
    Err (Errorf CodeLimitExceeded where_ "PathText longer than %d bytes (%d)" [AInt MaxPathTextBytes; AInt (slen s)])
  else try checkHostile s where_ false;
  if negb (first_is "/" s) then
    Err (Errorf CodeMalformed where_ "PathText must be an absolute path" [])
  else Ok s.

Definition isTokenByte (c : ascii) (first : bool) : bool :=
  if between "A" "Z" c || between "a" "z" c || between "0" "9" c then true
  else if first then false
  else (c =b ".") || (c =b "_") || (c =b "-").

(** The loop of [ParseToken] over the bytes from the first. *)
Definition tokenBytes (s : string) : bool :=
  match s with
  | ε => true
  | String c s' => isTokenByte c true && str_forall (λ c, isTokenByte c false) s'
  end.

Definition ParseToken (where_ s : string) (max : Z) : res string :=
  if s =s ε then Err (Errorf CodeMalformed where_ "token must not be empty" [])
  else if max <? slen s then
    Err (Errorf CodeLimitExceeded where_ "token longer than %d bytes" [AInt max])
  else if negb (tokenBytes s) then
    Err (Errorf CodeMalformed where_ "token %q violates [A-Za-z0-9][A-Za-z0-9._-]*" [AStr s])
  else Ok s.

(** [strings.ToLower] on tokens, which are ASCII. *)
Definition FoldToken (s : string) : string := strings.ToLowerASCII s.

(** ** Paths *)

(** An empty, [.] or [..] segment. *)
Definition badSegment (seg : string) : bool := (seg =s ε) || (seg =s ".") || (seg =s "..").

(** [s] without one trailing slash. *)
Definition pathBody (s : string) : string :=
  if strings.HasSuffixByte s "/" then strings.init s else s.

Definition ParsePath (where_ s : string) : res string :=
  if s =s ε then Err (Errorf CodeMalformed where_ "Path must not be empty" [])
  else if 512 <? slen s then
    Err (Errorf CodeLimitExceeded where_ "Path longer than 512 bytes" [])
  else try checkHostile s where_ false;
  if str_exists (λ c, (c =b backslash) || (code c =? 0x7F)) s then
    Err (Errorf CodeMalformed where_ "Path contains a backslash or control byte" [])
  else if first_is "/" s then
    Err (Errorf CodeMalformed where_ "Path must be repository-relative (no leading '/')" [])
  else if existsb badSegment (strings.Split (pathBody s) "/") then
    Err (Errorf CodeMalformed where_ "Path has an empty, '.' or '..' segment" [])
  else Ok s.

(** ** Timestamps and dates

    [time.Parse] followed by a comparison with [Format] accepts exactly the
    fixed-width forms of valid calendar times: whatever else [Parse] admits
    (a one-digit hour, a fraction) is formatted differently. *)

(** [n] digits at offset [i]. *)
Definition num_at (s : string) (i n : nat) : option Z :=
  let d := String.substring i n s in
  if (String.length d =? n)%nat && str_forall strconv.isDigit d then Some (strconv.digits 0 d) else None.

Definition byte_at (s : string) (i : nat) (c : ascii) : bool :=
  match String.get i s with Some d => d =b c | None => false end.

Definition isLeap (year : Z) : bool :=
  (year mod 4 =? 0) && (negb (year mod 100 =? 0) || (year mod 400 =? 0)).

Definition daysIn (month year : Z) : Z :=
  if month =? 2 then (if isLeap year then 29 else 28)
  else if (month =? 4) || (month =? 6) || (month =? 9) || (month =? 11) then 30 else 31.

Definition validDate (year month day : Z) : bool :=
  (1 <=? month) && (month <=? 12) && (1 <=? day) && (day <=? daysIn month year).

Definition date_at (s : string) : option (Z * Z * Z) :=
  y ← num_at s 0 4; m ← num_at s 5 2; d ← num_at s 8 2;
  if byte_at s 4 "-" && byte_at s 7 "-" && validDate y m d then Some (y, m, d) else None.

Definition clock_at (s : string) : option (Z * Z * Z) :=
  h ← num_at s 11 2; mi ← num_at s 14 2; sec ← num_at s 17 2;
  if byte_at s 10 "T" && byte_at s 13 ":" && byte_at s 16 ":" && byte_at s 19 "Z"
     && (h <? 24) && (mi <? 60) && (sec <? 60) then Some (h, mi, sec) else None.

Definition ParseTimestamp (where_ s : string) : res string :=
  if negb (slen s =? 20) then
    Err (Errorf CodeMalformed where_ "timestamp must be YYYY-MM-DDTHH:MM:SSZ" [])
  else match date_at s, clock_at s with
       | Some _, Some _ => Ok s
       | _, _ => Err (Errorf CodeMalformed where_ "timestamp must be a valid YYYY-MM-DDTHH:MM:SSZ" [])
       end.

Definition ParseDate (where_ s : string) : res string :=
  if negb (slen s =? 10) then Err (Errorf CodeMalformed where_ "date must be YYYY-MM-DD" [])
  else match date_at s with
       | Some _ => Ok s
       | None => Err (Errorf CodeMalformed where_ "date must be a valid YYYY-MM-DD" [])
       end.

(** ** Profiles *)

(** [want] is one of the code's profile constants, [name/version]; the
    branch without a slash, where Go would panic, is never reached. *)
Definition CheckProfile (where_ got want : string) : option Error :=
  if got =s want then None
  else
    let name := match strings.CutLast want "/" with Some (name, _) => name | None => want end in
    if strings.HasPrefix got (name +:+ "/") then
      Some (Errorf CodeUnsupportedVersion where_ "profile %q is not supported; want %q" [AStr got; AStr want])
    else Some (Errorf CodeMalformed where_ "profile %q; want %q" [AStr got; AStr want]).

Definition otherVersion (where_ got want : string) : option Error :=
  match CheckProfile where_ got want with
  | Some err => if CodeOf (Some (EWire err)) =s CodeUnsupportedVersion then Some err else None
  | None => None
  end.

Definition ProfileVersion (where_ : string) (v : Value) (want : string) : option Error :=
  match v with
  | VObject o => match Get o "profile" with Some (VString p) => otherVersion where_ p want | _ => None end
  | _ => None
  end.
