(* ===== verification/PrimitivesSpec.v ===== *)
(** * Texts without hostile code points

    What [checkHostile] accepts, as a statement about runes, and what the
    field parsers of [Primitives] accept in terms of it. *)

From S2P Require Import Prelude Utf8 GoStd Codes Value Primitives.
Local Open Scope Z_scope.
Local Open Scope go_scope.

(** A text of scalar values none of which is hostile. *)
Definition clean (allow : bool) (s : string) : Prop :=
  ∃ rs, s = utf8.EncodeRunes rs ∧ Forall (λ r, utf8.ValidRune r = true) rs ∧
    Forall (λ r, hostileRune r allow = false) rs.

Lemma notPlain_hostile allow c :
  notPlain allow c = false → hostileRune (code c) allow = false ∧ code c < 0x80.
Proof. destruct allow; by all_bytes c. Qed.

(** The fast path accepts only clean text. *)
Lemma plainASCII_clean s allow : plainASCII s allow = true → clean allow s.
Proof.
  unfold plainASCII. intros H%negb_true_iff. induction s as [|c s IH]; [by exists []|].
  simpl in H. apply orb_false_iff in H as [Hc Hs]. destruct (IH Hs) as (rs & -> & Hv & Hh).
  apply notPlain_hostile in Hc as [Hc Hlt]. pose proof (code_range c).
  exists (code c :: rs). simpl. rewrite EncodeRune_ascii by done. split; [done|].
  split; constructor; try done. apply utf8.ValidRune_spec. lia.
Qed.

(** The fast path and the full scan agree: a text is accepted exactly when it
    is valid UTF-8 without hostile code points. *)
Lemma checkHostile_clean s w allow : checkHostile s w allow = None ↔ clean allow s.
Proof.
  unfold checkHostile. destruct (plainASCII s allow) eqn:Hp.
  { split; [|done]. intros _. by apply plainASCII_clean. }
  rewrite scan_None_spec by done. unfold clean.
  assert (∀ rs, Forall (λ r, utf8.ValidRune r = true) rs →
    Forall (λ r, hostileStep w allow r (String.length (utf8.EncodeRune r)) = None) rs ↔
    Forall (λ r, hostileRune r allow = false) rs) as H.
  { intros rs Hv. rewrite !Forall_forall in *.
    assert (∀ r, r ∈ rs → hostileStep w allow r (String.length (utf8.EncodeRune r)) = None ↔
      hostileRune r allow = false) as Hr.
    { intros r Hr. unfold hostileStep. rewrite invalid_EncodeRune by auto. by case_match. }
    split; intros Hx r Hr'; by apply Hr, Hx. }
  split; intros (rs & -> & Hv & Hh); exists rs; (split; [done|]); (split; [done|]);
    by apply (H rs Hv).
Qed.

Lemma clean_Valid allow s : clean allow s → utf8.Valid s = true.
Proof. intros (rs & -> & Hv & _). apply Valid_spec. eauto. Qed.

Lemma clean_app allow a b : clean allow a → clean allow b → clean allow (a +:+ b).
Proof.
  intros (ra & -> & Ha & Ha') (rb & -> & Hb & Hb'). exists (ra ++ rb).
  rewrite EncodeRunes_app, !Forall_app. auto.
Qed.

Lemma clean_empty allow : clean allow ε.
Proof. by exists []. Qed.

(** Allowing TAB, LF and CR accepts more. *)
Lemma clean_weaken s : clean false s → clean true s.
Proof.
  intros (rs & -> & Hv & Hh). exists rs. split; [done|]. split; [done|].
  eapply Forall_impl; [exact Hh|]. intros r. unfold hostileRune.
  repeat case_match; simpl in *; try done.
Qed.

Lemma clean_nil_check w allow : checkHostile ε w allow = None.
Proof. done. Qed.

Lemma clean_check s w allow : clean allow s → checkHostile s w allow = None.
Proof. by rewrite checkHostile_clean. Qed.

(** ** What the text fields accept *)

Lemma parseText_Ok w s min max allow k t :
  parseText w s min max allow k = Ok t ↔ t = s ∧ min ≤ slen s ≤ max ∧ clean allow s.
Proof.
  unfold parseText. destruct (Z.ltb_spec (slen s) min); [split; [done|lia]|].
  destruct (Z.ltb_spec max (slen s)); [split; [done|lia]|].
  destruct (checkHostile s w allow) eqn:E.
  - split; [done|]. intros (_ & _ & Hc). by rewrite clean_check in E.
  - rewrite checkHostile_clean in E. split; [by intros [= ->]|]. by intros (-> & _ & _).
Qed.

(** The hostile check fails as MALFORMED only. *)
Lemma checkHostile_code s w allow e : checkHostile s w allow = Some e → Code e = CodeMalformed.
Proof.
  unfold checkHostile. case_match; [done|]. intros (r & n & H')%scan_Some.
  unfold hostileStep in H'. repeat case_match; by simplify_eq.
Qed.

(** ** What the primitive fields accept

    The sets of strings accepted by the parsers of [Primitives], and the
    round trips of the numbers they carry. *)


(** ** Decimal strings *)

(** A decimal shape is the shortest decimal form of its value. *)
Lemma decimalShape_spec s : decimalShape s = true ↔ ∃ n, 0 ≤ n ∧ s = strconv.FormatUint n.
Proof.
  split.
  - unfold decimalShape. destruct s as [|c s]; [done|].
    destruct (String.eqb_spec (String c s) "0") as [->|]; [by exists 0|].
    destruct ((code c <? code "1") || (code "9" <? code c)) eqn:Hc; [done|]. intros Hs.
    assert (strconv.isDigit c = true ∧ c ≠ "0"%char) as [Hd Hne].
    { revert Hc. clear. by all_bytes c. }
    exists (strconv.digits 0 (String c s)). split; [|by rewrite strconv.FormatUint_of_digits].
    apply strconv.digits_nonneg; [done|]. simpl. by rewrite Hd, Hs.
  - intros (n & Hn & ->). destruct (strconv.FormatUint_head n Hn) as (c & s & -> & Hd & Hs & H0).
    unfold decimalShape. destruct (String.eqb_spec (String c s) "0"); [done|].
    assert (c ≠ "0"%char) as Hne. { intros ->. destruct (H0 eq_refl) as [_ ->]. done. }
    destruct ((code c <? code "1") || (code "9" <? code c)) eqn:Hc; [|done].
    exfalso. revert Hd Hne Hc. clear. by all_bytes c.
Qed.

Lemma slen_FormatUint n k : 0 ≤ n < 10 ^ Z.of_nat (S k) → slen (strconv.FormatUint n) ≤ Z.of_nat (S k).
Proof. intros Hn. apply strconv.FormatUint_length in Hn. unfold slen. lia. Qed.

(** A number has one decimal form. *)
Lemma FormatUint_inj n m : 0 ≤ n → 0 ≤ m → strconv.FormatUint n = strconv.FormatUint m → n = m.
Proof.
  intros Hn Hm H. destruct (strconv.FormatUint_digits n Hn) as (_ & <- & _).
  destruct (strconv.FormatUint_digits m Hm) as (_ & <- & _). by rewrite H.
Qed.

Lemma CountOf_nonneg n : 0 ≤ n → CountOf n = strconv.FormatUint n.
Proof.
  intros. unfold CountOf, strconv.FormatInt. destruct (Z.ltb_spec n 0); [lia|].
  destruct (Z.ltb_spec n 0); [lia|done].
Qed.

(** An accepted Count is the decimal form of its number. *)
Lemma ParseCount_Ok w s t :
  ParseCount w s = Ok t → t = s ∧ 0 ≤ Count_Int s ≤ MaxCountValue ∧ s = CountOf (Count_Int s).
Proof.
  unfold ParseCount. destruct (decimalShape s) eqn:Hd; cbn [negb]; [|done].
  apply decimalShape_spec in Hd as (n & Hn & ->). destruct (10 <? _); [done|].
  destruct (strconv.ParseUint _ 64) as [m|] eqn:Hp; [|done]. unfold MaxCountValue.
  unfold strconv.ParseUint in Hp. destruct (_ || _); [done|].
  destruct (strconv.FormatUint_digits n Hn) as (_ & Hv & _). rewrite Hv in Hp.
  destruct (n <? 2 ^ 64); [|done]. injection Hp as <-. destruct (Z.ltb_spec 2147483647 n); [done|]. intros [= <-].
  assert (Count_Int (strconv.FormatUint n) = n) as -> by (apply strconv.ParseInt_value_FormatUint; lia).
  by rewrite CountOf_nonneg.
Qed.

Lemma Count_Int_CountOf n : 0 ≤ n ≤ MaxCountValue → Count_Int (CountOf n) = n.
Proof. unfold MaxCountValue. intros. rewrite CountOf_nonneg by lia. apply strconv.ParseInt_value_FormatUint; lia. Qed.

(** A Count is accepted exactly when it is the decimal form of a number
    from 0 to 2147483647, without sign, leading zero or space; [Int] then
    returns that number, and every other string is MALFORMED. *)
Theorem ParseCount_spec w s :
  (∃ n, 0 ≤ n ≤ MaxCountValue ∧ s = CountOf n ∧ ParseCount w s = Ok s ∧ Count_Int s = n) ∨
  ((∀ n, 0 ≤ n ≤ MaxCountValue → s ≠ CountOf n) ∧ ∃ e, ParseCount w s = Err e ∧ Code e = CodeMalformed).
Proof.
  unfold ParseCount. destruct (decimalShape s) eqn:Hd; cbn [negb].
  2:{ right. split; [|by eexists]. intros n Hn ->. rewrite CountOf_nonneg in Hd by lia.
      assert (decimalShape (strconv.FormatUint n) = true); [|congruence].
      apply decimalShape_spec. exists n. split; [lia|done]. }
  apply decimalShape_spec in Hd as (n & Hn & ->).
  assert (MaxCountValue < n → ∀ n', 0 ≤ n' ≤ MaxCountValue → strconv.FormatUint n ≠ CountOf n') as Hbig.
  { intros Hlt n' Hn' He. rewrite CountOf_nonneg in He by lia. apply FormatUint_inj in He; lia. }
  unfold MaxCountValue in *. destruct (Z.leb_spec n 2147483647).
  - pose proof (slen_FormatUint n 9 ltac:(simpl; lia)) as Hl.
    destruct (Z.ltb_spec 10 (slen (strconv.FormatUint n))); [lia|].
    rewrite strconv.ParseUint_FormatUint by lia. destruct (Z.ltb_spec 2147483647 n); [lia|].
    left. exists n. rewrite CountOf_nonneg by lia. split; [lia|]. split; [done|]. split; [done|].
    unfold Count_Int. apply strconv.ParseInt_value_FormatUint; lia.
  - right. split; [by apply Hbig|]. destruct (10 <? _); [by eexists|].
    destruct (strconv.ParseUint _ 64) as [m|] eqn:Hp; [|by eexists].
    unfold strconv.ParseUint in Hp. destruct (_ || _); [done|].
    destruct (strconv.FormatUint_digits n Hn) as (_ & Hv & _). rewrite Hv in Hp.
    destruct (n <? 2 ^ 64); [|done]. injection Hp as <-.
    destruct (Z.ltb_spec 2147483647 n); [by eexists|lia].
Qed.

(** A Size is accepted exactly when it is the decimal form of a 64-bit
    unsigned number; [Uint64] then returns that number, and every other string
    is MALFORMED. *)
Theorem ParseSize_spec w s :
  (∃ n, 0 ≤ n < 2 ^ 64 ∧ s = SizeOf n ∧ ParseSize w s = Ok s ∧ Size_Uint64 s = n) ∨
  ((∀ n, 0 ≤ n < 2 ^ 64 → s ≠ SizeOf n) ∧ ∃ e, ParseSize w s = Err e ∧ Code e = CodeMalformed).
Proof.
  unfold ParseSize, SizeOf. destruct (decimalShape s) eqn:Hd; cbn [negb].
  2:{ right. split; [|by eexists]. intros n Hn ->.
      assert (decimalShape (strconv.FormatUint n) = true); [|congruence].
      apply decimalShape_spec. exists n. split; [lia|done]. }
  apply decimalShape_spec in Hd as (n & Hn & ->). destruct (Z.ltb_spec n (2 ^ 64)).
  - pose proof (slen_FormatUint n 19 ltac:(simpl; lia)) as Hl.
    destruct (Z.ltb_spec 20 (slen (strconv.FormatUint n))); [lia|].
    rewrite strconv.ParseUint_FormatUint by lia. left. exists n. split; [lia|]. split; [done|].
    split; [done|]. unfold Size_Uint64. apply strconv.ParseUint_value_FormatUint; lia.
  - right. split; [intros n' Hn' He; apply FormatUint_inj in He; lia|].
    destruct (20 <? _); [by eexists|].
    destruct (strconv.ParseUint _ 64) as [m|] eqn:Hp; [|by eexists].
    unfold strconv.ParseUint in Hp. destruct (_ || _); [done|].
    destruct (strconv.FormatUint_digits n Hn) as (_ & Hv & _). rewrite Hv in Hp.
    destruct (Z.ltb_spec n (2 ^ 64)); [lia|done].
Qed.

(** [CountOf] clamps only negative numbers: to 0, which is a valid Count.  A
    number above the maximum is written out and refused by [ParseCount]. *)
Lemma CountOf_clamps_negative_only :
  CountOf (-1) = "0" ∧ ParseCount "/" (CountOf (-1)) = Ok "0" ∧ CountOf 2147483648 = "2147483648".
Proof. by vm_compute. Qed.

(** ** Hostile text *)

(** The hostile check with its ASCII fast path returns what the scan of
    the decoded code points alone returns, and it accepts exactly the valid
    UTF-8 texts without hostile code points. *)
Theorem checkHostile_spec s w allow :
  checkHostile s w allow = utf8.scan (hostileStep w allow) 0 s ∧
  (checkHostile s w allow = None ↔
    ∃ rs, s = utf8.EncodeRunes rs ∧ Forall (λ r, utf8.ValidRune r = true) rs ∧
      Forall (λ r, hostileRune r allow = false) rs).
Proof.
  split; [|apply checkHostile_clean]. unfold checkHostile.
  destruct (plainASCII s allow) eqn:Hp; [|done]. symmetry.
  apply scan_None_spec; [done|]. apply plainASCII_clean in Hp as (rs & -> & Hv & Hh).
  exists rs. split; [done|]. split; [done|]. rewrite Forall_forall in *. intros r Hr.
  unfold hostileStep. rewrite invalid_EncodeRune by auto. by rewrite Hh.
Qed.

(** ** Paths *)

(** A path segment: not empty, [.] or [..], without slash, backslash or DEL. *)
Definition segment (w : string) : Prop :=
  w ≠ ε ∧ w ≠ "." ∧ w ≠ ".." ∧
  str_forall (λ c, negb (c =b "/") && negb (c =b backslash) && negb (code c =? 0x7F)) w = true.

Definition path_of (segs : list string) (dir : bool) : string :=
  strings.Join segs "/" +:+ (if dir then "/" else ε).


Lemma pathBody_path_of segs dir :
  segs ≠ [] → Forall segment segs → pathBody (path_of segs dir) = strings.Join segs "/".
Proof.
  intros Hne Hs. unfold pathBody, path_of. destruct dir.
  { assert (strings.HasSuffixByte (strings.Join segs "/" +:+ "/") "/" = true) as ->.
    { unfold strings.HasSuffixByte. by rewrite (strings.last_snoc _ "/"). }
    apply (strings.init_snoc _ "/"). }
  rewrite app_str_nil. destruct (strings.HasSuffixByte _ "/") eqn:H; [|done]. exfalso.
  unfold strings.HasSuffixByte in H. destruct (strings.last _) as [d|] eqn:Hl; [|done].
  apply Ascii.eqb_eq in H as ->. apply strings.last_init in Hl.
  assert (strings.Split (strings.Join segs "/") "/" = segs) as Hsp.
  { apply strings.Split_Join; [done|]. eapply Forall_impl; [exact Hs|].
    intros x (_ & _ & _ & Hf). revert Hf. apply str_forall_impl. intros c. clear. by all_bytes c. }
  rewrite Hl, strings.Split_snoc in Hsp. rewrite <-Hsp, Forall_app, Forall_singleton in Hs.
  destruct Hs as [_ (? & _)]. done.
Qed.

Lemma path_of_head segs dir :
  segs ≠ [] → Forall segment segs → path_of segs dir ≠ ε ∧ first_is "/" (path_of segs dir) = false.
Proof.
  intros Hne Hs. destruct Hs as [|x segs (Hx & _ & _ & Hf) _]; [done|]. destruct x as [|c x]; [done|].
  unfold path_of. assert (∃ t, strings.Join (String c x :: segs) "/" = String c t) as [t ->].
  { destruct segs; by eexists. }
  rewrite app_cons_str. split; [done|]. cbn [str_forall] in Hf. apply andb_true_iff in Hf as [Hc _].
  revert Hc. clear. by all_bytes c.
Qed.

Lemma ParsePath_Ok w s t :
  ParsePath w s = Ok t →
  t = s ∧ slen s ≤ 512 ∧ clean false s ∧
  ∃ segs dir, s = path_of segs dir ∧ segs ≠ [] ∧ Forall segment segs.
Proof.
  unfold ParsePath.
  destruct (String.eqb_spec s ε) as [|Hne]; [done|]. destruct (Z.ltb_spec 512 (slen s)); [done|].
  destruct (checkHostile s w false) eqn:Hc; [done|]. apply checkHostile_clean in Hc.
  destruct (str_exists _ s) eqn:Hb; [done|]. destruct (first_is "/" s); [done|].
  destruct (existsb badSegment _) eqn:Hseg; [done|]. intros [= ->].
  split; [done|]. split; [done|]. split; [done|].
  exists (strings.Split (pathBody t) "/"), (strings.HasSuffixByte t "/").
  assert (t = pathBody t +:+ (if strings.HasSuffixByte t "/" then "/" else ε)) as Ht.
  { unfold pathBody. destruct (strings.HasSuffixByte t "/") eqn:H'; [|by rewrite app_str_nil].
    unfold strings.HasSuffixByte in H'. destruct (strings.last t) eqn:Hl; [|done].
    apply Ascii.eqb_eq in H' as ->. by apply strings.last_init. }
  split; [|split; [apply strings.Split_nonempty|]].
  { unfold path_of. by rewrite strings.Join_Split. }
  apply str_exists_forall in Hb. rewrite Ht, str_forall_app in Hb. apply andb_true_iff in Hb as [Hb _].
  rewrite <-(strings.Join_Split (pathBody t) "/") in Hb. apply strings.Join_forall in Hb; [|done].
  pose proof (strings.Split_no_sep (pathBody t) "/") as Hn. rewrite Forall_forall in *.
  intros x Hx. specialize (Hb x Hx). specialize (Hn x Hx). simpl in Hb, Hn.
  assert (badSegment x = false) as Hbad.
  { apply not_true_iff_false. intros Hbad. apply not_true_iff_false in Hseg. apply Hseg.
    apply existsb_exists. exists x. split; [by apply list_elem_of_In|done]. }
  unfold badSegment in Hbad. bool_hyps. split_and!; try done.
  rewrite !str_forall_and, Hn. simpl. rewrite <-str_forall_and.
  revert Hb. apply str_forall_impl. intros c. clear. by all_bytes c.
Qed.

Lemma ParsePath_path_of w s segs dir :
  slen s ≤ 512 → clean false s → s = path_of segs dir → segs ≠ [] → Forall segment segs →
  ParsePath w s = Ok s.
Proof.
  unfold ParsePath.
  intros Hl Hc Hs Hne Hf.
  destruct (path_of_head segs dir Hne Hf) as [He Hfi]. rewrite <-Hs in He, Hfi.
  apply String.eqb_neq in He as ->. destruct (Z.ltb_spec 512 (slen s)); [lia|].
  rewrite clean_check, Hfi by done.
  assert (str_exists (λ c, (c =b backslash) || (code c =? 0x7F)) s = false) as ->.
  { apply str_exists_forall. rewrite Hs. unfold path_of. rewrite str_forall_app. apply andb_true_iff.
    split; [|by destruct dir]. apply strings.Join_forall; [done|]. eapply Forall_impl; [exact Hf|].
    intros x (_ & _ & _ & Hx). revert Hx. apply str_forall_impl. intros c. clear. by all_bytes c. }
  rewrite Hs, pathBody_path_of by done.
  change (strings.Join segs "/") with (strings.Join segs (str1 "/")). rewrite strings.Split_Join; [|done|].
  - assert (existsb badSegment segs = false) as ->; [|done].
    apply not_true_iff_false. intros (x & Hx & Hb)%existsb_exists.
    rewrite Forall_forall in Hf. apply list_elem_of_In in Hx. destruct (Hf x Hx) as (H1 & H2 & H3 & _).
    unfold badSegment in Hb. apply String.eqb_neq in H1, H2, H3. by rewrite H1, H2, H3 in Hb.
  - eapply Forall_impl; [exact Hf|]. intros x (_ & _ & _ & Hx). revert Hx.
    apply str_forall_impl. intros c. clear. by all_bytes c.
Qed.

(** A Path is accepted exactly when it is a non-empty list of segments
    joined by slashes, with or without a trailing slash, at most 512 bytes and
    without hostile text; no segment is empty, [.] or [..] or holds a
    backslash or DEL. *)
Theorem ParsePath_spec w s t :
  ParsePath w s = Ok t ↔
  t = s ∧ slen s ≤ 512 ∧ clean false s ∧
  ∃ segs dir, s = path_of segs dir ∧ segs ≠ [] ∧ Forall segment segs.
Proof.
  split; [apply ParsePath_Ok|]. intros (-> & ? & ? & segs & dir & ? & ? & ?).
  by eapply ParsePath_path_of.
Qed.

(** ** Profiles *)

(** A profile string other than the one wanted is refused: as
    UNSUPPORTED_VERSION when it names the wanted profile at another version,
    and as MALFORMED otherwise. *)
Theorem CheckProfile_spec w got name version :
  str_forall (λ c, negb (c =b "/")) version = true →
  let want := name +:+ "/" +:+ version in
  (CheckProfile w got want = None ↔ got = want) ∧
  (got ≠ want → ∃ e, CheckProfile w got want = Some e ∧
    (Code e = CodeUnsupportedVersion ↔ ∃ v, got = name +:+ "/" +:+ v) ∧
    (Code e = CodeMalformed ↔ ¬ ∃ v, got = name +:+ "/" +:+ v)).
Proof.
  intros Hv want. unfold CheckProfile. destruct (String.eqb_spec got want) as [->|Hne]; [done|].
  subst want. rewrite !app_cons_str, !app_nil_str, strings.CutLast_app in * by done.
  split.
  { split; [by destruct (strings.HasPrefix _ _)|done]. }
  intros _. destruct (strings.HasPrefix got (name +:+ "/")) eqn:Hp.
  - apply strings.HasPrefix_spec in Hp as [r ->]. rewrite app_str_assoc.
    eexists. split; [done|]. split; split; try done; [by eexists|]. intros Hn. exfalso. apply Hn. by eexists.
  - eexists. split; [done|]. assert (¬ ∃ v, got = name +:+ "/" +:+ v) as Hno.
    { intros [v ->]. apply not_true_iff_false in Hp. apply Hp, strings.HasPrefix_spec.
      exists v. by rewrite app_str_assoc. }
    split; split; done.
Qed.

Lemma CheckProfile_spec_witness :
  ∃ e, CheckProfile "/" "taskman-outcome/1" ("taskman-outcome" +:+ "/" +:+ "0") = Some e ∧
    Code e = CodeUnsupportedVersion.
Proof.
  destruct (CheckProfile_spec "/" "taskman-outcome/1" "taskman-outcome" "0" eq_refl) as [_ H].
  destruct H as (e & He & [_ Hu] & _); [discriminate|]. exists e. split; [exact He|].
  apply Hu. exists "1"%string. reflexivity.
Defined.
