(* ===== verification/Ids.v ===== *)
(** * Identifiers

    [ids.go], [optional.go], [obligations.go], [ticketkeys.go],
    [escalation_hold.go] and [RecordIdentity] of [src/internal/tasks/wire]:
    repository, queue and ticket ids, obligation ids, and the small
    predicates on tickets that two readers share. *)

From S2P Require Import Prelude Utf8 GoStd Codes Value Primitives.
Local Open Scope Z_scope.
Local Open Scope go_scope.

(** ** Repository, queue and ticket ids *)

Record QueueID := { QueueID_Raw : string; QueueID_Authority : string; QueueID_Queue : string }.

Record TicketID := {
  TicketID_Raw : string;
  TicketID_Authority : string;
  TicketID_Queue : string;
  TicketID_Local : string
}.

Definition zeroQueueID : QueueID := {| QueueID_Raw := ε; QueueID_Authority := ε; QueueID_Queue := ε |}.

Definition zeroTicketID : TicketID :=
  {| TicketID_Raw := ε; TicketID_Authority := ε; TicketID_Queue := ε; TicketID_Local := ε |}.

(** [t.QueueID()] *)
Definition TicketID_QueueID (t : TicketID) : string :=
  "queue:" +:+ TicketID_Authority t +:+ ":" +:+ TicketID_Queue t.

Definition checkIDLength (where_ s : string) : option Error :=
  if MaxIdentifierBytes <? slen s then
    Some (Errorf CodeLimitExceeded where_ "ID longer than %d bytes" [AInt MaxIdentifierBytes])
  else if str_exists (λ c, 0x80 <=? code c) s then
    Some (Errorf CodeMalformed where_ "ID must be ASCII" [])
  else None.

Definition ParseRepoID (where_ s : string) : res string :=
  try checkIDLength where_ s;
  match strip_prefix "repo:" s with
  | None => Err (Errorf CodeMalformed where_ "repository ID must be repo:<authority>" [])
  | Some tok => let* _ := ParseToken where_ tok MaxIdentifierBytes in Ok tok
  end.

Definition ParseQueueID (where_ s : string) : res QueueID :=
  try checkIDLength where_ s;
  match strings.Split s ":" with
  | [kind; authority; queue] =>
      if negb (kind =s "queue") then
        Err (Errorf CodeMalformed where_ "queue ID must be queue:<authority>:<queue>" [])
      else
        let* _ := ParseToken where_ authority MaxIdentifierBytes in
        let* _ := ParseToken where_ queue MaxIdentifierBytes in
        Ok {| QueueID_Raw := s; QueueID_Authority := authority; QueueID_Queue := queue |}
  | _ => Err (Errorf CodeMalformed where_ "queue ID must be queue:<authority>:<queue>" [])
  end.

Definition ParseTicketID (where_ s : string) : res TicketID :=
  try checkIDLength where_ s;
  match strings.Split s ":" with
  | [kind; authority; queue; local] =>
      if negb (kind =s "ticket") then
        Err (Errorf CodeMalformed where_ "ticket ID must be ticket:<authority>:<queue>:<local>" [])
      else
        let* _ := ParseToken where_ authority MaxIdentifierBytes in
        let* _ := ParseToken where_ queue MaxIdentifierBytes in
        let* _ := ParseToken where_ local MaxLocalTokenBytes in
        Ok {| TicketID_Raw := s; TicketID_Authority := authority; TicketID_Queue := queue;
              TicketID_Local := local |}
  | _ => Err (Errorf CodeMalformed where_ "ticket ID must be ticket:<authority>:<queue>:<local>" [])
  end.

Definition RecordIdentity (kind digest : string) : string := kind +:+ ":sha256:" +:+ digest.

(** ** Optional keys *)

Definition Has (v : Value) (key : string) : bool :=
  match v with VObject o => bool_decide (is_Some (Get o key)) | _ => false end.

Definition OptionalKeys (v : Value) (required optional : list string) : list string :=
  required ++ filter (λ key, Has v key = true) optional.

(** ** Obligation ids *)

Definition ObligationsMaxEntries : Z := 256.
Definition ObligationsMaxEvents : Z := 1024.
Definition ObligationsMaxPrefixBytes : Z := 16.
Definition ObligationsMaxIDDigits : Z := 6.
Definition ObligationsMaxAliasBytes : Z := 128.

Definition alnum (c : ascii) : bool := between "A" "Z" c || between "a" "z" c || between "0" "9" c.

Definition ObligationAliasByte (c : ascii) : bool :=
  between "A" "Z" c || between "a" "z" c || between "0" "9" c ||
  (c =b ".") || (c =b "_") || (c =b ":") || (c =b "-").

Definition ParseObligationAlias (where_ s : string) : res string :=
  match s with
  | ε => Err (Errorf CodeMalformed where_ "obligation alias is %d bytes; the alias limit is 1..%d bytes"
           [AInt (slen s); AInt ObligationsMaxAliasBytes])
  | String first _ =>
      if ObligationsMaxAliasBytes <? slen s then
        Err (Errorf CodeMalformed where_ "obligation alias is %d bytes; the alias limit is 1..%d bytes"
          [AInt (slen s); AInt ObligationsMaxAliasBytes])
      else if negb (str_forall ObligationAliasByte s) then
        Err (Errorf CodeMalformed where_ "obligation alias must match [A-Za-z0-9][A-Za-z0-9._:-]*" [])
      else if negb (alnum first) || negb (alnum (default first (strings.last s))) then
        Err (Errorf CodeMalformed where_ "obligation alias must start and end with a letter or digit" [])
      else Ok s
  end.

Definition prefixBytes (s : string) : bool :=
  match s with
  | ε => true
  | String c s' => between "A" "Z" c && str_forall (λ c, between "A" "Z" c || between "0" "9" c) s'
  end.

Definition ParseObligationPrefix (where_ s : string) : res string :=
  if (s =s ε) || (ObligationsMaxPrefixBytes <? slen s) then
    Err (Errorf CodeMalformed where_ "obligation prefix must be 1..%d bytes" [AInt ObligationsMaxPrefixBytes])
  else if negb (prefixBytes s) then
    Err (Errorf CodeMalformed where_ "obligation prefix must match [A-Z][A-Z0-9]*" [])
  else Ok s.

(** The id is cut at its last dash, which must not be its first byte. *)
Definition ParseObligationID (where_ s : string) : res string :=
  match strings.CutLast s "-" with
  | Some ((String _ _) as prefix, n) =>
      let* _ := ParseObligationPrefix where_ prefix in
      if (n =s ε) || (ObligationsMaxIDDigits <? slen n) || first_is "0" n then
        Err (Errorf CodeMalformed where_ "obligation id number must be 1..%d digits without a leading zero"
          [AInt ObligationsMaxIDDigits])
      else if negb (str_forall strconv.isDigit n) then
        Err (Errorf CodeMalformed where_ "obligation id number must be decimal" [])
      else Ok prefix
  | _ => Err (Errorf CodeMalformed where_ "obligation id must be <prefix>-<number>" [])
  end.

(** ** Ticket records *)

Definition TicketRecordKeys : list string :=
  ["profile"; "ticketId"; "revision"; "acceptanceRevision"; "previousRecordSha256";
   "status"; "archivedFrom"; "title"; "body"; "kind"; "owner"; "milestone"; "priority";
   "order"; "labels"; "dependencies"; "acceptanceCriteria"; "requirementRefs"; "source";
   "effects"; "capabilities"; "requiredGates"; "holds"; "executionClass"; "approvals";
   "completion"; "dueDate"; "estimateMinutes"; "supersedes"; "supersededBy";
   "shadowOverlay"; "createdAt"; "updatedAt"; "updatedBy"].

Definition TicketRecordOptionalKeys : list string :=
  ["requiresPool"; "requiredRoles"; "escalations"; "operatorNote"; "externalReviews";
   "executionPrerequisites"; "attachedEvidence"; "knowHow"; "obligations"; "progress"].

Definition TicketEffectsKeys : list string :=
  ["coverage"; "touchPaths"; "resources"; "externalUnbounded"].

Definition TicketEffectsOptionalKeys : list string :=
  ["verdictPaths"].

Definition ProgressPhases : list string :=
  ["IN_PROGRESS"; "DELIVERED_ON_BRANCH"; "IN_REVIEW"; "IN_MERGE_QUEUE";
   "MERGED_AWAITING_CLOSEOUT"; "BLOCKED"; "CLEARED"].

Definition EscalationMaxCurrentOpen : Z := 16.
Definition AttachedEvidenceMaxEntries : Z := 32.
Definition AttachedEvidenceMaxDigests : Z := 16.
Definition AttachedEvidenceMaxReasonBytes : Z := 512.
Definition ProgressMaxEntries : Z := 64.
Definition ProgressMaxReasonBytes : Z := 512.
Definition KnowHowMaxEntries : Z := 32.
Definition KnowHowMaxTextBytes : Z := 1024.
Definition KnowHowMaxAnchors : Z := 4.
Definition KnowHowMaxRoutes : Z := 4.
Definition KnowHowMaxRouteBytes : Z := 64.
Definition KnowHowMaxReasonBytes : Z := 512.
Definition KnowHowMaxSymbolBytes : Z := 128.
Definition KnowHowMaxRepositoryBytes : Z := 64.

(** A PATH key covers a path: it is the path, or a directory key above it. *)
Definition PathKeyCovers (scope path : string) : bool :=
  if scope =s path then true
  else strings.HasSuffixByte scope "/" && strings.HasPrefix path scope.

(** The index of the first verdict path no touch path covers, or -1; [i] is
    the index of the head of [verdictPaths]. *)
Fixpoint UncoveredVerdictPath_loop (touchPaths : list string) (i : Z) (verdictPaths : list string) : Z :=
  match verdictPaths with
  | [] => -1
  | p :: ps =>
      if existsb (λ t, PathKeyCovers t p) touchPaths
      then UncoveredVerdictPath_loop touchPaths (i + 1) ps else i
  end.

Definition UncoveredVerdictPath (touchPaths verdictPaths : list string) : Z :=
  UncoveredVerdictPath_loop touchPaths 0 verdictPaths.

Definition ParseKnowHowSymbol (where_ s : string) : res string :=
  if (slen s =? 0) || (KnowHowMaxSymbolBytes <? slen s) then
    Err (Errorf CodeMalformed where_ "symbol must be 1..%d bytes" [AInt KnowHowMaxSymbolBytes])
  else if str_exists (λ c, (code c <=? code " ") || (code "~" <? code c) || (c =b "#")) s then
    Err (Errorf CodeMalformed where_ "symbol %q must be printable ASCII without space or '#'" [AStr s])
  else Ok s.

Definition KnowHowNotStale : string := "KNOWHOW_NOT_STALE".

Record KnowHowPin := { Pin_Path : string; Pin_Symbol : string; Pin_Pin : string }.

(** The loop over the anchors, the lengths being equal: [None] on a different
    anchor, and otherwise whether a pin changed. *)
Fixpoint pins_changed (prior next : list KnowHowPin) : option bool :=
  match prior, next with
  | a :: prior', b :: next' =>
      if negb (Pin_Path a =s Pin_Path b) || negb (Pin_Symbol a =s Pin_Symbol b) then None
      else changed ← pins_changed prior' next'; Some (negb (Pin_Pin a =s Pin_Pin b) || changed)
  | _, _ => Some false
  end.

Definition KnowHowReconfirmRefusal (prior next : list KnowHowPin) : string :=
  let same := "a reconfirm re-pins exactly the note's anchors" in
  if negb (length prior =? length next)%nat then same
  else match pins_changed prior next with
       | None => same
       | Some false => KnowHowNotStale +:+ ": no anchor's pin changed, so the note is not STALE at that commit"
       | Some true => ε
       end.

Definition KnowHowRepositoryDetail : string := "KNOWHOW_REPOSITORY".

Definition ParseKnowHowRepository (where_ s : string) : res string :=
  match ParseToken where_ s KnowHowMaxRepositoryBytes with
  | Ok _ => Ok s
  | _ => Err (Errorf CodeMalformed where_ "%s: repository alias must be a token of at most %d bytes"
           [AStr KnowHowRepositoryDetail; AInt KnowHowMaxRepositoryBytes])
  end.

(** One anchor path below [repository + "/"]. *)
Definition belowRepository (repository p : string) : bool :=
  negb ((slen p <=? slen repository + 1) || negb (strings.HasPrefix p (repository +:+ "/"))).

Definition KnowHowRepositoryRefusal (repository : string) (paths : list string) : string :=
  if forallb (belowRepository repository) paths then ε
  else KnowHowRepositoryDetail +:+ ": every anchor path of a repository note starts with the repository alias and '/'".

(** ** Escalation holds *)

Record EscalationHoldEntry := {
  RequestID : string;
  AcceptanceRevision : string;
  EscalationKind : string;
  EscalationState : string
}.

Definition escalationHoldKinds : list string := ["decision"; "scope"; "blocked"].

Definition holds_now (acceptanceRevision : string) (e : EscalationHoldEntry) : bool :=
  (EscalationState e =s "OPEN") && existsb (String.eqb (EscalationKind e)) escalationHoldKinds &&
  (AcceptanceRevision e =s acceptanceRevision).

(** The loop of [EscalationPending]: the ids collected so far are those seen. *)
Fixpoint pending_ids (acceptanceRevision : string) (ids : list string) (entries : list EscalationHoldEntry) :
    list string :=
  match entries with
  | [] => ids
  | e :: es =>
      if negb (holds_now acceptanceRevision e) || bool_decide (RequestID e ∈ ids)
      then pending_ids acceptanceRevision ids es
      else pending_ids acceptanceRevision (ids ++ [RequestID e]) es
  end.

(** The ids that hold the ticket, bounded, and how many there are. *)
Definition EscalationPending (acceptanceRevision : string) (entries : list EscalationHoldEntry) :
    list string * Z :=
  let ids := SortStrings (pending_ids acceptanceRevision [] entries) in
  let total := Z.of_nat (length ids) in
  if EscalationMaxCurrentOpen <? total
  then (take (Z.to_nat EscalationMaxCurrentOpen) ids, total) else (ids, total).

(** ** Content identities

    [identity.go], over the hash function [sha256] of [crypto/sha256], a
    parameter. *)

(** [hex.EncodeToString] *)
Fixpoint hexEncode (s : string) : string :=
  match s with
  | ε => ε
  | String c s' =>
      String (hexdigit (Z.shiftr (code c) 4)) (String (hexdigit (Z.land (code c) 0xF)) (hexEncode s'))
  end.

Definition NUL : ascii := "000".

Section identity.
Context (sha256 : string → string).

Definition Sum (raw : string) : string := hexEncode (sha256 raw).

Definition ContentID (kind profile canonicalBody : string) : string :=
  hexEncode (sha256 (kind +:+ str1 NUL +:+ profile +:+ str1 NUL +:+ canonicalBody)).
End identity.
