(* ===== verification/IdsSpec.v ===== *)
(** * What the identifiers promise *)

From S2P Require Import Prelude Utf8 GoStd Codes Value Primitives PrimitivesSpec Ids.
Local Open Scope Z_scope.
Local Open Scope go_scope.

(** ** Tokens *)

(** [A-Za-z0-9][A-Za-z0-9._-]* of at most [max] bytes. *)
Definition token (max : Z) (s : string) : Prop := s ≠ ε ∧ slen s ≤ max ∧ tokenBytes s = true.

Lemma ParseToken_Ok w s max t : ParseToken w s max = Ok t ↔ t = s ∧ token max s.
Proof.
  unfold ParseToken, token. destruct (String.eqb_spec s ε) as [|Hne]; [by split; [|intros (_ & ? & _)]|].
  destruct (Z.ltb_spec max (slen s)); [split; [done|intros (_ & _ & ? & _); lia]|].
  destruct (tokenBytes s); [|by split; [|intros (_ & _ & _ & ?)]].
  split; [by intros [= ->]|by intros (-> & _)].
Qed.

(** Every byte of a token is one of the token alphabet, all of it ASCII. *)
Lemma token_bytes max s : token max s → str_forall (λ c, isTokenByte c false) s = true.
Proof.
  intros (_ & _ & H). destruct s as [|c s]; [done|]. simpl in *. apply andb_true_iff in H as [Hc Hs].
  apply andb_true_iff. split; [|done]. revert Hc. clear. by all_bytes c.
Qed.

Lemma token_no_colon max s : token max s → str_forall (λ c, negb (c =b ":")) s = true.
Proof. intros H%token_bytes. revert H. apply str_forall_impl. intros c. by all_bytes c. Qed.

Lemma checkIDLength_None w s :
  checkIDLength w s = None ↔ slen s ≤ MaxIdentifierBytes ∧ str_forall (λ c, negb (0x80 <=? code c)) s = true.
Proof.
  unfold checkIDLength. destruct (Z.ltb_spec MaxIdentifierBytes (slen s)); [split; [done|lia]|].
  destruct (str_exists _ s) eqn:E.
  - split; [done|]. intros [_ H']. apply str_exists_forall in H'. congruence.
  - apply str_exists_forall in E. done.
Qed.

(** Parts joined by colons, with a fixed first part. *)
Lemma Split_colon s ws : strings.Split s ":" = ws → s = strings.Join ws ":".
Proof. intros <-. symmetry. apply (strings.Join_Split s ":"). Qed.

Lemma token_ascii max s : token max s → str_forall (λ c, negb (0x80 <=? code c)) s = true.
Proof. intros H%token_bytes. revert H. apply str_forall_impl. intros c. by all_bytes c. Qed.

(** A ticket id is accepted exactly when it is [ticket:a:q:l] for three
    tokens, [l] of at most 64 bytes and the whole of at most 128, and its parts
    are those tokens; the queue id of an accepted ticket id is accepted, with
    the same authority and queue. *)
Theorem ParseTicketID_spec w s t :
  (ParseTicketID w s = Ok t ↔
    ∃ a q l, s = "ticket:" +:+ a +:+ ":" +:+ q +:+ ":" +:+ l ∧ slen s ≤ MaxIdentifierBytes ∧
      token MaxIdentifierBytes a ∧ token MaxIdentifierBytes q ∧ token MaxLocalTokenBytes l ∧
      t = {| TicketID_Raw := s; TicketID_Authority := a; TicketID_Queue := q; TicketID_Local := l |}) ∧
  (ParseTicketID w s = Ok t →
    ParseQueueID w (TicketID_QueueID t) =
      Ok {| QueueID_Raw := TicketID_QueueID t; QueueID_Authority := TicketID_Authority t;
            QueueID_Queue := TicketID_Queue t |}).
Proof.
  match goal with |- ?A ∧ _ => assert A as Hiff end; [|split; [exact Hiff|]].
  - unfold ParseTicketID. split.
    + destruct (checkIDLength w s) eqn:Hl; [done|]. apply checkIDLength_None in Hl as [Hl _].
      destruct (strings.Split s ":") as [|k [|a [|q [|l [|]]]]] eqn:Hs; try done.
      destruct (String.eqb_spec k "ticket") as [->|]; [|done]. cbn [negb].
      rewrite !obind_Ok. setoid_rewrite obind_Ok. setoid_rewrite obind_Ok. setoid_rewrite ParseToken_Ok.
      intros (_ & [_ Ha] & _ & [_ Hq] & _ & [_ Hlo] & [= <-]).
      exists a, q, l. apply Split_colon in Hs. by rewrite Hs in *.
    + intros (a & q & l & Hs & Hl & Ha & Hq & Hlo & ->).
      assert (strings.Split s ":" = ["ticket"; a; q; l]) as Hsp.
      { rewrite Hs. change ("ticket:" +:+ a +:+ ":" +:+ q +:+ ":" +:+ l)
          with (strings.Join ["ticket"; a; q; l] (str1 ":")).
        apply strings.Split_Join; [done|].
        constructor; [done|]. repeat constructor; by eapply token_no_colon. }
      assert (checkIDLength w s = None) as ->.
      { apply checkIDLength_None. split; [done|].
        rewrite Hs, !str_forall_app, !(token_ascii _ _ Ha), (token_ascii _ _ Hq), (token_ascii _ _ Hlo). done. }
      rewrite Hsp. cbn [negb String.eqb].
      rewrite (proj2 (ParseToken_Ok w a _ a)), (proj2 (ParseToken_Ok w q _ q)),
        (proj2 (ParseToken_Ok w l _ l)) by done. done.
  - intros (a & q & l & Hs & Hl & Ha & Hq & Hlo & ->)%Hiff. unfold TicketID_QueueID.
    cbn [TicketID_Authority TicketID_Queue]. unfold ParseQueueID.
    assert (strings.Split ("queue:" +:+ a +:+ ":" +:+ q) ":" = ["queue"; a; q]) as ->.
    { change ("queue:" +:+ a +:+ ":" +:+ q) with (strings.Join ["queue"; a; q] (str1 ":")).
      apply strings.Split_Join; [done|]. constructor; [done|]. repeat constructor; by eapply token_no_colon. }
    assert (checkIDLength w ("queue:" +:+ a +:+ ":" +:+ q) = None) as ->.
    { apply checkIDLength_None. split.
      - subst s. rewrite !slen_app in Hl. rewrite !slen_app. unfold slen in *. cbn [String.length] in *. lia.
      - rewrite !str_forall_app, (token_ascii _ _ Ha), (token_ascii _ _ Hq). done. }
    cbn [negb String.eqb].
    rewrite (proj2 (ParseToken_Ok w a _ a)), (proj2 (ParseToken_Ok w q _ q)) by done. done.
Qed.

(** ** Path keys *)

Lemma PathKeyCovers_spec scope path :
  PathKeyCovers scope path = true ↔
  scope = path ∨ ∃ dir r, scope = dir +:+ "/" ∧ path = scope +:+ r.
Proof.
  unfold PathKeyCovers. destruct (String.eqb_spec scope path) as [|Hne]; [by split; [left|]|].
  rewrite andb_true_iff, strings.HasPrefix_spec. split.
  - intros [Hs [r Hr]]. right. exists (strings.init scope), r. split; [|done].
    unfold strings.HasSuffixByte in Hs. destruct (strings.last scope) eqn:E; [|done].
    apply Ascii.eqb_eq in Hs as ->. by apply strings.last_init.
  - intros [?|(dir & r & -> & Hr)]; [done|]. split; [|by exists r].
    unfold strings.HasSuffixByte. change (dir +:+ "/") with (dir +:+ str1 "/").
    by rewrite strings.last_snoc.
Qed.

(** Covering is a partial order on path keys: it is reflexive, a directory
    key covers what its subdirectory keys cover, and two keys that cover each
    other are equal. *)
Theorem PathKeyCovers_order :
  (∀ p, PathKeyCovers p p = true) ∧
  (∀ a b c, PathKeyCovers a b = true → PathKeyCovers b c = true → PathKeyCovers a c = true) ∧
  (∀ a b, PathKeyCovers a b = true → PathKeyCovers b a = true → a = b).
Proof.
  split_and!.
  - intros p. apply PathKeyCovers_spec. by left.
  - intros a b c. rewrite !PathKeyCovers_spec.
    intros [->|(d & r & -> & ->)] [<-|(d' & r' & Hb & ->)]; try tauto.
    + right. by exists d', r'.
    + right. by exists d, r.
    + right. exists d, (r +:+ r'). split; [done|]. by rewrite app_str_assoc.
  - intros a b. rewrite !PathKeyCovers_spec.
    intros [?|(d & r & -> & Hb)] [?|(d' & r' & Hd & Ha)]; try done.
    assert (r = ε) as ->; [|by rewrite app_str_nil in Hb].
    assert (r +:+ r' = ε) as Hr.
    { apply (app_str_inj_l (d +:+ "/")). rewrite app_str_nil.
      rewrite Hb in Ha at 1. by rewrite app_str_assoc in Ha. }
    by destruct r.
Qed.

Lemma UncoveredVerdictPath_loop_spec touch : ∀ verdict i,
  let n := UncoveredVerdictPath_loop touch i verdict in
  (n = -1 ∧ Forall (λ p, ∃ t, t ∈ touch ∧ PathKeyCovers t p = true) verdict) ∨
  ∃ pre p post, verdict = pre ++ p :: post ∧ n = i + Z.of_nat (length pre) ∧
    Forall (λ p, ∃ t, t ∈ touch ∧ PathKeyCovers t p = true) pre ∧
    Forall (λ t, PathKeyCovers t p = false) touch.
Proof.
  induction verdict as [|p ps IH]; intros i; simpl; [by left|].
  destruct (existsb _ touch) eqn:E.
  - apply existsb_exists in E as (t & Ht%list_elem_of_In & Hc).
    destruct (IH (i + 1)) as [[-> Hall]|(pre & q & post & -> & -> & Hpre & Hq)].
    + left. split; [done|]. constructor; [by exists t|done].
    + right. exists (p :: pre), q, post. split; [done|]. split; [simpl; lia|]. split; [|done].
      constructor; [by exists t|done].
  - right. exists [], p, ps. split; [done|]. split; [simpl; lia|]. split; [done|].
    apply Forall_forall. intros t Ht. apply not_true_iff_false. intros Hc.
    apply not_true_iff_false in E. apply E, existsb_exists. exists t. by rewrite <-list_elem_of_In.
Qed.

(** The verdict-path check returns -1 exactly when every verdict path is
    covered by some touch path, and otherwise the index of the first that no
    touch path covers. *)
Theorem UncoveredVerdictPath_spec touch verdict :
  let n := UncoveredVerdictPath touch verdict in
  (n = -1 ∧ Forall (λ p, ∃ t, t ∈ touch ∧ PathKeyCovers t p = true) verdict) ∨
  ∃ pre p post, verdict = pre ++ p :: post ∧ n = Z.of_nat (length pre) ∧
    Forall (λ p, ∃ t, t ∈ touch ∧ PathKeyCovers t p = true) pre ∧
    Forall (λ t, PathKeyCovers t p = false) touch.
Proof. apply (UncoveredVerdictPath_loop_spec touch verdict 0). Qed.

(** ** Know-how pins *)

Definition anchor (p : KnowHowPin) : string * string := (Pin_Path p, Pin_Symbol p).

Lemma pins_changed_spec : ∀ prior next, length prior = length next →
  match pins_changed prior next with
  | None => anchor <$> prior ≠ anchor <$> next
  | Some ch => anchor <$> prior = anchor <$> next ∧ (ch = false ↔ Pin_Pin <$> prior = Pin_Pin <$> next)
  end.
Proof.
  induction prior as [|a prior IH]; intros [|b next] Hl; try done. simpl in Hl. injection Hl as Hl.
  specialize (IH next Hl). rewrite !fmap_cons. simpl.
  assert (anchor a :: (anchor <$> prior) = anchor b :: (anchor <$> next) →
    Pin_Path a = Pin_Path b ∧ Pin_Symbol a = Pin_Symbol b ∧ anchor <$> prior = anchor <$> next) as Hinj.
  { by intros [= ? ? ?]. }
  destruct (String.eqb_spec (Pin_Path a) (Pin_Path b)) as [Hp|Hp]; simpl; [|intros ?%Hinj; tauto].
  destruct (String.eqb_spec (Pin_Symbol a) (Pin_Symbol b)) as [Hs|Hs]; simpl; [|intros ?%Hinj; tauto].
  destruct (pins_changed prior next) as [ch|]; simpl.
  - destruct IH as [-> IH]. split; [unfold anchor; by rewrite Hp, Hs|].
    destruct (String.eqb_spec (Pin_Pin a) (Pin_Pin b)) as [->|Hne]; simpl.
    + rewrite IH. split; [by intros ->|congruence].
    + split; [done|congruence].
  - intros ?%Hinj. tauto.
Qed.

(** A RECONFIRM is admitted exactly when it re-pins the same anchors, in
    the same order, and changes at least one pin. *)
Theorem KnowHowReconfirmRefusal_spec prior next :
  KnowHowReconfirmRefusal prior next = ε ↔
  anchor <$> prior = anchor <$> next ∧ Pin_Pin <$> prior ≠ Pin_Pin <$> next.
Proof.
  unfold KnowHowReconfirmRefusal. destruct (Nat.eqb_spec (length prior) (length next)) as [Hl|Hl].
  - pose proof (pins_changed_spec prior next Hl) as H.
    destruct (pins_changed prior next) as [[]|]; simpl.
    + destruct H as [-> H]. split; [|done]. intros _. split; [done|]. intros He. by apply H in He.
    + destruct H as [-> H]. split; [done|]. intros [_ He]. by destruct He; apply H.
    + split; [done|]. by intros [? _].
  - simpl. split; [done|]. intros [He _]. exfalso. apply Hl.
    apply (f_equal length) in He. by rewrite !length_fmap in He.
Qed.

(** ** Escalation holds *)

Lemma pending_ids_spec rev : ∀ entries ids,
  NoDup ids →
  NoDup (pending_ids rev ids entries) ∧
  ∀ id, id ∈ pending_ids rev ids entries ↔
    id ∈ ids ∨ ∃ e, e ∈ entries ∧ holds_now rev e = true ∧ RequestID e = id.
Proof.
  induction entries as [|e es IH]; intros ids Hnd.
  { split; [done|]. intros id. set_solver. }
  simpl. destruct (holds_now rev e) eqn:Hh; simpl; [case_bool_decide as Hin|].
  - destruct (IH ids Hnd) as [H1 H2]. split; [done|]. intros id. rewrite H2. set_solver.
  - destruct (IH (ids ++ [RequestID e])) as [H1 H2].
    { apply NoDup_app. split; [done|]. split; [set_solver|apply NoDup_singleton]. }
    split; [done|]. intros id. rewrite H2. set_solver.
  - destruct (IH ids Hnd) as [H1 H2]. split; [done|]. intros id. rewrite H2. split; [set_solver|].
    intros [?|(e' & He & Hh' & <-)]; [by left|]. apply elem_of_cons in He as [->|]; [congruence|set_solver].
Qed.

(** The escalation hold names, sorted and without repetition, the request
    ids of the entries that are OPEN, of a holding kind and of the ticket's
    current acceptance revision: all of them when there are at most 16, and
    the first 16 otherwise, with their full number; the list is empty exactly
    when no entry holds. *)
Theorem EscalationPending_spec rev entries :
  let '(ids, total) := EscalationPending rev entries in
  ∃ all, NoDup all ∧ StronglySorted (λ x y, String.leb x y = true) all ∧
    (∀ id, id ∈ all ↔ ∃ e, e ∈ entries ∧ holds_now rev e = true ∧ RequestID e = id) ∧
    total = Z.of_nat (length all) ∧ ids = take 16 all ∧
    (ids = [] ↔ Forall (λ e, holds_now rev e = false) entries).
Proof.
  unfold EscalationPending. set (all := SortStrings (pending_ids rev [] entries)).
  destruct (pending_ids_spec rev entries [] (NoDup_nil_2)) as [Hnd Hin].
  assert (∀ id, id ∈ all ↔ ∃ e, e ∈ entries ∧ holds_now rev e = true ∧ RequestID e = id) as Hall.
  { intros id. subst all. rewrite SortStrings_perm, Hin. set_solver. }
  assert (take 16 all = [] ↔ Forall (λ e, holds_now rev e = false) entries) as He.
  { transitivity (all = []); [by destruct all|]. split.
    - intros Ha. apply Forall_forall. intros e Hx. apply not_true_iff_false. intros Hh.
      assert (RequestID e ∈ all) as Hr by (apply Hall; eauto). rewrite Ha in Hr. set_solver.
    - intros Hf. destruct all as [|x xs] eqn:Ha; [done|]. exfalso.
      destruct (proj1 (Hall x)) as (e & Hx & Hh & _); [set_solver|].
      rewrite Forall_forall in Hf. specialize (Hf e Hx). congruence. }
  destruct (Z.ltb_spec EscalationMaxCurrentOpen (Z.of_nat (length all))) as [Hlt|Hge].
  - exists all. split_and!; try done; [subst all; by rewrite SortStrings_perm|apply SortStrings_StronglySorted|apply He..].
  - unfold EscalationMaxCurrentOpen in Hge. rewrite take_ge in He by lia.
    exists all. split_and!; try done; [subst all; by rewrite SortStrings_perm|apply SortStrings_StronglySorted|
      by rewrite take_ge by lia|apply He..].
Qed.

(** ** Obligation ids *)

(** An obligation id is accepted exactly when it is a valid prefix, a dash
    and the decimal form of a number from 1 to 999999, and the prefix is what
    is returned. *)
Theorem ParseObligationID_spec w s p :
  ParseObligationID w s = Ok p ↔
  ∃ n, 1 ≤ n ≤ 999999 ∧ s = p +:+ "-" +:+ strconv.FormatUint n ∧ ParseObligationPrefix w p = Ok p.
Proof.
  unfold ParseObligationID. split.
  - destruct (strings.CutLast s "-") as [[[|c q] n]|] eqn:E; try done.
    apply strings.CutLast_Some in E as [-> Hn]. intros (x & Hp & H)%obind_Ok.
    destruct (_ || _) eqn:Hsh; [done|]. destruct (str_forall strconv.isDigit n) eqn:Hd; [|done].
    injection H as <-. bool_hyps. destruct n as [|d n]; [done|].
    cbn [str_forall] in Hd. apply andb_true_iff in Hd as [Hd Hds]. simpl in Hn.
    match goal with H : first_is _ _ = false |- _ => simpl in H; apply Ascii.eqb_neq in H as Hz end.
    exists (strconv.digits 0 (String d n)).
    rewrite strconv.FormatUint_of_digits by done.
    assert (x = String c q) as ->.
    { unfold ParseObligationPrefix in Hp. by repeat case_match; simplify_eq. }
    split; [|done].
    pose proof (strconv.FormatUint_of_digits d n Hd Hz Hds) as Hf.
    destruct (strconv.isDigit_inv d Hd) as (k & Hk & Hdk & Hv).
    assert (k ≠ 0) by (intros ->; by subst d).
    assert (1 ≤ strconv.digits 0 (String d n)) as Hone.
    { cbn [strconv.digits]. rewrite Hv. pose proof (strconv.digits_nonneg (0 * 10 + k) n ltac:(lia) Hds). lia. }
    split; [done|]. match goal with H : slen _ ≤ _ |- _ => rename H into Hl end.
    rewrite <-Hf in Hl. apply Z.lt_succ_r. eapply (strconv.FormatUint_short _ 6); [lia|].
    unfold slen, ObligationsMaxIDDigits in Hl. lia.
  - intros (n & Hn & -> & Hp).
    assert (strconv.FormatUint n ≠ ε) as Hne by (apply strconv.FormatUint_digits; lia).
    destruct (strconv.FormatUint_head n) as (d & ds & Hf & Hd & Hds & H0); [lia|].
    change (p +:+ "-" +:+ strconv.FormatUint n) with (p +:+ String "-" (strconv.FormatUint n)).
    rewrite strings.CutLast_app.
    2:{ rewrite Hf. simpl. apply andb_true_iff. split; [revert Hd; clear; by all_bytes d|].
        revert Hds. apply str_forall_impl. intros c. clear. by all_bytes c. }
    destruct p as [|c q]; [done|]. rewrite Hp. cbn [obind].
    assert (slen (strconv.FormatUint n) ≤ 6) by (apply (slen_FormatUint n 5); simpl; lia).
    unfold ObligationsMaxIDDigits. destruct (Z.ltb_spec 6 (slen (strconv.FormatUint n))); [lia|].
    rewrite Hf. cbn [String.eqb first_is str_forall orb]. rewrite Hd, Hds.
    destruct (Ascii.eqb_spec d "0") as [->|]; [|done]. destruct H0; [done|]. lia.
Qed.

(** ** Content identities *)

Lemma hexEncode_inj s : ∀ t, hexEncode s = hexEncode t → s = t.
Proof.
  induction s as [|c s IH]; intros [|d t] H; try done. simpl in H. injection H as H1 H2 H.
  f_equal; [|by apply IH]. revert H1 H2. clear. intros H1 H2. apply code_inj.
  assert (∀ x, (code x = 16 * Z.of_nat (default 0%nat (String.index 0 (str1 (hexdigit (Z.shiftr (code x) 4))) hexdigits))
     + Z.of_nat (default 0%nat (String.index 0 (str1 (hexdigit (Z.land (code x) 0xF))) hexdigits)))) as Hx.
  { intros x. by all_bytes x. }
  by rewrite (Hx c), (Hx d), H1, H2.
Qed.

(** A text without NUL ends at the first NUL. *)
Lemma NUL_cut a b a' b' :
  str_forall (λ c, negb (c =b NUL)) a = true → str_forall (λ c, negb (c =b NUL)) a' = true →
  a +:+ str1 NUL +:+ b = a' +:+ str1 NUL +:+ b' → a = a' ∧ b = b'.
Proof.
  intros Ha Ha' H. apply (f_equal (str_span (λ c, negb (c =b NUL)))) in H.
  rewrite !str1_app, !str_span_run in H by (done || by intros ? ? [= <- _]). by injection H.
Qed.

(** Two contents with the same content identity are the same kind, profile
    and body, unless they exhibit a collision of the hash: the identity's input
    separates its parts, kinds and profiles holding no NUL. *)
Theorem ContentID_separates sha256 k p b k' p' b' :
  Forall (λ s, str_forall (λ c, negb (c =b NUL)) s = true) [k; p; k'; p'] →
  ContentID sha256 k p b = ContentID sha256 k' p' b' →
  (k = k' ∧ p = p' ∧ b = b') ∨ ∃ x y, x ≠ y ∧ sha256 x = sha256 y.
Proof.
  intros Hn H%hexEncode_inj. inv Hn as [|? ? Hk Hn1]. inv Hn1 as [|? ? Hp Hn2].
  inv Hn2 as [|? ? Hk' Hn3]. inv Hn3 as [|? ? Hp' _].
  destruct (decide (k +:+ str1 NUL +:+ p +:+ str1 NUL +:+ b = k' +:+ str1 NUL +:+ p' +:+ str1 NUL +:+ b'))
    as [He|He]; [|right; by eexists _, _].
  left. apply NUL_cut in He as [-> He]; [|done..]. by apply NUL_cut in He as [-> ->].
Qed.

Lemma ContentID_separates_witness :
  ("ticket"%string = "ticket"%string ∧ "p"%string = "p"%string ∧ "{}"%string = "{}"%string) ∨
  ∃ x y, x ≠ y ∧ (λ s : string, s) x = (λ s : string, s) y.
Proof.
  apply (ContentID_separates (λ s, s) "ticket" "p" "{}" "ticket" "p" "{}"); [|reflexivity].
  repeat constructor.
Defined.
