(* ===== verification/Parse.v ===== *)
(** * The JSON parser

    [parse.go] of [src/internal/tasks/wire].  The parser's [data] and [pos]
    are kept as the bytes not yet read, [data[pos:]], and the offset [pos].
    The recursive descent carries fuel; [ParseWith] and [ParseInput] start it
    with enough for any document, so they never run out of it (see
    [ParseTotal]). *)

From S2P Require Import Prelude Utf8 GoStd Codes Value Primitives.
Local Open Scope Z_scope.
Local Open Scope go_scope.

(** [itoa] of [reader.go]: the decimal digits, from the last. *)
Fixpoint itoa_loop (fuel : nat) (i : Z) (b : string) : string :=
  match fuel with
  | O => b
  | S k => if 0 <? i then itoa_loop k (i / 10) (String (byte_of (code "0" + i mod 10)) b) else b
  end.

(** A Go [int] has at most 20 digits, the size of the code's buffer. *)
Definition itoa (i : Z) : string := if i =? 0 then "0" else itoa_loop 20 i ε.

Record ParseOptions := {
  WideArrayKey : string;
  WideArrayMax : Z;
  MaxNodes : Z
}.

Definition noOptions : ParseOptions := {| WideArrayKey := ε; WideArrayMax := 0; MaxNodes := 0 |}.

Record parser := mkParser {
  rest : string;     (* data[pos:] *)
  pos : Z;
  depth : Z;
  nodes : Z;
  wide : bool
}.

Definition isJSONSpace (c : ascii) : bool :=
  (c =b " ") || (c =b tab) || (c =b newline) || (c =b creturn).

Definition byte_where (n : Z) : string := "byte " +:+ strconv.FormatInt n.

Definition p_where (p : parser) : string := byte_where p.(pos).

Definition fail (p : parser) (format : string) (args : list fmtarg) : Error :=
  Errorf CodeMalformed (p_where p) format args.

(** The parser after reading [n] bytes, with [r] left. *)
Definition advance (n : Z) (r : string) (p : parser) : parser :=
  mkParser r (p.(pos) + n) p.(depth) p.(nodes) p.(wide).

Definition set_wide (w : bool) (p : parser) : parser :=
  mkParser p.(rest) p.(pos) p.(depth) p.(nodes) w.

Definition leave (p : parser) : parser :=
  mkParser p.(rest) p.(pos) (p.(depth) - 1) p.(nodes) p.(wide).

Definition expected (p : parser) (what : string) (args : list fmtarg) : Error :=
  match p.(rest) with
  | String c _ =>
      if isJSONSpace c
      then fail p "insignificant whitespace is not canonical (expected %s)" (AStr what :: args)
      else fail p "expected %s" (AStr what :: args)
  | ε => fail p "expected %s" (AStr what :: args)
  end.

Definition enter (p : parser) : res parser :=
  let p := mkParser p.(rest) p.(pos) (p.(depth) + 1) p.(nodes) p.(wide) in
  if MaxJSONDepth <? p.(depth) then
    Err (Errorf CodeLimitExceeded (p_where p) "nesting deeper than %d" [AInt MaxJSONDepth])
  else Ok p.

Definition literal (lit : string) (v : Value) (p : parser) : res (Value * parser) :=
  match strip_prefix lit p.(rest) with
  | Some r => Ok (v, advance (slen lit) r p)
  | None => Err (fail p "invalid literal" [])
  end.

Definition hexVal (b : ascii) : option Z :=
  if between "0" "9" b then Some (code b - code "0")
  else if between "a" "f" b then Some (code b - code "a" + 10)
  else if between "A" "F" b then Some (code b - code "A" + 10)
  else None.

(** [r = r<<4 | rune(h)] over four bytes. *)
Definition hex4 (p : parser) : option (Z * parser) :=
  match p.(rest) with
  | String a (String b (String c (String d r))) =>
      ha ← hexVal a; hb ← hexVal b; hc ← hexVal c; hd ← hexVal d;
      Some (Z.lor (Z.shiftl (Z.lor (Z.shiftl (Z.lor (Z.shiftl ha 4) hb) 4) hc) 4) hd, advance 4 r p)
  | _ => None
  end.

(** The rune of a [\u] escape whose first four digits gave [r]: a high
    surrogate takes the low surrogate escape that must follow. *)
Definition surrogate (r : Z) (p : parser) : res (Z * parser) :=
  if (0xD800 <=? r) && (r <=? 0xDBFF) then
    match p.(rest) with
    | String c (String d ((String _ (String _ (String _ (String _ _)))) as q)) =>
        if (c =b backslash) && (d =b "u") then
          let p := advance 2 q p in
          match hex4 p with
          | Some (lo, p) =>
              if (lo <? 0xDC00) || (0xDFFF <? lo) then
                Err (fail p "invalid Unicode: lone high surrogate" [])
              else Ok (0x10000 + Z.shiftl (r - 0xD800) 10 + (lo - 0xDC00), p)
          | None => Err (fail p "invalid Unicode: lone high surrogate" [])
          end
        else Err (fail p "invalid Unicode: lone high surrogate" [])
    | _ => Err (fail p "invalid Unicode: lone high surrogate" [])
    end
  else if (0xDC00 <=? r) && (r <=? 0xDFFF) then
    Err (fail p "invalid Unicode: lone low surrogate" [])
  else Ok (r, p).

(** One escape: what the byte [e] after the backslash stands for, [p] being
    just after [e]. *)
Definition unescape (e : ascii) (p : parser) : res (string * parser) :=
  if e =b dquote then Ok (str1 dquote, p)
  else if e =b backslash then Ok (str1 backslash, p)
  else if e =b "/" then Ok (str1 "/", p)
  else if e =b "b" then Ok (str1 "008", p)
  else if e =b "f" then Ok (str1 "012", p)
  else if e =b "n" then Ok (str1 newline, p)
  else if e =b "r" then Ok (str1 creturn, p)
  else if e =b "t" then Ok (str1 tab, p)
  else if e =b "u" then
    match hex4 p with
    | Some (r, p) => let* (r, p) := surrogate r p in Ok (utf8.EncodeRune r, p)
    | None => Err (fail p "invalid \u escape" [])
    end
  else Err (fail p "invalid escape \%c" [AStr (str1 e)]).

(** The general loop of [str], from the first byte that needs it. *)
Fixpoint str_loop (fuel : nat) (start : Z) (out : string) (p : parser) : res (string * parser) :=
  match fuel with
  | O => OutOfFuel
  | S k =>
      match p.(rest) with
      | ε => Err (Errorf CodeMalformed (byte_where start) "unterminated string" [])
      | String c r =>
          if c =b dquote then
            let p := advance 1 r p in
            if negb (plainASCII out true) then
              try checkHostile out (byte_where start) true; Ok (out, p)
            else Ok (out, p)
          else if c =b backslash then
            let p := advance 1 r p in
            match p.(rest) with
            | ε => Err (fail p "unterminated escape" [])
            | String e r =>
                let* (s, p) := unescape e (advance 1 r p) in str_loop k start (out +:+ s) p
            end
          else if code c <? 0x20 then Err (fail p "raw control byte 0x%02x inside string" [AInt (code c)])
          else str_loop k start (out +:+ str1 c) (advance 1 r p)
      end
  end.

(** [str], at the opening quote.  A string with no escape is taken as one
    run; only a run with a byte above ASCII needs the hostile check. *)
Definition str (p : parser) : res (string * parser) :=
  let start := p.(pos) in
  match p.(rest) with
  | ε => OutOfFuel (* never called here *)
  | String _ q =>
      let '(run, r) := str_span (λ c, negb (escapedByte c)) q in
      let general := str_loop (S (String.length r)) start run (advance (1 + slen run) r p) in
      match r with
      | String c r' =>
          if c =b dquote then
            let p := advance (slen run + 2) r' p in
            if str_exists (λ c, 0x80 <=? code c) run then
              try checkHostile run (byte_where start) true; Ok (run, p)
            else Ok (run, p)
          else general
      | ε => general
      end
  end.

Section parser.
Context (opts : ParseOptions) (lenient : bool).

Definition ws (p : parser) : parser :=
  if lenient then
    let '(sp, r) := str_span isJSONSpace p.(rest) in advance (slen sp) r p
  else p.

Definition node (p : parser) : res parser :=
  let p := mkParser p.(rest) p.(pos) p.(depth) (p.(nodes) + 1) p.(wide) in
  if opts.(MaxNodes) <? p.(nodes) then
    Err (Errorf CodeLimitExceeded (p_where p) "more than %d decoded nodes" [AInt opts.(MaxNodes)])
  else Ok p.

(** [value], [object] and [array], each in terms of the functions it calls. *)
Definition value_body (members : Object → parser → res (Value * parser))
    (elements : Z → list Value → parser → res (Value * parser)) (p : parser) : res (Value * parser) :=
  let p := ws p in
  let* p := node p in
  match p.(rest) with
  | ε => Err (fail p "unexpected end of document" [])
  | String c r =>
      if c =b "{" then
        let* p := enter p in
        let p := ws (advance 1 r p) in
        match p.(rest) with
        | String d r' =>
            if d =b "}" then Ok (VObject NewObject, leave (advance 1 r' p))
            else members NewObject p
        | ε => members NewObject p
        end
      else if c =b "[" then
        let* p := enter p in
        let p := advance 1 r p in
        let bound := if p.(wide) && (p.(depth) =? 2) then opts.(WideArrayMax) else MaxJSONArrayElements in
        let p := ws (set_wide false p) in
        match p.(rest) with
        | String d r' =>
            if d =b "]" then Ok (VArray [], leave (advance 1 r' p))
            else elements bound [] p
        | ε => elements bound [] p
        end
      else if c =b dquote then let* (s, p) := str p in Ok (VString s, p)
      else if c =b "t" then literal "true" (VBool true) p
      else if c =b "f" then literal "false" (VBool false) p
      else if c =b "n" then literal "null" VNull p
      else if (c =b "-") || between "0" "9" c then
        Err (fail p "JSON numbers are not used by any taskman profile; Count and Size are decimal strings" [])
      else if isJSONSpace c then Err (fail p "insignificant whitespace is not canonical" [])
      else Err (fail p "unexpected byte 0x%02x" [AInt (code c)])
  end.

(** One turn of the loop of [object], at a key. *)
Definition members_body (value : parser → res (Value * parser))
    (members : Object → parser → res (Value * parser)) (obj : Object) (p : parser) : res (Value * parser) :=
  let p := ws p in
  if negb (first_is dquote p.(rest)) then Err (expected p "object key" [])
  else
    let* (key, p) := str p in
    if bool_decide (is_Some (Get obj key)) then Err (fail p "duplicate key %q" [AStr key])
    else
      let p := ws p in
      match p.(rest) with
      | ε => Err (expected p "':' after key %q" [AStr key])
      | String c r =>
          if negb (c =b ":") then Err (expected p "':' after key %q" [AStr key]) else
          let p := advance 1 r p in
          let w := (p.(depth) =? 1) && negb (opts.(WideArrayKey) =s ε) && (key =s opts.(WideArrayKey)) in
          let* (v, p) := value (set_wide w p) in
          let p := set_wide false p in
          let obj := Set_ obj key v in
          let p := ws p in
          match p.(rest) with
          | ε => Err (fail p "unterminated object" [])
          | String c r =>
              if c =b "," then members obj (advance 1 r p)
              else if c =b "}" then Ok (VObject obj, leave (advance 1 r p))
              else Err (expected p "',' or '}'" [])
          end
      end.

(** One turn of the loop of [array], at an element; [arr] holds those read. *)
Definition elements_body (value : parser → res (Value * parser))
    (elements : Z → list Value → parser → res (Value * parser))
    (bound : Z) (arr : list Value) (p : parser) : res (Value * parser) :=
  let* (v, p) := value p in
  let arr := arr ++ [v] in
  if bound <? Z.of_nat (length arr) then
    Err (Errorf CodeLimitExceeded (p_where p) "array longer than %d elements" [AInt bound])
  else
    let p := ws p in
    match p.(rest) with
    | ε => Err (fail p "unterminated array" [])
    | String c r =>
        if c =b "," then elements bound arr (advance 1 r p)
        else if c =b "]" then Ok (VArray arr, leave (advance 1 r p))
        else Err (expected p "',' or ']'" [])
    end.

Fixpoint value (fuel : nat) (p : parser) {struct fuel} : res (Value * parser) :=
  match fuel with
  | O => OutOfFuel
  | S k => value_body (members k) (elements k) p
  end
with members (fuel : nat) (obj : Object) (p : parser) {struct fuel} : res (Value * parser) :=
  match fuel with
  | O => OutOfFuel
  | S k => members_body (value k) (members k) obj p
  end
with elements (fuel : nat) (bound : Z) (arr : list Value) (p : parser) {struct fuel} : res (Value * parser) :=
  match fuel with
  | O => OutOfFuel
  | S k => elements_body (value k) (elements k) bound arr p
  end.
End parser.

(** Each call consumes a byte, except that an array's loop calls [value]
    where it stands: twice the length, and one, is enough. *)
Definition parse_fuel (s : string) : nat := 2 * String.length s + 2.

(** The keys of an object, out of byte order somewhere. *)
Fixpoint adjacent_unsorted (ks : list string) : bool :=
  match ks with
  | a :: ((b :: _) as ks') => (b <s a) || adjacent_unsorted ks'
  | _ => false
  end.

(** The pointer of the first object, in document order, with unsorted keys. *)
Fixpoint unsortedKeys (v : Value) (path : string) {struct v} : option string :=
  match v with
  | VObject o =>
      if adjacent_unsorted (Keys o) then Some (if path =s ε then "/" else path)
      else (fix go (o : Object) : option string :=
        match o with
        | [] => None
        | (k, w) :: o' =>
            match unsortedKeys w (path +:+ "/" +:+ k) with Some p => Some p | None => go o' end
        end) o
  | VArray vs =>
      (fix go (i : Z) (vs : list Value) : option string :=
        match vs with
        | [] => None
        | e :: vs' =>
            match unsortedKeys e (path +:+ "/" +:+ itoa i) with Some p => Some p | None => go (i + 1) vs' end
        end) 0 vs
  | _ => None
  end.

(** The length of the longest common prefix. *)
Fixpoint common_prefix (a b : string) : Z :=
  match a, b with
  | String x a', String y b' => if x =b y then 1 + common_prefix a' b' else 0
  | _, _ => 0
  end.

Definition BOM : string := String "239" (String "187" (str1 "191")).

(** The checks both entry points make on the raw document. *)
Definition check_document (data : string) : option Error :=
  if data =s ε then Some (Errorf CodeMalformed "byte 0" "empty document" [])
  else if negb (utf8.Valid data) then Some (Errorf CodeMalformed ε "invalid UTF-8" [])
  else if strings.HasPrefix data BOM then
    Some (Errorf CodeMalformed "byte 0" "byte order mark is a hostile code point" [])
  else None.

Definition start (data : string) : parser := mkParser data 0 0 0 false.

Definition default_options (opts : ParseOptions) : ParseOptions :=
  let opts := if opts.(WideArrayMax) <=? 0
    then {| WideArrayKey := ε; WideArrayMax := MaxJSONArrayElements; MaxNodes := opts.(MaxNodes) |}
    else opts in
  if opts.(MaxNodes) <=? 0
  then {| WideArrayKey := opts.(WideArrayKey); WideArrayMax := opts.(WideArrayMax); MaxNodes := MaxJSONNodes |}
  else opts.

Definition ParseWith (data : string) (opts : ParseOptions) : res Value :=
  let opts := default_options opts in
  try check_document data;
  if negb (strings.HasSuffixByte data newline) then
    Err (Errorf CodeMalformed (byte_where (slen data)) "missing the single trailing LF" [])
  else
    let body := strings.init data in
    let* (v, p) := value opts false (parse_fuel body) (start body) in
    if negb (p.(rest) =s ε) then Err (fail p "trailing bytes after the document" [])
    else
      let enc := appendValue ε v in
      if negb (enc =s body) then
        let off := common_prefix enc body in
        match unsortedKeys v ε with
        | Some path =>
            Err (Errorf CodeMalformed (byte_where off) "non-canonical key order: the keys of the object at %q must be sorted in UTF-8 byte order" [AStr path])
        | None =>
            Err (Errorf CodeMalformed (byte_where off) "non-canonical string escape form" [])
        end
      else Ok v.

Definition Parse (data : string) : res Value := ParseWith data noOptions.

Definition ParseInput (data : string) : res Value :=
  try check_document data;
  let opts := {| WideArrayKey := ε; WideArrayMax := MaxJSONArrayElements; MaxNodes := MaxJSONNodes |} in
  let* (v, p) := value opts true (parse_fuel data) (start data) in
  let p := ws true p in
  if negb (p.(rest) =s ε) then Err (fail p "trailing bytes after the document" [])
  else Ok v.
