(* ===== verification/ParseTotal.v ===== *)
(** * The parser always returns

    Every successful step of the parser consumes input, and the fuel
    [ParseWith] and [ParseInput] start with is never exhausted: the model's
    [OutOfFuel] is unreachable. *)

From S2P Require Import Prelude Utf8 GoStd Codes Value Primitives Parse.
Local Open Scope Z_scope.
Local Open Scope go_scope.

(** The number of bytes not yet read. *)
Abbreviation left p := (String.length p.(rest)).

(** Take a successful run of the parser apart: binds, tests and matches. *)
Ltac parse_inv :=
  repeat match goal with
  | H : obind _ _ = Ok _ |- _ => apply obind_Ok in H as (? & ? & H)
  | H : (let '(_, _) := ?x in _) = _ |- _ => destruct x eqn:?
  | H : match ?x with _ => _ end = _ |- _ => destruct x eqn:?; try discriminate H
  | H : Ok _ = Ok _ |- _ => injection H; clear H; intros; subst
  | H : Some _ = Some _ |- _ => injection H; clear H; intros; subst
  | H : (_, _) = (_, _) |- _ => injection H; clear H; intros; subst
  end.

(** The recursion, one level unfolded. *)
Lemma value_S opts l k p :
  value opts l (S k) p = value_body opts l (members opts l k) (elements opts l k) p.
Proof. reflexivity. Qed.

Lemma members_S opts l k o p :
  members opts l (S k) o p = members_body opts l (value opts l k) (members opts l k) o p.
Proof. reflexivity. Qed.

Lemma elements_S opts l k b a p :
  elements opts l (S k) b a p = elements_body l (value opts l k) (elements opts l k) b a p.
Proof. reflexivity. Qed.

Lemma hex4_left p r p' : hex4 p = Some (r, p') → left p = (4 + left p')%nat.
Proof.
  unfold hex4. destruct (rest p) as [|a [|b [|c [|d s]]]]; try done.
  destruct (hexVal a), (hexVal b), (hexVal c), (hexVal d); simpl; try done.
  by intros [= <- <-].
Qed.

Lemma surrogate_left r p x p' : surrogate r p = Ok (x, p') → (left p' ≤ left p)%nat.
Proof.
  unfold surrogate. intros H. parse_inv; try done.
  match goal with H : hex4 _ = Some _ |- _ => apply hex4_left in H end.
  repeat match goal with H : rest _ = _ |- _ => rewrite H end. simpl in *. lia.
Qed.

Lemma surrogate_no_fuel r p : surrogate r p ≠ OutOfFuel.
Proof. unfold surrogate. by repeat case_match. Qed.

Lemma unescape_left e p s p' : unescape e p = Ok (s, p') → (left p' ≤ left p)%nat.
Proof.
  unfold unescape. intros H. parse_inv; try done.
  match goal with H : hex4 _ = Some _ |- _ => apply hex4_left in H end.
  match goal with H : surrogate _ _ = Ok _ |- _ => apply surrogate_left in H end. lia.
Qed.

Lemma unescape_no_fuel e p : unescape e p ≠ OutOfFuel.
Proof.
  unfold unescape. repeat case_match; try done.
  intros [Hs|(? & ? & ?)]%obind_OutOfFuel; [by apply surrogate_no_fuel in Hs|by case_match].
Qed.

Lemma str_loop_left k start out p s p' :
  str_loop k start out p = Ok (s, p') → (left p' < left p)%nat.
Proof.
  revert out p; induction k as [|k IH]; intros out p H; [done|]. simpl in H.
  destruct (rest p) as [|c r] eqn:Hr; [done|].
  destruct (c =b dquote); [parse_inv; simpl; lia|].
  destruct (c =b backslash).
  - destruct r as [|e r]; [done|]. simpl in H. parse_inv. apply IH in H.
    match goal with H : unescape _ _ = _ |- _ => apply unescape_left in H end.
    simpl in *. lia.
  - destruct (code c <? 0x20); [done|]. apply IH in H. simpl in *. lia.
Qed.

Lemma str_loop_no_fuel k start out p : (left p < k)%nat → str_loop k start out p ≠ OutOfFuel.
Proof.
  revert out p; induction k as [|k IH]; intros out p Hk; [lia|]. simpl.
  destruct (rest p) as [|c r] eqn:Hr; [done|]. simpl in Hk.
  destruct (c =b dquote); [by repeat case_match|].
  destruct (c =b backslash).
  - destruct r as [|e r]; [done|]. simpl.
    intros [H|([s p'] & H & H')]%obind_OutOfFuel; [by apply unescape_no_fuel in H|].
    apply unescape_left in H. simpl in *. revert H'. apply IH. lia.
  - destruct (code c <? 0x20); [done|]. apply IH. simpl. lia.
Qed.

Lemma str_left p s p' : str p = Ok (s, p') → (left p' < left p)%nat.
Proof.
  unfold str. destruct (rest p) as [|c q]; [done|].
  pose proof (str_span_app (λ c, negb (escapedByte c)) q) as Hq.
  destruct (str_span _ q) as [run r]. simpl in Hq. subst q.
  cbv zeta. cbn [String.length]. rewrite length_app_str. destruct r as [|d r'].
  { intros H%str_loop_left. simpl in *. lia. }
  destruct (d =b dquote).
  - intros H. parse_inv; simpl; lia.
  - intros H%str_loop_left. simpl in *. lia.
Qed.

Lemma str_no_fuel p : rest p ≠ ε → str p ≠ OutOfFuel.
Proof.
  unfold str. destruct (rest p) as [|c q]; [done|]. intros _.
  destruct (str_span _ q) as [run [|d r']]; [apply str_loop_no_fuel; simpl; lia|].
  destruct (d =b dquote); [by repeat case_match|]. apply str_loop_no_fuel. simpl. lia.
Qed.

Lemma literal_left lit v p w p' :
  lit ≠ ε → literal lit v p = Ok (w, p') → (left p' < left p)%nat.
Proof.
  unfold literal. intros Hl H. destruct (strip_prefix lit (rest p)) as [r|] eqn:E; [|done].
  apply strip_prefix_Some in E. rewrite E, length_app_str. parse_inv. simpl.
  destruct lit; [done|]. simpl. lia.
Qed.

Section total.
Context (opts : ParseOptions) (lenient : bool).

Lemma ws_left p : (left (ws lenient p) ≤ left p)%nat.
Proof.
  unfold ws. destruct lenient; [|done].
  pose proof (str_span_app isJSONSpace (rest p)) as H.
  destruct (str_span isJSONSpace (rest p)) as [sp r]. simpl in *.
  rewrite <-H, length_app_str. lia.
Qed.

Lemma node_rest p p' : node opts p = Ok p' → rest p' = rest p.
Proof. unfold node. intros H. by parse_inv. Qed.

Lemma enter_rest p p' : enter p = Ok p' → rest p' = rest p.
Proof. unfold enter. intros H. by parse_inv. Qed.

Lemma node_no_fuel p : node opts p ≠ OutOfFuel.
Proof. unfold node. by case_match. Qed.

Lemma enter_no_fuel p : enter p ≠ OutOfFuel.
Proof. unfold enter. by case_match. Qed.

(** A fact of arithmetic on lengths from the steps taken apart. *)
Ltac lengths :=
  repeat match goal with
  | H : node _ _ = Ok _ |- _ => apply node_rest in H
  | H : enter _ = Ok _ |- _ => apply enter_rest in H
  | H : str _ = Ok _ |- _ => apply str_left in H
  | H : literal _ _ _ = Ok _ |- _ => apply literal_left in H; [|done]
  end;
  repeat match goal with
  | H : context [ws lenient ?p] |- _ =>
      lazymatch goal with
      | _ : (left (ws lenient p) ≤ _)%nat |- _ => fail
      | _ => pose proof (ws_left p) end
  | |- context [ws lenient ?p] =>
      lazymatch goal with
      | _ : (left (ws lenient p) ≤ _)%nat |- _ => fail
      | _ => pose proof (ws_left p) end
  end;
  repeat match goal with
  | H : rest ?p = ?s |- _ => apply (f_equal String.length) in H
  end;
  cbn [rest advance leave set_wide String.length] in *; lia.

(** A value, an object's members and an array's elements all consume input. *)
Lemma parse_left k :
  (∀ p v p', value opts lenient k p = Ok (v, p') → (left p' < left p)%nat) ∧
  (∀ o p v p', members opts lenient k o p = Ok (v, p') → (left p' < left p)%nat) ∧
  (∀ b a p v p', elements opts lenient k b a p = Ok (v, p') → (left p' < left p)%nat).
Proof.
  induction k as [|k (IHv & IHm & IHe)]; [done|]. split; [|split].
  - intros p v p' H. rewrite value_S in H. unfold value_body in H. parse_inv;
      try match goal with
      | H : members _ _ _ _ _ = _ |- _ => apply IHm in H
      | H : elements _ _ _ _ _ _ = _ |- _ => apply IHe in H
      end; lengths.
  - intros o p v p' H. rewrite members_S in H. unfold members_body in H. parse_inv;
      repeat match goal with
      | H : members _ _ _ _ _ = _ |- _ => apply IHm in H
      | H : value _ _ _ _ = _ |- _ => apply IHv in H
      end; lengths.
  - intros b a p v p' H. rewrite elements_S in H. unfold elements_body in H. parse_inv;
      repeat match goal with
      | H : elements _ _ _ _ _ _ = _ |- _ => apply IHe in H
      | H : value _ _ _ _ = _ |- _ => apply IHv in H
      end; lengths.
Qed.
(** Take a run that exhausts the fuel apart. *)
Ltac fuel_inv :=
  repeat match goal with
  | H : obind _ _ = OutOfFuel |- _ => apply obind_OutOfFuel in H as [H|(? & ? & H)]
  | H : (let '(_, _) := ?x in _) = OutOfFuel |- _ => destruct x eqn:?
  | H : match ?x with _ => _ end = OutOfFuel |- _ => destruct x eqn:?; try discriminate H
  | H : node _ _ = OutOfFuel |- _ => by apply node_no_fuel in H
  | H : enter _ = OutOfFuel |- _ => by apply enter_no_fuel in H
  | H : Ok _ = OutOfFuel |- _ => discriminate H
  | H : literal _ _ _ = OutOfFuel |- _ => unfold literal in H
  | H : str ?p = OutOfFuel, H' : rest ?p = String _ _ |- _ =>
      apply str_no_fuel in H; [done|by rewrite H']
  end.

(** Twice the bytes left, and one, is fuel enough; two for an array's loop. *)
Lemma parse_no_fuel k :
  (∀ p, (2 * left p < k)%nat → value opts lenient k p ≠ OutOfFuel) ∧
  (∀ o p, (2 * left p < k)%nat → members opts lenient k o p ≠ OutOfFuel) ∧
  (∀ b a p, (2 * left p + 1 < k)%nat → elements opts lenient k b a p ≠ OutOfFuel).
Proof.
  induction k as [|k (IHv & IHm & IHe)]; [split; [|split]; lia|]. split; [|split].
  - intros p Hk H. rewrite value_S in H. unfold value_body in H. fuel_inv; revert H;
      (apply IHm || apply IHe); lengths.
  - intros o p Hk H. rewrite members_S in H. unfold members_body in H.
    fuel_inv.
    all: try (apply str_no_fuel in H; [done|];
      intros Hr; rewrite Hr in *; done).
    all: try match goal with H : value _ _ _ _ = Ok _ |- _ => apply parse_left in H end.
    all: revert H; (apply IHm || apply IHv); lengths.
  - intros b a p Hk H. rewrite elements_S in H. unfold elements_body in H. fuel_inv.
    all: try match goal with H : value _ _ _ _ = Ok _ |- _ => apply parse_left in H end.
    all: revert H; (apply IHe || apply IHv); lengths.
Qed.

Lemma value_parse_fuel p :
  value opts lenient (parse_fuel (rest p)) p ≠ OutOfFuel.
Proof. apply parse_no_fuel. unfold parse_fuel. lia. Qed.
End total.

Lemma ParseWith_no_fuel data opts : ParseWith data opts ≠ OutOfFuel.
Proof.
  unfold ParseWith. repeat (case_match; try done).
  intros [Hf|([v p] & _ & Hf)]%obind_OutOfFuel.
  - revert Hf. apply (value_parse_fuel _ _ (start (strings.init data))).
  - by repeat case_match.
Qed.

Lemma ParseInput_no_fuel data : ParseInput data ≠ OutOfFuel.
Proof.
  unfold ParseInput. case_match; [done|].
  intros [Hf|([v p] & _ & Hf)]%obind_OutOfFuel.
  - revert Hf. apply (value_parse_fuel _ _ (start data)).
  - by repeat case_match.
Qed.

(** ** How the parser fails

    Every failure of the JSON parser is a MALFORMED or a LIMIT_EXCEEDED. *)

From S2P Require Import PrimitivesSpec.

Definition parse_code (e : Error) : Prop := Code e = CodeMalformed ∨ Code e = CodeLimitExceeded.

(** Take a failing run apart, down to the failure. *)
Ltac err_inv :=
  repeat match goal with
  | H : obind _ _ = Err _ |- _ => apply obind_Err in H as [H|(? & ? & H)]
  | H : (let '(_, _) := ?x in _) = Err _ |- _ => destruct x eqn:?
  | H : match ?x with _ => _ end = Err _ |- _ => destruct x eqn:?; try discriminate H
  | H : Err _ = Err _ |- _ => injection H; clear H; intros; subst
  | H : Ok _ = Err _ |- _ => discriminate H
  | H : checkHostile _ _ _ = Some _ |- _ => apply checkHostile_code in H; by left
  end;
  try (left; reflexivity); try (right; reflexivity).

Lemma expected_code p what args : parse_code (expected p what args).
Proof. unfold expected. repeat case_match; by left. Qed.

Lemma surrogate_code r p e : surrogate r p = Err e → parse_code e.
Proof. unfold surrogate. intros H. err_inv. Qed.

Lemma unescape_code c p e : unescape c p = Err e → parse_code e.
Proof. unfold unescape. intros H. err_inv. by eapply surrogate_code. Qed.

Lemma str_loop_code k start e : ∀ out p, str_loop k start out p = Err e → parse_code e.
Proof.
  induction k as [|k IH]; intros out p H; [done|]. cbn [str_loop] in H. err_inv; eauto.
  by eapply unescape_code.
Qed.

Lemma str_code p e : str p = Err e → parse_code e.
Proof.
  unfold str. destruct (rest p) as [|c q]; [done|]. destruct (str_span _ q) as [run r].
  cbv beta iota zeta. intros H. err_inv; by eapply str_loop_code.
Qed.

Section code.
Context (opts : ParseOptions) (lenient : bool).

Lemma node_code p e : node opts p = Err e → parse_code e.
Proof. unfold node. intros H. err_inv. Qed.

Lemma enter_code p e : enter p = Err e → parse_code e.
Proof. unfold enter. intros H. err_inv. Qed.

Lemma literal_code lit v p e : literal lit v p = Err e → parse_code e.
Proof. unfold literal. intros H. err_inv. Qed.

Lemma parse_codes k :
  (∀ p e, value opts lenient k p = Err e → parse_code e) ∧
  (∀ o p e, members opts lenient k o p = Err e → parse_code e) ∧
  (∀ b a p e, elements opts lenient k b a p = Err e → parse_code e).
Proof.
  induction k as [|k (IHv & IHm & IHe)]; [done|]. split; [|split].
  - intros p e H. rewrite value_S in H. unfold value_body in H. err_inv;
      eauto using node_code, enter_code, str_code, literal_code.
  - intros o p e H. rewrite members_S in H. unfold members_body in H. err_inv;
      eauto using str_code, expected_code.
  - intros b a p e H. rewrite elements_S in H. unfold elements_body in H. err_inv;
      eauto using expected_code.
Qed.

Lemma value_code k p e : value opts lenient k p = Err e → parse_code e.
Proof. destruct (parse_codes k) as (H & _). apply H. Qed.
End code.

Lemma check_document_code data e : check_document data = Some e → parse_code e.
Proof. unfold check_document. intros H. repeat case_match; try done; injection H as <-; by left. Qed.

Lemma ParseWith_code data opts e : ParseWith data opts = Err e → parse_code e.
Proof.
  unfold ParseWith. intros H. destruct (check_document data) eqn:E.
  { injection H as <-. by eapply check_document_code. }
  err_inv. by eapply value_code.
Qed.

Lemma ParseInput_code data e : ParseInput data = Err e → parse_code e.
Proof.
  unfold ParseInput. intros H. destruct (check_document data) eqn:E.
  { injection H as <-. by eapply check_document_code. }
  err_inv. by eapply value_code.
Qed.
