(* ===== verification/ParsePrint.v ===== *)
(** * The parser reads back what the encoder writes

    [fits] says that a value is within the parser's bounds and holds no
    hostile text; the strict parser reads the printed form of such a value
    back as the same value. *)

From S2P Require Import Prelude Utf8 GoStd Codes Value Canonical Primitives.
From S2P Require Import PrimitivesSpec Parse ParseTotal.
Local Open Scope Z_scope.
Local Open Scope go_scope.

(** ** Strings *)

(** Reading the escape of a byte gives the byte. *)
Lemma unescape_escape c r pos d n w :
  escapedByte c = true →
  ∃ e tl, escape c = String backslash (String e tl) ∧
    unescape e (mkParser (tl +:+ r) pos d n w) = Ok (str1 c, mkParser r (pos + slen tl) d n w).
Proof.
  destruct c as [[] [] [] [] [] [] [] []]; intros H; try discriminate H; clear H;
    eexists _, _; (split; [reflexivity|]);
    first [reflexivity | unfold slen; simpl; by rewrite Z.add_0_r].
Qed.

Ltac slen_lia := unfold slen, str1 in *; len_lia.

Lemma slen_cons c s : slen (String c s) = 1 + slen s.
Proof. unfold slen. cbn [String.length]. lia. Qed.

Lemma slen_str1 c : slen (str1 c) = 1.
Proof. done. Qed.

Lemma slen_nonneg s : 0 ≤ slen s.
Proof. unfold slen. lia. Qed.

Lemma plain_byte c :
  escapedByte c = false → (c =b dquote) = false ∧ (c =b backslash) = false ∧ (code c <? 0x20) = false.
Proof. unfold escapedByte. rewrite !orb_false_iff. tauto. Qed.

(** The general loop over the escaped form of [s]. *)
Lemma str_loop_escaped s : ∀ k start out r pos d n w,
  (String.length (escaped s) < k)%nat → clean true (out +:+ s) →
  str_loop k start out (mkParser (escaped s +:+ String dquote r) pos d n w) =
    Ok (out +:+ s, mkParser r (pos + slen (escaped s) + 1) d n w).
Proof.
  induction s as [|c s IH]; intros k start out r pos d n w Hk Hc; (destruct k as [|k]; [lia|]).
  - rewrite app_str_nil in *. cbn [str_loop escaped rest]. rewrite app_nil_str.
    rewrite Ascii.eqb_refl, (clean_check _ _ _ Hc).
    unfold advance. simpl. rewrite Z.add_0_r. by destruct (negb _).
  - cbn [escaped] in *. destruct (escapedByte c) eqn:Hesc.
    + destruct (unescape_escape c (escaped s +:+ String dquote r) (pos + 2) d n w Hesc)
        as (e & tl & He & Hu).
      rewrite He in *. rewrite !app_cons_str in *. rewrite app_str_assoc.
      cbn [str_loop rest advance]. simpl (_ =b dquote). rewrite Ascii.eqb_refl. cbv iota.
      unfold advance; cbn [rest Parse.pos depth nodes wide].
      replace (pos + 1 + 1) with (pos + 2) by lia. rewrite Hu. cbn [obind].
      rewrite IH; [|len_lia|by rewrite app_str_assoc].
      rewrite app_str_assoc, str1_app. do 3 f_equal.
      rewrite !slen_cons, slen_app. lia.
    + apply plain_byte in Hesc as (H1 & H2 & H3). rewrite str1_app in *. rewrite app_cons_str.
      cbn [str_loop rest]. rewrite H1, H2, H3. unfold advance; cbn [rest Parse.pos depth nodes wide].
      rewrite IH; [|len_lia|by rewrite app_str_assoc].
      rewrite app_str_assoc, str1_app. do 3 f_equal. rewrite slen_cons. lia.
Qed.

(** The first escaped byte of a string, if it has one. *)
Lemma first_escape s :
  str_forall (λ c, negb (escapedByte c)) s = true ∨
  ∃ a c b, s = a +:+ String c b ∧ str_forall (λ c, negb (escapedByte c)) a = true ∧ escapedByte c = true.
Proof.
  induction s as [|c s [IH|(a & e & b & -> & Ha & He)]]; [by left| |]; simpl;
    destruct (escapedByte c) eqn:E; simpl.
  - right. by exists ε, c, s.
  - by left.
  - right. by exists ε, c, (a +:+ String e b).
  - right. exists (String c a), e, b. rewrite app_cons_str. simpl. by rewrite E.
Qed.

Lemma escape_backslash c : escapedByte c = true → ∃ t, escape c = String backslash t.
Proof. intros H. destruct (unescape_escape c ε 0 0 0 false H) as (e & tl & -> & _). eauto. Qed.

(** [str] reads a quoted string back. *)
Lemma str_quote s r pos d n w :
  clean true s →
  str (mkParser (quote s +:+ r) pos d n w) = Ok (s, mkParser r (pos + slen (quote s)) d n w).
Proof.
  intros Hc. unfold quote. rewrite !app_str_assoc, !str1_app. unfold str.
  cbn [rest Parse.pos].
  destruct (first_escape s) as [Hp|(a & c & b & -> & Ha & He)].
  - rewrite escaped_plain by done. rewrite str_span_run; [|done|by intros ? ? [= <- _]].
    cbv beta iota zeta. rewrite Ascii.eqb_refl, (clean_check _ _ _ Hc). unfold advance. cbn [Parse.pos depth nodes wide].
    rewrite slen_cons, slen_app, slen_str1. replace (slen s + 2) with (1 + (slen s + 1)) by lia.
    by case_match.
  - rewrite escaped_app, (escaped_plain a Ha). cbn [escaped]. rewrite He.
    destruct (escape_backslash c He) as [t Ht].
    assert (str_span (λ c, negb (escapedByte c))
      ((a +:+ escape c +:+ escaped b) +:+ String dquote r) = (a, (escape c +:+ escaped b) +:+ String dquote r)) as ->.
    { rewrite app_str_assoc. apply str_span_run; [done|]. rewrite Ht, !app_cons_str. by intros ? ? [= <- _]. }
    rewrite Ht, !app_cons_str. cbv beta iota zeta. simpl (_ =b dquote). cbv iota.
    rewrite <-!app_cons_str, <-Ht.
    assert (escape c +:+ escaped b = escaped (String c b)) as -> by (cbn [escaped]; by rewrite He).
    unfold advance; cbn [Parse.pos depth nodes wide rest].
    rewrite str_loop_escaped; [|len_lia|done].
    do 3 f_equal. rewrite ?slen_app, ?slen_cons, slen_str1. lia.
Qed.

(** ** Values within bounds *)

(** The number of values a document holds, object keys not counted. *)
Fixpoint count (v : Value) : Z :=
  match v with
  | VArray vs => 1 + foldr (λ v n, count v + n) 0 vs
  | VObject o => 1 + foldr (λ kv n, count kv.2 + n) 0 o
  | _ => 1
  end.

Lemma count_pos v : 1 ≤ count v.
Proof.
  induction v as [|b|s|vs IH|o IH] using Value_rect_Forall; simpl; try lia.
  - assert (0 ≤ foldr (λ v n, count v + n) 0 vs); [|lia].
    induction IH; simpl; lia.
  - assert (0 ≤ foldr (λ kv n, count kv.2 + n) 0 o); [|lia].
    induction IH; simpl; lia.
Qed.

Definition is_wide (opts : ParseOptions) (d : Z) (k : string) : bool :=
  (d =? 1) && negb (WideArrayKey opts =s ε) && (k =s WideArrayKey opts).

Definition array_bound (opts : ParseOptions) (w : bool) (d : Z) : Z :=
  if w && (d =? 2) then WideArrayMax opts else MaxJSONArrayElements.

(** A value the parser admits at depth [d], the wide flag being [w]: no
    hostile text, distinct keys, and within the depth and array bounds. *)
Inductive fits (opts : ParseOptions) : bool → Z → Value → Prop :=
  | fits_null w d : fits opts w d VNull
  | fits_bool w d b : fits opts w d (VBool b)
  | fits_string w d s : clean true s → fits opts w d (VString s)
  | fits_array w d vs :
      d + 1 ≤ MaxJSONDepth → Z.of_nat (length vs) ≤ array_bound opts w (d + 1) →
      Forall (fits opts false (d + 1)) vs → fits opts w d (VArray vs)
  | fits_object w d o :
      d + 1 ≤ MaxJSONDepth → NoDup (Keys o) →
      Forall (λ kv, clean true kv.1) o →
      Forall (λ kv, fits opts (is_wide opts (d + 1) kv.1) (d + 1) kv.2) o →
      fits opts w d (VObject o).

Lemma fits_distinct opts v : ∀ w d, fits opts w d v → distinct v.
Proof.
  induction v as [|b|s|vs IH|o IH] using Value_rect_Forall; intros w d Hf; inv Hf;
    constructor; rewrite ?Forall_forall in *; eauto.
Qed.

(** ** Reading back what was printed *)

Lemma Set_new o k v : k ∉ Keys o → Set_ o k v = o ++ [(k, v)].
Proof.
  induction o as [|[k' w] o IH]; [done|]. simpl. intros Hk.
  destruct (String.eqb_spec k k') as [->|]; [set_solver|]. f_equal. apply IH. set_solver.
Qed.

Lemma Get_None o k : Get o k = None ↔ k ∉ Keys o.
Proof. apply assoc_None. Qed.

(** The first byte of a printed value starts a value. *)
Lemma print_head v :
  ∃ c t, print v = String c t ∧ c ≠ "]"%char ∧ c ≠ "}"%char ∧ c ≠ ","%char ∧ isJSONSpace c = false.
Proof. destruct v as [|[]|s|vs|o]; simpl; unfold quote; by eexists _, _. Qed.

Section print.
Context (opts : ParseOptions) (lenient : bool).

(** No whitespace to skip. *)
Lemma ws_ok c r pos d n w :
  isJSONSpace c = false → ws lenient (mkParser (String c r) pos d n w) = mkParser (String c r) pos d n w.
Proof.
  intros Hc. unfold ws. cbn [rest str_span]. rewrite Hc. destruct lenient; [|done].
  unfold advance. cbn [Parse.pos depth nodes wide]. by rewrite Z.add_0_r.
Qed.

Lemma ws_print v r pos d n w :
  ws lenient (mkParser (print v +:+ r) pos d n w) = mkParser (print v +:+ r) pos d n w.
Proof. destruct (print_head v) as (c & t & -> & _ & _ & _ & Hc). rewrite app_cons_str. by apply ws_ok. Qed.

Lemma foldr_count_nonneg (kvs : Object) : 0 ≤ foldr (λ kv n, count kv.2 + n) 0 kvs.
Proof. induction kvs as [|[k v] kvs IH]; simpl; [lia|]. pose proof (count_pos v). lia. Qed.

(** What reading a value from its printed form means. *)
Definition reads (v : Value) : Prop := ∀ k r pos d n w,
  (2 * String.length (print v +:+ r) < k)%nat →
  fits opts w d v → n + count v ≤ MaxNodes opts →
  ∃ w', (w = false → w' = false) ∧
    value opts lenient k (mkParser (print v +:+ r) pos d n w) =
      Ok (v, mkParser r (pos + slen (print v)) d (n + count v) w').

Lemma node_ok r pos d n w :
  n + 1 ≤ MaxNodes opts → node opts (mkParser r pos d n w) = Ok (mkParser r pos d (n + 1) w).
Proof. intros. unfold node. simpl. destruct (Z.ltb_spec (MaxNodes opts) (n + 1)); [lia|done]. Qed.

Lemma enter_ok r pos d n w :
  d + 1 ≤ MaxJSONDepth → enter (mkParser r pos d n w) = Ok (mkParser r pos (d + 1) n w).
Proof. intros. unfold enter. cbn [depth rest Parse.pos nodes wide]. destruct (Z.ltb_spec MaxJSONDepth (d + 1)); [lia|done]. Qed.

Lemma elements_print vs : Forall reads vs → ∀ k bound arr r pos d n,
  vs ≠ [] →
  (2 * String.length (strings.Join (print <$> vs) "," +:+ String "]" r) + 1 < k)%nat →
  Forall (fits opts false d) vs → Z.of_nat (length (arr ++ vs)) ≤ bound →
  n + foldr (λ v n, count v + n) 0 vs ≤ MaxNodes opts →
  elements opts lenient k bound arr
    (mkParser (strings.Join (print <$> vs) "," +:+ String "]" r) pos d n false) =
    Ok (VArray (arr ++ vs), mkParser r (pos + slen (strings.Join (print <$> vs) ",") + 1) (d - 1)
         (n + foldr (λ v n, count v + n) 0 vs) false).
Proof.
  induction 1 as [|v vs Hv Hvs IH]; intros k bound arr r pos d n Hne Hk Hf Hb Hn; [done|].
  inv Hf. destruct k as [|k]; [lia|]. rewrite elements_S. unfold elements_body.
  rewrite fmap_cons, Join_cons, app_str_assoc in *. cbn [foldr] in Hn.
  assert (0 ≤ foldr (λ v n, count v + n) 0 vs) as Hpos.
  { clear. induction vs as [|v vs IH]; simpl; [lia|]. pose proof (count_pos v). lia. }
  edestruct (Hv k) as (w' & Hw & ->); [lia|done|lia|]. rewrite Hw by done. cbn [obind].
  assert (length (arr ++ v :: vs) = length ((arr ++ [v]) ++ vs)) as Hlen.
  { by rewrite <-app_assoc. }
  rewrite Hlen in Hb. rewrite length_app in Hb.
  destruct (Z.ltb_spec bound (Z.of_nat (length (arr ++ [v])))) as [|_]; [lia|].
  destruct vs as [|v' vs].
  - cbn [fmap list_fmap]. rewrite app_nil_str, ws_ok by done. cbn [rest]. simpl (_ =b _). cbv iota.
    unfold leave, advance. cbn. rewrite app_str_nil. do 3 f_equal; lia.
  - cbn [fmap list_fmap] in Hk |- *. rewrite !app_str_assoc, app_cons_str, app_nil_str in *.
    rewrite ws_ok by done. cbn [rest].
    simpl (_ =b _). cbv iota. unfold advance. cbn [rest Parse.pos depth nodes wide].
    change (print v' :: list_fmap _ _ print vs) with (print <$> v' :: vs) in *.
    rewrite IH; [|done|rewrite fmap_cons; len_lia|done|by rewrite length_app|lia].
    rewrite <-app_assoc. do 3 f_equal; [rewrite fmap_cons; slen_lia|cbn [foldr]; lia].
Qed.

(** A printed member: its key, a colon and its value. *)
Definition print_member (kv : string * Value) : string := quote kv.1 +:+ ":" +:+ print kv.2.

Lemma print_member_head kv : ∃ t, print_member kv = String dquote t.
Proof. unfold print_member, quote. rewrite !app_str_assoc, str1_app. eauto. Qed.

Lemma members_print kvs : Forall (λ kv, reads kv.2) kvs → ∀ k obj r pos d n w,
  kvs ≠ [] →
  (2 * String.length (strings.Join (print_member <$> kvs) "," +:+ String "}" r) < k)%nat →
  NoDup (Keys (obj ++ kvs)) →
  Forall (λ kv, clean true kv.1) kvs →
  Forall (λ kv, fits opts (is_wide opts d kv.1) d kv.2) kvs →
  n + foldr (λ kv n, count kv.2 + n) 0 kvs ≤ MaxNodes opts →
  members opts lenient k obj
    (mkParser (strings.Join (print_member <$> kvs) "," +:+ String "}" r) pos d n w) =
    Ok (VObject (obj ++ kvs), mkParser r (pos + slen (strings.Join (print_member <$> kvs) ",") + 1) (d - 1)
         (n + foldr (λ kv n, count kv.2 + n) 0 kvs) false).
Proof.
  induction 1 as [|[key v] kvs Hv Hkvs IH]; intros k obj r pos d n w Hne Hk Hnd Hcl Hf Hn; [done|].
  inv Hf as [|? ? Hfv Hf']. inv Hcl as [|? ? Hck Hcl']. simpl in Hfv, Hck, Hv.
  destruct k as [|k]; [lia|]. rewrite members_S. unfold members_body.
  rewrite fmap_cons, Join_cons in *. change (print_member (key, v)) with (quote key +:+ ":" +:+ print v) in *.
  cbn [fst snd foldr] in *. rewrite !app_str_assoc in *.
  set (tail := match print_member <$> kvs with [] => ε | _ => _ end +:+ _) in *.
  assert (first_is dquote (quote key +:+ ":" +:+ print v +:+ tail) = true) as Hq.
  { unfold quote. by rewrite !app_str_assoc, str1_app. }
  rewrite (ws_print (VString key)). change (print (VString key)) with (quote key). cbn [rest]. rewrite Hq. cbn [negb]. rewrite str_quote by done. cbn [obind].
  assert ((key ∉ Keys obj) ∧ NoDup (Keys ((obj ++ [(key, v)]) ++ kvs))) as [Hnk Hnd'].
  { split; [|by rewrite <-app_assoc]. unfold Keys in *. rewrite fmap_app in Hnd.
    apply NoDup_app in Hnd as (_ & Hd & _). intros Hin. apply (Hd _ Hin). rewrite fmap_cons. set_solver. }
  rewrite bool_decide_false by (rewrite <-not_eq_None_Some; intros Hx; by apply Hx, Get_None).
  rewrite app_cons_str, app_nil_str, ws_ok by done. cbn [rest]. simpl (negb _). cbv iota.
  unfold advance. cbn [rest Parse.pos depth nodes wide]. unfold set_wide at 1. cbn [rest Parse.pos depth nodes wide].
  fold (is_wide opts d key).
  edestruct (Hv k) as (w' & _ & ->); [len_lia|done|
    pose proof (foldr_count_nonneg kvs); lia|].
  cbn [obind]. unfold set_wide. cbn [rest Parse.pos depth nodes wide].
  rewrite Set_new by done. subst tail. destruct kvs as [|kv' kvs].
  - cbn [fmap list_fmap]. rewrite app_nil_str, ws_ok by done. cbn [rest]. simpl (_ =b _). cbv iota.
    unfold leave. cbn. rewrite app_str_nil. do 3 f_equal; slen_lia.
  - cbn [fmap list_fmap] in Hk |- *. rewrite !app_str_assoc, app_cons_str, app_nil_str in *.
    rewrite ws_ok by done. cbn [rest].
    simpl (_ =b _). cbv iota. unfold advance. cbn [rest Parse.pos depth nodes wide].
    change (print_member kv' :: list_fmap _ _ print_member kvs) with (print_member <$> kv' :: kvs) in *.
    rewrite IH; [|done|rewrite fmap_cons; len_lia|done..|lia].
    rewrite <-app_assoc. do 3 f_equal; [rewrite fmap_cons; slen_lia|cbn [foldr]; lia].
Qed.

Lemma reads_scalar v k r pos d n w :
  match v with VArray _ | VObject _ => False | _ => True end →
  fits opts w d v → n + 1 ≤ MaxNodes opts →
  value opts lenient (S k) (mkParser (print v +:+ r) pos d n w) =
    Ok (v, mkParser r (pos + slen (print v)) d (n + 1) w).
Proof.
  intros Hs Hf Hn. rewrite value_S. unfold value_body. rewrite ws_print, node_ok by done. cbn [obind].
  destruct v as [|[]|s|vs|o]; try done; cbn [print].
  inv Hf. pose proof (str_quote s r pos d (n + 1) w ltac:(done)) as Hq.
  unfold quote in *. rewrite !app_str_assoc, !str1_app in *. cbn [rest].
  simpl (_ =b _). cbv iota. by rewrite Hq.
Qed.

Theorem print_reads v : reads v.
Proof.
  induction v as [|b|s|vs IH|o IH] using Value_rect_Forall;
    intros k r pos d n w Hk Hf Hn; destruct k as [|k]; try lia.
  1-3: exists w; (split; [done|]); apply reads_scalar; done.
  - inv Hf as [| | |? ? ? Hd Hb Hvs|]. rewrite value_S. unfold value_body. rewrite ws_print.
    pose proof (count_pos (VArray vs)). rewrite node_ok by lia. cbn [obind].
    cbn [print]. rewrite !app_str_assoc, !app_cons_str, !app_nil_str. cbn [rest]. simpl (_ =b _). cbv iota.
    rewrite enter_ok by done. cbn [obind]. exists false. split; [done|].
    unfold advance, set_wide. cbn [rest Parse.pos depth nodes wide].
    fold (array_bound opts w (d + 1)). destruct vs as [|v vs].
    + cbn [fmap list_fmap strings.Join]. rewrite app_nil_str, ws_ok by done. cbn [rest]. simpl (_ =b _). cbv iota.
      unfold leave. cbn. do 3 f_equal; slen_lia.
    + assert (∀ tl, ∃ c t, strings.Join (print <$> v :: vs) "," +:+ tl = String c t ∧ (c =b "]") = false ∧ isJSONSpace c = false) as Hc.
      { intros tl. destruct (print_head v) as (c & t & Hc & Hne & _ & _ & Hsp). rewrite fmap_cons, Join_cons, Hc, !app_cons_str.
        eexists _, _. split; [done|]. split; [by apply Ascii.eqb_neq|done]. }
      destruct (Hc (String "]" r)) as (c & t & Hct & Hcb & Hsp). rewrite Hct, ws_ok by done.
      cbn [rest]. rewrite Hcb, <-Hct.
      rewrite elements_print; try done.
      * cbn [count]. do 3 f_equal; [slen_lia|lia..].
      * cbn [print] in Hk. rewrite !app_str_assoc in Hk. len_lia.
      * cbn [count] in Hn. lia.
  - inv Hf as [| | | |? ? ? Hd Hnd Hcl Hvs]. rewrite value_S. unfold value_body. rewrite ws_print.
    pose proof (count_pos (VObject o)). rewrite node_ok by lia. cbn [obind].
    cbn [print]. fold print_member. rewrite !app_str_assoc, !app_cons_str, !app_nil_str. cbn [rest]. simpl (_ =b _). cbv iota.
    rewrite enter_ok by done. cbn [obind].
    unfold advance, set_wide. cbn [rest Parse.pos depth nodes wide]. destruct o as [|kv o].
    + exists w. split; [done|]. cbn [fmap list_fmap strings.Join]. rewrite app_nil_str, ws_ok by done. cbn [rest]. simpl (_ =b _). cbv iota.
      unfold leave. cbn. do 3 f_equal; slen_lia.
    + exists false. split; [done|].
      assert (∀ tl, ∃ t, strings.Join (print_member <$> kv :: o) "," +:+ tl = String dquote t) as Hc.
      { intros tl. destruct (print_member_head kv) as (t & Hc). rewrite fmap_cons, Join_cons, Hc, !app_cons_str. eauto. }
      change (λ kv0 : string * Value, quote kv0.1 +:+ ":" +:+ print kv0.2) with print_member in *.
      destruct (Hc (String "}" r)) as (t & Hct). rewrite Hct, ws_ok by done. cbn [rest]. simpl (_ =b _). cbv iota. rewrite <-Hct.
      rewrite members_print; try done.
      * cbn [count]. do 3 f_equal; [slen_lia|lia..].
      * cbn [print] in Hk.
        change (λ kv0 : string * Value, quote kv0.1 +:+ ":" +:+ print kv0.2) with print_member in *.
        rewrite !app_str_assoc in Hk. len_lia.
      * cbn [count] in Hn. lia.
Qed.
End print.

(** ** The printed form determines the value

    [print] is a prefix code: two values whose printed forms start the same
    text are the same.  So values with distinct keys encode to the same bytes
    exactly when they are equal up to the order of their keys, whatever their
    size and text. *)


(** The escaped form of one byte. *)
Definition codeword (c : ascii) : string := if escapedByte c then escape c else str1 c.

Lemma escaped_cons c s : escaped (String c s) = codeword c +:+ escaped s.
Proof. done. Qed.

Lemma codeword_head c : ∃ b t, codeword c = String b t ∧ b ≠ dquote ∧ (escapedByte c = false → b = c ∧ t = ε ∧ c ≠ backslash)
  ∧ (escapedByte c = true → b = backslash).
Proof.
  unfold codeword. destruct (escapedByte c) eqn:E.
  - destruct (escape_backslash c E) as [t ->]. by exists backslash, t.
  - exists c, ε. apply plain_byte in E as (H1 & H2 & _). apply Ascii.eqb_neq in H1, H2. done.
Qed.

Lemma codeword_inj c d r r' : codeword c +:+ r = codeword d +:+ r' → c = d ∧ r = r'.
Proof.
  intros H. destruct (codeword_head c) as (b & t & Hc & _ & Hcf & Hct).
  destruct (codeword_head d) as (b' & t' & Hd & _ & Hdf & Hdt).
  destruct (escapedByte c) eqn:Ec, (escapedByte d) eqn:Ed.
  - unfold codeword in H. rewrite Ec, Ed in H.
    destruct (unescape_escape c r 0 0 0 false Ec) as (e & tl & He & Hu).
    destruct (unescape_escape d r' 0 0 0 false Ed) as (e' & tl' & He' & Hu').
    rewrite He, He', !app_cons_str in H. injection H as -> H. rewrite H, Hu' in Hu.
    by injection Hu as -> -> _.
  - exfalso. rewrite Hc, Hd, !app_cons_str in H. injection H as Hb _.
    destruct (Hdf eq_refl) as (<- & _ & Hne). rewrite (Hct eq_refl) in Hb. congruence.
  - exfalso. rewrite Hc, Hd, !app_cons_str in H. injection H as Hb _.
    destruct (Hcf eq_refl) as (<- & _ & Hne). rewrite (Hdt eq_refl) in Hb. congruence.
  - unfold codeword in H. rewrite Ec, Ed, !str1_app in H. by injection H as -> ->.
Qed.

Lemma escaped_inj s : ∀ s' r r',
  escaped s +:+ String dquote r = escaped s' +:+ String dquote r' → s = s' ∧ r = r'.
Proof.
  induction s as [|c s IH]; intros [|d s'] r r' H.
  - by injection H as ->.
  - exfalso. rewrite escaped_cons, app_str_assoc in H. destruct (codeword_head d) as (b & t & Hd & Hne & _).
    rewrite Hd, app_cons_str in H. cbn [escaped] in H. rewrite app_nil_str in H. by injection H as <- _.
  - exfalso. rewrite escaped_cons, app_str_assoc in H. destruct (codeword_head c) as (b & t & Hd & Hne & _).
    rewrite Hd, app_cons_str in H. cbn [escaped] in H. rewrite app_nil_str in H. by injection H as -> _.
  - rewrite !escaped_cons, !app_str_assoc in H. apply codeword_inj in H as [-> H].
    by apply IH in H as [-> ->].
Qed.

Lemma quote_inj s s' r r' : quote s +:+ r = quote s' +:+ r' → s = s' ∧ r = r'.
Proof.
  unfold quote. rewrite !app_str_assoc, !str1_app. intros [= H]. by apply escaped_inj.
Qed.

(** Joined parts, each a codeword of a prefix code, before a closing byte. *)
Lemma Join_inj {A} (f : A → string) (close : ascii) xs :
  close ≠ ","%char →
  (∀ x r t, f x +:+ r ≠ String close t) →
  Forall (λ x, ∀ x' r r', f x +:+ r = f x' +:+ r' → x = x' ∧ r = r') xs →
  ∀ xs' r r', strings.Join (f <$> xs) "," +:+ String close r = strings.Join (f <$> xs') "," +:+ String close r' →
  xs = xs' ∧ r = r'.
Proof.
  intros Hclose Hhead. induction 1 as [|x xs Hx _ IH]; intros [|x' xs'] r r' H.
  - by injection H as ->.
  - exfalso. rewrite fmap_cons, Join_cons, app_str_assoc in H. cbn [fmap list_fmap strings.Join] in H.
    rewrite app_nil_str in H. symmetry in H. by eapply Hhead in H.
  - exfalso. rewrite fmap_cons, Join_cons, app_str_assoc in H. cbn [fmap list_fmap strings.Join] in H.
    rewrite app_nil_str in H. by eapply Hhead in H.
  - rewrite !fmap_cons, !Join_cons, !app_str_assoc in H. apply Hx in H as [-> H].
    destruct xs as [|y ys], xs' as [|y' ys']; cbn [fmap list_fmap] in H;
      rewrite ?app_nil_str, ?app_str_assoc, ?app_cons_str, ?app_nil_str in H.
    + by injection H as ->.
    + injection H as H _. congruence.
    + injection H as H _. congruence.
    + destruct (IH (y' :: ys') r r') as [-> ->]; [|done]. injection H as H. exact H.
Qed.

Lemma print_inj v : ∀ v' r r', print v +:+ r = print v' +:+ r' → v = v' ∧ r = r'.
Proof.
  induction v as [|b|s|vs IH|o IH] using Value_rect_Forall; intros v' r r' H.
  - destruct v' as [|[]|s'|vs'|o']; try discriminate H. by apply app_str_inj_l in H as ->.
  - destruct b, v' as [|[]|s'|vs'|o']; try discriminate H; by apply app_str_inj_l in H as ->.
  - destruct v' as [|[]|s'|vs'|o']; try discriminate H. cbn [print] in H. by apply quote_inj in H as [-> ->].
  - destruct v' as [|[]|s'|vs'|o']; try discriminate H. cbn [print] in H.
    rewrite !app_str_assoc, !app_cons_str, !app_nil_str in H. injection H as H.
    apply Join_inj in H as [-> ->]; try done.
    intros x r1 t Hx. destruct (print_head x) as (d & u & Hd & Hne & _).
    rewrite Hd, app_cons_str in Hx. by injection Hx as -> _.
  - destruct v' as [|[]|s'|vs'|o']; try discriminate H. cbn [print] in H. fold print_member in H.
    rewrite !app_str_assoc, !app_cons_str, !app_nil_str in H. injection H as H.
    apply (Join_inj print_member) in H as [-> ->]; try done.
    eapply Forall_impl; [exact IH|]. intros [k v] Hv [k' v'] r1 r1' Heq.
    unfold print_member in Heq. cbn [fst snd] in *. rewrite !app_str_assoc in Heq.
    apply quote_inj in Heq as [-> Heq]. rewrite !app_cons_str, !app_nil_str in Heq. injection Heq as Heq.
    by apply Hv in Heq as [-> ->].
Qed.

(** Equal encodings are the same value up to the order of keys. *)
Lemma enc_inj v v' : distinct v → distinct v' → enc v = enc v' ↔ canon v = canon v'.
Proof.
  intros Hd Hd'. rewrite !enc_print_canon by done. split; [|by intros ->].
  intros H. apply (print_inj _ _ ε ε). by rewrite H.
Qed.

Lemma EncodeFile_inj v v' : distinct v → distinct v' → EncodeFile v = EncodeFile v' ↔ canon v = canon v'.
Proof.
  intros Hd Hd'. unfold EncodeFile. rewrite !Encode_enc, <-enc_inj by done.
  split; [apply app_str_inj_r|by intros ->].
Qed.

(** Two values with distinct keys encode to the same bytes exactly when
    they are the same up to the order of their keys, so [Equal] decides it. *)
Theorem Equal_spec a b : distinct a → distinct b → Equal a b = true ↔ canon a = canon b.
Proof. intros Ha Hb. unfold Equal. by rewrite String.eqb_eq, !Encode_enc, enc_inj. Qed.

Lemma Equal_spec_witness :
  Equal (VObject [("b", VNull); ("a", VBool true)]) (VObject [("a", VBool true); ("b", VNull)]) = true.
Proof.
  assert (∀ o : Object, NoDup (Keys o) → Forall (λ kv, distinct kv.2) o → distinct (VObject o)) as Hd
    by (intros; constructor; done).
  apply (Equal_spec (VObject [("b", VNull); ("a", VBool true)]) (VObject [("a", VBool true); ("b", VNull)]));
    [apply Hd|apply Hd|reflexivity]; try (apply (bool_decide_unpack _); vm_compute; exact I);
    repeat constructor.
Defined.
