(* ===== verification/ParseSound.v ===== *)
(** * What the parser accepts

    Every value the parser returns, canonical or not, is within its bounds
    ([fits]) and its node count is the parser's; and the strict parser reads
    a document without a backslash only from the value's printed form. *)

From S2P Require Import Prelude Utf8 GoStd Codes Value Canonical Primitives.
From S2P Require Import PrimitivesSpec Parse ParseTotal ParsePrint.
Local Open Scope Z_scope.
Local Open Scope go_scope.

(** ** Strings *)

(** The parts of the state reading a string does not touch. *)
Definition same_state (p p' : parser) : Prop :=
  depth p' = depth p ∧ nodes p' = nodes p ∧ wide p' = wide p.

Lemma same_state_trans p q r : same_state p q → same_state q r → same_state p r.
Proof. unfold same_state. intros (? & ? & ?) (? & ? & ?). split_and!; congruence. Qed.

Lemma hex4_state p r p' : hex4 p = Some (r, p') → same_state p p'.
Proof.
  unfold hex4. destruct (rest p) as [|a [|b [|c [|d s]]]]; try done.
  destruct (hexVal a), (hexVal b), (hexVal c), (hexVal d); simpl; try done.
  by intros [= <- <-].
Qed.

Lemma surrogate_state r p x p' : surrogate r p = Ok (x, p') → same_state p p'.
Proof.
  unfold surrogate. intros H. parse_inv; try done.
  match goal with H : hex4 _ = Some _ |- _ => by apply hex4_state in H end.
Qed.

Lemma unescape_state e p s p' : unescape e p = Ok (s, p') → same_state p p'.
Proof.
  unfold unescape. intros H. parse_inv; try done.
  match goal with H : hex4 _ = Some _ |- _ => apply hex4_state in H end.
  match goal with H : surrogate _ _ = Ok _ |- _ => apply surrogate_state in H end.
  by eapply same_state_trans.
Qed.

Lemma clean_of_check out w : checkHostile out w true = None → clean true out.
Proof. by rewrite checkHostile_clean. Qed.

Lemma str_loop_sound k start : ∀ out p s p',
  str_loop k start out p = Ok (s, p') → same_state p p' ∧ clean true s.
Proof.
  induction k as [|k IH]; intros out p s p' H; [done|]. cbn [str_loop] in H.
  destruct (rest p) as [|c r]; [done|]. destruct (c =b dquote).
  - destruct (negb (plainASCII out true)) eqn:Hp.
    + destruct (checkHostile out _ true) eqn:Hc; [done|]. parse_inv.
      split; [done|]. by apply clean_of_check in Hc.
    + parse_inv. split; [done|]. apply plainASCII_clean. by apply negb_false_iff.
  - destruct (c =b backslash).
    + destruct r as [|e r]; [done|]. cbn [rest advance] in H. parse_inv.
      match goal with H : unescape _ _ = _ |- _ => apply unescape_state in H as Hu end.
      apply IH in H as [Hs Hc]. split; [|done]. by eapply same_state_trans.
    + destruct (code c <? 0x20); [done|]. by apply IH in H.
Qed.

(** A run without escapes and without bytes above ASCII is clean. *)
Lemma plain_run_clean s :
  str_forall (λ c, negb (escapedByte c)) s = true →
  str_exists (λ c, 0x80 <=? code c) s = false → clean true s.
Proof.
  intros Hp Hh. apply plainASCII_clean. unfold plainASCII. apply negb_true_iff.
  induction s as [|c s IH]; [done|]. simpl in *.
  apply andb_true_iff in Hp as [Hc Hp]. apply orb_false_iff in Hh as [Hc' Hh].
  rewrite IH by done. rewrite orb_false_r. revert Hc Hc'. clear. by all_bytes c.
Qed.

Lemma str_sound p s p' : str p = Ok (s, p') → same_state p p' ∧ clean true s.
Proof.
  unfold str. destruct (rest p) as [|c q]; [done|].
  pose proof (str_span_forall (λ c, negb (escapedByte c)) q) as Hrun.
  destruct (str_span _ q) as [run r]. simpl in Hrun. cbv beta iota zeta.
  intros H. destruct r as [|d r']; [by apply str_loop_sound in H|].
  destruct (d =b dquote); [|by apply str_loop_sound in H].
  destruct (str_exists _ run) eqn:Hh.
  - destruct (checkHostile run _ true) eqn:Hc; [done|]. parse_inv.
    split; [done|]. by apply clean_of_check in Hc.
  - parse_inv. split; [done|]. by apply plain_run_clean.
Qed.

Section sound.
Context (opts : ParseOptions) (lenient : bool) (Hwide : 0 ≤ WideArrayMax opts).

Lemma ws_state p : same_state p (ws lenient p).
Proof. unfold ws. destruct lenient; [|done]. by destruct (str_span _ _). Qed.

Lemma node_inv p p' :
  node opts p = Ok p' → depth p' = depth p ∧ nodes p' = nodes p + 1 ∧ wide p' = wide p ∧
    nodes p' ≤ MaxNodes opts.
Proof. unfold node. intros H. parse_inv. bool_hyps. simpl in *. split_and!; done || lia. Qed.

Lemma enter_inv p p' :
  enter p = Ok p' → depth p' = depth p + 1 ∧ nodes p' = nodes p ∧ wide p' = wide p ∧
    depth p' ≤ MaxJSONDepth.
Proof. unfold enter. intros H. parse_inv. bool_hyps. simpl in *. split_and!; done || lia. Qed.

Lemma literal_inv lit v p w p' : literal lit v p = Ok (w, p') → w = v ∧ same_state p p'.
Proof. unfold literal. destruct (strip_prefix _ _); [|done]. by intros [= <- <-]. Qed.

(** What a successful [value] returns. *)
Definition value_post (p : parser) (v : Value) (p' : parser) : Prop :=
  depth p' = depth p ∧ nodes p' = nodes p + count v ∧ nodes p' ≤ MaxNodes opts ∧
  (wide p = false → wide p' = false) ∧ fits opts (wide p) (depth p) v.

Definition members_post (o : Object) (p : parser) (v : Value) (p' : parser) : Prop :=
  ∃ kvs, v = VObject (o ++ kvs) ∧ NoDup (Keys (o ++ kvs)) ∧
    Forall (λ kv, clean true kv.1) kvs ∧
    Forall (λ kv, fits opts (is_wide opts (depth p) kv.1) (depth p) kv.2) kvs ∧
    depth p' = depth p - 1 ∧ nodes p' = nodes p + foldr (λ kv n, count kv.2 + n) 0 kvs ∧
    nodes p' ≤ MaxNodes opts ∧ wide p' = false.

Definition elements_post (b : Z) (arr : list Value) (p : parser) (v : Value) (p' : parser) : Prop :=
  ∃ vs, v = VArray (arr ++ vs) ∧ Z.of_nat (length (arr ++ vs)) ≤ b ∧
    Forall (fits opts false (depth p)) vs ∧
    depth p' = depth p - 1 ∧ nodes p' = nodes p + foldr (λ v n, count v + n) 0 vs ∧
    nodes p' ≤ MaxNodes opts ∧ wide p' = false.

(** The state facts of the steps taken apart. *)
Ltac states :=
  repeat match goal with
  | H : node _ _ = Ok _ |- _ => apply node_inv in H as (? & ? & ? & ?)
  | H : enter _ = Ok _ |- _ => apply enter_inv in H as (? & ? & ? & ?)
  | H : str _ = Ok _ |- _ => apply str_sound in H as [[? [? ?]] ?]
  | H : literal _ _ _ = Ok _ |- _ => apply literal_inv in H as [-> [? [? ?]]]
  end;
  repeat match goal with
  | H : context [ws lenient ?p] |- _ =>
      lazymatch goal with
      | _ : depth (ws lenient p) = _ |- _ => fail
      | _ => destruct (ws_state p) as (? & ? & ?) end
  | |- context [ws lenient ?p] =>
      lazymatch goal with
      | _ : depth (ws lenient p) = _ |- _ => fail
      | _ => destruct (ws_state p) as (? & ? & ?) end
  end;
  cbn [depth nodes wide advance leave set_wide] in *.

Lemma object_post p p' kvs :
  depth p' = depth p → nodes p' = nodes p + 1 + foldr (λ kv n, count kv.2 + n) 0 kvs →
  nodes p' ≤ MaxNodes opts → (wide p = false → wide p' = false) → depth p + 1 ≤ MaxJSONDepth →
  NoDup (Keys kvs) → Forall (λ kv, clean true kv.1) kvs →
  Forall (λ kv, fits opts (is_wide opts (depth p + 1) kv.1) (depth p + 1) kv.2) kvs →
  value_post p (VObject kvs) p'.
Proof. intros. split_and!; try done; [simpl; lia|by constructor]. Qed.

Lemma array_post p p' vs :
  depth p' = depth p → nodes p' = nodes p + 1 + foldr (λ v n, count v + n) 0 vs →
  nodes p' ≤ MaxNodes opts → (wide p = false → wide p' = false) → depth p + 1 ≤ MaxJSONDepth →
  Z.of_nat (length vs) ≤ array_bound opts (wide p) (depth p + 1) →
  Forall (fits opts false (depth p + 1)) vs →
  value_post p (VArray vs) p'.
Proof. intros. split_and!; try done; [simpl; lia|by constructor]. Qed.

Lemma NoDup_Keys_snoc o k v : NoDup (Keys o) → k ∉ Keys o → NoDup (Keys (o ++ [(k, v)])).
Proof.
  intros Ho Hk. unfold Keys. rewrite fmap_app, NoDup_app. split_and!; [done| |].
  - intros x Hx Hin. apply list_elem_of_singleton in Hin as ->. done.
  - apply NoDup_singleton.
Qed.

(** What the three functions return with fuel [k]. *)
Definition sound_value k : Prop := ∀ p v p',
  value opts lenient k p = Ok (v, p') → value_post p v p'.
Definition sound_members k : Prop := ∀ o p v p',
  members opts lenient k o p = Ok (v, p') → NoDup (Keys o) → members_post o p v p'.
Definition sound_elements k : Prop := ∀ b a p v p',
  elements opts lenient k b a p = Ok (v, p') → wide p = false → elements_post b a p v p'.

Lemma value_sound_step k : sound_members k → sound_elements k → sound_value (S k).
Proof.
  unfold sound_value, sound_members, sound_elements. intros IHm IHe p v p' H. rewrite value_S in H. unfold value_body in H. parse_inv.
  all: try match goal with
    | H : members _ _ _ _ _ = _ |- _ =>
        apply IHm in H as (kvs & -> & ? & ? & ? & ? & ? & ? & ?); [|constructor]
    | H : elements _ _ _ _ _ _ = _ |- _ =>
        apply IHe in H as (vs & -> & ? & ? & ? & ? & ? & ?); [|by states] end.
  all: states.
  all: try match goal with
    | |- value_post _ (VObject _) _ => apply object_post
    | |- value_post _ (VArray _) _ => apply array_post end.
  all: cbn [app NewObject foldr]; states; try congruence; try lia.
  all: repeat match goal with H : depth ?x = depth ?p + 1 |- context [depth ?p + 1] => rewrite <-H end.
  all: cbn [Keys NewObject fmap list_fmap]; try apply NoDup_nil_2; try apply Forall_nil_2; try done.
  all: try (split_and!; cbn [count]; try congruence; try lia; by constructor).
  all: try match goal with H : Forall (λ kv, fits _ (is_wide _ (depth ?y) _) _ _) _ |- _ =>
    replace (depth y) with (depth p + 1) in H by congruence; done end.
  all: unfold array_bound;
    match goal with H : depth ?y = depth ?x + 1 |- context [wide ?p] =>
      replace (wide p) with (wide y) by congruence;
      replace (depth p + 1) with (depth y) by congruence end; try done.
  case_match; done.
Qed.

Lemma members_sound_step k : sound_value k → sound_members k → sound_members (S k).
Proof.
  unfold sound_value, sound_members, sound_elements. intros IHv IHm o p v p' H Ho. rewrite members_S in H. unfold members_body in H. parse_inv.
  all: match goal with H : value _ _ _ _ = _ |- _ => apply IHv in H as (? & ? & ? & Hw & Hf) end.
  all: bool_hyps; rewrite ?bool_decide_eq_false in *.
  all: match goal with H : ¬ is_Some (Get ?o ?k) |- _ =>
         apply eq_None_not_Some, Get_None in H; rewrite (Set_new _ _ _ H) in * end.
  all: assert (NoDup (Keys (o ++ [(s, v0)]))) as Hnd by by apply NoDup_Keys_snoc.
  all: states; cbn [fst] in *.
  + match goal with H : members _ _ _ _ _ = _ |- _ =>
        apply IHm in H as (kvs & -> & ? & ? & ? & ? & ? & ? & ?); [|done] end.
    states. exists ((s, v0) :: kvs). rewrite <-app_assoc in *. cbn [app] in *.
    split_and!; try done; try constructor; cbn [fst snd foldr]; try done; try lia.
    { unfold is_wide. replace (depth p) with (depth (ws lenient p0)) by congruence. done. }
    { by replace (depth p) with (depth (ws lenient (set_wide false p1))) by congruence. }
  + exists [(s, v0)]. states.
    split_and!; try done; try (constructor; [|by constructor]); cbn [fst snd foldr]; try done; try lia.
    unfold is_wide. replace (depth p) with (depth (ws lenient p0)) by congruence. done.
Qed.

Lemma elements_sound_step k : sound_value k → sound_elements k → sound_elements (S k).
Proof.
  unfold sound_value, sound_members, sound_elements. intros IHv IHe b a p v p' H Hw0. rewrite elements_S in H. unfold elements_body in H. parse_inv.
  all: match goal with H : value _ _ _ _ = _ |- _ => apply IHv in H as (? & ? & ? & Hw & Hf) end.
  all: bool_hyps; specialize (Hw Hw0); rewrite Hw0 in Hf; states.
  + match goal with H : elements _ _ _ _ _ _ = _ |- _ =>
        apply IHe in H as (vs & -> & ? & Hall & ? & ? & ? & ?); [|states; congruence] end.
    states. exists (v0 :: vs). rewrite <-app_assoc in *. cbn [app foldr] in *.
    split_and!; try done; try (constructor; [done|]); try lia.
    by replace (depth p) with (depth (ws lenient p0)) by congruence.
  + exists [v0]. states. split_and!; try done; try (by constructor); cbn [foldr]; try lia.
    congruence.
Qed.

Lemma parse_sound k : sound_value k ∧ sound_members k ∧ sound_elements k.
Proof.
  induction k as [|k (IHv & IHm & IHe)]; [done|].
  auto using value_sound_step, members_sound_step, elements_sound_step.
Qed.

(** A value read from the start of a document. *)
Lemma value_sound k body v p' :
  value opts lenient k (start body) = Ok (v, p') →
  fits opts false 0 v ∧ count v ≤ MaxNodes opts.
Proof. intros H. apply parse_sound in H as (_ & Hn & Hm & _ & Hf). cbn in Hn. split; [done|lia]. Qed.
End sound.
