(* ===== verification/ParseDoc.v ===== *)
(** * Whole documents

    The theorems on [ParseWith], [Parse] and [ParseInput]: the strict parser
    accepts exactly the canonical encodings of the values within its bounds,
    and returns the value encoded. *)

From S2P Require Import Prelude Utf8 GoStd Codes Value Canonical Primitives.
From S2P Require Import PrimitivesSpec Parse ParseTotal ParsePrint ParseSound.
Local Open Scope Z_scope.
Local Open Scope go_scope.

(** ** Sorting members changes no bound *)

Lemma foldr_perm_sum {A} (f : A → Z) l l' :
  l ≡ₚ l' → foldr (λ x n, f x + n) 0 l = foldr (λ x n, f x + n) 0 l'.
Proof. induction 1; simpl; lia. Qed.

Lemma count_canon v : count (canon v) = count v.
Proof.
  induction v as [|b|s|vs IH|o IH] using Value_rect_Forall; try done.
  - cbn [canon count]. f_equal. induction IH as [|v vs Hv _ IHvs]; [done|].
    rewrite fmap_cons. cbn [foldr]. by rewrite Hv, IHvs.
  - cbn [canon count]. f_equal.
    rewrite (foldr_perm_sum (λ kv : string * Value, count kv.2) _ _ (isort_perm _ _)).
    induction IH as [|[k v] o Hv _ IHo]; [done|].
    rewrite fmap_cons. cbn [foldr snd] in *. by rewrite Hv, IHo.
Qed.

Lemma fits_canon opts v : ∀ w d, fits opts w d v → fits opts w d (canon v).
Proof.
  induction v as [|b|s|vs IH|o IH] using Value_rect_Forall; intros w d Hf; try done; inv Hf;
    cbn [canon]; constructor; try done.
  - by rewrite length_fmap.
  - apply Forall_fmap. rewrite Forall_forall in *. simpl. auto.
  - unfold Keys. by rewrite isort_fst, SortStrings_perm, Keys_fmap.
  - by rewrite isort_perm, Forall_fmap.
  - rewrite isort_perm, Forall_fmap. rewrite Forall_forall in *. simpl. auto.
Qed.

(** ** A printed value is a well-formed document *)

Lemma escaped_EncodeRune r :
  utf8.ValidRune r = true → utf8.Valid (escaped (utf8.EncodeRune r)) = true.
Proof.
  intros Hr. destruct (Z.ltb_spec r 0x80).
  - assert (∃ c, r = code c) as [c ->].
    { exists (byte_of r). rewrite code_byte_of; [done|]. apply utf8.ValidRune_spec in Hr. lia. }
    rewrite EncodeRune_ascii by done. revert H. clear. by all_bytes c.
  - pose proof (EncodeRune_high r ltac:(lia) Hr) as Hh.
    rewrite escaped_plain. { apply Valid_spec. exists [r]. simpl. rewrite app_str_nil. auto. }
    revert Hh. apply str_forall_impl. intros c. clear. by all_bytes c.
Qed.

Lemma escaped_Valid s : utf8.Valid s = true → utf8.Valid (escaped s) = true.
Proof.
  intros (rs & -> & Hv)%Valid_spec. induction Hv as [|r rs Hr _ IH]; [done|].
  simpl. rewrite escaped_app. by apply Valid_app; [apply escaped_EncodeRune|].
Qed.

Lemma quote_Valid s : clean true s → utf8.Valid (quote s) = true.
Proof.
  intros Hs%clean_Valid%escaped_Valid. unfold quote.
  apply Valid_app; [done|]. by apply Valid_app.
Qed.

Lemma Join_Valid ws sep :
  utf8.Valid sep = true → Forall (λ w, utf8.Valid w = true) ws → utf8.Valid (strings.Join ws sep) = true.
Proof.
  intros Hsep. induction 1 as [|w ws Hw _ IH]; [done|]. rewrite Join_cons.
  apply Valid_app; [done|]. destruct ws; [done|]. by apply Valid_app.
Qed.

Lemma print_Valid opts v : ∀ w d, fits opts w d v → utf8.Valid (print v) = true.
Proof.
  induction v as [|b|s|vs IH|o IH] using Value_rect_Forall; intros w d Hf; inv Hf; cbn [print].
  - done.
  - by destruct b.
  - by apply quote_Valid.
  - apply Valid_app; [done|]. apply Valid_app; [|done]. apply Join_Valid; [done|].
    apply Forall_fmap. rewrite Forall_forall in *. simpl. eauto.
  - apply Valid_app; [done|]. apply Valid_app; [|done]. apply Join_Valid; [done|].
    apply Forall_fmap. rewrite Forall_forall in *. simpl. intros x Hx.
    apply Valid_app; [by apply quote_Valid; auto|]. apply Valid_app; [done|]. eauto.
Qed.

Lemma print_check_document opts v w d tl :
  fits opts w d v → utf8.Valid tl = true → check_document (print v +:+ tl) = None.
Proof.
  intros Hf Htl. unfold check_document. rewrite Valid_app by (done || by eapply print_Valid).
  destruct v as [|[]|s|vs|o]; done.
Qed.

Lemma HasSuffixByte_snoc s c : strings.HasSuffixByte (s +:+ str1 c) c = true.
Proof. unfold strings.HasSuffixByte. rewrite strings.last_snoc. apply Ascii.eqb_refl. Qed.

Lemma HasSuffixByte_init s c :
  strings.HasSuffixByte s c = true → s = strings.init s +:+ str1 c.
Proof.
  unfold strings.HasSuffixByte. destruct (strings.last s) as [d|] eqn:E; [|done].
  intros ->%Ascii.eqb_eq. by apply strings.last_init.
Qed.

(** ** The entry points on printed text *)

(** What [ParseWith] accepts at [opts]. *)
Definition admissible (opts : ParseOptions) (v : Value) : Prop :=
  fits (default_options opts) false 0 v ∧ count v ≤ MaxNodes (default_options opts).

Lemma WideArrayMax_default opts : 0 ≤ WideArrayMax (default_options opts).
Proof.
  unfold default_options. destruct (Z.leb_spec (WideArrayMax opts) 0); simpl; case_match; simpl; try done; lia.
Qed.

Lemma admissible_canon opts v : admissible opts v → admissible opts (canon v).
Proof. intros [Hf Hc]. split; [by apply fits_canon|by rewrite count_canon]. Qed.

Lemma admissible_distinct opts v : admissible opts v → distinct v.
Proof. intros [Hf _]. by eapply fits_distinct. Qed.

Lemma value_print opts l v r k :
  fits opts false 0 v → count v ≤ MaxNodes opts → (2 * String.length (print v +:+ r) < k)%nat →
  ∃ p, value opts l k (start (print v +:+ r)) = Ok (v, p) ∧ rest p = r.
Proof.
  intros Hf Hc Hk. destruct (print_reads opts l v k r 0 0 0 false Hk Hf ltac:(lia)) as (w & _ & H).
  eexists. by split; [exact H|].
Qed.

Lemma ParseWith_print opts v :
  admissible opts v → sorted_keys v → ParseWith (print v +:+ str1 newline) opts = Ok v.
Proof.
  intros Ha Hs. pose proof (admissible_distinct _ _ Ha) as Hd. destruct Ha as [Hf Hc].
  unfold ParseWith. rewrite (print_check_document _ _ _ _ _ Hf) by done.
  rewrite HasSuffixByte_snoc, strings.init_snoc. cbn [negb].
  destruct (value_print _ false v ε (parse_fuel (print v)) Hf Hc) as (p & Hp & Hr).
  { rewrite app_str_nil. unfold parse_fuel. lia. }
  rewrite app_str_nil in Hp. rewrite Hp. cbn [obind]. rewrite Hr. cbn [negb String.eqb].
  rewrite appendValue_eq, app_nil_str, enc_print by done. by rewrite String.eqb_refl.
Qed.

(** A value that re-encodes to the bytes it was read from has sorted keys. *)
Lemma reencoded_sorted opts body v p :
  value (default_options opts) false (parse_fuel body) (start body) = Ok (v, p) →
  appendValue ε v = body → admissible opts v ∧ sorted_keys v.
Proof.
  intros Hv Henc. pose proof (value_sound _ _ (WideArrayMax_default opts) _ _ _ _ Hv) as Ha.
  change (admissible opts v) in Ha. split; [done|].
  rewrite appendValue_eq, app_nil_str, enc_print_canon in Henc by by eapply admissible_distinct.
  apply admissible_canon in Ha as [Hf Hc].
  destruct (value_print _ false (canon v) ε (parse_fuel (print (canon v))) Hf Hc) as (q & Hq & _).
  { rewrite app_str_nil. unfold parse_fuel. lia. }
  rewrite app_str_nil, Henc, Hv in Hq. injection Hq as Hq _. rewrite Hq. apply canon_sorted.
Qed.

Lemma ParseWith_Ok opts data v :
  ParseWith data opts = Ok v →
  admissible opts v ∧ data = EncodeFile v ∧ sorted_keys v.
Proof.
  unfold ParseWith. intros H. destruct (check_document data); [done|].
  destruct (strings.HasSuffixByte data newline) eqn:Hlf; [|done]. cbn [negb] in H.
  parse_inv. bool_hyps.
  match goal with H : value _ _ _ _ = _ |- _ => rename H into Hv end.
  match goal with H : appendValue ε _ = _ |- _ => rename H into Henc end.
  apply reencoded_sorted in Hv as [Ha Hs]; [|done]. apply HasSuffixByte_init in Hlf.
  split; [done|]. split; [unfold EncodeFile, Encode; by rewrite Henc|done].
Qed.

Lemma ParseWith_EncodeFile_canon opts v :
  admissible opts v → ParseWith (EncodeFile v) opts = Ok (canon v).
Proof.
  intros Ha. unfold EncodeFile. rewrite Encode_enc, enc_print_canon by by eapply admissible_distinct.
  apply ParseWith_print; [by apply admissible_canon|apply canon_sorted].
Qed.

Lemma ParseInput_Ok data v : ParseInput data = Ok v → admissible noOptions v.
Proof.
  unfold ParseInput. intros H. destruct (check_document data); [done|].
  parse_inv. eapply value_sound; [|done]. done.
Qed.

Lemma spaces_Valid s : str_forall isJSONSpace s = true → utf8.Valid s = true.
Proof. intros Hs. apply Valid_ascii. revert Hs. apply str_forall_impl. intros c. by all_bytes c. Qed.

Lemma ws_spaces s r pos d n w :
  str_forall isJSONSpace s = true → (∀ c t, r = String c t → isJSONSpace c = false) →
  ws true (mkParser (s +:+ r) pos d n w) = mkParser r (pos + slen s) d n w.
Proof. intros Hs Hr. unfold ws. cbn [rest]. by rewrite str_span_run. Qed.

Lemma value_spaces opts k v s r :
  str_forall isJSONSpace s = true → fits opts false 0 v → count v ≤ MaxNodes opts →
  (2 * String.length (print v +:+ r) < k)%nat →
  ∃ p, value opts true k (start (s +:+ print v +:+ r)) = Ok (v, p) ∧ rest p = r.
Proof.
  intros Hs Hf Hc Hk.
  destruct (print_reads opts true v k r (slen s) 0 0 false Hk Hf ltac:(lia)) as (w & _ & H).
  destruct k as [|k]; [lia|]. rewrite value_S in *. unfold value_body, start in *.
  rewrite ws_spaces; [|done|].
  - rewrite ws_print in H. rewrite Z.add_0_l, H. eexists. by split.
  - intros c t. destruct (print_head v) as (c' & t' & -> & _ & _ & _ & Hsp).
    rewrite app_cons_str. by intros [= <- _].
Qed.

(** ** The properties of the parser *)

(** C16: The strict parser accepts exactly the canonical file encodings of
    values with sorted keys that are within its depth, array and node bounds
    and hold no hostile text, and it returns the value that was encoded. *)
Theorem ParseWith_spec opts data v :
  ParseWith data opts = Ok v ↔ data = EncodeFile v ∧ sorted_keys v ∧ admissible opts v.
Proof.
  split; [by intros (? & ? & ?)%ParseWith_Ok|]. intros (-> & Hs & Ha).
  by rewrite ParseWith_EncodeFile_canon, canon_id.
Qed.

(** C30: Encoding a value within bounds, whatever the order its keys were set
    in, gives a document the strict parser reads back as the same value with
    its keys sorted. *)
Theorem Parse_EncodeFile v :
  admissible noOptions v → Parse (EncodeFile v) = Ok (canon v).
Proof. apply ParseWith_EncodeFile_canon. Qed.

(** Neither entry point of the parser runs out of fuel: every document,
    well formed or not, gives a value or an error, and the error is MALFORMED
    or LIMIT_EXCEEDED. *)
Theorem Parse_total data opts :
  ((∃ v, ParseWith data opts = Ok v) ∨ ∃ e, ParseWith data opts = Err e ∧ parse_code e) ∧
  ((∃ v, ParseInput data = Ok v) ∨ ∃ e, ParseInput data = Err e ∧ parse_code e).
Proof.
  split.
  - destruct (ParseWith data opts) as [v|e|] eqn:E; [by eauto| |by apply ParseWith_no_fuel in E].
    right. eauto using ParseWith_code.
  - destruct (ParseInput data) as [v|e|] eqn:E; [by eauto| |by apply ParseInput_no_fuel in E].
    right. eauto using ParseInput_code.
Qed.

(** What the lenient parser accepts can be stored: the canonical file of
    the value it returns is read back by the strict parser as that value with
    its keys sorted. *)
Theorem ParseInput_storable data v :
  ParseInput data = Ok v → Parse (EncodeFile v) = Ok (canon v).
Proof. intros H%ParseInput_Ok. by apply ParseWith_EncodeFile_canon. Qed.

(** The lenient parser reads the members of an object in any order, kept
    as they come, with any whitespace around the document; so it also accepts
    every document the strict parser does. *)
Theorem ParseInput_print v sp sp' :
  str_forall isJSONSpace sp = true → str_forall isJSONSpace sp' = true →
  admissible noOptions v → ParseInput (sp +:+ print v +:+ sp') = Ok v.
Proof.
  intros Hsp Hsp' [Hf Hc]. unfold ParseInput.
  assert (check_document (sp +:+ print v +:+ sp') = None) as ->.
  { destruct sp as [|c sp].
    - rewrite app_nil_str. by eapply print_check_document; [|apply spaces_Valid].
    - unfold check_document. rewrite Valid_app; [|by apply spaces_Valid|].
      + rewrite app_cons_str. cbn [str_forall] in Hsp. apply andb_true_iff in Hsp as [Hc' _].
        revert Hc'. clear. by all_bytes c.
      + apply Valid_app; [by eapply print_Valid|by apply spaces_Valid]. }
  destruct (value_spaces (default_options noOptions) (parse_fuel (sp +:+ print v +:+ sp')) v sp sp' Hsp Hf Hc)
    as (p & Hp & Hr).
  { unfold parse_fuel. len_lia. }
  change {| WideArrayKey := ε; WideArrayMax := MaxJSONArrayElements; MaxNodes := MaxJSONNodes |}
    with (default_options noOptions). rewrite Hp. cbn [obind].
  destruct p as [r ? ? ? ?]. cbn [rest] in Hr. subst r.
  rewrite <-(app_str_nil sp'), ws_spaces by done. done.
Qed.

(** A value with its keys out of order, and its encoding. *)
Definition sample : Value :=
  VObject [("b", VArray [VString "x"; VNull]); ("a", VBool true)].

Lemma sample_admissible : admissible noOptions sample.
Proof.
  split; [|by vm_compute]. unfold sample.
  assert (∀ s, str_exists (notPlain true) s = false → clean true s) as Hc.
  { intros s H. apply plainASCII_clean. unfold plainASCII. by rewrite H. }
  constructor; [done|apply (bool_decide_unpack _); vm_compute; done| |].
  - repeat constructor; by apply Hc.
  - repeat constructor; try done; by apply Hc.
Qed.

Lemma Parse_EncodeFile_witness :
  Parse (EncodeFile sample) = Ok (VObject [("a", VBool true); ("b", VArray [VString "x"; VNull])]).
Proof. exact (Parse_EncodeFile sample sample_admissible). Defined.

Lemma ParseInput_storable_witness : Parse (EncodeFile sample) = Ok (canon sample).
Proof. apply (ParseInput_storable (print sample)). vm_compute. reflexivity. Defined.

Lemma ParseInput_print_witness : ParseInput (" " +:+ print sample +:+ str1 newline) = Ok sample.
Proof. apply (ParseInput_print sample " " (str1 newline)); [reflexivity|reflexivity|exact sample_admissible]. Defined.
