(* ===== verification/ParseExact.v ===== *)
(** * Why a strict document can differ from its encoding

    A strict parse that succeeds on bytes without a backslash has read exactly
    the printed form of its value, so only an unsorted object can then make
    the re-encoding differ: the classification [ParseWith] reports. *)

From S2P Require Import Prelude Utf8 GoStd Codes Value Canonical Primitives.
From S2P Require Import PrimitivesSpec Parse ParseTotal ParsePrint ParseSound ParseDoc.
Local Open Scope Z_scope.
Local Open Scope go_scope.

(** No escape sequence anywhere. *)
Definition unescaped (s : string) : Prop := str_exists (λ c, c =b backslash) s = false.

Lemma unescaped_app a b : unescaped (a +:+ b) ↔ unescaped a ∧ unescaped b.
Proof. unfold unescaped. rewrite str_exists_app. apply orb_false_iff. Qed.

Lemma unescaped_cons c s : unescaped (String c s) → unescaped s.
Proof. unfold unescaped. simpl. by intros [_ ?]%orb_false_iff. Qed.

Lemma str_exact c q p s p' :
  rest p = String c q → c = dquote → unescaped q → str p = Ok (s, p') →
  rest p = quote s +:+ rest p'.
Proof.
  intros Hr -> Hq. unfold str. rewrite Hr.
  pose proof (str_span_app (λ c, negb (escapedByte c)) q) as Hsp.
  pose proof (str_span_forall (λ c, negb (escapedByte c)) q) as Hrun.
  pose proof (str_span_stop (λ c, negb (escapedByte c)) q) as Hstop.
  destruct (str_span _ q) as [run r]. simpl in Hsp, Hrun, Hstop. cbv beta iota zeta.
  subst q. apply unescaped_app in Hq as [_ Hq]. intros H. destruct r as [|d r']; [done|].
  specialize (Hstop _ _ eq_refl). destruct (d =b dquote) eqn:Hd.
  - apply Ascii.eqb_eq in Hd as ->.
    assert (s = run ∧ rest p' = r') as [-> ->] by (parse_inv; done).
    unfold quote. rewrite escaped_plain by done. by autorewrite with str.
  - exfalso. cbn [str_loop rest advance] in H. rewrite Hd in H.
    unfold unescaped in Hq. simpl in Hq. apply orb_false_iff in Hq as [Hb _]. rewrite Hb in H.
    assert ((code d <? 0x20) = true) as Hlt.
    { unfold escapedByte in Hstop. rewrite Hd, Hb, !orb_false_r in Hstop. by destruct (code d <? 0x20). }
    by rewrite Hlt in H.
Qed.

Lemma str_first p s p' :
  first_is dquote (rest p) = true → unescaped (rest p) → str p = Ok (s, p') →
  rest p = quote s +:+ rest p'.
Proof.
  intros Hf Hu H. destruct (rest p) as [|c q] eqn:E; [done|]. rewrite <-E.
  eapply str_exact; [done| |by eapply unescaped_cons|done]. by apply Ascii.eqb_eq.
Qed.

Lemma literal_exact lit v p w p' :
  literal lit v p = Ok (w, p') → w = v ∧ lit +:+ rest p' = rest p.
Proof.
  unfold literal. intros H. destruct (strip_prefix lit (rest p)) as [r|] eqn:E; [|done].
  apply strip_prefix_Some in E. by parse_inv.
Qed.

Section exact.
Context (opts : ParseOptions).

Definition exact_value k : Prop := ∀ p v p',
  value opts false k p = Ok (v, p') → unescaped (rest p) → rest p = print v +:+ rest p'.
Definition exact_members k : Prop := ∀ o p v p',
  members opts false k o p = Ok (v, p') → unescaped (rest p) → NoDup (Keys o) →
  ∃ kvs, v = VObject (o ++ kvs) ∧ kvs ≠ [] ∧ NoDup (Keys (o ++ kvs)) ∧
    rest p = strings.Join (print_member <$> kvs) "," +:+ String "}" (rest p').
Definition exact_elements k : Prop := ∀ b a p v p',
  elements opts false k b a p = Ok (v, p') → unescaped (rest p) →
  ∃ vs, v = VArray (a ++ vs) ∧ vs ≠ [] ∧ rest p = strings.Join (print <$> vs) "," +:+ String "]" (rest p').

Ltac exact_states :=
  repeat match goal with
  | H : node _ _ = Ok _ |- _ => apply node_rest in H
  | H : enter _ = Ok _ |- _ => apply enter_rest in H
  end; unfold ws in *; cbn [rest advance leave set_wide] in *.

(** The bytes after the ones a step has taken hold no escape either. *)
Ltac unescaped_tail :=
  repeat match goal with
  | H : unescaped (rest ?p), E : rest ?p = _ |- _ => rewrite E in H
  | H : unescaped (String _ _) |- _ => apply unescaped_cons in H
  | H : unescaped (_ +:+ _) |- _ => apply unescaped_app in H as [? H]
  end.

Lemma exact_value_step k : exact_members k → exact_elements k → exact_value (S k).
Proof.
  unfold exact_value, exact_members, exact_elements. intros IHm IHe p v p' H Hu.
  rewrite value_S in H. unfold value_body in H. parse_inv; exact_states.
  all: repeat match goal with
    | H : (_ =b _) = true |- _ => apply Ascii.eqb_eq in H; subst end.
  all: match goal with H : rest ?p = _, E : rest _ = String _ _, Hu : unescaped (rest ?q) |- rest ?q = _ =>
      try (rewrite H in E); rewrite E in Hu |- *; apply unescaped_cons in Hu as Ht end.
  all: try match goal with
    | H : members _ _ _ _ _ = _ |- _ =>
        apply IHm in H as (kvs & -> & _ & _ & Hk); [|done|constructor];
        cbn [print app NewObject]; autorewrite with str; f_equal; exact Hk
    | H : elements _ _ _ _ _ _ = _ |- _ =>
        apply IHe in H as (vs & -> & _ & Hk); [|done];
        cbn [print app]; autorewrite with str; f_equal; exact Hk
    | H : literal _ _ _ = _ |- _ => apply literal_exact in H as [-> H]; cbn [print]; congruence
    | H : str _ = _ |- _ => cbn [print]; eapply str_exact in H; [congruence|etransitivity; eassumption|done..]
    end; try done.
Qed.

(** One member of an object. *)
Lemma member_exact k p s p0 s0 w v p1 : exact_value k →
  str p = Ok (s, p0) → first_is dquote (rest p) = true → unescaped (rest p) →
  rest p0 = String ":" s0 → value opts false k (set_wide w (advance 1 s0 p0)) = Ok (v, p1) →
  rest p = print_member (s, v) +:+ rest p1 ∧ unescaped (rest p1).
Proof.
  unfold exact_value. intros IHv Hs Hf Hu Hr Hv. apply str_first in Hs; [|done..]. rewrite Hs, Hr in Hu.
  apply unescaped_app in Hu as [_ Hu%unescaped_cons]. apply IHv in Hv; [|done].
  cbn [rest set_wide advance] in Hv. subst s0. apply unescaped_app in Hu as [_ Hu].
  split; [|done]. rewrite Hs, Hr. unfold print_member. by autorewrite with str.
Qed.

Lemma exact_members_step k : exact_value k → exact_members k → exact_members (S k).
Proof.
  unfold exact_value, exact_members. intros IHv IHm o p v p' H Hu Hnd.
  rewrite members_S in H. unfold members_body in H. parse_inv; exact_states.
  all: bool_hyps; rewrite ?bool_decide_eq_false in *; subst.
  all: match goal with H : ¬ is_Some (Get ?o ?k) |- _ =>
         apply eq_None_not_Some, Get_None in H; rewrite (Set_new _ _ _ H) in * end.
  all: assert (NoDup (Keys (o ++ [(s, v0)]))) as Hnd' by by apply NoDup_Keys_snoc.
  - destruct (member_exact k p s p0 s0 _ v0 p1 IHv ltac:(done) ltac:(done) Hu ltac:(done) ltac:(done)) as [Hp Hu1].
    rewrite Heqs1 in *. apply unescaped_cons in Hu1.
    match goal with H : members _ _ _ _ _ = _ |- _ => apply IHm in H as (kvs & -> & Hne & Hn & Hk); [|done..] end.
    rewrite <-app_assoc in *. exists ((s, v0) :: kvs). split; [done|]. split; [done|]. split; [done|].
    cbn [rest set_wide advance] in Hk. rewrite Hp, Hk, fmap_cons, Join_cons.
    destruct kvs as [|kv kvs]; [done|].
    rewrite fmap_cons. by autorewrite with str.
  - destruct (member_exact k p s p0 s0 _ v0 p1 IHv ltac:(done) ltac:(done) Hu ltac:(done) ltac:(done)) as [Hp Hu1].
    exists [(s, v0)]. split; [done|]. split; [done|]. split; [done|]. rewrite Hp, Heqs1. by autorewrite with str.
Qed.

Lemma exact_elements_step k : exact_value k → exact_elements k → exact_elements (S k).
Proof.
  unfold exact_value, exact_elements. intros IHv IHe b a p v p' H Hu.
  rewrite elements_S in H. unfold elements_body in H. parse_inv; exact_states; bool_hyps; subst.
  all: match goal with H : value _ _ _ _ = _ |- _ => apply IHv in H as Hp; [|done] end.
  all: rewrite Hp in Hu; apply unescaped_app in Hu as [_ Hu].
  all: match goal with E : rest _ = String _ _ |- _ => rewrite E in *; apply unescaped_cons in Hu end.
  - match goal with H : elements _ _ _ _ _ _ = _ |- _ => apply IHe in H as (vs & -> & Hne & Hk); [|done] end.
    rewrite <-app_assoc. exists (v0 :: vs). split; [done|]. split; [done|].
    cbn [rest advance] in Hk. rewrite Hp, Hk, fmap_cons, Join_cons.
    destruct vs as [|v' vs]; [done|]. rewrite fmap_cons. by autorewrite with str.
  - exists [v0]. split; [done|]. split; [done|]. rewrite Hp. by autorewrite with str.
Qed.

Lemma parse_exact k : exact_value k ∧ exact_members k ∧ exact_elements k.
Proof.
  induction k as [|k (IHv & IHm & IHe)]; [done|].
  auto using exact_value_step, exact_members_step, exact_elements_step.
Qed.

Lemma value_exact k p v p' :
  value opts false k p = Ok (v, p') → unescaped (rest p) → rest p = print v +:+ rest p'.
Proof. destruct (parse_exact k) as (H & _). apply H. Qed.
End exact.

(** ** The keys that are out of order *)

Lemma adjacent_unsorted_spec ks :
  adjacent_unsorted ks = false ↔ StronglySorted (λ x y, String.leb x y = true) ks.
Proof.
  induction ks as [|a ks IH]; [split; [constructor|done]|]. destruct ks as [|b ks].
  { split; [repeat constructor|done]. }
  cbn [adjacent_unsorted] in *. rewrite orb_false_iff, IH, ltb_leb, negb_false_iff. split.
  - intros [Hab Hs]. constructor; [done|]. constructor; [done|]. inv Hs.
    eapply Forall_impl; [eassumption|]. intros c. simpl. by apply leb_trans.
  - intros Hs. inv Hs as [|? ? Hs' Hf]. by inv Hf.
Qed.

(** Some object of the value has its keys out of order. *)
Lemma unsortedKeys_spec v : ∀ path, unsortedKeys v path = None ↔ sorted_keys v.
Proof.
  induction v as [|b|s|vs IH|o IH] using Value_rect_Forall; intros path; try (split; [constructor|done]).
  - cbn [unsortedKeys]. transitivity (Forall sorted_keys vs); [|split; [by constructor|by inversion 1]].
    generalize 0. induction IH as [|v vs Hv _ IHvs]; intros i; [done|].
    rewrite Forall_cons, <-(Hv (path +:+ "/" +:+ itoa i)), <-(IHvs (i + 1)).
    destruct (unsortedKeys v _); [split; [done|intros [? _]; done]|]. tauto.
  - cbn [unsortedKeys].
    transitivity (StronglySorted (λ x y, String.leb x y = true) (Keys o) ∧ Forall (λ kv, sorted_keys kv.2) o).
    2:{ split; [intros []; by constructor|by inversion 1]. }
    rewrite <-adjacent_unsorted_spec. destruct (adjacent_unsorted (Keys o)); [split; [done|intros [? _]; done]|].
    transitivity (Forall (λ kv, sorted_keys kv.2) o); [|tauto].
    induction IH as [|[k v] o Hv _ IHo]; [done|]. simpl in Hv.
    rewrite Forall_cons, <-(Hv (path +:+ "/" +:+ k)), <-IHo. simpl.
    destruct (unsortedKeys v _); [split; [done|intros [? _]; done]|]. tauto.
Qed.

(** The strict parse of a body, before the re-encoding is compared. *)
Definition strict_parse (opts : ParseOptions) (body : string) (v : Value) : Prop :=
  ∃ p, value (default_options opts) false (parse_fuel body) (start body) = Ok (v, p) ∧ rest p = ε.

(** A document that parses strictly and holds no escape sequence is
    refused for its encoding only because of the order of its keys: it is
    accepted exactly when every object's keys are sorted, and otherwise the
    failure names the object whose keys are not.  So the fallback that blames
    a string's escape form is reached only by a document with a backslash. *)
Theorem ParseWith_blames_order opts body v :
  check_document (body +:+ str1 newline) = None → strict_parse opts body v → unescaped body →
  match unsortedKeys v ε with
  | None => ParseWith (body +:+ str1 newline) opts = Ok v
  | Some path => ∃ off, ParseWith (body +:+ str1 newline) opts =
      Err (Errorf CodeMalformed (byte_where off) "non-canonical key order: the keys of the object at %q must be sorted in UTF-8 byte order" [AStr path])
  end.
Proof.
  intros Hc (p & Hp & Hr) Hu. unfold ParseWith. rewrite Hc, HasSuffixByte_snoc, strings.init_snoc.
  cbn [negb]. rewrite Hp. cbn [obind]. rewrite Hr. cbn [negb String.eqb].
  destruct (String.eqb_spec (appendValue ε v) body) as [He|Hne]; cbn [negb].
  - apply reencoded_sorted in Hp as [_ Hs]; [|done]. by apply (unsortedKeys_spec v ε) in Hs as ->.
  - destruct (unsortedKeys v ε) eqn:Hk; [by eexists|]. apply unsortedKeys_spec in Hk.
    exfalso. apply Hne. apply value_exact in Hp as Hx; [|done].
    pose proof (value_sound _ _ (WideArrayMax_default opts) _ _ _ _ Hp) as [Hf _].
    cbn [rest start] in Hx. rewrite Hr, app_str_nil in Hx.
    rewrite appendValue_eq, app_nil_str, enc_print by (done || by eapply fits_distinct). done.
Qed.

Lemma ParseWith_blames_order_witness :
  let q := str1 dquote in
  ∃ off, ParseWith (("{" +:+ q +:+ "b" +:+ q +:+ ":null," +:+ q +:+ "a" +:+ q +:+ ":null}") +:+ str1 newline) noOptions =
    Err (Errorf CodeMalformed (byte_where off) "non-canonical key order: the keys of the object at %q must be sorted in UTF-8 byte order" [AStr "/"]).
Proof.
  intros q. apply (ParseWith_blames_order noOptions
    ("{" +:+ q +:+ "b" +:+ q +:+ ":null," +:+ q +:+ "a" +:+ q +:+ ":null}")
    (VObject [("b", VNull); ("a", VNull)])); [reflexivity| |reflexivity].
  eexists. split; vm_compute; reflexivity.
Defined.
