(* ===== verification/Reader.v ===== *)
(** * The closed-object reader

    [reader.go] of [src/internal/tasks/wire].  A reader is a value and its
    location; the readers of one document share a state that holds the first
    failure.  An operation runs in the monad [M] over that state.

    [NewSetSortingReader] also sorts the sets it reads in place, in the value
    it was created over.  Here [Array] hands its caller the sorted elements;
    the sorted value that the caller re-encodes is not modelled. *)

From S2P Require Import Prelude Utf8 GoStd Codes Value Primitives Ids.
From S2P Require Import Parse.
Local Open Scope Z_scope.
Local Open Scope go_scope.

Record readerState := mkState { err : option Error; sortSets : bool }.

Record Reader := mkReader { rv : Value; rwhere : string }.

(** ** The monad of reads *)

Definition M (A : Type) : Type := readerState → A * readerState.

#[global] Instance M_ret : MRet M := λ A a s, (a, s).
#[global] Instance M_bind : MBind M := λ A B k m s, let '(a, s) := m s in k a s.

(** [r.st.err != nil] *)
Definition failed : M bool := λ s, (bool_decide (is_Some (err s)), s).

(** [r.Err()] *)
Definition first_error : M (option Error) := λ s, (err s, s).

Definition fail_with (e : Error) : M unit := λ s,
  match err s with
  | None => (tt, mkState (Some e) (sortSets s))
  | Some _ => (tt, s)
  end.

(** [NewReader]: the reader, and the state its document starts in. *)
Definition NewReader (v : Value) (where_ : string) : Reader :=
  mkReader v (if where_ =s ε then "/" else where_).

Definition st0 : readerState := mkState None false.

Definition sorting_st0 : readerState := mkState None true.

(** [r.Err()] at the end of a decoder that returned [a]. *)
Definition run {A} (m : M A) (s : readerState) : res A :=
  let '(a, s) := m s in
  match err s with Some e => Err e | None => Ok a end.

Definition Fail (r : Reader) (code format : string) (args : list fmtarg) : M unit :=
  fail_with (Errorf code (rwhere r) format args).

Definition child (r : Reader) (v : Value) (seg : string) : Reader :=
  let w := if rwhere r =s "/" then ε else rwhere r in
  mkReader v (w +:+ "/" +:+ seg).

Definition kindArg (v : Value) : fmtarg := AStr (Kind_String (kind v)).

(** ** Objects *)

(** The parts of the message for the missing and the unknown keys. *)
Definition closed_parts (missing unknown : list string) : list string :=
  (if (0 <? length missing)%nat then ["missing keys: " +:+ strings.Join missing ", "] else []) ++
  (if (0 <? length unknown)%nat then ["unknown keys: " +:+ strings.Join unknown ", "] else []).

Definition Closed (r : Reader) (keys : list string) : M unit :=
  e ← failed;
  if (e : bool) then mret tt
  else match rv r with
  | VObject o =>
      let missing := filter (λ k, Get o k = None) keys in
      let unknown := SortStrings (filter (λ k, k ∉ keys) (Keys o)) in
      if (0 <? length missing)%nat || (0 <? length unknown)%nat then
        Fail r CodeMalformed "closed object violated (%s)"
          [AStr (strings.Join (closed_parts missing unknown) "; ")]
      else mret tt
  | v => Fail r CodeMalformed "expected object, got %s" [kindArg v]
  end.

Definition Field (r : Reader) (key : string) : M Reader :=
  e ← failed;
  if (e : bool) then mret (child r VNull key)
  else match rv r with
  | VObject o =>
      match Get o key with
      | Some v => mret (child r v key)
      | None => _ ← Fail r CodeMalformed "missing key %q" [AStr key]; mret (child r VNull key)
      end
  | v => _ ← Fail r CodeMalformed "expected object, got %s" [kindArg v]; mret (child r VNull key)
  end.

Definition IsNull (r : Reader) : bool := match rv r with VNull => true | _ => false end.

(** ** Scalars *)

Definition String_ (r : Reader) : M string :=
  e ← failed;
  if (e : bool) then mret ε
  else match rv r with
  | VString s => mret s
  | v => _ ← Fail r CodeMalformed "expected string, got %s" [kindArg v]; mret ε
  end.

Definition Bool_ (r : Reader) : M bool :=
  e ← failed;
  if (e : bool) then mret false
  else match rv r with
  | VBool b => mret b
  | v => _ ← Fail r CodeMalformed "expected boolean, got %s" [kindArg v]; mret false
  end.

Definition Enum (r : Reader) (allowed : list string) : M string :=
  s ← String_ r;
  e ← failed;
  if (e : bool) then mret ε
  else if existsb (String.eqb s) allowed then mret s
  else _ ← Fail r CodeMalformed "value %q not in {%s}" [AStr s; AStr (strings.Join allowed "|")]; mret ε.

Definition Exact (r : Reader) (want : string) : M string := Enum r [want].

(** [r.adopt(err)]: the errors adopted here are all [*Error]s. *)
Definition adopt (e : option Error) : M unit :=
  match e with Some e => fail_with e | None => mret tt end.

(** [r.Profile(want)] returns the reader's first error. *)
Definition Profile (r : Reader) (want : string) : M (option Error) :=
  let w := if rwhere r =s "/" then ε else rwhere r in
  _ ← adopt (ProfileVersion (w +:+ "/profile") (rv r) want);
  first_error.

(** A string field whose text [parse] validates; the zero value on failure. *)
Definition parsed {A} (zero : A) (parse : string → string → res A) (r : Reader) : M A :=
  s ← String_ r;
  e ← failed;
  if (e : bool) then mret zero
  else match parse (rwhere r) s with
  | Ok a => mret a
  | Err e => _ ← adopt (Some e); mret zero
  | OutOfFuel => mret zero
  end.

Definition Count (r : Reader) : M string := parsed ε ParseCount r.
Definition Size (r : Reader) : M string := parsed ε ParseSize r.
Definition Digest (r : Reader) : M string := parsed ε ParseDigest r.
Definition OID (r : Reader) : M string := parsed ε ParseOID r.
Definition Identifier (r : Reader) : M string := parsed ε ParseIdentifier r.
Definition PathText (r : Reader) : M string := parsed ε ParsePathText r.
Definition Label (r : Reader) : M string := parsed ε ParseLabel r.
Definition Prose (r : Reader) (min max : Z) : M string := parsed ε (λ w s, ParseProse w s min max) r.
Definition Path (r : Reader) : M string := parsed ε ParsePath r.
Definition Timestamp (r : Reader) : M string := parsed ε ParseTimestamp r.
Definition Reader_TicketID (r : Reader) : M TicketID := parsed zeroTicketID ParseTicketID r.
Definition Reader_QueueID (r : Reader) : M QueueID := parsed zeroQueueID ParseQueueID r.

(** The field read by [m], or null. *)
Definition or_null {A} (m : Reader → M A) (r : Reader) : M (option A) :=
  e ← failed;
  if (e : bool) || IsNull r then mret None
  else
    a ← m r;
    e ← failed;
    if (e : bool) then mret None else mret (Some a).

Definition DigestOrNull : Reader → M (option string) := or_null Digest.
Definition LabelOrNull : Reader → M (option string) := or_null Label.
Definition ProseOrNull (max : Z) : Reader → M (option string) := or_null (λ r, Prose r 0 max).
Definition TimestampOrNull : Reader → M (option string) := or_null Timestamp.
Definition CountOrNull : Reader → M (option string) := or_null Count.
Definition SizeOrNull : Reader → M (option string) := or_null Size.
Definition Reader_StringOrNull (fn : Reader → M string) : Reader → M (option string) := or_null fn.

(** ** Arrays *)

(** The readers of the elements, from index [i]. *)
Fixpoint children (r : Reader) (i : Z) (vs : list Value) : list Reader :=
  match vs with
  | [] => []
  | v :: vs' => child r v (itoa i) :: children r (i + 1) vs'
  end.

(** [max < 0] is unbounded; a non-semantic array must be a set, or is sorted
    when the document is read in the sorting mode. *)
Definition Array_ (r : Reader) (max : Z) (semantic : bool) : M (list Reader) :=
  e ← failed;
  if (e : bool) then mret []
  else match rv r with
  | VArray vs =>
      if (0 <=? max) && (max <? Z.of_nat (length vs)) then
        _ ← Fail r CodeLimitExceeded "array longer than %d elements (%d)"
              [AInt max; AInt (Z.of_nat (length vs))];
        mret []
      else if semantic then mret (children r 0 vs)
      else λ s,
        if sortSets s then
          match SortedSet (rwhere r) vs with
          | Ok (VArray ws) => (children r 0 ws, s)
          | Err e => let '(_, s) := adopt (Some e) s in ([], s)
          | _ => ([], s)
          end
        else
          match CheckSortedUnique (rwhere r) vs with
          | Some e => let '(_, s) := adopt (Some e) s in ([], s)
          | None => (children r 0 vs, s)
          end
  | v => _ ← Fail r CodeMalformed "expected array, got %s" [kindArg v]; mret []
  end.

(** The loop of [Strings]: [None] is the early [return nil]. *)
Fixpoint strings_loop {A} (fn : Reader → M A) (items : list Reader) : M (option (list A)) :=
  match items with
  | [] => mret (Some [])
  | it :: items' =>
      s ← fn it;
      e ← failed;
      if (e : bool) then mret None
      else
        out ← strings_loop fn items';
        mret (cons s <$> out)
  end.

Definition Reader_Strings (r : Reader) (max : Z) (semantic : bool) (fn : Reader → M string) : M (list string) :=
  items ← Array_ r max semantic;
  e ← failed;
  if (e : bool) then mret []
  else
    out ← strings_loop fn items;
    mret (default [] out).
