(* ===== verification/ReaderSpec.v ===== *)
(** * What the reader promises

    Every operation is [Sticky]: once a failure is recorded nothing changes
    the state.  So a decoder's result counts only when every step succeeded,
    and [ok m a], that [m] succeeds with [a], splits over the steps. *)

From S2P Require Import Prelude Utf8 GoStd Codes Value Canonical Primitives Ids.
From S2P Require Import SetsSpec PrimitivesSpec IdsSpec Parse Reader.
Local Open Scope Z_scope.
Local Open Scope go_scope.

(** ** Stickiness *)

(** The promise of an operation of the reader to the decoders built from it:
    after a failure it changes nothing, and it never changes the mode. *)
Class Sticky {A} (m : M A) : Prop := {
  sticky s : is_Some (err s) → (m s).2 = s;
  keeps_mode s : sortSets (m s).2 = sortSets s
}.

#[global] Instance Sticky_ret {A} (a : A) : Sticky (mret a : M A).
Proof. done. Qed.

#[global] Instance Sticky_bind {A B} (m : M A) (k : A → M B) :
  Sticky m → (∀ a, Sticky (k a)) → Sticky (m ≫= k).
Proof.
  intros Hm Hk. split; intros s; unfold mbind, M_bind.
  - intros Hs. pose proof (sticky (m := m) s Hs) as H. destruct (m s) as [a s']. simpl in H. subst s'.
    by apply (sticky (m := k a)).
  - pose proof (keeps_mode (m := m) s) as H. destruct (m s) as [a s']. simpl in H. rewrite <-H.
    apply (keeps_mode (m := k a)).
Qed.

#[global] Instance Sticky_failed : Sticky failed.
Proof. done. Qed.

#[global] Instance Sticky_first_error : Sticky first_error.
Proof. done. Qed.

#[global] Instance Sticky_fail_with e : Sticky (fail_with e).
Proof. split; intros [[e'|] b]; simpl; try done; by intros [? ?]. Qed.

#[global] Instance Sticky_if {A} (b : bool) (m m' : M A) : Sticky m → Sticky m' → Sticky (if b then m else m').
Proof. by destruct b. Qed.

#[global] Instance Sticky_outcome {A B} (x : res A) (f : A → M B) (g : Error → M B) (h : M B) :
  (∀ a, Sticky (f a)) → (∀ e, Sticky (g e)) → Sticky h →
  Sticky (match x with Ok a => f a | Err e => g e | OutOfFuel => h end).
Proof. by destruct x. Qed.

#[global] Instance Sticky_option {A B} (x : option A) (f : A → M B) (h : M B) :
  (∀ a, Sticky (f a)) → Sticky h → Sticky (match x with Some a => f a | None => h end).
Proof. by destruct x. Qed.

#[global] Instance Sticky_Fail r c f a : Sticky (Fail r c f a) := Sticky_fail_with _.

#[global] Instance Sticky_adopt e : Sticky (adopt e).
Proof. destruct e; apply _. Qed.

#[global] Instance Sticky_Closed r keys : Sticky (Closed r keys).
Proof. unfold Closed. apply Sticky_bind; [apply _|]. intros []; [apply _|]. destruct (rv r); apply _. Qed.

#[global] Instance Sticky_Field r key : Sticky (Field r key).
Proof.
  unfold Field. apply Sticky_bind; [apply _|]. intros []; [apply _|]. destruct (rv r); apply _.
Qed.

#[global] Instance Sticky_String r : Sticky (String_ r).
Proof. unfold String_. apply Sticky_bind; [apply _|]. intros []; [apply _|]. destruct (rv r); apply _. Qed.

#[global] Instance Sticky_Bool r : Sticky (Bool_ r).
Proof. unfold Bool_. apply Sticky_bind; [apply _|]. intros []; [apply _|]. destruct (rv r); apply _. Qed.

#[global] Instance Sticky_Enum r allowed : Sticky (Enum r allowed).
Proof. unfold Enum. apply _. Qed.

#[global] Instance Sticky_Exact r want : Sticky (Exact r want) := Sticky_Enum _ _.

#[global] Instance Sticky_Profile r want : Sticky (Profile r want).
Proof. unfold Profile. apply _. Qed.

#[global] Instance Sticky_parsed {A} (zero : A) parse r : Sticky (parsed zero parse r).
Proof.
  unfold parsed. apply _.
Qed.

#[global] Instance Sticky_or_null {A} (m : Reader → M A) r : (∀ r, Sticky (m r)) → Sticky (or_null m r).
Proof. intros. unfold or_null. apply _. Qed.

#[global] Instance Sticky_Array r max semantic : Sticky (Array_ r max semantic).
Proof.
  unfold Array_. apply Sticky_bind; [apply _|]. intros []; [apply _|]. destruct (rv r); try apply _.
  destruct (_ && _); [apply _|]. destruct semantic; [apply _|].
  split; intros [[e|] []]; simpl; try done; try (by intros [? ?]); by repeat case_match.
Qed.

#[global] Instance Sticky_strings_loop {A} (fn : Reader → M A) items :
  (∀ r, Sticky (fn r)) → Sticky (strings_loop fn items).
Proof. intros. induction items; simpl; apply _. Qed.

#[global] Instance Sticky_Strings r max semantic fn : (∀ r, Sticky (fn r)) → Sticky (Reader_Strings r max semantic fn).
Proof. intros. unfold Reader_Strings. apply _. Qed.

(** ** Successful reads *)

(** [m] succeeds with [a] from the start of a document. *)
Definition ok {A} (m : M A) (a : A) : Prop := m st0 = (a, st0).

Lemma sticky_st0 {A} (m : M A) `{!Sticky m} a s : m st0 = (a, s) → err s = None → s = st0.
Proof.
  intros H Hs. pose proof (keeps_mode (m := m) st0) as Hk. rewrite H in Hk.
  destruct s as [e b]. simpl in *. by subst.
Qed.

(** The result of a decoder is the value of a successful read. *)
Lemma run_ok {A} (m : M A) `{!Sticky m} a : run m st0 = Ok a ↔ ok m a.
Proof.
  unfold run, ok. destruct (m st0) as [b s] eqn:E. split.
  - destruct (err s) eqn:Hs; [done|]. intros [= ->]. by rewrite (sticky_st0 m a s E Hs).
  - by intros [= -> ->].
Qed.

Lemma run_total {A} (m : M A) s : (∃ a, run m s = Ok a) ∨ ∃ e, run m s = Err e.
Proof. unfold run. destruct (m s) as [a s']. destruct (err s'); eauto. Qed.

Lemma ok_bind {A B} (m : M A) (k : A → M B) `{!Sticky m, !∀ a, Sticky (k a)} b :
  ok (m ≫= k) b ↔ ∃ a, ok m a ∧ ok (k a) b.
Proof.
  unfold ok, mbind, M_bind. destruct (m st0) as [a s] eqn:E. split.
  - intros Hk. assert (s = st0) as ->; [|eauto]. apply (sticky_st0 m a s E).
    destruct (err s) as [e|] eqn:Hs; [|done]. exfalso.
    pose proof (sticky (m := k a) s ltac:(by rewrite Hs)) as Hst. rewrite Hk in Hst. simpl in Hst.
    by rewrite <-Hst in Hs.
  - by intros (? & [= -> ->] & ?).
Qed.

Lemma ok_ret {A} (a b : A) : ok (mret a) b ↔ a = b.
Proof. unfold ok, mret, M_ret. split; [by intros [= ->]|by intros ->]. Qed.

Lemma ok_failed {A} (k : bool → M A) a : ok (failed ≫= k) a ↔ ok (k false) a.
Proof. done. Qed.

Lemma ok_Fail {A} r c f args (k : unit → M A) `{!∀ u, Sticky (k u)} a :
  ¬ ok (Fail r c f args ≫= k) a.
Proof. rewrite ok_bind by apply _. by intros (? & [=] & _). Qed.

Lemma ok_adopt {A} e (k : unit → M A) `{!∀ u, Sticky (k u)} a : ¬ ok (adopt (Some e) ≫= k) a.
Proof. rewrite ok_bind by apply _. by intros (? & [=] & _). Qed.

Lemma ok_Fail_last r c f args u : ¬ ok (Fail r c f args) u.
Proof. by intros [=]. Qed.

Lemma ok_String r s : ok (String_ r) s ↔ rv r = VString s.
Proof.
  unfold String_. rewrite ok_failed. destruct (rv r); try (split; [by intros []%ok_Fail|done]).
  rewrite ok_ret. split; [by intros ->|by intros [= ->]].
Qed.

Lemma ok_Bool r b : ok (Bool_ r) b ↔ rv r = VBool b.
Proof.
  unfold Bool_. rewrite ok_failed. destruct (rv r); try (split; [by intros []%ok_Fail|done]).
  rewrite ok_ret. split; [by intros ->|by intros [= ->]].
Qed.

Lemma ok_Enum r allowed s : ok (Enum r allowed) s ↔ rv r = VString s ∧ s ∈ allowed.
Proof.
  unfold Enum. rewrite ok_bind by apply _. setoid_rewrite ok_failed. setoid_rewrite ok_String.
  assert (∀ t, existsb (String.eqb t) allowed = true ↔ t ∈ allowed) as Hin.
  { intros t. rewrite existsb_exists, list_elem_of_In. split.
    - by intros (x & Hx & ->%String.eqb_eq).
    - intros H. exists t. split; [done|]. apply String.eqb_refl. }
  split.
  - intros (t & -> & H). destruct (existsb _ allowed) eqn:E; [|by apply ok_Fail in H].
    apply ok_ret in H as <-. by rewrite <-Hin.
  - intros [-> H%Hin]. exists s. split; [done|]. by rewrite H, ok_ret.
Qed.

Lemma ok_Exact r want s : ok (Exact r want) s ↔ rv r = VString want ∧ s = want.
Proof.
  unfold Exact. rewrite ok_Enum, list_elem_of_singleton. split; [by intros [? ->]|by intros [? ->]].
Qed.

Lemma ok_parsed {A} (zero : A) parse r a :
  ok (parsed zero parse r) a ↔ ∃ s, rv r = VString s ∧ (parse (rwhere r) s = Ok a ∨
    parse (rwhere r) s = OutOfFuel ∧ a = zero).
Proof.
  unfold parsed. rewrite ok_bind by apply _.
  setoid_rewrite ok_failed. setoid_rewrite ok_String.
  split; intros (s & Hs & H); exists s; (split; [done|]).
  - destruct (parse _ s); [apply ok_ret in H as <-; auto|by apply ok_adopt in H|apply ok_ret in H as <-; auto].
  - destruct H as [->|[-> ->]]; by apply ok_ret.
Qed.

Lemma ok_or_null {A} (m : Reader → M A) r `{!∀ r, Sticky (m r)} x :
  ok (or_null m r) x ↔
    (rv r = VNull ∧ x = None) ∨ (rv r ≠ VNull ∧ ∃ a, ok (m r) a ∧ x = Some a).
Proof.
  unfold or_null. rewrite ok_failed. unfold IsNull. simpl.
  assert (ok (a ← m r; e ← failed; if e : bool then mret None else mret (Some a)) x ↔ ∃ a, ok (m r) a ∧ x = Some a) as Hmain.
  { rewrite ok_bind by apply _. setoid_rewrite ok_failed. setoid_rewrite ok_ret.
    split; intros (a & ? & ?); exists a; auto. }
  destruct (rv r); rewrite ?ok_ret, ?Hmain; (split; [auto|]); intros [[? ?]|[? ?]]; done || auto.
Qed.

Lemma filter_empty {A} (P : A → Prop) `{∀ x, Decision (P x)} l :
  length (filter P l) = 0%nat ↔ ∀ x, x ∈ l → ¬ P x.
Proof.
  split.
  - intros Hl%nil_length_inv x Hx HP. assert (x ∈ filter P l) as Hin by by apply list_elem_of_filter.
    rewrite Hl in Hin. by apply not_elem_of_nil in Hin.
  - intros Hn. destruct (filter P l) as [|x l'] eqn:E; [done|]. exfalso.
    assert (x ∈ filter P l) as Hin by (rewrite E; by constructor).
    apply list_elem_of_filter in Hin as [HP Hx]. by apply (Hn x).
Qed.

Lemma ok_Closed r keys u :
  ok (Closed r keys) u ↔ ∃ o, rv r = VObject o ∧ ∀ k, k ∈ Keys o ↔ k ∈ keys.
Proof.
  unfold Closed. rewrite ok_failed. destruct (rv r) as [| | | |o]; try (split; [by intros []%ok_Fail_last|by intros (? & ? & _)]).
  set (missing := filter _ keys). set (unknown := SortStrings _).
  assert (length missing = 0%nat ↔ ∀ k, k ∈ keys → k ∈ Keys o) as Hm.
  { subst missing. rewrite filter_empty. setoid_rewrite assoc_None.
    split; intros H k Hk; [destruct (decide (k ∈ Keys o)); [done|exfalso; by apply (H k)]|].
    intros Hn. by apply Hn, H. }
  assert (length unknown = 0%nat ↔ ∀ k, k ∈ Keys o → k ∈ keys) as Hu.
  { subst unknown. unfold SortStrings. rewrite length_isort, filter_empty.
    split; intros H k Hk; [destruct (decide (k ∈ keys)); [done|exfalso; by apply (H k)]|].
    intros Hn. by apply Hn, H. }
  assert ((0 <? length missing)%nat || (0 <? length unknown)%nat = false ↔ length missing = 0%nat ∧ length unknown = 0%nat) as Hb.
  { rewrite orb_false_iff, !Nat.ltb_ge. lia. }
  destruct ((0 <? length missing)%nat || (0 <? length unknown)%nat).
  - split; [by intros []%ok_Fail_last|]. intros (o' & [= <-] & H).
    assert (true = false); [|done]. apply Hb. rewrite Hm, Hu. split; intros k; apply H.
  - destruct Hb as [Hb _]. specialize (Hb eq_refl). rewrite Hm, Hu in Hb. destruct Hb as [H1 H2].
    rewrite ok_ret. split; [|by destruct u]. intros _. exists o. split; [done|]. intros k. split; auto.
Qed.

Lemma ok_Field r key r' :
  ok (Field r key) r' ↔ ∃ o v, rv r = VObject o ∧ Get o key = Some v ∧ r' = child r v key.
Proof.
  unfold Field. rewrite ok_failed. destruct (rv r) as [| | | |o]; try (split; [by intros []%ok_Fail|by intros (? & ? & ? & _)]).
  destruct (Get o key) as [v|] eqn:E.
  - rewrite ok_ret. split; [intros <-; eauto|]. intros (? & ? & [= <-] & Hv & ->). congruence.
  - split; [by intros []%ok_Fail|]. intros (? & ? & [= <-] & Hv & ->). congruence.
Qed.

Lemma ok_Array r max semantic rs :
  ok (Array_ r max semantic) rs ↔ ∃ vs, rv r = VArray vs ∧ (max < 0 ∨ Z.of_nat (length vs) ≤ max) ∧
    (semantic = true ∨ StronglySorted before vs) ∧ rs = children r 0 vs.
Proof.
  unfold Array_. rewrite ok_failed. destruct (rv r) as [| | |vs|]; try (split; [by intros []%ok_Fail|by intros (? & ? & _)]).
  destruct ((0 <=? max) && (max <? Z.of_nat (length vs))) eqn:Hb.
  { split; [by intros []%ok_Fail|]. intros (? & [= <-] & ? & _). bool_hyps. lia. }
  apply andb_false_iff in Hb. assert (max < 0 ∨ Z.of_nat (length vs) ≤ max) as Hmax.
  { destruct Hb; bool_hyps; lia. }
  destruct semantic.
  - rewrite ok_ret. split; [intros <-; exists vs; auto|]. by intros (? & [= <-] & _ & _ & ->).
  - unfold ok. simpl. destruct (CheckSortedUnique (rwhere r) vs) eqn:E.
    + split; [by intros [=]|]. intros (? & [= <-] & _ & [?|H] & _); [done|].
      apply (CheckSortedUnique_sorted (rwhere r)) in H. congruence.
    + split; [|by intros (? & [= <-] & _ & _ & ->)]. intros [= <-]. exists vs.
      apply CheckSortedUnique_sorted in E. auto.
Qed.

Lemma ok_strings_loop {A} (fn : Reader → M A) items (Hfn : ∀ r, Sticky (fn r)) out :
  ok (strings_loop fn items) out ↔ ∃ ss, out = Some ss ∧ Forall2 (λ r s, ok (fn r) s) items ss.
Proof.
  revert out; induction items as [|it items IH]; intros out; simpl.
  - rewrite ok_ret. split; [intros <-; by exists []|]. intros (ss & -> & H). by inv H.
  - rewrite ok_bind by apply _. setoid_rewrite ok_failed.
    setoid_rewrite ok_bind; [|apply _..]. setoid_rewrite ok_ret. setoid_rewrite IH. split.
    + intros (s & Hs & ? & (ss & -> & Hss) & <-). exists (s :: ss). split; [done|by constructor].
    + intros (ss & -> & H). inv H as [|? s ? ss' Hs Hss]. exists s. split; [done|]. exists (Some ss').
      split; [eauto|done].
Qed.

Lemma ok_Strings r max semantic fn (Hfn : ∀ r, Sticky (fn r)) ss :
  ok (Reader_Strings r max semantic fn) ss ↔ ∃ vs, rv r = VArray vs ∧ (max < 0 ∨ Z.of_nat (length vs) ≤ max) ∧
    (semantic = true ∨ StronglySorted before vs) ∧ Forall2 (λ r s, ok (fn r) s) (children r 0 vs) ss.
Proof.
  unfold Reader_Strings. rewrite ok_bind by apply _. setoid_rewrite ok_failed.
  setoid_rewrite ok_bind; [|apply _..]. setoid_rewrite ok_ret. setoid_rewrite ok_strings_loop; [|done].
  setoid_rewrite ok_Array. split.
  - intros (? & (vs & Hv & Hm & Hs & ->) & ? & (ss' & -> & H) & <-). exists vs. auto.
  - intros (vs & Hv & Hm & Hs & H). exists (children r 0 vs). split; [eauto 10|].
    exists (Some ss). split; [|done]. eauto.
Qed.

Lemma ok_Profile r want e :
  ok (Profile r want) e ↔
    e = None ∧ ProfileVersion ((if rwhere r =s "/" then ε else rwhere r) +:+ "/profile") (rv r) want = None.
Proof.
  unfold Profile. rewrite ok_bind by apply _. destruct (ProfileVersion _ _ _).
  - split; [by intros (? & [=] & _)|by intros [_ ?]].
  - split; [|intros [-> _]; by exists tt]. intros (u & _ & H). unfold ok, first_error in H. by injection H as <-.
Qed.

(** ** Objects read and written

    Lemmas shared by the decoders: when two objects have the same canonical
    form, what the text fields hold, and the tactic that takes a successful
    decoder apart. *)

From S2P Require Import ParseTotal ParsePrint.

(** ** Objects up to the order of their members *)

Lemma assoc_elem_of {A} (l : list (string * A)) k a :
  NoDup l.*1 → (k, a) ∈ l ↔ assoc k l = Some a.
Proof. intros Hnd. split; [by apply assoc_Some_NoDup|apply assoc_Some]. Qed.

Lemma assoc_perm {A} (l l' : list (string * A)) :
  NoDup l.*1 → NoDup l'.*1 → (∀ k, assoc k l = assoc k l') → l ≡ₚ l'.
Proof.
  intros Hl Hl' H. apply NoDup_Permutation; [by eapply NoDup_fmap_1|by eapply NoDup_fmap_1|].
  intros [k a]. by rewrite !assoc_elem_of, H.
Qed.

Lemma isort_key_le_perm {A} (l l' : list (string * A)) :
  NoDup l.*1 → l ≡ₚ l' → isort key_le l = isort key_le l'.
Proof.
  intros Hnd Hp. apply (StronglySorted_unique_strong (λ x y, key_le x y = true)).
  - intros [k a] [k' b] Hx Hy H1 H2. rewrite elem_of_isort in Hx, Hy.
    assert (k = k') as <- by by apply leb_antisym. f_equal. rewrite <-Hp in Hy.
    apply assoc_Some_NoDup in Hx, Hy; [congruence|done..].
  - apply isort_StronglySorted; [apply key_le_total|apply key_le_trans].
  - apply isort_StronglySorted; [apply key_le_total|apply key_le_trans].
  - by rewrite !isort_perm.
Qed.

Lemma assoc_isort {A} (l : list (string * A)) k : NoDup l.*1 → assoc k (isort key_le l) = assoc k l.
Proof.
  intros Hnd. assert (NoDup (isort key_le l).*1) as Hnd' by by rewrite isort_perm.
  destruct (assoc k l) as [a|] eqn:E.
  - apply assoc_elem_of; [done|]. rewrite elem_of_isort. by apply assoc_Some.
  - apply assoc_None in E. apply assoc_None. by rewrite isort_perm.
Qed.

(** The members of a canonical object. *)
Lemma Get_canon o k o' :
  NoDup (Keys o) → canon (VObject o) = VObject o' → Get o' k = canon <$> Get o k.
Proof.
  intros Hnd [= <-]. unfold Get. rewrite assoc_isort, assoc_fmap; [done|]. by rewrite Keys_fmap.
Qed.

(** Two objects have the same canonical form exactly when their members have. *)
Lemma canon_object o o' :
  NoDup (Keys o) → NoDup (Keys o') →
  canon (VObject o) = canon (VObject o') ↔ ∀ k, canon <$> Get o k = canon <$> Get o' k.
Proof.
  intros Hn Hn'. split.
  - intros H k. destruct (canon (VObject o)) as [| | | |p] eqn:E; try done.
    rewrite <-(Get_canon o k p Hn E). symmetry in H. by apply Get_canon.
  - intros H. cbn [canon]. f_equal. apply isort_key_le_perm; [by rewrite Keys_fmap|].
    apply assoc_perm; [by rewrite Keys_fmap..|]. intros k. rewrite !assoc_fmap. apply H.
Qed.

Lemma Get_absent o k : k ∉ Keys o → Get o k = None.
Proof. apply assoc_None. Qed.

(** Objects with the same listed keys, compared at those keys. *)
Lemma canon_object_keys ks o o' :
  NoDup (Keys o) → NoDup (Keys o') →
  (∀ k, k ∈ Keys o ↔ k ∈ ks) → (∀ k, k ∈ Keys o' ↔ k ∈ ks) →
  Forall (λ k, canon <$> Get o k = canon <$> Get o' k) ks →
  canon (VObject o) = canon (VObject o').
Proof.
  intros Hn Hn' Hk Hk' H. apply canon_object; [done..|]. intros k.
  destruct (decide (k ∈ ks)) as [Hin|Hin].
  - rewrite Forall_forall in H. by apply H.
  - rewrite !Get_absent; [done|by rewrite Hk'|by rewrite Hk].
Qed.

(** Two lists of keys with the same members, decided by evaluation. *)
Lemma same_keys (l l' : list string) :
  forallb (λ k, existsb (String.eqb k) l') l && forallb (λ k, existsb (String.eqb k) l) l' = true →
  ∀ k, k ∈ l ↔ k ∈ l'.
Proof.
  intros [H H']%andb_true_iff k. rewrite forallb_forall in H, H'.
  split; intros Hk%list_elem_of_In; [specialize (H k Hk); rename H into Hx|specialize (H' k Hk); rename H' into Hx];
    apply existsb_exists in Hx as (k' & Hk' & ->%String.eqb_eq); by apply list_elem_of_In.
Qed.

Lemma distinct_member o k v : distinct (VObject o) → Get o k = Some v → distinct v.
Proof. intros H Hv. inv H as [| | | |? _ Hf]. rewrite Forall_forall in Hf. apply assoc_Some in Hv. by apply (Hf (k, v)). Qed.

(** ** Text fields *)

(** The promise of a text field's parser: it returns the text it accepts. *)
Class TextParser (parse : string → string → res string) : Prop := {
  text_same w s t : parse w s = Ok t → t = s;
  text_fuel w s : parse w s ≠ OutOfFuel
}.

Ltac text_parser :=
  split; intros w s; [intros t|]; cbv zeta beta delta [parseText ParseCount ParseSize ParseDigest ParseOID ParseIdentifier
    ParseLabel ParseProse ParsePathText ParsePath ParseTimestamp ParseDate ParseToken]; repeat case_match; congruence.

#[global] Instance Count_text : TextParser ParseCount. Proof. text_parser. Qed.
#[global] Instance Size_text : TextParser ParseSize. Proof. text_parser. Qed.
#[global] Instance Digest_text : TextParser ParseDigest. Proof. text_parser. Qed.
#[global] Instance OID_text : TextParser ParseOID. Proof. text_parser. Qed.
#[global] Instance Identifier_text : TextParser ParseIdentifier. Proof. text_parser. Qed.
#[global] Instance Label_text : TextParser ParseLabel. Proof. text_parser. Qed.
#[global] Instance Prose_text min max : TextParser (λ w s, ParseProse w s min max). Proof. text_parser. Qed.
#[global] Instance PathText_text : TextParser ParsePathText. Proof. text_parser. Qed.
#[global] Instance Path_text : TextParser ParsePath. Proof. text_parser. Qed.
#[global] Instance Timestamp_text : TextParser ParseTimestamp. Proof. text_parser. Qed.

Lemma ok_text parse `{!TextParser parse} r s :
  ok (parsed ε parse r) s ↔ rv r = VString s ∧ parse (rwhere r) s = Ok s.
Proof.
  rewrite ok_parsed. split.
  - intros (t & Hr & [H|[H _]]); [|by apply text_fuel in H]. by apply text_same in H as Hs; subst t.
  - intros [Hr H]. exists s. auto.
Qed.

Lemma ok_text_or_null parse `{!TextParser parse} r x :
  ok (or_null (parsed ε parse) r) x ↔
    rv r = StringOrNull x ∧ match x with Some s => parse (rwhere r) s = Ok s | None => True end.
Proof.
  rewrite ok_or_null by apply _. setoid_rewrite ok_text; [|done]. split.
  - intros [[-> ->]|(_ & s & [-> Hs] & ->)]; done.
  - intros [-> H]. destruct x as [s|]; [right|by left]. split; [done|]. by exists s.
Qed.

(** What a text field that was read holds. *)
Section text_values.
Context (r : Reader).

Lemma Count_value s : ok (Count r) s → rv r = VString s. Proof. by intros [? _]%(ok_text ParseCount). Qed.
Lemma Size_value s : ok (Size r) s → rv r = VString s. Proof. by intros [? _]%(ok_text ParseSize). Qed.
Lemma Digest_value s : ok (Digest r) s → rv r = VString s. Proof. by intros [? _]%(ok_text ParseDigest). Qed.
Lemma OID_value s : ok (OID r) s → rv r = VString s. Proof. by intros [? _]%(ok_text ParseOID). Qed.
Lemma Identifier_value s : ok (Identifier r) s → rv r = VString s. Proof. by intros [? _]%(ok_text ParseIdentifier). Qed.
Lemma Timestamp_value s : ok (Timestamp r) s → rv r = VString s. Proof. by intros [? _]%(ok_text ParseTimestamp). Qed.
Lemma Prose_value min max s : ok (Prose r min max) s → rv r = VString s.
Proof. by intros [? _]%(ok_text (λ w s, ParseProse w s min max)). Qed.

Lemma CountOrNull_value x : ok (CountOrNull r) x → rv r = StringOrNull x.
Proof. by intros [? _]%(ok_text_or_null ParseCount). Qed.
Lemma SizeOrNull_value x : ok (SizeOrNull r) x → rv r = StringOrNull x.
Proof. by intros [? _]%(ok_text_or_null ParseSize). Qed.
Lemma DigestOrNull_value x : ok (DigestOrNull r) x → rv r = StringOrNull x.
Proof. by intros [? _]%(ok_text_or_null ParseDigest). Qed.
Lemma OIDOrNull_value x : ok (Reader_StringOrNull OID r) x → rv r = StringOrNull x.
Proof. by intros [? _]%(ok_text_or_null ParseOID). Qed.
End text_values.

(** ** Arrays of strings *)

Lemma rv_child r v seg : rv (child r v seg) = v.
Proof. done. Qed.

Lemma children_strings (fn : Reader → M string) r ss : ∀ i vs,
  (∀ r s, ok (fn r) s → rv r = VString s) →
  Forall2 (λ r s, ok (fn r) s) (children r i vs) ss → vs = VString <$> ss.
Proof.
  induction ss as [|s ss IH]; intros i [|v vs] Hfn H; inv H; [done|].
  rewrite fmap_cons. f_equal; [by eapply (Hfn (child r v (itoa i)))|by eapply IH].
Qed.

Lemma ok_Strings_value r max semantic fn ss :
  (∀ r, Sticky (fn r)) → (∀ r s, ok (fn r) s → rv r = VString s) →
  ok (Reader_Strings r max semantic fn) ss →
  rv r = Strings ss ∧ (max < 0 ∨ Z.of_nat (length ss) ≤ max) ∧
  (semantic = true ∨ StronglySorted before (VString <$> ss)).
Proof.
  intros Hst Hfn (vs & Hv & Hm & Hs & H)%ok_Strings; [|done].
  apply children_strings in H as ->; [|done].
  rewrite length_fmap in Hm. done.
Qed.

Lemma ok_Strings_Forall (P : string → Prop) r max semantic fn ss :
  (∀ r, Sticky (fn r)) → (∀ r s, ok (fn r) s → P s) →
  ok (Reader_Strings r max semantic fn) ss → Forall P ss.
Proof.
  intros Hst Hfn (vs & _ & _ & _ & H)%ok_Strings; [|done].
  induction H; constructor; eauto.
Qed.

Lemma canon_Strings ss : canon (Strings ss) = Strings ss.
Proof. apply canon_id. constructor. apply Forall_fmap, Forall_forall. intros; constructor. Qed.

Lemma canon_StringOrNull x : canon (StringOrNull x) = StringOrNull x.
Proof. by destruct x. Qed.

Lemma Strings_inj a b : Strings a = Strings b → a = b.
Proof.
  intros [= H]. revert b H. induction a as [|x a IH]; intros [|y b] H; try done.
  rewrite !fmap_cons in H. injection H as -> H. by rewrite (IH b).
Qed.

Lemma StringOrNull_inj a b : StringOrNull a = StringOrNull b → a = b.
Proof. destruct a, b; intros H; try discriminate H; [by injection H as ->|done]. Qed.

(** ** Taking a decoder apart *)

Ltac ok_step :=
  match goal with
  | H : ok (mret _) _ |- _ => rewrite ok_ret in H
  | H : ok (failed ≫= _) _ |- _ => rewrite ok_failed in H; cbv beta iota in H
  | H : ok (_ ≫= _) _ |- _ => rewrite ok_bind in H by apply _; destruct H as (? & ? & H)
  | H : ok (Field _ _) _ |- _ => rewrite ok_Field in H; destruct H as (? & ? & ? & ? & ->)
  | H : ok (Closed _ _) _ |- _ => rewrite ok_Closed in H; destruct H as (? & ? & ?)
  | H : ok (Exact _ _) _ |- _ => rewrite ok_Exact in H; destruct H as [? ->]
  | H : ok (Enum _ _) _ |- _ => rewrite ok_Enum in H; destruct H as [? ?]
  | H : ok (String_ _) _ |- _ => rewrite ok_String in H
  | H : ok (Bool_ _) _ |- _ => rewrite ok_Bool in H
  | H : ok (Count _) _ |- _ => apply Count_value in H
  | H : ok (Size _) _ |- _ => apply Size_value in H
  | H : ok (Digest _) _ |- _ => apply Digest_value in H
  | H : ok (OID _) _ |- _ => apply OID_value in H
  | H : ok (Identifier _) _ |- _ => apply Identifier_value in H
  | H : ok (Timestamp _) _ |- _ => apply Timestamp_value in H
  | H : ok (CountOrNull _) _ |- _ => apply CountOrNull_value in H
  | H : ok (SizeOrNull _) _ |- _ => apply SizeOrNull_value in H
  | H : ok (DigestOrNull _) _ |- _ => apply DigestOrNull_value in H
  | H : ok (Reader_StringOrNull OID _) _ |- _ => apply OIDOrNull_value in H
  | H : ok (Fail _ _ _ _) _ |- _ => by apply ok_Fail_last in H
  end;
  repeat match goal with
  | H : context [rv (child ?r ?v ?s)] |- _ => change (rv (child r v s)) with v in H
  end; cbv beta in *.
Ltac ok_inv := repeat ok_step.
