(* ===== verification/Result.v ===== *)
(** * Command results

    [result.go] and [facets.go] of [src/internal/tasks/wire]: the envelope
    every command writes, its encoder, and the decoder that checks it. *)

From S2P Require Import Prelude Utf8 GoStd Codes Value Primitives Ids.
From S2P Require Import Parse Reader.
Local Open Scope Z_scope.
Local Open Scope go_scope.

(** ** Facet counts *)

Definition FacetStatuses : list string := ["DRAFT"; "OPEN"; "HELD"; "COMPLETED"; "ARCHIVED"].
Definition FacetPriorities : list string := ["P0"; "P1"; "P2"; "P3"].
Definition FacetKinds : list string := ["FEATURE"; "BUG"; "CHORE"; "SPIKE"; "DOC"; "MANUAL"; "EXTERNAL"].
Definition FacetExecutionClasses : list string := ["AUTONOMOUS"; "APPROVAL_REQUIRED"; "MANUAL"; "EXTERNAL"; "NEVER"].
Definition FacetEligibilities : list string := ["BLOCKED"; "UNKNOWN"].
Definition FacetLifecycles : list string :=
  ["ARCHIVED"; "AWAITING_CLOSEOUT"; "AWAITING_INTEGRATION"; "COMPLETED"; "DRAFT"; "HELD"; "IN_PROGRESS";
   "IN_REVIEW"; "OPEN"; "SUBMITTED"; "UNKNOWN"].
Definition FacetNextActions : list string :=
  ["admit"; "answer"; "complete-manual"; "cutover"; "grant-approval"; "refine"; "release-hold"; "reopen";
   "restore"; "set-dependencies"; "set-effects"; "wait-attempt"; "wait-dependency"].

Definition MaxFacetOpenKeys : Z := 64.

(** The loop of [facetCounts] over the keys, with the sum so far.  The sum is
    an [int64] in the code; it has at most [MaxJSONNodes] terms of at most
    [MaxCountValue] each, so it does not wrap. *)
Fixpoint facetCounts_loop (f : Reader) (total : Z) (open_ : bool) (key : string → bool) (sum : Z)
    (ks : list string) : M Z :=
  match ks with
  | [] => mret sum
  | k :: ks' =>
      c ← Field f k;
      if negb (key k) then _ ← Fail c CodeMalformed "unknown facet key %q" [AStr k]; mret 0
      else
        n ← Count c;
        let n := Count_Int n in
        e ← failed;
        if (e : bool) then mret 0
        else if (total <? n) || (open_ && (n =? 0)) then
          _ ← Fail c CodeMalformed "count %d outside 1..total %d" [AInt n; AInt total]; mret 0
        else facetCounts_loop f total open_ key (sum + n) ks'
  end.

(** [key] is the constant [true] where the code passes [nil]. *)
Definition facetCounts (f : Reader) (total : Z) (open_ : bool) (key : string → bool) : M Z :=
  e ← failed;
  if (e : bool) then mret 0
  else match rv f with
  | VObject o => facetCounts_loop f total open_ key 0 (Keys o)
  | v => _ ← Fail f CodeMalformed "expected object, got %s" [kindArg v]; mret 0
  end.

(** Without a failure [f] is an object, [facetCounts] having read it. *)
Definition facetCap (r f : Reader) (omittedKey : string) : M unit :=
  om ← Field r omittedKey; c ← Count om;
  let omitted := Count_Int c in
  e ← failed;
  if (e : bool) then mret tt
  else match rv f with
  | VObject o =>
      let n := Z.of_nat (length (Keys o)) in
      if (MaxFacetOpenKeys <? n) || ((0 <? omitted) && negb (n =? MaxFacetOpenKeys)) then
        Fail f CodeMalformed "%d keys with %s %d (cap %d)"
          [AInt n; AStr omittedKey; AInt omitted; AInt MaxFacetOpenKeys]
      else mret tt
  | _ => mret tt
  end.

(** [if sum := facetCounts(f, total, ...); err == nil && sum != total { f.Fail }] *)
Definition summed (f : Reader) (total : Z) (open_ : bool) (key : string → bool) : M unit :=
  sum ← facetCounts f total open_ key;
  e ← failed;
  if negb (e : bool) && negb (sum =? total) then
    Fail f CodeMalformed "counts sum to %d, not total %d" [AInt sum; AInt total]
  else mret tt.

Fixpoint closed_maps (r : Reader) (total : Z) (maps : list (string * list string)) : M unit :=
  match maps with
  | [] => mret tt
  | (key, enum) :: maps' =>
      f ← Field r key;
      _ ← Closed f enum;
      _ ← summed f total false (λ _, true);
      closed_maps r total maps'
  end.

Definition isLabel (k : string) : bool :=
  match ParseLabel ε k with Ok _ => true | _ => false end.

Definition facetKeys : list string :=
  ["total"; "byStatus"; "byPriority"; "byKind"; "byExecutionClass"; "byEligibility";
   "byNextAction"; "byBlockerCode"; "byMilestone"; "milestonesOmitted"; "withoutMilestone";
   "byLabel"; "labelsOmitted"].

Definition facetClosedMaps : list (string * list string) :=
  [("byStatus", FacetStatuses); ("byPriority", FacetPriorities); ("byKind", FacetKinds);
   ("byExecutionClass", FacetExecutionClasses); ("byEligibility", FacetEligibilities)].

Definition decodeFacets (r : Reader) : M unit :=
  let lifecycle := Has (rv r) "byLifecycle" in
  let keys := if lifecycle then facetKeys ++ ["byLifecycle"] else facetKeys in
  let maps := if lifecycle then facetClosedMaps ++ [("byLifecycle", FacetLifecycles)] else facetClosedMaps in
  _ ← Closed r keys;
  e ← failed;
  if (e : bool) then mret tt
  else
    t ← Field r "total"; c ← Count t;
    let total := Count_Int c in
    _ ← closed_maps r total maps;
    next ← Field r "byNextAction";
    _ ← summed next total true (λ k, existsb (String.eqb k) FacetNextActions);
    blockers ← Field r "byBlockerCode";
    _ ← facetCounts blockers total true IsCode;
    wm ← Field r "withoutMilestone"; c ← Count wm;
    let without := Count_Int c in
    milestones ← Field r "byMilestone";
    sum ← facetCounts milestones total true isLabel;
    _ ← facetCap r milestones "milestonesOmitted";
    e ← failed;
    _ ← (if negb (e : bool) && (total <? without + sum) then
           Fail milestones CodeMalformed "milestone counts and withoutMilestone exceed total %d" [AInt total]
         else mret tt);
    labels ← Field r "byLabel";
    _ ← facetCounts labels total true isLabel;
    facetCap r labels "labelsOmitted".

(** ** The envelope *)

Definition ProfileCommandResult : string := "taskman-command-result/0".
Definition UntrustedQueueData : string := "UNTRUSTED_QUEUE_DATA".

Record BarrierRef := { Scope : string; Reason : string }.

Record Snapshot := {
  HeadSeq : option string;
  HeadReceiptSha256 : option string;
  IntentTreeSha256 : option string;
  PrimaryWorktreeSha256 : option string;
  PendingRedo : bool;
  Barrier : option BarrierRef
}.

Record Page := { Offset : string; Limit : string; Total : option string; Truncated : bool }.

(** An absent slice and an empty one are the same list. *)
Record Result := mkResult {
  Command : list string;
  Outcome : string;
  ResultCodes : list string;
  ResultSnapshot : option Snapshot;
  Mutation : option Value;
  Items : list Value;
  ResultPage : option Page;
  Untrusted : bool;
  Warnings : list string;
  Facets : option Value;
  ResultNotRetryable : bool;
  ResultMaxNodes : Z
}.

Definition sizeOrNull (p : option string) : Value := StringOrNull p.
Definition digestOrNull (p : option string) : Value := StringOrNull p.
Definition countOrNull (p : option string) : Value := StringOrNull p.

(** The loop of [sortedUniqueStrings]: the strings kept are those seen. *)
Fixpoint unique_strings (out ss : list string) : list string :=
  match ss with
  | [] => out
  | s :: ss' => if bool_decide (s ∈ out) then unique_strings out ss' else unique_strings (out ++ [s]) ss'
  end.

Definition sortedUniqueStrings (ss : list string) : list string := SortStrings (unique_strings [] ss).

Definition Barrier_Value (b : BarrierRef) : Value :=
  VObject (Set_ (Set_ NewObject "scope" (VString (Scope b))) "reason" (VString (Reason b))).

Definition Snapshot_Value (s : Snapshot) : Value :=
  let o := NewObject in
  let o := Set_ o "headSeq" (sizeOrNull (HeadSeq s)) in
  let o := Set_ o "headReceiptSha256" (digestOrNull (HeadReceiptSha256 s)) in
  let o := Set_ o "intentTreeSha256" (digestOrNull (IntentTreeSha256 s)) in
  let o := Set_ o "primaryWorktreeSha256" (digestOrNull (PrimaryWorktreeSha256 s)) in
  let o := Set_ o "pendingRedo" (VBool (PendingRedo s)) in
  let o := Set_ o "barrier" (match Barrier s with None => VNull | Some b => Barrier_Value b end) in
  VObject o.

Definition Page_Value (p : Page) : Value :=
  let o := NewObject in
  let o := Set_ o "offset" (VString (Offset p)) in
  let o := Set_ o "limit" (VString (Limit p)) in
  let o := Set_ o "total" (countOrNull (Total p)) in
  let o := Set_ o "truncated" (VBool (Truncated p)) in
  VObject o.

(** [r.Value()] *)
Definition Result_Value (r : Result) : Value :=
  let o := NewObject in
  let o := Set_ o "profile" (VString ProfileCommandResult) in
  let o := Set_ o "command" (Strings (Command r)) in
  let o := Set_ o "outcome" (VString (Outcome r)) in
  let o := Set_ o "codes" (Strings (sortedUniqueStrings (ResultCodes r))) in
  let '(retryable, present) := ResultRetryable (Outcome r) (ResultCodes r) in
  let o := if present then Set_ o "retryable" (VBool (retryable && negb (ResultNotRetryable r))) else o in
  let o := Set_ o "snapshot" (match ResultSnapshot r with None => VNull | Some s => Snapshot_Value s end) in
  let o := Set_ o "mutation" (default VNull (Mutation r)) in
  let o := Set_ o "items" (VArray (Items r)) in
  let o := Set_ o "page" (match ResultPage r with None => VNull | Some p => Page_Value p end) in
  let o := Set_ o "untrusted" (Strings (if Untrusted r then [UntrustedQueueData] else [])) in
  let o := Set_ o "warnings" (Strings (sortedUniqueStrings (Warnings r))) in
  let o := match Facets r with Some f => Set_ o "facets" f | None => o end in
  VObject o.

Definition HasCode (r : option Result) (code : string) : bool :=
  match r with None => false | Some r => existsb (String.eqb code) (ResultCodes r) end.

(** ** Decoding *)

Definition MaxResultNodes : Z := MaxJSONNodes + 64 * MaxTicketsPerQueue.

Definition decodeBarrier (b : Reader) : M (option BarrierRef) :=
  if IsNull b then mret None
  else
    _ ← Closed b ["scope"; "reason"];
    f ← Field b "scope"; scope ← Enum f ["ADMISSION"; "ALL"];
    f ← Field b "reason"; reason ← Enum f ["CUTOVER"; "EMERGENCY"; "DRAIN"; "OPERATOR"];
    mret (Some {| Scope := scope; Reason := reason |}).

Definition decodeSnapshot (sn : Reader) : M (option Snapshot) :=
  if IsNull sn then mret None
  else
    _ ← Closed sn ["headSeq"; "headReceiptSha256"; "intentTreeSha256"; "primaryWorktreeSha256"; "pendingRedo"; "barrier"];
    f ← Field sn "headSeq"; headSeq ← SizeOrNull f;
    f ← Field sn "headReceiptSha256"; headReceipt ← DigestOrNull f;
    f ← Field sn "intentTreeSha256"; intentTree ← DigestOrNull f;
    f ← Field sn "primaryWorktreeSha256"; worktree ← DigestOrNull f;
    f ← Field sn "pendingRedo"; redo ← Bool_ f;
    b ← Field sn "barrier"; barrier ← decodeBarrier b;
    mret (Some {| HeadSeq := headSeq; HeadReceiptSha256 := headReceipt; IntentTreeSha256 := intentTree;
                  PrimaryWorktreeSha256 := worktree; PendingRedo := redo; Barrier := barrier |}).

Definition decodePage (pg : Reader) : M (option Page) :=
  if IsNull pg then mret None
  else
    _ ← Closed pg ["offset"; "limit"; "total"; "truncated"];
    f ← Field pg "offset"; offset ← Count f;
    f ← Field pg "limit"; limit ← Count f;
    f ← Field pg "total"; total ← CountOrNull f;
    f ← Field pg "truncated"; truncated ← Bool_ f;
    mret (Some {| Offset := offset; Limit := limit; Total := total; Truncated := truncated |}).

(** A code of the closed set. *)
Definition decodeCode (c : Reader) : M string :=
  s ← String_ c;
  e ← failed;
  _ ← (if negb (e : bool) && negb (IsCode s) then Fail c CodeMalformed "unknown code %q" [AStr s] else mret tt);
  mret s.

Definition isObject (v : Value) : bool := match v with VObject _ => true | _ => false end.

(** [retryable]: what it makes of [NotRetryable]. *)
Definition decodeRetryable (rd : Reader) (v : Value) (outcome_ : string) (codes : list string) : M bool :=
  if Has v "retryable" then
    f ← Field rd "retryable"; got ← Bool_ f;
    let '(want, present) := ResultRetryable outcome_ codes in
    e ← failed;
    _ ← (if negb (e : bool) && negb present then
           f ← Field rd "retryable";
           Fail f CodeMalformed "retryable is present only on a non-OK result with codes" []
         else if negb (e : bool) && got && negb want then
           f ← Field rd "retryable";
           Fail f CodeMalformed "retryable is true but a code is not retryable" []
         else mret tt);
    mret (present && want && negb got)
  else mret false.

Definition decodeMutation (m : Reader) : M (option Value) :=
  if IsNull m then mret None
  else
    _ ← (if negb (isObject (rv m)) then Fail m CodeMalformed "mutation must be an object or null" [] else mret tt);
    mret (Some (rv m)).

Fixpoint decodeItems (items : list Reader) : M (list Value) :=
  match items with
  | [] => mret []
  | it :: items' =>
      _ ← (if negb (isObject (rv it)) then Fail it CodeMalformed "items must be objects" [] else mret tt);
      vs ← decodeItems items';
      mret (rv it :: vs)
  end.

Definition decodeResultFacets (rd : Reader) (v : Value) : M (option Value) :=
  if Has v "facets" then
    f ← Field rd "facets";
    _ ← (if negb (isObject (rv f)) then Fail f CodeMalformed "facets must be an object" [] else decodeFacets f);
    mret (Some (rv f))
  else mret None.

Definition resultKeys : list string :=
  ["profile"; "command"; "outcome"; "codes"; "snapshot"; "mutation"; "items"; "page"; "untrusted"; "warnings"].

Definition resultOptionalKeys : list string := ["retryable"; "facets"].

(** The reads of [decodeResult] after its profile and closed-key checks. *)
Definition decodeResultBody (rd : Reader) (v : Value) : M Result :=
  f ← Field rd "profile"; p ← String_ f;
  _ ← adopt (CheckProfile "/profile" p ProfileCommandResult);
  f ← Field rd "command"; command ← Reader_Strings f (-1) true Identifier;
  f ← Field rd "outcome"; outcome_ ← Enum f [OutcomeOK; OutcomeRefused; OutcomeError; OutcomeNotRun];
  f ← Field rd "codes"; codes ← Reader_Strings f (-1) false decodeCode;
  notRetryable ← decodeRetryable rd v outcome_ codes;
  sn ← Field rd "snapshot"; snapshot ← decodeSnapshot sn;
  m ← Field rd "mutation"; mutation ← decodeMutation m;
  f ← Field rd "items"; its ← Array_ f (-1) true; items ← decodeItems its;
  pg ← Field rd "page"; page ← decodePage pg;
  f ← Field rd "untrusted"; ut ← Reader_Strings f 1 false (λ c, Exact c UntrustedQueueData);
  f ← Field rd "warnings"; warnings ← Reader_Strings f (-1) false (λ c, Prose c 1 MaxProseBytes);
  facets ← decodeResultFacets rd v;
  mret (mkResult command outcome_ codes snapshot mutation items page (length ut =? 1)%nat warnings facets
          notRetryable 0).

(** [rd.Profile] and then [rd.Closed], each followed by a return on failure. *)
Definition decodeResultReader (rd : Reader) (v : Value) : M Result :=
  let zero := mkResult [] ε [] None None [] None false [] None false 0 in
  e ← Profile rd ProfileCommandResult;
  match e with
  | Some _ => mret zero
  | None =>
      _ ← Closed rd (OptionalKeys v resultKeys resultOptionalKeys);
      e ← failed;
      if (e : bool) then mret zero else decodeResultBody rd v
  end.

Definition decodeResult (data : string) (opts : ParseOptions) : res Result :=
  let* v := ParseWith data opts in
  run (decodeResultReader (NewReader v "/") v) st0.

Definition DecodeResult (data : string) : res Result := decodeResult data noOptions.

Definition withMaxNodes (n : Z) : ParseOptions :=
  {| WideArrayKey := ε; WideArrayMax := 0; MaxNodes := n |}.

Definition DecodeResultLimit (data : string) (maxNodes : Z) : res Result :=
  if (maxNodes <? 1) || (MaxResultNodes <? maxNodes) then
    Err (Errorf CodeLimitExceeded "/" "decoded-node bound %d outside 1..%d" [AInt maxNodes; AInt MaxResultNodes])
  else decodeResult data (withMaxNodes maxNodes).

(** ** Encoding *)

Definition itemBytes (items : list Value) : Z := foldl (λ n it, n + slen (Encode it) + 1) 0 items.

(** [r.Encode()] *)
Definition Result_Encode (r : Result) : res string :=
  if MaxResultNodes <? ResultMaxNodes r then
    Err (Errorf CodeLimitExceeded "/" "decoded-node bound %d above %d" [AInt (ResultMaxNodes r); AInt MaxResultNodes])
  else
    let v := Result_Value r in
    let* _ := decodeResult (EncodeFile v) (withMaxNodes (ResultMaxNodes r)) in
    let n := itemBytes (Items r) in
    if MaxListResultBytes <? n then
      Err (Errorf CodeLimitExceeded "/items" "list result larger than %d bytes" [AInt MaxListResultBytes])
    else
      let full := EncodeFile v in
      if MaxCommandResultBytes <? slen full - n then
        Err (Errorf CodeLimitExceeded "/" "command result envelope larger than %d bytes" [AInt MaxCommandResultBytes])
      else Ok full.
