(* ===== verification/ResultSpec.v ===== *)
(** * What a command result carries

    Encoding a result and decoding the bytes gives the result back, its
    codes and warnings sorted; and an envelope that was decoded encodes to the
    bytes it was read from. *)

From S2P Require Import Prelude Utf8 GoStd Codes Value Canonical Primitives Ids.
From S2P Require Import SetsSpec PrimitivesSpec IdsSpec Parse ParseTotal ParsePrint.
From S2P Require Import ParseSound ParseDoc Reader ReaderSpec Result.
Local Open Scope Z_scope.
Local Open Scope go_scope.

#[global] Instance Sticky_decodeBarrier b : Sticky (decodeBarrier b).
Proof. unfold decodeBarrier. apply _. Qed.

#[global] Instance Sticky_decodeSnapshot sn : Sticky (decodeSnapshot sn).
Proof. unfold decodeSnapshot. apply _. Qed.

#[global] Instance Sticky_decodePage pg : Sticky (decodePage pg).
Proof. unfold decodePage. apply _. Qed.

#[global] Instance Sticky_decodeCode c : Sticky (decodeCode c).
Proof. unfold decodeCode. apply _. Qed.

#[global] Instance Sticky_decodeRetryable rd v out codes : Sticky (decodeRetryable rd v out codes).
Proof. unfold decodeRetryable. destruct (ResultRetryable out codes). apply _. Qed.

#[global] Instance Sticky_decodeMutation m : Sticky (decodeMutation m).
Proof. unfold decodeMutation. apply _. Qed.

#[global] Instance Sticky_decodeItems items : Sticky (decodeItems items).
Proof. induction items; simpl; apply _. Qed.

#[global] Instance Sticky_facetCounts_loop f total o key ks : ∀ sum, Sticky (facetCounts_loop f total o key sum ks).
Proof. induction ks; intros sum; simpl; apply _. Qed.

#[global] Instance Sticky_facetCounts f total o key : Sticky (facetCounts f total o key).
Proof. unfold facetCounts. apply Sticky_bind; [apply _|]. intros []; [apply _|]. destruct (rv f); apply _. Qed.

#[global] Instance Sticky_summed f total o key : Sticky (summed f total o key).
Proof. unfold summed. apply _. Qed.

#[global] Instance Sticky_closed_maps r total maps : Sticky (closed_maps r total maps).
Proof. induction maps as [|[] maps IH]; simpl; apply _. Qed.

#[global] Instance Sticky_facetCap r f k : Sticky (facetCap r f k).
Proof.
  unfold facetCap. do 2 (apply Sticky_bind; [apply _|]; intros). apply Sticky_bind; [apply _|].
  intros []; [apply _|]. destruct (rv f); apply _.
Qed.

#[global] Instance Sticky_decodeFacets r : Sticky (decodeFacets r).
Proof. unfold decodeFacets. apply _. Qed.

#[global] Instance Sticky_decodeResultFacets rd v : Sticky (decodeResultFacets rd v).
Proof. unfold decodeResultFacets. apply _. Qed.

#[global] Instance Sticky_decodeResultBody rd v : Sticky (decodeResultBody rd v).
Proof. unfold decodeResultBody. apply _. Qed.

#[global] Instance Sticky_decodeResultReader rd v : Sticky (decodeResultReader rd v).
Proof. unfold decodeResultReader. apply _. Qed.

(** ** The parts of the envelope *)

Definition snapshot_value (s : option Snapshot) : Value := match s with None => VNull | Some s => Snapshot_Value s end.
Definition barrier_value (b : option BarrierRef) : Value := match b with None => VNull | Some b => Barrier_Value b end.
Definition page_value (p : option Page) : Value := match p with None => VNull | Some p => Page_Value p end.

(** Use one object for all the reads of the same reader. *)
Ltac same_object :=
  repeat match goal with
  | H : rv ?r = VObject ?o, H' : rv ?r = VObject ?o' |- _ =>
      rewrite H' in H; injection H; clear H; intros; subst
  end.

(** The goals that compare two objects member by member. *)
Ltac compare_members :=
  repeat (apply Forall_cons; split); try apply Forall_nil_2;
  cbn [Get assoc Set_ String.eqb Ascii.eqb Bool.eqb NewObject fmap option_fmap option_map];
  repeat match goal with H : Get _ _ = Some _ |- _ => rewrite H end;
  cbn [fmap option_fmap option_map].

Ltac nodup_keys := apply (bool_decide_unpack _); vm_compute; exact I.

Lemma IsNull_true r : IsNull r = true → rv r = VNull.
Proof. unfold IsNull. by destruct (rv r). Qed.

Lemma distinct_keys o : distinct (VObject o) → NoDup (Keys o).
Proof. by inversion 1. Qed.

(** [rv r] is an object with the listed keys; compare it with the object the
    record is written as. *)
Ltac same_members Hd :=
  same_object; subst;
  match goal with
  | H : rv ?r = VObject ?o, Hk : ∀ k, k ∈ Keys ?o ↔ k ∈ ?ks |- canon (rv ?r) = canon ?v =>
      rewrite H in Hd |- *; apply (canon_object_keys ks o);
      [by apply distinct_keys|nodup_keys|done|apply same_keys; reflexivity|]
  end; compare_members; try (by subst).

Lemma decodeBarrier_ok b x :
  distinct (rv b) → ok (decodeBarrier b) x → canon (rv b) = canon (barrier_value x).
Proof.
  intros Hd H. unfold decodeBarrier in H. destruct (IsNull b) eqn:Hn.
  { apply IsNull_true in Hn. ok_inv. subst x. by rewrite Hn. }
  ok_inv. same_members Hd.
Qed.

Lemma decodeSnapshot_ok sn x :
  distinct (rv sn) → ok (decodeSnapshot sn) x → canon (rv sn) = canon (snapshot_value x).
Proof.
  intros Hd H. unfold decodeSnapshot in H. destruct (IsNull sn) eqn:Hn.
  { apply IsNull_true in Hn. ok_inv. subst x. by rewrite Hn. }
  ok_inv. same_members Hd. f_equal.
  match goal with H : ok (decodeBarrier ?r) ?x |- _ => apply (decodeBarrier_ok r x); [|done] end.
  by eapply distinct_member.
Qed.

Lemma decodePage_ok pg x :
  distinct (rv pg) → ok (decodePage pg) x → canon (rv pg) = canon (page_value x).
Proof.
  intros Hd H. unfold decodePage in H. destruct (IsNull pg) eqn:Hn.
  { apply IsNull_true in Hn. ok_inv. subst x. by rewrite Hn. }
  ok_inv. same_members Hd.
Qed.

Lemma ok_if {A} (b : bool) r c f args (k : unit → M A) `{Hst : !∀ u, Sticky (k u)} a :
  ok ((if b then Fail r c f args else mret tt) ≫= k) a ↔ b = false ∧ ok (k tt) a.
Proof.
  destruct b; [split; [by intros []%ok_Fail|by intros [? _]]|].
  split; [intros Hb; rewrite ok_bind in Hb by apply _; destruct Hb as ([] & _ & Hb); done|].
  intros [_ Hb]. rewrite ok_bind by apply _. exists tt. done.
Qed.

Lemma decodeCode_ok c s : ok (decodeCode c) s → rv c = VString s ∧ IsCode s = true.
Proof.
  unfold decodeCode. intros H. ok_inv. subst. split; [done|].
  match goal with H : ok (if _ then _ else _) _ |- _ => revert H end.
  simpl. destruct (IsCode s); [done|]. by intros []%ok_Fail_last.
Qed.

Lemma decodeMutation_ok m x :
  ok (decodeMutation m) x → rv m = default VNull x ∧ match x with Some v => isObject v = true | None => True end.
Proof.
  unfold decodeMutation. destruct (IsNull m) eqn:Hn.
  { apply IsNull_true in Hn. intros H. ok_inv. by subst. }
  intros H. rewrite ok_if in H by apply _. destruct H as [Ho H]. ok_inv. subst. simpl.
  split; [done|]. by apply negb_false_iff.
Qed.

Lemma decodeItems_ok r vs : ∀ i out,
  ok (decodeItems (children r i vs)) out → out = vs ∧ Forall (λ v, isObject v = true) vs.
Proof.
  induction vs as [|v vs IH]; intros i out H; cbn [children decodeItems] in H; [ok_inv; by subst|].
  rewrite ok_if in H by apply _. destruct H as [Ho H]. ok_inv. subst.
  match goal with H : ok (decodeItems _) _ |- _ => apply IH in H as [-> ?] end.
  split; [done|]. constructor; [by apply negb_false_iff|done].
Qed.

Lemma decodeRetryable_ok rd v o out codes x :
  rv rd = v → v = VObject o → ok (decodeRetryable rd v out codes) x →
  let '(want, present) := ResultRetryable out codes in
  (Has v "retryable" = false ∧ x = false) ∨
  present = true ∧ ∃ got, Get o "retryable" = Some (VBool got) ∧ (got = true → want = true) ∧
    x = want && negb got.
Proof.
  intros <- Hv H. unfold decodeRetryable in H. destruct (ResultRetryable out codes) as [want present].
  destruct (Has _ "retryable"); [|left; ok_inv; by subst].
  ok_inv. right. same_object. subst.
  match goal with H : ok (if _ then _ else _) _ |- _ => rename H into Hc end.
  simpl in Hc. destruct present; simpl in Hc; [|by ok_inv].
  split; [done|]. eexists. split; [done|].
  match goal with |- (?g = true → _) ∧ _ => destruct g; simpl in Hc; [destruct want; [done|simpl in Hc; by ok_inv]|] end.
  by split.
Qed.

Lemma decodeResultFacets_ok rd v o x :
  rv rd = v → v = VObject o → ok (decodeResultFacets rd v) x → x = Get o "facets".
Proof.
  intros <- Hv H. unfold decodeResultFacets, Has in H. rewrite Hv in H. case_bool_decide as Hh.
  - ok_inv. subst. same_object. done.
  - ok_inv. subst. by apply eq_None_not_Some in Hh.
Qed.

(** ** Codes and warnings *)

Lemma unique_strings_NoDup ss : ∀ out, NoDup (out ++ ss) → unique_strings out ss = out ++ ss.
Proof.
  induction ss as [|s ss IH]; intros out Hnd; simpl; [by rewrite app_nil_r|].
  rewrite bool_decide_false.
  - rewrite IH; by rewrite <-app_assoc.
  - apply NoDup_app in Hnd as (_ & Hd & _). intros Hin. apply (Hd s Hin). by constructor.
Qed.

Lemma sortedUnique_id ss :
  StronglySorted (λ x y, String.ltb x y = true) ss → sortedUniqueStrings ss = ss.
Proof.
  intros Hs. unfold sortedUniqueStrings. rewrite unique_strings_NoDup by by apply ltb_sorted_NoDup.
  apply SortStrings_sorted. eapply StronglySorted_weaken; [|exact Hs].
  intros x y _ _. cbv beta. intros Hxy. rewrite ltb_leb, negb_true_iff in Hxy. by apply leb_total.
Qed.

(** Codes are in the same order as their encodings. *)
Lemma before_codes a b : IsCode a = true → IsCode b = true → before (VString a) (VString b) → String.ltb a b = true.
Proof.
  rewrite !IsCode_spec. intros Ha Hb.
  assert (forallb (λ a, forallb (λ b, implb (String.ltb (Encode (VString a)) (Encode (VString b)))
    (String.ltb a b)) Codes) Codes = true) as H by (vm_compute; reflexivity).
  rewrite forallb_forall in H. apply list_elem_of_In in Ha, Hb. specialize (H a Ha).
  rewrite forallb_forall in H. specialize (H b Hb). unfold before. intros Hx. by rewrite Hx in H.
Qed.

(** ** The envelope *)

Lemma CheckProfile_None w got want : CheckProfile w got want = None → got = want.
Proof.
  unfold CheckProfile. destruct (String.eqb_spec got want); [done|]. by repeat case_match.
Qed.

Lemma command_ok r max ss : ok (Reader_Strings r max true Identifier) ss → rv r = Strings ss.
Proof. intros H. eapply ok_Strings_value in H as [H _]; [done|apply _|]. intros ? ?. apply Identifier_value. Qed.

Lemma codes_ok r ss :
  ok (Reader_Strings r (-1) false decodeCode) ss → rv r = Strings ss ∧ sortedUniqueStrings ss = ss.
Proof.
  intros H. apply (ok_Strings_Forall (λ s, IsCode s = true)) in H as Hc; [|apply _|by intros ? ? []%decodeCode_ok].
  apply ok_Strings_value in H as (H & _ & [|Hs]); [done| |apply _|by intros ? ? []%decodeCode_ok].
  split; [done|]. apply sortedUnique_id. apply (StronglySorted_fmap VString) in Hs.
  eapply StronglySorted_weaken; [|exact Hs]. rewrite Forall_forall in Hc.
  intros x y Hx Hy. apply before_codes; auto.
Qed.

Lemma untrusted_ok r ss :
  ok (Reader_Strings r 1 false (λ c, Exact c UntrustedQueueData)) ss →
  rv r = Strings (if (length ss =? 1)%nat then [UntrustedQueueData] else []).
Proof.
  intros H. apply (ok_Strings_Forall (λ s, s = UntrustedQueueData)) in H as Hc; [|apply _|by intros ? ? []%ok_Exact].
  apply ok_Strings_value in H as (H & [|Hl] & _); [lia| |apply _|by intros ? ? [? ->]%ok_Exact].
  rewrite H. destruct ss as [|s [|s' ss]]; simpl in *; [done| |lia]. by inv Hc.
Qed.

Lemma warnings_ok r ss :
  ok (Reader_Strings r (-1) false (λ c, Prose c 1 MaxProseBytes)) ss →
  rv r = Strings ss ∧ StronglySorted before (VString <$> ss).
Proof.
  intros H. apply ok_Strings_value in H as (H & _ & [|Hs]); [done|done|apply _|].
  intros ? ?. apply Prose_value.
Qed.

Lemma adopt_ok e u : ok (adopt e) u → e = None.
Proof. destruct e; [by intros [=]|done]. Qed.

(** What a decoded envelope holds, member by member. *)
Record envelope (o : Object) (res : Result) : Prop := {
  env_profile : Get o "profile" = Some (VString ProfileCommandResult);
  env_command : Get o "command" = Some (Strings (Command res));
  env_outcome : Get o "outcome" = Some (VString (Outcome res));
  env_codes : Get o "codes" = Some (Strings (ResultCodes res));
  env_codes_sorted : sortedUniqueStrings (ResultCodes res) = ResultCodes res;
  env_retryable : let '(want, present) := ResultRetryable (Outcome res) (ResultCodes res) in
    (Has (VObject o) "retryable" = false ∧ ResultNotRetryable res = false) ∨
    present = true ∧ ∃ got, Get o "retryable" = Some (VBool got) ∧ (got = true → want = true) ∧
      ResultNotRetryable res = want && negb got;
  env_snapshot : canon <$> Get o "snapshot" = Some (canon (snapshot_value (ResultSnapshot res)));
  env_mutation : Get o "mutation" = Some (default VNull (Mutation res));
  env_mutation_object : match Mutation res with Some v => isObject v = true | None => True end;
  env_items : Get o "items" = Some (VArray (Items res));
  env_page : canon <$> Get o "page" = Some (canon (page_value (ResultPage res)));
  env_untrusted : Get o "untrusted" = Some (Strings (if Untrusted res then [UntrustedQueueData] else []));
  env_warnings : Get o "warnings" = Some (Strings (Warnings res));
  env_warnings_sorted : StronglySorted before (VString <$> Warnings res);
  env_facets : Facets res = Get o "facets";
  env_maxnodes : ResultMaxNodes res = 0;
  env_keys k : k ∈ Keys o ↔ k ∈ OptionalKeys (VObject o) resultKeys resultOptionalKeys
}.

Lemma decodeResultReader_ok o res :
  distinct (VObject o) → ok (decodeResultReader (NewReader (VObject o) "/") (VObject o)) res → envelope o res.
Proof.
  intros Hd H. unfold decodeResultReader in H. rewrite ok_bind in H by apply _.
  destruct H as (e & He & H). rewrite ok_Profile in He. destruct He as [-> _].
  rewrite ok_bind in H by apply _. destruct H as (u & Hc & H). rewrite ok_Closed in Hc.
  destruct Hc as (o' & [= <-] & Hkeys). rewrite ok_failed in H. cbv beta iota in H.
  unfold decodeResultBody in H. ok_inv. subst res.
  repeat match goal with H : rv (NewReader _ _) = VObject _ |- _ => injection H as <- end.
  subst. repeat match goal with
  | H : ok (Reader_Strings _ _ _ Identifier) _ |- _ => apply command_ok in H
  | H : ok (Reader_Strings _ _ _ decodeCode) _ |- _ => apply codes_ok in H as [? ?]
  | H : ok (Reader_Strings _ 1 _ _) _ |- _ => apply untrusted_ok in H
  | H : ok (Reader_Strings _ _ _ (λ c, Prose c _ _)) _ |- _ => apply warnings_ok in H as [? ?]
  | H : ok (adopt (CheckProfile _ _ _)) _ |- _ =>
      apply adopt_ok, CheckProfile_None in H; subst
  | H : ok (decodeSnapshot _) _ |- _ => apply decodeSnapshot_ok in H; [|by eapply distinct_member]
  | H : ok (decodePage _) _ |- _ => apply decodePage_ok in H; [|by eapply distinct_member]
  | H : ok (decodeMutation _) _ |- _ => apply decodeMutation_ok in H as [? ?]
  | H : ok (Array_ _ _ _) _ |- _ => rewrite ok_Array in H; destruct H as (? & ? & _ & _ & ->)
  | H : ok (decodeItems (children _ _ _)) _ |- _ => apply decodeItems_ok in H as [-> _]
  | H : ok (decodeRetryable _ _ _ _) _ |- _ => eapply decodeRetryable_ok in H; [|done..]
  | H : ok (decodeResultFacets _ _) _ |- _ => eapply decodeResultFacets_ok in H; [|done..]
  end.
  repeat match goal with
  | H : context [rv (child ?r ?v ?s)] |- _ => change (rv (child r v s)) with v in H end.
  subst. constructor; cbn -[canon snapshot_value page_value ResultRetryable Has]; try done; try congruence.
  all: match goal with H : Get _ _ = Some _ |- canon <$> _ = _ => rewrite H; simpl; congruence end.
Qed.

Lemma OptionalKeys_result o b f :
  Has (VObject o) "retryable" = b → Has (VObject o) "facets" = f →
  OptionalKeys (VObject o) resultKeys resultOptionalKeys =
    resultKeys ++ (if b then ["retryable"] else []) ++ (if f then ["facets"] else []).
Proof.
  intros <- <-. unfold OptionalKeys, resultOptionalKeys. rewrite !filter_cons, filter_nil.
  destruct (Has _ "retryable"), (Has _ "facets"); repeat case_decide; congruence || done.
Qed.

(** A decoded envelope is written as it was read, if its retryable member is
    there when it should be and its warnings are in byte order. *)
Lemma envelope_canon o res :
  distinct (VObject o) → envelope o res →
  (ResultRetryable (Outcome res) (ResultCodes res)).2 = Has (VObject o) "retryable" →
  sortedUniqueStrings (Warnings res) = Warnings res →
  canon (VObject o) = canon (Result_Value res).
Proof.
  intros Hd [] Hp Hw. unfold Result_Value. rewrite env_codes_sorted0, Hw.
  destruct (ResultRetryable _ _) as [want present] eqn:Hr. cbn [snd] in Hp. subst present.
  assert (Has (VObject o) "facets" = bool_decide (is_Some (Facets res))) as Hf.
  { unfold Has. by rewrite env_facets0. }
  assert (Has (VObject o) "retryable" = true →
    Get o "retryable" = Some (VBool (want && negb (ResultNotRetryable res)))) as Hret.
  { intros Hb. destruct env_retryable0 as [[? _]|(_ & got & Hg & Hi & ->)]; [congruence|].
    rewrite Hg. destruct got; [by rewrite Hi|by destruct want]. }
  destruct (Get o "snapshot") as [sv|] eqn:Hsv; [|done]. injection env_snapshot0 as Hs.
  destruct (Get o "page") as [pv|] eqn:Hpv; [|done]. injection env_page0 as Hpg.
  destruct (Has (VObject o) "retryable") eqn:Hb, (Facets res) as [fv|] eqn:Hfv; symmetry in env_facets0;
    try specialize (Hret eq_refl);
    rewrite (OptionalKeys_result o _ _ Hb Hf) in env_keys0; cbn in env_keys0;
    (match type of env_keys0 with ∀ k, k ∈ Keys o ↔ k ∈ ?ks => apply (canon_object_keys ks o) end;
      [by apply distinct_keys|nodup_keys|done|apply same_keys; reflexivity|]).
  all: compare_members; try done; f_equal; done.
Qed.

Lemma ParseWith_object opts data v : ParseWith data opts = Ok v → distinct v ∧ canon v = v ∧ data = EncodeFile v.
Proof.
  intros (Ha & -> & Hs)%ParseWith_Ok. split; [by eapply admissible_distinct|]. by rewrite canon_id.
Qed.

Lemma decodeResult_envelope data opts res :
  decodeResult data opts = Ok res →
  ∃ o, ParseWith data opts = Ok (VObject o) ∧ envelope o res.
Proof.
  unfold decodeResult. intros (v & Hv & H)%obind_Ok. rewrite run_ok in H by apply _.
  destruct (ParseWith_object _ _ _ Hv) as (Hd & _ & _).
  assert (∃ o, v = VObject o) as [o ->].
  { unfold decodeResultReader in H. rewrite ok_bind in H by apply _. destruct H as (e & He & H).
    rewrite ok_Profile in He. destruct He as [-> _]. rewrite ok_bind in H by apply _.
    destruct H as (u & Hc & _). rewrite ok_Closed in Hc. destruct Hc as (o & Ho & _). by exists o. }
  exists o. split; [done|]. by apply decodeResultReader_ok.
Qed.

(** ** The round trip *)

(** What decoding an encoded result gives: its codes and warnings sorted, its
    opaque values with sorted keys, and the retry mark only where it counts. *)
Definition normalize (r : Result) : Result :=
  let '(want, present) := ResultRetryable (Outcome r) (ResultCodes r) in
  mkResult (Command r) (Outcome r) (sortedUniqueStrings (ResultCodes r)) (ResultSnapshot r)
    (match Mutation r with Some VNull => None | m => canon <$> m end) (canon <$> Items r) (ResultPage r) (Untrusted r)
    (sortedUniqueStrings (Warnings r)) (canon <$> Facets r)
    (present && want && ResultNotRetryable r) 0.

Lemma canon_members (o o' : Object) :
  canon (VObject o) = canon (VObject o') →
  bool_decide (NoDup (Keys o)) = true → bool_decide (NoDup (Keys o')) = true →
  ∀ k, canon <$> Get o k = canon <$> Get o' k.
Proof. intros H Hn%bool_decide_eq_true Hn'%bool_decide_eq_true. by apply canon_object. Qed.

Lemma snapshot_value_inj a b : canon (snapshot_value a) = canon (snapshot_value b) → a = b.
Proof.
  destruct a as [[h1 r1 t1 w1 p1 b1]|], b as [[h2 r2 t2 w2 p2 b2]|]; try done. intros H.
  cbv [snapshot_value Snapshot_Value page_value Page_Value] in H.
  pose proof (canon_members _ _ H eq_refl eq_refl) as Hm.
  pose proof (Hm "headSeq"%string) as H1. pose proof (Hm "headReceiptSha256"%string) as H2.
  pose proof (Hm "intentTreeSha256"%string) as H3. pose proof (Hm "primaryWorktreeSha256"%string) as H4.
  pose proof (Hm "pendingRedo"%string) as H5. pose proof (Hm "barrier"%string) as H6. clear H Hm.
  cbn in H1, H2, H3, H4, H5, H6. unfold sizeOrNull, digestOrNull in *. rewrite !canon_StringOrNull in *.
  injection H1 as ->%StringOrNull_inj. injection H2 as ->%StringOrNull_inj.
  injection H3 as ->%StringOrNull_inj. injection H4 as ->%StringOrNull_inj. injection H5 as ->.
  do 2 f_equal. destruct b1 as [[s1 x1]|], b2 as [[s2 x2]|]; try done.
  injection H6. congruence.
Qed.

Lemma page_value_inj a b : canon (page_value a) = canon (page_value b) → a = b.
Proof.
  destruct a as [[o1 l1 t1 r1]|], b as [[o2 l2 t2 r2]|]; try done. intros H.
  cbv [snapshot_value Snapshot_Value page_value Page_Value] in H.
  pose proof (canon_members _ _ H eq_refl eq_refl) as Hm.
  pose proof (Hm "offset"%string) as H1. pose proof (Hm "limit"%string) as H2.
  pose proof (Hm "total"%string) as H3. pose proof (Hm "truncated"%string) as H4. clear H Hm.
  cbn in H1, H2, H3, H4. unfold countOrNull in *. rewrite !canon_StringOrNull in *.
  injection H1 as ->. injection H2 as ->. injection H3 as ->%StringOrNull_inj. by injection H4 as ->.
Qed.

Lemma elem_of_unique ss : ∀ out s, s ∈ unique_strings out ss ↔ s ∈ out ∨ s ∈ ss.
Proof.
  induction ss as [|x ss IH]; intros out s; simpl; [set_solver|]. case_bool_decide; rewrite IH; set_solver.
Qed.

Lemma elem_of_sortedUnique ss s : s ∈ sortedUniqueStrings ss ↔ s ∈ ss.
Proof. unfold sortedUniqueStrings. rewrite SortStrings_perm, elem_of_unique. set_solver. Qed.

(** A result is retryable by the set of its codes. *)
Lemma ResultRetryable_set out a b : (∀ s, s ∈ a ↔ s ∈ b) → ResultRetryable out a = ResultRetryable out b.
Proof.
  intros H. unfold ResultRetryable.
  assert ((length a =? 0)%nat = (length b =? 0)%nat) as ->.
  { destruct a as [|x a], b as [|y b]; try done; exfalso.
    - by apply (not_elem_of_nil y), H; left.
    - by apply (not_elem_of_nil x), H; left. }
  destruct (_ || _); [done|]. f_equal. apply eq_true_iff_eq. rewrite !forallb_forall.
  split; intros Hf s Hs; apply Hf, list_elem_of_In, H, list_elem_of_In, Hs.
Qed.

Lemma VArray_canon vs v : VArray vs = canon v → ∃ ws, v = VArray ws ∧ vs = canon <$> ws.
Proof. destruct v; intros [=]. subst. by eexists. Qed.

(** The members of the value of a result. *)
Lemma Result_Value_members r : ∃ ro, Result_Value r = VObject ro ∧
  Get ro "command" = Some (Strings (Command r)) ∧ Get ro "outcome" = Some (VString (Outcome r)) ∧
  Get ro "codes" = Some (Strings (sortedUniqueStrings (ResultCodes r))) ∧
  Get ro "retryable" = (let '(want, present) := ResultRetryable (Outcome r) (ResultCodes r) in
    if present then Some (VBool (want && negb (ResultNotRetryable r))) else None) ∧
  Get ro "snapshot" = Some (snapshot_value (ResultSnapshot r)) ∧
  Get ro "mutation" = Some (default VNull (Mutation r)) ∧ Get ro "items" = Some (VArray (Items r)) ∧
  Get ro "page" = Some (page_value (ResultPage r)) ∧
  Get ro "untrusted" = Some (Strings (if Untrusted r then [UntrustedQueueData] else [])) ∧
  Get ro "warnings" = Some (Strings (sortedUniqueStrings (Warnings r))) ∧ Get ro "facets" = Facets r.
Proof.
  unfold Result_Value. destruct (ResultRetryable _ _) as [want []], (Facets r);
    (eexists; repeat split; cbn; reflexivity).
Qed.

Lemma canon_Strings_inj a b : Some (canon (Strings a)) = Some (Strings b) → b = a.
Proof. rewrite canon_Strings. intros H%(inj Some). symmetry. by apply Strings_inj. Qed.

(** The envelope's value determines the decoded result. *)
Lemma envelope_normalize o r res :
  distinct (Result_Value r) → VObject o = canon (Result_Value r) → envelope o res → res = normalize r.
Proof.
  intros Hd Ho He.
  destruct (Result_Value_members r) as (ro & Hro & M1 & M2 & M3 & M4 & M5 & M6 & M7 & M8 & M9 & M10 & M11).
  rewrite Hro in Hd, Ho. assert (∀ k, Get o k = canon <$> Get ro k) as Hg.
  { intros k. symmetry in Ho. apply Get_canon; [by apply distinct_keys|done]. }
  assert (∀ k, Has (VObject o) k = bool_decide (is_Some (Get ro k))) as Hh.
  { intros k. unfold Has. rewrite Hg. apply bool_decide_ext. by rewrite fmap_is_Some. }
  destruct He. rewrite Hg in *. rewrite Hh in *. clear Hg Hh Ho Hd env_keys0.
  rewrite M1 in *. rewrite M2 in *. rewrite M3 in *. rewrite M5 in *. rewrite M6 in *. rewrite M7 in *.
  rewrite M8 in *. rewrite M9 in *. rewrite M10 in *. rewrite M11 in *. rewrite M4 in *.
  cbn [fmap option_fmap option_map] in *.
  apply canon_Strings_inj in env_command0, env_codes0, env_untrusted0, env_warnings0.
  injection env_outcome0 as Hout. symmetry in Hout.
  rewrite !canon_idemp in *.
  injection env_snapshot0 as Hsn%snapshot_value_inj. injection env_page0 as Hpg%page_value_inj.
  injection env_items0 as Hit. injection env_mutation0 as Hmu.
  destruct res as [cmd out cs sn mu its pg un wa fa nr mn]; cbn [Command Outcome ResultCodes ResultSnapshot Mutation Items ResultPage Untrusted Warnings
    Facets ResultNotRetryable ResultMaxNodes] in *.
  assert (mu = match Mutation r with Some VNull => None | m => canon <$> m end) as Hmu'.
  { clear -Hmu env_mutation_object0. revert Hmu env_mutation_object0.
    destruct mu as [v|], (Mutation r) as [w|]; simpl; try (intros <-; simpl); try done; destruct w; by simpl. }
  clear Hmu. subst.
  unfold normalize. rewrite (ResultRetryable_set _ _ (ResultCodes r) (elem_of_sortedUnique _)) in env_retryable0.
  destruct (ResultRetryable (Outcome r) _) as [want present].
  assert (un = Untrusted r) as -> by (by destruct un, (Untrusted r)).
  f_equal.
  destruct env_retryable0 as [[Hp ->]|(-> & got & Hgot & _ & ->)].
  - destruct present; [|by simpl]. apply bool_decide_eq_false in Hp. by destruct Hp.
  - injection Hgot as <-. by destruct want, (ResultNotRetryable r).
Qed.

Lemma Result_Encode_Ok r data :
  Result_Encode r = Ok data →
  data = EncodeFile (Result_Value r) ∧ ∃ res, decodeResult data (withMaxNodes (ResultMaxNodes r)) = Ok res.
Proof.
  unfold Result_Encode. destruct (MaxResultNodes <? _); [done|]. cbv zeta.
  intros (res & Hres & H)%obind_Ok. destruct (MaxListResultBytes <? _); [done|].
  destruct (MaxCommandResultBytes <? _); [done|]. injection H as <-. split; [done|]. by exists res.
Qed.

(** C25: decoding what [Result.Encode] accepted, under the node bound the result
    carries, gives the result back up to the documented normalization: codes
    and warnings as sorted sets, opaque values with sorted keys, and the retry
    mark only where the envelope has a [retryable] member it can lower. *)
Theorem Result_Encode_decode r data :
  distinct (Result_Value r) → Result_Encode r = Ok data →
  decodeResult data (withMaxNodes (ResultMaxNodes r)) = Ok (normalize r).
Proof.
  intros Hd (-> & res & Hres)%Result_Encode_Ok. rewrite Hres. f_equal.
  apply decodeResult_envelope in Hres as (o & Hp & He).
  destruct (ParseWith_object _ _ _ Hp) as (Ho & Hc & Heq). apply EncodeFile_inj in Heq; [|done..].
  apply (envelope_normalize o); [done| |done]. by rewrite <-Hc.
Qed.

(** An accepted result is byte-exact: encoding what [decodeResult] returned
    gives the same document, when the document says [retryable] where the
    writer would and its warnings are in the writer's order. *)
Theorem decodeResult_reencode data opts res :
  decodeResult data opts = Ok res →
  (∀ o, ParseWith data opts = Ok (VObject o) →
    (ResultRetryable (Outcome res) (ResultCodes res)).2 = Has (VObject o) "retryable") →
  sortedUniqueStrings (Warnings res) = Warnings res →
  EncodeFile (Result_Value res) = data.
Proof.
  intros Hres Hp Hw. apply decodeResult_envelope in Hres as (o & Hv & He).
  destruct (ParseWith_object _ _ _ Hv) as (Hd & Hc & ->).
  assert (canon (VObject o) = canon (Result_Value res)) as Heq.
  { apply envelope_canon; [done..|by apply Hp|done]. }
  symmetry. apply EncodeFile_inj; [done| |done]. apply distinct_canon. rewrite <-Heq. by apply canon_distinct.
Qed.

(** ** Instances *)

Definition refused : Result :=
  mkResult ["list"] OutcomeRefused [CodeStaleTree; CodeMalformed]
    (Some {| HeadSeq := Some "5"; HeadReceiptSha256 := None; IntentTreeSha256 := None;
             PrimaryWorktreeSha256 := None; PendingRedo := false;
             Barrier := Some {| Scope := "ADMISSION"; Reason := "CUTOVER" |} |})
    (Some (VObject [("b", VNull); ("a", VBool true)])) [] None false ["z"; "a"; "z"] None false 0.

Definition refused_document : string := EncodeFile (Result_Value refused).

Lemma refused_distinct : distinct (Result_Value refused).
Proof.
  apply distinct_canon. eapply ParseWith_object with (opts := noOptions) (data := refused_document).
  vm_compute. reflexivity.
Qed.

Lemma Result_Encode_decode_witness :
  decodeResult refused_document (withMaxNodes 0) = Ok (normalize refused) ∧ Warnings (normalize refused) = ["a"; "z"].
Proof.
  split; [|reflexivity]. apply (Result_Encode_decode refused refused_document refused_distinct).
  vm_compute. reflexivity.
Defined.

Lemma decodeResult_reencode_witness : EncodeFile (Result_Value (normalize refused)) = refused_document.
Proof.
  apply (decodeResult_reencode refused_document noOptions (normalize refused)); [vm_compute; reflexivity| |reflexivity].
  intros o H. vm_compute in H. injection H as <-. reflexivity.
Defined.

(** Two warnings that are sorted as bytes and not as encodings: [sort.Strings]
    puts [foo] first, and the encoding of [foo] ends in a quote, which is after
    a space. Such a result cannot be encoded, though each warning is prose. *)
Definition warned : Result :=
  mkResult ["list"] OutcomeOK [] None None [] None false ["foo"; "foo bar"] None false 0.

Lemma Result_Encode_refuses_warnings :
  Forall (λ w, ParseProse "/w" w 1 MaxProseBytes = Ok w) (Warnings warned) ∧
  sortedUniqueStrings (Warnings warned) = Warnings warned ∧
  match Result_Encode warned with
  | Err e => Code e = CodeMalformed
  | _ => False
  end.
Proof. split_and!; [repeat constructor; by vm_compute|by vm_compute|by vm_compute]. Qed.

(** ** The facet summary of a list result

    What [decodeFacets] guarantees of a summary it accepts: every closed map
    has exactly the values of its enumeration as keys and its counts add up to
    the total, and so do the counts of the next actions. *)


(** The number a member stands for. *)
Definition count_of (o : Object) (k : string) : Z :=
  match Get o k with Some (VString c) => Count_Int c | _ => 0 end.

Lemma count_of_Get o k c : Get o k = Some (VString c) → count_of o k = Count_Int c.
Proof. unfold count_of. by intros ->. Qed.

Definition count_sum (o : Object) (ks : list string) : Z := foldr (λ k n, count_of o k + n) 0 ks.

(** A map of counts whose keys pass [key] and whose counts, positive ones if
    [open_], are at most [total]. *)
Definition facet_map (o : Object) (total : Z) (open_ : bool) (key : string → bool) : Prop :=
  Forall (λ k, key k = true ∧ (∃ c, Get o k = Some (VString c)) ∧
    count_of o k ≤ total ∧ (open_ = true → count_of o k ≠ 0)) (Keys o).

Lemma facetCounts_loop_ok f o total open_ key ks : rv f = VObject o → ∀ sum n,
  ok (facetCounts_loop f total open_ key sum ks) n →
  n = sum + count_sum o ks ∧
  Forall (λ k, key k = true ∧ (∃ c, Get o k = Some (VString c)) ∧
    count_of o k ≤ total ∧ (open_ = true → count_of o k ≠ 0)) ks.
Proof.
  intros Hf. induction ks as [|k ks IH]; intros sum n H; cbn [facetCounts_loop] in H.
  { ok_inv. split; [simpl; lia|constructor]. }
  rewrite ok_bind in H; [|apply _|intros; destruct (key k); simpl; apply _].
  destruct H as (c & Hc & H). rewrite ok_Field in Hc. destruct Hc as (o' & w & Ho & Hg & ->).
  assert (o' = o) as -> by congruence.
  destruct (key k) eqn:Hk; cbn [negb] in H; [|by ok_inv].
  ok_inv. match goal with H : ok (if ?b then _ else _) _ |- _ => destruct b eqn:Hb; [by ok_inv|] end.
  match goal with H : ok (facetCounts_loop _ _ _ _ _ _) _ |- _ => apply IH in H as [-> Hall] end.
  apply orb_false_iff in Hb as [Hle Hz].
  subst w. match type of Hg with _ = Some (VString ?a) =>
    assert (count_of o k = Count_Int a) as Hco by by apply count_of_Get end.
  cbn [count_sum foldr]. fold (count_sum o ks). rewrite Hco. split; [lia|].
  constructor; [|done]. split_and!; [done|by eexists|lia|].
  intros ->. simpl in Hz. lia.
Qed.

Lemma facetCounts_ok f total open_ key n :
  ok (facetCounts f total open_ key) n →
  ∃ o, rv f = VObject o ∧ n = count_sum o (Keys o) ∧ facet_map o total open_ key.
Proof.
  unfold facetCounts. rewrite ok_failed. destruct (rv f) as [| | | |o] eqn:Hf; intros H; try by ok_inv.
  eapply facetCounts_loop_ok in H as [-> H]; [|done]. by exists o.
Qed.

Lemma summed_ok f total open_ key u :
  ok (summed f total open_ key) u →
  ∃ o, rv f = VObject o ∧ count_sum o (Keys o) = total ∧ facet_map o total open_ key.
Proof.
  unfold summed. intros H. rewrite ok_bind in H by apply _. destruct H as (n & Hn & H).
  apply facetCounts_ok in Hn as (o & Hf & -> & Hm). rewrite ok_failed in H. cbn [negb andb] in H.
  exists o. destruct (Z.eqb_spec (count_sum o (Keys o)) total); [done|]. by apply ok_Fail_last in H.
Qed.

(** Exactly the keys of [enum], with counts that add up. *)
Definition closed_facet (r : Object) (total : Z) (m : string * list string) : Prop :=
  ∃ o, Get r m.1 = Some (VObject o) ∧ (∀ k, k ∈ Keys o ↔ k ∈ m.2) ∧
    count_sum o (Keys o) = total ∧ facet_map o total false (λ _, true).

Lemma closed_maps_ok r o total maps u :
  rv r = VObject o → ok (closed_maps r total maps) u → Forall (closed_facet o total) maps.
Proof.
  intros Hr. induction maps as [|[k enum] maps IH]; intros H; cbn [closed_maps] in H; [constructor|].
  ok_inv. subst. match goal with H : ok (closed_maps _ _ _) _ |- _ => apply IH in H end.
  constructor; [|done]. match goal with H : ok (summed _ _ _ _) _ |- _ => apply summed_ok in H as (o' & Ho' & Hs & Hm) end.
  cbn [child rv] in Ho'. injection Ho' as <-. assert (x2 = o) as -> by congruence. by exists x.
Qed.

(** The counts of the milestones, of which the rest have none. *)
Definition milestone_facet (r : Object) (total : Z) : Prop :=
  ∃ o, Get r "byMilestone" = Some (VObject o) ∧ facet_map o total true isLabel ∧
    count_of r "withoutMilestone" + count_sum o (Keys o) ≤ total.

(** An accepted facet summary counts every ticket once: in each closed map
    the keys are exactly the enumeration and the counts add up to the total;
    the non-zero counts of the known next actions do too; and the milestones'
    counts with those without one do not exceed it. *)
Theorem decodeFacets_spec r o u :
  rv r = VObject o → ok (decodeFacets r) u →
  let total := count_of o "total" in
  Forall (closed_facet o total) (if Has (VObject o) "byLifecycle" then
    facetClosedMaps ++ [("byLifecycle", FacetLifecycles)] else facetClosedMaps) ∧
  (∃ next, Get o "byNextAction" = Some (VObject next) ∧ count_sum next (Keys next) = total ∧
    facet_map next total true (λ k, existsb (String.eqb k) FacetNextActions)) ∧
  milestone_facet o total.
Proof.
  intros Hr H. unfold decodeFacets in H. rewrite Hr in H.
  ok_inv. repeat match goal with
  | H : rv r = VObject ?o' |- _ => lazymatch o' with o => fail | _ => assert (o' = o) by congruence; subst o' end end.
  match goal with
  | H : ok (closed_maps _ _ _) _ |- _ => apply (closed_maps_ok r o) in H as Hmaps; [|done] end.
  match goal with
  | H : ok (summed _ _ _ _) _ |- _ => apply summed_ok in H as (next & Hn & Hns & Hnm) end.
  match goal with
  | H : ok (facetCounts (child _ _ "byMilestone") _ _ _) _ |- _ => apply facetCounts_ok in H as (ms & Hms & -> & Hmm) end.
  match goal with
  | H : ok (if _ then Fail _ _ _ _ else _) _ |- _ => rename H into Hif end.
  match type of Hif with ok (if negb false && ?b then _ else _) _ =>
    destruct b eqn:Hb; [by apply ok_Fail_last in Hif|] end.
  subst. cbn [child rv] in Hn, Hms. subst.
  cbv zeta. unfold milestone_facet. rewrite (count_of_Get o "total" _ ltac:(eassumption)), (count_of_Get o "withoutMilestone" _ ltac:(eassumption)).
  split_and!; [done|by exists next|exists ms; split_and!; [done|done|lia]].
Qed.

Definition counts (l : list (string * Z)) : Value := VObject ((λ kn, (kn.1, VString (CountOf kn.2))) <$> l).

(** One open ticket with no milestone. *)
Definition one_ticket : Object :=
  [("total", VString "1");
   ("byStatus", counts [("DRAFT", 0); ("OPEN", 1); ("HELD", 0); ("COMPLETED", 0); ("ARCHIVED", 0)]);
   ("byPriority", counts [("P0", 0); ("P1", 1); ("P2", 0); ("P3", 0)]);
   ("byKind", counts [("FEATURE", 1); ("BUG", 0); ("CHORE", 0); ("SPIKE", 0); ("DOC", 0); ("MANUAL", 0); ("EXTERNAL", 0)]);
   ("byExecutionClass", counts [("AUTONOMOUS", 1); ("APPROVAL_REQUIRED", 0); ("MANUAL", 0); ("EXTERNAL", 0); ("NEVER", 0)]);
   ("byEligibility", counts [("BLOCKED", 1); ("UNKNOWN", 0)]);
   ("byNextAction", counts [("refine", 1)]); ("byBlockerCode", counts []); ("byMilestone", counts []);
   ("milestonesOmitted", VString "0"); ("withoutMilestone", VString "1"); ("byLabel", counts [("api", 1)]);
   ("labelsOmitted", VString "0")].

Lemma decodeFacets_spec_witness :
  ok (decodeFacets (NewReader (VObject one_ticket) "/facets")) tt ∧ milestone_facet one_ticket 1.
Proof.
  assert (ok (decodeFacets (NewReader (VObject one_ticket) "/facets")) tt) as H by (vm_compute; reflexivity).
  split; [exact H|].
  destruct (decodeFacets_spec (NewReader (VObject one_ticket) "/facets") one_ticket tt eq_refl H) as (_ & _ & Hm).
  exact Hm.
Defined.
