(* ===== verification/Ticket.v ===== *)
(** * Ticket records

    The data of [src/internal/tasks/ticket]: the ticket record of [record.go]
    with the optional members of its sibling files, its summary ([lazy.go]),
    the closed vocabularies, and the reads of a record that take no decoding.
    A [nil] slice or map is the empty one, except in [VerdictPaths] and
    [RequiredRoles], whose absence the record encodes. *)

From S2P Require Import Prelude Utf8 GoStd Codes Value Primitives Ids.
Local Open Scope Z_scope.
Local Open Scope go_scope.

(** ** Vocabulary *)

Definition Profile : string := "taskman-ticket/0".

Definition StatusDraft : string := "DRAFT".
Definition StatusOpen : string := "OPEN".
Definition StatusHeld : string := "HELD".
Definition StatusCompleted : string := "COMPLETED".
Definition StatusArchived : string := "ARCHIVED".

Definition Kinds : list string := ["FEATURE"; "BUG"; "CHORE"; "SPIKE"; "DOC"; "MANUAL"; "EXTERNAL"].
Definition Priorities : list string := ["P0"; "P1"; "P2"; "P3"].
Definition ExecutionClasses : list string := ["AUTONOMOUS"; "APPROVAL_REQUIRED"; "MANUAL"; "EXTERNAL"; "NEVER"].
Definition Obligations : list string := ["COMPLETED"; "GATE_PASSED"].
Definition Coverages : list string := ["QUALIFIED"; "INCOMPLETE"; "UNKNOWN"].
Definition ResourceClasses : list string :=
  ["PATH"; "SHARED_GATE"; "SCHEMA"; "GENERATED_OUTPUT"; "PORT"; "DATABASE"; "WHOLE_REPOSITORY"; "OTHER"].
Definition SourceKinds : list string := ["NATIVE"; "IMPORT"].
Definition CompletionKinds : list string := ["VERIFIED"; "MANUAL"].
Definition ApprovalOps : list string := ["RUN"; "COMPLETE"; "INTEGRATE"; "ADJUDICATE"].
Definition Statuses : list string := [StatusDraft; StatusOpen; StatusHeld; StatusCompleted; StatusArchived].
Definition ArchivedFroms : list string := [StatusDraft; StatusOpen; StatusHeld; StatusCompleted].

Definition AcceptanceRelevantFields : list string :=
  ["kind"; "acceptanceCriteria"; "requirementRefs"; "dependencies"; "requiredGates"; "effects"; "capabilities";
   "executionClass"; "supersedes"; "source"; "requiresPool"; "requiredRoles"].

Definition Stages : list string := ["implement"; "review"; "integrate"].
Definition StageRoles : list string := ["BUILDER"; "REVIEWER"; "VERIFIER"; "REPAIR"; "DOCS"].

(** Progress phases. *)
Definition PhaseInProgress : string := "IN_PROGRESS".
Definition PhaseDeliveredOnBranch : string := "DELIVERED_ON_BRANCH".
Definition PhaseInReview : string := "IN_REVIEW".
Definition PhaseInMergeQueue : string := "IN_MERGE_QUEUE".
Definition PhaseMergedAwaitingCloseout : string := "MERGED_AWAITING_CLOSEOUT".
Definition PhaseBlocked : string := "BLOCKED".
Definition PhaseCleared : string := "CLEARED".

(** Kinds of hold conditions. *)
Definition HoldConditionCommitContained : string := "COMMIT_CONTAINED".
Definition HoldConditionPathExists : string := "PATH_EXISTS".
Definition HoldConditionSymbolDefined : string := "SYMBOL_DEFINED".
Definition HoldConditionKinds : list string :=
  [HoldConditionCommitContained; HoldConditionPathExists; HoldConditionSymbolDefined].

(** ** The record's parts *)

Record Dependency := { dep_TicketID : TicketID; dep_Obligation : string; dep_GateID : option string }.

Record Source := {
  src_Kind : string;
  src_SourceQueueID : string;
  src_SourceItemID : option string;
  src_SourceRevisionSha256 : option string
}.

Record Resource := { res_Class : string; res_Key : string }.

Record Effects := {
  eff_Coverage : string;
  eff_TouchPaths : list string;
  eff_Resources : list Resource;
  eff_ExternalUnbounded : bool;
  eff_VerdictPaths : option (list string)
}.

Record HoldCondition := {
  hc_Kind : string;
  hc_Ref : string;
  hc_Commit : string;
  hc_Path : string;
  hc_Symbol : string
}.

Record Hold := {
  hold_HoldID : string;
  hold_Actor : string;
  hold_Reason : string;
  hold_PlacedAt : string;
  hold_Condition : option HoldCondition
}.

Record Approval := {
  apr_GrantID : string;
  apr_Actor : string;
  apr_Operation : string;
  apr_TargetRevision : string;
  apr_Scope : list string;
  apr_Revoked : bool;
  apr_GrantedAt : string
}.

Record Completion := {
  cmp_Kind : string;
  cmp_Actor : string;
  cmp_Reason : option string;
  cmp_Evidence : list string;
  cmp_ManifestSha256 : option string;
  cmp_RecordedAt : string
}.

Record EscalationRef := {
  esc_RequestID : string;
  esc_OriginSha256 : string;
  esc_HeadSha256 : string;
  esc_Revision : string;
  esc_AcceptanceRevision : string;
  esc_Kind : string;
  esc_State : string
}.

Record EscalationRefs := {
  escs_Revision : string;
  escs_LastControlTicketRevision : string;
  escs_WorkRevision : string;
  escs_Entries : list EscalationRef
}.

Record OperatorNoteReference := { note_Revision : string; note_Current : option string; note_Head : string }.

Record ExternalReviewRef := { rev_Generation : string; rev_Revision : string; rev_Head : string }.

Record Prerequisite := {
  pre_TicketID : TicketID;
  pre_Obligation : string;
  pre_GateID : option string;
  pre_Stages : list string
}.

Record AttachedEvidence := {
  att_AcceptanceRevision : string;
  att_Actor : string;
  att_Evidence : list string;
  att_Reason : string;
  att_RecordedAt : string
}.

Record ProgressMark := {
  Phase : string;
  Lane : option string;
  Host : option string;
  Branch : option string;
  Head : option string;
  PR : option string;
  PReason : option string
}.

Record Progress := { prg_Mark : ProgressMark; prg_Actor : string; prg_RecordedAt : string }.

Record KnowHowAnchor := { kha_Path : string; kha_Blob : string; kha_Symbol : string; kha_SymbolSha256 : string }.

Inductive KnowHowEntry := mkKnowHowEntry {
  kh_Seq : string;
  kh_Operation : string;
  kh_Text : string;
  kh_Anchors : list KnowHowAnchor;
  kh_Routes : list string;
  kh_Commit : string;
  kh_Supersedes : option string;
  kh_Attempt : option string;
  kh_Generation : option string;
  kh_EvidencePath : option string;
  kh_Note : string;
  kh_Reason : option string;
  kh_Repository : string;
  kh_ActorID : string;
  kh_ActorRole : string;
  kh_RecordedAt : string;
  kh_Reconfirmed : option KnowHowEntry
}.

Record ObligationCounts := {
  oc_Witnessed : Z; oc_Total : Z; oc_Deferred : Z; oc_CoreWitnessed : Z; oc_CoreTotal : Z
}.

Record ObligationHighWater := { hw_AcceptanceRevision : string; hw_Witnessed : Z }.

Record ObligationRaise := { or_Attempt : string; or_Generation : string; or_AcceptanceRevision : string }.

Record ObligationsReference := {
  obl_Prefix : string;
  obl_Revision : string;
  obl_Head : string;
  obl_Counts : ObligationCounts;
  obl_HighWater : ObligationHighWater;
  obl_LastRaise : option ObligationRaise
}.

(** ** The record *)

Record Record_ := {
  rec_RequiredRoles : option (gmap string (list string));
  rec_RequiresPool : string;
  rec_Escalations : option EscalationRefs;
  rec_TicketID : TicketID;
  rec_Revision : string;
  rec_AcceptanceRevision : string;
  rec_PreviousRecordSha256 : option string;
  rec_Status : string;
  rec_ArchivedFrom : option string;
  rec_Title : string;
  rec_Body : option string;
  rec_Kind : string;
  rec_Owner : option string;
  rec_Milestone : option string;
  rec_Priority : string;
  rec_Order : string;
  rec_Labels : list string;
  rec_Dependencies : list Dependency;
  rec_AcceptanceCriteria : list string;
  rec_RequirementRefs : list string;
  rec_Source : Source;
  rec_Effects : Effects;
  rec_Capabilities : list string;
  rec_RequiredGates : list string;
  rec_Holds : list Hold;
  rec_ExecutionClass : string;
  rec_Approvals : list Approval;
  rec_Completion : option Completion;
  rec_DueDate : option string;
  rec_EstimateMinutes : option string;
  rec_Supersedes : option TicketID;
  rec_SupersededBy : option TicketID;
  rec_ShadowOverlay : bool;
  rec_CreatedAt : string;
  rec_UpdatedAt : string;
  rec_UpdatedBy : string;
  rec_OperatorNote : option OperatorNoteReference;
  rec_ExternalReviews : gmap string ExternalReviewRef;
  rec_ExecutionPrerequisites : list Prerequisite;
  rec_AttachedEvidence : list AttachedEvidence;
  rec_Progress : list Progress;
  rec_KnowHow : list KnowHowEntry;
  rec_ObligationsRef : option ObligationsReference
}.

(** [rec.EffectiveStatus()] *)
Definition EffectiveStatus (rec : Record_) : string :=
  match rec_ArchivedFrom rec with Some s => s | None => rec_Status rec end.

(** ** Summaries *)

Record Summary := {
  sum_TicketID : TicketID;
  sum_Title : string;
  sum_Status : string;
  sum_ArchivedFrom : option string;
  sum_Priority : string;
  sum_Order : string;
  sum_AcceptanceRevision : string;
  sum_Kind : string;
  sum_Owner : option string;
  sum_Milestone : option string;
  sum_Labels : list string;
  sum_RequiredGates : list string;
  sum_Dependencies : list Dependency;
  sum_UpdatedAt : string;
  sum_CompletedAt : option string
}.

Definition SummaryOf (r : Record_) : Summary :=
  {| sum_TicketID := rec_TicketID r; sum_Title := rec_Title r; sum_Status := rec_Status r;
     sum_ArchivedFrom := rec_ArchivedFrom r; sum_Priority := rec_Priority r; sum_Order := rec_Order r;
     sum_AcceptanceRevision := rec_AcceptanceRevision r; sum_Kind := rec_Kind r; sum_Owner := rec_Owner r;
     sum_Milestone := rec_Milestone r; sum_Labels := rec_Labels r; sum_RequiredGates := rec_RequiredGates r;
     sum_Dependencies := rec_Dependencies r; sum_UpdatedAt := rec_UpdatedAt r;
     sum_CompletedAt := cmp_RecordedAt <$> rec_Completion r |}.

(** [Closed(status)] *)
Definition ClosedStatus (status : string) : bool := (status =s StatusCompleted) || (status =s StatusArchived).

(** ** Progress *)

Definition Live (status : string) : bool :=
  (status =s StatusDraft) || (status =s StatusOpen) || (status =s StatusHeld).

Definition EffectiveProgress (rec : Record_) : option Progress :=
  if negb (Live (rec_Status rec)) then None
  else match last (rec_Progress rec) with
  | None => None
  | Some p => if Phase (prg_Mark p) =s PhaseCleared then None else Some p
  end.

Definition EffectivePhase (rec : Record_) : string :=
  match EffectiveProgress rec with Some p => Phase (prg_Mark p) | None => "NONE" end.

(** [m.Equal(o)]; [Count]s are compared as their text. *)
Definition ProgressMark_Equal (m o : ProgressMark) : bool :=
  let eq (a b : option string) := match a, b with
    | None, None => true
    | Some x, Some y => x =s y
    | _, _ => false
    end in
  (Phase m =s Phase o) && eq (Lane m) (Lane o) && eq (Host m) (Host o) && eq (Branch m) (Branch o) &&
  eq (Head m) (Head o) && eq (PReason m) (PReason o) && eq (PR m) (PR o).

(** [m.Validate()] *)
Definition ProgressMark_Validate (m : ProgressMark) : option Error :=
  let need (ok : bool) (what : string) : option Error :=
    if ok then None else Some (Errorf CodeMalformed "/phase" "phase %s requires %s" [AStr (Phase m); AStr what]) in
  let has (x : option string) := bool_decide (is_Some x) in
  if Phase m =s PhaseDeliveredOnBranch then need (has (Branch m) && has (Head m)) "branch and head"
  else if (Phase m =s PhaseInReview) || (Phase m =s PhaseInMergeQueue) then need (has (PR m)) "pr"
  else if Phase m =s PhaseMergedAwaitingCloseout then need (has (Head m)) "head (the merge commit)"
  else if Phase m =s PhaseBlocked then need (has (PReason m)) "reason"
  else if Phase m =s PhaseCleared then
    need (negb (has (Lane m)) && negb (has (Host m)) && negb (has (Branch m)) && negb (has (Head m)) && negb (has (PR m)))
      "lane, host, branch, head and pr to be null"
  else None.

(** [PrerequisiteApplies(p, stage)] *)
Definition PrerequisiteApplies (p : Prerequisite) (stage : string) : bool :=
  if stage =s ε then true else existsb (λ s, s =s stage) (pre_Stages p).
