(* ===== verification/Updates.v ===== *)
(** * Updating a field of a record

    Go assigns to a field of a ticket record through a pointer; here
    [r <| p := v |>] is the record [r] with the field [p] set to [v].  The
    class [Setter] gives each projection its update. *)

From S2P Require Import Prelude Ticket.
Local Open Scope go_scope.

Class Setter {R A : Type} (proj : R → A) : Type := set_field : (A → A) → R → R.

Notation "r <| p := v |>" := (set_field (proj := p) (λ _, v) r)
  (at level 1, left associativity, p at level 0, v at level 99, format "r  <| p  :=  v |>") : go_scope.

(** A record rebuilt from its projections. *)
Definition eta_record (r : Record_) : Record_ :=
        {| rec_RequiredRoles := rec_RequiredRoles r; rec_RequiresPool := rec_RequiresPool r; rec_Escalations :=
       rec_Escalations r; rec_TicketID := rec_TicketID r; rec_Revision := rec_Revision r; rec_AcceptanceRevision :=
       rec_AcceptanceRevision r; rec_PreviousRecordSha256 := rec_PreviousRecordSha256 r; rec_Status := rec_Status r;
       rec_ArchivedFrom := rec_ArchivedFrom r; rec_Title := rec_Title r; rec_Body := rec_Body r; rec_Kind := rec_Kind
       r; rec_Owner := rec_Owner r; rec_Milestone := rec_Milestone r; rec_Priority := rec_Priority r; rec_Order :=
       rec_Order r; rec_Labels := rec_Labels r; rec_Dependencies := rec_Dependencies r; rec_AcceptanceCriteria :=
       rec_AcceptanceCriteria r; rec_RequirementRefs := rec_RequirementRefs r; rec_Source := rec_Source r; rec_Effects
       := rec_Effects r; rec_Capabilities := rec_Capabilities r; rec_RequiredGates := rec_RequiredGates r; rec_Holds
       := rec_Holds r; rec_ExecutionClass := rec_ExecutionClass r; rec_Approvals := rec_Approvals r; rec_Completion :=
       rec_Completion r; rec_DueDate := rec_DueDate r; rec_EstimateMinutes := rec_EstimateMinutes r; rec_Supersedes :=
       rec_Supersedes r; rec_SupersededBy := rec_SupersededBy r; rec_ShadowOverlay := rec_ShadowOverlay r;
       rec_CreatedAt := rec_CreatedAt r; rec_UpdatedAt := rec_UpdatedAt r; rec_UpdatedBy := rec_UpdatedBy r;
       rec_OperatorNote := rec_OperatorNote r; rec_ExternalReviews := rec_ExternalReviews r;
       rec_ExecutionPrerequisites := rec_ExecutionPrerequisites r; rec_AttachedEvidence := rec_AttachedEvidence r;
       rec_Progress := rec_Progress r; rec_KnowHow := rec_KnowHow r; rec_ObligationsRef := rec_ObligationsRef r |}.

(** The update of the projection [p] of the record that [eta] rebuilds. *)
Ltac setter eta p :=
  let e := eval cbv beta delta [eta] in eta in
  match eval pattern p in e with
  | ?s _ => exact (λ f, s (λ r, f (p r)))
  end.

#[export] Instance set_rec_RequiredRoles : Setter rec_RequiredRoles.
Proof. setter eta_record rec_RequiredRoles. Defined.
#[export] Instance set_rec_RequiresPool : Setter rec_RequiresPool.
Proof. setter eta_record rec_RequiresPool. Defined.
#[export] Instance set_rec_Escalations : Setter rec_Escalations.
Proof. setter eta_record rec_Escalations. Defined.
#[export] Instance set_rec_TicketID : Setter rec_TicketID.
Proof. setter eta_record rec_TicketID. Defined.
#[export] Instance set_rec_Revision : Setter rec_Revision.
Proof. setter eta_record rec_Revision. Defined.
#[export] Instance set_rec_AcceptanceRevision : Setter rec_AcceptanceRevision.
Proof. setter eta_record rec_AcceptanceRevision. Defined.
#[export] Instance set_rec_PreviousRecordSha256 : Setter rec_PreviousRecordSha256.
Proof. setter eta_record rec_PreviousRecordSha256. Defined.
#[export] Instance set_rec_Status : Setter rec_Status.
Proof. setter eta_record rec_Status. Defined.
#[export] Instance set_rec_ArchivedFrom : Setter rec_ArchivedFrom.
Proof. setter eta_record rec_ArchivedFrom. Defined.
#[export] Instance set_rec_Title : Setter rec_Title.
Proof. setter eta_record rec_Title. Defined.
#[export] Instance set_rec_Body : Setter rec_Body.
Proof. setter eta_record rec_Body. Defined.
#[export] Instance set_rec_Kind : Setter rec_Kind.
Proof. setter eta_record rec_Kind. Defined.
#[export] Instance set_rec_Owner : Setter rec_Owner.
Proof. setter eta_record rec_Owner. Defined.
#[export] Instance set_rec_Milestone : Setter rec_Milestone.
Proof. setter eta_record rec_Milestone. Defined.
#[export] Instance set_rec_Priority : Setter rec_Priority.
Proof. setter eta_record rec_Priority. Defined.
#[export] Instance set_rec_Order : Setter rec_Order.
Proof. setter eta_record rec_Order. Defined.
#[export] Instance set_rec_Labels : Setter rec_Labels.
Proof. setter eta_record rec_Labels. Defined.
#[export] Instance set_rec_Dependencies : Setter rec_Dependencies.
Proof. setter eta_record rec_Dependencies. Defined.
#[export] Instance set_rec_AcceptanceCriteria : Setter rec_AcceptanceCriteria.
Proof. setter eta_record rec_AcceptanceCriteria. Defined.
#[export] Instance set_rec_RequirementRefs : Setter rec_RequirementRefs.
Proof. setter eta_record rec_RequirementRefs. Defined.
#[export] Instance set_rec_Source : Setter rec_Source.
Proof. setter eta_record rec_Source. Defined.
#[export] Instance set_rec_Effects : Setter rec_Effects.
Proof. setter eta_record rec_Effects. Defined.
#[export] Instance set_rec_Capabilities : Setter rec_Capabilities.
Proof. setter eta_record rec_Capabilities. Defined.
#[export] Instance set_rec_RequiredGates : Setter rec_RequiredGates.
Proof. setter eta_record rec_RequiredGates. Defined.
#[export] Instance set_rec_Holds : Setter rec_Holds.
Proof. setter eta_record rec_Holds. Defined.
#[export] Instance set_rec_ExecutionClass : Setter rec_ExecutionClass.
Proof. setter eta_record rec_ExecutionClass. Defined.
#[export] Instance set_rec_Approvals : Setter rec_Approvals.
Proof. setter eta_record rec_Approvals. Defined.
#[export] Instance set_rec_Completion : Setter rec_Completion.
Proof. setter eta_record rec_Completion. Defined.
#[export] Instance set_rec_DueDate : Setter rec_DueDate.
Proof. setter eta_record rec_DueDate. Defined.
#[export] Instance set_rec_EstimateMinutes : Setter rec_EstimateMinutes.
Proof. setter eta_record rec_EstimateMinutes. Defined.
#[export] Instance set_rec_Supersedes : Setter rec_Supersedes.
Proof. setter eta_record rec_Supersedes. Defined.
#[export] Instance set_rec_SupersededBy : Setter rec_SupersededBy.
Proof. setter eta_record rec_SupersededBy. Defined.
#[export] Instance set_rec_ShadowOverlay : Setter rec_ShadowOverlay.
Proof. setter eta_record rec_ShadowOverlay. Defined.
#[export] Instance set_rec_CreatedAt : Setter rec_CreatedAt.
Proof. setter eta_record rec_CreatedAt. Defined.
#[export] Instance set_rec_UpdatedAt : Setter rec_UpdatedAt.
Proof. setter eta_record rec_UpdatedAt. Defined.
#[export] Instance set_rec_UpdatedBy : Setter rec_UpdatedBy.
Proof. setter eta_record rec_UpdatedBy. Defined.
#[export] Instance set_rec_OperatorNote : Setter rec_OperatorNote.
Proof. setter eta_record rec_OperatorNote. Defined.
#[export] Instance set_rec_ExternalReviews : Setter rec_ExternalReviews.
Proof. setter eta_record rec_ExternalReviews. Defined.
#[export] Instance set_rec_ExecutionPrerequisites : Setter rec_ExecutionPrerequisites.
Proof. setter eta_record rec_ExecutionPrerequisites. Defined.
#[export] Instance set_rec_AttachedEvidence : Setter rec_AttachedEvidence.
Proof. setter eta_record rec_AttachedEvidence. Defined.
#[export] Instance set_rec_Progress : Setter rec_Progress.
Proof. setter eta_record rec_Progress. Defined.
#[export] Instance set_rec_KnowHow : Setter rec_KnowHow.
Proof. setter eta_record rec_KnowHow. Defined.
#[export] Instance set_rec_ObligationsRef : Setter rec_ObligationsRef.
Proof. setter eta_record rec_ObligationsRef. Defined.
