(* ===== verification/Collision.v ===== *)
(** * Reservation collisions

    [collision.go] of [src/internal/tasks/ticket]: when two sets of declared
    resources exclude each other. *)

From S2P Require Import Prelude Utf8 GoStd Codes Value Primitives Ids.
From S2P Require Import SetsSpec PrimitivesSpec IdsSpec Ticket.
Local Open Scope Z_scope.
Local Open Scope go_scope.

Definition PathCovers (scope path : string) : bool := PathKeyCovers scope path.

Definition sharedCovers (shared : list string) (key : string) : bool := existsb (λ s, PathCovers s key) shared.

Definition collides (x y : Resource) (shared : list string) : bool :=
  if (res_Class x =s "WHOLE_REPOSITORY") || (res_Class y =s "WHOLE_REPOSITORY") then true
  else if negb (res_Class x =s res_Class y) then false
  else if negb (res_Class x =s "PATH") then res_Key x =s res_Key y
  else if negb (PathCovers (res_Key x) (res_Key y)) && negb (PathCovers (res_Key y) (res_Key x)) then false
  else negb (sharedCovers shared (res_Key x)) || negb (sharedCovers shared (res_Key y)).

Definition CollideShared (a b : list Resource) (shared : list string) : bool :=
  existsb (λ x, existsb (λ y, collides x y shared) b) a.

Definition Collide (a b : list Resource) : bool := CollideShared a b [].

(** ** When resources collide *)

Lemma app_str_comparable a : ∀ b r r', a +:+ r = b +:+ r' → (∃ t, b = a +:+ t) ∨ (∃ t, a = b +:+ t).
Proof.
  induction a as [|c a IH]; intros b r r' H; [left; by exists b|].
  destruct b as [|d b]; [right; by exists (String c a)|]. rewrite !app_cons_str in H. injection H as -> H.
  destruct (IH _ _ _ H) as [[t ->]|[t ->]]; [left|right]; by exists t.
Qed.

(** Two path keys are comparable exactly when some path is under both. *)
Lemma overlap_spec x y :
  PathCovers x y = true ∨ PathCovers y x = true ↔ ∃ p, PathCovers x p = true ∧ PathCovers y p = true.
Proof.
  unfold PathCovers. split.
  - intros [H|H]; [exists y|exists x]; (split; [try done|try done]); apply PathKeyCovers_spec; by left.
  - intros (p & Hx & Hy). rewrite PathKeyCovers_spec in Hx. destruct Hx as [->|(d & r & -> & ->)]; [by right|].
    rewrite PathKeyCovers_spec in Hy. destruct Hy as [->|(e & s & -> & He)].
    { left. apply PathKeyCovers_spec. right. by exists d, r. }
    rewrite !PathKeyCovers_spec. destruct (app_str_comparable _ _ _ _ He) as [[t Ht]|[t Ht]].
    + left. right. by exists d, t.
    + right. right. by exists e, t.
Qed.

(** What it means for two declared resources to exclude each other. *)
Definition exclusive (shared : list string) (x y : Resource) : Prop :=
  res_Class x = "WHOLE_REPOSITORY" ∨ res_Class y = "WHOLE_REPOSITORY" ∨
  res_Class x = res_Class y ∧
    ((res_Class x ≠ "PATH" ∧ res_Key x = res_Key y) ∨
     (res_Class x = "PATH" ∧
      (∃ p, PathCovers (res_Key x) p = true ∧ PathCovers (res_Key y) p = true) ∧
      ¬ (sharedCovers shared (res_Key x) = true ∧ sharedCovers shared (res_Key y) = true))).

Lemma collides_spec x y shared : collides x y shared = true ↔ exclusive shared x y.
Proof.
  unfold collides, exclusive. rewrite <-overlap_spec.
  destruct (String.eqb_spec (res_Class x) "WHOLE_REPOSITORY"); [by split; auto|].
  destruct (String.eqb_spec (res_Class y) "WHOLE_REPOSITORY"); [by split; auto|]. cbn [orb].
  destruct (String.eqb_spec (res_Class x) (res_Class y)) as [Hc|Hc]; cbn [negb]; [|by split; [|intros [?|[?|[? _]]]]].
  destruct (String.eqb_spec (res_Class x) "PATH") as [Hp|Hp]; cbn [negb].
  - destruct (PathCovers (res_Key x) (res_Key y)), (PathCovers (res_Key y) (res_Key x)); cbn [negb andb];
      destruct (sharedCovers _ (res_Key x)), (sharedCovers _ (res_Key y)); cbn [negb orb];
      intuition congruence.
  - rewrite String.eqb_eq. intuition congruence.
Qed.

(** Two declarations collide exactly when they hold resources that
    exclude each other: one of them is the whole repository, or they are of
    one class other than PATH with the same key, or they are path keys with a
    path under both that the shared paths do not cover on both sides.
    Colliding is symmetric, and sharing fewer paths never removes a collision. *)
Lemma CollideShared_spec a b shared :
  (CollideShared a b shared = true ↔ ∃ x y, x ∈ a ∧ y ∈ b ∧ exclusive shared x y) ∧
  CollideShared a b shared = CollideShared b a shared ∧
  (∀ fewer, fewer ⊆ shared → CollideShared a b shared = true → CollideShared a b fewer = true).
Proof.
  assert (∀ a b s, CollideShared a b s = true ↔ ∃ x y, x ∈ a ∧ y ∈ b ∧ exclusive s x y) as Hs.
  { intros a' b' s. unfold CollideShared. rewrite existsb_exists. setoid_rewrite existsb_exists.
    setoid_rewrite collides_spec. setoid_rewrite <-list_elem_of_In. split.
    - intros (x & Hx & y & Hy & H). by exists x, y.
    - intros (x & y & Hx & Hy & H). exists x. split; [done|]. by exists y. }
  assert (∀ s x y, exclusive s x y → exclusive s y x) as Hsym.
  { intros s x y [H|[H|[Hc H]]]; unfold exclusive; [by auto..|]. right; right. rewrite <-Hc. split; [done|].
    destruct H as [[? ?]|(Hp & (p & ? & ?) & Hn)]; [by left|right]. split_and!; [done|by exists p|tauto]. }
  split_and!; [apply Hs| |].
  - apply eq_true_iff_eq. rewrite !Hs. split; intros (x & y & ? & ? & ?); exists y, x; auto.
  - intros fewer Hsub. rewrite !Hs. intros (x & y & Hx & Hy & H). exists x, y. split_and!; [done..|].
    assert (∀ k, sharedCovers fewer k = true → sharedCovers shared k = true) as Hm.
    { intros k. unfold sharedCovers. rewrite !existsb_exists. intros (s & Hin & ?). exists s. split; [|done].
      by apply list_elem_of_In, Hsub, list_elem_of_In. }
    destruct H as [?|[?|[Hc [?|(Hp & Hov & Hn)]]]]; unfold exclusive; [by auto|by auto|by auto|].
    right; right. split; [done|]. right. split_and!; [done..|]. intros [? ?]. apply Hn. auto.
Qed.

Lemma CollideShared_sym a b shared : CollideShared a b shared = CollideShared b a shared.
Proof. by destruct (CollideShared_spec a b shared) as (_ & ? & _). Qed.
