(* ===== verification/Inventory.v ===== *)
(** * The inventory of a queue

    [graph.go] and [lazy.go] of [src/internal/tasks/ticket]: building the
    inventory with its checks, the dependency cycles by Tarjan's algorithm,
    the check of proposed dependencies, the planning order and the reads.

    A loop that a decreasing measure bounds only semantically carries fuel;
    [None] or [OutOfFuel] stands for running out, and for the slice index out
    of range the code would panic with; neither happens. *)

From S2P Require Import Prelude Utf8 GoStd Codes Limits Value Primitives Ids Parse Ticket.
Local Open Scope Z_scope.
Local Open Scope go_scope.

Abbreviation raw d := (TicketID_Raw (dep_TicketID d)).

(** ** State *)

(** A loader decodes a whole record, or fails with an error. *)
Definition Loader : Type := Summary → goerror + Record_.

(** A lazily held record: what the first load returned, once it ran. *)
Definition lazyRecord : Type := option (goerror + Record_).

Record Inventory := mkInventory {
  inv_QueueID : QueueID;
  inv_byID : gmap string Record_;
  inv_sum : gmap string Summary;
  inv_lazy : gmap string lazyRecord;
  inv_load : option Loader;
  inv_ids : list string;
  inv_inCycle : gmap string (list string)
}.

Definition deps (sum : gmap string Summary) (v : string) : list Dependency :=
  match sum !! v with Some s => sum_Dependencies s | None => [] end.

(** ** Dependency cycles *)

(** The variables [findCycles] shares with [visit]; the top of the stack is
    the head of the list. *)
Record tarjan := mkTarjan {
  tj_index : Z;
  tj_indices : gmap string Z;
  tj_low : gmap string Z;
  tj_onStack : gmap string bool;
  tj_stack : list string;
  tj_inCycle : gmap string (list string)
}.

Definition low (st : tarjan) (v : string) : Z := default 0 (tj_low st !! v).
Definition onStack (st : tarjan) (v : string) : bool := default false (tj_onStack st !! v).

Definition set_low (v : string) (n : Z) (st : tarjan) : tarjan :=
  mkTarjan (tj_index st) (tj_indices st) (<[v := n]> (tj_low st)) (tj_onStack st) (tj_stack st) (tj_inCycle st).

(** [visit] before its loop. *)
Definition enter (v : string) (st : tarjan) : tarjan :=
  mkTarjan (tj_index st + 1) (<[v := tj_index st]> (tj_indices st)) (<[v := tj_index st]> (tj_low st))
    (<[v := true]> (tj_onStack st)) (v :: tj_stack st) (tj_inCycle st).

(** The loop of [visit] over the dependencies [ws] of [v]. *)
Fixpoint edges (rec : string → tarjan → option tarjan) (sum : gmap string Summary) (v : string)
    (ws : list string) (st : tarjan) : option tarjan :=
  match ws with
  | [] => Some st
  | w :: ws' =>
      match sum !! w with
      | None => edges rec sum v ws' st
      | Some _ =>
          match tj_indices st !! w with
          | None =>
              st ← rec w st;
              edges rec sum v ws' (if low st w <? low st v then set_low v (low st w) st else st)
          | Some iw =>
              edges rec sum v ws' (if onStack st w && (iw <? low st v) then set_low v iw st else st)
          end
      end
  end.

(** The loop that pops a component down to [v]. *)
Fixpoint pop (v : string) (stack : list string) (on : gmap string bool) (comp : list string) :
    option (list string * gmap string bool * list string) :=
  match stack with
  | [] => None
  | w :: stack' =>
      let on := <[w := false]> on in
      let comp := comp ++ [w] in
      if w =s v then Some (stack', on, comp) else pop v stack' on comp
  end.

(** [visit] after its loop. *)
Definition leave (v : string) (self : bool) (st : tarjan) : option tarjan :=
  if low st v =? default 0 (tj_indices st !! v) then
    '(stack, on, comp) ← pop v (tj_stack st) (tj_onStack st) [];
    let inCycle :=
      if (1 <? Z.of_nat (length comp)) || self then
        let comp := SortStrings comp in
        foldl (λ m x, <[x := comp]> m) (tj_inCycle st) comp
      else tj_inCycle st in
    Some (mkTarjan (tj_index st) (tj_indices st) (tj_low st) on stack inCycle)
  else Some st.

Fixpoint visit (fuel : nat) (sum : gmap string Summary) (v : string) (st : tarjan) : option tarjan :=
  match fuel with
  | O => None
  | S fuel =>
      let ws := (λ d, raw d) <$> deps sum v in
      st ← edges (visit fuel sum) sum v ws (enter v st);
      leave v (existsb (String.eqb v) ws) st
  end.

Fixpoint findCycles_loop (sum : gmap string Summary) (ids : list string) (st : tarjan) : option tarjan :=
  match ids with
  | [] => Some st
  | id :: ids' =>
      match tj_indices st !! id with
      | Some _ => findCycles_loop sum ids' st
      | None => st ← visit (S (size sum)) sum id st; findCycles_loop sum ids' st
      end
  end.

Definition findCycles (inv : Inventory) : option Inventory :=
  st ← findCycles_loop (inv_sum inv) (inv_ids inv) (mkTarjan 0 ∅ ∅ ∅ [] (inv_inCycle inv));
  Some (mkInventory (inv_QueueID inv) (inv_byID inv) (inv_sum inv) (inv_lazy inv) (inv_load inv) (inv_ids inv)
    (tj_inCycle st)).

(** ** Building the inventory *)

(** The checks of [add]; [folded] maps the folded local tokens seen. *)
Definition add (queue : QueueID) (s : Summary) (inv : Inventory) (folded : gmap string string) :
    res (Inventory * gmap string string) :=
  let id := sum_TicketID s in
  if negb (TicketID_QueueID id =s QueueID_Raw queue) then
    Err (Errorf CodeMalformed "/ticketId" "ticket %s is outside queue %s"
      [AStr (TicketID_Raw id); AStr (QueueID_Raw queue)])
  else if bool_decide (is_Some (inv_sum inv !! TicketID_Raw id)) then
    Err (Errorf CodeDuplicateID "/ticketId" "duplicate ticket %s" [AStr (TicketID_Raw id)])
  else
    let f := FoldToken (TicketID_Local id) in
    match folded !! f with
    | Some other =>
        Err (Errorf CodeDuplicateID "/ticketId" "local tokens %q and %q collide under ASCII case folding"
          [AStr other; AStr (TicketID_Local id)])
    | None =>
        Ok (mkInventory (inv_QueueID inv) (inv_byID inv) (<[TicketID_Raw id := s]> (inv_sum inv)) (inv_lazy inv)
              (inv_load inv) (inv_ids inv ++ [TicketID_Raw id]) (inv_inCycle inv),
            <[f := TicketID_Local id]> folded)
    end.

Fixpoint add_records (queue : QueueID) (records : list Record_) (inv : Inventory) (folded : gmap string string) :
    res (Inventory * gmap string string) :=
  match records with
  | [] => Ok (inv, folded)
  | r :: records' =>
      let* p := add queue (SummaryOf r) inv folded in
      let '(inv, folded) := p in
      add_records queue records'
        (mkInventory (inv_QueueID inv) (<[TicketID_Raw (rec_TicketID r) := r]> (inv_byID inv)) (inv_sum inv)
          (inv_lazy inv) (inv_load inv) (inv_ids inv) (inv_inCycle inv)) folded
  end.

Fixpoint add_closed (queue : QueueID) (closed : list Summary) (inv : Inventory) (folded : gmap string string) :
    res (Inventory * gmap string string) :=
  match closed with
  | [] => Ok (inv, folded)
  | s :: closed' =>
      let* p := add queue s inv folded in
      let '(inv, folded) := p in
      add_closed queue closed'
        (mkInventory (inv_QueueID inv) (inv_byID inv) (inv_sum inv)
          (<[TicketID_Raw (sum_TicketID s) := None]> (inv_lazy inv)) (inv_load inv) (inv_ids inv) (inv_inCycle inv))
        folded
  end.

Definition NewLazyInventory (queue : QueueID) (records : list Record_) (closed : list Summary)
    (load : option Loader) : res Inventory :=
  if MaxTicketsPerQueue <? Z.of_nat (length records + length closed) then
    Err (Errorf CodeLimitExceeded "/" "more than %d tickets in queue" [AInt MaxTicketsPerQueue])
  else
    let load := match closed with [] => None | _ => load end in
    let* p := add_records queue records (mkInventory queue ∅ ∅ ∅ load [] ∅) ∅ in
    let* p := add_closed queue closed p.1 p.2 in
    let inv := p.1 in
    match findCycles (mkInventory (inv_QueueID inv) (inv_byID inv) (inv_sum inv) (inv_lazy inv) (inv_load inv)
        (SortStrings (inv_ids inv)) (inv_inCycle inv)) with
    | Some inv => Ok inv
    | None => OutOfFuel
    end.

Definition NewInventory (queue : QueueID) (records : list Record_) : res Inventory :=
  NewLazyInventory queue records [] None.

(** ** Reads *)

(** What [Get] gives back; a failed load panics with [MaterializeError]. *)
Inductive got :=
  | Found (r : Record_)
  | Absent
  | MaterializeError (e : goerror)
  | NilLoader.

(** [inv.materialize(id)], with the loaded record kept in the inventory. *)
Definition materialize (inv : Inventory) (id : string) : Inventory * got :=
  match inv_lazy inv !! id with
  | None => (inv, Absent)
  | Some l =>
      let once (out : goerror + Record_) : Inventory * got :=
        (mkInventory (inv_QueueID inv) (inv_byID inv) (inv_sum inv) (<[id := Some out]> (inv_lazy inv)) (inv_load inv)
           (inv_ids inv) (inv_inCycle inv),
         match out with inr r => Found r | inl e => MaterializeError e end) in
      match l, inv_load inv, inv_sum inv !! id with
      | Some out, _, _ => once out
      | None, Some load, Some s => once (load s)
      | None, _, _ => (inv, NilLoader)
      end
  end.

Definition Inventory_Get (inv : Inventory) (id : string) : Inventory * got :=
  match inv_byID inv !! id with
  | Some r => (inv, Found r)
  | None => materialize inv id
  end.

Definition IDs (inv : Inventory) : list string := inv_ids inv.

Definition Inventory_Len (inv : Inventory) : Z := Z.of_nat (length (inv_ids inv)).

Definition Inventory_Summary (inv : Inventory) (id : string) : option Summary := inv_sum inv !! id.

(** [comp[0]] of a component; a component is never empty. *)
Definition CycleKey (inv : Inventory) (id : string) : option string :=
  match inv_inCycle inv !! id with Some comp => head comp | None => None end.

Definition CycleMembers (inv : Inventory) (id : string) : list string := default [] (inv_inCycle inv !! id).

Record Problem := { prob_Code : string; prob_TicketID : string; prob_Detail : string }.

Definition Problems (inv : Inventory) (id : string) : list Problem :=
  match inv_sum inv !! id with
  | None => []
  | Some r =>
      omap (λ d, match inv_sum inv !! raw d with
        | Some _ => None
        | None => Some {| prob_Code := CodeDependencyMissing; prob_TicketID := raw d;
                          prob_Detail := "dependency " +:+ raw d +:+ " does not exist in the queue" |}
        end) (sum_Dependencies r) ++
      match inv_inCycle inv !! id with
      | Some comp => [{| prob_Code := CodeCycle; prob_TicketID := ε;
                         prob_Detail := "dependency cycle through " +:+ strings.Join comp ", " |}]
      | None => []
      end
  end.

(** ** Proposed dependencies *)

Definition idx (i : Z) : string := CountOf i.

(** The first loop: each edge alone; [i] is the index of the next one. *)
Fixpoint check_edges (sum : gmap string Summary) (target : string) (i : Z) (ds : list Dependency) : option Error :=
  match ds with
  | [] => None
  | d :: ds' =>
      let where_ := "/dependencies/" +:+ idx i in
      if raw d =s target then Some (Errorf CodeCycle where_ "ticket depends on itself" [])
      else match sum !! raw d with
      | None =>
          Some (Errorf CodeDependencyMissing where_ "dependency %s does not exist in the queue" [AStr (raw d)])
      | Some _ => check_edges sum target (i + 1) ds'
      end
  end.

(** The second loop: whether the search from [stack] meets [target]. *)
Fixpoint dfs (fuel : nat) (sum : gmap string Summary) (target : string) (visited : gset string)
    (stack : list string) : option bool :=
  match fuel with
  | O => None
  | S fuel =>
      match stack with
      | [] => Some false
      | v :: stack =>
          if v =s target then Some true
          else if bool_decide (v ∈ visited) then dfs fuel sum target visited stack
          else dfs fuel sum target ({[v]} ∪ visited) (rev ((λ d, raw d) <$> deps sum v) ++ stack)
      end
  end.

(** As many steps as there are edges, and one to stop. *)
Definition dfs_fuel (sum : gmap string Summary) (ds : list Dependency) : nat :=
  S (length ds + map_fold (λ _ s n, length (sum_Dependencies s) + n)%nat 0%nat sum).

Definition CheckDependencies (inv : Inventory) (proposed : Record_) : outcome unit (option Error) :=
  let target := TicketID_Raw (rec_TicketID proposed) in
  let ds := rec_Dependencies proposed in
  match check_edges (inv_sum inv) target 0 ds with
  | Some e => Ok (Some e)
  | None =>
      match dfs (dfs_fuel (inv_sum inv) ds) (inv_sum inv) target ∅ (rev ((λ d, raw d) <$> ds)) with
      | None => OutOfFuel
      | Some true =>
          Ok (Some (Errorf CodeCycle "/dependencies" "adding these dependencies creates a cycle through %s" [AStr target]))
      | Some false => Ok None
      end
  end.

(** ** Tokens, order and unmet dependencies *)

Fixpoint CheckLocalToken_loop (sum : gmap string Summary) (local f : string) (ids : list string) : option Error :=
  match ids with
  | [] => None
  | id :: ids' =>
      if FoldToken (match sum !! id with Some s => TicketID_Local (sum_TicketID s) | None => ε end) =s f then
        Some (Errorf CodeDuplicateID "/ticketId" "local token %q collides with %s under ASCII case folding"
          [AStr local; AStr id])
      else CheckLocalToken_loop sum local f ids'
  end.

Definition CheckLocalToken (inv : Inventory) (local : string) : option Error :=
  CheckLocalToken_loop (inv_sum inv) local (FoldToken local) (inv_ids inv).

(** [less(i, j)] on the ids themselves; each has a summary. *)
Definition plan_Priority (sum : gmap string Summary) (x : string) : string :=
  match sum !! x with Some s => sum_Priority s | None => ε end.

Definition plan_Order (sum : gmap string Summary) (x : string) : Z :=
  match sum !! x with Some s => Count_Int (sum_Order s) | None => 0 end.

Definition plan_less (sum : gmap string Summary) (x y : string) : bool :=
  if negb (plan_Priority sum x =s plan_Priority sum y) then plan_Priority sum x <s plan_Priority sum y
  else if negb (plan_Order sum x =? plan_Order sum y) then plan_Order sum x <? plan_Order sum y
  else x <s y.

Definition Sorted_ (inv : Inventory) : list string :=
  isort (λ x y, negb (plan_less (inv_sum inv) y x)) (IDs inv).

Record UnmetDependency := { unm_TicketID : string; unm_Status : string }.

Definition metCompleted (dep : Summary) : bool :=
  (sum_Status dep =s StatusCompleted) ||
  ((sum_Status dep =s StatusArchived) &&
   match sum_ArchivedFrom dep with Some from => from =s StatusCompleted | None => false end).

Definition UnmetCompletedDependencies (inv : Inventory) (id : string) : list UnmetDependency :=
  isort (λ a b, negb (unm_TicketID b <s unm_TicketID a))
    (omap (λ d,
      if negb (dep_Obligation d =s "COMPLETED") then None
      else match inv_sum inv !! raw d with
      | None => Some {| unm_TicketID := raw d; unm_Status := ε |}
      | Some dep => if metCompleted dep then None else Some {| unm_TicketID := raw d; unm_Status := sum_Status dep |}
      end) (deps (inv_sum inv) id)).

(** ** A small queue

    Records for the instances of the inventory's theorems: [b] depends on
    [a], [c] and [d] on each other and on a ticket that does not exist. *)


Definition sample_queue : QueueID := {| QueueID_Raw := "queue:x:q"; QueueID_Authority := "x"; QueueID_Queue := "q" |}.

Definition sample_id (local : string) : TicketID :=
  {| TicketID_Raw := "ticket:x:q:" +:+ local; TicketID_Authority := "x"; TicketID_Queue := "q"; TicketID_Local := local |}.

Definition sample_dep (local : string) : Dependency :=
  {| dep_TicketID := sample_id local; dep_Obligation := "COMPLETED"; dep_GateID := None |}.

Definition sample_ledger_record (local priority : string) (on : list string) (ks : list KnowHowEntry) : Record_ :=
  {| rec_RequiredRoles := None; rec_RequiresPool := ε; rec_Escalations := None; rec_TicketID := sample_id local;
     rec_Revision := "1"; rec_AcceptanceRevision := "1"; rec_PreviousRecordSha256 := None; rec_Status := StatusOpen;
     rec_ArchivedFrom := None; rec_Title := "t"; rec_Body := None; rec_Kind := "BUG"; rec_Owner := None;
     rec_Milestone := None; rec_Priority := priority; rec_Order := "0"; rec_Labels := [];
     rec_Dependencies := sample_dep <$> on; rec_AcceptanceCriteria := []; rec_RequirementRefs := [];
     rec_Source := {| src_Kind := "NATIVE"; src_SourceQueueID := "queue:x:q"; src_SourceItemID := None;
                      src_SourceRevisionSha256 := None |};
     rec_Effects := {| eff_Coverage := "UNKNOWN"; eff_TouchPaths := []; eff_Resources := []; eff_ExternalUnbounded := false;
                       eff_VerdictPaths := None |};
     rec_Capabilities := []; rec_RequiredGates := []; rec_Holds := []; rec_ExecutionClass := "AUTONOMOUS";
     rec_Approvals := []; rec_Completion := None; rec_DueDate := None; rec_EstimateMinutes := None;
     rec_Supersedes := None; rec_SupersededBy := None; rec_ShadowOverlay := false;
     rec_CreatedAt := "2026-01-01T00:00:00Z"; rec_UpdatedAt := "2026-01-01T00:00:00Z"; rec_UpdatedBy := "op";
     rec_OperatorNote := None; rec_ExternalReviews := ∅; rec_ExecutionPrerequisites := []; rec_AttachedEvidence := [];
     rec_Progress := []; rec_KnowHow := ks; rec_ObligationsRef := None |}.

Definition sample_record (local priority : string) (on : list string) : Record_ := sample_ledger_record local priority on [].

Definition sample_records : list Record_ :=
  [sample_record "d" "P0" ["c"]; sample_record "b" "P1" ["a"]; sample_record "c" "P2" ["d"; "z"]; sample_record "a" "P1" []].

(** The inventory [NewInventory] builds. *)
Definition sample_inventory : Inventory :=
  match NewInventory sample_queue sample_records with
  | Ok inv => inv
  | _ => mkInventory sample_queue ∅ ∅ ∅ None [] ∅
  end.

Lemma sample_inventory_Ok : NewInventory sample_queue sample_records = Ok sample_inventory.
Proof. unfold sample_inventory. destruct (NewInventory _ _) eqn:E; [done|..]; exfalso; revert E; vm_compute; discriminate. Qed.
