(* ===== verification/GraphSpec.v ===== *)
(** * Proposed dependencies

    [CheckDependencies] refuses a proposed record exactly when one of its
    dependencies is missing or leads back to it, its search always ends, and
    a record it accepts closes no cycle. *)

From S2P Require Import Prelude Utf8 GoStd Codes Limits Value Primitives Ids Parse Ticket.
From S2P Require Import PrimitivesSpec Inventory.
Local Open Scope Z_scope.
Local Open Scope go_scope.

(** The dependency graph of the summaries. *)
Definition edge (sum : gmap string Summary) (u v : string) : Prop := ∃ d, d ∈ deps sum u ∧ raw d = v.

Lemma edge_fmap sum u v : edge sum u v ↔ v ∈ (λ d, raw d) <$> deps sum u.
Proof. rewrite list_elem_of_fmap. unfold edge. firstorder congruence. Qed.

Lemma list_elem_of_rev {A} (x : A) l : x ∈ rev l ↔ x ∈ l.
Proof. by rewrite !list_elem_of_In, <-in_rev. Qed.

(** ** The search *)

Section search.
Context (sum : gmap string Summary) (target : string).

(** The dependencies of the tickets of [l] not yet visited. *)
Definition unvisited (visited : gset string) (l : list (string * Summary)) : nat :=
  sum_list_with (λ kv, if bool_decide (kv.1 ∈ visited) then 0 else length (sum_Dependencies kv.2))%nat l.

Lemma unvisited_mono visited v l : (unvisited ({[v]} ∪ visited) l ≤ unvisited visited l)%nat.
Proof.
  induction l as [|[k s] l IH]; simpl; [lia|].
  destruct (decide (k ∈ visited)); [rewrite !bool_decide_true by set_solver; lia|].
  rewrite (bool_decide_false (k ∈ visited)) by done. case_bool_decide; lia.
Qed.

Lemma unvisited_visit visited v s l :
  v ∉ visited → (v, s) ∈ l →
  (length (sum_Dependencies s) + unvisited ({[v]} ∪ visited) l ≤ unvisited visited l)%nat.
Proof.
  intros Hv. induction l as [|[k x] l IH]; [by intros ?%not_elem_of_nil|]. intros [[= -> ->]|Hin]%elem_of_cons; simpl.
  - rewrite (bool_decide_true (k ∈ _)), (bool_decide_false (k ∈ visited)) by set_solver.
    pose proof (unvisited_mono visited k l). lia.
  - specialize (IH Hin). destruct (decide (k ∈ visited)); [rewrite !bool_decide_true by set_solver; lia|].
    rewrite (bool_decide_false (k ∈ visited)) by done. case_bool_decide; lia.
Qed.

Lemma unvisited_deps visited v :
  v ∉ visited →
  (length (deps sum v) + unvisited ({[v]} ∪ visited) (map_to_list sum) ≤ unvisited visited (map_to_list sum))%nat.
Proof.
  intros Hv. unfold deps. destruct (sum !! v) as [s|] eqn:Hs; [|apply unvisited_mono].
  apply unvisited_visit; [done|]. by apply elem_of_map_to_list.
Qed.

(** The search ends. *)
Lemma dfs_total fuel : ∀ visited stack,
  (length stack + unvisited visited (map_to_list sum) < fuel)%nat → is_Some (dfs fuel sum target visited stack).
Proof.
  induction fuel as [|fuel IH]; intros visited stack Hf; [lia|]. cbn [dfs]. destruct stack as [|v stack]; [done|].
  destruct (v =s target); [done|]. simpl in Hf. case_bool_decide as Hv; apply IH; [lia|].
  rewrite length_app, length_rev, length_fmap. pose proof (unvisited_deps visited v Hv). lia.
Qed.

Lemma dfs_fuel_enough ds :
  dfs_fuel sum ds = S (length ds + unvisited ∅ (map_to_list sum)).
Proof.
  unfold dfs_fuel. do 2 f_equal. rewrite map_fold_foldr.
  induction (map_to_list sum) as [|[k s] l IH]; [done|]. cbn -[unvisited]. rewrite IH. done.
Qed.

Lemma dfs_true fuel : ∀ visited stack,
  dfs fuel sum target visited stack = Some true → ∃ s, s ∈ stack ∧ rtc (edge sum) s target.
Proof.
  induction fuel as [|fuel IH]; intros visited stack H; [done|]. cbn [dfs] in H. destruct stack as [|v stack]; [done|].
  destruct (String.eqb_spec v target) as [->|]; [exists target; split; [by left|done]|].
  case_bool_decide as Hv; apply IH in H as (s & Hs & Hr).
  - exists s. split; [by right|done].
  - apply elem_of_app in Hs as [Hs|Hs]; [|exists s; by split; [right|]].
    exists v. split; [by left|]. eapply rtc_l; [|done]. by rewrite edge_fmap, <-list_elem_of_rev.
Qed.

(** The visited set of a search that failed is closed and misses [target]. *)
Lemma dfs_false fuel : ∀ visited stack,
  target ∉ visited → (∀ v w, v ∈ visited → edge sum v w → w ∈ visited ∨ w ∈ stack) →
  dfs fuel sum target visited stack = Some false →
  ∃ V : gset string, (target ∉ V) ∧ (∀ s, s ∈ stack → s ∈ V) ∧ (∀ v w, v ∈ V → edge sum v w → w ∈ V) ∧ (visited ⊆ V).
Proof.
  induction fuel as [|fuel IH]; intros visited stack Ht Hc H; [done|]. cbn [dfs] in H.
  destruct stack as [|v stack].
  { exists visited. split_and!; [done|by intros s ?%not_elem_of_nil| |done].
    intros x w Hx He. destruct (Hc x w Hx He) as [?|?%not_elem_of_nil]; done. }
  destruct (String.eqb_spec v target) as [|Hne]; [done|]. case_bool_decide as Hv.
  - apply IH in H as (V & HtV & Hs & HcV & Hsub); [|done|].
    + exists V. split_and!; [done| |done..]. intros s [->|?]%elem_of_cons; auto.
    + intros x w Hx He. destruct (Hc x w Hx He) as [?|[->|?]%elem_of_cons]; auto.
  - apply IH in H as (V & HtV & Hs & HcV & Hsub); [|set_solver|].
    + exists V. split_and!; [done| |done|set_solver].
      intros s [->|?]%elem_of_cons; [set_solver|]. apply Hs, elem_of_app. by right.
    + intros x w Hx He. destruct (decide (x = v)) as [->|].
      * right. apply elem_of_app. left. by rewrite list_elem_of_rev, <-edge_fmap.
      * destruct (Hc x w) as [?|[->|?]%elem_of_cons]; [set_solver|done|set_solver..|].
        right. apply elem_of_app. by right.
Qed.

Lemma closed_rtc (V : gset string) s t :
  (∀ v w, v ∈ V → edge sum v w → w ∈ V) → rtc (edge sum) s t → s ∈ V → t ∈ V.
Proof. intros Hc. induction 1; eauto. Qed.
End search.

(** ** The check *)

Lemma check_edges_spec sum target ds : ∀ i,
  match check_edges sum target i ds with
  | None => ∀ d, d ∈ ds → raw d ≠ target ∧ is_Some (sum !! raw d)
  | Some e =>
      (Code e = CodeCycle ∧ ∃ d, d ∈ ds ∧ raw d = target) ∨
      (Code e = CodeDependencyMissing ∧ ∃ d, d ∈ ds ∧ sum !! raw d = None)
  end.
Proof.
  induction ds as [|d ds IH]; intros i; simpl; [by intros d ?%not_elem_of_nil|].
  destruct (String.eqb_spec (raw d) target) as [He|He]; [left; split; [done|]; exists d; split; [by left|done]|].
  destruct (sum !! raw d) eqn:Hs; [|right; split; [done|]; exists d; split; [by left|done]].
  specialize (IH (i + 1)). destruct (check_edges sum target (i + 1) ds).
  - destruct IH as [[? (x & ? & ?)]|[? (x & ? & ?)]]; [left|right]; (split; [done|]; exists x; split; [by right|done]).
  - intros x [->|?]%elem_of_cons; [by rewrite Hs|auto].
Qed.

(** Each outcome of the check, from the two loops. *)
Lemma CheckDependencies_cases inv proposed :
  let t := TicketID_Raw (rec_TicketID proposed) in
  let ds := rec_Dependencies proposed in
  ∃ r, CheckDependencies inv proposed = Ok r ∧
  match r with
  | None =>
      (∀ d, d ∈ ds → raw d ≠ t ∧ is_Some (inv_sum inv !! raw d)) ∧
      (∀ d, d ∈ ds → ¬ rtc (edge (inv_sum inv)) (raw d) t)
  | Some e =>
      (Code e = CodeCycle ∧ ∃ d, d ∈ ds ∧ rtc (edge (inv_sum inv)) (raw d) t) ∨
      (Code e = CodeDependencyMissing ∧ ∃ d, d ∈ ds ∧ inv_sum inv !! raw d = None)
  end.
Proof.
  intros t ds. subst t ds. unfold CheckDependencies. set (t := TicketID_Raw _). set (ds := rec_Dependencies _).
  pose proof (check_edges_spec (inv_sum inv) t ds 0) as Hc. destruct (check_edges _ _ _ _) as [e|].
  { exists (Some e). split; [done|]. destruct Hc as [[? (d & ? & <-)]|?]; [left|by right].
    split; [done|]. exists d. split; [done|constructor]. }
  destruct (dfs_total (inv_sum inv) t (dfs_fuel (inv_sum inv) ds) ∅ (rev ((λ d, raw d) <$> ds))) as [b Hb].
  { rewrite dfs_fuel_enough, length_rev, length_fmap. lia. }
  rewrite Hb. destruct b; eexists; (split; [done|]).
  - left. split; [done|]. apply dfs_true in Hb as (s & Hs & Hr).
    rewrite list_elem_of_rev, list_elem_of_fmap in Hs. destruct Hs as (d & -> & Hd). by exists d.
  - split; [done|]. intros d Hd Hr. apply dfs_false in Hb as (V & HtV & Hs & HcV & _); [|set_solver..].
    apply HtV. eapply closed_rtc; [done..|]. apply Hs. rewrite list_elem_of_rev, list_elem_of_fmap. by exists d.
Qed.

(** The check of proposed dependencies always ends. It passes exactly when
    every dependency exists and none is, or leads back to, the proposed
    ticket; it answers CYCLE only for a dependency that leads back, and
    DEPENDENCY_MISSING only for one that does not exist. *)
Theorem CheckDependencies_spec inv proposed :
  let t := TicketID_Raw (rec_TicketID proposed) in
  let ds := rec_Dependencies proposed in
  (CheckDependencies inv proposed = Ok None ↔
    ∀ d, d ∈ ds → is_Some (inv_sum inv !! raw d) ∧ ¬ rtc (edge (inv_sum inv)) (raw d) t) ∧
  (CheckDependencies inv proposed ≠ Ok None → ∃ e, CheckDependencies inv proposed = Ok (Some e) ∧
    ((Code e = CodeCycle ∧ ∃ d, d ∈ ds ∧ rtc (edge (inv_sum inv)) (raw d) t) ∨
     (Code e = CodeDependencyMissing ∧ ∃ d, d ∈ ds ∧ inv_sum inv !! raw d = None))).
Proof.
  intros t ds. destruct (CheckDependencies_cases inv proposed) as (r & -> & Hr).
  fold t ds in Hr. split.
  - destruct r as [e|]; (split; [intros H|intros H]); try done.
    + destruct Hr as [[_ (d & Hd & Hreach)]|[_ (d & Hd & Hnone)]].
      * by destruct (H d Hd) as [_ Hn].
      * destruct (H d Hd) as [[s Hs] _]. congruence.
    + intros d Hd. destruct Hr as [H1 H2]. split; [by apply H1|by apply H2].
  - destruct r as [e|]; [|done]. intros _. by exists e.
Qed.

(** ** Overlaying a record *)

Lemma tc_first {A} (R : relation A) x y : tc R x y → ∃ z, R x z ∧ rtc R z y.
Proof. induction 1 as [x y H|x z y H Ht _]; [by exists y|exists z; split; [done|by apply tc_rtc]]. Qed.

Section overlay.
Context (sum : gmap string Summary) (t : string) (s : Summary).
Let sum' := <[t := s]> sum.

Lemma edge_overlay u v : u ≠ t → edge sum' u v ↔ edge sum u v.
Proof. intros Hu. unfold edge, deps, sum'. by rewrite lookup_insert_ne. Qed.

Lemma edge_overlay_eq v : edge sum' t v ↔ ∃ d, d ∈ sum_Dependencies s ∧ raw d = v.
Proof. unfold edge, deps, sum'. by rewrite lookup_insert_eq. Qed.

(** A path of the new graph is one of the old, or its first part is a path of
    the old graph to [t]. *)
Lemma overlay_rtc x y :
  rtc (edge sum') x y → rtc (edge sum) x y ∨ (rtc (edge sum) x t ∧ rtc (edge sum') t y).
Proof.
  induction 1 as [x|x z y He Hr IH]; [by left|]. destruct (decide (x = t)) as [->|Hx].
  - right. split; [done|]. by eapply rtc_l.
  - apply edge_overlay in He; [|done].
    destruct IH as [IH|[IH ?]]; [left|right; split; [|done]]; by eapply rtc_l.
Qed.

(** If no dependency of [t] leads back to it, the new graph has no new cycle. *)
Lemma overlay_cycle v :
  (∀ d, d ∈ sum_Dependencies s → ¬ rtc (edge sum) (raw d) t) → tc (edge sum') v v → tc (edge sum) v v.
Proof.
  intros Hn Hc. assert (∀ d w, d ∈ sum_Dependencies s → rtc (edge sum') (raw d) w → ¬ rtc (edge sum) w t) as Hno.
  { intros d w Hd Hr Hw. apply (Hn d Hd). apply overlay_rtc in Hr as [Hr|[Hr _]]; [|done]. by etransitivity. }
  assert (∃ z, edge sum' v z ∧ rtc (edge sum') z v) as (z & He & Hr).
  { apply tc_first in Hc. exact Hc. }
  destruct (decide (v = t)) as [->|Hv].
  - apply edge_overlay_eq in He as (d & Hd & <-). exfalso. by apply (Hno d t Hd Hr).
  - apply edge_overlay in He; [|done]. apply overlay_rtc in Hr as [Hr|[Hzt Htv]].
    + eapply tc_rtc_r; [by constructor|done].
    + exfalso. inv Htv as [|? y ? Hty Hyv]. apply edge_overlay_eq in Hty as (d & Hd & <-).
      apply (Hno d v Hd Hyv). by eapply rtc_l.
Qed.
End overlay.

(** Writing a record the check accepted closes no dependency cycle: every
    cycle of the new graph is one of the old; so an acyclic queue stays so. *)
Lemma CheckDependencies_acyclic inv proposed s :
  CheckDependencies inv proposed = Ok None →
  sum_Dependencies s = rec_Dependencies proposed →
  ∀ v, tc (edge (<[TicketID_Raw (rec_TicketID proposed) := s]> (inv_sum inv))) v v → tc (edge (inv_sum inv)) v v.
Proof.
  intros Hok Hs v. destruct (CheckDependencies_cases inv proposed) as (r & Hr & Hc). rewrite Hok in Hr.
  injection Hr as <-. destruct Hc as [_ Hc]. rewrite <-Hs in Hc. apply overlay_cycle. exact Hc.
Qed.
