(* ===== verification/TarjanSpec.v ===== *)
(** * The dependency cycles

    [findCycles] always ends and finds exactly the strongly connected
    components with a cycle: [visit] keeps an invariant of the shared state
    relative to the tickets whose visit has not returned, the gray ones. *)

From S2P Require Import Prelude Utf8 GoStd Codes Limits Value Primitives Ids Parse Ticket.
From S2P Require Import SetsSpec PrimitivesSpec Inventory GraphSpec.
Local Open Scope Z_scope.
Local Open Scope go_scope.

Section tarjan.
Context (sum : gmap string Summary).

(** A dependency on a ticket of the queue. *)
Definition arc (u w : string) : Prop := edge sum u w ∧ is_Some (sum !! w).
Abbreviation reach := (rtc arc).

Definition seen (st : tarjan) (v : string) : Prop := is_Some (tj_indices st !! v).
Definition num (st : tarjan) (v : string) : Z := default 0 (tj_indices st !! v).

(** A ticket whose component has been popped. *)
Definition done_ (st : tarjan) (v : string) : Prop := seen st v ∧ v ∉ tj_stack st.

(** What the cycle map must say of a ticket. *)
Definition component (v : string) (c : option (list string)) : Prop :=
  match c with
  | Some comp =>
      tc arc v v ∧ NoDup comp ∧ StronglySorted (λ x y, String.leb x y = true) comp ∧
      ∀ x, x ∈ comp ↔ reach v x ∧ reach x v
  | None => ¬ tc arc v v
  end.

Record wf (gray : list string) (st : tarjan) : Prop := {
  wf_gray : ∀ g, g ∈ gray → g ∈ tj_stack st;
  wf_seen : ∀ v, seen st v → is_Some (sum !! v);
  wf_stack_seen : ∀ v, v ∈ tj_stack st → seen st v;
  wf_onStack : ∀ v, onStack st v = true ↔ v ∈ tj_stack st;
  wf_num : ∀ v, seen st v → num st v < tj_index st;
  wf_sorted : StronglySorted (λ x y, num st y < num st x) (tj_stack st);
  wf_done : ∀ v w, done_ st v → arc v w → done_ st w;
  wf_black : ∀ v w, seen st v → v ∉ gray → arc v w → seen st w;
  wf_down : ∀ x, x ∈ tj_stack st → ∃ g, g ∈ gray ∧ num st g ≤ num st x ∧ reach x g;
  wf_up : ∀ x y, x ∈ tj_stack st → y ∈ tj_stack st → num st x ≤ num st y → reach x y;
  wf_cycles : ∀ v, done_ st v → component v (tj_inCycle st !! v);
  wf_rest : ∀ v, ¬ done_ st v → tj_inCycle st !! v = None
}.

(** What every step keeps of an earlier state. *)
Record extends (st st' : tarjan) : Prop := {
  ext_num : ∀ v, seen st v → tj_indices st' !! v = tj_indices st !! v;
  ext_low : ∀ v, seen st v → tj_low st' !! v = tj_low st !! v;
  ext_index : tj_index st ≤ tj_index st'
}.

(** What [visit v] returns: [v] is seen, on top of the old stack come the
    tickets [s] left on it, and [low v] is the least number of an old ticket
    that they point to, the number of [v] if there is none. *)
Record visited (v : string) (st st' : tarjan) : Prop := {
  vis_extends : extends st st';
  vis_num : tj_indices st' !! v = Some (tj_index st);
  vis_stack : ∃ s, tj_stack st' = s ++ tj_stack st ∧
    (v ∈ s ∨ s = [] ∧ low st' v = tj_index st) ∧
    ∀ x y, x ∈ s → y ∈ tj_stack st → arc x y → low st' v ≤ num st' y;
  vis_low : v ∈ tj_stack st' → ∃ y, y ∈ tj_stack st' ∧ num st' y = low st' v ∧ reach v y
}.

(** The loop of [visit v] started on the stack [base]; [ws] are the tickets
    it has looked at. *)
Record looping (v : string) (base ws : list string) (st : tarjan) : Prop := {
  lp_stack : ∃ s, tj_stack st = s ++ v :: base ∧
    ∀ x y, x ∈ s → y ∈ base → arc x y → low st v ≤ num st y;
  lp_low : ∃ y, y ∈ tj_stack st ∧ num st y = low st v ∧ reach v y;
  lp_le : low st v ≤ num st v;
  lp_seen : ∀ w, w ∈ ws → arc v w → seen st w ∧ (w ∈ base → low st v ≤ num st w)
}.

(** Tickets of the queue not yet seen. *)
Definition unseen (st : tarjan) : nat := size (dom sum ∖ dom (tj_indices st) : gset string).

(** ** Numbers on the stack *)

Lemma seen_dec st v : Decision (seen st v).
Proof. unfold seen. apply _. Qed.

Lemma extends_refl st : extends st st.
Proof. by split. Qed.

Lemma extends_seen st st' v : extends st st' → seen st v → seen st' v.
Proof. intros H Hv. unfold seen. by rewrite (ext_num _ _ H). Qed.

Lemma extends_num_eq st st' v : extends st st' → seen st v → num st' v = num st v.
Proof. intros H Hv. unfold num. by rewrite (ext_num _ _ H). Qed.

Lemma extends_trans a b c : extends a b → extends b c → extends a c.
Proof.
  intros Hab Hbc. split.
  - intros v Hv. rewrite (ext_num _ _ Hbc) by by eapply extends_seen. by apply Hab.
  - intros v Hv. rewrite (ext_low _ _ Hbc) by by eapply extends_seen. by apply Hab.
  - pose proof (ext_index _ _ Hab). pose proof (ext_index _ _ Hbc). lia.
Qed.

Lemma extends_unseen st st' : extends st st' → (unseen st' ≤ unseen st)%nat.
Proof.
  intros H. unfold unseen. apply subseteq_size. intros v.
  rewrite !elem_of_difference, !elem_of_dom. intros [Hv Hn]. split; [done|]. intros Hs. apply Hn.
  by eapply extends_seen.
Qed.

Lemma num_Some st v n : tj_indices st !! v = Some n → num st v = n.
Proof. unfold num. by intros ->. Qed.

(** ** Entering *)

Lemma seen_enter v st x : seen (enter v st) x ↔ x = v ∨ seen st x.
Proof.
  unfold seen, enter; simpl. destruct (decide (x = v)) as [->|Hx].
  - rewrite lookup_insert_eq. split; [by left|done].
  - rewrite lookup_insert_ne by done. split; [by right|by intros [|]].
Qed.

Lemma num_enter_eq v st : num (enter v st) v = tj_index st.
Proof. apply num_Some. apply lookup_insert_eq. Qed.

Lemma num_enter_ne v st x : x ≠ v → num (enter v st) x = num st x.
Proof. intros H. unfold num, enter; simpl. by rewrite lookup_insert_ne. Qed.

Lemma done_enter gray v st x : wf gray st → ¬ seen st v → done_ (enter v st) x ↔ done_ st x.
Proof.
  intros Hw Hv. unfold done_. rewrite seen_enter. simpl. rewrite not_elem_of_cons. split.
  - intros [[->|?] [? ?]]; [done|by split].
  - intros [? ?]. split; [by right|]. split; [|done]. by intros ->.
Qed.

Lemma enter_extends v st : ¬ seen st v → extends st (enter v st).
Proof.
  intros Hv. assert (∀ x, seen st x → x ≠ v) as Hne by by intros x ? ->. split; simpl.
  - intros x Hx. by rewrite lookup_insert_ne by (symmetry; auto).
  - intros x Hx. by rewrite lookup_insert_ne by (symmetry; auto).
  - lia.
Qed.

Lemma enter_unseen v st : ¬ seen st v → is_Some (sum !! v) → (unseen (enter v st) < unseen st)%nat.
Proof.
  intros Hv Hs. unfold unseen. apply subset_size. split.
  - intros x. rewrite !elem_of_difference, !elem_of_dom. intros [? Hx]. split; [done|].
    intros ?. apply Hx, seen_enter. by right.
  - intros Hsub. specialize (Hsub v). rewrite !elem_of_difference, !elem_of_dom in Hsub.
    destruct Hsub as [_ Hn]; [by split|]. apply Hn, seen_enter. by left.
Qed.

Lemma stack_ne gray v st x : wf gray st → ¬ seen st v → x ∈ tj_stack st → x ≠ v.
Proof. intros Hw Hv Hx ->. by apply Hv, (wf_stack_seen _ _ Hw). Qed.

Lemma enter_wf gray v st :
  wf gray st → ¬ seen st v → is_Some (sum !! v) → (∀ g, g ∈ gray → reach g v) → wf (v :: gray) (enter v st).
Proof.
  intros Hw Hv Hs Hg. pose proof (λ x, stack_ne gray v st x Hw Hv) as Hne. constructor.
  - intros g [->|Hin]%elem_of_cons; simpl; [by left|]. right. by apply Hw.
  - intros x [->|Hx]%seen_enter; [done|]. by apply Hw.
  - intros x [->|Hx]%elem_of_cons; apply seen_enter; [by left|right]. by apply Hw.
  - intros x. unfold onStack, enter; simpl. rewrite elem_of_cons. destruct (decide (x = v)) as [->|Hx].
    + rewrite lookup_insert_eq. split; [by left|done].
    + rewrite lookup_insert_ne by done. pose proof (wf_onStack _ _ Hw x). unfold onStack in *. naive_solver.
  - intros x Hx. simpl. destruct (decide (x = v)) as [->|Hxv].
    + rewrite num_enter_eq. lia.
    + rewrite num_enter_ne by done. apply seen_enter in Hx as [?|Hx]; [done|]. pose proof (wf_num _ _ Hw x Hx). lia.
  - simpl. constructor.
    + pose proof (wf_sorted _ _ Hw) as Hso. eapply StronglySorted_weaken; [|exact Hso].
      intros x y Hx Hy. cbv beta. rewrite !num_enter_ne by auto. done.
    + apply Forall_forall. intros y Hy. rewrite num_enter_eq, num_enter_ne by auto.
      by apply (wf_num _ _ Hw), (wf_stack_seen _ _ Hw).
  - intros x w. rewrite !(done_enter gray) by done. by apply Hw.
  - intros x w Hx Hn Ha. rewrite not_elem_of_cons in Hn. apply seen_enter in Hx as [?|Hx]; [by destruct Hn|].
    apply seen_enter. right. by apply (wf_black _ _ Hw x w); [|apply Hn|].
  - intros x [->|Hx]%elem_of_cons; [exists v; split_and!; [by left|lia|done]|].
    destruct (wf_down _ _ Hw x Hx) as (g & Hin & Hle & Hr). exists g. split_and!; [by right| |done].
    assert (g ∈ tj_stack st) by by apply Hw. rewrite !num_enter_ne by auto. done.
  - intros x y [->|Hx]%elem_of_cons [->|Hy]%elem_of_cons; [done| | |].
    + rewrite num_enter_eq, num_enter_ne by auto. intros Hle.
      pose proof (wf_num _ _ Hw y (wf_stack_seen _ _ Hw y Hy)). lia.
    + intros _. destruct (wf_down _ _ Hw x Hx) as (g & Hin & _ & Hr). etransitivity; [exact Hr|auto].
    + rewrite !num_enter_ne by auto. by apply Hw.
  - intros x. rewrite (done_enter gray) by done. by apply Hw.
  - intros x. rewrite (done_enter gray) by done. by apply Hw.
Qed.

Lemma enter_looping v st : looping v (tj_stack st) [] (enter v st).
Proof.
  assert (low (enter v st) v = tj_index st) as Hl by (unfold low; simpl; by rewrite lookup_insert_eq).
  constructor; rewrite ?Hl, ?num_enter_eq; [| |lia|by intros w ?%not_elem_of_nil].
  - exists []. split; [done|]. by intros x y ?%not_elem_of_nil.
  - exists v. split_and!; [by left|by rewrite num_enter_eq|done].
Qed.

(** ** Lowering *)

Definition relax (v : string) (n : Z) (st : tarjan) : tarjan := if n <? low st v then set_low v n st else st.

Lemma low_relax v n st : low (relax v n st) v = Z.min n (low st v).
Proof.
  unfold relax. destruct (Z.ltb_spec n (low st v)); [|lia].
  unfold low at 1, set_low; simpl. rewrite lookup_insert_eq. simpl. lia.
Qed.

(** Lowering changes nothing else. *)
Lemma relax_ind (P : tarjan → Prop) v n st : P st → P (set_low v n st) → P (relax v n st).
Proof. unfold relax. by destruct (n <? low st v). Qed.

Lemma relax_fields v n st :
  tj_index (relax v n st) = tj_index st ∧ tj_indices (relax v n st) = tj_indices st ∧
  tj_onStack (relax v n st) = tj_onStack st ∧ tj_stack (relax v n st) = tj_stack st ∧
  tj_inCycle (relax v n st) = tj_inCycle st.
Proof. by apply relax_ind. Qed.

Lemma relax_wf gray v n st : wf gray st → wf gray (relax v n st).
Proof. intros H. apply relax_ind; [done|]. destruct H. by constructor. Qed.

Lemma relax_extends st0 v n st : extends st0 st → ¬ seen st0 v → extends st0 (relax v n st).
Proof.
  intros H Hv. apply relax_ind; [done|]. destruct H as [Hn Hl Hi]. split; [done| |done].
  intros x Hx. simpl. rewrite lookup_insert_ne; [auto|]. by intros ->.

Qed.
(** One more ticket looked at, whose number or low number is [n]: for what is
    now above [v] on the stack the bound is the lower of the two. *)
Lemma looping_relax v base ws w n s st :
  tj_stack st = s ++ v :: base →
  (∀ x y, x ∈ s → y ∈ base → arc x y → Z.min n (low st v) ≤ num st y) →
  (n < low st v → ∃ y, y ∈ tj_stack st ∧ num st y = n ∧ reach v y) →
  (∃ y, y ∈ tj_stack st ∧ num st y = low st v ∧ reach v y) → low st v ≤ num st v →
  (∀ w, w ∈ ws → arc v w → seen st w ∧ (w ∈ base → low st v ≤ num st w)) →
  seen st w → (w ∈ base → Z.min n (low st v) ≤ num st w) →
  looping v base (ws ++ [w]) (relax v n st).
Proof.
  intros Hst Hs Hn Hlow Hle Hws Hw Hwb.
  destruct (relax_fields v n st) as (_ & Hi & _ & Hk & _).
  assert (∀ x, num (relax v n st) x = num st x) as Hnum by (intros x; unfold num; by rewrite Hi).
  constructor; rewrite ?low_relax, ?Hk.
  - exists s. split; [done|]. intros x y ? ? ?. rewrite Hnum. by apply (Hs x y).
  - destruct (decide (n < low st v)) as [Hlt|Hge].
    + destruct (Hn Hlt) as (y & ? & ? & ?). exists y. rewrite Hnum. split_and!; [done|lia|done].
    + destruct Hlow as (y & ? & ? & ?). exists y. rewrite Hnum. split_and!; [done|lia|done].
  - rewrite Hnum. lia.
  - intros x [Hx|Hx]%elem_of_app Ha; unfold seen; rewrite Hi, Hnum.
    + destruct (Hws x Hx Ha) as [? Hb]. split; [done|]. intros Hxb. specialize (Hb Hxb). lia.
    + apply list_elem_of_singleton in Hx as ->. by split.
Qed.

Lemma looping_seen v base ws w st gray :
  wf (v :: gray) st → looping v base ws st → arc v w → seen st w →
  looping v base (ws ++ [w]) (if onStack st w then relax v (num st w) st else st).
Proof.
  intros Hw [(s & Hst & Hs) Hlow Hle Hws] Ha Hseen.
  assert (∀ n, (n < low st v → n = num st w ∧ w ∈ tj_stack st) → (w ∈ base → Z.min n (low st v) ≤ num st w) →
    looping v base (ws ++ [w]) (relax v n st)) as H.
  { intros n Hn Hwb. apply (looping_relax v base ws w n s); try done.
    - intros x y Hx Hy Hxy. specialize (Hs x y Hx Hy Hxy). lia.
    - intros Hlt. destruct (Hn Hlt) as [-> Hin]. exists w. split_and!; [done..|by apply rtc_once]. }
  destruct (onStack st w) eqn:Hon.
  - apply (wf_onStack _ _ Hw) in Hon. apply H; [done|lia].
  - assert (st = relax v (low st v) st) as Heq by (unfold relax; by rewrite Z.ltb_irrefl).
    rewrite Heq. apply H; [lia|]. intros Hb. exfalso. apply not_true_iff_false in Hon. apply Hon, Hw.
    rewrite Hst. apply elem_of_app. right. by right.
Qed.

Lemma looping_visit gray v base ws w st st1 :
  wf (v :: gray) st → looping v base ws st → arc v w → ¬ seen st w →
  wf (v :: gray) st1 → visited w st st1 → looping v base (ws ++ [w]) (relax v (low st1 w) st1).
Proof.
  intros Hw [(s & Hst & Hs) (y0 & Hy0 & Hn0 & Hr0) Hle Hws] Ha Hns Hw1 [Hext Hnum (s1 & Hst1 & Hdone & Hs1) Hlow1].
  assert (∀ x, x ∈ tj_stack st → seen st x) as Hss by apply Hw.
  assert (v ∈ tj_stack st) as Hv by (rewrite Hst; apply elem_of_app; right; by left).
  assert (∀ x, x ∈ base → x ∈ tj_stack st) as Hb by (intros x ?; rewrite Hst; apply elem_of_app; right; by right).
  assert (low st1 v = low st v) as Hlv by (unfold low; by rewrite (ext_low _ _ Hext) by auto).
  assert (∀ x, x ∈ tj_stack st → num st1 x = num st x) as Hnn by (intros x Hx; by apply extends_num_eq; auto).
  apply (looping_relax v base ws w _ (s1 ++ s)); rewrite ?Hlv.
  - rewrite Hst1, Hst. by rewrite <-app_assoc.
  - intros x y [Hx|Hx]%elem_of_app Hy Hxy.
    + specialize (Hs1 x y Hx (Hb y Hy) Hxy). lia.
    + specialize (Hs x y Hx Hy Hxy). rewrite Hnn by auto. lia.
  - intros Hlt. destruct Hdone as [Hin|[-> Heq]].
    + destruct Hlow1 as (y & Hy & Hny & Hr); [rewrite Hst1; apply elem_of_app; by left|].
      exists y. split_and!; [done..|]. by eapply rtc_l.
    + exfalso. pose proof (wf_num _ _ Hw v (Hss v Hv)). lia.
  - exists y0. rewrite Hnn by done. split_and!; [|done..]. rewrite Hst1. apply elem_of_app. by right.
  - rewrite Hnn by done. lia.
  - intros x Hx Hax. destruct (Hws x Hx Hax) as [Hsx Hbx]. split; [by eapply extends_seen|].
    intros Hxb. rewrite Hnn by auto. auto.
  - unfold seen. by rewrite Hnum.
  - intros Hwb. destruct Hns. auto.
Qed.

(** ** The loop *)

Section loop.
Context (fuel : nat).
Hypothesis visit_spec : ∀ gray v st,
  wf gray st → ¬ seen st v → is_Some (sum !! v) → (∀ g, g ∈ gray → reach g v) → (unseen st < fuel)%nat →
  ∃ st', visit fuel sum v st = Some st' ∧ wf gray st' ∧ visited v st st'.

Lemma edges_spec gray v base st0 ws' : ∀ ws st,
  (∀ w, w ∈ ws' → edge sum v w) → wf (v :: gray) st → looping v base ws st → extends st0 st → ¬ seen st0 v →
  (∀ g, g ∈ v :: gray → reach g v) → (unseen st < fuel)%nat →
  ∃ st', edges (visit fuel sum) sum v ws' st = Some st' ∧ wf (v :: gray) st' ∧
    looping v base (ws ++ ws') st' ∧ extends st0 st' ∧ tj_indices st' !! v = tj_indices st !! v.
Proof.
  induction ws' as [|w ws' IH]; intros ws st Hws Hw Hl Hext Hv Hg Hf; cbn [edges].
  { exists st. rewrite app_nil_r. by split_and!. }
  assert (∀ x, x ∈ ws' → edge sum v x) as Hws' by (intros; apply Hws; by right).
  replace (ws ++ w :: ws') with ((ws ++ [w]) ++ ws') by by rewrite <-app_assoc.
  assert (v ∈ tj_stack st) as Hvs.
  { destruct (lp_stack _ _ _ _ Hl) as (s & -> & _). apply elem_of_app. right. by left. }
  destruct (sum !! w) as [sw|] eqn:Hsw.
  2:{ apply IH; try done. destruct Hl as [H1 H2 H3 H4]. split; [done..|].
      intros x [Hx|Hx]%elem_of_app Ha; [auto|]. apply list_elem_of_singleton in Hx as ->.
      destruct Ha as [_ [? Ha]]. congruence. }
  assert (arc v w) as Ha by (split; [apply Hws; by left|done]).
  destruct (tj_indices st !! w) as [iw|] eqn:Hi.
  - apply num_Some in Hi as Hnum. assert (seen st w) as Hsw' by by exists iw.
    pose proof (looping_seen _ _ _ _ _ _ Hw Hl Ha Hsw') as Hl'.
    assert ((if onStack st w && (iw <? low st v) then set_low v iw st else st) =
      (if onStack st w then relax v (num st w) st else st)) as ->.
    { rewrite Hnum. unfold relax. by destruct (onStack st w). }
    destruct (onStack st w); [|by apply IH]. destruct (relax_fields v (num st w) st) as (_ & Hri & _).
    rewrite <-Hri. apply IH; [done|by apply relax_wf|done|by apply relax_extends|done|done|].
    unfold unseen in *. by rewrite Hri.
  - assert (¬ seen st w) as Hns by (intros [? ?]; congruence).
    destruct (visit_spec (v :: gray) w st Hw Hns) as (st1 & -> & Hw1 & Hvis); [done| |done|].
    { intros g Hin. etransitivity; [by apply Hg|by apply rtc_once]. }
    cbn [mbind option_bind].
    pose proof (looping_visit _ _ _ _ _ _ _ Hw Hl Ha Hns Hw1 Hvis) as Hl1.
    fold (relax v (low st1 w) st1). destruct (relax_fields v (low st1 w) st1) as (_ & Hri & _).
    pose proof (vis_extends _ _ _ Hvis) as Hext1.
    assert (tj_indices st1 !! v = tj_indices st !! v) as <-.
    { apply (ext_num _ _ Hext1). by apply (wf_stack_seen _ _ Hw). }
    rewrite <-Hri. apply IH; [done|by apply relax_wf|done| |done|done|].
    + apply relax_extends; [by eapply extends_trans|done].
    + pose proof (extends_unseen _ _ Hext1). unfold unseen in *. rewrite Hri. lia.
Qed.
End loop.

(** ** Popping a component *)

Lemma pop_spec v base s : ∀ on comp,
  v ∉ s → ∃ on', pop v (s ++ v :: base) on comp = Some (base, on', comp ++ s ++ [v]) ∧
    ∀ x, on' !! x = if decide (x ∈ s ++ [v]) then Some false else on !! x.
Proof.
  induction s as [|w s IH]; intros on comp Hv; simpl.
  - rewrite String.eqb_refl. eexists. split; [done|]. intros x. destruct (decide (x = v)) as [->|Hx].
    + rewrite lookup_insert_eq. case_decide; [done|set_solver].
    + rewrite lookup_insert_ne by done. case_decide; [set_solver|done].
  - rewrite not_elem_of_cons in Hv. destruct Hv as [Hne Hv].
    destruct (String.eqb_spec w v) as [->|_]; [done|].
    destruct (IH (<[w:=false]> on) (comp ++ [w]) Hv) as (on' & -> & Hon). exists on'. split; [by rewrite <-app_assoc|].
    intros x. rewrite Hon. destruct (decide (x = w)) as [->|Hx].
    + rewrite lookup_insert_eq. repeat case_decide; first [done|set_solver].
    + rewrite lookup_insert_ne by done. repeat case_decide; first [done|set_solver].
Qed.

Lemma foldl_insert_lookup (c : list string) l : ∀ (m : gmap string (list string)) k,
  foldl (λ m x, <[x := c]> m) m l !! k = if decide (k ∈ l) then Some c else m !! k.
Proof.
  induction l as [|x l IH]; intros m k; cbn [foldl]; [case_decide as H; [by apply not_elem_of_nil in H|done]|].
  rewrite IH. destruct (decide (k = x)) as [->|Hx].
  - rewrite lookup_insert_eq. repeat case_decide; first [done|set_solver].
  - rewrite lookup_insert_ne by done. repeat case_decide; first [done|set_solver].
Qed.

Section leaving.
Context (gray : list string) (v : string) (st0 st : tarjan) (ws s : list string).
Hypotheses (Hw0 : wf gray st0) (Hv : ¬ seen st0 v) (Hw : wf (v :: gray) st) (Hl : looping v (tj_stack st0) ws st)
  (Hws : ∀ w, arc v w → w ∈ ws) (Hext : extends st0 st) (Hnum : tj_indices st !! v = Some (tj_index st0))
  (Hst : tj_stack st = s ++ v :: tj_stack st0).

Let base := tj_stack st0.
Let comp := s ++ [v].

Lemma on_stack x : x ∈ tj_stack st ↔ x ∈ comp ∨ x ∈ base.
Proof. rewrite Hst. unfold comp, base. rewrite !elem_of_app, elem_of_cons, list_elem_of_singleton. tauto. Qed.

Lemma v_comp : v ∈ comp.
Proof. apply elem_of_app. right. by left. Qed.

Lemma num_comp x : x ∈ comp → num st v ≤ num st x.
Proof.
  pose proof (wf_sorted _ _ Hw) as H. rewrite Hst in H. apply StronglySorted_app in H as (Hc & _).
  intros [Hx|Hx]%elem_of_app; [|apply list_elem_of_singleton in Hx as ->; lia].
  specialize (Hc x v Hx ltac:(by left)). simpl in Hc. lia.
Qed.

Lemma num_base y : y ∈ base → num st y < num st v.
Proof.
  pose proof (wf_sorted _ _ Hw) as H. rewrite Hst in H. apply StronglySorted_app in H as (_ & _ & H).
  apply StronglySorted_inv in H as [_ H]. rewrite Forall_forall in H. by apply H.
Qed.

Lemma comp_base x : x ∈ comp → x ∉ base.
Proof. intros Hc%num_comp Hb%num_base. lia. Qed.

Lemma v_not_s : v ∉ s.
Proof.
  intros Hs. pose proof (wf_sorted _ _ Hw) as H. rewrite Hst in H. apply StronglySorted_app in H as (Hc & _).
  specialize (Hc v v Hs ltac:(by left)). simpl in Hc. lia.
Qed.

Lemma NoDup_comp : NoDup comp.
Proof.
  pose proof (wf_sorted _ _ Hw) as H. rewrite Hst in H. apply StronglySorted_app in H as (_ & Hs & _).
  unfold comp. apply NoDup_app. split_and!; [|intros x Hx ->%list_elem_of_singleton; by apply v_not_s|by apply NoDup_singleton].
  clear -Hs. induction Hs as [|x l _ IH Hf]; constructor; [|done]. intros Hx. rewrite Forall_forall in Hf.
  specialize (Hf x Hx). simpl in Hf. lia.
Qed.

Lemma gray_base g : g ∈ gray → g ∈ base.
Proof. apply Hw0. Qed.

Lemma v_not_base : v ∉ base.
Proof. apply comp_base, v_comp. Qed.

(** Every dependency of what is above [base] has been seen. *)
Lemma comp_seen x y : x ∈ comp → arc x y → seen st y.
Proof.
  intros Hx Ha. destruct (decide (x = v)) as [->|Hne]; [by apply (lp_seen _ _ _ _ Hl y); [apply Hws|]|].
  apply (wf_black _ _ Hw x y); [apply Hw, on_stack; by left| |done].
  rewrite not_elem_of_cons. split; [done|]. intros Hg%gray_base. by apply (comp_base x).
Qed.

Lemma comp_low x y : x ∈ comp → y ∈ base → arc x y → low st v ≤ num st y.
Proof.
  intros [Hx|Hx]%elem_of_app Hy Ha.
  - destruct (lp_stack _ _ _ _ Hl) as (s' & Hs' & Hb). rewrite Hst in Hs'. apply app_inv_tail in Hs' as <-. by apply (Hb x y).
  - apply list_elem_of_singleton in Hx as ->. by apply (lp_seen _ _ _ _ Hl y); [apply Hws| |].
Qed.

Lemma black_v x w : seen st x → x ∉ gray → arc x w → seen st w.
Proof.
  intros Hx Hg Ha. destruct (decide (x = v)) as [->|Hne]; [apply (comp_seen v); [apply v_comp|done]|].
  apply (wf_black _ _ Hw x w); [done| |done]. by rewrite not_elem_of_cons.
Qed.

Lemma num_v : num st v = tj_index st0.
Proof. by apply num_Some. Qed.

(** *** The ticket stays on the stack *)

Lemma stay_wf : low st v < num st v → wf gray st.
Proof.
  intros Hlt. destruct (Hw) as [_ H2 H3 H4 H5 H6 H7 _ H9 H10 H11 H12]. constructor; try done.
  - intros g Hg. apply on_stack. right. by apply gray_base.
  - intros x w. apply black_v.
  - intros x Hx. destruct (H9 x Hx) as (g & [->|Hg]%elem_of_cons & Hle & Hr); [|by exists g].
    destruct (lp_low _ _ _ _ Hl) as (y & Hy & Hny & Hry). destruct (H9 y Hy) as (g & [->|Hg]%elem_of_cons & Hle' & Hr').
    + lia.
    + exists g. split_and!; [done|lia|]. etransitivity; [exact Hr|]. by etransitivity.
Qed.

Lemma stay_visited : visited v st0 st.
Proof.
  constructor; [done|done| |].
  - exists comp. split_and!; [by rewrite Hst; unfold comp; rewrite <-app_assoc|left; apply v_comp|].
    intros x y Hx Hy Ha. by apply (comp_low x y).
  - intros _. apply (lp_low _ _ _ _ Hl).
Qed.

(** *** The ticket is the root of its component *)

Section root.
Hypothesis Hroot : low st v = num st v.

Lemma comp_arc x y : x ∈ comp → arc x y → y ∈ comp ∨ done_ st y.
Proof.
  intros Hx Ha. destruct (decide (y ∈ tj_stack st)) as [Hy|Hy].
  - apply on_stack in Hy as [Hy|Hy]; [by left|]. pose proof (comp_low x y Hx Hy Ha). pose proof (num_base y Hy). lia.
  - right. split; [by apply (comp_seen x)|done].
Qed.

Lemma done_rtc x y : reach x y → done_ st x → done_ st y.
Proof. induction 1 as [|x z y Ha _ IH]; [done|]. intros Hx. by eapply IH, (wf_done _ _ Hw). Qed.

Lemma comp_rtc x y : reach x y → x ∈ comp → y ∈ comp ∨ done_ st y.
Proof.
  induction 1 as [x|x z y Ha Hr IH]; intros Hx; [by left|].
  destruct (comp_arc x z Hx Ha) as [Hz|Hz]; [auto|]. right. by eapply done_rtc.
Qed.

Lemma comp_not_done x : x ∈ comp → ¬ done_ st x.
Proof. intros Hx [_ Hn]. apply Hn, on_stack. by left. Qed.

Lemma comp_reach_v x : x ∈ comp → reach x v.
Proof.
  intros Hx. destruct (wf_down _ _ Hw x) as (g & [->|Hg]%elem_of_cons & _ & Hr); [apply on_stack; by left|done|].
  apply gray_base in Hg as Hb. destruct (comp_rtc x g Hr Hx) as [Hc|[_ Hd]]; [by destruct (comp_base g)|].
  exfalso. apply Hd, on_stack. by right.
Qed.

Lemma v_reach_comp x : x ∈ comp → reach v x.
Proof. intros Hx. apply (wf_up _ _ Hw); [apply on_stack; left; apply v_comp|apply on_stack; by left|by apply num_comp]. Qed.

(** What was above [base] is a strongly connected component. *)
Lemma comp_scc u x : u ∈ comp → x ∈ comp ↔ reach u x ∧ reach x u.
Proof.
  intros Hu. split.
  - intros Hx. split; (etransitivity; [by apply comp_reach_v|by apply v_reach_comp]).
  - intros [Hux Hxu]. destruct (comp_rtc u x Hux Hu) as [|Hd]; [done|].
    exfalso. by apply (comp_not_done u), (done_rtc x).
Qed.

Lemma comp_cyclic u :
  u ∈ comp → tc arc u u ↔ (1 < length comp)%nat ∨ arc v v.
Proof.
  intros Hu. split.
  - intros Hc. destruct (decide (length s = 0%nat)) as [Es|Es]; [|left; unfold comp; rewrite length_app; simpl; lia].
    apply nil_length_inv in Es. right. apply tc_first in Hc as (z & Ha & Hr).
    assert (∀ x, x ∈ comp → x = v) as Hone.
    { intros x. unfold comp. rewrite Es. by intros ?%list_elem_of_singleton. }
    rewrite (Hone u Hu) in Ha, Hr. rewrite (Hone z) in Ha; [done|].
    apply (comp_scc v); [apply v_comp|]. split; [by apply rtc_once|done].
  - intros [Hlen|Ha].
    + assert (∃ z, z ∈ comp ∧ z ≠ u) as (z & Hz & Hne).
      { pose proof NoDup_comp as Hnd. destruct comp as [|a [|b l]]; simpl in Hlen; [lia..|].
        apply NoDup_cons in Hnd as [Hab _]. destruct (decide (a = u)) as [->|]; [exists b|exists a; split; [by left|done]].
        split; [right; by left|]. intros ->. apply Hab. by left. }
      apply (comp_scc u) in Hz as [Huz Hzu]; [|done]. inv Huz as [|? y ? Ha Hr].
      eapply tc_rtc_r; [by apply tc_once|]. by etransitivity.
    + eapply tc_rtc_l; [by apply comp_reach_v|]. eapply tc_rtc_r; [by apply tc_once|by apply v_reach_comp].
Qed.

Lemma comp_component u (self : bool) :
  u ∈ comp → (self = true ↔ arc v v) →
  component u (if (1 <? Z.of_nat (length comp)) || self then Some (SortStrings comp) else None).
Proof.
  intros Hu Hself. pose proof (comp_cyclic u Hu) as Hc.
  destruct (Z.ltb_spec 1 (Z.of_nat (length comp))) as [Hlen|Hlen]; [|destruct self]; cbn [orb component].
  3:{ rewrite Hc. intros [?|?%Hself]; [lia|done]. }
  all: split_and!; [apply Hc; (left; lia) || (right; by apply Hself)|by rewrite SortStrings_perm; apply NoDup_comp
    |apply SortStrings_StronglySorted|intros x; rewrite SortStrings_perm; by apply comp_scc].
Qed.

(** The state after popping. *)
Section popped.
Context (self : bool) (on' : gmap string bool).
Hypothesis Hself : self = true ↔ arc v v.
Hypothesis Hon : ∀ x, on' !! x = if decide (x ∈ comp) then Some false else tj_onStack st !! x.

Let cyc := if (1 <? Z.of_nat (length comp)) || self then Some (SortStrings comp) else None.
Let st' := mkTarjan (tj_index st) (tj_indices st) (tj_low st) on' base
  (match cyc with Some c => foldl (λ m x, <[x := c]> m) (tj_inCycle st) c | None => tj_inCycle st end).

Lemma popped_cycles x : tj_inCycle st' !! x = if decide (x ∈ comp) then cyc else tj_inCycle st !! x.
Proof.
  subst st'. cbn [tj_inCycle]. destruct cyc as [c|] eqn:Hc.
  - rewrite foldl_insert_lookup. apply decide_ext. revert Hc. unfold cyc. destruct (_ || _); [|done].
    intros [= <-]. by rewrite SortStrings_perm.
  - destruct (decide (x ∈ comp)) as [Hx|]; [|done]. apply (wf_rest _ _ Hw). by apply comp_not_done.
Qed.

Lemma popped_done x : done_ st' x ↔ x ∈ comp ∨ done_ st x.
Proof.
  unfold done_, st'; simpl. split.
  - intros [Hs Hb]. destruct (decide (x ∈ comp)) as [|Hx]; [by left|right]. split; [done|].
    rewrite on_stack. tauto.
  - intros [Hx|[Hs Hx]].
    + split; [apply Hw, on_stack; by left|by apply comp_base].
    + split; [done|]. intros Hb. apply Hx, on_stack. by right.
Qed.

Lemma popped_wf : wf gray st'.
Proof.
  constructor.
  - apply gray_base.
  - apply Hw.
  - intros x Hx. apply (wf_stack_seen _ _ Hw), on_stack. by right.
  - intros x. unfold onStack, st'; simpl. rewrite Hon. case_decide as Hx.
    + split; [done|]. intros Hb. by destruct (comp_base x).
    + pose proof (wf_onStack _ _ Hw x) as H. unfold onStack in H. rewrite H, on_stack. tauto.
  - apply Hw.
  - pose proof (wf_sorted _ _ Hw) as H. rewrite Hst in H. apply StronglySorted_app in H as (_ & _ & H).
    by apply StronglySorted_inv in H as [H _].
  - intros x w. rewrite !popped_done. intros [Hx|Hx] Ha; [by apply (comp_arc x)|right; by apply (wf_done _ _ Hw x)].
  - intros x w. apply black_v.
  - intros x Hx. destruct (wf_down _ _ Hw x) as (g & [->|Hg]%elem_of_cons & Hle & Hr); [apply on_stack; by right| |by exists g].
    pose proof (num_base x Hx). lia.
  - intros x y Hx Hy. apply (wf_up _ _ Hw); apply on_stack; by right.
  - intros x. rewrite popped_done, popped_cycles. intros Hd. destruct (decide (x ∈ comp)) as [Hx|Hx].
    + by apply comp_component.
    + destruct Hd as [|Hd]; [done|]. by apply (wf_cycles _ _ Hw).
  - intros x. rewrite popped_done, popped_cycles. intros Hd. rewrite decide_False by tauto.
    apply (wf_rest _ _ Hw). tauto.
Qed.

Lemma popped_visited : visited v st0 st'.
Proof.
  constructor.
  - destruct Hext as [? ? ?]. by constructor.
  - done.
  - exists []. split_and!; [done| |by intros x y ?%not_elem_of_nil]. right. split; [done|].
    unfold low, st'; simpl. fold (low st v). by rewrite Hroot, num_v.
  - intros Hb. by destruct v_not_base.
Qed.
End popped.
End root.

Lemma leave_spec (self : bool) :
  (self = true ↔ arc v v) → ∃ st', leave v self st = Some st' ∧ wf gray st' ∧ visited v st0 st'.
Proof.
  intros Hself. unfold leave. fold (num st v). destruct (Z.eqb_spec (low st v) (num st v)) as [Hroot|Hne].
  - rewrite Hst. fold base. destruct (pop_spec v base s (tj_onStack st) [] v_not_s) as (on' & -> & Hon).
    cbn [mbind option_bind app]. fold comp in Hon |- *.
    pose proof (popped_wf Hroot self on' Hself Hon) as Hwf. pose proof (popped_visited Hroot self on') as Hvis.
    eexists. split; [done|]. destruct ((1 <? Z.of_nat (length comp)) || self); by split.
  - exists st. split; [done|]. split; [|apply stay_visited]. apply stay_wf. pose proof (lp_le _ _ _ _ Hl). lia.
Qed.
End leaving.

(** ** Visiting *)

Lemma visit_spec fuel : ∀ gray v st,
  wf gray st → ¬ seen st v → is_Some (sum !! v) → (∀ g, g ∈ gray → reach g v) → (unseen st < fuel)%nat →
  ∃ st', visit fuel sum v st = Some st' ∧ wf gray st' ∧ visited v st st'.
Proof.
  induction fuel as [|fuel IH]; intros gray v st Hw Hv Hs Hg Hf; [lia|]. cbn [visit].
  set (ws := (λ d, raw d) <$> deps sum v). pose proof (enter_unseen v st Hv Hs) as Hun.
  destruct (edges_spec fuel IH gray v (tj_stack st) st ws [] (enter v st)) as (st1 & Hst1 & Hw1 & Hl1 & Hext1 & Hnum1).
  - intros w Hw'. by apply edge_fmap.
  - by apply enter_wf.
  - apply enter_looping.
  - by apply enter_extends.
  - done.
  - intros g [->|Hin]%elem_of_cons; [done|auto].
  - lia.
  - rewrite Hst1. cbn [mbind option_bind]. destruct (lp_stack _ _ _ _ Hl1) as (s & Hst & _).
    apply (leave_spec gray v st st1 ws s); try done.
    + intros w [He _]. by apply edge_fmap.
    + rewrite Hnum1. simpl. apply lookup_insert_eq.
    + rewrite existsb_exists. split.
      * intros (x & Hx & ->%String.eqb_eq). split; [|done]. apply edge_fmap. by apply list_elem_of_In.
      * intros [He _]. exists v. split; [|apply String.eqb_refl]. apply list_elem_of_In. by apply edge_fmap.
Qed.

Lemma findCycles_loop_spec ids : ∀ st,
  (∀ id, id ∈ ids → is_Some (sum !! id)) → wf [] st →
  ∃ st', findCycles_loop sum ids st = Some st' ∧ wf [] st' ∧ extends st st' ∧ ∀ id, id ∈ ids → seen st' id.
Proof.
  induction ids as [|id ids IH]; intros st Hids Hw; cbn [findCycles_loop].
  { exists st. split_and!; try done. by intros id ?%not_elem_of_nil. }
  assert (∀ x, x ∈ ids → is_Some (sum !! x)) as Hids' by (intros; apply Hids; by right).
  destruct (tj_indices st !! id) as [n|] eqn:Hn.
  - destruct (IH st Hids' Hw) as (st' & -> & Hw' & Hext & Hseen). exists st'. split_and!; try done.
    intros x [->|?]%elem_of_cons; [|auto]. eapply extends_seen; [done|by exists n].
  - destruct (visit_spec (S (size sum)) [] id st Hw) as (st1 & -> & Hw1 & Hvis).
    + by intros [? ?]; congruence.
    + apply Hids. by left.
    + by intros g ?%not_elem_of_nil.
    + unfold unseen. rewrite <-(size_dom (D := gset string) sum). apply Nat.lt_succ_r, subseteq_size. set_solver.
    + cbn [mbind option_bind]. destruct (IH st1 Hids' Hw1) as (st' & -> & Hw' & Hext & Hseen).
      pose proof (vis_extends _ _ _ Hvis) as Hext1. exists st'. split_and!; try done; [by eapply extends_trans|].
      intros x [->|?]%elem_of_cons; [|auto]. eapply extends_seen; [done|]. unfold seen. by rewrite (vis_num _ _ _ Hvis).
Qed.

Lemma wf_start : wf [] (mkTarjan 0 ∅ ∅ ∅ [] ∅).
Proof.
  assert (∀ v, ¬ seen (mkTarjan 0 ∅ ∅ ∅ [] ∅) v) as Hn.
  { intros v. unfold seen. cbn [tj_indices]. rewrite lookup_empty. by intros []. }
  constructor; try (by intros ? ?%not_elem_of_nil); try (by intros ? ?%Hn); try (by intros ? ? ?%Hn);
    try (by intros ? [?%Hn _]); try (by intros ? ? [?%Hn _]); try (by constructor).
  - intros v. unfold onStack. cbn [tj_onStack tj_stack]. rewrite lookup_empty. split; [done|by intros ?%not_elem_of_nil].
  - by intros x y ?%not_elem_of_nil.
Qed.

(** ** Arcs and dependencies *)

Lemma edge_source u w : edge sum u w → is_Some (sum !! u).
Proof. intros (d & Hd & _). unfold deps in Hd. destruct (sum !! u); [done|]. by apply not_elem_of_nil in Hd. Qed.

Lemma rtc_edge_arc x y : is_Some (sum !! y) → rtc (edge sum) x y ↔ reach x y.
Proof.
  intros Hy. split.
  - induction 1 as [|x z y He Hr IH]; [done|]. eapply rtc_l; [|by apply IH]. split; [done|].
    inv Hr as [|? ? ? He' _]; [done|]. by eapply edge_source.
  - induction 1 as [|x z y [He _] _ IH]; [done|]. eapply rtc_l; [done|by apply IH].
Qed.

Lemma tc_edge_arc x y : is_Some (sum !! y) → tc (edge sum) x y ↔ tc arc x y.
Proof.
  intros Hy. split.
  - intros (z & He & Hr)%tc_first. eapply tc_rtc_r; [|by apply rtc_edge_arc]. apply tc_once. split; [done|].
    inv Hr as [|? ? ? He' _]; [done|]. by eapply edge_source.
  - intros (z & [He _] & Hr)%tc_first. eapply tc_rtc_r; [by apply tc_once|by apply rtc_edge_arc].
Qed.
End tarjan.
