(* ===== verification/InventorySpec.v ===== *)
(** * What an inventory is

    [NewLazyInventory] accepts exactly the well-formed queues and what it
    builds holds every ticket once; its cycles are the strongly connected
    components of the dependency graph; and the reads on it. *)

From S2P Require Import Prelude Utf8 GoStd Codes Limits Value Canonical Primitives Ids Parse Ticket.
From S2P Require Import SetsSpec PrimitivesSpec Inventory GraphSpec TarjanSpec.
Local Open Scope Z_scope.
Local Open Scope go_scope.

Abbreviation sid s := (TicketID_Raw (sum_TicketID s)).

Definition sids (l : list Summary) : list string := (λ s, sid s) <$> l.

Definition stoken (s : Summary) : string := FoldToken (TicketID_Local (sum_TicketID s)).

Definition stokens (l : list Summary) : list string := stoken <$> l.

(** Every ticket in the queue, no id and no local token twice, even with its
    ASCII letters folded. *)
Record good (queue : QueueID) (l : list Summary) : Prop := {
  good_queue : Forall (λ s, TicketID_QueueID (sum_TicketID s) = QueueID_Raw queue) l;
  good_ids : NoDup (sids l);
  good_tokens : NoDup (stokens l)
}.

(** ** Building *)

(** The maps [NewLazyInventory] builds, after adding [l]. *)
Record holds (queue : QueueID) (l : list Summary) (inv : Inventory) (folded : gmap string string) : Prop := {
  holds_good : good queue l;
  holds_sum : ∀ id s, inv_sum inv !! id = Some s ↔ s ∈ l ∧ sid s = id;
  holds_ids : inv_ids inv = sids l;
  holds_folded : ∀ f, is_Some (folded !! f) ↔ f ∈ stokens l
}.

Lemma good_snoc queue l s :
  good queue (l ++ [s]) ↔
  good queue l ∧ TicketID_QueueID (sum_TicketID s) = QueueID_Raw queue ∧
  (sid s ∉ sids l) ∧ stoken s ∉ stokens l.
Proof.
  assert (∀ (f : Summary → string), NoDup (f <$> l ++ [s]) ↔ NoDup (f <$> l) ∧ f s ∉ f <$> l) as Hf.
  { intros f. rewrite fmap_app, NoDup_app. simpl. split.
    - intros (H1 & H2 & _). split; [done|]. intros Hin. by apply (H2 (f s)); [|left].
    - intros [H1 H2]. split_and!; [done| |apply NoDup_singleton]. by intros x Hx ->%list_elem_of_singleton. }
  unfold sids, stokens. split.
  - intros [Hq Hi Ht]. unfold sids, stokens in *. rewrite Hf in *. apply Forall_app in Hq as [? Hq%Forall_inv]. destruct Hi, Ht. split_and!; [by split|done..].
  - intros ([? ? ?] & ? & ? & ?). split; unfold sids, stokens; [|by apply Hf..]. apply Forall_app. split; [done|]. by constructor.
Qed.

Lemma add_spec queue l s inv folded :
  holds queue l inv folded →
  match add queue s inv folded with
  | Ok (inv', folded') =>
      holds queue (l ++ [s]) inv' folded' ∧ inv_QueueID inv' = inv_QueueID inv ∧ inv_byID inv' = inv_byID inv ∧
      inv_lazy inv' = inv_lazy inv ∧ inv_load inv' = inv_load inv ∧ inv_inCycle inv' = inv_inCycle inv
  | Err e => ¬ good queue (l ++ [s]) ∧ Code e ∈ [CodeMalformed; CodeDuplicateID]
  | OutOfFuel => False
  end.
Proof.
  intros [Hg Hs Hi Hf]. unfold add. pose proof (good_snoc queue l s) as Hsn.
  destruct (String.eqb_spec (TicketID_QueueID (sum_TicketID s)) (QueueID_Raw queue)) as [Hq|Hq]; cbn [negb].
  2:{ split; [tauto|by left]. }
  assert (is_Some (inv_sum inv !! sid s) ↔ sid s ∈ sids l) as Hin.
  { unfold sids. rewrite list_elem_of_fmap. split.
    - intros [x [Hx He]%Hs]. by exists x.
    - intros (x & He & Hx). exists x. by apply Hs. }
  case_bool_decide as Hd; [split; [tauto|right; by left]|]. fold (stoken s).
  destruct (folded !! stoken s) as [other|] eqn:Ho.
  { split; [|right; by left]. assert (stoken s ∈ stokens l) by (apply Hf; by rewrite Ho). tauto. }
  assert (sid s ∉ sids l) as Hni by tauto.
  assert (stoken s ∉ stokens l) as Hnt by (rewrite <-Hf, Ho; by intros []).
  split_and!; try done. split; simpl.
  - apply good_snoc. tauto.
  - intros id x. destruct (decide (id = sid s)) as [->|Hne].
    + rewrite lookup_insert_eq, elem_of_app, list_elem_of_singleton. split.
      * intros [= <-]. split; [by right|done].
      * intros [[Hx| ->] He]; [|done]. exfalso. apply Hni, list_elem_of_fmap. by exists x.
    + rewrite lookup_insert_ne by done. rewrite Hs, elem_of_app, list_elem_of_singleton.
      split; [intros [? ?]; split; [by left|done]|]. by intros [[?| ->] ?].
  - unfold sids. by rewrite Hi, fmap_app.
  - intros f. unfold stokens. rewrite fmap_app, elem_of_app. simpl. rewrite list_elem_of_singleton. fold (stokens l). rewrite <-Hf.
    destruct (decide (f = stoken s)) as [->|Hne].
    + rewrite lookup_insert_eq. split; [by right|done].
    + rewrite lookup_insert_ne by done. split; [by left|by intros [|]].
Qed.

Lemma good_app queue l l' : good queue (l ++ l') → good queue l.
Proof.
  intros [Hq Hi Ht]. unfold sids, stokens in *. rewrite fmap_app in *. split.
  - by apply Forall_app in Hq as [? _].
  - by apply NoDup_app in Hi as [? _].
  - by apply NoDup_app in Ht as [? _].
Qed.

(** How the errors of the two phases read. *)
Definition refuses (queue : QueueID) (all : list Summary) (e : Error) : Prop :=
  ¬ good queue all ∧ Code e ∈ [CodeMalformed; CodeDuplicateID].

Lemma add_records_spec queue records : ∀ rs inv folded,
  holds queue (SummaryOf <$> rs) inv folded →
  (∀ id r, inv_byID inv !! id = Some r ↔ r ∈ rs ∧ TicketID_Raw (rec_TicketID r) = id) →
  match add_records queue records inv folded with
  | Ok (inv', folded') =>
      holds queue (SummaryOf <$> rs ++ records) inv' folded' ∧
      (∀ id r, inv_byID inv' !! id = Some r ↔ r ∈ rs ++ records ∧ TicketID_Raw (rec_TicketID r) = id) ∧
      inv_QueueID inv' = inv_QueueID inv ∧ inv_lazy inv' = inv_lazy inv ∧ inv_load inv' = inv_load inv ∧
      inv_inCycle inv' = inv_inCycle inv
  | Err e => refuses queue (SummaryOf <$> rs ++ records) e
  | OutOfFuel => False
  end.
Proof.
  induction records as [|r records IH]; intros rs inv folded Hh Hb; cbn [add_records].
  { rewrite app_nil_r. by split_and!. }
  replace (rs ++ r :: records) with ((rs ++ [r]) ++ records) by by rewrite <-app_assoc.
  pose proof (add_spec queue _ (SummaryOf r) inv folded Hh) as Ha.
  destruct (add queue (SummaryOf r) inv folded) as [[inv1 folded1]|e|]; cbn [obind]; [|split; [|apply Ha]|done].
  2:{ destruct Ha as [Hn _]. intros Hg. apply Hn. rewrite fmap_app in Hg. apply good_app in Hg. by rewrite fmap_app in Hg. }
  destruct Ha as (Hh1 & Hq1 & Hb1 & Hl1 & Hld1 & Hc1).
  match goal with |- context [add_records queue records ?i folded1] => specialize (IH (rs ++ [r]) i folded1) end.
  cbn [inv_byID inv_QueueID inv_lazy inv_load inv_inCycle] in IH. rewrite <-Hq1, <-Hl1, <-Hld1, <-Hc1. apply IH.
  - rewrite fmap_app. destruct Hh1 as [? ? ? ?]. by split.
  - intros id x. rewrite Hb1. set (rid := TicketID_Raw (rec_TicketID r)).
    assert (rid ∉ sids (SummaryOf <$> rs)) as Hn
      by by destruct (proj1 (good_snoc _ _ _) (holds_good _ _ _ _ Hh1)) as (_ & _ & ? & _).
    rewrite elem_of_app, list_elem_of_singleton. destruct (decide (id = rid)) as [->|Hne].
    + rewrite lookup_insert_eq. split; [intros [= <-]; split; [by right|done]|]. intros [[Hx| ->] He]; [|done].
      exfalso. apply Hn. unfold sids. rewrite <-list_fmap_compose. apply list_elem_of_fmap. by exists x.
    + rewrite lookup_insert_ne by done. rewrite Hb. split; [intros [? ?]; split; [by left|done]|].
      by intros [[?| ->] ?].
Qed.

Lemma add_closed_spec queue closed : ∀ l cs inv folded,
  holds queue (l ++ cs) inv folded →
  (∀ id x, inv_lazy inv !! id = Some x ↔ x = None ∧ id ∈ sids cs) →
  match add_closed queue closed inv folded with
  | Ok (inv', folded') =>
      holds queue (l ++ cs ++ closed) inv' folded' ∧
      (∀ id x, inv_lazy inv' !! id = Some x ↔ x = None ∧ id ∈ sids (cs ++ closed)) ∧
      inv_QueueID inv' = inv_QueueID inv ∧ inv_byID inv' = inv_byID inv ∧ inv_load inv' = inv_load inv ∧
      inv_inCycle inv' = inv_inCycle inv
  | Err e => refuses queue (l ++ cs ++ closed) e
  | OutOfFuel => False
  end.
Proof.
  induction closed as [|s closed IH]; intros l cs inv folded Hh Hz; cbn [add_closed].
  { rewrite app_nil_r. by split_and!. }
  replace (cs ++ s :: closed) with ((cs ++ [s]) ++ closed) by by rewrite <-app_assoc.
  pose proof (add_spec queue _ s inv folded Hh) as Ha. rewrite <-app_assoc in Ha.
  destruct (add queue s inv folded) as [[inv1 folded1]|e|]; cbn [obind]; [|split; [|apply Ha]|done].
  2:{ destruct Ha as [Hn _]. intros Hg. apply Hn. rewrite app_assoc in Hg. by apply good_app in Hg. }
  destruct Ha as (Hh1 & Hq1 & Hb1 & Hl1 & Hld1 & Hc1).
  match goal with |- context [add_closed queue closed ?i folded1] => specialize (IH l (cs ++ [s]) i folded1) end.
  cbn [inv_byID inv_QueueID inv_lazy inv_load inv_inCycle] in IH. rewrite <-Hq1, <-Hb1, <-Hld1, <-Hc1. apply IH.
  - destruct Hh1 as [? ? ? ?]. by split.
  - intros id x. rewrite Hl1. unfold sids. rewrite fmap_app, elem_of_app. cbn [fmap list_fmap].
    rewrite list_elem_of_singleton. fold (sids cs). destruct (decide (id = sid s)) as [->|Hne].
    + rewrite lookup_insert_eq. split; [intros [= <-]; split; [done|by right]|]. by intros [-> _].
    + rewrite lookup_insert_ne by done. rewrite Hz. split; [intros [? ?]; split; [done|by left]|].
      by intros [? [?|?]].
Qed.

(** ** The inventory *)

(** What a built inventory holds. *)
Record inventory_of (queue : QueueID) (records : list Record_) (closed : list Summary)
    (load : option Loader) (inv : Inventory) : Prop := {
  io_queue : inv_QueueID inv = queue;
  io_sum : ∀ id s, inv_sum inv !! id = Some s ↔ s ∈ (SummaryOf <$> records) ++ closed ∧ sid s = id;
  io_byID : ∀ id r, inv_byID inv !! id = Some r ↔ r ∈ records ∧ TicketID_Raw (rec_TicketID r) = id;
  io_lazy : ∀ id x, inv_lazy inv !! id = Some x ↔ x = None ∧ id ∈ sids closed;
  io_load : inv_load inv = match closed with [] => None | _ => load end;
  io_ids : inv_ids inv ≡ₚ sids ((SummaryOf <$> records) ++ closed);
  io_sorted : StronglySorted (λ x y, String.ltb x y = true) (inv_ids inv);
  io_cycles : ∀ id comp, inv_inCycle inv !! id = Some comp ↔
    tc (edge (inv_sum inv)) id id ∧ StronglySorted (λ x y, String.ltb x y = true) comp ∧
    ∀ x, x ∈ comp ↔ rtc (edge (inv_sum inv)) id x ∧ rtc (edge (inv_sum inv)) x id;
  io_acyclic : ∀ id, inv_inCycle inv !! id = None → ¬ tc (edge (inv_sum inv)) id id
}.

Lemma strictly_sorted_unique (l l' : list string) :
  StronglySorted (λ x y, String.ltb x y = true) l → StronglySorted (λ x y, String.ltb x y = true) l' →
  (∀ x, x ∈ l ↔ x ∈ l') → l = l'.
Proof.
  intros Hl Hl' H. assert (l ≡ₚ l') as Hp by (apply NoDup_Permutation; by try apply ltb_sorted_NoDup).
  assert (∀ k, StronglySorted (λ x y, String.ltb x y = true) k → SortStrings k = k) as Hs.
  { intros k Hk. apply SortStrings_sorted. eapply StronglySorted_weaken; [|exact Hk].
    intros x y _ _. cbv beta. intros Hxy. rewrite ltb_leb, negb_true_iff in Hxy. by apply leb_total. }
  rewrite <-(Hs l Hl), <-(Hs l' Hl'). by apply SortStrings_proper.
Qed.

(** The components of the state [findCycles] ends in. *)
Lemma findCycles_spec inv :
  (∀ id, id ∈ inv_ids inv ↔ is_Some (inv_sum inv !! id)) → inv_inCycle inv = ∅ →
  ∃ cyc, findCycles inv = Some (mkInventory (inv_QueueID inv) (inv_byID inv) (inv_sum inv) (inv_lazy inv)
      (inv_load inv) (inv_ids inv) cyc) ∧
    (∀ id comp, cyc !! id = Some comp ↔
      tc (edge (inv_sum inv)) id id ∧ StronglySorted (λ x y, String.ltb x y = true) comp ∧
      ∀ x, x ∈ comp ↔ rtc (edge (inv_sum inv)) id x ∧ rtc (edge (inv_sum inv)) x id) ∧
    ∀ id, cyc !! id = None → ¬ tc (edge (inv_sum inv)) id id.
Proof.
  intros Hids Hc. unfold findCycles. rewrite Hc. set (sum := inv_sum inv) in *.
  destruct (findCycles_loop_spec sum (inv_ids inv) _ (λ id, proj1 (Hids id)) (wf_start sum)) as (st & -> & Hw & _ & Hseen).
  cbn [mbind option_bind]. exists (tj_inCycle st). split; [done|].
  assert (∀ v, is_Some (sum !! v) → done_ st v) as Hdone.
  { intros v Hv. split; [by apply Hseen, Hids|]. intros Hin. destruct (wf_down _ _ _ Hw v Hin) as (g & Hg & _).
    by apply not_elem_of_nil in Hg. }
  assert (∀ v, ¬ is_Some (sum !! v) → tj_inCycle st !! v = None) as Hout.
  { intros v Hv. apply (wf_rest _ _ _ Hw). intros [Hs _]. by apply Hv, (wf_seen _ _ _ Hw). }
  assert (∀ id (comp : list string), is_Some (sum !! id) →
    (∀ x, x ∈ comp ↔ rtc (arc sum) id x ∧ rtc (arc sum) x id) ↔
    (∀ x, x ∈ comp ↔ rtc (edge sum) id x ∧ rtc (edge sum) x id)) as Hmem.
  { intros id comp Hid. apply forall_proper. intros x.
    assert (rtc (arc sum) id x ∧ rtc (arc sum) x id ↔ rtc (edge sum) id x ∧ rtc (edge sum) x id) as ->; [|done].
    rewrite <-(rtc_edge_arc sum x id) by done. split; intros [H1 H2]; (split; [|done]).
    - clear -H1. induction H1 as [|a b c [? _] _ IH]; [done|by eapply rtc_l].
    - apply rtc_edge_arc; [|done]. inv H2; [done|]. by eapply edge_source. }
  split.
  2:{ intros id Hnone Hcyc. assert (is_Some (sum !! id)) as Hid.
      { apply tc_first in Hcyc as (z & He & _). by eapply edge_source. }
      pose proof (wf_cycles _ _ _ Hw id (Hdone id Hid)) as Hcomp. rewrite Hnone in Hcomp.
      by apply Hcomp, tc_edge_arc. }
  intros id comp. destruct (decide (is_Some (sum !! id))) as [Hid|Hid].
  2:{ rewrite Hout by done. split; [done|]. intros [Hcyc _]. apply tc_first in Hcyc as (z & He & _).
      by destruct Hid, (edge_source _ _ _ He). }
  pose proof (wf_cycles _ _ _ Hw id (Hdone id Hid)) as Hcomp. rewrite <-(Hmem id comp Hid).
  destruct (tj_inCycle st !! id) as [c|] eqn:Hlook; cbn [component] in Hcomp.
  - destruct Hcomp as (Hcyc & Hnd & Hsort & Hm). apply leb_sorted_NoDup in Hsort; [|done].
    rewrite (tc_edge_arc sum id id Hid). split.
    + by intros [= <-].
    + intros (_ & Hs & Hx). f_equal. apply strictly_sorted_unique; [done..|]. intros x. by rewrite Hm, Hx.
  - split; [done|]. intros [Hcyc _]. apply (tc_edge_arc sum id id Hid) in Hcyc. done.
Qed.

Lemma sids_all queue l inv folded id : holds queue l inv folded → id ∈ sids l ↔ is_Some (inv_sum inv !! id).
Proof.
  intros H. unfold sids. rewrite list_elem_of_fmap. split.
  - intros (s & -> & Hs). exists s. by apply (holds_sum _ _ _ _ H).
  - intros [s [Hs <-]%(holds_sum _ _ _ _ H)]. by exists s.
Qed.

Lemma NewLazyInventory_cases queue records closed load :
  let all := (SummaryOf <$> records) ++ closed in
  match NewLazyInventory queue records closed load with
  | Ok inv => good queue all ∧ Z.of_nat (length all) ≤ MaxTicketsPerQueue ∧ inventory_of queue records closed load inv
  | Err e =>
      (MaxTicketsPerQueue < Z.of_nat (length all) ∧ Code e = CodeLimitExceeded) ∨ refuses queue all e
  | OutOfFuel => False
  end.
Proof.
  intros all. unfold NewLazyInventory.
  assert (length all = (length records + length closed)%nat) as Hlen
    by (unfold all; by rewrite length_app, length_fmap).
  rewrite <-Hlen. destruct (Z.ltb_spec MaxTicketsPerQueue (Z.of_nat (length all))) as [Hmax|Hmax]; [by left|].
  set (load' := match closed with [] => None | _ => load end).
  assert (holds queue (SummaryOf <$> []) (mkInventory queue ∅ ∅ ∅ load' [] ∅) ∅) as H0.
  { split; [split; constructor|intros id s|done|intros f]; cbn [inv_sum]; rewrite lookup_empty.
    - split; [done|by intros [?%not_elem_of_nil _]].
    - split; [by intros []|by intros ?%not_elem_of_nil]. }
  pose proof (add_records_spec queue records [] _ _ H0) as Hr.
  cbn [inv_byID inv_QueueID inv_lazy inv_load inv_inCycle app] in Hr.
  specialize (Hr ltac:(intros id r; rewrite lookup_empty; split; [done|by intros [?%not_elem_of_nil _]])).
  destruct (add_records queue records _ ∅) as [[inv1 f1]|e|]; cbn [obind fst snd]; [| |done].
  2:{ right. destruct Hr as [Hn ?]. split; [|done]. intros Hg. apply Hn. by apply good_app in Hg. }
  destruct Hr as (Hh1 & Hb1 & Hq1 & Hl1 & Hld1 & Hc1).
  pose proof (add_closed_spec queue closed (SummaryOf <$> records) [] inv1 f1) as Hz.
  rewrite app_nil_r in Hz. cbn [app] in Hz. rewrite Hl1 in Hz.
  specialize (Hz Hh1 ltac:(intros id r; rewrite lookup_empty; split; [done|by intros [_ ?%not_elem_of_nil]])).
  destruct (add_closed queue closed inv1 f1) as [[inv2 f2]|e|]; cbn [obind fst snd]; [|by right|done].
  destruct Hz as (Hh2 & Hl2 & Hq2 & Hb2 & Hld2 & Hc2). fold all in Hh2.
  assert (inv_ids inv2 = sids all) as Hids by apply Hh2.
  destruct (findCycles_spec (mkInventory (inv_QueueID inv2) (inv_byID inv2) (inv_sum inv2) (inv_lazy inv2)
    (inv_load inv2) (SortStrings (inv_ids inv2)) (inv_inCycle inv2))) as (cyc & -> & Hcyc & Hacyc).
  { intros id. cbn [inv_ids inv_sum]. rewrite SortStrings_perm, Hids. by eapply sids_all. }
  { cbn [inv_inCycle]. by rewrite Hc2, Hc1. }
  cbn [inv_QueueID inv_byID inv_sum inv_lazy inv_load inv_ids] in *. destruct Hh2 as [Hg Hs _ _].
  split; [done|]. split; [done|]. constructor; cbn [inv_QueueID inv_byID inv_sum inv_lazy inv_load inv_ids inv_inCycle].
  - by rewrite Hq2, Hq1.
  - exact Hs.
  - intros id r. by rewrite Hb2, Hb1.
  - exact Hl2.
  - by rewrite Hld2, Hld1.
  - by rewrite SortStrings_perm, Hids.
  - apply leb_sorted_NoDup; [apply SortStrings_StronglySorted|]. rewrite SortStrings_perm, Hids. apply Hg.
  - exact Hcyc.
  - exact Hacyc.
Qed.

(** An inventory is built exactly for a queue of at most 10000 tickets, all
    its own, with no ticket id and no folded local token twice; it then holds
    every ticket under its id, its ids sorted, and the members of every
    dependency cycle. A refusal is LIMIT_EXCEEDED, MALFORMED or DUPLICATE_ID. *)
Theorem NewLazyInventory_spec queue records closed load :
  let all := (SummaryOf <$> records) ++ closed in
  ((∃ inv, NewLazyInventory queue records closed load = Ok inv) ↔
    good queue all ∧ Z.of_nat (length all) ≤ MaxTicketsPerQueue) ∧
  (∀ inv, NewLazyInventory queue records closed load = Ok inv → inventory_of queue records closed load inv) ∧
  ((∀ inv, NewLazyInventory queue records closed load ≠ Ok inv) →
    ∃ e, NewLazyInventory queue records closed load = Err e ∧
      Code e ∈ [CodeLimitExceeded; CodeMalformed; CodeDuplicateID]).
Proof.
  intros all. pose proof (NewLazyInventory_cases queue records closed load) as H. fold all in H.
  destruct (NewLazyInventory queue records closed load) as [inv|e|]; [| |done].
  - destruct H as (Hg & Hm & Hi). split_and!; [split; [done|by eexists]|by intros ? [= <-]|].
    intros Hn. by destruct (Hn inv).
  - split_and!; [split; [by intros [? ?]|]|done|].
    + intros [Hg Hm]. destruct H as [[? _]|[Hn _]]; [lia|done].
    + intros _. exists e. split; [done|]. destruct H as [[_ ->]|[_ He]]; [by left|by right].
Qed.

(** ** Problems *)

(** C24: of a ticket in the inventory, [Problems] reports a cycle exactly when a
    chain of dependencies leads from it back to it, and its members are those
    that it leads to and that lead back; and it reports as missing exactly the
    dependencies that are not tickets of the queue. *)
Theorem Problems_spec queue records closed load inv id s :
  NewLazyInventory queue records closed load = Ok inv → inv_sum inv !! id = Some s →
  ((∃ p, p ∈ Problems inv id ∧ prob_Code p = CodeCycle) ↔ tc (edge (inv_sum inv)) id id) ∧
  (tc (edge (inv_sum inv)) id id → ∀ x,
    x ∈ CycleMembers inv id ↔ rtc (edge (inv_sum inv)) id x ∧ rtc (edge (inv_sum inv)) x id) ∧
  (∀ t, (∃ p, p ∈ Problems inv id ∧ prob_Code p = CodeDependencyMissing ∧ prob_TicketID p = t) ↔
    edge (inv_sum inv) id t ∧ inv_sum inv !! t = None).
Proof.
  intros Hinv Hs. pose proof (NewLazyInventory_cases queue records closed load) as H. rewrite Hinv in H.
  destruct H as (_ & _ & Hio). pose proof (io_cycles _ _ _ _ _ Hio id) as Hc.
  pose proof (io_acyclic _ _ _ _ _ Hio id) as Ha. unfold Problems, CycleMembers. rewrite Hs.
  split_and!.
  - destruct (inv_inCycle inv !! id) as [comp|] eqn:Hl.
    + split; [intros _; by apply (Hc comp)|]. intros _. eexists. split; [apply elem_of_app; right; by left|done].
    + split; [|by intros ?%Ha]. intros (p & [Hp|Hp]%elem_of_app & Hcode); [|by apply not_elem_of_nil in Hp].
      apply list_elem_of_omap in Hp as (d & _ & Hd). destruct (inv_sum inv !! raw d); [done|]. by injection Hd as <-.
  - intros Ht x. destruct (inv_inCycle inv !! id) as [comp|] eqn:Hl; [|by destruct Ha]. by apply (Hc comp).
  - intros t. split.
    + intros (p & [Hp|Hp]%elem_of_app & Hcode & Hid).
      * apply list_elem_of_omap in Hp as (d & Hd & Hp). destruct (inv_sum inv !! raw d) eqn:Hr; [done|].
        injection Hp as <-. simpl in Hid. subst t. split; [|done]. exists d. unfold deps. by rewrite Hs.
      * destruct (inv_inCycle inv !! id); [|by apply not_elem_of_nil in Hp].
        apply list_elem_of_singleton in Hp as ->. done.
    + intros [(d & Hd & <-) Hr]. unfold deps in Hd. rewrite Hs in Hd. eexists. split_and!.
      * apply elem_of_app. left. apply list_elem_of_omap. exists d. split; [done|]. by rewrite Hr.
      * done.
      * done.
Qed.

Lemma Problems_spec_witness : tc (edge (inv_sum sample_inventory)) "ticket:x:q:c" "ticket:x:q:c".
Proof.
  apply (Problems_spec sample_queue sample_records [] None sample_inventory "ticket:x:q:c"
    (SummaryOf (sample_record "c" "P2" ["d"; "z"])) sample_inventory_Ok ltac:(vm_compute; reflexivity)).
  eexists. split; [right; left|]; vm_compute; reflexivity.
Defined.
