(* ===== verification/LazySpec.v ===== *)
(** * Lazily held tickets

    An inventory that holds closed tickets as summaries and loads their
    records on demand is the inventory over the full records. *)

From S2P Require Import Prelude Utf8 GoStd Codes Limits Value Canonical Primitives Ids Parse Ticket.
From S2P Require Import SetsSpec PrimitivesSpec Inventory GraphSpec TarjanSpec InventorySpec.
Local Open Scope Z_scope.
Local Open Scope go_scope.

(** ** The two ways to build *)

(** What the structural checks read. *)
Definition same (a b : Inventory) : Prop :=
  inv_sum a = inv_sum b ∧ inv_ids a = inv_ids b ∧ inv_inCycle a = inv_inCycle b.

(** Two builds agree. *)
Definition agree (x y : res (Inventory * gmap string string)) : Prop :=
  match x, y with
  | Ok (a, f), Ok (b, g) => same a b ∧ f = g
  | Err e, Err e' => e = e'
  | OutOfFuel, OutOfFuel => True
  | _, _ => False
  end.

Lemma add_same queue s a b f : same a b → agree (add queue s a f) (add queue s b f).
Proof.
  intros (Hs & Hi & Hc). unfold add. rewrite Hs. destruct (negb _); [done|]. destruct (bool_decide _); [done|].
  destruct (f !! _); [done|]. cbn. rewrite Hi. by split_and!.
Qed.

Lemma add_closed_same queue cs : ∀ a b f,
  same a b → agree (add_closed queue (SummaryOf <$> cs) a f) (add_records queue cs b f).
Proof.
  induction cs as [|r cs IH]; intros a b f Hab; [done|]. cbn [fmap list_fmap add_closed add_records].
  pose proof (add_same queue (SummaryOf r) a b f Hab) as H.
  destruct (add queue (SummaryOf r) a f) as [[a' f1]|e|], (add queue (SummaryOf r) b f) as [[b' f2]|e'|];
    try done. destruct H as [(? & ? & ?) ->]. cbn [obind]. by apply IH.
Qed.

Lemma add_records_same queue rs : ∀ a b f, same a b → agree (add_records queue rs a f) (add_records queue rs b f).
Proof.
  induction rs as [|r rs IH]; intros a b f Hab; [done|]. cbn [add_records].
  pose proof (add_same queue (SummaryOf r) a b f Hab) as H.
  destruct (add queue (SummaryOf r) a f) as [[a' f1]|e|], (add queue (SummaryOf r) b f) as [[b' f2]|e'|];
    try done. destruct H as [(? & ? & ?) ->]. cbn [obind]. by apply IH.
Qed.

Lemma add_records_app queue r1 r2 : ∀ inv f,
  add_records queue (r1 ++ r2) inv f = (let* p := add_records queue r1 inv f in add_records queue r2 p.1 p.2).
Proof.
  induction r1 as [|r r1 IH]; intros inv f; [done|]. cbn [app add_records].
  destruct (add queue (SummaryOf r) inv f) as [[inv' f']|e|]; [|done|done]. cbn [obind]. apply IH.
Qed.

Lemma build_agree queue records cs load :
  match NewLazyInventory queue records (SummaryOf <$> cs) load, NewInventory queue (records ++ cs) with
  | Ok a, Ok b => same a b
  | Err e, Err e' => e = e'
  | OutOfFuel, OutOfFuel => True
  | _, _ => False
  end.
Proof.
  unfold NewInventory, NewLazyInventory. rewrite length_fmap, length_app. cbn [length]. rewrite Nat.add_0_r.
  destruct (MaxTicketsPerQueue <? _); [done|]. set (load' := match SummaryOf <$> cs with [] => None | _ => load end).
  rewrite add_records_app.
  pose proof (add_records_same queue records (mkInventory queue ∅ ∅ ∅ load' [] ∅) (mkInventory queue ∅ ∅ ∅ None [] ∅) ∅) as H1.
  specialize (H1 ltac:(by split_and!)).
  destruct (add_records queue records (mkInventory queue ∅ ∅ ∅ load' [] ∅) ∅) as [[a f1]|e|],
    (add_records queue records (mkInventory queue ∅ ∅ ∅ None [] ∅) ∅) as [[b f2]|e'|]; try done.
  destruct H1 as [Hab ->]. cbn [obind fst snd].
  pose proof (add_closed_same queue cs a b f2 Hab) as H2.
  destruct (add_closed queue (SummaryOf <$> cs) a f2) as [[a' f1]|e|], (add_records queue cs b f2) as [[b' f3]|e'|]; try done.
  destruct H2 as [(Hs & Hi & Hc) ->]. cbn [obind add_closed fst snd]. unfold findCycles.
  cbn [inv_sum inv_ids inv_inCycle]. rewrite Hs, Hi, Hc.
  destruct (findCycles_loop _ _ _) as [st|]; [|done]. by split_and!.
Qed.

(** ** Reading *)

(** Every record of [m] is held, whole or loaded already, or will be loaded;
    no other is. *)
Definition serves (a : Inventory) (m : gmap string Record_) : Prop :=
  ∀ id, match m !! id with
  | Some r =>
      inv_byID a !! id = Some r ∨
      inv_byID a !! id = None ∧
        (inv_lazy a !! id = Some (Some (inr r)) ∨
         inv_lazy a !! id = Some None ∧ ∃ load s, inv_load a = Some load ∧ inv_sum a !! id = Some s ∧ load s = inr r)
  | None => inv_byID a !! id = None ∧ inv_lazy a !! id = None
  end.

Definition lookup_got (m : gmap string Record_) (id : string) : got :=
  match m !! id with Some r => Found r | None => Absent end.

(** A sequence of reads. *)
Fixpoint Gets (inv : Inventory) (ids : list string) : list got :=
  match ids with
  | [] => []
  | id :: ids' => let '(inv', g) := Inventory_Get inv id in g :: Gets inv' ids'
  end.

Lemma serves_Get a m id : serves a m → (Inventory_Get a id).2 = lookup_got m id ∧ serves (Inventory_Get a id).1 m.
Proof.
  intros Ha. pose proof (Ha id) as Hid. unfold Inventory_Get, lookup_got.
  destruct (inv_byID a !! id) as [r|] eqn:Hb.
  { destruct (m !! id); [|by destruct Hid]. destruct Hid as [[= ->]|[? _]]; by split. }
  unfold materialize. destruct (m !! id) as [r|] eqn:Hm.
  - assert (serves (mkInventory (inv_QueueID a) (inv_byID a) (inv_sum a) (<[id := Some (inr r)]> (inv_lazy a)) (inv_load a)
       (inv_ids a) (inv_inCycle a)) m) as Hs.
    { intros k. cbn [inv_byID inv_lazy inv_load inv_sum]. destruct (decide (k = id)) as [->|Hk].
      - rewrite Hm, lookup_insert_eq. right. split; [done|by left].
      - rewrite !lookup_insert_ne by done. apply Ha. }
    destruct Hid as [?|[_ [Hl|(Hl & load & s & Hld & Hsum & Hr)]]]; [done| |].
    + rewrite Hl. by destruct (inv_load a), (inv_sum a !! id).
    + rewrite Hl, Hld, Hsum, Hr. cbn [fst snd]. split; [done|]. rewrite <-Hld. exact Hs.
  - destruct Hid as [_ Hl]. unfold lazyRecord in *. by rewrite Hl.
Qed.

Lemma serves_Gets m ids : ∀ a, serves a m → Gets a ids = lookup_got m <$> ids.
Proof.
  induction ids as [|id ids IH]; intros a Ha; [done|]. cbn [Gets]. destruct (serves_Get a m id Ha) as [Hg Hs].
  destruct (Inventory_Get a id) as [a' g]. cbn [fst snd] in *. rewrite Hg, fmap_cons. f_equal. by apply IH.
Qed.

(** C29: with a loader that returns the summarised records, the lazy inventory
    is the full one: both builds fail alike, or both have the same summaries,
    ids and cycles, and any sequence of reads returns the same records. *)
Theorem lazy_inventory_equivalent queue records cs load :
  (∀ r, r ∈ cs → load (SummaryOf r) = inr r) →
  match NewLazyInventory queue records (SummaryOf <$> cs) (Some load), NewInventory queue (records ++ cs) with
  | Ok a, Ok b =>
      inv_sum a = inv_sum b ∧ inv_ids a = inv_ids b ∧ inv_inCycle a = inv_inCycle b ∧
      ∀ ids, Gets a ids = Gets b ids
  | Err e, Err e' => e = e'
  | _, _ => False
  end.
Proof.
  intros Hload. pose proof (build_agree queue records cs (Some load)) as H.
  pose proof (NewLazyInventory_cases queue records (SummaryOf <$> cs) (Some load)) as Ha.
  pose proof (NewLazyInventory_cases queue (records ++ cs) [] None) as Hb. fold (NewInventory queue (records ++ cs)) in Hb.
  destruct (NewLazyInventory queue records (SummaryOf <$> cs) (Some load)) as [a|e|] eqn:Ea,
    (NewInventory queue (records ++ cs)) as [b|e'|]; try done.
  destruct H as (Hs & Hi & Hc). split_and!; [done..|]. destruct Ha as (_ & _ & Ha), Hb as (_ & _ & Hb).
  assert (∀ id, inv_lazy b !! id = None) as Hlb.
  { intros id. destruct (inv_lazy b !! id) as [x|] eqn:E; [|done].
    apply (io_lazy _ _ _ _ _ Hb) in E as [_ E]. by apply not_elem_of_nil in E. }
  assert (serves b (inv_byID b)) as Hsb.
  { intros id. destruct (inv_byID b !! id) eqn:E; [by left|]. by rewrite Hlb. }
  assert (serves a (inv_byID b)) as Hsa; [|intros ids; by rewrite !(serves_Gets (inv_byID b))].
  intros id. pose proof (io_byID _ _ _ _ _ Ha id) as Hba. pose proof (io_byID _ _ _ _ _ Hb id) as Hbb.
  pose proof (io_lazy _ _ _ _ _ Ha id) as Hla. pose proof (io_sum _ _ _ _ _ Ha id) as Hsum.
  destruct (inv_byID b !! id) as [r|] eqn:E.
  - destruct (inv_byID a !! id) as [r'|] eqn:Ea'.
    + left. destruct (proj1 (Hba r') eq_refl) as [Hr' He']. symmetry. apply Hbb.
      split; [apply elem_of_app; by left|done].
    + right. split; [done|right]. destruct (proj1 (Hbb r) eq_refl) as [[Hr|Hr]%elem_of_app He].
      * by assert (None = Some r) by by apply Hba.
      * split; [apply Hla; split; [done|]; unfold sids; rewrite <-list_fmap_compose; apply list_elem_of_fmap; by exists r|].
        exists load, (SummaryOf r). split_and!; [|apply Hsum; split; [|done]; apply elem_of_app; right; by apply list_elem_of_fmap_2|auto].
        rewrite (io_load _ _ _ _ _ Ha). destruct cs; [by apply not_elem_of_nil in Hr|done].
  - assert (∀ r, r ∈ records ++ cs → TicketID_Raw (rec_TicketID r) ≠ id) as Hno.
    { intros r Hr He. by assert (None = Some r) by by apply Hbb. }
    split.
    + destruct (inv_byID a !! id) as [r|]; [|done]. destruct (proj1 (Hba r) eq_refl) as [Hr He].
      exfalso. apply (Hno r); [apply elem_of_app; by left|done].
    + destruct (inv_lazy a !! id) as [x|]; [|done]. destruct (proj1 (Hla x) eq_refl) as [_ Hx].
      unfold sids in Hx. rewrite <-list_fmap_compose in Hx. apply list_elem_of_fmap in Hx as (r & He & Hr).
      exfalso. apply (Hno r); [apply elem_of_app; by right|done].
Qed.

Lemma lazy_inventory_equivalent_witness :
  match NewLazyInventory sample_queue sample_records [SummaryOf (sample_record "e" "P3" ["b"])]
      (Some (λ _, inr (sample_record "e" "P3" ["b"]))),
    NewInventory sample_queue (sample_records ++ [sample_record "e" "P3" ["b"]]) with
  | Ok a, Ok b =>
      inv_sum a = inv_sum b ∧ inv_ids a = inv_ids b ∧ inv_inCycle a = inv_inCycle b ∧
      ∀ ids, Gets a ids = Gets b ids
  | Err e, Err e' => e = e'
  | _, _ => False
  end.
Proof.
  apply (lazy_inventory_equivalent sample_queue sample_records [sample_record "e" "P3" ["b"]]
    (λ _, inr (sample_record "e" "P3" ["b"]))).
  intros r Hr. apply list_elem_of_singleton in Hr. rewrite Hr. reflexivity.
Defined.
