(* ===== verification/PlanSpec.v ===== *)
(** * The planning order and other reads

    [Sorted], [UnmetCompletedDependencies] and [CheckLocalToken] on a built
    inventory. *)

From S2P Require Import Prelude Utf8 GoStd Codes Limits Value Canonical Primitives Ids Parse Ticket.
From S2P Require Import SetsSpec PrimitivesSpec Inventory GraphSpec InventorySpec.
Local Open Scope Z_scope.
Local Open Scope go_scope.

(** ** The planning order *)

(** Priority first, then the order number, then the id. *)
Definition plan_before (sum : gmap string Summary) (x y : string) : Prop :=
  (plan_Priority sum x <s plan_Priority sum y) = true ∨
  plan_Priority sum x = plan_Priority sum y ∧
    (plan_Order sum x < plan_Order sum y ∨ plan_Order sum x = plan_Order sum y ∧ (x <s y) = true).

Lemma ltb_cases (a b : string) : (a <s b) = true ∨ a = b ∨ (b <s a) = true.
Proof.
  rewrite !ltb_leb, !negb_true_iff. destruct (String.leb b a) eqn:E; [|by left]. right.
  destruct (String.leb a b) eqn:E'; [left; by apply leb_antisym|by right].
Qed.

Lemma ltb_asym (a b : string) : (a <s b) = true → (b <s a) = true → False.
Proof. intros H H'. pose proof (ltb_trans _ _ _ H H') as Hx. by rewrite ltb_irrefl in Hx. Qed.

Section plan.
Context (sum : gmap string Summary).

Lemma plan_less_spec x y : plan_less sum x y = true ↔ plan_before sum x y.
Proof.
  unfold plan_less, plan_before. destruct (String.eqb_spec (plan_Priority sum x) (plan_Priority sum y)) as [He|Hne]; cbn [negb].
  - rewrite He, ltb_irrefl. destruct (Z.eqb_spec (plan_Order sum x) (plan_Order sum y)) as [Ho|Ho]; cbn [negb].
    + rewrite Ho. split; [right; split; [done|]; right; by split|]. intros [?|[_ [?|[_ ?]]]]; [done|lia|done].
    + rewrite Z.ltb_lt. split; [right; split; [done|]; by left|]. intros [?|[_ [?|[? _]]]]; done.
  - split; [by left|]. by intros [?|[? _]].
Qed.

Lemma plan_cases x y : plan_before sum x y ∨ x = y ∨ plan_before sum y x.
Proof.
  unfold plan_before. destruct (ltb_cases (plan_Priority sum x) (plan_Priority sum y)) as [?|[Hp|?]];
    [by left; left| |by right; right; left].
  destruct (Z.lt_trichotomy (plan_Order sum x) (plan_Order sum y)) as [?|[Ho|?]];
    [by left; right; split; [|left]| |by right; right; right; split; [|left]].
  destruct (ltb_cases x y) as [?|[?|?]]; [left|by right; left|right; right]; right; (split; [done|]); right; by split.
Qed.

Lemma plan_trans x y z : plan_before sum x y → plan_before sum y z → plan_before sum x z.
Proof.
  unfold plan_before. intros [H|[He H]] [H'|[He' H']].
  - left. by eapply ltb_trans.
  - left. by rewrite <-He'.
  - left. by rewrite He.
  - right. split; [congruence|]. destruct H as [H|[Ho H]], H' as [H'|[Ho' H']]; [left; lia..|].
    right. split; [congruence|]. by eapply ltb_trans.
Qed.

Lemma plan_irrefl x : ¬ plan_before sum x x.
Proof. unfold plan_before. rewrite !ltb_irrefl. intros [?|[_ [?|[_ ?]]]]; [done|lia|done]. Qed.
End plan.

(** [Sorted] lists the tickets of the inventory, each once, by ascending
    priority, order number and id; this order of the ids is strict and total,
    so the list is the only one sorted so. *)
Theorem Sorted_spec queue records closed load inv :
  NewLazyInventory queue records closed load = Ok inv →
  Sorted_ inv ≡ₚ IDs inv ∧ NoDup (Sorted_ inv) ∧ StronglySorted (plan_before (inv_sum inv)) (Sorted_ inv) ∧
  ∀ l, l ≡ₚ IDs inv → StronglySorted (plan_before (inv_sum inv)) l → l = Sorted_ inv.
Proof.
  intros Hinv. pose proof (NewLazyInventory_cases queue records closed load) as H. rewrite Hinv in H.
  destruct H as (_ & _ & Hio). assert (Sorted_ inv ≡ₚ IDs inv) as Hp by apply isort_perm.
  assert (NoDup (Sorted_ inv)) as Hnd.
  { rewrite Hp. apply ltb_sorted_NoDup, (io_sorted _ _ _ _ _ Hio). }
  assert (StronglySorted (plan_before (inv_sum inv)) (Sorted_ inv)) as Hs.
  { unfold Sorted_ in *. set (le := λ x y, negb (plan_less (inv_sum inv) y x)) in *.
    assert (∀ x y, le x y = true ↔ plan_before (inv_sum inv) x y ∨ x = y) as Hle.
    { intros x y. unfold le. rewrite negb_true_iff, <-not_true_iff_false, plan_less_spec.
      destruct (plan_cases (inv_sum inv) x y) as [Hb|[->|Hb]].
      - split; [by left|]. intros _ Hb'. by eapply plan_irrefl, plan_trans.
      - split; [by right|]. intros _. apply plan_irrefl.
      - split; [done|]. intros [Hb'| ->] _; [by eapply plan_irrefl, plan_trans|by eapply plan_irrefl]. }
    assert (StronglySorted (λ x y, le x y = true) (isort le (IDs inv))) as Hso.
    { apply isort_StronglySorted.
      - intros x y Hf. apply Hle. apply not_true_iff_false in Hf. rewrite Hle in Hf.
        destruct (plan_cases (inv_sum inv) x y) as [?|[?|?]]; [tauto..|by left].
      - intros x y z. rewrite !Hle. intros [?| ->] [?| ->]; [left; by eapply plan_trans|by left..|by right]. }
    eapply StronglySorted_strict; [done| |exact Hso]. intros x y. apply Hle. }
  split_and!; [done..|]. intros l Hl Hls.
  apply (StronglySorted_unique_strong (plan_before (inv_sum inv))); [|done|done|by rewrite Hl, Hp].
  intros x y _ _ H1 H2. destruct (plan_irrefl (inv_sum inv) x). by eapply plan_trans.
Qed.

(** ** Unmet dependencies *)

(** The unmet dependencies of a ticket are, in the order of their ids, its
    dependencies on completion whose ticket is missing, then with no status,
    or is neither completed nor archived after completion. *)
Theorem UnmetCompletedDependencies_spec inv id :
  StronglySorted (λ a b, String.leb (unm_TicketID a) (unm_TicketID b) = true) (UnmetCompletedDependencies inv id) ∧
  ∀ u, u ∈ UnmetCompletedDependencies inv id ↔
    ∃ d, d ∈ deps (inv_sum inv) id ∧ dep_Obligation d = "COMPLETED" ∧ raw d = unm_TicketID u ∧
      match inv_sum inv !! raw d with
      | None => unm_Status u = ε
      | Some s => unm_Status u = sum_Status s ∧ sum_Status s ≠ StatusCompleted ∧
          ¬ (sum_Status s = StatusArchived ∧ sum_ArchivedFrom s = Some StatusCompleted)
      end.
Proof.
  unfold UnmetCompletedDependencies. split.
  - eapply StronglySorted_weaken; [|apply isort_StronglySorted].
    + intros a b _ _. cbv beta. by rewrite ltb_leb, negb_involutive.
    + intros a b. rewrite !ltb_leb, !negb_involutive. apply leb_total.
    + intros a b c. rewrite !ltb_leb, !negb_involutive. apply leb_trans.
  - intros u. rewrite elem_of_isort, list_elem_of_omap.
    assert (∀ s, metCompleted s = true ↔
      sum_Status s = StatusCompleted ∨ (sum_Status s = StatusArchived ∧ sum_ArchivedFrom s = Some StatusCompleted)) as Hmet.
    { intros s. unfold metCompleted. rewrite orb_true_iff, andb_true_iff, !String.eqb_eq.
      destruct (sum_ArchivedFrom s); [rewrite String.eqb_eq|]; naive_solver. }
    split; intros (d & Hd & H); exists d; (split; [done|]).
    + destruct (String.eqb_spec (dep_Obligation d) "COMPLETED") as [Ho|]; cbn [negb] in H; [|done].
      split; [done|]. destruct (inv_sum inv !! raw d) as [s|]; [|by injection H as <-].
      pose proof (Hmet s) as Hm. destruct (metCompleted s); [done|]. injection H as <-. cbn. split; [done|].
      split; [done|]. assert (¬ (false = true)) as Hf by done. rewrite Hm in Hf. tauto.
    + destruct H as (Ho & Hr & H). rewrite Ho, String.eqb_refl. cbn [negb]. destruct u as [t st]; simpl in *. subst t.
      destruct (inv_sum inv !! raw d) as [s|]; [|by subst st]. destruct H as (-> & H1 & H2).
      pose proof (Hmet s) as Hm. destruct (metCompleted s); [|done]. destruct (proj1 Hm eq_refl); tauto.
Qed.

(** ** Local tokens *)

Lemma CheckLocalToken_loop_None sum local f ids :
  CheckLocalToken_loop sum local f ids = None ↔
  ∀ id, id ∈ ids → FoldToken (match sum !! id with Some s => TicketID_Local (sum_TicketID s) | None => ε end) ≠ f.
Proof.
  induction ids as [|id ids IH]; simpl; [split; [by intros _ id ?%not_elem_of_nil|done]|].
  destruct (String.eqb_spec (FoldToken (match sum !! id with Some s => TicketID_Local (sum_TicketID s) | None => ε end)) f)
    as [He|Hne].
  - split; [done|]. intros H. by destruct (H id ltac:(by left)).
  - rewrite IH. split; [intros H x [->|?]%elem_of_cons; auto|]. intros H x ?. apply H. by right.
Qed.

(** The local-token check passes exactly when a ticket with that token can
    be added: with a new id of the queue, the extended ticket set is
    well-formed again. *)
Theorem CheckLocalToken_spec queue records closed load inv s :
  NewLazyInventory queue records closed load = Ok inv →
  TicketID_QueueID (sum_TicketID s) = QueueID_Raw queue → sid s ∉ IDs inv →
  CheckLocalToken inv (TicketID_Local (sum_TicketID s)) = None ↔
  good queue (((SummaryOf <$> records) ++ closed) ++ [s]).
Proof.
  intros Hinv Hq Hid. pose proof (NewLazyInventory_cases queue records closed load) as H. rewrite Hinv in H.
  destruct H as (Hg & _ & Hio). unfold IDs in Hid. rewrite (io_ids _ _ _ _ _ Hio) in Hid.
  rewrite good_snoc. unfold CheckLocalToken. rewrite CheckLocalToken_loop_None. fold (stoken s).
  assert ((∀ id, id ∈ inv_ids inv → FoldToken (match inv_sum inv !! id with Some s => TicketID_Local (sum_TicketID s)
    | None => ε end) ≠ stoken s) ↔ stoken s ∉ stokens ((SummaryOf <$> records) ++ closed)) as ->; [|tauto].
  setoid_rewrite (io_ids _ _ _ _ _ Hio). unfold stokens, sids. split.
  - intros H (x & Hx & Hin)%list_elem_of_fmap. apply (H (sid x)); [by apply (list_elem_of_fmap_2 (λ s, sid s))|].
    assert (inv_sum inv !! sid x = Some x) as -> by by apply (io_sum _ _ _ _ _ Hio). done.
  - intros H id (x & -> & Hin)%list_elem_of_fmap.
    assert (inv_sum inv !! sid x = Some x) as -> by by apply (io_sum _ _ _ _ _ Hio).
    intros He. apply H. unfold stoken in *. rewrite <-He. by apply (list_elem_of_fmap_2 stoken).
Qed.

Lemma Sorted_spec_witness : Sorted_ sample_inventory ≡ₚ IDs sample_inventory ∧ NoDup (Sorted_ sample_inventory).
Proof.
  split; apply (Sorted_spec sample_queue sample_records [] None sample_inventory sample_inventory_Ok).
Defined.

Lemma CheckLocalToken_spec_witness :
  good sample_queue (((SummaryOf <$> sample_records) ++ []) ++ [SummaryOf (sample_record "e" "P3" ["b"])]).
Proof.
  apply (CheckLocalToken_spec sample_queue sample_records [] None sample_inventory
    (SummaryOf (sample_record "e" "P3" ["b"])) sample_inventory_Ok eq_refl); [|vm_compute; reflexivity].
  apply (bool_decide_unpack _). vm_compute. exact I.
Defined.
