(* ===== verification/Marks.v ===== *)
(** * The optional members of a ticket record

    [progress.go], [hold_condition.go], [prereq.go], [attached_evidence.go]
    and [verdict_paths.go] of [src/internal/tasks/ticket]: the decoders of
    these members through the record reader, and their encoders. *)

From S2P Require Import Prelude Utf8 GoStd Codes Limits Value Primitives Ids Parse.
From S2P Require Import Reader Ticket Inventory.
Local Open Scope Z_scope.
Local Open Scope go_scope.

(** [unicode.IsSpace] *)
Definition IsSpace (r : Z) : bool :=
  ((9 <=? r) && (r <=? 13)) || (r =? 0x20) || (r =? 0x85) || (r =? 0xA0) || (r =? 0x1680) ||
  ((0x2000 <=? r) && (r <=? 0x200A)) || (r =? 0x2028) || (r =? 0x2029) || (r =? 0x202F) || (r =? 0x205F) || (r =? 0x3000).

(** Whether [strings.TrimSpace] of [s] is empty. *)
Definition blank (s : string) : bool :=
  match utf8.scan (λ r _, if IsSpace r then None else Some tt) 0 s with None => true | Some _ => false end.

(** Prose of [1..max] bytes with something else than space; [what] names the
    field in the message. *)
Definition nonblank_prose (max : Z) (what : string) (r : Reader) : M string :=
  s ← Prose r 1 max;
  e ← failed;
  if negb (e : bool) && blank s then
    _ ← Fail r CodeMalformed what []; mret ε
  else mret s.

(** A loop that appends what [fn] reads of each item. *)
Fixpoint each {A} (fn : Reader → M A) (items : list Reader) : M (list A) :=
  match items with
  | [] => mret []
  | it :: items' => x ← fn it; xs ← each fn items'; mret (x :: xs)
  end.

(** ** Progress *)

Definition readProgressReason : Reader → M string :=
  nonblank_prose ProgressMaxReasonBytes "reason must contain non-whitespace prose".

Definition ProgressMarkKeys : list string := ["branch"; "head"; "host"; "lane"; "phase"; "pr"; "reason"].

(** [if err := m.Validate(); err != nil { r.Fail(...) }] *)
Definition check_mark (r : Reader) (m : ProgressMark) : M unit :=
  match ProgressMark_Validate m with
  | Some err => Fail r CodeMalformed "%s" [AMsg (EWire err)]
  | None => mret tt
  end.

Definition ReadProgressMark (r : Reader) : M ProgressMark :=
  f ← Field r "phase"; phase ← Enum f ProgressPhases;
  f ← Field r "lane"; lane ← LabelOrNull f;
  f ← Field r "host"; host ← LabelOrNull f;
  f ← Field r "branch"; branch ← Reader_StringOrNull Identifier f;
  f ← Field r "head"; head ← Reader_StringOrNull OID f;
  f ← Field r "pr"; pr ← CountOrNull f;
  f ← Field r "reason"; reason ← Reader_StringOrNull readProgressReason f;
  let m := {| Phase := phase; Lane := lane; Host := host; Branch := branch; Head := head; PR := pr;
              PReason := reason |} in
  e ← failed;
  _ ← (if (e : bool) then mret tt else check_mark r m);
  mret m.

Definition read_progress_entry (e : Reader) : M Progress :=
  _ ← Closed e (["actor"; "recordedAt"] ++ ProgressMarkKeys);
  mark ← ReadProgressMark e;
  f ← Field e "actor"; actor ← Label f;
  f ← Field e "recordedAt"; at_ ← Timestamp f;
  mret {| prg_Mark := mark; prg_Actor := actor; prg_RecordedAt := at_ |}.

Definition ReadProgress (r : Reader) : M (list Progress) :=
  entries ← Array_ r ProgressMaxEntries true;
  e ← failed;
  if negb (e : bool) && (length entries =? 0)%nat then
    _ ← Fail r CodeMalformed "progress is omitted when empty" []; mret []
  else each read_progress_entry entries.

(** [ProgressMarkValue(o, m)] *)
Definition ProgressMarkValue (o : Object) (m : ProgressMark) : Object :=
  let o := Set_ o "phase" (VString (Phase m)) in
  let o := Set_ o "lane" (StringOrNull (Lane m)) in
  let o := Set_ o "host" (StringOrNull (Host m)) in
  let o := Set_ o "branch" (StringOrNull (Branch m)) in
  let o := Set_ o "head" (StringOrNull (Head m)) in
  let o := Set_ o "pr" (match PR m with None => VNull | Some n => VString n end) in
  Set_ o "reason" (StringOrNull (PReason m)).

Definition ProgressEntryValue (p : Progress) : Value :=
  let o := ProgressMarkValue NewObject (prg_Mark p) in
  let o := Set_ o "actor" (VString (prg_Actor p)) in
  VObject (Set_ o "recordedAt" (VString (prg_RecordedAt p))).

Definition ProgressValue (entries : list Progress) : Value := VArray (ProgressEntryValue <$> entries).

(** ** Hold conditions *)

Definition HoldConditionMaxSymbolBytes : Z := 128.

(** A byte no refname has. *)
Definition badRefByte (c : ascii) : bool :=
  (code c <=? 0x20) || (0x7F <=? code c) || str_exists (λ d, c =b d) "~^:?*[\".

Definition badRefComponent (comp : string) : bool :=
  (comp =s ε) || strings.HasPrefix comp "." || strings.HasSuffix comp ".lock".

Definition HoldConditionRefValid (s : string) : bool :=
  let bad := negb (strings.HasPrefix s "refs/") || (256 <? slen s) || strings.HasSuffix s "." ||
    strings.Contains s ".." || strings.Contains s "@{" in
  let bad := bad || existsb badRefComponent (strings.Split s "/") in
  negb (bad || str_exists badRefByte s).

Definition holdConditionRef (r : Reader) : M string :=
  s ← String_ r;
  e ← failed;
  if (e : bool) then mret ε
  else if negb (HoldConditionRefValid s) then
    _ ← Fail r CodeMalformed "ref %q must be a full refname under refs/" [AStr s]; mret ε
  else mret s.

Definition symbolByte (digits : bool) (c : ascii) : bool :=
  (c =b "_") || between "a" "z" c || between "A" "Z" c || (digits && between "0" "9" c).

Definition symbolValid (s : string) : bool :=
  match s with
  | ε => false
  | String c s' => (slen s <=? HoldConditionMaxSymbolBytes) && symbolByte false c && str_forall (symbolByte true) s'
  end.

Definition holdConditionSymbol (r : Reader) : M string :=
  s ← String_ r;
  e ← failed;
  if (e : bool) then mret ε
  else if negb (symbolValid s) then
    _ ← Fail r CodeMalformed "symbol %q must be an identifier of at most %d bytes" [AStr s; AInt HoldConditionMaxSymbolBytes];
    mret ε
  else mret s.

(** [k.Str] of the member [kind], empty if there is none. *)
Definition conditionKind (v : Value) : string :=
  match v with
  | VObject o => match Get o "kind" with Some (VString s) => s | _ => ε end
  | _ => ε
  end.

Definition ReadHoldCondition (r : Reader) : M HoldCondition :=
  let kind := conditionKind (rv r) in
  _ ← (if kind =s HoldConditionCommitContained then Closed r ["kind"; "ref"; "commit"]
       else if kind =s HoldConditionPathExists then Closed r ["kind"; "ref"; "path"]
       else if kind =s HoldConditionSymbolDefined then Closed r ["kind"; "ref"; "path"; "symbol"]
       else mret tt);
  f ← Field r "kind"; k ← Enum f HoldConditionKinds;
  f ← Field r "ref"; ref ← holdConditionRef f;
  if k =s HoldConditionCommitContained then
    f ← Field r "commit"; commit ← OID f;
    mret {| hc_Kind := k; hc_Ref := ref; hc_Commit := commit; hc_Path := ε; hc_Symbol := ε |}
  else if k =s HoldConditionPathExists then
    f ← Field r "path"; path ← Path f;
    mret {| hc_Kind := k; hc_Ref := ref; hc_Commit := ε; hc_Path := path; hc_Symbol := ε |}
  else if k =s HoldConditionSymbolDefined then
    f ← Field r "path"; path ← Path f;
    f ← Field r "symbol"; symbol ← holdConditionSymbol f;
    _ ← (if strings.HasSuffix path "/" then
           f ← Field r "path";
           Fail f CodeMalformed "SYMBOL_DEFINED path names a file, not a directory prefix" []
         else mret tt);
    mret {| hc_Kind := k; hc_Ref := ref; hc_Commit := ε; hc_Path := path; hc_Symbol := symbol |}
  else mret {| hc_Kind := k; hc_Ref := ref; hc_Commit := ε; hc_Path := ε; hc_Symbol := ε |}.

(** [c.Value()] *)
Definition HoldCondition_Value (c : HoldCondition) : Value :=
  let o := Set_ (Set_ NewObject "kind" (VString (hc_Kind c))) "ref" (VString (hc_Ref c)) in
  VObject
    (if hc_Kind c =s HoldConditionCommitContained then Set_ o "commit" (VString (hc_Commit c))
     else if hc_Kind c =s HoldConditionPathExists then Set_ o "path" (VString (hc_Path c))
     else if hc_Kind c =s HoldConditionSymbolDefined then
       Set_ (Set_ o "path" (VString (hc_Path c))) "symbol" (VString (hc_Symbol c))
     else o).

(** ** Execution prerequisites *)

Fixpoint prerequisites_loop (items : list Reader) (out : list Prerequisite) : M (list Prerequisite) :=
  match items with
  | [] => mret out
  | e :: items' =>
      _ ← Closed e ["gateId"; "obligation"; "stages"; "ticketId"];
      f ← Field e "ticketId"; id ← Reader_TicketID f;
      f ← Field e "obligation"; obligation ← Enum f Obligations;
      f ← Field e "gateId"; gate ← LabelOrNull f;
      st ← Field e "stages";
      stages ← Reader_Strings st (Z.of_nat (length Stages)) false (λ s, Enum s Stages);
      failure ← failed;
      if (failure : bool) then mret []
      else if (length stages =? 0)%nat then
        _ ← Fail st CodeMalformed "stages names at least one stage" []; mret []
      else
        prerequisites_loop items'
          (out ++ [{| pre_TicketID := id; pre_Obligation := obligation; pre_GateID := gate; pre_Stages := stages |}])
  end.

Definition ReadPrerequisites (r : Reader) : M (list Prerequisite) :=
  items ← Array_ r MaxDependencies false;
  e ← failed;
  if (e : bool) then mret []
  else if (length items =? 0)%nat then
    _ ← Fail r CodeMalformed "executionPrerequisites is omitted, never empty" []; mret []
  else prerequisites_loop items [].

(** [v, _ := SortedSet(where, vs)] *)
Definition sorted_or_null (r : outcome Error Value) : Value := match r with Ok v => v | _ => VNull end.

Definition prerequisite_value (p : Prerequisite) : Value :=
  let o := Set_ NewObject "ticketId" (VString (TicketID_Raw (pre_TicketID p))) in
  let o := Set_ o "obligation" (VString (pre_Obligation p)) in
  let o := Set_ o "gateId" (StringOrNull (pre_GateID p)) in
  VObject (Set_ o "stages" (sorted_or_null (SortedSet ε (VString <$> pre_Stages p)))).

Definition PrerequisitesValue (ps : list Prerequisite) : Value :=
  sorted_or_null (SortedSet ε (prerequisite_value <$> ps)).

(** [key] of an edge, with the byte 0 between its parts. *)
Definition edge_key (id : TicketID) (obligation : string) (gate : option string) : string :=
  let key := TicketID_Raw id +:+ str1 (byte_of 0) +:+ obligation in
  match gate with Some g => key +:+ str1 (byte_of 0) +:+ g | None => key end.

Fixpoint validatePrerequisites_loop (own : TicketID) (seen : list string) (i : Z) (ps : list Prerequisite) :
    option Error :=
  match ps with
  | [] => None
  | p :: ps' =>
      let where_ := "/executionPrerequisites/" +:+ idx i in
      if negb (Bool.eqb (pre_Obligation p =s "GATE_PASSED") (bool_decide (is_Some (pre_GateID p)))) then
        Some (Errorf CodeMalformed (where_ +:+ "/gateId") "gateId is non-null iff obligation is GATE_PASSED" [])
      else if negb (TicketID_QueueID (pre_TicketID p) =s TicketID_QueueID own) then
        Some (Errorf CodeDependencyMissing (where_ +:+ "/ticketId") "execution prerequisite %s is outside queue %s"
          [AStr (TicketID_Raw (pre_TicketID p)); AStr (TicketID_QueueID own)])
      else if TicketID_Raw (pre_TicketID p) =s TicketID_Raw own then
        Some (Errorf CodeMalformed (where_ +:+ "/ticketId") "a ticket cannot be its own execution prerequisite" [])
      else
        let key := edge_key (pre_TicketID p) (pre_Obligation p) (pre_GateID p) in
        if existsb (String.eqb key) seen then
          Some (Errorf CodeDuplicateID where_ "duplicate execution prerequisite" [])
        else validatePrerequisites_loop own (key :: seen) (i + 1) ps'
  end.

Definition validatePrerequisites (rec : Record_) : option Error :=
  validatePrerequisites_loop (rec_TicketID rec) [] 0 (rec_ExecutionPrerequisites rec).

(** ** Attached evidence *)

Definition ReadEvidenceDigests (r : Reader) : M (list string) :=
  items ← Array_ r AttachedEvidenceMaxDigests false;
  e ← failed;
  if negb (e : bool) && (length items =? 0)%nat then
    _ ← Fail r CodeMalformed "evidence names at least one digest" []; mret []
  else each Digest items.

Definition ReadEvidenceReason : Reader → M string :=
  nonblank_prose AttachedEvidenceMaxReasonBytes "reason must contain non-whitespace prose".

Definition read_attached_evidence (e : Reader) : M AttachedEvidence :=
  _ ← Closed e ["acceptanceRevision"; "actor"; "evidence"; "reason"; "recordedAt"];
  f ← Field e "acceptanceRevision"; acc ← Count f;
  f ← Field e "actor"; actor ← Label f;
  f ← Field e "evidence"; evidence ← ReadEvidenceDigests f;
  f ← Field e "reason"; reason ← ReadEvidenceReason f;
  f ← Field e "recordedAt"; at_ ← Timestamp f;
  mret {| att_AcceptanceRevision := acc; att_Actor := actor; att_Evidence := evidence; att_Reason := reason;
          att_RecordedAt := at_ |}.

Definition ReadAttachedEvidence (r : Reader) : M (list AttachedEvidence) :=
  entries ← Array_ r AttachedEvidenceMaxEntries true;
  e ← failed;
  if negb (e : bool) && (length entries =? 0)%nat then
    _ ← Fail r CodeMalformed "attachedEvidence is omitted when empty" []; mret []
  else each read_attached_evidence entries.

(** [DigestsValue(ds)] *)
Definition DigestsValue (ds : list string) : Value := Strings ds.

Definition attached_evidence_value (a : AttachedEvidence) : Value :=
  let o := Set_ NewObject "acceptanceRevision" (VString (att_AcceptanceRevision a)) in
  let o := Set_ o "actor" (VString (att_Actor a)) in
  let o := Set_ o "evidence" (DigestsValue (att_Evidence a)) in
  let o := Set_ o "reason" (VString (att_Reason a)) in
  VObject (Set_ o "recordedAt" (VString (att_RecordedAt a))).

Definition AttachedEvidenceValue (entries : list AttachedEvidence) : Value :=
  VArray (attached_evidence_value <$> entries).

Definition AttachedAt (entries : list AttachedEvidence) (acc d : string) : bool :=
  existsb (λ a, (att_AcceptanceRevision a =s acc) && existsb (λ x, x =s d) (att_Evidence a)) entries.

Fixpoint evidence_digests_new (prefix : list AttachedEvidence) (where_ acc : string) (ds : list string) : option Error :=
  match ds with
  | [] => None
  | d :: ds' =>
      if AttachedAt prefix acc d then
        Some (Errorf CodeDuplicateID (where_ +:+ "/evidence") "digest %s is already attached at acceptanceRevision %s"
          [AStr d; AStr acc])
      else evidence_digests_new prefix where_ acc ds'
  end.

(** The loop of [validateAttachedEvidence]; [prefix] are the entries before. *)
Fixpoint validateAttachedEvidence_loop (revision : string) (prefix : list AttachedEvidence) (prev i : Z)
    (entries : list AttachedEvidence) : option Error :=
  match entries with
  | [] => None
  | a :: entries' =>
      let where_ := "/attachedEvidence/" +:+ idx i in
      let n := Count_Int (att_AcceptanceRevision a) in
      if (n <? 1) || (Count_Int revision <? n) then
        Some (Errorf CodeMalformed (where_ +:+ "/acceptanceRevision") "entry acceptanceRevision %s is outside 1..%s"
          [AStr (att_AcceptanceRevision a); AStr revision])
      else if n <? prev then
        Some (Errorf CodeMalformed (where_ +:+ "/acceptanceRevision")
          "entries are in append order; acceptanceRevision %s follows a later one" [AStr (att_AcceptanceRevision a)])
      else match evidence_digests_new prefix where_ (att_AcceptanceRevision a) (att_Evidence a) with
      | Some e => Some e
      | None => validateAttachedEvidence_loop revision (prefix ++ [a]) n (i + 1) entries'
      end
  end.

Definition validateAttachedEvidence (rec : Record_) : option Error :=
  validateAttachedEvidence_loop (rec_AcceptanceRevision rec) [] 0 0 (rec_AttachedEvidence rec).

(** ** Verdict paths *)

Definition VerdictPathsEmpty : string := "VERDICT_PATHS_EMPTY".
Definition VerdictPathOutsideTouchPaths : string := "VERDICT_PATH_OUTSIDE_TOUCH_PATHS".

(** [ReadVerdictPaths(ef, touch)] *)
Definition ReadVerdictPaths (ef : Reader) (touch : list string) : M (option (list string)) :=
  e ← failed;
  if (e : bool) || negb (Has (rv ef) "verdictPaths") then mret None
  else
    f ← Field ef "verdictPaths";
    paths ← Reader_Strings f MaxTouchPaths false Path;
    e ← failed;
    if (e : bool) then mret None
    else if (length paths =? 0)%nat then
      _ ← Fail f CodeMalformed
        "%s: effects.verdictPaths must name at least one path; omit it to govern effects.touchPaths"
        [AStr VerdictPathsEmpty];
      mret None
    else
      let i := UncoveredVerdictPath touch paths in
      if 0 <=? i then
        _ ← Fail f CodeOutOfScope
          ("%s: effects.verdictPaths/%d %q is not covered by effects.touchPaths (a directory key ends in "
         +:+ str1 dquote +:+ "/" +:+ str1 dquote +:+ ")")
          [AStr VerdictPathOutsideTouchPaths; AInt i; AStr (default ε (paths !! Z.to_nat i))];
        mret None
      else mret (Some paths).

Definition SetVerdictPaths (eo : Object) (paths : option (list string)) : Object :=
  match paths with Some ps => Set_ eo "verdictPaths" (Strings ps) | None => eo end.
