(* ===== verification/MarksSpec.v ===== *)
(** * What the optional members promise

    Each decoder of a member gives back, through its encoder, the value it
    read; and the relations that a decoded member satisfies. *)

From S2P Require Import Prelude Utf8 GoStd Codes Limits Value Canonical Primitives Ids.
From S2P Require Import SetsSpec PrimitivesSpec IdsSpec Parse ParseTotal ParsePrint.
From S2P Require Import ParseDoc Reader ReaderSpec Result ResultSpec Ticket Inventory Marks.
Local Open Scope Z_scope.
Local Open Scope go_scope.

(** ** Codecs *)

(** The promise of a decoder and its encoder. *)
Class Codec {A} (dec : Reader → M A) (enc : A → Value) : Prop := {
  codec_sticky r :: Sticky (dec r);
  codec_value r x : distinct (rv r) → ok (dec r) x → canon (rv r) = canon (enc x)
}.

#[global] Instance Sticky_nonblank max what r : Sticky (nonblank_prose max what r).
Proof. unfold nonblank_prose. apply _. Qed.

#[global] Instance Sticky_each {A} (fn : Reader → M A) items : (∀ r, Sticky (fn r)) → Sticky (each fn items).
Proof. intros H. induction items; simpl; apply _. Qed.

Lemma ok_each {A} (fn : Reader → M A) items xs :
  (∀ r, Sticky (fn r)) → ok (each fn items) xs ↔ Forall2 (λ r x, ok (fn r) x) items xs.
Proof.
  intros Hst. revert xs; induction items as [|it items IH]; intros xs; cbn [each].
  - rewrite ok_ret. split; [by intros <-|by inversion 1].
  - rewrite ok_bind by apply _. setoid_rewrite ok_bind; [|apply _..]. setoid_rewrite ok_ret. setoid_rewrite IH. split.
    + intros (x & Hx & ys & Hys & <-). by constructor.
    + inversion 1; subst. eauto.
Qed.

(** The elements of an array, decoded one by one, are those encoded. *)
Lemma each_value {A} (dec : Reader → M A) enc `{!Codec dec enc} r vs : ∀ i xs,
  Forall distinct vs → ok (each dec (children r i vs)) xs → canon <$> vs = (λ x, canon (enc x)) <$> xs.
Proof.
  induction vs as [|v vs IH]; intros i xs Hd; cbn [children]; rewrite ok_each by apply _; intros H; inv H as [|? x ? xs' Hx Hxs].
  - done.
  - inv Hd as [|? ? Hv Hvs]. rewrite !fmap_cons. f_equal; [by apply (codec_value _ x) in Hx|].
    eapply IH; [done|]. by rewrite ok_each by apply _.
Qed.

Lemma canon_VArray vs : canon (VArray vs) = VArray (canon <$> vs).
Proof. done. Qed.

Lemma distinct_elements vs : distinct (VArray vs) → Forall distinct vs.
Proof. by inversion 1. Qed.

Lemma nonblank_value max what r s : ok (nonblank_prose max what r) s → rv r = VString s ∧ blank s = false.
Proof.
  unfold nonblank_prose. intros H. rewrite ok_bind in H by apply _. destruct H as (t & Ht & H).
  apply Prose_value in Ht. rewrite ok_failed in H. cbn [negb andb] in H.
  destruct (blank t) eqn:Hb; [by apply ok_Fail in H; [|apply _]|]. rewrite ok_ret in H. by subst.
Qed.

(** ** Fields *)

Lemma Label_value r s : ok (Label r) s → rv r = VString s.
Proof. by intros [? _]%(ok_text ParseLabel). Qed.

Lemma Path_value r s : ok (Path r) s → rv r = VString s.
Proof. by intros [? _]%(ok_text ParsePath). Qed.

Lemma LabelOrNull_value r x : ok (LabelOrNull r) x → rv r = StringOrNull x.
Proof. by intros [? _]%(ok_text_or_null ParseLabel). Qed.

Lemma IdentifierOrNull_value r x : ok (Reader_StringOrNull Identifier r) x → rv r = StringOrNull x.
Proof. by intros [? _]%(ok_text_or_null ParseIdentifier). Qed.

Lemma reasonOrNull_value r x : ok (Reader_StringOrNull readProgressReason r) x → rv r = StringOrNull x.
Proof.
  unfold Reader_StringOrNull. intros H. apply ok_or_null in H; [|intros; unfold readProgressReason; apply _].
  destruct H as [[Hn ->]|(_ & s & [Hs _]%nonblank_value & ->)]; done.
Qed.

Lemma ParseTicketID_raw w s t : ParseTicketID w s = Ok t → TicketID_Raw t = s.
Proof.
  unfold ParseTicketID. destruct (checkIDLength w s); [done|].
  destruct (strings.Split s ":") as [|k [|a [|q [|l [|]]]]]; try done. destruct (negb _); [done|].
  intros (? & _ & (? & _ & (? & _ & [= <-])%obind_Ok)%obind_Ok)%obind_Ok. done.
Qed.

Lemma ParseTicketID_fuel w s : ParseTicketID w s ≠ OutOfFuel.
Proof.
  assert (∀ t m, ParseToken w t m ≠ OutOfFuel) as Ht by (intros t m; unfold ParseToken; repeat case_match; congruence).
  unfold ParseTicketID. destruct (checkIDLength w s); [done|].
  destruct (strings.Split s ":") as [|k [|a [|q [|l [|]]]]]; try done. destruct (negb _); [done|].
  pose proof (Ht a MaxIdentifierBytes). destruct (ParseToken w a _); cbn [obind]; [|done|done].
  pose proof (Ht q MaxIdentifierBytes). destruct (ParseToken w q _); cbn [obind]; [|done|done].
  pose proof (Ht l MaxLocalTokenBytes). by destruct (ParseToken w l _).
Qed.

Lemma TicketID_value r t : ok (Reader_TicketID r) t → rv r = VString (TicketID_Raw t).
Proof.
  unfold Reader_TicketID. rewrite ok_parsed. intros (s & Hr & [H|[H _]]); [|by apply ParseTicketID_fuel in H].
  by rewrite (ParseTicketID_raw _ _ _ H).
Qed.

(** [ok_inv] with the fields above. *)
Ltac mark_inv :=
  repeat (ok_step || match goal with
  | H : ok (Label _) _ |- _ => apply Label_value in H
  | H : ok (Path _) _ |- _ => apply Path_value in H
  | H : ok (LabelOrNull _) _ |- _ => apply LabelOrNull_value in H
  | H : ok (Reader_StringOrNull Identifier _) _ |- _ => apply IdentifierOrNull_value in H
  | H : ok (Reader_StringOrNull readProgressReason _) _ |- _ => apply reasonOrNull_value in H
  | H : ok (Reader_TicketID _) _ |- _ => apply TicketID_value in H
  end);
  repeat match goal with H : context [rv (child ?r ?v ?s)] |- _ => change (rv (child r v s)) with v in H end.

(** ** Progress *)

#[global] Instance Sticky_check_mark r m : Sticky (check_mark r m).
Proof. unfold check_mark. destruct (ProgressMark_Validate m); apply _. Qed.

#[global] Instance Sticky_progress_reason r : Sticky (readProgressReason r).
Proof. unfold readProgressReason. apply _. Qed.

#[global] Instance Sticky_ReadProgressMark r : Sticky (ReadProgressMark r).
Proof. unfold ReadProgressMark. apply _. Qed.

#[global] Instance Sticky_progress_entry r : Sticky (read_progress_entry r).
Proof. unfold read_progress_entry. apply _. Qed.

Lemma check_mark_ok r m u : ok (check_mark r m) u → ProgressMark_Validate m = None.
Proof. unfold check_mark. destruct (ProgressMark_Validate m); [by intros ?%ok_Fail_last|done]. Qed.

Lemma progress_entry_ok r p :
  distinct (rv r) → ok (read_progress_entry r) p →
  canon (rv r) = canon (ProgressEntryValue p) ∧ ProgressMark_Validate (prg_Mark p) = None.
Proof.
  intros Hd H. unfold read_progress_entry, ReadProgressMark in H. mark_inv.
  match goal with H : ok (check_mark _ _) _ |- _ => apply check_mark_ok in H end. subst.
  split; [|done]. unfold ProgressEntryValue, ProgressMarkValue. cbn [prg_Mark prg_Actor prg_RecordedAt Phase Lane Host Branch Head PR PReason].
  same_members Hd.
Qed.

#[global] Instance progress_codec : Codec read_progress_entry ProgressEntryValue.
Proof. split; [apply _|]. by intros r x Hd [H _]%progress_entry_ok. Qed.

Lemma each_Forall {A} (dec : Reader → M A) (P : A → Prop) r vs : ∀ i xs,
  (∀ r, Sticky (dec r)) → (∀ r x, distinct (rv r) → ok (dec r) x → P x) →
  Forall distinct vs → ok (each dec (children r i vs)) xs → Forall P xs.
Proof.
  intros i xs Hst HP. revert i xs.
  induction vs as [|v vs IH]; intros i xs Hd; cbn [children]; rewrite ok_each by apply _; intros H;
    inv H as [|? x ? xs' Hx Hxs]; constructor.
  - inv Hd as [|? ? Hv Hvs]. by apply HP in Hx.
  - inv Hd as [|? ? Hv Hvs]. eapply IH; [done|]. by rewrite ok_each by apply _.
Qed.

(** A non-empty array of entries that are kept in order. *)
Lemma entries_ok {A} (dec : Reader → M A) enc `{!Codec dec enc} (P : A → Prop) r max what xs :
  (∀ r x, distinct (rv r) → ok (dec r) x → P x) →
  distinct (rv r) → 0 ≤ max →
  ok (entries ← Array_ r max true; e ← failed;
      if negb (e : bool) && (length entries =? 0)%nat then _ ← Fail r CodeMalformed what []; mret []
      else each dec entries) xs →
  canon (rv r) = canon (VArray (enc <$> xs)) ∧ xs ≠ [] ∧ Z.of_nat (length xs) ≤ max ∧ Forall P xs.
Proof.
  intros HP Hd Hmax H.
  rewrite ok_bind in H; [|apply _|intros a; apply Sticky_bind; [apply _|]; intros e; destruct (_ && _); apply _].
  destruct H as (es & Hes & H). rewrite ok_Array in Hes. destruct Hes as (vs & Hv & Hle & _ & ->).
  rewrite ok_failed in H. cbn [negb andb] in H. rewrite Hv in Hd |- *. apply distinct_elements in Hd.
  destruct vs as [|v vs]; [by apply ok_Fail in H; [|apply _]|].
  assert (length (children r 0 (v :: vs)) =? 0 = false)%nat as Hz by done. rewrite Hz in H.
  pose proof (each_value _ _ _ _ _ _ Hd H) as Heq.
  rewrite !canon_VArray. rewrite <-list_fmap_compose. split_and!.
  - f_equal. rewrite Heq. by apply list_fmap_ext.
  - by intros ->.
  - apply (f_equal length) in Heq. rewrite !length_fmap in Heq. rewrite <-Heq. destruct Hle; lia.
  - eapply (each_Forall dec); [apply _|exact HP|exact Hd|exact H].
Qed.

(** ** Attached evidence *)

#[global] Instance Sticky_ReadEvidenceDigests r : Sticky (ReadEvidenceDigests r).
Proof. unfold ReadEvidenceDigests. apply _. Qed.

#[global] Instance Sticky_attached_evidence r : Sticky (read_attached_evidence r).
Proof. unfold read_attached_evidence, ReadEvidenceReason. apply _. Qed.

Lemma evidence_digests_ok r ds : ok (ReadEvidenceDigests r) ds → rv r = Strings ds ∧ ds ≠ [] ∧ NoDup ds.
Proof.
  unfold ReadEvidenceDigests. intros H. rewrite ok_bind in H by apply _. destruct H as (es & Hes & H).
  rewrite ok_Array in Hes. destruct Hes as (vs & Hv & _ & Hs & ->). destruct Hs as [|Hs]; [done|].
  rewrite ok_failed in H. cbn [negb andb] in H. destruct vs as [|v vs]; [by apply ok_Fail in H; [|apply _]|].
  assert (length (children r 0 (v :: vs)) =? 0 = false)%nat as Hz by done. rewrite Hz in H.
  assert (v :: vs = VString <$> ds) as Heq.
  { revert H. generalize (v :: vs). clear. intros vs. generalize 0%Z. revert ds.
    induction vs as [|v vs IH]; intros ds i; cbn [children]; rewrite ok_each by apply _; intros H; inv H as [|? x ? xs' Hx Hxs]; [done|].
    apply Digest_value in Hx. cbn in Hx. rewrite fmap_cons. f_equal; [done|]. eapply IH. by rewrite ok_each by apply _. }
  rewrite Hv, Heq in *. split_and!; [done|by intros ->|].
  assert (NoDup (VString <$> ds)) as Hnd; [|by apply NoDup_fmap_1 in Hnd].
  clear -Hs. induction Hs as [|x l _ IH Hf]; constructor; [|done]. intros Hx. rewrite Forall_forall in Hf.
  specialize (Hf x Hx). unfold before in Hf. by rewrite ltb_irrefl in Hf.
Qed.

Lemma attached_evidence_ok r a :
  distinct (rv r) → ok (read_attached_evidence r) a →
  canon (rv r) = canon (attached_evidence_value a) ∧ att_Evidence a ≠ [] ∧ NoDup (att_Evidence a) ∧ blank (att_Reason a) = false.
Proof.
  intros Hd H. unfold read_attached_evidence in H. mark_inv.
  match goal with H : ok (ReadEvidenceDigests _) _ |- _ => apply evidence_digests_ok in H as (? & ? & ?) end.
  match goal with H : ok (ReadEvidenceReason _) _ |- _ => apply nonblank_value in H as [? ?] end.
  mark_inv. subst. split; [|done]. unfold attached_evidence_value, DigestsValue.
  cbn [att_AcceptanceRevision att_Actor att_Evidence att_Reason att_RecordedAt]. same_members Hd.
Qed.

#[global] Instance attached_evidence_codec : Codec read_attached_evidence attached_evidence_value.
Proof. split; [apply _|]. by intros r x Hd [H _]%attached_evidence_ok. Qed.

(** ** Hold conditions *)

#[global] Instance Sticky_holdConditionRef r : Sticky (holdConditionRef r).
Proof. unfold holdConditionRef. apply _. Qed.

#[global] Instance Sticky_holdConditionSymbol r : Sticky (holdConditionSymbol r).
Proof. unfold holdConditionSymbol. apply _. Qed.

#[global] Instance Sticky_ReadHoldCondition r : Sticky (ReadHoldCondition r).
Proof. unfold ReadHoldCondition. apply _. Qed.

Lemma holdConditionRef_ok r s : ok (holdConditionRef r) s → rv r = VString s ∧ HoldConditionRefValid s = true.
Proof.
  unfold holdConditionRef. rewrite ok_bind by apply _. intros (t & Ht & H). apply ok_String in Ht.
  rewrite ok_failed in H. destruct (HoldConditionRefValid t) eqn:Hv; cbn [negb] in H.
  - rewrite ok_ret in H. by subst.
  - by apply ok_Fail in H; [|apply _].
Qed.

Lemma holdConditionSymbol_ok r s : ok (holdConditionSymbol r) s → rv r = VString s ∧ symbolValid s = true.
Proof.
  unfold holdConditionSymbol. rewrite ok_bind by apply _. intros (t & Ht & H). apply ok_String in Ht.
  rewrite ok_failed in H. destruct (symbolValid t) eqn:Hv; cbn [negb] in H.
  - rewrite ok_ret in H. by subst.
  - by apply ok_Fail in H; [|apply _].
Qed.

Lemma hold_condition_ok r c :
  distinct (rv r) → ok (ReadHoldCondition r) c →
  canon (rv r) = canon (HoldCondition_Value c) ∧ HoldConditionRefValid (hc_Ref c) = true ∧
  hc_Kind c ∈ HoldConditionKinds.
Proof.
  intros Hd H. unfold ReadHoldCondition in H. rewrite ok_bind in H by apply _. destruct H as (u & Hc & H).
  rewrite ok_bind in H by apply _. destruct H as (f & Hf & H). rewrite ok_bind in H by apply _. destruct H as (k & Hk & H).
  rewrite ok_Field in Hf. destruct Hf as (o & v & Hr & Hg & ->). rewrite ok_Enum in Hk. destruct Hk as [Hv Hin].
  cbn [child rv] in Hv. subst v.
  assert (conditionKind (rv r) = k) as Hkind by (unfold conditionKind; by rewrite Hr, Hg). rewrite Hkind in Hc. clear Hkind.
  rewrite ok_bind in H by apply _. destruct H as (f & Hf & H). rewrite ok_Field in Hf.
  destruct Hf as (o' & v & Hr' & Hg' & ->). assert (o' = o) as -> by congruence. clear Hr'.
  rewrite ok_bind in H by apply _. destruct H as (ref & Href & H). apply holdConditionRef_ok in Href as [Href Hvalid].
  cbn [child rv] in Href. subst v.
  assert (k = HoldConditionCommitContained ∨ k = HoldConditionPathExists ∨ k = HoldConditionSymbolDefined) as [->|[->| ->]].
  { unfold HoldConditionKinds in Hin. set_solver. }
  all: cbn in Hc, H; mark_inv.
  3: match goal with H : ok (holdConditionSymbol _) _ |- _ => apply holdConditionSymbol_ok in H as [? _] end; mark_inv.
  all: subst; split; [|by split]; unfold HoldCondition_Value;
    cbn [hc_Kind hc_Ref hc_Commit hc_Path hc_Symbol String.eqb Ascii.eqb Bool.eqb HoldConditionCommitContained
      HoldConditionPathExists HoldConditionSymbolDefined]; same_members Hd.
Qed.

(** ** Prerequisites *)

(** Sorting what is strictly sorted by its encodings. *)
Lemma SortedSet_sorted w vs : StronglySorted before vs → SortedSet w vs = Ok (VArray vs).
Proof.
  intros Hs. unfold SortedSet. set (ks := (λ v, (Encode v, v)) <$> vs).
  assert (ks.*1 = Encode <$> vs) as H1 by (unfold ks; by rewrite <-list_fmap_compose).
  assert (ks.*2 = vs) as H2 by (unfold ks; rewrite <-list_fmap_compose; apply list_fmap_id).
  assert (StronglySorted (λ x y, String.ltb x y = true) (Encode <$> vs)) as Hl by by apply StronglySorted_fmap.
  assert (StronglySorted (λ x y, String.leb x y = true) (Encode <$> vs)) as Hle.
  { eapply StronglySorted_weaken; [|exact Hl]. intros x y _ _. cbv beta. rewrite ltb_leb, negb_true_iff. apply leb_total. }
  assert (isort keyed_le ks = ks) as ->.
  { apply isort_sorted. unfold ks. apply StronglySorted_fmap. by apply (StronglySorted_fmap Encode) in Hle. }
  rewrite H1, H2. rewrite (proj2 (first_dup_None (Encode <$> vs) None Hle)); [done|]. by split.
Qed.

Lemma Encode_canon v w : distinct v → distinct w → canon v = canon w → Encode v = Encode w.
Proof. intros Hv Hw H. rewrite !Encode_enc. by apply enc_inj. Qed.

#[global] Instance Sticky_TicketID r : Sticky (Reader_TicketID r).
Proof. unfold Reader_TicketID. apply _. Qed.

#[global] Instance Sticky_prerequisites_loop items : ∀ out, Sticky (prerequisites_loop items out).
Proof. induction items; intros out; cbn [prerequisites_loop]; apply _. Qed.

Lemma prerequisites_loop_ok r vs : ∀ i out ps,
  Forall distinct vs → ok (prerequisites_loop (children r i vs) out) ps →
  ∃ qs, ps = out ++ qs ∧ canon <$> vs = (λ p, canon (prerequisite_value p)) <$> qs ∧
    Forall (λ p, pre_Stages p ≠ [] ∧ Forall (λ s, s ∈ Stages) (pre_Stages p) ∧ pre_Obligation p ∈ Obligations) qs.
Proof.
  induction vs as [|v vs IH]; intros i out ps Hd H; cbn [children prerequisites_loop] in H.
  { rewrite ok_ret in H. subst. exists []. by rewrite app_nil_r. }
  inv Hd as [|? ? Hv Hvs].
  match type of H with context [child r v ?seg] => set (e := child r v seg) in H; assert (v = rv e) as Hve by done end.
  clearbody e. rewrite Hve in Hv |- *. clear Hve. mark_inv.
  match goal with H : ok (Reader_Strings _ _ _ _) _ |- _ => rename H into Hst end.
  apply (ok_Strings_Forall (λ s, s ∈ Stages)) in Hst as Hin; [|apply _|by intros ? ? [_ ?]%ok_Enum].
  apply ok_Strings_value in Hst as (Hst & _ & [|Hsort]); [done| |apply _|by intros ? ? [? _]%ok_Enum].
  destruct (length _ =? 0)%nat eqn:Hlen in H; [by mark_inv|].
  match type of Hst with _ = Strings ?ss => destruct ss as [|s ss]; [done|] end.
  apply IH in H as (qs & -> & Heq & Hall); [|done]. eexists. rewrite <-app_assoc. split; [done|].
  cbn [app]. split; [|constructor; [by split_and!|done]].
  rewrite !fmap_cons. f_equal; [|done]. unfold prerequisite_value.
  cbn [pre_TicketID pre_Obligation pre_GateID pre_Stages]. rewrite SortedSet_sorted by done. cbn [sorted_or_null].
  subst. same_members Hv.
  cbn [child rv] in Hst. by rewrite Hst.
Qed.

(** Values that are equal up to the order of keys have the same encodings, so
    they are sorted together. *)
Lemma before_reencode vs ws :
  Forall distinct vs → canon <$> vs = canon <$> ws → StronglySorted before vs → Forall distinct ws ∧ StronglySorted before ws.
Proof.
  intros Hd Heq Hs.
  assert (Forall distinct ws) as Hdw.
  { apply Forall_forall. intros w Hw. apply distinct_canon.
    assert (canon w ∈ canon <$> vs) as Hin by (rewrite Heq; by apply list_elem_of_fmap_2).
    apply list_elem_of_fmap in Hin as (u & -> & Hu). apply canon_distinct. rewrite Forall_forall in Hd. auto. }
  split; [done|].
  assert (Encode <$> vs = Encode <$> ws) as He.
  { clear Hs. revert ws Heq Hdw. induction vs as [|v vs IH]; intros [|w ws] Heq Hw; try done. rewrite !fmap_cons in *.
    injection Heq as Hv Hvs. inv Hd as [|? ? Hdv Hdvs]. inv Hw as [|? ? Hdx Hdxs]. f_equal; [by apply Encode_canon|by apply IH]. }
  assert (StronglySorted (λ x y, String.ltb x y = true) (Encode <$> vs)) as Hl by by apply StronglySorted_fmap.
  rewrite He in Hl. by apply StronglySorted_fmap in Hl.
Qed.

Lemma prerequisites_ok r ps :
  distinct (rv r) → ok (ReadPrerequisites r) ps →
  canon (rv r) = canon (PrerequisitesValue ps) ∧ ps ≠ [] ∧
  Forall (λ p, pre_Stages p ≠ [] ∧ Forall (λ s, s ∈ Stages) (pre_Stages p) ∧ pre_Obligation p ∈ Obligations) ps.
Proof.
  intros Hd H. unfold ReadPrerequisites in H. rewrite ok_bind in H by apply _. destruct H as (es & Hes & H).
  rewrite ok_Array in Hes. destruct Hes as (vs & Hv & _ & Hs & ->). destruct Hs as [|Hs]; [done|].
  rewrite ok_failed in H. cbv iota in H. rewrite Hv in Hd |- *. apply distinct_elements in Hd.
  destruct vs as [|v vs]; [by apply ok_Fail in H; [|apply _]|].
  assert (length (children r 0 (v :: vs)) =? 0 = false)%nat as Hz by done. rewrite Hz in H.
  apply prerequisites_loop_ok in H as (qs & -> & Heq & Hall); [|done]. cbn [app].
  split; [|split; [by intros ->|done]].
  assert (canon <$> v :: vs = canon <$> (prerequisite_value <$> qs)) as Heq' by (rewrite Heq; by rewrite <-list_fmap_compose).
  destruct (before_reencode _ _ Hd Heq' Hs) as [_ Hsq].
  unfold PrerequisitesValue. rewrite SortedSet_sorted by done. cbn [sorted_or_null]. by rewrite !canon_VArray, Heq'.
Qed.

(** The optional members of a ticket record are byte-exact: what their
    decoders accept is, up to the order of keys, what their encoders write for
    the decoded value. A decoded progress mark has the members its phase
    requires, a hold condition a full refname under refs/, a prerequisite at
    least one stage, and attached evidence at least one digest, none twice. *)
Theorem optional_members_reencode r :
  distinct (rv r) →
  (∀ ps, ok (ReadProgress r) ps → canon (rv r) = canon (ProgressValue ps) ∧ ps ≠ [] ∧
    Forall (λ p, ProgressMark_Validate (prg_Mark p) = None) ps) ∧
  (∀ c, ok (ReadHoldCondition r) c → canon (rv r) = canon (HoldCondition_Value c) ∧
    HoldConditionRefValid (hc_Ref c) = true ∧ hc_Kind c ∈ HoldConditionKinds) ∧
  (∀ ps, ok (ReadPrerequisites r) ps → canon (rv r) = canon (PrerequisitesValue ps) ∧ ps ≠ [] ∧
    Forall (λ p, pre_Stages p ≠ [] ∧ Forall (λ s, s ∈ Stages) (pre_Stages p) ∧ pre_Obligation p ∈ Obligations) ps) ∧
  (∀ es, ok (ReadAttachedEvidence r) es → canon (rv r) = canon (AttachedEvidenceValue es) ∧ es ≠ [] ∧
    Forall (λ a, att_Evidence a ≠ [] ∧ NoDup (att_Evidence a) ∧ blank (att_Reason a) = false) es).
Proof.
  intros Hd. split_and!; intros x H.
  - eapply (entries_ok read_progress_entry _ (λ p, ProgressMark_Validate (prg_Mark p) = None)) in H
      as (? & ? & _ & ?); [done| |done|done].
    by intros r' p Hr [_ ?]%progress_entry_ok.
  - by apply hold_condition_ok.
  - by apply prerequisites_ok.
  - eapply (entries_ok read_attached_evidence _
      (λ a, att_Evidence a ≠ [] ∧ NoDup (att_Evidence a) ∧ blank (att_Reason a) = false)) in H
      as (? & ? & _ & ?); [done| |done|done].
    by intros r' a Hr [_ ?]%attached_evidence_ok.
Qed.

Definition commit_condition : HoldCondition :=
  {| hc_Kind := HoldConditionCommitContained; hc_Ref := "refs/heads/main";
     hc_Commit := "0123456789012345678901234567890123456789"; hc_Path := ε; hc_Symbol := ε |}.

Lemma optional_members_reencode_witness :
  canon (HoldCondition_Value commit_condition) = canon (HoldCondition_Value commit_condition) ∧
  HoldConditionRefValid "refs/heads/main" = true.
Proof.
  assert (distinct (rv (NewReader (HoldCondition_Value commit_condition) "/"))) as Hd.
  { apply distinct_canon. eapply ParseWith_object with (opts := noOptions)
      (data := EncodeFile (HoldCondition_Value commit_condition)). vm_compute. reflexivity. }
  destruct (optional_members_reencode (NewReader (HoldCondition_Value commit_condition) "/") Hd) as (_ & Hc & _).
  destruct (Hc commit_condition) as (H & Hv & _); [vm_compute; reflexivity|].
  exact (conj H Hv).
Defined.

(** ** Relations between attached entries *)

(** An entry and a later one. *)
Definition entry_order (a b : AttachedEvidence) : Prop :=
  Count_Int (att_AcceptanceRevision a) ≤ Count_Int (att_AcceptanceRevision b) ∧
  (att_AcceptanceRevision a = att_AcceptanceRevision b → ∀ d, d ∈ att_Evidence a → d ∉ att_Evidence b).

Lemma AttachedAt_spec entries acc d :
  AttachedAt entries acc d = true ↔ ∃ a, a ∈ entries ∧ att_AcceptanceRevision a = acc ∧ d ∈ att_Evidence a.
Proof.
  unfold AttachedAt. rewrite existsb_exists. setoid_rewrite andb_true_iff. setoid_rewrite existsb_exists.
  setoid_rewrite String.eqb_eq. setoid_rewrite <-list_elem_of_In. split.
  - intros (a & Ha & He & x & Hx & ->). by exists a.
  - intros (a & Ha & He & Hd). exists a. split_and!; [done..|]. by exists d.
Qed.

Lemma evidence_digests_new_None prefix w acc ds :
  evidence_digests_new prefix w acc ds = None ↔
  ∀ a, a ∈ prefix → att_AcceptanceRevision a = acc → ∀ d, d ∈ att_Evidence a → d ∉ ds.
Proof.
  induction ds as [|d ds IH]; cbn [evidence_digests_new].
  { split; [|done]. intros _ a _ _ d _. apply not_elem_of_nil. }
  pose proof (AttachedAt_spec prefix acc d) as Hs. destruct (AttachedAt prefix acc d).
  - split; [done|]. intros H. destruct (proj1 Hs eq_refl) as (a & Ha & He & Hd). by destruct (H a Ha He d Hd); left.
  - rewrite IH. split.
    + intros H a Ha He x Hx [->|Hin]%elem_of_cons; [|by eapply H]. by assert (false = true) by (apply Hs; eauto).
    + intros H a Ha He x Hx Hin. eapply H; [done..|]. by right.
Qed.

Lemma validateAttachedEvidence_loop_None acc entries : ∀ prefix prev i,
  (∀ a, a ∈ prefix → Count_Int (att_AcceptanceRevision a) ≤ prev) → StronglySorted entry_order prefix →
  (prev = 0 ∨ ∃ a, a ∈ prefix ∧ Count_Int (att_AcceptanceRevision a) = prev) →
  validateAttachedEvidence_loop acc prefix prev i entries = None ↔
  Forall (λ a, 1 ≤ Count_Int (att_AcceptanceRevision a) ≤ Count_Int acc) entries ∧
  StronglySorted entry_order (prefix ++ entries).
Proof.
  induction entries as [|a entries IH]; intros prefix prev i Hp Hs Hprev; cbn [validateAttachedEvidence_loop].
  { rewrite app_nil_r. by repeat split. }
  set (n := Count_Int (att_AcceptanceRevision a)).
  destruct ((n <? 1) || (Count_Int acc <? n)) eqn:Hr.
  { split; [done|]. intros [Hf _]. apply Forall_inv in Hf. fold n in Hf. lia. }
  replace (prefix ++ a :: entries) with ((prefix ++ [a]) ++ entries) by by rewrite <-app_assoc.
  destruct (Z.ltb_spec n prev) as [Hlt|Hge].
  { split; [done|]. intros [_ Hss]. destruct Hprev as [->|(b & Hb & Hbn)]; [lia|].
    rewrite <-app_assoc in Hss. apply StronglySorted_app in Hss as (Hss & _).
    destruct (Hss b a Hb) as [Hle _]; [by left|]. fold n in Hle. lia. }
  pose proof (evidence_digests_new_None prefix ("/attachedEvidence/" +:+ idx i) (att_AcceptanceRevision a) (att_Evidence a)) as He.
  destruct (evidence_digests_new _ _ _ _).
  { split; [done|]. intros [_ Hss]. exfalso. enough (Some e = None) by done. apply He. intros b Hb Hacc d Hd.
    rewrite <-app_assoc in Hss. apply StronglySorted_app in Hss as (Hss & _).
    destruct (Hss b a Hb) as [_ Hno]; [by left|]. by apply Hno. }
  rewrite IH.
  - rewrite Forall_cons. fold n. assert (1 ≤ n ≤ Count_Int acc) by lia. tauto.
  - intros b [Hb|Hb]%elem_of_app; [pose proof (Hp b Hb); lia|]. apply list_elem_of_singleton in Hb as ->. fold n. lia.
  - apply StronglySorted_app. split_and!; [|done|by repeat constructor].
    intros b c Hb Hc. apply list_elem_of_singleton in Hc as ->. split; [fold n; pose proof (Hp b Hb); lia|].
    intros Hacc. by apply (proj1 He eq_refl b).
  - right. exists a. split; [apply elem_of_app; right; by left|done].
Qed.

(** The attached evidence of a record is valid exactly when every entry
    names an acceptance revision between 1 and the record's, the revisions
    never go back, and no digest is attached twice at one of them. *)
Theorem validateAttachedEvidence_spec rec :
  validateAttachedEvidence rec = None ↔
  Forall (λ a, 1 ≤ Count_Int (att_AcceptanceRevision a) ≤ Count_Int (rec_AcceptanceRevision rec)) (rec_AttachedEvidence rec) ∧
  StronglySorted entry_order (rec_AttachedEvidence rec).
Proof.
  apply (validateAttachedEvidence_loop_None (rec_AcceptanceRevision rec) (rec_AttachedEvidence rec) [] 0 0).
  - by intros a ?%not_elem_of_nil.
  - constructor.
  - by left.
Qed.
