(* ===== verification/Lifecycle.v ===== *)
(** * The delivery lifecycle

    [src/internal/tasks/lifecycle/lifecycle.go]: the state derived from a
    ticket's status, its live attempt, its effective progress and the observed
    Git refs. *)

From S2P Require Import Prelude Utf8 GoStd Codes Value Primitives Ids Parse.
From S2P Require Import Reader Ticket Inventory Marks.
Local Open Scope Z_scope.
Local Open Scope go_scope.

Definition Draft : string := "DRAFT".
Definition Open : string := "OPEN".
Definition InProgress : string := "IN_PROGRESS".
Definition Submitted : string := "SUBMITTED".
Definition InReview : string := "IN_REVIEW".
Definition AwaitingIntegration : string := "AWAITING_INTEGRATION".
Definition AwaitingCloseout : string := "AWAITING_CLOSEOUT".
Definition Held : string := "HELD".
Definition Completed : string := "COMPLETED".
Definition Archived : string := "ARCHIVED".
Definition Unknown : string := "UNKNOWN".

Definition States : list string :=
  [Archived; AwaitingCloseout; AwaitingIntegration; Completed; Draft; Held; InProgress; InReview; Open; Submitted; Unknown].

Definition IsState (s : string) : bool :=
  let i := SearchStrings States s in
  (i <? length States)%nat && (default ε (States !! i) =s s).

Definition ReasonAttemptsNotObserved : string := "ATTEMPTS_NOT_OBSERVED".
Definition ReasonCommitMissing : string := "COMMIT_MISSING".
Definition ReasonRefDeleted : string := "REF_DELETED".
Definition ReasonHeadNotOnRef : string := "HEAD_NOT_ON_REF".
Definition ReasonNotOnIntegrationRef : string := "NOT_ON_INTEGRATION_REF".
Definition ReasonGitNotObserved : string := "GIT_NOT_OBSERVED".
Definition ReasonIntegrationRefMissing : string := "INTEGRATION_REF_MISSING".
Definition ReasonReachabilityNotObserved : string := "REACHABILITY_NOT_OBSERVED".
Definition ReasonReportedBlocked : string := "REPORTED_BLOCKED".

(** ** What a derivation reads *)

Record Attempt := { at_ID : string; at_Phase : string; at_Stage : string; at_CandidateTreeOid : option string }.

Record Git := {
  git_Failed : bool;
  git_IntegrationRef : string;
  git_IntegrationCommit : string;
  git_Ref : string;
  git_RefCommit : string;
  git_HeadExists : option bool;
  git_Integrated : option bool;
  git_HeadOnRef : option bool
}.

Record Input := {
  in_Status : string;
  in_HoldIDs : list string;
  in_AttemptsObserved : bool;
  in_Attempt : option Attempt;
  in_Progress : option Progress;
  in_Git : option Git
}.

Definition NeedsGit (p : option Progress) : bool :=
  match p with
  | None => false
  | Some p =>
      let m := prg_Mark p in
      bool_decide (is_Some (Head m)) &&
      ((Phase m =s PhaseDeliveredOnBranch) || (Phase m =s PhaseMergedAwaitingCloseout))
  end.

Record Lifecycle := mkLifecycle { State : string; Reason_ : string; DerivedFrom : string; lc_in : Input }.

(** ** Deriving *)

(** [fromProgress(in)]: the state, its reason, and whether Git confirmed it. *)
Definition fromProgress (i : Input) : string * string * bool :=
  match in_Progress i with
  | None => (ε, ε, false)
  | Some p =>
      let phase := Phase (prg_Mark p) in
      if phase =s PhaseInProgress then (InProgress, ε, false)
      else if (phase =s PhaseInReview) || (phase =s PhaseInMergeQueue) then (InReview, ε, false)
      else if phase =s PhaseBlocked then (Open, ReasonReportedBlocked, false)
      else if negb (NeedsGit (Some p)) then (ε, ε, false)
      else match in_Git i with
      | None => (Unknown, ReasonGitNotObserved, false)
      | Some g =>
          if git_Failed g then (Unknown, ReasonGitNotObserved, false)
          else match git_HeadExists g with
          | None => (Unknown, ReasonReachabilityNotObserved, false)
          | Some false => (Open, ReasonCommitMissing, false)
          | Some true =>
              if git_IntegrationRef g =s ε then (Unknown, ReasonIntegrationRefMissing, false)
              else match git_Integrated g with
              | None => (Unknown, ReasonReachabilityNotObserved, false)
              | Some true => (AwaitingCloseout, ε, true)
              | Some false =>
                  if phase =s PhaseMergedAwaitingCloseout then (Open, ReasonNotOnIntegrationRef, false)
                  else if git_Ref g =s ε then (Open, ReasonRefDeleted, false)
                  else match git_HeadOnRef g with
                  | None => (Unknown, ReasonReachabilityNotObserved, false)
                  | Some false => (Open, ReasonHeadNotOnRef, false)
                  | Some true => (AwaitingIntegration, ε, true)
                  end
              end
          end
      end
  end.

(** The state of a live attempt. *)
Definition fromAttempt (a : Attempt) : string :=
  if at_Phase a =s "READY_FOR_INTEGRATION" then AwaitingIntegration
  else if (at_Phase a =s "REVIEWING") || (at_Stage a =s "review") then InReview
  else match at_CandidateTreeOid a with Some _ => Submitted | None => InProgress end.

(** [Derive(in)] after the attempt. *)
Definition deriveProgress (i : Input) : Lifecycle :=
  let '(state, reason, verified) := fromProgress i in
  if negb (state =s ε) && (verified || in_AttemptsObserved i) then mkLifecycle state reason "progress" i
  else if negb (in_AttemptsObserved i) then mkLifecycle Unknown ReasonAttemptsNotObserved "none" i
  else mkLifecycle Open ε "none" i.

Definition Derive (i : Input) : Lifecycle :=
  if in_Status i =s StatusCompleted then mkLifecycle Completed ε "status" i
  else if in_Status i =s StatusArchived then mkLifecycle Archived ε "status" i
  else if in_Status i =s StatusDraft then mkLifecycle Draft ε "status" i
  else if in_Status i =s StatusHeld then mkLifecycle Held ε "hold" i
  else match in_Attempt i with
  | Some a => if in_AttemptsObserved i then mkLifecycle (fromAttempt a) ε "attempt" i else deriveProgress i
  | None => deriveProgress i
  end.

(** ** The value *)

Definition nullableString (s : string) : Value := if s =s ε then VNull else VString s.

Definition tri (b : option bool) : Value := match b with None => VNull | Some b => VBool b end.

Definition Attempt_Value (a : Attempt) : Value :=
  let o := Set_ NewObject "attemptId" (VString (at_ID a)) in
  let o := Set_ o "phase" (VString (at_Phase a)) in
  let o := Set_ o "stage" (nullableString (at_Stage a)) in
  VObject (Set_ o "candidateTreeOid" (StringOrNull (at_CandidateTreeOid a))).

Definition Git_Value (g : Git) : Value :=
  let o := Set_ NewObject "integrationRef" (nullableString (git_IntegrationRef g)) in
  let o := Set_ o "integrationCommit" (nullableString (git_IntegrationCommit g)) in
  let o := Set_ o "ref" (nullableString (git_Ref g)) in
  let o := Set_ o "refCommit" (nullableString (git_RefCommit g)) in
  let o := Set_ o "headExists" (tri (git_HeadExists g)) in
  let o := Set_ o "integrated" (tri (git_Integrated g)) in
  VObject (Set_ o "headOnRef" (tri (git_HeadOnRef g))).

(** [l.Value()] *)
Definition Lifecycle_Value (l : Lifecycle) : Value :=
  let i := lc_in l in
  let o := Set_ NewObject "state" (VString (State l)) in
  let o := Set_ o "reason" (nullableString (Reason_ l)) in
  let o := Set_ o "derivedFrom" (VString (DerivedFrom l)) in
  let o := Set_ o "status" (VString (in_Status i)) in
  let o := Set_ o "holdIds" (Strings (SortStrings (in_HoldIDs i))) in
  let o := Set_ o "attempt"
    (if negb (in_AttemptsObserved i) then VString "NOT_OBSERVED"
     else match in_Attempt i with None => VNull | Some a => Attempt_Value a end) in
  let o := Set_ o "progress" (match in_Progress i with Some p => ProgressEntryValue p | None => VNull end) in
  VObject (Set_ o "git" (match in_Git i with Some g => Git_Value g | None => VNull end)).

(** ** The delivery lifecycle: what a derivation promises

    [IsState] by binary search decides membership; a derived state is one of
    the listed states with a reason exactly when one is due; the states Git
    confirms need their evidence; and more Git evidence never changes a state
    that was decided. *)

From S2P Require Import Result.

(** [IsState], a binary search, accepts exactly the listed states, which
    are the facet keys of the result envelope's lifecycle map. *)
Theorem IsState_spec s : (IsState s = true ↔ s ∈ States) ∧ States = FacetLifecycles.
Proof.
  split; [|done]. assert (StronglySorted (λ a b, String.leb a b = true) States) as Hs.
  { change States with (SortStrings States). apply SortStrings_StronglySorted. }
  unfold IsState. rewrite (SearchStrings_elem _ s Hs), andb_true_iff, Nat.ltb_lt, String.eqb_eq. split.
  - intros [Hlt He]. destruct (lookup_lt_is_Some_2 _ _ Hlt) as [a Ha]. rewrite Ha in He |- *. by f_equal.
  - intros H. split; [by eapply lookup_lt_Some|by rewrite H].
Qed.

(** ** Derivations *)

(** The statuses that decide a state by themselves. *)
Definition status_decides (s : string) : Prop :=
  s = StatusCompleted ∨ s = StatusArchived ∨ s = StatusDraft ∨ s = StatusHeld.

(** The attempt a derivation uses. *)
Definition observed_attempt (i : Input) : option Attempt :=
  if in_AttemptsObserved i then in_Attempt i else None.

(** A derivation decided by neither status nor attempt is one from progress. *)
Lemma Derive_progress i :
  ¬ status_decides (in_Status i) → observed_attempt i = None → Derive i = deriveProgress i.
Proof.
  unfold status_decides, observed_attempt, Derive. intros Hs Ha.
  repeat match goal with |- context [in_Status i =s ?x] =>
    destruct (String.eqb_spec (in_Status i) x) as [He|_]; [by destruct Hs; tauto|] end.
  destruct (in_Attempt i), (in_AttemptsObserved i); done.
Qed.

Lemma Derive_attempt i a :
  ¬ status_decides (in_Status i) → observed_attempt i = Some a → Derive i = mkLifecycle (fromAttempt a) ε "attempt" i.
Proof.
  unfold status_decides, observed_attempt, Derive. intros Hs Ha.
  repeat match goal with |- context [in_Status i =s ?x] =>
    destruct (String.eqb_spec (in_Status i) x) as [He|_]; [by destruct Hs; tauto|] end.
  destruct (in_AttemptsObserved i); [by rewrite Ha|done].
Qed.

Lemma Derive_status i : status_decides (in_Status i) →
  ∃ s from, s ∈ [Completed; Archived; Draft; Held] ∧ from ∈ ["status"; "hold"] ∧ Derive i = mkLifecycle s ε from i.
Proof.
  unfold Derive. intros [->|[->|[->| ->]]]; simpl; (do 2 eexists; (split_and!; [..|reflexivity]); set_solver).
Qed.

#[global] Instance status_decides_dec s : Decision (status_decides s).
Proof. unfold status_decides. apply _. Defined.

(** The Git evidence that confirms a delivered head on the integration ref. *)
Definition confirmed_integrated (g : Git) : Prop :=
  git_Failed g = false ∧ git_HeadExists g = Some true ∧ git_IntegrationRef g ≠ ε ∧ git_Integrated g = Some true.

(** The Git evidence that confirms it on its own ref only. *)
Definition confirmed_on_ref (g : Git) : Prop :=
  git_Failed g = false ∧ git_HeadExists g = Some true ∧ git_IntegrationRef g ≠ ε ∧ git_Integrated g = Some false ∧
  git_Ref g ≠ ε ∧ git_HeadOnRef g = Some true.

(** What [fromProgress] can say: nothing; a reported state; a state for lack of
    evidence; a refuted delivery; or a confirmed one. *)
Inductive from_progress (i : Input) : string → string → bool → Prop :=
  | fp_nothing : from_progress i ε ε false
  | fp_reported s : s ∈ [InProgress; InReview] → from_progress i s ε false
  | fp_open r : r ∈ [ReasonReportedBlocked; ReasonCommitMissing; ReasonNotOnIntegrationRef; ReasonRefDeleted; ReasonHeadNotOnRef] →
      from_progress i Open r false
  | fp_unknown r : r ∈ [ReasonGitNotObserved; ReasonIntegrationRefMissing; ReasonReachabilityNotObserved] →
      NeedsGit (in_Progress i) = true → from_progress i Unknown r false
  | fp_integrated g : NeedsGit (in_Progress i) = true → in_Git i = Some g → confirmed_integrated g →
      from_progress i AwaitingCloseout ε true
  | fp_on_ref p g : NeedsGit (in_Progress i) = true → in_Progress i = Some p →
      Phase (prg_Mark p) ≠ PhaseMergedAwaitingCloseout → in_Git i = Some g →
      confirmed_on_ref g → from_progress i AwaitingIntegration ε true.

(** A progress entry in need of Git, and its Git evidence, decide alone. *)
Lemma NeedsGit_phases p : NeedsGit (Some p) = true →
  (Phase (prg_Mark p) =s PhaseInProgress) = false ∧
  (Phase (prg_Mark p) =s PhaseInReview) = false ∧ (Phase (prg_Mark p) =s PhaseInMergeQueue) = false ∧
  (Phase (prg_Mark p) =s PhaseBlocked) = false.
Proof.
  unfold NeedsGit. rewrite andb_true_iff, orb_true_iff, !String.eqb_eq. by intros [_ [-> | ->]].
Qed.

Lemma fromProgress_spec i : let '(s, r, v) := fromProgress i in from_progress i s r v.
Proof.
  unfold fromProgress. destruct (in_Progress i) as [p|] eqn:Ep; [|constructor].
  destruct (_ =s PhaseInProgress); [constructor; set_solver|].
  destruct (_ =s PhaseInReview); cbn [orb]; [constructor; set_solver|].
  destruct (_ =s PhaseInMergeQueue); [constructor; set_solver|].
  destruct (_ =s PhaseBlocked); [constructor; set_solver|].
  destruct (NeedsGit (Some p)) eqn:En; cbn [negb]; [|constructor]. rewrite <-Ep in En.
  destruct (in_Git i) as [g|] eqn:Eg; [|constructor; [set_solver|done]].
  destruct (git_Failed g) eqn:E1; [constructor; [set_solver|done]|].
  destruct (git_HeadExists g) as [[]|] eqn:E2; [|constructor; set_solver|constructor; [set_solver|done]].
  destruct (String.eqb_spec (git_IntegrationRef g) ε); [constructor; [set_solver|done]|].
  destruct (git_Integrated g) as [[]|] eqn:E3; [by eapply fp_integrated| |constructor; [set_solver|done]].
  destruct (String.eqb_spec (Phase (prg_Mark p)) PhaseMergedAwaitingCloseout); [constructor; set_solver|].
  destruct (String.eqb_spec (git_Ref g) ε); [constructor; set_solver|].
  destruct (git_HeadOnRef g) as [[]|] eqn:E4; [|constructor; set_solver|constructor; [set_solver|done]].
  eapply fp_on_ref; [done..|]. by split_and!.
Qed.

(** A derivation decided by neither: what progress says stands when attempts
    were observed or Git confirmed it. *)
Inductive from_neither (i : Input) : Lifecycle → Prop :=
  | fn_progress s r v : from_progress i s r v → s ≠ ε → v = true ∨ in_AttemptsObserved i = true →
      from_neither i (mkLifecycle s r "progress" i)
  | fn_unknown : in_AttemptsObserved i = false → from_neither i (mkLifecycle Unknown ReasonAttemptsNotObserved "none" i)
  | fn_open : in_AttemptsObserved i = true → from_progress i ε ε false → from_neither i (mkLifecycle Open ε "none" i).

Lemma from_progress_ε i r v : from_progress i ε r v → r = ε ∧ v = false.
Proof.
  remember ε as s eqn:Hs. inversion 1 as [|s' Hin| | | |]; subst; try discriminate; [done|].
  apply list_elem_of_In in Hin. destruct Hin as [|[|[]]]; discriminate.
Qed.

Lemma deriveProgress_spec i : from_neither i (deriveProgress i).
Proof.
  unfold deriveProgress. pose proof (fromProgress_spec i) as H. destruct (fromProgress i) as [[s r] v].
  destruct (String.eqb_spec s ε) as [->|Hs]; cbn [negb andb].
  - destruct (from_progress_ε _ _ _ H) as [-> ->]. destruct (in_AttemptsObserved i) eqn:Ea; by constructor.
  - destruct (v || in_AttemptsObserved i) eqn:Ev; [|destruct (in_AttemptsObserved i) eqn:Ea; [|by constructor]].
    + apply orb_true_iff in Ev. by econstructor.
    + by rewrite orb_true_r in Ev.
Qed.

(** Every derivation: by the status, by the observed attempt, or by neither. *)
Lemma Derive_cases i :
  (status_decides (in_Status i) ∧
     ∃ s from, s ∈ [Completed; Archived; Draft; Held] ∧ from ∈ ["status"; "hold"] ∧ Derive i = mkLifecycle s ε from i) ∨
  (¬ status_decides (in_Status i) ∧
     ((∃ a, observed_attempt i = Some a ∧ Derive i = mkLifecycle (fromAttempt a) ε "attempt" i) ∨
      (observed_attempt i = None ∧ from_neither i (Derive i)))).
Proof.
  destruct (decide (status_decides (in_Status i))) as [Hs|Hs]; [left; split; [done|by apply Derive_status]|right].
  split; [done|]. destruct (observed_attempt i) as [a|] eqn:Ha; [left; exists a|right]; (split; [done|]).
  - by apply Derive_attempt.
  - rewrite Derive_progress by done. apply deriveProgress_spec.
Qed.

Lemma fromAttempt_cases a : fromAttempt a ∈ [AwaitingIntegration; InReview; Submitted; InProgress].
Proof. unfold fromAttempt. repeat case_match; set_solver. Qed.

(** Membership in a short literal list, by cases. *)
Ltac cases_in := repeat match goal with
  | H : _ ∈ [] |- _ => by apply not_elem_of_nil in H
  | H : _ ∈ _ :: _ |- _ => apply elem_of_cons in H as [H|H]
  end.

(** C29: [Derive] gives one of the listed states and keeps its evidence; the
    state has a reason exactly when it is UNKNOWN or is an OPEN that progress
    was reported against; and it comes from status, hold, attempt, progress or
    nothing as its source says. *)
Theorem Derive_state i :
  let l := Derive i in
  State l ∈ States ∧ lc_in l = i ∧
  (Reason_ l ≠ ε ↔ State l = Unknown ∨ State l = Open ∧ DerivedFrom l = "progress") ∧
  (DerivedFrom l ∈ ["status"; "hold"] ↔ status_decides (in_Status i)) ∧
  (DerivedFrom l = "attempt" ↔ ¬ status_decides (in_Status i) ∧ is_Some (observed_attempt i)) ∧
  (DerivedFrom l = "none" → State l = if in_AttemptsObserved i then Open else Unknown).
Proof.
  cbv zeta. destruct (Derive_cases i) as [(Hs & s & from & Hin & Hfrom & ->)|[Hs [(a & Ha & ->)|[Ha H]]]]; cbn.
  - assert (s ∈ States ∧ s ≠ Unknown ∧ s ≠ Open) as (H1 & H2 & H3) by (cases_in; subst; (split_and!; [set_solver|discriminate..])).
    split_and!; [done..|split; [done|tauto]|done|split; [|by intros []]|]; intros ->; cases_in; discriminate.
  - pose proof (fromAttempt_cases a) as Hf. rewrite Ha.
    split_and!; [|done|split; [done|]|split; [intros H; cases_in; done|done]|split; [by eauto|done]|done].
    + cases_in; rewrite Hf; set_solver.
    + intros [H|[_ H]]; [|done]. rewrite H in Hf. cases_in; discriminate.
  - rewrite Ha. destruct H as [s r v Hp Hne Hv|Ho|Ho _]; cbn.
    + assert (s ∈ States ∧ (r ≠ ε ↔ s = Unknown ∨ s = Open ∧ "progress" = "progress")) as [H1 H2].
      { destruct Hp; [done|..]; cases_in; subst; (split; [set_solver|]); (split; [intros Hr; first [done|tauto]|intros [|[]]; discriminate]). }
      split_and!; [done..|split; [intros H; cases_in; done|done]|split; [done|by intros [_ []]]|done].
    + rewrite Ho. split_and!; [set_solver|done|by split; [left|]|split; [intros H; cases_in; done|done]|
        split; [done|by intros [_ []]]|done].
    + rewrite Ho. split_and!; [set_solver|done|split; [done|by intros [|[]]]|split; [intros H; cases_in; done|done]|
        split; [done|by intros [_ []]]|done].
Qed.

(** A confirmed delivery is what [fromProgress] says with it. *)
Lemma fromProgress_integrated i g :
  NeedsGit (in_Progress i) = true → in_Git i = Some g → confirmed_integrated g →
  fromProgress i = (AwaitingCloseout, ε, true).
Proof.
  unfold fromProgress. destruct (in_Progress i) as [p|]; [|done]. intros Hn -> (H1 & H2 & H3 & H4).
  destruct (NeedsGit_phases p Hn) as (-> & -> & -> & ->). rewrite Hn, H1, H2, H4.
  apply String.eqb_neq in H3. by rewrite H3.
Qed.

Lemma fromProgress_on_ref i p g :
  NeedsGit (in_Progress i) = true → in_Progress i = Some p → Phase (prg_Mark p) ≠ PhaseMergedAwaitingCloseout →
  in_Git i = Some g → confirmed_on_ref g → fromProgress i = (AwaitingIntegration, ε, true).
Proof.
  unfold fromProgress. intros Hn Hp. rewrite Hp in *. intros Hm -> (H1 & H2 & H3 & H4 & H5 & H6).
  destruct (NeedsGit_phases p Hn) as (-> & -> & -> & ->). rewrite Hn, H1, H2, H4, H6.
  apply String.eqb_neq in H3, H5, Hm. by rewrite H3, H5, Hm.
Qed.

(** The inputs a derivation from progress decides. *)
Definition undecided (i : Input) : Prop := ¬ status_decides (in_Status i) ∧ observed_attempt i = None.

Lemma Derive_undecided i s r v : undecided i → fromProgress i = (s, r, v) → s ≠ ε →
  v = true ∨ in_AttemptsObserved i = true → Derive i = mkLifecycle s r "progress" i.
Proof.
  intros [Hs Ha] Hp Hne Hv. rewrite Derive_progress by done. unfold deriveProgress. rewrite Hp.
  apply String.eqb_neq in Hne. rewrite Hne. destruct Hv as [-> | ->]; [|rewrite orb_true_r]; done.
Qed.

(** A ticket awaits its closeout exactly when neither its status nor an
    observed attempt decides and Git confirms the reported head on the
    integration ref; it awaits integration exactly when an observed attempt is
    ready for it or Git confirms the head on the delivery's ref and not on the
    integration ref; and without observed attempts a ticket whose status does
    not decide is in one of these two states or UNKNOWN. *)
Theorem Derive_confirmed i :
  (State (Derive i) = AwaitingCloseout ↔
     undecided i ∧ NeedsGit (in_Progress i) = true ∧ ∃ g, in_Git i = Some g ∧ confirmed_integrated g) ∧
  (State (Derive i) = AwaitingIntegration ↔
     ¬ status_decides (in_Status i) ∧
     ((∃ a, observed_attempt i = Some a ∧ at_Phase a = "READY_FOR_INTEGRATION") ∨
      observed_attempt i = None ∧ NeedsGit (in_Progress i) = true ∧
      ∃ p g, in_Progress i = Some p ∧ Phase (prg_Mark p) ≠ PhaseMergedAwaitingCloseout ∧
             in_Git i = Some g ∧ confirmed_on_ref g)) ∧
  (in_AttemptsObserved i = false → ¬ status_decides (in_Status i) →
     State (Derive i) ∈ [AwaitingCloseout; AwaitingIntegration; Unknown]).
Proof.
  split_and!.
  - split; [|intros (Hu & Hn & g & Hg & Hc); rewrite (Derive_undecided i AwaitingCloseout ε true);
      [done|done|by eapply fromProgress_integrated|discriminate|by left]].
    destruct (Derive_cases i) as [(Hs & s & from & Hin & Hfrom & ->)|[Hs [(a & Ha & ->)|[Ha H]]]]; cbn.
    + intros ->. cases_in; discriminate.
    + intros He. pose proof (fromAttempt_cases a) as Hf. rewrite He in Hf. cases_in; discriminate.
    + destruct H as [s r v Hp|Ho|Ho _]; cbn; intros He; [|discriminate..].
      rewrite He in Hp. inversion Hp; subst; cases_in; try discriminate.
      split; [done|]. eauto.
  - split.
    + destruct (Derive_cases i) as [(Hs & s & from & Hin & Hfrom & ->)|[Hs [(a & Ha & ->)|[Ha H]]]]; cbn.
      * intros ->. cases_in; discriminate.
      * intros He. split; [done|]. left. exists a. split; [done|]. unfold fromAttempt in He.
        destruct (String.eqb_spec (at_Phase a) "READY_FOR_INTEGRATION"); [done|].
        repeat case_match; discriminate.
      * destruct H as [s r v Hp|Ho|Ho _]; cbn; intros He; [|discriminate..].
      rewrite He in Hp. inversion Hp; subst; cases_in; try discriminate.
        split; [done|]. right. split; [done|]. split; [done|]. eauto 8.
    + intros [Hs [(a & Ha & Hr)|(Ha & Hn & p & g & Hp & Hm & Hg & Hc)]].
      * rewrite (Derive_attempt i a) by done. cbn. unfold fromAttempt. by rewrite Hr.
      * rewrite (Derive_undecided i AwaitingIntegration ε true); [done|by split| |discriminate|by left].
        by eapply fromProgress_on_ref.
  - intros Ho Hs. destruct (Derive_cases i) as [[? _]|[_ [(a & Ha & _)|[Ha H]]]]; [done| |].
    + unfold observed_attempt in Ha. by rewrite Ho in Ha.
    + destruct H as [s r v Hp _ [->|]| |]; cbn; [|congruence|set_solver|congruence].
      inversion Hp; subst; set_solver.
Qed.

(** ** More Git evidence *)

(** A tri-state observed at least as far. *)
Definition tri_le (a b : option bool) : Prop := a = None ∨ a = b.

(** A Git observation that saw at least as much of the same repository: of a
    failed one nothing is known, and an integration ref may yet be found. *)
Definition git_le (a b : Git) : Prop :=
  git_Failed a = true ∨
  git_Failed b = false ∧ tri_le (git_HeadExists a) (git_HeadExists b) ∧
  (git_IntegrationRef a = ε ∨ git_IntegrationRef a = git_IntegrationRef b) ∧
  tri_le (git_Integrated a) (git_Integrated b) ∧ git_Ref a = git_Ref b ∧ tri_le (git_HeadOnRef a) (git_HeadOnRef b).

Definition evidence_le (a b : option Git) : Prop :=
  match a, b with None, _ => True | Some a, Some b => git_le a b | Some a, None => git_Failed a = true end.

Definition with_git (i : Input) (g : option Git) : Input :=
  {| in_Status := in_Status i; in_HoldIDs := in_HoldIDs i; in_AttemptsObserved := in_AttemptsObserved i;
     in_Attempt := in_Attempt i; in_Progress := in_Progress i; in_Git := g |}.

Lemma fromProgress_monotone i g : evidence_le (in_Git i) g →
  (fromProgress i).1.1 ≠ Unknown → fromProgress (with_git i g) = fromProgress i.
Proof.
  unfold fromProgress. cbn [in_Progress in_Git with_git]. destruct (in_Progress i) as [p|]; [|done].
  do 2 (destruct (_ =s _); [done|]; cbn [orb]). destruct (_ =s PhaseInMergeQueue); [done|].
  destruct (_ =s PhaseBlocked); [done|]. destruct (NeedsGit (Some p)); [|done]. cbn [negb].
  destruct (in_Git i) as [a|]; [|done]. unfold evidence_le.
  destruct (git_Failed a) eqn:Ef; [done|]. destruct g as [b|]; [|congruence].
  intros [|(Hb & H1 & H2 & H3 & H4 & H5)]; [congruence|]. rewrite Hb, <-H4.
  destruct H1 as [-> | <-]; [done|]. destruct (git_HeadExists a) as [[]|]; [|done..].
  destruct (String.eqb_spec (git_IntegrationRef a) ε); [done|]. destruct H2 as [|<-]; [done|].
  apply String.eqb_neq in n. rewrite n. destruct H3 as [-> | <-]; [done|].
  destruct (git_Integrated a) as [[]|]; [done| |done]. destruct (_ =s PhaseMergedAwaitingCloseout); [done|].
  destruct (git_Ref a =s ε); [done|]. by destruct H5 as [-> | <-].
Qed.

Lemma Derive_with_git i g : ¬ undecided i →
  Derive (with_git i g) = mkLifecycle (State (Derive i)) (Reason_ (Derive i)) (DerivedFrom (Derive i)) (with_git i g).
Proof.
  intros Hu. destruct (decide (status_decides (in_Status i))) as [Hs|Hs].
  { unfold Derive. cbn [in_Status with_git]. by destruct Hs as [H|[H|[H|H]]]; rewrite H. }
  destruct (observed_attempt i) as [a|] eqn:Ha; [|by destruct Hu].
  by rewrite !(Derive_attempt _ a).
Qed.

(** Neither a status nor an attempt leaves UNKNOWN. *)
Lemma Unknown_undecided i : State (Derive i) = Unknown → undecided i.
Proof.
  destruct (Derive_cases i) as [(Hs & s & from & Hin & Hfrom & ->)|[Hs [(a & Ha & ->)|[Ha H]]]]; cbn; [| |by intros _].
  - intros ->. cases_in; discriminate.
  - intros He. pose proof (fromAttempt_cases a) as Hf. rewrite He in Hf. cases_in; discriminate.
Qed.

(** An observation in which every question has an answer. *)
Definition observed (g : Git) : Prop :=
  git_Failed g = false ∧ is_Some (git_HeadExists g) ∧ git_IntegrationRef g ≠ ε ∧ is_Some (git_Integrated g) ∧
  is_Some (git_HeadOnRef g).

(** The observation with the open questions answered. *)
Definition answered (g : option Git) : Git :=
  match g with
  | Some g =>
      if git_Failed g then Build_Git false "r" ε ε ε (Some true) (Some true) (Some true)
      else Build_Git false (if git_IntegrationRef g =s ε then "r" else git_IntegrationRef g) (git_IntegrationCommit g)
             (git_Ref g) (git_RefCommit g) (Some (default true (git_HeadExists g)))
             (Some (default true (git_Integrated g))) (Some (default true (git_HeadOnRef g)))
  | None => Build_Git false "r" ε ε ε (Some true) (Some true) (Some true)
  end.

Lemma answered_le g : evidence_le g (Some (answered g)) ∧ observed (answered g).
Proof.
  unfold evidence_le, git_le, answered, observed, tri_le.
  destruct g as [g|]; [destruct (git_Failed g) eqn:Ef|]; cbn; [split; [by left|]|split; [right|]|split; [done|]].
  - split_and!; (eauto || discriminate).
  - split_and!; [done|by destruct (git_HeadExists g); [right|left]|by destruct (String.eqb_spec (git_IntegrationRef g) ε); [left|right]|
      by destruct (git_Integrated g); [right|left]|done|by destruct (git_HeadOnRef g); [right|left]].
  - split_and!; [done|eauto|by destruct (String.eqb_spec (git_IntegrationRef g) ε)|eauto..].
  - split_and!; (eauto || discriminate).
Qed.

Lemma fromProgress_observed i g : in_Git i = Some g → observed g → (fromProgress i).1.1 ≠ Unknown.
Proof.
  intros Hg (H1 & [b1 H2] & H3 & [b2 H4] & [b3 H5]). apply String.eqb_neq in H3.
  unfold fromProgress. rewrite Hg, H1, H2, H3, H4, H5. repeat case_match; discriminate.
Qed.

(** A state decided on some Git evidence is the state on any further
    evidence, with the same reason and source; and when attempts were observed,
    UNKNOWN is always for want of Git evidence: some further observation of the
    same repository decides. *)
Theorem Derive_git_monotone i :
  (∀ g, evidence_le (in_Git i) g → State (Derive i) ≠ Unknown →
     Derive (with_git i g) = mkLifecycle (State (Derive i)) (Reason_ (Derive i)) (DerivedFrom (Derive i)) (with_git i g)) ∧
  (in_AttemptsObserved i = true → State (Derive i) = Unknown →
     ∃ g, evidence_le (in_Git i) (Some g) ∧ State (Derive (with_git i (Some g))) ≠ Unknown).
Proof.
  split.
  - intros g Hg. destruct (decide (status_decides (in_Status i))) as [Hs|Hs];
      [intros _; apply Derive_with_git; unfold undecided; tauto|].
    destruct (observed_attempt i) as [a|] eqn:Ha;
      [intros _; apply Derive_with_git; unfold undecided; rewrite Ha; by intros []|].
    rewrite !Derive_progress by done. unfold deriveProgress. change (in_AttemptsObserved (with_git i g)) with (in_AttemptsObserved i).
    pose proof (fromProgress_monotone i g Hg) as Hm. pose proof (fromProgress_spec i) as Hp.
    destruct (fromProgress i) as [[s r] v] eqn:Ef. cbn in Hm.
    destruct (decide (s = Unknown)) as [->|Hne]; [|rewrite (Hm Hne); by repeat case_match].
    destruct (v || in_AttemptsObserved i) eqn:Ev; [done|]. apply orb_false_iff in Ev as [_ ->]. done.
  - intros Ho Hu. exists (answered (in_Git i)). destruct (answered_le (in_Git i)) as [Hle Hob]. split; [done|].
    destruct (Unknown_undecided i Hu) as [Hs Ha]. rewrite Derive_progress by done. unfold deriveProgress.
    pose proof (fromProgress_observed (with_git i (Some (answered (in_Git i)))) _ eq_refl Hob) as Hf.
    destruct (fromProgress _) as [[s r] v]. cbn [in_AttemptsObserved with_git]. rewrite Ho, orb_true_r.
    destruct (s =s ε); [discriminate|done].
Qed.
