(* ===== verification/KnowHow.v ===== *)
(** * The know-how ledger of a ticket

    [know_how.go] of [src/internal/tasks/ticket]: the append-only ledger of
    notes, its decoder and encoder, its validation, and the notes it leaves
    active with their effective pins. *)

From S2P Require Import Prelude Utf8 GoStd Codes Limits Value Primitives Ids Parse.
From S2P Require Import Reader Ticket Inventory Marks.
Local Open Scope Z_scope.
Local Open Scope go_scope.

Definition KnowHowAdd : string := "ADD".
Definition KnowHowRetract : string := "RETRACT".
Definition KnowHowReconfirm : string := "RECONFIRM".

Definition knowHowAddKeys : list string :=
  ["actor"; "anchors"; "attempt"; "commit"; "evidencePath"; "generation"; "operation"; "reason"; "recordedAt"; "routes";
   "seq"; "supersedes"; "text"].
Definition knowHowRetractKeys : list string := ["actor"; "note"; "operation"; "reason"; "recordedAt"; "seq"].
Definition knowHowReconfirmKeys : list string :=
  ["actor"; "anchors"; "attempt"; "commit"; "generation"; "note"; "operation"; "recordedAt"; "seq"].

Definition KnowHowAnchorLess (a b : KnowHowAnchor) : bool :=
  if negb (kha_Path a =s kha_Path b) then kha_Path a <s kha_Path b else kha_Symbol a <s kha_Symbol b.

(** ** Reading *)

(** A string that [parse] accepts; its failure is reported with [code], the
    failure's own code where the source writes [wire.CodeOf(err)], and the
    message [format] over [args] of the string. *)
Definition checked (parse : string → string → res string) (code : option string) (format : string)
    (args : string → list fmtarg) (r : Reader) : M string :=
  s ← String_ r;
  e ← failed;
  if (e : bool) then mret ε
  else match parse (rwhere r) s with
  | Err err => _ ← Fail r (default (CodeOf (Some (EWire err))) code) format (args s); mret ε
  | _ => mret s
  end.

Definition ReadKnowHowText : Reader → M string :=
  nonblank_prose KnowHowMaxTextBytes "text must contain non-whitespace prose".

Definition ReadKnowHowReason : Reader → M string :=
  nonblank_prose KnowHowMaxReasonBytes "reason must contain non-whitespace prose".

Definition ReadKnowHowFile (r : Reader) : M string :=
  s ← Path r;
  e ← failed;
  if negb (e : bool) && strings.HasSuffix s "/" then
    _ ← Fail r CodeMalformed "path %q names a directory prefix, not a file" [AStr s]; mret ε
  else mret s.

Definition ReadKnowHowSymbol : Reader → M string :=
  checked ParseKnowHowSymbol None "symbol %q must be 1..%d printable ASCII bytes without space or '#'"
    (λ s, [AStr s; AInt KnowHowMaxSymbolBytes]).

Definition ReadKnowHowRepository : Reader → M string :=
  checked ParseKnowHowRepository (Some CodeMalformed) "%s: repository %q is not a token of at most %d bytes"
    (λ s, [AStr KnowHowRepositoryDetail; AStr s; AInt KnowHowMaxRepositoryBytes]).

Definition readRoute : Reader → M string :=
  checked (λ w s, ParseToken w s KnowHowMaxRouteBytes) None "route %q is not a token of at most %d bytes"
    (λ s, [AStr s; AInt KnowHowMaxRouteBytes]).

Definition ReadKnowHowRoutes (r : Reader) : M (list string) := Reader_Strings r KnowHowMaxRoutes false readRoute.

(** One item of [ReadKnowHowAnchors]. *)
Definition read_anchor (it : Reader) : M KnowHowAnchor :=
  let symbol := Has (rv it) "symbol" || Has (rv it) "symbolSha256" in
  _ ← Closed it (if symbol then ["blob"; "path"; "symbol"; "symbolSha256"] else ["blob"; "path"]);
  f ← Field it "path"; path ← ReadKnowHowFile f;
  f ← Field it "blob"; blob ← OID f;
  if symbol then
    f ← Field it "symbol"; sym ← ReadKnowHowSymbol f;
    f ← Field it "symbolSha256"; sha ← Digest f;
    mret {| kha_Path := path; kha_Blob := blob; kha_Symbol := sym; kha_SymbolSha256 := sha |}
  else mret {| kha_Path := path; kha_Blob := blob; kha_Symbol := ε; kha_SymbolSha256 := ε |}.

(** The loop, after the anchors [out]. *)
Fixpoint anchors_loop (r : Reader) (items : list Reader) (out : list KnowHowAnchor) : M (list KnowHowAnchor) :=
  match items with
  | [] => mret out
  | it :: items' =>
      a ← read_anchor it;
      e ← failed;
      if (e : bool) then mret []
      else match last out with
      | Some p =>
          if negb (KnowHowAnchorLess p a) then
            _ ← Fail r CodeMalformed "anchors are sorted by path and symbol without duplicates" []; mret []
          else if (kha_Path p =s kha_Path a) && negb (kha_Blob p =s kha_Blob a) then
            _ ← Fail r CodeMalformed "anchors of path %q pin different blobs" [AStr (kha_Path a)]; mret []
          else anchors_loop r items' (out ++ [a])
      | None => anchors_loop r items' (out ++ [a])
      end
  end.

Definition ReadKnowHowAnchors (r : Reader) : M (list KnowHowAnchor) :=
  items ← Array_ r KnowHowMaxAnchors true;
  e ← failed;
  if negb (e : bool) && (length items =? 0)%nat then
    _ ← Fail r CodeMalformed "a note names at least one path anchor" []; mret []
  else anchors_loop r items [].

(** [KnowHowRepositoryRefusal(repository, anchors)] *)
Definition ticket_KnowHowRepositoryRefusal (repository : string) (anchors : list KnowHowAnchor) : string :=
  KnowHowRepositoryRefusal repository (kha_Path <$> anchors).

(** The members of an ADD. *)
Definition read_add (e : Reader) : M KnowHowEntry :=
  repository ← (if Has (rv e) "repository" then
      _ ← Closed e ("repository" :: knowHowAddKeys);
      f ← Field e "repository"; ReadKnowHowRepository f
    else _ ← Closed e knowHowAddKeys; mret ε);
  f ← Field e "text"; text ← ReadKnowHowText f;
  f ← Field e "anchors"; anchors ← ReadKnowHowAnchors f;
  f ← Field e "routes"; routes ← ReadKnowHowRoutes f;
  f ← Field e "commit"; commit ← OID f;
  f ← Field e "supersedes"; supersedes ← CountOrNull f;
  f ← Field e "attempt"; attempt ← Reader_StringOrNull Identifier f;
  f ← Field e "generation"; generation ← SizeOrNull f;
  f ← Field e "evidencePath"; evidencePath ← Reader_StringOrNull ReadKnowHowFile f;
  failure ← failed;
  _ ← (if negb (failure : bool) && negb (repository =s ε) then
         let why := ticket_KnowHowRepositoryRefusal repository anchors in
         if negb (why =s ε) then f ← Field e "anchors"; Fail f CodeMalformed "%s" [AStr why] else mret tt
       else mret tt);
  f ← Field e "reason";
  reason ← (if IsNull f then mret None else f ← Field e "reason"; s ← ReadKnowHowReason f; mret (Some s));
  mret (mkKnowHowEntry ε KnowHowAdd text anchors routes commit supersedes attempt generation evidencePath ε reason
          repository ε ε ε None).

Definition read_retract (e : Reader) : M KnowHowEntry :=
  _ ← Closed e knowHowRetractKeys;
  f ← Field e "note"; note ← Count f;
  f ← Field e "reason"; reason ← ReadKnowHowReason f;
  mret (mkKnowHowEntry ε KnowHowRetract ε [] [] ε None None None None note (Some reason) ε ε ε ε None).

Definition read_reconfirm (e : Reader) : M KnowHowEntry :=
  _ ← Closed e knowHowReconfirmKeys;
  f ← Field e "note"; note ← Count f;
  f ← Field e "anchors"; anchors ← ReadKnowHowAnchors f;
  f ← Field e "commit"; commit ← OID f;
  f ← Field e "attempt"; attempt ← Reader_StringOrNull Identifier f;
  f ← Field e "generation"; generation ← SizeOrNull f;
  mret (mkKnowHowEntry ε KnowHowReconfirm ε anchors [] commit None attempt generation None note None ε ε ε ε None).

Definition knowHowRoles : list string := ["OWNER"; "OPERATOR"; "WORKER"].

(** The members every entry has. *)
Definition read_common (e : Reader) (k : KnowHowEntry) : M KnowHowEntry :=
  f ← Field e "seq"; seq ← Count f;
  a ← Field e "actor";
  _ ← Closed a ["id"; "role"];
  f ← Field a "id"; id ← Label f;
  f ← Field a "role"; role ← Enum f knowHowRoles;
  f ← Field e "recordedAt"; at_ ← Timestamp f;
  mret (mkKnowHowEntry seq (kh_Operation k) (kh_Text k) (kh_Anchors k) (kh_Routes k) (kh_Commit k) (kh_Supersedes k)
          (kh_Attempt k) (kh_Generation k) (kh_EvidencePath k) (kh_Note k) (kh_Reason k) (kh_Repository k) id role at_
          (kh_Reconfirmed k)).

Fixpoint know_how_loop (items : list Reader) (out : list KnowHowEntry) : M (list KnowHowEntry) :=
  match items with
  | [] => mret out
  | e :: items' =>
      f ← Field e "operation";
      operation ← Enum f [KnowHowAdd; KnowHowRetract; KnowHowReconfirm];
      failure ← failed;
      if (failure : bool) then mret []
      else
        k ← (if operation =s KnowHowAdd then read_add e
             else if operation =s KnowHowRetract then read_retract e
             else read_reconfirm e);
        k ← read_common e k;
        know_how_loop items' (out ++ [k])
  end.

Definition ReadKnowHow (r : Reader) : M (list KnowHowEntry) :=
  entries ← Array_ r KnowHowMaxEntries true;
  e ← failed;
  if negb (e : bool) && (length entries =? 0)%nat then
    _ ← Fail r CodeMalformed "knowHow is omitted when empty" []; mret []
  else know_how_loop entries [].

(** ** Writing *)

Definition anchor_value (a : KnowHowAnchor) : Value :=
  let o := Set_ (Set_ NewObject "blob" (VString (kha_Blob a))) "path" (VString (kha_Path a)) in
  VObject
    (if negb (kha_Symbol a =s ε)
     then Set_ (Set_ o "symbol" (VString (kha_Symbol a))) "symbolSha256" (VString (kha_SymbolSha256 a))
     else o).

Definition KnowHowAnchorsValue (anchors : list KnowHowAnchor) : Value := VArray (anchor_value <$> anchors).

Definition know_how_entry_value (k : KnowHowEntry) : Value :=
  let o := Set_ NewObject "seq" (VString (kh_Seq k)) in
  let o := Set_ o "operation" (VString (kh_Operation k)) in
  let o :=
    if kh_Operation k =s KnowHowAdd then
      let o := Set_ o "text" (VString (kh_Text k)) in
      let o := Set_ o "anchors" (KnowHowAnchorsValue (kh_Anchors k)) in
      let o := Set_ o "routes" (Strings (kh_Routes k)) in
      let o := Set_ o "commit" (VString (kh_Commit k)) in
      let o := Set_ o "supersedes" (StringOrNull (kh_Supersedes k)) in
      let o := Set_ o "attempt" (StringOrNull (kh_Attempt k)) in
      let o := Set_ o "generation" (StringOrNull (kh_Generation k)) in
      let o := Set_ o "evidencePath" (StringOrNull (kh_EvidencePath k)) in
      let o := Set_ o "reason" (StringOrNull (kh_Reason k)) in
      if negb (kh_Repository k =s ε) then Set_ o "repository" (VString (kh_Repository k)) else o
    else if kh_Operation k =s KnowHowRetract then
      let o := Set_ o "note" (VString (kh_Note k)) in
      Set_ o "reason" (StringOrNull (kh_Reason k))
    else
      let o := Set_ o "note" (VString (kh_Note k)) in
      let o := Set_ o "anchors" (KnowHowAnchorsValue (kh_Anchors k)) in
      let o := Set_ o "commit" (VString (kh_Commit k)) in
      let o := Set_ o "attempt" (StringOrNull (kh_Attempt k)) in
      Set_ o "generation" (StringOrNull (kh_Generation k)) in
  let o := Set_ o "actor"
    (VObject (Set_ (Set_ NewObject "id" (VString (kh_ActorID k))) "role" (VString (kh_ActorRole k)))) in
  VObject (Set_ o "recordedAt" (VString (kh_RecordedAt k))).

Definition KnowHowValue (entries : list KnowHowEntry) : Value := VArray (know_how_entry_value <$> entries).

(** ** The active notes *)

Definition active_step (active : gset string) (k : KnowHowEntry) : gset string :=
  if kh_Operation k =s KnowHowRetract then active ∖ {[kh_Note k]}
  else if kh_Operation k =s KnowHowReconfirm then active
  else {[kh_Seq k]} ∪ match kh_Supersedes k with Some s => active ∖ {[s]} | None => active end.

Definition KnowHowActiveSeqs (entries : list KnowHowEntry) : gset string := foldl active_step ∅ entries.

Definition ActiveKnowHow (entries : list KnowHowEntry) : list KnowHowEntry :=
  let active := KnowHowActiveSeqs entries in
  filter (λ k, kh_Operation k = KnowHowAdd ∧ kh_Seq k ∈ active) entries.

(** [latest]: the last RECONFIRM of each note. *)
Definition latest_reconfirm (entries : list KnowHowEntry) : gmap string KnowHowEntry :=
  foldl (λ m k, if kh_Operation k =s KnowHowReconfirm then <[kh_Note k := k]> m else m) ∅ entries.

Definition with_reconfirm (k : KnowHowEntry) (r : KnowHowEntry) : KnowHowEntry :=
  mkKnowHowEntry (kh_Seq k) (kh_Operation k) (kh_Text k) (kh_Anchors r) (kh_Routes k) (kh_Commit r) (kh_Supersedes k)
    (kh_Attempt k) (kh_Generation k) (kh_EvidencePath k) (kh_Note k) (kh_Reason k) (kh_Repository k) (kh_ActorID k)
    (kh_ActorRole k) (kh_RecordedAt k) (Some r).

Definition EffectiveKnowHow (entries : list KnowHowEntry) : list KnowHowEntry :=
  let latest := latest_reconfirm entries in
  (λ k, match latest !! kh_Seq k with Some r => with_reconfirm k r | None => k end) <$> ActiveKnowHow entries.

(** ** Validation *)

Definition KnowHowPins (anchors : list KnowHowAnchor) : list KnowHowPin :=
  (λ a, {| Pin_Path := kha_Path a; Pin_Symbol := kha_Symbol a;
           Pin_Pin := if negb (kha_Symbol a =s ε) then kha_SymbolSha256 a else kha_Blob a |}) <$> anchors.

(** [KnowHowReconfirmRefusal(prior, next)] *)
Definition ticket_KnowHowReconfirmRefusal (prior next : list KnowHowAnchor) : string :=
  KnowHowReconfirmRefusal (KnowHowPins prior) (KnowHowPins next).

(** The note an entry names, if any. *)
Definition kh_target (k : KnowHowEntry) : option string :=
  if negb (kh_Operation k =s KnowHowAdd) then Some (kh_Note k) else kh_Supersedes k.

(** A WORKER entry that is no fresh ADD with its attempt and generation. *)
Definition worker_refused (k : KnowHowEntry) : bool :=
  (kh_ActorRole k =s "WORKER") &&
  (negb (kh_Operation k =s KnowHowAdd) || bool_decide (is_Some (kh_Supersedes k)) ||
   bool_decide (kh_Attempt k = None) || bool_decide (kh_Generation k = None)).

Definition is_none {A} (x : option A) : bool := match x with None => true | Some _ => false end.

(** The loop from the entry of index [i]. *)
Fixpoint validateKnowHow_loop (active : gset string) (pins : gmap string (list KnowHowAnchor)) (i : Z)
    (entries : list KnowHowEntry) : option Error :=
  match entries with
  | [] => None
  | k :: entries' =>
      let where_ := "/knowHow/" +:+ idx i in
      let target := kh_target k in
      if negb (Count_Int (kh_Seq k) =? i + 1) then
        Some (Errorf CodeMalformed (where_ +:+ "/seq") "seq %s is not the entry position %d" [AStr (kh_Seq k); AInt (i + 1)])
      else if match target with Some t => bool_decide (t ∉ active) | None => false end then
        Some (Errorf CodeMalformed where_ "entry names note %s, which is not an earlier active note"
          [AStr (default ε target)])
      else if worker_refused k then
        Some (Errorf CodeMalformed (where_ +:+ "/actor/role")
          "a WORKER entry is a non-superseding ADD that records its attempt and generation" [])
      else if kh_Operation k =s KnowHowReconfirm then
        let why := ticket_KnowHowReconfirmRefusal (default [] (pins !! kh_Note k)) (kh_Anchors k) in
        if negb (why =s ε) then Some (Errorf CodeMalformed (where_ +:+ "/anchors") "%s" [AStr why])
        else validateKnowHow_loop active (<[kh_Note k := kh_Anchors k]> pins) (i + 1) entries'
      else if (kh_Operation k =s KnowHowAdd) && negb (Bool.eqb (is_none (kh_Supersedes k)) (is_none (kh_Reason k))) then
        Some (Errorf CodeMalformed (where_ +:+ "/reason") "an ADD carries a reason exactly when it supersedes" [])
      else
        let active := match target with Some t => active ∖ {[t]} | None => active end in
        if kh_Operation k =s KnowHowAdd
        then validateKnowHow_loop ({[kh_Seq k]} ∪ active) (<[kh_Seq k := kh_Anchors k]> pins) (i + 1) entries'
        else validateKnowHow_loop active pins (i + 1) entries'
  end.

Definition validateKnowHow (rec : Record_) : option Error := validateKnowHow_loop ∅ ∅ 0 (rec_KnowHow rec).
