(* ===== verification/KnowHowSpec.v ===== *)
(** * What the know-how ledger promises

    The ledger's decoder and encoder are inverse; a valid ledger is a run of
    the abstract ledger, whose state is the active notes with their pins; and
    the projections of the ledger agree with the state that run ends in. *)

From S2P Require Import Prelude Utf8 GoStd Codes Limits Value Canonical Primitives Ids.
From S2P Require Import SetsSpec PrimitivesSpec IdsSpec Parse ParseTotal ParsePrint.
From S2P Require Import ParseDoc Reader ReaderSpec Result ResultSpec Ticket Inventory Marks MarksSpec.
From S2P Require Import KnowHow.
Local Open Scope Z_scope.
Local Open Scope go_scope.

(** ** Checked strings *)

#[global] Instance Symbol_text : TextParser ParseKnowHowSymbol.
Proof. split; intros w s; [intros t|]; unfold ParseKnowHowSymbol; repeat case_match; congruence. Qed.

#[global] Instance Repository_text : TextParser ParseKnowHowRepository.
Proof. split; intros w s; [intros t|]; unfold ParseKnowHowRepository; repeat case_match; congruence. Qed.

#[global] Instance Token_text max : TextParser (λ w s, ParseToken w s max).
Proof. text_parser. Qed.

#[global] Instance Sticky_checked parse c f a r : Sticky (checked parse c f a r).
Proof. unfold checked. apply _. Qed.

#[global] Instance Sticky_kh_text r : Sticky (ReadKnowHowText r).
Proof. unfold ReadKnowHowText. apply _. Qed.
#[global] Instance Sticky_kh_reason r : Sticky (ReadKnowHowReason r).
Proof. unfold ReadKnowHowReason. apply _. Qed.
#[global] Instance Sticky_kh_file r : Sticky (ReadKnowHowFile r).
Proof. unfold ReadKnowHowFile. apply _. Qed.
#[global] Instance Sticky_kh_symbol r : Sticky (ReadKnowHowSymbol r).
Proof. unfold ReadKnowHowSymbol. apply _. Qed.
#[global] Instance Sticky_kh_repository r : Sticky (ReadKnowHowRepository r).
Proof. unfold ReadKnowHowRepository. apply _. Qed.
#[global] Instance Sticky_kh_route r : Sticky (readRoute r).
Proof. unfold readRoute. apply _. Qed.
#[global] Instance Sticky_kh_routes r : Sticky (ReadKnowHowRoutes r).
Proof. unfold ReadKnowHowRoutes. apply _. Qed.
#[global] Instance Sticky_anchor it : Sticky (read_anchor it).
Proof. unfold read_anchor. apply _. Qed.

#[global] Instance Sticky_anchors_loop r items : ∀ out, Sticky (anchors_loop r items out).
Proof. induction items; intros out; cbn [anchors_loop]; apply _. Qed.

#[global] Instance Sticky_anchors r : Sticky (ReadKnowHowAnchors r).
Proof. unfold ReadKnowHowAnchors. apply _. Qed.
#[global] Instance Sticky_add e : Sticky (read_add e).
Proof. unfold read_add. apply _. Qed.
#[global] Instance Sticky_retract e : Sticky (read_retract e).
Proof. unfold read_retract. apply _. Qed.
#[global] Instance Sticky_reconfirm e : Sticky (read_reconfirm e).
Proof. unfold read_reconfirm. apply _. Qed.
#[global] Instance Sticky_common e k : Sticky (read_common e k).
Proof. unfold read_common. apply _. Qed.

Lemma ok_checked parse `{!TextParser parse} c f a r s :
  ok (checked parse c f a r) s ↔ rv r = VString s ∧ parse (rwhere r) s = Ok s.
Proof.
  unfold checked. rewrite ok_bind by apply _. setoid_rewrite ok_failed. setoid_rewrite ok_String. split.
  - intros (t & Hr & H). destruct (parse (rwhere r) t) as [u|err|] eqn:Hp.
    + rewrite ok_ret in H. subst t. by rewrite (text_same _ _ _ Hp) in Hp.
    + by apply ok_Fail in H; [|apply _].
    + by apply text_fuel in Hp.
  - intros [Hr Hp]. exists s. split; [done|]. by rewrite Hp, ok_ret.
Qed.

Lemma kh_file_value r s : ok (ReadKnowHowFile r) s → rv r = VString s.
Proof.
  unfold ReadKnowHowFile. intros H. rewrite ok_bind in H by apply _. destruct H as (t & Ht & H).
  apply Path_value in Ht. rewrite ok_failed in H. cbn [negb andb] in H.
  destruct (strings.HasSuffix t "/"); [by apply ok_Fail in H; [|apply _]|]. rewrite ok_ret in H. by subst.
Qed.

Lemma fileOrNull_value r x : ok (Reader_StringOrNull ReadKnowHowFile r) x → rv r = StringOrNull x.
Proof.
  unfold Reader_StringOrNull. intros H. apply ok_or_null in H; [|apply _].
  destruct H as [[Hn ->]|(_ & s & Hs%kh_file_value & ->)]; done.
Qed.

Lemma routes_value r ss : ok (ReadKnowHowRoutes r) ss → rv r = Strings ss.
Proof.
  intros H. apply ok_Strings_value in H as [? _]; [done|apply _|]. by intros r' s [? _]%(ok_checked _).
Qed.

(** [mark_inv] with the fields of a ledger entry. *)
Ltac kh_inv :=
  repeat (mark_inv; match goal with
  | H : ok (ReadKnowHowFile _) _ |- _ => apply kh_file_value in H
  | H : ok (Reader_StringOrNull ReadKnowHowFile _) _ |- _ => apply fileOrNull_value in H
  | H : ok (ReadKnowHowRoutes _) _ |- _ => apply routes_value in H
  | H : ok (ReadKnowHowText _) _ |- _ => apply nonblank_value in H as [H ?]
  | H : ok (ReadKnowHowReason _) _ |- _ => apply nonblank_value in H as [H ?]
  | H : ok (ReadKnowHowSymbol _) _ |- _ => apply (ok_checked _) in H as [H ?]
  | H : ok (ReadKnowHowRepository _) _ |- _ => apply (ok_checked _) in H as [H ?]
  end; repeat match goal with H : context [rv (child ?r ?v ?s)] |- _ => change (rv (child r v s)) with v in H end);
  mark_inv.

(** ** Anchors *)

Lemma Has_Get v o k : v = VObject o → Has v k = bool_decide (is_Some (Get o k)).
Proof. by intros ->. Qed.

Lemma anchor_ok it a : distinct (rv it) → ok (read_anchor it) a → canon (rv it) = canon (anchor_value a).
Proof.
  intros Hd H. unfold read_anchor in H. destruct (Has (rv it) "symbol" || Has (rv it) "symbolSha256"); kh_inv.
  - match goal with H : ParseKnowHowSymbol _ ?s = _ |- _ => assert (s ≠ ε) as Hne by (intros ->; by vm_compute in H) end.
    subst.
    unfold anchor_value. cbn [kha_Path kha_Blob kha_Symbol kha_SymbolSha256].
    apply String.eqb_neq in Hne. rewrite Hne. cbn [negb]. same_members Hd.
  - subst. unfold anchor_value. cbn [kha_Path kha_Blob kha_Symbol kha_SymbolSha256]. same_members Hd.
Qed.

(** An anchor and the next. *)
Definition anchor_before (p a : KnowHowAnchor) : Prop :=
  KnowHowAnchorLess p a = true ∧ (kha_Path p = kha_Path a → kha_Blob p = kha_Blob a).

Fixpoint anchors_chain (prev : option KnowHowAnchor) (l : list KnowHowAnchor) : Prop :=
  match l with
  | [] => True
  | a :: l' => (match prev with Some p => anchor_before p a | None => True end) ∧ anchors_chain (Some a) l'
  end.

Lemma anchors_loop_ok r0 r vs : ∀ i out xs,
  Forall distinct vs → ok (anchors_loop r0 (children r i vs) out) xs →
  ∃ ys, xs = out ++ ys ∧ canon <$> vs = (λ a, canon (anchor_value a)) <$> ys ∧ anchors_chain (last out) ys.
Proof.
  induction vs as [|v vs IH]; intros i out xs Hd H; cbn [children anchors_loop] in H.
  { rewrite ok_ret in H. subst. exists []. by rewrite app_nil_r. }
  inv Hd as [|? ? Hv Hvs]. rewrite ok_bind in H by apply _. destruct H as (a & Ha & H).
  apply anchor_ok in Ha; [|done]. cbn [child rv] in Ha. rewrite ok_failed in H. cbv iota in H.
  assert (ok (anchors_loop r0 (children r (i + 1) vs) (out ++ [a])) xs ∧
    (match last out with Some p => anchor_before p a | None => True end)) as [Hrest Hp].
  { destruct (last out) as [p|]; [|done].
    destruct (KnowHowAnchorLess p a) eqn:Hl; cbn [negb] in H; [|by apply ok_Fail in H; [|apply _]].
    destruct (String.eqb_spec (kha_Path p) (kha_Path a)) as [He|Hne]; cbn [andb] in H.
    - destruct (String.eqb_spec (kha_Blob p) (kha_Blob a)) as [Hb|]; cbn [negb] in H; [|by apply ok_Fail in H; [|apply _]].
      done.
    - split; [done|]. by split. }
  apply IH in Hrest as (ys & -> & Heq & Hc); [|done]. exists (a :: ys). rewrite <-app_assoc. split; [done|].
  rewrite !fmap_cons, Heq, Ha. split; [done|]. cbn [anchors_chain]. split; [done|].
  by rewrite last_snoc in Hc.
Qed.

Lemma anchors_ok r xs :
  distinct (rv r) → ok (ReadKnowHowAnchors r) xs →
  canon (rv r) = canon (KnowHowAnchorsValue xs) ∧ xs ≠ [] ∧ anchors_chain None xs.
Proof.
  intros Hd H. unfold ReadKnowHowAnchors in H. rewrite ok_bind in H by apply _. destruct H as (es & Hes & H).
  rewrite ok_Array in Hes. destruct Hes as (vs & Hv & _ & _ & ->).
  rewrite ok_failed in H. cbn [negb andb] in H. rewrite Hv in Hd |- *. apply distinct_elements in Hd.
  destruct vs as [|v vs]; [by apply ok_Fail in H; [|apply _]|].
  assert ((length (children r 0 (v :: vs)) =? 0)%nat = false) as Hz by done. rewrite Hz in H.
  apply anchors_loop_ok in H as (ys & -> & Heq & Hc); [|done]. cbn [app].
  split_and!; [|by intros ->|done].
  unfold KnowHowAnchorsValue. rewrite !canon_VArray, Heq. f_equal. by rewrite <-list_fmap_compose.
Qed.

(** ** Entries *)

(** What the decoder grants of an entry: its operation is one of the three,
    its anchors, where it has any, are in order, and it has a reason, an attempt
    and a note only where its operation has them. *)
Definition entry_shape (k : KnowHowEntry) : Prop :=
  kh_ActorRole k ∈ knowHowRoles ∧
  (kh_Operation k = KnowHowAdd ∧ kh_Anchors k ≠ [] ∧ anchors_chain None (kh_Anchors k) ∧
     (kh_Repository k ≠ ε → ticket_KnowHowRepositoryRefusal (kh_Repository k) (kh_Anchors k) = ε) ∨
   kh_Operation k = KnowHowRetract ∧ is_Some (kh_Reason k) ∨
   kh_Operation k = KnowHowReconfirm ∧ kh_Anchors k ≠ [] ∧ anchors_chain None (kh_Anchors k)).

(** What the decoded entry keeps of its operation's members. *)
Definition same_body (b k : KnowHowEntry) : Prop :=
  kh_Operation k = kh_Operation b ∧ kh_Text k = kh_Text b ∧ kh_Anchors k = kh_Anchors b ∧ kh_Routes k = kh_Routes b ∧
  kh_Commit k = kh_Commit b ∧ kh_Supersedes k = kh_Supersedes b ∧ kh_Attempt k = kh_Attempt b ∧
  kh_Generation k = kh_Generation b ∧ kh_EvidencePath k = kh_EvidencePath b ∧ kh_Note k = kh_Note b ∧
  kh_Reason k = kh_Reason b ∧ kh_Repository k = kh_Repository b.

Definition actor_value (k : KnowHowEntry) : Value :=
  VObject (Set_ (Set_ NewObject "id" (VString (kh_ActorID k))) "role" (VString (kh_ActorRole k))).

Lemma common_ok e o b k :
  distinct (rv e) → rv e = VObject o → ok (read_common e b) k →
  Get o "seq" = Some (VString (kh_Seq k)) ∧ Get o "recordedAt" = Some (VString (kh_RecordedAt k)) ∧
  canon <$> Get o "actor" = Some (canon (actor_value k)) ∧ kh_ActorRole k ∈ knowHowRoles ∧ same_body b k.
Proof.
  intros Hd Ho H. unfold read_common in H. kh_inv. subst k. same_object. subst.
  match goal with Ho : rv e = VObject ?o, H : Get ?o "actor" = Some (VObject ?p) |- _ =>
    rewrite H; assert (NoDup (Keys p)) as Hp by (rewrite Ho in Hd; by apply distinct_keys, (distinct_member o "actor")) end.
  simplify_eq. split_and!; [done..| |done|done]. cbn [fmap option_fmap option_map]. f_equal. unfold actor_value.
  cbn [kh_ActorID kh_ActorRole].
  eapply canon_object_keys; [done|nodup_keys|done|apply same_keys; reflexivity|]. by compare_members.
Qed.

Lemma refusal_ok e rep anchors u :
  ok (if negb (rep =s ε) then
        if negb (ticket_KnowHowRepositoryRefusal rep anchors =s ε) then
          Field e "anchors" ≫= λ f, Fail f CodeMalformed "%s" [AStr (ticket_KnowHowRepositoryRefusal rep anchors)]
        else mret tt
      else mret tt) u → rep ≠ ε → ticket_KnowHowRepositoryRefusal rep anchors = ε.
Proof.
  intros H Hne. apply String.eqb_neq in Hne. rewrite Hne in H. cbn [negb] in H.
  destruct (String.eqb_spec (ticket_KnowHowRepositoryRefusal rep anchors) ε) as [|_]; [done|]. cbn [negb] in H.
  ok_inv.
Qed.

Lemma kh_reason_ok e v x :
  (∀ o w, rv e = VObject o → Get o "reason" = Some w → w = v) →
  ok (if IsNull (child e v "reason") then mret None
      else Field e "reason" ≫= λ f, ReadKnowHowReason f ≫= λ s, mret (Some s)) x →
  v = StringOrNull x.
Proof.
  intros Hv H. destruct (IsNull (child e v "reason")) eqn:Hn.
  - apply IsNull_true in Hn. rewrite ok_ret in H. by subst.
  - kh_inv. subst. symmetry. by eapply Hv.
Qed.

Ltac body_fields H :=
  destruct H as (-> & -> & -> & -> & -> & -> & -> & -> & -> & -> & -> & ->);
  cbn [kh_Seq kh_Operation kh_Text kh_Anchors kh_Routes kh_Commit kh_Supersedes kh_Attempt kh_Generation kh_EvidencePath
    kh_Note kh_Reason kh_Repository kh_ActorID kh_ActorRole kh_RecordedAt kh_Reconfirmed].

(** The entry's value is its object. *)
Ltac entry_object :=
  match goal with Hd : distinct (rv ?e), Ho : rv ?e = VObject _ |- _ => rewrite Ho in Hd |- * end.

(** A member of a distinct object is distinct. *)
Ltac member_distinct :=
  match goal with Hd : distinct (rv ?e), Ho : rv ?e = VObject _ |- _ => rewrite Ho in Hd; by eapply distinct_member end.

(** Compare an entry of the listed keys with what it is written as. *)
Ltac same_entry ks :=
  eapply (canon_object_keys ks); [done|nodup_keys|done|apply same_keys; reflexivity|]; compare_members;
  try done; try congruence.

Lemma retract_ok e o b k :
  distinct (rv e) → rv e = VObject o → Get o "operation" = Some (VString KnowHowRetract) →
  ok (read_retract e) b → ok (read_common e b) k →
  canon (rv e) = canon (know_how_entry_value k) ∧ entry_shape k.
Proof.
  intros Hd Ho Hop H Hc. destruct (common_ok _ _ _ _ Hd Ho Hc) as (Hs & Hr & Ha & Hrole & Hb).
  unfold read_retract in H. kh_inv. same_object. simplify_eq. split.
  - unfold know_how_entry_value. body_fields Hb. entry_object. apply distinct_keys in Hd.
    cbn [String.eqb Ascii.eqb Bool.eqb KnowHowAdd KnowHowRetract]. same_entry knowHowRetractKeys.
  - split; [done|]. right; left. unfold entry_shape. destruct Hb as (-> & _ & _ & _ & _ & _ & _ & _ & _ & _ & -> & _). by eauto.
Qed.

Lemma reconfirm_ok e o b k :
  distinct (rv e) → rv e = VObject o → Get o "operation" = Some (VString KnowHowReconfirm) →
  ok (read_reconfirm e) b → ok (read_common e b) k →
  canon (rv e) = canon (know_how_entry_value k) ∧ entry_shape k.
Proof.
  intros Hd Ho Hop H Hc. destruct (common_ok _ _ _ _ Hd Ho Hc) as (Hs & Hr & Ha & Hrole & Hb).
  unfold read_reconfirm in H. kh_inv. same_object. simplify_eq.
  match goal with H : ok (ReadKnowHowAnchors _) _ |- _ => apply anchors_ok in H as (Hcan & Hne & Hchain);
    [cbn [child rv] in Hcan|member_distinct] end.
  split.
  - unfold know_how_entry_value. body_fields Hb. entry_object. apply distinct_keys in Hd.
    cbn [String.eqb Ascii.eqb Bool.eqb KnowHowAdd KnowHowRetract KnowHowReconfirm]. same_entry knowHowReconfirmKeys.
  - split; [done|]. right; right. destruct Hb as (-> & _ & -> & _). by split_and!.
Qed.

Lemma add_ok e o b k :
  distinct (rv e) → rv e = VObject o → Get o "operation" = Some (VString KnowHowAdd) →
  ok (read_add e) b → ok (read_common e b) k →
  canon (rv e) = canon (know_how_entry_value k) ∧ entry_shape k.
Proof.
  intros Hd Ho Hop H Hc. destruct (common_ok _ _ _ _ Hd Ho Hc) as (Hs & Hr & Ha & Hrole & Hb). clear Hc.
  unfold read_add in H. rewrite ok_bind in H by apply _. destruct H as (rep & Hrep & H).
  assert (∃ ks, (∀ k, k ∈ Keys o ↔ k ∈ ks) ∧ (ks = knowHowAddKeys ∧ rep = ε ∨
    ks = "repository" :: knowHowAddKeys ∧ rep ≠ ε ∧ Get o "repository" = Some (VString rep))) as (ks & Hks & Hkr).
  { destruct (Has (rv e) "repository"); kh_inv; same_object; simplify_eq; eexists; (split; [done|]); [right|by left].
    split_and!; [done| |done]. intros ->. by match goal with H : ParseKnowHowRepository _ _ = _ |- _ => vm_compute in H end. }
  clear Hrep. kh_inv. same_object. simplify_eq.
  match goal with H : ok (ReadKnowHowAnchors _) _ |- _ => apply anchors_ok in H as (Hcan & Hne & Hchain);
    [cbn [child rv] in Hcan|member_distinct] end.
  match goal with H : ok (if negb false && _ then _ else _) _ |- _ => cbn [negb andb] in H; pose proof (refusal_ok _ _ _ _ H) as Href end.
  match goal with H : ok (if IsNull _ then _ else _) _ |- _ => apply kh_reason_ok in H; [|by intros o1 w1 Ho1 Hg1; same_object; congruence] end.
  split.
  - unfold know_how_entry_value. body_fields Hb. entry_object. apply distinct_keys in Hd.
    rewrite String.eqb_refl. destruct Hkr as [[-> ->]|(-> & Hrep & Hg)].
    + rewrite String.eqb_refl. cbn [negb]. same_entry knowHowAddKeys.
    + apply String.eqb_neq in Hrep. rewrite Hrep. cbn [negb]. same_entry ("repository" :: knowHowAddKeys).
  - split; [done|]. left. destruct Hb as (-> & _ & -> & _ & _ & _ & _ & _ & _ & _ & _ & ->). by split_and!.
Qed.

#[global] Instance Sticky_know_how_loop items : ∀ out, Sticky (know_how_loop items out).
Proof. induction items; intros out; cbn [know_how_loop]; apply _. Qed.

#[global] Instance Sticky_ReadKnowHow r : Sticky (ReadKnowHow r).
Proof. unfold ReadKnowHow. apply _. Qed.

Lemma know_how_loop_ok r vs : ∀ i out xs,
  Forall distinct vs → ok (know_how_loop (children r i vs) out) xs →
  ∃ ys, xs = out ++ ys ∧ canon <$> vs = (λ k, canon (know_how_entry_value k)) <$> ys ∧ Forall entry_shape ys.
Proof.
  induction vs as [|v vs IH]; intros i out xs Hd H; cbn [children know_how_loop] in H.
  { rewrite ok_ret in H. subst. exists []. by rewrite app_nil_r. }
  inv Hd as [|? ? Hv Hvs].
  match type of H with context [child r v ?seg] => set (e := child r v seg) in H; assert (v = rv e) as Hve by done end.
  clearbody e. rewrite Hve in Hv |- *. clear Hve.
  rewrite ok_bind in H by apply _. destruct H as (f & Hf & H). rewrite ok_Field in Hf. destruct Hf as (o & w & Ho & Hop & ->).
  rewrite ok_bind in H by apply _. destruct H as (op & Hen & H). rewrite ok_Enum in Hen. destruct Hen as [Hw Hin].
  cbn [child rv] in Hw. subst w. rewrite ok_failed in H. cbv iota in H.
  rewrite ok_bind in H by apply _. destruct H as (b & Hb & H).
  rewrite ok_bind in H by apply _. destruct H as (k & Hk & H).
  apply IH in H as (ys & -> & Heq & Hall); [|done]. exists (k :: ys). rewrite <-app_assoc. split; [done|].
  assert (canon (rv e) = canon (know_how_entry_value k) ∧ entry_shape k) as [Hcan Hsh].
  { assert (op = KnowHowAdd ∨ op = KnowHowRetract ∨ op = KnowHowReconfirm) as [->|[->| ->]] by set_solver; cbn in Hb.
    - by eapply add_ok.
    - by eapply retract_ok.
    - by eapply reconfirm_ok. }
  rewrite !fmap_cons, Heq, Hcan. split; [done|by constructor].
Qed.

Lemma know_how_ok r xs :
  distinct (rv r) → ok (ReadKnowHow r) xs →
  canon (rv r) = canon (KnowHowValue xs) ∧ xs ≠ [] ∧ Forall entry_shape xs.
Proof.
  intros Hd H. unfold ReadKnowHow in H. rewrite ok_bind in H by apply _. destruct H as (es & Hes & H).
  rewrite ok_Array in Hes. destruct Hes as (vs & Hv & _ & _ & ->).
  rewrite ok_failed in H. cbn [negb andb] in H. rewrite Hv in Hd |- *. apply distinct_elements in Hd.
  destruct vs as [|v vs]; [by apply ok_Fail in H; [|apply _]|].
  assert ((length (children r 0 (v :: vs)) =? 0)%nat = false) as Hz by done. rewrite Hz in H.
  apply know_how_loop_ok in H as (ys & -> & Heq & Hsh); [|done]. cbn [app].
  split_and!; [|by intros ->|done].
  unfold KnowHowValue. rewrite !canon_VArray, Heq. f_equal. by rewrite <-list_fmap_compose.
Qed.

(** ** The abstract ledger *)

(** The active notes and, of each note, its latest anchors. *)
Record ledger := mkLedger { active : gset string; pins : gmap string (list KnowHowAnchor) }.

Definition empty_ledger : ledger := mkLedger ∅ ∅.

Definition not_worker (k : KnowHowEntry) : Prop := kh_ActorRole k ≠ "WORKER".

(** One entry, at a 1-based position [n]. *)
Inductive ledger_step (n : Z) (s : ledger) (k : KnowHowEntry) : ledger → Prop :=
  | step_add :
      kh_Operation k = KnowHowAdd → Count_Int (kh_Seq k) = n → kh_Supersedes k = None → kh_Reason k = None →
      (kh_ActorRole k = "WORKER" → is_Some (kh_Attempt k) ∧ is_Some (kh_Generation k)) →
      ledger_step n s k (mkLedger ({[kh_Seq k]} ∪ active s) (<[kh_Seq k := kh_Anchors k]> (pins s)))
  | step_supersede t :
      kh_Operation k = KnowHowAdd → Count_Int (kh_Seq k) = n → kh_Supersedes k = Some t → t ∈ active s →
      is_Some (kh_Reason k) → not_worker k →
      ledger_step n s k (mkLedger ({[kh_Seq k]} ∪ active s ∖ {[t]}) (<[kh_Seq k := kh_Anchors k]> (pins s)))
  | step_reconfirm :
      kh_Operation k = KnowHowReconfirm → Count_Int (kh_Seq k) = n → kh_Note k ∈ active s → not_worker k →
      ticket_KnowHowReconfirmRefusal (default [] (pins s !! kh_Note k)) (kh_Anchors k) = ε →
      ledger_step n s k (mkLedger (active s) (<[kh_Note k := kh_Anchors k]> (pins s)))
  | step_retract :
      kh_Operation k ≠ KnowHowAdd → kh_Operation k ≠ KnowHowReconfirm → Count_Int (kh_Seq k) = n →
      kh_Note k ∈ active s → not_worker k →
      ledger_step n s k (mkLedger (active s ∖ {[kh_Note k]}) (pins s)).

Inductive ledger_run : Z → ledger → list KnowHowEntry → ledger → Prop :=
  | run_nil n s : ledger_run n s [] s
  | run_cons n s k s' ks s'' : ledger_step n s k s' → ledger_run (n + 1) s' ks s'' → ledger_run n s (k :: ks) s''.

Lemma worker_refused_spec k :
  worker_refused k = false ↔
  (kh_ActorRole k = "WORKER" → kh_Operation k = KnowHowAdd ∧ kh_Supersedes k = None ∧
    is_Some (kh_Attempt k) ∧ is_Some (kh_Generation k)).
Proof.
  unfold worker_refused. destruct (String.eqb_spec (kh_ActorRole k) "WORKER") as [->|Hne]; cbn [andb]; [|by split].
  destruct (String.eqb_spec (kh_Operation k) KnowHowAdd), (kh_Supersedes k), (kh_Attempt k), (kh_Generation k); cbn;
    split; try done; try (by intros H; destruct (H eq_refl) as (? & ? & [? ?] & [? ?])); eauto.
Qed.

Lemma ledger_step_det n s k s1 s2 : ledger_step n s k s1 → ledger_step n s k s2 → s1 = s2.
Proof.
  assert (KnowHowAdd ≠ KnowHowReconfirm) by discriminate.
  intros H1 H2. inv H1; inv H2; congruence.
Qed.

(** The check of one entry, against the step it allows. *)
Lemma validateKnowHow_loop_cons s i k ks :
  (∃ s', ledger_step (i + 1) s k s' ∧
     validateKnowHow_loop (active s) (pins s) i (k :: ks) = validateKnowHow_loop (active s') (pins s') (i + 1) ks) ∨
  ((∀ s', ¬ ledger_step (i + 1) s k s') ∧ is_Some (validateKnowHow_loop (active s) (pins s) i (k :: ks))).
Proof.
  cbn [validateKnowHow_loop]. destruct (Z.eqb_spec (Count_Int (kh_Seq k)) (i + 1)) as [Hseq|Hseq]; cbn [negb].
  2: { right. split; [intros s' H; by inv H|by eexists]. }
  assert (KnowHowAdd ≠ KnowHowReconfirm) as Har by discriminate.
  unfold kh_target. pose proof (worker_refused_spec k) as Hw.
  destruct (String.eqb_spec (kh_Operation k) KnowHowAdd) as [Hadd|Hadd]; cbn [negb andb].
  - rewrite Hadd. assert ((KnowHowAdd =s KnowHowReconfirm) = false) as -> by done.
    destruct (kh_Supersedes k) as [t|] eqn:Hsup.
    + case_bool_decide as Ht; [right; split; [intros s' H; inv H; congruence|by eexists]|].
      destruct (worker_refused k) eqn:Hwr.
      { right. split; [|by eexists]. intros s' H. assert (true = false) as [=]. apply Hw. intros Hr. inv H; unfold not_worker in *; congruence. }
      rewrite Hadd in Hw. destruct (kh_Reason k) as [re|] eqn:Hre; cbn.
      * left. eexists. split; [by eapply step_supersede; eauto; intros Hr; destruct (proj1 Hw eq_refl Hr) as (_ & ? & _)|done].
      * right. split; [intros s' H; inv H; try congruence; match goal with Hs : is_Some _ |- _ => destruct Hs; congruence end|by eexists].
    + destruct (worker_refused k) eqn:Hwr.
      { right. split; [|by eexists]. intros s' H. assert (true = false) as [=]. apply Hw. intros Hr. inv H; unfold not_worker in *; try congruence; tauto. }
      destruct (kh_Reason k) as [re|] eqn:Hre; cbn.
      * right. split; [|by eexists]. intros s' H; inv H; try congruence.
      * left. eexists. split; [by eapply step_add; eauto; intros Hr; apply (proj1 Hw eq_refl Hr)|done].
  - case_bool_decide as Ht; [right; split; [intros s' H; inv H; congruence|by eexists]|].
    destruct (worker_refused k) eqn:Hwr.
    { right. split; [|by eexists]. intros s' H. assert (true = false) as [=]. apply Hw. intros Hr. inv H; unfold not_worker in *; congruence. }
    assert (not_worker k) as Hnw by (intros Hr; by destruct (proj1 Hw eq_refl Hr)).
    destruct (String.eqb_spec (kh_Operation k) KnowHowReconfirm) as [Hrec|Hrec].
    + destruct (String.eqb_spec (ticket_KnowHowReconfirmRefusal (default [] (pins s !! kh_Note k)) (kh_Anchors k)) ε)
        as [Hy|Hy]; cbn [negb].
      * left. eexists. split; [by eapply step_reconfirm|done].
      * right. split; [intros s' H; inv H; congruence|by eexists].
    + left. eexists. split; [by eapply step_retract|done].
Qed.

(** The loop accepts exactly the runs of the abstract ledger. *)
Lemma validateKnowHow_loop_spec ks : ∀ s i,
  validateKnowHow_loop (active s) (pins s) i ks = None ↔ ∃ s', ledger_run (i + 1) s ks s'.
Proof.
  induction ks as [|k ks IH]; intros s i.
  { split; [|done]. intros _. exists s. constructor. }
  destruct (validateKnowHow_loop_cons s i k ks) as [(s' & Hstep & ->)|[Hno [e He]]].
  - rewrite IH. split; intros (s'' & H); exists s''; [by econstructor|]. inv H.
    by match goal with H : ledger_step _ _ _ ?t |- _ => rewrite (ledger_step_det _ _ _ _ _ Hstep H) end.
  - rewrite He. split; [done|]. intros (s'' & H). inv H. by edestruct Hno.
Qed.

Lemma ledger_run_snoc ks k : ∀ n s s'',
  ledger_run n s (ks ++ [k]) s'' ↔
  ∃ s', ledger_run n s ks s' ∧ ledger_step (n + Z.of_nat (length ks)) s' k s''.
Proof.
  induction ks as [|j ks IH]; intros n s s''; cbn [app length].
  - rewrite Z.add_0_r. split.
    + intros H. inv H as [|? ? ? s1 ? ? Hst Hr]. inv Hr. exists s. split; [constructor|done].
    + intros (s' & H & Hst). inv H. econstructor; [done|constructor].
  - split.
    + intros H. inv H as [|? ? ? s1 ? ? Hst Hr]. apply IH in Hr as (s' & Hr & Hk). exists s'.
      split; [by econstructor|]. by replace (n + Z.of_nat (S (length ks))) with (n + 1 + Z.of_nat (length ks)) by lia.
    + intros (s' & H & Hk). inv H as [|? ? ? s1 ? ? Hst Hr]. econstructor; [done|]. apply IH. exists s'. split; [done|].
      by replace (n + 1 + Z.of_nat (length ks)) with (n + Z.of_nat (S (length ks))) by lia.
Qed.

Definition three_operations (k : KnowHowEntry) : Prop :=
  kh_Operation k = KnowHowAdd ∨ kh_Operation k = KnowHowRetract ∨ kh_Operation k = KnowHowReconfirm.

(** An entry with its effective anchors. *)
Definition effective_entry (ks : list KnowHowEntry) (k : KnowHowEntry) : KnowHowEntry :=
  match latest_reconfirm ks !! kh_Seq k with Some r => with_reconfirm k r | None => k end.

(** What links the entries so far to the state of the run. *)
Record ledger_inv (ks : list KnowHowEntry) (s : ledger) : Prop := {
  li_active : KnowHowActiveSeqs ks = active s;
  li_position i k : ks !! i = Some k → Count_Int (kh_Seq k) = Z.of_nat i + 1;
  li_added q : q ∈ active s → ∃ k, k ∈ ks ∧ kh_Operation k = KnowHowAdd ∧ kh_Seq k = q;
  li_latest q : is_Some (latest_reconfirm ks !! q) → q ∈ kh_Seq <$> ks;
  li_pins k : k ∈ ks → kh_Operation k = KnowHowAdd → kh_Seq k ∈ active s →
    pins s !! kh_Seq k = Some (kh_Anchors (effective_entry ks k))
}.

Lemma latest_reconfirm_snoc ks k :
  latest_reconfirm (ks ++ [k]) =
  if kh_Operation k =s KnowHowReconfirm then <[kh_Note k := k]> (latest_reconfirm ks) else latest_reconfirm ks.
Proof. unfold latest_reconfirm. by rewrite foldl_app. Qed.

Lemma KnowHowActiveSeqs_snoc ks k : KnowHowActiveSeqs (ks ++ [k]) = active_step (KnowHowActiveSeqs ks) k.
Proof. unfold KnowHowActiveSeqs. by rewrite foldl_app. Qed.

Lemma fresh_seq ks s k :
  ledger_inv ks s → Count_Int (kh_Seq k) = 1 + Z.of_nat (length ks) → kh_Seq k ∉ kh_Seq <$> ks.
Proof.
  intros Hi Hk (j & He & [i Hj]%list_elem_of_lookup)%list_elem_of_fmap.
  apply (li_position _ _ Hi) in Hj as Hc. rewrite <-He, Hk in Hc. apply lookup_lt_Some in Hj. lia.
Qed.

(** What every step keeps: positions, and the notes known before. *)
Section ledger_step_inv.
Context (ks : list KnowHowEntry) (s : ledger) (k : KnowHowEntry).
Context (Hi : ledger_inv ks s) (Hseq : Count_Int (kh_Seq k) = 1 + Z.of_nat (length ks)).

Lemma step_position i j : (ks ++ [k]) !! i = Some j → Count_Int (kh_Seq j) = Z.of_nat i + 1.
Proof.
  intros [Hj|[Hge Hj]]%lookup_app_Some; [by apply (li_position _ _ Hi)|].
  apply list_lookup_singleton_Some in Hj as [Hi0 <-]. lia.
Qed.

Lemma step_seq_ne j : j ∈ ks → kh_Seq j ≠ kh_Seq k.
Proof. intros Hj He. apply (fresh_seq _ _ _ Hi Hseq). rewrite <-He. by apply (list_elem_of_fmap_2 kh_Seq). Qed.

Lemma step_active_ne t : t ∈ active s → t ≠ kh_Seq k.
Proof. intros (j & Hj & _ & <-)%(li_added _ _ Hi). by apply step_seq_ne. Qed.

Lemma step_latest_none : latest_reconfirm ks !! kh_Seq k = None.
Proof. apply eq_None_not_Some. intros H. by apply (fresh_seq _ _ _ Hi Hseq), (li_latest _ _ Hi). Qed.

Lemma step_added q : q ∈ active s → ∃ j, j ∈ ks ++ [k] ∧ kh_Operation j = KnowHowAdd ∧ kh_Seq j = q.
Proof. intros (j & Hj & ? & ?)%(li_added _ _ Hi). exists j. split; [apply elem_of_app; by left|done]. Qed.

Lemma step_known q : q ∈ kh_Seq <$> ks → q ∈ kh_Seq <$> (ks ++ [k]).
Proof. rewrite fmap_app. intros H. apply elem_of_app. by left. Qed.

(** A new note, after some of the active ones are dropped. *)
Lemma ledger_inv_add A :
  kh_Operation k = KnowHowAdd → A ⊆ active s → active_step (active s) k = {[kh_Seq k]} ∪ A →
  ledger_inv (ks ++ [k]) (mkLedger ({[kh_Seq k]} ∪ A) (<[kh_Seq k := kh_Anchors k]> (pins s))).
Proof.
  intros Hop HA Hst. assert (latest_reconfirm (ks ++ [k]) = latest_reconfirm ks) as Hl.
  { by rewrite latest_reconfirm_snoc, Hop. }
  split; cbn [active pins].
  - by rewrite KnowHowActiveSeqs_snoc, (li_active _ _ Hi).
  - apply step_position.
  - intros q [Hq%elem_of_singleton|Hq]%elem_of_union; [|apply step_added; set_solver].
    exists k. split; [apply elem_of_app; right; by left|done].
  - rewrite Hl. intros q Hq. by apply step_known, (li_latest _ _ Hi).
  - intros j Hj Hjop Hja. unfold effective_entry. rewrite Hl.
    apply elem_of_app in Hj as [Hj| ->%list_elem_of_singleton].
    + pose proof (step_seq_ne _ Hj). rewrite lookup_insert_ne by done.
      apply (li_pins _ _ Hi); [done..|]. set_solver.
    + by rewrite step_latest_none, lookup_insert_eq.
Qed.

Lemma ledger_inv_reconfirm :
  kh_Operation k = KnowHowReconfirm → kh_Note k ∈ active s →
  ledger_inv (ks ++ [k]) (mkLedger (active s) (<[kh_Note k := kh_Anchors k]> (pins s))).
Proof.
  intros Hop Ht. assert (latest_reconfirm (ks ++ [k]) = <[kh_Note k := k]> (latest_reconfirm ks)) as Hl.
  { by rewrite latest_reconfirm_snoc, Hop. }
  split; cbn [active pins].
  - rewrite KnowHowActiveSeqs_snoc, (li_active _ _ Hi). unfold active_step. by rewrite Hop.
  - apply step_position.
  - apply step_added.
  - rewrite Hl. intros q Hq. apply step_known. destruct (decide (q = kh_Note k)) as [->|Hne].
    + destruct (li_added _ _ Hi _ Ht) as (j & Hj & _ & <-). by apply (list_elem_of_fmap_2 kh_Seq).
    + rewrite lookup_insert_ne in Hq by done. by apply (li_latest _ _ Hi).
  - intros j Hj Hjop Hja. unfold effective_entry. rewrite Hl.
    assert (j ∈ ks) as Hjks.
    { apply elem_of_app in Hj as [Hj| ->%list_elem_of_singleton]; [done|]. by rewrite Hop in Hjop. }
    destruct (decide (kh_Seq j = kh_Note k)) as [He|Hne].
    + by rewrite He, !lookup_insert_eq.
    + rewrite !lookup_insert_ne by done. by apply (li_pins _ _ Hi).
Qed.

Lemma ledger_inv_retract :
  kh_Operation k = KnowHowRetract → ledger_inv (ks ++ [k]) (mkLedger (active s ∖ {[kh_Note k]}) (pins s)).
Proof.
  intros Hop. assert (latest_reconfirm (ks ++ [k]) = latest_reconfirm ks) as Hl.
  { by rewrite latest_reconfirm_snoc, Hop. }
  split; cbn [active pins].
  - rewrite KnowHowActiveSeqs_snoc, (li_active _ _ Hi). unfold active_step. by rewrite Hop.
  - apply step_position.
  - intros q Hq. apply step_added. set_solver.
  - rewrite Hl. intros q Hq. by apply step_known, (li_latest _ _ Hi).
  - intros j Hj Hjop Hja. unfold effective_entry. rewrite Hl.
    apply elem_of_app in Hj as [Hj| ->%list_elem_of_singleton]; [|by rewrite Hop in Hjop].
    apply (li_pins _ _ Hi); [done..|]. set_solver.
Qed.
End ledger_step_inv.

Lemma ledger_inv_step ks s k s' :
  ledger_inv ks s → three_operations k → ledger_step (1 + Z.of_nat (length ks)) s k s' → ledger_inv (ks ++ [k]) s'.
Proof.
  intros Hi H3 Hst. assert (Count_Int (kh_Seq k) = 1 + Z.of_nat (length ks)) as Hseq by by inv Hst.
  inv Hst as [Hop _ Hsup _ _|t Hop _ Hsup Ht _ _|Hop _ Ht _ _|Hop Hop' _ Ht _].
  - apply ledger_inv_add; [done..|]. unfold active_step. by rewrite Hop, Hsup.
  - apply ledger_inv_add; [done..|set_solver|]. unfold active_step. by rewrite Hop, Hsup.
  - by apply ledger_inv_reconfirm.
  - apply ledger_inv_retract; [done..|]. destruct H3 as [?|[?|?]]; congruence.
Qed.

Lemma ledger_inv_run ks : ∀ s, Forall three_operations ks → ledger_run 1 empty_ledger ks s → ledger_inv ks s.
Proof.
  induction ks as [|k ks IH] using rev_ind; intros s H3 H.
  - inv H. split; cbn; try done; try (by intros ? ?%not_elem_of_nil); try set_solver.
    intros q [? Hq]. by rewrite lookup_empty in Hq.
  - apply Forall_app in H3 as [H3 Hk%Forall_inv]. apply ledger_run_snoc in H as (s' & Hr & Hst).
    eapply ledger_inv_step; [by apply IH|done|done].
Qed.

Lemma effective_seq ks k : kh_Seq (effective_entry ks k) = kh_Seq k.
Proof. unfold effective_entry. by destruct (latest_reconfirm ks !! kh_Seq k). Qed.

Lemma StronglySorted_filter {A} (R : A → A → Prop) (P : A → Prop) `{∀ x, Decision (P x)} l :
  StronglySorted R l → StronglySorted R (filter P l).
Proof.
  induction 1 as [|x l Hs IH Hx]; [constructor|]. rewrite filter_cons. case_decide; [|done].
  constructor; [done|]. rewrite Forall_forall in Hx |- *. intros y [_ Hy]%list_elem_of_filter. by apply Hx.
Qed.

(** C15: a ledger is valid exactly when it is a run of the abstract ledger from
    the empty one. The notes [KnowHowActiveSeqs] computes are the active ones
    of the state the run ends in, and [EffectiveKnowHow] lists every active
    note exactly once, in append order, with the anchors that state pins. *)
Theorem validateKnowHow_spec rec :
  Forall three_operations (rec_KnowHow rec) →
  (validateKnowHow rec = None ↔ ∃ s, ledger_run 1 empty_ledger (rec_KnowHow rec) s) ∧
  ∀ s, ledger_run 1 empty_ledger (rec_KnowHow rec) s →
    let es := EffectiveKnowHow (rec_KnowHow rec) in
    KnowHowActiveSeqs (rec_KnowHow rec) = active s ∧
    StronglySorted (λ a b, Count_Int (kh_Seq a) < Count_Int (kh_Seq b)) es ∧
    (∀ q, q ∈ active s ↔ q ∈ kh_Seq <$> es) ∧
    Forall (λ k, pins s !! kh_Seq k = Some (kh_Anchors k)) es.
Proof.
  intros H3. split; [apply (validateKnowHow_loop_spec (rec_KnowHow rec) empty_ledger 0)|].
  intros s Hrun. cbv zeta. pose proof (ledger_inv_run _ _ H3 Hrun) as Hi. set (ks := rec_KnowHow rec) in *.
  assert (EffectiveKnowHow ks = effective_entry ks <$> ActiveKnowHow ks) as -> by done.
  assert (∀ k, k ∈ ActiveKnowHow ks ↔ k ∈ ks ∧ kh_Operation k = KnowHowAdd ∧ kh_Seq k ∈ active s) as Hact.
  { intros k. unfold ActiveKnowHow. rewrite list_elem_of_filter, (li_active _ _ Hi). tauto. }
  split_and!.
  - apply (li_active _ _ Hi).
  - apply StronglySorted_fmap.
    assert (StronglySorted (λ a b, Count_Int (kh_Seq a) < Count_Int (kh_Seq b)) ks) as Hs.
    { pose proof (li_position _ _ Hi) as Hp. clear -Hp. clearbody ks. revert Hp.
      induction ks as [|k ks IH] using rev_ind; intros Hp; [constructor|]. apply StronglySorted_app_2; [| |repeat constructor].
      - intros a b [i Ha]%list_elem_of_lookup ->%list_elem_of_singleton.
        rewrite (Hp i a) by by apply lookup_app_l_Some. rewrite (Hp (length ks) k) by apply list_lookup_middle, eq_refl.
        apply lookup_lt_Some in Ha. lia.
      - apply IH. intros i j Hj. apply Hp. by apply lookup_app_l_Some. }
    eapply StronglySorted_weaken; [|by apply StronglySorted_filter, Hs]. intros a b _ _. cbv beta. by rewrite !effective_seq.
  - intros q. rewrite list_elem_of_fmap. setoid_rewrite list_elem_of_fmap. split.
    + intros Hq. destruct (li_added _ _ Hi _ Hq) as (k & Hk & Hop & <-). exists (effective_entry ks k).
      split; [by rewrite effective_seq|]. exists k. split; [done|]. by apply Hact.
    + intros (e & -> & k & -> & (_ & _ & Hk)%Hact). by rewrite effective_seq.
  - apply Forall_fmap, Forall_forall. intros k (Hk & Hop & Hq)%Hact. cbn. rewrite effective_seq.
    by apply (li_pins _ _ Hi).
Qed.

(** A note, one that supersedes it, and a RECONFIRM of the second. *)
Definition sample_anchor (blob : string) : KnowHowAnchor :=
  {| kha_Path := "internal/a.go"; kha_Blob := blob; kha_Symbol := ε; kha_SymbolSha256 := ε |}.

Definition sample_add (seq blob : string) (supersedes reason : option string) : KnowHowEntry :=
  mkKnowHowEntry seq KnowHowAdd "text" [sample_anchor blob] [] "c" supersedes None None None ε reason ε "russell" "OWNER"
    "2026-09-06T14:00:00Z" None.

Definition sample_ledger : list KnowHowEntry :=
  [sample_add "1" "a" None None; sample_add "2" "b" (Some "1") (Some "moved");
   mkKnowHowEntry "3" KnowHowReconfirm ε [sample_anchor "c"] [] "d" None None None None "2" None ε "russell" "OWNER"
     "2026-09-06T15:00:00Z" None].

Lemma validateKnowHow_spec_witness :
  (∃ s, ledger_run 1 empty_ledger sample_ledger s) ∧
  ∀ s, ledger_run 1 empty_ledger sample_ledger s → KnowHowActiveSeqs sample_ledger = active s ∧ active s = {["2"]}.
Proof.
  destruct (validateKnowHow_spec (sample_ledger_record "a" "P1" [] sample_ledger)) as [H1 H2].
  { repeat constructor; cbn; unfold three_operations; cbn; tauto. }
  split; [apply H1; vm_compute; reflexivity|]. intros s Hs. destruct (H2 s Hs) as (Ha & _).
  split; [exact Ha|]. rewrite <-Ha. vm_compute. reflexivity.
Defined.
