(* ===== verification/RecordParts.v ===== *)
(** * The referenced members of a ticket record

    The members of a record that point to documents kept beside it, from
    [src/internal/tasks/ticket]: required roles ([roles.go]), the operator note
    ([operator_note.go]), external reviews ([external_review.go]), the
    obligations reference ([obligations.go]) and the escalation references
    ([escalation.go]). *)

From S2P Require Import Prelude Utf8 GoStd Codes Limits Value Primitives Ids Parse.
From S2P Require Import Reader Ticket Inventory Marks.
Local Open Scope Z_scope.
Local Open Scope go_scope.

(** ** Required roles *)

Fixpoint stage_roles_loop (r : Reader) (stages : list string) (out : gmap string (list string)) :
    M (gmap string (list string)) :=
  match stages with
  | [] => mret out
  | stage :: stages' =>
      f ← Field r stage;
      roles ← Reader_Strings f (-1) false (λ x, Enum x StageRoles);
      _ ← (if (length roles =? 0)%nat then Fail f CodeMalformed "stage requires a role" [] else mret tt);
      stage_roles_loop r stages' (<[stage := roles]> out)
  end.

Definition ReadStageRoles (r : Reader) : M (gmap string (list string)) :=
  _ ← Closed r Stages;
  stage_roles_loop r Stages ∅.

(** The order in which Go ranges over the map is lost in the encoding, which
    sorts the keys; here it is that of [map_to_list]. *)
Definition StageRolesValue (roles : gmap string (list string)) : Value :=
  VObject (foldl (λ o kv, Set_ o kv.1 (Strings kv.2)) NewObject (map_to_list roles)).

(** ** The operator note *)

Definition noteObject (kvs : list (string * Value)) : Value :=
  VObject (foldl (λ o kv, Set_ o kv.1 kv.2) NewObject kvs).

Definition MaxOperatorNoteEvents : Z := 4096.

Definition OperatorNoteReference_Value (n : OperatorNoteReference) : Value :=
  noteObject [("revision", VString (note_Revision n)); ("current", StringOrNull (note_Current n));
              ("head", VString (note_Head n))].

Definition read_note (r : Reader) : M OperatorNoteReference :=
  _ ← Closed r ["revision"; "current"; "head"];
  f ← Field r "revision"; revision ← Count f;
  f ← Field r "current"; current ← DigestOrNull f;
  f ← Field r "head"; head ← Digest f;
  mret {| note_Revision := revision; note_Current := current; note_Head := head |}.

Definition OperatorNoteReferenceFromValue (v : Value) : res OperatorNoteReference :=
  let* n := run (read_note (NewReader v "/operatorNote")) st0 in
  if (Count_Int (note_Revision n) <? 1) || (MaxOperatorNoteEvents <? Count_Int (note_Revision n)) then
    Err (Errorf CodeLimitExceeded "/operatorNote/revision" "note revision must be 1..4096" [])
  else if match note_Current n with Some c => negb (c =s note_Head n) | None => false end then
    Err (Errorf CodeMalformed "/operatorNote/current" "current must equal head or null" [])
  else Ok n.

(** ** External reviews *)

Definition MaxExternalReviewGates : Z := 16.
Definition MaxExternalReviewEvents : Z := 4096.

Definition ExternalReviewRef_Value (n : ExternalReviewRef) : Value :=
  VObject (Set_ (Set_ (Set_ NewObject "generation" (VString (rev_Generation n))) "revision" (VString (rev_Revision n)))
    "head" (VString (rev_Head n))).

Definition ExternalReviewsValue (m : gmap string ExternalReviewRef) : Value :=
  let keys := SortStrings (map_to_list m).*1 in
  VObject (foldl (λ o gate, match m !! gate with Some n => Set_ o gate (ExternalReviewRef_Value n) | None => o end)
    NewObject keys).

Definition read_review (r : Reader) (gate : string) : M ExternalReviewRef :=
  g ← Field r gate;
  _ ← Closed g ["generation"; "revision"; "head"];
  f ← Field g "generation"; generation ← Count f;
  f ← Field g "revision"; revision ← Count f;
  f ← Field g "head"; head ← Digest f;
  mret {| rev_Generation := generation; rev_Revision := revision; rev_Head := head |}.

Fixpoint external_reviews_loop (r : Reader) (gates : list string) (out : gmap string ExternalReviewRef) :
    res (gmap string ExternalReviewRef) :=
  match gates with
  | [] => Ok out
  | gate :: gates' =>
      let* _ := ParseLabel "/externalReviews" gate in
      let* ref := run (read_review r gate) st0 in
      let generation := Count_Int (rev_Generation ref) in
      let revision := Count_Int (rev_Revision ref) in
      if (generation <? 1) || (revision <? generation) || (MaxExternalReviewEvents <? revision) then
        Err (Errorf CodeMalformed ("/externalReviews/" +:+ gate) "invalid reference counters" [])
      else external_reviews_loop r gates' (<[gate := ref]> out)
  end.

Definition ExternalReviewsFromValue (v : Value) : res (gmap string ExternalReviewRef) :=
  match v with
  | VObject o =>
      let n := Z.of_nat (length (Keys o)) in
      if (n <? 1) || (MaxExternalReviewGates <? n) then
        Err (Errorf CodeLimitExceeded "/externalReviews" "externalReviews must name 1..%d gates" [AInt MaxExternalReviewGates])
      else external_reviews_loop (NewReader v "/externalReviews") (Keys o) ∅
  | _ => Err (Errorf CodeMalformed "/externalReviews" "externalReviews must be an object" [])
  end.

(** ** The obligations reference *)

Definition countValue (n : Z) : Value := VString (CountOf n).

Definition ObligationCounts_Value (c : ObligationCounts) : Value :=
  noteObject [("witnessed", countValue (oc_Witnessed c)); ("total", countValue (oc_Total c));
              ("deferred", countValue (oc_Deferred c)); ("coreWitnessed", countValue (oc_CoreWitnessed c));
              ("coreTotal", countValue (oc_CoreTotal c))].

Definition readObligationCounts (r : Reader) : M ObligationCounts :=
  _ ← Closed r ["witnessed"; "total"; "deferred"; "coreWitnessed"; "coreTotal"];
  f ← Field r "witnessed"; witnessed ← Count f;
  f ← Field r "total"; total ← Count f;
  f ← Field r "deferred"; deferred ← Count f;
  f ← Field r "coreWitnessed"; coreWitnessed ← Count f;
  f ← Field r "coreTotal"; coreTotal ← Count f;
  mret {| oc_Witnessed := Count_Int witnessed; oc_Total := Count_Int total; oc_Deferred := Count_Int deferred;
          oc_CoreWitnessed := Count_Int coreWitnessed; oc_CoreTotal := Count_Int coreTotal |}.

Definition ObligationCounts_valid (c : ObligationCounts) : bool :=
  (oc_Witnessed c <=? oc_Total c) && (oc_CoreWitnessed c <=? oc_CoreTotal c) && (oc_CoreTotal c <=? oc_Total c) &&
  (oc_CoreWitnessed c <=? oc_Witnessed c) && (oc_Total c + oc_Deferred c <=? ObligationsMaxEntries).

Definition obligation_raise_value (x : option ObligationRaise) : Value :=
  match x with
  | Some x => noteObject [("attempt", VString (or_Attempt x)); ("generation", VString (or_Generation x));
                          ("acceptanceRevision", VString (or_AcceptanceRevision x))]
  | None => VNull
  end.

Definition ObligationsReference_Value (o : ObligationsReference) : Value :=
  noteObject [("prefix", VString (obl_Prefix o)); ("revision", VString (obl_Revision o)); ("head", VString (obl_Head o));
    ("counts", ObligationCounts_Value (obl_Counts o));
    ("highWater", noteObject [("acceptanceRevision", VString (hw_AcceptanceRevision (obl_HighWater o)));
                              ("witnessed", countValue (hw_Witnessed (obl_HighWater o)))]);
    ("lastRaise", obligation_raise_value (obl_LastRaise o))].

Definition readObligationPrefix (r : Reader) : M string :=
  s ← String_ r;
  e ← failed;
  if (e : bool) then mret ε
  else match ParseObligationPrefix (rwhere r) s with
  | Err err => _ ← Fail r (CodeOf (Some (EWire err))) "%v" [AMsg (EWire err)]; mret ε
  | _ => mret s
  end.

Definition read_high_water (hw : Reader) : M ObligationHighWater :=
  _ ← Closed hw ["acceptanceRevision"; "witnessed"];
  f ← Field hw "acceptanceRevision"; acc ← Count f;
  f ← Field hw "witnessed"; witnessed ← Count f;
  mret {| hw_AcceptanceRevision := acc; hw_Witnessed := Count_Int witnessed |}.

Definition read_last_raise (lr : Reader) : M (option ObligationRaise) :=
  if IsNull lr then mret None
  else
    _ ← Closed lr ["attempt"; "generation"; "acceptanceRevision"];
    f ← Field lr "attempt"; attempt ← Identifier f;
    f ← Field lr "generation"; generation ← Size f;
    f ← Field lr "acceptanceRevision"; acc ← Count f;
    mret (Some {| or_Attempt := attempt; or_Generation := generation; or_AcceptanceRevision := acc |}).

(** The first relation a well-typed reference breaks. *)
Definition check_obligations (r : Reader) (o : ObligationsReference) : M unit :=
  let revision := Count_Int (obl_Revision o) in
  if (revision <? 1) || (ObligationsMaxEvents <? revision) then
    Fail r CodeLimitExceeded "obligations revision must be 1..%d" [AInt ObligationsMaxEvents]
  else if negb (ObligationCounts_valid (obl_Counts o)) then
    f ← Field r "counts"; Fail f CodeMalformed "obligation counts are inconsistent" []
  else if (Count_Int (hw_AcceptanceRevision (obl_HighWater o)) <? 1) ||
          (ObligationsMaxEntries <? hw_Witnessed (obl_HighWater o)) then
    f ← Field r "highWater"; Fail f CodeMalformed "obligation high water is out of range" []
  else match obl_LastRaise o with
  | Some x =>
      if Count_Int (or_AcceptanceRevision x) <? 1 then
        f ← Field r "lastRaise"; Fail f CodeMalformed "lastRaise acceptance revision must be at least 1" []
      else mret tt
  | None => mret tt
  end.

(** [None] is the nil reference of a failed read. *)
Definition ReadObligationsReference (r : Reader) : M (option ObligationsReference) :=
  _ ← Closed r ["prefix"; "revision"; "head"; "counts"; "highWater"; "lastRaise"];
  f ← Field r "revision"; revision ← Count f;
  f ← Field r "head"; head ← Digest f;
  f ← Field r "counts"; counts ← readObligationCounts f;
  f ← Field r "prefix"; prefix ← readObligationPrefix f;
  hw ← Field r "highWater"; highWater ← read_high_water hw;
  lr ← Field r "lastRaise"; lastRaise ← read_last_raise lr;
  e ← failed;
  if (e : bool) then mret None
  else
    let o := {| obl_Prefix := prefix; obl_Revision := revision; obl_Head := head; obl_Counts := counts;
                obl_HighWater := highWater; obl_LastRaise := lastRaise |} in
    _ ← check_obligations r o;
    e ← failed;
    if (e : bool) then mret None else mret (Some o).

Definition validateObligations (rec : Record_) : option Error :=
  match rec_ObligationsRef rec with
  | None => None
  | Some o =>
      let acc := Count_Int (rec_AcceptanceRevision rec) in
      if negb (src_Kind (rec_Source rec) =s "NATIVE") || rec_ShadowOverlay rec then
        Some (Errorf CodeMalformed "/obligations" "only a NATIVE record carries an obligation ledger" [])
      else if (acc <? Count_Int (hw_AcceptanceRevision (obl_HighWater o))) ||
          match obl_LastRaise o with Some x => acc <? Count_Int (or_AcceptanceRevision x) | None => false end then
        Some (Errorf CodeMalformed "/obligations/highWater"
          "obligation marks cannot postdate the record's acceptance revision" [])
      else if (Count_Int (hw_AcceptanceRevision (obl_HighWater o)) =? acc) &&
          (hw_Witnessed (obl_HighWater o) <? oc_Witnessed (obl_Counts o)) then
        Some (Errorf CodeMalformed "/obligations/highWater" "high water is below the current witnessed count" [])
      else None
  end.
