(* ===== verification/Escalations.v ===== *)
(** * The escalation references of a ticket record

    [escalation.go] of [src/internal/tasks/ticket], the part that a record
    holds: the reference list, its bounds, its strict JSON codec and its checks
    against the record.

    The codec goes through [encoding/json]; what it does with the number-free
    values that occur is written out.  A struct is filled member by member: a
    null leaves a string field as it is, a string sets it, anything else and
    any unknown key fail.  [encoding/json] also takes a key that differs from a
    field's name in case; the canonical readback then fails whatever was
    decoded, so such a key is refused here at once, with another text. *)

From S2P Require Import Prelude Utf8 GoStd Codes Limits Value Primitives Ids Parse.
From S2P Require Import Reader Ticket Inventory Marks.
Local Open Scope Z_scope.
Local Open Scope go_scope.

Definition EscalationMaxEventBytes : Z := 65536.

(** [escalationError(message)] *)
Definition escalationError (message : string) : goerror := EText ("escalation: " +:+ message).

(** The error of a parser whose value is not used. *)
Definition parse_error {A} (x : res A) : option goerror := match x with Err e => Some (EWire e) | _ => None end.

Definition escalationID (s : string) : option goerror := parse_error (ParseIdentifier "/escalation" s).

Definition escalationPositive (c : string) : option goerror :=
  match parse_error (ParseCount "/escalation" c) with
  | Some e => Some e
  | None => if Count_Int c <? 1 then Some (escalationError "positive revision required") else None
  end.

Definition escalationDigest (d : string) : option goerror := parse_error (ParseDigest "/escalation" d).

Definition escalationKind (k : string) : bool :=
  (k =s "decision") || (k =s "infrastructure") || (k =s "scope") || (k =s "blocked").

(** The first error of a list of checks. *)
Fixpoint first_failure (checks : list (option goerror)) : option goerror :=
  match checks with
  | [] => None
  | Some e :: _ => Some e
  | None :: checks' => first_failure checks'
  end.

Definition refuse (bad : bool) (message : string) : option goerror :=
  if bad then Some (escalationError message) else None.

(** The checks of one entry; [prev] is the request id of the one before. *)
Definition entry_checks (prev : option string) (e : EscalationRef) : list (option goerror) :=
  [ escalationID (esc_RequestID e);
    refuse (match prev with Some p => negb (p <s esc_RequestID e) | None => false end) "unsorted/duplicate requests";
    escalationDigest (esc_OriginSha256 e); escalationDigest (esc_HeadSha256 e);
    escalationPositive (esc_Revision e);
    refuse (64 <? Count_Int (esc_Revision e)) "request history cap";
    escalationPositive (esc_AcceptanceRevision e);
    refuse (negb (escalationKind (esc_Kind e))) "reference kind";
    refuse (negb ((esc_State e =s "OPEN") || (esc_State e =s "ANSWERED") || (esc_State e =s "SUPERSEDED")))
      "reference lifecycle" ].

(** The loop over the entries: the events counted, or the first error. *)
Fixpoint entries_total (prev : option string) (total : Z) (entries : list EscalationRef) : outcome goerror Z :=
  match entries with
  | [] => Ok total
  | e :: entries' =>
      match first_failure (entry_checks prev e) with
      | Some err => Err err
      | None => entries_total (Some (esc_RequestID e)) (total + Count_Int (esc_Revision e)) entries'
      end
  end.

(** [r.Validate()] *)
Definition EscalationRefs_Validate (r : EscalationRefs) : option goerror :=
  match first_failure [escalationPositive (escs_Revision r); escalationPositive (escs_LastControlTicketRevision r);
                       escalationPositive (escs_WorkRevision r)] with
  | Some e => Some e
  | None =>
      let n := Z.of_nat (length (escs_Entries r)) in
      if Count_Int (escs_LastControlTicketRevision r) <=? Count_Int (escs_WorkRevision r) then
        Some (escalationError "work/control revision")
      else if (n <? 1) || (64 <? n) then Some (escalationError "request count")
      else match entries_total None 0 (escs_Entries r) with
      | Err e => Some e
      | Ok total =>
          let revision := Count_Int (escs_Revision r) in
          if (4096 <? total) || (total <? revision) || (2 * revision <? total) then
            Some (escalationError "event/transaction capacity")
          else None
      | OutOfFuel => None
      end
  end.

(** ** The codec *)

Definition escalation_ref_value (e : EscalationRef) : Value :=
  let o := Set_ NewObject "requestId" (VString (esc_RequestID e)) in
  let o := Set_ o "originSha256" (VString (esc_OriginSha256 e)) in
  let o := Set_ o "headSha256" (VString (esc_HeadSha256 e)) in
  let o := Set_ o "revision" (VString (esc_Revision e)) in
  let o := Set_ o "acceptanceRevision" (VString (esc_AcceptanceRevision e)) in
  let o := Set_ o "kind" (VString (esc_Kind e)) in
  VObject (Set_ o "state" (VString (esc_State e))).

Definition escalationRefsValue (r : EscalationRefs) : Value :=
  let o := Set_ NewObject "revision" (VString (escs_Revision r)) in
  let o := Set_ o "lastControlTicketRevision" (VString (escs_LastControlTicketRevision r)) in
  let o := Set_ o "workRevision" (VString (escs_WorkRevision r)) in
  VObject (Set_ o "entries" (VArray (escalation_ref_value <$> escs_Entries r))).

(** What [json.Marshal] and [escalationWireValue] make of the struct; a nil
    slice is written as null. *)
Definition escalation_wire (r : EscalationRefs) (nil_entries : bool) : Value :=
  match escalationRefsValue r with
  | VObject o => VObject (if nil_entries then Set_ o "entries" VNull else o)
  | v => v
  end.

Definition escalationEncode (v : Value) : outcome goerror string :=
  let out := EncodeFile v in
  match Parse out with
  | Err e => Err (EWire e)
  | OutOfFuel => OutOfFuel
  | Ok _ => if EscalationMaxEventBytes <? slen out then Err (escalationError "encoded record cap") else Ok out
  end.

(** A string field with the value [cur], decoded from [v]. *)
Definition json_string (cur : string) (v : Value) : option string :=
  match v with VNull => Some cur | VString s => Some s | _ => None end.

Definition json_ref_member (e : EscalationRef) (kv : string * Value) : option EscalationRef :=
  let '(k, v) := kv in
  if k =s "requestId" then s ← json_string (esc_RequestID e) v;
    Some (Build_EscalationRef s (esc_OriginSha256 e) (esc_HeadSha256 e) (esc_Revision e) (esc_AcceptanceRevision e) (esc_Kind e) (esc_State e))
  else if k =s "originSha256" then s ← json_string (esc_OriginSha256 e) v;
    Some (Build_EscalationRef (esc_RequestID e) s (esc_HeadSha256 e) (esc_Revision e) (esc_AcceptanceRevision e) (esc_Kind e) (esc_State e))
  else if k =s "headSha256" then s ← json_string (esc_HeadSha256 e) v;
    Some (Build_EscalationRef (esc_RequestID e) (esc_OriginSha256 e) s (esc_Revision e) (esc_AcceptanceRevision e) (esc_Kind e) (esc_State e))
  else if k =s "revision" then s ← json_string (esc_Revision e) v;
    Some (Build_EscalationRef (esc_RequestID e) (esc_OriginSha256 e) (esc_HeadSha256 e) s (esc_AcceptanceRevision e) (esc_Kind e) (esc_State e))
  else if k =s "acceptanceRevision" then s ← json_string (esc_AcceptanceRevision e) v;
    Some (Build_EscalationRef (esc_RequestID e) (esc_OriginSha256 e) (esc_HeadSha256 e) (esc_Revision e) s (esc_Kind e) (esc_State e))
  else if k =s "kind" then s ← json_string (esc_Kind e) v;
    Some (Build_EscalationRef (esc_RequestID e) (esc_OriginSha256 e) (esc_HeadSha256 e) (esc_Revision e) (esc_AcceptanceRevision e) s (esc_State e))
  else if k =s "state" then s ← json_string (esc_State e) v;
    Some (Build_EscalationRef (esc_RequestID e) (esc_OriginSha256 e) (esc_HeadSha256 e) (esc_Revision e) (esc_AcceptanceRevision e) (esc_Kind e) s)
  else None.

(** Filling a struct from the members of an object, in their order. *)
Fixpoint json_members {A} (member : A → string * Value → option A) (a : A) (o : Object) : option A :=
  match o with
  | [] => Some a
  | kv :: o' => a ← member a kv; json_members member a o'
  end.

(** A null leaves the struct as it is. *)
Definition json_struct {A} (member : A → string * Value → option A) (a : A) (v : Value) : option A :=
  match v with VNull => Some a | VObject o => json_members member a o | _ => None end.

Definition zero_ref : EscalationRef := Build_EscalationRef ε ε ε ε ε ε ε.

Definition json_refs_member (rn : EscalationRefs * bool) (kv : string * Value) : option (EscalationRefs * bool) :=
  let '(r, n) := rn in
  let '(k, v) := kv in
  if k =s "revision" then s ← json_string (escs_Revision r) v;
    Some (Build_EscalationRefs s (escs_LastControlTicketRevision r) (escs_WorkRevision r) (escs_Entries r), n)
  else if k =s "lastControlTicketRevision" then s ← json_string (escs_LastControlTicketRevision r) v;
    Some (Build_EscalationRefs (escs_Revision r) s (escs_WorkRevision r) (escs_Entries r), n)
  else if k =s "workRevision" then s ← json_string (escs_WorkRevision r) v;
    Some (Build_EscalationRefs (escs_Revision r) (escs_LastControlTicketRevision r) s (escs_Entries r), n)
  else if k =s "entries" then
    match v with
    | VNull => Some (Build_EscalationRefs (escs_Revision r) (escs_LastControlTicketRevision r) (escs_WorkRevision r) [], true)
    | VArray vs =>
        es ← mapM (json_struct json_ref_member zero_ref) vs;
        Some (Build_EscalationRefs (escs_Revision r) (escs_LastControlTicketRevision r) (escs_WorkRevision r) es, false)
    | _ => None
    end
  else None.

(** [escalationDecode(raw, &refs)], with whether the slice is left nil. *)
Definition escalationDecode (raw : string) : outcome goerror EscalationRefs :=
  if EscalationMaxEventBytes <? slen raw then Err (escalationError "encoded record cap")
  else match Parse raw with
  | Err e => Err (EWire e)
  | OutOfFuel => OutOfFuel
  | Ok v =>
      match json_struct json_refs_member (Build_EscalationRefs ε ε ε [], true) v with
      | None => Err (EText "json: cannot unmarshal")
      | Some (r, n) =>
          let* canonical := escalationEncode (escalation_wire r n) in
          if negb (raw =s canonical) then Err (escalationError "noncanonical or missing fields") else Ok r
      end
  end.

Definition DecodeEscalationRefs (b : string) : outcome goerror EscalationRefs :=
  let* r := escalationDecode b in
  match EscalationRefs_Validate r with Some e => Err e | None => Ok r end.

Definition EncodeEscalationRefs (r : EscalationRefs) : outcome goerror string :=
  match EscalationRefs_Validate r with
  | Some e => Err e
  | None => escalationEncode (escalation_wire r false)
  end.

(** ** The reference and its record *)

Fixpoint escalations_open (rec : Record_) (i open_ : Z) (entries : list EscalationRef) : res Z :=
  match entries with
  | [] => Ok open_
  | e :: entries' =>
      if Count_Int (rec_AcceptanceRevision rec) <? Count_Int (esc_AcceptanceRevision e) then
        Err (Errorf CodeMalformed ("/escalations/entries/" +:+ idx i +:+ "/acceptanceRevision")
          "question acceptance revision %s exceeds record acceptance revision %s"
          [AStr (esc_AcceptanceRevision e); AStr (rec_AcceptanceRevision rec)])
      else
        let current := (esc_State e =s "OPEN") && (esc_AcceptanceRevision e =s rec_AcceptanceRevision rec) in
        escalations_open rec (i + 1) (if current then open_ + 1 else open_) entries'
  end.

(** [rec.validateEscalations()], called when the record has references. *)
Definition validateEscalations (rec : Record_) (r : EscalationRefs) : option Error :=
  if Count_Int (rec_Revision rec) <? Count_Int (escs_LastControlTicketRevision r) then
    Some (Errorf CodeMalformed "/escalations/lastControlTicketRevision" "control revision %s exceeds record revision %s"
      [AStr (escs_LastControlTicketRevision r); AStr (rec_Revision rec)])
  else match escalations_open rec 0 0 (escs_Entries r) with
  | Err e => Some e
  | OutOfFuel => None
  | Ok open_ =>
      if EscalationMaxCurrentOpen <? open_ then
        Some (Errorf CodeMalformed "/escalations/entries" "%d OPEN questions at the current acceptance revision exceed %d"
          [AInt open_; AInt EscalationMaxCurrentOpen])
      else None
  end.
