(* ===== verification/RecordCodec.v ===== *)
(** * Decoding and encoding ticket records

    [record.go] of [src/internal/tasks/ticket]: [Decode], [FromValue],
    [validate], [Value] and [Encode].  [FromValue] reads the members in the
    order of the source, a group of them per definition here.

    The last check of [validate] ranges over a map of two entries; [ord] says
    which of them Go visits first. *)

From S2P Require Import Prelude Utf8 GoStd Codes Limits Value Primitives Ids Parse.
From S2P Require Import Reader Ticket Inventory Marks KnowHow RecordParts Escalations.
Local Open Scope Z_scope.
Local Open Scope go_scope.

(** ** Reading the parts *)

Definition read_dependency (d : Reader) : M Dependency :=
  _ ← Closed d ["ticketId"; "obligation"; "gateId"];
  f ← Field d "ticketId"; id ← Reader_TicketID f;
  f ← Field d "obligation"; obligation ← Enum f Obligations;
  f ← Field d "gateId"; gate ← LabelOrNull f;
  mret {| dep_TicketID := id; dep_Obligation := obligation; dep_GateID := gate |}.

Definition read_source (src : Reader) : M Source :=
  _ ← Closed src ["kind"; "sourceQueueId"; "sourceItemId"; "sourceRevisionSha256"];
  f ← Field src "kind"; kind ← Enum f SourceKinds;
  f ← Field src "sourceQueueId"; queue ← Identifier f;
  f ← Field src "sourceItemId"; item ← Reader_StringOrNull Identifier f;
  f ← Field src "sourceRevisionSha256"; revision ← DigestOrNull f;
  mret {| src_Kind := kind; src_SourceQueueID := queue; src_SourceItemID := item; src_SourceRevisionSha256 := revision |}.

Definition check_resource_path (rs : Reader) (class key : string) : M unit :=
  e ← failed;
  if (class =s "PATH") && negb (e : bool) then
    f ← Field rs "key";
    match ParsePath (rwhere f) key with
    | Err err => f ← Field rs "key"; Fail f (CodeOf (Some (EWire err))) "PATH resource key: %v" [AMsg (EWire err)]
    | _ => mret tt
    end
  else mret tt.

Definition read_resource (rs : Reader) : M Resource :=
  _ ← Closed rs ["class"; "key"];
  f ← Field rs "class"; class ← Enum f ResourceClasses;
  f ← Field rs "key"; key ← Identifier f;
  _ ← check_resource_path rs class key;
  mret {| res_Class := class; res_Key := key |}.

Definition read_effects (ef : Reader) : M Effects :=
  _ ← Closed ef (OptionalKeys (rv ef) TicketEffectsKeys TicketEffectsOptionalKeys);
  f ← Field ef "coverage"; coverage ← Enum f Coverages;
  f ← Field ef "touchPaths"; touch ← Reader_Strings f MaxTouchPaths false Path;
  f ← Field ef "resources"; items ← Array_ f MaxResources false; resources ← each read_resource items;
  f ← Field ef "externalUnbounded"; unbounded ← Bool_ f;
  verdict ← ReadVerdictPaths ef touch;
  mret {| eff_Coverage := coverage; eff_TouchPaths := touch; eff_Resources := resources;
          eff_ExternalUnbounded := unbounded; eff_VerdictPaths := verdict |}.

Definition holdKeys : list string := ["holdId"; "actor"; "reason"; "placedAt"].

Definition read_hold (h : Reader) : M Hold :=
  _ ← Closed h (OptionalKeys (rv h) holdKeys ["condition"]);
  f ← Field h "holdId"; id ← Label f;
  f ← Field h "actor"; actor ← Label f;
  f ← Field h "reason"; reason ← Prose f 0 MaxProseBytes;
  f ← Field h "placedAt"; at_ ← Timestamp f;
  condition ← (if Has (rv h) "condition" then f ← Field h "condition"; c ← ReadHoldCondition f; mret (Some c) else mret None);
  mret {| hold_HoldID := id; hold_Actor := actor; hold_Reason := reason; hold_PlacedAt := at_; hold_Condition := condition |}.

Definition read_approval (a : Reader) : M Approval :=
  _ ← Closed a ["grantId"; "actor"; "operation"; "targetRevision"; "scope"; "revoked"; "grantedAt"];
  f ← Field a "grantId"; id ← Label f;
  f ← Field a "actor"; actor ← Label f;
  f ← Field a "operation"; operation ← Enum f ApprovalOps;
  f ← Field a "targetRevision"; target ← Count f;
  f ← Field a "scope"; scope ← Reader_Strings f (-1) false Identifier;
  f ← Field a "revoked"; revoked ← Bool_ f;
  f ← Field a "grantedAt"; at_ ← Timestamp f;
  mret {| apr_GrantID := id; apr_Actor := actor; apr_Operation := operation; apr_TargetRevision := target;
          apr_Scope := scope; apr_Revoked := revoked; apr_GrantedAt := at_ |}.

Definition read_completion (cp : Reader) : M (option Completion) :=
  if IsNull cp then mret None
  else
    _ ← Closed cp ["kind"; "actor"; "reason"; "evidence"; "manifestSha256"; "recordedAt"];
    f ← Field cp "kind"; kind ← Enum f CompletionKinds;
    f ← Field cp "actor"; actor ← Label f;
    f ← Field cp "reason"; reason ← ProseOrNull MaxProseBytes f;
    f ← Field cp "evidence"; items ← Array_ f (-1) false; evidence ← each Digest items;
    f ← Field cp "manifestSha256"; manifest ← DigestOrNull f;
    f ← Field cp "recordedAt"; at_ ← Timestamp f;
    mret (Some {| cmp_Kind := kind; cmp_Actor := actor; cmp_Reason := reason; cmp_Evidence := evidence;
                  cmp_ManifestSha256 := manifest; cmp_RecordedAt := at_ |}).

(** A member read by [m] unless it is null; it stands even if [m] fails. *)
Definition unless_null {A} (m : Reader → M A) (f : Reader) : M (option A) :=
  if IsNull f then mret None else a ← m f; mret (Some a).

Definition read_priority (pr : Reader) : M string :=
  ps ← String_ pr;
  e ← failed;
  _ ← (if negb (e : bool) && negb (existsb (λ p, p =s ps) Priorities)
       then Fail pr CodeInvalidPriority "priority %q not in {P0|P1|P2|P3}" [AStr ps] else mret tt);
  mret ps.

Definition read_due (dd : Reader) : M string :=
  s ← String_ dd;
  e ← failed;
  _ ← (if (e : bool) then mret tt
       else match ParseDate (rwhere dd) s with
       | Err err => Fail dd CodeMalformed "%v" [AMsg (EWire err)]
       | _ => mret tt
       end);
  mret s.

(** The member [key] read by [m] if it is present. *)
Definition optional_member {A} (absent : A) (r : Reader) (key : string) (m : Reader → M A) : M A :=
  if Has (rv r) key then f ← Field r key; m f else mret absent.

(** ** The members of a record, a group at a time *)

Record optional_part := {
  op_RequiredRoles : option (gmap string (list string));
  op_ExecutionPrerequisites : list Prerequisite;
  op_AttachedEvidence : list AttachedEvidence;
  op_Progress : list Progress;
  op_KnowHow : list KnowHowEntry;
  op_ObligationsRef : option ObligationsReference
}.

Definition read_optional (r : Reader) : M optional_part :=
  roles ← optional_member None r "requiredRoles" (λ f, m ← ReadStageRoles f; mret (Some m));
  prerequisites ← optional_member [] r "executionPrerequisites" ReadPrerequisites;
  evidence ← optional_member [] r "attachedEvidence" ReadAttachedEvidence;
  progress ← optional_member [] r "progress" ReadProgress;
  knowHow ← optional_member [] r "knowHow" ReadKnowHow;
  obligations ← optional_member None r "obligations" ReadObligationsReference;
  mret {| op_RequiredRoles := roles; op_ExecutionPrerequisites := prerequisites; op_AttachedEvidence := evidence;
          op_Progress := progress; op_KnowHow := knowHow; op_ObligationsRef := obligations |}.

Record head_part := {
  hp_TicketID : TicketID;
  hp_Revision : string;
  hp_AcceptanceRevision : string;
  hp_PreviousRecordSha256 : option string;
  hp_Status : string;
  hp_ArchivedFrom : option string;
  hp_Title : string;
  hp_Body : option string;
  hp_Kind : string;
  hp_RequiresPool : string
}.

Definition read_head (r : Reader) : M head_part :=
  f ← Field r "ticketId"; id ← Reader_TicketID f;
  f ← Field r "revision"; revision ← Count f;
  f ← Field r "acceptanceRevision"; acceptance ← Count f;
  f ← Field r "previousRecordSha256"; previous ← DigestOrNull f;
  f ← Field r "status"; status ← Enum f Statuses;
  af ← Field r "archivedFrom"; archived ← unless_null (λ f, Enum f ArchivedFroms) af;
  f ← Field r "title"; title ← Prose f 1 MaxTitleBytes;
  f ← Field r "body"; body ← ProseOrNull MaxBodyBytes f;
  f ← Field r "kind"; kind ← Enum f Kinds;
  pool ← optional_member ε r "requiresPool" Label;
  mret {| hp_TicketID := id; hp_Revision := revision; hp_AcceptanceRevision := acceptance;
          hp_PreviousRecordSha256 := previous; hp_Status := status; hp_ArchivedFrom := archived; hp_Title := title;
          hp_Body := body; hp_Kind := kind; hp_RequiresPool := pool |}.

Record plan_part := {
  pp_Owner : option string;
  pp_Milestone : option string;
  pp_Priority : string;
  pp_Order : string;
  pp_Labels : list string;
  pp_Dependencies : list Dependency;
  pp_AcceptanceCriteria : list string;
  pp_RequirementRefs : list string;
  pp_Source : Source;
  pp_Effects : Effects;
  pp_Capabilities : list string;
  pp_RequiredGates : list string
}.

Definition read_plan (r : Reader) : M plan_part :=
  f ← Field r "owner"; owner ← LabelOrNull f;
  f ← Field r "milestone"; milestone ← LabelOrNull f;
  pr ← Field r "priority"; priority ← read_priority pr;
  f ← Field r "order"; order ← Count f;
  f ← Field r "labels"; labels ← Reader_Strings f MaxLabels false Label;
  f ← Field r "dependencies"; items ← Array_ f MaxDependencies true; dependencies ← each read_dependency items;
  f ← Field r "acceptanceCriteria";
  criteria ← Reader_Strings f MaxAcceptanceCriteria true (λ c, Prose c 0 MaxCriterionBytes);
  f ← Field r "requirementRefs"; refs ← Reader_Strings f MaxRequirementRefs false Identifier;
  f ← Field r "source"; source ← read_source f;
  f ← Field r "effects"; effects ← read_effects f;
  f ← Field r "capabilities"; capabilities ← Reader_Strings f MaxCapabilities false Identifier;
  f ← Field r "requiredGates"; gates ← Reader_Strings f MaxRequiredGates false Label;
  mret {| pp_Owner := owner; pp_Milestone := milestone; pp_Priority := priority; pp_Order := order; pp_Labels := labels;
          pp_Dependencies := dependencies; pp_AcceptanceCriteria := criteria; pp_RequirementRefs := refs;
          pp_Source := source; pp_Effects := effects; pp_Capabilities := capabilities; pp_RequiredGates := gates |}.

Record state_part := {
  sp_Holds : list Hold;
  sp_ExecutionClass : string;
  sp_Approvals : list Approval;
  sp_Completion : option Completion;
  sp_DueDate : option string;
  sp_EstimateMinutes : option string;
  sp_Supersedes : option TicketID;
  sp_SupersededBy : option TicketID;
  sp_ShadowOverlay : bool;
  sp_CreatedAt : string;
  sp_UpdatedAt : string;
  sp_UpdatedBy : string
}.

Definition read_state (r : Reader) : M state_part :=
  f ← Field r "holds"; items ← Array_ f MaxHolds true; holds ← each read_hold items;
  f ← Field r "executionClass"; class ← Enum f ExecutionClasses;
  f ← Field r "approvals"; items ← Array_ f MaxApprovals true; approvals ← each read_approval items;
  cp ← Field r "completion"; completion ← read_completion cp;
  dd ← Field r "dueDate"; due ← unless_null read_due dd;
  f ← Field r "estimateMinutes"; estimate ← CountOrNull f;
  sp ← Field r "supersedes"; supersedes ← unless_null Reader_TicketID sp;
  sb ← Field r "supersededBy"; supersededBy ← unless_null Reader_TicketID sb;
  f ← Field r "shadowOverlay"; shadow ← Bool_ f;
  f ← Field r "createdAt"; created ← Timestamp f;
  f ← Field r "updatedAt"; updated ← Timestamp f;
  f ← Field r "updatedBy"; by_ ← Label f;
  mret {| sp_Holds := holds; sp_ExecutionClass := class; sp_Approvals := approvals; sp_Completion := completion;
          sp_DueDate := due; sp_EstimateMinutes := estimate; sp_Supersedes := supersedes; sp_SupersededBy := supersededBy;
          sp_ShadowOverlay := shadow; sp_CreatedAt := created; sp_UpdatedAt := updated; sp_UpdatedBy := by_ |}.

(** The record of the parts read. *)
Definition assemble (note : option OperatorNoteReference) (reviews : gmap string ExternalReviewRef)
    (op : optional_part) (hp : head_part) (pp : plan_part) (sp : state_part) (escalations : option EscalationRefs) : Record_ :=
  {| rec_RequiredRoles := op_RequiredRoles op; rec_RequiresPool := hp_RequiresPool hp; rec_Escalations := escalations;
     rec_TicketID := hp_TicketID hp; rec_Revision := hp_Revision hp; rec_AcceptanceRevision := hp_AcceptanceRevision hp;
     rec_PreviousRecordSha256 := hp_PreviousRecordSha256 hp; rec_Status := hp_Status hp;
     rec_ArchivedFrom := hp_ArchivedFrom hp; rec_Title := hp_Title hp; rec_Body := hp_Body hp; rec_Kind := hp_Kind hp;
     rec_Owner := pp_Owner pp; rec_Milestone := pp_Milestone pp; rec_Priority := pp_Priority pp; rec_Order := pp_Order pp;
     rec_Labels := pp_Labels pp; rec_Dependencies := pp_Dependencies pp; rec_AcceptanceCriteria := pp_AcceptanceCriteria pp;
     rec_RequirementRefs := pp_RequirementRefs pp; rec_Source := pp_Source pp; rec_Effects := pp_Effects pp;
     rec_Capabilities := pp_Capabilities pp; rec_RequiredGates := pp_RequiredGates pp; rec_Holds := sp_Holds sp;
     rec_ExecutionClass := sp_ExecutionClass sp; rec_Approvals := sp_Approvals sp; rec_Completion := sp_Completion sp;
     rec_DueDate := sp_DueDate sp; rec_EstimateMinutes := sp_EstimateMinutes sp; rec_Supersedes := sp_Supersedes sp;
     rec_SupersededBy := sp_SupersededBy sp; rec_ShadowOverlay := sp_ShadowOverlay sp; rec_CreatedAt := sp_CreatedAt sp;
     rec_UpdatedAt := sp_UpdatedAt sp; rec_UpdatedBy := sp_UpdatedBy sp; rec_OperatorNote := note;
     rec_ExternalReviews := reviews; rec_ExecutionPrerequisites := op_ExecutionPrerequisites op;
     rec_AttachedEvidence := op_AttachedEvidence op; rec_Progress := op_Progress op; rec_KnowHow := op_KnowHow op;
     rec_ObligationsRef := op_ObligationsRef op |}.

Definition read_record (r : Reader) : M (optional_part * head_part * plan_part * state_part) :=
  op ← read_optional r;
  hp ← read_head r;
  pp ← read_plan r;
  sp ← read_state r;
  mret (op, hp, pp, sp).

(** ** Validation *)

Fixpoint validateDependencies (own : TicketID) (seen : list string) (i : Z) (ds : list Dependency) : option Error :=
  match ds with
  | [] => None
  | d :: ds' =>
      let where_ := "/dependencies/" +:+ idx i in
      if negb (Bool.eqb (dep_Obligation d =s "GATE_PASSED") (bool_decide (is_Some (dep_GateID d)))) then
        Some (Errorf CodeMalformed (where_ +:+ "/gateId") "gateId is non-null iff obligation is GATE_PASSED" [])
      else if negb (TicketID_QueueID (dep_TicketID d) =s TicketID_QueueID own) then
        Some (Errorf CodeDependencyMissing (where_ +:+ "/ticketId") "dependency %s is outside queue %s"
          [AStr (TicketID_Raw (dep_TicketID d)); AStr (TicketID_QueueID own)])
      else if TicketID_Raw (dep_TicketID d) =s TicketID_Raw own then
        Some (Errorf CodeCycle (where_ +:+ "/ticketId") "ticket depends on itself" [])
      else
        let key := edge_key (dep_TicketID d) (dep_Obligation d) (dep_GateID d) in
        if existsb (String.eqb key) seen then Some (Errorf CodeDuplicateID where_ "duplicate dependency edge" [])
        else validateDependencies own (key :: seen) (i + 1) ds'
  end.

(** The first id seen before, reported at [/dir/i/field]. *)
Fixpoint unique_ids (dir field format : string) (seen : list string) (i : Z) (ids : list string) : option Error :=
  match ids with
  | [] => None
  | id :: ids' =>
      if existsb (String.eqb id) seen then
        Some (Errorf CodeDuplicateID (dir +:+ idx i +:+ field) format [AStr id])
      else unique_ids dir field format (id :: seen) (i + 1) ids'
  end.

Definition check_supersession (rec : Record_) (name : string) (ref : option TicketID) : option Error :=
  match ref with
  | None => None
  | Some ref =>
      if TicketID_Raw ref =s TicketID_Raw (rec_TicketID rec) then
        Some (Errorf CodeMalformed ("/" +:+ name) "a ticket cannot supersede itself" [])
      else if negb (TicketID_QueueID ref =s TicketID_QueueID (rec_TicketID rec)) then
        Some (Errorf CodeMalformed ("/" +:+ name) "%s is outside queue %s"
          [AStr (TicketID_Raw ref); AStr (TicketID_QueueID (rec_TicketID rec))])
      else None
  end.

(** [if cond { return Errorf(...) }] *)
Definition reject (bad : bool) (e : Error) : option Error := if bad then Some e else None.

Fixpoint first_error_of (checks : list (option Error)) : option Error :=
  match checks with
  | [] => None
  | Some e :: _ => Some e
  | None :: checks' => first_error_of checks'
  end.

Definition some {A} (x : option A) : bool := bool_decide (is_Some x).

Definition completion_checks (c : option Completion) : list (option Error) :=
  match c with
  | None => []
  | Some c =>
      [ reject ((cmp_Kind c =s "MANUAL") && some (cmp_ManifestSha256 c))
          (Errorf CodeMalformed "/completion/manifestSha256" "MANUAL completion never carries a manifest" []);
        reject ((cmp_Kind c =s "VERIFIED") && negb (some (cmp_ManifestSha256 c)))
          (Errorf CodeMalformed "/completion/manifestSha256" "VERIFIED completion must name its manifest" []) ]
  end.

(** The checks before the dependency loop. *)
Definition status_checks (rec : Record_) : list (option Error) :=
  let revision := rec_Revision rec in
  let acceptance := rec_AcceptanceRevision rec in
  let effective := EffectiveStatus rec in
  [ reject (Count_Int revision <? 1) (Errorf CodeMalformed "/revision" "revision starts at 1" []);
    reject (Count_Int acceptance <? 1)
      (Errorf CodeMalformed "/acceptanceRevision" "acceptanceRevision starts at 1" []);
    reject (Count_Int revision <? Count_Int acceptance)
      (Errorf CodeMalformed "/acceptanceRevision" "acceptanceRevision %s exceeds revision %s" [AStr acceptance; AStr revision]);
    reject ((revision =s "1") && some (rec_PreviousRecordSha256 rec))
      (Errorf CodeMalformed "/previousRecordSha256" "must be null at revision 1" []);
    reject (negb (revision =s "1") && negb (some (rec_PreviousRecordSha256 rec)))
      (Errorf CodeMalformed "/previousRecordSha256" "must chain to the prior record after revision 1" []);
    reject (negb (Bool.eqb (rec_Status rec =s StatusArchived) (some (rec_ArchivedFrom rec))))
      (Errorf CodeMalformed "/archivedFrom" "archivedFrom is non-null iff status is ARCHIVED" []);
    reject (negb (Bool.eqb (effective =s StatusHeld) (0 <? length (rec_Holds rec))%nat))
      (Errorf CodeMalformed "/holds" "status HELD iff holds is non-empty (effective status %s, %d holds)"
        [AStr effective; AInt (Z.of_nat (length (rec_Holds rec)))]);
    reject ((effective =s StatusCompleted) && negb (some (rec_Completion rec)))
      (Errorf CodeMalformed "/completion" "status COMPLETED requires a completion record" []);
    reject (negb (effective =s StatusCompleted) && some (rec_Completion rec))
      (Errorf CodeMalformed "/completion" "completion is non-null only while the effective status is COMPLETED (is %s)"
        [AStr effective]) ] ++
  completion_checks (rec_Completion rec).

(** The checks after the optional members. *)
Definition source_checks (rec : Record_) : list (option Error) :=
  let src := rec_Source rec in
  [ reject ((src_Kind src =s "IMPORT") && negb (some (src_SourceItemID src)))
      (Errorf CodeMalformed "/source/sourceItemId" "IMPORT source must name sourceItemId" []);
    reject ((src_Kind src =s "NATIVE") && (some (src_SourceItemID src) || some (src_SourceRevisionSha256 src)))
      (Errorf CodeMalformed "/source" "NATIVE source carries no sourceItemId or sourceRevisionSha256" []);
    reject (rec_ShadowOverlay rec && negb (src_Kind src =s "IMPORT"))
      (Errorf CodeMalformed "/shadowOverlay" "shadowOverlay is true only for source.kind IMPORT" []) ].

Definition validate (ord : bool) (rec : Record_) : option Error :=
  let supersedes := check_supersession rec "supersedes" (rec_Supersedes rec) in
  let supersededBy := check_supersession rec "supersededBy" (rec_SupersededBy rec) in
  first_error_of
    (status_checks rec ++
     [ validateDependencies (rec_TicketID rec) [] 0 (rec_Dependencies rec); validatePrerequisites rec;
       validateAttachedEvidence rec; validateKnowHow rec; validateObligations rec ] ++
     source_checks rec ++
     [ unique_ids "/holds/" "/holdId" "duplicate holdId %q" [] 0 (hold_HoldID <$> rec_Holds rec);
       unique_ids "/approvals/" "/grantId" "duplicate grantId %q" [] 0 (apr_GrantID <$> rec_Approvals rec);
       match rec_Escalations rec with Some r => validateEscalations rec r | None => None end ] ++
     if ord then [supersedes; supersededBy] else [supersededBy; supersedes]).

(** ** [FromValue] and [Decode] *)

(** [r.Field(key).Value()] of a member that is present. *)
Definition member_value (r : Reader) (key : string) (st : readerState) : Value := rv (Field r key st).1.

Definition read_operator_note (r : Reader) (v : Value) (st : readerState) : res (option OperatorNoteReference) :=
  if Has v "operatorNote" then
    let* note := OperatorNoteReferenceFromValue (member_value r "operatorNote" st) in Ok (Some note)
  else Ok None.

Definition read_external_reviews (r : Reader) (v : Value) (st : readerState) : res (gmap string ExternalReviewRef) :=
  if Has v "externalReviews" then ExternalReviewsFromValue (member_value r "externalReviews" st) else Ok ∅.

Definition read_escalations (v : Value) : res (option EscalationRefs) :=
  match v with
  | VObject o =>
      match Get o "escalations" with
      | Some f =>
          match DecodeEscalationRefs (EncodeFile f) with
          | Ok refs => Ok (Some refs)
          | Err err => Err (Errorf CodeMalformed "/escalations" "%v" [AMsg err])
          | OutOfFuel => OutOfFuel
          end
      | None => Ok None
      end
  | _ => Ok None
  end.

Definition FromValue (ord : bool) (v : Value) : res Record_ :=
  let r := NewReader v "/" in
  match ProfileVersion "/profile" v Ticket.Profile with
  | Some e => Err e
  | None =>
      let* _ := run (Closed r (OptionalKeys v TicketRecordKeys TicketRecordOptionalKeys)) st0 in
      let '(profile, st) := (f ← Field r "profile"; String_ f) st0 in
      match CheckProfile "/profile" profile Ticket.Profile with
      | Some e => Err e
      | None =>
          let* note := read_operator_note r v st in
          let* reviews := read_external_reviews r v st in
          let* parts := run (read_record r) st in
          let '(op, hp, pp, sp) := parts in
          let* escalations := read_escalations v in
          let rec := assemble note reviews op hp pp sp escalations in
          match validate ord rec with Some e => Err e | None => Ok rec end
      end
  end.

Definition Decode (ord : bool) (data : string) : res Record_ :=
  if MaxTicketFileBytes <? slen data then
    Err (Errorf CodeLimitExceeded "/" "ticket record file larger than %d bytes" [AInt MaxTicketFileBytes])
  else
    let* v := Parse data in
    FromValue ord v.

(** ** [Value] and [Encode] *)

Definition digestOrNull (d : option string) : Value := match d with None => VNull | Some d => VString d end.

Definition ticketOrNull (t : option TicketID) : Value := match t with None => VNull | Some t => VString (TicketID_Raw t) end.

Definition dependency_value (d : Dependency) : Value :=
  let o := Set_ NewObject "ticketId" (VString (TicketID_Raw (dep_TicketID d))) in
  let o := Set_ o "obligation" (VString (dep_Obligation d)) in
  VObject (Set_ o "gateId" (StringOrNull (dep_GateID d))).

Definition source_value (src : Source) : Value :=
  let o := Set_ NewObject "kind" (VString (src_Kind src)) in
  let o := Set_ o "sourceQueueId" (VString (src_SourceQueueID src)) in
  let o := Set_ o "sourceItemId" (StringOrNull (src_SourceItemID src)) in
  VObject (Set_ o "sourceRevisionSha256" (digestOrNull (src_SourceRevisionSha256 src))).

Definition resource_value (r : Resource) : Value :=
  VObject (Set_ (Set_ NewObject "class" (VString (res_Class r))) "key" (VString (res_Key r))).

Definition effects_value (e : Effects) : Value :=
  let o := Set_ NewObject "coverage" (VString (eff_Coverage e)) in
  let o := Set_ o "touchPaths" (Strings (eff_TouchPaths e)) in
  let o := Set_ o "resources" (VArray (resource_value <$> eff_Resources e)) in
  let o := Set_ o "externalUnbounded" (VBool (eff_ExternalUnbounded e)) in
  VObject (SetVerdictPaths o (eff_VerdictPaths e)).

Definition hold_value (h : Hold) : Value :=
  let o := Set_ NewObject "holdId" (VString (hold_HoldID h)) in
  let o := Set_ o "actor" (VString (hold_Actor h)) in
  let o := Set_ o "reason" (VString (hold_Reason h)) in
  let o := Set_ o "placedAt" (VString (hold_PlacedAt h)) in
  VObject (match hold_Condition h with Some c => Set_ o "condition" (HoldCondition_Value c) | None => o end).

Definition approval_value (a : Approval) : Value :=
  let o := Set_ NewObject "grantId" (VString (apr_GrantID a)) in
  let o := Set_ o "actor" (VString (apr_Actor a)) in
  let o := Set_ o "operation" (VString (apr_Operation a)) in
  let o := Set_ o "targetRevision" (VString (apr_TargetRevision a)) in
  let o := Set_ o "scope" (Strings (apr_Scope a)) in
  let o := Set_ o "revoked" (VBool (apr_Revoked a)) in
  VObject (Set_ o "grantedAt" (VString (apr_GrantedAt a))).

Definition completion_value (c : option Completion) : Value :=
  match c with
  | None => VNull
  | Some c =>
      let o := Set_ NewObject "kind" (VString (cmp_Kind c)) in
      let o := Set_ o "actor" (VString (cmp_Actor c)) in
      let o := Set_ o "reason" (StringOrNull (cmp_Reason c)) in
      let o := Set_ o "evidence" (Strings (cmp_Evidence c)) in
      let o := Set_ o "manifestSha256" (digestOrNull (cmp_ManifestSha256 c)) in
      VObject (Set_ o "recordedAt" (VString (cmp_RecordedAt c)))
  end.

(** [if v != nil { o.Set(key, v) }] *)
Definition set_opt (o : Object) (key : string) (v : option Value) : Object :=
  match v with Some v => Set_ o key v | None => o end.

(** What an emptiable member is set to: nothing when it is empty. *)
Definition when (b : bool) (v : Value) : option Value := if b then Some v else None.

(** [rec.Value()] *)
Definition Record_Value (rec : Record_) : Value :=
  let o := Set_ NewObject "profile" (VString Ticket.Profile) in
  let o := Set_ o "ticketId" (VString (TicketID_Raw (rec_TicketID rec))) in
  let o := Set_ o "revision" (VString (rec_Revision rec)) in
  let o := Set_ o "acceptanceRevision" (VString (rec_AcceptanceRevision rec)) in
  let o := Set_ o "previousRecordSha256" (digestOrNull (rec_PreviousRecordSha256 rec)) in
  let o := Set_ o "status" (VString (rec_Status rec)) in
  let o := Set_ o "archivedFrom" (StringOrNull (rec_ArchivedFrom rec)) in
  let o := Set_ o "title" (VString (rec_Title rec)) in
  let o := Set_ o "body" (StringOrNull (rec_Body rec)) in
  let o := Set_ o "kind" (VString (rec_Kind rec)) in
  let o := set_opt o "requiredRoles" (StageRolesValue <$> rec_RequiredRoles rec) in
  let o := set_opt o "requiresPool" (when (negb (rec_RequiresPool rec =s ε)) (VString (rec_RequiresPool rec))) in
  let o := set_opt o "escalations" (escalationRefsValue <$> rec_Escalations rec) in
  let o := set_opt o "operatorNote" (OperatorNoteReference_Value <$> rec_OperatorNote rec) in
  let o := set_opt o "externalReviews"
    (when (0 <? size (rec_ExternalReviews rec))%nat (ExternalReviewsValue (rec_ExternalReviews rec))) in
  let o := set_opt o "executionPrerequisites"
    (when (0 <? length (rec_ExecutionPrerequisites rec))%nat (PrerequisitesValue (rec_ExecutionPrerequisites rec))) in
  let o := set_opt o "attachedEvidence"
    (when (0 <? length (rec_AttachedEvidence rec))%nat (AttachedEvidenceValue (rec_AttachedEvidence rec))) in
  let o := set_opt o "progress" (when (0 <? length (rec_Progress rec))%nat (ProgressValue (rec_Progress rec))) in
  let o := set_opt o "knowHow" (when (0 <? length (rec_KnowHow rec))%nat (KnowHowValue (rec_KnowHow rec))) in
  let o := set_opt o "obligations" (ObligationsReference_Value <$> rec_ObligationsRef rec) in
  let o := Set_ o "owner" (StringOrNull (rec_Owner rec)) in
  let o := Set_ o "milestone" (StringOrNull (rec_Milestone rec)) in
  let o := Set_ o "priority" (VString (rec_Priority rec)) in
  let o := Set_ o "order" (VString (rec_Order rec)) in
  let o := Set_ o "labels" (Strings (rec_Labels rec)) in
  let o := Set_ o "dependencies" (VArray (dependency_value <$> rec_Dependencies rec)) in
  let o := Set_ o "acceptanceCriteria" (Strings (rec_AcceptanceCriteria rec)) in
  let o := Set_ o "requirementRefs" (Strings (rec_RequirementRefs rec)) in
  let o := Set_ o "source" (source_value (rec_Source rec)) in
  let o := Set_ o "effects" (effects_value (rec_Effects rec)) in
  let o := Set_ o "capabilities" (Strings (rec_Capabilities rec)) in
  let o := Set_ o "requiredGates" (Strings (rec_RequiredGates rec)) in
  let o := Set_ o "holds" (VArray (hold_value <$> rec_Holds rec)) in
  let o := Set_ o "executionClass" (VString (rec_ExecutionClass rec)) in
  let o := Set_ o "approvals" (VArray (approval_value <$> rec_Approvals rec)) in
  let o := Set_ o "completion" (completion_value (rec_Completion rec)) in
  let o := Set_ o "dueDate" (StringOrNull (rec_DueDate rec)) in
  let o := Set_ o "estimateMinutes" (match rec_EstimateMinutes rec with None => VNull | Some n => VString n end) in
  let o := Set_ o "supersedes" (ticketOrNull (rec_Supersedes rec)) in
  let o := Set_ o "supersededBy" (ticketOrNull (rec_SupersededBy rec)) in
  let o := Set_ o "shadowOverlay" (VBool (rec_ShadowOverlay rec)) in
  let o := Set_ o "createdAt" (VString (rec_CreatedAt rec)) in
  let o := Set_ o "updatedAt" (VString (rec_UpdatedAt rec)) in
  VObject (Set_ o "updatedBy" (VString (rec_UpdatedBy rec))).

(** [rec.Encode()] *)
Definition Record_Encode (rec : Record_) : string := EncodeFile (Record_Value rec).

Section digest.
Context (sha256 : string → string).

(** [rec.FileDigest()] *)
Definition FileDigest (rec : Record_) : string := Sum sha256 (Record_Encode rec).
End digest.
