(* ===== verification/View.v ===== *)
(** * The derived view of a ticket

    [view.go] of [src/internal/tasks/ticket]: why a ticket can or cannot be
    started.  A fact is satisfied, unsatisfied or not observed; a certain
    refusal is a blocker, what could not be observed an unknown.

    The loops of [View] append to three slices; here they list tagged notes in
    the order they are appended, which are then told apart. *)

From S2P Require Import Prelude Utf8 GoStd Codes Limits Value Primitives Ids Parse Reader Ticket Inventory Marks.
From S2P Require Import KnowHow RecordParts Escalations RecordCodec.
Local Open Scope Z_scope.
Local Open Scope go_scope.

(** ** Observations *)

Definition Satisfied : string := "SATISFIED".
Definition Unsatisfied : string := "UNSATISFIED".
Definition NotObserved : string := "NOT_OBSERVED".

(** [GatePassed] of a [GateOracle]. *)
Definition GateOracle : Type := TicketID → string → string → string.

(** [AttemptOracle], with the optional [AttemptDescriber]. *)
Record AttemptOracle := { LiveAttempt : string → string; DescribeLiveAttempt : option (string → string) }.

(** [NoEvidence], which answers for a nil oracle. *)
Definition NoEvidence_GatePassed : GateOracle := λ _ _ _, NotObserved.
Definition NoEvidence_LiveAttempt (_ : string) : string := NotObserved.

Record LoopHold := mkLoopHold {
  lh_Signal : string; lh_AcceptanceRevision : string; lh_Generations : list string; lh_Limit : string; lh_ProgressSignal : string
}.

Definition LoopHold_Detail (h : LoopHold) : string :=
  let d := "no-progress loop " +:+ lh_Signal h +:+ " at acceptanceRevision " +:+ lh_AcceptanceRevision h +:+ ": generations " +:+
           strings.Join (lh_Generations h) "," +:+ " exceed the policy bound " +:+ lh_Limit h in
  if negb (lh_ProgressSignal h =s ε) then d +:+ " (progress signal " +:+ lh_ProgressSignal h +:+ ")" else d.

(** [Context]; a nil interface or pointer is [None]. *)
Record ViewContext := mkViewContext {
  vc_CanonicalWriter : string; vc_SerialFallback : string; vc_Gates : option GateOracle; vc_Attempts : option AttemptOracle;
  vc_Stage : string; vc_Loop : option LoopHold
}.

Definition gates (ctx : ViewContext) : GateOracle := default NoEvidence_GatePassed (vc_Gates ctx).

Definition attempts (ctx : ViewContext) : string → string :=
  match vc_Attempts ctx with Some a => LiveAttempt a | None => NoEvidence_LiveAttempt end.

(** ** Views *)

Record Blocker := mkBlocker { blk_Code : string; blk_TicketID : string; blk_Detail : string }.

Definition EligibilityBlocked : string := "BLOCKED".
Definition EligibilityUnknown : string := "UNKNOWN".

(** The slices [AlternativeActions] and [SuggestedEvidence] are [None] when nil. *)
Record View := mkView {
  v_Record : Record_; v_Tracked : string; v_IntentChecks : string; v_Eligibility : string;
  v_Blockers : list Blocker; v_Unknowns : list Blocker; v_Advisories : list Blocker;
  v_CurrentAttempt : string; v_GateResults : string; v_Publication : string; v_NextAction : string;
  v_AlternativeActions : option (list string); v_SuggestedEvidence : option (list string); v_Untrusted : bool
}.

(** ** Parts of a record *)

(** [holdIDs(rec)] *)
Definition holdIDs (rec : Record_) : string := strings.Join (hold_HoldID <$> rec_Holds rec) ", ".

(** [rec.EscalationPending()]; nil is the empty list. *)
Definition Record_EscalationPending (rec : Record_) : list string :=
  match rec_Escalations rec with
  | None => []
  | Some refs =>
      (EscalationPending (rec_AcceptanceRevision rec)
        ((λ e, {| RequestID := esc_RequestID e; AcceptanceRevision := esc_AcceptanceRevision e;
                  EscalationKind := esc_Kind e; EscalationState := esc_State e |}) <$> escs_Entries refs)).1
  end.

Definition grantedThroughCompletion : list string := ["RUN"; "COMPLETE"].

(** [grantState(rec, op)]: granted and revoked. *)
Definition grantState (rec : Record_) (op : string) : bool * bool :=
  foldl (λ gr a,
    if (apr_Operation a =s op) && (apr_TargetRevision a =s rec_AcceptanceRevision rec)
    then (if apr_Revoked a then (gr.1, true) else (true, gr.2))
    else gr) (false, false) (rec_Approvals rec).

Definition MissingGrants (rec : Record_) : list string :=
  if negb (rec_ExecutionClass rec =s "APPROVAL_REQUIRED") then []
  else filter (λ op, (grantState rec op).1 = false) grantedThroughCompletion.

(** ** The checks of a view, in the order of the code *)

Inductive note : Type :=
  | Blocks (b : Blocker)
  | Unobserved (b : Blocker)
  | Advises (b : Blocker).

Definition block (code ticketID detail : string) : list note := [Blocks (mkBlocker code ticketID detail)].
Definition unknown (code ticketID detail : string) : list note := [Unobserved (mkBlocker code ticketID detail)].

Definition status_notes (rec : Record_) : list note :=
  let status := rec_Status rec in
  if status =s StatusOpen then []
  else if status =s StatusHeld then block CodeTicketHeld ε ("ticket is HELD by " +:+ holdIDs rec)
  else
    let detail := "status " +:+ status +:+ " is not OPEN" in
    block CodeTicketState ε
      (if ClosedStatus status
       then detail +:+ "; intent checks are admission checks, so a closed ticket fails this one by its status alone: the completion itself is not in question, and reopen is only for rework"
       else detail).

Definition escalation_notes (rec : Record_) : list note :=
  match Record_EscalationPending rec with
  | [] => []
  | ids => block CodeEscalationPending ε ("escalation questions pending: " +:+ strings.Join ids ",")
  end.

Definition loop_notes (ctx : ViewContext) (rec : Record_) : list note :=
  match vc_Loop ctx with
  | Some h => if lh_AcceptanceRevision h =s rec_AcceptanceRevision rec then block CodeLoopDetected ε (LoopHold_Detail h) else []
  | None => []
  end.

Definition problem_notes (inv : Inventory) (id : string) : list note :=
  flat_map (λ p, block (prob_Code p) (prob_TicketID p) (prob_Detail p)) (Problems inv id).

(** What an obligation on the ticket [dep] notes, each text with its prefix
    and its scope. *)
Definition obligation_notes (ctx : ViewContext) (code what gateWhat scope obligation : string) (gateID : option string)
    (dep : Summary) : list note :=
  let dep_raw := TicketID_Raw (sum_TicketID dep) in
  if obligation =s "COMPLETED" then
    if metCompleted dep then []
    else block code dep_raw (what +:+ " " +:+ dep_raw +:+ " is " +:+ sum_Status dep +:+ ", obligation COMPLETED" +:+ scope)
  else if obligation =s "GATE_PASSED" then
    let gate := default ε gateID in
    let passed := gates ctx (sum_TicketID dep) gate (sum_AcceptanceRevision dep) in
    if passed =s Satisfied then []
    else if passed =s Unsatisfied then
      block code dep_raw (gateWhat +:+ " " +:+ gate +:+ " of " +:+ dep_raw +:+ " has no PASSED result at acceptanceRevision " +:+
                          sum_AcceptanceRevision dep +:+ scope)
    else
      unknown code dep_raw (gateWhat +:+ " " +:+ gate +:+ " of " +:+ dep_raw +:+
                            ": result NOT_OBSERVED (no journal evidence available to this reader)" +:+ scope)
  else [].

Definition dependency_notes (ctx : ViewContext) (sum : gmap string Summary) (d : Dependency) : list note :=
  match sum !! raw d with
  | None => []
  | Some dep => obligation_notes ctx CodeDependencyUnsatisfied "dependency" "gate" ε (dep_Obligation d) (dep_GateID d) dep
  end.

Definition prerequisite_notes (ctx : ViewContext) (sum : gmap string Summary) (p : Prerequisite) : list note :=
  if negb (PrerequisiteApplies p (vc_Stage ctx)) then []
  else
    let scope := " (execution prerequisite for stages " +:+ strings.Join (pre_Stages p) "," +:+ ")" in
    let pre_raw := TicketID_Raw (pre_TicketID p) in
    match sum !! pre_raw with
    | None => block CodePrerequisiteUnsatisfied pre_raw ("prerequisite " +:+ pre_raw +:+ " does not exist in the queue" +:+ scope)
    | Some pre =>
        obligation_notes ctx CodePrerequisiteUnsatisfied "prerequisite" "prerequisite gate" scope (pre_Obligation p) (pre_GateID p) pre
    end.

Definition class_notes (rec : Record_) : list note :=
  if rec_ExecutionClass rec =s "AUTONOMOUS" then []
  else if rec_ExecutionClass rec =s "APPROVAL_REQUIRED" then
    let (granted, revoked) := grantState rec "RUN" in
    if granted then []
    else
      let through := "; grants missing through completion: " +:+ strings.Join (MissingGrants rec) "," in
      if revoked
      then block CodeApprovalRevoked ε ("the RUN grant at acceptanceRevision " +:+ rec_AcceptanceRevision rec +:+ " is revoked" +:+ through)
      else block CodeApprovalMissing ε ("no RUN grant at acceptanceRevision " +:+ rec_AcceptanceRevision rec +:+ through)
  else block CodeTicketState ε ("executionClass " +:+ rec_ExecutionClass rec +:+ " is never autonomously eligible").

Definition effects_notes (ctx : ViewContext) (rec : Record_) : list note :=
  let e := rec_Effects rec in
  (if eff_ExternalUnbounded e then block CodeExternalUnbounded ε "effects.externalUnbounded is true" else []) ++
  (if negb (eff_Coverage e =s "QUALIFIED") && negb (vc_SerialFallback ctx =s "WHOLE_REPOSITORY") then
     [Advises (mkBlocker CodeCoverageUnknown ε
        ("effects.coverage is " +:+ eff_Coverage e +:+
         " and policy serialFallback is not WHOLE_REPOSITORY; a claim without --scope reserves WHOLE_REPOSITORY"))]
   else []).

Definition import_notes (ctx : ViewContext) (rec : Record_) : list note :=
  if (src_Kind (rec_Source rec) =s "IMPORT") && negb (vc_CanonicalWriter ctx =s "NATIVE")
  then block CodeCutoverMissing ε ("imported record while canonicalWriter is " +:+ vc_CanonicalWriter ctx)
  else [].

(** The notes on the live attempt, and [CurrentAttempt]. *)
Definition attempt_notes (ctx : ViewContext) (id : string) : list note * string :=
  let live := attempts ctx id in
  if live =s Satisfied then (block CodeAttemptLive ε "an attempt is live", Satisfied)
  else if live =s Unsatisfied then ([], Unsatisfied)
  else (unknown CodeAttemptLive ε "attempt liveness NOT_OBSERVED (no journal available to this reader)", NotObserved).

Definition view_notes (inv : Inventory) (id : string) (ctx : ViewContext) (rec : Record_) : list note :=
  status_notes rec ++ escalation_notes rec ++ loop_notes ctx rec ++ problem_notes inv id ++
  flat_map (dependency_notes ctx (inv_sum inv)) (rec_Dependencies rec) ++
  flat_map (prerequisite_notes ctx (inv_sum inv)) (rec_ExecutionPrerequisites rec) ++
  class_notes rec ++ effects_notes ctx rec ++ import_notes ctx rec ++ (attempt_notes ctx id).1.

Definition blockers (ns : list note) : list Blocker := omap (λ n, match n with Blocks b => Some b | _ => None end) ns.
Definition unknowns (ns : list note) : list Blocker := omap (λ n, match n with Unobserved b => Some b | _ => None end) ns.
Definition advisories (ns : list note) : list Blocker := omap (λ n, match n with Advises b => Some b | _ => None end) ns.

(** ** The next action *)

(** The answer of [nextAction] to its first blocker's code. *)
Definition action_for (code : string) : string :=
  if (code =s CodeDependencyMissing) || (code =s CodeCycle) then "set-dependencies"
  else if (code =s CodeDependencyUnsatisfied) || (code =s CodePrerequisiteUnsatisfied) then "wait-dependency"
  else if (code =s CodeApprovalMissing) || (code =s CodeApprovalRevoked) then "grant-approval"
  else if (code =s CodeCoverageUnknown) || (code =s CodeExternalUnbounded) then "set-effects"
  else if code =s CodeCutoverMissing then "cutover"
  else if code =s CodeAttemptLive then "wait-attempt"
  else if code =s CodeEscalationPending then "answer"
  else if code =s CodeLoopDetected then "reopen"
  else "refine".

(** Only the status of the record is read. *)
Definition nextAction (status : string) (blockers unknowns : list Blocker) : string :=
  if status =s StatusDraft then "refine"
  else if status =s StatusHeld then "release-hold"
  else if status =s StatusCompleted then "reopen"
  else if status =s StatusArchived then "restore"
  else match blockers with
  | [] => if existsb (λ u, blk_Code u =s CodePrerequisiteUnsatisfied) unknowns then "wait-dependency" else "admit"
  | b :: _ => action_for (blk_Code b)
  end.

Definition ActionClaimScopeFromDiff : string := "claim --scope-from-diff".

Definition coverageOnly (status : string) (blockers advisories : list Blocker) : bool :=
  (status =s StatusOpen) && (length blockers =? 0)%nat && negb (length advisories =? 0)%nat &&
  forallb (λ a, blk_Code a =s CodeCoverageUnknown) advisories.

(** [ClosedView(s)] *)
Definition ClosedView (s : Summary) : string * string := (EligibilityBlocked, nextAction (sum_Status s) [] []).

(** ** The view *)

Definition tracked (rec : Record_) : string :=
  if rec_ShadowOverlay rec then "SHADOW" else if src_Kind (rec_Source rec) =s "IMPORT" then "IMPORT" else "NATIVE".

Definition view_of (inv : Inventory) (id : string) (ctx : ViewContext) (rec : Record_) : View :=
  let ns := view_notes inv id ctx rec in
  let bs := blockers ns in
  let next := nextAction (rec_Status rec) bs (unknowns ns) in
  let coverage := (next =s "admit") && coverageOnly (rec_Status rec) bs (advisories ns) in
  mkView rec (tracked rec)
    (match bs with [] => "PASSED" | _ => "FAILED" end)
    (match bs with [] => EligibilityUnknown | _ => EligibilityBlocked end)
    bs (unknowns ns) (advisories ns) (attempt_notes ctx id).2 NotObserved NotObserved
    (if coverage then "set-effects" else next)
    (if coverage then Some [ActionClaimScopeFromDiff] else None) None true.

(** [inv.View(id, ctx)]: no view, or a panic of [Get]. *)
Inductive viewed : Type :=
  | Viewed (v : View)
  | NoView
  | ViewPanics (e : goerror)
  | ViewNilLoader.

Definition Inventory_View (inv : Inventory) (id : string) (ctx : ViewContext) : viewed :=
  match (Inventory_Get inv id).2 with
  | Found rec => Viewed (view_of inv id ctx rec)
  | Absent => NoView
  | MaterializeError e => ViewPanics e
  | NilLoader => ViewNilLoader
  end.

Definition NextActionCompleteManual : string := "complete-manual".

(** [v.OfferCompletion(evidence)] *)
Definition OfferCompletion (v : View) (evidence : list string) : View * bool :=
  if (length evidence =? 0)%nat || negb (rec_Status (v_Record v) =s StatusOpen) || negb (v_NextAction v =s "admit") ||
     negb (length (v_Blockers v) =? 0)%nat || negb (length (v_Unknowns v) =? 0)%nat
  then (v, false)
  else
    (mkView (v_Record v) (v_Tracked v) (v_IntentChecks v) (v_Eligibility v) (v_Blockers v) (v_Unknowns v) (v_Advisories v)
       (v_CurrentAttempt v) (v_GateResults v) (v_Publication v) NextActionCompleteManual (v_AlternativeActions v)
       (Some evidence) (v_Untrusted v), true).

(** ** The view as a read item *)

Definition blockerValues (bs : list Blocker) : Value :=
  VArray ((λ b,
    VObject (Set_ (Set_ (Set_ NewObject "code" (VString (blk_Code b)))
      "ticketId" (if blk_TicketID b =s ε then VNull else VString (blk_TicketID b)))
      "detail" (VString (blk_Detail b)))) <$> bs).

Definition View_Value (v : View) (includeRecord : bool) : Value :=
  let rec := v_Record v in
  let set_if (c : bool) (key : string) (x : Value) (o : Object) := if c then Set_ o key x else o in
  let o := Set_ NewObject "ticketId" (VString (TicketID_Raw (rec_TicketID rec))) in
  let o := Set_ o "revision" (VString (rec_Revision rec)) in
  let o := Set_ o "acceptanceRevision" (VString (rec_AcceptanceRevision rec)) in
  let o := Set_ o "status" (VString (rec_Status rec)) in
  let o := Set_ o "archivedFrom" (StringOrNull (rec_ArchivedFrom rec)) in
  let o := Set_ o "kind" (VString (rec_Kind rec)) in
  let o := Set_ o "priority" (VString (rec_Priority rec)) in
  let o := Set_ o "order" (VString (rec_Order rec)) in
  let o := Set_ o "owner" (StringOrNull (rec_Owner rec)) in
  let o := Set_ o "milestone" (StringOrNull (rec_Milestone rec)) in
  let o := Set_ o "title" (VString (rec_Title rec)) in
  let o := Set_ o "executionClass" (VString (rec_ExecutionClass rec)) in
  let o := Set_ o "tracked" (VString (v_Tracked v)) in
  let o := Set_ o "intentChecks" (VString (v_IntentChecks v)) in
  let o := Set_ o "eligibility" (VString (v_Eligibility v)) in
  let o := Set_ o "blockers" (blockerValues (v_Blockers v)) in
  let o := Set_ o "unknowns" (blockerValues (v_Unknowns v)) in
  let o := set_if (negb (length (v_Advisories v) =? 0)%nat) "advisories" (blockerValues (v_Advisories v)) o in
  let o := Set_ o "holds" (Strings (hold_HoldID <$> rec_Holds rec)) in
  let o := Set_ o "requiredGates" (Strings (rec_RequiredGates rec)) in
  let o := match rec_RequiredRoles rec with Some roles => Set_ o "requiredRoles" (StageRolesValue roles) | None => o end in
  let o := set_if (negb (length (rec_ExecutionPrerequisites rec) =? 0)%nat) "executionPrerequisites"
             (PrerequisitesValue (rec_ExecutionPrerequisites rec)) o in
  let o := set_if (negb (length (rec_AttachedEvidence rec) =? 0)%nat) "attachedEvidence"
             (AttachedEvidenceValue (rec_AttachedEvidence rec)) o in
  let o := match EffectiveProgress rec with Some p => Set_ o "progress" (ProgressEntryValue p) | None => o end in
  let o := set_if (negb (length (rec_KnowHow rec) =? 0)%nat) "knowHow" (KnowHowValue (rec_KnowHow rec)) o in
  let o := match rec_ObligationsRef rec with Some r => Set_ o "obligations" (ObligationCounts_Value (obl_Counts r)) | None => o end in
  let o := Set_ o "gateResults" (VString (v_GateResults v)) in
  let o := Set_ o "currentAttempt" (VString (v_CurrentAttempt v)) in
  let o := Set_ o "publication" (VString (v_Publication v)) in
  let o := Set_ o "completion" (match rec_Completion rec with None => VNull | Some c => VString (cmp_Kind c) end) in
  let o := Set_ o "nextAction" (VString (v_NextAction v)) in
  let o := match v_AlternativeActions v with Some acts => Set_ o "alternativeActions" (Strings acts) | None => o end in
  let o := match v_SuggestedEvidence v with Some ds => Set_ o "suggestedEvidence" (DigestsValue ds) | None => o end in
  VObject (Set_ o "record" (if includeRecord then Record_Value rec else VNull)).
