(* ===== verification/Intent.v ===== *)
(** * Queue manifests and the policy a writer consults

    [queue.go] of [src/internal/tasks/intent], and of [policy.go] and
    [pools.go] what the ticket writer reads: the role matrix, the gates, pools
    and milestones, and the opt-ins of the obligation and know-how ledgers;
    and what planning and leases read: capacity, retries, the pools' members,
    loop detection, shared reservation paths.  [Policy], [Pool] and
    [MemberConfig] have the fields these reads use. *)

From S2P Require Import Prelude Utf8 GoStd Codes Limits Value Primitives Ids Parse Reader Ticket Inventory Marks RecordCodec.
Local Open Scope Z_scope.
Local Open Scope go_scope.

(** ** The queue manifest *)

Definition ProfileQueue : string := "taskman-queue/0".

Record ExecutionCutover := { ec_EnabledBy : string; ec_DecisionRef : string; ec_GateEvidence : list string }.

Record WriteBarrier := { wb_Reason : string; wb_Since : option string }.

Record Queue := mkQueue {
  q_QueueID : QueueID; q_RepositoryAuthorityID : string; q_Prefix : string; q_NextSerial : string;
  q_SchemaVersion : string; q_CanonicalWriter : string; q_ForeignAdapterID : option string; q_IntentBranch : string;
  q_Fixture : bool; q_ExecutionCutover : option ExecutionCutover; q_ImportMapSha256 : option string;
  q_WriteBarrier : WriteBarrier
}.

Definition queue_keys : list string :=
  ["profile"; "queueId"; "repositoryAuthorityId"; "prefix"; "nextSerial"; "schemaVersion"; "canonicalWriter";
   "foreignAdapterId"; "intentBranch"; "fixture"; "executionCutover"; "importMapSha256"; "writeBarrier"].

(** The member and the token it names. *)
Definition read_repository (f : Reader) : M (string * string) :=
  s ← String_ f;
  e ← failed;
  if (e : bool) then mret (s, ε)
  else match ParseRepoID (rwhere f) s with
  | Ok tok => mret (s, tok)
  | Err err => _ ← Fail f (CodeOf (Some (EWire err))) "%v" [AMsg (EWire err)]; mret (s, ε)
  | OutOfFuel => mret (s, ε)
  end.

Definition read_cutover (ec : Reader) : M (option ExecutionCutover) :=
  if IsNull ec then mret None
  else
    _ ← Closed ec ["enabledBy"; "decisionRef"; "gateEvidence"];
    f ← Field ec "enabledBy"; by_ ← Label f;
    f ← Field ec "decisionRef"; ref ← Label f;
    f ← Field ec "gateEvidence"; items ← Array_ f (-1) false; evidence ← each Digest items;
    mret (Some {| ec_EnabledBy := by_; ec_DecisionRef := ref; ec_GateEvidence := evidence |}).

Definition read_barrier (wb : Reader) : M WriteBarrier :=
  _ ← Closed wb ["reason"; "since"];
  f ← Field wb "reason"; reason ← Enum f ["CUTOVER"; "EMERGENCY"; "NONE"];
  f ← Field wb "since"; since ← TimestampOrNull f;
  mret {| wb_Reason := reason; wb_Since := since |}.

(** The queue, and the token of its repository authority. *)
Definition read_queue (r : Reader) : M (Queue * string) :=
  f ← Field r "queueId"; id ← Reader_QueueID f;
  f ← Field r "repositoryAuthorityId"; repo ← read_repository f;
  f ← Field r "prefix"; prefix ← Label f;
  f ← Field r "nextSerial"; serial ← Count f;
  f ← Field r "schemaVersion"; version ← Exact f "0";
  f ← Field r "canonicalWriter"; writer ← Enum f ["NATIVE"; "ROADMAP"; "FOREIGN"];
  f ← Field r "foreignAdapterId"; adapter ← LabelOrNull f;
  f ← Field r "intentBranch"; branch ← Label f;
  f ← Field r "fixture"; fixture ← Bool_ f;
  f ← Field r "executionCutover"; cutover ← read_cutover f;
  f ← Field r "importMapSha256"; map ← DigestOrNull f;
  f ← Field r "writeBarrier"; barrier ← read_barrier f;
  mret (mkQueue id repo.1 prefix serial version writer adapter branch fixture cutover map barrier, repo.2).

(** The checks between fields. *)
Definition queue_checks (q : Queue) (repoTok : string) : option Error :=
  if negb (QueueID_Authority (q_QueueID q) =s repoTok) then
    Some (Errorf CodeMalformed "/queueId" "queue authority %q differs from repositoryAuthorityId %q"
      [AStr (QueueID_Authority (q_QueueID q)); AStr repoTok])
  else if negb (Bool.eqb (q_CanonicalWriter q =s "FOREIGN") (some (q_ForeignAdapterID q))) then
    Some (Errorf CodeMalformed "/foreignAdapterId" "foreignAdapterId is non-null iff canonicalWriter is FOREIGN" [])
  else if negb (Bool.eqb (wb_Reason (q_WriteBarrier q) =s "NONE") (negb (some (wb_Since (q_WriteBarrier q))))) then
    Some (Errorf CodeMalformed "/writeBarrier/since" "since is null iff reason is NONE" [])
  else match ParseToken "/prefix" (q_Prefix q) MaxLabelBytes with Err e => Some e | _ => None end.

Definition DecodeQueue (data : string) : res Queue :=
  if MaxQueueFileBytes <? slen data then
    Err (Errorf CodeLimitExceeded "/" "queue.json larger than %d bytes" [AInt MaxQueueFileBytes])
  else
    let* v := Parse data in
    let r := NewReader v "/" in
    try ProfileVersion "/profile" v ProfileQueue;
    let* _ := run (Closed r queue_keys) st0 in
    let '(profile, st) := (f ← Field r "profile"; String_ f) st0 in
    try CheckProfile "/profile" profile ProfileQueue;
    let* q := run (read_queue r) st in
    try queue_checks q.1 q.2;
    Ok q.1.

Definition cutover_value (c : option ExecutionCutover) : Value :=
  match c with
  | None => VNull
  | Some c =>
      let o := Set_ NewObject "enabledBy" (VString (ec_EnabledBy c)) in
      let o := Set_ o "decisionRef" (VString (ec_DecisionRef c)) in
      VObject (Set_ o "gateEvidence" (Strings (ec_GateEvidence c)))
  end.

Definition barrier_value (b : WriteBarrier) : Value :=
  let o := Set_ NewObject "reason" (VString (wb_Reason b)) in
  VObject (Set_ o "since" (StringOrNull (wb_Since b))).

(** [q.Value()] *)
Definition Queue_Value (q : Queue) : Value :=
  let o := Set_ NewObject "profile" (VString ProfileQueue) in
  let o := Set_ o "queueId" (VString (QueueID_Raw (q_QueueID q))) in
  let o := Set_ o "repositoryAuthorityId" (VString (q_RepositoryAuthorityID q)) in
  let o := Set_ o "prefix" (VString (q_Prefix q)) in
  let o := Set_ o "nextSerial" (VString (q_NextSerial q)) in
  let o := Set_ o "schemaVersion" (VString (q_SchemaVersion q)) in
  let o := Set_ o "canonicalWriter" (VString (q_CanonicalWriter q)) in
  let o := Set_ o "foreignAdapterId" (StringOrNull (q_ForeignAdapterID q)) in
  let o := Set_ o "intentBranch" (VString (q_IntentBranch q)) in
  let o := Set_ o "fixture" (VBool (q_Fixture q)) in
  let o := Set_ o "executionCutover" (cutover_value (q_ExecutionCutover q)) in
  let o := Set_ o "importMapSha256" (digestOrNull (q_ImportMapSha256 q)) in
  VObject (Set_ o "writeBarrier" (barrier_value (q_WriteBarrier q))).

(** ** Roles and operations *)

Definition Roles : list string := ["OWNER"; "OPERATOR"; "WORKER"; "REVIEWER"; "IMPORTER"; "SYSTEM"].

Definition Operations : list string :=
  ["CREATE"; "REFINE"; "PRIORITIZE"; "SET_DEPENDENCIES"; "SET_GATES"; "SET_EFFECTS";
   "HOLD"; "RELEASE_HOLD"; "REOPEN"; "ARCHIVE"; "RESTORE"; "COMPLETE_MANUAL"; "GRANT_APPROVAL"; "REVOKE_APPROVAL";
   "RELEASE_CREATE"; "RELEASE_UPDATE"; "RELEASE_CANDIDATE"; "RELEASE_EXTERNAL_ATTEST"; "RELEASE_MANUAL_ATTEST";
   "RELEASE_PROMOTE"; "ESCALATE"; "ANSWER"; "NOTE_SET"; "NOTE_CLEAR"; "REVIEW_RECORD"; "REVIEW_RESUBMIT";
   "ATTACH_EVIDENCE"; "KNOWHOW_ADD"; "KNOWHOW_RETRACT"; "KNOWHOW_RECONFIRM";
   "OBLIGATIONS_SEED"; "OBLIGATIONS_SET"; "OBLIGATIONS_WITNESS"; "PROGRESS_SET"].

(** [DefaultRoleMatrix[role]]: nil for a role it does not name. *)
Definition DefaultRoleMatrix (role : string) : list string :=
  if role =s "OWNER" then Operations
  else if role =s "OPERATOR" then
    ["CREATE"; "REFINE"; "PRIORITIZE"; "SET_DEPENDENCIES"; "SET_GATES"; "SET_EFFECTS"; "HOLD"; "RELEASE_HOLD"; "REOPEN";
     "ARCHIVE"; "RESTORE"; "COMPLETE_MANUAL"; "GRANT_APPROVAL"; "REVOKE_APPROVAL"; "RELEASE_CREATE"; "RELEASE_UPDATE";
     "RELEASE_CANDIDATE"; "RELEASE_EXTERNAL_ATTEST"; "PROGRESS_SET"]
  else if role =s "IMPORTER" then ["CREATE"; "REFINE"]
  else if role =s "WORKER" then ["REFINE"]
  else if role =s "SYSTEM" then ["HOLD"]
  else [].

(** ** The policy *)

Record ObligationsPolicy := {
  oblp_WorkerWitness : bool; oblp_RequireScopeDecision : bool; oblp_TestRepositories : gmap string string;
  oblp_AllowUndeclaredCites : bool
}.

Record MilestonePolicy := { mp_Required : bool }.

Record KnowHowPolicy := { kp_WorkerAdd : bool }.

Record GateDefinition := { gd_GateID : string }.

(** ** Pools *)

(** [intent.StageRoles] *)
Definition PoolStageRoles : list string := ["implement"; "review"; "integrate"].

Definition PoolOperations : list string := ["provision"; "refresh"; "reset"; "retarget"; "teardown"].

Definition MaxPoolMembers : Z := 256.
Definition MaxSlotCapacity : Z := 64.

Record ConfigRef := { cfg_Revision : string; cfg_Path : string; cfg_Blob : string }.

Definition ReadConfigRef (r : Reader) : M ConfigRef :=
  _ ← Closed r ["revision"; "path"; "blob"];
  f ← Field r "revision"; revision ← OID f;
  f ← Field r "path"; path ← Identifier f;
  f ← Field r "blob"; blob ← OID f;
  mret {| cfg_Revision := revision; cfg_Path := path; cfg_Blob := blob |}.

Definition ConfigRefValue (c : ConfigRef) : Value :=
  let o := Set_ NewObject "revision" (VString (cfg_Revision c)) in
  let o := Set_ o "path" (VString (cfg_Path c)) in
  VObject (Set_ o "blob" (VString (cfg_Blob c))).

Record PoolSource := { psrc_Revision : string; psrc_Tree : string }.

Record PinnedCwd := { pin_Path : string; pin_Revision : string }.

Record PoolCommand := {
  cmd_Argv : list string; cmd_Env : list string; cmd_Cwd : string; cmd_Pinned : option PinnedCwd; cmd_TimeoutSeconds : string
}.

Record MemberConfig := {
  mc_ConfigRef : option ConfigRef; mc_Health : option PoolCommand; mc_Cleanup : option PoolCommand;
  mc_Identity : option PoolCommand
}.

Record Pool := mkPool {
  pool_ID : string; pool_Members : list string; pool_ReservedFor : gmap string string;
  pool_MemberConfig : gmap string MemberConfig; pool_PriorityAdmission : bool; pool_MaxWaitSeconds : Z;
  pool_HandoffGraceSeconds : Z; pool_AllowedSources : list PoolSource; pool_DefaultSource : option PoolSource
}.

(** [p.ReservedFor[m]] and [p.MemberConfig[m]], zero when there is none. *)
Definition Pool_Reserved (p : Pool) (m : string) : string := default ε (pool_ReservedFor p !! m).

Definition Pool_Config (p : Pool) (m : string) : MemberConfig :=
  default {| mc_ConfigRef := None; mc_Health := None; mc_Cleanup := None; mc_Identity := None |} (pool_MemberConfig p !! m).

Record LoopDetection := { ld_MaxNoProgressGenerations : string; ld_MaxAlternatingReturns : string }.

Definition ProgressSignalHandoffEvidence : string := "HANDOFF_EVIDENCE".

Record HolderLiveness := { hl_HeartbeatTTLSeconds : string }.

Definition DefaultHeartbeatTTLSeconds : Z := 600.

Record ReservationPolicy := { rp_SharedPaths : list string }.

Definition LaneBudgetNames : list string :=
  ["cacheCreationTokens"; "cacheReadTokens"; "inputTokens"; "outputTokens"; "turns"; "wallClockMinutes"].

Record Policy := mkPolicy {
  pol_Roles : gmap string (list string); pol_Gates : list GateDefinition; pol_Pools : list Pool;
  pol_KnowHow : option KnowHowPolicy; pol_Obligations : option ObligationsPolicy; pol_Milestones : option MilestonePolicy;
  pol_MaxActiveAttempts : string; pol_MaxWorkersTotal : string; pol_RequireEnforcedFields : list string;
  pol_AdmissionsPerRevision : string; pol_SerialFallback : string; pol_LoopDetection : option LoopDetection;
  pol_ProgressSignal : string; pol_HolderLiveness : option HolderLiveness; pol_Reservations : option ReservationPolicy;
  pol_Raw : string
}.

Section policy.
Context (p : Policy).

(** The set of defined gates, of which only membership is asked. *)
Definition GateIDs : list string := gd_GateID <$> pol_Gates p.

Definition HeartbeatTTLSeconds : Z :=
  match pol_HolderLiveness p with Some h => Count_Int (hl_HeartbeatTTLSeconds h) | None => DefaultHeartbeatTTLSeconds end.

Definition SharedReservationPaths : list string :=
  match pol_Reservations p with Some r => rp_SharedPaths r | None => [] end.

(** [p.Pool(id)] *)
Definition Policy_Pool (id : string) : option Pool := head (filter (λ x, pool_ID x = id) (pol_Pools p)).

Definition MilestoneRequired : bool := match pol_Milestones p with Some m => mp_Required m | None => false end.

Definition WorkerKnowHowAdd : bool := match pol_KnowHow p with Some k => kp_WorkerAdd k | None => false end.

Definition WorkerObligationWitness : bool :=
  match pol_Obligations p with Some o => oblp_WorkerWitness o | None => false end.

Definition ObligationScopeDecisionRequired : bool :=
  match pol_Obligations p with Some o => oblp_RequireScopeDecision o | None => false end.

Definition ObligationCitesDeclaredRequired : bool :=
  match pol_Obligations p with Some o => negb (oblp_AllowUndeclaredCites o) | None => true end.

Definition ObligationTestRepository (name : string) : option string :=
  match pol_Obligations p with Some o => oblp_TestRepositories o !! name | None => None end.
End policy.
