(* ===== verification/PartsSpec.v ===== *)
(** * Objects as lists of optional members

    The lemmas by which a decoded record is compared with what it is written
    as: an object that is set member by member, some of them only when there
    is something to set, against the object that was read. *)

From S2P Require Import Prelude Utf8 GoStd Codes Value Canonical Primitives Ids.
From S2P Require Import SetsSpec PrimitivesSpec IdsSpec Parse Reader ReaderSpec ResultSpec RecordCodec.
Local Open Scope Z_scope.
Local Open Scope go_scope.

Definition fields := list (string * option Value).

(** The object with the members that are present. *)
Definition members_of (fs : fields) : Object := omap (λ kv, (kv.1,.) <$> kv.2) fs.

Lemma Set_fresh o k v : k ∉ Keys o → Set_ o k v = o ++ [(k, v)].
Proof.
  induction o as [|[k' w] o IH]; cbn [Keys Set_ fmap list_fmap app]; intros Hk; [done|].
  rewrite not_elem_of_cons in Hk. destruct Hk as [Hne Hk]. cbn in Hne.
  apply String.eqb_neq in Hne. rewrite String.eqb_sym in Hne. rewrite ?Hne.
  destruct (String.eqb_spec k k') as [->|_]; [by rewrite String.eqb_refl in Hne|]. by rewrite IH.
Qed.

Lemma set_opt_members fs : ∀ o,
  NoDup fs.*1 → (∀ k, k ∈ fs.*1 → k ∉ Keys o) →
  foldl (λ o kv, set_opt o kv.1 kv.2) o fs = o ++ members_of fs.
Proof.
  induction fs as [|[k [v|]] fs IH]; intros o Hnd Hf; cbn [foldl set_opt fst snd]; [by rewrite app_nil_r| |];
    rewrite fmap_cons in Hnd, Hf; cbn [fst] in Hnd, Hf; inv Hnd as [|? ? Hk Hnd'].
  - rewrite Set_fresh by (apply Hf; by left). rewrite IH; [by rewrite <-app_assoc|done|].
    intros q Hq. unfold Keys. rewrite fmap_app. cbn. rewrite elem_of_app, list_elem_of_singleton.
    intros [Hin| ->]; [|done]. by apply (Hf q); [right|].
  - apply IH; [done|]. intros q Hq. apply Hf. by right.
Qed.

Lemma Keys_members fs k : k ∈ Keys (members_of fs) → k ∈ fs.*1.
Proof.
  induction fs as [|[q [v|]] fs IH]; cbn; [done| |by right; apply IH].
  rewrite !elem_of_cons. intros [->|H]; [by left|right; by apply IH].
Qed.

Lemma NoDup_members fs : NoDup fs.*1 → NoDup (Keys (members_of fs)).
Proof.
  induction fs as [|[k [v|]] fs IH]; intros H; inv H as [|? ? Hk H']; [constructor| |by apply IH].
  cbn. constructor; [|by apply IH]. intros Hin. by apply Hk, Keys_members.
Qed.

Lemma Get_members fs k x : NoDup fs.*1 → (k, x) ∈ fs → Get (members_of fs) k = x.
Proof.
  induction fs as [|[q y] fs IH]; intros Hnd Hin; [by apply not_elem_of_nil in Hin|].
  rewrite fmap_cons in Hnd. inv Hnd as [|? ? Hq Hnd']. apply elem_of_cons in Hin as [[= <- <-]|Hin].
  - destruct x as [v|]; cbn.
    + unfold Get. cbn. by rewrite String.eqb_refl.
    + apply assoc_None. intros H. by apply Hq, Keys_members.
  - assert (k ≠ q) as Hne. { intros ->. apply Hq. by apply (list_elem_of_fmap_2 fst _ (q, x)). }
    destruct y as [w|]; cbn; [|by apply IH]. unfold Get. cbn. apply String.eqb_neq in Hne. rewrite Hne. by apply IH.
Qed.

(** An object whose keys are among those of [fs] and that agrees with [fs]
    at each of them is, up to the order of members, the object of [fs]. *)
Lemma same_fields o fs :
  NoDup (Keys o) → NoDup fs.*1 → (∀ k, k ∈ Keys o → k ∈ fs.*1) →
  Forall (λ kv, canon <$> Get o kv.1 = canon <$> kv.2) fs →
  canon (VObject o) = canon (VObject (members_of fs)).
Proof.
  intros Ho Hfs Hk H. apply canon_object; [done|by apply NoDup_members|]. intros k.
  destruct (decide (k ∈ fs.*1)) as [([q x] & -> & Hin)%list_elem_of_fmap|Hno].
  - rewrite Forall_forall in H. cbn [fst]. rewrite (Get_members fs q x) by done. apply (H (q, x) Hin).
  - rewrite !Get_absent; [done| |]; intros ?; apply Hno; [by apply Keys_members|by apply Hk].
Qed.

(** ** What the referenced members of a record promise

    The decoders of required roles, operator notes, external reviews, the
    obligations reference and the escalation references give back, through
    their encoders, the value they read. *)

From S2P Require Import Limits ParseTotal ParsePrint ParseDoc Result Ticket Inventory Marks MarksSpec KnowHow KnowHowSpec RecordParts Escalations.

(** ** Objects written from maps *)

(** The members written for the listed keys of a map. *)
Definition map_fields {A} (f : A → Value) (m : gmap string A) (ks : list string) : fields :=
  (λ k, (k, f <$> m !! k)) <$> ks.

Lemma map_fields_keys {A} (f : A → Value) m ks : (map_fields f m ks).*1 = ks.
Proof. unfold map_fields. rewrite <-list_fmap_compose. apply list_fmap_id. Qed.

Lemma map_fields_ok {A} (f : A → Value) (m : gmap string A) ks o :
  NoDup ks → NoDup (Keys o) → (∀ k, k ∈ Keys o → k ∈ ks) →
  (∀ k, k ∈ ks → canon <$> Get o k = canon <$> (f <$> m !! k)) →
  canon (VObject o) = canon (VObject (members_of (map_fields f m ks))).
Proof.
  intros Hks Ho Hsub H. apply same_fields; rewrite ?map_fields_keys; [done..|].
  apply Forall_fmap, Forall_forall. intros k Hk. by apply H.
Qed.

(** [for k, v := range m { o.Set(k, f(v)) }] *)
Lemma range_members {A} (f : A → Value) (m : gmap string A) :
  foldl (λ o kv, Set_ o kv.1 (f kv.2)) NewObject (map_to_list m) =
  members_of (map_fields f m (map_to_list m).*1).
Proof.
  transitivity (foldl (λ o kv, set_opt o kv.1 kv.2) NewObject (map_fields f m (map_to_list m).*1)).
  - unfold map_fields. rewrite <-list_fmap_compose. generalize NewObject.
    assert (∀ kv, kv ∈ map_to_list m → m !! kv.1 = Some kv.2) as H by by intros [k a] ?%elem_of_map_to_list.
    revert H. induction (map_to_list m) as [|[k a] l IH]; intros H o; [done|].
    assert (m !! k = Some a) as Hk by (apply (H (k, a)); by left).
    cbn. rewrite Hk. cbn.
    apply IH. intros kv Hkv. apply H. by right.
  - rewrite set_opt_members; [done|rewrite map_fields_keys; apply NoDup_fst_map_to_list|].
    intros k _. apply not_elem_of_nil.
Qed.

(** [for _, k := range ks { o.Set(k, f(m[k])) }] *)
Lemma sorted_members {A} (f : A → Value) (m : gmap string A) ks :
  NoDup ks →
  foldl (λ o k, match m !! k with Some a => Set_ o k (f a) | None => o end) NewObject ks = members_of (map_fields f m ks).
Proof.
  intros Hks. transitivity (foldl (λ o kv, set_opt o kv.1 kv.2) NewObject (map_fields f m ks)).
  - unfold map_fields. generalize NewObject. clear Hks. induction ks as [|k ks IH]; intros o; [done|].
    cbn [foldl list_fmap fmap fst snd]. destruct (m !! k); cbn; apply IH.
  - rewrite set_opt_members; [done|by rewrite map_fields_keys|]. intros k _. apply not_elem_of_nil.
Qed.

Lemma elem_of_map_keys {A} (m : gmap string A) k : k ∈ (map_to_list m).*1 ↔ is_Some (m !! k).
Proof.
  rewrite list_elem_of_fmap. split.
  - intros ([q a] & -> & Hin%elem_of_map_to_list). by exists a.
  - intros [a Ha]. exists (k, a). split; [done|]. by apply elem_of_map_to_list.
Qed.

(** ** Required roles *)

#[global] Instance Sticky_stage_roles_loop r stages : ∀ out, Sticky (stage_roles_loop r stages out).
Proof. induction stages; intros out; cbn [stage_roles_loop]; apply _. Qed.

#[global] Instance Sticky_ReadStageRoles r : Sticky (ReadStageRoles r).
Proof. unfold ReadStageRoles. apply _. Qed.

Lemma stage_roles_loop_ok r o stages : ∀ out m,
  rv r = VObject o → ok (stage_roles_loop r stages out) m →
  (∀ k, k ∈ stages → is_Some (m !! k) ∧ Get o k = Strings <$> m !! k ∧ m !! k ≠ Some [] ∧
    ∀ rs, m !! k = Some rs → Forall (λ x, x ∈ StageRoles) rs) ∧
  ∀ k, k ∉ stages → m !! k = out !! k.
Proof.
  induction stages as [|stage stages IH]; intros out m Ho H; cbn [stage_roles_loop] in H.
  { rewrite ok_ret in H. subst. split; [|done]. by intros k ?%not_elem_of_nil. }
  rewrite ok_bind in H by apply _. destruct H as (f & Hf & H). rewrite ok_Field in Hf.
  destruct Hf as (o' & v & Ho' & Hg & ->). assert (o' = o) as -> by congruence.
  rewrite ok_bind in H by apply _. destruct H as (roles & Hr & H).
  pose proof Hr as Hin. apply (ok_Strings_Forall (λ s, s ∈ StageRoles)) in Hin; [|apply _|by intros ? ? [_ ?]%ok_Enum].
  apply ok_Strings_value in Hr as (Hr & _); [|apply _|by intros ? ? [? _]%ok_Enum].
  cbn [child rv] in Hr. subst v. rewrite ok_bind in H by apply _. destruct H as (u & Hu & H).
  destruct (Nat.eqb_spec (length roles) 0) as [Hz|Hnz]; [by apply ok_Fail_last in Hu|].
  apply IH in H as [H1 H2]; [|done]. split.
  - intros k Hk. destruct (decide (k ∈ stages)) as [Hks|Hks]; [by apply H1|].
    apply elem_of_cons in Hk as [->|]; [|done]. rewrite (H2 _ Hks), lookup_insert_eq.
    split_and!; [by eexists|done|by intros [= ->]|by intros rs [= <-]].
  - intros k Hk. rewrite not_elem_of_cons in Hk. destruct Hk as [Hne Hk]. rewrite (H2 _ Hk).
    by rewrite lookup_insert_ne.
Qed.

(** Every stage has a role, and only stages have. *)
Definition stage_roles_wf (m : gmap string (list string)) : Prop :=
  (∀ k, is_Some (m !! k) ↔ k ∈ Stages) ∧
  ∀ k rs, m !! k = Some rs → rs ≠ [] ∧ Forall (λ x, x ∈ StageRoles) rs.

Lemma stage_roles_ok r m :
  distinct (rv r) → ok (ReadStageRoles r) m → canon (rv r) = canon (StageRolesValue m) ∧ stage_roles_wf m.
Proof.
  intros Hd H. unfold ReadStageRoles in H. rewrite ok_bind in H by apply _. destruct H as (u & Hc & H).
  rewrite ok_Closed in Hc. destruct Hc as (o & Ho & Hk). eapply stage_roles_loop_ok in H as [H1 H2]; [|done].
  assert (∀ k, is_Some (m !! k) ↔ k ∈ Stages) as Hdom.
  { intros k. destruct (decide (k ∈ Stages)) as [Hin|Hno]; [by split; [|intros; apply H1]|].
    rewrite (H2 _ Hno), lookup_empty. split; [by intros []|done]. }
  split.
  - rewrite Ho in Hd |- *. unfold StageRolesValue. rewrite range_members.
    apply map_fields_ok; [apply NoDup_fst_map_to_list|by apply distinct_keys| |].
    + intros k. by rewrite Hk, elem_of_map_keys, Hdom.
    + intros k Hin%elem_of_map_keys%Hdom. destruct (H1 _ Hin) as (_ & -> & _). done.
  - split; [done|]. intros k rs Hm. destruct (H1 k) as (_ & _ & Hne & Hall); [by apply Hdom; eexists|].
    split; [congruence|by apply Hall].
Qed.

(** ** The operator note *)

#[global] Instance Sticky_read_note r : Sticky (read_note r).
Proof. unfold read_note. apply _. Qed.

Lemma NewReader_rv v w : rv (NewReader v w) = v.
Proof. done. Qed.

Lemma operator_note_ok v n :
  distinct v → OperatorNoteReferenceFromValue v = Ok n →
  canon v = canon (OperatorNoteReference_Value n) ∧ 1 ≤ Count_Int (note_Revision n) ≤ MaxOperatorNoteEvents ∧
  (note_Current n = None ∨ note_Current n = Some (note_Head n)).
Proof.
  unfold OperatorNoteReferenceFromValue. intros Hd (n' & Hr & H)%obind_Ok. rewrite run_ok in Hr by apply _.
  destruct (_ || _) eqn:Hb in H; [done|]. apply orb_false_iff in Hb as [H1 H2].
  destruct (match note_Current n' with Some c => negb (c =s note_Head n') | None => false end) eqn:Hc; [done|].
  injection H as <-. split_and!; [|bool_hyps; lia|bool_hyps; lia|].
  - unfold read_note in Hr. rewrite <-(NewReader_rv v "/operatorNote") in Hd |- *. mark_inv.
    subst n'. unfold OperatorNoteReference_Value, noteObject. cbn [foldl fst snd note_Revision note_Current note_Head].
    same_members Hd.
  - destruct (note_Current n') as [c|]; [right|by left]. apply negb_false_iff, String.eqb_eq in Hc. by subst.
Qed.

(** ** External reviews *)

#[global] Instance Sticky_read_review r gate : Sticky (read_review r gate).
Proof. unfold read_review. apply _. Qed.

(** The counters of a review: 1 ≤ generation ≤ revision ≤ 4096. *)
Definition review_wf (n : ExternalReviewRef) : Prop :=
  1 ≤ Count_Int (rev_Generation n) ∧ Count_Int (rev_Generation n) ≤ Count_Int (rev_Revision n) ≤ MaxExternalReviewEvents.

Lemma read_review_ok r o gate n :
  distinct (rv r) → rv r = VObject o → ok (read_review r gate) n →
  canon <$> Get o gate = Some (canon (ExternalReviewRef_Value n)).
Proof.
  intros Hd Ho H. unfold read_review in H. rewrite ok_bind in H by apply _. destruct H as (g & Hg & H).
  rewrite ok_Field in Hg. destruct Hg as (o' & v & Ho' & Hg & Hgr). assert (o' = o) as -> by congruence. clear Ho'.
  assert (distinct v) as Hv by (rewrite Ho in Hd; by eapply distinct_member).
  rewrite Hg. assert (rv g = v) as <- by by subst. clear Hgr Hg Ho Hd. cbn [fmap option_fmap option_map]. f_equal. mark_inv. subst n.
  unfold ExternalReviewRef_Value. cbn [rev_Generation rev_Revision rev_Head]. same_members Hv.
Qed.

Lemma external_reviews_loop_ok r o gates : ∀ out m,
  distinct (rv r) → rv r = VObject o → external_reviews_loop r gates out = Ok m →
  (∀ k, k ∈ gates → ∃ n, m !! k = Some n ∧ canon <$> Get o k = Some (canon (ExternalReviewRef_Value n)) ∧
    review_wf n ∧ ParseLabel "/externalReviews" k = Ok k) ∧
  ∀ k, k ∉ gates → m !! k = out !! k.
Proof.
  induction gates as [|gate gates IH]; intros out m Hd Ho; cbn [external_reviews_loop].
  { intros [= <-]. split; [|done]. by intros k ?%not_elem_of_nil. }
  intros (l & Hl & (n & Hn & H)%obind_Ok)%obind_Ok. rewrite run_ok in Hn by apply _.
  eapply read_review_ok in Hn; [|done..]. destruct (_ || _) eqn:Hb in H; [done|].
  assert (review_wf n) as Hwf. { unfold review_wf. rewrite !orb_false_iff in Hb. bool_hyps. lia. }
  pose proof (text_same _ _ _ Hl) as ->. apply IH in H as [H1 H2]; [|done..]. split.
  - intros k Hk. destruct (decide (k ∈ gates)) as [Hks|Hks]; [by apply H1|].
    apply elem_of_cons in Hk as [->|]; [|done]. exists n. by rewrite (H2 _ Hks), lookup_insert_eq.
  - intros k Hk. rewrite not_elem_of_cons in Hk. destruct Hk as [Hne Hk]. rewrite (H2 _ Hk).
    by rewrite lookup_insert_ne.
Qed.

Lemma ExternalReviewsValue_members m :
  ExternalReviewsValue m = VObject (members_of (map_fields ExternalReviewRef_Value m (SortStrings (map_to_list m).*1))).
Proof.
  unfold ExternalReviewsValue. rewrite sorted_members; [done|]. rewrite SortStrings_perm. apply NoDup_fst_map_to_list.
Qed.

(** The reviews of 1 to 16 labelled gates, each with its counters in order. *)
Definition external_reviews_wf (m : gmap string ExternalReviewRef) : Prop :=
  (0 < size m)%nat ∧ Z.of_nat (size m) ≤ MaxExternalReviewGates ∧
  ∀ gate n, m !! gate = Some n → review_wf n ∧ ParseLabel "/externalReviews" gate = Ok gate.

Lemma external_reviews_ok v m :
  distinct v → ExternalReviewsFromValue v = Ok m →
  canon v = canon (ExternalReviewsValue m) ∧ external_reviews_wf m.
Proof.
  unfold ExternalReviewsFromValue. destruct v as [| | | |o]; try done. intros Hd H.
  destruct (_ || _) eqn:Hb in H; [done|]. apply orb_false_iff in Hb as [Hb1 Hb2].
  eapply external_reviews_loop_ok in H as [H1 H2]; [|done..].
  assert (∀ k, is_Some (m !! k) ↔ k ∈ Keys o) as Hdom.
  { intros k. destruct (decide (k ∈ Keys o)) as [Hin|Hno].
    - split; [done|]. intros _. destruct (H1 _ Hin) as (n & -> & _). by eexists.
    - rewrite (H2 _ Hno), lookup_empty. split; [by intros []|done]. }
  assert (NoDup (Keys o)) as Ho by by apply distinct_keys.
  assert (size m = length (Keys o)) as Hsize.
  { rewrite <-length_map_to_list, <-(length_fmap fst). apply Permutation_length, NoDup_Permutation;
      [apply NoDup_fst_map_to_list|done|]. intros k. by rewrite elem_of_map_keys, Hdom. }
  split.
  - rewrite ExternalReviewsValue_members. apply map_fields_ok; [|done| |].
    + rewrite SortStrings_perm. apply NoDup_fst_map_to_list.
    + intros k. by rewrite SortStrings_perm, elem_of_map_keys, Hdom.
    + intros k. rewrite SortStrings_perm, elem_of_map_keys, Hdom. intros Hk.
      destruct (H1 _ Hk) as (n & -> & -> & _). done.
  - unfold external_reviews_wf. rewrite Hsize. split_and!; [bool_hyps; lia..|].
    intros gate n Hn. destruct (H1 gate) as (n' & Hn' & _ & Hwf & Hl); [apply Hdom; by eexists|].
    rewrite Hn in Hn'. by injection Hn' as <-.
Qed.

(** ** The obligations reference *)

(** A Count that was read is the decimal form of its number. *)
Lemma Count_int r s : ok (Count r) s → rv r = VString s ∧ countValue (Count_Int s) = VString s.
Proof.
  intros [Hr Hp]%(ok_text ParseCount). split; [done|]. apply ParseCount_Ok in Hp as (_ & _ & Hs).
  unfold countValue. by rewrite <-Hs.
Qed.

(** [mark_inv], keeping the numbers of the counts. *)
Ltac count_inv :=
  repeat (match goal with H : ok (Count _) _ |- _ => apply Count_int in H as [H ?] end || ok_step); mark_inv.

#[global] Instance Sticky_obligation_counts r : Sticky (readObligationCounts r).
Proof. unfold readObligationCounts. apply _. Qed.
#[global] Instance Sticky_obligation_prefix r : Sticky (readObligationPrefix r).
Proof. unfold readObligationPrefix. apply _. Qed.
#[global] Instance Sticky_high_water r : Sticky (read_high_water r).
Proof. unfold read_high_water. apply _. Qed.
#[global] Instance Sticky_last_raise r : Sticky (read_last_raise r).
Proof. unfold read_last_raise. apply _. Qed.
#[global] Instance Sticky_check_obligations r o : Sticky (check_obligations r o).
Proof. unfold check_obligations. apply _. Qed.
#[global] Instance Sticky_ReadObligationsReference r : Sticky (ReadObligationsReference r).
Proof. unfold ReadObligationsReference. apply _. Qed.

Lemma obligation_counts_ok r c :
  distinct (rv r) → ok (readObligationCounts r) c → canon (rv r) = canon (ObligationCounts_Value c).
Proof.
  intros Hd H. unfold readObligationCounts in H. count_inv. subst c. unfold ObligationCounts_Value, noteObject.
  cbn [foldl fst snd oc_Witnessed oc_Total oc_Deferred oc_CoreWitnessed oc_CoreTotal].
  same_members Hd; congruence.
Qed.

Lemma obligation_prefix_ok r s : ok (readObligationPrefix r) s → rv r = VString s.
Proof.
  unfold readObligationPrefix. rewrite ok_bind by apply _. intros (t & Ht & H). apply ok_String in Ht.
  rewrite ok_failed in H. destruct (ParseObligationPrefix _ _) as [?|?|]; [|by apply ok_Fail in H; [|apply _]|];
    rewrite ok_ret in H; by subst.
Qed.

Lemma high_water_ok r h :
  distinct (rv r) → ok (read_high_water r) h →
  canon (rv r) = canon (noteObject [("acceptanceRevision", VString (hw_AcceptanceRevision h)); ("witnessed", countValue (hw_Witnessed h))]).
Proof.
  intros Hd H. unfold read_high_water in H. count_inv. subst h. unfold noteObject.
  cbn [foldl fst snd hw_AcceptanceRevision hw_Witnessed]. same_members Hd; congruence.
Qed.

Lemma last_raise_ok r x :
  distinct (rv r) → ok (read_last_raise r) x → canon (rv r) = canon (obligation_raise_value x).
Proof.
  intros Hd H. unfold read_last_raise in H. destruct (IsNull r) eqn:Hn.
  { apply IsNull_true in Hn. rewrite ok_ret in H. subst x. by rewrite Hn. }
  mark_inv. subst x. unfold obligation_raise_value, noteObject.
  cbn [foldl fst snd or_Attempt or_Generation or_AcceptanceRevision]. same_members Hd.
Qed.

(** The relations of a reference's counters. *)
Definition obligations_wf (o : ObligationsReference) : Prop :=
  1 ≤ Count_Int (obl_Revision o) ≤ ObligationsMaxEvents ∧ ObligationCounts_valid (obl_Counts o) = true ∧
  1 ≤ Count_Int (hw_AcceptanceRevision (obl_HighWater o)) ∧ hw_Witnessed (obl_HighWater o) ≤ ObligationsMaxEntries ∧
  ∀ x, obl_LastRaise o = Some x → 1 ≤ Count_Int (or_AcceptanceRevision x).

Lemma check_obligations_ok r o u : ok (check_obligations r o) u → obligations_wf o.
Proof.
  unfold check_obligations. intros H. destruct (_ || _) eqn:Hb in H; [by apply ok_Fail_last in H|].
  destruct (ObligationCounts_valid (obl_Counts o)) eqn:Hc; cbn [negb] in H; [|ok_inv].
  destruct (_ || _) eqn:Hw in H; [ok_inv|]. apply orb_false_iff in Hb, Hw. destruct Hb, Hw. bool_hyps.
  split_and!; [done..|]. intros x Hx. rewrite Hx in H. destruct (Z.ltb_spec (Count_Int (or_AcceptanceRevision x)) 1); [ok_inv|done].
Qed.

Lemma obligations_ok r x :
  distinct (rv r) → ok (ReadObligationsReference r) x →
  ∃ o, x = Some o ∧ canon (rv r) = canon (ObligationsReference_Value o) ∧ obligations_wf o.
Proof.
  intros Hd H. unfold ReadObligationsReference in H. mark_inv. subst x. eexists. split; [done|].
  match goal with H : ok (check_obligations _ _) _ |- _ => apply check_obligations_ok in H end.
  split; [|done].
  repeat match goal with
  | H : ok (readObligationCounts _) _ |- _ => apply obligation_counts_ok in H; [|cbn [child rv]; member_distinct]
  | H : ok (readObligationPrefix _) _ |- _ => apply obligation_prefix_ok in H
  | H : ok (read_high_water _) _ |- _ => apply high_water_ok in H; [|cbn [child rv]; member_distinct]
  | H : ok (read_last_raise _) _ |- _ => apply last_raise_ok in H; [|cbn [child rv]; member_distinct]
  end.
  mark_inv. unfold ObligationsReference_Value, noteObject at 1.
  cbn [foldl fst snd obl_Prefix obl_Revision obl_Head obl_Counts obl_HighWater obl_LastRaise].
  same_members Hd; congruence.
Qed.

(** ** Escalation references *)

Lemma json_members_nil o : ∀ rn r,
  (rn.2 = true → escs_Entries rn.1 = []) → json_members json_refs_member rn o = Some (r, true) → escs_Entries r = [].
Proof.
  induction o as [|kv o IH]; intros rn r Hn H; cbn [json_members] in H; [injection H as ->; by apply Hn|].
  apply bind_Some in H as (rn' & Hm & H). apply IH in H; [done|].
  destruct rn as [r0 n0], kv as [k v]. cbn [fst snd] in *. unfold json_refs_member in Hm.
  repeat case_match; try done; try (by apply bind_Some in Hm as (? & _ & [= <-])); by injection Hm as <-.
Qed.


Lemma EscalationRefs_Validate_entries r : EscalationRefs_Validate r = None → escs_Entries r ≠ [].
Proof. unfold EscalationRefs_Validate. destruct (first_failure _); [done|]. destruct (_ <=? _); [done|]. by destruct (escs_Entries r). Qed.

Lemma escalation_value_distinct r : distinct (escalationRefsValue r).
Proof.
  unfold escalationRefsValue. constructor; [cbn; nodup_keys|]. cbn. repeat constructor.
  apply Forall_fmap, Forall_forall. intros e _. constructor; [cbn; nodup_keys|]. cbn. repeat constructor.
Qed.

Lemma escalation_refs_ok f r :
  distinct f → DecodeEscalationRefs (EncodeFile f) = Ok r →
  canon f = canon (escalationRefsValue r) ∧ EscalationRefs_Validate r = None.
Proof.
  intros Hd. unfold DecodeEscalationRefs. intros (r' & Hr & H)%obind_Ok.
  destruct (EscalationRefs_Validate r') eqn:Hv; [done|]. injection H as ->. split; [|done].
  unfold escalationDecode in Hr. destruct (_ <? _); [done|]. destruct (Parse _) as [v|?|]; try done.
  destruct (json_struct _ _ _) as [[r' n]|] eqn:Hj; [|done].
  apply obind_Ok in Hr as (c & Hc & Hr). destruct (String.eqb_spec (EncodeFile f) c) as [<-|]; [|done].
  cbn [negb] in Hr. injection Hr as ->.
  assert (n = false) as ->.
  { destruct n; [|done]. apply EscalationRefs_Validate_entries in Hv. destruct Hv.
    unfold json_struct in Hj. destruct v; try done; [by injection Hj as <-|]. by eapply json_members_nil in Hj. }
  unfold escalationEncode in Hc. destruct (Parse _) in Hc; try done. destruct (_ <? _) in Hc; [done|]. injection Hc as Hc.
  symmetry in Hc. apply EncodeFile_inj in Hc; [|done|apply escalation_value_distinct]. exact Hc.
Qed.
