(* ===== verification/RecordSpec.v ===== *)
(** * What the record codec promises

    [Decode] accepts only the bytes that [Encode] writes for the record it
    returns, and that record is valid; the order in which Go visits the last
    map of [validate] decides no verdict, only which error is reported. *)

From S2P Require Import Prelude Utf8 GoStd Codes Limits Value Canonical Primitives Ids.
From S2P Require Import SetsSpec PrimitivesSpec IdsSpec Parse ParseTotal ParsePrint.
From S2P Require Import ParseDoc Reader ReaderSpec Result ResultSpec Ticket Inventory Marks MarksSpec.
From S2P Require Import KnowHow KnowHowSpec RecordParts Escalations RecordCodec PartsSpec.
Local Open Scope Z_scope.
Local Open Scope go_scope.

(** ** Parts *)

#[global] Instance Sticky_dependency d : Sticky (read_dependency d).
Proof. unfold read_dependency. apply _. Qed.
#[global] Instance Sticky_source s : Sticky (read_source s).
Proof. unfold read_source. apply _. Qed.
#[global] Instance Sticky_check_resource_path r c k : Sticky (check_resource_path r c k).
Proof. unfold check_resource_path. apply _. Qed.
#[global] Instance Sticky_resource r : Sticky (read_resource r).
Proof. unfold read_resource. apply _. Qed.
#[global] Instance Sticky_verdict_paths r t : Sticky (ReadVerdictPaths r t).
Proof. unfold ReadVerdictPaths. apply _. Qed.
#[global] Instance Sticky_effects r : Sticky (read_effects r).
Proof. unfold read_effects. apply _. Qed.
#[global] Instance Sticky_hold r : Sticky (read_hold r).
Proof. unfold read_hold. apply _. Qed.
#[global] Instance Sticky_approval r : Sticky (read_approval r).
Proof. unfold read_approval. apply _. Qed.
#[global] Instance Sticky_completion r : Sticky (read_completion r).
Proof. unfold read_completion. apply _. Qed.

Lemma ProseOrNull_value max r x : ok (ProseOrNull max r) x → rv r = StringOrNull x.
Proof. by intros [? _]%(ok_text_or_null (λ w s, ParseProse w s 0 max)). Qed.

Lemma strings_field fn max semantic r ss :
  (∀ r, Sticky (fn r)) → (∀ r s, ok (fn r) s → rv r = VString s) →
  ok (Reader_Strings r max semantic fn) ss → rv r = Strings ss.
Proof. intros Hst Hfn H. by apply ok_Strings_value in H as [? _]. Qed.

(** [mark_inv] with the fields of a record. *)
Ltac record_inv :=
  repeat (mark_inv; match goal with
  | H : ok (ProseOrNull _ _) _ |- _ => apply ProseOrNull_value in H
  | H : ok (Prose _ _ _) _ |- _ => apply Prose_value in H
  | H : ok (Reader_Strings _ _ _ _) _ |- _ =>
      apply strings_field in H;
        [|apply _|first [apply Label_value|apply Identifier_value|apply Path_value|intros ? ?; apply Prose_value]]
  end; repeat match goal with H : context [rv (child ?r ?v ?s)] |- _ => change (rv (child r v s)) with v in H end);
  mark_inv.

#[global] Instance dependency_codec : Codec read_dependency dependency_value.
Proof.
  split; [apply _|]. intros r x Hd H. unfold read_dependency in H. record_inv. subst x.
  unfold dependency_value. cbn [dep_TicketID dep_Obligation dep_GateID]. same_members Hd.
Qed.

#[global] Instance source_codec : Codec read_source source_value.
Proof.
  split; [apply _|]. intros r x Hd H. unfold read_source in H. record_inv. subst x.
  unfold source_value. cbn [src_Kind src_SourceQueueID src_SourceItemID src_SourceRevisionSha256]. same_members Hd.
Qed.

#[global] Instance resource_codec : Codec read_resource resource_value.
Proof.
  split; [apply _|]. intros r x Hd H. unfold read_resource in H. record_inv. subst x.
  unfold resource_value. cbn [res_Class res_Key]. same_members Hd.
Qed.

#[global] Instance approval_codec : Codec read_approval approval_value.
Proof.
  split; [apply _|]. intros r x Hd H. unfold read_approval in H. record_inv. subst x.
  unfold approval_value. cbn [apr_GrantID apr_Actor apr_Operation apr_TargetRevision apr_Scope apr_Revoked apr_GrantedAt].
  same_members Hd.
Qed.

(** An array whose elements are decoded one by one. *)
Lemma array_field {A} (dec : Reader → M A) enc `{!Codec dec enc} r max semantic items xs :
  distinct (rv r) → ok (Array_ r max semantic) items → ok (each dec items) xs →
  canon (rv r) = canon (VArray (enc <$> xs)) ∧ (max < 0 ∨ Z.of_nat (length xs) ≤ max).
Proof.
  intros Hd (vs & Hv & Hmax & _ & ->)%ok_Array H. rewrite Hv in Hd |- *.
  apply (each_value dec enc) in H; [|by apply distinct_elements]. split.
  - rewrite !canon_VArray, H. f_equal. by rewrite <-list_fmap_compose.
  - apply (f_equal length) in H. rewrite !length_fmap in H. by rewrite <-H.
Qed.

(** The elements of an array member. *)
Ltac array_inv :=
  match goal with Ha : ok (Array_ ?f ?max ?semantic) ?items, He : ok (each ?dec ?items) ?xs |- _ =>
    let D := fresh in
    assert (distinct (rv f)) as D by (cbn [child rv]; member_distinct);
    apply (array_field dec _ f max semantic items xs D Ha) in He as [He ?]; cbn [child rv] in He; clear Ha D
  end.

(** ** Objects with optional members *)

Lemma optional_keys o v required optional fs :
  (∀ k, k ∈ Keys o ↔ k ∈ OptionalKeys v required optional) →
  forallb (λ k, existsb (String.eqb k) fs) (required ++ optional) = true →
  ∀ k, k ∈ Keys o → k ∈ fs.
Proof.
  intros Hk Hall k Hin%Hk. unfold OptionalKeys in Hin. rewrite elem_of_app, list_elem_of_filter in Hin.
  rewrite forallb_forall in Hall. specialize (Hall k). rewrite <-list_elem_of_In, elem_of_app in Hall.
  destruct (proj1 (existsb_exists _ _) (Hall ltac:(tauto))) as (k' & Hk' & ->%String.eqb_eq).
  by apply list_elem_of_In.
Qed.

(** Compare [rv r], an object with optional members, with its fields. *)
Ltac same_optional Hd :=
  same_object; subst;
  match goal with Hr : rv ?r = VObject ?o, Hk : ∀ k, k ∈ Keys ?o ↔ k ∈ OptionalKeys _ _ _ |- _ =>
    rewrite Hr in Hd |- *; apply same_fields;
    [by apply distinct_keys|nodup_keys|eapply optional_keys; [exact Hk|reflexivity]|] end;
  repeat (apply Forall_cons; split); try apply Forall_nil_2; cbn [fst snd];
  repeat match goal with H : Get _ _ = _ |- _ => rewrite H end; cbn [fmap option_fmap option_map].

(** An optional member that was read. *)
Lemma optional_member_ok {A} (absent : A) r key (m : Reader → M A) x o `{!∀ r, Sticky (m r)} :
  rv r = VObject o → ok (optional_member absent r key m) x →
  (Get o key = None ∧ x = absent) ∨ (∃ v, Get o key = Some v ∧ ok (m (child r v key)) x).
Proof.
  unfold optional_member, Has. intros Ho. rewrite Ho. case_bool_decide as Hs.
  - rewrite ok_bind by apply _. intros (f & Hf & Hm). rewrite ok_Field in Hf. destruct Hf as (o' & v & Ho' & Hg & ->).
    assert (o' = o) as -> by congruence. right. eauto.
  - rewrite ok_ret. intros <-. left. split; [|done]. by apply eq_None_not_Some.
Qed.

#[global] Instance Sticky_optional_member {A} (absent : A) r key (m : Reader → M A) `{!∀ r, Sticky (m r)} :
  Sticky (optional_member absent r key m).
Proof. unfold optional_member. apply _. Qed.

Lemma verdict_paths_ok r o touch x :
  rv r = VObject o → ok (ReadVerdictPaths r touch) x → Get o "verdictPaths" = Strings <$> x ∧ x ≠ Some [].
Proof.
  intros Ho H. unfold ReadVerdictPaths in H. rewrite ok_failed in H. unfold Has in H. rewrite Ho in H. cbn [orb] in H.
  case_bool_decide as Hs; cbn [negb] in H.
  - rewrite ok_bind in H by apply _. destruct H as (f & Hf & H). rewrite ok_Field in Hf. destruct Hf as (o' & v & Ho' & Hg & ->).
    assert (o' = o) as -> by congruence. rewrite ok_bind in H by apply _. destruct H as (ps & Hp & H).
    apply strings_field in Hp; [|apply _|apply Path_value]. cbn [child rv] in Hp. rewrite ok_failed in H. cbv iota in H.
    destruct (Nat.eqb_spec (length ps) 0); [ok_inv|]. destruct (_ <=? _) in H; [ok_inv|].
    rewrite ok_ret in H. subst x v. split; [done|]. by intros [= ->].
  - rewrite ok_ret in H. subst. split; [|done]. by apply eq_None_not_Some.
Qed.

Definition effects_fields (e : Effects) : fields :=
  [("coverage", Some (VString (eff_Coverage e))); ("touchPaths", Some (Strings (eff_TouchPaths e)));
   ("resources", Some (VArray (resource_value <$> eff_Resources e)));
   ("externalUnbounded", Some (VBool (eff_ExternalUnbounded e))); ("verdictPaths", Strings <$> eff_VerdictPaths e)].

#[global] Instance effects_codec : Codec read_effects effects_value.
Proof.
  split; [apply _|]. intros r x Hd H.
  assert (effects_value x = VObject (members_of (effects_fields x))) as -> by (destruct x as [? ? ? ? []]; reflexivity).
  unfold read_effects in H. record_inv. same_object. subst.
  match goal with H : ok (ReadVerdictPaths _ _) _ |- _ => eapply verdict_paths_ok in H as [Hv _]; [|done] end.
  array_inv.
  unfold effects_fields. cbn [eff_Coverage eff_TouchPaths eff_Resources eff_ExternalUnbounded eff_VerdictPaths].
  same_optional Hd; congruence.
Qed.

Definition hold_fields (h : Hold) : fields :=
  [("holdId", Some (VString (hold_HoldID h))); ("actor", Some (VString (hold_Actor h)));
   ("reason", Some (VString (hold_Reason h))); ("placedAt", Some (VString (hold_PlacedAt h)));
   ("condition", HoldCondition_Value <$> hold_Condition h)].

#[global] Instance Sticky_hold_condition r key :
  Sticky (optional_member None r key (λ f, c ← ReadHoldCondition f; mret (Some c))).
Proof. apply _. Qed.

(** A hold's condition, if it has one. *)
Lemma hold_member_ok r o c :
  distinct (rv r) → rv r = VObject o →
  ok (if Has (rv r) "condition" then f ← Field r "condition"; c ← ReadHoldCondition f; mret (Some c) else mret None) c →
  canon <$> Get o "condition" = canon <$> (HoldCondition_Value <$> c).
Proof.
  intros Hd Ho H. apply (optional_member_ok None r "condition" (λ f, c ← ReadHoldCondition f; mret (Some c)) c o Ho)
    in H as [[-> ->]|(v & Hg & H)]; [done|].
  rewrite ok_bind in H by apply _. destruct H as (x & Hx & H). rewrite ok_ret in H. subst c.
  apply hold_condition_ok in Hx as (Hc & _); [|cbn [child rv]; member_distinct].
  cbn [child rv] in Hc. rewrite Hg. cbn [fmap option_fmap option_map]. by rewrite Hc.
Qed.

#[global] Instance hold_codec : Codec read_hold hold_value.
Proof.
  split; [apply _|]. intros r x Hd H.
  assert (hold_value x = VObject (members_of (hold_fields x))) as -> by (destruct x as [? ? ? ? []]; reflexivity).
  unfold read_hold in H.
  rewrite ok_bind in H by apply _. destruct H as (u & Hc & H). rewrite ok_Closed in Hc. destruct Hc as (o & Ho & Hk).
  do 8 (rewrite ok_bind in H by apply _; destruct H as (? & ? & H)).
  rewrite ok_bind in H by apply _. destruct H as (c & Hcond & H).
  eapply hold_member_ok in Hcond; [|done..]. record_inv. same_object. subst.
  unfold hold_fields. cbn [hold_HoldID hold_Actor hold_Reason hold_PlacedAt hold_Condition].
  same_optional Hd; congruence.
Qed.

Lemma evidence_value r items xs i :
  ok (each Digest (children r i items)) xs → items = VString <$> xs.
Proof.
  revert xs i. induction items as [|v items IH]; intros xs i; cbn [children]; rewrite ok_each by apply _; intros H;
    inv H as [|? x ? xs' Hx Hxs]; [done|].
  apply Digest_value in Hx. cbn [child rv] in Hx. subst v. rewrite fmap_cons. f_equal. eapply IH. by rewrite ok_each by apply _.
Qed.

#[global] Instance completion_codec : Codec read_completion completion_value.
Proof.
  split; [apply _|]. intros r x Hd H. unfold read_completion in H. destruct (IsNull r) eqn:Hn.
  { apply IsNull_true in Hn. rewrite ok_ret in H. subst x. by rewrite Hn. }
  record_inv. subst x.
  match goal with Ha : ok (Array_ _ _ _) _, He : ok (each Digest _) _ |- _ =>
    rewrite ok_Array in Ha; destruct Ha as (vs & Hv & _ & _ & ->); apply evidence_value in He; cbn [child rv] in Hv; subst vs end.
  unfold completion_value. cbn [cmp_Kind cmp_Actor cmp_Reason cmp_Evidence cmp_ManifestSha256 cmp_RecordedAt].
  same_members Hd.
Qed.

(** ** Groups of members *)

(** The object has the member as it is written, up to the order of keys. *)
Definition agrees (o : Object) (kv : string * option Value) : Prop := canon <$> Get o kv.1 = canon <$> kv.2.

Definition optional_fields (op : optional_part) : fields :=
  [("requiredRoles", StageRolesValue <$> op_RequiredRoles op);
   ("executionPrerequisites", when (0 <? length (op_ExecutionPrerequisites op))%nat (PrerequisitesValue (op_ExecutionPrerequisites op)));
   ("attachedEvidence", when (0 <? length (op_AttachedEvidence op))%nat (AttachedEvidenceValue (op_AttachedEvidence op)));
   ("progress", when (0 <? length (op_Progress op))%nat (ProgressValue (op_Progress op)));
   ("knowHow", when (0 <? length (op_KnowHow op))%nat (KnowHowValue (op_KnowHow op)));
   ("obligations", ObligationsReference_Value <$> op_ObligationsRef op)].

#[global] Instance Sticky_ReadPrerequisites r : Sticky (ReadPrerequisites r).
Proof. unfold ReadPrerequisites. apply _. Qed.
#[global] Instance Sticky_ReadAttachedEvidence r : Sticky (ReadAttachedEvidence r).
Proof. unfold ReadAttachedEvidence. apply _. Qed.
#[global] Instance Sticky_ReadProgress r : Sticky (ReadProgress r).
Proof. unfold ReadProgress. apply _. Qed.

Lemma progress_ok r ps :
  distinct (rv r) → ok (ReadProgress r) ps →
  canon (rv r) = canon (ProgressValue ps) ∧ ps ≠ [] ∧ Forall (λ p, ProgressMark_Validate (prg_Mark p) = None) ps.
Proof.
  intros Hd H. eapply (entries_ok read_progress_entry _ (λ p, ProgressMark_Validate (prg_Mark p) = None)) in H
    as (? & ? & _ & ?); [done| |done|done].
  by intros r' p Hr [_ ?]%progress_entry_ok.
Qed.

Lemma attached_entries_ok r es :
  distinct (rv r) → ok (ReadAttachedEvidence r) es →
  canon (rv r) = canon (AttachedEvidenceValue es) ∧ es ≠ [] ∧
  Forall (λ a, att_Evidence a ≠ [] ∧ NoDup (att_Evidence a) ∧ blank (att_Reason a) = false) es.
Proof.
  intros Hd H. eapply (entries_ok read_attached_evidence _
    (λ a, att_Evidence a ≠ [] ∧ NoDup (att_Evidence a) ∧ blank (att_Reason a) = false)) in H as (? & ? & _ & ?);
    [done| |done|done].
  by intros r' a Hr [_ ?]%attached_evidence_ok.
Qed.

Lemma when_length {A} (xs : list A) (enc : list A → Value) v :
  xs ≠ [] → canon v = canon (enc xs) → canon <$> Some v = canon <$> when (0 <? length xs)%nat (enc xs).
Proof. intros Hx H. destruct xs; [done|]. cbn [length when fmap option_fmap option_map]. by rewrite H. Qed.

(** A list member that is left out when it is empty. *)
Lemma list_member_ok {A} (m : Reader → M (list A)) enc (P : A → Prop) r o key xs `{Hst : !∀ r, Sticky (m r)} :
  (∀ r x, distinct (rv r) → ok (m r) x → canon (rv r) = canon (enc x) ∧ x ≠ [] ∧ Forall P x) →
  distinct (rv r) → rv r = VObject o → ok (optional_member [] r key m) xs →
  agrees o (key, when (0 <? length xs)%nat (enc xs)) ∧ Forall P xs.
Proof.
  intros Hm Hd Ho H. destruct (optional_member_ok _ _ _ _ _ _ Ho H) as [[Hg ->]|(v & Hg & Hx)].
  - unfold agrees. cbn [fst snd length]. by rewrite Hg.
  - apply Hm in Hx as (Hc & Hne & Hall); [|cbn [child rv]; member_distinct]. cbn [child rv] in Hc.
    split; [|done]. unfold agrees. cbn [fst snd]. rewrite Hg. by apply when_length.
Qed.

(** What the decoder grants of the optional members. *)
Definition optional_wf (op : optional_part) : Prop :=
  (∀ m, op_RequiredRoles op = Some m → stage_roles_wf m) ∧
  Forall (λ p, pre_Stages p ≠ [] ∧ Forall (λ s, s ∈ Stages) (pre_Stages p) ∧ pre_Obligation p ∈ Obligations)
    (op_ExecutionPrerequisites op) ∧
  Forall (λ a, att_Evidence a ≠ [] ∧ NoDup (att_Evidence a) ∧ blank (att_Reason a) = false) (op_AttachedEvidence op) ∧
  Forall (λ p, ProgressMark_Validate (prg_Mark p) = None) (op_Progress op) ∧
  Forall entry_shape (op_KnowHow op) ∧
  ∀ o, op_ObligationsRef op = Some o → obligations_wf o.

(** A member that is left out when there is none. *)
Lemma option_member_ok {A} (m : Reader → M (option A)) enc (P : A → Prop) r o key x `{Hst : !∀ r, Sticky (m r)} :
  (∀ r x, distinct (rv r) → ok (m r) x → ∃ a, x = Some a ∧ canon (rv r) = canon (enc a) ∧ P a) →
  distinct (rv r) → rv r = VObject o → ok (optional_member None r key m) x →
  agrees o (key, enc <$> x) ∧ ∀ a, x = Some a → P a.
Proof.
  intros Hm Hd Ho H. unfold agrees. cbn [fst snd].
  destruct (optional_member_ok _ _ _ _ _ _ Ho H) as [[-> ->]|(v & Hg & Hx)]; [done|].
  apply Hm in Hx as (a & -> & Hc & Ha); [|cbn [child rv]; member_distinct]. cbn [child rv] in Hc.
  split; [|by intros ? [= <-]]. rewrite Hg. cbn [fmap option_fmap option_map]. by rewrite Hc.
Qed.

Lemma roles_member_ok r x :
  distinct (rv r) → ok (m ← ReadStageRoles r; mret (Some m)) x →
  ∃ m, x = Some m ∧ canon (rv r) = canon (StageRolesValue m) ∧ stage_roles_wf m.
Proof.
  intros Hd H. rewrite ok_bind in H by apply _. destruct H as (m & H & Hx). rewrite ok_ret in Hx. subst x.
  exists m. split; [done|]. by apply stage_roles_ok.
Qed.

Lemma read_optional_ok r o op :
  distinct (rv r) → rv r = VObject o → ok (read_optional r) op →
  Forall (agrees o) (optional_fields op) ∧ optional_wf op.
Proof.
  intros Hd Ho H. unfold read_optional in H.
  rewrite ok_bind in H by apply _. destruct H as (x1 & H1 & H). rewrite ok_bind in H by apply _. destruct H as (x2 & H2 & H).
  rewrite ok_bind in H by apply _. destruct H as (x3 & H3 & H). rewrite ok_bind in H by apply _. destruct H as (x4 & H4 & H).
  rewrite ok_bind in H by apply _. destruct H as (x5 & H5 & H). rewrite ok_bind in H by apply _. destruct H as (x6 & H6 & H).
  rewrite ok_ret in H. subst op.
  destruct (option_member_ok _ _ _ _ _ _ _ roles_member_ok Hd Ho H1) as [A1 W1].
  destruct (list_member_ok _ _ _ _ _ _ _ prerequisites_ok Hd Ho H2) as [A2 W2].
  destruct (list_member_ok _ _ _ _ _ _ _ attached_entries_ok Hd Ho H3) as [A3 W3].
  destruct (list_member_ok _ _ _ _ _ _ _ progress_ok Hd Ho H4) as [A4 W4].
  destruct (list_member_ok _ _ _ _ _ _ _ know_how_ok Hd Ho H5) as [A5 W5].
  destruct (option_member_ok _ _ _ _ _ _ _ obligations_ok Hd Ho H6) as [A6 W6].
  split; [repeat constructor; done|by split_and!].
Qed.

Lemma unless_null_ok {A} (m : Reader → M A) r x `{Hst : !∀ r, Sticky (m r)} :
  ok (unless_null m r) x → (rv r = VNull ∧ x = None) ∨ ∃ a, ok (m r) a ∧ x = Some a.
Proof.
  unfold unless_null. destruct (IsNull r) eqn:Hn.
  - apply IsNull_true in Hn. rewrite ok_ret. intros <-. by left.
  - rewrite ok_bind by apply _. intros (a & Ha & Hx). rewrite ok_ret in Hx. right. eauto.
Qed.

#[global] Instance Sticky_unless_null {A} (m : Reader → M A) r `{Hst : !∀ r, Sticky (m r)} : Sticky (unless_null m r).
Proof. unfold unless_null. apply _. Qed.

Lemma archived_value r x :
  ok (unless_null (λ f, Enum f ArchivedFroms) r) x → rv r = StringOrNull x ∧ ∀ a, x = Some a → a ∈ ArchivedFroms.
Proof.
  intros H. destruct (unless_null_ok _ _ _ H) as [[-> ->]|(a & Ha & ->)]; [done|]. rewrite ok_Enum in Ha. destruct Ha as [-> Ha]. split; [done|]. by intros ? [= <-].
Qed.

Lemma ticket_value r x : ok (unless_null Reader_TicketID r) x → rv r = ticketOrNull x.
Proof. intros H. by destruct (unless_null_ok _ _ _ H) as [[-> ->]|(a & Ha%TicketID_value & ->)]. Qed.

#[global] Instance Sticky_read_priority r : Sticky (read_priority r).
Proof. unfold read_priority. apply _. Qed.

Lemma priority_value r s : ok (read_priority r) s → rv r = VString s ∧ s ∈ Priorities.
Proof.
  unfold read_priority. rewrite ok_bind by apply _. intros (t & Ht%ok_String & H). rewrite ok_failed in H. cbn [negb andb] in H.
  destruct (existsb _ _) eqn:Hx; cbn [negb] in H; [|by apply ok_Fail in H; [|apply _]].
  rewrite ok_bind in H by apply _. destruct H as (u & _ & H). rewrite ok_ret in H. subst t. split; [done|].
  apply existsb_exists in Hx as (p & Hp & <-%String.eqb_eq). by apply list_elem_of_In.
Qed.

#[global] Instance Sticky_read_due r : Sticky (read_due r).
Proof. unfold read_due. apply _. Qed.

Lemma due_value r x :
  ok (unless_null read_due r) x → rv r = StringOrNull x ∧ ∀ d, x = Some d → ∃ w, ParseDate w d = Ok d.
Proof.
  intros Hn. destruct (unless_null_ok _ _ _ Hn) as [[-> ->]|(d & H & ->)]; [done|]. unfold read_due in H.
  rewrite ok_bind in H by apply _. destruct H as (t & Ht%ok_String & H). rewrite ok_failed in H. cbv iota in H.
  rewrite ok_bind in H by apply _. destruct H as (u & Hu & H). rewrite ok_ret in H. subst t.
  split; [done|]. intros ? [= <-]. exists (rwhere r).
  assert (∀ w t, ParseDate w d = Ok t → t = d) as Hsame.
  { intros w t. unfold ParseDate. repeat case_match; congruence. }
  assert (ParseDate (rwhere r) d ≠ OutOfFuel) as Hf by (unfold ParseDate; repeat case_match; congruence).
  destruct (ParseDate (rwhere r) d) as [t|?|] eqn:Hp; [by rewrite (Hsame _ _ Hp)|by apply ok_Fail_last in Hu|done].
Qed.

Ltac part_inv :=
  repeat (record_inv; match goal with
  | H : ok (unless_null (λ f, Enum f ArchivedFroms) _) _ |- _ => apply archived_value in H as [H ?]
  | H : ok (unless_null Reader_TicketID _) _ |- _ => apply ticket_value in H
  | H : ok (unless_null read_due _) _ |- _ => apply due_value in H as [H ?]
  | H : ok (read_priority _) _ |- _ => apply priority_value in H as [H ?]
  end; repeat match goal with H : context [rv (child ?r ?v ?s)] |- _ => change (rv (child r v s)) with v in H end);
  record_inv.

Definition head_fields (hp : head_part) : fields :=
  [("ticketId", Some (VString (TicketID_Raw (hp_TicketID hp)))); ("revision", Some (VString (hp_Revision hp)));
   ("acceptanceRevision", Some (VString (hp_AcceptanceRevision hp)));
   ("previousRecordSha256", Some (digestOrNull (hp_PreviousRecordSha256 hp))); ("status", Some (VString (hp_Status hp)));
   ("archivedFrom", Some (StringOrNull (hp_ArchivedFrom hp))); ("title", Some (VString (hp_Title hp)));
   ("body", Some (StringOrNull (hp_Body hp))); ("kind", Some (VString (hp_Kind hp)));
   ("requiresPool", when (negb (hp_RequiresPool hp =s ε)) (VString (hp_RequiresPool hp)))].

(** The id is the one its text parses to. *)
Definition ticket_parsed (t : TicketID) : Prop := ∃ w, ParseTicketID w (TicketID_Raw t) = Ok t.

Definition head_wf (hp : head_part) : Prop :=
  (hp_Status hp ∈ Statuses ∧ hp_Kind hp ∈ Kinds ∧ ∀ a, hp_ArchivedFrom hp = Some a → a ∈ ArchivedFroms) ∧
  ticket_parsed (hp_TicketID hp).

Lemma ticket_id_parsed r t : ok (Reader_TicketID r) t → ticket_parsed t.
Proof.
  unfold Reader_TicketID. rewrite ok_parsed. intros (s & _ & [H|[H _]]); [|by apply ParseTicketID_fuel in H].
  eexists. by rewrite (ParseTicketID_raw _ _ _ H).
Qed.

Lemma head_ticket r hp : ok (read_head r) hp → ticket_parsed (hp_TicketID hp).
Proof.
  intros H. unfold read_head in H. rewrite ok_bind in H by apply _. destruct H as (f & _ & H).
  rewrite ok_bind in H by apply _. destruct H as (t & Ht%ticket_id_parsed & H). part_inv. by subst.
Qed.

Lemma pool_member_ok r o s :
  rv r = VObject o → ok (optional_member ε r "requiresPool" Label) s →
  agrees o ("requiresPool", when (negb (s =s ε)) (VString s)).
Proof.
  intros Ho H. unfold agrees. cbn [fst snd].
  destruct (optional_member_ok _ _ _ _ _ _ Ho H) as [[-> ->]|(v & Hg & [Hv Hp]%(ok_text ParseLabel))]; [done|].
  cbn [child rv] in Hv. subst v. rewrite Hg. by destruct s.
Qed.

(** The members agree as they were read. *)
Ltac members_agree :=
  repeat (apply Forall_cons; split); try apply Forall_nil_2; unfold agrees; cbn [fst snd];
  repeat match goal with H : Get _ _ = _ |- _ => rewrite H end; cbn [fmap option_fmap option_map];
  first [done | by subst | f_equal; done | congruence].

Lemma read_head_ok r o hp :
  rv r = VObject o → ok (read_head r) hp → Forall (agrees o) (head_fields hp) ∧ head_wf hp.
Proof.
  intros Ho H. pose proof (head_ticket _ _ H) as Ht. unfold read_head in H. part_inv. same_object. subst.
  match goal with H : ok (optional_member _ _ _ _) _ |- _ => apply (pool_member_ok _ o) in H; [|done]; rename H into Hpool end.
  split; [|by split_and!]. unfold head_fields. cbn [hp_TicketID hp_Revision hp_AcceptanceRevision hp_PreviousRecordSha256
    hp_Status hp_ArchivedFrom hp_Title hp_Body hp_Kind hp_RequiresPool].
  members_agree.
Qed.

Definition plan_fields (pp : plan_part) : fields :=
  [("owner", Some (StringOrNull (pp_Owner pp))); ("milestone", Some (StringOrNull (pp_Milestone pp)));
   ("priority", Some (VString (pp_Priority pp))); ("order", Some (VString (pp_Order pp)));
   ("labels", Some (Strings (pp_Labels pp))); ("dependencies", Some (VArray (dependency_value <$> pp_Dependencies pp)));
   ("acceptanceCriteria", Some (Strings (pp_AcceptanceCriteria pp)));
   ("requirementRefs", Some (Strings (pp_RequirementRefs pp))); ("source", Some (source_value (pp_Source pp)));
   ("effects", Some (effects_value (pp_Effects pp))); ("capabilities", Some (Strings (pp_Capabilities pp)));
   ("requiredGates", Some (Strings (pp_RequiredGates pp)))].

Definition label (s : string) : Prop := ∃ w, ParseLabel w s = Ok s.

(** Distinct labels within their bound, and a label for the milestone. *)
Definition labelled (milestone : option string) (labels : list string) : Prop :=
  (∀ m, milestone = Some m → label m) ∧ Forall label labels ∧ NoDup labels ∧ Z.of_nat (length labels) ≤ MaxLabels.

Definition plan_wf (pp : plan_part) : Prop :=
  (pp_Priority pp ∈ Priorities ∧ Z.of_nat (length (pp_Dependencies pp)) ≤ MaxDependencies) ∧
  labelled (pp_Milestone pp) (pp_Labels pp).

Lemma label_ok r s : ok (Label r) s → label s.
Proof. intros [_ H]%(ok_text ParseLabel). by exists (rwhere r). Qed.

Lemma before_NoDup ss : StronglySorted before (VString <$> ss) → NoDup ss.
Proof.
  induction ss as [|s ss IH]; [constructor|]. rewrite fmap_cons. intros [Hs Hall]%StronglySorted_inv. constructor; [|by apply IH].
  intros Hin. rewrite Forall_fmap, Forall_forall in Hall. specialize (Hall s Hin). unfold before, compose in Hall.
  by rewrite ltb_irrefl in Hall.
Qed.

Lemma plan_labelled r pp : ok (read_plan r) pp → labelled (pp_Milestone pp) (pp_Labels pp).
Proof.
  unfold read_plan. intros H.
  repeat match type of H with
  | ok (LabelOrNull _ ≫= _) _ => rewrite ok_bind in H by apply _; let x := fresh "ml" in let Hx := fresh "Hml" in destruct H as (x & Hx & H)
  | ok (Reader_Strings _ _ _ Label ≫= _) _ => rewrite ok_bind in H by apply _; let x := fresh "ls" in let Hx := fresh "Hls" in destruct H as (x & Hx & H)
  | ok (_ ≫= _) _ => rewrite ok_bind in H by apply _; destruct H as (? & _ & H)
  end. rewrite ok_ret in H. subst pp. cbn [pp_Milestone pp_Labels].
  split_and!.
  - intros m ->. destruct (proj1 (ok_or_null Label _ _) Hml0) as [[_ ?]|(_ & a & Ha & [= <-])]; [done|by eapply label_ok].
  - eapply (ok_Strings_Forall label) with (fn := Label); [apply _|intros ? ?; apply label_ok|exact Hls].
  - apply ok_Strings_value in Hls as (_ & _ & [|Hs]); [done|by apply before_NoDup|apply _|intros ? ?; apply Label_value].
  - apply ok_Strings_value in Hls as (_ & [?|?] & _); [by unfold MaxLabels in *|done|apply _|intros ? ?; apply Label_value].
Qed.

Definition state_fields (sp : state_part) : fields :=
  [("holds", Some (VArray (hold_value <$> sp_Holds sp))); ("executionClass", Some (VString (sp_ExecutionClass sp)));
   ("approvals", Some (VArray (approval_value <$> sp_Approvals sp)));
   ("completion", Some (completion_value (sp_Completion sp))); ("dueDate", Some (StringOrNull (sp_DueDate sp)));
   ("estimateMinutes", Some (match sp_EstimateMinutes sp with None => VNull | Some n => VString n end));
   ("supersedes", Some (ticketOrNull (sp_Supersedes sp))); ("supersededBy", Some (ticketOrNull (sp_SupersededBy sp)));
   ("shadowOverlay", Some (VBool (sp_ShadowOverlay sp))); ("createdAt", Some (VString (sp_CreatedAt sp)));
   ("updatedAt", Some (VString (sp_UpdatedAt sp))); ("updatedBy", Some (VString (sp_UpdatedBy sp)))].

Definition state_wf (sp : state_part) : Prop :=
  sp_ExecutionClass sp ∈ ExecutionClasses ∧ Z.of_nat (length (sp_Holds sp)) ≤ MaxHolds ∧
  Z.of_nat (length (sp_Approvals sp)) ≤ MaxApprovals ∧ ∀ d, sp_DueDate sp = Some d → ∃ w, ParseDate w d = Ok d.

(** The object members of a group, through their codecs. *)
Ltac codec_inv :=
  repeat match goal with
  | H : ok (read_source _) _ |- _ => apply codec_value in H; [cbn [child rv] in H|cbn [child rv]; member_distinct]
  | H : ok (read_effects _) _ |- _ => apply codec_value in H; [cbn [child rv] in H|cbn [child rv]; member_distinct]
  | H : ok (read_completion _) _ |- _ => apply codec_value in H; [cbn [child rv] in H|cbn [child rv]; member_distinct]
  | _ => array_inv
  end.

Lemma read_plan_ok r o pp :
  distinct (rv r) → rv r = VObject o → ok (read_plan r) pp → Forall (agrees o) (plan_fields pp) ∧ plan_wf pp.
Proof.
  intros Hd Ho H. pose proof (plan_labelled _ _ H) as Hl. unfold read_plan in H. part_inv. same_object. subst. codec_inv.
  split; [|split; [split; [done|]; unfold MaxDependencies in *; cbn [pp_Dependencies]; lia|done]].
  unfold plan_fields. cbn [pp_Owner pp_Milestone pp_Priority pp_Order pp_Labels pp_Dependencies pp_AcceptanceCriteria
    pp_RequirementRefs pp_Source pp_Effects pp_Capabilities pp_RequiredGates].
  members_agree.
Qed.

Lemma read_state_ok r o sp :
  distinct (rv r) → rv r = VObject o → ok (read_state r) sp → Forall (agrees o) (state_fields sp) ∧ state_wf sp.
Proof.
  intros Hd Ho H. unfold read_state in H. part_inv. same_object. subst. codec_inv.
  split; [|unfold state_wf; split_and!; unfold MaxHolds, MaxApprovals in *; cbn [sp_Holds sp_Approvals]; done || lia].
  unfold state_fields. cbn [sp_Holds sp_ExecutionClass sp_Approvals sp_Completion sp_DueDate sp_EstimateMinutes
    sp_Supersedes sp_SupersededBy sp_ShadowOverlay sp_CreatedAt sp_UpdatedAt sp_UpdatedBy].
  members_agree.
Qed.

(** ** The record *)

Definition record_fields (rec : Record_) : fields :=
  [("profile", Some (VString Ticket.Profile)); ("ticketId", Some (VString (TicketID_Raw (rec_TicketID rec))));
   ("revision", Some (VString (rec_Revision rec))); ("acceptanceRevision", Some (VString (rec_AcceptanceRevision rec)));
   ("previousRecordSha256", Some (digestOrNull (rec_PreviousRecordSha256 rec)));
   ("status", Some (VString (rec_Status rec))); ("archivedFrom", Some (StringOrNull (rec_ArchivedFrom rec)));
   ("title", Some (VString (rec_Title rec))); ("body", Some (StringOrNull (rec_Body rec)));
   ("kind", Some (VString (rec_Kind rec))); ("requiredRoles", StageRolesValue <$> rec_RequiredRoles rec);
   ("requiresPool", when (negb (rec_RequiresPool rec =s ε)) (VString (rec_RequiresPool rec)));
   ("escalations", escalationRefsValue <$> rec_Escalations rec);
   ("operatorNote", OperatorNoteReference_Value <$> rec_OperatorNote rec);
   ("externalReviews", when (0 <? size (rec_ExternalReviews rec))%nat (ExternalReviewsValue (rec_ExternalReviews rec)));
   ("executionPrerequisites",
     when (0 <? length (rec_ExecutionPrerequisites rec))%nat (PrerequisitesValue (rec_ExecutionPrerequisites rec)));
   ("attachedEvidence",
     when (0 <? length (rec_AttachedEvidence rec))%nat (AttachedEvidenceValue (rec_AttachedEvidence rec)));
   ("progress", when (0 <? length (rec_Progress rec))%nat (ProgressValue (rec_Progress rec)));
   ("knowHow", when (0 <? length (rec_KnowHow rec))%nat (KnowHowValue (rec_KnowHow rec)));
   ("obligations", ObligationsReference_Value <$> rec_ObligationsRef rec);
   ("owner", Some (StringOrNull (rec_Owner rec))); ("milestone", Some (StringOrNull (rec_Milestone rec)));
   ("priority", Some (VString (rec_Priority rec))); ("order", Some (VString (rec_Order rec)));
   ("labels", Some (Strings (rec_Labels rec)));
   ("dependencies", Some (VArray (dependency_value <$> rec_Dependencies rec)));
   ("acceptanceCriteria", Some (Strings (rec_AcceptanceCriteria rec)));
   ("requirementRefs", Some (Strings (rec_RequirementRefs rec))); ("source", Some (source_value (rec_Source rec)));
   ("effects", Some (effects_value (rec_Effects rec))); ("capabilities", Some (Strings (rec_Capabilities rec)));
   ("requiredGates", Some (Strings (rec_RequiredGates rec)));
   ("holds", Some (VArray (hold_value <$> rec_Holds rec))); ("executionClass", Some (VString (rec_ExecutionClass rec)));
   ("approvals", Some (VArray (approval_value <$> rec_Approvals rec)));
   ("completion", Some (completion_value (rec_Completion rec))); ("dueDate", Some (StringOrNull (rec_DueDate rec)));
   ("estimateMinutes", Some (match rec_EstimateMinutes rec with None => VNull | Some n => VString n end));
   ("supersedes", Some (ticketOrNull (rec_Supersedes rec))); ("supersededBy", Some (ticketOrNull (rec_SupersededBy rec)));
   ("shadowOverlay", Some (VBool (rec_ShadowOverlay rec))); ("createdAt", Some (VString (rec_CreatedAt rec)));
   ("updatedAt", Some (VString (rec_UpdatedAt rec))); ("updatedBy", Some (VString (rec_UpdatedBy rec)))].

Lemma record_keys rec : NoDup (record_fields rec).*1.
Proof. cbn [record_fields fmap list_fmap fst]. nodup_keys. Qed.

Lemma Record_Value_members rec : Record_Value rec = VObject (members_of (record_fields rec)).
Proof.
  transitivity (VObject (foldl (λ o kv, set_opt o kv.1 kv.2) NewObject (record_fields rec))); [reflexivity|].
  rewrite set_opt_members; [done|apply record_keys|]. intros k _. apply not_elem_of_nil.
Qed.

#[global] Instance Sticky_read_optional r : Sticky (read_optional r).
Proof. unfold read_optional. apply _. Qed.
#[global] Instance Sticky_read_head r : Sticky (read_head r).
Proof. unfold read_head. apply _. Qed.
#[global] Instance Sticky_read_plan r : Sticky (read_plan r).
Proof. unfold read_plan. apply _. Qed.
#[global] Instance Sticky_read_state r : Sticky (read_state r).
Proof. unfold read_state. apply _. Qed.
#[global] Instance Sticky_read_record r : Sticky (read_record r).
Proof. unfold read_record. apply _. Qed.

Lemma run_no_error {A} (m : M A) s a `{!Sticky m} : run m s = Ok a → err s = None.
Proof.
  unfold run. intros H. destruct (err s) as [e|] eqn:He; [|done].
  pose proof (sticky (m := m) s ltac:(by rewrite He)) as Hs. destruct (m s) as [b s']. cbn in Hs. subst s'.
  by rewrite He in H.
Qed.

(** What the decoder grants of every record it returns. *)
Record record_wf (op : optional_part) (hp : head_part) (pp : plan_part) (sp : state_part) : Prop := {
  wf_optional : optional_wf op;
  wf_head : head_wf hp;
  wf_plan : plan_wf pp;
  wf_state : state_wf sp
}.

Lemma read_record_ok r o op hp pp sp :
  distinct (rv r) → rv r = VObject o → ok (read_record r) (op, hp, pp, sp) →
  Forall (agrees o) (optional_fields op ++ head_fields hp ++ plan_fields pp ++ state_fields sp) ∧ record_wf op hp pp sp.
Proof.
  intros Hd Ho H. unfold read_record in H.
  rewrite ok_bind in H by apply _. destruct H as (x1 & H1 & H). rewrite ok_bind in H by apply _. destruct H as (x2 & H2 & H).
  rewrite ok_bind in H by apply _. destruct H as (x3 & H3 & H). rewrite ok_bind in H by apply _. destruct H as (x4 & H4 & H).
  rewrite ok_ret in H. injection H as -> -> -> ->.
  destruct (read_optional_ok _ _ _ Hd Ho H1) as [? ?], (read_head_ok _ _ _ Ho H2) as [? ?],
    (read_plan_ok _ _ _ Hd Ho H3) as [? ?], (read_state_ok _ _ _ Hd Ho H4) as [? ?].
  rewrite !Forall_app. by split_and!.
Qed.

(** What the decoder grants of a record before it is validated. *)
Record decoded (rec : Record_) : Prop := {
  dec_id : ticket_parsed (rec_TicketID rec);
  dec_status : rec_Status rec ∈ Statuses;
  dec_kind : rec_Kind rec ∈ Kinds;
  dec_archived a : rec_ArchivedFrom rec = Some a → a ∈ ArchivedFroms;
  dec_priority : rec_Priority rec ∈ Priorities;
  dec_class : rec_ExecutionClass rec ∈ ExecutionClasses;
  dec_labels : labelled (rec_Milestone rec) (rec_Labels rec);
  dec_due d : rec_DueDate rec = Some d → ∃ w, ParseDate w d = Ok d;
  dec_dependencies : Z.of_nat (length (rec_Dependencies rec)) ≤ MaxDependencies;
  dec_holds : Z.of_nat (length (rec_Holds rec)) ≤ MaxHolds;
  dec_approvals : Z.of_nat (length (rec_Approvals rec)) ≤ MaxApprovals;
  dec_roles m : rec_RequiredRoles rec = Some m → stage_roles_wf m;
  dec_prerequisites : Forall (λ p, pre_Stages p ≠ [] ∧ Forall (λ s, s ∈ Stages) (pre_Stages p) ∧ pre_Obligation p ∈ Obligations)
    (rec_ExecutionPrerequisites rec);
  dec_evidence : Forall (λ a, att_Evidence a ≠ [] ∧ NoDup (att_Evidence a) ∧ blank (att_Reason a) = false) (rec_AttachedEvidence rec);
  dec_progress : Forall (λ p, ProgressMark_Validate (prg_Mark p) = None) (rec_Progress rec);
  dec_know_how : Forall entry_shape (rec_KnowHow rec);
  dec_obligations o : rec_ObligationsRef rec = Some o → obligations_wf o;
  dec_note n : rec_OperatorNote rec = Some n →
    1 ≤ Count_Int (note_Revision n) ≤ MaxOperatorNoteEvents ∧ (note_Current n = None ∨ note_Current n = Some (note_Head n));
  dec_reviews : rec_ExternalReviews rec = ∅ ∨ external_reviews_wf (rec_ExternalReviews rec);
  dec_escalations r : rec_Escalations rec = Some r → EscalationRefs_Validate r = None
}.

Lemma member_value_st0 r o key v : rv r = VObject o → Get o key = Some v → member_value r key st0 = v.
Proof.
  intros Ho Hg. unfold member_value.
  assert (ok (Field r key) (child r v key)) as Hf by (rewrite ok_Field; eauto). unfold ok in Hf. by rewrite Hf.
Qed.

Lemma operator_note_member o r n :
  rv r = VObject o → distinct (VObject o) → read_operator_note r (VObject o) st0 = Ok n →
  agrees o ("operatorNote", OperatorNoteReference_Value <$> n) ∧
  ∀ x, n = Some x → 1 ≤ Count_Int (note_Revision x) ≤ MaxOperatorNoteEvents ∧ (note_Current x = None ∨ note_Current x = Some (note_Head x)).
Proof.
  intros Ho Hd. unfold read_operator_note, Has, agrees. cbn [fst snd]. case_bool_decide as Hs.
  - destruct Hs as [v Hv]. rewrite (member_value_st0 _ _ _ _ Ho Hv). intros (x & Hx & [= <-])%obind_Ok.
    apply operator_note_ok in Hx as (Hc & Hr & Hh); [|by eapply distinct_member]. rewrite Hv.
    cbn [fmap option_fmap option_map]. rewrite Hc. split; [done|]. by intros ? [= <-].
  - intros [= <-]. split; [|done]. apply eq_None_not_Some in Hs. by rewrite Hs.
Qed.

Lemma external_reviews_member o r m :
  rv r = VObject o → distinct (VObject o) → read_external_reviews r (VObject o) st0 = Ok m →
  agrees o ("externalReviews", when (0 <? size m)%nat (ExternalReviewsValue m)) ∧ (m = ∅ ∨ external_reviews_wf m).
Proof.
  intros Ho Hd. unfold read_external_reviews, Has, agrees. cbn [fst snd]. case_bool_decide as Hs.
  - destruct Hs as [v Hv]. rewrite (member_value_st0 _ _ _ _ Ho Hv). intros Hm.
    apply external_reviews_ok in Hm as [Hc Hw]; [|by eapply distinct_member]. rewrite Hv.
    destruct Hw as (Hpos & Hmax & Hall). assert ((0 <? size m)%nat = true) as -> by by apply Nat.ltb_lt.
    cbn [when fmap option_fmap option_map]. rewrite Hc. split; [done|]. by right.
  - intros [= <-]. split; [|by left]. apply eq_None_not_Some in Hs. rewrite Hs. by rewrite map_size_empty.
Qed.

Lemma escalations_member o x :
  distinct (VObject o) → read_escalations (VObject o) = Ok x →
  agrees o ("escalations", escalationRefsValue <$> x) ∧ ∀ r, x = Some r → EscalationRefs_Validate r = None.
Proof.
  intros Hd. unfold read_escalations, agrees. cbn [fst snd]. destruct (Get o "escalations") as [f|] eqn:Hf.
  - destruct (DecodeEscalationRefs (EncodeFile f)) as [r|?|] eqn:Hr; try done. intros [= <-].
    apply escalation_refs_ok in Hr as [Hc Hv]; [|by eapply distinct_member].
    cbn [fmap option_fmap option_map]. rewrite Hc. split; [done|]. by intros ? [= <-].
  - by intros [= <-].
Qed.

Lemma FromValue_ok ord v rec :
  distinct v → FromValue ord v = Ok rec →
  canon v = canon (Record_Value rec) ∧ validate ord rec = None ∧ decoded rec.
Proof.
  intros Hd H. unfold FromValue in H. set (r := NewReader v "/") in *.
  destruct (ProfileVersion _ _ _); [done|]. apply obind_Ok in H as (u & Hc & H).
  rewrite run_ok in Hc by apply _. rewrite ok_Closed in Hc. destruct Hc as (o & Ho & Hk).
  destruct ((f ← Field r "profile"; String_ f) st0) as [profile st] eqn:Hp.
  destruct (CheckProfile _ _ _) eqn:Hcp; [done|].
  apply obind_Ok in H as (note & Hn & H). apply obind_Ok in H as (reviews & Hr & H).
  apply obind_Ok in H as ([[[op hp] pp] sp] & Hparts & H). apply obind_Ok in H as (esc & He & H).
  assert (st = st0) as ->.
  { apply (sticky_st0 (f ← Field r "profile"; String_ f) profile); [done|]. by apply (run_no_error (read_record r) st _ Hparts). }
  assert (ok (f ← Field r "profile"; String_ f) profile) as Hpr by done. apply CheckProfile_None in Hcp. subst profile.
  rewrite ok_bind in Hpr by apply _. destruct Hpr as (f & Hf & Hpr). rewrite ok_Field in Hf.
  destruct Hf as (o' & pv & Ho' & Hpg & ->). assert (o' = o) as -> by congruence. apply ok_String in Hpr. cbn [child rv] in Hpr. subst pv.
  rewrite run_ok in Hparts by apply _. assert (v = VObject o) as -> by done.
  destruct (validate ord _) eqn:Hv; [done|]. injection H as <-.
  destruct (operator_note_member o r note Ho Hd Hn) as [An Wn].
  destruct (external_reviews_member o r reviews Ho Hd Hr) as [Ar Wr].
  destruct (escalations_member o esc Hd He) as [Ae We].
  destruct (read_record_ok r o op hp pp sp Hd Ho Hparts) as [Ap [Wo ((Ws & Wk & Wa) & Wt) [(Wpr & Wd) Wl] (Wc & Wh & Wap & Wdue)]].
  split_and!; [|done|].
  - rewrite Record_Value_members. apply same_fields; [by apply distinct_keys|apply record_keys| |].
    + eapply optional_keys; [exact Hk|]. cbn [record_fields fmap list_fmap fst]. reflexivity.
    + rewrite !Forall_app in Ap. destruct Ap as (A1 & A2 & A3 & A4).
      unfold optional_fields, head_fields, plan_fields, state_fields in *.
      repeat match goal with H : Forall _ (_ :: _) |- _ => apply Forall_cons in H; destruct H as [? H] end.
      fold (agrees o). unfold record_fields. repeat (apply Forall_cons; split); try apply Forall_nil_2; try done.
      unfold agrees. cbn [fst snd]. by rewrite Hpg.
  - destruct Wo as (? & ? & ? & ? & ? & ?). by split.
Qed.

(** The document, its value and the record of a successful decode. *)
Lemma Decode_Ok ord data rec :
  Decode ord data = Ok rec ↔
  slen data ≤ MaxTicketFileBytes ∧ ∃ v, Parse data = Ok v ∧ FromValue ord v = Ok rec.
Proof.
  unfold Decode. destruct (Z.ltb_spec MaxTicketFileBytes (slen data)).
  - split; [done|]. intros [? _]. lia.
  - rewrite obind_Ok. split; [by eauto|]. intros [_ H']; exact H'.
Qed.

Lemma Decode_value ord data rec :
  Decode ord data = Ok rec → Record_Encode rec = data ∧ validate ord rec = None ∧ decoded rec.
Proof.
  intros (_ & v & Hp & Hf)%Decode_Ok. apply ParseWith_object in Hp as (Hd & _ & ->).
  apply FromValue_ok in Hf as (Hc & Hv & Hw); [|done]. split_and!; [|done..].
  unfold Record_Encode. symmetry. apply EncodeFile_inj; [done| |done].
  apply distinct_canon. rewrite <-Hc. by apply canon_distinct.
Qed.
