(* ===== verification/RecordValid.v ===== *)
(** * What a valid record is

    [validate] of [record.go], whose checks run one after another and return
    the first error, accepts exactly the records with the invariant [valid]. *)

From S2P Require Import Prelude Utf8 GoStd Codes Limits Value Canonical Primitives Ids.
From S2P Require Import SetsSpec PrimitivesSpec IdsSpec Parse ParseDoc.
From S2P Require Import Reader ReaderSpec Result ResultSpec Ticket Inventory Marks MarksSpec.
From S2P Require Import KnowHow KnowHowSpec RecordParts Escalations RecordCodec PartsSpec RecordSpec.
Local Open Scope Z_scope.
Local Open Scope go_scope.

(** ** The invariant *)

(** An edge of [own]: its gate, its queue, and not to itself. *)
Record edge_valid (own t : TicketID) (obligation : string) (gate : option string) : Prop := {
  edge_gate : obligation = "GATE_PASSED" ↔ is_Some gate;
  edge_queue : TicketID_QueueID t = TicketID_QueueID own;
  edge_other : TicketID_Raw t ≠ TicketID_Raw own
}.

Definition dependency_valid (own : TicketID) (d : Dependency) : Prop :=
  edge_valid own (dep_TicketID d) (dep_Obligation d) (dep_GateID d).

Definition prerequisite_valid (own : TicketID) (p : Prerequisite) : Prop :=
  edge_valid own (pre_TicketID p) (pre_Obligation p) (pre_GateID p).

Definition dep_key (d : Dependency) : string := edge_key (dep_TicketID d) (dep_Obligation d) (dep_GateID d).
Definition pre_key (p : Prerequisite) : string := edge_key (pre_TicketID p) (pre_Obligation p) (pre_GateID p).

Definition supersession_valid (rec : Record_) (ref : option TicketID) : Prop :=
  ∀ t, ref = Some t →
    TicketID_Raw t ≠ TicketID_Raw (rec_TicketID rec) ∧ TicketID_QueueID t = TicketID_QueueID (rec_TicketID rec).

Definition source_valid (src : Source) (shadow : bool) : Prop :=
  (src_Kind src = "IMPORT" → is_Some (src_SourceItemID src)) ∧
  (src_Kind src = "NATIVE" → src_SourceItemID src = None ∧ src_SourceRevisionSha256 src = None) ∧
  (shadow = true → src_Kind src = "IMPORT").

Definition completion_valid (c : Completion) : Prop :=
  (cmp_Kind c = "MANUAL" → cmp_ManifestSha256 c = None) ∧ (cmp_Kind c = "VERIFIED" → is_Some (cmp_ManifestSha256 c)).

(** The questions that are open at the record's acceptance revision. *)
Definition open_now (rec : Record_) (e : EscalationRef) : bool :=
  (esc_State e =s "OPEN") && (esc_AcceptanceRevision e =s rec_AcceptanceRevision rec).

Definition escalations_valid (rec : Record_) (r : EscalationRefs) : Prop :=
  Count_Int (escs_LastControlTicketRevision r) ≤ Count_Int (rec_Revision rec) ∧
  Forall (λ e, Count_Int (esc_AcceptanceRevision e) ≤ Count_Int (rec_AcceptanceRevision rec)) (escs_Entries r) ∧
  Z.of_nat (length (filter (λ e, open_now rec e = true) (escs_Entries r))) ≤ EscalationMaxCurrentOpen.

Definition obligations_valid (rec : Record_) (o : ObligationsReference) : Prop :=
  let acc := Count_Int (rec_AcceptanceRevision rec) in
  let mark := Count_Int (hw_AcceptanceRevision (obl_HighWater o)) in
  src_Kind (rec_Source rec) = "NATIVE" ∧ rec_ShadowOverlay rec = false ∧ mark ≤ acc ∧
  (∀ x, obl_LastRaise o = Some x → Count_Int (or_AcceptanceRevision x) ≤ acc) ∧
  (mark = acc → oc_Witnessed (obl_Counts o) ≤ hw_Witnessed (obl_HighWater o)).

Record valid (rec : Record_) : Prop := {
  valid_revisions : 1 ≤ Count_Int (rec_AcceptanceRevision rec) ≤ Count_Int (rec_Revision rec);
  valid_chain : rec_Revision rec = "1" ↔ rec_PreviousRecordSha256 rec = None;
  valid_archived : rec_Status rec = StatusArchived ↔ is_Some (rec_ArchivedFrom rec);
  valid_held : EffectiveStatus rec = StatusHeld ↔ rec_Holds rec ≠ [];
  valid_completed : EffectiveStatus rec = StatusCompleted ↔ is_Some (rec_Completion rec);
  valid_completion c : rec_Completion rec = Some c → completion_valid c;
  valid_dependencies : Forall (dependency_valid (rec_TicketID rec)) (rec_Dependencies rec);
  valid_dependencies_once : NoDup (dep_key <$> rec_Dependencies rec);
  valid_prerequisites : Forall (prerequisite_valid (rec_TicketID rec)) (rec_ExecutionPrerequisites rec);
  valid_prerequisites_once : NoDup (pre_key <$> rec_ExecutionPrerequisites rec);
  valid_evidence : Forall (λ a, 1 ≤ Count_Int (att_AcceptanceRevision a) ≤ Count_Int (rec_AcceptanceRevision rec))
    (rec_AttachedEvidence rec) ∧ StronglySorted entry_order (rec_AttachedEvidence rec);
  valid_know_how : ∃ s, ledger_run 1 empty_ledger (rec_KnowHow rec) s;
  valid_obligations o : rec_ObligationsRef rec = Some o → obligations_valid rec o;
  valid_source : source_valid (rec_Source rec) (rec_ShadowOverlay rec);
  valid_hold_ids : NoDup (hold_HoldID <$> rec_Holds rec);
  valid_grant_ids : NoDup (apr_GrantID <$> rec_Approvals rec);
  valid_escalations r : rec_Escalations rec = Some r → escalations_valid rec r;
  valid_supersedes : supersession_valid rec (rec_Supersedes rec);
  valid_superseded_by : supersession_valid rec (rec_SupersededBy rec)
}.

(** ** The checks, one by one *)

Lemma first_error_of_None checks : first_error_of checks = None ↔ Forall (λ c, c = None) checks.
Proof.
  induction checks as [|[e|] checks IH]; cbn [first_error_of]; [done| |]; rewrite Forall_cons.
  - split; [done|]. by intros [? _].
  - rewrite IH. tauto.
Qed.

Lemma reject_None b e : reject b e = None ↔ b = false.
Proof. by destruct b. Qed.

Lemma some_true {A} (x : option A) : some x = true ↔ is_Some x.
Proof. unfold some. by rewrite bool_decide_eq_true. Qed.

Lemma some_false {A} (x : option A) : some x = false ↔ x = None.
Proof. unfold some. rewrite bool_decide_eq_false. symmetry. apply eq_None_not_Some. Qed.

Lemma seen_spec (k : string) seen : existsb (String.eqb k) seen = true ↔ k ∈ seen.
Proof.
  rewrite existsb_exists, list_elem_of_In. split; [by intros (x & Hx & ->%String.eqb_eq)|].
  intros H. exists k. split; [done|apply String.eqb_refl].
Qed.

(** A loop that remembers the keys it saw. *)
Lemma seen_step (k : string) seen ks :
  ((k ∉ seen) ∧ NoDup ks ∧ Forall (λ q, q ∉ k :: seen) ks) ↔ (NoDup (k :: ks) ∧ Forall (λ q, q ∉ seen) (k :: ks)).
Proof.
  rewrite NoDup_cons, Forall_cons, !Forall_forall. setoid_rewrite not_elem_of_cons. split.
  - intros (Hk & Hnd & H). split_and!; [|done..|]; [intros Hin; by destruct (H _ Hin)|intros q Hq; by destruct (H _ Hq)].
  - intros ((Hk & Hnd) & Hs & H). split_and!; [done..|]. intros q Hq. split; [by intros ->|by apply H].
Qed.

Lemma eqb_iff (b c : bool) (P Q : Prop) :
  (b = true ↔ P) → (c = true ↔ Q) → Bool.eqb b c = true ↔ (P ↔ Q).
Proof. intros HP HQ. rewrite Bool.eqb_true_iff. rewrite <-HP, <-HQ. destruct b, c; intuition congruence. Qed.

Lemma edge_checks own t ob gate :
  Bool.eqb (ob =s "GATE_PASSED") (bool_decide (is_Some gate)) = true ∧
  (TicketID_QueueID t =s TicketID_QueueID own) = true ∧ (TicketID_Raw t =s TicketID_Raw own) = false ↔
  edge_valid own t ob gate.
Proof.
  rewrite (eqb_iff _ _ (ob = "GATE_PASSED") (is_Some gate)), String.eqb_eq, String.eqb_neq.
  - split; [by intros (? & ? & ?)|by intros [? ? ?]].
  - apply String.eqb_eq.
  - apply bool_decide_eq_true.
Qed.

Lemma validateDependencies_None own ds : ∀ seen i,
  validateDependencies own seen i ds = None ↔
  Forall (dependency_valid own) ds ∧ NoDup (dep_key <$> ds) ∧ Forall (λ k, k ∉ seen) (dep_key <$> ds).
Proof.
  induction ds as [|d ds IH]; intros seen i; cbn [validateDependencies].
  { split; [|done]. intros _. split_and!; constructor. }
  rewrite fmap_cons, <-seen_step, Forall_cons. unfold dependency_valid at 1. rewrite <-edge_checks.
  destruct (Bool.eqb _ _); cbn [negb]; [|by intuition].
  destruct (_ =s TicketID_QueueID own); cbn [negb]; [|by intuition].
  destruct (_ =s TicketID_Raw own); [by intuition|]. fold (dep_key d).
  pose proof (seen_spec (dep_key d) seen) as Hs. destruct (existsb _ seen).
  - split; [done|]. intros (_ & Hn & _). by destruct Hn; apply Hs.
  - rewrite IH. assert (dep_key d ∉ seen) by by rewrite <-Hs. tauto.
Qed.

Lemma validatePrerequisites_None own ps : ∀ seen i,
  validatePrerequisites_loop own seen i ps = None ↔
  Forall (prerequisite_valid own) ps ∧ NoDup (pre_key <$> ps) ∧ Forall (λ k, k ∉ seen) (pre_key <$> ps).
Proof.
  induction ps as [|p ps IH]; intros seen i; cbn [validatePrerequisites_loop].
  { split; [|done]. intros _. split_and!; constructor. }
  rewrite fmap_cons, <-seen_step, Forall_cons. unfold prerequisite_valid at 1. rewrite <-edge_checks.
  destruct (Bool.eqb _ _); cbn [negb]; [|by intuition].
  destruct (_ =s TicketID_QueueID own); cbn [negb]; [|by intuition].
  destruct (_ =s TicketID_Raw own); [by intuition|]. fold (pre_key p).
  pose proof (seen_spec (pre_key p) seen) as Hs. destruct (existsb _ seen).
  - split; [done|]. intros (_ & Hn & _). by destruct Hn; apply Hs.
  - rewrite IH. assert (pre_key p ∉ seen) by by rewrite <-Hs. tauto.
Qed.

Lemma unique_ids_None dir field format ids : ∀ seen i,
  unique_ids dir field format seen i ids = None ↔ NoDup ids ∧ Forall (λ k, k ∉ seen) ids.
Proof.
  induction ids as [|k ids IH]; intros seen i; cbn [unique_ids].
  { split; [|done]. split; constructor. }
  rewrite <-seen_step. pose proof (seen_spec k seen) as Hs. destruct (existsb _ seen).
  - split; [done|]. intros (Hn & _). by destruct Hn; apply Hs.
  - rewrite IH. assert (k ∉ seen) by by rewrite <-Hs. tauto.
Qed.

Lemma check_supersession_None rec name ref :
  check_supersession rec name ref = None ↔ supersession_valid rec ref.
Proof.
  unfold check_supersession, supersession_valid. destruct ref as [t|]; [|by split].
  destruct (String.eqb_spec (TicketID_Raw t) (TicketID_Raw (rec_TicketID rec))) as [He|Hne].
  { split; [done|]. intros H. by destruct (H t eq_refl). }
  destruct (String.eqb_spec (TicketID_QueueID t) (TicketID_QueueID (rec_TicketID rec))) as [He|Hq]; cbn [negb].
  - split; [|done]. by intros _ ? [= <-].
  - split; [done|]. intros H. by destruct (H t eq_refl).
Qed.

Lemma completion_checks_None c :
  Forall (λ x, x = None) (completion_checks c) ↔ ∀ x, c = Some x → completion_valid x.
Proof.
  destruct c as [x|]; cbn [completion_checks]; [|by split].
  rewrite !Forall_cons, !reject_None, !andb_false_iff, negb_false_iff, some_true, some_false, !String.eqb_neq.
  transitivity (completion_valid x).
  - unfold completion_valid. split.
    + intros ([?|?] & [?|?] & _); split; intros; done.
    + intros [H1 H2]. split; [|split; [|done]].
      * destruct (decide (cmp_Kind x = "MANUAL")); auto.
      * destruct (decide (cmp_Kind x = "VERIFIED")); auto.
  - split; [by intros ? ? [= <-]|auto].
Qed.

Lemma source_checks_None rec :
  Forall (λ x, x = None) (source_checks rec) ↔ source_valid (rec_Source rec) (rec_ShadowOverlay rec).
Proof.
  unfold source_checks, source_valid. set (src := rec_Source rec).
  rewrite !Forall_cons, !reject_None, !andb_false_iff, !negb_false_iff, orb_false_iff, !some_false, some_true,
    !String.eqb_neq, String.eqb_eq. split.
  - intros ([?|?] & [?|?] & [Hs|?] & _); split_and!; intros; done || congruence.
  - intros (H1 & H2 & H3). split_and!; [| | |done].
    + destruct (decide (src_Kind src = "IMPORT")); auto.
    + destruct (decide (src_Kind src = "NATIVE")); auto.
    + destruct (rec_ShadowOverlay rec); auto.
Qed.

Lemma escalations_open_spec rec es : ∀ i n,
  (∃ m, escalations_open rec i n es = Ok m ∧ Forall (λ e, Count_Int (esc_AcceptanceRevision e) ≤ Count_Int (rec_AcceptanceRevision rec)) es ∧
     m = n + Z.of_nat (length (filter (λ e, open_now rec e = true) es))) ∨
  ((∃ err, escalations_open rec i n es = Err err) ∧
   ¬ Forall (λ e, Count_Int (esc_AcceptanceRevision e) ≤ Count_Int (rec_AcceptanceRevision rec)) es).
Proof.
  induction es as [|e es IH]; intros i n; cbn [escalations_open].
  { left. exists n. split_and!; [done|constructor|cbn; lia]. }
  destruct (Z.ltb_spec (Count_Int (rec_AcceptanceRevision rec)) (Count_Int (esc_AcceptanceRevision e))) as [Hlt|Hge].
  { right. split; [by eexists|]. intros H%Forall_inv. lia. }
  fold (open_now rec e). rewrite filter_cons.
  destruct (IH (i + 1) (if open_now rec e then n + 1 else n)) as [(m & -> & Hall & ->)|[[err ->] Hno]].
  - left. eexists. split; [done|]. split; [by constructor|]. destruct (open_now rec e); case_decide; try done; cbn [length]; lia.
  - right. split; [by eexists|]. by intros [_ ?]%Forall_cons.
Qed.

Lemma validateEscalations_None rec r : validateEscalations rec r = None ↔ escalations_valid rec r.
Proof.
  unfold validateEscalations, escalations_valid. destruct (Z.ltb_spec (Count_Int (rec_Revision rec)) (Count_Int (escs_LastControlTicketRevision r))).
  { split; [done|]. intros (? & _). lia. }
  destruct (escalations_open_spec rec (escs_Entries r) 0 0) as [(m & -> & Hall & ->)|[[err ->] Hno]].
  - rewrite Z.add_0_l. destruct (Z.ltb_spec EscalationMaxCurrentOpen (Z.of_nat (length (filter (λ e, open_now rec e = true) (escs_Entries r))))).
    + split; [done|]. intros (_ & _ & ?). lia.
    + by split.
  - split; [done|]. by intros (_ & ? & _).
Qed.

Lemma validateObligations_None rec :
  validateObligations rec = None ↔ ∀ o, rec_ObligationsRef rec = Some o → obligations_valid rec o.
Proof.
  unfold validateObligations. destruct (rec_ObligationsRef rec) as [o|]; [|by split].
  transitivity (obligations_valid rec o); [|split; [by intros ? ? [= <-]|auto]].
  unfold obligations_valid. cbv zeta.
  destruct (String.eqb_spec (src_Kind (rec_Source rec)) "NATIVE"); cbn [negb orb]; [|by split; [|intros (? & _)]].
  destruct (rec_ShadowOverlay rec); [by split; [|intros (_ & ? & _)]|].
  destruct (Z.ltb_spec (Count_Int (rec_AcceptanceRevision rec)) (Count_Int (hw_AcceptanceRevision (obl_HighWater o)))) as [?|?];
    cbn [orb]; [by split; [|intros (_ & _ & ? & _); lia]|].
  destruct (obl_LastRaise o) as [x|].
  - destruct (Z.ltb_spec (Count_Int (rec_AcceptanceRevision rec)) (Count_Int (or_AcceptanceRevision x))).
    { split; [done|]. intros (_ & _ & _ & Hx & _). specialize (Hx x eq_refl). lia. }
    destruct (Z.eqb_spec (Count_Int (hw_AcceptanceRevision (obl_HighWater o))) (Count_Int (rec_AcceptanceRevision rec))) as [He|He];
      cbn [andb]; [|split; [|done]; intros _; split_and!; [done..|by intros ? [= <-]|lia]].
    destruct (Z.ltb_spec (hw_Witnessed (obl_HighWater o)) (oc_Witnessed (obl_Counts o))).
    + split; [done|]. intros (_ & _ & _ & _ & Hw). specialize (Hw He). lia.
    + split; [|done]. intros _. split_and!; [done..|by intros ? [= <-]|lia].
  - destruct (Z.eqb_spec (Count_Int (hw_AcceptanceRevision (obl_HighWater o))) (Count_Int (rec_AcceptanceRevision rec))) as [He|He];
      cbn [andb]; [|split; [|done]; intros _; by split_and!].
    destruct (Z.ltb_spec (hw_Witnessed (obl_HighWater o)) (oc_Witnessed (obl_Counts o))).
    + split; [done|]. intros (_ & _ & _ & _ & Hw). specialize (Hw He). lia.
    + split; [|done]. intros _. by split_and!.
Qed.

Lemma completed_iff (b c : bool) (P Q : Prop) :
  (b = true ↔ P) → (c = true ↔ Q) → (b && negb c = false ∧ negb b && c = false ↔ (P ↔ Q)).
Proof. intros <- <-. destruct b, c; cbn; intuition congruence. Qed.

Lemma nonempty_length {A} (l : list A) : (0 <? length l)%nat = true ↔ l ≠ [].
Proof. rewrite Nat.ltb_lt. destruct l; cbn; [split; [lia|done]|split; [done|lia]]. Qed.

Lemma status_checks_None rec :
  Forall (λ x, x = None) (status_checks rec) ↔
  1 ≤ Count_Int (rec_AcceptanceRevision rec) ≤ Count_Int (rec_Revision rec) ∧
  (rec_Revision rec = "1" ↔ rec_PreviousRecordSha256 rec = None) ∧
  (rec_Status rec = StatusArchived ↔ is_Some (rec_ArchivedFrom rec)) ∧
  (EffectiveStatus rec = StatusHeld ↔ rec_Holds rec ≠ []) ∧
  (EffectiveStatus rec = StatusCompleted ↔ is_Some (rec_Completion rec)) ∧
  ∀ c, rec_Completion rec = Some c → completion_valid c.
Proof.
  unfold status_checks. cbv zeta. rewrite Forall_app, completion_checks_None.
  rewrite !Forall_cons, !reject_None, Forall_nil, !negb_false_iff.
  pose proof (completed_iff (rec_Revision rec =s "1") (negb (some (rec_PreviousRecordSha256 rec)))
    (rec_Revision rec = "1") (rec_PreviousRecordSha256 rec = None)) as Hchain.
  pose proof (completed_iff (EffectiveStatus rec =s StatusCompleted) (some (rec_Completion rec))
    (EffectiveStatus rec = StatusCompleted) (is_Some (rec_Completion rec))) as Hdone.
  rewrite (eqb_iff _ _ (rec_Status rec = StatusArchived) (is_Some (rec_ArchivedFrom rec))) by (apply String.eqb_eq || apply some_true).
  rewrite (eqb_iff _ _ (EffectiveStatus rec = StatusHeld) (rec_Holds rec ≠ [])) by (apply String.eqb_eq || apply nonempty_length).
  rewrite negb_involutive in Hchain. rewrite negb_true_iff, some_false, String.eqb_eq in Hchain.
  rewrite some_true, String.eqb_eq in Hdone. rewrite <-Hchain, <-Hdone by done. rewrite !Z.ltb_ge. intuition lia.
Qed.

Lemma evidence_None rec :
  validateAttachedEvidence rec = None ↔
  Forall (λ a, 1 ≤ Count_Int (att_AcceptanceRevision a) ≤ Count_Int (rec_AcceptanceRevision rec)) (rec_AttachedEvidence rec) ∧
  StronglySorted entry_order (rec_AttachedEvidence rec).
Proof.
  apply (validateAttachedEvidence_loop_None _ _ [] 0 0); [by intros a ?%not_elem_of_nil|constructor|by left].
Qed.

Lemma unseen (ks : list string) : Forall (λ k, k ∉ []) ks.
Proof. apply Forall_forall. intros k _. apply not_elem_of_nil. Qed.

(** Both orders of the last loop check the same. *)
Lemma supersession_None (b : bool) (x y : option Error) :
  Forall (λ c, c = None) (if b then [x; y] else [y; x]) ↔ x = None ∧ y = None.
Proof. destruct b; rewrite !Forall_cons, Forall_nil; tauto. Qed.

Lemma validate_None ord rec : validate ord rec = None ↔ valid rec.
Proof.
  unfold validate. rewrite first_error_of_None, !Forall_app, status_checks_None, source_checks_None, supersession_None.
  rewrite !Forall_cons, !Forall_nil, !check_supersession_None, validateObligations_None, evidence_None.
  rewrite validateDependencies_None, !unique_ids_None. unfold validatePrerequisites. rewrite validatePrerequisites_None.
  unfold validateKnowHow. rewrite (validateKnowHow_loop_spec (rec_KnowHow rec) empty_ledger 0).
  assert ((match rec_Escalations rec with Some r => validateEscalations rec r | None => None end) = None ↔
    ∀ r, rec_Escalations rec = Some r → escalations_valid rec r) as ->.
  { destruct (rec_Escalations rec) as [r|]; [|by split]. rewrite validateEscalations_None. split; [by intros ? ? [= <-]|auto]. }
  split.
  - intros ((? & ? & ? & ? & ? & ?) & ((? & ? & _) & (? & ? & _) & ? & ? & ? & _) & ? & ((? & _) & (? & _) & ? & _) & ? & ?).
    by split.
  - intros []. repeat first [done|apply unseen|split].
Qed.

(** The order decides nothing about a valid record. *)
Lemma FromValue_order ord ord' v rec : FromValue ord v = Ok rec → validate ord' rec = None → FromValue ord' v = Ok rec.
Proof.
  unfold FromValue. destruct (ProfileVersion _ _ _); [done|]. destruct (run _ _); cbn [obind]; [|done|done].
  destruct ((f ← Field (NewReader v "/") "profile"; String_ f) st0) as [profile st]. destruct (CheckProfile _ _ _); [done|].
  destruct (read_operator_note _ _ _); cbn [obind]; [|done|done]. destruct (read_external_reviews _ _ _); cbn [obind]; [|done|done].
  destruct (run _ _) as [[[[op hp] pp] sp]|?|]; cbn [obind]; [|done|done]. destruct (read_escalations v); cbn [obind]; [|done|done].
  destruct (validate ord _); [done|]. intros [= <-] Hv. by rewrite Hv.
Qed.

(** ** The properties *)

(** C11: [validate] accepts a record exactly when it is valid: its revisions
    are in order and its chain starts at revision 1; a status of ARCHIVED, HELD
    or COMPLETED goes with an archived status, a hold or a completion and only
    with one; dependencies and prerequisites are distinct edges to other
    tickets of the queue with a gate where they need one; attached evidence,
    know-how, obligations, escalations, source, completion and supersession
    have their relations; hold ids and grant ids are distinct. The order of the
    last loop does not matter. *)
Theorem validate_spec ord rec : validate ord rec = None ↔ valid rec.
Proof. apply validate_None. Qed.

(** C9: a record file that [Decode] accepts is byte for byte what [Encode]
    writes for the record, so the digest of the file is the record's digest;
    and it is accepted, with the same record, whichever entry Go visits first
    in the map of the supersession checks. *)
Theorem Decode_reencode sha256 ord data rec :
  Decode ord data = Ok rec →
  Record_Encode rec = data ∧ FileDigest sha256 rec = Sum sha256 data ∧ ∀ ord', Decode ord' data = Ok rec.
Proof.
  intros H. destruct (Decode_value _ _ _ H) as (He & Hv & _). split_and!; [done|by unfold FileDigest; rewrite He|].
  intros ord'. apply Decode_Ok in H as (Hl & v & Hp & Hf). apply Decode_Ok. split; [done|]. exists v. split; [done|].
  apply validate_None in Hv. apply (FromValue_order _ ord') in Hf; [done|]. by apply validate_None.
Qed.

(** C10: every record [Decode] returns is well typed, its vocabulary, counts,
    dates and members within their bounds, and valid. *)
Theorem Decode_valid ord data rec : Decode ord data = Ok rec → decoded rec ∧ valid rec.
Proof. intros (_ & Hv & Hd)%Decode_value. split; [done|]. by apply (validate_None ord). Qed.

(** A held record with a dependency and a condition on its hold. *)
Definition held_record : Record_ :=
  let r := sample_record "a" "P1" ["b"] in
  {| rec_RequiredRoles := None; rec_RequiresPool := "gpu"; rec_Escalations := None; rec_TicketID := rec_TicketID r;
     rec_Revision := "1"; rec_AcceptanceRevision := "1"; rec_PreviousRecordSha256 := None; rec_Status := StatusHeld;
     rec_ArchivedFrom := None; rec_Title := "t"; rec_Body := Some "text"; rec_Kind := "BUG"; rec_Owner := None;
     rec_Milestone := None; rec_Priority := "P1"; rec_Order := "0"; rec_Labels := ["l"];
     rec_Dependencies := rec_Dependencies r; rec_AcceptanceCriteria := ["c"]; rec_RequirementRefs := [];
     rec_Source := rec_Source r; rec_Effects := rec_Effects r; rec_Capabilities := []; rec_RequiredGates := [];
     rec_Holds := [{| hold_HoldID := "h"; hold_Actor := "op"; hold_Reason := "wait"; hold_PlacedAt := "2026-01-01T00:00:00Z";
                      hold_Condition := Some commit_condition |}];
     rec_ExecutionClass := "AUTONOMOUS"; rec_Approvals := []; rec_Completion := None; rec_DueDate := Some "2026-02-01";
     rec_EstimateMinutes := Some "30"; rec_Supersedes := None; rec_SupersededBy := Some (sample_id "b");
     rec_ShadowOverlay := false; rec_CreatedAt := "2026-01-01T00:00:00Z"; rec_UpdatedAt := "2026-01-01T00:00:00Z";
     rec_UpdatedBy := "op"; rec_OperatorNote := None; rec_ExternalReviews := ∅; rec_ExecutionPrerequisites := [];
     rec_AttachedEvidence := []; rec_Progress := []; rec_KnowHow := []; rec_ObligationsRef := None |}.

Lemma Decode_reencode_witness : Decode false (Record_Encode held_record) = Ok held_record.
Proof. apply (Decode_reencode (λ s, s) true (Record_Encode held_record) held_record). vm_compute. reflexivity. Defined.

Lemma Decode_valid_witness : valid held_record.
Proof. apply (Decode_valid true (Record_Encode held_record) held_record). vm_compute. reflexivity. Defined.
