(* ===== verification/ViewSpec.v ===== *)
(** * What a view promises

    A ticket's eligibility is UNKNOWN exactly when it is admissible: every
    certain condition holds and nothing observed refuses it.  Observing more
    settles unknowns and nothing else.  Actions and codes are of the closed
    vocabularies the facet summary counts. *)

From S2P Require Import Prelude Utf8 GoStd Codes Limits Value Primitives Ids IdsSpec Parse Reader Result Ticket Inventory Marks.
From S2P Require Import KnowHow RecordParts Escalations RecordCodec View GraphSpec TarjanSpec InventorySpec.
Local Open Scope Z_scope.
Local Open Scope go_scope.

(** ** Notes *)

Definition clears (ns : list note) : Prop := blockers ns = [].

Lemma blockers_app a b : blockers (a ++ b) = blockers a ++ blockers b.
Proof. apply omap_app. Qed.

Lemma unknowns_app a b : unknowns (a ++ b) = unknowns a ++ unknowns b.
Proof. apply omap_app. Qed.

Lemma clears_app a b : clears (a ++ b) ↔ clears a ∧ clears b.
Proof. unfold clears. rewrite blockers_app. apply app_nil. Qed.

Lemma clears_flat_map {A} (f : A → list note) l : clears (flat_map f l) ↔ ∀ x, x ∈ l → clears (f x).
Proof.
  induction l as [|x l IH]; cbn [flat_map]; [split; [by intros _ x ?%not_elem_of_nil|done]|].
  rewrite clears_app, IH. split; [intros [? ?] y [->|?]%elem_of_cons; auto|intros H; split; [apply H; constructor|intros y ?; apply H; by constructor]].
Qed.

Lemma clears_block c t d : clears (block c t d) ↔ False.
Proof. done. Qed.

Lemma clears_unknown c t d : clears (unknown c t d) ↔ True.
Proof. done. Qed.

Lemma clears_nil : clears [] ↔ True.
Proof. done. Qed.

(** ** Admission *)

(** The ticket is completed, or was when it was archived. *)
Definition completed_dep (dep : Summary) : Prop :=
  sum_Status dep = StatusCompleted ∨ sum_Status dep = StatusArchived ∧ sum_ArchivedFrom dep = Some StatusCompleted.

(** An obligation on a ticket that is not known to fail. *)
Definition not_refused (ctx : ViewContext) (obligation : string) (gateID : option string) (dep : Summary) : Prop :=
  (obligation = "COMPLETED" → completed_dep dep) ∧
  (obligation = "GATE_PASSED" → gates ctx (sum_TicketID dep) (default ε gateID) (sum_AcceptanceRevision dep) ≠ Unsatisfied).

(** An escalation question that holds the ticket. *)
Definition held_by (rec : Record_) (e : EscalationRef) : Prop :=
  (∃ refs, rec_Escalations rec = Some refs ∧ e ∈ escs_Entries refs) ∧ esc_State e = "OPEN" ∧
  esc_Kind e ∈ escalationHoldKinds ∧ esc_AcceptanceRevision e = rec_AcceptanceRevision rec.

(** An unrevoked grant of the operation at the current acceptance revision. *)
Definition granted (rec : Record_) (op : string) : Prop :=
  ∃ a, a ∈ rec_Approvals rec ∧ apr_Operation a = op ∧ apr_TargetRevision a = rec_AcceptanceRevision rec ∧ apr_Revoked a = false.

Record admissible (inv : Inventory) (id : string) (ctx : ViewContext) (rec : Record_) : Prop := {
  ad_open : rec_Status rec = StatusOpen;
  ad_escalations : ∀ e, ¬ held_by rec e;
  ad_loop : ∀ h, vc_Loop ctx = Some h → lh_AcceptanceRevision h ≠ rec_AcceptanceRevision rec;
  ad_known : ∀ d, d ∈ rec_Dependencies rec → is_Some (inv_sum inv !! raw d);
  ad_acyclic : ¬ tc (edge (inv_sum inv)) id id;
  ad_dependencies : ∀ d dep, d ∈ rec_Dependencies rec → inv_sum inv !! raw d = Some dep →
    not_refused ctx (dep_Obligation d) (dep_GateID d) dep;
  ad_prerequisites : ∀ p, p ∈ rec_ExecutionPrerequisites rec → PrerequisiteApplies p (vc_Stage ctx) = true →
    ∃ pre, inv_sum inv !! TicketID_Raw (pre_TicketID p) = Some pre ∧ not_refused ctx (pre_Obligation p) (pre_GateID p) pre;
  ad_class : rec_ExecutionClass rec = "AUTONOMOUS" ∨ rec_ExecutionClass rec = "APPROVAL_REQUIRED" ∧ granted rec "RUN";
  ad_effects : eff_ExternalUnbounded (rec_Effects rec) = false;
  ad_writer : src_Kind (rec_Source rec) = "IMPORT" → vc_CanonicalWriter ctx = "NATIVE";
  ad_attempt : attempts ctx id ≠ Satisfied
}.

Lemma metCompleted_spec dep : metCompleted dep = true ↔ completed_dep dep.
Proof.
  unfold metCompleted, completed_dep. rewrite orb_true_iff, andb_true_iff, !String.eqb_eq.
  destruct (sum_ArchivedFrom dep); rewrite ?String.eqb_eq; naive_solver.
Qed.

Lemma obligation_clears ctx code w g s obligation gateID dep :
  clears (obligation_notes ctx code w g s obligation gateID dep) ↔ not_refused ctx obligation gateID dep.
Proof.
  unfold obligation_notes, not_refused. cbv zeta. destruct (String.eqb_spec obligation "COMPLETED") as [->|Hc].
  - pose proof (metCompleted_spec dep). destruct (metCompleted dep); rewrite ?clears_block, ?clears_nil; naive_solver.
  - destruct (String.eqb_spec obligation "GATE_PASSED") as [->|Hg]; [|rewrite clears_nil; naive_solver].
    destruct (String.eqb_spec (gates ctx (sum_TicketID dep) (default ε gateID) (sum_AcceptanceRevision dep)) Satisfied) as [->|Hs];
      [rewrite clears_nil; by split|].
    destruct (_ =s Unsatisfied) eqn:Hu; [apply String.eqb_eq in Hu|apply String.eqb_neq in Hu];
      rewrite ?clears_block, ?clears_unknown; naive_solver.
Qed.

(** Each check in turn. *)
Lemma status_clears rec : clears (status_notes rec) ↔ rec_Status rec = StatusOpen.
Proof.
  unfold status_notes. cbv zeta. destruct (String.eqb_spec (rec_Status rec) StatusOpen) as [|Hn]; [done|].
  destruct (_ =s StatusHeld); rewrite clears_block; naive_solver.
Qed.

Lemma holds_now_spec rec e :
  holds_now (rec_AcceptanceRevision rec) {| RequestID := esc_RequestID e; AcceptanceRevision := esc_AcceptanceRevision e;
      EscalationKind := esc_Kind e; EscalationState := esc_State e |} = true ↔
  esc_State e = "OPEN" ∧ esc_Kind e ∈ escalationHoldKinds ∧ esc_AcceptanceRevision e = rec_AcceptanceRevision rec.
Proof.
  unfold holds_now. cbn [EscalationState EscalationKind AcceptanceRevision]. rewrite !andb_true_iff, !String.eqb_eq, existsb_exists.
  split; [intros [[? (k & Hk & <-%String.eqb_eq)] ?]|intros (? & ? & ?)]; split_and!; try done; [by apply list_elem_of_In|].
  exists (esc_Kind e). split; [by apply list_elem_of_In|by apply String.eqb_eq].
Qed.

Lemma escalation_clears rec : clears (escalation_notes rec) ↔ ∀ e, ¬ held_by rec e.
Proof.
  unfold escalation_notes, Record_EscalationPending, held_by. destruct (rec_Escalations rec) as [refs|];
    [|split; [intros _ e ((? & [=] & _) & _)|done]].
  set (es := _ <$> escs_Entries refs). pose proof (EscalationPending_spec (rec_AcceptanceRevision rec) es) as H.
  destruct (EscalationPending _ _) as [ids total]. destruct H as (_ & _ & _ & _ & _ & _ & He). cbn [fst].
  transitivity (ids = []); [by destruct ids|]. rewrite He, Forall_forall. subst es. split.
  - intros Hf e ((r & [= <-] & Hin) & Hh). apply (holds_now_spec rec) in Hh.
    rewrite Hf in Hh; [done|]. apply list_elem_of_fmap. by exists e.
  - intros Hn x (e & -> & Hin)%list_elem_of_fmap. apply not_true_iff_false. rewrite holds_now_spec. intros Hh.
    apply (Hn e). split; [by exists refs|done].
Qed.

Lemma loop_clears ctx rec :
  clears (loop_notes ctx rec) ↔ ∀ h, vc_Loop ctx = Some h → lh_AcceptanceRevision h ≠ rec_AcceptanceRevision rec.
Proof.
  unfold loop_notes. destruct (vc_Loop ctx) as [h|]; [|naive_solver].
  destruct (String.eqb_spec (lh_AcceptanceRevision h) (rec_AcceptanceRevision rec)); rewrite ?clears_block; naive_solver.
Qed.

Definition grant_step (rec : Record_) (op : string) (gr : bool * bool) (a : Approval) : bool * bool :=
  if (apr_Operation a =s op) && (apr_TargetRevision a =s rec_AcceptanceRevision rec)
  then (if apr_Revoked a then (gr.1, true) else (true, gr.2)) else gr.

Lemma grant_step_spec rec op l : ∀ gr, (foldl (grant_step rec op) gr l).1 = true ↔
  gr.1 = true ∨ ∃ a, a ∈ l ∧ apr_Operation a = op ∧ apr_TargetRevision a = rec_AcceptanceRevision rec ∧ apr_Revoked a = false.
Proof.
  induction l as [|a l IH]; intros gr; cbn [foldl]; [split; [by left|intros [?|(? & H & _)]; [done|by apply not_elem_of_nil in H]]|].
  rewrite IH. unfold grant_step. destruct (_ && _) eqn:E.
  - apply andb_true_iff in E as [?%String.eqb_eq ?%String.eqb_eq]. setoid_rewrite elem_of_cons. destruct (apr_Revoked a) eqn:Hr; cbn [fst snd]; naive_solver congruence.
  - apply andb_false_iff in E. rewrite !String.eqb_neq in E. setoid_rewrite elem_of_cons. naive_solver.
Qed.

Lemma granted_spec rec op : (grantState rec op).1 = true ↔ granted rec op.
Proof. etransitivity; [apply (grant_step_spec rec op (rec_Approvals rec) (false, false))|]. unfold granted. naive_solver. Qed.

Lemma class_clears rec :
  clears (class_notes rec) ↔
  rec_ExecutionClass rec = "AUTONOMOUS" ∨ rec_ExecutionClass rec = "APPROVAL_REQUIRED" ∧ granted rec "RUN".
Proof.
  unfold class_notes. destruct (String.eqb_spec (rec_ExecutionClass rec) "AUTONOMOUS") as [|Ha]; [rewrite clears_nil; naive_solver|].
  destruct (String.eqb_spec (rec_ExecutionClass rec) "APPROVAL_REQUIRED") as [Hq|Hq]; [|rewrite clears_block; naive_solver].
  rewrite <-granted_spec. destruct (grantState rec "RUN") as [[] r]; cbn [fst]; [rewrite clears_nil; naive_solver|].
  cbv zeta. destruct r; rewrite clears_block; naive_solver.
Qed.

Lemma effects_clears ctx rec : clears (effects_notes ctx rec) ↔ eff_ExternalUnbounded (rec_Effects rec) = false.
Proof.
  unfold effects_notes. cbv zeta. rewrite clears_app. destruct (eff_ExternalUnbounded _); [rewrite clears_block; naive_solver|].
  destruct (_ && _); unfold clears; cbn; naive_solver.
Qed.

Lemma import_clears ctx rec :
  clears (import_notes ctx rec) ↔ (src_Kind (rec_Source rec) = "IMPORT" → vc_CanonicalWriter ctx = "NATIVE").
Proof.
  unfold import_notes. destruct (String.eqb_spec (src_Kind (rec_Source rec)) "IMPORT"), (String.eqb_spec (vc_CanonicalWriter ctx) "NATIVE");
    cbn [andb negb]; rewrite ?clears_block, ?clears_nil; naive_solver.
Qed.

Lemma attempt_clears ctx id : clears (attempt_notes ctx id).1 ↔ attempts ctx id ≠ Satisfied.
Proof.
  unfold attempt_notes. cbv zeta. destruct (String.eqb_spec (attempts ctx id) Satisfied) as [->|]; cbn [fst]; [rewrite clears_block; naive_solver|].
  destruct (_ =s Unsatisfied); cbn [fst]; rewrite ?clears_unknown, ?clears_nil; naive_solver.
Qed.

Lemma dependencies_clear ctx sum ds :
  clears (flat_map (dependency_notes ctx sum) ds) ↔
  ∀ d dep, d ∈ ds → sum !! raw d = Some dep → not_refused ctx (dep_Obligation d) (dep_GateID d) dep.
Proof.
  rewrite clears_flat_map. unfold dependency_notes. split; intros H d.
  - intros dep Hd Hs. specialize (H d Hd). rewrite Hs in H. by apply obligation_clears in H.
  - intros Hd. destruct (sum !! raw d) as [dep|] eqn:Hs; [|done]. by apply obligation_clears, H.
Qed.

Lemma prerequisites_clear ctx sum ps :
  clears (flat_map (prerequisite_notes ctx sum) ps) ↔
  ∀ p, p ∈ ps → PrerequisiteApplies p (vc_Stage ctx) = true →
    ∃ pre, sum !! TicketID_Raw (pre_TicketID p) = Some pre ∧ not_refused ctx (pre_Obligation p) (pre_GateID p) pre.
Proof.
  rewrite clears_flat_map. unfold prerequisite_notes. apply forall_proper. intros p.
  destruct (PrerequisiteApplies p (vc_Stage ctx)); cbn [negb]; [|rewrite clears_nil; naive_solver]. cbv zeta.
  destruct (sum !! TicketID_Raw (pre_TicketID p)) as [pre|]; [rewrite obligation_clears|rewrite clears_block]; naive_solver.
Qed.

(** ** Eligibility *)

Section eligibility.
Context (queue : QueueID) (records : list Record_) (closed : list Summary) (load : option Loader) (inv : Inventory).
Context (Hinv : NewLazyInventory queue records closed load = Ok inv).

Lemma problems_clear id s :
  inv_sum inv !! id = Some s →
  clears (problem_notes inv id) ↔
  (∀ d, d ∈ sum_Dependencies s → is_Some (inv_sum inv !! raw d)) ∧ ¬ tc (edge (inv_sum inv)) id id.
Proof.
  intros Hs. pose proof (NewLazyInventory_cases queue records closed load) as H. rewrite Hinv in H. destruct H as (_ & _ & Hio).
  pose proof (io_cycles _ _ _ _ _ Hio id) as Hc. pose proof (io_acyclic _ _ _ _ _ Hio id) as Ha.
  unfold problem_notes. rewrite clears_flat_map. unfold Problems. rewrite Hs. split.
  - intros Hn. split.
    + intros d Hd. destruct (inv_sum inv !! raw d) eqn:Hr; [done|]. exfalso. eapply clears_block, Hn.
      apply elem_of_app. left. apply list_elem_of_omap. exists d. split; [done|]. by rewrite Hr.
    + destruct (inv_inCycle inv !! id) as [comp|]; [|by apply Ha]. exfalso. eapply clears_block, Hn.
      apply elem_of_app. right. constructor.
  - intros [Hd Hcy] p [(d & Hin & Hp)%list_elem_of_omap|Hp]%elem_of_app.
    + destruct (Hd d Hin) as [x Hx]. by rewrite Hx in Hp.
    + destruct (inv_inCycle inv !! id) as [comp|] eqn:Hl; [|by apply not_elem_of_nil in Hp]. destruct Hcy. by apply (Hc comp).
Qed.

Lemma notes_clear id ctx rec :
  inv_sum inv !! id = Some (SummaryOf rec) → clears (view_notes inv id ctx rec) ↔ admissible inv id ctx rec.
Proof.
  intros Hs. unfold view_notes. rewrite !clears_app, status_clears, escalation_clears, loop_clears, (problems_clear id _ Hs),
    dependencies_clear, prerequisites_clear, class_clears, effects_clears, import_clears, attempt_clears.
  split; [intros (?&?&?&[??]&?&?&?&?&?&?); by constructor|intros []; by split_and!].
Qed.

(** C21: the eligibility of a view is UNKNOWN, its checks PASSED and its
    blockers none, exactly when its ticket is admissible: OPEN, held by no
    escalation question and no loop, its dependencies known and acyclic, no
    obligation known to fail, its class autonomous or approved, its effects
    bounded, imported only under a native writer, and no attempt known to be
    live; otherwise it is BLOCKED.  It is never more than UNKNOWN. *)
Theorem View_admissible id ctx v :
  Inventory_View inv id ctx = Viewed v → inv_sum inv !! id = Some (SummaryOf (v_Record v)) →
  (v_Blockers v = [] ↔ admissible inv id ctx (v_Record v)) ∧
  (v_Eligibility v = EligibilityUnknown ↔ admissible inv id ctx (v_Record v)) ∧
  (v_Eligibility v = EligibilityBlocked ↔ ¬ admissible inv id ctx (v_Record v)) ∧
  (v_IntentChecks v = "PASSED" ↔ admissible inv id ctx (v_Record v)).
Proof.
  unfold Inventory_View. destruct (Inventory_Get inv id).2 as [rec| | |]; [|done..]. intros [= <-]. cbn [view_of v_Record]. intros Hs.
  pose proof (notes_clear id ctx rec Hs) as Hn. unfold clears in Hn. unfold view_of. cbv zeta.
  cbn [v_Blockers v_Eligibility v_IntentChecks]. destruct (blockers (view_notes inv id ctx rec)); naive_solver.
Qed.
End eligibility.

(** ** Observing more

    [ctx'] observes what [ctx] does and maybe more. *)

Definition observed (o : string) : Prop := o = Satisfied ∨ o = Unsatisfied.

Record observes_more (ctx ctx' : ViewContext) : Prop := {
  om_writer : vc_CanonicalWriter ctx' = vc_CanonicalWriter ctx;
  om_fallback : vc_SerialFallback ctx' = vc_SerialFallback ctx;
  om_stage : vc_Stage ctx' = vc_Stage ctx;
  om_loop : vc_Loop ctx' = vc_Loop ctx;
  om_gates : ∀ t g r, observed (gates ctx t g r) → gates ctx' t g r = gates ctx t g r;
  om_attempts : ∀ id, observed (attempts ctx id) → attempts ctx' id = attempts ctx id
}.

(** Notes after further observation: each unknown stays, is dropped, or
    becomes a blocker of its code and ticket. *)
Inductive settles : list note → list note → Prop :=
  | settles_nil : settles [] []
  | settles_same n ns ns' : settles ns ns' → settles (n :: ns) (n :: ns')
  | settles_met b ns ns' : settles ns ns' → settles (Unobserved b :: ns) ns'
  | settles_refused b b' ns ns' :
      blk_Code b' = blk_Code b → blk_TicketID b' = blk_TicketID b → settles ns ns' →
      settles (Unobserved b :: ns) (Blocks b' :: ns').

Lemma settles_refl ns : settles ns ns.
Proof. induction ns; by constructor. Qed.

Lemma settles_app a a' b b' : settles a a' → settles b b' → settles (a ++ b) (a' ++ b').
Proof. intros H Hb. induction H; cbn; [done|by constructor..]. Qed.

Lemma settles_flat_map {A} (f g : A → list note) l : (∀ x, settles (f x) (g x)) → settles (flat_map f l) (flat_map g l).
Proof. intros H. induction l; cbn [flat_map]; [constructor|by apply settles_app]. Qed.

(** What a further observation leaves of blockers, unknowns and advisories. *)
Lemma settles_spec ns ns' : settles ns ns' →
  blockers ns ⊆ blockers ns' ∧ unknowns ns' ⊆ unknowns ns ∧ advisories ns' = advisories ns ∧
  (∀ b, b ∈ blockers ns' → b ∈ blockers ns ∨ ∃ u, u ∈ unknowns ns ∧ blk_Code u = blk_Code b ∧ blk_TicketID u = blk_TicketID b) ∧
  (unknowns ns = [] → ns' = ns).
Proof.
  induction 1 as [|n ns ns' _ IH|b ns ns' _ IH|b b' ns ns' Hc Ht _ IH]; [by split_and!; set_solver| | |];
    destruct IH as (Hb & Hu & Ha & Hn & He).
  - destruct n as [x|x|x]; cbn [blockers unknowns advisories omap list_omap] in *; split_and!; try done;
      first [by f_equal|by intros ?; rewrite He|clear He Ha; set_solver].
  - cbn [blockers unknowns advisories omap list_omap] in *. split_and!; try done; set_solver.
  - cbn [blockers unknowns advisories omap list_omap] in *. split_and!; try done; set_solver.
Qed.

Section settling.
Context (ctx ctx' : ViewContext) (Hm : observes_more ctx ctx').

Lemma obligation_settles code w g s obligation gateID dep :
  settles (obligation_notes ctx code w g s obligation gateID dep) (obligation_notes ctx' code w g s obligation gateID dep).
Proof.
  unfold obligation_notes. cbv zeta. destruct (_ =s "COMPLETED"); [apply settles_refl|].
  destruct (_ =s "GATE_PASSED"); [|apply settles_refl].
  pose proof (om_gates _ _ Hm (sum_TicketID dep) (default ε gateID) (sum_AcceptanceRevision dep)) as Ho. unfold observed in Ho.
  set (o := gates ctx _ _ _) in *. set (o' := gates ctx' _ _ _) in *. clearbody o o'.
  destruct (String.eqb_spec o Satisfied) as [->|]; [rewrite Ho by auto; apply settles_refl|].
  destruct (String.eqb_spec o Unsatisfied) as [->|]; [rewrite Ho by auto; apply settles_refl|].
  destruct (o' =s Satisfied); [repeat constructor|]. destruct (o' =s Unsatisfied); by repeat constructor.
Qed.

Lemma attempt_settles id : settles (attempt_notes ctx id).1 (attempt_notes ctx' id).1.
Proof.
  unfold attempt_notes. cbv zeta. pose proof (om_attempts _ _ Hm id) as Ho. unfold observed in Ho.
  set (o := attempts ctx id) in *. set (o' := attempts ctx' id) in *. clearbody o o'.
  destruct (String.eqb_spec o Satisfied) as [->|]; [rewrite Ho by auto; apply settles_refl|].
  destruct (String.eqb_spec o Unsatisfied) as [->|]; [rewrite Ho by auto; apply settles_refl|].
  destruct (o' =s Satisfied); cbn [fst]; [by repeat constructor|]. destruct (_ =s Unsatisfied); cbn [fst]; by repeat constructor.
Qed.

Lemma attempt_same id : unknowns (attempt_notes ctx id).1 = [] → attempt_notes ctx' id = attempt_notes ctx id.
Proof.
  unfold attempt_notes. cbv zeta. pose proof (om_attempts _ _ Hm id) as Ho. unfold observed in Ho.
  set (o := attempts ctx id) in *. set (o' := attempts ctx' id) in *. clearbody o o'.
  destruct (String.eqb_spec o Satisfied) as [->|]; [by rewrite Ho by auto|].
  destruct (String.eqb_spec o Unsatisfied) as [->|]; [by rewrite Ho by auto|]. done.
Qed.

Lemma view_settles inv id rec : settles (view_notes inv id ctx rec) (view_notes inv id ctx' rec).
Proof.
  unfold view_notes, loop_notes, effects_notes, import_notes, dependency_notes, prerequisite_notes.
  rewrite (om_loop _ _ Hm), (om_fallback _ _ Hm), (om_writer _ _ Hm), (om_stage _ _ Hm).
  repeat (apply settles_app; [first [apply settles_refl|apply settles_flat_map; intros x]|]);
    [destruct (inv_sum inv !! raw x); [apply obligation_settles|constructor]| |apply attempt_settles].
  destruct (negb _); [constructor|]. cbv zeta. destruct (inv_sum inv !! _); [apply obligation_settles|apply settles_refl].
Qed.
End settling.

(** A view that observes more keeps every blocker and advisory, adds no
    unknown, and every new blocker settles an unknown of the same code and
    ticket; a view without unknowns does not change. *)
Theorem View_observes inv id ctx ctx' v v' :
  observes_more ctx ctx' → Inventory_View inv id ctx = Viewed v → Inventory_View inv id ctx' = Viewed v' →
  v_Blockers v ⊆ v_Blockers v' ∧ v_Unknowns v' ⊆ v_Unknowns v ∧ v_Advisories v' = v_Advisories v ∧
  (∀ b, b ∈ v_Blockers v' → b ∈ v_Blockers v ∨
    ∃ u, u ∈ v_Unknowns v ∧ blk_Code u = blk_Code b ∧ blk_TicketID u = blk_TicketID b) ∧
  (v_Unknowns v = [] → v' = v).
Proof.
  unfold Inventory_View. destruct (Inventory_Get inv id).2 as [rec| | |]; [|done..]. intros Hm [= <-] [= <-].
  pose proof (settles_spec _ _ (view_settles ctx ctx' Hm inv id rec)) as (Hb & Hu & Ha & Hn & He).
  unfold view_of; cbv zeta; cbn [v_Blockers v_Unknowns v_Advisories].
  split_and!; [done..|]. intros Hx. rewrite (He Hx), (attempt_same ctx ctx' Hm id); [done|].
  unfold view_notes in Hx. rewrite !unknowns_app in Hx. by repeat apply app_nil in Hx as [_ Hx].
Qed.

(** ** Instances *)

Definition no_oracles : ViewContext := mkViewContext "NATIVE" "NONE" None None ε None.

(** A context in which no attempt is live. *)
Definition idle : ViewContext :=
  mkViewContext "NATIVE" "NONE" None (Some {| LiveAttempt := λ _, Unsatisfied; DescribeLiveAttempt := None |}) ε None.

Definition sample_view (ctx : ViewContext) (local : string) (r : Record_) : View := view_of sample_inventory ("ticket:x:q:" +:+ local) ctx r.

Example sample_eligibility :
  (λ id, match Inventory_View sample_inventory id idle with Viewed v => (v_Eligibility v, v_NextAction v) | _ => (ε, ε) end) <$>
    ["ticket:x:q:a"; "ticket:x:q:b"; "ticket:x:q:c"] =
  [(EligibilityUnknown, "set-effects"); (EligibilityBlocked, "wait-dependency"); (EligibilityBlocked, "set-dependencies")].
Proof. vm_compute. reflexivity. Qed.

Lemma View_admissible_witness : admissible sample_inventory "ticket:x:q:a" idle (sample_record "a" "P1" []).
Proof.
  apply (View_admissible sample_queue sample_records [] None sample_inventory sample_inventory_Ok "ticket:x:q:a" idle
    (sample_view idle "a" (sample_record "a" "P1" []))); vm_compute; reflexivity.
Defined.

Lemma View_observes_witness :
  v_Blockers (sample_view no_oracles "b" (sample_record "b" "P1" ["a"])) ⊆ v_Blockers (sample_view idle "b" (sample_record "b" "P1" ["a"])).
Proof.
  apply (View_observes sample_inventory "ticket:x:q:b" no_oracles idle);
    [split; [reflexivity..|intros t g r [H|H]; discriminate H|intros id [H|H]; discriminate H]|vm_compute; reflexivity..].
Defined.
