(* ===== verification/Facets.v ===== *)
(** * The facet summary of a list

    [facets.go] of [src/internal/tasks/cli]: the flags that ask for a summary,
    the counts over the matched tickets' views, and the summary object that
    joins the result.

    Go ranges over a map and then sorts the keys; here the keys come in the
    order of [map_to_list] before the sort.  The counts are [int64]s of at most
    one per matched ticket. *)

From S2P Require Import Prelude Utf8 GoStd Codes Limits Value Canonical Primitives PrimitivesSpec Ids Parse Reader ReaderSpec Result ResultSpec.
From S2P Require Import Ticket Inventory Marks KnowHow RecordParts Escalations RecordCodec RecordSpec View ViewSpec.
From S2P Require Import GraphSpec InventorySpec PartsSpec.
Local Open Scope Z_scope.
Local Open Scope go_scope.

Record facetMode := mkFacetMode { fm_facets : bool; fm_count : bool }.

Definition maxOpenFacetKeys : nat := 64.

Definition containsArg (args : list string) (flag : string) : bool := existsb (λ a, a =s flag) args.

(** The loop of [facetFlags]. *)
Fixpoint facetFlags_loop (values : list string) (m : facetMode) (rest args : list string) {struct args} :
    res (facetMode * list string) :=
  match args with
  | [] => Ok (m, rest)
  | a :: args' =>
      let flag : res (facetMode * list string) :=
        if a =s "--facets" then
          if fm_facets m then Err (Errorf CodeMalformed "--facets" "duplicate --facets" [])
          else facetFlags_loop values (mkFacetMode true (fm_count m)) rest args'
        else if a =s "--count" then
          if fm_count m then Err (Errorf CodeMalformed "--count" "duplicate --count" [])
          else facetFlags_loop values (mkFacetMode (fm_facets m) true) rest args'
        else facetFlags_loop values m (rest ++ [a]) args' in
      if containsArg values a then
        match args' with
        | b :: args'' => facetFlags_loop values m (rest ++ [a; b]) args''
        | [] => flag
        end
      else flag
  end.

Definition facetFlags (args values : list string) : res (facetMode * list string) :=
  facetFlags_loop values (mkFacetMode false false) [] args.

(** [m.checkCount(fl)] *)
Definition checkCount (m : facetMode) (fl : gmap string string) : option Error :=
  if negb (fm_count m) then None
  else
    let paged (name : string) : option Error :=
      match fl !! name with
      | Some _ => Some (Errorf CodeMalformed ("--" +:+ name) "--count returns no page; drop --%s" [AStr name])
      | None => None
      end in
    match paged "offset" with Some e => Some e | None => paged "limit" end.

(** [m.apply(res, summary, matched)] on a result that is not nil. *)
Definition facet_apply (m : facetMode) (res : Result) (summary : option Value) (matched : Z) : Result :=
  if negb (Outcome res =s OutcomeOK) || bool_decide (summary = None) || (negb (fm_facets m) && negb (fm_count m)) then res
  else
    let items := if fm_count m then [] else Items res in
    mkResult (Command res) (Outcome res) (ResultCodes res) (ResultSnapshot res) (Mutation res) items
      (if fm_count m then None else ResultPage res) ((0 <? matched) || (0 <? length items)%nat) (Warnings res) summary
      (ResultNotRetryable res) (ResultMaxNodes res).

(** ** Counting *)

Definition zeroCounts (keys : list string) : gmap string Z := foldl (λ m k, <[k := 0]> m) ∅ keys.

(** [m[k]++] *)
Definition bump (k : string) (m : gmap string Z) : gmap string Z := <[k := default 0 (m !! k) + 1]> m.

Definition bump_once (sm : list string * gmap string Z) (b : Blocker) : list string * gmap string Z :=
  if existsb (String.eqb (blk_Code b)) sm.1 then sm else (blk_Code b :: sm.1, bump (blk_Code b) sm.2).

Record tally := mkTally {
  ty_total : Z; ty_status : gmap string Z; ty_priority : gmap string Z; ty_kind : gmap string Z; ty_class : gmap string Z;
  ty_eligibility : gmap string Z; ty_next : gmap string Z; ty_blocker : gmap string Z; ty_milestone : gmap string Z;
  ty_label : gmap string Z; ty_without : Z
}.

Definition no_tickets : tally :=
  mkTally 0 (zeroCounts Statuses) (zeroCounts Priorities) (zeroCounts Kinds) (zeroCounts ExecutionClasses)
    (zeroCounts [EligibilityBlocked; EligibilityUnknown]) ∅ ∅ ∅ ∅ 0.

(** One turn of the loop of [facetSummary]. *)
Definition count_view (t : tally) (v : View) : tally :=
  let rec := v_Record v in
  mkTally (ty_total t + 1) (bump (rec_Status rec) (ty_status t)) (bump (rec_Priority rec) (ty_priority t))
    (bump (rec_Kind rec) (ty_kind t)) (bump (rec_ExecutionClass rec) (ty_class t)) (bump (v_Eligibility v) (ty_eligibility t))
    (bump (v_NextAction v) (ty_next t))
    (if negb (rec_Status rec =s StatusCompleted) && negb (rec_Status rec =s StatusArchived)
     then (foldl bump_once ([], ty_blocker t) (v_Blockers v)).2 else ty_blocker t)
    (match rec_Milestone rec with None => ty_milestone t | Some ms => bump ms (ty_milestone t) end)
    (foldl (λ m l, bump l m) (ty_label t) (rec_Labels rec))
    (match rec_Milestone rec with None => ty_without t + 1 | Some _ => ty_without t end).

Definition countValue (n : Z) : Value := VString (CountOf n).

Definition sorted_keys (m : gmap string Z) : list string := SortStrings (map_to_list m).*1.

Definition countsValue (m : gmap string Z) : Value :=
  VObject (foldl (λ o k, Set_ o k (countValue (default 0 (m !! k)))) NewObject (sorted_keys m)).

(** More often, or as often and first in byte order. *)
Definition counts_before (m : gmap string Z) (a b : string) : bool :=
  let n k := default 0 (m !! k) in
  if negb (n a =? n b) then n b <? n a else a <s b.

Definition topCounts (m : gmap string Z) : gmap string Z * Z :=
  if (size m <=? maxOpenFacetKeys)%nat then (m, 0)
  else
    let keys := isort (λ a b, negb (counts_before m b a)) (map_to_list m).*1 in
    (foldl (λ kept k, <[k := default 0 (m !! k)]> kept) ∅ (take maxOpenFacetKeys keys),
     Z.of_nat (length keys - maxOpenFacetKeys)).

Definition summary_value (t : tally) : Value :=
  let o := Set_ NewObject "total" (countValue (ty_total t)) in
  let o := Set_ o "byStatus" (countsValue (ty_status t)) in
  let o := Set_ o "byPriority" (countsValue (ty_priority t)) in
  let o := Set_ o "byKind" (countsValue (ty_kind t)) in
  let o := Set_ o "byExecutionClass" (countsValue (ty_class t)) in
  let o := Set_ o "byEligibility" (countsValue (ty_eligibility t)) in
  let o := Set_ o "byNextAction" (countsValue (ty_next t)) in
  let o := Set_ o "byBlockerCode" (countsValue (ty_blocker t)) in
  let o := Set_ o "byMilestone" (countsValue (topCounts (ty_milestone t)).1) in
  let o := Set_ o "milestonesOmitted" (countValue (topCounts (ty_milestone t)).2) in
  let o := Set_ o "withoutMilestone" (countValue (ty_without t)) in
  let o := Set_ o "byLabel" (countsValue (topCounts (ty_label t)).1) in
  VObject (Set_ o "labelsOmitted" (countValue (topCounts (ty_label t)).2)).

(** The loop over the ids; a panic of [View] ends it. *)
Fixpoint facet_loop (inv : Inventory) (ctx : ViewContext) (ids : list string) (t : tally) : outcome viewed tally :=
  match ids with
  | [] => Ok t
  | id :: ids' =>
      match Inventory_View inv id ctx with
      | Viewed v => facet_loop inv ctx ids' (count_view t v)
      | NoView => facet_loop inv ctx ids' t
      | p => Err p
      end
  end.

(** [facetSummary(rc, ids)], given the inventory and context of [rc]. *)
Definition facetSummary (inv : Inventory) (ctx : ViewContext) (ids : list string) : outcome viewed Value :=
  obind (facet_loop inv ctx ids no_tickets) (λ t, Ok (summary_value t)).

(** ** Counts *)

Definition map_sum (m : gmap string Z) : Z := foldr Z.add 0 (map_to_list m).*2.

Lemma sum_perm (l l' : list Z) : l ≡ₚ l' → foldr Z.add 0 l = foldr Z.add 0 l'.
Proof. induction 1; cbn [foldr]; lia. Qed.

Lemma map_sum_insert m k c : m !! k = None → map_sum (<[k := c]> m) = c + map_sum m.
Proof. intros H. unfold map_sum. by rewrite (sum_perm _ _ (fmap_Permutation snd _ _ (map_to_list_insert m k c H))). Qed.

Lemma map_sum_delete m k c : m !! k = Some c → map_sum m = c + map_sum (delete k m).
Proof. intros H. rewrite <-(insert_delete_id m k c H) at 1. apply map_sum_insert, lookup_delete_eq. Qed.

Lemma map_sum_bump k m : map_sum (bump k m) = map_sum m + 1.
Proof.
  unfold bump. destruct (m !! k) as [c|] eqn:H; cbn [default from_option].
  - rewrite <-insert_delete_eq, map_sum_insert, (map_sum_delete m k c H) by apply lookup_delete_eq. unfold id. lia.
  - rewrite map_sum_insert by done. lia.
Qed.

(** Counts between [lo] and [n] of keys in [P]. *)
Definition counted (lo : Z) (P : string → Prop) (n : Z) (m : gmap string Z) : Prop :=
  ∀ k c, m !! k = Some c → P k ∧ lo ≤ c ≤ n.

(** Bumping distinct keys once each. *)
Lemma bumps_lookup ks : ∀ m k, NoDup ks →
  foldl (λ m k, bump k m) m ks !! k = if decide (k ∈ ks) then Some (default 0 (m !! k) + 1) else m !! k.
Proof.
  induction ks as [|k' ks IH]; intros m k Hnd; cbn [foldl]; [by rewrite decide_False by apply not_elem_of_nil|].
  apply NoDup_cons in Hnd as [Hk Hnd]. rewrite (IH _ _ Hnd). unfold bump. destruct (decide (k = k')) as [->|Hne].
  - rewrite decide_False by done. rewrite decide_True by constructor. apply lookup_insert_eq.
  - rewrite lookup_insert_ne by done. destruct (decide (k ∈ ks)) as [Hin|Hin].
    + by rewrite decide_True by by constructor.
    + rewrite decide_False; [done|]. by intros [?|?]%elem_of_cons.
Qed.

(** The blockers count once per code. *)
Lemma bump_once_keys bs : ∀ seen m, ∃ ks, (foldl bump_once (seen, m) bs).2 = foldl (λ m k, bump k m) m ks ∧ NoDup ks ∧
  (∀ k, k ∈ ks ↔ (k ∉ seen) ∧ k ∈ blk_Code <$> bs).
Proof.
  induction bs as [|b bs IH]; intros seen m; cbn [foldl]; [exists []; split_and!; [done|constructor|set_solver]|].
  unfold bump_once at 2. cbn [fst snd]. rewrite fmap_cons. destruct (existsb _ seen) eqn:E.
  - destruct (IH seen m) as (ks & Hks & Hnd & Hin). exists ks. split_and!; [done..|]. intros k. rewrite Hin, elem_of_cons.
    apply existsb_exists in E as (x & Hx%list_elem_of_In & <-%String.eqb_eq). naive_solver.
  - destruct (IH (blk_Code b :: seen) (bump (blk_Code b) m)) as (ks & Hks & Hnd & Hin). exists (blk_Code b :: ks).
    assert (blk_Code b ∉ seen) as Hs.
    { intros Hs. apply not_true_iff_false in E. apply E, existsb_exists. exists (blk_Code b). split; [by apply list_elem_of_In|apply String.eqb_refl]. }
    split_and!; [by rewrite Hks| |].
    + constructor; [|done]. rewrite Hin, elem_of_cons. naive_solver.
    + intros k. rewrite !elem_of_cons, Hin, elem_of_cons. destruct (decide (k = blk_Code b)); naive_solver.
Qed.

(** ** The objects of counts *)

Definition count_pair (m : gmap string Z) (k : string) : string * Value := (k, countValue (default 0 (m !! k))).

Lemma sorted_keys_perm m : sorted_keys m ≡ₚ (map_to_list m).*1.
Proof. unfold sorted_keys. apply SortStrings_perm. Qed.

Lemma sorted_keys_NoDup m : NoDup (sorted_keys m).
Proof. rewrite sorted_keys_perm. apply NoDup_fst_map_to_list. Qed.

Lemma elem_of_sorted_keys m k : k ∈ sorted_keys m ↔ is_Some (m !! k).
Proof.
  rewrite sorted_keys_perm, list_elem_of_fmap. split.
  - intros ([k' c] & -> & H%elem_of_map_to_list). by exists c.
  - intros [c H]. exists (k, c). split; [done|]. by apply elem_of_map_to_list.
Qed.

Lemma countsValue_list m : countsValue m = VObject (count_pair m <$> sorted_keys m).
Proof.
  unfold countsValue. f_equal. change (count_pair m <$> sorted_keys m) with (NewObject ++ (count_pair m <$> sorted_keys m)).
  assert (∀ k, k ∈ sorted_keys m → k ∉ Keys NewObject) as Hf by (intros k _; apply not_elem_of_nil).
  revert Hf. pose proof (sorted_keys_NoDup m) as Hnd. revert Hnd. generalize NewObject. generalize (sorted_keys m) as ks.
  induction ks as [|k ks IH]; intros o Hnd Hf; cbn [foldl]; [by rewrite app_nil_r|].
  apply NoDup_cons in Hnd as [Hk Hnd]. rewrite Set_fresh by (apply Hf; constructor). rewrite IH; [by rewrite <-app_assoc|done|].
  intros k' Hk'. unfold Keys. rewrite fmap_app, elem_of_app. intros [Hx|Hx]; [by apply (Hf k'); [constructor|]|].
  apply list_elem_of_singleton in Hx as ->. done.
Qed.

Lemma Get_count m k c : m !! k = Some c → Get (count_pair m <$> sorted_keys m) k = Some (countValue c).
Proof.
  intros H. assert (k ∈ sorted_keys m) as Hk by by apply elem_of_sorted_keys.
  unfold Get. apply assoc_elem_of.
  - rewrite <-list_fmap_compose. unfold compose. cbn. rewrite list_fmap_id. apply sorted_keys_NoDup.
  - apply list_elem_of_fmap. exists k. split; [|done]. unfold count_pair. by rewrite H.
Qed.

Lemma Keys_counts m : Keys (count_pair m <$> sorted_keys m) = sorted_keys m.
Proof. unfold Keys. rewrite <-list_fmap_compose. apply list_fmap_id. Qed.

Lemma sum_keys m : foldr (λ k s, default 0 (m !! k) + s) 0 (sorted_keys m) = map_sum m.
Proof.
  assert (∀ ks, foldr (λ k s, default 0 (m !! k) + s) 0 ks = foldr Z.add 0 ((λ k, default 0 (m !! k)) <$> ks)) as ->
    by (induction ks as [|k ks IH]; [done|]; cbn; by rewrite IH).
  unfold map_sum. rewrite (sum_perm _ _ (fmap_Permutation _ _ _ (sorted_keys_perm m))). f_equal.
  rewrite <-list_fmap_compose. apply list_fmap_ext. intros i [k c] Hi.
  apply list_elem_of_lookup_2, elem_of_map_to_list in Hi. unfold compose. cbn. by rewrite Hi.
Qed.

Lemma Count_ok r n : 0 ≤ n ≤ MaxCountValue → rv r = countValue n → ok (Count r) (CountOf n).
Proof.
  intros Hn Hr. apply (ok_text ParseCount). split; [done|].
  destruct (ParseCount_spec (rwhere r) (CountOf n)) as [(m & _ & _ & H & _)|[H _]]; [done|]. by destruct (H n Hn).
Qed.

Section complete.
Context (f : Reader) (m : gmap string Z) (total : Z) (open_ : bool) (key : string → bool).
Context (Hf : rv f = countsValue m) (Ht : total ≤ MaxCountValue).
Context (Hm : counted (if open_ then 1 else 0) (λ k, key k = true) total m).

Lemma facetCounts_loop_complete ks : (∀ k, k ∈ ks → is_Some (m !! k)) → ∀ sum,
  ok (facetCounts_loop f total open_ key sum ks) (sum + foldr (λ k s, default 0 (m !! k) + s) 0 ks).
Proof.
  induction ks as [|k ks IH]; intros Hin sum; cbn [facetCounts_loop foldr]; [apply ok_ret; lia|].
  destruct (Hin k) as [c Hc]; [constructor|]. destruct (Hm k c Hc) as [Hk Hb].
  rewrite ok_bind; [|apply _|intros; destruct (key k); simpl; apply _]. exists (child f (countValue c) k). split.
  { apply ok_Field. eexists _, _. split; [by rewrite Hf, countsValue_list|]. split; [by apply Get_count|done]. }
  rewrite Hk. cbn [negb]. assert (0 ≤ c ≤ MaxCountValue) as Hcb by (destruct open_; lia).
  rewrite ok_bind by apply _. exists (CountOf c). split; [by apply Count_ok|]. cbv zeta. rewrite ok_failed, Count_Int_CountOf by done.
  replace ((total <? c) || (open_ && (c =? 0))) with false by (destruct open_; lia).
  rewrite Hc. cbn [default from_option]. unfold id. replace (sum + (c + foldr (λ k s, default 0 (m !! k) + s) 0 ks)) with
    (sum + c + foldr (λ k s, default 0 (m !! k) + s) 0 ks) by lia. apply IH. intros k' Hk'. apply Hin. by constructor.
Qed.

Lemma facetCounts_complete : ok (facetCounts f total open_ key) (map_sum m).
Proof.
  unfold facetCounts. rewrite ok_failed. rewrite Hf at 1. rewrite countsValue_list. rewrite Keys_counts.
  rewrite <-sum_keys. apply facetCounts_loop_complete. intros k. apply elem_of_sorted_keys.
Qed.

Lemma summed_complete : map_sum m = total → ok (summed f total open_ key) tt.
Proof.
  intros Hs. unfold summed. rewrite ok_bind by apply _. exists (map_sum m). split; [apply facetCounts_complete|].
  rewrite ok_failed, Hs, Z.eqb_refl. by apply ok_ret.
Qed.
End complete.

(** ** The most frequent keys *)

Lemma map_sum_nonneg m : (∀ k c, m !! k = Some c → 0 ≤ c) → 0 ≤ map_sum m.
Proof.
  intros H. unfold map_sum. assert (Forall (λ c, 0 ≤ c) (map_to_list m).*2) as Hl.
  { rewrite Forall_fmap. apply Forall_forall. intros [k c] Hin%elem_of_map_to_list. by apply (H k). }
  induction Hl; cbn [foldr]; lia.
Qed.

Lemma map_sum_subset m' : ∀ m, (∀ k c, m !! k = Some c → 0 ≤ c) → m' ⊆ m → map_sum m' ≤ map_sum m.
Proof.
  induction m' as [|k c m' Hk IH] using map_ind; intros m Hm Hs; [by apply map_sum_nonneg|].
  assert (m !! k = Some c) as Hc by (eapply lookup_weaken; [apply lookup_insert_eq|exact Hs]).
  rewrite map_sum_insert, (map_sum_delete m k c Hc) by done. assert (map_sum m' ≤ map_sum (delete k m)); [|lia]. apply IH.
  - intros k' c' [_ H]%lookup_delete_Some. by eapply Hm.
  - apply map_subseteq_spec. intros k' c' Hk'. rewrite lookup_delete_ne by (intros ->; congruence).
    eapply lookup_weaken; [|exact Hs]. rewrite lookup_insert_ne; [done|]. intros ->; congruence.
Qed.

Lemma size_keys (m : gmap string Z) ks : NoDup ks → (∀ k, is_Some (m !! k) ↔ k ∈ ks) → size m = length ks.
Proof.
  intros Hnd H. rewrite <-length_map_to_list, <-(length_fmap fst), <-sorted_keys_perm. apply Permutation_length, NoDup_Permutation;
    [apply sorted_keys_NoDup|done|]. intros k. by rewrite elem_of_sorted_keys.
Qed.

Lemma kept_lookup (g : string → Z) ks : ∀ (m : gmap string Z) k,
  foldl (λ kept k, <[k := g k]> kept) m ks !! k = if decide (k ∈ ks) then Some (g k) else m !! k.
Proof.
  induction ks as [|k' ks IH]; intros m k; cbn [foldl]; [by rewrite decide_False by apply not_elem_of_nil|]. rewrite IH.
  destruct (decide (k ∈ ks)) as [Hin|Hin]; [by rewrite decide_True by by constructor|].
  destruct (decide (k = k')) as [->|Hne].
  - rewrite decide_True by constructor. apply lookup_insert_eq.
  - rewrite lookup_insert_ne by done. rewrite decide_False; [done|]. by intros [?|?]%elem_of_cons.
Qed.

(** What [topCounts] keeps: a part of the map, all of it up to the bound and
    as many keys as the bound otherwise. *)
Lemma topCounts_spec m :
  (topCounts m).1 ⊆ m ∧ (size (topCounts m).1 ≤ maxOpenFacetKeys)%nat ∧ 0 ≤ (topCounts m).2 ≤ Z.of_nat (size m) ∧
  (0 < (topCounts m).2 → size (topCounts m).1 = maxOpenFacetKeys).
Proof.
  unfold topCounts. destruct (Nat.leb_spec (size m) maxOpenFacetKeys) as [Hs|Hs]; cbn [fst snd]; [split_and!; [done|done|lia|lia|lia]|].
  set (keys := isort _ _). assert (keys ≡ₚ (map_to_list m).*1) as Hp by apply isort_perm.
  assert (NoDup keys) as Hnd by (rewrite Hp; apply NoDup_fst_map_to_list).
  assert (length keys = size m) as Hl by by rewrite Hp, length_fmap, length_map_to_list.
  assert (∀ k, k ∈ keys ↔ is_Some (m !! k)) as Hk by (intros k; rewrite <-elem_of_sorted_keys, sorted_keys_perm; by rewrite Hp).
  assert (size (foldl (λ kept k, <[k := default 0 (m !! k)]> kept) (∅ : gmap string Z) (take maxOpenFacetKeys keys)) = maxOpenFacetKeys) as Hsz.
  { rewrite (size_keys _ (take maxOpenFacetKeys keys)); [rewrite length_take; lia|by apply (sublist_NoDup _ keys), sublist_take|].
    intros k. rewrite (kept_lookup (λ k, default 0 (m !! k))). destruct (decide _); [done|]. rewrite lookup_empty. by split; [intros [? ?]|]. }
  split_and!; [|lia|lia|lia|done].
  apply map_subseteq_spec. intros k c. rewrite (kept_lookup (λ k, default 0 (m !! k))). destruct (decide _) as [Hin|]; [|by rewrite lookup_empty].
  intros [= <-]. assert (k ∈ keys) as [c Hc]%Hk; [|by rewrite Hc].
  rewrite <-(take_drop maxOpenFacetKeys keys). apply elem_of_app. by left.
Qed.

(** ** What the loop counts *)

(** How often [k] occurs. *)
Definition occ (k : string) (l : list string) : Z := Z.of_nat (length (filter (eq k) l)).

(** The counts of the keys of [l], beside the zeros of [base]. *)
Definition tally_of (base l : list string) : gmap string Z := foldl (λ m k, bump k m) (zeroCounts base) l.

Lemma tally_snoc base l k : tally_of base (l ++ [k]) = bump k (tally_of base l).
Proof. unfold tally_of. by rewrite foldl_app. Qed.

Lemma occ_snoc k l k' : occ k (l ++ [k']) = occ k l + if decide (k = k') then 1 else 0.
Proof.
  unfold occ. rewrite filter_app, length_app, filter_cons, filter_nil. destruct (decide (k = k')); cbn [length]; lia.
Qed.

Lemma occ_zero k l : k ∉ l → occ k l = 0.
Proof.
  intros H. unfold occ. destruct (filter _ l) as [|x xs] eqn:E; [done|]. exfalso. apply H.
  assert (x ∈ filter (eq k) l) as [-> Hin]%list_elem_of_filter by (rewrite E; constructor). done.
Qed.

Lemma occ_bounds k l : 0 ≤ occ k l ≤ Z.of_nat (length l).
Proof. unfold occ. pose proof (length_filter (eq k) l). lia. Qed.

Lemma occ_in k l : k ∈ l → 1 ≤ occ k l.
Proof.
  intros H. unfold occ. destruct (filter (eq k) l) as [|x xs] eqn:E; [|cbn [length]; lia]. exfalso.
  assert (k ∈ filter (eq k) l) as Hin by by apply list_elem_of_filter. rewrite E in Hin. by apply not_elem_of_nil in Hin.
Qed.

Lemma tally_lookup base l k : tally_of base l !! k = if decide (k ∈ base ++ l) then Some (occ k l) else None.
Proof.
  induction l as [|k' l IH] using rev_ind.
  - unfold tally_of, zeroCounts. cbn [foldl]. rewrite (kept_lookup (λ _, 0)), app_nil_r. by destruct (decide _).
  - rewrite tally_snoc, occ_snoc. unfold bump. destruct (decide (k = k')) as [->|Hne].
    + rewrite lookup_insert_eq, decide_True by set_solver. rewrite IH. destruct (decide _) as [|Hn]; [done|].
      rewrite occ_zero; [done|]. set_solver.
    + rewrite lookup_insert_ne, IH by done. rewrite Z.add_0_r. apply decide_ext. set_solver.
Qed.

Lemma map_sum_zeroes base : map_sum (zeroCounts base) = 0.
Proof.
  induction base as [|k base IH] using rev_ind; [done|]. unfold zeroCounts in *. rewrite foldl_app. cbn [foldl].
  set (m := foldl _ ∅ base) in *. destruct (m !! k) as [c|] eqn:H; [|by rewrite map_sum_insert, IH].
  assert (c = 0) as -> by (unfold m in H; rewrite (kept_lookup (λ _, 0)) in H; destruct (decide _); [by injection H|by rewrite lookup_empty in H]).
  by rewrite insert_id.
Qed.

Lemma map_sum_tally base l : map_sum (tally_of base l) = Z.of_nat (length l).
Proof.
  induction l as [|k l IH] using rev_ind; [apply map_sum_zeroes|]. rewrite tally_snoc, map_sum_bump, IH, length_app. cbn [length]. lia.
Qed.

(** The keys of a list of views, for each map of the summary. *)
Definition live_view (v : View) : bool :=
  negb (rec_Status (v_Record v) =s StatusCompleted) && negb (rec_Status (v_Record v) =s StatusArchived).

(** The live views with a blocker of the code. *)
Definition blocked_by (code : string) (vs : list View) : Z :=
  Z.of_nat (length (filter (λ v, live_view v = true ∧ code ∈ blk_Code <$> v_Blockers v) vs)).

(** [t] counts the views [vs]. *)
Record counts_views (vs : list View) (t : tally) : Prop := {
  cv_total : ty_total t = Z.of_nat (length vs);
  cv_status : ty_status t = tally_of Statuses ((λ v, rec_Status (v_Record v)) <$> vs);
  cv_priority : ty_priority t = tally_of Priorities ((λ v, rec_Priority (v_Record v)) <$> vs);
  cv_kind : ty_kind t = tally_of Kinds ((λ v, rec_Kind (v_Record v)) <$> vs);
  cv_class : ty_class t = tally_of ExecutionClasses ((λ v, rec_ExecutionClass (v_Record v)) <$> vs);
  cv_eligibility : ty_eligibility t = tally_of [EligibilityBlocked; EligibilityUnknown] (v_Eligibility <$> vs);
  cv_next : ty_next t = tally_of [] (v_NextAction <$> vs);
  cv_blocker : ∀ code, ty_blocker t !! code = if decide (blocked_by code vs = 0) then None else Some (blocked_by code vs);
  cv_milestone : ty_milestone t = tally_of [] (omap (λ v, rec_Milestone (v_Record v)) vs);
  cv_label : ty_label t = tally_of [] (flat_map (λ v, rec_Labels (v_Record v)) vs);
  cv_without : ty_without t = Z.of_nat (length (filter (λ v, rec_Milestone (v_Record v) = None) vs))
}.

Lemma counts_none : counts_views [] no_tickets.
Proof. by split. Qed.

Lemma count_view_one vs t v : counts_views vs t → counts_views (vs ++ [v]) (count_view t v).
Proof.
  intros [Ht Hs Hp Hk Hc He Hn Hb Hm Hl Hw]. unfold count_view. cbv zeta.
  split; cbn [ty_total ty_status ty_priority ty_kind ty_class ty_eligibility ty_next ty_blocker ty_milestone ty_label ty_without];
    rewrite ?fmap_app, ?length_app; cbn [fmap list_fmap]; rewrite ?tally_snoc; try congruence.
  - rewrite Ht. cbn [length]. lia.
  - intros code. unfold blocked_by. rewrite filter_app, length_app, filter_cons, filter_nil. specialize (Hb code). unfold blocked_by in Hb.
    set (n := length (filter _ vs)) in *. clearbody n. unfold live_view.
    destruct (negb _ && negb _) eqn:Hlive.
    + destruct (bump_once_keys (v_Blockers v) [] (ty_blocker t)) as (ks & Hks & Hnd & Hin). rewrite Hks, bumps_lookup, Hb by done.
      destruct (decide (code ∈ ks)) as [Hk'|Hk'].
      * rewrite (decide_True (P := _ ∧ _)) by (apply Hin in Hk' as [_ ?]; done). cbn [length]. rewrite (decide_False (P := Z.of_nat (n + 1) = 0)) by lia.
        f_equal. destruct (decide _); cbn [default from_option]; unfold id; lia.
      * rewrite (decide_False (P := _ ∧ _)) by (intros [_ Hx]; apply Hk', Hin; split; [apply not_elem_of_nil|done]).
        cbn [length]. by rewrite Nat.add_0_r.
    + rewrite (decide_False (P := _ ∧ _)) by (by intros [? _]). cbn [length]. by rewrite Nat.add_0_r.
  - rewrite omap_app. cbn [omap list_omap]. destruct (rec_Milestone (v_Record v)); [rewrite tally_snoc; congruence|by rewrite app_nil_r].
  - rewrite flat_map_app. cbn [flat_map]. rewrite app_nil_r, Hl. unfold tally_of. by rewrite foldl_app.
  - rewrite Hw, filter_app, length_app, filter_cons, filter_nil. destruct (rec_Milestone (v_Record v)) eqn:E.
    + rewrite decide_False by done. cbn [length]. lia.
    + rewrite decide_True by done. cbn [length]. lia.
Qed.

(** The views of the ids. *)
Definition views (inv : Inventory) (ctx : ViewContext) (ids : list string) : list View :=
  omap (λ id, match Inventory_View inv id ctx with Viewed v => Some v | _ => None end) ids.

Lemma facet_loop_counts inv ctx ids : ∀ vs t t',
  counts_views vs t → facet_loop inv ctx ids t = Ok t' → counts_views (vs ++ views inv ctx ids) t'.
Proof.
  induction ids as [|id ids IH]; intros vs t t' Hc; cbn [facet_loop views omap list_omap]; [intros [= <-]; by rewrite app_nil_r|].
  destruct (Inventory_View inv id ctx) as [v| | |]; [|by apply IH|done..].
  intros H. apply (IH (vs ++ [v])) in H; [|by apply count_view_one]. by rewrite <-app_assoc in H.
Qed.

(** ** The vocabulary of views *)

Definition coded (ns : list note) : Prop := Forall (λ n, match n with Blocks b => IsCode (blk_Code b) = true | _ => True end) ns.

Lemma coded_blockers ns : coded ns → Forall (λ b, IsCode (blk_Code b) = true) (blockers ns).
Proof. induction 1 as [|[b|b|b] ns Hb _ IH]; cbn; [constructor|by constructor|done..]. Qed.

Lemma obligation_coded ctx code w g s o gid dep : IsCode code = true → coded (obligation_notes ctx code w g s o gid dep).
Proof. intros H. unfold obligation_notes. cbv zeta. repeat case_match; repeat constructor; done. Qed.

Lemma view_coded inv id ctx rec : coded (view_notes inv id ctx rec).
Proof.
  unfold view_notes, coded. rewrite !Forall_app. split_and!.
  - unfold status_notes. cbv zeta. repeat case_match; repeat constructor.
  - unfold escalation_notes. case_match; repeat constructor.
  - unfold loop_notes. repeat case_match; repeat constructor.
  - unfold problem_notes. apply Forall_flat_map, Forall_forall. intros p Hp. constructor; [|constructor]. cbn [blk_Code].
    unfold Problems in Hp. destruct (inv_sum inv !! id); [|by apply not_elem_of_nil in Hp].
    apply elem_of_app in Hp as [(d & _ & Hd)%list_elem_of_omap|Hp].
    + destruct (inv_sum inv !! raw d); [done|]. injection Hd as <-. reflexivity.
    + destruct (inv_inCycle inv !! id); [|by apply not_elem_of_nil in Hp]. apply list_elem_of_singleton in Hp as ->. reflexivity.
  - apply Forall_flat_map, Forall_forall. intros d _. unfold dependency_notes. case_match; [by apply obligation_coded|constructor].
  - apply Forall_flat_map, Forall_forall. intros p _. unfold prerequisite_notes. cbv zeta.
    repeat case_match; [repeat constructor|by apply obligation_coded|repeat constructor].
  - unfold class_notes. cbv zeta. repeat case_match; repeat constructor.
  - unfold effects_notes. cbv zeta. rewrite Forall_app. split; case_match; repeat constructor.
  - unfold import_notes. case_match; repeat constructor.
  - unfold attempt_notes. cbv zeta. repeat case_match; repeat constructor.
Qed.

Lemma action_known status bs us : existsb (String.eqb (nextAction status bs us)) FacetNextActions = true.
Proof. unfold nextAction, action_for. repeat case_match; reflexivity. Qed.

(** What a view of a ticket shows is within the vocabularies of the summary. *)
Lemma view_vocabulary inv id ctx v :
  Inventory_View inv id ctx = Viewed v →
  v_Eligibility v ∈ [EligibilityBlocked; EligibilityUnknown] ∧ existsb (String.eqb (v_NextAction v)) FacetNextActions = true ∧
  Forall (λ b, IsCode (blk_Code b) = true) (v_Blockers v).
Proof.
  unfold Inventory_View. destruct (Inventory_Get inv id).2 as [rec| | |]; [|done..]. intros [= <-]. unfold view_of. cbv zeta.
  cbn [v_Eligibility v_NextAction v_Blockers]. split_and!.
  - destruct (blockers _); [right|]; constructor.
  - case_match; [reflexivity|apply action_known].
  - apply coded_blockers, view_coded.
Qed.

(** ** The summary is accepted *)

Definition summary_fields (t : tally) : Object :=
  [("total", countValue (ty_total t)); ("byStatus", countsValue (ty_status t)); ("byPriority", countsValue (ty_priority t));
   ("byKind", countsValue (ty_kind t)); ("byExecutionClass", countsValue (ty_class t));
   ("byEligibility", countsValue (ty_eligibility t)); ("byNextAction", countsValue (ty_next t));
   ("byBlockerCode", countsValue (ty_blocker t)); ("byMilestone", countsValue (topCounts (ty_milestone t)).1);
   ("milestonesOmitted", countValue (topCounts (ty_milestone t)).2); ("withoutMilestone", countValue (ty_without t));
   ("byLabel", countsValue (topCounts (ty_label t)).1); ("labelsOmitted", countValue (topCounts (ty_label t)).2)].

Lemma summary_fields_eq t : summary_value t = VObject (summary_fields t).
Proof. reflexivity. Qed.

(** A closed map: exactly the keys of the enumeration, its counts adding up. *)
Definition closed_counts (enum : list string) (n : Z) (m : gmap string Z) : Prop :=
  (∀ k, is_Some (m !! k) ↔ k ∈ enum) ∧ counted 0 (λ _, True) n m ∧ map_sum m = n.

Lemma tally_closed enum l : Forall (λ k, k ∈ enum) l → closed_counts enum (Z.of_nat (length l)) (tally_of enum l).
Proof.
  intros H. rewrite Forall_forall in H. split_and!; [| |apply map_sum_tally].
  - intros k. rewrite tally_lookup. split.
    + intros [c Hc]. destruct (decide (k ∈ enum ++ l)) as [Hin|]; [|done]. apply elem_of_app in Hin as [?|?]; auto.
    + intros Hk. rewrite decide_True by (apply elem_of_app; by left). done.
  - intros k c. rewrite tally_lookup. destruct (decide _); [|done]. intros [= <-]. split; [done|apply occ_bounds].
Qed.

Lemma tally_open (P : string → Prop) n l :
  Forall P l → (∀ k, occ k l ≤ n) → counted 1 P n (tally_of [] l).
Proof.
  intros H Hn k c. rewrite tally_lookup. cbn [app]. destruct (decide (k ∈ l)) as [Hin|]; [|done]. intros [= <-].
  rewrite Forall_forall in H. split; [by apply H|]. split; [by apply occ_in|apply Hn].
Qed.

Section summary.
Context (t : tally) (w : string).

Let r : Reader := NewReader (summary_value t) w.

Context (Htotal : 0 ≤ ty_total t ≤ MaxCountValue) (Hwithout : 0 ≤ ty_without t ≤ MaxCountValue).
Context (Hstatus : closed_counts FacetStatuses (ty_total t) (ty_status t)).
Context (Hpriority : closed_counts FacetPriorities (ty_total t) (ty_priority t)).
Context (Hkind : closed_counts FacetKinds (ty_total t) (ty_kind t)).
Context (Hclass : closed_counts FacetExecutionClasses (ty_total t) (ty_class t)).
Context (Helig : closed_counts FacetEligibilities (ty_total t) (ty_eligibility t)).
Context (Hnext : counted 1 (λ k, existsb (String.eqb k) FacetNextActions = true) (ty_total t) (ty_next t)).
Context (Hnextsum : map_sum (ty_next t) = ty_total t).
Context (Hblocker : counted 1 (λ k, IsCode k = true) (ty_total t) (ty_blocker t)).
Context (Hmilestone : counted 1 (λ k, isLabel k = true) (ty_total t) (ty_milestone t)).
Context (Hmilestones : map_sum (ty_milestone t) + ty_without t = ty_total t).
Context (Hlabel : counted 1 (λ k, isLabel k = true) (ty_total t) (ty_label t)).
Context (Hsizes : Z.of_nat (size (ty_milestone t)) ≤ MaxCountValue) (Hsizel : Z.of_nat (size (ty_label t)) ≤ MaxCountValue).

Lemma summary_field key v : Get (summary_fields t) key = Some v → ok (Field r key) (child r v key).
Proof. intros H. apply ok_Field. exists (summary_fields t), v. split_and!; [apply summary_fields_eq|done|done]. Qed.

Lemma top_counted P n m : counted 1 P n m → counted 1 P n (topCounts m).1.
Proof. intros H k c Hk. apply H. eapply lookup_weaken; [done|apply topCounts_spec]. Qed.

Lemma counts_keys m o : countsValue m = VObject o → ∀ k, k ∈ Keys o ↔ is_Some (m !! k).
Proof. rewrite countsValue_list. intros [= <-] k. by rewrite Keys_counts, elem_of_sorted_keys. Qed.

Lemma closed_complete key enum m :
  Get (summary_fields t) key = Some (countsValue m) → closed_counts enum (ty_total t) m →
  ∀ maps, ok (closed_maps r (ty_total t) maps) tt → ok (closed_maps r (ty_total t) ((key, enum) :: maps)) tt.
Proof.
  intros Hg (Hk & Hc & Hs) maps Hmaps. cbn [closed_maps].
  rewrite ok_bind by apply _. eexists. split; [by apply summary_field|].
  rewrite ok_bind by apply _. exists tt. split.
  { apply ok_Closed. eexists. split; [apply countsValue_list|]. intros k. rewrite Keys_counts, elem_of_sorted_keys. apply Hk. }
  rewrite ok_bind by apply _. exists tt. split; [|done]. apply (summed_complete _ m); [done|lia| |done].
  intros k c Hkc. by destruct (Hc k c Hkc).
Qed.

Lemma cap_complete key m omitted :
  Get (summary_fields t) omitted = Some (countValue (topCounts m).2) → Z.of_nat (size m) ≤ MaxCountValue →
  ok (facetCap r (child r (countsValue (topCounts m).1) key) omitted) tt.
Proof.
  intros Hg Hm. destruct (topCounts_spec m) as (_ & Hs & Ho & Hf). unfold facetCap.
  rewrite ok_bind by apply _. eexists. split; [by apply summary_field|].
  rewrite ok_bind by apply _. exists (CountOf (topCounts m).2). split; [apply Count_ok; [lia|done]|]. cbv zeta. rewrite ok_failed.
  cbn [child rv]. rewrite countsValue_list, Keys_counts, Count_Int_CountOf by lia.
  assert (length (sorted_keys (topCounts m).1) = size (topCounts m).1) as ->.
  { symmetry. apply size_keys; [apply sorted_keys_NoDup|]. intros k. by rewrite elem_of_sorted_keys. }
  unfold MaxFacetOpenKeys, maxOpenFacetKeys in *. destruct (_ || _) eqn:E; [|by apply ok_ret].
  apply orb_true_iff in E as [E|E]; [lia|]. apply andb_true_iff in E as [E1%Z.ltb_lt E2%negb_true_iff].
  rewrite Hf in E2 by done. done.
Qed.

Lemma summary_accepted : ok (decodeFacets r) tt.
Proof.
  unfold decodeFacets. assert (Has (rv r) "byLifecycle" = false) as -> by reflexivity.
  rewrite ok_bind by apply _. exists tt. split.
  { apply ok_Closed. exists (summary_fields t). split; [apply summary_fields_eq|done]. }
  rewrite ok_failed. rewrite ok_bind by apply _. eexists. split; [by apply summary_field|].
  rewrite ok_bind by apply _. exists (CountOf (ty_total t)). split; [by apply Count_ok|]. cbv zeta. rewrite Count_Int_CountOf by done.
  rewrite ok_bind by apply _. exists tt. split.
  { unfold facetClosedMaps. do 5 (eapply closed_complete; [reflexivity|done|]). by apply ok_ret. }
  rewrite ok_bind by apply _. eexists. split; [by apply summary_field|].
  rewrite ok_bind by apply _. exists tt. split; [by apply (summed_complete _ (ty_next t)); [|lia|..]|].
  rewrite ok_bind by apply _. eexists. split; [by apply summary_field|].
  rewrite ok_bind by apply _. eexists. split; [by apply (facetCounts_complete _ (ty_blocker t)); [|lia|..]|].
  rewrite ok_bind by apply _. eexists. split; [by apply summary_field|].
  rewrite ok_bind by apply _. exists (CountOf (ty_without t)). split; [by apply Count_ok|]. cbv zeta. rewrite Count_Int_CountOf by done.
  rewrite ok_bind by apply _. eexists. split; [by apply summary_field|].
  rewrite ok_bind by apply _. eexists. split; [by apply (facetCounts_complete _ (topCounts (ty_milestone t)).1); [|lia|apply top_counted]|].
  rewrite ok_bind by apply _. exists tt. split; [by apply cap_complete|]. rewrite ok_failed.
  rewrite ok_bind by apply _. exists tt. split.
  { cbn [negb andb]. destruct (Z.ltb_spec (ty_total t) (ty_without t + map_sum (topCounts (ty_milestone t)).1)); [|by apply ok_ret].
    assert (map_sum (topCounts (ty_milestone t)).1 ≤ map_sum (ty_milestone t)); [|lia].
    apply map_sum_subset; [|apply topCounts_spec]. intros k c Hk. destruct (Hmilestone k c Hk). lia. }
  rewrite ok_bind by apply _. eexists. split; [by apply summary_field|].
  rewrite ok_bind by apply _. eexists. split; [by apply (facetCounts_complete _ (topCounts (ty_label t)).1); [|lia|apply top_counted]|].
  by apply cap_complete.
Qed.
End summary.

Lemma label_isLabel k : label k → isLabel k = true.
Proof.
  intros [x H]. unfold isLabel, ParseLabel, parseText in *. destruct (slen k <? 1); [done|]. destruct (MaxLabelBytes <? slen k); [done|].
  destruct (checkHostile k x false) eqn:E; [done|]. apply checkHostile_clean, (checkHostile_clean k ε) in E. by rewrite E.
Qed.

Lemma size_sum P n m : counted 1 P n m → Z.of_nat (size m) ≤ map_sum m.
Proof.
  induction m as [|k c m Hk IH] using map_ind; intros H; [done|]. rewrite map_size_insert_None, map_sum_insert by done.
  destruct (H k c) as [_ Hc]; [apply lookup_insert_eq|]. assert (Z.of_nat (size m) ≤ map_sum m); [|lia].
  apply IH. intros k' c' Hk'. apply H. rewrite lookup_insert_ne; [done|]. intros ->; congruence.
Qed.

Lemma occ_labels k (vs : list View) :
  Forall (λ v, NoDup (rec_Labels (v_Record v))) vs → occ k (flat_map (λ v, rec_Labels (v_Record v)) vs) ≤ Z.of_nat (length vs).
Proof.
  unfold occ. induction 1 as [|v vs Hv _ IH]; [done|]. cbn [flat_map length]. rewrite filter_app, length_app.
  assert (length (filter (eq k) (rec_Labels (v_Record v))) ≤ 1)%nat; [|lia].
  induction Hv as [|l ls Hl _ IHl]; [cbn; lia|]. rewrite filter_cons. destruct (decide (k = l)) as [->|]; [|done].
  cbn [length]. destruct (filter (eq l) ls) as [|x xs] eqn:E; [cbn; lia|]. exfalso.
  assert (x ∈ filter (eq l) ls) as [-> Hin]%list_elem_of_filter by (rewrite E; constructor). done.
Qed.

Lemma length_labels (vs : list View) :
  Forall (λ v, Z.of_nat (length (rec_Labels (v_Record v))) ≤ MaxLabels) vs →
  Z.of_nat (length (flat_map (λ v, rec_Labels (v_Record v)) vs)) ≤ MaxLabels * Z.of_nat (length vs).
Proof.
  induction 1 as [|v vs Hv _ IH]; [done|]. cbn [flat_map length]. rewrite length_app. unfold MaxLabels in *. lia.
Qed.

Lemma milestones_split (vs : list View) :
  (length (omap (λ v, rec_Milestone (v_Record v)) vs) + length (filter (λ v, rec_Milestone (v_Record v) = None) vs) = length vs)%nat.
Proof.
  induction vs as [|v vs IH]; [done|]. cbn [omap list_omap length]. rewrite filter_cons.
  destruct (rec_Milestone (v_Record v)) eqn:E; [rewrite decide_False by done|rewrite decide_True by done]; cbn [length]; unfold omap in *; lia.
Qed.

Lemma length_views inv ctx ids : (length (views inv ctx ids) ≤ length ids)%nat.
Proof. apply length_omap. Qed.

(** A view whose ticket was decoded. *)
Definition known_view (v : View) : Prop :=
  decoded (v_Record v) ∧ v_Eligibility v ∈ [EligibilityBlocked; EligibilityUnknown] ∧
  existsb (String.eqb (v_NextAction v)) FacetNextActions = true ∧ Forall (λ b, IsCode (blk_Code b) = true) (v_Blockers v).

Section rows.
Context (vs : list View) (t : tally) (Hc : counts_views vs t) (Hv : ∀ v, v ∈ vs → known_view v).
Context (Hn : Z.of_nat (length vs) ≤ MaxTicketsPerQueue).

Lemma rows_Forall (P : View → Prop) : (∀ v, known_view v → P v) → Forall P vs.
Proof. intros H. apply Forall_forall. intros v Hin. by apply H, Hv. Qed.

Lemma row_labels v : known_view v → labelled (rec_Milestone (v_Record v)) (rec_Labels (v_Record v)).
Proof. intros [[] _]. done. Qed.

Lemma rows_closed enum (f : View → string) : (∀ v, known_view v → f v ∈ enum) → closed_counts enum (ty_total t) (tally_of enum (f <$> vs)).
Proof.
  intros H. rewrite (cv_total _ _ Hc), <-(length_fmap f). apply tally_closed, Forall_fmap. by apply rows_Forall.
Qed.

Lemma rows_next : counted 1 (λ k, existsb (String.eqb k) FacetNextActions = true) (ty_total t) (ty_next t).
Proof.
  rewrite (cv_next _ _ Hc), (cv_total _ _ Hc). apply tally_open; [apply Forall_fmap, rows_Forall; by intros v (_ & _ & ? & _)|].
  intros k. pose proof (occ_bounds k (v_NextAction <$> vs)) as H. rewrite length_fmap in H. lia.
Qed.

Lemma rows_blocker : counted 1 (λ k, IsCode k = true) (ty_total t) (ty_blocker t).
Proof.
  intros k c. rewrite (cv_blocker _ _ Hc), (cv_total _ _ Hc). unfold blocked_by. set (l := filter _ vs).
  pose proof (length_filter (λ v, live_view v = true ∧ k ∈ blk_Code <$> v_Blockers v) vs) as Hlen. fold l in Hlen.
  destruct (decide _) as [|Hne]; [done|]. intros [= <-]. split; [|lia].
  destruct l as [|v l'] eqn:El; [done|]. assert (v ∈ l) as [[_ Hk] Hin]%list_elem_of_filter by (rewrite El; constructor).
  destruct (Hv v Hin) as (_ & _ & _ & Hb). rewrite Forall_forall in Hb.
  apply list_elem_of_fmap in Hk as (b & -> & Hb'). by apply Hb.
Qed.

Lemma rows_milestone : counted 1 (λ k, isLabel k = true) (ty_total t) (ty_milestone t).
Proof.
  rewrite (cv_milestone _ _ Hc), (cv_total _ _ Hc). apply tally_open.
  - apply Forall_forall. intros k (v & Hin & Hk)%list_elem_of_omap. apply label_isLabel. by apply (row_labels v (Hv v Hin)).
  - intros k. pose proof (occ_bounds k (omap (λ v, rec_Milestone (v_Record v)) vs)). pose proof (milestones_split vs). lia.
Qed.

Lemma rows_milestones : map_sum (ty_milestone t) + ty_without t = ty_total t ∧ 0 ≤ ty_without t.
Proof.
  rewrite (cv_milestone _ _ Hc), map_sum_tally, (cv_without _ _ Hc), (cv_total _ _ Hc). pose proof (milestones_split vs). lia.
Qed.

Lemma rows_label : counted 1 (λ k, isLabel k = true) (ty_total t) (ty_label t).
Proof.
  rewrite (cv_label _ _ Hc), (cv_total _ _ Hc). apply tally_open.
  - apply Forall_flat_map, rows_Forall. intros v Hk. destruct (row_labels v Hk) as (_ & Hf & _).
    eapply Forall_impl; [exact Hf|]. apply label_isLabel.
  - intros k. apply occ_labels, rows_Forall. intros v Hk. apply (row_labels v Hk).
Qed.

Lemma rows_labels : Z.of_nat (size (ty_label t)) ≤ MaxCountValue.
Proof.
  pose proof (size_sum _ _ _ rows_label) as Hs.
  assert (map_sum (ty_label t) = Z.of_nat (length (flat_map (λ v, rec_Labels (v_Record v)) vs))) as He
    by (rewrite (cv_label _ _ Hc); apply map_sum_tally).
  pose proof (length_labels vs ltac:(apply rows_Forall; intros v Hk; apply (row_labels v Hk))).
  unfold MaxLabels, MaxTicketsPerQueue, MaxCountValue in *. lia.
Qed.

Lemma rows_accepted w : ok (decodeFacets (NewReader (summary_value t) w)) tt.
Proof.
  pose proof rows_milestones as [Hm Hw]. pose proof (size_sum _ _ _ rows_milestone) as Hs. pose proof (cv_total _ _ Hc) as Ht.
  pose proof (map_sum_nonneg (ty_milestone t) ltac:(intros k c H; destruct (rows_milestone k c H); lia)) as Hm0.
  pose proof rows_labels. unfold MaxTicketsPerQueue, MaxCountValue in *.
  apply summary_accepted; unfold MaxCountValue; try done; try lia;
    [rewrite (cv_status _ _ Hc)|rewrite (cv_priority _ _ Hc)|rewrite (cv_kind _ _ Hc)|rewrite (cv_class _ _ Hc)|rewrite (cv_eligibility _ _ Hc)|..];
    try (apply rows_closed; intros v ([] & ? & _); done); [apply rows_next| |apply rows_blocker|apply rows_milestone|apply rows_label].
  by rewrite (cv_next _ _ Hc), map_sum_tally, length_fmap.
Qed.
End rows.

(** C28: over an inventory of decoded records, the facet summary counts the
    views of the matched tickets: every map has, for each of its keys, as many
    as there are tickets with that status, priority, kind, class, eligibility,
    next action, milestone or label, and live ones blocked by that code; and
    the closed decoder of command results accepts it. *)
Theorem facetSummary_accepted inv ctx ids summary w :
  (∀ id v, id ∈ ids → Inventory_View inv id ctx = Viewed v → decoded (v_Record v)) →
  Z.of_nat (length ids) ≤ MaxTicketsPerQueue → facetSummary inv ctx ids = Ok summary →
  (∃ t, summary = summary_value t ∧ counts_views (views inv ctx ids) t) ∧ ok (decodeFacets (NewReader summary w)) tt.
Proof.
  intros Hdec Hlen H. unfold facetSummary in H. apply obind_Ok in H as (t & Ht & [= <-]).
  pose proof (facet_loop_counts _ _ _ [] _ _ counts_none Ht) as Hc. cbn [app] in Hc. split; [by exists t|].
  apply (rows_accepted (views inv ctx ids) t Hc); [|pose proof (length_views inv ctx ids); lia].
  intros v (id & Hid & Hv)%list_elem_of_omap.
  destruct (Inventory_View inv id ctx) as [v'| | |] eqn:E; [|done..]. injection Hv as ->. split; [by eapply Hdec|by eapply view_vocabulary].
Qed.

(** ** An instance *)

Definition sample_ids : list string := ["ticket:x:q:a"; "ticket:x:q:b"].

Definition sample_summary : Value := match facetSummary sample_inventory idle sample_ids with Ok v => v | _ => VNull end.

Example sample_facets :
  match sample_summary with
  | VObject o => (Get o "total", Get o "byNextAction", Get o "byBlockerCode")
  | _ => (None, None, None)
  end =
  (Some (VString "2"), Some (VObject [("set-effects", VString "1"); ("wait-dependency", VString "1")]),
   Some (VObject [("DEPENDENCY_UNSATISFIED", VString "1")])).
Proof. vm_compute. reflexivity. Qed.

Lemma sample_views :
  Inventory_View sample_inventory "ticket:x:q:a" idle = Viewed (sample_view idle "a" (sample_record "a" "P1" [])) ∧
  Inventory_View sample_inventory "ticket:x:q:b" idle = Viewed (sample_view idle "b" (sample_record "b" "P1" ["a"])).
Proof. split; vm_compute; reflexivity. Qed.

Lemma sample_decoded local priority on :
  Decode false (Record_Encode (sample_record local priority on)) = Ok (sample_record local priority on) →
  decoded (v_Record (sample_view idle local (sample_record local priority on))).
Proof. intros H. apply Decode_value in H as (_ & _ & H). exact H. Qed.

Lemma facetSummary_accepted_witness : ok (decodeFacets (NewReader sample_summary "/facets")) tt.
Proof.
  apply (facetSummary_accepted sample_inventory idle sample_ids sample_summary "/facets"); [|vm_compute; discriminate|vm_compute; reflexivity].
  destruct sample_views as [Ha Hb].
  intros id v [->|[->|H]%elem_of_cons]%elem_of_cons Hv; [| |apply not_elem_of_nil in H; destruct H].
  - rewrite Ha in Hv. injection Hv as <-. apply sample_decoded. vm_compute. reflexivity.
  - rewrite Hb in Hv. injection Hv as <-. apply sample_decoded. vm_compute. reflexivity.
Defined.
