(* ===== verification/Obligations.v ===== *)
(** * Obligation entries and their codecs

    The data of the obligation ledger and what reads and writes it, from
    [obligations.go], [obligation_scope.go], [obligation_review.go] and
    [obligation_mirror.go] of [src/internal/tasks/ticket].

    A pointer is an option.  A reader that returns nil or a partial value
    after a failure returns here whatever it has: the shared state holds the
    failure and no caller uses the value. *)

From S2P Require Import Prelude Utf8 GoStd Codes Limits Value Primitives Ids Parse.
From S2P Require Import Reader Ticket Inventory Marks KnowHow RecordParts.
Local Open Scope Z_scope.
Local Open Scope go_scope.

(** ** Bounds and vocabulary *)

Definition ObligationEventProfile : string := "taskman-obligation-event/0".
Definition MaxObligationEventBytes : Z := 65536.
Definition MaxObligationTitleBytes : Z := 256.
Definition MaxObligationReasonBytes : Z := 512.
Definition MaxObligationChanges : Z := 64.
Definition MaxObligationMatches : Z := 16.
Definition MaxObligationPathElems : Z := 16.
Definition MaxObligationPathElemBytes : Z := 512.
Definition MaxObligationTestIDBytes : Z := 256.
Definition MaxObligationPlanTests : Z := 4096.

Definition OpObligationsSeed : string := "OBLIGATIONS_SEED".
Definition OpObligationsSet : string := "OBLIGATIONS_SET".
Definition OpObligationsWitness : string := "OBLIGATIONS_WITNESS".

Definition ObligationOpen : string := "OPEN".
Definition ObligationWitnessed : string := "WITNESSED".
Definition ObligationDefect : string := "DEFECT".
Definition ObligationBlocked : string := "BLOCKED".
Definition ObligationDeferred : string := "DEFERRED".
Definition ObligationPartial : string := "PARTIAL".

Definition ObligationSourceReport : string := "PLAYWRIGHT_REPORT".
Definition ObligationSourceDeclared : string := "DECLARED".
Definition ObligationSourceReviewed : string := "REVIEWED".

Definition ObligationReviewLegacyCase : string := "legacy-case".
Definition ObligationReviewLegacySpec : string := "legacy-spec".
Definition ObligationReviewManualCase : string := "manual-case".
Definition ObligationReviewNone : string := "none".

Definition MaxObligationSources : Z := 16.
Definition MaxObligationSourceRefBytes : Z := 256.
Definition MaxObligationSourceQueryBytes : Z := 1024.
Definition MaxObligationSourceSearched : Z := 32.
Definition MaxObligationEvidenceRefBytes : Z := 256.

Definition ObligationUnknownDetail : string := "OBLIGATION_UNKNOWN:".
Definition ObligationCreditMismatchDetail : string := "OBLIGATION_CREDIT_MISMATCH:".
Definition ObligationEventTooLargeDetail : string := "OBLIGATION_EVENT_TOO_LARGE:".
Definition ObligationChainDetail : string := "OBLIGATION_CHAIN:".
Definition ObligationAliasDuplicateDetail : string := "OBLIGATION_ALIAS_DUPLICATE:".
Definition ObligationAliasCollisionDetail : string := "OBLIGATION_ALIAS_COLLISION:".

Definition ObligationStates : list string :=
  [ObligationOpen; ObligationWitnessed; ObligationDefect; ObligationBlocked; ObligationDeferred; ObligationPartial].

Definition ObligationPending (state : string) : bool :=
  (state =s ObligationOpen) || (state =s ObligationPartial) || (state =s ObligationDefect) || (state =s ObligationBlocked).

Definition ObligationOperations : list string := [OpObligationsSeed; OpObligationsSet; OpObligationsWitness].

Definition IsObligationOperation (op : string) : bool :=
  (op =s OpObligationsSeed) || (op =s OpObligationsSet) || (op =s OpObligationsWitness).

Definition MaxObligationCites : Z := 16.
Definition MaxObligationScopeEvidenceBytes : Z := 512.
Definition ObligationScopePropose : string := "PROPOSE".
Definition ObligationScopeAccept : string := "ACCEPT".
Definition ObligationScopeProposed : string := "PROPOSED".
Definition ObligationScopeAccepted : string := "ACCEPTED".
Definition ObligationScopeNoProposalDetail : string := "OBLIGATION_SCOPE_NO_PROPOSAL:".
Definition ObligationScopeSelfAcceptDetail : string := "OBLIGATION_SCOPE_SELF_ACCEPT:".
Definition ObligationMirrorSelfDetail : string := "OBLIGATION_MIRROR_SELF:".
Definition VerdictFindingNoFalsifiableText : string := "NO_FALSIFIABLE_TEXT".

Definition ObligationReviewCredited : string := "CREDITED".
Definition ObligationReviewHeld : string := "HELD".
Definition VerdictCorrect : string := "correct".
Definition VerdictPartial : string := "partial".
Definition VerdictWrong : string := "wrong".
Definition StubRiskNone : string := "none".
Definition StubRiskBoundary : string := "boundary".
Definition StubRiskOnPath : string := "on-path".
Definition MaxObligationReviewers : Z := 16.
Definition MaxObligationReviewAuthors : Z := 64.
Definition ObligationReviewerNotIndependentDetail : string := "OBLIGATION_REVIEWER_NOT_INDEPENDENT:".

(** ** Shared readers *)

(** [v.Obj.Set(key, w)] on a value [noteObject] made. *)
Definition obj_set (v : Value) (key : string) (w : Value) : Value :=
  match v with VObject o => VObject (Set_ o key w) | _ => v end.

Definition obj_set_opt (v : Value) (key : string) (w : option Value) : Value :=
  match w with Some w => obj_set v key w | None => v end.

(** A string that [parse] accepts, kept as it is. *)
Definition ReadObligationID (r : Reader) : M string :=
  s ← String_ r;
  e ← failed;
  if (e : bool) then mret ε
  else match ParseObligationID (rwhere r) s with
  | Err err => _ ← Fail r (CodeOf (Some (EWire err))) "%v" [AMsg (EWire err)]; mret ε
  | _ => mret s
  end.

Definition readObligationAlias (r : Reader) : M string :=
  s ← String_ r;
  e ← failed;
  if (e : bool) then mret ε
  else match ParseObligationAlias (rwhere r) s with
  | Err err => _ ← Fail r (CodeOf (Some (EWire err))) "%v" [AMsg (EWire err)]; mret ε
  | _ => mret s
  end.

(** [id[:strings.LastIndexByte(id, '-')]] of a valid id. *)
Definition ObligationIDPrefix (id : string) : string :=
  match strings.CutLast id "-" with Some (p, _) => p | None => ε end.

Definition readNonblank (max : Z) : Reader → M string := nonblank_prose max "prose must contain non-whitespace".

(** [readIDKeyed]: the items that [item] reads, in order, their ids strictly
    ascending; [prev] is the id before. *)
Fixpoint id_keyed_loop {A} (item : Reader → M A) (id : A → string) (what : string) (items : list Reader)
    (prev : option string) (out : list A) : M (list A) :=
  match items with
  | [] => mret out
  | it :: items' =>
      a ← item it;
      e ← failed;
      if (e : bool) then mret (out ++ [a])
      else if match prev with Some p => negb (p <s id a) | None => false end then
        _ ← (if bool_decide (prev = Some (id a)) then Fail it CodeDuplicateID "duplicate obligation id %q" [AStr (id a)]
             else Fail it CodeMalformed "%s are sorted by id" [AStr what]);
        mret (out ++ [a])
      else id_keyed_loop item id what items' (Some (id a)) (out ++ [a])
  end.

Definition readIDKeyed {A} (r : Reader) (max : Z) (what : string) (item : Reader → M A) (id : A → string) : M (list A) :=
  items ← Array_ r max true;
  e ← failed;
  if (e : bool) then mret []
  else if (length items =? 0)%nat then
    _ ← Fail r CodeMalformed "%s needs at least one entry" [AStr what]; mret []
  else id_keyed_loop item id what items None [].

(** A member read by [m] when it is present. *)
Definition has_member {A} (r : Reader) (key : string) (m : Reader → M A) : M (option A) :=
  if Has (rv r) key then f ← Field r key; a ← m f; mret (Some a) else mret None.

(** ** Matches *)

Record ObligationMatch := {
  om_Path : string; om_TestID : string; om_TitlePath : list string; om_StepTitle : option string; om_StepPath : list string
}.

Definition ObligationMatch_Value (m : ObligationMatch) : Value :=
  noteObject [("path", VString (om_Path m)); ("testId", VString (om_TestID m)); ("titlePath", Strings (om_TitlePath m));
              ("stepTitle", StringOrNull (om_StepTitle m)); ("stepPath", Strings (om_StepPath m))].

Definition readTitleElems (r : Reader) (min : Z) : M (list string) :=
  out ← Reader_Strings r MaxObligationPathElems true (λ x, Prose x 1 MaxObligationPathElemBytes);
  e ← failed;
  _ ← (if negb (e : bool) && (Z.of_nat (length out) <? min)
       then Fail r CodeMalformed "title path needs at least %d element(s)" [AInt min] else mret tt);
  mret out.

Definition step_mismatch (title : option string) (path : list string) : bool :=
  match title with
  | None => negb (length path =? 0)%nat
  | Some t => bool_decide (last path ≠ Some t)
  end.

Definition readObligationMatch (r : Reader) : M ObligationMatch :=
  _ ← Closed r ["path"; "testId"; "titlePath"; "stepTitle"; "stepPath"];
  f ← Field r "path"; path ← ReadKnowHowFile f;
  f ← Field r "testId"; test ← Prose f 1 MaxObligationTestIDBytes;
  f ← Field r "titlePath"; titles ← readTitleElems f 1;
  f ← Field r "stepTitle"; step ← ProseOrNull MaxObligationPathElemBytes f;
  f ← Field r "stepPath"; steps ← readTitleElems f 0;
  e ← failed;
  _ ← (if negb (e : bool) && step_mismatch step steps
       then Fail r CodeMalformed "stepPath must end at stepTitle and be empty for a test-level match" [] else mret tt);
  mret {| om_Path := path; om_TestID := test; om_TitlePath := titles; om_StepTitle := step; om_StepPath := steps |}.

Definition readObligationMatches (r : Reader) : M (list ObligationMatch) :=
  items ← Array_ r MaxObligationMatches false;
  e ← failed;
  _ ← (if negb (e : bool) && (length items =? 0)%nat
       then Fail r CodeMalformed "a report credit needs at least one match" [] else mret tt);
  each readObligationMatch items.

Definition MatchesValue (ms : list ObligationMatch) : Value :=
  let vs := ObligationMatch_Value <$> ms in
  match SortedSet "/matches" vs with Ok v => v | _ => VArray vs end.

(** ** Declarations and provenance *)

Record ObligationDeclaration := { od_ManifestSha256 : string; od_TestID : string; od_Reason : string }.

Definition ObligationDeclaration_Value (d : ObligationDeclaration) : Value :=
  noteObject [("manifestSha256", VString (od_ManifestSha256 d)); ("testId", VString (od_TestID d)); ("reason", VString (od_Reason d))].

Definition readObligationDeclaration (r : Reader) : M (option ObligationDeclaration) :=
  if IsNull r then mret None
  else
    _ ← Closed r ["manifestSha256"; "testId"; "reason"];
    f ← Field r "manifestSha256"; manifest ← Digest f;
    f ← Field r "testId"; test ← Prose f 1 MaxObligationTestIDBytes;
    f ← Field r "reason"; reason ← readNonblank MaxObligationReasonBytes f;
    mret (Some {| od_ManifestSha256 := manifest; od_TestID := test; od_Reason := reason |}).

Record ObligationProvenance := {
  op_TestCommit : option string; op_EnvironmentTree : option string; op_EvidenceRef : option string; op_TestTitle : option string
}.

Definition ObligationProvenance_Value (p : ObligationProvenance) : Value :=
  let v := VObject NewObject in
  let v := obj_set_opt v "environmentTree" (VString <$> op_EnvironmentTree p) in
  let v := obj_set_opt v "evidenceRef" (VString <$> op_EvidenceRef p) in
  let v := obj_set_opt v "testCommit" (VString <$> op_TestCommit p) in
  obj_set_opt v "testTitle" (VString <$> op_TestTitle p).

(** [p.Strings()] *)
Definition ObligationProvenance_Strings (p : option ObligationProvenance) : list string :=
  match p with None => [] | Some p => omap id [op_EvidenceRef p; op_TestTitle p] end.

Definition readObligationProvenance (r : Reader) : M (option ObligationProvenance) :=
  _ ← Closed r (OptionalKeys (rv r) [] ["testCommit"; "environmentTree"; "evidenceRef"; "testTitle"]);
  e ← failed;
  if (e : bool) then mret None
  else
    commit ← has_member r "testCommit" OID;
    tree ← has_member r "environmentTree" OID;
    ref ← has_member r "evidenceRef" (readNonblank MaxObligationEvidenceRefBytes);
    title ← has_member r "testTitle" (readNonblank MaxObligationTestIDBytes);
    e ← failed;
    if (e : bool) then mret None
    else if is_none commit && is_none tree && is_none ref && is_none title then
      _ ← Fail r CodeMalformed "provenance names at least one member" []; mret None
    else mret (Some {| op_TestCommit := commit; op_EnvironmentTree := tree; op_EvidenceRef := ref; op_TestTitle := title |}).

(** ** Evidence *)

Record ObligationEvidence := {
  oe_Source : string; oe_EventSha256 : string; oe_Commit : string; oe_ReportSha256 : option string;
  oe_PlaywrightVersion : option string; oe_Matches : option (list ObligationMatch);
  oe_Declaration : option ObligationDeclaration; oe_Provenance : option ObligationProvenance; oe_TestRepository : option string
}.

Definition ObligationEvidence_Value (e : ObligationEvidence) : Value :=
  let v := noteObject [("source", VString (oe_Source e)); ("eventSha256", VString (oe_EventSha256 e));
    ("commit", VString (oe_Commit e)); ("reportSha256", StringOrNull (oe_ReportSha256 e));
    ("playwrightVersion", StringOrNull (oe_PlaywrightVersion e));
    ("matches", match oe_Matches e with Some ms => MatchesValue ms | None => VNull end);
    ("declaration", match oe_Declaration e with Some d => ObligationDeclaration_Value d | None => VNull end)] in
  let v := obj_set_opt v "provenance" (ObligationProvenance_Value <$> oe_Provenance e) in
  obj_set_opt v "testRepository" (VString <$> oe_TestRepository e).

Definition some_p {A} (x : option A) : bool := negb (is_none x).

(** The members that a source does not match. *)
Definition evidence_mismatch (e : ObligationEvidence) : bool :=
  let report := oe_Source e =s ObligationSourceReport in
  let declared := oe_Source e =s ObligationSourceDeclared in
  negb (Bool.eqb report (some_p (oe_ReportSha256 e))) || negb (Bool.eqb report (some_p (oe_PlaywrightVersion e))) ||
  negb (Bool.eqb report (some_p (oe_Matches e))) || negb (Bool.eqb declared (some_p (oe_Declaration e))).

Definition ReadObligationEvidence (r : Reader) : M (option ObligationEvidence) :=
  _ ← Closed r (OptionalKeys (rv r)
    ["source"; "eventSha256"; "commit"; "reportSha256"; "playwrightVersion"; "matches"; "declaration"] ["provenance"; "testRepository"]);
  f ← Field r "source"; source ← Enum f [ObligationSourceReport; ObligationSourceDeclared; ObligationSourceReviewed];
  f ← Field r "eventSha256"; event ← Digest f;
  f ← Field r "commit"; commit ← OID f;
  f ← Field r "reportSha256"; report ← DigestOrNull f;
  f ← Field r "playwrightVersion"; version ← LabelOrNull f;
  m ← Field r "matches"; matches ← (if IsNull m then mret None else ms ← readObligationMatches m; mret (Some ms));
  f ← Field r "declaration"; decl ← readObligationDeclaration f;
  prov ← has_member r "provenance" readObligationProvenance;
  repo ← has_member r "testRepository" Label;
  e ← failed;
  if (e : bool) then mret None
  else
    let ev := {| oe_Source := source; oe_EventSha256 := event; oe_Commit := commit; oe_ReportSha256 := report;
                 oe_PlaywrightVersion := version; oe_Matches := matches; oe_Declaration := decl;
                 oe_Provenance := mjoin prov; oe_TestRepository := repo |} in
    if evidence_mismatch ev then
      _ ← Fail r CodeMalformed "evidence members do not match source %s" [AStr source]; mret None
    else mret (Some ev).

(** ** Review sources *)

Record ObligationReviewSource := {
  os_Kind : string; os_Ref : string; os_Digest : string; os_Query : string; os_Searched : list string; os_At : string
}.

Definition ObligationReviewSource_Value (s : ObligationReviewSource) : Value :=
  if os_Kind s =s ObligationReviewNone then
    noteObject [("kind", VString (os_Kind s)); ("query", VString (os_Query s)); ("searched", VArray (VString <$> os_Searched s));
                ("at", VString (os_At s))]
  else noteObject [("kind", VString (os_Kind s)); ("ref", VString (os_Ref s)); ("digest", VString (os_Digest s))].

Definition obligationSourcesValue (sources : list ObligationReviewSource) : Value :=
  VArray (ObligationReviewSource_Value <$> sources).

Definition read_review_source (it : Reader) : M ObligationReviewSource :=
  kind ← (if match rv it with VObject _ => Has (rv it) "kind" | _ => false end then
            f ← Field it "kind";
            Enum f [ObligationReviewLegacyCase; ObligationReviewLegacySpec; ObligationReviewManualCase; ObligationReviewNone]
          else _ ← Closed it ["kind"]; mret ε);
  e ← failed;
  if (e : bool) then mret {| os_Kind := kind; os_Ref := ε; os_Digest := ε; os_Query := ε; os_Searched := []; os_At := ε |}
  else if kind =s ObligationReviewNone then
    _ ← Closed it ["kind"; "query"; "searched"; "at"];
    f ← Field it "query"; query ← Prose f 0 MaxObligationSourceQueryBytes;
    f ← Field it "searched";
    searched ← Reader_Strings f MaxObligationSourceSearched false (readNonblank MaxObligationSourceRefBytes);
    f ← Field it "at"; at_ ← Timestamp f;
    mret {| os_Kind := kind; os_Ref := ε; os_Digest := ε; os_Query := query; os_Searched := searched; os_At := at_ |}
  else
    _ ← Closed it ["kind"; "ref"; "digest"];
    f ← Field it "ref"; ref ← readNonblank MaxObligationSourceRefBytes f;
    f ← Field it "digest"; digest ← Digest f;
    mret {| os_Kind := kind; os_Ref := ref; os_Digest := digest; os_Query := ε; os_Searched := []; os_At := ε |}.

(** Items read until one fails. *)
Fixpoint each_until {A} (fn : Reader → M A) (items : list Reader) : M (list A) :=
  match items with
  | [] => mret []
  | it :: items' =>
      a ← fn it;
      e ← failed;
      if (e : bool) then mret [] else out ← each_until fn items'; mret (a :: out)
  end.

Definition nonempty_items {A} (r : Reader) (max : Z) (semantic : bool) (message : string) (fn : Reader → M A) : M (list A) :=
  items ← Array_ r max semantic;
  e ← failed;
  if (e : bool) then mret []
  else if (length items =? 0)%nat then _ ← Fail r CodeMalformed message []; mret []
  else each_until fn items.

Definition readObligationSources (r : Reader) : M (list ObligationReviewSource) :=
  nonempty_items r MaxObligationSources true "sources needs at least one entry" read_review_source.

(** ** Cites *)

Record ObligationCite := { oci_Repository : option string; oci_Path : string }.

Definition ObligationCite_Value (c : ObligationCite) : Value :=
  noteObject [("repository", StringOrNull (oci_Repository c)); ("path", VString (oci_Path c))].

Definition obligationCitesValue (cites : list ObligationCite) : Value := VArray (ObligationCite_Value <$> cites).

Definition read_cite (it : Reader) : M ObligationCite :=
  _ ← Closed it ["repository"; "path"];
  f ← Field it "repository"; repo ← LabelOrNull f;
  f ← Field it "path"; path ← Path f;
  mret {| oci_Repository := repo; oci_Path := path |}.

Definition readObligationCites (r : Reader) : M (list ObligationCite) :=
  nonempty_items r MaxObligationCites false "cites needs at least one entry" read_cite.

(** ** Scope decisions *)

Record ObligationScopeChange := { osc_Action : string; osc_Core : bool; osc_Evidence : string }.

Definition ObligationScopeChange_Value (s : ObligationScopeChange) : Value :=
  if osc_Action s =s ObligationScopeAccept then
    noteObject [("action", VString (osc_Action s)); ("core", VBool (osc_Core s))]
  else noteObject [("action", VString (osc_Action s)); ("core", VBool (osc_Core s)); ("evidence", VString (osc_Evidence s))].

Definition readObligationScopeChange (r : Reader) : M (option ObligationScopeChange) :=
  if negb match rv r with VObject _ => Has (rv r) "action" | _ => false end then _ ← Closed r ["action"]; mret None
  else
    f ← Field r "action"; action ← Enum f [ObligationScopePropose; ObligationScopeAccept];
    e ← failed;
    if (e : bool) then mret None
    else
      evidence ← (if action =s ObligationScopeAccept then _ ← Closed r ["action"; "core"]; mret ε
                  else _ ← Closed r ["action"; "core"; "evidence"];
                       f ← Field r "evidence"; readNonblank MaxObligationScopeEvidenceBytes f);
      f ← Field r "core"; core ← Bool_ f;
      e ← failed;
      if (e : bool) then mret None
      else mret (Some {| osc_Action := action; osc_Core := core; osc_Evidence := evidence |}).

Record ObligationScope := {
  osp_Status : string; osp_Core : bool; osp_Reason : string; osp_Evidence : string;
  osp_ProposedByID : string; osp_ProposedByRole : string; osp_ProposedAt : string;
  osp_AcceptedByID : string; osp_AcceptedByRole : string; osp_AcceptedAt : string
}.

Definition actor_object (id role : string) : Value := noteObject [("id", VString id); ("role", VString role)].

Definition ObligationScope_Value (s : ObligationScope) : Value :=
  let v := noteObject [("status", VString (osp_Status s)); ("core", VBool (osp_Core s)); ("reason", VString (osp_Reason s));
    ("evidence", VString (osp_Evidence s)); ("proposedBy", actor_object (osp_ProposedByID s) (osp_ProposedByRole s));
    ("proposedAt", VString (osp_ProposedAt s))] in
  if osp_Status s =s ObligationScopeAccepted then
    obj_set (obj_set v "acceptedBy" (actor_object (osp_AcceptedByID s) (osp_AcceptedByRole s)))
      "acceptedAt" (VString (osp_AcceptedAt s))
  else v.

Definition readObligationActor (r : Reader) : M (string * string) :=
  _ ← Closed r ["id"; "role"];
  f ← Field r "id"; id ← Label f;
  f ← Field r "role"; role ← Enum f ["OWNER"; "OPERATOR"; "WORKER"];
  mret (id, role).

Definition scope_keys (accepted : bool) : list string :=
  ["status"; "core"; "reason"; "evidence"; "proposedBy"; "proposedAt"] ++ (if accepted then ["acceptedBy"; "acceptedAt"] else []).

Definition readObligationScope (r : Reader) : M (option ObligationScope) :=
  if negb match rv r with VObject _ => Has (rv r) "status" | _ => false end then _ ← Closed r ["status"]; mret None
  else
    f ← Field r "status"; status ← Enum f [ObligationScopeProposed; ObligationScopeAccepted];
    e ← failed;
    if (e : bool) then mret None
    else
      let accepted := status =s ObligationScopeAccepted in
      _ ← Closed r (scope_keys accepted);
      f ← Field r "core"; core ← Bool_ f;
      f ← Field r "reason"; reason ← readNonblank MaxObligationReasonBytes f;
      f ← Field r "evidence"; evidence ← readNonblank MaxObligationScopeEvidenceBytes f;
      f ← Field r "proposedBy"; proposer ← readObligationActor f;
      f ← Field r "proposedAt"; proposed_at ← Timestamp f;
      acceptance ← (if accepted then
          f ← Field r "acceptedBy"; acceptor ← readObligationActor f;
          f ← Field r "acceptedAt"; accepted_at ← Timestamp f;
          e ← failed;
          _ ← (if negb (e : bool) && (acceptor.1 =s proposer.1)
               then Fail r CodeMalformed "%s an accepted scope decision names its proposer as acceptor" [AStr ObligationScopeSelfAcceptDetail]
               else mret tt);
          mret (acceptor, accepted_at)
        else mret ((ε, ε), ε));
      e ← failed;
      if (e : bool) then mret None
      else mret (Some {| osp_Status := status; osp_Core := core; osp_Reason := reason; osp_Evidence := evidence;
                         osp_ProposedByID := proposer.1; osp_ProposedByRole := proposer.2; osp_ProposedAt := proposed_at;
                         osp_AcceptedByID := acceptance.1.1; osp_AcceptedByRole := acceptance.1.2; osp_AcceptedAt := acceptance.2 |}).

(** ** Candidates *)

Record ObligationCandidate := { oca_Path : string; oca_StartLine : Z; oca_EndLine : Z; oca_At : string }.

Definition ObligationCandidate_Value (c : ObligationCandidate) : Value :=
  let v := noteObject [("path", VString (oca_Path c)); ("startLine", countValue (oca_StartLine c)); ("endLine", countValue (oca_EndLine c))] in
  obj_set_opt v "at" (if oca_At c =s ε then None else Some (VString (oca_At c))).

Definition readObligationCandidate (r : Reader) (withAt : bool) : M (option ObligationCandidate) :=
  _ ← Closed r (["path"; "startLine"; "endLine"] ++ (if withAt then ["at"] else []));
  f ← Field r "path"; path ← Path f;
  f ← Field r "startLine"; start ← Count f;
  f ← Field r "endLine"; end_ ← Count f;
  at_ ← (if withAt then f ← Field r "at"; Timestamp f else mret ε);
  e ← failed;
  _ ← (if negb (e : bool) && ((Count_Int start <? 1) || (Count_Int end_ <? Count_Int start))
       then Fail r CodeMalformed "candidate lines are 1-based with startLine <= endLine" [] else mret tt);
  e ← failed;
  if (e : bool) then mret None
  else mret (Some {| oca_Path := path; oca_StartLine := Count_Int start; oca_EndLine := Count_Int end_; oca_At := at_ |}).

(** ** Mirrors *)

Record ObligationMirrorRef := { omr_TicketID : TicketID; omr_ID : string }.

Definition ObligationMirrorRef_Value (m : ObligationMirrorRef) : Value :=
  noteObject [("ticketId", VString (TicketID_Raw (omr_TicketID m))); ("id", VString (omr_ID m))].

Definition readObligationMirrorRef (r : Reader) : M (option ObligationMirrorRef) :=
  _ ← Closed r ["ticketId"; "id"];
  f ← Field r "ticketId"; ticket ← Reader_TicketID f;
  f ← Field r "id"; id ← ReadObligationID f;
  e ← failed;
  if (e : bool) then mret None else mret (Some {| omr_TicketID := ticket; omr_ID := id |}).

(** [ObligationMirrorChange]: the owner, [None] to clear it. *)
Definition ObligationMirrorChange : Type := option ObligationMirrorRef.

Definition ObligationMirrorChange_Value (c : ObligationMirrorChange) : Value :=
  match c with None => VNull | Some m => ObligationMirrorRef_Value m end.

(** [None] is the nil change of a failed read. *)
Definition readObligationMirrorChange (r : Reader) : M (option ObligationMirrorChange) :=
  if IsNull r then mret (Some None)
  else m ← readObligationMirrorRef r; mret (match m with Some m => Some (Some m) | None => None end).

(** ** Reviews *)

Definition stubRiskRank (risk : string) : Z :=
  if risk =s StubRiskBoundary then 1 else if risk =s StubRiskOnPath then 2 else 0.

Record ObligationVerdict := {
  ov_Reviewer : string; ov_Verdict : string; ov_StubRisk : string; ov_Reason : string; ov_Finding : string
}.

Record ObligationReviewSubject := { sub_Path : string; sub_StartLine : Z; sub_EndLine : Z; sub_BlobSha256 : string }.

Record ObligationReview := {
  orv_Reviewers : Z; orv_MaxStubRisk : string; orv_Subject : ObligationReviewSubject; orv_Authors : list string;
  orv_Verdicts : list ObligationVerdict
}.

Definition verdict_value (v : ObligationVerdict) : Value :=
  obj_set_opt (noteObject [("reviewer", VString (ov_Reviewer v)); ("verdict", VString (ov_Verdict v));
    ("stubRisk", VString (ov_StubRisk v)); ("reason", VString (ov_Reason v))])
    "finding" (if ov_Finding v =s ε then None else Some (VString (ov_Finding v))).

Definition ObligationReview_Value (r : ObligationReview) : Value :=
  let sub := orv_Subject r in
  noteObject [
    ("policy", noteObject [("reviewers", countValue (orv_Reviewers r)); ("maxStubRisk", VString (orv_MaxStubRisk r))]);
    ("subject", noteObject [("path", VString (sub_Path sub)); ("startLine", countValue (sub_StartLine sub));
                            ("endLine", countValue (sub_EndLine sub)); ("blobSha256", VString (sub_BlobSha256 sub))]);
    ("authors", VArray (VString <$> orv_Authors r)); ("verdicts", VArray (verdict_value <$> orv_Verdicts r))].

Definition read_policy (pol : Reader) : M (Z * string) :=
  _ ← Closed pol ["reviewers"; "maxStubRisk"];
  f ← Field pol "reviewers"; reviewers ← Count f;
  f ← Field pol "maxStubRisk"; risk ← Enum f [StubRiskNone; StubRiskBoundary];
  e ← failed;
  _ ← (if negb (e : bool) && ((Count_Int reviewers <? 1) || (MaxObligationReviewers <? Count_Int reviewers))
       then f ← Field pol "reviewers"; Fail f CodeMalformed "reviewers is 1..%d" [AInt MaxObligationReviewers] else mret tt);
  mret (Count_Int reviewers, risk).

Definition read_subject (sub : Reader) : M ObligationReviewSubject :=
  _ ← Closed sub ["path"; "startLine"; "endLine"; "blobSha256"];
  f ← Field sub "path"; path ← Path f;
  f ← Field sub "startLine"; start ← Count f;
  f ← Field sub "endLine"; end_ ← Count f;
  f ← Field sub "blobSha256"; blob ← Digest f;
  e ← failed;
  _ ← (if negb (e : bool) && ((Count_Int start <? 1) || (Count_Int end_ <? Count_Int start))
       then Fail sub CodeMalformed "subject lines are 1-based with startLine <= endLine" [] else mret tt);
  mret {| sub_Path := path; sub_StartLine := Count_Int start; sub_EndLine := Count_Int end_; sub_BlobSha256 := blob |}.

Definition read_verdict (it : Reader) : M ObligationVerdict :=
  _ ← Closed it (OptionalKeys (rv it) ["reviewer"; "verdict"; "stubRisk"; "reason"] ["finding"]);
  f ← Field it "reviewer"; reviewer ← Label f;
  f ← Field it "verdict"; verdict ← Enum f [VerdictCorrect; VerdictPartial; VerdictWrong];
  f ← Field it "stubRisk"; risk ← Enum f [StubRiskNone; StubRiskBoundary; StubRiskOnPath];
  f ← Field it "reason"; reason ← readNonblank MaxObligationReasonBytes f;
  finding ← (if Has (rv it) "finding" then f ← Field it "finding"; Enum f [VerdictFindingNoFalsifiableText] else mret ε);
  e ← failed;
  _ ← (if negb (e : bool) && negb (finding =s ε) && (verdict =s VerdictCorrect)
       then f ← Field it "finding"; Fail f CodeMalformed "a %s finding needs a partial or wrong verdict" [AStr finding]
       else mret tt);
  mret {| ov_Reviewer := reviewer; ov_Verdict := verdict; ov_StubRisk := risk; ov_Reason := reason; ov_Finding := finding |}.

(** The verdicts, sorted by reviewers who are no authors; [prev] is the
    reviewer before. *)
Fixpoint verdicts_loop (authors : list string) (items : list Reader) (prev : option string) (out : list ObligationVerdict) :
    M (list ObligationVerdict) :=
  match items with
  | [] => mret out
  | it :: items' =>
      v ← read_verdict it;
      e ← failed;
      if (e : bool) then mret []
      else if match prev with Some p => negb (p <s ov_Reviewer v) | None => false end then
        f ← Field it "reviewer"; _ ← Fail f CodeMalformed "verdicts are sorted unique by reviewer" []; mret []
      else if existsb (String.eqb (ov_Reviewer v)) authors then
        f ← Field it "reviewer";
        _ ← Fail f CodeMalformed "%s reviewer %s is an author of the ticket"
              [AStr ObligationReviewerNotIndependentDetail; AStr (ov_Reviewer v)];
        mret []
      else verdicts_loop authors items' (Some (ov_Reviewer v)) (out ++ [v])
  end.

Definition ReadObligationReview (r : Reader) : M (option ObligationReview) :=
  _ ← Closed r ["policy"; "subject"; "authors"; "verdicts"];
  pol ← Field r "policy"; policy ← read_policy pol;
  sub ← Field r "subject"; subject ← read_subject sub;
  f ← Field r "authors"; authors ← Reader_Strings f MaxObligationReviewAuthors false Label;
  f ← Field r "verdicts"; items ← Array_ f MaxObligationReviewers true;
  e ← failed;
  if (e : bool) then mret None
  else if (length items =? 0)%nat then
    f ← Field r "verdicts"; _ ← Fail f CodeMalformed "verdicts needs at least one entry" []; mret None
  else
    verdicts ← verdicts_loop authors items None [];
    e ← failed;
    if (e : bool) then mret None
    else mret (Some {| orv_Reviewers := policy.1; orv_MaxStubRisk := policy.2; orv_Subject := subject; orv_Authors := authors;
                       orv_Verdicts := verdicts |}).

(** [r.Outcome()] *)
Definition ObligationReview_Outcome (r : ObligationReview) : string * list string :=
  let stub := existsb (λ v, stubRiskRank (orv_MaxStubRisk r) <? stubRiskRank (ov_StubRisk v)) (orv_Verdicts r) in
  let verdict := existsb (λ v, negb (ov_Verdict v =s VerdictCorrect)) (orv_Verdicts r) in
  let axes := (if Z.of_nat (length (orv_Verdicts r)) <? orv_Reviewers r then ["reviewers"] else []) ++
              (if stub then ["stubRisk"] else []) ++ (if verdict then ["verdict"] else []) in
  let axes := SortStrings axes in
  if (length axes =? 0)%nat then (ObligationReviewCredited, []) else (ObligationReviewHeld, axes).

Record ObligationReviewRecord := {
  orr_Outcome : string; orr_Axes : list string; orr_EventSha256 : string; orr_Commit : string; orr_Review : ObligationReview;
  orr_TestRepository : option string
}.

Definition ObligationReviewRecord_Value (r : ObligationReviewRecord) : Value :=
  obj_set_opt (noteObject [("outcome", VString (orr_Outcome r)); ("axes", VArray (VString <$> orr_Axes r));
    ("eventSha256", VString (orr_EventSha256 r)); ("commit", VString (orr_Commit r));
    ("review", ObligationReview_Value (orr_Review r))])
    "testRepository" (VString <$> orr_TestRepository r).

Definition readObligationReviewRecord (r : Reader) : M (option ObligationReviewRecord) :=
  _ ← Closed r (OptionalKeys (rv r) ["outcome"; "axes"; "eventSha256"; "commit"; "review"] ["testRepository"]);
  f ← Field r "outcome"; outcome ← Enum f [ObligationReviewCredited; ObligationReviewHeld];
  f ← Field r "axes"; axes ← Reader_Strings f 3 false (λ x, Enum x ["reviewers"; "stubRisk"; "verdict"]);
  f ← Field r "eventSha256"; event ← Digest f;
  f ← Field r "commit"; commit ← OID f;
  f ← Field r "review"; review ← ReadObligationReview f;
  e ← failed;
  match review with
  | Some rv_ =>
      if (e : bool) then mret None
      else
        repo ← has_member r "testRepository" Label;
        e ← failed;
        if (e : bool) then mret None
        else
          let '(o, want) := ObligationReview_Outcome rv_ in
          if negb (o =s outcome) || negb (strings.Join want "," =s strings.Join axes ",") then
            _ ← Fail r CodeMalformed "review outcome does not match its verdicts" []; mret None
          else mret (Some {| orr_Outcome := outcome; orr_Axes := axes; orr_EventSha256 := event; orr_Commit := commit;
                             orr_Review := rv_; orr_TestRepository := repo |})
  | None => mret None
  end.

(** ** Entries *)

(** [oen_Alias] is empty when there is none; the lists are [None] when they
    are nil. *)
Record ObligationEntry := mkObligationEntry {
  oen_ID : string; oen_Alias : string; oen_Title : string; oen_Core : bool; oen_State : string; oen_Reason : option string;
  oen_Evidence : option ObligationEvidence; oen_Sources : option (list ObligationReviewSource);
  oen_Review : option ObligationReviewRecord; oen_Cites : option (list ObligationCite); oen_Scope : option ObligationScope;
  oen_Candidate : option ObligationCandidate; oen_SatisfiedBy : option ObligationMirrorRef;
  oen_UpdatedAt : string; oen_UpdatedByID : string; oen_UpdatedByRole : string
}.

Definition ObligationEntry_Value (e : ObligationEntry) : Value :=
  let v := noteObject [("id", VString (oen_ID e)); ("title", VString (oen_Title e)); ("core", VBool (oen_Core e));
    ("state", VString (oen_State e)); ("reason", StringOrNull (oen_Reason e));
    ("evidence", match oen_Evidence e with Some ev => ObligationEvidence_Value ev | None => VNull end);
    ("updatedAt", VString (oen_UpdatedAt e)); ("updatedBy", actor_object (oen_UpdatedByID e) (oen_UpdatedByRole e))] in
  let v := obj_set_opt v "alias" (if oen_Alias e =s ε then None else Some (VString (oen_Alias e))) in
  let v := obj_set_opt v "sources" (obligationSourcesValue <$> oen_Sources e) in
  let v := obj_set_opt v "review" (ObligationReviewRecord_Value <$> oen_Review e) in
  let v := obj_set_opt v "cites" (obligationCitesValue <$> oen_Cites e) in
  let v := obj_set_opt v "scope" (ObligationScope_Value <$> oen_Scope e) in
  let v := obj_set_opt v "candidate" (ObligationCandidate_Value <$> oen_Candidate e) in
  obj_set_opt v "satisfiedBy" (ObligationMirrorRef_Value <$> oen_SatisfiedBy e).

Definition ReadObligationEntry (r : Reader) : M (option ObligationEntry) :=
  _ ← Closed r (OptionalKeys (rv r) ["id"; "title"; "core"; "state"; "reason"; "evidence"; "updatedAt"; "updatedBy"]
    ["alias"; "sources"; "review"; "cites"; "scope"; "candidate"; "satisfiedBy"]);
  f ← Field r "id"; id ← ReadObligationID f;
  f ← Field r "title"; title ← readNonblank MaxObligationTitleBytes f;
  f ← Field r "core"; core ← Bool_ f;
  f ← Field r "state"; state ← Enum f ObligationStates;
  f ← Field r "updatedAt"; at_ ← Timestamp f;
  alias ← has_member r "alias" readObligationAlias;
  sources ← has_member r "sources" readObligationSources;
  review ← has_member r "review" readObligationReviewRecord;
  cites ← has_member r "cites" readObligationCites;
  scope ← has_member r "scope" readObligationScope;
  candidate ← has_member r "candidate" (λ f, readObligationCandidate f true);
  mirror ← has_member r "satisfiedBy" readObligationMirrorRef;
  f ← Field r "reason"; reason ← Reader_StringOrNull (readNonblank MaxObligationReasonBytes) f;
  ev ← Field r "evidence"; evidence ← (if IsNull ev then mret None else ReadObligationEvidence ev);
  by_ ← Field r "updatedBy"; actor ← readObligationActor by_;
  e ← failed;
  if (e : bool) then mret None
  else if negb (Bool.eqb (state =s ObligationWitnessed) (some_p evidence)) then
    _ ← Fail r CodeMalformed "evidence is present exactly when state is WITNESSED" []; mret None
  else mret (Some (mkObligationEntry id (default ε alias) title core state reason evidence sources (mjoin review) cites
                     (mjoin scope) (mjoin candidate) (mjoin mirror) at_ actor.1 actor.2)).
