(* ===== verification/ObligationEvents.v ===== *)
(** * Obligation payloads, requests and events

    The three ledger writes, the mutation request that carries one and the
    event that retains the request, from [obligations.go] and
    [obligation_scope.go] of [src/internal/tasks/ticket]. *)

From S2P Require Import Prelude Utf8 GoStd Codes Limits Value Primitives Ids Parse.
From S2P Require Import Reader Ticket Inventory Marks KnowHow RecordParts Obligations.
Local Open Scope Z_scope.
Local Open Scope go_scope.

(** ** Payloads *)

Record ObligationSeedItem := { osi_ID : string; osi_Alias : string; osi_Title : string; osi_Core : bool }.

Record ObligationSeedPayload := { osd_Prefix : string; osd_Obligations : list ObligationSeedItem }.

Definition seed_item_value (o : ObligationSeedItem) : Value :=
  obj_set_opt (noteObject [("id", VString (osi_ID o)); ("title", VString (osi_Title o)); ("core", VBool (osi_Core o))])
    "alias" (if osi_Alias o =s ε then None else Some (VString (osi_Alias o))).

Definition ObligationSeedPayload_Value (p : ObligationSeedPayload) : Value :=
  noteObject [("prefix", VString (osd_Prefix p)); ("obligations", VArray (seed_item_value <$> osd_Obligations p))].

Definition read_seed_item (prefix : string) (it : Reader) : M ObligationSeedItem :=
  _ ← Closed it (OptionalKeys (rv it) ["id"; "title"; "core"] ["alias"]);
  f ← Field it "id"; id ← ReadObligationID f;
  f ← Field it "title"; title ← readNonblank MaxObligationTitleBytes f;
  f ← Field it "core"; core ← Bool_ f;
  alias ← has_member it "alias" readObligationAlias;
  e ← failed;
  _ ← (if negb (e : bool) && negb (ObligationIDPrefix id =s prefix)
       then f ← Field it "id"; Fail f CodeMalformed "obligation id %q does not carry prefix %s" [AStr id; AStr prefix]
       else mret tt);
  mret {| osi_ID := id; osi_Alias := default ε alias; osi_Title := title; osi_Core := core |}.

Definition ReadObligationSeedPayload (r : Reader) : M ObligationSeedPayload :=
  _ ← Closed r ["prefix"; "obligations"];
  f ← Field r "prefix"; prefix ← readObligationPrefix f;
  f ← Field r "obligations";
  items ← readIDKeyed f ObligationsMaxEntries "obligations" (read_seed_item prefix) osi_ID;
  mret {| osd_Prefix := prefix; osd_Obligations := items |}.

(** The lists are [None] when nil; [och_Mirror] is [None] when the member is
    absent. *)
Record ObligationChange := mkObligationChange {
  och_ID : string; och_State : option string; och_Core : option bool; och_Reason : string;
  och_Sources : option (list ObligationReviewSource); och_Cites : option (list ObligationCite);
  och_Scope : option ObligationScopeChange; och_Candidate : option ObligationCandidate;
  och_Mirror : option ObligationMirrorChange
}.

Record ObligationSetPayload := { ost_Changes : list ObligationChange }.

Definition change_value (c : ObligationChange) : Value :=
  let v := noteObject [("id", VString (och_ID c)); ("state", StringOrNull (och_State c));
    ("core", match och_Core c with Some b => VBool b | None => VNull end); ("reason", VString (och_Reason c))] in
  let v := obj_set_opt v "sources" (obligationSourcesValue <$> och_Sources c) in
  let v := obj_set_opt v "cites" (obligationCitesValue <$> och_Cites c) in
  let v := obj_set_opt v "scope" (ObligationScopeChange_Value <$> och_Scope c) in
  let v := obj_set_opt v "candidate" (ObligationCandidate_Value <$> och_Candidate c) in
  obj_set_opt v "satisfiedBy" (ObligationMirrorChange_Value <$> och_Mirror c).

Definition ObligationSetPayload_Value (p : ObligationSetPayload) : Value :=
  noteObject [("changes", VArray (change_value <$> ost_Changes p))].

(** A change that names nothing. *)
Definition empty_change (c : ObligationChange) : bool :=
  is_none (och_State c) && is_none (och_Core c) && is_none (och_Sources c) && is_none (och_Cites c) &&
  is_none (och_Scope c) && is_none (och_Candidate c) && is_none (och_Mirror c).

Definition read_change (it : Reader) : M ObligationChange :=
  _ ← Closed it (OptionalKeys (rv it) ["id"; "state"; "core"; "reason"] ["sources"; "cites"; "scope"; "candidate"; "satisfiedBy"]);
  f ← Field it "id"; id ← ReadObligationID f;
  f ← Field it "reason"; reason ← readNonblank MaxObligationReasonBytes f;
  f ← Field it "state";
  state ← Reader_StringOrNull (λ x, Enum x [ObligationOpen; ObligationDefect; ObligationBlocked; ObligationDeferred; ObligationPartial]) f;
  f ← Field it "core"; core ← (if IsNull f then mret None else b ← Bool_ f; mret (Some b));
  sources ← has_member it "sources" readObligationSources;
  cites ← has_member it "cites" readObligationCites;
  scope ← has_member it "scope" readObligationScopeChange;
  candidate ← has_member it "candidate" (λ f, readObligationCandidate f false);
  mirror ← has_member it "satisfiedBy" readObligationMirrorChange;
  let c := mkObligationChange id state core reason sources cites (mjoin scope) (mjoin candidate) (mjoin mirror) in
  e ← failed;
  _ ← (if negb (e : bool) && empty_change c then
         Fail it CodeMalformed
           "a change names a state, a core flag, review sources, cites, a scope decision, a candidate, a mirror or a combination" []
       else mret tt);
  e ← failed;
  _ ← (if negb (e : bool) && some_p (och_Scope c) && some_p (och_Core c)
       then Fail it CodeMalformed "a scope decision sets core itself; core must be null beside scope" [] else mret tt);
  mret c.

Definition ReadObligationSetPayload (r : Reader) : M ObligationSetPayload :=
  _ ← Closed r ["changes"];
  f ← Field r "changes";
  changes ← readIDKeyed f MaxObligationChanges "changes" read_change och_ID;
  mret {| ost_Changes := changes |}.

Record ObligationCredit := { ocr_ID : string; ocr_Matches : option (list ObligationMatch) }.

Record ObligationWitnessPayload := mkObligationWitnessPayload {
  owp_Source : string; owp_Commit : string; owp_ReportSha256 : option string; owp_PlaywrightVersion : option string;
  owp_Credits : list ObligationCredit; owp_Declaration : option ObligationDeclaration; owp_Attempt : option string;
  owp_Generation : option string; owp_Provenance : option ObligationProvenance; owp_TestRepository : option string;
  owp_Review : option ObligationReview
}.

Definition credit_value (source : string) (c : ObligationCredit) : Value :=
  if source =s ObligationSourceReport then
    noteObject [("id", VString (ocr_ID c)); ("matches", MatchesValue (default [] (ocr_Matches c)))]
  else noteObject [("id", VString (ocr_ID c))].

Definition ObligationWitnessPayload_Value (p : ObligationWitnessPayload) : Value :=
  let v := noteObject [("source", VString (owp_Source p)); ("commit", VString (owp_Commit p));
    ("reportSha256", StringOrNull (owp_ReportSha256 p)); ("playwrightVersion", StringOrNull (owp_PlaywrightVersion p));
    ("credits", VArray (credit_value (owp_Source p) <$> owp_Credits p));
    ("declaration", match owp_Declaration p with Some d => ObligationDeclaration_Value d | None => VNull end);
    ("attempt", StringOrNull (owp_Attempt p)); ("generation", StringOrNull (owp_Generation p))] in
  let v := obj_set_opt v "provenance" (ObligationProvenance_Value <$> owp_Provenance p) in
  let v := obj_set_opt v "testRepository" (VString <$> owp_TestRepository p) in
  obj_set_opt v "review" (ObligationReview_Value <$> owp_Review p).

Definition read_credit (report : bool) (it : Reader) : M ObligationCredit :=
  if report then
    _ ← Closed it ["id"; "matches"];
    f ← Field it "id"; id ← ReadObligationID f;
    f ← Field it "matches"; ms ← readObligationMatches f;
    mret {| ocr_ID := id; ocr_Matches := Some ms |}
  else
    _ ← Closed it ["id"];
    f ← Field it "id"; id ← ReadObligationID f;
    mret {| ocr_ID := id; ocr_Matches := None |}.

(** The members that a source does not match. *)
Definition witness_mismatch (p : ObligationWitnessPayload) : bool :=
  let report := owp_Source p =s ObligationSourceReport in
  negb (Bool.eqb report (some_p (owp_ReportSha256 p))) || negb (Bool.eqb report (some_p (owp_PlaywrightVersion p))) ||
  negb (Bool.eqb (owp_Source p =s ObligationSourceDeclared) (some_p (owp_Declaration p))) ||
  negb (Bool.eqb (owp_Source p =s ObligationSourceReviewed) (some_p (owp_Review p))).

Definition with_credits (p : ObligationWitnessPayload) (credits : list ObligationCredit) : ObligationWitnessPayload :=
  mkObligationWitnessPayload (owp_Source p) (owp_Commit p) (owp_ReportSha256 p) (owp_PlaywrightVersion p) credits
    (owp_Declaration p) (owp_Attempt p) (owp_Generation p) (owp_Provenance p) (owp_TestRepository p) (owp_Review p).

(** The members read before the credits. *)
Definition read_witness_head (r : Reader) : M ObligationWitnessPayload :=
  _ ← Closed r (OptionalKeys (rv r)
    ["source"; "commit"; "reportSha256"; "playwrightVersion"; "credits"; "declaration"; "attempt"; "generation"]
    ["provenance"; "testRepository"; "review"]);
  f ← Field r "source"; source ← Enum f [ObligationSourceReport; ObligationSourceDeclared; ObligationSourceReviewed];
  f ← Field r "commit"; commit ← OID f;
  f ← Field r "reportSha256"; report ← DigestOrNull f;
  f ← Field r "playwrightVersion"; version ← LabelOrNull f;
  f ← Field r "declaration"; decl ← readObligationDeclaration f;
  f ← Field r "attempt"; attempt ← Reader_StringOrNull Identifier f;
  f ← Field r "generation"; generation ← SizeOrNull f;
  prov ← has_member r "provenance" readObligationProvenance;
  repo ← has_member r "testRepository" Label;
  review ← has_member r "review" ReadObligationReview;
  mret (mkObligationWitnessPayload source commit report version [] decl attempt generation (mjoin prov) repo (mjoin review)).

Definition ReadObligationWitnessPayload (r : Reader) : M ObligationWitnessPayload :=
  p ← read_witness_head r;
  e ← failed;
  if (e : bool) then mret p
  else if witness_mismatch p then
    _ ← Fail r CodeMalformed "witness members do not match source %s" [AStr (owp_Source p)]; mret p
  else if negb (Bool.eqb (is_none (owp_Attempt p)) (is_none (owp_Generation p))) then
    _ ← Fail r CodeMalformed "attempt and generation are named together or not at all" []; mret p
  else
    f ← Field r "credits";
    credits ← readIDKeyed f ObligationsMaxEntries "credits" (read_credit (owp_Source p =s ObligationSourceReport)) ocr_ID;
    e ← failed;
    _ ← (if (owp_Source p =s ObligationSourceReviewed) && negb (e : bool) && negb (length credits =? 1)%nat
         then f ← Field r "credits"; Fail f CodeMalformed "a REVIEWED witness credits exactly one obligation" [] else mret tt);
    mret (with_credits p credits).

(** [SortObligationPayload]: the members of the operation's array, stably by
    id; Go sorts the slice the value holds, here the sorted value is returned. *)
Definition payload_key (op : string) : string :=
  if op =s OpObligationsSeed then "obligations"
  else if op =s OpObligationsSet then "changes"
  else if op =s OpObligationsWitness then "credits" else ε.

Definition id_of (x : Value) : string :=
  match x with VObject o => match Get o "id" with Some (VString s) => s | _ => ε end | _ => ε end.

Definition id_le (a b : Value) : bool := String.leb (id_of a) (id_of b).

Definition SortObligationPayload (op : string) (v : Value) : Value :=
  match v with
  | VObject o =>
      if payload_key op =s ε then v
      else match Get o (payload_key op) with
      | Some (VArray vs) => VObject (Set_ o (payload_key op) (VArray (isort id_le vs)))
      | _ => v
      end
  | _ => v
  end.

(** ** Requests *)

(** One of the three payloads, as the operation has it. *)
Inductive ObligationPayload : Type :=
  | PSeed (p : ObligationSeedPayload)
  | PSet (p : ObligationSetPayload)
  | PWitness (p : ObligationWitnessPayload).

Record ObligationRequest := {
  orq_RequestID : string; orq_QueueID : QueueID; orq_TicketID : TicketID; orq_ExpectedRevision : string;
  orq_ActorID : string; orq_ActorRole : string; orq_Operation : string; orq_IssuedAt : string;
  orq_Payload : ObligationPayload; orq_Raw : string
}.

Definition mutation_profile : string := "taskman-mutation/0".

Record request_head := {
  rh_RequestID : string; rh_QueueID : QueueID; rh_TicketID : TicketID; rh_ExpectedRevision : string;
  rh_Operation : string; rh_IssuedAt : string; rh_Actor : string * string
}.

Definition read_request_head (r : Reader) : M request_head :=
  f ← Field r "requestId"; id ← Identifier f;
  f ← Field r "queueId"; queue ← Reader_QueueID f;
  f ← Field r "targetId"; ticket ← Reader_TicketID f;
  f ← Field r "expectedRevision"; expected ← Count f;
  f ← Field r "operation"; op ← Enum f ObligationOperations;
  f ← Field r "issuedAt"; at_ ← Timestamp f;
  f ← Field r "actor"; actor ← readObligationActor f;
  mret {| rh_RequestID := id; rh_QueueID := queue; rh_TicketID := ticket; rh_ExpectedRevision := expected;
          rh_Operation := op; rh_IssuedAt := at_; rh_Actor := actor |}.

Definition read_payload (op : string) (r : Reader) : M ObligationPayload :=
  if op =s OpObligationsSeed then p ← ReadObligationSeedPayload r; mret (PSeed p)
  else if op =s OpObligationsSet then p ← ReadObligationSetPayload r; mret (PSet p)
  else p ← ReadObligationWitnessPayload r; mret (PWitness p).

Definition request_keys : list string :=
  ["profile"; "requestId"; "actor"; "queueId"; "targetId"; "expectedRevision"; "operation"; "payload"; "issuedAt"].

Definition DecodeObligationRequest (raw : string) : res ObligationRequest :=
  if MaxObligationEventBytes <? slen raw then Err (Errorf CodeLimitExceeded "/request" "obligation request too large" [])
  else
    let* v := Parse raw in
    try ProfileVersion "/request/profile" v mutation_profile;
    let r := NewReader v "/request" in
    let* _ := run (Closed r request_keys) st0 in
    let '(profile, st) := (f ← Field r "profile"; String_ f) st0 in
    try CheckProfile "/request/profile" profile mutation_profile;
    let* h := run (read_request_head r) st in
    let* p := run (f ← Field r "payload"; read_payload (rh_Operation h) f) st in
    if MaxRequestIDBytes <? slen (rh_RequestID h) then
      Err (Errorf CodeLimitExceeded "/request/requestId" "request ID too large" [])
    else if negb (TicketID_QueueID (rh_TicketID h) =s QueueID_Raw (rh_QueueID h)) then
      Err (Errorf CodeMalformed "/request/targetId" "ticket outside request queue" [])
    else Ok {| orq_RequestID := rh_RequestID h; orq_QueueID := rh_QueueID h; orq_TicketID := rh_TicketID h;
               orq_ExpectedRevision := rh_ExpectedRevision h; orq_ActorID := (rh_Actor h).1; orq_ActorRole := (rh_Actor h).2;
               orq_Operation := rh_Operation h; orq_IssuedAt := rh_IssuedAt h; orq_Payload := p; orq_Raw := raw |}.

(** ** Events *)

Record ObligationEvent := {
  oev_TicketID : TicketID; oev_Revision : string; oev_Previous : option string; oev_RequestSha256 : string;
  oev_Request : string; oev_Decoded : ObligationRequest
}.

Record event_head := { eh_TicketID : TicketID; eh_Revision : string; eh_Previous : option string; eh_RequestSha256 : string }.

Definition read_event_head (r : Reader) : M event_head :=
  f ← Field r "ticketId"; ticket ← Reader_TicketID f;
  f ← Field r "revision"; revision ← Count f;
  f ← Field r "previous"; previous ← DigestOrNull f;
  f ← Field r "requestSha256"; digest ← Digest f;
  mret {| eh_TicketID := ticket; eh_Revision := revision; eh_Previous := previous; eh_RequestSha256 := digest |}.

Definition event_keys : list string := ["profile"; "ticketId"; "revision"; "previous"; "requestSha256"; "request"].

(** [v.Obj.Get("request")], which is there once the keys are checked. *)
Definition request_member (v : Value) : Value :=
  match v with VObject o => default VNull (Get o "request") | _ => VNull end.

Section events.
Context (sha256 : string → string).

Definition DecodeObligationEvent (raw : string) : res ObligationEvent :=
  if MaxObligationEventBytes <? slen raw then
    Err (Errorf CodeLimitExceeded "/" "%s obligation event exceeds %d bytes"
      [AStr ObligationEventTooLargeDetail; AInt MaxObligationEventBytes])
  else
    let* v := Parse raw in
    try ProfileVersion "/profile" v ObligationEventProfile;
    let r := NewReader v "/" in
    let* _ := run (Closed r event_keys) st0 in
    let '(profile, st) := (f ← Field r "profile"; String_ f) st0 in
    try CheckProfile "/profile" profile ObligationEventProfile;
    let* h := run (read_event_head r) st in
    let request := EncodeFile (request_member v) in
    let* q := DecodeObligationRequest request in
    let revision := Count_Int (eh_Revision h) in
    if (revision <? 1) || (ObligationsMaxEvents <? revision) then
      Err (Errorf CodeLimitExceeded "/revision" "ledger revision must be 1..%d" [AInt ObligationsMaxEvents])
    else if negb (Bool.eqb (eh_Revision h =s "1") (is_none (eh_Previous h))) then
      Err (Errorf CodeMalformed "/previous" "only the first event has a null previous" [])
    else if negb (Sum sha256 request =s eh_RequestSha256 h) then
      Err (Errorf CodeMalformed "/requestSha256" "retained request digest mismatch" [])
    else if negb (TicketID_Raw (orq_TicketID q) =s TicketID_Raw (eh_TicketID h)) then
      Err (Errorf CodeMalformed "/request/targetId" "event/request ticket mismatch" [])
    else Ok {| oev_TicketID := eh_TicketID h; oev_Revision := eh_Revision h; oev_Previous := eh_Previous h;
               oev_RequestSha256 := eh_RequestSha256 h; oev_Request := request; oev_Decoded := q |}.

Definition event_value (ticket revision : string) (previous : option string) (digest : string) (request : Value) : Value :=
  noteObject [("profile", VString ObligationEventProfile); ("ticketId", VString ticket); ("revision", VString revision);
              ("previous", StringOrNull previous); ("requestSha256", VString digest); ("request", request)].

(** [e.Encode()]: the decoded request is not read. *)
Definition ObligationEvent_Encode (ticket : TicketID) (revision : string) (previous : option string) (digest request : string) :
    res string :=
  let* q := Parse request in
  let raw := EncodeFile (event_value (TicketID_Raw ticket) revision previous digest q) in
  let* _ := DecodeObligationEvent raw in
  Ok raw.
End events.
