(* ===== verification/NoteEvents.v ===== *)
(** * Operator note requests and events

    [operator_note.go] of [src/internal/tasks/ticket]: the request a note
    event retains, the event, and the resolution of a record's reference to
    the event it names. *)

From S2P Require Import Prelude Utf8 GoStd Codes Limits Value Primitives Ids Parse Reader Ticket Inventory Marks.
From S2P Require Import KnowHow RecordParts RecordCodec ObligationEvents.
Local Open Scope Z_scope.
Local Open Scope go_scope.

Definition OperatorNoteProfile : string := "taskman-operator-note/0".
Definition MaxOperatorNoteBytes : Z := 65536.
Definition MaxOperatorNoteTextBytes : Z := 8192.

(** ** Requests *)

Record OperatorNoteRequest := mkNoteRequest {
  onr_RequestID : string; onr_QueueID : QueueID; onr_TicketID : TicketID; onr_ExpectedRevision : option string;
  onr_ActorID : string; onr_ActorRole : string; onr_Operation : string; onr_Text : string;
  onr_Supersedes : option string; onr_IssuedAt : string; onr_Raw : string
}.

Definition read_note_actor (a : Reader) : M (string * string) :=
  _ ← Closed a ["id"; "role"];
  f ← Field a "id"; id ← Label f;
  f ← Field a "role"; role ← Enum f ["OWNER"; "OPERATOR"];
  mret (id, role).

(** The text, empty for a clear, and what the note supersedes. *)
Definition read_note_payload (p : Reader) (operation : string) : M (string * option string) :=
  text ← (if operation =s "NOTE_SET" then
      _ ← Closed p ["text"; "supersedes"];
      f ← Field p "text"; Prose f 1 MaxOperatorNoteTextBytes
    else _ ← Closed p ["supersedes"]; mret ε);
  f ← Field p "supersedes"; supersedes ← CountOrNull f;
  mret (text, supersedes).

Definition read_note_request (raw : string) (r : Reader) : M OperatorNoteRequest :=
  f ← Field r "requestId"; id ← Identifier f;
  f ← Field r "queueId"; queue ← Reader_QueueID f;
  f ← Field r "targetId"; ticket ← Reader_TicketID f;
  f ← Field r "expectedRevision"; expected ← CountOrNull f;
  a ← Field r "actor"; actor ← read_note_actor a;
  f ← Field r "operation"; op ← Enum f ["NOTE_SET"; "NOTE_CLEAR"];
  f ← Field r "issuedAt"; at_ ← Timestamp f;
  p ← Field r "payload"; payload ← read_note_payload p op;
  mret (mkNoteRequest id queue ticket expected actor.1 actor.2 op payload.1 payload.2 at_ raw).

Definition note_request_checks (q : OperatorNoteRequest) : option Error :=
  if MaxRequestIDBytes <? slen (onr_RequestID q) then
    Some (Errorf CodeLimitExceeded "/request/requestId" "request ID too large" [])
  else if negb (TicketID_QueueID (onr_TicketID q) =s QueueID_Raw (onr_QueueID q)) then
    Some (Errorf CodeMalformed "/request/targetId" "ticket outside request queue" [])
  else if (onr_Operation q =s "NOTE_SET") && blank (onr_Text q) then
    Some (Errorf CodeMalformed "/request/payload/text" "note must contain non-whitespace prose" [])
  else None.

Definition DecodeOperatorNoteRequest (raw : string) : res OperatorNoteRequest :=
  if MaxOperatorNoteBytes <? slen raw then Err (Errorf CodeLimitExceeded "/request" "note request too large" [])
  else
    let* v := Parse raw in
    let r := NewReader v "/request" in
    try ProfileVersion "/request/profile" v mutation_profile;
    let* _ := run (Closed r request_keys) st0 in
    let '(profile, st) := (f ← Field r "profile"; String_ f) st0 in
    try CheckProfile "/request/profile" profile mutation_profile;
    let* q := run (read_note_request raw r) st in
    try note_request_checks q;
    Ok q.

(** ** Events *)

Record OperatorNoteEvent := mkNoteEvent {
  one_TicketID : TicketID; one_NoteRevision : string; one_TicketRevision : string; one_AcceptanceRevision : string;
  one_Operation : string; one_Previous : option string; one_ActorID : string; one_ActorRole : string;
  one_RecordedAt : string; one_RequestSha256 : string; one_Request : string
}.

Definition note_event_keys : list string :=
  ["profile"; "ticketId"; "noteRevision"; "ticketRevision"; "acceptanceRevision"; "operation"; "previous"; "actor";
   "recordedAt"; "requestSha256"; "request"].

Definition read_note_event (request : string) (r : Reader) : M OperatorNoteEvent :=
  f ← Field r "ticketId"; ticket ← Reader_TicketID f;
  f ← Field r "noteRevision"; revision ← Count f;
  f ← Field r "ticketRevision"; ticketRevision ← Count f;
  f ← Field r "acceptanceRevision"; acceptance ← Count f;
  f ← Field r "operation"; op ← Enum f ["SET"; "CLEAR"];
  f ← Field r "previous"; previous ← DigestOrNull f;
  f ← Field r "recordedAt"; at_ ← Timestamp f;
  f ← Field r "requestSha256"; digest ← Digest f;
  a ← Field r "actor"; actor ← read_note_actor a;
  mret (mkNoteEvent ticket revision ticketRevision acceptance op previous actor.1 actor.2 at_ digest request).

Section events.
Context (sha256 : string → string).

Definition note_event_checks (n : OperatorNoteEvent) (q : OperatorNoteRequest) : option Error :=
  let revision := Count_Int (one_NoteRevision n) in
  let ticket := Count_Int (one_TicketRevision n) in
  let acceptance := Count_Int (one_AcceptanceRevision n) in
  if (revision <? 1) || (MaxOperatorNoteEvents <? revision) then
    Some (Errorf CodeLimitExceeded "/noteRevision" "note revision must be 1..4096" [])
  else if (ticket <? 1) || (acceptance <? 1) || (ticket <? acceptance) then
    Some (Errorf CodeMalformed "/ticketRevision" "invalid note-write revisions" [])
  else if negb (Bool.eqb (one_NoteRevision n =s "1") (is_none (one_Previous n))) then
    Some (Errorf CodeMalformed "/previous" "only first event has null previous" [])
  else if negb (Sum sha256 (one_Request n) =s one_RequestSha256 n) then
    Some (Errorf CodeMalformed "/requestSha256" "retained request digest mismatch" [])
  else if negb (TicketID_Raw (onr_TicketID q) =s TicketID_Raw (one_TicketID n)) || negb (onr_ActorID q =s one_ActorID n) ||
          negb (onr_ActorRole q =s one_ActorRole n) || negb (onr_Operation q =s "NOTE_" +:+ one_Operation n) then
    Some (Errorf CodeMalformed "/request" "event/request identity mismatch" [])
  else None.

Definition DecodeOperatorNoteEvent (raw : string) : res OperatorNoteEvent :=
  if MaxOperatorNoteBytes <? slen raw then Err (Errorf CodeLimitExceeded "/" "note event exceeds 65536 bytes" [])
  else
    let* v := Parse raw in
    let r := NewReader v "/" in
    try ProfileVersion "/profile" v OperatorNoteProfile;
    let* _ := run (Closed r note_event_keys) st0 in
    let '(profile, st) := (f ← Field r "profile"; String_ f) st0 in
    try CheckProfile "/profile" profile OperatorNoteProfile;
    let request := EncodeFile (request_member v) in
    let* n := run (read_note_event request r) st in
    let* q := DecodeOperatorNoteRequest request in
    try note_event_checks n q;
    Ok n.

Definition note_event_value (n : OperatorNoteEvent) (request : Value) : Value :=
  noteObject
    [("profile", VString OperatorNoteProfile); ("ticketId", VString (TicketID_Raw (one_TicketID n)));
     ("noteRevision", VString (one_NoteRevision n)); ("ticketRevision", VString (one_TicketRevision n));
     ("acceptanceRevision", VString (one_AcceptanceRevision n)); ("operation", VString (one_Operation n));
     ("previous", StringOrNull (one_Previous n));
     ("actor", noteObject [("id", VString (one_ActorID n)); ("role", VString (one_ActorRole n))]);
     ("recordedAt", VString (one_RecordedAt n)); ("requestSha256", VString (one_RequestSha256 n)); ("request", request)].

(** [n.Encode()] *)
Definition OperatorNoteEvent_Encode (n : OperatorNoteEvent) : res string :=
  let* q := Parse (one_Request n) in
  let raw := EncodeFile (note_event_value n q) in
  let* _ := DecodeOperatorNoteEvent raw in
  Ok raw.

Definition ResolveOperatorNote (id : TicketID) (ref : OperatorNoteReference) (raw : string) : res OperatorNoteEvent :=
  let* _ := OperatorNoteReferenceFromValue (OperatorNoteReference_Value ref) in
  let* n := DecodeOperatorNoteEvent raw in
  if negb (Sum sha256 raw =s note_Head ref) || negb (TicketID_Raw (one_TicketID n) =s TicketID_Raw id) ||
     negb (one_NoteRevision n =s note_Revision ref) || negb (Bool.eqb (one_Operation n =s "SET") (some (note_Current ref))) then
    Err (Errorf CodeMalformed "/operatorNote" "event/reference binding mismatch" [])
  else Ok n.
End events.
