(* ===== verification/ObligationLedger.v ===== *)
(** * The obligation ledger

    The ledger folded from a chain of events, from [obligations.go],
    [obligation_scope.go], [obligation_review.go] and [obligation_mirror.go] of
    [src/internal/tasks/ticket]: [ApplyObligationEvent] is the transition,
    [FoldObligationChain] walks the chain back from its head by digest and
    folds it forward.

    A nil ledger is [None].  The code works on a clone and drops it on an
    error; here a step returns the new ledger or the error. *)

From S2P Require Import Prelude Utf8 GoStd Codes Limits Value Primitives Ids Parse.
From S2P Require Import Reader Ticket Inventory Marks KnowHow RecordParts Obligations ObligationEvents.
Local Open Scope Z_scope.
Local Open Scope go_scope.

Record ObligationLedger := mkObligationLedger {
  led_Prefix : string; led_Revision : Z; led_Head : string; led_Entries : list ObligationEntry; led_Events : list string;
  led_Unblocks : Z
}.

Definition with_entries (l : ObligationLedger) (es : list ObligationEntry) : ObligationLedger :=
  mkObligationLedger (led_Prefix l) (led_Revision l) (led_Head l) es (led_Events l) (led_Unblocks l).

(** ** Entries *)

(** [sort.Search] for the first entry whose id is not below [id]. *)
Definition entry_index (es : list ObligationEntry) (id : string) : nat :=
  sort_Search (length es) (λ i, String.leb id (default ε (oen_ID <$> es !! i))) 0 (length es).

(** The index of the entry [Entry] points to. *)
Definition entry_at (es : list ObligationEntry) (id : string) : option (nat * ObligationEntry) :=
  let i := entry_index es id in
  e ← es !! i;
  if oen_ID e =s id then Some (i, e) else None.

(** [l.Entry(id)] *)
Definition ObligationLedger_Entry (l : option ObligationLedger) (id : string) : option ObligationEntry :=
  match l with None => None | Some l => snd <$> entry_at (led_Entries l) id end.

Definition count_entry (c : ObligationCounts) (e : ObligationEntry) : ObligationCounts :=
  if oen_State e =s ObligationDeferred then
    {| oc_Witnessed := oc_Witnessed c; oc_Total := oc_Total c; oc_Deferred := oc_Deferred c + 1;
       oc_CoreWitnessed := oc_CoreWitnessed c; oc_CoreTotal := oc_CoreTotal c |}
  else
    let w := if oen_State e =s ObligationWitnessed then 1 else 0 in
    let k := if oen_Core e then 1 else 0 in
    {| oc_Witnessed := oc_Witnessed c + w; oc_Total := oc_Total c + 1; oc_Deferred := oc_Deferred c;
       oc_CoreWitnessed := oc_CoreWitnessed c + w * k; oc_CoreTotal := oc_CoreTotal c + k |}.

Definition zero_counts : ObligationCounts :=
  {| oc_Witnessed := 0; oc_Total := 0; oc_Deferred := 0; oc_CoreWitnessed := 0; oc_CoreTotal := 0 |}.

(** [l.Counts()] *)
Definition ObligationLedger_Counts (l : option ObligationLedger) : ObligationCounts :=
  match l with None => zero_counts | Some l => foldl count_entry zero_counts (led_Entries l) end.

(** The bytes of an id token. *)
Definition idByte (c : ascii) : bool := alnum c || (c =b "-").

Definition native_token (token prefix : string) : bool :=
  match ParseObligationID "id" token with Ok p => p =s prefix | _ => false end.

(** [nativeIDIn]: [token] is the run of id bytes just before [s]. *)
Fixpoint native_in (token s prefix : string) : bool :=
  match s with
  | ε => native_token token prefix
  | String c s' =>
      if idByte c then native_in (token +:+ str1 c) s' prefix
      else native_token token prefix || native_in ε s' prefix
  end.

Definition nativeIDIn (s prefix : string) : bool := native_in ε s prefix.

(** [l.admitAlias(alias)] *)
Definition admitAlias (l : ObligationLedger) (alias : string) : option Error :=
  match filter (λ e, oen_Alias e = alias) (led_Entries l) with
  | e :: _ =>
      Some (Errorf CodeDuplicateID "/request/payload/obligations" "%s alias %s is already carried by %s"
        [AStr ObligationAliasDuplicateDetail; AStr alias; AStr (oen_ID e)])
  | [] =>
      if nativeIDIn alias (led_Prefix l) then
        Some (Errorf CodeDuplicateID "/request/payload/obligations" "%s alias %s holds a native %s id"
          [AStr ObligationAliasCollisionDetail; AStr alias; AStr (led_Prefix l)])
      else None
  end.

(** [l.Aliases()] *)
Definition ObligationLedger_Aliases (l : option ObligationLedger) : gmap string string :=
  match l with
  | None => ∅
  | Some l => foldl (λ m e, if oen_Alias e =s ε then m else <[oen_Alias e := oen_ID e]> m) ∅ (led_Entries l)
  end.

(** [l.EntriesValue()] *)
Definition EntriesValue (l : option ObligationLedger) : Value :=
  VArray (match l with None => [] | Some l => ObligationEntry_Value <$> led_Entries l end).

(** ** The transition *)

Definition clone (l : option ObligationLedger) : ObligationLedger :=
  match l with None => mkObligationLedger ε 0 ε [] [] 0 | Some l => l end.

Definition stamp (q : ObligationRequest) (e : ObligationEntry) : ObligationEntry :=
  mkObligationEntry (oen_ID e) (oen_Alias e) (oen_Title e) (oen_Core e) (oen_State e) (oen_Reason e) (oen_Evidence e)
    (oen_Sources e) (oen_Review e) (oen_Cites e) (oen_Scope e) (oen_Candidate e) (oen_SatisfiedBy e)
    (orq_IssuedAt q) (orq_ActorID q) (orq_ActorRole q).

Definition new_entry (q : ObligationRequest) (o : ObligationSeedItem) : ObligationEntry :=
  stamp q (mkObligationEntry (osi_ID o) (osi_Alias o) (osi_Title o) (osi_Core o) ObligationOpen None None None None None None
    None None ε ε ε).

Definition seed_item (q : ObligationRequest) (out : ObligationLedger) (o : ObligationSeedItem) : res ObligationLedger :=
  match entry_at (led_Entries out) (osi_ID o) with
  | Some _ => Err (Errorf CodeDuplicateID "/request/payload/obligations" "obligation %s is already in the ledger" [AStr (osi_ID o)])
  | None =>
      try (if osi_Alias o =s ε then None else admitAlias out (osi_Alias o));
      Ok (with_entries out (led_Entries out ++ [new_entry q o]))
  end.

(** A fold that stops at the first error. *)
Fixpoint fold_res {A B} (step : B → A → res B) (b : B) (l : list A) : res B :=
  match l with
  | [] => Ok b
  | a :: l' => let* b := step b a in fold_res step b l'
  end.

(** [sort.Slice] by id.  Go leaves the order of entries with the same id open;
    here they keep their order. *)
Definition entry_le (a b : ObligationEntry) : bool := String.leb (oen_ID a) (oen_ID b).

Definition apply_seed (q : ObligationRequest) (p : ObligationSeedPayload) (out : ObligationLedger) : res ObligationLedger :=
  if negb (led_Prefix out =s ε) && negb (led_Prefix out =s osd_Prefix p) then
    Err (Errorf CodeMalformed "/request/payload/prefix" "a later seed must repeat ledger prefix %s" [AStr (led_Prefix out)])
  else
    let out := mkObligationLedger (osd_Prefix p) (led_Revision out) (led_Head out) (led_Entries out) (led_Events out) (led_Unblocks out) in
    let* out := fold_res (seed_item q) out (osd_Obligations p) in
    if ObligationsMaxEntries <? Z.of_nat (length (led_Entries out)) then
      Err (Errorf CodeLimitExceeded "/request/payload/obligations" "a ledger holds at most %d obligations" [AInt ObligationsMaxEntries])
    else Ok (with_entries out (isort entry_le (led_Entries out))).

(** [applyScopeChange]: the entry's scope and core. *)
Definition applyScopeChange (e : ObligationEntry) (s : ObligationScopeChange) (reason : string) (q : ObligationRequest) :
    res (option ObligationScope * bool) :=
  if osc_Action s =s ObligationScopePropose then
    Ok (Some {| osp_Status := ObligationScopeProposed; osp_Core := osc_Core s; osp_Reason := reason; osp_Evidence := osc_Evidence s;
                osp_ProposedByID := orq_ActorID q; osp_ProposedByRole := orq_ActorRole q; osp_ProposedAt := orq_IssuedAt q;
                osp_AcceptedByID := ε; osp_AcceptedByRole := ε; osp_AcceptedAt := ε |}, oen_Core e)
  else
    let none := Err (Errorf CodeMalformed "/request/payload/changes" "%s obligation %s has no pending scope proposal for core %t"
                       [AStr ObligationScopeNoProposalDetail; AStr (oen_ID e); AStr (if osc_Core s then "true" else "false")]) in
    match oen_Scope e with
    | None => none
    | Some p =>
        if negb (osp_Status p =s ObligationScopeProposed) || negb (Bool.eqb (osp_Core p) (osc_Core s)) then none
        else if osp_ProposedByID p =s orq_ActorID q then
          Err (Errorf CodeMalformed "/request/payload/changes" "%s %s proposed the scope decision on %s and cannot accept it"
            [AStr ObligationScopeSelfAcceptDetail; AStr (orq_ActorID q); AStr (oen_ID e)])
        else
          Ok (Some {| osp_Status := ObligationScopeAccepted; osp_Core := osp_Core p; osp_Reason := osp_Reason p;
                      osp_Evidence := osp_Evidence p; osp_ProposedByID := osp_ProposedByID p;
                      osp_ProposedByRole := osp_ProposedByRole p; osp_ProposedAt := osp_ProposedAt p;
                      osp_AcceptedByID := orq_ActorID q; osp_AcceptedByRole := orq_ActorRole q;
                      osp_AcceptedAt := orq_IssuedAt q |}, osc_Core s)
    end.

(** [applyMirrorChange]: the entry's mirror. *)
Definition applyMirrorChange (e : ObligationEntry) (c : ObligationMirrorChange) (q : ObligationRequest) :
    res (option ObligationMirrorRef) :=
  match c with
  | None => Ok None
  | Some owner =>
      if TicketID_Raw (omr_TicketID owner) =s TicketID_Raw (orq_TicketID q) then
        Err (Errorf CodeMalformed "/request/payload/changes" "%s obligation %s cannot be satisfied by its own ticket %s"
          [AStr ObligationMirrorSelfDetail; AStr (oen_ID e); AStr (TicketID_Raw (orq_TicketID q))])
      else Ok (Some owner)
  end.

Definition with_at (c : ObligationCandidate) (at_ : string) : ObligationCandidate :=
  {| oca_Path := oca_Path c; oca_StartLine := oca_StartLine c; oca_EndLine := oca_EndLine c; oca_At := at_ |}.

(** [option]'s value if the change names one, else the entry's. *)
Definition override {A} (change entry : option A) : option A := match change with Some a => Some a | None => entry end.

Definition apply_change (q : ObligationRequest) (e : ObligationEntry) (c : ObligationChange) : res ObligationEntry :=
  let evidence := match och_State c with
    | Some s => if (oen_State e =s ObligationWitnessed) && negb (s =s ObligationWitnessed) then None else oen_Evidence e
    | None => oen_Evidence e end in
  let state := default (oen_State e) (och_State c) in
  let core := default (oen_Core e) (och_Core c) in
  let sources := override (och_Sources c) (oen_Sources e) in
  let cites := override (och_Cites c) (oen_Cites e) in
  let candidate := match och_Candidate c with Some x => Some (with_at x (orq_IssuedAt q)) | None => oen_Candidate e end in
  let e := mkObligationEntry (oen_ID e) (oen_Alias e) (oen_Title e) core state (oen_Reason e) evidence sources (oen_Review e)
             cites (oen_Scope e) candidate (oen_SatisfiedBy e) (oen_UpdatedAt e) (oen_UpdatedByID e) (oen_UpdatedByRole e) in
  let* sc := (match och_Scope c with Some s => applyScopeChange e s (och_Reason c) q | None => Ok (oen_Scope e, oen_Core e) end) in
  let* mirror := (match och_Mirror c with Some m => applyMirrorChange e m q | None => Ok (oen_SatisfiedBy e) end) in
  Ok (stamp q (mkObligationEntry (oen_ID e) (oen_Alias e) (oen_Title e) sc.2 (oen_State e) (Some (och_Reason c)) (oen_Evidence e)
    (oen_Sources e) (oen_Review e) (oen_Cites e) sc.1 (oen_Candidate e) mirror
    (oen_UpdatedAt e) (oen_UpdatedByID e) (oen_UpdatedByRole e))).

(** An entry found by id, updated in its place. *)
Definition update_entry (out : ObligationLedger) (id dir : string) (f : ObligationEntry → res ObligationEntry) : res ObligationLedger :=
  match entry_at (led_Entries out) id with
  | None => Err (Errorf CodeMalformed dir "%s obligation %s is not in the ledger" [AStr ObligationUnknownDetail; AStr id])
  | Some (i, e) => let* e := f e in Ok (with_entries out (<[i := e]> (led_Entries out)))
  end.

Definition set_change (q : ObligationRequest) (out : ObligationLedger) (c : ObligationChange) : res ObligationLedger :=
  update_entry out (och_ID c) "/request/payload/changes" (λ e, apply_change q e c).

(** The review, state, reason and evidence of the entry after a reviewed
    witness. *)
Definition reviewed_entry (e : ObligationEntry) (w : ObligationWitnessPayload) (rv_ : ObligationReview) (event : string) : ObligationEntry :=
  let '(outcome, axes) := ObligationReview_Outcome rv_ in
  let record := Some {| orr_Outcome := outcome; orr_Axes := axes; orr_EventSha256 := event; orr_Commit := owp_Commit w;
                        orr_Review := rv_; orr_TestRepository := owp_TestRepository w |} in
  let '(state, reason, evidence) :=
    if outcome =s ObligationReviewCredited then
      (ObligationWitnessed, None,
       Some {| oe_Source := ObligationSourceReviewed; oe_EventSha256 := event; oe_Commit := owp_Commit w; oe_ReportSha256 := None;
               oe_PlaywrightVersion := None; oe_Matches := None; oe_Declaration := None; oe_Provenance := owp_Provenance w;
               oe_TestRepository := owp_TestRepository w |})
    else if oen_State e =s ObligationWitnessed then (ObligationOpen, oen_Reason e, None)
    else (oen_State e, oen_Reason e, oen_Evidence e) in
  mkObligationEntry (oen_ID e) (oen_Alias e) (oen_Title e) (oen_Core e) state reason evidence (oen_Sources e) record (oen_Cites e)
    (oen_Scope e) (oen_Candidate e) (oen_SatisfiedBy e) (oen_UpdatedAt e) (oen_UpdatedByID e) (oen_UpdatedByRole e).

(** [applyReviewedWitness]; [w.Review] is there for a reviewed source. *)
Definition applyReviewedWitness (e : ObligationEntry) (w : ObligationWitnessPayload) (event : string) : res ObligationEntry :=
  match owp_Review w with
  | None => Ok e
  | Some rv_ =>
      if (oen_State e =s ObligationDeferred) ||
         ((oen_State e =s ObligationWitnessed) &&
          match oen_Evidence e with Some ev => negb (oe_Source ev =s ObligationSourceReviewed) | None => false end) then
        Err (Errorf CodeMalformed "/request/payload/credits" "%s obligation %s is %s and is not credited by review"
          [AStr ObligationCreditMismatchDetail; AStr (oen_ID e); AStr (oen_State e)])
      else if (oen_State e =s ObligationWitnessed) &&
         match oen_Review e with
         | Some r => sub_BlobSha256 (orv_Subject (orr_Review r)) =s sub_BlobSha256 (orv_Subject rv_)
         | None => false end then
        Err (Errorf CodeMalformed "/request/payload/review/subject"
          "%s obligation %s is already witnessed by review of this subject blob" [AStr ObligationCreditMismatchDetail; AStr (oen_ID e)])
      else Ok (reviewed_entry e w rv_ event)
  end.

Definition without_candidate (e : ObligationEntry) : ObligationEntry :=
  mkObligationEntry (oen_ID e) (oen_Alias e) (oen_Title e) (oen_Core e) (oen_State e) (oen_Reason e) (oen_Evidence e)
    (oen_Sources e) (oen_Review e) (oen_Cites e) (oen_Scope e) None (oen_SatisfiedBy e)
    (oen_UpdatedAt e) (oen_UpdatedByID e) (oen_UpdatedByRole e).

Definition credited_entry (e : ObligationEntry) (w : ObligationWitnessPayload) (c : ObligationCredit) (event : string) : ObligationEntry :=
  mkObligationEntry (oen_ID e) (oen_Alias e) (oen_Title e) (oen_Core e) ObligationWitnessed None
    (Some {| oe_Source := owp_Source w; oe_EventSha256 := event; oe_Commit := owp_Commit w; oe_ReportSha256 := owp_ReportSha256 w;
             oe_PlaywrightVersion := owp_PlaywrightVersion w; oe_Matches := ocr_Matches c; oe_Declaration := owp_Declaration w;
             oe_Provenance := owp_Provenance w; oe_TestRepository := owp_TestRepository w |})
    (oen_Sources e) (oen_Review e) (oen_Cites e) (oen_Scope e) None (oen_SatisfiedBy e)
    (oen_UpdatedAt e) (oen_UpdatedByID e) (oen_UpdatedByRole e).

Definition apply_credit (q : ObligationRequest) (w : ObligationWitnessPayload) (event : string) (e : ObligationEntry)
    (c : ObligationCredit) : res ObligationEntry :=
  if owp_Source w =s ObligationSourceReviewed then
    let* e := applyReviewedWitness e w event in
    Ok (stamp q (without_candidate e))
  else if (oen_State e =s ObligationWitnessed) || (oen_State e =s ObligationDeferred) then
    Err (Errorf CodeMalformed "/request/payload/credits" "%s obligation %s is %s and is not credited"
      [AStr ObligationCreditMismatchDetail; AStr (ocr_ID c); AStr (oen_State e)])
  else Ok (stamp q (credited_entry e w c event)).

Definition witness_credit (q : ObligationRequest) (w : ObligationWitnessPayload) (event : string) (out : ObligationLedger)
    (c : ObligationCredit) : res ObligationLedger :=
  update_entry out (ocr_ID c) "/request/payload/credits" (λ e, apply_credit q w event e c).

(** [countUnblocks(before, after)] *)
Definition countUnblocks (before : option ObligationLedger) (after : ObligationLedger) : Z :=
  match before with
  | None => 0
  | Some b =>
      Z.of_nat (length (filter (λ e, oen_State e = ObligationBlocked ∧
        match entry_at (led_Entries after) (oen_ID e) with Some (_, x) => negb (oen_State x =s ObligationBlocked) | None => false end = true)
        (led_Entries b)))
  end.

Definition revisionOf (l : option ObligationLedger) : Z := match l with None => 0 | Some l => led_Revision l end.

Definition apply_payload (q : ObligationRequest) (event : string) (out : ObligationLedger) : res ObligationLedger :=
  match orq_Payload q with
  | PSeed p => apply_seed q p out
  | PSet p => fold_res (set_change q) out (ost_Changes p)
  | PWitness w => fold_res (witness_credit q w event) out (owp_Credits w)
  end.

Definition ApplyObligationEvent (l : option ObligationLedger) (ev : ObligationEvent) (event : string) : res ObligationLedger :=
  if negb (Count_Int (oev_Revision ev) =? revisionOf l + 1) then
    Err (Errorf CodeMalformed "/revision" "%s event revision %s does not follow ledger revision %d"
      [AStr ObligationChainDetail; AStr (oev_Revision ev); AInt (revisionOf l)])
  else if negb (bool_decide (oev_Previous ev = (led_Head <$> l))) then
    Err (Errorf CodeMalformed "/previous" "%s event does not link to the ledger head" [AStr ObligationChainDetail])
  else
    let* out := apply_payload (oev_Decoded ev) event (clone l) in
    Ok (mkObligationLedger (led_Prefix out) (Count_Int (oev_Revision ev)) event (led_Entries out) (led_Events out ++ [event])
      (led_Unblocks out + countUnblocks l out)).

(** ** Chains *)

(** [ChainError]: its code, and its detail as a format and its arguments. *)
Record ChainError := mkChainError { ce_Code : string; ce_Detail : string; ce_Args : list fmtarg }.

Section chains.
Context (sha256 : string → string).

(** A read of the evidence store: an error, no event, or its bytes. *)
Context (read : string → goerror + option string).

(** One event of a chain: the event at [head], of the ticket [id]. *)
Definition chain_event (id : TicketID) (head : string) : outcome ChainError ObligationEvent :=
  match read head with
  | inl e => Err (mkChainError CodeMissingEvidence "event %s is unreadable: %s" [AStr head; AMsg e])
  | inr None => Err (mkChainError CodeMissingEvidence "event %s is missing from the evidence store" [AStr head])
  | inr (Some raw) =>
      if negb (Sum sha256 raw =s head) then Err (mkChainError CodeMalformed "event %s fails its digest" [AStr head])
      else match DecodeObligationEvent sha256 raw with
      | Err e => Err (mkChainError CodeMalformed "event %s does not decode: %s" [AStr head; AMsg (EWire e)])
      | OutOfFuel => OutOfFuel
      | Ok ev =>
          if negb (TicketID_Raw (oev_TicketID ev) =s TicketID_Raw id) then
            Err (mkChainError CodeMalformed "event %s belongs to another ticket" [AStr head])
          else Ok ev
      end
  end.

(** The walk back from [head], of which [n] events are read; the events with
    their digests, the oldest first.  A chain is at most
    [ObligationsMaxEvents] long, which bounds the fuel. *)
Fixpoint walk_chain (fuel : nat) (id : TicketID) (head : option string) (n : Z) (chain : list (ObligationEvent * string)) :
    outcome ChainError (list (ObligationEvent * string)) :=
  match head with
  | None => Ok chain
  | Some head =>
      match fuel with
      | O => OutOfFuel
      | S fuel =>
          if ObligationsMaxEvents <=? n then Err (mkChainError CodeMalformed "chain is longer than the event bound" [])
          else
            let* ev := chain_event id head in
            walk_chain fuel id (oev_Previous ev) (n + 1) ((ev, head) :: chain)
      end
  end.

(** The fold of the events, the oldest first. *)
Fixpoint fold_chain (l : option ObligationLedger) (chain : list (ObligationEvent * string)) : outcome ChainError (option ObligationLedger) :=
  match chain with
  | [] => Ok l
  | (ev, d) :: chain' =>
      match ApplyObligationEvent l ev d with
      | Ok next => fold_chain (Some next) chain'
      | Err e => Err (mkChainError CodeMalformed "event %s does not fold: %s" [AStr d; AMsg (EWire e)])
      | OutOfFuel => OutOfFuel
      end
  end.

#[global] Instance ObligationCounts_eq_dec : EqDecision ObligationCounts.
Proof. solve_decision. Defined.

(** Whether the ledger is the one the reference describes. *)
Definition matches_reference (l : ObligationLedger) (ref : ObligationsReference) : bool :=
  (led_Revision l =? Count_Int (obl_Revision ref)) && (led_Prefix l =s obl_Prefix ref) &&
  bool_decide (ObligationLedger_Counts (Some l) = obl_Counts ref).

Definition chain_fuel : nat := S (Z.to_nat ObligationsMaxEvents).

Definition FoldObligationChain (id : TicketID) (ref : ObligationsReference) : outcome ChainError ObligationLedger :=
  let* chain := walk_chain chain_fuel id (Some (obl_Head ref)) 0 [] in
  let* l := fold_chain None chain in
  let mismatch := Err (mkChainError CodeMalformed "the folded ledger does not match the record reference" []) in
  match l with
  | Some l => if matches_reference l ref then Ok l else mismatch
  | None => mismatch
  end.

(** The loop of [ObligationLedgerBeforeRequest] over the ledger's events. *)
Fixpoint before_loop (requestID : string) (before : option ObligationLedger) (events : list string) :
    outcome (goerror + ChainError) (option ObligationLedger * bool) :=
  match events with
  | [] => Ok (None, false)
  | d :: events' =>
      match read d with
      | inl e => Err (inl e)
      | inr raw =>
          match DecodeObligationEvent sha256 (default ε raw) with
          | Err e => Err (inr (mkChainError CodeMalformed "event %s does not decode: %s" [AStr d; AMsg (EWire e)]))
          | OutOfFuel => OutOfFuel
          | Ok ev =>
              if orq_RequestID (oev_Decoded ev) =s requestID then Ok (before, true)
              else match ApplyObligationEvent before ev d with
              | Ok next => before_loop requestID (Some next) events'
              | Err e => Err (inr (mkChainError CodeMalformed "event %s does not fold: %s" [AStr d; AMsg (EWire e)]))
              | OutOfFuel => OutOfFuel
              end
          end
      end
  end.

Definition ObligationLedgerBeforeRequest (id : TicketID) (ref : ObligationsReference) (requestID : string) :
    outcome (goerror + ChainError) (option ObligationLedger * bool) :=
  match FoldObligationChain id ref with
  | Err e => Err (inr e)
  | OutOfFuel => OutOfFuel
  | Ok l => before_loop requestID None (led_Events l)
  end.

(** [ObligationEventOf]: the event, if the bytes are one. *)
Definition ObligationEventOf (raw : string) : option ObligationEvent :=
  if negb (strings.Contains raw ObligationEventProfile) then None
  else match DecodeObligationEvent sha256 raw with Ok ev => Some ev | _ => None end.

(** The loop of [ObligationChainEvents]: what was collected, and the error of
    the read that ended it. *)
Fixpoint chain_events_loop (steps : nat) (head : option string) (out : gmap string string) : gmap string string * option goerror :=
  match steps, head with
  | S steps, Some head =>
      match out !! head with
      | Some _ => (out, None)
      | None =>
          match read head with
          | inl e => (out, Some e)
          | inr (Some raw) =>
              let out := <[head := raw]> out in
              match DecodeObligationEvent sha256 raw with
              | Ok ev => chain_events_loop steps (oev_Previous ev) out
              | _ => (out, None)
              end
          | inr None => (out, None)
          end
      end
  | _, _ => (out, None)
  end.

Definition ObligationChainEvents (ref : option ObligationsReference) : gmap string string * option goerror :=
  match ref with
  | None => (∅, None)
  | Some ref => chain_events_loop (Z.to_nat ObligationsMaxEvents) (Some (obl_Head ref)) ∅
  end.
End chains.
