(* ===== verification/Mutation.v ===== *)
(** * Mutation envelopes

    [mutation.go] of [src/internal/tasks/mutation], with the payloads of
    [external_review.go] and [obligations.go]: the closed payload of each
    operation, the envelope that carries one, decoding and encoding.

    A payload is one constructor of [Payload].  [CanonicalPayload], which
    sorts the sets of the value it reads in place, is not modelled. *)

From S2P Require Import Prelude Utf8 GoStd Codes Limits Value Primitives Ids Parse Reader Ticket Inventory Marks.
From S2P Require Import KnowHow RecordParts RecordCodec Obligations ObligationEvents NoteEvents Intent Updates.
Local Open Scope Z_scope.
Local Open Scope go_scope.

(** ** Operations *)

Definition Profile : string := "taskman-mutation/0".

Definition OpCreate : string := "CREATE".
Definition OpRefine : string := "REFINE".
Definition OpPrioritize : string := "PRIORITIZE".
Definition OpSetDependencies : string := "SET_DEPENDENCIES".
Definition OpSetGates : string := "SET_GATES".
Definition OpSetEffects : string := "SET_EFFECTS".
Definition OpHold : string := "HOLD".
Definition OpReleaseHold : string := "RELEASE_HOLD".
Definition OpReopen : string := "REOPEN".
Definition OpArchive : string := "ARCHIVE".
Definition OpRestore : string := "RESTORE".
Definition OpCompleteManual : string := "COMPLETE_MANUAL".
Definition OpGrantApproval : string := "GRANT_APPROVAL".
Definition OpRevokeApproval : string := "REVOKE_APPROVAL".
Definition OpAttachEvidence : string := "ATTACH_EVIDENCE".
Definition OpProgressSet : string := "PROGRESS_SET".
Definition OpKnowHowAdd : string := "KNOWHOW_ADD".
Definition OpKnowHowRetract : string := "KNOWHOW_RETRACT".
Definition OpKnowHowReconfirm : string := "KNOWHOW_RECONFIRM".
Definition OpNoteSet : string := "NOTE_SET".
Definition OpNoteClear : string := "NOTE_CLEAR".
Definition OpReviewRecord : string := "REVIEW_RECORD".
Definition OpReviewResubmit : string := "REVIEW_RESUBMIT".

Definition IsNoteOperation (op : string) : bool := (op =s OpNoteSet) || (op =s OpNoteClear).

Definition IsReviewOperation (op : string) : bool := (op =s OpReviewRecord) || (op =s OpReviewResubmit).

Definition DeclaresDerivedEvent (op : string) : bool :=
  IsNoteOperation op || IsReviewOperation op || IsObligationOperation op.

(** ** Payloads *)

Record CreatePayload := mkCreatePayload {
  cp_RequiredRoles : option (gmap string (list string)); cp_RequiresPool : string; cp_LocalToken : option string;
  cp_Title : string; cp_Body : option string; cp_Kind : string; cp_Owner : option string; cp_Milestone : option string;
  cp_Priority : string; cp_Order : string; cp_Labels : list string; cp_Dependencies : list Dependency;
  cp_AcceptanceCriteria : list string; cp_RequirementRefs : list string; cp_Source : Source; cp_Effects : Effects;
  cp_Capabilities : list string; cp_RequiredGates : list string; cp_ExecutionClass : string; cp_DueDate : option string;
  cp_EstimateMinutes : option string; cp_Supersedes : option TicketID; cp_SupersededBy : option TicketID
}.

Definition RefineFields : list string :=
  ["acceptanceCriteria"; "body"; "dueDate"; "estimateMinutes"; "executionPrerequisites"; "kind"; "labels";
   "milestone"; "owner"; "requirementRefs"; "requiredRoles"; "requiresPool"; "supersededBy"; "supersedes"; "title"].

(** A field means something only when its key is in [rp_Present]. *)
Record RefinePayload := mkRefinePayload {
  rp_ExecutionPrerequisites : list Prerequisite; rp_RequiredRoles : option (gmap string (list string));
  rp_RequiresPool : option string; rp_Present : gset string; rp_Title : string; rp_Body : option string; rp_Kind : string;
  rp_Owner : option string; rp_Milestone : option string; rp_Labels : list string; rp_AcceptanceCriteria : list string;
  rp_RequirementRefs : list string; rp_DueDate : option string; rp_EstimateMinutes : option string;
  rp_Supersedes : option TicketID; rp_SupersededBy : option TicketID
}.

Record KnowHowAddPayload := mkKnowHowAddPayload {
  ka_Text : string; ka_Anchors : list KnowHowAnchor; ka_Routes : list string; ka_Commit : string;
  ka_Supersedes : option string; ka_Reason : option string; ka_Attempt : option string; ka_Generation : option string;
  ka_EvidencePath : option string; ka_Repository : string
}.

Record GrantApprovalPayload := {
  ga_GrantID : string; ga_Actor : string; ga_Operation : string; ga_TargetRevision : string; ga_Scope : list string
}.

Inductive Payload : Type :=
  | PCreate (p : CreatePayload)
  | PRefine (p : RefinePayload)
  | PPrioritize (priority order : string)
  | PSetDependencies (dependencies : list Dependency)
  | PSetGates (gates : list string)
  | PSetEffects (effects : Effects) (capabilities : list string) (executionClass : string)
  | PHold (holdID reason : string) (condition : option HoldCondition)
  | PReleaseHold (holdID : string)
  | PReason (op reason : string)
  | PCompleteManual (reason : string) (evidence : list string)
  | PGrantApproval (p : GrantApprovalPayload)
  | PRevokeApproval (grantID reason : string)
  | PAttachEvidence (evidence : list string) (reason : string)
  | PProgressSet (mark : ProgressMark)
  | PKnowHowAdd (p : KnowHowAddPayload)
  | PKnowHowRetract (note reason : string)
  | PKnowHowReconfirm (note : string) (anchors : list KnowHowAnchor) (commit : string) (attempt generation : option string)
  | PNote (op text : string) (supersedes : option string)
  | PReview (op : string) (request : Value)
  | PObligations (op : string) (p : ObligationPayload).

(** [p.operation()] *)
Definition operation (p : Payload) : string :=
  match p with
  | PCreate _ => OpCreate
  | PRefine _ => OpRefine
  | PPrioritize _ _ => OpPrioritize
  | PSetDependencies _ => OpSetDependencies
  | PSetGates _ => OpSetGates
  | PSetEffects _ _ _ => OpSetEffects
  | PHold _ _ _ => OpHold
  | PReleaseHold _ => OpReleaseHold
  | PReason op _ => op
  | PCompleteManual _ _ => OpCompleteManual
  | PGrantApproval _ => OpGrantApproval
  | PRevokeApproval _ _ => OpRevokeApproval
  | PAttachEvidence _ _ => OpAttachEvidence
  | PProgressSet _ => OpProgressSet
  | PKnowHowAdd _ => OpKnowHowAdd
  | PKnowHowRetract _ _ => OpKnowHowRetract
  | PKnowHowReconfirm _ _ _ _ _ => OpKnowHowReconfirm
  | PNote op _ _ => op
  | PReview op _ => op
  | PObligations op _ => op
  end.

(** [p.Has(key)], [p.Keys()] *)
Definition Refine_Has (p : RefinePayload) (key : string) : bool := bool_decide (key ∈ rp_Present p).

Definition Refine_Keys (p : RefinePayload) : list string := filter (λ k, k ∈ rp_Present p) RefineFields.

Record Envelope := mkEnvelope {
  env_RequestID : string; env_ActorID : string; env_ActorRole : string; env_QueueID : QueueID;
  env_TargetID : option TicketID; env_ExpectedRevision : option string; env_Operation : string; env_Payload : Payload;
  env_IssuedAt : string; env_Raw : string
}.

(** [e.Sha256()] *)
Definition Envelope_Sha256 (sha256 : string → string) (e : Envelope) : string := Sum sha256 (env_Raw e).

(** ** Reading the parts *)

(** [readRequestID] *)
Definition readRequestID (r : Reader) : M string :=
  s ← Identifier r;
  e ← failed;
  _ ← (if negb (e : bool) && (MaxRequestIDBytes <? slen s)
       then Fail r CodeLimitExceeded "requestId longer than %d bytes" [AInt MaxRequestIDBytes] else mret tt);
  mret s.

Definition ParseRequestID (where_ s : string) : res string :=
  let* id := ParseIdentifier where_ s in
  if MaxRequestIDBytes <? slen id then
    Err (Errorf CodeLimitExceeded where_ "requestId longer than %d bytes" [AInt MaxRequestIDBytes])
  else Ok id.

Definition readPriority (r : Reader) : M string :=
  s ← String_ r;
  e ← failed;
  if (e : bool) then mret ε
  else if existsb (λ p, p =s s) Priorities then mret s
  else _ ← Fail r CodeInvalidPriority "priority %q not in {P0|P1|P2|P3}" [AStr s]; mret ε.

Definition readLabels (r : Reader) : M (list string) := Reader_Strings r MaxLabels false Label.
Definition readCriteria (r : Reader) : M (list string) :=
  Reader_Strings r MaxAcceptanceCriteria true (λ c, Prose c 0 MaxCriterionBytes).
Definition readRequirementRefs (r : Reader) : M (list string) := Reader_Strings r MaxRequirementRefs false Identifier.
Definition readCapabilities (r : Reader) : M (list string) := Reader_Strings r MaxCapabilities false Identifier.
Definition readGates (r : Reader) : M (list string) := Reader_Strings r MaxRequiredGates false Label.

Definition readDependencies (r : Reader) : M (list Dependency) :=
  items ← Array_ r MaxDependencies true;
  each read_dependency items.

(** [readDueDate] *)
Definition readDueDate (r : Reader) : M (option string) :=
  e ← failed;
  if (e : bool) || IsNull r then mret None
  else
    s ← String_ r;
    e ← failed;
    if (e : bool) then mret (Some s)
    else match ParseDate (rwhere r) s with
    | Err err => _ ← Fail r CodeMalformed "%v" [AMsg (EWire err)]; mret None
    | _ => mret (Some s)
    end.

Definition readTicketOrNull : Reader → M (option TicketID) := or_null Reader_TicketID.

(** [readSource] and [readEffects] repeat the code of the record's decoder. *)
Definition readSource : Reader → M Source := read_source.
Definition readEffects : Reader → M Effects := read_effects.

(** ** Reading payloads *)

Definition createKeys : list string :=
  ["title"; "body"; "kind"; "owner"; "milestone"; "priority"; "order"; "labels"; "dependencies"; "acceptanceCriteria";
   "requirementRefs"; "source"; "effects"; "capabilities"; "requiredGates"; "executionClass"; "dueDate";
   "estimateMinutes"; "supersedes"; "supersededBy"].

(** [PayloadKeys[op]]: nil for an operation it does not name. *)
Definition PayloadKeys (op : string) : list string :=
  if op =s OpCreate then createKeys
  else if op =s OpRefine then RefineFields
  else if op =s OpPrioritize then ["priority"; "order"]
  else if op =s OpSetDependencies then ["dependencies"]
  else if op =s OpSetGates then ["requiredGates"]
  else if op =s OpSetEffects then ["effects"; "capabilities"; "executionClass"]
  else if op =s OpHold then ["holdId"; "reason"]
  else if op =s OpReleaseHold then ["holdId"]
  else if (op =s OpReopen) || (op =s OpArchive) || (op =s OpRestore) then ["reason"]
  else if op =s OpCompleteManual then ["reason"; "evidence"]
  else if op =s OpGrantApproval then ["grantId"; "actor"; "operation"; "targetRevision"; "scope"]
  else if op =s OpRevokeApproval then ["grantId"; "reason"]
  else if op =s OpAttachEvidence then ["evidence"; "reason"]
  else if op =s OpProgressSet then ProgressMarkKeys
  else if op =s OpKnowHowAdd then
    ["anchors"; "attempt"; "commit"; "evidencePath"; "generation"; "reason"; "routes"; "supersedes"; "text"]
  else if op =s OpKnowHowRetract then ["note"; "reason"]
  else if op =s OpNoteSet then ["text"; "supersedes"]
  else if op =s OpNoteClear then ["supersedes"]
  else if (op =s OpReviewRecord) || (op =s OpReviewResubmit) then ["request"]
  else if op =s OpKnowHowReconfirm then ["anchors"; "attempt"; "commit"; "generation"; "note"]
  else if op =s OpObligationsSeed then ["obligations"; "prefix"]
  else if op =s OpObligationsSet then ["changes"]
  else if op =s OpObligationsWitness then
    ["attempt"; "commit"; "credits"; "declaration"; "generation"; "playwrightVersion"; "reportSha256"; "source"]
  else [].

(** The member [localToken], a token. *)
Definition read_local_token (lt : Reader) : M string :=
  s ← String_ lt;
  e ← failed;
  _ ← (if (e : bool) then mret tt
       else match ParseToken (rwhere lt) s MaxLocalTokenBytes with
       | Err err => Fail lt (CodeOf (Some (EWire err))) "%v" [AMsg (EWire err)]
       | _ => mret tt
       end);
  mret s.

Definition readCreate (r : Reader) : M CreatePayload :=
  let hasLocal := Has (rv r) "localToken" in
  let keys := if hasLocal then createKeys ++ ["localToken"] else createKeys in
  _ ← Closed r (OptionalKeys (rv r) keys ["requiresPool"; "requiredRoles"]);
  roles ← optional_member None r "requiredRoles" (λ f, m ← ReadStageRoles f; mret (Some m));
  pool ← optional_member ε r "requiresPool" Label;
  local ← (if (hasLocal : bool) then lt ← Field r "localToken"; s ← read_local_token lt; mret (Some s) else mret None);
  f ← Field r "title"; title ← Prose f 1 MaxTitleBytes;
  f ← Field r "body"; body ← ProseOrNull MaxBodyBytes f;
  f ← Field r "kind"; kind ← Enum f Kinds;
  f ← Field r "owner"; owner ← LabelOrNull f;
  f ← Field r "milestone"; milestone ← LabelOrNull f;
  f ← Field r "priority"; priority ← readPriority f;
  f ← Field r "order"; order ← Count f;
  f ← Field r "labels"; labels ← readLabels f;
  f ← Field r "dependencies"; dependencies ← readDependencies f;
  f ← Field r "acceptanceCriteria"; criteria ← readCriteria f;
  f ← Field r "requirementRefs"; refs ← readRequirementRefs f;
  f ← Field r "source"; source ← readSource f;
  f ← Field r "effects"; effects ← readEffects f;
  f ← Field r "capabilities"; capabilities ← readCapabilities f;
  f ← Field r "requiredGates"; gates ← readGates f;
  f ← Field r "executionClass"; class ← Enum f ExecutionClasses;
  f ← Field r "dueDate"; due ← readDueDate f;
  f ← Field r "estimateMinutes"; estimate ← CountOrNull f;
  f ← Field r "supersedes"; supersedes ← readTicketOrNull f;
  f ← Field r "supersededBy"; supersededBy ← readTicketOrNull f;
  mret (mkCreatePayload roles pool local title body kind owner milestone priority order labels dependencies criteria refs
    source effects capabilities gates class due estimate supersedes supersededBy).

Definition empty_refine : RefinePayload :=
  mkRefinePayload [] None None ∅ ε None ε None None [] [] [] None None None None.

(** Assigning to a field of a REFINE payload. *)
Definition eta_refine (p : RefinePayload) : RefinePayload :=
  {| rp_ExecutionPrerequisites := rp_ExecutionPrerequisites p; rp_RequiredRoles := rp_RequiredRoles p;
     rp_RequiresPool := rp_RequiresPool p; rp_Present := rp_Present p; rp_Title := rp_Title p; rp_Body := rp_Body p;
     rp_Kind := rp_Kind p; rp_Owner := rp_Owner p; rp_Milestone := rp_Milestone p; rp_Labels := rp_Labels p;
     rp_AcceptanceCriteria := rp_AcceptanceCriteria p; rp_RequirementRefs := rp_RequirementRefs p; rp_DueDate :=
     rp_DueDate p; rp_EstimateMinutes := rp_EstimateMinutes p; rp_Supersedes := rp_Supersedes p; rp_SupersededBy :=
     rp_SupersededBy p |}.

#[export] Instance set_rp_ExecutionPrerequisites : Setter rp_ExecutionPrerequisites.
Proof. setter eta_refine rp_ExecutionPrerequisites. Defined.
#[export] Instance set_rp_RequiredRoles : Setter rp_RequiredRoles.
Proof. setter eta_refine rp_RequiredRoles. Defined.
#[export] Instance set_rp_RequiresPool : Setter rp_RequiresPool.
Proof. setter eta_refine rp_RequiresPool. Defined.
#[export] Instance set_rp_Present : Setter rp_Present.
Proof. setter eta_refine rp_Present. Defined.
#[export] Instance set_rp_Title : Setter rp_Title.
Proof. setter eta_refine rp_Title. Defined.
#[export] Instance set_rp_Body : Setter rp_Body.
Proof. setter eta_refine rp_Body. Defined.
#[export] Instance set_rp_Kind : Setter rp_Kind.
Proof. setter eta_refine rp_Kind. Defined.
#[export] Instance set_rp_Owner : Setter rp_Owner.
Proof. setter eta_refine rp_Owner. Defined.
#[export] Instance set_rp_Milestone : Setter rp_Milestone.
Proof. setter eta_refine rp_Milestone. Defined.
#[export] Instance set_rp_Labels : Setter rp_Labels.
Proof. setter eta_refine rp_Labels. Defined.
#[export] Instance set_rp_AcceptanceCriteria : Setter rp_AcceptanceCriteria.
Proof. setter eta_refine rp_AcceptanceCriteria. Defined.
#[export] Instance set_rp_RequirementRefs : Setter rp_RequirementRefs.
Proof. setter eta_refine rp_RequirementRefs. Defined.
#[export] Instance set_rp_DueDate : Setter rp_DueDate.
Proof. setter eta_refine rp_DueDate. Defined.
#[export] Instance set_rp_EstimateMinutes : Setter rp_EstimateMinutes.
Proof. setter eta_refine rp_EstimateMinutes. Defined.
#[export] Instance set_rp_Supersedes : Setter rp_Supersedes.
Proof. setter eta_refine rp_Supersedes. Defined.
#[export] Instance set_rp_SupersededBy : Setter rp_SupersededBy.
Proof. setter eta_refine rp_SupersededBy. Defined.

(** The member [k] read into its field. *)
Definition refine_field (p : RefinePayload) (k : string) (f : Reader) : M RefinePayload :=
  if k =s "executionPrerequisites" then
    if IsNull f then mret p else x ← ReadPrerequisites f; mret (p <| rp_ExecutionPrerequisites := x |>)
  else if k =s "requiredRoles" then
    if IsNull f then mret p else x ← ReadStageRoles f; mret (p <| rp_RequiredRoles := Some x |>)
  else if k =s "requiresPool" then x ← LabelOrNull f; mret (p <| rp_RequiresPool := x |>)
  else if k =s "title" then x ← Prose f 1 MaxTitleBytes; mret (p <| rp_Title := x |>)
  else if k =s "body" then x ← ProseOrNull MaxBodyBytes f; mret (p <| rp_Body := x |>)
  else if k =s "kind" then x ← Enum f Kinds; mret (p <| rp_Kind := x |>)
  else if k =s "owner" then x ← LabelOrNull f; mret (p <| rp_Owner := x |>)
  else if k =s "milestone" then x ← LabelOrNull f; mret (p <| rp_Milestone := x |>)
  else if k =s "labels" then x ← readLabels f; mret (p <| rp_Labels := x |>)
  else if k =s "acceptanceCriteria" then x ← readCriteria f; mret (p <| rp_AcceptanceCriteria := x |>)
  else if k =s "requirementRefs" then x ← readRequirementRefs f; mret (p <| rp_RequirementRefs := x |>)
  else if k =s "dueDate" then x ← readDueDate f; mret (p <| rp_DueDate := x |>)
  else if k =s "estimateMinutes" then x ← CountOrNull f; mret (p <| rp_EstimateMinutes := x |>)
  else if k =s "supersedes" then x ← readTicketOrNull f; mret (p <| rp_Supersedes := x |>)
  else if k =s "supersededBy" then x ← readTicketOrNull f; mret (p <| rp_SupersededBy := x |>)
  else mret p.

Fixpoint refine_loop (r : Reader) (present : list string) (p : RefinePayload) : M RefinePayload :=
  match present with
  | [] => mret p
  | k :: present' =>
      f ← Field r k;
      p ← refine_field (p <| rp_Present := {[k]} ∪ rp_Present p |>) k f;
      refine_loop r present' p
  end.

(** A nil payload is [None]. *)
Definition readRefine (r : Reader) : M (option RefinePayload) :=
  match rv r with
  | VObject o =>
      let keys := SortStrings (Keys o) in
      match filter (λ k, k ∉ RefineFields) keys with
      | k :: _ => _ ← Fail r CodeMalformed "REFINE payload carries unknown key %q" [AStr k]; mret None
      | [] =>
          if (length keys =? 0)%nat then _ ← Fail r CodeMalformed "REFINE payload carries no field" []; mret None
          else
            _ ← Closed r keys;
            p ← refine_loop r keys empty_refine;
            mret (Some p)
      end
  | v => _ ← Fail r CodeMalformed "expected object, got %s" [kindArg v]; mret None
  end.

Definition read_hold_payload (r : Reader) (op : string) : M Payload :=
  _ ← Closed r (OptionalKeys (rv r) (PayloadKeys op) ["condition"]);
  f ← Field r "holdId"; id ← Label f;
  f ← Field r "reason"; reason ← Prose f 0 MaxProseBytes;
  condition ← optional_member None r "condition" (λ f, c ← ReadHoldCondition f; mret (Some c));
  mret (PHold id reason condition).

Definition read_grant (r : Reader) (op : string) : M Payload :=
  _ ← Closed r (PayloadKeys op);
  f ← Field r "grantId"; id ← Label f;
  f ← Field r "actor"; actor ← Label f;
  f ← Field r "operation"; operation ← Enum f ApprovalOps;
  f ← Field r "targetRevision"; target ← Count f;
  f ← Field r "scope"; scope ← Reader_Strings f (-1) false Identifier;
  mret (PGrantApproval {| ga_GrantID := id; ga_Actor := actor; ga_Operation := operation; ga_TargetRevision := target;
                          ga_Scope := scope |}).

(** The checks of [KNOWHOW_ADD] between members. *)
Definition check_reason (r : Reader) (k : KnowHowAddPayload) : M unit :=
  e ← failed;
  if negb (e : bool) && negb (Bool.eqb (is_none (ka_Supersedes k)) (is_none (ka_Reason k)))
  then f ← Field r "reason"; Fail f CodeMalformed "reason is required exactly when supersedes names a note" []
  else mret tt.

Definition check_repository (r : Reader) (k : KnowHowAddPayload) : M unit :=
  e ← failed;
  if negb (e : bool) && negb (ka_Repository k =s ε) then
    let why := ticket_KnowHowRepositoryRefusal (ka_Repository k) (ka_Anchors k) in
    if negb (why =s ε) then f ← Field r "anchors"; Fail f CodeMalformed "%s" [AStr why] else mret tt
  else mret tt.

Definition read_know_how_add (r : Reader) (op : string) : M Payload :=
  repository ← (if Has (rv r) "repository" then
      _ ← Closed r ("repository" :: PayloadKeys op);
      f ← Field r "repository"; ReadKnowHowRepository f
    else _ ← Closed r (PayloadKeys op); mret ε);
  f ← Field r "text"; text ← ReadKnowHowText f;
  f ← Field r "anchors"; anchors ← ReadKnowHowAnchors f;
  f ← Field r "routes"; routes ← ReadKnowHowRoutes f;
  f ← Field r "commit"; commit ← OID f;
  f ← Field r "supersedes"; supersedes ← CountOrNull f;
  f ← Field r "attempt"; attempt ← Reader_StringOrNull Identifier f;
  f ← Field r "generation"; generation ← SizeOrNull f;
  f ← Field r "evidencePath"; path ← Reader_StringOrNull ReadKnowHowFile f;
  f ← Field r "reason"; reason ← Reader_StringOrNull ReadKnowHowReason f;
  let k := mkKnowHowAddPayload text anchors routes commit supersedes reason attempt generation path repository in
  _ ← check_reason r k;
  _ ← check_repository r k;
  mret (PKnowHowAdd k).

Definition read_know_how_reconfirm (r : Reader) (op : string) : M Payload :=
  _ ← Closed r (PayloadKeys op);
  f ← Field r "note"; note ← Count f;
  f ← Field r "anchors"; anchors ← ReadKnowHowAnchors f;
  f ← Field r "commit"; commit ← OID f;
  f ← Field r "attempt"; attempt ← Reader_StringOrNull Identifier f;
  f ← Field r "generation"; generation ← SizeOrNull f;
  mret (PKnowHowReconfirm note anchors commit attempt generation).

(** The payloads of [operator_note.go] and [external_review.go]. *)
Definition readNote (op : string) (r : Reader) : M Payload :=
  _ ← Closed r (PayloadKeys op);
  text ← (if op =s OpNoteSet then
      f ← Field r "text"; t ← Prose f 1 MaxOperatorNoteTextBytes;
      e ← failed;
      _ ← (if negb (e : bool) && blank t then Fail r CodeMalformed "note text must contain non-whitespace prose" [] else mret tt);
      mret t
    else mret ε);
  f ← Field r "supersedes"; supersedes ← CountOrNull f;
  mret (PNote op text supersedes).

Definition readReview (op : string) (r : Reader) : M Payload :=
  _ ← Closed r (PayloadKeys op);
  q ← Field r "request";
  e ← failed;
  _ ← (match rv q with
       | VObject _ => mret tt
       | _ => if (e : bool) then mret tt else Fail q CodeMalformed "request must be an object" []
       end);
  mret (PReview op (rv q)).

(** [decodePayload], before its [r.Err()]: the operations in the order of the
    switch.  [readRefine]'s nil comes with a failure. *)
Definition read_mutation (op : string) (r : Reader) : M Payload :=
  if op =s OpCreate then p ← readCreate r; mret (PCreate p)
  else if op =s OpRefine then p ← readRefine r; mret (PRefine (default empty_refine p))
  else if op =s OpPrioritize then
    _ ← Closed r (PayloadKeys op);
    f ← Field r "priority"; priority ← readPriority f; f ← Field r "order"; order ← Count f; mret (PPrioritize priority order)
  else if op =s OpSetDependencies then
    _ ← Closed r (PayloadKeys op); f ← Field r "dependencies"; ds ← readDependencies f; mret (PSetDependencies ds)
  else if op =s OpSetGates then
    _ ← Closed r (PayloadKeys op); f ← Field r "requiredGates"; gs ← readGates f; mret (PSetGates gs)
  else if op =s OpSetEffects then
    _ ← Closed r (PayloadKeys op);
    f ← Field r "effects"; effects ← readEffects f;
    f ← Field r "capabilities"; capabilities ← readCapabilities f;
    f ← Field r "executionClass"; class ← Enum f ExecutionClasses;
    mret (PSetEffects effects capabilities class)
  else if op =s OpHold then read_hold_payload r op
  else if op =s OpReleaseHold then
    _ ← Closed r (PayloadKeys op); f ← Field r "holdId"; id ← Label f; mret (PReleaseHold id)
  else if (op =s OpReopen) || (op =s OpArchive) || (op =s OpRestore) then
    _ ← Closed r (PayloadKeys op); f ← Field r "reason"; reason ← Prose f 0 MaxProseBytes; mret (PReason op reason)
  else if op =s OpCompleteManual then
    _ ← Closed r (PayloadKeys op);
    f ← Field r "reason"; reason ← Prose f 0 MaxProseBytes;
    f ← Field r "evidence"; items ← Array_ f (-1) false; evidence ← each Digest items;
    mret (PCompleteManual reason evidence)
  else if op =s OpGrantApproval then read_grant r op
  else if op =s OpRevokeApproval then
    _ ← Closed r (PayloadKeys op);
    f ← Field r "grantId"; id ← Label f; f ← Field r "reason"; reason ← Prose f 0 MaxProseBytes; mret (PRevokeApproval id reason)
  else if op =s OpAttachEvidence then
    _ ← Closed r (PayloadKeys op);
    f ← Field r "evidence"; evidence ← ReadEvidenceDigests f; f ← Field r "reason"; reason ← ReadEvidenceReason f;
    mret (PAttachEvidence evidence reason)
  else if op =s OpProgressSet then _ ← Closed r (PayloadKeys op); m ← ReadProgressMark r; mret (PProgressSet m)
  else if op =s OpKnowHowAdd then read_know_how_add r op
  else if op =s OpKnowHowRetract then
    _ ← Closed r (PayloadKeys op);
    f ← Field r "note"; note ← Count f; f ← Field r "reason"; reason ← ReadKnowHowReason f; mret (PKnowHowRetract note reason)
  else if op =s OpKnowHowReconfirm then read_know_how_reconfirm r op
  else if IsNoteOperation op then readNote op r
  else if IsReviewOperation op then readReview op r
  else if IsObligationOperation op then p ← read_payload op r; mret (PObligations op p)
  else _ ← Fail r CodeMalformed "unknown operation %q" [AStr op]; mret (PReason op ε).

(** ** Envelopes *)

Definition envelopeKeys : list string :=
  ["profile"; "requestId"; "actor"; "queueId"; "targetId"; "expectedRevision"; "operation"; "payload"; "issuedAt"].

Record envelope_head := mkEnvelopeHead {
  enh_RequestID : string; enh_Actor : string * string; enh_QueueID : QueueID; enh_TargetID : option TicketID;
  enh_ExpectedRevision : option string; enh_Operation : string; enh_IssuedAt : string
}.

Definition read_actor (actor : Reader) : M (string * string) :=
  _ ← Closed actor ["id"; "role"];
  f ← Field actor "id"; id ← Label f;
  f ← Field actor "role"; role ← Enum f Roles;
  mret (id, role).

Definition read_envelope_head (r : Reader) : M envelope_head :=
  f ← Field r "requestId"; id ← readRequestID f;
  f ← Field r "actor"; actor ← read_actor f;
  f ← Field r "queueId"; queue ← Reader_QueueID f;
  tid ← Field r "targetId"; target ← unless_null Reader_TicketID tid;
  f ← Field r "expectedRevision"; expected ← CountOrNull f;
  f ← Field r "operation"; op ← Enum f Operations;
  f ← Field r "issuedAt"; at_ ← Timestamp f;
  mret (mkEnvelopeHead id actor queue target expected op at_).

(** The rules on [targetId] and [expectedRevision]. *)
Definition target_checks (h : envelope_head) : option Error :=
  let op := enh_Operation h in
  if op =s OpCreate then
    match enh_TargetID h, enh_ExpectedRevision h with
    | Some _, _ => Some (Errorf CodeMalformed "/targetId" "CREATE carries a null targetId" [])
    | None, Some _ => Some (Errorf CodeMalformed "/expectedRevision" "CREATE carries a null expectedRevision" [])
    | None, None => None
    end
  else match enh_TargetID h with
  | None => Some (Errorf CodeMalformed "/targetId" "%s requires a targetId" [AStr op])
  | Some t =>
      if is_none (enh_ExpectedRevision h) && negb (IsNoteOperation op) && negb (IsReviewOperation op) then
        Some (Errorf CodeMalformed "/expectedRevision" "%s requires an expectedRevision" [AStr op])
      else if negb (TicketID_QueueID t =s QueueID_Raw (enh_QueueID h)) then
        Some (Errorf CodeMalformed "/targetId" "target %s is outside queue %s"
          [AStr (TicketID_Raw t); AStr (QueueID_Raw (enh_QueueID h))])
      else None
  end.

Definition Decode (data : string) : res Envelope :=
  if MaxMutationEnvelopeBytes <? slen data then
    Err (Errorf CodeLimitExceeded "/" "mutation envelope larger than %d bytes" [AInt MaxMutationEnvelopeBytes])
  else
    let* v := Parse data in
    let r := NewReader v "/" in
    try ProfileVersion "/profile" v Profile;
    let* _ := run (Closed r envelopeKeys) st0 in
    let '(profile, st) := (f ← Field r "profile"; String_ f) st0 in
    try CheckProfile "/profile" profile Profile;
    let* h := run (read_envelope_head r) st in
    try target_checks h;
    let* p := run (f ← Field r "payload"; read_mutation (enh_Operation h) f) st in
    Ok (mkEnvelope (enh_RequestID h) (enh_Actor h).1 (enh_Actor h).2 (enh_QueueID h) (enh_TargetID h) (enh_ExpectedRevision h)
          (enh_Operation h) p (enh_IssuedAt h) data).

(** ** Writing *)

Definition dependenciesValue (ds : list Dependency) : Value := VArray (dependency_value <$> ds).

Definition countOrNull (c : option string) : Value := match c with None => VNull | Some c => VString c end.

Definition create_value (p : CreatePayload) : Value :=
  let o := set_opt NewObject "requiredRoles" (StageRolesValue <$> cp_RequiredRoles p) in
  let o := set_opt o "requiresPool" (when (negb (cp_RequiresPool p =s ε)) (VString (cp_RequiresPool p))) in
  let o := set_opt o "localToken" (VString <$> cp_LocalToken p) in
  let o := Set_ o "title" (VString (cp_Title p)) in
  let o := Set_ o "body" (StringOrNull (cp_Body p)) in
  let o := Set_ o "kind" (VString (cp_Kind p)) in
  let o := Set_ o "owner" (StringOrNull (cp_Owner p)) in
  let o := Set_ o "milestone" (StringOrNull (cp_Milestone p)) in
  let o := Set_ o "priority" (VString (cp_Priority p)) in
  let o := Set_ o "order" (VString (cp_Order p)) in
  let o := Set_ o "labels" (Strings (cp_Labels p)) in
  let o := Set_ o "dependencies" (dependenciesValue (cp_Dependencies p)) in
  let o := Set_ o "acceptanceCriteria" (Strings (cp_AcceptanceCriteria p)) in
  let o := Set_ o "requirementRefs" (Strings (cp_RequirementRefs p)) in
  let o := Set_ o "source" (source_value (cp_Source p)) in
  let o := Set_ o "effects" (effects_value (cp_Effects p)) in
  let o := Set_ o "capabilities" (Strings (cp_Capabilities p)) in
  let o := Set_ o "requiredGates" (Strings (cp_RequiredGates p)) in
  let o := Set_ o "executionClass" (VString (cp_ExecutionClass p)) in
  let o := Set_ o "dueDate" (StringOrNull (cp_DueDate p)) in
  let o := Set_ o "estimateMinutes" (countOrNull (cp_EstimateMinutes p)) in
  let o := Set_ o "supersedes" (ticketOrNull (cp_Supersedes p)) in
  VObject (Set_ o "supersededBy" (ticketOrNull (cp_SupersededBy p))).

(** The member [k] of a REFINE payload. *)
Definition refine_member (p : RefinePayload) (k : string) : option Value :=
  if k =s "executionPrerequisites" then
    Some (if (length (rp_ExecutionPrerequisites p) =? 0)%nat then VNull else PrerequisitesValue (rp_ExecutionPrerequisites p))
  else if k =s "requiredRoles" then Some (match rp_RequiredRoles p with None => VNull | Some m => StageRolesValue m end)
  else if k =s "requiresPool" then Some (StringOrNull (rp_RequiresPool p))
  else if k =s "title" then Some (VString (rp_Title p))
  else if k =s "body" then Some (StringOrNull (rp_Body p))
  else if k =s "kind" then Some (VString (rp_Kind p))
  else if k =s "owner" then Some (StringOrNull (rp_Owner p))
  else if k =s "milestone" then Some (StringOrNull (rp_Milestone p))
  else if k =s "labels" then Some (Strings (rp_Labels p))
  else if k =s "acceptanceCriteria" then Some (Strings (rp_AcceptanceCriteria p))
  else if k =s "requirementRefs" then Some (Strings (rp_RequirementRefs p))
  else if k =s "dueDate" then Some (StringOrNull (rp_DueDate p))
  else if k =s "estimateMinutes" then Some (countOrNull (rp_EstimateMinutes p))
  else if k =s "supersedes" then Some (ticketOrNull (rp_Supersedes p))
  else if k =s "supersededBy" then Some (ticketOrNull (rp_SupersededBy p))
  else None.

Definition refine_value (p : RefinePayload) : Value :=
  VObject (foldl (λ o k, set_opt o k (refine_member p k)) NewObject (Refine_Keys p)).

Definition hold_payload_value (id reason : string) (condition : option HoldCondition) : Value :=
  let o := Set_ (Set_ NewObject "holdId" (VString id)) "reason" (VString reason) in
  VObject (set_opt o "condition" (HoldCondition_Value <$> condition)).

Definition grant_value (p : GrantApprovalPayload) : Value :=
  let o := Set_ NewObject "grantId" (VString (ga_GrantID p)) in
  let o := Set_ o "actor" (VString (ga_Actor p)) in
  let o := Set_ o "operation" (VString (ga_Operation p)) in
  let o := Set_ o "targetRevision" (VString (ga_TargetRevision p)) in
  VObject (Set_ o "scope" (Strings (ga_Scope p))).

Definition know_how_add_value (p : KnowHowAddPayload) : Value :=
  let o := Set_ NewObject "text" (VString (ka_Text p)) in
  let o := Set_ o "anchors" (KnowHowAnchorsValue (ka_Anchors p)) in
  let o := Set_ o "routes" (Strings (ka_Routes p)) in
  let o := Set_ o "commit" (VString (ka_Commit p)) in
  let o := Set_ o "supersedes" (countOrNull (ka_Supersedes p)) in
  let o := Set_ o "reason" (StringOrNull (ka_Reason p)) in
  let o := Set_ o "attempt" (StringOrNull (ka_Attempt p)) in
  let o := Set_ o "generation" (StringOrNull (ka_Generation p)) in
  let o := Set_ o "evidencePath" (StringOrNull (ka_EvidencePath p)) in
  VObject (set_opt o "repository" (when (negb (ka_Repository p =s ε)) (VString (ka_Repository p)))).

Definition know_how_reconfirm_value (note : string) (anchors : list KnowHowAnchor) (commit : string)
    (attempt generation : option string) : Value :=
  let o := Set_ NewObject "note" (VString note) in
  let o := Set_ o "anchors" (KnowHowAnchorsValue anchors) in
  let o := Set_ o "commit" (VString commit) in
  let o := Set_ o "attempt" (StringOrNull attempt) in
  VObject (Set_ o "generation" (StringOrNull generation)).

(** [p.value()] of an obligation payload. *)
Definition ObligationPayload_value (p : ObligationPayload) : Value :=
  match p with
  | PSeed p => ObligationSeedPayload_Value p
  | PSet p => ObligationSetPayload_Value p
  | PWitness p => ObligationWitnessPayload_Value p
  end.

Definition PayloadValue (p : Payload) : Value :=
  match p with
  | PCreate p => create_value p
  | PRefine p => refine_value p
  | PPrioritize priority order => VObject (Set_ (Set_ NewObject "priority" (VString priority)) "order" (VString order))
  | PSetDependencies ds => VObject (Set_ NewObject "dependencies" (dependenciesValue ds))
  | PSetGates gs => VObject (Set_ NewObject "requiredGates" (Strings gs))
  | PSetEffects e cs class =>
      VObject (Set_ (Set_ (Set_ NewObject "effects" (effects_value e)) "capabilities" (Strings cs)) "executionClass" (VString class))
  | PHold id reason condition => hold_payload_value id reason condition
  | PReleaseHold id => VObject (Set_ NewObject "holdId" (VString id))
  | PReason _ reason => VObject (Set_ NewObject "reason" (VString reason))
  | PCompleteManual reason evidence =>
      VObject (Set_ (Set_ NewObject "reason" (VString reason)) "evidence" (Strings evidence))
  | PGrantApproval p => grant_value p
  | PRevokeApproval id reason => VObject (Set_ (Set_ NewObject "grantId" (VString id)) "reason" (VString reason))
  | PAttachEvidence evidence reason =>
      VObject (Set_ (Set_ NewObject "evidence" (DigestsValue evidence)) "reason" (VString reason))
  | PProgressSet m => VObject (ProgressMarkValue NewObject m)
  | PKnowHowAdd p => know_how_add_value p
  | PKnowHowRetract note reason => VObject (Set_ (Set_ NewObject "note" (VString note)) "reason" (VString reason))
  | PKnowHowReconfirm note anchors commit attempt generation => know_how_reconfirm_value note anchors commit attempt generation
  | PNote op text supersedes =>
      VObject (Set_ (set_opt NewObject "text" (when (op =s OpNoteSet) (VString text))) "supersedes" (countOrNull supersedes))
  | PReview _ request => VObject (Set_ NewObject "request" request)
  | PObligations _ p => ObligationPayload_value p
  end.

(** [e.Value()] *)
Definition Envelope_Value (e : Envelope) : Value :=
  let o := Set_ NewObject "profile" (VString Profile) in
  let o := Set_ o "requestId" (VString (env_RequestID e)) in
  let o := Set_ o "actor" (VObject (Set_ (Set_ NewObject "id" (VString (env_ActorID e))) "role" (VString (env_ActorRole e)))) in
  let o := Set_ o "queueId" (VString (QueueID_Raw (env_QueueID e))) in
  let o := Set_ o "targetId" (ticketOrNull (env_TargetID e)) in
  let o := Set_ o "expectedRevision" (countOrNull (env_ExpectedRevision e)) in
  let o := Set_ o "operation" (VString (env_Operation e)) in
  let o := Set_ o "payload" (PayloadValue (env_Payload e)) in
  VObject (Set_ o "issuedAt" (VString (env_IssuedAt e))).
