(* ===== verification/Outcomes.v ===== *)
(** * Outcomes and replay

    [outcome.go] and [replay.go] of [src/internal/tasks/mutation]: the outcome
    of a mutation with its codec, and the rule that answers a repeated request
    from the index of recorded ones.

    A method call on a nil object panics; [NilPanic] stands for it. *)

From S2P Require Import Prelude Utf8 GoStd Codes Limits Value Primitives Ids Parse Reader Ticket Inventory Marks.
From S2P Require Import KnowHow RecordCodec Mutation.
Local Open Scope Z_scope.
Local Open Scope go_scope.

(** How a call ends that returns no value: an error, or a panic. *)
Inductive failure (E : Type) : Type :=
  | Raised (e : E)
  | NilPanic.
Arguments Raised {E} e.
Arguments NilPanic {E}.

(** A call that does not panic. *)
Definition raising {E A} (x : outcome E A) : outcome (failure E) A :=
  match x with Ok a => Ok a | Err e => Err (Raised e) | OutOfFuel => OutOfFuel end.

(** ** The document *)

Definition OutcomeProfile : string := "taskman-outcome/0".

Definition OutcomeCompleted : string := "COMPLETED".
Definition OutcomeRevisionConflict : string := "REVISION_CONFLICT".
Definition OutcomeValidationFailed : string := "VALIDATION_FAILED".
Definition OutcomeUnauthorized : string := "UNAUTHORIZED".
Definition OutcomeBlocked : string := "BLOCKED".
Definition OutcomeUnsupported : string := "UNSUPPORTED".
Definition OutcomeCapacityExhausted : string := "CAPACITY_EXHAUSTED".
Definition OutcomeUncertainEffect : string := "UNCERTAIN_EFFECT".
Definition OutcomeRequestIDConflict : string := "REQUEST_ID_CONFLICT".
Definition OutcomeStorageFailed : string := "STORAGE_FAILED".

Definition Outcomes_ : list string :=
  [OutcomeCompleted; OutcomeRevisionConflict; OutcomeValidationFailed; OutcomeUnauthorized; OutcomeBlocked;
   OutcomeUnsupported; OutcomeCapacityExhausted; OutcomeUncertainEffect; OutcomeRequestIDConflict; OutcomeStorageFailed].

Record Outcome := mkOutcome {
  out_RequestID : string; out_Outcome : string; out_Replayed : bool; out_ResultingRevision : option string;
  out_ResultingAcceptanceRevision : option string; out_ReleaseID : option string;
  out_ResultingReleaseRevision : option string; out_ReceiptSeq : option string; out_Codes : list string
}.

(** [sortedUnique]: each string once, sorted. *)
Definition sortedUnique (ss : list string) : list string :=
  SortStrings (foldl (λ out s, if existsb (String.eqb s) out then out else out ++ [s]) [] ss).

Definition Outcome_Value (o : Outcome) : Value :=
  let v := Set_ NewObject "profile" (VString OutcomeProfile) in
  let v := Set_ v "requestId" (VString (out_RequestID o)) in
  let v := Set_ v "outcome" (VString (out_Outcome o)) in
  let v := Set_ v "replayed" (VBool (out_Replayed o)) in
  let v := Set_ v "resultingRevision" (countOrNull (out_ResultingRevision o)) in
  let v := Set_ v "resultingAcceptanceRevision" (countOrNull (out_ResultingAcceptanceRevision o)) in
  let v := match out_ReleaseID o with
    | Some id => Set_ (Set_ v "releaseId" (VString id)) "resultingReleaseRevision" (countOrNull (out_ResultingReleaseRevision o))
    | None => v end in
  let v := Set_ v "receiptSeq" (StringOrNull (out_ReceiptSeq o)) in
  VObject (Set_ v "codes" (Strings (sortedUnique (out_Codes o)))).

(** [v.Obj.Set(key, Null())] unless the member is there. *)
Definition fill_null (o : Object) (key : string) : Object :=
  match Get o key with Some _ => o | None => Set_ o key VNull end.

Definition outcome_keys : list string :=
  ["profile"; "requestId"; "outcome"; "replayed"; "resultingRevision"; "resultingAcceptanceRevision"; "releaseId";
   "resultingReleaseRevision"; "receiptSeq"; "codes"].

(** A member read by a reader of its own, whose failure nobody asks for. *)
Definition read_aside {A} (m : Reader → M (option A)) (o : Object) (key : string) : option A :=
  match Get o key with Some v => (m (NewReader v ("/" +:+ key)) st0).1 | None => None end.

Definition read_code (c : Reader) : M string :=
  s ← String_ c;
  e ← failed;
  _ ← (if negb (e : bool) && negb (IsCode s) then Fail c CodeMalformed "unknown code %q" [AStr s] else mret tt);
  mret s.

Definition read_outcome (r : Reader) (o : Object) : M Outcome :=
  f ← Field r "requestId"; id ← readRequestID f;
  f ← Field r "outcome"; outcome ← Enum f Outcomes_;
  f ← Field r "replayed"; replayed ← Bool_ f;
  f ← Field r "resultingRevision"; revision ← CountOrNull f;
  f ← Field r "resultingAcceptanceRevision"; acceptance ← CountOrNull f;
  f ← Field r "receiptSeq"; seq ← SizeOrNull f;
  f ← Field r "codes"; codes ← Reader_Strings f (-1) false read_code;
  mret (mkOutcome id outcome replayed revision acceptance (read_aside LabelOrNull o "releaseId")
    (read_aside CountOrNull o "resultingReleaseRevision") seq codes).

(** The checks between members. *)
Definition outcome_checks (o : Outcome) : option Error :=
  let completed := out_Outcome o =s OutcomeCompleted in
  let ticketShape := some (out_ResultingRevision o) || some (out_ResultingAcceptanceRevision o) in
  let releaseShape := some (out_ReleaseID o) || some (out_ResultingReleaseRevision o) in
  first_error_of
    [ reject (completed && negb (Bool.eqb (some (out_ResultingRevision o)) (some (out_ResultingAcceptanceRevision o))))
        (Errorf CodeMalformed "/resultingRevision" "COMPLETED carries both resulting revisions or neither" []);
      reject (negb completed && ticketShape)
        (Errorf CodeMalformed "/resultingRevision" "a refused outcome carries no resulting revision" []);
      reject (negb (Bool.eqb (some (out_ReleaseID o)) (some (out_ResultingReleaseRevision o))))
        (Errorf CodeMalformed "/releaseId" "release outcome carries both release identity fields or neither" []);
      reject (ticketShape && releaseShape)
        (Errorf CodeMalformed "/releaseId" "ticket and release result fields are mutually exclusive" []);
      reject (negb completed && releaseShape)
        (Errorf CodeMalformed "/releaseId" "a refused outcome carries no release result" []) ].

(** [DecodeOutcome] of a document; a value that is no object has a nil
    [Obj]. *)
Definition outcome_of_value (v : Value) : outcome (failure Error) Outcome :=
  match v with
  | VObject o =>
      let o := fill_null (fill_null o "releaseId") "resultingReleaseRevision" in
      let r := NewReader (VObject o) "/" in
      raising (
        try ProfileVersion "/profile" (VObject o) OutcomeProfile;
        let* _ := run (Closed r outcome_keys) st0 in
        let '(profile, st) := (f ← Field r "profile"; String_ f) st0 in
        try CheckProfile "/profile" profile OutcomeProfile;
        let* out := run (read_outcome r o) st in
        try outcome_checks out;
        Ok out)
  | _ => Err NilPanic
  end.

Definition DecodeOutcome (data : string) : outcome (failure Error) Outcome :=
  if MaxOutcomeBytes <? slen data then
    Err (Raised (Errorf CodeLimitExceeded "/" "outcome larger than %d bytes" [AInt MaxOutcomeBytes]))
  else
    let* v := raising (Parse data) in
    outcome_of_value v.

Definition Outcome_Encode (o : Outcome) : outcome (failure Error) string :=
  let raw := EncodeFile (Outcome_Value o) in
  let* _ := DecodeOutcome raw in
  Ok raw.

(** [o.HasCode(code)] *)
Definition HasCode (o : Outcome) (code : string) : bool := existsb (λ c, c =s code) (out_Codes o).

(** ** The request index *)

Record IndexEntry := mkIndexEntry { ie_RequestID : string; ie_MutationSha256 : string; ie_Outcome : Outcome }.

(** An index answers a lookup, or fails; [None] is a nil index. *)
Definition RequestIndex : Type := option (string → goerror + option IndexEntry).

Definition missingIndex (index : RequestIndex) : bool := is_none index.

(** The index of the tests: a map of the entries recorded. *)
Definition MemoryIndex : Type := gmap string IndexEntry.

Definition MemoryIndex_Lookup (m : MemoryIndex) (id : string) : goerror + option IndexEntry := inr (m !! id).

Definition MemoryIndex_Record (m : MemoryIndex) (e : IndexEntry) : res MemoryIndex :=
  match m !! ie_RequestID e with
  | Some _ => Err (Errorf CodeRequestIDConflict "/requestId" "request %q is already recorded" [AStr (ie_RequestID e)])
  | None => Ok (<[ie_RequestID e := e]> m)
  end.

(** An outcome with no results. *)
Definition bare_outcome (id outcome : string) (codes : list string) : Outcome :=
  mkOutcome id outcome false None None None None None codes.

Definition replayed_outcome (o : Outcome) : Outcome :=
  mkOutcome (out_RequestID o) (out_Outcome o) true (out_ResultingRevision o) (out_ResultingAcceptanceRevision o)
    (out_ReleaseID o) (out_ResultingReleaseRevision o) (out_ReceiptSeq o) (out_Codes o).

Definition replay (index : RequestIndex) (requestID digest : string) : option Outcome :=
  match index with
  | None => Some (bare_outcome requestID OutcomeValidationFailed [CodeMalformed])
  | Some lookup =>
      match lookup requestID with
      | inl err => Some (bare_outcome requestID OutcomeStorageFailed [CodeOf (Some err)])
      | inr None => None
      | inr (Some e) =>
          if ie_MutationSha256 e =s digest then Some (replayed_outcome (ie_Outcome e))
          else Some (bare_outcome requestID OutcomeRequestIDConflict [CodeRequestIDConflict])
      end
  end.
