(* ===== verification/Screen.v ===== *)
(** * The value screen

    [value_screen.go] of [src/internal/tasks/mutation]: which of the adopter's
    declared values or personal-data classes a text matches.  The regular
    expressions are those of the source, run by the matcher below as Go's
    [regexp] runs them: the leftmost match, and of its alternatives the first
    in preference order.  Their classes are of ASCII bytes, so bytes serve for
    code points.  Reading the values file is not modelled. *)

From S2P Require Import Prelude Utf8 GoStd Codes.
Local Open Scope Z_scope.
Local Open Scope go_scope.

(** ** Regular expressions *)

Inductive regex : Type :=
  | RByte (f : ascii → bool)
  | RSeq (a b : regex)
  | RRep (r : regex) (min : nat) (more : option nat).  (* greedy: [min], then up to [more] *)

(** The ends of the matches of [r] at the start of [s], in order of
    preference: what is left of [s] after each. *)
Fixpoint ends (r : regex) (s : string) : list string :=
  match r with
  | RByte f => match s with String c s' => if f c then [s'] else [] | ε => [] end
  | RSeq a b => flat_map (ends b) (ends a s)
  | RRep r min more =>
      let fix up_to (k : nat) (s : string) : list string :=
        match k with
        | O => [s]
        | S k => flat_map (λ s', if (String.length s' <? String.length s)%nat then up_to k s' else []) (ends r s) ++ [s]
        end in
      let fix at_least (n : nat) (s : string) : list string :=
        match n with
        | O => up_to (default (String.length s) more) s
        | S n => flat_map (at_least n) (ends r s)
        end in
      at_least min s
  end.

(** [re.MatchString(s)] *)
Fixpoint MatchRegex (r : regex) (s : string) : bool :=
  match ends r s with
  | _ :: _ => true
  | [] => match s with String _ s' => MatchRegex r s' | ε => false end
  end.

(** [re.FindAllStringIndex(s, -1)] of an expression without empty matches,
    from the index [i]. *)
Fixpoint find_all (fuel : nat) (r : regex) (i : nat) (s : string) : list (nat * nat) :=
  match fuel with
  | O => []
  | S fuel =>
      match ends r s with
      | rest :: _ =>
          let j := (i + (String.length s - String.length rest))%nat in
          (i, j) :: find_all fuel r j rest
      | [] => match s with String _ s' => find_all fuel r (S i) s' | ε => [] end
      end
  end.

Definition FindAllStringIndex (r : regex) (s : string) : list (nat * nat) := find_all (S (String.length s)) r 0 s.

Fixpoint rseq (rs : list regex) : regex :=
  match rs with
  | [] => RRep (RByte (λ _, false)) 0 (Some 0%nat)
  | [r] => r
  | r :: rs => RSeq r (rseq rs)
  end.

Definition rone (c : ascii) : regex := RByte (Ascii.eqb c).
Definition ropt (r : regex) : regex := RRep r 0 (Some 1%nat).
Definition rplus (r : regex) : regex := RRep r 1 None.

Definition isDigit (b : ascii) : bool := between "0" "9" b.
Definition isLetter (c : ascii) : bool := between "A" "Z" c || between "a" "z" c.
Definition of_bytes (bs : string) (c : ascii) : bool := str_exists (Ascii.eqb c) bs.

Definition rdigit : regex := RByte isDigit.
Definition host_byte (c : ascii) : bool := isLetter c || isDigit c || (c =b "-").

Definition emailShape : regex :=
  rseq [rplus (RByte (λ c, isLetter c || isDigit c || of_bytes "._%+-" c)); rone "@"; rplus (RByte host_byte);
        RRep (RSeq (rone ".") (rplus (RByte host_byte))) 0 None; rone "."; RRep (RByte isLetter) 2 None].

Definition phoneShapes : list regex :=
  [ rseq [rone "+"; rdigit; RRep (RSeq (ropt (RByte (of_bytes " .-"))) rdigit) 9 (Some 5%nat)];
    rseq [ropt (rone "("); RRep rdigit 3 (Some 0%nat); ropt (rone ")"); RByte (of_bytes " .-"); RRep rdigit 3 (Some 0%nat);
          RByte (of_bytes " .-"); RRep rdigit 4 (Some 0%nat)] ].

Definition cardShape : regex := RSeq rdigit (RRep (RSeq (ropt (RByte (of_bytes " -"))) rdigit) 12 (Some 6%nat)).

(** ** Matching *)

(** The digits from the right: their sum, every second one doubled. *)
Fixpoint luhn_sum (digits : list Z) (double : bool) : Z :=
  match digits with
  | [] => 0
  | d :: ds =>
      (if double then (if 9 <? d * 2 then d * 2 - 9 else d * 2) else d) + luhn_sum ds (negb double)
  end.

Fixpoint digits_of (s : string) : list Z :=
  match s with
  | ε => []
  | String c s' => if isDigit c then (code c - 48) :: digits_of s' else digits_of s'
  end.

Definition luhn (s : string) : bool := luhn_sum (rev (digits_of s)) false mod 10 =? 0.

Definition digit_at (s : string) (i : nat) : bool := match String.get i s with Some c => isDigit c | None => false end.

Definition digitBounded (s : string) (re : regex) (check : option (string → bool)) : bool :=
  existsb (λ m,
    negb ((0 <? m.1)%nat && digit_at s (m.1 - 1)) && negb (digit_at s m.2) &&
    match check with Some f => f (String.substring m.1 (m.2 - m.1) s) | None => true end)
    (FindAllStringIndex re s).

Definition ScreenClassDenyValue : string := "DENY_VALUE".
Definition ScreenClassEmail : string := "EMAIL".
Definition ScreenClassPhone : string := "PHONE".
Definition ScreenClassCard : string := "CARD".

Record ValueScreen := mkValueScreen { vs_values : list string; vs_classes : list string }.

Definition class_matches (s c : string) : bool :=
  if c =s ScreenClassEmail then MatchRegex emailShape s
  else if c =s ScreenClassPhone then existsb (λ re, digitBounded s re None) phoneShapes
  else if c =s ScreenClassCard then digitBounded s cardShape (Some luhn)
  else false.

(** [v.Match(s)]; a nil screen is [None]. *)
Definition ValueScreen_Match (v : option ValueScreen) (s : string) : string :=
  match v with
  | None => ε
  | Some v =>
      if s =s ε then ε
      else if existsb (strings.Contains s) (vs_values v) then ScreenClassDenyValue
      else default ε (head (filter (λ c, class_matches s c = true) (vs_classes v)))
  end.

Example phone_shape_matches : ValueScreen_Match (Some (mkValueScreen [] [ScreenClassPhone])) "call (020) 555 0100x" = ScreenClassPhone.
Proof. vm_compute. reflexivity. Qed.

Example email_shape_matches : ValueScreen_Match (Some (mkValueScreen [] ["CARD"; "EMAIL"])) "a.b@c-d.e.org" = ScreenClassEmail.
Proof. vm_compute. reflexivity. Qed.

Example card_shape_matches :
  (λ s, ValueScreen_Match (Some (mkValueScreen ["s3cret-value"] [ScreenClassCard])) s) <$>
    ["4111 1111 1111 1111"; "4111 1111 1111 1112"; "41111111111111111111"; "my s3cret-value"] = [ScreenClassCard; ε; ε; ScreenClassDenyValue].
Proof. vm_compute. reflexivity. Qed.
