(* ===== verification/Writer.v ===== *)
(** * The ticket writer: contexts, plans and one operation

    [apply.go], [know_how.go], [know_how_provenance.go] and
    [value_screen.go] of [src/internal/tasks/mutation]: the facts a mutation
    depends on, the plan it results in, and [step], which applies one
    operation to a working record.

    A refusal ends a computation, as the error of the monad [W] does here;
    reading a closed ticket that fails to load panics.  [Get] keeps what it
    loads in the inventory; what a later read answers is the same, so the
    writer reads one inventory.  A refusal's detail is its format and
    arguments.  The secret screen of [src/internal/secretscreen] is the
    parameter [secret]; the attempt oracle and the request index are
    interfaces the caller implements. *)

From S2P Require Import Prelude View Utf8 GoStd Codes Limits Value Primitives Ids Parse Reader Ticket Inventory Collision Marks.
From S2P Require Import KnowHow RecordParts RecordCodec Obligations ObligationEvents ObligationLedger Intent Updates.
From S2P Require Import Mutation Outcomes Screen.
Local Open Scope Z_scope.
Local Open Scope go_scope.

(** ** Refusals *)

Record refusal := mkRefusal { rf_outcome : string; rf_code : string; rf_detail : string; rf_args : list fmtarg }.

(** Why a computation stops. *)
Inductive stop : Type :=
  | Refuse (r : refusal)
  | MaterializePanic (e : goerror)
  | NilPointer.

Definition W (A : Type) : Type := outcome stop A.

(** A check, then what follows it. *)
Notation "m ;;; k" := (obind m (λ _ : unit, k)) (at level 100, right associativity) : go_scope.

Definition refuse {A} (outcome code format : string) (args : list fmtarg) : W A := Err (Refuse (mkRefusal outcome code format args)).

(** [refuseErr(err)] *)
Definition refuseErr {A} (err : goerror) : W A :=
  let code := CodeOf (Some err) in
  refuse (if code =s CodeUnsupportedVersion then OutcomeUnsupported else OutcomeValidationFailed) code "%v" [AMsg err].

(** A computation whose errors are refused with [refuseErr]. *)
Definition or_refuse {A} (x : res A) : W A :=
  match x with Ok a => Ok a | Err e => refuseErr (EWire e) | OutOfFuel => OutOfFuel end.

Definition refuse_error (e : option Error) : W unit := match e with Some e => refuseErr (EWire e) | None => Ok tt end.

(** [inv.Get(id)] *)
Definition get (inv : Inventory) (id : string) : W (option Record_) :=
  match (Inventory_Get inv id).2 with
  | Found r => Ok (Some r)
  | Absent => Ok None
  | MaterializeError e => Err (MaterializePanic e)
  | NilLoader => Err NilPointer
  end.

(** ** The context *)

Record Binding := { b_ID : string; b_Role : string }.

Definition Binding_validate (b : Binding) : W unit :=
  if (b_ID b =s ε) && (b_Role b =s ε) then
    refuse OutcomeUnauthorized ε "no trusted actor binding: the envelope actor is a claim, not authentication" []
  else match ParseLabel "/binding/id" (b_ID b) with
  | Err e => refuse OutcomeUnauthorized ε "trusted binding id is not a label: %v" [AMsg (EWire e)]
  | _ =>
      if existsb (String.eqb (b_Role b)) Roles then Ok tt
      else refuse OutcomeUnauthorized ε "trusted binding role %q is not a §3.3 role" [AStr (b_Role b)]
  end.

Record RetryRecovery := {
  rr_TicketID : string; rr_AcceptanceRevision : string; rr_State : string; rr_Phase : string; rr_Reason : string
}.

Record AttemptProvenance := {
  ap_TicketID : TicketID; ap_Generation : string; ap_Prior : list string; ap_Live : bool; ap_Holder : string
}.

(** A nil ledger is [None]. *)
Definition AttemptLedger : Type := option (gmap string AttemptProvenance).

Record ExternalReviewPost := {
  xr_GateID : string; xr_Ref : ExternalReviewRef; xr_Event : option string; xr_Outcome : string; xr_Code : string; xr_Detail : string
}.

(** [orc_IDs] is [None] when nil. *)
Record ObligationReportCheck := {
  orc_ReportSha256 : string; orc_PlaywrightVersion : string; orc_Commit : string; orc_IDs : option (list string);
  orc_Eligible : gmap string (list ObligationMatch); orc_TestRepository : string; orc_TestRepositoryPath : string
}.

(** [PriorNoteEvent] is empty when nil. *)
Record MutationContext := mkContext {
  ctx_Binding : Binding; ctx_Queue : option Queue; ctx_Policy : option Policy; ctx_Inventory : option Inventory;
  ctx_Attempts : option AttemptOracle; ctx_RetryRecovery : option RetryRecovery; ctx_Requests : RequestIndex; ctx_Now : string;
  ctx_PriorNoteEvent : string; ctx_ExternalReview : option ExternalReviewPost; ctx_KnowHowAttempts : AttemptLedger;
  ctx_ObligationEvents : gmap string string; ctx_ObligationReport : option ObligationReportCheck;
  ctx_ObligationReplay : bool; ctx_Screen : option ValueScreen
}.

(** ** Plans *)

(** [pl_DerivedEvent] is [None] when nil. *)
Record Plan := mkPlan {
  pl_Outcome : Outcome; pl_MutationSha256 : string; pl_Detail : string; pl_Args : list fmtarg;
  pl_Pre : option Record_; pl_Post : option Record_; pl_QueuePost : option Queue; pl_Composed : list string;
  pl_DerivedEvent : option string
}.

Definition eta_plan (p : Plan) : Plan :=
  {| pl_Outcome := pl_Outcome p; pl_MutationSha256 := pl_MutationSha256 p; pl_Detail := pl_Detail p; pl_Args := pl_Args p;
     pl_Pre := pl_Pre p; pl_Post := pl_Post p; pl_QueuePost := pl_QueuePost p; pl_Composed := pl_Composed p;
     pl_DerivedEvent := pl_DerivedEvent p |}.

#[export] Instance set_pl_Outcome : Setter pl_Outcome.
Proof. setter eta_plan pl_Outcome. Defined.
#[export] Instance set_pl_MutationSha256 : Setter pl_MutationSha256.
Proof. setter eta_plan pl_MutationSha256. Defined.
#[export] Instance set_pl_Pre : Setter pl_Pre.
Proof. setter eta_plan pl_Pre. Defined.
#[export] Instance set_pl_QueuePost : Setter pl_QueuePost.
Proof. setter eta_plan pl_QueuePost. Defined.
#[export] Instance set_pl_Composed : Setter pl_Composed.
Proof. setter eta_plan pl_Composed. Defined.
#[export] Instance set_pl_DerivedEvent : Setter pl_DerivedEvent.
Proof. setter eta_plan pl_DerivedEvent. Defined.

Definition zero_plan (requestID : string) : Plan := mkPlan (bare_outcome requestID ε []) ε ε [] None None None [] None.

(** [p.Planned()] *)
Definition Planned (p : Plan) : bool :=
  (out_Outcome (pl_Outcome p) =s OutcomeCompleted) && negb (out_Replayed (pl_Outcome p)) && some (pl_Post p).

(** [p.refused(r)] *)
Definition refused (p : Plan) (r : refusal) : Plan :=
  let o := pl_Outcome p in
  mkPlan (mkOutcome (out_RequestID o) (rf_outcome r) false None None (out_ReleaseID o) (out_ResultingReleaseRevision o) None
            (if rf_code r =s ε then [] else [rf_code r]))
    (pl_MutationSha256 p) (rf_detail r) (rf_args r) (pl_Pre p) None None (pl_Composed p) None.

(** [p.completed(post)] *)
Definition completed (p : Plan) (post : Record_) : Plan :=
  let o := pl_Outcome p in
  mkPlan (mkOutcome (out_RequestID o) OutcomeCompleted false (Some (rec_Revision post)) (Some (rec_AcceptanceRevision post))
            (out_ReleaseID o) (out_ResultingReleaseRevision o) None [])
    (pl_MutationSha256 p) (pl_Detail p) (pl_Args p) (pl_Pre p) (Some post) (pl_QueuePost p) (pl_Composed p) (pl_DerivedEvent p).

(** [if r := m; r != nil { return plan.refused(r) }], then [k]. *)
Definition orelse {A} (plan : Plan) (m : W A) (k : A → W Plan) : W Plan :=
  match m with
  | Ok a => k a
  | Err (Refuse r) => Ok (refused plan r)
  | Err s => Err s
  | OutOfFuel => OutOfFuel
  end.

Notation "'let?' x := m 'else' plan 'in' k" := (orelse plan m (λ x, k))
  (at level 10, x pattern, m at level 100, plan at level 0, k at level 200) : go_scope.

(** ** Fields by their bytes *)

(** [v.Obj.Get(key)]: the zero value is null. *)
Definition member (v : Value) (key : string) : Value := match v with VObject o => default VNull (Get o key) | _ => VNull end.

Definition fieldChanged (pre post : Record_) (field : string) : bool :=
  negb (Equal (member (Record_Value pre) field) (member (Record_Value post) field)).

Definition acceptanceChanged (pre post : Record_) : bool := existsb (fieldChanged pre post) AcceptanceRelevantFields.

(** ** Predicates *)

Definition opens (rec : Record_) : bool :=
  (0 <? length (rec_AcceptanceCriteria rec))%nat || (rec_Kind rec =s "MANUAL") || (rec_Kind rec =s "EXTERNAL").

Definition isLive (status : string) : bool :=
  (status =s StatusDraft) || (status =s StatusOpen) || (status =s StatusHeld).

Definition forcesAcceptanceBump (op : string) : bool := (op =s OpReopen) || (op =s OpRestore) || (op =s OpCompleteManual).

(** ** Attempt provenance *)

Definition provenance_error (where_ msg : string) : option Error := Some (Errorf CodeProvenanceUnverified where_ msg []).

Definition CheckKnowHowProvenance (ledger : AttemptLedger) (home : TicketID) (attempt generation : option string) : option Error :=
  match attempt, generation with
  | None, None => None
  | None, Some _ => provenance_error "/payload/generation" "a know-how generation requires the attempt it belongs to"
  | Some id, _ =>
      match ledger with
      | None => provenance_error "/payload/attempt" "the attempt inventory was not observed; the asserted attempt cannot be verified"
      | Some m =>
          match m !! id with
          | None => provenance_error "/payload/attempt" "the asserted attempt is not in the audited attempt inventory"
          | Some a =>
              if negb (TicketID_Raw (ap_TicketID a) =s TicketID_Raw home) then
                provenance_error "/payload/attempt" "the asserted attempt belongs to another ticket"
              else match generation with
              | None => None
              | Some g =>
                  if (g =s ap_Generation a) || existsb (String.eqb g) (ap_Prior a) then None
                  else provenance_error "/payload/generation" "the asserted generation is not a recorded generation of the attempt"
              end
          end
      end
  end.

(** [ledger[id]]: the zero value if it is absent. *)
Definition zero_attempt : AttemptProvenance :=
  {| ap_TicketID := zeroTicketID; ap_Generation := ε; ap_Prior := []; ap_Live := false; ap_Holder := ε |}.

Definition attempt_of (ledger : AttemptLedger) (id : string) : AttemptProvenance :=
  match ledger with Some m => default zero_attempt (m !! id) | None => zero_attempt end.

(** The attempt is live at [generation] under a lease. *)
Definition live_generation (a : AttemptProvenance) (generation : string) : bool :=
  ap_Live a && negb (ap_Holder a =s ε) && (ap_Generation a =s generation).

(** ** Screens *)

Definition ValueScreenDetail : string := "VALUE_SCREEN_MATCHED".

(** A field of a write: its name and its text. *)
Definition screenValues (v : option ValueScreen) (fields : list (string * string)) : W unit :=
  match v with
  | None => Ok tt
  | Some _ =>
      match filter (λ f, ValueScreen_Match v f.2 ≠ ε) fields with
      | [] => Ok tt
      | (name, text) :: _ =>
          refuse OutcomeValidationFailed CodeSecretDetected
            "%s: %s matches the declared screen class %s; remove it and retry with a new request ID"
            [AStr ValueScreenDetail; AStr name; AStr (ValueScreen_Match v text)]
      end
  end.

Definition KnowHowSecretDetail : string := "KNOWHOW_SECRET_DETECTED".

Definition text_fields (text reason : option string) : list (string * string) :=
  match text with Some s => [("text", s)] | None => [] end ++ match reason with Some s => [("reason", s)] | None => [] end.

Definition knowHowScreenFields (fields : list (string * string)) (anchors : list KnowHowAnchor) (routes : list string)
    (evidencePath : option string) : list (string * string) :=
  ((λ f, ("/payload/" +:+ f.1, f.2)) <$> fields) ++ ((λ r, ("/payload/routes", r)) <$> routes) ++
  flat_map (λ a, [("/payload/anchors", kha_Path a); ("/payload/anchors", kha_Symbol a)]) anchors ++
  match evidencePath with Some p => [("/payload/evidencePath", p)] | None => [] end.

Section writer.
Context (sha256 : string → string) (secret : string → bool) (ord : bool).

(** [screenKnowHowPaths] *)
Definition screenKnowHowPaths (anchors : list KnowHowAnchor) (routes : list string) (evidencePath : option string) : W unit :=
  let extra := routes ++ flat_map (λ a, kha_Path a :: if kha_Symbol a =s ε then [] else [kha_Symbol a]) anchors ++
    match evidencePath with Some p => [p] | None => [] end in
  if existsb secret extra then
    refuse OutcomeValidationFailed CodeSecretDetected "%s: a route or path in /payload matches the secret screen"
      [AStr KnowHowSecretDetail]
  else Ok tt.

(** [screenKnowHow(fields, nil)] *)
Definition screenKnowHow (fields : list (string * string)) : W unit :=
  match filter (λ f, secret f.2 = true) fields with
  | [] => Ok tt
  | (name, _) :: _ =>
      refuse OutcomeValidationFailed CodeSecretDetected
        "%s: /payload/%s matches the secret screen; remove the secret and retry with a new request ID"
        [AStr KnowHowSecretDetail; AStr name]
  end.

(** [v.noteScreen(text)] *)
Definition noteScreen (v : option ValueScreen) (text : string) : W unit :=
  match v with
  | None => Ok tt
  | Some _ =>
      if secret text then
        refuse OutcomeValidationFailed CodeSecretDetected
          "%s: /payload/text matches the secret screen; remove the secret and retry with a new request ID" [AStr ValueScreenDetail]
      else screenValues v [("/payload/text", text)]
  end.

(** [clone(rec)] *)
Definition clone (rec : Record_) : res Record_ := FromValue ord (Record_Value rec).

(** The clone of the canonical record, its error refused. *)
Definition clone_canonical (pre : Record_) : W Record_ :=
  match clone pre with
  | Ok r => Ok r
  | Err e => refuse OutcomeValidationFailed (CodeOf (Some (EWire e))) "canonical record is not valid: %v" [AMsg (EWire e)]
  | OutOfFuel => OutOfFuel
  end.

(** ** The facts of one mutation *)

(** The context, and its queue, policy and inventory, which
    [checkInputs] finds not nil. *)
Context (ctx : MutationContext) (queue : Queue) (policy : Policy) (inv : Inventory).

Let actor : string := b_ID (ctx_Binding ctx).
Let role_ : string := b_Role (ctx_Binding ctx).

Definition permittedOps (role : string) : list string :=
  match pol_Roles policy !! role with
  | Some ops => ops
  | None =>
      if role =s "WORKER" then
        DefaultRoleMatrix role ++ (if WorkerKnowHowAdd policy then [OpKnowHowAdd] else []) ++
        (if WorkerObligationWitness policy then [OpObligationsWitness] else [])
      else DefaultRoleMatrix role
  end.

Definition checkRole (op : string) : W unit :=
  if existsb (λ o, o =s op) (permittedOps role_) then Ok tt
  else refuse OutcomeUnauthorized ε "role %s may not issue %s" [AStr role_; AStr op].

(** ** Know-how *)

Definition KnowHowWorkerSupersede : string := "KNOWHOW_WORKER_SUPERSEDE".
Definition KnowHowWorkerAttemptRequired : string := "KNOWHOW_WORKER_ATTEMPT_REQUIRED".
Definition KnowHowWorkerAttemptStale : string := "KNOWHOW_WORKER_ATTEMPT_STALE".
Definition KnowHowWorkerAttemptForeign : string := "KNOWHOW_WORKER_ATTEMPT_FOREIGN".
Definition KnowHowWorkerAnchorScope : string := "KNOWHOW_WORKER_ANCHOR_OUT_OF_SCOPE".

(** The index of the first anchor outside the touch paths. *)
Fixpoint uncovered_anchor (touch : list string) (i : Z) (anchors : list KnowHowAnchor) : option Z :=
  match anchors with
  | [] => None
  | a :: anchors' =>
      if existsb (λ tp, PathCovers tp (kha_Path a)) touch then uncovered_anchor touch (i + 1) anchors' else Some i
  end.

Definition workerKnowHowScope (work : Record_) (p : KnowHowAddPayload) : W unit :=
  match ka_Supersedes p, ka_Attempt p, ka_Generation p with
  | Some _, _, _ =>
      refuse OutcomeUnauthorized ε "%s: WORKER may not supersede a know-how note" [AStr KnowHowWorkerSupersede]
  | None, Some attempt, Some generation =>
      let* _ := refuse_error (CheckKnowHowProvenance (ctx_KnowHowAttempts ctx) (rec_TicketID work) (ka_Attempt p) (ka_Generation p)) in
      let a := attempt_of (ctx_KnowHowAttempts ctx) attempt in
      if negb (live_generation a generation) then
        refuse OutcomeRevisionConflict CodeFenced
          "%s: /payload/attempt and /payload/generation do not name a live attempt generation" [AStr KnowHowWorkerAttemptStale]
      else if negb (ap_Holder a =s actor) then
        refuse OutcomeUnauthorized ε "%s: /payload/attempt is not held by the acting binding" [AStr KnowHowWorkerAttemptForeign]
      else match uncovered_anchor (eff_TouchPaths (rec_Effects work)) 0 (ka_Anchors p) with
      | Some i =>
          refuse OutcomeBlocked CodeOutOfScope "%s: /payload/anchors/%d is outside the ticket's effects.touchPaths"
            [AStr KnowHowWorkerAnchorScope; AInt i]
      | None => Ok tt
      end
  | None, _, _ =>
      refuse OutcomeValidationFailed CodeMalformed "%s: WORKER KNOWHOW_ADD must name its live attempt and generation"
        [AStr KnowHowWorkerAttemptRequired]
  end.

(** [knowHowEffectivePins] *)
Definition knowHowEffectivePins (entries : list KnowHowEntry) (note : string) : list KnowHowAnchor :=
  foldl (λ pins k,
    if ((kh_Operation k =s KnowHowAdd) && (kh_Seq k =s note)) || ((kh_Operation k =s KnowHowReconfirm) && (kh_Note k =s note))
    then kh_Anchors k else pins) [] entries.

(** An entry by the actor, at the next sequence number. *)
Definition know_how_entry (work : Record_) (operation text : string) (anchors : list KnowHowAnchor) (routes : list string)
    (commit : string) (supersedes attempt generation evidencePath : option string) (note : string) (reason : option string)
    (repository : string) : KnowHowEntry :=
  mkKnowHowEntry (CountOf (Z.of_nat (length (rec_KnowHow work)) + 1)) operation text anchors routes commit supersedes attempt
    generation evidencePath note reason repository actor role_ (ctx_Now ctx) None.

Definition know_how_add (work : Record_) (active : gset string) (p : KnowHowAddPayload) : W KnowHowEntry :=
  let fields := text_fields (Some (ka_Text p)) (ka_Reason p) in
  match ka_Supersedes p with
  | Some s =>
      if bool_decide (s ∈ active) then Ok tt
      else refuse OutcomeValidationFailed CodeMalformed "supersedes names note %s, which is not an active note on this ticket" [AStr s]
  | None => Ok tt
  end ;;;
  screenKnowHow fields ;;;
  screenKnowHowPaths (ka_Anchors p) (ka_Routes p) (ka_EvidencePath p) ;;;
  screenValues (ctx_Screen ctx) (knowHowScreenFields fields (ka_Anchors p) (ka_Routes p) (ka_EvidencePath p)) ;;;
  refuse_error (CheckKnowHowProvenance (ctx_KnowHowAttempts ctx) (rec_TicketID work) (ka_Attempt p) (ka_Generation p)) ;;;
  Ok (know_how_entry work KnowHowAdd (ka_Text p) (ka_Anchors p) (ka_Routes p) (ka_Commit p) (ka_Supersedes p) (ka_Attempt p)
        (ka_Generation p) (ka_EvidencePath p) ε (ka_Reason p) (ka_Repository p)).

Definition inactive_note (note : string) : W unit :=
  refuse OutcomeValidationFailed CodeMalformed "note %s is not an active note on this ticket" [AStr note].

Definition know_how_retract (work : Record_) (active : gset string) (note reason : string) : W KnowHowEntry :=
  (if bool_decide (note ∈ active) then Ok tt else inactive_note note) ;;;
  screenKnowHow [("reason", reason)] ;;;
  screenValues (ctx_Screen ctx) [("/payload/reason", reason)] ;;;
  Ok (know_how_entry work KnowHowRetract ε [] [] ε None None None None note (Some reason) ε).

Definition know_how_reconfirm (work : Record_) (active : gset string) (note : string) (anchors : list KnowHowAnchor)
    (commit : string) (attempt generation : option string) : W KnowHowEntry :=
  let why := ticket_KnowHowReconfirmRefusal (knowHowEffectivePins (rec_KnowHow work) note) anchors in
  (if bool_decide (note ∈ active) then Ok tt else inactive_note note) ;;;
  (if why =s ε then Ok tt else refuse OutcomeValidationFailed CodeMalformed "%s" [AStr why]) ;;;
  screenKnowHowPaths anchors [] None ;;;
  screenValues (ctx_Screen ctx) (knowHowScreenFields [] anchors [] None) ;;;
  refuse_error (CheckKnowHowProvenance (ctx_KnowHowAttempts ctx) (rec_TicketID work) attempt generation) ;;;
  Ok (know_how_entry work KnowHowReconfirm ε anchors [] commit None attempt generation None note None ε).

(** [ctx.knowHowStep(work, p)], given the entry the operation makes. *)
Definition knowHowStep (work : Record_) (op : string) (entry : gset string → W KnowHowEntry) : W Record_ :=
  if negb (isLive (rec_Status work)) then
    refuse OutcomeBlocked CodeTicketState "%s requires status DRAFT, OPEN or HELD (is %s)" [AStr op; AStr (rec_Status work)]
  else if negb (src_Kind (rec_Source work) =s "NATIVE") then
    refuse OutcomeBlocked CodeTicketState "%s requires a native record (source.kind is %s)" [AStr op; AStr (src_Kind (rec_Source work))]
  else if KnowHowMaxEntries <=? Z.of_nat (length (rec_KnowHow work)) then
    refuse OutcomeValidationFailed CodeLimitExceeded "more than %d know-how entries on one ticket" [AInt KnowHowMaxEntries]
  else
    let* e := entry (KnowHowActiveSeqs (rec_KnowHow work)) in
    Ok (work <| rec_KnowHow := rec_KnowHow work ++ [e] |>).

(** ** One operation *)

(** The restrictions inside a permitted row of the role matrix. *)
Definition role_restriction (work : Record_) (p : Payload) : W unit :=
  if role_ =s "WORKER" then
    match p with
    | PKnowHowAdd kp => workerKnowHowScope work kp
    | PRefine rp =>
        if bool_decide (rp_Present rp = {["body"]}) then Ok tt
        else refuse OutcomeUnauthorized ε "WORKER may only REFINE body" []
    | _ => refuse OutcomeUnauthorized ε "WORKER may only REFINE body" []
    end
  else if role_ =s "IMPORTER" then
    if src_Kind (rec_Source work) =s "IMPORT" then Ok tt
    else refuse OutcomeUnauthorized ε "IMPORTER may only touch records with source.kind IMPORT" []
  else if role_ =s "SYSTEM" then
    match p with
    | PHold id _ _ =>
        if id =s "ESCALATED" then Ok tt else refuse OutcomeUnauthorized ε "SYSTEM may only HOLD with holdId ESCALATED" []
    | _ => refuse OutcomeUnauthorized ε "SYSTEM may only HOLD with holdId ESCALATED" []
    end
  else if role_ =s "OPERATOR" then
    match p with
    | PGrantApproval gp =>
        if ga_Operation gp =s "ADJUDICATE" then refuse OutcomeUnauthorized ε "OPERATOR may not GRANT_APPROVAL for ADJUDICATE" []
        else Ok tt
    | _ => Ok tt
    end
  else if role_ =s "REVIEWER" then refuse OutcomeUnauthorized ε "REVIEWER issues no ticket mutation" []
  else Ok tt.

(** [status] is not one the operation is for. *)
Definition wrong_status {A} (format : string) (work : Record_) : W A :=
  refuse OutcomeBlocked CodeTicketState format [AStr (rec_Status work)].

(** A field of [work] replaced when the payload carries its key. *)
Definition set_if {A} (b : bool) (new old : A) : A := if b then new else old.

Definition refine (work : Record_) (p : RefinePayload) : Record_ :=
  let has := Refine_Has p in
  let w := work
    <| rec_ExecutionPrerequisites := set_if (has "executionPrerequisites") (rp_ExecutionPrerequisites p) (rec_ExecutionPrerequisites work) |>
    <| rec_RequiredRoles := set_if (has "requiredRoles") (rp_RequiredRoles p) (rec_RequiredRoles work) |>
    <| rec_RequiresPool := set_if (has "requiresPool") (default ε (rp_RequiresPool p)) (rec_RequiresPool work) |>
    <| rec_Title := set_if (has "title") (rp_Title p) (rec_Title work) |>
    <| rec_Body := set_if (has "body") (rp_Body p) (rec_Body work) |>
    <| rec_Kind := set_if (has "kind") (rp_Kind p) (rec_Kind work) |>
    <| rec_Owner := set_if (has "owner") (rp_Owner p) (rec_Owner work) |>
    <| rec_Milestone := set_if (has "milestone") (rp_Milestone p) (rec_Milestone work) |>
    <| rec_Labels := set_if (has "labels") (rp_Labels p) (rec_Labels work) |>
    <| rec_AcceptanceCriteria := set_if (has "acceptanceCriteria") (rp_AcceptanceCriteria p) (rec_AcceptanceCriteria work) |>
    <| rec_RequirementRefs := set_if (has "requirementRefs") (rp_RequirementRefs p) (rec_RequirementRefs work) |>
    <| rec_DueDate := set_if (has "dueDate") (rp_DueDate p) (rec_DueDate work) |>
    <| rec_EstimateMinutes := set_if (has "estimateMinutes") (rp_EstimateMinutes p) (rec_EstimateMinutes work) |>
    <| rec_Supersedes := set_if (has "supersedes") (rp_Supersedes p) (rec_Supersedes work) |>
    <| rec_SupersededBy := set_if (has "supersededBy") (rp_SupersededBy p) (rec_SupersededBy work) |> in
  if (rec_Status w =s StatusDraft) && opens w then w <| rec_Status := StatusOpen |> else w.

Definition step_refine (work : Record_) (p : RefinePayload) : W Record_ :=
  if Refine_Has p "milestone" && negb (some (rp_Milestone p)) && MilestoneRequired policy then
    refuse OutcomeValidationFailed CodeMilestoneRequired "policy milestones.required forbids clearing milestone" []
  else Ok (refine work p).

Definition step_hold (work : Record_) (id reason : string) (condition : option HoldCondition) : W Record_ :=
  if negb (rec_Status work =s StatusOpen) && negb (rec_Status work =s StatusHeld) then
    wrong_status "HOLD requires status OPEN or HELD (is %s)" work
  else if existsb (λ h, hold_HoldID h =s id) (rec_Holds work) then
    refuse OutcomeValidationFailed CodeDuplicateID "hold %q is already placed" [AStr id]
  else if MaxHolds <=? Z.of_nat (length (rec_Holds work)) then
    refuse OutcomeValidationFailed CodeLimitExceeded "more than %d holds" [AInt MaxHolds]
  else
    let h := {| hold_HoldID := id; hold_Actor := actor; hold_Reason := reason; hold_PlacedAt := ctx_Now ctx;
                hold_Condition := condition |} in
    Ok (work <| rec_Holds := rec_Holds work ++ [h] |> <| rec_Status := StatusHeld |>).

(** The index of the last element that satisfies [f], as the loop leaves it. *)
Fixpoint last_index {A} (f : A → bool) (i : nat) (l : list A) (found : option nat) : option nat :=
  match l with [] => found | a :: l' => last_index f (S i) l' (if f a then Some i else found) end.

Definition step_release (work : Record_) (id : string) : W Record_ :=
  if negb (rec_Status work =s StatusHeld) then wrong_status "RELEASE_HOLD requires status HELD (is %s)" work
  else match last_index (λ h, hold_HoldID h =s id) 0 (rec_Holds work) None with
  | None => refuse OutcomeValidationFailed CodeMalformed "no hold %q on the ticket" [AStr id]
  | Some i =>
      let work := work <| rec_Holds := take i (rec_Holds work) ++ drop (S i) (rec_Holds work) |> in
      Ok (if (length (rec_Holds work) =? 0)%nat then work <| rec_Status := StatusOpen |> else work)
  end.

(** The observation that lets an exhausted OPEN ticket be reopened. *)
Definition recovered (work : Record_) : bool :=
  match ctx_RetryRecovery ctx with
  | None => false
  | Some r =>
      (rr_State r =s Satisfied) && (rr_TicketID r =s TicketID_Raw (rec_TicketID work)) &&
      (rr_AcceptanceRevision r =s rec_AcceptanceRevision work) && ((rr_Phase r =s "FAILED") || (rr_Phase r =s "CANCELLED"))
  end.

Definition recovery_reason (work : Record_) : string :=
  let missing := "RECOVERY_OBSERVATION_MISSING_OR_MISMATCHED" in
  match ctx_RetryRecovery ctx with
  | Some r =>
      if (rr_TicketID r =s TicketID_Raw (rec_TicketID work)) && (rr_AcceptanceRevision r =s rec_AcceptanceRevision work) &&
         negb (rr_Reason r =s ε) then rr_Reason r else missing
  | None => missing
  end.

Definition step_reopen (work : Record_) (reason : string) : W Record_ :=
  (if rec_Status work =s StatusOpen then
     if negb (role_ =s "OWNER") then refuse OutcomeUnauthorized ε "reopening an exhausted OPEN ticket requires OWNER" []
     else if blank reason then refuse OutcomeValidationFailed CodeMalformed "OPEN recovery requires a nonblank reason" []
     else if negb (recovered work) then
       refuse OutcomeBlocked CodeTicketState "OPEN recovery refused: %s; requires exhausted, safely terminal attempts at this acceptanceRevision; inspect ticket show claimability"
         [AStr (recovery_reason work)]
     else Ok tt
   else if negb (rec_Status work =s StatusCompleted) then
     wrong_status "REOPEN requires COMPLETED or an exhausted OPEN ticket (is %s)" work
   else Ok tt) ;;;
  Ok (work <| rec_Completion := None |> <| rec_Status := StatusOpen |>).

Definition step_reason (work : Record_) (op reason : string) : W Record_ :=
  if op =s OpReopen then step_reopen work reason
  else if op =s OpArchive then
    Ok (work <| rec_ArchivedFrom := Some (rec_Status work) |> <| rec_Status := StatusArchived |>)
  else if op =s OpRestore then
    match rec_ArchivedFrom work with
    | Some from =>
        if rec_Status work =s StatusArchived then Ok (work <| rec_Status := from |> <| rec_ArchivedFrom := None |>)
        else wrong_status "RESTORE requires status ARCHIVED (is %s)" work
    | None => wrong_status "RESTORE requires status ARCHIVED (is %s)" work
    end
  else refuse OutcomeValidationFailed CodeMalformed "unknown reason operation %q" [AStr op].

Definition step_complete (work : Record_) (reason : string) (evidence : list string) : W Record_ :=
  if negb (rec_Status work =s StatusOpen) then wrong_status "COMPLETE_MANUAL requires status OPEN (is %s)" work
  else
    let c := {| cmp_Kind := "MANUAL"; cmp_Actor := actor; cmp_Reason := Some reason; cmp_Evidence := evidence;
                cmp_ManifestSha256 := None; cmp_RecordedAt := ctx_Now ctx |} in
    Ok (work <| rec_Completion := Some c |> <| rec_Status := StatusCompleted |>).

Definition step_attach (work : Record_) (evidence : list string) (reason : string) : W Record_ :=
  if negb (rec_Status work =s StatusOpen) then wrong_status "ATTACH_EVIDENCE requires status OPEN (is %s)" work
  else if negb (src_Kind (rec_Source work) =s "NATIVE") then
    refuse OutcomeBlocked CodeTicketState "ATTACH_EVIDENCE requires a native record (source.kind is %s)" [AStr (src_Kind (rec_Source work))]
  else match filter (λ d, AttachedAt (rec_AttachedEvidence work) (rec_AcceptanceRevision work) d = true) evidence with
  | d :: _ =>
      refuse OutcomeValidationFailed CodeDuplicateID "digest %s is already attached at acceptanceRevision %s"
        [AStr d; AStr (rec_AcceptanceRevision work)]
  | [] =>
      if AttachedEvidenceMaxEntries <=? Z.of_nat (length (rec_AttachedEvidence work)) then
        refuse OutcomeValidationFailed CodeLimitExceeded "more than %d attached evidence entries" [AInt AttachedEvidenceMaxEntries]
      else
        let entry := {| att_AcceptanceRevision := rec_AcceptanceRevision work; att_Actor := actor; att_Evidence := evidence;
                        att_Reason := reason; att_RecordedAt := ctx_Now ctx |} in
        Ok (work <| rec_AttachedEvidence := rec_AttachedEvidence work ++ [entry] |>)
  end.

Definition step_progress (work : Record_) (mark : ProgressMark) : W Record_ :=
  if negb (Live (rec_Status work)) then wrong_status "PROGRESS_SET requires status DRAFT, OPEN or HELD (is %s)" work
  else if negb (src_Kind (rec_Source work) =s "NATIVE") then
    refuse OutcomeBlocked CodeTicketState "PROGRESS_SET requires a native record (source.kind is %s)" [AStr (src_Kind (rec_Source work))]
  else if match last (rec_Progress work) with Some p => ProgressMark_Equal (prg_Mark p) mark | None => false end then
    refuse OutcomeValidationFailed CodeDuplicateID "progress mark equals the latest entry" []
  else if ProgressMaxEntries <=? Z.of_nat (length (rec_Progress work)) then
    refuse OutcomeValidationFailed CodeLimitExceeded "more than %d progress entries" [AInt ProgressMaxEntries]
  else
    Ok (work <| rec_Progress := rec_Progress work ++ [{| prg_Mark := mark; prg_Actor := actor; prg_RecordedAt := ctx_Now ctx |}] |>).

Definition step_grant (work : Record_) (p : GrantApprovalPayload) : W Record_ :=
  if negb (ga_Actor p =s actor) then
    refuse OutcomeUnauthorized ε "grant actor %q is not the invoking actor %q" [AStr (ga_Actor p); AStr actor]
  else if negb (ga_TargetRevision p =s rec_AcceptanceRevision work) then
    refuse OutcomeValidationFailed CodeMalformed "grant targetRevision %s is not the current acceptanceRevision %s"
      [AStr (ga_TargetRevision p); AStr (rec_AcceptanceRevision work)]
  else if existsb (λ a, apr_GrantID a =s ga_GrantID p) (rec_Approvals work) then
    refuse OutcomeValidationFailed CodeDuplicateID "grant %q already exists" [AStr (ga_GrantID p)]
  else if MaxApprovals <=? Z.of_nat (length (rec_Approvals work)) then
    refuse OutcomeValidationFailed CodeLimitExceeded "more than %d approvals" [AInt MaxApprovals]
  else
    let a := {| apr_GrantID := ga_GrantID p; apr_Actor := ga_Actor p; apr_Operation := ga_Operation p;
                apr_TargetRevision := ga_TargetRevision p; apr_Scope := ga_Scope p; apr_Revoked := false;
                apr_GrantedAt := ctx_Now ctx |} in
    Ok (work <| rec_Approvals := rec_Approvals work ++ [a] |>).

Definition revoke (a : Approval) : Approval :=
  {| apr_GrantID := apr_GrantID a; apr_Actor := apr_Actor a; apr_Operation := apr_Operation a;
     apr_TargetRevision := apr_TargetRevision a; apr_Scope := apr_Scope a; apr_Revoked := true; apr_GrantedAt := apr_GrantedAt a |}.

Definition step_revoke (work : Record_) (id : string) : W Record_ :=
  match last_index (λ a, apr_GrantID a =s id) 0 (rec_Approvals work) None with
  | None => refuse OutcomeValidationFailed CodeMalformed "no grant %q on the ticket" [AStr id]
  | Some i =>
      match rec_Approvals work !! i with
      | Some a =>
          if apr_Revoked a then refuse OutcomeValidationFailed CodeMalformed "grant %q is already revoked" [AStr id]
          else Ok (work <| rec_Approvals := <[i := revoke a]> (rec_Approvals work) |>)
      | None => Err NilPointer
      end
  end.

(** The operation on the record, after the checks that all share. *)
Definition step_operation (work : Record_) (p : Payload) : W Record_ :=
  match p with
  | PRefine p => step_refine work p
  | PPrioritize priority order => Ok (work <| rec_Priority := priority |> <| rec_Order := order |>)
  | PSetDependencies ds =>
      if negb (isLive (rec_Status work)) then wrong_status "SET_DEPENDENCIES requires status DRAFT, OPEN or HELD (is %s)" work
      else Ok (work <| rec_Dependencies := ds |>)
  | PSetGates gs =>
      if negb (isLive (rec_Status work)) then wrong_status "SET_GATES requires status DRAFT, OPEN or HELD (is %s)" work
      else Ok (work <| rec_RequiredGates := gs |>)
  | PSetEffects e cs class =>
      if negb (isLive (rec_Status work)) then wrong_status "SET_EFFECTS requires status DRAFT, OPEN or HELD (is %s)" work
      else Ok (work <| rec_Effects := e |> <| rec_Capabilities := cs |> <| rec_ExecutionClass := class |>)
  | PHold id reason condition => step_hold work id reason condition
  | PReleaseHold id => step_release work id
  | PReason op reason => step_reason work op reason
  | PCompleteManual reason evidence => step_complete work reason evidence
  | PAttachEvidence evidence reason => step_attach work evidence reason
  | PProgressSet mark => step_progress work mark
  | PKnowHowAdd kp => knowHowStep work OpKnowHowAdd (λ active, know_how_add work active kp)
  | PKnowHowRetract note reason => knowHowStep work OpKnowHowRetract (λ active, know_how_retract work active note reason)
  | PKnowHowReconfirm note anchors commit attempt generation =>
      knowHowStep work OpKnowHowReconfirm (λ active, know_how_reconfirm work active note anchors commit attempt generation)
  | PGrantApproval gp => step_grant work gp
  | PRevokeApproval id _ => step_revoke work id
  | _ => refuse OutcomeValidationFailed CodeMalformed "unsupported payload for %s" [AStr (operation p)]
  end.

(** [ctx.step(work, p)] *)
Definition step (work : Record_) (p : Payload) : W Record_ :=
  let op := operation p in
  checkRole op ;;;
  role_restriction work p ;;;
  if (rec_Status work =s StatusArchived) && negb (op =s OpRestore) then
    refuse OutcomeBlocked CodeTicketState "ticket is ARCHIVED; only RESTORE is permitted" []
  else step_operation work p.
End writer.
