(* ===== verification/Apply.v ===== *)
(** * The ticket writer: applying a mutation

    [Apply] of [apply.go] in [src/internal/tasks/mutation], with what it
    dispatches to: [create], [note] of [operator_note.go], [review] of
    [external_review.go] and [obligations] of [obligations.go]; and the two
    writes of [verified.go] that are no envelope operations. *)

From S2P Require Import Prelude View Utf8 GoStd Codes Limits Value Primitives Ids Parse Reader Ticket Inventory Collision Marks.
From S2P Require Import KnowHow RecordParts RecordCodec Obligations ObligationEvents ObligationLedger NoteEvents Intent Updates.
From S2P Require Import Mutation Outcomes Screen Writer.
Local Open Scope Z_scope.
Local Open Scope go_scope.

(** [fmt.Sprintf("%04d", n)] of a natural number. *)
Definition pad4 (n : Z) : string :=
  let s := strconv.FormatInt n in
  match String.length s with 1 => "000" +:+ s | 2 => "00" +:+ s | 3 => "0" +:+ s | _ => s end%nat.

(** [n + 1] of an int64. *)
Definition int64_succ (n : Z) : Z := if n =? 2 ^ 63 - 1 then - 2 ^ 63 else n + 1.

Definition with_serial (q : Queue) (serial : string) : Queue :=
  mkQueue (q_QueueID q) (q_RepositoryAuthorityID q) (q_Prefix q) serial (q_SchemaVersion q) (q_CanonicalWriter q)
    (q_ForeignAdapterID q) (q_IntentBranch q) (q_Fixture q) (q_ExecutionCutover q) (q_ImportMapSha256 q) (q_WriteBarrier q).

(** [c.ExpectedCredits(l)], sorted by id; Go ranges over a map first. *)
Definition ExpectedCredits (c : ObligationReportCheck) (l : option ObligationLedger) : list ObligationCredit :=
  isort (λ a b, String.leb (ocr_ID a) (ocr_ID b))
    (omap (λ kv : string * list ObligationMatch,
      let '(id, ms) := kv in
      if match orc_IDs c with Some ids => negb (existsb (String.eqb id) ids) | None => false end then None
      else match ObligationLedger_Entry l id with
      | None => None
      | Some e =>
          if (oen_State e =s ObligationWitnessed) || (oen_State e =s ObligationDeferred) then None
          else Some {| ocr_ID := id; ocr_Matches := Some ms |}
      end) (map_to_list (orc_Eligible c))).

Definition credit_mismatch (what : string) : W unit :=
  refuse OutcomeValidationFailed CodeMalformed "%s %s" [AStr ObligationCreditMismatchDetail; AStr what].

(** The first credit that differs from the recomputed one. *)
Fixpoint credits_differ (want got : list ObligationCredit) : option string :=
  match want, got with
  | w :: want', g :: got' =>
      if negb (ocr_ID w =s ocr_ID g) ||
         negb (Equal (MatchesValue (default [] (ocr_Matches w))) (MatchesValue (default [] (ocr_Matches g))))
      then Some (ocr_ID w) else credits_differ want' got'
  | _, _ => None
  end.

(** An optional string that is present and equal to [s]. *)
Definition is_string (o : option string) (s : string) : bool := match o with Some x => x =s s | None => false end.

(** [c.matches(l, w)]; a nil check is [None]. *)
Definition report_matches (c : option ObligationReportCheck) (l : option ObligationLedger) (w : ObligationWitnessPayload) : W unit :=
  match c with
  | None => credit_mismatch "no report was supplied for the writer to recompute the credits"
  | Some c =>
      if negb (is_string (owp_ReportSha256 w) (orc_ReportSha256 c)) ||
         negb (is_string (owp_PlaywrightVersion w) (orc_PlaywrightVersion c)) || negb (owp_Commit w =s orc_Commit c) then
        credit_mismatch "the payload report digest, version or commit differs from the supplied report"
      else if negb (Bool.eqb (is_none (owp_TestRepository w)) (orc_TestRepository c =s ε)) ||
         match owp_TestRepository w with Some named => negb (named =s orc_TestRepository c) | None => false end then
        credit_mismatch "the payload test repository differs from the repository the credits were recomputed in"
      else
        let want := ExpectedCredits c l in
        if negb (length want =? length (owp_Credits w))%nat then
          credit_mismatch "the payload credits differ from the recomputed credits"
        else match credits_differ want (owp_Credits w) with
        | Some id => credit_mismatch ("the payload credits differ from the recomputed credits at " +:+ id)
        | None => Ok tt
        end
  end.

(** [obligationFields(p)] *)
Definition obligationFields (p : ObligationPayload) : list string :=
  match p with
  | PSeed p => flat_map (λ o, [osi_Title o; osi_Alias o]) (osd_Obligations p)
  | PSet p =>
      flat_map (λ ch,
        [och_Reason ch] ++ (oci_Path <$> default [] (och_Cites ch)) ++
        match och_Scope ch with Some s => [osc_Evidence s] | None => [] end ++
        match och_Candidate ch with Some c => [oca_Path c] | None => [] end ++
        flat_map (λ src, [os_Ref src; os_Query src] ++ os_Searched src) (default [] (och_Sources ch))) (ost_Changes p)
  | PWitness w =>
      match owp_Declaration w with Some d => [od_TestID d; od_Reason d] | None => [] end ++
      ObligationProvenance_Strings (owp_Provenance w) ++
      match owp_Review w with
      | Some rv_ => sub_Path (orv_Subject rv_) :: flat_map (λ v, [ov_Reviewer v; ov_Reason v]) (orv_Verdicts rv_)
      | None => [] end ++
      flat_map (λ cr, flat_map (λ m, [om_Path m; om_TestID m] ++ om_TitlePath m ++ om_StepPath m) (default [] (ocr_Matches cr)))
        (owp_Credits w)
  end.

(** ** Operator notes *)

(** [OperatorNoteContext]; an empty prior event is nil. *)
Record OperatorNoteContext := mkNoteContext {
  nc_Record : option Record_; nc_Prior : option OperatorNoteReference; nc_PriorEvent : string; nc_Binding : Binding;
  nc_Allowed : bool; nc_QueueID : QueueID; nc_RequestID : string; nc_RequestSha256 : string; nc_RecordedAt : string
}.

(** An error of [ProposeOperatorNote]: a wire error, or an [OperatorNoteRefusal]. *)
Inductive note_error : Type :=
  | NoteError (e : Error)
  | OperatorNoteRefusal (outcome where_ detail : string).

Definition note_raise {A} (x : res A) : outcome note_error A :=
  match x with Ok a => Ok a | Err e => Err (NoteError e) | OutOfFuel => OutOfFuel end.

Definition note_malformed {A} (where_ msg : string) : outcome note_error A := Err (NoteError (Errorf CodeMalformed where_ msg [])).

Section writer.
Context (sha256 : string → string) (secret : string → bool) (ord : bool).

(** The revision and head of the prior note, resolved. *)
Definition prior_note (c : OperatorNoteContext) (pre : Record_) : outcome note_error (string * option string) :=
  match nc_Prior c with
  | Some ref =>
      let* prior := note_raise (ResolveOperatorNote sha256 (rec_TicketID pre) ref (nc_PriorEvent c)) in
      if (Count_Int (rec_Revision pre) <? Count_Int (one_TicketRevision prior)) ||
         (Count_Int (rec_AcceptanceRevision pre) <? Count_Int (one_AcceptanceRevision prior)) then
        note_malformed "/previous" "prior note cannot postdate audited ticket revisions"
      else Ok (note_Revision ref, Some (note_Head ref))
  | None =>
      if nc_PriorEvent c =s ε then Ok ("0", None)
      else note_malformed "/previous" "unexpected prior event without reference"
  end.

(** The pre-record, decoded again, and what it must be for a note. *)
Definition note_record (c : OperatorNoteContext) (q : OperatorNoteRequest) : outcome note_error Record_ :=
  match nc_Record c with
  | None => note_malformed "/ticketId" "missing audited ticket"
  | Some rec =>
      let* pre := note_raise (RecordCodec.Decode ord (Record_Encode rec)) in
      if negb (TicketID_Raw (onr_TicketID q) =s TicketID_Raw (rec_TicketID pre)) then
        note_malformed "/request/targetId" "audited ticket mismatch"
      else if rec_Status pre =s StatusArchived then
        Err (OperatorNoteRefusal OutcomeBlocked "/ticketId" "ticket is ARCHIVED; note requires an unarchived ticket")
      else if negb (src_Kind (rec_Source pre) =s "NATIVE") || rec_ShadowOverlay pre then
        Err (OperatorNoteRefusal OutcomeUnauthorized "/ticketId" "note requires a native ticket")
      else match onr_ExpectedRevision q with
      | Some r =>
          if r =s rec_Revision pre then Ok pre
          else Err (OperatorNoteRefusal OutcomeRevisionConflict "/request/expectedRevision"
                 ("expected pre-ticket revision " +:+ rec_Revision pre))
      | None => Ok pre
      end
  end.

Definition note_checks (c : OperatorNoteContext) (q : OperatorNoteRequest) (raw : string) : outcome note_error unit :=
  if (b_ID (nc_Binding c) =s ε) || negb (onr_ActorID q =s b_ID (nc_Binding c)) || negb (onr_ActorRole q =s b_Role (nc_Binding c)) ||
     negb (nc_Allowed c) then
    Err (OperatorNoteRefusal OutcomeUnauthorized "/actor" "note requires matching trusted binding and explicit policy authorization")
  else if negb (QueueID_Raw (onr_QueueID q) =s QueueID_Raw (nc_QueueID c)) then
    note_malformed "/request/queueId" "audited queue mismatch"
  else if negb (onr_RequestID q =s nc_RequestID c) then note_malformed "/request/requestId" "audited request mismatch"
  else if negb (Sum sha256 raw =s nc_RequestSha256 c) then note_malformed "/requestSha256" "audited request digest mismatch"
  else let* _ := note_raise (ParseTimestamp "/recordedAt" (nc_RecordedAt c)) in Ok tt.

Definition ProposeOperatorNote (c : OperatorNoteContext) (raw : string) : outcome note_error (OperatorNoteReference * string) :=
  let* q := note_raise (DecodeOperatorNoteRequest raw) in
  let* _ := note_checks c q raw in
  let* pre := note_record c q in
  let* prior := prior_note c pre in
  let '(priorRevision, previous) := prior in
  if match onr_Supersedes q with Some s => negb (s =s priorRevision) | None => false end then
    Err (OperatorNoteRefusal OutcomeRevisionConflict "/request/payload/supersedes" ("expected prior note revision " +:+ priorRevision))
  else if (MaxOperatorNoteEvents <=? Count_Int priorRevision) || (MaxCountValue <=? Count_Int (rec_Revision pre)) then
    Err (NoteError (Errorf CodeLimitExceeded "/revision" "note or ticket revision capacity" []))
  else
    let n := mkNoteEvent (rec_TicketID pre) (CountOf (Count_Int priorRevision + 1)) (CountOf (Count_Int (rec_Revision pre) + 1))
      (rec_AcceptanceRevision pre) (default ε (strip_prefix "NOTE_" (onr_Operation q))) previous (b_ID (nc_Binding c))
      (b_Role (nc_Binding c)) (nc_RecordedAt c) (nc_RequestSha256 c) (onr_Raw q) in
    let* blob := note_raise (OperatorNoteEvent_Encode sha256 n) in
    let head := Sum sha256 blob in
    Ok ({| note_Revision := one_NoteRevision n; note_Current := if one_Operation n =s "SET" then Some head else None;
           note_Head := head |}, blob).

Definition ValidateOperatorNoteMaterial (c : OperatorNoteContext) (ref : OperatorNoteReference) (raw : string) :
    outcome note_error unit :=
  let* n := note_raise (DecodeOperatorNoteEvent sha256 raw) in
  let* p := ProposeOperatorNote c (one_Request n) in
  if negb (p.2 =s raw) || negb (EncodeFile (OperatorNoteReference_Value p.1) =s EncodeFile (OperatorNoteReference_Value ref)) then
    note_malformed "/operatorNote" "event/reference differs from audited transition"
  else Ok tt.

(** An error of [ProposeOperatorNote] as a refusal. *)
Definition note_refusal {A} (x : outcome note_error A) : W A :=
  match x with
  | Ok a => Ok a
  | Err (NoteError e) => refuseErr (EWire e)
  | Err (OperatorNoteRefusal outcome where_ detail) =>
      refuse outcome (if outcome =s OutcomeBlocked then CodeTicketState else ε) "%s: %s" [AStr where_; AStr detail]
  | OutOfFuel => OutOfFuel
  end.

(** ** The facts of one mutation *)
Context (ctx : MutationContext) (queue : Queue) (policy : Policy) (inv : Inventory).

Let actor : string := b_ID (ctx_Binding ctx).
Let role_ : string := b_Role (ctx_Binding ctx).

(** ** The checks of the whole change *)

(** [ctx.validGates()] *)
Definition validGates : string :=
  let ids := SortStrings (GateIDs policy) in
  if (length ids =? 0)%nat then "no gates" else strings.Join ids ", ".

Definition known_gate (g : string) : bool := existsb (String.eqb g) (GateIDs policy).

Fixpoint checkPrerequisites_loop (i : Z) (ps : list Prerequisite) : W unit :=
  match ps with
  | [] => Ok tt
  | p :: ps' =>
      let* found := get inv (TicketID_Raw (pre_TicketID p)) in
      match found, pre_GateID p with
      | None, _ =>
          refuse OutcomeValidationFailed CodeDependencyMissing "execution prerequisite %d names %s, which does not exist in the queue"
            [AInt i; AStr (TicketID_Raw (pre_TicketID p))]
      | Some _, Some g =>
          if known_gate g then checkPrerequisites_loop (i + 1) ps'
          else refuse OutcomeValidationFailed CodeGateUnknown "execution prerequisite %d names unknown gate %q; policy declares %s"
                 [AInt i; AStr g; AStr validGates]
      | Some _, None => checkPrerequisites_loop (i + 1) ps'
      end
  end.

Definition checkPrerequisites (work : Record_) : W unit := checkPrerequisites_loop 0 (rec_ExecutionPrerequisites work).

Definition check_dependencies (work : Record_) : W unit :=
  match CheckDependencies inv work with Ok e => refuse_error e | _ => OutOfFuel end.

(** The first dependency on an unknown gate. *)
Fixpoint unknown_dependency_gate (i : Z) (ds : list Dependency) : option (Z * string) :=
  match ds with
  | [] => None
  | d :: ds' =>
      match dep_GateID d with
      | Some g => if known_gate g then unknown_dependency_gate (i + 1) ds' else Some (i, g)
      | None => unknown_dependency_gate (i + 1) ds'
      end
  end.

Definition check_gates (work : Record_) : W unit :=
  match filter (λ g, known_gate g = false) (rec_RequiredGates work), unknown_dependency_gate 0 (rec_Dependencies work) with
  | g :: _, _ =>
      refuse OutcomeValidationFailed CodeGateUnknown "requiredGates names unknown gate %q; policy declares %s" [AStr g; AStr validGates]
  | [], Some (i, g) =>
      refuse OutcomeValidationFailed CodeGateUnknown "dependency %d names unknown gate %q; policy declares %s"
        [AInt i; AStr g; AStr validGates]
  | [], None => Ok tt
  end.

Definition check_exists (format : string) (t : TicketID) : W unit :=
  let* found := get inv (TicketID_Raw t) in
  match found with
  | Some _ => Ok tt
  | None => refuse OutcomeValidationFailed CodeDependencyMissing format [AStr (TicketID_Raw t)]
  end.

(** [ctx.checkRecord(pre, work)]; a nil [pre] is [None]. *)
Definition checkRecord (pre : option Record_) (work : Record_) : W unit :=
  let changed field := match pre with None => true | Some pre => fieldChanged pre work field end in
  (if negb (rec_RequiresPool work =s ε) && is_none (Policy_Pool policy (rec_RequiresPool work)) then
     refuse OutcomeValidationFailed CodeMalformed "requiresPool names unknown pool" []
   else Ok tt) ;;;
  (if changed "dependencies" then check_dependencies work else Ok tt) ;;;
  (if changed "dependencies" || changed "requiredGates" then check_gates work else Ok tt) ;;;
  (if changed "executionPrerequisites" then checkPrerequisites work else Ok tt) ;;;
  match rec_Supersedes work with
  | Some t => if changed "supersedes" then check_exists "supersedes names %s, which does not exist in the queue" t else Ok tt
  | None => Ok tt
  end ;;;
  match rec_SupersededBy work with
  | Some t =>
      if changed "supersededBy" then
        if TicketID_Raw t =s TicketID_Raw (rec_TicketID work) then
          refuse OutcomeValidationFailed CodeMalformed "supersededBy names the ticket itself (TAW-V0-012)" []
        else check_exists "supersededBy names %s, which does not exist in the queue" t
      else Ok tt
  | None => Ok tt
  end.

(** [ctx.revalidate(work)] *)
Definition revalidate (work : Record_) : W unit :=
  let* _ := or_refuse (clone ord work) in
  let n := slen (Record_Encode work) in
  if MaxTicketFileBytes <? n then
    refuse OutcomeValidationFailed CodeLimitExceeded "post record is %d bytes, over the %d byte ticket file bound"
      [AInt n; AInt MaxTicketFileBytes]
  else Ok tt.

(** No attempt may be live when the acceptance changes. *)
Definition check_attempt (work : Record_) : W unit :=
  let id := TicketID_Raw (rec_TicketID work) in
  let obs := match ctx_Attempts ctx with Some a => LiveAttempt a id | None => NotObserved end in
  if obs =s Unsatisfied then Ok tt
  else if obs =s Satisfied then
    let named := match ctx_Attempts ctx with Some a => match DescribeLiveAttempt a with Some f => f id | None => ε end | None => ε end in
    refuse OutcomeBlocked CodeAttemptLive "%s"
      [AStr ("an attempt is live; this mutation would change acceptanceRevision" +:+ if named =s ε then ε else ": " +:+ named)]
  else
    refuse OutcomeBlocked CodeAttemptLive "attempt liveness NOT_OBSERVED; an acceptance-relevant mutation is refused until it is" [].

(** [ctx.finalize(pre, work, forced)]: the work with its chain fields. *)
Definition finalize (pre work : Record_) (forced : bool) : W Record_ :=
  let changed := acceptanceChanged pre work in
  if (rec_Status pre =s StatusCompleted) && changed then
    refuse OutcomeBlocked CodeTicketState "ticket is COMPLETED; REOPEN before changing acceptance-relevant fields" []
  else
    checkRecord (Some pre) work ;;;
    let bump := forced || changed in
    (if bump then check_attempt work else Ok tt) ;;;
    let rev := int64_succ (Count_Int (rec_Revision pre)) in
    if MaxCountValue <? rev then
      refuse OutcomeValidationFailed CodeLimitExceeded "revision would exceed the Count maximum" []
    else
      let acc := int64_succ (Count_Int (rec_AcceptanceRevision pre)) in
      if bump && (MaxCountValue <? acc) then
        refuse OutcomeValidationFailed CodeLimitExceeded "acceptanceRevision would exceed the Count maximum" []
      else
        let work := work <| rec_Revision := CountOf rev |>
          <| rec_AcceptanceRevision := if bump then CountOf acc else rec_AcceptanceRevision pre |>
          <| rec_PreviousRecordSha256 := Some (FileDigest sha256 pre) |>
          <| rec_UpdatedAt := ctx_Now ctx |> <| rec_UpdatedBy := actor |> in
        revalidate work ;;;
        Ok work.

(** A write that moves [pre] to [work] by one revision and no acceptance. *)
Definition advances_only (pre work : Record_) (format : string) : W unit :=
  if negb (Count_Int (rec_Revision work) =? int64_succ (Count_Int (rec_Revision pre))) ||
     negb (rec_AcceptanceRevision work =s rec_AcceptanceRevision pre) then
    refuse OutcomeValidationFailed CodeMalformed format []
  else Ok tt.

(** ** CREATE *)

(** The folded local token of every ticket. *)
Definition occupied : list string :=
  omap (λ id, (λ s, FoldToken (TicketID_Local (sum_TicketID s))) <$> Inventory_Summary inv id) (IDs inv).

(** One iteration is one try of the loop. *)
Fixpoint allocate_loop (tries : nat) (q : Queue) (n : Z) : W (string * string) :=
  match tries with
  | O =>
      refuse OutcomeValidationFailed CodeLimitExceeded "every serial from %s is occupied within the inventory bound"
        [AStr (q_NextSerial q)]
  | S tries =>
      if (n <? 0) || (MaxCountValue <? int64_succ n) then
        refuse OutcomeValidationFailed CodeLimitExceeded "nextSerial %d would exceed the Count maximum; no serial allocated" [AInt n]
      else
        let cand := q_Prefix q +:+ "-" +:+ pad4 n in
        if existsb (String.eqb (FoldToken cand)) occupied then allocate_loop tries q (n + 1)
        else
          let* _ := or_refuse (ParseToken "/payload/localToken" cand MaxLocalTokenBytes) in
          Ok (cand, CountOf (int64_succ n))
  end.

Definition allocateSerial (q : Queue) : W (string * string) :=
  allocate_loop (S (Z.to_nat (Inventory_Len inv))) q (Count_Int (q_NextSerial q)).

Definition create_role (p : CreatePayload) : W unit :=
  if role_ =s "IMPORTER" then
    if src_Kind (cp_Source p) =s "IMPORT" then Ok tt
    else refuse OutcomeUnauthorized ε "IMPORTER may only CREATE with source.kind IMPORT" []
  else if (role_ =s "WORKER") || (role_ =s "SYSTEM") || (role_ =s "REVIEWER") then
    refuse OutcomeUnauthorized ε "role %s may not CREATE" [AStr role_]
  else Ok tt.

(** The local token, and the queue with its next serial when one is allocated. *)
Definition create_token (p : CreatePayload) : W (string * option Queue) :=
  match cp_LocalToken p with
  | Some local => refuse_error (CheckLocalToken inv local) ;;; Ok (local, None)
  | None =>
      let* a := allocateSerial queue in
      Ok (a.1, Some (with_serial queue a.2))
  end.

Definition created_record (p : CreatePayload) (id : TicketID) : Record_ :=
  let rec := {|
    rec_RequiredRoles := cp_RequiredRoles p; rec_RequiresPool := cp_RequiresPool p; rec_Escalations := None; rec_TicketID := id;
    rec_Revision := "1"; rec_AcceptanceRevision := "1"; rec_PreviousRecordSha256 := None; rec_Status := StatusDraft;
    rec_ArchivedFrom := None; rec_Title := cp_Title p; rec_Body := cp_Body p; rec_Kind := cp_Kind p; rec_Owner := cp_Owner p;
    rec_Milestone := cp_Milestone p; rec_Priority := cp_Priority p; rec_Order := cp_Order p; rec_Labels := cp_Labels p;
    rec_Dependencies := cp_Dependencies p; rec_AcceptanceCriteria := cp_AcceptanceCriteria p;
    rec_RequirementRefs := cp_RequirementRefs p; rec_Source := cp_Source p; rec_Effects := cp_Effects p;
    rec_Capabilities := cp_Capabilities p; rec_RequiredGates := cp_RequiredGates p; rec_Holds := [];
    rec_ExecutionClass := cp_ExecutionClass p; rec_Approvals := []; rec_Completion := None; rec_DueDate := cp_DueDate p;
    rec_EstimateMinutes := cp_EstimateMinutes p; rec_Supersedes := cp_Supersedes p; rec_SupersededBy := cp_SupersededBy p;
    rec_ShadowOverlay := false; rec_CreatedAt := ctx_Now ctx; rec_UpdatedAt := ctx_Now ctx; rec_UpdatedBy := actor;
    rec_OperatorNote := None; rec_ExternalReviews := ∅; rec_ExecutionPrerequisites := []; rec_AttachedEvidence := [];
    rec_Progress := []; rec_KnowHow := []; rec_ObligationsRef := None
  |} in
  if opens rec then rec <| rec_Status := StatusOpen |> else rec.

(** [ctx.create(plan, p)] up to the plan: the new record, and the queue. *)
Definition create_record (p : CreatePayload) : W (Record_ * option Queue) :=
  create_role p ;;;
  (if is_none (cp_Milestone p) && MilestoneRequired policy then
     refuse OutcomeValidationFailed CodeMilestoneRequired "policy milestones.required: CREATE must name a milestone" []
   else if MaxTicketsPerQueue <=? Inventory_Len inv then
     refuse OutcomeValidationFailed CodeLimitExceeded "queue already holds %d tickets, the §1 bound" [AInt MaxTicketsPerQueue]
   else Ok tt) ;;;
  let* t := create_token p in
  let* id := or_refuse (ParseTicketID "/payload/localToken"
    ("ticket:" +:+ QueueID_Authority (q_QueueID queue) +:+ ":" +:+ QueueID_Queue (q_QueueID queue) +:+ ":" +:+ t.1)) in
  let* work := or_refuse (clone ord (created_record p id)) in
  checkRecord None work ;;;
  revalidate work ;;;
  Ok (work, t.2).

Definition create (plan : Plan) (p : CreatePayload) : W Plan :=
  let? t := create_record p else plan in
  Ok (completed (plan <| pl_QueuePost := t.2 |>) t.1).

(** ** The target *)

(** [ctx.Inventory.Get(env.TargetID.Raw)]: a nil target is dereferenced. *)
Definition target (env : Envelope) : W Record_ :=
  match env_TargetID env with
  | None => Err NilPointer
  | Some t =>
      let* found := get inv (TicketID_Raw t) in
      match found with
      | Some pre => Ok pre
      | None => refuse OutcomeValidationFailed CodeMalformed "target %s does not exist in the queue" [AStr (TicketID_Raw t)]
      end
  end.

(** ** NOTE_SET and NOTE_CLEAR *)

Definition note_context (env : Envelope) (pre : Record_) : OperatorNoteContext :=
  mkNoteContext (Some pre) (rec_OperatorNote pre) (ctx_PriorNoteEvent ctx) (ctx_Binding ctx) true (q_QueueID queue)
    (env_RequestID env) (Envelope_Sha256 sha256 env) (ctx_Now ctx).

(** The record with its new note, and the event. *)
Definition note_record_of (env : Envelope) (pre : Record_) : W (Record_ * string) :=
  match env_Payload env with
  | PNote op text _ => if op =s OpNoteSet then noteScreen secret (ctx_Screen ctx) text else Ok tt
  | _ => Ok tt
  end ;;;
  match rec_OperatorNote pre with
  | Some ref =>
      if ctx_PriorNoteEvent ctx =s ε then
        refuse OutcomeValidationFailed CodeMissingEvidence "operator note head %s is unavailable" [AStr (note_Head ref)]
      else Ok tt
  | None => Ok tt
  end ;;;
  let* prop := note_refusal (ProposeOperatorNote (note_context env pre) (env_Raw env)) in
  let* work := clone_canonical ord pre in
  let* work := finalize pre (work <| rec_OperatorNote := Some prop.1 |>) false in
  advances_only pre work "note transition must advance only the ticket revision" ;;;
  Ok (work, prop.2).

Definition note (plan : Plan) (env : Envelope) : W Plan :=
  let? pre := target env else plan in
  let plan := plan <| pl_Pre := Some pre |> in
  let? w := note_record_of env pre else plan in
  Ok (completed (plan <| pl_DerivedEvent := Some w.2 |>) w.1).

(** ** REVIEW_RECORD and REVIEW_RESUBMIT *)

Definition review_record_of (env : Envelope) (pre : Record_) : W (Record_ * string) :=
  if rec_Status pre =s StatusArchived then
    refuse OutcomeBlocked CodeTicketState "ticket is ARCHIVED; a review requires an unarchived ticket" []
  else if negb (src_Kind (rec_Source pre) =s "NATIVE") || rec_ShadowOverlay pre then
    refuse OutcomeUnauthorized ε "a review requires a native ticket" []
  else
    match env_ExpectedRevision env with
    | Some r =>
        if r =s rec_Revision pre then Ok tt
        else refuse OutcomeRevisionConflict ε "expectedRevision %s but the canonical record is at revision %s"
               [AStr r; AStr (rec_Revision pre)]
    | None => Ok tt
    end ;;;
    match ctx_ExternalReview ctx with
    | None => refuse OutcomeValidationFailed CodeMalformed "no audited external review observation" []
    | Some x =>
        if negb (xr_Outcome x =s ε) then refuse (xr_Outcome x) (xr_Code x) "%s" [AStr (xr_Detail x)]
        else match xr_Event x with
        | Some event =>
            if negb (Sum sha256 event =s rev_Head (xr_Ref x)) then
              refuse OutcomeValidationFailed CodeMalformed "external review event does not match its reference" []
            else
              let* work := clone_canonical ord pre in
              if is_none (rec_ExternalReviews work !! xr_GateID x) &&
                 (MaxExternalReviewGates <=? Z.of_nat (size (rec_ExternalReviews work))) then
                refuse OutcomeValidationFailed CodeLimitExceeded "ticket already carries %d external review gates"
                  [AInt MaxExternalReviewGates]
              else
                let work := work <| rec_ExternalReviews := <[xr_GateID x := xr_Ref x]> (rec_ExternalReviews work) |> in
                let* work := finalize pre work false in
                advances_only pre work "review transition must advance only the ticket revision" ;;;
                Ok (work, event)
        | None => refuse OutcomeValidationFailed CodeMalformed "external review event does not match its reference" []
        end
    end.

Definition review (plan : Plan) (env : Envelope) : W Plan :=
  let? pre := target env else plan in
  let plan := plan <| pl_Pre := Some pre |> in
  let? w := review_record_of env pre else plan in
  Ok (completed (plan <| pl_DerivedEvent := Some w.2 |>) w.1).

(** ** OBLIGATIONS_* *)

(** The checks of a list, up to the first that refuses. *)
Fixpoint each_check {A} (f : A → W unit) (l : list A) : W unit :=
  match l with [] => Ok tt | a :: l' => f a ;;; each_check f l' end.

Definition screenObligations (p : ObligationPayload) : W unit :=
  if existsb secret (obligationFields p) then
    refuse OutcomeValidationFailed CodeSecretDetected
      "/payload: a title, alias, reason, path, test id, review source or witness provenance matches the secret screen; remove the secret and retry with a new request ID" []
  else Ok tt.

Definition obligationScreenFields (p : ObligationPayload) : list (string * string) := (λ s, ("/payload", s)) <$> obligationFields p.

Definition owner_change (ch : ObligationChange) : W unit :=
  if some (och_Core ch) then refuse OutcomeUnauthorized ε "changing core is OWNER-only (TOL-V0-015)" []
  else match och_Scope ch with
  | Some s =>
      if osc_Action s =s ObligationScopeAccept then
        refuse OutcomeUnauthorized ε "accepting a scope decision is OWNER-only (TOL-V0-081)" []
      else Ok tt
  | None => Ok tt
  end.

Definition ObligationScopeDecisionRequiredDetail : string := "OBLIGATION_SCOPE_DECISION_REQUIRED:".
Definition ObligationCiteRepositoryDetail : string := "OBLIGATION_CITE_REPOSITORY_UNDECLARED:".
Definition ObligationTestRepositoryDetail : string := "OBLIGATION_TEST_REPOSITORY_UNDECLARED:".

Definition scoped_change (ch : ObligationChange) : W unit :=
  if some (och_Core ch) then
    refuse OutcomeValidationFailed CodeApprovalMissing
      "%s %s: under obligations.requireScopeDecision core changes only through an accepted scope decision (TOL-V0-082)"
      [AStr ObligationScopeDecisionRequiredDetail; AStr (och_ID ch)]
  else Ok tt.

Definition cited_change (ch : ObligationChange) : W unit :=
  each_check (λ ct,
    match oci_Repository ct with
    | None => Ok tt
    | Some r =>
        if some (ObligationTestRepository policy r) then Ok tt
        else refuse OutcomeValidationFailed CodeMalformed
          "%s %s cites repository %s, which the policy's obligations.testRepositories does not declare (TOL-V0-102)"
          [AStr ObligationCiteRepositoryDetail; AStr (och_ID ch); AStr r]
    end) (default [] (och_Cites ch)).

Definition set_authority (p : ObligationSetPayload) : W unit :=
  (if role_ =s "OWNER" then Ok tt else each_check owner_change (ost_Changes p)) ;;;
  (if ObligationScopeDecisionRequired policy then each_check scoped_change (ost_Changes p) else Ok tt) ;;;
  (if ObligationCitesDeclaredRequired policy then each_check cited_change (ost_Changes p) else Ok tt).

(** The test repository a witness names is the one it resolved. *)
Definition witness_repository (w : ObligationWitnessPayload) : W unit :=
  match owp_TestRepository w with
  | None => Ok tt
  | Some r =>
      match ObligationTestRepository policy r with
      | None =>
          refuse OutcomeValidationFailed CodeMalformed
            "%s /payload/testRepository names %s, which the policy's obligations.testRepositories does not declare"
            [AStr ObligationTestRepositoryDetail; AStr r]
      | Some declared =>
          let same := match ctx_ObligationReport ctx with
            | Some c => (orc_TestRepository c =s r) && (orc_TestRepositoryPath c =s declared)
            | None => false end in
          if ctx_ObligationReplay ctx || same then Ok tt
          else refuse OutcomeRevisionConflict CodeStalePolicy
            "/payload/testRepository %s is declared at write time with a path other than the one the witness resolved; rerun the witness"
            [AStr r]
      end
  end.

(** A WORKER witnesses under its own live attempt generation. *)
Definition worker_witness (pre : Record_) (w : ObligationWitnessPayload) : W unit :=
  match owp_Attempt w, owp_Generation w with
  | Some attempt, Some generation =>
      refuse_error (CheckKnowHowProvenance (ctx_KnowHowAttempts ctx) (rec_TicketID pre) (Some attempt) (Some generation)) ;;;
      let a := attempt_of (ctx_KnowHowAttempts ctx) attempt in
      if negb (live_generation a generation) then
        refuse OutcomeRevisionConflict CodeFenced "/payload/attempt and /payload/generation do not name a live attempt generation" []
      else if negb (ap_Holder a =s actor) then refuse OutcomeUnauthorized ε "/payload/attempt is not held by the acting binding" []
      else Ok tt
  | _, _ =>
      refuse OutcomeValidationFailed CodeMalformed "/payload/attempt: a WORKER witness must name its live attempt and generation" []
  end.

Definition witness_authority (pre : Record_) (w : ObligationWitnessPayload) : W unit :=
  (if (owp_Source w =s ObligationSourceDeclared) && negb (role_ =s "OWNER") then
     refuse OutcomeUnauthorized ε "a DECLARED witness is OWNER-only (TOL-V0-015)" []
   else if (owp_Source w =s ObligationSourceReviewed) && negb (role_ =s "OWNER") then
     refuse OutcomeUnauthorized ε "a REVIEWED witness is OWNER-only (TOL-V0-073)" []
   else Ok tt) ;;;
  witness_repository w ;;;
  if role_ =s "WORKER" then worker_witness pre w
  else if some (owp_Attempt w) || some (owp_Generation w) then
    refuse OutcomeValidationFailed CodeMalformed "/payload/attempt: only a WORKER witness names an attempt" []
  else Ok tt.

Definition obligationAuthority (pre : Record_) (p : ObligationPayload) : W unit :=
  let unwitnessed := if role_ =s "WORKER" then refuse OutcomeUnauthorized ε "a WORKER may only witness a Playwright report" [] else Ok tt in
  match p with
  | PSet s => set_authority s ;;; unwitnessed
  | PSeed _ => unwitnessed
  | PWitness w => witness_authority pre w
  end.

(** [c.ObligationEvents[d]], as the evidence store of the chain. *)
Definition event_read (d : string) : goerror + option string := inr (ctx_ObligationEvents ctx !! d).

(** The ledger of the record's reference. *)
Definition current_ledger (pre : Record_) : W (option ObligationLedger) :=
  match rec_ObligationsRef pre with
  | None => Ok None
  | Some ref =>
      match FoldObligationChain sha256 event_read (rec_TicketID pre) ref with
      | Ok l => Ok (Some l)
      | Err e => refuse OutcomeValidationFailed (ce_Code e) ("%s: %s " +:+ ce_Detail e)
                   (AStr (ce_Code e) :: AStr ObligationChainDetail :: ce_Args e)
      | OutOfFuel => OutOfFuel
      end
  end.

(** No other ticket of the queue declares the prefix. *)
Definition free_prefix (pre : Record_) (prefix : string) : W unit :=
  each_check (λ id,
    let* other := get inv id in
    match other with
    | Some o =>
        if negb (TicketID_Raw (rec_TicketID o) =s TicketID_Raw (rec_TicketID pre)) && negb (rec_Status o =s StatusArchived) &&
           (src_Kind (rec_Source o) =s "NATIVE") &&
           match rec_ObligationsRef o with Some r => obl_Prefix r =s prefix | None => false end then
          refuse OutcomeValidationFailed CodeDuplicateID "obligation prefix %s is already declared by %s"
            [AStr prefix; AStr (TicketID_Raw (rec_TicketID o))]
        else Ok tt
    | None => Ok tt
    end) (IDs inv).

(** What the payload asks of the ledger before it is folded. *)
Definition ledger_checks (pre : Record_) (ledger : option ObligationLedger) (p : ObligationPayload) : W unit :=
  match ledger, p with
  | None, PSeed s => free_prefix pre (osd_Prefix s)
  | None, _ =>
      refuse OutcomeValidationFailed CodeMalformed "%s ticket %s has no obligation ledger; seed it first"
        [AStr ObligationUnknownDetail; AStr (TicketID_Raw (rec_TicketID pre))]
  | Some _, _ => Ok tt
  end ;;;
  match p with
  | PWitness w =>
      if (owp_Source w =s ObligationSourceReport) && negb (ctx_ObligationReplay ctx) then
        report_matches (ctx_ObligationReport ctx) ledger w
      else Ok tt
  | _ => Ok tt
  end ;;;
  screenObligations p ;;;
  screenValues (ctx_Screen ctx) (obligationScreenFields p).

(** The high water of the acceptance, and the count a raise must exceed. *)
Definition next_high_water (pre : Record_) (witnessed : Z) : Z * Z :=
  match rec_ObligationsRef pre with
  | None => (witnessed, 0)
  | Some ref =>
      let hw := obl_HighWater ref in
      if hw_AcceptanceRevision hw =s rec_AcceptanceRevision pre then
        (if witnessed <? hw_Witnessed hw then hw_Witnessed hw else witnessed, hw_Witnessed hw)
      else (witnessed, oc_Witnessed (obl_Counts ref))
  end.

Definition next_raise (pre : Record_) (p : ObligationPayload) (raised : bool) : W (option ObligationRaise) :=
  let kept := match rec_ObligationsRef pre with Some ref => obl_LastRaise ref | None => None end in
  match p with
  | PWitness w =>
      if (role_ =s "WORKER") && raised then
        match owp_Attempt w, owp_Generation w with
        | Some a, Some g =>
            Ok (Some {| or_Attempt := a; or_Generation := g; or_AcceptanceRevision := rec_AcceptanceRevision pre |})
        | _, _ => Err NilPointer
        end
      else Ok kept
  | _ => Ok kept
  end.

(** The reference to the ledger [next] at its head event. *)
Definition next_reference (pre : Record_) (p : ObligationPayload) (next : ObligationLedger) (head : string) : W ObligationsReference :=
  let counts := ObligationLedger_Counts (Some next) in
  let '(hw, baseline) := next_high_water pre (oc_Witnessed counts) in
  let* raise := next_raise pre p (baseline <? oc_Witnessed counts) in
  Ok {| obl_Prefix := led_Prefix next; obl_Revision := CountOf (led_Revision next); obl_Head := head; obl_Counts := counts;
        obl_HighWater := {| hw_AcceptanceRevision := rec_AcceptanceRevision pre; hw_Witnessed := hw |}; obl_LastRaise := raise |}.

(** The event of the write, and the ledger it leads to. *)
Definition obligation_event (env : Envelope) (pre : Record_) (ledger : option ObligationLedger) : W (string * ObligationLedger) :=
  let revision := match rec_ObligationsRef pre with Some ref => Count_Int (obl_Revision ref) | None => 0 end in
  if ObligationsMaxEvents <=? revision then
    refuse OutcomeValidationFailed CodeLimitExceeded "the obligation ledger holds at most %d events" [AInt ObligationsMaxEvents]
  else
    let* blob := or_refuse (ObligationEvent_Encode sha256 (rec_TicketID pre) (CountOf (revision + 1))
      (obl_Head <$> rec_ObligationsRef pre) (Envelope_Sha256 sha256 env) (env_Raw env)) in
    let* decoded := or_refuse (DecodeObligationEvent sha256 blob) in
    let* next := or_refuse (ApplyObligationEvent ledger decoded (Sum sha256 blob)) in
    Ok (blob, next).

Definition obligation_target (env : Envelope) (pre : Record_) : W unit :=
  if negb (is_string (env_ExpectedRevision env) (rec_Revision pre)) then
    refuse OutcomeRevisionConflict ε "expectedRevision does not equal the canonical revision %s" [AStr (rec_Revision pre)]
  else if negb (src_Kind (rec_Source pre) =s "NATIVE") || rec_ShadowOverlay pre ||
          negb ((rec_Status pre =s StatusOpen) || (rec_Status pre =s StatusHeld)) then
    refuse OutcomeBlocked CodeTicketState "%s requires an OPEN or HELD native ticket (is %s %s)"
      [AStr (env_Operation env); AStr (src_Kind (rec_Source pre)); AStr (rec_Status pre)]
  else Ok tt.

Definition obligations_record (env : Envelope) (pre : Record_) : W (Record_ * string) :=
  obligation_target env pre ;;;
  match env_Payload env with
  | PObligations _ p =>
      obligationAuthority pre p ;;;
      let* ledger := current_ledger pre in
      ledger_checks pre ledger p ;;;
      let* ev := obligation_event env pre ledger in
      let* ref := next_reference pre p ev.2 (Sum sha256 ev.1) in
      let* work := clone_canonical ord pre in
      let* work := finalize pre (work <| rec_ObligationsRef := Some ref |>) false in
      advances_only pre work "an obligation write must advance only the ticket revision" ;;;
      Ok (work, ev.1)
  | _ => Err NilPointer
  end.

Definition obligations (plan : Plan) (env : Envelope) : W Plan :=
  let? pre := target env else plan in
  let plan := plan <| pl_Pre := Some pre |> in
  let? w := obligations_record env pre else plan in
  Ok (completed (plan <| pl_DerivedEvent := Some w.2 |>) w.1).

(** ** One envelope *)

(** The rest of [Apply]: the target moved by one operation. *)
Definition mutate_record (env : Envelope) (pre : Record_) : W Record_ :=
  match env_ExpectedRevision env with
  | None => Err NilPointer
  | Some r =>
      (if r =s rec_Revision pre then Ok tt
       else refuse OutcomeRevisionConflict ε "expectedRevision %s but the canonical record is at revision %s"
              [AStr r; AStr (rec_Revision pre)]) ;;;
      let* work := clone_canonical ord pre in
      let* work := step secret ctx policy work (env_Payload env) in
      finalize pre work (forcesAcceptanceBump (env_Operation env))
  end.

Definition mutate (plan : Plan) (env : Envelope) : W Plan :=
  let? pre := target env else plan in
  let plan := plan <| pl_Pre := Some pre |> in
  let? post := mutate_record env pre else plan in
  Ok (completed plan post).

(** The dispatch of [Apply] on the operation, its role checked. *)
Definition apply_operation (plan : Plan) (env : Envelope) : W Plan :=
  let op := env_Operation env in
  let? _ := (if IsReviewOperation op then Ok tt else checkRole ctx policy op) else plan in
  if op =s OpCreate then
    match env_Payload env with
    | PCreate p => create plan p
    | _ => Ok (refused plan (mkRefusal OutcomeValidationFailed CodeMalformed "CREATE payload has the wrong type" []))
    end
  else if negb (operation (env_Payload env) =s op) then
    Ok (refused plan (mkRefusal OutcomeValidationFailed CodeMalformed "payload does not belong to operation %s" [AStr op]))
  else if IsNoteOperation op then note plan env
  else if IsReviewOperation op then review plan env
  else if IsObligationOperation op then obligations plan env
  else mutate plan env.

(** ** Writes that are no envelope operations *)

(** A refusal of [finalize] as the error the caller returns. *)
Definition finalized (m : W Record_) : outcome (stop + Error) Record_ :=
  match m with
  | Ok r => Ok r
  | Err (Refuse r) => Err (inr (Errorf (if rf_code r =s ε then CodeMalformed else rf_code r) "/" (rf_detail r) (rf_args r)))
  | Err s => Err (inl s)
  | OutOfFuel => OutOfFuel
  end.

Definition raise_error {A} (x : res A) : outcome (stop + Error) A :=
  match x with Ok a => Ok a | Err e => Err (inr e) | OutOfFuel => OutOfFuel end.

Definition CompleteVerified (pre : Record_) (evidence : list string) (manifest : string) : outcome (stop + Error) Record_ :=
  let* work := raise_error (clone ord pre) in
  if negb (rec_Status work =s StatusOpen) then
    Err (inr (Errorf CodeTicketState "/status" "VERIFIED completion requires status OPEN (is %s)" [AStr (rec_Status work)]))
  else
    let c := {| cmp_Kind := "VERIFIED"; cmp_Actor := actor; cmp_Reason := None; cmp_Evidence := evidence;
                cmp_ManifestSha256 := Some manifest; cmp_RecordedAt := ctx_Now ctx |} in
    finalized (finalize pre (work <| rec_Completion := Some c |> <| rec_Status := StatusCompleted |>) false).

Definition SetEscalations (pre : Record_) (refs : EscalationRefs) : outcome (stop + Error) Record_ :=
  let* work := raise_error (clone ord pre) in
  finalized (finalize pre (work <| rec_Escalations := Some refs |>) false).
End writer.

(** ** Apply *)

Section apply.
Context (sha256 : string → string) (secret : string → bool) (ord : bool).

(** The queue, policy and inventory, when the context is complete. *)
Definition checkInputs (ctx : MutationContext) : W (Queue * Policy * Inventory) :=
  match ctx_Queue ctx, ctx_Policy ctx, ctx_Inventory ctx with
  | Some queue, Some policy, Some inv =>
      if missingIndex (ctx_Requests ctx) then
        refuse OutcomeValidationFailed CodeMalformed
          "context requires the request index (TM-V0-006); an absent index is not an empty one" []
      else if negb (QueueID_Raw (inv_QueueID inv) =s QueueID_Raw (q_QueueID queue)) then
        refuse OutcomeValidationFailed CodeMalformed "inventory queue %s is not the manifest queue %s"
          [AStr (QueueID_Raw (inv_QueueID inv)); AStr (QueueID_Raw (q_QueueID queue))]
      else match ParseTimestamp "/context/now" (ctx_Now ctx) with
      | Err e => refuse OutcomeValidationFailed CodeMalformed "context timestamp: %v" [AMsg (EWire e)]
      | _ => Ok (queue, policy, inv)
      end
  | _, _, _ =>
      refuse OutcomeValidationFailed CodeMalformed "context requires the queue manifest, the policy and the ticket inventory" []
  end.

Definition check_actor (ctx : MutationContext) (env : Envelope) : W unit :=
  let b := ctx_Binding ctx in
  if (env_ActorID env =s b_ID b) && (env_ActorRole env =s b_Role b) then Ok tt
  else refuse OutcomeUnauthorized ε "envelope actor %s/%s does not match the trusted binding %s/%s"
    [AStr (env_ActorRole env); AStr (env_ActorID env); AStr (b_Role b); AStr (b_ID b)].

(** What [Apply] checks before it consults the request index. *)
Definition check_envelope (ctx : MutationContext) (env : Envelope) : W (Queue * Policy * Inventory) :=
  Binding_validate (ctx_Binding ctx) ;;;
  check_actor ctx env ;;;
  let* inputs := checkInputs ctx in
  if QueueID_Raw (env_QueueID env) =s QueueID_Raw (q_QueueID inputs.1.1) then Ok inputs
  else refuse OutcomeValidationFailed CodeMalformed "envelope queue %s is not %s"
    [AStr (QueueID_Raw (env_QueueID env)); AStr (QueueID_Raw (q_QueueID inputs.1.1))].

Definition Apply (ctx : MutationContext) (env : Envelope) : W Plan :=
  let plan := (zero_plan (env_RequestID env)) <| pl_MutationSha256 := Envelope_Sha256 sha256 env |> in
  let? inputs := check_envelope ctx env else plan in
  let '(queue, policy, inv) := inputs in
  match replay (ctx_Requests ctx) (env_RequestID env) (pl_MutationSha256 plan) with
  | Some out => Ok (plan <| pl_Outcome := out |>)
  | None => apply_operation sha256 secret ord ctx queue policy inv plan env
  end.

(** ** Replays *)

(** [&intent.Queue{QueueID: queue}] *)
Definition queue_of (id : QueueID) : Queue :=
  mkQueue id ε ε ε ε ε None ε false None None {| wb_Reason := ε; wb_Since := None |}.

(** [noRequests]: an empty, present request index. *)
Definition noRequests : RequestIndex := Some (λ _, inr None).

Definition replay_context (queue : QueueID) (policy : Policy) (inv : Inventory) (binding : Binding) (now prior : string)
    (attempts : AttemptLedger) (events : gmap string string) (obligation : bool) : MutationContext :=
  mkContext binding (Some (queue_of queue)) (Some policy) (Some inv) None None noRequests now prior None attempts events None
    obligation None.

(** The post record and the event of a replayed plan. *)
Definition replayed (what : string) (plan : W Plan) : outcome (stop + Error) (string * string) :=
  match plan with
  | Ok p =>
      match pl_Post p, pl_DerivedEvent p with
      | Some post, Some event =>
          if Planned p then Ok (Record_Encode post, event)
          else Err (inr (Errorf CodeMalformed "/operation" (what +:+ " transition does not replay: %s [%s] " +:+ pl_Detail p)
                 (AStr (out_Outcome (pl_Outcome p)) :: AStr (strings.Join (out_Codes (pl_Outcome p)) " ") :: pl_Args p)))
      | _, _ =>
          Err (inr (Errorf CodeMalformed "/operation" (what +:+ " transition does not replay: %s [%s] " +:+ pl_Detail p)
                 (AStr (out_Outcome (pl_Outcome p)) :: AStr (strings.Join (out_Codes (pl_Outcome p)) " ") :: pl_Args p)))
      end
  | Err s => Err (inl s)
  | OutOfFuel => OutOfFuel
  end.

Definition ReplayOperatorNote (queue : QueueID) (policy : Policy) (pre : Record_) (priorEvent : string) (binding : Binding)
    (request recordedAt : string) : outcome (stop + Error) (string * string) :=
  let* env := raise_error (Mutation.Decode request) in
  if negb (IsNoteOperation (env_Operation env)) then
    Err (inr (Errorf CodeMalformed "/operation" "%s is not a note operation" [AStr (env_Operation env)]))
  else
    let* inv := raise_error (NewInventory queue [pre]) in
    replayed "note" (Apply (replay_context queue policy inv binding recordedAt priorEvent None ∅ false) env).

Definition ReplayObligation (queue : QueueID) (policy : Policy) (inventory : list Record_) (events : gmap string string)
    (attempts : AttemptLedger) (binding : Binding) (request recordedAt : string) : outcome (stop + Error) (string * string) :=
  let* env := raise_error (Mutation.Decode request) in
  if negb (IsObligationOperation (env_Operation env)) then
    Err (inr (Errorf CodeMalformed "/operation" "%s is not an obligation operation" [AStr (env_Operation env)]))
  else
    let* inv := raise_error (NewInventory queue inventory) in
    replayed "obligation" (Apply (replay_context queue policy inv binding recordedAt ε attempts events true) env).
End apply.

(** ** A small context for the ticket writer

    A queue of two tickets, an owner and the envelopes that act on them, for
    the instances of the writer's theorems. *)


(** A digest of 32 bytes, and a screen that matches one text. *)
Definition sample_sha256 (s : string) : string := "0123456789abcdef0123456789abcdef".

Definition sample_secret (s : string) : bool := s =s "secret".

Definition sample_policy : Policy :=
  mkPolicy ∅ [] [] None None None "8" "8" [] "3" "WHOLE_REPOSITORY" None ε None None ε.

Definition sample_manifest : Queue :=
  mkQueue sample_queue "repo" "TKT" "1" "0" "corvint" None "main" false None None {| wb_Reason := "NONE"; wb_Since := None |}.

Definition a_record : Record_ := sample_record "a" "P1" [].
Definition b_record : Record_ := sample_record "TKT-0001" "P1" ["a"].

Definition sample_stock : Inventory := match NewInventory sample_queue [a_record; b_record] with Ok inv => inv | _ => sample_inventory end.

Definition no_attempts : AttemptOracle := {| LiveAttempt := λ _, Unsatisfied; DescribeLiveAttempt := None |}.

Definition sample_context (role : string) : MutationContext :=
  mkContext {| b_ID := "op"; b_Role := role |} (Some sample_manifest) (Some sample_policy) (Some sample_stock) (Some no_attempts) None
    noRequests "2026-01-02T00:00:00Z" ε None None ∅ None false None.

(** The owner's context, with the requests of an index. *)
Definition seen_context (m : MemoryIndex) : MutationContext :=
  mkContext {| b_ID := "op"; b_Role := "OWNER" |} (Some sample_manifest) (Some sample_policy) (Some sample_stock) (Some no_attempts)
    None (Some (MemoryIndex_Lookup m)) "2026-01-02T00:00:00Z" ε None None ∅ None false None.

Definition sample_envelope (role : string) (local : option string) (p : Payload) : Envelope :=
  mkEnvelope "r1" "op" role sample_queue (sample_id <$> local) (match local with Some _ => Some "1" | None => None end)
    (operation p) p "2026-01-02T00:00:00Z" ε.

(** The plan of an envelope on the sample. *)
Definition sample_plan (role : string) (local : option string) (p : Payload) : Plan :=
  match Apply sample_sha256 sample_secret false (sample_context role) (sample_envelope role local p) with
  | Ok plan => plan
  | _ => zero_plan ε
  end.

(** A new ticket that follows [a]. *)
Definition sample_create (token : option string) : CreatePayload :=
  mkCreatePayload None ε token "t" None "BUG" None None "P1" "0" [] [sample_dep "a"] ["c"] [] (rec_Source a_record)
    (rec_Effects a_record) [] [] "AUTONOMOUS" None None None None.

(** The envelope as it is decoded from its bytes, and its plan. *)
Definition sample_sent (role : string) (local : option string) (p : Payload) : Envelope :=
  match Mutation.Decode (EncodeFile (Envelope_Value (sample_envelope role local p))) with
  | Ok env => env
  | _ => sample_envelope role local p
  end.

Definition sent_plan (role : string) (local : option string) (p : Payload) : Plan :=
  match Apply sample_sha256 sample_secret false (sample_context role) (sample_sent role local p) with
  | Ok plan => plan
  | _ => zero_plan ε
  end.
