(* ===== verification/Adopt.v ===== *)
(** * The ticket writer: adopting a diverged intent file

    [adopt.go] of [src/internal/tasks/mutation]: the differences between a
    file and the canonical record are composed, in a fixed order, into
    operations that [step] applies one by one, and the composition is
    finalized as one revision. *)

From S2P Require Import Prelude Utf8 GoStd Codes Limits Value Primitives Ids Parse Reader Ticket Inventory Collision Marks.
From S2P Require Import KnowHow RecordParts RecordCodec Intent Updates Mutation Outcomes Screen Writer Apply.
Local Open Scope Z_scope.
Local Open Scope go_scope.

Definition AdoptOperation : string := "ADOPT_FILE".

Definition AdoptProtectedFields : list string :=
  ["status"; "archivedFrom"; "completion"; "approvals"; "revision"; "acceptanceRevision"; "previousRecordSha256"; "source";
   "shadowOverlay"; "supersededBy"; "createdAt"; "updatedBy"; "escalations"; "attachedEvidence"; "progress"; "knowHow";
   "obligations"].

Definition adoptIgnoredFields : list string := ["updatedAt"; "updatedBy"; "revision"; "acceptanceRevision"; "previousRecordSha256"].

Definition adopt_preimage (b : Binding) (queue : QueueID) (target : TicketID) (requestID fileSha256 : string) : Value :=
  let a := Set_ (Set_ NewObject "id" (VString (b_ID b))) "role" (VString (b_Role b)) in
  let o := Set_ NewObject "actor" (VObject a) in
  let o := Set_ o "fileSha256" (VString fileSha256) in
  let o := Set_ o "operation" (VString AdoptOperation) in
  let o := Set_ o "queueId" (VString (QueueID_Raw queue)) in
  let o := Set_ o "requestId" (VString requestID) in
  VObject (Set_ o "targetId" (VString (TicketID_Raw target))).

Definition AdoptDigest (sha256 : string → string) (b : Binding) (queue : QueueID) (target : TicketID) (requestID file : string) :
    string :=
  Sum sha256 (EncodeFile (adopt_preimage b queue target requestID (Sum sha256 file))).

(** ** Differences *)

(** [v.Obj] of a value that is an object. *)
Definition object_of (v : Value) : Object := match v with VObject o => o | _ => NewObject end.

Definition unionKeys (a b : Object) : list string :=
  SortedKeys a ++ filter (λ k, Get a k = None) (SortedKeys b).

Definition differingFields (a b : Record_) : list string :=
  filter (λ k, fieldChanged a b k = true) (unionKeys (object_of (Record_Value a)) (object_of (Record_Value b))).

Definition derivableStatus (status : string) : bool :=
  (status =s StatusDraft) || (status =s StatusOpen) || (status =s StatusHeld).

(** The protected fields the file changes. *)
Definition protected_changes (canonical file : Record_) (diff : list string) : list string :=
  filter (λ f, existsb (String.eqb f) diff &&
    negb ((f =s "status") && derivableStatus (rec_Status canonical) && derivableStatus (rec_Status file)) = true)
    AdoptProtectedFields.

(** ** Composition *)

Definition has_diff (diff : list string) (k : string) : bool := existsb (String.eqb k) diff.

(** The fields of [file] that differ and [REFINE] sets. *)
Definition adopt_refine (file : Record_) (diff : list string) : RefinePayload :=
  let has := has_diff diff in
  let keep {A} (k : string) (new zero : A) : A := if has k then new else zero in
  mkRefinePayload (keep "executionPrerequisites" (rec_ExecutionPrerequisites file) [])
    (keep "requiredRoles" (rec_RequiredRoles file) None)
    (keep "requiresPool" (if rec_RequiresPool file =s ε then None else Some (rec_RequiresPool file)) None)
    (list_to_set (filter (λ k, has k = true) RefineFields))
    (keep "title" (rec_Title file) ε) (keep "body" (rec_Body file) None) (keep "kind" (rec_Kind file) ε)
    (keep "owner" (rec_Owner file) None) (keep "milestone" (rec_Milestone file) None) (keep "labels" (rec_Labels file) [])
    (keep "acceptanceCriteria" (rec_AcceptanceCriteria file) []) (keep "requirementRefs" (rec_RequirementRefs file) [])
    (keep "dueDate" (rec_DueDate file) None) (keep "estimateMinutes" (rec_EstimateMinutes file) None)
    (keep "supersedes" (rec_Supersedes file) None) None.

Definition holds_by (hs : list Hold) : gmap string Hold := foldl (λ m h, <[hold_HoldID h := h]> m) ∅ hs.

(** [holdValue] *)
Definition holdValue (h : Hold) : Value :=
  let o := Set_ NewObject "holdId" (VString (hold_HoldID h)) in
  let o := Set_ o "actor" (VString (hold_Actor h)) in
  let o := Set_ o "reason" (VString (hold_Reason h)) in
  let o := Set_ o "placedAt" (VString (hold_PlacedAt h)) in
  VObject (set_opt o "condition" (HoldCondition_Value <$> hold_Condition h)).

Definition unsupported {A} (format : string) (args : list fmtarg) : W A :=
  refuse OutcomeValidationFailed CodeAdoptUnsupportedField format args.

Definition edited_hold (m : gmap string Hold) (h : Hold) : W unit :=
  match m !! hold_HoldID h with
  | Some f =>
      if Equal (holdValue h) (holdValue f) then Ok tt
      else unsupported "file edits existing hold %q (actor, reason or placedAt); no composed operation covers that" [AStr (hold_HoldID h)]
  | None => Ok tt
  end.

Definition zero_byte : string := String "000" ε.

(** The ids of the holds that [m] has too. *)
Definition common_holds (m : gmap string Hold) (hs : list Hold) : list string :=
  omap (λ h, if some (m !! hold_HoldID h) then Some (hold_HoldID h) else None) hs.

Definition composeHolds (canonical file : list Hold) : W (list Payload) :=
  let canonBy := holds_by canonical in
  let fileBy := holds_by file in
  each_check (edited_hold fileBy) canonical ;;;
  if negb (strings.Join (common_holds fileBy canonical) zero_byte =s strings.Join (common_holds canonBy file) zero_byte) then
    unsupported "file reorders existing holds; no composed operation covers that" []
  else
    Ok (((λ h, PHold (hold_HoldID h) (hold_Reason h) (hold_Condition h)) <$>
          filter (λ h, canonBy !! hold_HoldID h = None) file) ++
        ((λ h, PReleaseHold (hold_HoldID h)) <$> filter (λ h, fileBy !! hold_HoldID h = None) canonical)).

Definition composeAdopt (canonical file : Record_) (diff : list string) : W (list Payload) :=
  let has := has_diff diff in
  let refine := adopt_refine file diff in
  let* holds := (if has "holds" then composeHolds (rec_Holds canonical) (rec_Holds file) else Ok []) in
  Ok ((if existsb has RefineFields then [PRefine refine] else []) ++
      (if has "priority" || has "order" then [PPrioritize (rec_Priority file) (rec_Order file)] else []) ++
      (if has "dependencies" then [PSetDependencies (rec_Dependencies file)] else []) ++
      (if has "requiredGates" then [PSetGates (rec_RequiredGates file)] else []) ++
      (if has "effects" || has "capabilities" || has "executionClass"
       then [PSetEffects (rec_Effects file) (rec_Capabilities file) (rec_ExecutionClass file)] else []) ++
      holds).

(** ** Coverage *)

Definition adoptStatusCovered (canonical work file : Record_) : W unit :=
  if rec_Status work =s rec_Status file then Ok tt
  else if (rec_Status canonical =s StatusDraft) && (rec_Status file =s StatusDraft) && (rec_Status work =s StatusOpen) then Ok tt
  else unsupported "file status %s is not the status %s derived by the composition rule" [AStr (rec_Status file); AStr (rec_Status work)].

(** Only the condition of a hold. *)
Definition condition_value (h : Hold) : Value :=
  holdValue {| hold_HoldID := ε; hold_Actor := ε; hold_Reason := ε; hold_PlacedAt := ε; hold_Condition := hold_Condition h |}.

Definition same_hold (w f : Hold) : bool :=
  (hold_HoldID w =s hold_HoldID f) && (hold_Reason w =s hold_Reason f) && Equal (condition_value w) (condition_value f).

Definition uncompared (k : string) : bool := existsb (String.eqb k) adoptIgnoredFields || (k =s "holds") || (k =s "status").

Definition covered_field (work file : Record_) (k : string) : W unit :=
  if uncompared k || negb (fieldChanged work file k) then Ok tt
  else unsupported "difference in %q is not covered by the composition rule" [AStr k].

Definition adoptCovered (canonical work file : Record_) : W unit :=
  each_check (covered_field work file) (unionKeys (object_of (Record_Value work)) (object_of (Record_Value file))) ;;;
  adoptStatusCovered canonical work file ;;;
  if negb (length (rec_Holds work) =? length (rec_Holds file))%nat then
    unsupported "holds difference is not covered by the composition rule" []
  else each_check (λ wf, if same_hold wf.1 wf.2 then Ok tt
    else unsupported "holds order in the file is not covered by the composition rule" []) (zip (rec_Holds work) (rec_Holds file)).

Definition adoptOperatorNote (canonical file : Record_) : W unit :=
  let bytes r := match rec_OperatorNote r with Some n => Encode (OperatorNoteReference_Value n) | None => ε end in
  if bytes canonical =s bytes file then Ok tt
  else unsupported "file differs in protected field operatorNote; adopt refused, ticket stays diverged" [].

Definition adoptExternalReviews (canonical file : Record_) : W unit :=
  if Equal (ExternalReviewsValue (rec_ExternalReviews canonical)) (ExternalReviewsValue (rec_ExternalReviews file)) then Ok tt
  else unsupported "file differs in protected field externalReviews; adopt refused, ticket stays diverged" [].

(** ** Adopt *)

Section adopt.
Context (sha256 : string → string) (secret : string → bool) (ord : bool).

(** The composed operations applied in order, the record with those done. *)
Fixpoint compose_steps (ctx : MutationContext) (policy : Policy) (work : Record_) (ops : list Payload) : W Record_ :=
  match ops with
  | [] => Ok work
  | op :: ops' => let* work := step secret ctx policy work op in compose_steps ctx policy work ops'
  end.

(** The operations done before the one that is refused. *)
Fixpoint composed_steps (ctx : MutationContext) (policy : Policy) (work : Record_) (ops : list Payload) : list string :=
  match ops with
  | [] => []
  | op :: ops' =>
      match step secret ctx policy work op with
      | Ok work => operation op :: composed_steps ctx policy work ops'
      | _ => []
      end
  end.

Definition adopt_role (b : Binding) : W unit :=
  if (b_Role b =s "OWNER") || (b_Role b =s "OPERATOR") then Ok tt
  else refuse OutcomeUnauthorized ε "ADOPT_FILE is issued by OWNER or OPERATOR, not %s" [AStr (b_Role b)].

(** The canonical record is the inventory's current one. *)
Definition adopt_target (queue : Queue) (inv : Inventory) (canonical : option Record_) : W Record_ :=
  match canonical with
  | None => refuse OutcomeValidationFailed CodeMalformed "no canonical record" []
  | Some c =>
      let id := rec_TicketID c in
      if negb (TicketID_QueueID id =s QueueID_Raw (q_QueueID queue)) then
        refuse OutcomeValidationFailed CodeMalformed "canonical record %s is outside queue %s"
          [AStr (TicketID_Raw id); AStr (QueueID_Raw (q_QueueID queue))]
      else
        let* cur := get inv (TicketID_Raw id) in
        if match cur with Some cur => FileDigest sha256 cur =s FileDigest sha256 c | None => false end then Ok c
        else refuse OutcomeValidationFailed CodeMalformed "canonical record %s is not the inventory's current record"
          [AStr (TicketID_Raw id)]
  end.

(** The file, and what it may not change. *)
Definition adopt_file (canonical : Record_) (file : string) : W (Record_ * list Payload) :=
  let* f := or_refuse (RecordCodec.Decode ord file) in
  if negb (TicketID_Raw (rec_TicketID f) =s TicketID_Raw (rec_TicketID canonical)) then
    refuse OutcomeValidationFailed CodeMalformed "file ticketId %s is not the canonical %s"
      [AStr (TicketID_Raw (rec_TicketID f)); AStr (TicketID_Raw (rec_TicketID canonical))]
  else if rec_Status canonical =s StatusArchived then
    refuse OutcomeBlocked CodeTicketState "ticket is ARCHIVED; only RESTORE is permitted and ADOPT_FILE composes none" []
  else
    let diff := differingFields canonical f in
    adoptOperatorNote canonical f ;;;
    adoptExternalReviews canonical f ;;;
    match protected_changes canonical f diff with
    | [] => Ok tt
    | ps => unsupported "file differs in protected field(s) %s; adopt refused, ticket stays diverged" [AStr (strings.Join ps ", ")]
    end ;;;
    let* ops := composeAdopt canonical f diff in
    Ok (f, ops).

Definition adopt_inputs (ctx : MutationContext) (requestID : string) (canonical : option Record_) :
    W (Queue * Policy * Inventory * Record_) :=
  let* _ := or_refuse (ParseRequestID "/requestId" requestID) in
  Binding_validate (ctx_Binding ctx) ;;;
  adopt_role (ctx_Binding ctx) ;;;
  let* inputs := checkInputs ctx in
  let* c := adopt_target inputs.1.1 inputs.2 canonical in
  Ok (inputs, c).

Definition adopt_finish (ctx : MutationContext) (policy : Policy) (inv : Inventory) (canonical work file : Record_) : W Record_ :=
  adoptCovered canonical work file ;;;
  finalize sha256 ord ctx policy inv canonical work false.

Definition Adopt (ctx : MutationContext) (requestID : string) (canonical : option Record_) (file : string) : W Plan :=
  let plan := (zero_plan requestID) <| pl_Pre := canonical |> in
  let? i := adopt_inputs ctx requestID canonical else plan in
  let '(queue, policy, inv, c) := i in
  let plan := plan <| pl_MutationSha256 := AdoptDigest sha256 (ctx_Binding ctx) (q_QueueID queue) (rec_TicketID c) requestID file |> in
  match replay (ctx_Requests ctx) requestID (pl_MutationSha256 plan) with
  | Some out => Ok (plan <| pl_Outcome := out |>)
  | None =>
      let? fo := adopt_file c file else plan in
      let? work := clone_canonical ord c else plan in
      let plan := plan <| pl_Composed := composed_steps ctx policy work fo.2 |> in
      let? work := compose_steps ctx policy work fo.2 else plan in
      let? post := adopt_finish ctx policy inv c work fo.1 else plan in
      Ok (completed plan post)
  end.
End adopt.
