(* ===== verification/WriterSpec.v ===== *)
(** * What a planned write went through

    A computation of the writer that succeeds passed each of its checks.
    [Apply_planned] takes a planned envelope apart once, for the theorems of
    [ApplySpec]: every plan is a new record, or the target moved by one
    [change] and finalized. *)

From S2P Require Import Prelude Utf8 GoStd Codes Limits Value Primitives Ids Parse Reader Ticket Inventory Collision Marks.
From S2P Require Import KnowHow RecordParts RecordCodec Obligations ObligationEvents ObligationLedger NoteEvents Intent Updates.
From S2P Require Import Mutation Outcomes Screen Writer Apply.
Local Open Scope Z_scope.
Local Open Scope go_scope.

(** ** Computations that succeed *)

(** Take a successful computation apart, check by check. *)
Ltac w_step :=
  match goal with
  | H : obind _ _ = Ok _ |- _ => apply obind_Ok in H; destruct H as (? & ? & ?)
  | H : Ok _ = Ok _ |- _ => injection H; clear H; intros; subst
  | H : refuse _ _ _ _ = Ok _ |- _ => discriminate H
  | H : refuseErr _ = Ok _ |- _ => discriminate H
  | H : wrong_status _ _ = Ok _ |- _ => discriminate H
  | H : Err _ = Ok _ |- _ => discriminate H
  | H : OutOfFuel = Ok _ |- _ => discriminate H
  | u : unit |- _ => destruct u
  end.

(** The next case a successful computation depends on. *)
Ltac w_case :=
  match goal with
  | H : (if ?b then _ else _) = Ok _ |- _ => let E := fresh "Hc" in destruct b eqn:E
  | H : (match ?x with _ => _ end) = Ok _ |- _ => let E := fresh "Hm" in destruct x eqn:E
  end.

Ltac w_inv := repeat w_step.
Ltac w_cases := repeat first [w_step|w_case; try discriminate].

Lemma refuse_error_Ok e u : refuse_error e = Ok u ↔ e = None.
Proof. destruct e, u; cbn; unfold refuseErr, refuse; cbv zeta; by split. Qed.

Lemma or_refuse_Ok {A} (x : res A) a : or_refuse x = Ok a ↔ x = Ok a.
Proof. destruct x; cbn; unfold refuseErr, refuse; cbv zeta; split; intros [= ->] || intros [=]; done. Qed.

Lemma clone_canonical_Ok ord pre work : clone_canonical ord pre = Ok work ↔ clone ord pre = Ok work.
Proof. unfold clone_canonical, refuse. destruct (clone ord pre); split; intros [= ->] || intros [=]; done. Qed.

Lemma each_check_Ok {A} (f : A → W unit) l u : each_check f l = Ok u ↔ Forall (λ a, f a = Ok tt) l.
Proof.
  destruct u. induction l as [|a l IH]; cbn [each_check]; [by split|].
  rewrite Forall_cons. split; [intros ([] & ? & ?%IH)%obind_Ok; done|intros [? ?%IH]; apply obind_Ok; by exists tt].
Qed.

Lemma get_Ok inv id r : get inv id = Ok (Some r) ↔ (Inventory_Get inv id).2 = Found r.
Proof. unfold get. destruct (Inventory_Get inv id).2; by split; intros [= ->] || done. Qed.

(** ** Plans *)

Lemma refused_not_planned p r : Planned (refused p r) = false.
Proof. unfold Planned, refused. cbn. by rewrite andb_false_r. Qed.

Lemma orelse_planned {A} plan (m : W A) k p :
  orelse plan m k = Ok p → Planned p = true → ∃ a, m = Ok a ∧ k a = Ok p.
Proof.
  destruct m as [a|[r| |]|]; cbn; intros H Hp; [by eauto|injection H as <-|done|done|done].
  by rewrite refused_not_planned in Hp.
Qed.

Lemma completed_planned p post : Planned (completed p post) = true.
Proof. done. Qed.

Lemma outcome_not_planned plan out : pl_Post plan = None → Planned (plan <| pl_Outcome := out |>) = false.
Proof. intros Hp. unfold Planned. cbn. rewrite Hp. by rewrite andb_false_r. Qed.

(** ** The change of a target *)

Section writer.
Context (sha256 : string → string) (secret : string → bool) (ord : bool).
Context (ctx : MutationContext) (queue : Queue) (policy : Policy) (inv : Inventory).

(** What an envelope makes of its target, before the checks of the whole
    change: one step, or a new reference to a note, a review or a ledger. *)
Inductive change (env : Envelope) (work : Record_) : Record_ → Prop :=
  | change_step work' :
      IsNoteOperation (env_Operation env) = false → IsReviewOperation (env_Operation env) = false →
      IsObligationOperation (env_Operation env) = false →
      step secret ctx policy work (env_Payload env) = Ok work' → change env work work'
  | change_note ref :
      IsNoteOperation (env_Operation env) = true → change env work (work <| rec_OperatorNote := Some ref |>)
  | change_review gate ref :
      IsReviewOperation (env_Operation env) = true →
      change env work (work <| rec_ExternalReviews := <[gate := ref]> (rec_ExternalReviews work) |>)
  | change_obligations ref :
      IsObligationOperation (env_Operation env) = true → change env work (work <| rec_ObligationsRef := Some ref |>).

(** The target [pre] became [post]. *)
Definition moved (env : Envelope) (pre post : Record_) : Prop :=
  ∃ work work', clone ord pre = Ok work ∧ change env work work' ∧
    finalize sha256 ord ctx policy inv pre work' (forcesAcceptanceBump (env_Operation env)) = Ok post.

Lemma forces_only op :
  forcesAcceptanceBump op = true → IsNoteOperation op = false ∧ IsReviewOperation op = false ∧ IsObligationOperation op = false.
Proof.
  unfold forcesAcceptanceBump. intros [[Hop|Hop]%orb_true_iff|Hop]%orb_true_iff;
    apply String.eqb_eq in Hop as ->; by vm_compute.
Qed.

Lemma not_forced op : IsNoteOperation op || IsReviewOperation op || IsObligationOperation op = true → forcesAcceptanceBump op = false.
Proof.
  intros H. destruct (forcesAcceptanceBump op) eqn:Hf; [|done]. apply forces_only in Hf as (Ha & Hb & Hc).
  by rewrite Ha, Hb, Hc in H.
Qed.

Lemma note_moved env pre post event :
  IsNoteOperation (env_Operation env) = true → note_record_of sha256 secret ord ctx queue policy inv env pre = Ok (post, event) →
  moved env pre post.
Proof.
  intros Hop H. unfold note_record_of in H. w_inv.
  match goal with H : clone_canonical _ _ = Ok ?w |- _ => apply clone_canonical_Ok in H; exists w end.
  eexists. split_and!; [done|by eapply change_note|]. rewrite not_forced; [done|]. by rewrite Hop.
Qed.

Lemma review_moved env pre post event :
  IsReviewOperation (env_Operation env) = true → review_record_of sha256 ord ctx policy inv env pre = Ok (post, event) →
  moved env pre post.
Proof.
  intros Hop H. unfold review_record_of in H. w_cases.
  all: match goal with H : clone_canonical _ _ = Ok ?w |- _ => apply clone_canonical_Ok in H; exists w end.
  all: eexists; split_and!; [done|by eapply change_review|]; rewrite not_forced; [done|]; by rewrite Hop, orb_true_r.
Qed.

Lemma obligations_moved env pre post event :
  IsObligationOperation (env_Operation env) = true →
  obligations_record sha256 secret ord ctx policy inv env pre = Ok (post, event) → moved env pre post.
Proof.
  intros Hop H. unfold obligations_record in H. apply obind_Ok in H as ([] & _ & H).
  destruct (env_Payload env); try done. w_inv.
  match goal with H : clone_canonical _ _ = Ok ?w |- _ => apply clone_canonical_Ok in H; exists w end.
  eexists. split_and!; [done|by eapply change_obligations|]. rewrite not_forced; [done|]. by rewrite Hop, orb_true_r.
Qed.
Lemma mutate_moved env pre post :
  IsNoteOperation (env_Operation env) = false → IsReviewOperation (env_Operation env) = false →
  IsObligationOperation (env_Operation env) = false →
  mutate_record sha256 secret ord ctx policy inv env pre = Ok post →
  moved env pre post ∧ env_ExpectedRevision env = Some (rec_Revision pre).
Proof.
  intros Hn Hr Ho H. unfold mutate_record in H. destruct (env_ExpectedRevision env) as [r|]; [|done].
  apply obind_Ok in H as ([] & Hrev & H). destruct (r =s rec_Revision pre) eqn:E; [|done]. apply String.eqb_eq in E as ->.
  w_inv. match goal with H : clone_canonical _ _ = Ok ?w |- _ => apply clone_canonical_Ok in H; rename w into work end.
  split; [|done]. exists work. eexists. split_and!; [done|by eapply change_step|done].
Qed.

(** The revision an envelope expects of its target. A note carries it in the
    text of its request and meets it at the record its file decodes to; only a
    note or a review may leave it open. *)
Definition expected_met (env : Envelope) (pre : Record_) : Prop :=
  if IsNoteOperation (env_Operation env) then
    ∃ q pre', DecodeOperatorNoteRequest (env_Raw env) = Ok q ∧ RecordCodec.Decode ord (Record_Encode pre) = Ok pre' ∧
      TicketID_Raw (onr_TicketID q) = TicketID_Raw (rec_TicketID pre') ∧
      ∀ r, onr_ExpectedRevision q = Some r → r = rec_Revision pre'
  else match env_ExpectedRevision env with Some r => r = rec_Revision pre | None => IsReviewOperation (env_Operation env) = true end.

Lemma review_expected env pre w : IsNoteOperation (env_Operation env) = false →
  IsReviewOperation (env_Operation env) = true → review_record_of sha256 ord ctx policy inv env pre = Ok w → expected_met env pre.
Proof.
  intros Hn Hop H. unfold expected_met. rewrite Hn. unfold review_record_of in H. destruct (env_ExpectedRevision env) as [r|]; [|done].
  destruct (_ =s StatusArchived); [done|]. destruct (negb _ || _); [done|]. apply obind_Ok in H as ([] & H & _).
  destruct (r =s rec_Revision pre) eqn:E; [|done]. by apply String.eqb_eq in E.
Qed.

(** A review is planned of an observation that refuses nothing and whose event
    is the one its reference names. *)
Definition review_observed (ctx : MutationContext) : Prop :=
  ∃ x event, ctx_ExternalReview ctx = Some x ∧ xr_Outcome x = ε ∧ xr_Event x = Some event ∧ Sum sha256 event = rev_Head (xr_Ref x).

Lemma review_observed_Ok env pre w : review_record_of sha256 ord ctx policy inv env pre = Ok w → review_observed ctx.
Proof.
  intros H. unfold review_record_of in H. destruct (_ =s StatusArchived); [done|]. destruct (negb _ || _); [done|].
  apply obind_Ok in H as ([] & _ & H). destruct (ctx_ExternalReview ctx) as [x|] eqn:Hx; [|done].
  destruct (String.eqb_spec (xr_Outcome x) ε) as [Ho|]; cbn [negb] in H; [|done]. destruct (xr_Event x) as [event|] eqn:He; [|done].
  destruct (String.eqb_spec (Sum sha256 event) (rev_Head (xr_Ref x))) as [Hs|]; cbn [negb] in H; [|done]. by exists x, event.
Qed.

Lemma obligations_expected env pre w : IsNoteOperation (env_Operation env) = false →
  obligations_record sha256 secret ord ctx policy inv env pre = Ok w → expected_met env pre.
Proof.
  intros Hn H. unfold expected_met. rewrite Hn. unfold obligations_record in H. apply obind_Ok in H as ([] & H & _). unfold obligation_target in H.
  destruct (is_string _ _) eqn:E; [|done]. unfold is_string in E. destruct (env_ExpectedRevision env); [|done].
  by apply String.eqb_eq in E.
Qed.

(** The record is not archived, as it is or as its file decodes. *)
Definition unarchived (pre : Record_) : Prop :=
  rec_Status pre ≠ StatusArchived ∨
  ∃ pre', RecordCodec.Decode ord (Record_Encode pre) = Ok pre' ∧ rec_Status pre' ≠ StatusArchived.

(** Only a step acts on an archived ticket. *)
Definition derived_live (env : Envelope) (pre : Record_) : Prop :=
  DeclaresDerivedEvent (env_Operation env) = true → unarchived pre.

Lemma note_raise_Ok {A} (x : res A) a : note_raise x = Ok a ↔ x = Ok a.
Proof. destruct x; cbn; split; intros [= ->] || intros [=]; done. Qed.

Lemma note_refusal_Ok {A} (x : outcome note_error A) a : note_refusal x = Ok a → x = Ok a.
Proof. destruct x as [|[e|o w d]|]; cbn; unfold refuseErr, refuse; cbv zeta; [by intros [= ->]|done..]. Qed.

(** What a note requires of the record its target's file decodes to. *)
Lemma note_target env pre w : note_record_of sha256 secret ord ctx queue policy inv env pre = Ok w →
  ∃ q pre', DecodeOperatorNoteRequest (env_Raw env) = Ok q ∧ RecordCodec.Decode ord (Record_Encode pre) = Ok pre' ∧
    TicketID_Raw (onr_TicketID q) = TicketID_Raw (rec_TicketID pre') ∧ rec_Status pre' ≠ StatusArchived ∧
    ∀ r, onr_ExpectedRevision q = Some r → r = rec_Revision pre'.
Proof.
  intros H. unfold note_record_of in H. w_inv.
  match goal with Hp : note_refusal _ = Ok _ |- _ => apply note_refusal_Ok in Hp; rename Hp into Hp' end.
  unfold ProposeOperatorNote in Hp'. apply obind_Ok in Hp' as (q & Hq%note_raise_Ok & Hp'). apply obind_Ok in Hp' as (? & _ & Hp').
  apply obind_Ok in Hp' as (pre' & Hr & _). unfold note_record in Hr. cbn in Hr. apply obind_Ok in Hr as (r & Hd%note_raise_Ok & Hr).
  exists q, r. destruct (String.eqb_spec (TicketID_Raw (onr_TicketID q)) (TicketID_Raw (rec_TicketID r))) as [Ht|]; cbn [negb] in Hr; [|done].
  destruct (String.eqb_spec (rec_Status r) StatusArchived) as [|Hs]; [done|]. destruct (_ || _) in Hr; [done|].
  split_and!; [done..|]. intros n En. rewrite En in Hr. by destruct (String.eqb_spec n (rec_Revision r)).
Qed.

Lemma note_unarchived env pre w : note_record_of sha256 secret ord ctx queue policy inv env pre = Ok w → unarchived pre.
Proof. intros (_ & pre' & _ & Hd & _ & Hs & _)%note_target. right. by exists pre'. Qed.

Lemma note_expected env pre w : IsNoteOperation (env_Operation env) = true →
  note_record_of sha256 secret ord ctx queue policy inv env pre = Ok w → expected_met env pre.
Proof.
  intros Hn (q & pre' & Hq & Hd & Ht & _ & Hr)%note_target. unfold expected_met. rewrite Hn. by exists q, pre'.
Qed.

Lemma review_unarchived env pre w : review_record_of sha256 ord ctx policy inv env pre = Ok w → unarchived pre.
Proof.
  intros H. unfold review_record_of in H. destruct (_ =s StatusArchived) eqn:E; [done|]. left. by apply String.eqb_neq.
Qed.

Lemma obligations_unarchived env pre w : obligations_record sha256 secret ord ctx policy inv env pre = Ok w → unarchived pre.
Proof.
  intros H. unfold obligations_record in H. apply obind_Ok in H as ([] & H & _). unfold obligation_target in H.
  destruct (is_string _ _); [|done]. cbn [negb] in H. left. intros Hs. rewrite Hs in H.
  change (_ || (StatusArchived =s StatusHeld)) with false in H. by rewrite orb_true_r in H.
Qed.
End writer.

(** ** A planned envelope *)

Section apply.
Context (sha256 : string → string) (secret : string → bool) (ord : bool) (ctx : MutationContext) (env : Envelope).

Let plan0 : Plan := (zero_plan (env_RequestID env)) <| pl_MutationSha256 := Envelope_Sha256 sha256 env |>.

(** What a planned envelope did: a new record, or its target moved. *)
Inductive applied (queue : Queue) (policy : Policy) (inv : Inventory) (p : Plan) : Prop :=
  | applied_create cp post next :
      env_Operation env = OpCreate → env_Payload env = PCreate cp →
      create_record ord ctx queue policy inv cp = Ok (post, next) →
      p = completed (plan0 <| pl_QueuePost := next |>) post → applied queue policy inv p
  | applied_move pre post :
      env_Operation env ≠ OpCreate → operation (env_Payload env) = env_Operation env →
      target inv env = Ok pre → expected_met ord env pre → derived_live ord env pre →
      moved sha256 secret ord ctx policy inv env pre post →
      pl_Pre p = Some pre → pl_Post p = Some post → pl_QueuePost p = None → applied queue policy inv p.

Lemma apply_operation_planned queue policy inv p :
  apply_operation sha256 secret ord ctx queue policy inv plan0 env = Ok p → Planned p = true →
  (IsReviewOperation (env_Operation env) = true ∨ checkRole ctx policy (env_Operation env) = Ok tt) ∧ applied queue policy inv p.
Proof.
  unfold apply_operation. intros H Hp.
  apply orelse_planned in H as ([] & Hrole & H); [|done].
  split; [destruct (IsReviewOperation (env_Operation env)); [by left|by right]|].
  destruct (env_Operation env =s OpCreate) eqn:Hc.
  { apply String.eqb_eq in Hc. destruct (env_Payload env) eqn:Hpay; try (injection H as <-; by rewrite refused_not_planned in Hp).
    unfold create in H. apply orelse_planned in H as ([post next] & Hr & [= <-]); [|done]. by eapply applied_create. }
  apply String.eqb_neq in Hc. destruct (operation _ =s _) eqn:Hop in H; cbn [negb] in H;
    [|injection H as <-; by rewrite refused_not_planned in Hp].
  apply String.eqb_eq in Hop.
  destruct (IsNoteOperation (env_Operation env)) eqn:Hn.
  { unfold note in H. apply orelse_planned in H as (pre & Ht & H); [|done].
    apply orelse_planned in H as ([post ev] & Hr & [= <-]); [|done].
    eapply applied_move; try done; [by eapply note_expected|intros _; by eapply note_unarchived|by eapply note_moved]. }
  destruct (IsReviewOperation (env_Operation env)) eqn:Hrv.
  { unfold review in H. apply orelse_planned in H as (pre & Ht & H); [|done].
    apply orelse_planned in H as ([post ev] & Hr & [= <-]); [|done].
    eapply applied_move; try done; [by eapply review_expected|intros _; by eapply review_unarchived|by eapply review_moved]. }
  destruct (IsObligationOperation (env_Operation env)) eqn:Hob.
  { unfold obligations in H. apply orelse_planned in H as (pre & Ht & H); [|done].
    apply orelse_planned in H as ([post ev] & Hr & [= <-]); [|done].
    eapply applied_move; try done; [by eapply obligations_expected|intros _; by eapply obligations_unarchived|by eapply obligations_moved]. }
  unfold mutate in H. apply orelse_planned in H as (pre & Ht & H); [|done].
  apply orelse_planned in H as (post & Hr & [= <-]); [|done].
  apply mutate_moved in Hr as [Hm He]; [|done..]. eapply applied_move; try done; [by unfold expected_met; rewrite Hn, He|]. intros Hd. unfold DeclaresDerivedEvent in Hd. by rewrite Hn, Hrv, Hob in Hd.
Qed.

(** A planned note, review or obligation write, with its event. *)
Lemma derived_planned queue policy inv p :
  apply_operation sha256 secret ord ctx queue policy inv plan0 env = Ok p → Planned p = true →
  DeclaresDerivedEvent (env_Operation env) = true →
  ∃ pre w, target inv env = Ok pre ∧ pl_Pre p = Some pre ∧ pl_Post p = Some w.1 ∧ pl_DerivedEvent p = Some w.2 ∧
    (if IsNoteOperation (env_Operation env) then note_record_of sha256 secret ord ctx queue policy inv env pre
     else if IsReviewOperation (env_Operation env) then review_record_of sha256 ord ctx policy inv env pre
     else obligations_record sha256 secret ord ctx policy inv env pre) = Ok w.
Proof.
  unfold apply_operation, DeclaresDerivedEvent. intros H Hp Hd. apply orelse_planned in H as ([] & _ & H); [|done].
  destruct (env_Operation env =s OpCreate) eqn:Hc; [apply String.eqb_eq in Hc; by rewrite Hc in Hd|].
  destruct (operation _ =s _) in H; cbn [negb] in H; [|injection H as <-; by rewrite refused_not_planned in Hp].
  destruct (IsNoteOperation _); [|destruct (IsReviewOperation _); [|destruct (IsObligationOperation _); [|done]]].
  all: apply orelse_planned in H as (pre & Ht & H); [|done]; apply orelse_planned in H as (w & Hr & [= <-]); [|done].
  all: by exists pre, w.
Qed.

Lemma review_no_note op : IsReviewOperation op = true → IsNoteOperation op = false.
Proof. unfold IsReviewOperation. by intros [->%String.eqb_eq| ->%String.eqb_eq]%orb_true_iff. Qed.

(** A review answers to its observation, every other operation to its role. *)
Definition authorized (policy : Policy) : Prop :=
  if IsReviewOperation (env_Operation env) then review_observed sha256 ctx
  else checkRole ctx policy (env_Operation env) = Ok tt.

Lemma apply_operation_authorized queue policy inv p :
  apply_operation sha256 secret ord ctx queue policy inv plan0 env = Ok p → Planned p = true → authorized policy.
Proof.
  unfold authorized. intros H Hp. destruct (IsReviewOperation (env_Operation env)) eqn:E.
  - apply derived_planned in H as (pre & w & _ & _ & _ & _ & Hw); [|done|].
    + rewrite (review_no_note _ E), E in Hw. by eapply review_observed_Ok.
    + unfold DeclaresDerivedEvent. by rewrite E, orb_true_r.
  - apply apply_operation_planned in H as [[?|?] _]; [congruence|done..].
Qed.

Lemma Apply_planned p :
  Apply sha256 secret ord ctx env = Ok p → Planned p = true →
  ∃ queue policy inv, check_envelope ctx env = Ok (queue, policy, inv) ∧
    replay (ctx_Requests ctx) (env_RequestID env) (Envelope_Sha256 sha256 env) = None ∧
    authorized policy ∧ applied queue policy inv p.
Proof.
  unfold Apply. fold plan0. intros H Hp. apply orelse_planned in H as ([[queue policy] inv] & Hc & H); [|done].
  exists queue, policy, inv. split; [done|]. change (pl_MutationSha256 plan0) with (Envelope_Sha256 sha256 env) in H.
  destruct (replay _ _ _) as [out|] eqn:Hr.
  - injection H as <-. by rewrite outcome_not_planned in Hp.
  - split; [done|]. split; [by eapply apply_operation_authorized|]. by apply apply_operation_planned in H as [_ ?].
Qed.
End apply.
