(* ===== verification/ObligationPlan.v ===== *)
(** * Obligation plans

    [obligation_plan.go] of [src/internal/tasks/ticket]: the plan document and
    its check against a ledger.  Go ranges over maps and then sorts the
    findings by id and kind; here the maps are listed in the order of
    [map_to_list] and [elements] before the sort. *)

From S2P Require Import Prelude Utf8 GoStd Codes Limits Value Primitives Ids Parse.
From S2P Require Import Reader Ticket Inventory Marks KnowHow RecordParts Obligations ObligationEvents ObligationLedger.
Local Open Scope Z_scope.
Local Open Scope go_scope.

Definition ObligationPlanProfile : string := "taskman-obligation-plan/0".
Definition MaxObligationPlanBytes : Z := Z.shiftl 8 20.

Definition PlanUnassigned : string := "UNASSIGNED".
Definition PlanSplit : string := "SPLIT".
Definition PlanUnknownObligation : string := "UNKNOWN_OBLIGATION".
Definition PlanAlreadyClosed : string := "ALREADY_CLOSED".
Definition PlanRerunNotWitnessed : string := "RERUN_NOT_WITNESSED".

(** [opt_Rerun] is [None] when the member is absent. *)
Record ObligationPlanTest := {
  opt_Test : string; opt_Project : string; opt_Obligations : list string; opt_Rerun : option (list string)
}.

Record ObligationPlan := { opl_TicketID : TicketID; opl_Tests : list ObligationPlanTest }.

Definition isEmptyArray (r : Reader) : bool := match rv r with VArray [] => true | _ => false end.

Definition read_ids (r : Reader) (what : string) : M (list string) :=
  readIDKeyed r ObligationsMaxEntries what ReadObligationID id.

(** An id listed under both members. *)
Fixpoint listed_twice (it : Reader) (rerun obligations : list string) : M unit :=
  match obligations with
  | [] => mret tt
  | o :: obligations' =>
      e ← failed;
      _ ← (if negb (e : bool) && existsb (String.eqb o) rerun
           then Fail it CodeMalformed "obligation %s is listed under both obligations and rerun" [AStr o] else mret tt);
      listed_twice it rerun obligations'
  end.

Definition read_plan_test (it : Reader) : M ObligationPlanTest :=
  _ ← Closed it (OptionalKeys (rv it) ["test"; "project"; "obligations"] ["rerun"]);
  f ← Field it "test"; test ← Prose f 1 MaxObligationTestIDBytes;
  f ← Field it "project"; project ← Prose f 1 MaxObligationTestIDBytes;
  if Has (rv it) "rerun" then
    f ← Field it "rerun"; rerun ← read_ids f "rerun";
    obs ← Field it "obligations";
    e ← failed;
    obligations ← (if negb (e : bool) && negb (isEmptyArray obs) then read_ids obs "obligations" else mret []);
    _ ← listed_twice it rerun obligations;
    mret {| opt_Test := test; opt_Project := project; opt_Obligations := obligations; opt_Rerun := Some rerun |}
  else
    f ← Field it "obligations"; obligations ← read_ids f "obligations";
    mret {| opt_Test := test; opt_Project := project; opt_Obligations := obligations; opt_Rerun := None |}.

Definition read_obligation_plan (r : Reader) : M ObligationPlan :=
  _ ← Closed r ["profile"; "ticketId"; "tests"];
  f ← Field r "profile"; _ ← Exact f ObligationPlanProfile;
  f ← Field r "ticketId"; ticket ← Reader_TicketID f;
  f ← Field r "tests"; items ← Array_ f MaxObligationPlanTests true;
  tests ← each read_plan_test items;
  mret {| opl_TicketID := ticket; opl_Tests := tests |}.

Definition DecodeObligationPlan (raw : string) : res ObligationPlan :=
  if MaxObligationPlanBytes <? slen raw then
    Err (Errorf CodeLimitExceeded "--plan" "the plan exceeds %d bytes" [AInt MaxObligationPlanBytes])
  else
    let* v := ParseInput raw in
    try ProfileVersion "/profile" v ObligationPlanProfile;
    run (read_obligation_plan (NewReader v ε)) st0.

(** ** The check *)

Record ObligationPlanFinding := mkFinding { pf_Kind : string; pf_ID : string; pf_Tests : list string }.

(** The name of a test, appended to those of each id. *)
Definition list_test (m : gmap string (list string)) (name : string) (ids : list string) : gmap string (list string) :=
  foldl (λ m id, <[id := default [] (m !! id) ++ [name]]> m) m ids.

Definition test_name (t : ObligationPlanTest) : string := opt_Project t +:+ "/" +:+ opt_Test t.

Definition listing (ids : ObligationPlanTest → list string) (tests : list ObligationPlanTest) : gmap string (list string) :=
  SortStrings <$> foldl (λ m t, list_test m (test_name t) (ids t)) ∅ tests.

(** [planListings(p)] *)
Definition planListings (p : ObligationPlan) : gmap string (list string) * gmap string (list string) :=
  (listing opt_Obligations (opl_Tests p), listing (λ t, default [] (opt_Rerun t)) (opl_Tests p)).

Definition unionKeys (a b : gmap string (list string)) : gset string := dom a ∪ dom b.

Definition finding_le (a b : ObligationPlanFinding) : bool :=
  if pf_ID a =s pf_ID b then String.leb (pf_Kind a) (pf_Kind b) else String.leb (pf_ID a) (pf_ID b).

Definition tests_of (m : gmap string (list string)) (id : string) : list string := default [] (m !! id).

Section check.
Context (l : option ObligationLedger) (p : ObligationPlan).
Let planned := (planListings p).1.
Let reruns := (planListings p).2.

Definition unknown_findings : list ObligationPlanFinding :=
  omap (λ id, match ObligationLedger_Entry l id with
              | None => Some (mkFinding PlanUnknownObligation id (SortStrings (tests_of planned id ++ tests_of reruns id)))
              | Some _ => None end) (stdpp.base.elements (unionKeys planned reruns)).

Definition closed_findings : list ObligationPlanFinding :=
  omap (λ kv, match ObligationLedger_Entry l kv.1 with
              | Some e => if (oen_State e =s ObligationWitnessed) || (oen_State e =s ObligationDeferred)
                          then Some (mkFinding PlanAlreadyClosed kv.1 kv.2) else None
              | None => None end) (map_to_list planned).

Definition rerun_findings : list ObligationPlanFinding :=
  omap (λ kv, match ObligationLedger_Entry l kv.1 with
              | Some e => if negb (oen_State e =s ObligationWitnessed)
                          then Some (mkFinding PlanRerunNotWitnessed kv.1 kv.2) else None
              | None => None end) (map_to_list reruns).

Definition entry_finding (e : ObligationEntry) : option ObligationPlanFinding :=
  if negb (ObligationPending (oen_State e)) then None
  else
    let required := oen_Core e && ((oen_State e =s ObligationOpen) || (oen_State e =s ObligationPartial)) in
    let n := length (tests_of planned (oen_ID e)) in
    if (n =? 0)%nat && required then Some (mkFinding PlanUnassigned (oen_ID e) [])
    else if (1 <? n)%nat then Some (mkFinding PlanSplit (oen_ID e) (tests_of planned (oen_ID e)))
    else None.

Definition entry_findings : list ObligationPlanFinding :=
  match l with None => [] | Some l => omap entry_finding (led_Entries l) end.

Definition CheckObligationPlan : list ObligationPlanFinding * bool :=
  let findings := isort finding_le (unknown_findings ++ closed_findings ++ rerun_findings ++ entry_findings) in
  (findings, (length findings =? 0)%nat).

Definition ObligationPlanReruns : list ObligationPlanFinding :=
  isort finding_le
    (omap (λ kv, match ObligationLedger_Entry l kv.1 with
                 | Some e => if oen_State e =s ObligationWitnessed then Some (mkFinding "RERUN" kv.1 kv.2) else None
                 | None => None end) (map_to_list reruns)).

Definition PlanHasRerun : bool := existsb (λ t, some_p (opt_Rerun t)) (opl_Tests p).
End check.

(** ** What the check of an obligation plan promises *)


(** ** Listings *)

(** The names of the tests that list an id, one for each time. *)
Definition listed_by (ids : ObligationPlanTest → list string) (tests : list ObligationPlanTest) (id : string) : list string :=
  tests ≫= λ t, (λ _, test_name t) <$> filter (λ i, i = id) (ids t).

Lemma list_test_lookup name ids : ∀ m id,
  default [] (list_test m name ids !! id) = default [] (m !! id) ++ ((λ _, name) <$> filter (λ i, i = id) ids) ∧
  (is_Some (list_test m name ids !! id) ↔ is_Some (m !! id) ∨ id ∈ ids).
Proof.
  induction ids as [|i ids IH]; intros m id; unfold list_test; cbn [foldl].
  { rewrite app_nil_r. split; [done|]. split; [by left|by intros [?|?%not_elem_of_nil]]. }
  fold (list_test (<[i := default [] (m !! i) ++ [name]]> m) name ids).
  destruct (IH (<[i := default [] (m !! i) ++ [name]]> m) id) as [-> ->]. rewrite filter_cons, elem_of_cons.
  destruct (decide (i = id)) as [->|Hne].
  - rewrite lookup_insert_eq. change (default [] (Some (default [] (m !! id) ++ [name]))) with (default [] (m !! id) ++ [name]).
    rewrite fmap_cons, <-app_assoc. split; [done|].
    split; [|intros _; left; by eexists]. intros _. right. by left.
  - rewrite lookup_insert_ne by done. split; [done|]. naive_solver.
Qed.

Lemma listing_lookup ids tests id :
  default [] (listing ids tests !! id) = SortStrings (listed_by ids tests id) ∧
  (is_Some (listing ids tests !! id) ↔ ∃ t, t ∈ tests ∧ id ∈ ids t).
Proof.
  unfold listing.
  assert (∀ m, default [] (foldl (λ m t, list_test m (test_name t) (ids t)) m tests !! id) = default [] (m !! id) ++ listed_by ids tests id ∧
    (is_Some (foldl (λ m t, list_test m (test_name t) (ids t)) m tests !! id) ↔ is_Some (m !! id) ∨ ∃ t, t ∈ tests ∧ id ∈ ids t)) as H.
  { induction tests as [|t tests IH]; intros m; cbn [foldl].
    - unfold listed_by. cbn. rewrite app_nil_r. split; [done|]. split; [by left|by intros [?|(? & ?%not_elem_of_nil & _)]].
    - destruct (IH (list_test m (test_name t) (ids t))) as [-> ->]. destruct (list_test_lookup (test_name t) (ids t) m id) as [-> ->].
      unfold listed_by. rewrite bind_cons, <-app_assoc. split; [done|]. setoid_rewrite elem_of_cons. naive_solver. }
  destruct (H ∅) as [H1 H2]. rewrite lookup_empty in H1, H2. rewrite lookup_fmap. split.
  - cbn [default from_option app] in H1. rewrite <-H1. by destruct (_ !! id).
  - rewrite fmap_is_Some, H2. split; [by intros [[]|]|by right].
Qed.

(** ** The check *)

Section check.
Context (l : option ObligationLedger) (p : ObligationPlan).

Definition planned_by (id : string) : list string := listed_by opt_Obligations (opl_Tests p) id.

(** The plan covers the ledger: it assigns only open ledger entries, reruns
    only witnessed ones, and assigns every pending entry at most once and
    every open or partial core entry. *)
Record covers : Prop := {
  covers_known t id : t ∈ opl_Tests p → id ∈ opt_Obligations t ++ default [] (opt_Rerun t) → is_Some (ObligationLedger_Entry l id);
  covers_open t id e : t ∈ opl_Tests p → id ∈ opt_Obligations t → ObligationLedger_Entry l id = Some e →
    oen_State e ≠ ObligationWitnessed ∧ oen_State e ≠ ObligationDeferred;
  covers_reruns t id e : t ∈ opl_Tests p → id ∈ default [] (opt_Rerun t) → ObligationLedger_Entry l id = Some e →
    oen_State e = ObligationWitnessed;
  covers_entries e : e ∈ (match l with Some l => led_Entries l | None => [] end) → ObligationPending (oen_State e) = true →
    (length (planned_by (oen_ID e)) ≤ 1)%nat ∧
    (oen_Core e = true → oen_State e = ObligationOpen ∨ oen_State e = ObligationPartial → length (planned_by (oen_ID e)) = 1%nat)
}.

Lemma omap_nil {A B} (f : A → option B) xs : omap f xs = [] ↔ ∀ x, x ∈ xs → f x = None.
Proof.
  induction xs as [|x xs IH]; cbn; [by split; [intros _ ? ?%not_elem_of_nil|]|]. setoid_rewrite elem_of_cons.
  destruct (f x) eqn:E; [split; [done|]; intros H; by rewrite H in E by (by left)|]. rewrite IH. naive_solver.
Qed.

Lemma elem_of_listing ids kv : kv ∈ map_to_list (listing ids (opl_Tests p)) →
  ∃ t, t ∈ opl_Tests p ∧ kv.1 ∈ ids t.
Proof.
  destruct kv as [k v]. intros H%elem_of_map_to_list. apply (proj2 (listing_lookup ids (opl_Tests p) k)). by exists v.
Qed.

Lemma listing_elem ids t id : t ∈ opl_Tests p → id ∈ ids t → ∃ v, (id, v) ∈ map_to_list (listing ids (opl_Tests p)).
Proof.
  intros Ht Hid. destruct (proj2 (proj2 (listing_lookup ids (opl_Tests p) id))) as [v Hv]; [by exists t|]. exists v.
  by apply elem_of_map_to_list.
Qed.

Lemma unknown_findings_nil :
  unknown_findings l p = [] ↔ ∀ t id, t ∈ opl_Tests p → id ∈ opt_Obligations t ++ default [] (opt_Rerun t) →
    is_Some (ObligationLedger_Entry l id).
Proof.
  unfold unknown_findings. rewrite omap_nil. setoid_rewrite elem_of_elements. unfold unionKeys, planListings. cbn [fst snd].
  setoid_rewrite elem_of_union. setoid_rewrite elem_of_dom. split.
  - intros H t id Ht Hid. assert (is_Some (listing opt_Obligations (opl_Tests p) !! id) ∨
      is_Some (listing (λ t, default [] (opt_Rerun t)) (opl_Tests p) !! id)) as Hin.
    { apply elem_of_app in Hid as [Hid|Hid]; [left|right]; apply listing_lookup; by exists t. }
    specialize (H id Hin). by destruct (ObligationLedger_Entry l id).
  - intros H id Hin. assert (∃ t, t ∈ opl_Tests p ∧ id ∈ opt_Obligations t ++ default [] (opt_Rerun t)) as (t & Ht & Hid).
    { destruct Hin as [(t & ? & ?)%listing_lookup|(t & ? & ?)%listing_lookup]; exists t; rewrite elem_of_app; auto. }
    by destruct (H t id Ht Hid) as [e ->].
Qed.

Lemma closed_findings_nil :
  closed_findings l p = [] ↔ ∀ t id e, t ∈ opl_Tests p → id ∈ opt_Obligations t → ObligationLedger_Entry l id = Some e →
    oen_State e ≠ ObligationWitnessed ∧ oen_State e ≠ ObligationDeferred.
Proof.
  unfold closed_findings, planListings. cbn [fst]. rewrite omap_nil. split.
  - intros H t id e Ht Hid He. destruct (listing_elem _ _ _ Ht Hid) as [v Hv]. specialize (H _ Hv). cbn [fst] in H. rewrite He in H.
    destruct (_ || _) eqn:Hb; [done|]. apply orb_false_iff in Hb as [? ?]. by bool_hyps.
  - intros H kv (t & Ht & Hid)%elem_of_listing. destruct (ObligationLedger_Entry l kv.1) as [e|] eqn:He; [|done].
    destruct (H _ _ _ Ht Hid He) as [H1 H2]. apply String.eqb_neq in H1, H2. by rewrite H1, H2.
Qed.

Lemma rerun_findings_nil :
  rerun_findings l p = [] ↔ ∀ t id e, t ∈ opl_Tests p → id ∈ default [] (opt_Rerun t) → ObligationLedger_Entry l id = Some e →
    oen_State e = ObligationWitnessed.
Proof.
  unfold rerun_findings, planListings. cbn [snd]. rewrite omap_nil. split.
  - intros H t id e Ht Hid He. destruct (listing_elem (λ t, default [] (opt_Rerun t)) _ _ Ht Hid) as [v Hv].
    specialize (H _ Hv). cbn [fst] in H. rewrite He in H. destruct (String.eqb_spec (oen_State e) ObligationWitnessed); done.
  - intros H kv (t & Ht & Hid)%elem_of_listing. destruct (ObligationLedger_Entry l kv.1) as [e|] eqn:He; [|done].
    by rewrite (H _ _ _ Ht Hid He).
Qed.

Lemma entry_findings_nil :
  entry_findings l p = [] ↔ ∀ e, e ∈ (match l with Some l => led_Entries l | None => [] end) → ObligationPending (oen_State e) = true →
    (length (planned_by (oen_ID e)) ≤ 1)%nat ∧
    (oen_Core e = true → oen_State e = ObligationOpen ∨ oen_State e = ObligationPartial → length (planned_by (oen_ID e)) = 1%nat).
Proof.
  assert (∀ e, entry_finding p e = None ↔ (ObligationPending (oen_State e) = true → (length (planned_by (oen_ID e)) ≤ 1)%nat ∧
    (oen_Core e = true → oen_State e = ObligationOpen ∨ oen_State e = ObligationPartial → length (planned_by (oen_ID e)) = 1%nat))) as H.
  { intros e. unfold entry_finding, tests_of, planListings. cbn [fst]. rewrite (proj1 (listing_lookup _ _ _)). unfold SortStrings. rewrite length_isort.
    fold (planned_by (oen_ID e)). set (n := length (planned_by (oen_ID e))). clearbody n.
    assert ((oen_State e =s ObligationOpen) || (oen_State e =s ObligationPartial) = true ↔
      oen_State e = ObligationOpen ∨ oen_State e = ObligationPartial) as Hs by by rewrite orb_true_iff, !String.eqb_eq.
    destruct (ObligationPending _); cbn [negb]; [|done]. destruct (oen_Core e); cbn [andb].
    - destruct ((oen_State e =s ObligationOpen) || _).
      + destruct (Nat.eqb_spec n 0); cbn [andb]; [split; [done|]; intros Hx; pose proof (proj2 (Hx eq_refl) eq_refl (proj1 Hs eq_refl)); lia|].
        destruct (Nat.ltb_spec 1 n); [split; [done|]; intros Hx; destruct (Hx eq_refl); lia|]. split; [|done]. intros _ _. split; lia.
      + rewrite andb_false_r. destruct (Nat.ltb_spec 1 n); [split; [done|]; intros Hx; destruct (Hx eq_refl); lia|].
        split; [|done]. intros _ _. split; [lia|]. by intros _ Hy%Hs.
    - rewrite andb_false_r. destruct (Nat.ltb_spec 1 n); [split; [done|]; intros Hx; destruct (Hx eq_refl); lia|].
      split; [|done]. intros _ _. split; [lia|done]. }
  unfold entry_findings. destruct l as [l'|]; [|by split; [intros _ ? ?%not_elem_of_nil|]]. rewrite omap_nil. by setoid_rewrite H.
Qed.
End check.

(** [CheckObligationPlan] reports no finding exactly when the plan covers the ledger; its findings are in order of id and kind. *)
Theorem CheckObligationPlan_spec l p :
  ((CheckObligationPlan l p).2 = true ↔ covers l p) ∧ ((CheckObligationPlan l p).2 = true ↔ (CheckObligationPlan l p).1 = []) ∧
  StronglySorted (λ a b, finding_le a b = true) (CheckObligationPlan l p).1.
Proof.
  unfold CheckObligationPlan. cbv zeta. cbn [fst snd].
  set (fs := unknown_findings l p ++ closed_findings l p ++ rerun_findings l p ++ entry_findings l p).
  assert ((length (isort finding_le fs) =? 0)%nat = true ↔ fs = []) as Hnil.
  { rewrite length_isort. by destruct fs. }
  split_and!.
  - rewrite Hnil. unfold fs. rewrite !app_nil, unknown_findings_nil, closed_findings_nil, rerun_findings_nil, entry_findings_nil.
    split; [by intros (? & ? & ? & ?); constructor|by intros []].
  - destruct (isort finding_le fs); done.
  - apply isort_StronglySorted.
    + intros x y. unfold finding_le. rewrite (String.eqb_sym (pf_ID y)). destruct (_ =s _); apply leb_total.
    + intros x y z. unfold finding_le.
      destruct (String.eqb_spec (pf_ID x) (pf_ID y)) as [E1|E1], (String.eqb_spec (pf_ID y) (pf_ID z)) as [E2|E2].
      * rewrite E1, E2, String.eqb_refl. apply leb_trans.
      * rewrite E1. intros _ H. by destruct (String.eqb_spec (pf_ID y) (pf_ID z)).
      * rewrite <-E2. intros H _. by destruct (String.eqb_spec (pf_ID x) (pf_ID y)).
      * intros H1 H2. destruct (String.eqb_spec (pf_ID x) (pf_ID z)) as [E3|E3]; [|by eapply leb_trans].
        destruct E1. apply leb_antisym; [done|]. by rewrite E3.
Qed.
