(* ===== verification/ObligationParts.v ===== *)
(** * What the readers of obligations promise: the parts of an entry

    Every reader of [Obligations] gives back, through its writer, the value it
    read, and what it accepts is within its vocabulary. *)

From S2P Require Import Prelude Utf8 GoStd Codes Limits Value Canonical Primitives Ids.
From S2P Require Import SetsSpec PrimitivesSpec IdsSpec Parse ParseTotal ParsePrint.
From S2P Require Import ParseDoc Reader ReaderSpec Result ResultSpec Ticket Inventory Marks MarksSpec.
From S2P Require Import KnowHow KnowHowSpec RecordParts Escalations RecordCodec PartsSpec RecordSpec Obligations.
Local Open Scope Z_scope.
Local Open Scope go_scope.

(** ** Readers keep the first failure *)

#[global] Instance Sticky_ReadObligationID r : Sticky (ReadObligationID r).
Proof. unfold ReadObligationID. apply _. Qed.
#[global] Instance Sticky_alias r : Sticky (readObligationAlias r).
Proof. unfold readObligationAlias. apply _. Qed.
#[global] Instance Sticky_readNonblank max r : Sticky (readNonblank max r).
Proof. unfold readNonblank. apply _. Qed.

#[global] Instance Sticky_id_keyed_loop {A} (item : Reader → M A) id what items `{Hst : !∀ r, Sticky (item r)} :
  ∀ prev out, Sticky (id_keyed_loop item id what items prev out).
Proof. induction items; intros prev out; cbn [id_keyed_loop]; apply _. Qed.
#[global] Instance Sticky_readIDKeyed {A} r max what (item : Reader → M A) id `{Hst : !∀ r, Sticky (item r)} :
  Sticky (readIDKeyed r max what item id).
Proof. unfold readIDKeyed. apply _. Qed.
#[global] Instance Sticky_has_member {A} r key (m : Reader → M A) `{Hst : !∀ r, Sticky (m r)} : Sticky (has_member r key m).
Proof. unfold has_member. apply _. Qed.

#[global] Instance Sticky_title_elems r min : Sticky (readTitleElems r min).
Proof. unfold readTitleElems. apply _. Qed.
#[global] Instance Sticky_match r : Sticky (readObligationMatch r).
Proof. unfold readObligationMatch. apply _. Qed.
#[global] Instance Sticky_matches r : Sticky (readObligationMatches r).
Proof. unfold readObligationMatches. apply _. Qed.
#[global] Instance Sticky_declaration r : Sticky (readObligationDeclaration r).
Proof. unfold readObligationDeclaration. apply _. Qed.
#[global] Instance Sticky_provenance r : Sticky (readObligationProvenance r).
Proof. unfold readObligationProvenance. apply _. Qed.
#[global] Instance Sticky_evidence r : Sticky (ReadObligationEvidence r).
Proof. unfold ReadObligationEvidence. apply _. Qed.

#[global] Instance Sticky_review_source it : Sticky (read_review_source it).
Proof. unfold read_review_source. destruct (rv it); apply _. Qed.
#[global] Instance Sticky_each_until {A} (fn : Reader → M A) items `{Hst : !∀ r, Sticky (fn r)} : Sticky (each_until fn items).
Proof. induction items; cbn [each_until]; apply _. Qed.
#[global] Instance Sticky_nonempty {A} r max semantic message (fn : Reader → M A) `{Hst : !∀ r, Sticky (fn r)} :
  Sticky (nonempty_items r max semantic message fn).
Proof. unfold nonempty_items. apply _. Qed.
#[global] Instance Sticky_sources r : Sticky (readObligationSources r).
Proof. unfold readObligationSources. apply _. Qed.
#[global] Instance Sticky_cite it : Sticky (read_cite it).
Proof. unfold read_cite. apply _. Qed.
#[global] Instance Sticky_cites r : Sticky (readObligationCites r).
Proof. unfold readObligationCites. apply _. Qed.
#[global] Instance Sticky_scope_change r : Sticky (readObligationScopeChange r).
Proof. unfold readObligationScopeChange. destruct (negb _); apply _. Qed.
#[global] Instance Sticky_obligation_actor r : Sticky (readObligationActor r).
Proof. unfold readObligationActor. apply _. Qed.
#[global] Instance Sticky_scope r : Sticky (readObligationScope r).
Proof. unfold readObligationScope. destruct (negb _); apply _. Qed.
#[global] Instance Sticky_candidate r b : Sticky (readObligationCandidate r b).
Proof. unfold readObligationCandidate. apply _. Qed.
#[global] Instance Sticky_mirror_ref r : Sticky (readObligationMirrorRef r).
Proof. unfold readObligationMirrorRef. apply _. Qed.
#[global] Instance Sticky_mirror_change r : Sticky (readObligationMirrorChange r).
Proof. unfold readObligationMirrorChange. apply _. Qed.

#[global] Instance Sticky_policy r : Sticky (read_policy r).
Proof. unfold read_policy. apply _. Qed.
#[global] Instance Sticky_subject r : Sticky (read_subject r).
Proof. unfold read_subject. apply _. Qed.
#[global] Instance Sticky_verdict r : Sticky (read_verdict r).
Proof. unfold read_verdict. apply _. Qed.
#[global] Instance Sticky_verdicts_loop authors items : ∀ prev out, Sticky (verdicts_loop authors items prev out).
Proof. induction items; intros prev out; cbn [verdicts_loop]; apply _. Qed.
#[global] Instance Sticky_obligation_review r : Sticky (ReadObligationReview r).
Proof. unfold ReadObligationReview. apply _. Qed.
#[global] Instance Sticky_pair {A B C} (p : A * B) (f : A → B → M C) `{Hst : !∀ a b, Sticky (f a b)} :
  Sticky (let '(a, b) := p in f a b).
Proof. by destruct p. Qed.
#[global] Instance Sticky_review_record r : Sticky (readObligationReviewRecord r).
Proof. unfold readObligationReviewRecord. apply _. Qed.
#[global] Instance Sticky_entry r : Sticky (ReadObligationEntry r).
Proof. unfold ReadObligationEntry. apply _. Qed.

(** ** Taking a reader apart *)

(** The prefix of a valid id is what [ParseObligationID] returns. *)
Lemma ParseObligationID_prefix w s :
  ParseObligationID w s ≠ OutOfFuel ∧ ∀ p, ParseObligationID w s = Ok p → ObligationIDPrefix s = p ∧ p ≠ ε.
Proof.
  unfold ParseObligationID, ObligationIDPrefix, ParseObligationPrefix. destruct (strings.CutLast s "-") as [[[|c p] n]|]; [done| |done].
  destruct (_ || _); [done|]. destruct (negb _); [done|]. cbn [obind].
  destruct (_ || _); [done|]. destruct (negb _); [done|]. split; [done|]. by intros ? [= <-].
Qed.

Lemma obligation_id_value r s :
  ok (ReadObligationID r) s → rv r = VString s ∧ ParseObligationID (rwhere r) s = Ok (ObligationIDPrefix s) ∧ ObligationIDPrefix s ≠ ε.
Proof.
  unfold ReadObligationID. intros H. rewrite ok_bind in H by apply _. destruct H as (t & Ht & H). apply ok_String in Ht.
  rewrite ok_failed in H. destruct (ParseObligationID_prefix (rwhere r) t) as [Hf Hp].
  destruct (ParseObligationID _ t) as [p|e|] eqn:E; [|by ok_inv|done]. rewrite ok_ret in H. subst t.
  by destruct (Hp p) as [-> ?].
Qed.

Lemma obligation_alias_value r s : ok (readObligationAlias r) s → rv r = VString s ∧ s ≠ ε.
Proof.
  unfold readObligationAlias. intros H. rewrite ok_bind in H by apply _. destruct H as (t & Ht & H). apply ok_String in Ht.
  rewrite ok_failed in H. destruct (ParseObligationAlias _ t) eqn:E; [|by ok_inv|]; rewrite ok_ret in H; subst t; (split; [done|]);
    by intros ->.
Qed.

Lemma readNonblank_value max r s : ok (readNonblank max r) s → rv r = VString s.
Proof. by intros [? _]%nonblank_value. Qed.

Lemma nonblankOrNull_value max r x : ok (Reader_StringOrNull (readNonblank max) r) x → rv r = StringOrNull x.
Proof.
  unfold Reader_StringOrNull. intros H. apply ok_or_null in H; [|apply _].
  destruct H as [[Hn ->]|(_ & s & Hs%readNonblank_value & ->)]; done.
Qed.

Lemma EnumOrNull_value allowed r x :
  ok (Reader_StringOrNull (λ f, Enum f allowed) r) x → rv r = StringOrNull x ∧ ∀ s, x = Some s → s ∈ allowed.
Proof.
  unfold Reader_StringOrNull. intros H. apply ok_or_null in H; [|apply _].
  destruct H as [[Hn ->]|(_ & s & [Hr Hs]%ok_Enum & ->)]; (split; [done|]); [done|by intros ? [= <-]].
Qed.

(** A reader of what an encoder writes that is nil when it fails. *)
Class OptCodec {A} (dec : Reader → M (option A)) (enc : A → Value) : Prop := {
  opt_sticky r :: Sticky (dec r);
  opt_value r x : distinct (rv r) → ok (dec r) x → ∃ a, x = Some a ∧ canon (rv r) = canon (enc a)
}.

(** An optional member. *)
Lemma has_member_ok {A} r key (m : Reader → M A) x o `{Hst : !∀ r, Sticky (m r)} :
  rv r = VObject o → ok (has_member r key m) x →
  (Get o key = None ∧ x = None) ∨ ∃ v a, Get o key = Some v ∧ ok (m (child r v key)) a ∧ x = Some a.
Proof.
  unfold has_member, Has. intros Ho. rewrite Ho. case_bool_decide as Hs.
  - rewrite ok_bind by apply _. intros (f & Hf & Hm). rewrite ok_Field in Hf. destruct Hf as (o' & v & Ho' & Hg & ->).
    assert (o' = o) as -> by congruence. rewrite ok_bind in Hm by apply _. destruct Hm as (a & Ha & Hx).
    rewrite ok_ret in Hx. right. eauto.
  - rewrite ok_ret. intros <-. left. split; [|done]. by apply eq_None_not_Some.
Qed.

Lemma text_member r key (m : Reader → M string) x o `{Hst : !∀ r, Sticky (m r)} :
  (∀ r s, ok (m r) s → rv r = VString s) →
  rv r = VObject o → ok (has_member r key m) x → Get o key = VString <$> x.
Proof.
  intros Hm Ho H. destruct (has_member_ok _ _ _ _ _ Ho H) as [[-> ->]|(v & a & -> & Ha & ->)]; [done|].
  apply Hm in Ha. cbn [child rv] in Ha. by subst.
Qed.

Lemma codec_member {A} r key (dec : Reader → M A) enc `{!Codec dec enc} x o :
  distinct (rv r) → rv r = VObject o → ok (has_member r key dec) x → canon <$> Get o key = canon <$> (enc <$> x).
Proof.
  intros Hd Ho H. destruct (has_member_ok _ _ _ _ _ Ho H) as [[-> ->]|(v & a & Hg & Ha & ->)]; [done|].
  apply (codec_value (enc := enc)) in Ha; [|cbn [child rv]; member_distinct]. cbn [child rv] in Ha. rewrite Hg.
  cbn [fmap option_fmap option_map]. by rewrite Ha.
Qed.

Lemma opt_member {A} r key (dec : Reader → M (option A)) enc `{!OptCodec dec enc} x o :
  distinct (rv r) → rv r = VObject o → ok (has_member r key dec) x →
  canon <$> Get o key = canon <$> (enc <$> mjoin x).
Proof.
  intros Hd Ho H. destruct (has_member_ok _ _ _ _ _ Ho H) as [[-> ->]|(v & a & Hg & Ha & ->)]; [done|].
  apply (opt_value (enc := enc)) in Ha as (b & -> & Hb); [|cbn [child rv]; member_distinct]. cbn [child rv] in Hb. rewrite Hg.
  cbn [fmap option_fmap option_map mjoin option_join]. by rewrite Hb.
Qed.

(** [record_inv] with the checks that a decoder passed and the texts of
    obligations. *)
Ltac part_inv :=
  repeat (record_inv; match goal with
  | H : ok (if negb false && _ then _ else _) _ |- _ => cbn [negb andb] in H
  | H : ok (if ?b then _ else mret tt) _ |- _ => let E := fresh "Hc" in destruct b eqn:E; [exfalso; clear -H; by ok_inv|clear H]
  | H : ok (readNonblank _ _) _ |- _ => apply readNonblank_value in H
  | H : ok (Reader_StringOrNull (readNonblank _) _) _ |- _ => apply nonblankOrNull_value in H
  | H : ok (Reader_StringOrNull (λ _, Enum _ _) _) _ |- _ => apply EnumOrNull_value in H as [H ?]
  | H : ok (ReadKnowHowFile _) _ |- _ => apply kh_file_value in H
  | H : ok (ReadObligationID _) _ |- _ => apply obligation_id_value in H as (H & ? & ?)
  end; repeat match goal with H : context [rv (child ?r ?v ?s)] |- _ => change (rv (child r v s)) with v in H end);
  record_inv.

(** ** Matches, declarations, provenance, evidence *)

Lemma title_elems_value r min ss : ok (readTitleElems r min) ss → rv r = Strings ss ∧ min ≤ Z.of_nat (length ss).
Proof.
  unfold readTitleElems. intros H. part_inv. split; [congruence|]. apply Z.ltb_ge in Hc. by subst.
Qed.

#[global] Instance match_codec : Codec readObligationMatch ObligationMatch_Value.
Proof.
  split; [apply _|]. intros r x Hd H. unfold readObligationMatch in H. part_inv. subst x.
  repeat match goal with H : ok (readTitleElems _ _) _ |- _ => apply title_elems_value in H as [H _] end. part_inv.
  unfold ObligationMatch_Value, noteObject. cbn [foldl fst snd om_Path om_TestID om_TitlePath om_StepTitle om_StepPath].
  same_members Hd.
Qed.

Lemma matches_ok r ms :
  distinct (rv r) → ok (readObligationMatches r) ms → canon (rv r) = canon (MatchesValue ms) ∧ ms ≠ [].
Proof.
  intros Hd H. unfold readObligationMatches in H. part_inv.
  match goal with H : ok (Array_ _ _ _) _ |- _ => rewrite ok_Array in H; destruct H as (vs & Hv & _ & [|Hs] & ->); [done|] end.
  match goal with H : ok (each _ _) _ |- _ => rename H into He end.
  rewrite Hv in Hd |- *. apply distinct_elements in Hd. apply (each_value _ ObligationMatch_Value) in He; [|done].
  assert (canon <$> vs = canon <$> (ObligationMatch_Value <$> ms)) as Heq by (rewrite He; by rewrite <-list_fmap_compose).
  destruct (before_reencode _ _ Hd Heq Hs) as [_ Hsm].
  unfold MatchesValue. rewrite SortedSet_sorted by done. split; [by rewrite !canon_VArray, Heq|].
  intros ->. by destruct vs.
Qed.

#[global] Instance declaration_codec :
  Codec readObligationDeclaration (λ d, match d with Some d => ObligationDeclaration_Value d | None => VNull end).
Proof.
  split; [apply _|]. intros r x Hd H. unfold readObligationDeclaration in H. destruct (IsNull r) eqn:Hn.
  { apply IsNull_true in Hn. rewrite ok_ret in H. subst x. by rewrite Hn. }
  part_inv. subst x. unfold ObligationDeclaration_Value, noteObject. cbn [foldl fst snd od_ManifestSha256 od_TestID od_Reason].
  same_members Hd.
Qed.

(** The optional members of the object [o] of the reader. *)
Ltac members_inv Hd Ho :=
  repeat match goal with
  | H : ok (has_member _ _ OID) _ |- _ => apply (text_member _ _ _ _ _ OID_value Ho) in H
  | H : ok (has_member _ _ Label) _ |- _ => apply (text_member _ _ _ _ _ Label_value Ho) in H
  | H : ok (has_member _ _ (readNonblank ?m)) _ |- _ => apply (text_member _ _ _ _ _ (readNonblank_value m) Ho) in H
  | H : ok (has_member _ _ _) _ |- _ => eapply opt_member in H; [|apply _|exact Hd|exact Ho]
  end.

Definition provenance_fields (p : ObligationProvenance) : fields :=
  [("environmentTree", VString <$> op_EnvironmentTree p); ("evidenceRef", VString <$> op_EvidenceRef p);
   ("testCommit", VString <$> op_TestCommit p); ("testTitle", VString <$> op_TestTitle p)].

#[global] Instance provenance_codec : OptCodec readObligationProvenance ObligationProvenance_Value.
Proof.
  split; [apply _|]. intros r x Hd H. unfold readObligationProvenance in H.
  rewrite ok_bind in H by apply _. destruct H as (u & Hc & H). rewrite ok_Closed in Hc. destruct Hc as (o & Ho & Hk).
  rewrite ok_failed in H. cbv iota in H.
  do 4 (rewrite ok_bind in H by apply _; destruct H as (? & ? & H)). members_inv Hd Ho.
  rewrite ok_failed in H. cbv iota in H.
  destruct (_ && _); [by ok_inv|]. rewrite ok_ret in H. subst x. eexists. split; [done|].
  match goal with |- _ = canon (ObligationProvenance_Value ?p) => assert (ObligationProvenance_Value p = VObject (members_of (provenance_fields p))) as -> end.
  { unfold ObligationProvenance_Value, provenance_fields. cbn [op_TestCommit op_EnvironmentTree op_EvidenceRef op_TestTitle].
    by repeat match goal with x : option _ |- _ => destruct x end. }
  unfold provenance_fields. cbn [op_TestCommit op_EnvironmentTree op_EvidenceRef op_TestTitle].
  same_optional Hd; try congruence.
Qed.

Definition evidence_fields (e : ObligationEvidence) : fields :=
  [("source", Some (VString (oe_Source e))); ("eventSha256", Some (VString (oe_EventSha256 e)));
   ("commit", Some (VString (oe_Commit e))); ("reportSha256", Some (StringOrNull (oe_ReportSha256 e)));
   ("playwrightVersion", Some (StringOrNull (oe_PlaywrightVersion e)));
   ("matches", Some (match oe_Matches e with Some ms => MatchesValue ms | None => VNull end));
   ("declaration", Some (match oe_Declaration e with Some d => ObligationDeclaration_Value d | None => VNull end));
   ("provenance", ObligationProvenance_Value <$> oe_Provenance e); ("testRepository", VString <$> oe_TestRepository e)].

Lemma matches_or_null r x :
  distinct (rv r) → ok (if IsNull r then mret None else ms ← readObligationMatches r; mret (Some ms)) x →
  canon (rv r) = canon (match x with Some ms => MatchesValue ms | None => VNull end).
Proof.
  intros Hd H. destruct (IsNull r) eqn:Hn.
  { apply IsNull_true in Hn. rewrite ok_ret in H. subst x. by rewrite Hn. }
  rewrite ok_bind in H by apply _. destruct H as (ms & Hm & H). rewrite ok_ret in H. subst x. by apply matches_ok in Hm as [? _].
Qed.

#[global] Instance evidence_codec : OptCodec ReadObligationEvidence ObligationEvidence_Value.
Proof.
  split; [apply _|]. intros r x Hd H. unfold ReadObligationEvidence in H.
  rewrite ok_bind in H by apply _. destruct H as (u & Hc & H). rewrite ok_Closed in Hc. destruct Hc as (o & Ho & Hk).
  do 16 (rewrite ok_bind in H by apply _; destruct H as (? & ? & H)).
  rewrite ok_failed in H. cbv iota in H. destruct (evidence_mismatch _); [by ok_inv|]. rewrite ok_ret in H. subst x.
  eexists. split; [done|]. members_inv Hd Ho. part_inv. same_object. subst.
  repeat match goal with
  | H : ok (if IsNull _ then _ else _) _ |- _ => apply matches_or_null in H; [|cbn [child rv]; member_distinct]
  | H : ok (readObligationDeclaration _) _ |- _ => apply codec_value in H; [|cbn [child rv]; member_distinct]
  end. cbn [child rv] in *.
  match goal with |- _ = canon (ObligationEvidence_Value ?p) => assert (ObligationEvidence_Value p = VObject (members_of (evidence_fields p))) as -> end.
  { unfold ObligationEvidence_Value, evidence_fields. cbn [oe_Provenance oe_TestRepository].
    by repeat match goal with x : option (option _) |- _ => destruct x as [[]|] | x : option string |- _ => destruct x end. }
  unfold evidence_fields.
  cbn [oe_Source oe_EventSha256 oe_Commit oe_ReportSha256 oe_PlaywrightVersion oe_Matches oe_Declaration oe_Provenance oe_TestRepository].
  same_optional Hd; try congruence.
Qed.

(** ** Review sources and cites *)

Lemma ok_each_until {A} (fn : Reader → M A) items xs `{Hst : !∀ r, Sticky (fn r)} :
  ok (each_until fn items) xs ↔ ok (each fn items) xs.
Proof.
  revert xs. induction items as [|it items IH]; intros xs; cbn [each_until each]; [done|].
  rewrite !ok_bind by apply _. split; intros (a & Ha & H); exists a; (split; [done|]); revert H; rewrite ok_failed; cbv iota;
    rewrite !ok_bind by apply _; intros (ys & Hy & Hx); exists ys; (split; [by apply IH|done]).
Qed.

#[global] Instance nonempty_codec {A} (dec : Reader → M A) enc `{!Codec dec enc} max semantic message :
  Codec (λ r, nonempty_items r max semantic message dec) (λ xs, VArray (enc <$> xs)).
Proof.
  split; [apply _|]. intros r xs Hd H. unfold nonempty_items in H.
  rewrite ok_bind in H by apply _. destruct H as (items & Ha & H). rewrite ok_failed in H. cbv iota in H.
  destruct (_ =? _)%nat; [by ok_inv|]. apply ok_each_until in H; [|apply _].
  by destruct (array_field dec enc r max semantic items xs Hd Ha H).
Qed.

Lemma present_key o k : k ∈ Keys o → is_Some (Get o k).
Proof. intros Hk. destruct (Get o k) eqn:E; [done|]. by apply assoc_None in E. Qed.

#[global] Instance review_source_codec : Codec read_review_source ObligationReviewSource_Value.
Proof.
  split; [apply _|]. intros r x Hd H. unfold read_review_source in H.
  rewrite ok_bind in H; [|destruct (rv r); apply _|intros; apply _]. destruct H as (kind & Hkind & H).
  rewrite ok_failed in H. cbv iota in H.
  assert (∃ o, rv r = VObject o ∧ Get o "kind" = Some (VString kind)) as (o & Ho & Hg).
  { destruct (rv r) as [| | | |o] eqn:Ho; [exfalso; ok_inv; congruence..|].
    unfold Has in Hkind. case_bool_decide as Hs; ok_inv.
    - exists o. split; [done|]. congruence.
    - exfalso. apply Hs. simplify_eq/=. apply present_key. assert (o = x1) as -> by congruence. set_solver. }
  clear Hkind.
  destruct (String.eqb_spec kind ObligationReviewNone) as [E|E]; part_inv; subst x;
    match goal with H : ok (Reader_Strings _ _ _ _) _ |- _ => apply strings_field in H; [|apply _|apply readNonblank_value] | _ => idtac end;
    part_inv; unfold ObligationReviewSource_Value, noteObject; cbn [os_Kind os_Ref os_Digest os_Query os_Searched os_At];
    rewrite ?(proj2 (String.eqb_eq _ _) E), ?(proj2 (String.eqb_neq _ _) E); cbn [foldl fst snd].
  - same_members Hd.
  - same_members Hd.
Qed.

#[global] Instance sources_codec : Codec readObligationSources obligationSourcesValue := nonempty_codec _ _ _ _ _.

#[global] Instance cite_codec : Codec read_cite ObligationCite_Value.
Proof.
  split; [apply _|]. intros r x Hd H. unfold read_cite in H. part_inv. subst x.
  unfold ObligationCite_Value, noteObject. cbn [foldl fst snd oci_Repository oci_Path]. same_members Hd.
Qed.

#[global] Instance cites_codec : Codec readObligationCites obligationCitesValue := nonempty_codec _ _ _ _ _.

(** ** Scope decisions, candidates, mirrors *)

(** An object without the member that says which object it is is refused. *)
Lemma tag_absent {A} r key (x y : option A) :
  negb match rv r with VObject _ => Has (rv r) key | _ => false end = true →
  ¬ ok (_ ← Closed r [key]; mret x) y.
Proof.
  intros Hn H. rewrite ok_bind in H by apply _. destruct H as (u & (o & Ho & Hk)%ok_Closed & _). rewrite Ho in Hn.
  unfold Has in Hn. case_bool_decide as Hs; [done|]. apply Hs, present_key, Hk. set_solver.
Qed.

#[global] Instance scope_change_codec : OptCodec readObligationScopeChange ObligationScopeChange_Value.
Proof.
  split; [apply _|]. intros r x Hd H. unfold readObligationScopeChange in H. destruct (negb _) eqn:Hn; [by apply tag_absent in H|].
  rewrite ok_bind in H by apply _. destruct H as (f & Hf & H). rewrite ok_bind in H by apply _. destruct H as (action & Ha & H).
  part_inv. destruct (String.eqb_spec action ObligationScopeAccept) as [E|E]; part_inv; subst x; eexists; (split; [done|]);
    unfold ObligationScopeChange_Value, noteObject; cbn [osc_Action osc_Core osc_Evidence];
    rewrite ?(proj2 (String.eqb_eq _ _) E), ?(proj2 (String.eqb_neq _ _) E); cbn [foldl fst snd]; same_members Hd.
Qed.

Lemma obligation_actor_ok r a : distinct (rv r) → ok (readObligationActor r) a → canon (rv r) = canon (actor_object a.1 a.2).
Proof.
  intros Hd H. unfold readObligationActor in H. part_inv. subst a. unfold actor_object, noteObject. cbn [foldl fst snd].
  same_members Hd.
Qed.

#[global] Instance mirror_ref_codec : OptCodec readObligationMirrorRef ObligationMirrorRef_Value.
Proof.
  split; [apply _|]. intros r x Hd H. unfold readObligationMirrorRef in H. part_inv. subst x. eexists. split; [done|].
  unfold ObligationMirrorRef_Value, noteObject. cbn [foldl fst snd omr_TicketID omr_ID]. same_members Hd.
Qed.

#[global] Instance mirror_change_codec : OptCodec readObligationMirrorChange ObligationMirrorChange_Value.
Proof.
  split; [apply _|]. intros r x Hd H. unfold readObligationMirrorChange in H. destruct (IsNull r) eqn:Hn.
  { apply IsNull_true in Hn. rewrite ok_ret in H. subst x. exists None. by rewrite Hn. }
  rewrite ok_bind in H by apply _. destruct H as (m & Hm & H). rewrite ok_ret in H. subst x.
  apply opt_value in Hm as (a & -> & Ha); [|done]. by exists (Some a).
Qed.

Definition candidate_fields (c : ObligationCandidate) : fields :=
  [("path", Some (VString (oca_Path c))); ("startLine", Some (countValue (oca_StartLine c)));
   ("endLine", Some (countValue (oca_EndLine c))); ("at", if oca_At c =s ε then None else Some (VString (oca_At c)))].

Lemma ParseTimestamp_nonempty r s : ok (Timestamp r) s → rv r = VString s ∧ s ≠ ε.
Proof. intros [Hr Hp]%(ok_text ParseTimestamp). split; [done|]. intros ->. by vm_compute in Hp. Qed.

#[global] Instance candidate_codec withAt : OptCodec (λ r, readObligationCandidate r withAt) ObligationCandidate_Value.
Proof.
  split; [apply _|]. intros r x Hd H. unfold readObligationCandidate in H.
  rewrite ok_bind in H by apply _. destruct H as (u & Hc & H). rewrite ok_Closed in Hc. destruct Hc as (o & Ho & Hk).
  do 6 (rewrite ok_bind in H by apply _; destruct H as (? & ? & H)).
  rewrite ok_bind in H by apply _. destruct H as (at_ & Hat & H).
  assert (Get o "at" = if at_ =s ε then None else Some (VString at_)) as Hg.
  { destruct withAt.
    - rewrite ok_bind in Hat by apply _. destruct Hat as (f & Hf & Hat). apply ParseTimestamp_nonempty in Hat as [Hr Hne].
      rewrite ok_Field in Hf. destruct Hf as (o' & v & Ho' & Hg & ->). assert (o' = o) as -> by congruence.
      cbn [child rv] in Hr. apply String.eqb_neq in Hne. by rewrite Hne, Hg, Hr.
    - rewrite ok_ret in Hat. subst at_. cbn. apply Get_absent. rewrite Hk. set_solver. }
  clear Hat. repeat match goal with H : ok (Count _) _ |- _ => apply Count_int in H as [H ?] end.
  part_inv. same_object. subst. eexists. split; [done|].
  match goal with |- _ = canon (ObligationCandidate_Value ?p) => assert (ObligationCandidate_Value p = VObject (members_of (candidate_fields p))) as -> end.
  { unfold ObligationCandidate_Value, candidate_fields. cbn [oca_At]. by destruct (at_ =s ε). }
  unfold candidate_fields. cbn [oca_Path oca_StartLine oca_EndLine oca_At].
  match goal with Hr : rv ?r = VObject ?o, Hk : ∀ k, k ∈ Keys ?o ↔ _ |- canon (rv ?r) = _ => rewrite Hr in Hd |- *;
    apply same_fields; [by apply distinct_keys|nodup_keys|intros k ?%Hk; destruct withAt; set_solver|] end.
  repeat (apply Forall_cons; split); try apply Forall_nil_2; cbn [fst snd];
    repeat match goal with H : Get _ _ = _ |- _ => rewrite H end; congruence.
Qed.

Definition scope_fields (s : ObligationScope) : fields :=
  let accepted := osp_Status s =s ObligationScopeAccepted in
  [("status", Some (VString (osp_Status s))); ("core", Some (VBool (osp_Core s))); ("reason", Some (VString (osp_Reason s)));
   ("evidence", Some (VString (osp_Evidence s)));
   ("proposedBy", Some (actor_object (osp_ProposedByID s) (osp_ProposedByRole s)));
   ("proposedAt", Some (VString (osp_ProposedAt s)));
   ("acceptedBy", if accepted then Some (actor_object (osp_AcceptedByID s) (osp_AcceptedByRole s)) else None);
   ("acceptedAt", if accepted then Some (VString (osp_AcceptedAt s)) else None)].

(** A decision has a status, and an accepted one an acceptor who is not its
    proposer. *)
Definition scope_ok (s : ObligationScope) : Prop :=
  osp_Status s ∈ [ObligationScopeProposed; ObligationScopeAccepted] ∧
  (osp_Status s = ObligationScopeAccepted → osp_AcceptedByID s ≠ osp_ProposedByID s).

(** The decision the reader returns; its acceptance part is read by [acceptance]. *)
Lemma acceptance_ok r o accepted proposer (acceptance : (string * string) * string) :
  distinct (rv r) → rv r = VObject o → (∀ k, k ∈ Keys o ↔ k ∈ scope_keys accepted) →
  ok (if accepted then
        f ← Field r "acceptedBy"; acceptor ← readObligationActor f;
        f ← Field r "acceptedAt"; accepted_at ← Timestamp f;
        e ← failed;
        _ ← (if negb (e : bool) && (acceptor.1 =s proposer)
             then Fail r CodeMalformed "%s an accepted scope decision names its proposer as acceptor" [AStr ObligationScopeSelfAcceptDetail]
             else mret tt);
        mret (acceptor, accepted_at)
      else mret ((ε, ε), ε)) acceptance →
  (canon <$> Get o "acceptedBy" = canon <$> (if accepted then Some (actor_object acceptance.1.1 acceptance.1.2) else None)) ∧
  (Get o "acceptedAt" = if accepted then Some (VString acceptance.2) else None) ∧
  (accepted = true → acceptance.1.1 ≠ proposer).
Proof.
  intros Hd Ho Hk H. destruct accepted.
  - rewrite ok_bind in H by apply _. destruct H as (f & Hf & H). rewrite ok_Field in Hf. destruct Hf as (o' & v & Ho' & Hg & ->).
    assert (o' = o) as -> by congruence. rewrite ok_bind in H by apply _. destruct H as (actor & Ha & H).
    apply obligation_actor_ok in Ha; [|cbn [child rv]; member_distinct]. cbn [child rv] in Ha. part_inv.
    subst acceptance. cbn [fst snd]. split_and!.
    + rewrite Hg. cbn [fmap option_fmap option_map]. by rewrite Ha.
    + same_object. congruence.
    + intros _. by apply String.eqb_neq.
  - rewrite ok_ret in H. subst acceptance. split_and!; [| |done]; rewrite Get_absent; try done; rewrite Hk; unfold scope_keys; set_solver.
Qed.

Lemma scope_value r x :
  distinct (rv r) → ok (readObligationScope r) x →
  ∃ s, x = Some s ∧ canon (rv r) = canon (ObligationScope_Value s) ∧ scope_ok s.
Proof.
  intros Hd H. unfold readObligationScope in H. destruct (negb _) eqn:Hn; [by apply tag_absent in H|].
  rewrite ok_bind in H by apply _. destruct H as (f & Hf & H). rewrite ok_bind in H by apply _. destruct H as (status & Hst & H).
  rewrite ok_failed in H. cbv zeta iota in H. set (accepted := status =s ObligationScopeAccepted) in *.
  rewrite ok_bind in H by (destruct accepted; apply _). destruct H as (u & Hc & H). rewrite ok_Closed in Hc. destruct Hc as (o & Ho & Hk).
  do 10 (rewrite ok_bind in H by (destruct accepted; apply _); destruct H as (? & ? & H)).
  rewrite ok_bind in H by (destruct accepted; apply _). destruct H as (acceptance & Hacc & H). rewrite ok_failed, ok_ret in H. subst x.
  eapply acceptance_ok in Hacc as (Hby & Hat & Hne); [|done..].
  eexists. split; [done|]. part_inv. same_object. subst.
  repeat match goal with H : ok (readObligationActor _) _ |- _ => apply obligation_actor_ok in H; [|cbn [child rv]; member_distinct] end.
  cbn [child rv] in *. split.
  - match goal with |- _ = canon (ObligationScope_Value ?p) => assert (ObligationScope_Value p = VObject (members_of (scope_fields p))) as -> end.
    { unfold ObligationScope_Value, scope_fields. cbn [osp_Status]. by destruct (status =s ObligationScopeAccepted). }
    unfold scope_fields. cbn [osp_Status osp_Core osp_Reason osp_Evidence osp_ProposedByID osp_ProposedByRole osp_ProposedAt
      osp_AcceptedByID osp_AcceptedByRole osp_AcceptedAt]. fold accepted.
    match goal with Hr : rv ?r = VObject ?o, Hk : ∀ k, k ∈ Keys ?o ↔ _ |- canon (rv ?r) = _ => rewrite Hr in Hd |- *;
      apply same_fields; [by apply distinct_keys|nodup_keys|intros k ?%Hk; destruct accepted; unfold scope_keys in *; set_solver|] end.
    repeat (apply Forall_cons; split); try apply Forall_nil_2; cbn [fst snd];
      repeat match goal with H : Get _ _ = _ |- _ => rewrite H end; try done; cbn [fmap option_fmap option_map]; congruence.
  - split; cbn [osp_Status osp_AcceptedByID osp_ProposedByID]; [done|]. intros E. apply Hne. unfold accepted. by apply String.eqb_eq.
Qed.

#[global] Instance scope_codec : OptCodec readObligationScope ObligationScope_Value.
Proof. split; [apply _|]. intros r x Hd (s & -> & Hs & _)%scope_value; eauto. Qed.

(** ** Reviews *)

Definition verdict_fields (v : ObligationVerdict) : fields :=
  [("reviewer", Some (VString (ov_Reviewer v))); ("verdict", Some (VString (ov_Verdict v)));
   ("stubRisk", Some (VString (ov_StubRisk v))); ("reason", Some (VString (ov_Reason v)));
   ("finding", if ov_Finding v =s ε then None else Some (VString (ov_Finding v)))].

Definition verdict_ok (v : ObligationVerdict) : Prop :=
  ov_Verdict v ∈ [VerdictCorrect; VerdictPartial; VerdictWrong] ∧ ov_StubRisk v ∈ [StubRiskNone; StubRiskBoundary; StubRiskOnPath] ∧
  (ov_Finding v = ε ∨ ov_Finding v = VerdictFindingNoFalsifiableText ∧ ov_Verdict v ≠ VerdictCorrect).

Lemma finding_ok r o x :
  rv r = VObject o →
  ok (if Has (rv r) "finding" then f ← Field r "finding"; Enum f [VerdictFindingNoFalsifiableText] else mret ε) x →
  Get o "finding" = (if x =s ε then None else Some (VString x)) ∧ (x = ε ∨ x = VerdictFindingNoFalsifiableText).
Proof.
  intros Ho H. apply (optional_member_ok ε r "finding" (λ f, Enum f [VerdictFindingNoFalsifiableText]) x o Ho)
    in H as [[-> ->]|(v & Hg & [Hv Hx]%ok_Enum)]; [by split; [|left]|].
  apply list_elem_of_singleton in Hx as ->. cbn [child rv] in Hv. subst v. split; [done|by right].
Qed.

Lemma verdict_value_ok r v :
  distinct (rv r) → ok (read_verdict r) v → canon (rv r) = canon (verdict_value v) ∧ verdict_ok v.
Proof.
  intros Hd H. unfold read_verdict in H.
  rewrite ok_bind in H by apply _. destruct H as (u & Hc & H). rewrite ok_Closed in Hc. destruct Hc as (o & Ho & Hk).
  do 8 (rewrite ok_bind in H by apply _; destruct H as (? & ? & H)).
  rewrite ok_bind in H by apply _. destruct H as (finding & Hf & H).
  eapply finding_ok in Hf as [Hf Hfx]; [|done]. rewrite ok_failed in H. cbv iota in H. cbn [negb andb] in H.
  rewrite ok_bind in H by apply _. destruct H as (u' & Hcheck & H). destruct (_ && _) eqn:Hb in Hcheck; [exfalso; clear -Hcheck; by ok_inv|].
  clear Hcheck. part_inv. same_object. subst. split.
  - match goal with |- _ = canon (verdict_value ?p) => assert (verdict_value p = VObject (members_of (verdict_fields p))) as -> end.
    { unfold verdict_value, verdict_fields. cbn [ov_Finding]. by destruct (finding =s ε). }
    unfold verdict_fields. cbn [ov_Reviewer ov_Verdict ov_StubRisk ov_Reason ov_Finding]. same_optional Hd; try congruence.
  - split_and!; cbn [ov_Verdict ov_StubRisk ov_Finding]; [done..|]. destruct Hfx as [->| ->]; [by left|right; split; [done|]].
    apply andb_false_iff in Hb as [Hb|Hb]; [by vm_compute in Hb|by apply String.eqb_neq].
Qed.

#[global] Instance verdict_codec : Codec read_verdict verdict_value.
Proof. split; [apply _|]. intros r v Hd H. by apply verdict_value_ok. Qed.

(** Sorted by distinct reviewers, each above [prev] and no author. *)
Fixpoint verdicts_from (authors : list string) (prev : option string) (vs : list ObligationVerdict) : Prop :=
  match vs with
  | [] => True
  | v :: vs' =>
      (match prev with Some p => (p <s ov_Reviewer v) = true | None => True end) ∧ (ov_Reviewer v ∉ authors) ∧ verdict_ok v ∧
      verdicts_from authors (Some (ov_Reviewer v)) vs'
  end.

Lemma verdicts_loop_ok authors r vs : ∀ i prev out xs,
  Forall distinct vs → ok (verdicts_loop authors (children r i vs) prev out) xs →
  ∃ ys, xs = out ++ ys ∧ canon <$> vs = canon <$> (verdict_value <$> ys) ∧ verdicts_from authors prev ys.
Proof.
  induction vs as [|v vs IH]; intros i prev out xs Hd H; cbn [children verdicts_loop] in H.
  { rewrite ok_ret in H. subst. exists []. by rewrite app_nil_r. }
  inv Hd as [|? ? Hv Hvs]. rewrite ok_bind in H by apply _. destruct H as (x & Hx & H). rewrite ok_failed in H. cbv iota in H.
  apply verdict_value_ok in Hx as [Hx Hwf]; [|done]. cbn [child rv] in Hx.
  destruct (match prev with Some _ => _ | None => _ end) eqn:Hp; [by ok_inv|].
  destruct (existsb _ _) eqn:He; [by ok_inv|]. apply IH in H as (ys & -> & Hys & Hf); [|done].
  exists (x :: ys). rewrite <-app_assoc. split; [done|]. rewrite !fmap_cons, Hx, Hys. split; [done|].
  split_and!; [|intros Hin|done..].
  - destruct prev; [by apply negb_false_iff in Hp|done].
  - rewrite <-not_true_iff_false, existsb_exists in He. apply He. exists (ov_Reviewer x).
    split; [by apply list_elem_of_In|apply String.eqb_refl].
Qed.

(** What a decoded review promises. *)
Definition review_ok (r : ObligationReview) : Prop :=
  1 ≤ orv_Reviewers r ≤ MaxObligationReviewers ∧ orv_MaxStubRisk r ∈ [StubRiskNone; StubRiskBoundary] ∧
  orv_Verdicts r ≠ [] ∧ verdicts_from (orv_Authors r) None (orv_Verdicts r).

Definition policy_value (n : Z) (risk : string) : Value := noteObject [("reviewers", countValue n); ("maxStubRisk", VString risk)].

Lemma policy_ok r x :
  distinct (rv r) → ok (read_policy r) x →
  canon (rv r) = canon (policy_value x.1 x.2) ∧ 1 ≤ x.1 ≤ MaxObligationReviewers ∧ x.2 ∈ [StubRiskNone; StubRiskBoundary].
Proof.
  intros Hd H. unfold read_policy in H.
  do 5 (rewrite ok_bind in H by apply _; destruct H as (? & ? & H)). rewrite ok_failed in H. cbv iota in H. cbn [negb andb] in H.
  rewrite ok_bind in H by apply _. destruct H as (u & Hc & H). destruct (_ || _) eqn:Hb in Hc; [exfalso; clear -Hc; by ok_inv|]. clear Hc.
  repeat match goal with H : ok (Count _) _ |- _ => apply Count_int in H as [H ?] end. part_inv. subst x. cbn [fst snd].
  apply orb_false_iff in Hb as [? ?]. bool_hyps. split; [|done]. unfold policy_value, noteObject. cbn [foldl fst snd].
  same_members Hd; congruence.
Qed.

Definition subject_value (s : ObligationReviewSubject) : Value :=
  noteObject [("path", VString (sub_Path s)); ("startLine", countValue (sub_StartLine s));
              ("endLine", countValue (sub_EndLine s)); ("blobSha256", VString (sub_BlobSha256 s))].

Lemma subject_ok r x : distinct (rv r) → ok (read_subject r) x → canon (rv r) = canon (subject_value x).
Proof.
  intros Hd H. unfold read_subject in H.
  repeat match goal with H : ok (Count _) _ |- _ => apply Count_int in H as [H ?] | H : ok (_ ≫= _) _ |- _ =>
    rewrite ok_bind in H by apply _; destruct H as (? & ? & H) end.
  part_inv. subst x. unfold subject_value, noteObject. cbn [foldl fst snd sub_Path sub_StartLine sub_EndLine sub_BlobSha256].
  same_members Hd; congruence.
Qed.

Lemma review_value_ok r x :
  distinct (rv r) → ok (ReadObligationReview r) x →
  ∃ w, x = Some w ∧ canon (rv r) = canon (ObligationReview_Value w) ∧ review_ok w.
Proof.
  intros Hd H. unfold ReadObligationReview in H.
  do 9 (rewrite ok_bind in H by apply _; destruct H as (? & ? & H)). rewrite ok_failed in H. cbv iota in H.
  destruct (length _ =? 0)%nat eqn:Hlen; [by ok_inv|].
  rewrite ok_bind in H by apply _. destruct H as (verdicts & Hvs & H). rewrite ok_failed, ok_ret in H. subst x.
  part_inv. same_object. subst.
  repeat match goal with
  | H : ok (read_policy _) _ |- _ => apply policy_ok in H as (H & ? & ?); [|cbn [child rv]; member_distinct]
  | H : ok (read_subject _) _ |- _ => apply subject_ok in H; [|cbn [child rv]; member_distinct]
  | H : ok (Array_ _ _ _) _ |- _ => rewrite ok_Array in H; destruct H as (vs & ? & _ & _ & ->)
  end. cbn [child rv] in *. subst.
  apply verdicts_loop_ok in Hvs as (ys & -> & Hys & Hf); [|apply distinct_elements; member_distinct].
  eexists. split; [done|]. cbn [app]. split.
  - unfold ObligationReview_Value. change (noteObject [("reviewers", _); ("maxStubRisk", _)]) with
      (policy_value x2.1 x2.2). unfold noteObject at 1. cbn [foldl fst snd orv_Reviewers orv_MaxStubRisk orv_Subject orv_Authors orv_Verdicts].
    same_members Hd; rewrite ?canon_VArray, ?Hys; try congruence. f_equal. assumption.
  - split_and!; cbn [orv_Reviewers orv_MaxStubRisk orv_Verdicts orv_Authors]; try done; try lia.
    intros ->. by destruct vs.
Qed.

#[global] Instance review_codec : OptCodec ReadObligationReview ObligationReview_Value.
Proof. split; [apply _|]. intros r x Hd (w & -> & Hw & _)%review_value_ok; eauto. Qed.

(** The outcome and axes of a record are those of its review. *)
Definition record_ok (r : ObligationReviewRecord) : Prop :=
  ObligationReview_Outcome (orr_Review r) = (orr_Outcome r, orr_Axes r) ∧ review_ok (orr_Review r).

Definition record_fields (r : ObligationReviewRecord) : fields :=
  [("outcome", Some (VString (orr_Outcome r))); ("axes", Some (VArray (VString <$> orr_Axes r)));
   ("eventSha256", Some (VString (orr_EventSha256 r))); ("commit", Some (VString (orr_Commit r)));
   ("review", Some (ObligationReview_Value (orr_Review r))); ("testRepository", VString <$> orr_TestRepository r)].

(** Lists of words without commas are equal when their joins are. *)
Definition axis_names : list string := ["reviewers"; "stubRisk"; "verdict"].

Lemma axes_Join a b :
  Forall (λ x, x ∈ axis_names) a → Forall (λ x, x ∈ axis_names) b → strings.Join a "," = strings.Join b "," → a = b.
Proof.
  assert (∀ x, x ∈ axis_names → x ≠ ε ∧ str_forall (λ c, negb (c =b ",")) x = true) as Hw.
  { intros x Hx. unfold axis_names in Hx. repeat (apply elem_of_cons in Hx as [->|Hx]; [by vm_compute|]). by apply not_elem_of_nil in Hx. }
  assert (∀ ws, Forall (λ x, x ∈ axis_names) ws → ws ≠ [] → strings.Split (strings.Join ws ",") "," = ws) as Hs.
  { intros ws Hall Hne. apply strings.Split_Join; [done|]. eapply Forall_impl; [exact Hall|]. intros x Hx. by apply Hw. }
  assert (∀ x ws, Forall (λ y, y ∈ axis_names) (x :: ws) → strings.Join (x :: ws) "," ≠ ε) as He.
  { intros x ws Hall E. specialize (Hs (x :: ws) Hall ltac:(done)). rewrite E in Hs. cbn in Hs. injection Hs as <- <-.
    apply Forall_inv in Hall. by destruct (Hw ε Hall). }
  intros Ha Hb H. destruct a as [|x a], b as [|y b]; [done|symmetry in H; by apply He in H|by apply He in H|].
  rewrite <-(Hs (x :: a)), <-(Hs (y :: b)) by done. by rewrite H.
Qed.

Lemma outcome_axes r : Forall (λ x, x ∈ axis_names) (ObligationReview_Outcome r).2.
Proof.
  unfold ObligationReview_Outcome. cbv zeta. destruct (_ =? 0)%nat; [constructor|]. cbn [snd]. rewrite SortStrings_perm.
  unfold axis_names. repeat apply Forall_app_2; repeat case_match; repeat constructor; set_solver.
Qed.

Lemma record_value r x :
  distinct (rv r) → ok (readObligationReviewRecord r) x →
  ∃ w, x = Some w ∧ canon (rv r) = canon (ObligationReviewRecord_Value w) ∧ record_ok w.
Proof.
  intros Hd H. unfold readObligationReviewRecord in H.
  rewrite ok_bind in H by apply _. destruct H as (u & Hc & H). rewrite ok_Closed in Hc. destruct Hc as (o & Ho & Hk).
  do 10 (rewrite ok_bind in H by apply _; destruct H as (? & ? & H)). rewrite ok_failed in H. cbv iota in H.
  match goal with H : ok (ReadObligationReview _) _ |- _ =>
    apply review_value_ok in H as (w & -> & Hw & Hwf); [|part_inv; same_object; subst; cbn [child rv]; member_distinct] end.
  rewrite ok_bind in H by apply _. destruct H as (repo & Hrepo & H). members_inv Hd Ho. rewrite ok_failed in H. cbv iota in H.
  destruct (ObligationReview_Outcome w) as [outcome axes] eqn:Hout. destruct (_ || _) eqn:Hb; [by ok_inv|].
  rewrite ok_ret in H. subst x. eexists. split; [done|]. apply orb_false_iff in Hb as [Hb1 Hb2].
  apply negb_false_iff, String.eqb_eq in Hb1, Hb2. subst.
  match goal with H : ok (Reader_Strings _ _ _ _) _ |- _ => pose proof H as Hax;
    apply (ok_Strings_Forall (λ s, s ∈ axis_names)) in Hax; [|apply _|by intros ? ? [_ ?]%ok_Enum];
    apply strings_field in H; [|apply _|by intros ? ? [? _]%ok_Enum] end.
  apply axes_Join in Hb2 as ->; [|pose proof (outcome_axes w) as Hx; by rewrite Hout in Hx|done].
  part_inv. same_object. subst. split; [|split; [by cbn|done]].
  match goal with |- _ = canon (ObligationReviewRecord_Value ?p) => assert (ObligationReviewRecord_Value p = VObject (members_of (record_fields p))) as -> end.
  { unfold ObligationReviewRecord_Value, record_fields. cbn [orr_TestRepository]. by destruct repo. }
  unfold record_fields. cbn [orr_Outcome orr_Axes orr_EventSha256 orr_Commit orr_Review orr_TestRepository].
  same_optional Hd; cbn [child rv] in *; try congruence. done.
Qed.

#[global] Instance record_codec : OptCodec readObligationReviewRecord ObligationReviewRecord_Value.
Proof. split; [apply _|]. intros r x Hd (w & -> & Hw & _)%record_value; eauto. Qed.

(** ** Entries *)

Lemma alias_member r o x :
  rv r = VObject o → ok (has_member r "alias" readObligationAlias) x →
  Get o "alias" = (if default ε x =s ε then None else Some (VString (default ε x))).
Proof.
  intros Ho H. destruct (has_member_ok _ _ _ _ _ Ho H) as [[-> ->]|(v & a & -> & [Hv Ha]%obligation_alias_value & ->)]; [done|].
  change (default ε (Some a)) with a. apply String.eqb_neq in Ha. cbn [child rv] in Hv. subst. by rewrite Ha.
Qed.

Lemma evidence_or_null r x :
  distinct (rv r) → ok (if IsNull r then mret None else ReadObligationEvidence r) x →
  canon (rv r) = canon (match x with Some e => ObligationEvidence_Value e | None => VNull end).
Proof.
  intros Hd H. destruct (IsNull r) eqn:Hn.
  { apply IsNull_true in Hn. rewrite ok_ret in H. subst x. by rewrite Hn. }
  by apply opt_value in H as (e & -> & He).
Qed.

Definition entry_fields (e : ObligationEntry) : fields :=
  [("id", Some (VString (oen_ID e))); ("title", Some (VString (oen_Title e))); ("core", Some (VBool (oen_Core e)));
   ("state", Some (VString (oen_State e))); ("reason", Some (StringOrNull (oen_Reason e)));
   ("evidence", Some (match oen_Evidence e with Some ev => ObligationEvidence_Value ev | None => VNull end));
   ("updatedAt", Some (VString (oen_UpdatedAt e))); ("updatedBy", Some (actor_object (oen_UpdatedByID e) (oen_UpdatedByRole e)));
   ("alias", if oen_Alias e =s ε then None else Some (VString (oen_Alias e))); ("sources", obligationSourcesValue <$> oen_Sources e);
   ("review", ObligationReviewRecord_Value <$> oen_Review e); ("cites", obligationCitesValue <$> oen_Cites e);
   ("scope", ObligationScope_Value <$> oen_Scope e); ("candidate", ObligationCandidate_Value <$> oen_Candidate e);
   ("satisfiedBy", ObligationMirrorRef_Value <$> oen_SatisfiedBy e)].

Lemma entry_members e : ObligationEntry_Value e = VObject (members_of (entry_fields e)).
Proof.
  unfold ObligationEntry_Value, entry_fields. destruct e as [i alias t c st re ev src rev cites scope cand mir ua ub uc].
  cbn [oen_ID oen_Alias oen_Title oen_Core oen_State oen_Reason oen_Evidence oen_Sources oen_Review oen_Cites oen_Scope
    oen_Candidate oen_SatisfiedBy oen_UpdatedAt oen_UpdatedByID oen_UpdatedByRole].
  destruct (alias =s ε), src, rev, cites, scope, cand, mir; reflexivity.
Qed.

(** What the reader of an entry grants besides. *)
Definition entry_read_ok (e : ObligationEntry) : Prop :=
  oen_State e ∈ ObligationStates ∧ (oen_State e = ObligationWitnessed ↔ is_Some (oen_Evidence e)) ∧
  (∀ s, oen_Scope e = Some s → scope_ok s) ∧ (∀ w, oen_Review e = Some w → record_ok w) ∧ ObligationIDPrefix (oen_ID e) ≠ ε.

Lemma opt_member_wf {A} r key (dec : Reader → M (option A)) (P : A → Prop) x o `{Hst : !∀ r, Sticky (dec r)} :
  (∀ r x, distinct (rv r) → ok (dec r) x → ∃ a, x = Some a ∧ P a) →
  distinct (rv r) → rv r = VObject o → ok (has_member r key dec) x → ∀ a, mjoin x = Some a → P a.
Proof.
  intros Hm Hd Ho H. destruct (has_member_ok _ _ _ _ _ Ho H) as [[_ ->]|(v & y & Hg & Hy & ->)]; [done|].
  apply Hm in Hy as (a & -> & Ha); [|cbn [child rv]; member_distinct]. by intros ? [= <-].
Qed.

Lemma record_wf r x : distinct (rv r) → ok (readObligationReviewRecord r) x → ∃ w, x = Some w ∧ record_ok w.
Proof. intros Hd (w & -> & _ & ?)%record_value; [by exists w|done]. Qed.

Lemma scope_wf r x : distinct (rv r) → ok (readObligationScope r) x → ∃ s, x = Some s ∧ scope_ok s.
Proof. intros Hd (s & -> & _ & ?)%scope_value; [by exists s|done]. Qed.

Lemma entry_value r x :
  distinct (rv r) → ok (ReadObligationEntry r) x →
  ∃ e, x = Some e ∧ canon (rv r) = canon (ObligationEntry_Value e) ∧ entry_read_ok e.
Proof.
  intros Hd H. unfold ReadObligationEntry in H.
  rewrite ok_bind in H by apply _. destruct H as (u & Hc & H). rewrite ok_Closed in Hc. destruct Hc as (o & Ho & Hk).
  do 10 (rewrite ok_bind in H by apply _; destruct H as (? & ? & H)).
  rewrite ok_bind in H by apply _. destruct H as (alias & Halias & H). apply (alias_member _ _ _ Ho) in Halias.
  rewrite ok_bind in H by apply _. destruct H as (sources & Hsources & H). apply (codec_member _ _ _ _ _ _ Hd Ho) in Hsources.
  rewrite ok_bind in H by apply _. destruct H as (review & Hreview & H).
  pose proof (opt_member_wf _ _ _ record_ok _ _ record_wf Hd Ho Hreview) as Wreview.
  rewrite ok_bind in H by apply _. destruct H as (cites & Hcites & H). apply (codec_member _ _ _ _ _ _ Hd Ho) in Hcites.
  rewrite ok_bind in H by apply _. destruct H as (scope & Hscope & H).
  pose proof (opt_member_wf _ _ _ scope_ok _ _ scope_wf Hd Ho Hscope) as Wscope.
  rewrite ok_bind in H by apply _. destruct H as (candidate & Hcand & H).
  apply (opt_member _ _ _ ObligationCandidate_Value _ _ Hd Ho) in Hcand.
  do 7 (rewrite ok_bind in H by apply _; destruct H as (? & ? & H)). members_inv Hd Ho. rewrite ok_failed in H. cbv iota in H.
  destruct (negb _) eqn:Hev; [by ok_inv|]. rewrite ok_ret in H. subst x. eexists. split; [done|].
  part_inv. same_object. subst.
  repeat match goal with
  | H : ok (if IsNull _ then _ else _) _ |- _ => apply evidence_or_null in H; [|cbn [child rv]; member_distinct]
  | H : ok (readObligationActor _) _ |- _ => apply obligation_actor_ok in H; [|cbn [child rv]; member_distinct]
  end. cbn [child rv] in *. split.
  - rewrite entry_members. unfold entry_fields.
    cbn [oen_ID oen_Alias oen_Title oen_Core oen_State oen_Reason oen_Evidence oen_Sources oen_Review oen_Cites oen_Scope
      oen_Candidate oen_SatisfiedBy oen_UpdatedAt oen_UpdatedByID oen_UpdatedByRole].
    same_optional Hd; try congruence.
  - apply negb_false_iff, eqb_prop in Hev. split_and!; cbn [oen_State oen_Evidence oen_Scope oen_Review oen_ID]; try done.
    rewrite <-String.eqb_eq, Hev. unfold some_p.
    match goal with |- context [is_none ?e] => destruct e; cbn; split; intros Hx; first [done|by eexists|by destruct Hx] end.
Qed.

#[global] Instance entry_codec : OptCodec ReadObligationEntry ObligationEntry_Value.
Proof. split; [apply _|]. intros r x Hd (w & -> & Hw & _)%entry_value; eauto. Qed.
