(* ===== verification/EventsSpec.v ===== *)
(** * What the readers of obligations promise: payloads, requests, events

    Every payload reader gives back, through its writer, the value it read;
    what a decoded event grants; and that an event is written as it was read. *)

From S2P Require Import Prelude Utf8 GoStd Codes Limits Value Canonical Primitives Ids.
From S2P Require Import SetsSpec PrimitivesSpec IdsSpec Parse ParseTotal ParsePrint.
From S2P Require Import ParseDoc Reader ReaderSpec Result ResultSpec Ticket Inventory Marks MarksSpec.
From S2P Require Import KnowHow KnowHowSpec RecordParts Escalations RecordCodec PartsSpec RecordSpec.
From S2P Require Import Obligations ObligationEvents ObligationParts.
Local Open Scope Z_scope.
Local Open Scope go_scope.

(** ** Lists keyed by id *)

Definition str_lt (a b : string) : Prop := String.ltb a b = true.

Lemma str_lt_trans a b c : str_lt a b → str_lt b c → str_lt a c.
Proof. unfold str_lt. apply ltb_trans. Qed.

Lemma id_keyed_loop_ok {A} (item : Reader → M A) id what r vs `{Hst : !∀ r, Sticky (item r)} : ∀ i prev out xs,
  ok (id_keyed_loop item id what (children r i vs) prev out) xs →
  ∃ ys, xs = out ++ ys ∧ ok (each item (children r i vs)) ys ∧ StronglySorted str_lt (id <$> ys) ∧
    ∀ p y, prev = Some p → y ∈ ys → str_lt p (id y).
Proof.
  induction vs as [|v vs IH]; intros i prev out xs H; cbn [children id_keyed_loop each] in *.
  { rewrite ok_ret in H. subst. exists []. rewrite app_nil_r. split_and!; [done|by rewrite ok_ret|constructor|].
    by intros ? ? _ ?%not_elem_of_nil. }
  rewrite ok_bind in H by apply _. destruct H as (x & Hx & H). rewrite ok_failed in H. cbv iota in H.
  destruct (match prev with Some _ => _ | None => _ end) eqn:Hp; [exfalso; case_bool_decide; by ok_inv|].
  apply IH in H as (ys & -> & Hys & Hs & Hlt). exists (x :: ys). rewrite <-app_assoc. split_and!; [done| | |].
  - rewrite ok_bind by apply _. exists x. split; [done|]. rewrite ok_bind by apply _. exists ys. by rewrite ok_ret.
  - rewrite fmap_cons. constructor; [done|]. apply Forall_fmap, Forall_forall. intros y Hy. by apply Hlt.
  - intros p y -> [->|Hy]%elem_of_cons; apply negb_false_iff in Hp; [done|]. eapply str_lt_trans; [done|]. by apply Hlt.
Qed.

Lemma readIDKeyed_ok {A} (dec : Reader → M A) enc `{!Codec dec enc} id (P : A → Prop) r max what xs :
  (∀ r x, distinct (rv r) → ok (dec r) x → P x) →
  distinct (rv r) → 0 ≤ max → ok (readIDKeyed r max what dec id) xs →
  canon (rv r) = canon (VArray (enc <$> xs)) ∧ xs ≠ [] ∧ Z.of_nat (length xs) ≤ max ∧
  StronglySorted str_lt (id <$> xs) ∧ Forall P xs.
Proof.
  intros HP Hd Hmax H. unfold readIDKeyed in H. rewrite ok_bind in H by apply _. destruct H as (es & Hes & H).
  rewrite ok_Array in Hes. destruct Hes as (vs & Hv & Hle & _ & ->). rewrite ok_failed in H. cbv iota in H.
  rewrite Hv in Hd |- *. apply distinct_elements in Hd.
  destruct vs as [|v vs]; [by ok_inv|].
  assert ((length (children r 0 (v :: vs)) =? 0)%nat = false) as Hz by done. rewrite Hz in H.
  apply id_keyed_loop_ok in H as (ys & -> & Hys & Hs & _); [|apply _]. cbn [app].
  pose proof (each_value dec enc _ _ _ _ Hd Hys) as Heq. rewrite !canon_VArray. rewrite <-list_fmap_compose. split_and!; [| | |done|].
  - f_equal. rewrite Heq. by apply list_fmap_ext.
  - by intros ->.
  - apply (f_equal length) in Heq. rewrite !length_fmap in Heq. rewrite <-Heq. destruct Hle; lia.
  - eapply (each_Forall dec); [apply _|exact HP|exact Hd|exact Hys].
Qed.

(** ** Seeds *)

#[global] Instance Sticky_seed_item prefix r : Sticky (read_seed_item prefix r).
Proof. unfold read_seed_item. apply _. Qed.
#[global] Instance Sticky_seed_payload r : Sticky (ReadObligationSeedPayload r).
Proof. unfold ReadObligationSeedPayload. apply _. Qed.
#[global] Instance Sticky_change r : Sticky (read_change r).
Proof. unfold read_change. apply _. Qed.
#[global] Instance Sticky_set_payload r : Sticky (ReadObligationSetPayload r).
Proof. unfold ReadObligationSetPayload. apply _. Qed.
#[global] Instance Sticky_credit b r : Sticky (read_credit b r).
Proof. unfold read_credit. apply _. Qed.
#[global] Instance Sticky_witness_head r : Sticky (read_witness_head r).
Proof. unfold read_witness_head. apply _. Qed.
#[global] Instance Sticky_witness_payload r : Sticky (ReadObligationWitnessPayload r).
Proof. unfold ReadObligationWitnessPayload. apply _. Qed.
#[global] Instance Sticky_payload op r : Sticky (read_payload op r).
Proof. unfold read_payload. apply _. Qed.
#[global] Instance Sticky_request_head r : Sticky (read_request_head r).
Proof. unfold read_request_head. apply _. Qed.
#[global] Instance Sticky_event_head r : Sticky (read_event_head r).
Proof. unfold read_event_head. apply _. Qed.

Definition seed_item_fields (o : ObligationSeedItem) : fields :=
  [("id", Some (VString (osi_ID o))); ("title", Some (VString (osi_Title o))); ("core", Some (VBool (osi_Core o)));
   ("alias", if osi_Alias o =s ε then None else Some (VString (osi_Alias o)))].

Lemma seed_item_ok prefix r x :
  distinct (rv r) → ok (read_seed_item prefix r) x →
  canon (rv r) = canon (seed_item_value x) ∧ ObligationIDPrefix (osi_ID x) = prefix.
Proof.
  intros Hd H. unfold read_seed_item in H.
  rewrite ok_bind in H by apply _. destruct H as (u & Hc & H). rewrite ok_Closed in Hc. destruct Hc as (o & Ho & Hk).
  do 6 (rewrite ok_bind in H by apply _; destruct H as (? & ? & H)).
  rewrite ok_bind in H by apply _. destruct H as (alias & Halias & H). apply (alias_member _ _ _ Ho) in Halias.
  rewrite ok_failed in H. cbv iota in H. cbn [negb andb] in H. rewrite ok_bind in H by apply _. destruct H as (u' & Hcheck & H).
  destruct (_ =s prefix) eqn:E; [apply String.eqb_eq in E|exfalso; clear -Hcheck; cbn [negb] in Hcheck; by ok_inv]. clear Hcheck.
  part_inv. same_object. cbn [osi_ID]. split; [|done].
  match goal with |- _ = canon (seed_item_value ?p) => assert (seed_item_value p = VObject (members_of (seed_item_fields p))) as -> end.
  { unfold seed_item_value, seed_item_fields. cbn [osi_Alias]. by destruct (_ =s ε). }
  unfold seed_item_fields. cbn [osi_ID osi_Alias osi_Title osi_Core]. subst. same_optional Hd; try congruence.
Qed.

#[global] Instance seed_item_codec prefix : Codec (read_seed_item prefix) seed_item_value.
Proof. split; [apply _|]. intros r x Hd H. by apply (seed_item_ok prefix). Qed.

(** What a decoded seed promises. *)
Definition seed_ok (p : ObligationSeedPayload) : Prop :=
  osd_Prefix p ≠ ε ∧ osd_Obligations p ≠ [] ∧ StronglySorted str_lt (osi_ID <$> osd_Obligations p) ∧
  Forall (λ o, ObligationIDPrefix (osi_ID o) = osd_Prefix p) (osd_Obligations p).

Lemma prefix_nonempty r s : ok (readObligationPrefix r) s → s ≠ ε.
Proof.
  unfold readObligationPrefix. rewrite ok_bind by apply _. intros (t & Ht & H). rewrite ok_failed in H.
  destruct (ParseObligationPrefix _ t) eqn:E; [|by ok_inv|]; rewrite ok_ret in H; subst t; by intros ->.
Qed.

Lemma seed_payload_ok r p :
  distinct (rv r) → ok (ReadObligationSeedPayload r) p → canon (rv r) = canon (ObligationSeedPayload_Value p) ∧ seed_ok p.
Proof.
  intros Hd H. unfold ReadObligationSeedPayload in H.
  do 5 (rewrite ok_bind in H by apply _; destruct H as (? & ? & H)). rewrite ok_ret in H. subst p. part_inv. same_object. subst.
  match goal with H : ok (readIDKeyed _ _ _ (read_seed_item ?p) _) _ |- _ =>
    eapply (readIDKeyed_ok _ _ _ (λ o, ObligationIDPrefix (osi_ID o) = p)) in H as (Hv & Hne & _ & Hs & Hall);
      [|by intros ? ? ? [_ ?]%seed_item_ok|cbn [child rv]; member_distinct|done] end.
  match goal with H : ok (readObligationPrefix _) _ |- _ => pose proof (prefix_nonempty _ _ H); apply obligation_prefix_ok in H end.
  cbn [child rv] in *. subst. split; [|by split_and!].
  unfold ObligationSeedPayload_Value, noteObject. cbn [foldl fst snd osd_Prefix osd_Obligations]. same_members Hd; congruence.
Qed.

(** ** Changes *)

Definition change_fields (c : ObligationChange) : fields :=
  [("id", Some (VString (och_ID c))); ("state", Some (StringOrNull (och_State c)));
   ("core", Some (match och_Core c with Some b => VBool b | None => VNull end)); ("reason", Some (VString (och_Reason c)));
   ("sources", obligationSourcesValue <$> och_Sources c); ("cites", obligationCitesValue <$> och_Cites c);
   ("scope", ObligationScopeChange_Value <$> och_Scope c); ("candidate", ObligationCandidate_Value <$> och_Candidate c);
   ("satisfiedBy", ObligationMirrorChange_Value <$> och_Mirror c)].

Lemma change_members c : change_value c = VObject (members_of (change_fields c)).
Proof.
  unfold change_value, change_fields. destruct c as [i st co re src cites scope cand mir].
  cbn [och_ID och_State och_Core och_Reason och_Sources och_Cites och_Scope och_Candidate och_Mirror].
  destruct src, cites, scope, cand, mir; reflexivity.
Qed.

(** A change names something, no state but those a write may set, and no core
    flag beside a scope decision. *)
Definition change_ok (c : ObligationChange) : Prop :=
  empty_change c = false ∧
  (∀ s, och_State c = Some s → s ∈ [ObligationOpen; ObligationDefect; ObligationBlocked; ObligationDeferred; ObligationPartial]) ∧
  (is_Some (och_Scope c) → och_Core c = None).

Lemma core_or_null r x :
  ok (if IsNull r then mret None else b ← Bool_ r; mret (Some b)) x → rv r = match x with Some b => VBool b | None => VNull end.
Proof.
  intros H. destruct (IsNull r) eqn:Hn; [apply IsNull_true in Hn; rewrite ok_ret in H; by subst|].
  ok_inv. by subst.
Qed.

Lemma read_change_ok r x : distinct (rv r) → ok (read_change r) x → canon (rv r) = canon (change_value x) ∧ change_ok x.
Proof.
  intros Hd H. unfold read_change in H.
  rewrite ok_bind in H by apply _. destruct H as (u & Hc & H). rewrite ok_Closed in Hc. destruct Hc as (o & Ho & Hk).
  do 8 (rewrite ok_bind in H by apply _; destruct H as (? & ? & H)).
  rewrite ok_bind in H by apply _. destruct H as (sources & Hsources & H). apply (codec_member _ _ _ _ _ _ Hd Ho) in Hsources.
  rewrite ok_bind in H by apply _. destruct H as (cites & Hcites & H). apply (codec_member _ _ _ _ _ _ Hd Ho) in Hcites.
  rewrite ok_bind in H by apply _. destruct H as (scope & Hscope & H). apply (opt_member _ _ _ _ _ _ Hd Ho) in Hscope.
  rewrite ok_bind in H by apply _. destruct H as (candidate & Hcand & H).
  apply (opt_member _ _ _ ObligationCandidate_Value _ _ Hd Ho) in Hcand.
  rewrite ok_bind in H by apply _. destruct H as (mirror & Hmirror & H). apply (opt_member _ _ _ _ _ _ Hd Ho) in Hmirror.
  cbv zeta in H. rewrite ok_failed in H. cbv iota in H. cbn [negb andb] in H. rewrite ok_bind in H by apply _. destruct H as (u1 & Hc1 & H).
  destruct (empty_change _) eqn:Hempty; [exfalso; clear -Hc1; by ok_inv|]. clear Hc1.
  rewrite ok_failed in H. cbv iota in H. cbn [negb andb] in H. rewrite ok_bind in H by apply _. destruct H as (u2 & Hc2 & H).
  destruct (_ && _) eqn:Hsc; [exfalso; clear -Hc2; by ok_inv|]. clear Hc2. rewrite ok_ret in H. subst x.
  repeat match goal with H : ok (if IsNull _ then _ else _) _ |- _ => apply core_or_null in H end.
  part_inv. same_object. subst. split.
  - rewrite change_members. unfold change_fields.
    cbn [och_ID och_State och_Core och_Reason och_Sources och_Cites och_Scope och_Candidate och_Mirror].
    cbn [child rv] in *. same_optional Hd; try congruence.
  - split_and!; [done|done|]. cbn [och_Scope och_Core] in *. intros [s Hs]. rewrite Hs in Hsc. cbn in Hsc.
    match goal with |- ?x = None => by destruct x end.
Qed.

#[global] Instance change_codec : Codec read_change change_value.
Proof. split; [apply _|]. intros r x Hd H. by apply read_change_ok. Qed.

Definition set_ok (p : ObligationSetPayload) : Prop :=
  ost_Changes p ≠ [] ∧ StronglySorted str_lt (och_ID <$> ost_Changes p) ∧ Forall change_ok (ost_Changes p).

Lemma set_payload_ok r p :
  distinct (rv r) → ok (ReadObligationSetPayload r) p → canon (rv r) = canon (ObligationSetPayload_Value p) ∧ set_ok p.
Proof.
  intros Hd H. unfold ReadObligationSetPayload in H.
  do 3 (rewrite ok_bind in H by apply _; destruct H as (? & ? & H)). rewrite ok_ret in H. subst p. part_inv. same_object. subst.
  match goal with H : ok (readIDKeyed _ _ _ _ _) _ |- _ =>
    eapply (readIDKeyed_ok _ _ _ change_ok) in H as (Hv & Hne & _ & Hs & Hall);
      [|by intros ? ? ? [_ ?]%read_change_ok|cbn [child rv]; member_distinct|done] end.
  cbn [child rv] in *. subst. split; [|by split_and!].
  unfold ObligationSetPayload_Value, noteObject. cbn [foldl fst snd ost_Changes]. same_members Hd; congruence.
Qed.

(** ** Credits *)

Lemma read_credit_ok source r x :
  distinct (rv r) → ok (read_credit (source =s ObligationSourceReport) r) x →
  canon (rv r) = canon (credit_value source x) ∧ (is_Some (ocr_Matches x) ↔ source = ObligationSourceReport).
Proof.
  intros Hd H. unfold read_credit in H. unfold credit_value, noteObject.
  destruct (String.eqb_spec source ObligationSourceReport) as [E|E].
  - do 5 (rewrite ok_bind in H by apply _; destruct H as (? & ? & H)). rewrite ok_ret in H. subst x. part_inv. same_object. subst.
    match goal with H : ok (readObligationMatches _) _ |- _ => apply matches_ok in H as [? _]; [|cbn [child rv]; member_distinct] end.
    cbn [foldl fst snd ocr_ID ocr_Matches from_option default id child rv] in *. split; [|by split; [|by eexists]].
    same_members Hd. congruence.
  - part_inv. subst x. cbn [foldl fst snd ocr_ID ocr_Matches]. split; [same_members Hd|]. by split; [intros []|].
Qed.

#[global] Instance credit_codec source : Codec (read_credit (source =s ObligationSourceReport)) (credit_value source).
Proof. split; [apply _|]. intros r x Hd H. by apply (read_credit_ok source). Qed.

(** What a decoded witness promises: its members are those of its source. *)
Definition witness_ok (w : ObligationWitnessPayload) : Prop :=
  owp_Source w ∈ [ObligationSourceReport; ObligationSourceDeclared; ObligationSourceReviewed] ∧
  owp_Credits w ≠ [] ∧ StronglySorted str_lt (ocr_ID <$> owp_Credits w) ∧
  (is_Some (owp_Review w) ↔ owp_Source w = ObligationSourceReviewed) ∧
  (is_Some (owp_Declaration w) ↔ owp_Source w = ObligationSourceDeclared) ∧
  (is_Some (owp_ReportSha256 w) ↔ owp_Source w = ObligationSourceReport) ∧
  (owp_Source w = ObligationSourceReviewed → length (owp_Credits w) = 1%nat) ∧
  (∀ r, owp_Review w = Some r → review_ok r).

Definition witness_fields (p : ObligationWitnessPayload) : fields :=
  [("source", Some (VString (owp_Source p))); ("commit", Some (VString (owp_Commit p)));
   ("reportSha256", Some (StringOrNull (owp_ReportSha256 p))); ("playwrightVersion", Some (StringOrNull (owp_PlaywrightVersion p)));
   ("credits", Some (VArray (credit_value (owp_Source p) <$> owp_Credits p)));
   ("declaration", Some (match owp_Declaration p with Some d => ObligationDeclaration_Value d | None => VNull end));
   ("attempt", Some (StringOrNull (owp_Attempt p))); ("generation", Some (StringOrNull (owp_Generation p)));
   ("provenance", ObligationProvenance_Value <$> owp_Provenance p); ("testRepository", VString <$> owp_TestRepository p);
   ("review", ObligationReview_Value <$> owp_Review p)].

Lemma witness_members p : ObligationWitnessPayload_Value p = VObject (members_of (witness_fields p)).
Proof.
  unfold ObligationWitnessPayload_Value, witness_fields. destruct p as [s c rs pv cr d a g pr tr rev].
  cbn [owp_Source owp_Commit owp_ReportSha256 owp_PlaywrightVersion owp_Credits owp_Declaration owp_Attempt owp_Generation
    owp_Provenance owp_TestRepository owp_Review].
  destruct pr, tr, rev; reflexivity.
Qed.

Lemma review_wf_ok r x : distinct (rv r) → ok (ReadObligationReview r) x → ∃ w, x = Some w ∧ review_ok w.
Proof. intros Hd (w & -> & _ & ?)%review_value_ok; [by exists w|done]. Qed.

(** The object of the head agrees with the payload's fields but the credits. *)
Lemma witness_head_ok r p :
  distinct (rv r) → ok (read_witness_head r) p →
  ∃ o, rv r = VObject o ∧ (∀ k, k ∈ Keys o → k ∈ (witness_fields p).*1) ∧
    (∀ credits v, Get o "credits" = Some v → canon v = canon (VArray (credit_value (owp_Source p) <$> credits)) →
      Forall (agrees o) (witness_fields (with_credits p credits))) ∧
    owp_Source p ∈ [ObligationSourceReport; ObligationSourceDeclared; ObligationSourceReviewed] ∧
    ∀ w, owp_Review p = Some w → review_ok w.
Proof.
  intros Hd H. unfold read_witness_head in H.
  rewrite ok_bind in H by apply _. destruct H as (u & Hc & H). rewrite ok_Closed in Hc. destruct Hc as (o & Ho & Hk).
  do 16 (rewrite ok_bind in H by apply _; destruct H as (? & ? & H)).
  rewrite ok_bind in H by apply _. destruct H as (review & Hreview & H).
  pose proof (opt_member_wf _ _ _ review_ok _ _ review_wf_ok Hd Ho Hreview) as Wreview.
  rewrite ok_ret in H. subst p. members_inv Hd Ho. exists o. split; [done|].
  part_inv. same_object. subst.
  repeat match goal with H : ok (readObligationDeclaration _) _ |- _ => apply codec_value in H; [|cbn [child rv]; member_distinct] end.
  cbn [child rv] in *. split_and!; [|intros credits v Hv Hcr|done|done].
  - eapply optional_keys; [exact Hk|reflexivity].
  - unfold witness_fields, with_credits in *.
    cbn [owp_Source owp_Commit owp_ReportSha256 owp_PlaywrightVersion owp_Credits owp_Declaration owp_Attempt owp_Generation
      owp_Provenance owp_TestRepository owp_Review] in *.
    repeat (apply Forall_cons; split); try apply Forall_nil_2; unfold agrees; cbn [fst snd];
      repeat match goal with H : Get _ _ = _ |- _ => rewrite H end; cbn [fmap option_fmap option_map]; try done; congruence.
Qed.

Lemma mismatch_iff (b : bool) {A} (x : option A) : negb (Bool.eqb b (some_p x)) = false → is_Some x ↔ b = true.
Proof.
  intros ->%negb_false_iff%eqb_prop. unfold some_p. destruct x; cbn; split; intros Hx; first [done|by eexists|by destruct Hx].
Qed.

Lemma witness_payload_ok r p :
  distinct (rv r) → ok (ReadObligationWitnessPayload r) p →
  canon (rv r) = canon (ObligationWitnessPayload_Value p) ∧ witness_ok p.
Proof.
  intros Hd H. unfold ReadObligationWitnessPayload in H. rewrite ok_bind in H by apply _. destruct H as (h & Hh & H).
  destruct (witness_head_ok _ _ Hd Hh) as (o & Ho & Hk & Hf & Hsource & Hreview). rewrite ok_failed in H. cbv iota in H.
  destruct (witness_mismatch h) eqn:Hm; [by ok_inv|]. destruct (negb (Bool.eqb _ _)); [by ok_inv|].
  rewrite ok_bind in H by apply _. destruct H as (f & Hfield & H). rewrite ok_Field in Hfield.
  destruct Hfield as (o' & v & Ho' & Hg & ->). assert (o' = o) as -> by congruence.
  rewrite ok_bind in H by apply _. destruct H as (credits & Hcr & H).
  eapply (readIDKeyed_ok _ (credit_value (owp_Source h)) _ (λ _, True)) in Hcr as (Hv & Hne & _ & Hs & _);
    [|done|cbn [child rv]; member_distinct|done].
  rewrite ok_failed in H. cbv iota in H. rewrite ok_bind in H by apply _. destruct H as (u & Hone & H).
  destruct (_ && _ && _) eqn:Hlen in Hone; [exfalso; clear -Hone; by ok_inv|]. clear Hone. rewrite ok_ret in H. subst p. split.
  - rewrite witness_members. rewrite Ho in Hd |- *. apply same_fields; [by apply distinct_keys|nodup_keys|done|].
    by apply (Hf credits v).
  - unfold witness_mismatch in Hm. cbv zeta in Hm. rewrite !orb_false_iff in Hm. destruct Hm as (((M1 & M2) & M3) & M4).
    apply mismatch_iff in M1, M3, M4. unfold witness_ok, with_credits.
    cbn [owp_Source owp_Review owp_Declaration owp_ReportSha256 owp_Credits]. rewrite String.eqb_eq in M1, M3, M4.
    split_and!; try done; try (by apply M1); try (by apply M3); try (by apply M4). intros E. rewrite E in Hlen. cbn in Hlen.
    by destruct (Nat.eqb_spec (length credits) 1).
Qed.

(** ** Requests *)

Definition payload_value (p : ObligationPayload) : Value :=
  match p with
  | PSeed p => ObligationSeedPayload_Value p
  | PSet p => ObligationSetPayload_Value p
  | PWitness p => ObligationWitnessPayload_Value p
  end.

Definition payload_op (p : ObligationPayload) : string :=
  match p with PSeed _ => OpObligationsSeed | PSet _ => OpObligationsSet | PWitness _ => OpObligationsWitness end.

Definition payload_ok (p : ObligationPayload) : Prop :=
  match p with PSeed p => seed_ok p | PSet p => set_ok p | PWitness p => witness_ok p end.

Lemma read_payload_ok op r p :
  op ∈ ObligationOperations → distinct (rv r) → ok (read_payload op r) p →
  canon (rv r) = canon (payload_value p) ∧ payload_ok p ∧ op = payload_op p.
Proof.
  intros Hop Hd H. unfold read_payload in H. unfold ObligationOperations in Hop.
  destruct (String.eqb_spec op OpObligationsSeed) as [->|].
  { rewrite ok_bind in H by apply _. destruct H as (x & Hx & H). rewrite ok_ret in H. subst p.
    by apply seed_payload_ok in Hx as [? ?]. }
  destruct (String.eqb_spec op OpObligationsSet) as [->|].
  { rewrite ok_bind in H by apply _. destruct H as (x & Hx & H). rewrite ok_ret in H. subst p.
    by apply set_payload_ok in Hx as [? ?]. }
  rewrite ok_bind in H by apply _. destruct H as (x & Hx & H). rewrite ok_ret in H. subst p.
  apply witness_payload_ok in Hx as [? ?]; [|done]. split_and!; [done..|]. set_solver.
Qed.

(** The request that is written as it was read. *)
Definition request_value (q : ObligationRequest) : Value :=
  noteObject [("profile", VString mutation_profile); ("requestId", VString (orq_RequestID q));
    ("actor", actor_object (orq_ActorID q) (orq_ActorRole q)); ("queueId", VString (QueueID_Raw (orq_QueueID q)));
    ("targetId", VString (TicketID_Raw (orq_TicketID q))); ("expectedRevision", VString (orq_ExpectedRevision q));
    ("operation", VString (orq_Operation q)); ("payload", payload_value (orq_Payload q)); ("issuedAt", VString (orq_IssuedAt q))].

Definition request_ok (q : ObligationRequest) : Prop :=
  orq_Operation q = payload_op (orq_Payload q) ∧ payload_ok (orq_Payload q) ∧ EncodeFile (request_value q) = orq_Raw q.

(** A decoder that went on after a read whose failure it did not look at. *)
Lemma run_after {A B} (m : M A) (k : M B) a s b `{!Sticky m, !Sticky k} :
  m st0 = (a, s) → run k s = Ok b → ok m a ∧ ok k b.
Proof.
  intros Hm Hk. assert (err s = None) as Hs.
  { apply eq_None_not_Some. intros He. unfold run in Hk. destruct (k s) as [b' s'] eqn:E.
    pose proof (sticky (m := k) s He) as Hs. rewrite E in Hs. cbn in Hs. subst s'. destruct He as [e He]. by rewrite He in Hk. }
  assert (s = st0) as -> by (apply (sticky_st0 m a s); done).
  by apply run_ok in Hk; [|apply _].
Qed.

Lemma QueueID_value r q : ok (Reader_QueueID r) q → rv r = VString (QueueID_Raw q).
Proof.
  unfold Reader_QueueID. rewrite ok_parsed. intros (s & Hr & H). rewrite Hr. f_equal. symmetry. revert H. unfold ParseQueueID, ParseToken.
  intros [H|[H _]]; repeat case_match; simplify_eq/=; try done.
Qed.

#[global] Instance Sticky_QueueID r : Sticky (Reader_QueueID r).
Proof. unfold Reader_QueueID. apply _. Qed.

(** The decoder of a document with a profile. *)
Lemma profile_ok {B} r (k : M B) profile s w want b `{!Sticky k} :
  (f ← Field r "profile"; String_ f) st0 = (profile, s) → CheckProfile w profile want = None → run k s = Ok b →
  (∃ o, rv r = VObject o ∧ Get o "profile" = Some (VString want)) ∧ ok k b.
Proof.
  intros Hp ->%CheckProfile_None Hk. destruct (run_after _ k _ _ _ Hp Hk) as [H ?]. split; [|done].
  ok_inv. eexists. split; [done|]. congruence.
Qed.

Lemma EncodeFile_same v w : distinct v → canon v = canon w → EncodeFile v = EncodeFile w.
Proof.
  intros Hd H. apply EncodeFile_inj; [done| |done]. apply distinct_canon. rewrite <-H. by apply canon_distinct.
Qed.

(** What [DecodeObligationRequest] accepts. *)
Lemma DecodeObligationRequest_ok raw q :
  DecodeObligationRequest raw = Ok q → orq_Raw q = raw ∧ request_ok q.
Proof.
  unfold DecodeObligationRequest. destruct (_ <? _); [done|]. intros (v & Hp & H)%obind_Ok.
  apply ParseWith_object in Hp as (Hd & _ & ->). destruct (ProfileVersion _ _ _); [done|].
  set (r := NewReader v "/request") in *. assert (rv r = v) as Hrv by done. rewrite <-Hrv in Hd, H |- *. clearbody r. clear Hrv v.
  apply obind_Ok in H as (u & Hc & H). rewrite run_ok in Hc by apply _. rewrite ok_Closed in Hc. destruct Hc as (o & Ho & Hk).
  destruct ((f ← Field r "profile"; String_ f) st0) as [profile st] eqn:Eprof. destruct (CheckProfile _ _ _) eqn:Hcheck; [done|].
  apply obind_Ok in H as (h & Hh & H). destruct (profile_ok _ _ _ _ _ _ _ Eprof Hcheck Hh) as [(o' & Ho' & Hprof) Hhead].
  assert (o' = o) as -> by congruence. apply obind_Ok in H as (p & Hpay & H).
  assert (st = st0) as ->.
  { destruct (run_after _ _ _ _ _ Eprof Hh) as [H1 _]. unfold ok in H1. rewrite H1 in Eprof. congruence. }
  rewrite run_ok in Hpay by apply _. destruct (_ <? _); [done|]. destruct (negb _) eqn:Hq; [done|]. injection H as <-.
  split; [done|]. unfold request_ok. cbn [orq_Operation orq_Payload orq_Raw].
  unfold read_request_head in Hhead. part_inv. subst h. same_object. subst.
  cbn [rh_Operation] in *. apply read_payload_ok in Hpay as (Hpay & Hpok & ->); [|done|cbn [child rv]; member_distinct].
  split_and!; [done..|]. cbn [child rv] in Hpay.
  repeat match goal with
  | H : ok (Reader_QueueID _) _ |- _ => apply QueueID_value in H
  | H : ok (readObligationActor _) _ |- _ => apply obligation_actor_ok in H; [|cbn [child rv]; member_distinct]
  end. cbn [child rv] in *. subst.
  symmetry. apply EncodeFile_same; [done|]. unfold request_value, noteObject. cbn [foldl fst snd orq_RequestID orq_QueueID
    orq_TicketID orq_ExpectedRevision orq_ActorID orq_ActorRole orq_Operation orq_IssuedAt orq_Payload rh_RequestID rh_QueueID rh_TicketID rh_ExpectedRevision
    rh_Operation rh_IssuedAt rh_Actor].
  unfold request_keys in *. same_members Hd; congruence.
Qed.

(** ** Events *)

Section events.
Context (sha256 : string → string).

(** What a decoded event promises. *)
Record event_ok (ev : ObligationEvent) : Prop := {
  event_revision : 1 ≤ Count_Int (oev_Revision ev) ≤ ObligationsMaxEvents;
  event_first : oev_Revision ev = "1" ↔ oev_Previous ev = None;
  event_digest : oev_RequestSha256 ev = Sum sha256 (oev_Request ev);
  event_ticket : TicketID_Raw (orq_TicketID (oev_Decoded ev)) = TicketID_Raw (oev_TicketID ev);
  event_request : orq_Raw (oev_Decoded ev) = oev_Request ev;
  event_request_ok : request_ok (oev_Decoded ev)
}.

Definition event_bytes (ev : ObligationEvent) (q : Value) : string :=
  EncodeFile (event_value (TicketID_Raw (oev_TicketID ev)) (oev_Revision ev) (oev_Previous ev) (oev_RequestSha256 ev) q).

Lemma DecodeObligationEvent_ok raw ev :
  DecodeObligationEvent sha256 raw = Ok ev →
  event_ok ev ∧ ∃ q, Parse (oev_Request ev) = Ok q ∧ raw = event_bytes ev q.
Proof.
  unfold DecodeObligationEvent. destruct (_ <? _); [done|]. intros (v & Hp & H)%obind_Ok.
  apply ParseWith_object in Hp as (Hd & _ & ->). destruct (ProfileVersion _ _ _); [done|].
  set (r := NewReader v "/") in *. assert (rv r = v) as Hrv by done. rewrite <-Hrv in Hd, H |- *. clearbody r. clear Hrv v.
  apply obind_Ok in H as (u & Hc & H). rewrite run_ok in Hc by apply _. rewrite ok_Closed in Hc. destruct Hc as (o & Ho & Hk).
  destruct ((f ← Field r "profile"; String_ f) st0) as [profile st] eqn:Eprof. destruct (CheckProfile _ _ _) eqn:Hcheck; [done|].
  apply obind_Ok in H as (h & Hh & H). destruct (profile_ok _ _ _ _ _ _ _ Eprof Hcheck Hh) as [(o' & Ho' & Hprof) Hhead].
  assert (o' = o) as -> by congruence. clear Hh Eprof Hcheck. apply obind_Ok in H as (q & Hq & H).
  apply DecodeObligationRequest_ok in Hq as Hqok. destruct Hqok as [Hraw Hqok].
  destruct (_ || _) eqn:Hrev in H; [done|]. destruct (negb (Bool.eqb _ _)) eqn:Hfirst in H; [done|].
  destruct (negb (Sum _ _ =s _)) eqn:Hsum in H; [done|]. destruct (negb (_ =s _)) eqn:Hticket in H; [done|]. injection H as <-.
  bool_hyps. split.
  - constructor; cbn [oev_Revision oev_Previous oev_RequestSha256 oev_Request oev_Decoded oev_TicketID]; try done.
    apply eqb_prop in Hfirst. rewrite <-String.eqb_eq, Hfirst. by destruct (eh_Previous h).
  - cbn [oev_Request]. unfold DecodeObligationRequest in Hq. destruct (_ <? _) in Hq; [done|].
    apply obind_Ok in Hq as (w & Hw & _). exists w. split; [done|]. apply ParseWith_object in Hw as (Hdw & _ & Hw).
    unfold event_bytes. cbn [oev_TicketID oev_Revision oev_Previous oev_RequestSha256].
    destruct (present_key o "request") as [rq Hrq]; [apply Hk; unfold event_keys; set_solver|].
    assert (canon rq = canon w) as Hcw.
    { rewrite Ho in Hw. cbn [request_member] in Hw. rewrite Hrq in Hw. apply EncodeFile_inj in Hw; [done| |done].
      member_distinct. }
    clear Hw Hqok Hraw Hfirst. unfold read_event_head in Hhead. part_inv. subst h. same_object. subst.
    cbn [eh_TicketID eh_Revision eh_Previous eh_RequestSha256] in *. apply EncodeFile_same; [done|].
    unfold event_value, noteObject, event_keys in *. cbn [foldl fst snd]. same_members Hd; congruence.
Qed.

(** The event is written as it was read: its bytes are those of [Encode], and
    the request it retains those of its decoded request. *)
Lemma DecodeObligationEvent_Encode raw ev :
  DecodeObligationEvent sha256 raw = Ok ev →
  ObligationEvent_Encode sha256 (oev_TicketID ev) (oev_Revision ev) (oev_Previous ev) (oev_RequestSha256 ev) (oev_Request ev) = Ok raw ∧
  oev_Request ev = EncodeFile (request_value (oev_Decoded ev)).
Proof.
  intros H. destruct (DecodeObligationEvent_ok _ _ H) as (Hok & q & Hq & Hraw). split.
  - unfold ObligationEvent_Encode. rewrite Hq. cbn [obind]. fold (event_bytes ev q). rewrite <-Hraw, H. done.
  - destruct (event_request_ok _ Hok) as (_ & _ & ->). by rewrite (event_request _ Hok).
Qed.

Lemma event_value_distinct t r p d q : distinct q → distinct (event_value t r p d q).
Proof.
  intros Hq. unfold event_value, noteObject. cbn [foldl fst snd]. constructor; [nodup_keys|].
  repeat (apply Forall_cons; split); try apply Forall_nil_2; cbn [snd]; try done; try constructor. destruct p; constructor.
Qed.

Lemma event_value_inj t r p d q t' r' p' d' q' :
  distinct q → distinct q' →
  EncodeFile (event_value t r p d q) = EncodeFile (event_value t' r' p' d' q') →
  t = t' ∧ r = r' ∧ p = p' ∧ d = d' ∧ canon q = canon q'.
Proof.
  intros Hq Hq' H. apply EncodeFile_inj in H; [|by apply event_value_distinct..].
  unfold event_value, noteObject in H. cbn [foldl fst snd] in H. rewrite canon_object in H; [|nodup_keys..].
  pose proof (H "ticketId") as H1. pose proof (H "revision") as H2. pose proof (H "previous") as H3.
  pose proof (H "requestSha256") as H4. pose proof (H "request") as H5. clear H.
  cbn [Get assoc Set_ String.eqb Ascii.eqb Bool.eqb NewObject fmap option_fmap option_map] in *. rewrite !canon_StringOrNull in H3.
  injection H3 as H3%StringOrNull_inj. cbn [canon] in H1, H2, H4. split_and!; congruence.
Qed.

(** What [Encode] writes is read back with the same members. *)
Lemma ObligationEvent_Encode_decode ticket revision previous digest request raw :
  ObligationEvent_Encode sha256 ticket revision previous digest request = Ok raw →
  ∃ ev, DecodeObligationEvent sha256 raw = Ok ev ∧ TicketID_Raw (oev_TicketID ev) = TicketID_Raw ticket ∧
    oev_Revision ev = revision ∧ oev_Previous ev = previous ∧ oev_RequestSha256 ev = digest ∧ oev_Request ev = request.
Proof.
  unfold ObligationEvent_Encode. intros (q & Hq & (ev & Hev & [= <-])%obind_Ok)%obind_Ok. exists ev. split; [done|].
  destruct (DecodeObligationEvent_ok _ _ Hev) as (Hok & q' & Hq' & Hraw).
  apply ParseWith_object in Hq as (Hd & Hc & ->), Hq' as (Hd' & Hc' & Hr). unfold event_bytes in Hraw.
  apply event_value_inj in Hraw as (-> & -> & -> & -> & Hqq); [|done..]. by rewrite Hr, <-Hc', <-Hqq, Hc.
Qed.

Lemma run_no_fuel {A} (m : M A) s : run m s ≠ OutOfFuel.
Proof. unfold run. destruct (m s) as [a s']. by destruct (err s'). Qed.

Lemma DecodeObligationRequest_no_fuel raw : DecodeObligationRequest raw ≠ OutOfFuel.
Proof.
  unfold DecodeObligationRequest. destruct (_ <? _); [done|].
  intros [H|(v & _ & H)]%obind_OutOfFuel; [by apply ParseWith_no_fuel in H|]. destruct (ProfileVersion _ _ _); [done|].
  apply obind_OutOfFuel in H as [H|(u & _ & H)]; [by apply run_no_fuel in H|].
  destruct ((_ : M string) st0) as [profile st]. destruct (CheckProfile _ _ _); [done|].
  apply obind_OutOfFuel in H as [H|(h & _ & H)]; [by apply run_no_fuel in H|].
  apply obind_OutOfFuel in H as [H|(p & _ & H)]; [by apply run_no_fuel in H|]. by repeat case_match.
Qed.

Lemma DecodeObligationEvent_no_fuel raw : DecodeObligationEvent sha256 raw ≠ OutOfFuel.
Proof.
  unfold DecodeObligationEvent. destruct (_ <? _); [done|].
  intros [H|(v & _ & H)]%obind_OutOfFuel; [by apply ParseWith_no_fuel in H|]. destruct (ProfileVersion _ _ _); [done|].
  apply obind_OutOfFuel in H as [H|(u & _ & H)]; [by apply run_no_fuel in H|].
  destruct ((_ : M string) st0) as [profile st]. destruct (CheckProfile _ _ _); [done|].
  apply obind_OutOfFuel in H as [H|(h & _ & H)]; [by apply run_no_fuel in H|].
  apply obind_OutOfFuel in H as [H|(p & _ & H)]; [by apply DecodeObligationRequest_no_fuel in H|]. by repeat case_match.
Qed.
End events.

(** [Encode] writes a document exactly when [DecodeObligationEvent] reads it back with the members given, and what is read is the event of a well-formed request: its bytes are those of the decoded request, its digest theirs, its revision within the bound and the first exactly when nothing precedes it, and its payload what its operation asks for, keyed by ascending ids. *)
Theorem ObligationEvent_Encode_spec sha256 ticket revision previous digest request raw :
  ObligationEvent_Encode sha256 ticket revision previous digest request = Ok raw ↔
  ∃ ev, DecodeObligationEvent sha256 raw = Ok ev ∧ event_ok sha256 ev ∧
    TicketID_Raw (oev_TicketID ev) = TicketID_Raw ticket ∧ oev_Revision ev = revision ∧ oev_Previous ev = previous ∧
    oev_RequestSha256 ev = digest ∧ oev_Request ev = request ∧ request = EncodeFile (request_value (oev_Decoded ev)).
Proof.
  split.
  - intros H. destruct (ObligationEvent_Encode_decode _ _ _ _ _ _ _ H) as (ev & Hev & Ht & Hr & Hp & Hd & Hq). exists ev.
    split_and!; [done| |done..|].
    + by apply DecodeObligationEvent_ok in Hev as [? _].
    + rewrite <-Hq. by apply DecodeObligationEvent_Encode in Hev as [_ ?].
  - intros (ev & Hev & _ & Ht & <- & <- & <- & <- & _). apply DecodeObligationEvent_Encode in Hev as [<- _].
    unfold ObligationEvent_Encode. by rewrite Ht.
Qed.

(** What the readers of a ledger entry and of the three payloads accept is, up to the order of keys, what their writers encode for the value read; an entry has evidence exactly when it is witnessed, its accepted scope decision another acceptor than proposer and its review record the outcome of its verdicts; a payload is not empty and its ids ascend. *)
Theorem obligation_readers_reencode op r :
  distinct (rv r) → op ∈ ObligationOperations →
  (∀ x, ok (ReadObligationEntry r) x → ∃ e, x = Some e ∧ canon (rv r) = canon (ObligationEntry_Value e) ∧ entry_read_ok e) ∧
  (∀ p, ok (read_payload op r) p → canon (rv r) = canon (payload_value p) ∧ payload_ok p ∧ op = payload_op p).
Proof.
  intros Hd Hop. split; [intros x Hx; by apply entry_value|intros p Hp; by apply read_payload_ok].
Qed.

(** An entry credited by a declaration. *)
Definition declared_entry : ObligationEntry :=
  mkObligationEntry "A-1" ε "t" true ObligationWitnessed None
    (Some {| oe_Source := ObligationSourceDeclared;
             oe_EventSha256 := "0123456789012345678901234567890123456789012345678901234567890123";
             oe_Commit := "0123456789012345678901234567890123456789"; oe_ReportSha256 := None; oe_PlaywrightVersion := None;
             oe_Matches := None;
             oe_Declaration := Some {| od_ManifestSha256 := "0123456789012345678901234567890123456789012345678901234567890123";
                                       od_TestID := "t"; od_Reason := "r" |};
             oe_Provenance := None; oe_TestRepository := Some "repo" |})
    None None None None None None "2026-01-02T03:04:05Z" "ann" "OWNER".

Lemma obligation_readers_reencode_witness : entry_read_ok declared_entry.
Proof.
  assert (distinct (rv (NewReader (ObligationEntry_Value declared_entry) "/"))) as Hd.
  { apply distinct_canon. eapply ParseWith_object with (opts := noOptions)
      (data := EncodeFile (ObligationEntry_Value declared_entry)). vm_compute. reflexivity. }
  destruct (obligation_readers_reencode OpObligationsSeed (NewReader (ObligationEntry_Value declared_entry) "/") Hd) as [H _].
  { by left. }
  destruct (H (Some declared_entry)) as (e & [= <-] & _ & He); [vm_compute; reflexivity|exact He].
Defined.
