(* ===== verification/LedgerSpec.v ===== *)
(** * What the obligation ledger promises: its invariant

    The outcome of a review; what a transition does to each entry, and the invariant that every
    accepted event keeps and every folded ledger has. *)

From S2P Require Import Prelude Utf8 GoStd Codes Limits Value Canonical Primitives Ids.
From S2P Require Import SetsSpec PrimitivesSpec IdsSpec Parse ParseDoc Reader ReaderSpec Result ResultSpec.
From S2P Require Import Ticket Inventory Marks MarksSpec KnowHow RecordParts PartsSpec.
From S2P Require Import Obligations ObligationEvents ObligationParts EventsSpec ObligationLedger.
Local Open Scope Z_scope.
Local Open Scope go_scope.

(** ** Reviews *)

(** What a review is held for. *)
Definition few_reviewers (r : ObligationReview) : Prop := Z.of_nat (length (orv_Verdicts r)) < orv_Reviewers r.
Definition risky_stub (r : ObligationReview) : Prop :=
  ∃ v, v ∈ orv_Verdicts r ∧ stubRiskRank (orv_MaxStubRisk r) < stubRiskRank (ov_StubRisk v).
Definition failed_verdict (r : ObligationReview) : Prop := ∃ v, v ∈ orv_Verdicts r ∧ ov_Verdict v ≠ VerdictCorrect.

Lemma existsb_elem {A} (f : A → bool) l : existsb f l = true ↔ ∃ x, x ∈ l ∧ f x = true.
Proof. rewrite existsb_exists. by setoid_rewrite list_elem_of_In. Qed.

(** The outcome by whether each axis fails. *)
Definition outcome_of (few stub verdict : bool) : string * list string :=
  let axes := SortStrings ((if few then ["reviewers"] else []) ++ (if stub then ["stubRisk"] else []) ++
                (if verdict then ["verdict"] else [])) in
  if (length axes =? 0)%nat then (ObligationReviewCredited, []) else (ObligationReviewHeld, axes).

Lemma outcome_of_spec few stub verdict :
  ((outcome_of few stub verdict).1 = ObligationReviewCredited ↔ ¬ few = true ∧ ¬ stub = true ∧ ¬ verdict = true) ∧
  ((outcome_of few stub verdict).1 = ObligationReviewHeld ↔ few = true ∨ stub = true ∨ verdict = true) ∧
  ("reviewers" ∈ (outcome_of few stub verdict).2 ↔ few = true) ∧ ("stubRisk" ∈ (outcome_of few stub verdict).2 ↔ stub = true) ∧
  ("verdict" ∈ (outcome_of few stub verdict).2 ↔ verdict = true) ∧
  Forall (λ x, x ∈ axis_names) (outcome_of few stub verdict).2 ∧
  StronglySorted (λ a b, String.ltb a b = true) (outcome_of few stub verdict).2.
Proof. destruct few, stub, verdict; apply (bool_decide_unpack _); vm_compute; exact I. Qed.

(** A review is credited exactly when it has as many verdicts as its policy asks, none is other than correct and none has a stub risk above the policy's; otherwise it is held, and its axes are exactly, in order, the reasons it is held for. *)
Theorem Outcome_spec r :
  let '(outcome, axes) := ObligationReview_Outcome r in
  (outcome = ObligationReviewCredited ↔ ¬ few_reviewers r ∧ ¬ risky_stub r ∧ ¬ failed_verdict r) ∧
  (outcome = ObligationReviewHeld ↔ few_reviewers r ∨ risky_stub r ∨ failed_verdict r) ∧
  ("reviewers" ∈ axes ↔ few_reviewers r) ∧ ("stubRisk" ∈ axes ↔ risky_stub r) ∧ ("verdict" ∈ axes ↔ failed_verdict r) ∧
  Forall (λ x, x ∈ axis_names) axes ∧ StronglySorted (λ a b, String.ltb a b = true) axes.
Proof.
  unfold ObligationReview_Outcome. cbv zeta.
  set (stub := existsb _ _). set (verdict := existsb _ _). set (few := Z.of_nat _ <? _).
  assert (stub = true ↔ risky_stub r) as Hstub by (unfold stub, risky_stub; rewrite existsb_elem; by setoid_rewrite Z.ltb_lt).
  assert (verdict = true ↔ failed_verdict r) as Hverdict.
  { unfold verdict, failed_verdict. rewrite existsb_elem. split; intros (v & Hv & H); exists v; (split; [done|]); revert H;
      by rewrite negb_true_iff, String.eqb_neq. }
  assert (few = true ↔ few_reviewers r) as Hfew by apply Z.ltb_lt.
  clearbody stub verdict few. pose proof (outcome_of_spec few stub verdict) as H.
  fold (outcome_of few stub verdict). destruct (outcome_of few stub verdict) as [outcome axes]. cbn [fst snd] in H.
  by rewrite Hfew, Hstub, Hverdict in H.
Qed.

(** ** Finding an entry *)

Definition ids (es : list ObligationEntry) : list string := oen_ID <$> es.

Definition ids_sorted (es : list ObligationEntry) : Prop := StronglySorted (λ a b, String.leb a b = true) (ids es).

Lemma entry_index_SearchStrings es id : entry_index es id = SearchStrings (ids es) id.
Proof.
  unfold entry_index, SearchStrings, ids. rewrite length_fmap. apply sort_Search_ext. intros k. by rewrite list_lookup_fmap.
Qed.

Lemma entry_at_Some es id i e : entry_at es id = Some (i, e) → es !! i = Some e ∧ oen_ID e = id ∧ i = entry_index es id.
Proof.
  unfold entry_at. intros (e' & He & H)%bind_Some. destruct (String.eqb_spec (oen_ID e') id); [|done]. by simplify_eq.
Qed.

Lemma entry_at_found es id : ids_sorted es → is_Some (entry_at es id) ↔ id ∈ ids es.
Proof.
  intros Hs. rewrite (SearchStrings_elem _ _ Hs), <-entry_index_SearchStrings. unfold entry_at, ids. cbv zeta.
  rewrite list_lookup_fmap. destruct (es !! entry_index es id) as [e|]; cbn; [|split; [by intros []|done]].
  destruct (String.eqb_spec (oen_ID e) id) as [->|Hne]; split; intros Hx; first [done|by eexists|by destruct Hx|by injection Hx].
Qed.

Lemma entry_at_None es id : ids_sorted es → entry_at es id = None → id ∉ ids es.
Proof. intros Hs H Hin. apply (entry_at_found _ _ Hs) in Hin as [? Hx]. by rewrite H in Hx. Qed.

(** The first entry of an id is the one found. *)
Definition first_of (es : list ObligationEntry) (i : nat) (id : string) : Prop := ∀ j, (j < i)%nat → ids es !! j ≠ Some id.

Lemma entry_index_first es i e : ids_sorted es → es !! i = Some e → entry_index es (oen_ID e) = i ↔ first_of es i (oen_ID e).
Proof.
  intros Hs Hi. rewrite entry_index_SearchStrings. assert (ids es !! i = Some (oen_ID e)) as Hid by (unfold ids; by rewrite list_lookup_fmap, Hi).
  destruct (SearchStrings_least _ _ _ Hs Hid) as [Hle Hat]. split.
  - intros E j Hj Hx. destruct (SearchStrings_least _ _ _ Hs Hx). lia.
  - intros Hf. destruct (decide (SearchStrings (ids es) (oen_ID e) < i)%nat) as [Hlt|]; [by destruct (Hf _ Hlt)|lia].
Qed.

(** With distinct ids the entry found is the only one. *)
Lemma entry_at_lookup es i e : ids_sorted es → NoDup (ids es) → es !! i = Some e → entry_at es (oen_ID e) = Some (i, e).
Proof.
  intros Hs Hnd Hi. assert (oen_ID e ∈ ids es) as Hin by (apply list_elem_of_fmap_2; by eapply list_elem_of_lookup_2).
  apply (entry_at_found _ _ Hs) in Hin as [[j x] Hx]. rewrite Hx. apply entry_at_Some in Hx as (Hj & Hid & _).
  assert (j = i) as ->; [|congruence]. apply (NoDup_lookup (ids es) j i (oen_ID e) Hnd); unfold ids; rewrite list_lookup_fmap.
  - by rewrite Hj, <-Hid.
  - by rewrite Hi.
Qed.

(** ** The invariant *)

Section invariant.

(** The ticket of the ledger, and its events. *)
Context (ticket : string) (events : list string).

Record entry_ok (e : ObligationEntry) : Prop := {
  entry_state : oen_State e ∈ ObligationStates;
  entry_witnessed : oen_State e = ObligationWitnessed ↔ is_Some (oen_Evidence e);
  entry_evidence ev : oen_Evidence e = Some ev → oe_EventSha256 ev ∈ events;
  entry_scope s : oen_Scope e = Some s → scope_ok s;
  entry_review r : oen_Review e = Some r → record_ok r ∧ orr_EventSha256 r ∈ events;
  entry_reviewed ev : oen_Evidence e = Some ev → oe_Source ev = ObligationSourceReviewed →
    ∃ r, oen_Review e = Some r ∧ orr_Outcome r = ObligationReviewCredited ∧ orr_EventSha256 r = oe_EventSha256 ev;
  entry_mirror m : oen_SatisfiedBy e = Some m → TicketID_Raw (omr_TicketID m) ≠ ticket
}.

Record entries_ok (prefix : string) (es : list ObligationEntry) : Prop := {
  entries_sorted : ids_sorted es;
  entries_prefix : Forall (λ e, ObligationIDPrefix (oen_ID e) = prefix) es;
  entries_each : Forall entry_ok es
}.
End invariant.

Record ledger_ok (ticket : string) (l : ObligationLedger) : Prop := {
  ledger_entries : entries_ok ticket (led_Events l) (led_Prefix l) (led_Entries l);
  ledger_prefix : led_Prefix l = ε → led_Entries l = [];
  ledger_size : Z.of_nat (length (led_Entries l)) ≤ ObligationsMaxEntries;
  ledger_revision : led_Revision l = Z.of_nat (length (led_Events l));
  ledger_head : last (led_Events l) = Some (led_Head l);
  ledger_bound : 1 ≤ led_Revision l ≤ ObligationsMaxEvents;
  ledger_unblocks : 0 ≤ led_Unblocks l
}.

Lemma entry_ok_more ticket events events' e : events ⊆ events' → entry_ok ticket events e → entry_ok ticket events' e.
Proof. intros Hsub [H1 H2 H3 H4 H5 H6 H7]. constructor; eauto. intros r Hr. destruct (H5 r Hr). auto. Qed.

Lemma entries_ok_more ticket events events' prefix es :
  events ⊆ events' → entries_ok ticket events prefix es → entries_ok ticket events' prefix es.
Proof. intros Hsub [H1 H2 H3]. constructor; [done..|]. eapply Forall_impl; [exact H3|]. intros e. by apply entry_ok_more. Qed.

(** ** One entry *)

Section entry.
Context (ticket : string) (events : list string) (q : ObligationRequest) (Hticket : TicketID_Raw (orq_TicketID q) = ticket).

Lemma new_entry_ok o : entry_ok ticket events (new_entry q o).
Proof. constructor; try done; cbn; [by left|by split; [|intros []]]. Qed.

Lemma applyScopeChange_ok e s reason sc :
  (∀ s, oen_Scope e = Some s → scope_ok s) → applyScopeChange e s reason q = Ok sc →
  ∀ s, sc.1 = Some s → scope_ok s.
Proof.
  intros He. unfold applyScopeChange. destruct (_ =s _); [intros [= <-] ? [= <-]; split; cbn; [by left|done]|].
  destruct (oen_Scope e) as [p|]; [|done]. destruct (_ || _); [done|].
  destruct (String.eqb_spec (osp_ProposedByID p) (orq_ActorID q)) as [|Hne]; [done|]. intros [= <-] ? [= <-].
  split; cbn; [by right; left|]. intros _ E. by apply Hne.
Qed.

Lemma applyMirrorChange_ok e c m :
  applyMirrorChange e c q = Ok m → ∀ x, m = Some x → TicketID_Raw (omr_TicketID x) ≠ ticket.
Proof using Hticket.
  unfold applyMirrorChange. destruct c as [owner|]; [|by intros [= <-]].
  destruct (String.eqb_spec (TicketID_Raw (omr_TicketID owner)) (TicketID_Raw (orq_TicketID q))) as [|Hne]; [done|].
  intros [= <-] ? [= <-]. by rewrite <-Hticket.
Qed.

(** A change sets the state to one that has no evidence, and drops it. *)
Lemma change_evidence e c :
  change_ok c → entry_ok ticket events e →
  let evidence := match och_State c with
    | Some s => if (oen_State e =s ObligationWitnessed) && negb (s =s ObligationWitnessed) then None else oen_Evidence e
    | None => oen_Evidence e end in
  let state := default (oen_State e) (och_State c) in
  state ∈ ObligationStates ∧ (state = ObligationWitnessed ↔ is_Some evidence) ∧
  ∀ ev, evidence = Some ev → oen_Evidence e = Some ev.
Proof.
  intros (_ & Hs & _) He. cbv zeta. destruct (och_State c) as [s|]; [|by destruct He].
  assert (s ≠ ObligationWitnessed ∧ s ∈ ObligationStates) as [Hne Hin].
  { specialize (Hs s eq_refl). unfold ObligationStates.
    repeat (apply elem_of_cons in Hs as [->|Hs]; [split; [done|set_solver]|]). by apply not_elem_of_nil in Hs. }
  apply String.eqb_neq in Hne as Hb. rewrite Hb. cbn [negb default from_option]. rewrite andb_true_r. split_and!; [done| |].
  - split; [done|]. destruct (String.eqb_spec (oen_State e) ObligationWitnessed) as [|Hst]; [by intros []|].
    intros Hx%(entry_witnessed _ _ _ He). done.
  - intros ev. by destruct (oen_State e =s ObligationWitnessed).
Qed.

Lemma apply_change_ok e c e' :
  change_ok c → entry_ok ticket events e → apply_change q e c = Ok e' → entry_ok ticket events e' ∧ oen_ID e' = oen_ID e.
Proof using Hticket.
  intros Hc He H. destruct (change_evidence e c Hc He) as (H1 & H2 & H3). unfold apply_change in H. cbv zeta in H.
  set (evidence := match och_State c with Some _ => _ | None => _ end) in *.
  apply obind_Ok in H as (sc & Hsc & H). apply obind_Ok in H as (m & Hm & H). injection H as <-. split; [|done].
  destruct He as [E1 E2 E3 E4 E5 E6 E7]. constructor; cbn [stamp oen_State oen_Evidence oen_Scope oen_Review oen_SatisfiedBy]; try done.
  - intros ev Hev. by apply E3, H3.
  - intros s Hs. destruct (och_Scope c) as [s'|]; [|injection Hsc as <-; by apply E4].
    refine (applyScopeChange_ok _ _ _ _ _ Hsc s Hs). exact E4.
  - intros ev Hev. by apply E6, H3.
  - intros x Hx. destruct (och_Mirror c); [by apply (applyMirrorChange_ok _ _ _ Hm x)|]. injection Hm as <-. by apply E7.
Qed.

(** A credit of a source other than review. *)
Lemma credited_entry_ok e w c event :
  event ∈ events → owp_Source w ≠ ObligationSourceReviewed → entry_ok ticket events e →
  entry_ok ticket events (credited_entry e w c event).
Proof.
  intros Hev Hsrc He. destruct He as [E1 E2 E3 E4 E5 E6 E7].
  constructor; cbn [credited_entry oen_State oen_Evidence oen_Scope oen_Review oen_SatisfiedBy]; try done.
  - right. by left.
  - by intros ? [= <-].
  - by intros ? [= <-].
Qed.

Lemma reviewed_entry_ok e w rv_ event :
  event ∈ events → review_ok rv_ → entry_ok ticket events e → entry_ok ticket events (reviewed_entry e w rv_ event).
Proof.
  intros Hev Hrv He. unfold reviewed_entry. destruct (ObligationReview_Outcome rv_) as [outcome axes] eqn:Hout.
  destruct He as [E1 E2 E3 E4 E5 E6 E7].
  assert (∀ r, Some {| orr_Outcome := outcome; orr_Axes := axes; orr_EventSha256 := event; orr_Commit := owp_Commit w;
    orr_Review := rv_; orr_TestRepository := owp_TestRepository w |} = Some r → record_ok r ∧ orr_EventSha256 r ∈ events) as Hr.
  { by intros ? [= <-]. }
  destruct (String.eqb_spec outcome ObligationReviewCredited) as [->|Hheld];
    [|destruct (String.eqb_spec (oen_State e) ObligationWitnessed) as [Hw|Hw]];
    constructor; cbn [oen_State oen_Evidence oen_Scope oen_Review oen_SatisfiedBy]; try done.
  - right. by left.
  - by intros ? [= <-].
  - intros ? [= <-] _. by eexists.
  - by left.
  - intros ev Hx. exfalso. apply Hw, E2. by eexists.
Qed.

Lemma apply_credit_ok e w c event e' :
  event ∈ events → witness_ok w → entry_ok ticket events e → apply_credit q w event e c = Ok e' →
  entry_ok ticket events e' ∧ oen_ID e' = oen_ID e.
Proof.
  intros Hev (_ & _ & _ & Hr & _ & _ & _ & Hrv) He. unfold apply_credit.
  assert (∀ x, entry_ok ticket events x → entry_ok ticket events (stamp q x)) as Hstamp.
  { intros x [X1 X2 X3 X4 X5 X6 X7]. by constructor. }
  assert (∀ x, entry_ok ticket events x → entry_ok ticket events (without_candidate x)) as Hcand.
  { intros x [X1 X2 X3 X4 X5 X6 X7]. by constructor. }
  destruct (String.eqb_spec (owp_Source w) ObligationSourceReviewed) as [Hs|Hs].
  - intros (e1 & H & [= <-])%obind_Ok. unfold applyReviewedWitness in H. destruct (owp_Review w) as [rv_|]; [|by destruct Hr as [_ []]].
    destruct (_ || _) in H; [done|]. destruct (_ && _) in H; [done|]. injection H as <-. split.
    + apply Hstamp, Hcand, reviewed_entry_ok; auto.
    + cbn. unfold reviewed_entry. destruct (ObligationReview_Outcome rv_). repeat case_match; by simplify_eq/=.
  - destruct (_ || _); [done|]. intros [= <-]. split; [|done]. by apply Hstamp, credited_entry_ok.
Qed.
End entry.

(** ** The entries *)

Lemma fold_res_ind {A B} (step : B → A → res B) (P : B → Prop) l : ∀ b b',
  (∀ b a b', a ∈ l → P b → step b a = Ok b' → P b') → P b → fold_res step b l = Ok b' → P b'.
Proof.
  induction l as [|a l IH]; intros b b' Hstep Hb; cbn [fold_res]; [by intros [= <-]|].
  intros (b1 & Hb1 & H)%obind_Ok. apply (IH b1); [| |done].
  - intros x y z Hy. apply Hstep. by right.
  - apply (Hstep b a); [by left|done..].
Qed.

(** Nothing but the entries changes. *)
Definition same_frame (a b : ObligationLedger) : Prop :=
  led_Prefix b = led_Prefix a ∧ led_Revision b = led_Revision a ∧ led_Head b = led_Head a ∧ led_Events b = led_Events a ∧
  led_Unblocks b = led_Unblocks a.

Lemma update_entry_Ok out id dir f out' :
  update_entry out id dir f = Ok out' ↔
  ∃ i e e', entry_at (led_Entries out) id = Some (i, e) ∧ f e = Ok e' ∧ out' = with_entries out (<[i := e']> (led_Entries out)).
Proof.
  unfold update_entry. destruct (entry_at _ _) as [[i e]|]; [|by split; [|intros (? & ? & ? & ? & _)]]. split.
  - intros (e' & He & [= <-])%obind_Ok. by exists i, e, e'.
  - intros (? & ? & e' & [= <- <-] & -> & ->). done.
Qed.

Lemma ids_insert es i e e' : es !! i = Some e → oen_ID e' = oen_ID e → ids (<[i := e']> es) = ids es.
Proof.
  intros Hi He. unfold ids. rewrite list_fmap_insert, He. apply list_insert_id. by rewrite list_lookup_fmap, Hi.
Qed.

Lemma Forall_ids prefix es es' :
  ids es' = ids es → Forall (λ e, ObligationIDPrefix (oen_ID e) = prefix) es →
  Forall (λ e, ObligationIDPrefix (oen_ID e) = prefix) es'.
Proof.
  intros Hids H. assert (Forall (λ i, ObligationIDPrefix i = prefix) (ids es)) as Hi by by apply Forall_fmap.
  rewrite <-Hids in Hi. by apply Forall_fmap in Hi.
Qed.

Section entries.
Context (ticket : string) (events : list string).

Lemma update_entry_ok prefix out id dir f out' :
  (∀ e e', entry_ok ticket events e → f e = Ok e' → entry_ok ticket events e' ∧ oen_ID e' = oen_ID e) →
  entries_ok ticket events prefix (led_Entries out) → update_entry out id dir f = Ok out' →
  entries_ok ticket events prefix (led_Entries out') ∧ ids (led_Entries out') = ids (led_Entries out) ∧ same_frame out out'.
Proof.
  intros Hf [Hs Hp He] (i & e & e' & Hat & Hfe & ->)%update_entry_Ok. apply entry_at_Some in Hat as (Hi & _ & _).
  assert (entry_ok ticket events e) as Hok by (rewrite Forall_forall in He; apply He; by eapply list_elem_of_lookup_2).
  destruct (Hf _ _ Hok Hfe) as [Hok' Hid]. cbn [with_entries led_Entries].
  pose proof (ids_insert _ _ _ _ Hi Hid) as Hids. split_and!; [|done|done].
  constructor; [by unfold ids_sorted; rewrite Hids|by eapply Forall_ids|by apply Forall_insert].
Qed.

(** A fold of updates. *)
Lemma updates_ok {A} (step : ObligationLedger → A → res ObligationLedger) prefix l out out' :
  (∀ out a out', a ∈ l → entries_ok ticket events prefix (led_Entries out) → step out a = Ok out' →
    entries_ok ticket events prefix (led_Entries out') ∧ ids (led_Entries out') = ids (led_Entries out) ∧ same_frame out out') →
  entries_ok ticket events prefix (led_Entries out) → fold_res step out l = Ok out' →
  entries_ok ticket events prefix (led_Entries out') ∧ ids (led_Entries out') = ids (led_Entries out) ∧ same_frame out out'.
Proof.
  intros Hstep Hout. apply (fold_res_ind step (λ x, entries_ok ticket events prefix (led_Entries x) ∧
    ids (led_Entries x) = ids (led_Entries out) ∧ same_frame out x)); [|done].
  intros b a b' Ha (Hb & Hids & Hfr) H. destruct (Hstep _ _ _ Ha Hb H) as (Hb' & Hids' & Hfr'). split_and!; [done|by rewrite Hids'|].
  destruct Hfr as (? & ? & ? & ? & ?), Hfr' as (? & ? & ? & ? & ?). unfold same_frame. split_and!; congruence.
Qed.

Lemma isort_entries_sorted es : ids_sorted (isort entry_le es).
Proof.
  unfold ids_sorted, ids. apply StronglySorted_fmap. apply (isort_StronglySorted entry_le).
  - intros x y. apply leb_total.
  - intros x y z. apply leb_trans.
Qed.

Lemma seed_item_step q out o out' :
  seed_item q out o = Ok out' → entry_at (led_Entries out) (osi_ID o) = None ∧
  out' = with_entries out (led_Entries out ++ [new_entry q o]).
Proof.
  unfold seed_item. destruct (entry_at _ _); [done|]. destruct (if osi_Alias o =s ε then None else admitAlias out (osi_Alias o)); [done|]. by intros [= <-].
Qed.

(** Seeded entries are added at the end, in the order of the seed. *)
Lemma seed_items_spec q (os : list ObligationSeedItem) : ∀ out out',
  fold_res (seed_item q) out os = Ok out' → out' = with_entries out (led_Entries out ++ (new_entry q <$> os)).
Proof.
  induction os as [|o os IH]; intros out out'; cbn [fold_res].
  - intros [= <-]. rewrite app_nil_r. by destruct out.
  - intros (out1 & [_ ->]%seed_item_step & H)%obind_Ok. apply IH in H as ->. unfold with_entries. cbn. by rewrite <-app_assoc.
Qed.
End entries.

(** ** The transition *)

Section transition.
Context (ticket : string) (events : list string).

Lemma apply_seed_Ok q p out out' :
  apply_seed q p out = Ok out' →
  (led_Prefix out = ε ∨ led_Prefix out = osd_Prefix p) ∧ led_Prefix out' = osd_Prefix p ∧
  led_Entries out' = isort entry_le (led_Entries out ++ (new_entry q <$> osd_Obligations p)) ∧
  Z.of_nat (length (led_Entries out')) ≤ ObligationsMaxEntries ∧ led_Events out' = led_Events out ∧ led_Unblocks out' = led_Unblocks out.
Proof.
  unfold apply_seed. destruct (_ && _) eqn:Hp; [done|]. intros (out1 & ->%seed_items_spec & H)%obind_Ok.
  destruct (_ <? _) eqn:Hlen in H; [done|]. apply Z.ltb_ge in Hlen. injection H as <-.
  cbn [with_entries led_Entries led_Prefix led_Events led_Unblocks] in *.
  split_and!; try done.
  - apply andb_false_iff in Hp as [Hp|Hp]; apply negb_false_iff, String.eqb_eq in Hp; auto.
  - by rewrite length_isort.
Qed.

Lemma apply_seed_ok q p out out' :
  seed_ok p → entries_ok ticket events (led_Prefix out) (led_Entries out) → (led_Prefix out = ε → led_Entries out = []) →
  apply_seed q p out = Ok out' →
  entries_ok ticket events (led_Prefix out') (led_Entries out') ∧ led_Prefix out' ≠ ε.
Proof.
  intros (Hne & _ & _ & Hpre) [_ Hp He] Hemp (Hprefix & -> & -> & _)%apply_seed_Ok. split; [|done]. constructor.
  - apply isort_entries_sorted.
  - rewrite isort_perm. apply Forall_app_2.
    + destruct Hprefix as [E|E]; [by rewrite (Hemp E)|by rewrite <-E].
    + by apply Forall_fmap.
  - rewrite isort_perm. apply Forall_app_2; [done|]. apply Forall_fmap, Forall_forall. intros o _. apply new_entry_ok.
Qed.

Lemma updated_ok out out' :
  (led_Prefix out = ε → led_Entries out = []) → Z.of_nat (length (led_Entries out)) ≤ ObligationsMaxEntries →
  entries_ok ticket events (led_Prefix out) (led_Entries out') ∧ ids (led_Entries out') = ids (led_Entries out) ∧ same_frame out out' →
  entries_ok ticket events (led_Prefix out') (led_Entries out') ∧ (led_Prefix out' = ε → led_Entries out' = []) ∧
  Z.of_nat (length (led_Entries out')) ≤ ObligationsMaxEntries ∧ led_Events out' = led_Events out ∧ led_Unblocks out' = led_Unblocks out.
Proof.
  intros Hemp Hlen (Hout & Hids & (-> & _ & _ & -> & ->)). apply (f_equal length) in Hids. unfold ids in Hids.
  rewrite !length_fmap in Hids. rewrite Hids. split_and!; try done. intros E%Hemp. rewrite E in Hids. by destruct (led_Entries out').
Qed.

(** Every accepted payload keeps the entries in order. *)
Lemma apply_payload_ok q event out out' :
  payload_ok (orq_Payload q) → TicketID_Raw (orq_TicketID q) = ticket → event ∈ events →
  entries_ok ticket events (led_Prefix out) (led_Entries out) → (led_Prefix out = ε → led_Entries out = []) →
  Z.of_nat (length (led_Entries out)) ≤ ObligationsMaxEntries → apply_payload q event out = Ok out' →
  entries_ok ticket events (led_Prefix out') (led_Entries out') ∧ (led_Prefix out' = ε → led_Entries out' = []) ∧
  Z.of_nat (length (led_Entries out')) ≤ ObligationsMaxEntries ∧ led_Events out' = led_Events out ∧ led_Unblocks out' = led_Unblocks out.
Proof.
  intros Hok Hticket Hev Hout Hemp Hlen H. unfold apply_payload in H. destruct (orq_Payload q) as [p|p|w].
  - destruct (apply_seed_ok _ _ _ _ Hok Hout Hemp H) as [? Hne]. apply apply_seed_Ok in H as (_ & _ & _ & ? & ? & ?).
    by split_and!.
  - destruct Hok as (_ & _ & Hall). apply (updated_ok out); [done..|]. eapply updates_ok; [|exact Hout|exact H].
    intros o c o' Hc Ho. apply update_entry_ok; [|done]. intros e e'. apply apply_change_ok; [done|].
    rewrite Forall_forall in Hall. by apply Hall.
  - apply (updated_ok out); [done..|]. eapply updates_ok; [|exact Hout|exact H].
    intros o c o' Hc Ho. apply update_entry_ok; [|done]. intros e e'. by apply apply_credit_ok.
Qed.
End transition.

Lemma ApplyObligationEvent_Ok l ev event l' :
  ApplyObligationEvent l ev event = Ok l' ↔
  Count_Int (oev_Revision ev) = revisionOf l + 1 ∧ oev_Previous ev = (led_Head <$> l) ∧
  ∃ out, apply_payload (oev_Decoded ev) event (clone l) = Ok out ∧
    l' = mkObligationLedger (led_Prefix out) (Count_Int (oev_Revision ev)) event (led_Entries out) (led_Events out ++ [event])
           (led_Unblocks out + countUnblocks l out).
Proof.
  unfold ApplyObligationEvent. destruct (Z.eqb_spec (Count_Int (oev_Revision ev)) (revisionOf l + 1)) as [Hr|]; cbn [negb];
    [|by split; [|intros [? _]]].
  case_bool_decide as Hp; cbn [negb]; [|by split; [|intros (_ & ? & _)]]. split.
  - intros (out & Hout & [= <-])%obind_Ok. eauto.
  - intros (_ & _ & out & -> & ->). done.
Qed.

Definition ledger_ok_or_nil (ticket : string) (l : option ObligationLedger) : Prop :=
  match l with None => True | Some l => ledger_ok ticket l end.

Lemma countUnblocks_nonneg l l' : 0 ≤ countUnblocks l l'.
Proof. destruct l; cbn; lia. Qed.

Lemma ApplyObligationEvent_keeps sha256 ticket l ev event l' :
  event_ok sha256 ev → TicketID_Raw (oev_TicketID ev) = ticket → ledger_ok_or_nil ticket l →
  ApplyObligationEvent l ev event = Ok l' → ledger_ok ticket l'.
Proof.
  intros Hev Hticket Hl (Hrev & _ & out & Hout & ->)%ApplyObligationEvent_Ok.
  assert (entries_ok ticket (led_Events (clone l) ++ [event]) (led_Prefix (clone l)) (led_Entries (clone l)) ∧
    (led_Prefix (clone l) = ε → led_Entries (clone l) = []) ∧ Z.of_nat (length (led_Entries (clone l))) ≤ ObligationsMaxEntries ∧
    revisionOf l = Z.of_nat (length (led_Events (clone l))) ∧ 0 ≤ led_Unblocks (clone l)) as (He & Hemp & Hlen & Hcount & Hun).
  { destruct l as [l|]; cbn in *.
    - destruct Hl as [H1 H2 H3 H4 H5 H6 H7]. split_and!; try done. eapply entries_ok_more; [|done]. set_solver.
    - split_and!; try done. constructor; constructor. }
  destruct (event_request_ok _ _ Hev) as (_ & Hpay & _).
  eapply apply_payload_ok in Hout as (H1 & H2 & H3 & H4 & H5); [|done|by rewrite (event_ticket _ _ Hev)| |exact He|done|done];
    [|set_solver].
  constructor; cbn [led_Events led_Prefix led_Entries led_Revision led_Head led_Unblocks].
  - by rewrite H4.
  - done.
  - done.
  - rewrite H4, length_app, Hrev, Hcount. cbn. lia.
  - by rewrite last_snoc.
  - apply (event_revision _ _ Hev).
  - rewrite H5. pose proof (countUnblocks_nonneg l out). lia.
Qed.

(** ** A sample obligation ledger

    The inputs at which the theorems on the ledger are applied: a chain of two
    events, a seed of A-1 and a credit of it by declaration. *)


(** A stand-in for SHA-256 that tells the documents below apart. *)
Definition sample_hash (s : string) : string := String.substring 0 32 (strconv.FormatUint (slen s) +:+ "--------------------------------").

Definition sample_ticket : TicketID :=
  {| TicketID_Raw := "ticket:a:q:1"; TicketID_Authority := "a"; TicketID_Queue := "q"; TicketID_Local := "1" |}.

Definition sample_request (request : string) (payload : ObligationPayload) : string :=
  EncodeFile (request_value {| orq_RequestID := request;
    orq_QueueID := {| QueueID_Raw := "queue:a:q"; QueueID_Authority := "a"; QueueID_Queue := "q" |};
    orq_TicketID := sample_ticket; orq_ExpectedRevision := "1"; orq_ActorID := "ann"; orq_ActorRole := "OWNER";
    orq_Operation := payload_op payload; orq_IssuedAt := "2026-01-02T03:04:05Z"; orq_Payload := payload; orq_Raw := ε |}).

(** The bytes of an event. *)
Definition sample_event (revision : string) (previous : option string) (request : string) (payload : ObligationPayload) : string :=
  let q := sample_request request payload in
  match Parse q with
  | Ok v => EncodeFile (event_value (TicketID_Raw sample_ticket) revision previous (Sum sample_hash q) v)
  | _ => ε
  end.

Definition seed_of (ids : list string) : ObligationPayload :=
  PSeed {| osd_Prefix := "A";
           osd_Obligations := (λ i, {| osi_ID := i; osi_Alias := ε; osi_Title := "t"; osi_Core := true |}) <$> ids |}.

Definition declared : ObligationWitnessPayload :=
  mkObligationWitnessPayload ObligationSourceDeclared "0123456789012345678901234567890123456789" None None
    [{| ocr_ID := "A-1"; ocr_Matches := None |}]
    (Some {| od_ManifestSha256 := "0123456789012345678901234567890123456789012345678901234567890123"; od_TestID := "t"; od_Reason := "r" |})
    None None None None None.

Definition raw1 : string := Eval vm_compute in sample_event "1" None "r1" (seed_of ["A-1"]).
Definition raw2 : string := Eval vm_compute in sample_event "2" (Some (Sum sample_hash raw1)) "r2" (PWitness declared).

Definition event_at (raw : string) : option ObligationEvent :=
  match DecodeObligationEvent sample_hash raw with Ok ev => Some ev | _ => None end.

Definition sample_read (d : string) : goerror + option string :=
  if d =s Sum sample_hash raw1 then inr (Some raw1) else if d =s Sum sample_hash raw2 then inr (Some raw2) else inr None.

Definition sample_ref (revision head : string) (witnessed : Z) : ObligationsReference :=
  {| obl_Prefix := "A"; obl_Revision := revision; obl_Head := head;
     obl_Counts := {| oc_Witnessed := witnessed; oc_Total := 1; oc_Deferred := 0; oc_CoreWitnessed := witnessed; oc_CoreTotal := 1 |};
     obl_HighWater := {| hw_AcceptanceRevision := "1"; hw_Witnessed := witnessed |}; obl_LastRaise := None |}.

Definition ref1 : ObligationsReference := sample_ref "1" (Sum sample_hash raw1) 0.
Definition ref2 : ObligationsReference := sample_ref "2" (Sum sample_hash raw2) 1.

Definition fold_at (ref : ObligationsReference) : option ObligationLedger :=
  match FoldObligationChain sample_hash sample_read sample_ticket ref with Ok l => Some l | _ => None end.

(** The ledgers after the first and the second event, and the second event. *)
Definition ledger1 : ObligationLedger := Eval vm_compute in default (clone None) (fold_at ref1).
Definition ledger2 : ObligationLedger := Eval vm_compute in default (clone None) (fold_at ref2).

Definition no_event : ObligationEvent :=
  {| oev_TicketID := sample_ticket; oev_Revision := ε; oev_Previous := None; oev_RequestSha256 := ε; oev_Request := ε;
     oev_Decoded := {| orq_RequestID := ε; orq_QueueID := {| QueueID_Raw := ε; QueueID_Authority := ε; QueueID_Queue := ε |};
       orq_TicketID := sample_ticket; orq_ExpectedRevision := ε; orq_ActorID := ε; orq_ActorRole := ε; orq_Operation := ε;
       orq_IssuedAt := ε; orq_Payload := seed_of []; orq_Raw := ε |} |}.

Definition event1 : ObligationEvent := Eval vm_compute in default no_event (event_at raw1).
Definition event2 : ObligationEvent := Eval vm_compute in default no_event (event_at raw2).
