(* ===== verification/LedgerSteps.v ===== *)
(** * What the obligation ledger promises: each transition

    A write of changes or credits updates the named entries, each from its
    own old value, and no other; a seed adds entries; and what can always be
    written. *)

From S2P Require Import Prelude Utf8 GoStd Codes Limits Value Canonical Primitives Ids.
From S2P Require Import SetsSpec PrimitivesSpec IdsSpec Parse ParseDoc Reader ReaderSpec Result ResultSpec.
From S2P Require Import Ticket Inventory Marks MarksSpec KnowHow RecordParts PartsSpec.
From S2P Require Import Obligations ObligationEvents ObligationParts EventsSpec ObligationLedger LedgerSpec.
Local Open Scope Z_scope.
Local Open Scope go_scope.

(** ** Updates by id *)

Section updates.
Context {A : Type} (key : A → string) (dir : string) (f : A → ObligationEntry → res ObligationEntry).
Context (f_id : ∀ a e e', f a e = Ok e' → oen_ID e' = oen_ID e).

(** The update the list names for each id is that of the first entry of the
    id, and nothing else changes. *)
Definition updated (l : list A) (es es' : list ObligationEntry) : Prop :=
  length es' = length es ∧ ∀ i e e', es !! i = Some e → es' !! i = Some e' →
    match List.find (λ a, key a =s oen_ID e) l with
    | Some a => (first_of es i (oen_ID e) → f a e = Ok e') ∧ (¬ first_of es i (oen_ID e) → e' = e)
    | None => e' = e
    end.

Definition update_all (out : ObligationLedger) (l : list A) : res ObligationLedger :=
  fold_res (λ out a, update_entry out (key a) dir (f a)) out l.

Lemma find_key l k : k ∉ key <$> l → List.find (λ a, key a =s k) l = None.
Proof.
  induction l as [|a l IH]; [done|]. rewrite fmap_cons, not_elem_of_cons. intros [Hne Hk]. cbn [List.find].
  destruct (String.eqb_spec (key a) k); [by subst|by apply IH].
Qed.

(** One step of the fold, seen from the lists of all updates. *)
Lemma updated_step a l es i e e1 es' :
  ids_sorted es → key a ∉ key <$> l → entry_at es (key a) = Some (i, e) → f a e = Ok e1 →
  updated l (<[i := e1]> es) es' ↔ updated (a :: l) es es'.
Proof using f_id.
  intros Hs Hka (Hi & He & Hix)%entry_at_Some Hf. pose proof (f_id _ _ _ Hf) as Hid1. pose proof (ids_insert _ _ _ _ Hi Hid1) as Hids.
  assert (∀ j id, first_of (<[i:=e1]> es) j id ↔ first_of es j id) as Hfirst by (intros; unfold first_of; by rewrite Hids).
  assert (first_of es i (oen_ID e)) as Hfi by (apply entry_index_first; [done..|by rewrite He]).
  assert (i < length es)%nat as Hlt by by eapply lookup_lt_Some.
  unfold updated. rewrite length_insert. split; intros [Hlen H]; (split; [done|]); intros j x y Hx Hy; cbn [List.find] in *;
    destruct (decide (j = i)) as [->|Hj].
  - assert (x = e) as -> by congruence. rewrite He, String.eqb_refl. split; [intros _|by rewrite <-He].
    specialize (H i e1 y (list_lookup_insert_eq _ _ _ Hlt) Hy). rewrite Hid1, He, find_key in H by done. by subst.
  - specialize (H j x y ltac:(by rewrite list_lookup_insert_ne) Hy). destruct (String.eqb_spec (key a) (oen_ID x)) as [E|].
    + rewrite <-E, find_key in H by done. subst y. split; [|done]. intros Hfj.
      destruct Hj. rewrite Hix, E. symmetry. by apply entry_index_first.
    + destruct (List.find _ l); [|done]. by rewrite !Hfirst in H.
  - rewrite list_lookup_insert_eq in Hx by done. injection Hx as <-. rewrite Hid1, He, find_key by done.
    specialize (H i e y Hi Hy). rewrite He, String.eqb_refl in H. destruct H as [H _]. rewrite <-He in H. specialize (H Hfi). congruence.
  - rewrite list_lookup_insert_ne in Hx by done. specialize (H j x y Hx Hy). destruct (String.eqb_spec (key a) (oen_ID x)) as [E|].
    + rewrite find_key by (by rewrite <-E). apply H. intros Hfj. destruct Hj. rewrite Hix, E. symmetry. by apply entry_index_first.
    + destruct (List.find _ l); [|done]. by rewrite !Hfirst.
Qed.

Lemma updated_nil es es' : updated [] es es' ↔ es' = es.
Proof using Type.
  unfold updated. cbn [List.find]. split; [|intros ->; split; [done|congruence]]. intros [Hlen H]. apply list_eq_Forall2, Forall2_same_length_lookup.
  split; [done|]. intros i x y Hx Hy. by eapply H.
Qed.

(** The fold is the simultaneous update of the named entries. *)
Lemma update_all_spec l : ∀ out out', ids_sorted (led_Entries out) → NoDup (key <$> l) →
  update_all out l = Ok out' ↔
  (∀ a, a ∈ l → key a ∈ ids (led_Entries out)) ∧ out' = with_entries out (led_Entries out') ∧
  updated l (led_Entries out) (led_Entries out').
Proof using f_id.
  induction l as [|a l IH]; intros out out' Hs Hk; unfold update_all; cbn [fold_res].
  { rewrite updated_nil. split.
    - intros [= <-]. split_and!; [by intros ? ?%not_elem_of_nil|by destruct out|done].
    - intros (_ & -> & H). cbn in H. rewrite H. by destruct out. }
  rewrite fmap_cons in Hk. inv Hk as [|? ? Hka Hk']. rewrite obind_Ok.
  destruct (entry_at (led_Entries out) (key a)) as [[i e]|] eqn:Hat.
  - apply entry_at_Some in Hat as Hat'. destruct Hat' as (Hi & He & Hix).
    assert (key a ∈ ids (led_Entries out)) as Hin by (apply (entry_at_found _ _ Hs); by rewrite Hat).
    split.
    + intros (out1 & (i' & e' & e1 & Hat' & Hf & ->)%update_entry_Ok & H). rewrite Hat in Hat'. injection Hat' as <- <-.
      pose proof (ids_insert _ _ _ e1 Hi (f_id _ _ _ Hf)) as Hids. fold (update_all (with_entries out (<[i:=e1]> (led_Entries out))) l) in H.
      apply IH in H as (Hall & Hout & HF); cbn [with_entries led_Entries] in *; [|by unfold ids_sorted; rewrite Hids|done].
      rewrite Hids in Hall. split_and!; [|done|by eapply updated_step]. intros b [->|Hb]%elem_of_cons; [done|by apply Hall].
    + intros (Hall & Hout & HF). assert (∃ e1, f a e = Ok e1) as [e1 Hf].
      { destruct HF as [Hlen HF]. destruct (lookup_lt_is_Some_2 (led_Entries out') i) as [y Hy]; [rewrite Hlen; by eapply lookup_lt_Some|].
        exists y. specialize (HF i e y Hi Hy). cbn [List.find] in HF. rewrite He, String.eqb_refl in HF. apply HF.
        rewrite <-He. by apply entry_index_first; [done..|rewrite He]. }
      pose proof (ids_insert _ _ _ e1 Hi (f_id _ _ _ Hf)) as Hids.
      exists (with_entries out (<[i := e1]> (led_Entries out))). split; [apply update_entry_Ok; by exists i, e, e1|].
      apply IH; cbn [with_entries led_Entries]; [by unfold ids_sorted; rewrite Hids|done|]. rewrite Hids.
      split_and!; [intros b Hb; apply Hall; by right|done|by eapply updated_step].
  - split.
    + intros (out1 & (i' & e' & e1 & Hat' & _)%update_entry_Ok & _). by rewrite Hat in Hat'.
    + intros (Hall & _ & _). destruct (entry_at_None _ _ Hs Hat). apply Hall. by left.
Qed.
End updates.

(** ** Changes and credits *)

Lemma str_lt_NoDup l : StronglySorted str_lt l → NoDup l.
Proof. apply ltb_sorted_NoDup. Qed.

Lemma apply_change_id q c e e' : apply_change q e c = Ok e' → oen_ID e' = oen_ID e.
Proof. unfold apply_change. cbv zeta. by intros (sc & _ & (m & _ & [= <-])%obind_Ok)%obind_Ok. Qed.

Lemma apply_credit_id q w d c e e' : apply_credit q w d e c = Ok e' → oen_ID e' = oen_ID e.
Proof.
  unfold apply_credit. destruct (_ =s _).
  - intros (e1 & H & [= <-])%obind_Ok. cbn. unfold applyReviewedWitness in H. destruct (owp_Review w) as [r|]; [|by injection H as <-].
    destruct (_ || _) in H; [done|]. destruct (_ && _) in H; [done|]. injection H as <-. unfold reviewed_entry.
    destruct (ObligationReview_Outcome r). by repeat case_match; simplify_eq/=.
  - destruct (_ || _); [done|]. by intros [= <-].
Qed.

(** The entries a write leaves, given those before it. *)
Definition written (q : ObligationRequest) (d : string) (es es' : list ObligationEntry) : Prop :=
  match orq_Payload q with
  | PSeed p => es' = isort entry_le (es ++ (new_entry q <$> osd_Obligations p))
  | PSet p => (∀ c, c ∈ ost_Changes p → och_ID c ∈ ids es) ∧ updated och_ID (λ c e, apply_change q e c) (ost_Changes p) es es'
  | PWitness w =>
      (∀ c, c ∈ owp_Credits w → ocr_ID c ∈ ids es) ∧ updated ocr_ID (λ c e, apply_credit q w d e c) (owp_Credits w) es es'
  end.

Definition is_seed (q : ObligationRequest) : bool := match orq_Payload q with PSeed _ => true | _ => false end.

Lemma apply_payload_written q d out out' :
  payload_ok (orq_Payload q) → is_seed q = false → ids_sorted (led_Entries out) →
  apply_payload q d out = Ok out' ↔ out' = with_entries out (led_Entries out') ∧ written q d (led_Entries out) (led_Entries out').
Proof.
  intros Hok Hseed Hs. unfold apply_payload, written, is_seed in *. destruct (orq_Payload q) as [p|p|w]; [done| |].
  - destruct Hok as (_ & Hsort & _).
    etransitivity; [apply (update_all_spec och_ID "/request/payload/changes" (λ c e, apply_change q e c))|tauto];
      [by intros c e e' ?%apply_change_id|done|by apply str_lt_NoDup].
  - destruct Hok as (_ & _ & Hsort & _).
    etransitivity; [apply (update_all_spec ocr_ID "/request/payload/credits" (λ c e, apply_credit q w d e c))|tauto];
      [by intros c e e' ?%apply_credit_id|done|by apply str_lt_NoDup].
Qed.

(** The ledger after an event, given its entries. *)
Definition after_event (l : ObligationLedger) (d : string) (es : list ObligationEntry) : ObligationLedger :=
  mkObligationLedger (led_Prefix l) (led_Revision l + 1) d es (led_Events l ++ [d])
    (led_Unblocks l + countUnblocks (Some l) (with_entries l es)).

(** C14: an event of changes or credits is accepted of a well-formed ledger
    exactly when it follows the ledger's revision and head, names only ids the
    ledger holds and the first entry of each admits its change or credit; the
    ledger then holds, in the same order, the first entry of each named id
    updated from its old value and every other entry as it was, with the
    revision, head and event list advanced and the entries that left BLOCKED
    counted.  Ids need not be distinct. *)
Theorem ApplyObligationEvent_updates sha256 ticket l ev d l' :
  event_ok sha256 ev → is_seed (oev_Decoded ev) = false → ledger_ok ticket l →
  ApplyObligationEvent (Some l) ev d = Ok l' ↔
  Count_Int (oev_Revision ev) = led_Revision l + 1 ∧ oev_Previous ev = Some (led_Head l) ∧
  l' = after_event l d (led_Entries l') ∧ written (oev_Decoded ev) d (led_Entries l) (led_Entries l').
Proof.
  intros Hev Hseed Hl. destruct (event_request_ok _ _ Hev) as (_ & Hpay & _).
  pose proof (entries_sorted _ _ _ _ (ledger_entries _ _ Hl)) as Hs.
  rewrite ApplyObligationEvent_Ok. cbn [revisionOf fmap option_fmap option_map clone]. unfold after_event.
  split; intros (Hrev & Hprev & H); (split; [done|split; [done|]]).
  - destruct H as (out & Hout & ->). apply (apply_payload_written _ _ _ _ Hpay Hseed Hs) in Hout as [Hout Hw].
    set (es := led_Entries out) in *. clearbody es. subst out. split; [|done].
    cbn [with_entries led_Prefix led_Entries led_Events led_Unblocks]. by rewrite Hrev.
  - destruct H as [Hl' Hw]. exists (with_entries l (led_Entries l')). split.
    + apply (apply_payload_written _ _ _ _ Hpay Hseed Hs). done.
    + rewrite Hl'. cbn. by rewrite Hrev.
Qed.

(** ** Seeds *)

Lemma admitAlias_None out a :
  admitAlias out a = None ↔ (a ∉ oen_Alias <$> led_Entries out) ∧ nativeIDIn a (led_Prefix out) = false.
Proof.
  unfold admitAlias. destruct (filter _ _) as [|e es] eqn:Hf.
  - assert (a ∉ oen_Alias <$> led_Entries out) as Hno.
    { intros (e & -> & He)%list_elem_of_fmap. assert (e ∈ filter (λ x, oen_Alias x = oen_Alias e) (led_Entries out)) as Hin
        by by apply list_elem_of_filter. rewrite Hf in Hin. by apply not_elem_of_nil in Hin. }
    destruct (nativeIDIn _ _); split; try done. by intros [_ ?].
  - split; [done|]. intros [Hno _]. destruct Hno.
    assert (e ∈ filter (λ x, oen_Alias x = a) (led_Entries out)) as Hin by (rewrite Hf; by left).
    apply list_elem_of_filter in Hin as [<- Hin]. by apply list_elem_of_fmap_2.
Qed.

Definition aliases (es : list ObligationEntry) : list string := oen_Alias <$> es.

(** The aliases a seed names. *)
Definition new_aliases (os : list ObligationSeedItem) : list string := filter (λ a, a ≠ ε) (osi_Alias <$> os).

(** No alias of the seed is carried already, named twice or a native id. *)
Definition aliases_admitted (prefix : string) (es : list ObligationEntry) (os : list ObligationSeedItem) : Prop :=
  Forall (λ a, (a ∉ aliases es) ∧ nativeIDIn a prefix = false) (new_aliases os) ∧ NoDup (new_aliases os).

Lemma aliases_admitted_cons q prefix es o os :
  aliases_admitted prefix es (o :: os) ↔
  (osi_Alias o ≠ ε → (osi_Alias o ∉ aliases es) ∧ nativeIDIn (osi_Alias o) prefix = false) ∧
  aliases_admitted prefix (es ++ [new_entry q o]) os.
Proof.
  unfold aliases_admitted, new_aliases, aliases. rewrite fmap_cons, filter_cons, fmap_app. cbn [fmap list_fmap].
  change (oen_Alias (new_entry q o)) with (osi_Alias o). rewrite !Forall_forall.
  case_decide as Ha.
  - rewrite NoDup_cons. split.
    + intros (H1 & Hno & H2). split_and!; [intros _; apply H1; by left| |done]. intros a Hin. destruct (H1 a) as [Hx ?]; [by right|].
      split; [|done]. rewrite elem_of_app, list_elem_of_singleton. intros [?| ->]; done.
    + intros (H1 & H2 & H3). split_and!; [|intros Hin; apply (H2 _) in Hin as [Hx _]; apply Hx, elem_of_app; right; by left|done].
      intros a [->|Hin]%elem_of_cons; [by apply H1|]. destruct (H2 a Hin) as [Hx ?]. split; [|done].
      intros Hy. apply Hx, elem_of_app. by left.
  - split.
    + intros (H1 & H2). split_and!; [done| |done]. intros a Hin. destruct (H1 a Hin) as [Hx ?]. split; [|done].
      rewrite elem_of_app, list_elem_of_singleton. intros [?| ->]; [done|]. rewrite Ha in Hin. by apply list_elem_of_filter in Hin as [? _].
    + intros (_ & H1 & H2). split; [|done]. intros a Hin. destruct (H1 a Hin) as [Hx ?]. split; [|done].
      intros Hy. apply Hx, elem_of_app. by left.
Qed.

Lemma not_seeded q o i es : i ∉ ids es → i ≠ osi_ID o → i ∉ ids (es ++ [new_entry q o]).
Proof. intros H1 H2. unfold ids. rewrite fmap_app, elem_of_app. intros [?|[->|[]%not_elem_of_nil]%elem_of_cons]; done. Qed.

(** New ids are seeded exactly when their aliases are admitted. *)
Lemma seed_items_Ok q os : ∀ out out',
  (∀ o, o ∈ os → osi_ID o ∉ ids (led_Entries out)) → NoDup (osi_ID <$> os) →
  fold_res (seed_item q) out os = Ok out' ↔
  out' = with_entries out (led_Entries out ++ (new_entry q <$> os)) ∧ aliases_admitted (led_Prefix out) (led_Entries out) os.
Proof.
  induction os as [|o os IH]; intros out out' Hnew Hnd; cbn [fold_res].
  { rewrite app_nil_r. split; [intros [= <-]; split; [by destruct out|by split; constructor]|]. intros [-> _]. by destruct out. }
  rewrite fmap_cons in Hnd. inv Hnd as [|? ? Ho Hnd'].
  assert (seed_item q out o = if bool_decide (osi_Alias o ≠ ε → (osi_Alias o ∉ aliases (led_Entries out)) ∧ nativeIDIn (osi_Alias o) (led_Prefix out) = false)
    then Ok (with_entries out (led_Entries out ++ [new_entry q o])) else seed_item q out o ) as Hstep.
  { case_bool_decide as Hb; [|done]. unfold seed_item. destruct (entry_at _ _) as [[i e]|] eqn:Hat.
    { apply entry_at_Some in Hat as (Hi & He & _). destruct (Hnew o); [by left|]. rewrite <-He. apply list_elem_of_fmap_2.
      by eapply list_elem_of_lookup_2. }
    destruct (String.eqb_spec (osi_Alias o) ε) as [|Hne]; [done|]. by rewrite (proj2 (admitAlias_None _ _) (Hb Hne)). }
  rewrite (aliases_admitted_cons q). rewrite obind_Ok. split.
  - intros (out1 & Ho1 & H). pose proof Ho1 as Hs1. apply seed_item_step in Hs1 as [_ ->].
    apply IH in H as [-> Hal]; cbn [with_entries led_Entries led_Prefix] in *; [| |done].
    + rewrite <-app_assoc. split_and!; [done| |done]. intros Hne. apply admitAlias_None. unfold seed_item in Ho1.
      destruct (entry_at _ _); [done|]. apply String.eqb_neq in Hne. rewrite Hne in Ho1. by destruct (admitAlias _ _).
    + intros o' Ho'. apply not_seeded; [apply Hnew; by right|]. intros E. apply Ho. rewrite <-E. by apply list_elem_of_fmap_2.
  - intros (-> & Hb & Hal). rewrite (bool_decide_eq_true_2 _ Hb) in Hstep. eexists. split; [exact Hstep|].
    apply IH; cbn [with_entries led_Entries led_Prefix] in *; [|done|by rewrite <-app_assoc].
    intros o' Ho'. apply not_seeded; [apply Hnew; by right|]. intros E. apply Ho. rewrite <-E. by apply list_elem_of_fmap_2.
Qed.

(** Without a name the entries of a ledger that may be nil. *)
Definition entries_of (l : option ObligationLedger) : list ObligationEntry := led_Entries (clone l).

(** The event that follows a ledger. *)
Definition follows (l : option ObligationLedger) (ev : ObligationEvent) : Prop :=
  Count_Int (oev_Revision ev) = revisionOf l + 1 ∧ oev_Previous ev = (led_Head <$> l).

(** The entries and the ledger after a seed. *)
Definition seeded_entries (l : option ObligationLedger) (q : ObligationRequest) (p : ObligationSeedPayload) : list ObligationEntry :=
  isort entry_le (entries_of l ++ (new_entry q <$> osd_Obligations p)).

Definition seeded (l : option ObligationLedger) (q : ObligationRequest) (d : string) (p : ObligationSeedPayload) : ObligationLedger :=
  mkObligationLedger (osd_Prefix p) (revisionOf l + 1) d (seeded_entries l q p) (led_Events (clone l) ++ [d])
    (led_Unblocks (clone l) + countUnblocks l (with_entries (clone l) (seeded_entries l q p))).

(** What a seed of new ids must satisfy. *)
Definition seed_admitted (l : option ObligationLedger) (p : ObligationSeedPayload) : Prop :=
  (led_Prefix (clone l) = ε ∨ led_Prefix (clone l) = osd_Prefix p) ∧
  aliases_admitted (osd_Prefix p) (entries_of l) (osd_Obligations p) ∧
  Z.of_nat (length (entries_of l) + length (osd_Obligations p)) ≤ ObligationsMaxEntries.

Lemma apply_seed_iff l q p out' :
  (∀ o, o ∈ osd_Obligations p → osi_ID o ∉ ids (entries_of l)) → NoDup (osi_ID <$> osd_Obligations p) →
  apply_seed q p (clone l) = Ok out' ↔
  seed_admitted l p ∧
  out' = mkObligationLedger (osd_Prefix p) (led_Revision (clone l)) (led_Head (clone l)) (seeded_entries l q p)
           (led_Events (clone l)) (led_Unblocks (clone l)).
Proof.
  intros Hnew Hnd. unfold seed_admitted, apply_seed, seeded_entries, entries_of in *. set (out := clone l) in *. clearbody out.
  destruct (negb (led_Prefix out =s ε) && negb (led_Prefix out =s osd_Prefix p)) eqn:Hpre.
  { split; [done|]. intros [([E|E] & _) _]; rewrite E in Hpre; cbn in Hpre; [done|]. by rewrite String.eqb_refl, andb_false_r in Hpre. }
  assert (led_Prefix out = ε ∨ led_Prefix out = osd_Prefix p) as Hp.
  { apply andb_false_iff in Hpre as [Hx|Hx]; apply negb_false_iff, String.eqb_eq in Hx; auto. }
  rewrite obind_Ok. setoid_rewrite seed_items_Ok; [|done..]. cbn [led_Prefix led_Entries]. split.
  - intros (out1 & [-> Hal] & H). destruct (_ <? _) eqn:Hlen in H; [done|]. apply Z.ltb_ge in Hlen. injection H as <-.
    cbn [with_entries led_Entries] in Hlen. by rewrite length_app, length_fmap in Hlen.
  - intros [(_ & Hal & Hlen) ->]. eexists. split; [by split|]. cbn [with_entries led_Entries].
    by rewrite length_app, length_fmap, (proj2 (Z.ltb_ge _ _) Hlen).
Qed.

(** A seed of ids the ledger does not hold is accepted exactly when it follows the ledger's revision and head, repeats its prefix if it has one, its aliases are new, distinct and no native ids, and the ledger stays within 256 entries; the ledger then holds its old entries and, open, the seeded ones, in the order of distinct ids. *)
Theorem ApplyObligationEvent_seeds sha256 l ev d l' p :
  event_ok sha256 ev → orq_Payload (oev_Decoded ev) = PSeed p →
  NoDup (ids (entries_of l)) → (∀ o, o ∈ osd_Obligations p → osi_ID o ∉ ids (entries_of l)) →
  (ApplyObligationEvent l ev d = Ok l' ↔ follows l ev ∧ seed_admitted l p ∧ l' = seeded l (oev_Decoded ev) d p) ∧
  ids_sorted (seeded_entries l (oev_Decoded ev) p) ∧ NoDup (ids (seeded_entries l (oev_Decoded ev) p)).
Proof.
  intros Hev Hp Hnd Hnew. destruct (event_request_ok _ _ Hev) as (_ & Hpay & _). rewrite Hp in Hpay. destruct Hpay as (_ & _ & Hsort & _).
  apply str_lt_NoDup in Hsort. split_and!.
  - rewrite ApplyObligationEvent_Ok. unfold apply_payload, follows. rewrite Hp. setoid_rewrite apply_seed_iff; [|done..]. split.
    + intros (Hrev & Hprev & out & [Hs ->] & ->). split_and!; [done..|]. unfold seeded. cbn. by rewrite Hrev.
    + intros ([Hrev Hprev] & Hs & ->). split_and!; [done..|]. eexists. split; [by split|]. unfold seeded. cbn. by rewrite Hrev.
  - apply isort_entries_sorted.
  - unfold ids, seeded_entries. rewrite isort_perm, fmap_app. apply NoDup_app. split_and!; [done| |].
    + intros i Hi (o & -> & Ho)%list_elem_of_fmap. apply list_elem_of_fmap in Ho as (s & -> & Hs). by apply (Hnew s).
    + by rewrite <-list_fmap_compose.
Qed.

(** ** A seed of an id the ledger holds

    [seed_item] looks an id up by binary search among entries that are sorted
    only until the first seeded one is appended. *)

(** Two accepted events, the second seeding again an id of the first. *)
Definition twice_seeded : res (list string) :=
  let raw1 := sample_event "1" None "r1" (seed_of ["A-5"]) in
  let* ev1 := DecodeObligationEvent sample_hash raw1 in
  let* l1 := ApplyObligationEvent None ev1 (Sum sample_hash raw1) in
  let raw2 := sample_event "2" (Some (Sum sample_hash raw1)) "r2" (seed_of ["A-1"; "A-2"; "A-5"]) in
  let* ev2 := DecodeObligationEvent sample_hash raw2 in
  let* l2 := ApplyObligationEvent (Some l1) ev2 (Sum sample_hash raw2) in
  Ok (ids (led_Entries l2)).

(** A seed can add an id the ledger already holds: the ledger of A-5 accepts a decoded event that seeds A-1, A-2 and A-5, and then holds A-5 twice. *)
Theorem seed_duplicates_id : twice_seeded = Ok ["A-1"; "A-2"; "A-5"; "A-5"].
Proof. vm_compute. reflexivity. Qed.

(** ** Crediting *)

Lemma apply_single_credit q w d c e :
  ObligationPending (oen_State e) = true → (is_Some (owp_Review w) ↔ owp_Source w = ObligationSourceReviewed) →
  ∃ e', apply_credit q w d e c = Ok e' ∧
    (oen_State e' = ObligationWitnessed ↔ ∀ r, owp_Review w = Some r → (ObligationReview_Outcome r).1 = ObligationReviewCredited).
Proof.
  intros Hp Hr. assert (oen_State e ≠ ObligationWitnessed ∧ oen_State e ≠ ObligationDeferred) as [Hw Hd].
  { unfold ObligationPending in Hp. split; intros E; by rewrite E in Hp. }
  apply String.eqb_neq in Hw as Bw, Hd as Bd. unfold apply_credit.
  destruct (String.eqb_spec (owp_Source w) ObligationSourceReviewed) as [Hs|Hs].
  - destruct (owp_Review w) as [r|] eqn:Er; [|by destruct (proj2 Hr Hs)]. unfold applyReviewedWitness. rewrite Er, Bw, Bd. cbn [orb andb obind].
    eexists. split; [done|]. unfold reviewed_entry. destruct (ObligationReview_Outcome r) as [outcome axes] eqn:Ho. rewrite Bw.
    destruct (String.eqb_spec outcome ObligationReviewCredited) as [->|Hno]; cbn [stamp without_candidate oen_State]; split; try done.
    + intros _ r' [= <-]. by rewrite Ho.
    + intros H. destruct Hno. specialize (H r eq_refl). by rewrite Ho in H.
  - rewrite Bw, Bd. cbn [orb]. eexists. split; [done|]. cbn. split; [|done]. intros _ r Er. destruct Hs, Hr as [Hr _]. apply Hr.
    by rewrite Er.
Qed.

(** C27: an obligation that a well-formed ledger answers as pending under its
    id can always be credited: the next event whose witness names it alone is
    accepted, and the ledger then answers it as witnessed unless the witness is
    a review that is held. *)
Theorem pending_can_be_credited sha256 ticket l e ev d w c :
  ledger_ok ticket l → ObligationLedger_Entry (Some l) (ocr_ID c) = Some e → ObligationPending (oen_State e) = true →
  event_ok sha256 ev → follows (Some l) ev → orq_Payload (oev_Decoded ev) = PWitness w → owp_Credits w = [c] →
  ∃ l' e', ApplyObligationEvent (Some l) ev d = Ok l' ∧ ObligationLedger_Entry (Some l') (ocr_ID c) = Some e' ∧
    (oen_State e' = ObligationWitnessed ↔ ∀ r, owp_Review w = Some r → (ObligationReview_Outcome r).1 = ObligationReviewCredited).
Proof.
  intros Hl He Hpend Hev [Hrev Hprev] Hw Hc. cbn [ObligationLedger_Entry] in He.
  destruct (entry_at (led_Entries l) (ocr_ID c)) as [[i x]|] eqn:Hat; [|done]. injection He as ->.
  destruct (event_request_ok _ _ Hev) as (_ & Hpay & _). rewrite Hw in Hpay. destruct Hpay as (_ & _ & _ & Hr & _).
  pose proof (entries_sorted _ _ _ _ (ledger_entries _ _ Hl)) as Hs.
  destruct (apply_single_credit (oev_Decoded ev) w d c e Hpend Hr) as (e' & He' & Hst).
  pose proof (entry_at_Some _ _ _ _ Hat) as (Hi & Hid & Hix). pose proof (apply_credit_id _ _ _ _ _ _ He') as Hid'.
  pose proof (ids_insert _ _ _ _ Hi Hid') as Hids. set (out := with_entries l (<[i := e']> (led_Entries l))).
  assert (apply_payload (oev_Decoded ev) d (clone (Some l)) = Ok out) as Hout.
  { unfold apply_payload. rewrite Hw, Hc. cbn [fold_res clone].
    assert (witness_credit (oev_Decoded ev) w d l c = Ok out) as ->; [|done]. apply update_entry_Ok. by exists i, e, e'. }
  eexists _, e'. split_and!; [|  |exact Hst].
  - apply ApplyObligationEvent_Ok. split_and!; [done..|]. exists out. by split.
  - cbn [ObligationLedger_Entry led_Entries out with_entries]. unfold entry_at.
    rewrite entry_index_SearchStrings, Hids, <-entry_index_SearchStrings, <-Hix, list_lookup_insert_eq by (by eapply lookup_lt_Some).
    cbn. by rewrite Hid', Hid, String.eqb_refl.
Qed.

(** ** At the sample ledger *)

Lemma sample_event_ok raw ev : DecodeObligationEvent sample_hash raw = Ok ev → event_ok sample_hash ev.
Proof. by intros [? _]%DecodeObligationEvent_ok. Qed.

Lemma ledger1_ok : ledger_ok (TicketID_Raw sample_ticket) ledger1.
Proof.
  apply (ApplyObligationEvent_keeps sample_hash (TicketID_Raw sample_ticket) None event1 (Sum sample_hash raw1)); [|done|done|].
  - apply (sample_event_ok raw1). vm_compute. reflexivity.
  - vm_compute. reflexivity.
Qed.

Lemma ledger1_ids : NoDup (ids (led_Entries ledger1)).
Proof. apply (bool_decide_unpack _). vm_compute. exact I. Qed.

Lemma event2_ok : event_ok sample_hash event2.
Proof. apply (sample_event_ok raw2). vm_compute. reflexivity. Qed.

Lemma ApplyObligationEvent_updates_witness : ledger2 = after_event ledger1 (Sum sample_hash raw2) (led_Entries ledger2).
Proof.
  apply (ApplyObligationEvent_updates sample_hash (TicketID_Raw sample_ticket) ledger1 event2 (Sum sample_hash raw2) ledger2);
    [exact event2_ok|reflexivity|exact ledger1_ok|vm_compute; reflexivity].
Defined.

Lemma ApplyObligationEvent_seeds_witness :
  NoDup (ids (seeded_entries None (oev_Decoded event1) (match seed_of ["A-1"] with PSeed p => p | _ => {| osd_Prefix := ε; osd_Obligations := [] |} end))).
Proof.
  apply (ApplyObligationEvent_seeds sample_hash None event1 (Sum sample_hash raw1) ledger1); [|reflexivity|constructor|].
  - apply (sample_event_ok raw1). vm_compute. reflexivity.
  - intros o _ H. by apply not_elem_of_nil in H.
Defined.

Lemma pending_can_be_credited_witness :
  ∃ l' e', ApplyObligationEvent (Some ledger1) event2 (Sum sample_hash raw2) = Ok l' ∧
    ObligationLedger_Entry (Some l') "A-1" = Some e' ∧ oen_State e' = ObligationWitnessed.
Proof.
  destruct (ObligationLedger_Entry (Some ledger1) "A-1") as [e|] eqn:E; [|vm_compute in E; discriminate].
  destruct (pending_can_be_credited sample_hash (TicketID_Raw sample_ticket) ledger1 e event2 (Sum sample_hash raw2) declared
    {| ocr_ID := "A-1"; ocr_Matches := None |}) as (l' & e' & H1 & H2 & H3);
    [exact ledger1_ok|exact E| |exact event2_ok|split; vm_compute; reflexivity|reflexivity|reflexivity|].
  { vm_compute in E. injection E as <-. reflexivity. }
  exists l', e'. split; [exact H1|]. split; [exact H2|]. apply H3. intros r Hr. discriminate Hr.
Defined.
