(* ===== verification/ChainSpec.v ===== *)
(** * What the obligation ledger promises: chains of events

    The chain behind a head is determined by the head, its fold is the one
    ledger the writer's transitions built, and the fold always ends. *)

From S2P Require Import Prelude Utf8 GoStd Codes Limits Value Canonical Primitives Ids.
From S2P Require Import SetsSpec PrimitivesSpec IdsSpec Parse ParseDoc Reader ReaderSpec Result ResultSpec.
From S2P Require Import Ticket Inventory Marks MarksSpec KnowHow RecordParts PartsSpec.
From S2P Require Import Obligations ObligationEvents ObligationParts EventsSpec ObligationLedger LedgerSpec.
Local Open Scope Z_scope.
Local Open Scope go_scope.

Section chains.
Context (sha256 : string → string).

(** ** Histories *)

Section store.
Context (read : string → goerror + option string) (id : TicketID).

(** The events behind a head, the oldest first. *)
Inductive history : option string → list (ObligationEvent * string) → Prop :=
  | history_nil : history None []
  | history_snoc d ev chain :
      chain_event sha256 read id d = Ok ev → history (oev_Previous ev) chain → history (Some d) (chain ++ [(ev, d)]).

Lemma chain_event_no_fuel d : chain_event sha256 read id d ≠ OutOfFuel.
Proof.
  unfold chain_event. destruct (read d) as [|[raw|]]; [done| |done]. destruct (negb _); [done|].
  destruct (DecodeObligationEvent sha256 raw) eqn:E; [|done|by apply DecodeObligationEvent_no_fuel in E]. by destruct (negb _).
Qed.

Lemma chain_event_Ok d ev :
  chain_event sha256 read id d = Ok ev ↔
  ∃ raw, read d = inr (Some raw) ∧ Sum sha256 raw = d ∧ DecodeObligationEvent sha256 raw = Ok ev ∧
    TicketID_Raw (oev_TicketID ev) = TicketID_Raw id.
Proof.
  unfold chain_event. split.
  - destruct (read d) as [|[raw|]] eqn:Hr; try done. destruct (String.eqb_spec (Sum sha256 raw) d) as [Hd|]; [|done]. cbn [negb].
    destruct (DecodeObligationEvent sha256 raw) eqn:E; try done.
    destruct (String.eqb_spec (TicketID_Raw (oev_TicketID a)) (TicketID_Raw id)); [|done]. intros [= <-]. by exists raw.
  - intros (raw & -> & <- & -> & ->). by rewrite !String.eqb_refl.
Qed.

Lemma chain_event_code d e : chain_event sha256 read id d = Err e → ce_Code e ∈ [CodeMissingEvidence; CodeMalformed].
Proof.
  unfold chain_event. intros H. repeat case_match; simplify_eq/=; set_solver.
Qed.

(** The walk finds the history of the head, if it is within the bound. *)
Lemma walk_chain_spec fuel : ∀ head n acc,
  n ≤ ObligationsMaxEvents → ObligationsMaxEvents - n < Z.of_nat fuel →
  match walk_chain sha256 read fuel id head n acc with
  | Ok res => ∃ chain, history head chain ∧ res = chain ++ acc ∧ n + Z.of_nat (length chain) ≤ ObligationsMaxEvents
  | Err e => ce_Code e ∈ [CodeMissingEvidence; CodeMalformed] ∧
      ¬ ∃ chain, history head chain ∧ n + Z.of_nat (length chain) ≤ ObligationsMaxEvents
  | OutOfFuel => False
  end.
Proof.
  induction fuel as [|fuel IH]; intros head n acc Hn Hfuel; [lia|].
  destruct head as [d|]; cbn [walk_chain]; [|exists []; split_and!; [constructor|done|cbn; lia]].
  destruct (Z.leb_spec ObligationsMaxEvents n) as [Hle|Hlt].
  { split; [set_solver|]. intros (chain & Hc & Hlen). inv Hc. rewrite length_app in Hlen. cbn in Hlen. lia. }
  destruct (chain_event sha256 read id d) as [ev|e|] eqn:Hev; cbn [obind].
  - specialize (IH (oev_Previous ev) (n + 1) ((ev, d) :: acc) ltac:(lia) ltac:(lia)).
    destruct (walk_chain _ _ _ _ _ _ _) as [res|e|]; [| |done].
    + destruct IH as (chain & Hc & -> & Hlen). exists (chain ++ [(ev, d)]). split_and!; [by constructor|by rewrite <-app_assoc|].
      rewrite length_app. cbn. lia.
    + destruct IH as [Hcode Hno]. split; [done|]. intros (chain & Hc & Hlen). inv Hc as [|? ev' chain' Hev' Hc'].
      assert (ev' = ev) as -> by congruence. apply Hno. exists chain'. rewrite length_app in Hlen. cbn in Hlen. split; [done|lia].
  - split; [by eapply chain_event_code|]. intros (chain & Hc & _). inv Hc. congruence.
  - by apply chain_event_no_fuel in Hev.
Qed.

Lemma history_unique head c1 c2 : history head c1 → history head c2 → c1 = c2.
Proof.
  intros H. revert c2. induction H as [|d ev chain Hev _ IH]; intros c2 H2; inv H2 as [|? ev' chain' Hev' Hc']; [done|].
  assert (ev' = ev) as -> by congruence. by rewrite (IH chain').
Qed.

Lemma history_events head chain :
  history head chain → Forall (λ x, chain_event sha256 read id x.2 = Ok x.1) chain ∧ snd <$> last chain = head.
Proof.
  induction 1 as [|d ev chain Hev Hc [IH _]]; [done|]. split; [by apply Forall_app_2; [|constructor]|]. by rewrite last_snoc.
Qed.

(** ** Folds *)

Lemma ApplyObligationEvent_no_fuel l ev d : ApplyObligationEvent l ev d ≠ OutOfFuel.
Proof.
  assert (∀ A B (step : B → A → res B) xs b, (∀ b a, step b a ≠ OutOfFuel) → fold_res step b xs ≠ OutOfFuel) as Hfold.
  { intros A B step xs. induction xs as [|x xs IH]; intros b Hs; cbn [fold_res]; [done|].
    intros [H|(b' & _ & H)]%obind_OutOfFuel; [by apply Hs in H|by apply IH in H]. }
  assert (∀ o i dir f, (∀ e, f e ≠ OutOfFuel) → update_entry o i dir f ≠ OutOfFuel) as Hup.
  { intros o i dir f Hf. unfold update_entry. destruct (entry_at _ _) as [[? e]|]; [|done].
    by intros [H|(? & _ & ?)]%obind_OutOfFuel; [apply Hf in H|]. }
  unfold ApplyObligationEvent. destruct (negb _); [done|]. destruct (negb _); [done|].
  intros [H|(? & _ & ?)]%obind_OutOfFuel; [|done]. revert H. unfold apply_payload. destruct (orq_Payload _) as [p|p|w].
  - unfold apply_seed. destruct (_ && _); [done|]. intros [H|(? & _ & H)]%obind_OutOfFuel; [|by destruct (_ <? _)].
    revert H. apply Hfold. intros b a. unfold seed_item. destruct (entry_at _ _); [done|].
    by destruct (if osi_Alias a =s ε then None else admitAlias b (osi_Alias a)).
  - apply Hfold. intros b c. apply Hup. intros e. unfold apply_change. cbv zeta.
    intros [H|(sc & _ & [H|(m & _ & H)]%obind_OutOfFuel)]%obind_OutOfFuel; [| |done].
    + destruct (och_Scope c); [|done]. unfold applyScopeChange in H. repeat case_match; done.
    + destruct (och_Mirror c); [|done]. unfold applyMirrorChange in H. repeat case_match; done.
  - apply Hfold. intros b c. apply Hup. intros e. unfold apply_credit. destruct (_ =s _).
    + intros [H|(? & _ & ?)]%obind_OutOfFuel; [|done]. unfold applyReviewedWitness in H. repeat case_match; done.
    + by destruct (_ || _).
Qed.

Lemma fold_chain_app l c1 c2 :
  fold_chain l (c1 ++ c2) = obind (fold_chain l c1) (λ l, fold_chain l c2).
Proof.
  revert l. induction c1 as [|[ev d] c1 IH]; intros l; cbn [app fold_chain]; [done|].
  destruct (ApplyObligationEvent l ev d); [apply IH|done..].
Qed.

Lemma fold_chain_total l c :
  (∃ l', fold_chain l c = Ok l') ∨ ∃ e, fold_chain l c = Err e ∧ ce_Code e = CodeMalformed.
Proof.
  revert l. induction c as [|[ev d] c IH]; intros l; cbn [fold_chain]; [eauto|].
  destruct (ApplyObligationEvent l ev d) eqn:E; [apply IH|right; by eexists|by apply ApplyObligationEvent_no_fuel in E].
Qed.

(** The events of a fold are the digests of its chain, in order. *)
Definition nil_or (l : option ObligationLedger) (chain : list (ObligationEvent * string)) : Prop :=
  match l with None => chain = [] | Some l => chain ≠ [] ∧ led_Events l = chain.*2 end.

Lemma payload_events q event out out' : apply_payload q event out = Ok out' → led_Events out' = led_Events out.
Proof.
  assert (∀ o i dir f o', update_entry o i dir f = Ok o' → led_Events o' = led_Events o) as Hup.
  { by intros o i dir f o' (? & ? & ? & _ & _ & ->)%update_entry_Ok. }
  unfold apply_payload. destruct (orq_Payload q) as [p|p|w].
  - by intros (_ & _ & _ & _ & ? & _)%apply_seed_Ok.
  - apply (fold_res_ind _ (λ o, led_Events o = led_Events out)); [|done]. intros b c b' _ Hb H%Hup. congruence.
  - apply (fold_res_ind _ (λ o, led_Events o = led_Events out)); [|done]. intros b c b' _ Hb H%Hup. congruence.
Qed.

Lemma Apply_events l ev d l' :
  ApplyObligationEvent l ev d = Ok l' → led_Events l' = led_Events (clone l) ++ [d] ∧ led_Head l' = d.
Proof. intros (_ & _ & out & Hout%payload_events & ->)%ApplyObligationEvent_Ok. cbn. by rewrite Hout. Qed.

(** Every fold of a history is in order, and its events are the history. *)
Lemma fold_history head chain :
  history head chain → ∀ l, fold_chain None chain = Ok l →
  ledger_ok_or_nil (TicketID_Raw id) l ∧ nil_or l chain ∧ (led_Head <$> l) = head.
Proof.
  induction 1 as [|d ev chain Hev Hc IH]; intros l; [by intros [= <-]|].
  rewrite fold_chain_app. intros (l0 & Hl0 & H)%obind_Ok. cbn [fold_chain] in H.
  destruct (ApplyObligationEvent l0 ev d) as [l1|e|] eqn:Ha; [|done..]. injection H as <-.
  destruct (IH _ Hl0) as (Hok & Hnil & Hhead). apply chain_event_Ok in Hev as (raw & _ & _ & [Hevok _]%DecodeObligationEvent_ok & Ht).
  destruct (Apply_events _ _ _ _ Ha) as [He Hd]. cbn [ledger_ok_or_nil fmap option_fmap option_map nil_or]. split_and!.
  - by eapply ApplyObligationEvent_keeps.
  - by destruct chain.
  - rewrite He, fmap_app. destruct l0 as [l0|]; cbn in *; [by destruct Hnil as [_ ->]|by subst].
  - by rewrite Hd.
Qed.

Lemma matches_reference_spec l ref :
  matches_reference l ref = true ↔
  led_Revision l = Count_Int (obl_Revision ref) ∧ led_Prefix l = obl_Prefix ref ∧ ObligationLedger_Counts (Some l) = obl_Counts ref.
Proof.
  unfold matches_reference. rewrite !andb_true_iff, Z.eqb_eq, String.eqb_eq, bool_decide_eq_true. tauto.
Qed.

(** [FoldObligationChain] accepts exactly the histories within the bound
    whose fold is what the reference describes. *)
Lemma FoldObligationChain_Ok ref l :
  FoldObligationChain sha256 read id ref = Ok l ↔
  ∃ chain, history (Some (obl_Head ref)) chain ∧ Z.of_nat (length chain) ≤ ObligationsMaxEvents ∧
    fold_chain None chain = Ok (Some l) ∧ matches_reference l ref = true.
Proof.
  unfold FoldObligationChain.
  pose proof (walk_chain_spec chain_fuel (Some (obl_Head ref)) 0 [] ltac:(done) ltac:(unfold chain_fuel, ObligationsMaxEvents; lia)) as Hw.
  destruct (walk_chain _ _ _ _ _ _ _) as [res|e|]; cbn [obind]; [| |done].
  - destruct Hw as (chain & Hc & -> & Hlen). rewrite app_nil_r. split.
    + intros (l0 & Hl0 & H)%obind_Ok. destruct l0 as [l0|]; [|done]. destruct (matches_reference l0 ref) eqn:Hm; [|done].
      injection H as <-. exists chain. split_and!; [done|lia|done..].
    + intros (chain' & Hc' & _ & Hf & Hm). rewrite (history_unique _ _ _ Hc Hc'), Hf. cbn [obind]. by rewrite Hm.
  - split; [done|]. intros (chain & Hc & Hlen & _). destruct Hw as [_ []]. exists chain. split; [done|lia].
Qed.
End store.

(** Two different documents with one digest. *)
Definition collision : Prop := ∃ x y, x ≠ y ∧ Sum sha256 x = Sum sha256 y.

(** Under one head two stores hold the same history, or the hash collides. *)
Lemma history_integrity read1 read2 id1 id2 head c1 c2 :
  history read1 id1 head c1 → history read2 id2 head c2 → c1 = c2 ∨ collision.
Proof.
  intros H. revert c2. induction H as [|d ev chain Hev _ IH]; intros c2 H2; inv H2 as [|? ev' chain' Hev' Hc']; [by left|].
  apply chain_event_Ok in Hev as (raw & _ & Hd & Hdec & _), Hev' as (raw' & _ & Hd' & Hdec' & _).
  destruct (decide (raw = raw')) as [->|Hne]; [|right; exists raw, raw'; split; [done|congruence]].
  assert (ev' = ev) as -> by congruence. destruct (IH _ Hc') as [->|]; [by left|by right].
Qed.
End chains.

(** ** Theorems *)

(** The fold ends, with a ledger or one of the two refusals of the chain. *)
Lemma FoldObligationChain_cases sha256 read id ref :
  (∃ l, FoldObligationChain sha256 read id ref = Ok l) ∨
  ∃ e, FoldObligationChain sha256 read id ref = Err e ∧ ce_Code e ∈ [CodeMissingEvidence; CodeMalformed].
Proof.
  unfold FoldObligationChain.
  pose proof (walk_chain_spec sha256 read id chain_fuel (Some (obl_Head ref)) 0 [] ltac:(done)
    ltac:(unfold chain_fuel, ObligationsMaxEvents; lia)) as Hw.
  destruct (walk_chain _ _ _ _ _ _ _) as [res|e|]; cbn [obind]; [|right; exists e; split; [done|apply Hw]|done].
  destruct (fold_chain_total None res) as [[l ->]|(e & -> & He)]; cbn [obind]; [|right; exists e; split; [done|rewrite He; set_solver]].
  destruct l as [l|]; [destruct (matches_reference l ref); [left; eauto|]|]; right; eexists; (split; [done|set_solver]).
Qed.

(** C26: the fold of a ledger's chain always ends, with a ledger or with a MISSING_EVIDENCE or MALFORMED error, and accepts exactly the histories of its head of at most 1024 events, each stored under its digest and linked to the one before, whose fold has the revision, prefix and counts of the reference. *)
Theorem FoldObligationChain_spec sha256 read id ref :
  (∀ l, FoldObligationChain sha256 read id ref = Ok l ↔
    ∃ chain, history sha256 read id (Some (obl_Head ref)) chain ∧ Z.of_nat (length chain) ≤ ObligationsMaxEvents ∧
      fold_chain None chain = Ok (Some l) ∧ led_Revision l = Count_Int (obl_Revision ref) ∧ led_Prefix l = obl_Prefix ref ∧
      ObligationLedger_Counts (Some l) = obl_Counts ref) ∧
  ((∃ l, FoldObligationChain sha256 read id ref = Ok l) ∨
   ∃ e, FoldObligationChain sha256 read id ref = Err e ∧ ce_Code e ∈ [CodeMissingEvidence; CodeMalformed]).
Proof.
  split; [intros l; rewrite FoldObligationChain_Ok; by setoid_rewrite matches_reference_spec|]. apply FoldObligationChain_cases.
Qed.

(** C13: two stores that both fold under the same head hold the same ledger: a reader can only be shown another ledger, or another reference, by a collision of the digest. *)
Theorem FoldObligationChain_integrity sha256 read1 read2 id1 id2 ref1 ref2 l1 l2 :
  FoldObligationChain sha256 read1 id1 ref1 = Ok l1 → FoldObligationChain sha256 read2 id2 ref2 = Ok l2 →
  obl_Head ref1 = obl_Head ref2 → l1 = l2 ∨ collision sha256.
Proof.
  intros (c1 & H1 & _ & Hf1 & _)%FoldObligationChain_Ok (c2 & H2 & _ & Hf2 & _)%FoldObligationChain_Ok Hhead.
  rewrite Hhead in H1. destruct (history_integrity _ _ _ _ _ _ _ _ H1 H2) as [->|]; [left; congruence|by right].
Qed.

(** A history of a store is one of every store with the same events. *)
Lemma history_weaken sha256 read read' id id' head chain :
  (∀ d ev, chain_event sha256 read id d = Ok ev → chain_event sha256 read' id' d = Ok ev) →
  history sha256 read id head chain → history sha256 read' id' head chain.
Proof. intros Hw. induction 1; constructor; auto. Qed.

(** What the writer's transition builds is what a reader folds: after an
    accepted event is stored under its digest, the fold under the new head gives
    the ledger of the transition, if the reference describes it. *)
Lemma FoldObligationChain_extend sha256 read id ref' head chain l raw ev l' :
  history sha256 read id head chain → fold_chain None chain = Ok l →
  DecodeObligationEvent sha256 raw = Ok ev → TicketID_Raw (oev_TicketID ev) = TicketID_Raw id →
  ApplyObligationEvent l ev (Sum sha256 raw) = Ok l' →
  read (Sum sha256 raw) = inr (Some raw) → obl_Head ref' = Sum sha256 raw → matches_reference l' ref' = true →
  FoldObligationChain sha256 read id ref' = Ok l'.
Proof.
  intros Hc Hf Hdec Ht Ha Hread Hhead Hm. apply FoldObligationChain_Ok.
  assert (chain_event sha256 read id (Sum sha256 raw) = Ok ev) as Hev by (apply chain_event_Ok; by exists raw).
  destruct (fold_history _ _ _ _ _ Hc _ Hf) as (Hok & Hevs & Hh).
  destruct (DecodeObligationEvent_ok _ _ _ Hdec) as [Hevok _]. pose proof (ApplyObligationEvent_keeps _ _ l _ _ _ Hevok Ht Hok Ha) as Hok'.
  apply ApplyObligationEvent_Ok in Ha as Ha'. destruct Ha' as (_ & Hprev & _).
  exists (chain ++ [(ev, Sum sha256 raw)]). split_and!.
  - rewrite Hhead. constructor; [done|]. by rewrite Hprev, Hh.
  - pose proof (ledger_revision _ _ Hok') as Hr. pose proof (ledger_bound _ _ Hok') as Hb.
    destruct (Apply_events _ _ _ _ Ha) as [He _]. rewrite He in Hr. rewrite length_app in Hr.
    destruct l as [l|]; cbn in Hevs; [destruct Hevs as [_ Hevs]; cbn [clone] in Hr; rewrite Hevs, length_fmap in Hr|subst chain];
      rewrite length_app; cbn in *; lia.
  - rewrite fold_chain_app, Hf. cbn [obind fold_chain]. by rewrite Ha.
  - done.
Qed.

(** ** The ledger before a request *)

Definition names (requestID : string) (x : ObligationEvent * string) : Prop := orq_RequestID (oev_Decoded x.1) = requestID.

Lemma before_loop_spec sha256 read id requestID chain : ∀ before l,
  Forall (λ x, chain_event sha256 read id x.2 = Ok x.1) chain → fold_chain before chain = Ok l →
  ∃ b found, before_loop sha256 read requestID before chain.*2 = Ok (b, found) ∧
    if found : bool then ∃ c1 x c2, chain = c1 ++ x :: c2 ∧ names requestID x ∧ Forall (λ y, ¬ names requestID y) c1 ∧
      fold_chain before c1 = Ok b
    else b = None ∧ Forall (λ y, ¬ names requestID y) chain.
Proof.
  induction chain as [|[ev d] chain IH]; intros before l Hall Hf; cbn [before_loop fmap list_fmap snd].
  { exists None, false. split; [done|]. by split. }
  inv Hall as [|? ? Hev Hall']. apply chain_event_Ok in Hev as (raw & Hread & _ & Hdec & _). cbn [fst snd] in *.
  rewrite Hread. change (default ε (Some raw)) with raw. rewrite Hdec. cbn [fold_chain] in Hf.
  destruct (String.eqb_spec (orq_RequestID (oev_Decoded ev)) requestID) as [Hq|Hq].
  { exists before, true. split; [done|]. exists [], (ev, d), chain. split_and!; [done..|constructor|done]. }
  destruct (ApplyObligationEvent before ev d) as [l1|e|] eqn:Ha; [|done..].
  destruct (IH _ _ Hall' Hf) as (b & found & Hb & H). exists b, found. split; [done|]. destruct found.
  - destruct H as (c1 & x & c2 & -> & Hx & Hc1 & Hfb). exists ((ev, d) :: c1), x, c2. split_and!; [done..|by constructor|].
    cbn [fold_chain]. by rewrite Ha.
  - destruct H as [-> Hc]. split; [done|by constructor].
Qed.

(** [ObligationLedgerBeforeRequest] finds the first event of the history that retains the request and returns the ledger folded from the events before it, nil before the first; it reports none exactly when no event retains the request, and never fails on a chain that folds. *)
Theorem ObligationLedgerBeforeRequest_spec sha256 read id ref requestID l chain :
  FoldObligationChain sha256 read id ref = Ok l → history sha256 read id (Some (obl_Head ref)) chain →
  ∃ b found, ObligationLedgerBeforeRequest sha256 read id ref requestID = Ok (b, found) ∧
    if found : bool then ∃ c1 x c2, chain = c1 ++ x :: c2 ∧ names requestID x ∧ Forall (λ y, ¬ names requestID y) c1 ∧
      fold_chain None c1 = Ok b
    else b = None ∧ Forall (λ y, ¬ names requestID y) chain.
Proof.
  intros Hfold Hc. unfold ObligationLedgerBeforeRequest. rewrite Hfold. apply FoldObligationChain_Ok in Hfold as (c & Hc' & _ & Hf & _).
  rewrite (history_unique _ _ _ _ _ _ Hc' Hc) in Hf. destruct (fold_history _ _ _ _ _ Hc _ Hf) as (_ & [_ ->] & _).
  destruct (history_events _ _ _ _ _ Hc) as [Hall _]. by eapply before_loop_spec.
Qed.

(** ** The invariant of a folded ledger *)

(** How many entries satisfy [P]. *)
Definition tally (P : ObligationEntry → Prop) `{∀ e, Decision (P e)} (es : list ObligationEntry) : Z :=
  Z.of_nat (length (filter P es)).

(** The counts of a ledger, by which entries they count. *)
Lemma Counts_spec l :
  let es := match l with Some l => led_Entries l | None => [] end in
  let c := ObligationLedger_Counts l in
  oc_Witnessed c = tally (λ e, oen_State e = ObligationWitnessed) es ∧ oc_Total c = tally (λ e, oen_State e ≠ ObligationDeferred) es ∧
  oc_Deferred c = tally (λ e, oen_State e = ObligationDeferred) es ∧
  oc_CoreWitnessed c = tally (λ e, oen_State e = ObligationWitnessed ∧ oen_Core e = true) es ∧
  oc_CoreTotal c = tally (λ e, oen_State e ≠ ObligationDeferred ∧ oen_Core e = true) es.
Proof.
  destruct l as [l|]; [|done]. cbn [ObligationLedger_Counts]. cbv zeta.
  assert (∀ es c, foldl count_entry c es =
    {| oc_Witnessed := oc_Witnessed c + tally (λ e, oen_State e = ObligationWitnessed) es;
       oc_Total := oc_Total c + tally (λ e, oen_State e ≠ ObligationDeferred) es;
       oc_Deferred := oc_Deferred c + tally (λ e, oen_State e = ObligationDeferred) es;
       oc_CoreWitnessed := oc_CoreWitnessed c + tally (λ e, oen_State e = ObligationWitnessed ∧ oen_Core e = true) es;
       oc_CoreTotal := oc_CoreTotal c + tally (λ e, oen_State e ≠ ObligationDeferred ∧ oen_Core e = true) es |}) as H.
  { induction es as [|e es IH]; intros c; cbn [foldl]; [destruct c; unfold tally; cbn; f_equal; lia|]. rewrite IH. clear IH. unfold count_entry, tally.
    rewrite !filter_cons.
    destruct (String.eqb_spec (oen_State e) ObligationDeferred) as [E|E], (String.eqb_spec (oen_State e) ObligationWitnessed) as [E'|E'],
      (oen_Core e) eqn:Hk; try (by rewrite E in E'); cbn [oc_Witnessed oc_Total oc_Deferred oc_CoreWitnessed oc_CoreTotal];
      repeat case_decide; try tauto; try congruence; cbn [length]; f_equal; lia. }
  rewrite H. cbn. done.
Qed.

Lemma filter_length_le {A} (P Q : A → Prop) `{∀ x, Decision (P x), ∀ x, Decision (Q x)} xs :
  (∀ x, P x → Q x) → (length (filter P xs) ≤ length (filter Q xs))%nat.
Proof.
  intros HPQ. induction xs as [|x xs IH]; [done|]. rewrite !filter_cons. repeat case_decide; cbn [length]; naive_solver lia.
Qed.

Lemma filter_length_split {A} (P : A → Prop) `{∀ x, Decision (P x)} xs :
  (length (filter P xs) + length (filter (λ x, ¬ P x) xs) = length xs)%nat.
Proof. induction xs as [|x xs IH]; [done|]. rewrite !filter_cons. repeat case_decide; cbn [length]; try lia; tauto. Qed.

(** The counts of a ledger within the bound satisfy the relations a reference
    is decoded with. *)
Lemma Counts_valid l :
  Z.of_nat (length (led_Entries l)) ≤ ObligationsMaxEntries → ObligationCounts_valid (ObligationLedger_Counts (Some l)) = true.
Proof.
  intros Hlen. destruct (Counts_spec (Some l)) as (E1 & E2 & E3 & E4 & E5). cbv zeta in *. unfold ObligationCounts_valid.
  rewrite E1, E2, E3, E4, E5. unfold tally. clear -Hlen.
  pose proof (filter_length_split (λ e, oen_State e = ObligationDeferred) (led_Entries l)) as H0.
  assert (∀ e : ObligationEntry, oen_State e = ObligationWitnessed → oen_State e ≠ ObligationDeferred) as Hw by by intros e ->.
  pose proof (filter_length_le (λ e, oen_State e = ObligationWitnessed) (λ e, oen_State e ≠ ObligationDeferred) (led_Entries l) Hw) as H1.
  pose proof (filter_length_le (λ e, oen_State e = ObligationWitnessed ∧ oen_Core e = true)
    (λ e, oen_State e ≠ ObligationDeferred ∧ oen_Core e = true) (led_Entries l) ltac:(naive_solver)) as H2.
  pose proof (filter_length_le (λ e, oen_State e ≠ ObligationDeferred ∧ oen_Core e = true)
    (λ e, oen_State e ≠ ObligationDeferred) (led_Entries l) ltac:(naive_solver)) as H3.
  pose proof (filter_length_le (λ e, oen_State e = ObligationWitnessed ∧ oen_Core e = true)
    (λ e, oen_State e = ObligationWitnessed) (led_Entries l) ltac:(naive_solver)) as H4.
  rewrite !andb_true_iff, !Z.leb_le. split_and!; lia.
Qed.

(** C12: every ledger that folds is in order: its entries sorted by id, at most 256, all of its prefix and each in order (evidence exactly when witnessed, from an event of the chain; by review only with a credited record of the same event whose outcome is that of its verdicts; no scope decision accepted by its proposer; no mirror on the ledger's own ticket); its revision is the number of its events, the last of which is its head; and its counts, which the reference repeats, are valid. *)
Theorem FoldObligationChain_ledger sha256 read id ref l :
  FoldObligationChain sha256 read id ref = Ok l →
  ledger_ok (TicketID_Raw id) l ∧ led_Head l = obl_Head ref ∧ obl_Counts ref = ObligationLedger_Counts (Some l) ∧
  ObligationCounts_valid (obl_Counts ref) = true.
Proof.
  intros (chain & Hc & _ & Hf & Hm)%FoldObligationChain_Ok. destruct (fold_history _ _ _ _ _ Hc _ Hf) as (Hok & _ & [= Hh]).
  apply matches_reference_spec in Hm as (_ & _ & <-). split_and!; [done..|]. apply Counts_valid, (ledger_size _ _ Hok).
Qed.

(** ** At the sample ledger *)

(** A store that holds the first event only. *)
Definition other_read (d : string) : goerror + option string := inr (if d =s Sum sample_hash raw1 then Some raw1 else None).

Lemma FoldObligationChain_integrity_witness : ledger1 = ledger1 ∨ collision sample_hash.
Proof.
  apply (FoldObligationChain_integrity sample_hash sample_read other_read sample_ticket sample_ticket ref1 ref1);
    vm_compute; reflexivity.
Defined.

Lemma sample_history : history sample_hash sample_read sample_ticket (Some (Sum sample_hash raw2))
  [(event1, Sum sample_hash raw1); (event2, Sum sample_hash raw2)].
Proof.
  apply (history_snoc _ _ _ (Sum sample_hash raw2) event2 [(event1, Sum sample_hash raw1)]); [vm_compute; reflexivity|].
  assert (oev_Previous event2 = Some (Sum sample_hash raw1)) as -> by (vm_compute; reflexivity).
  apply (history_snoc _ _ _ (Sum sample_hash raw1) event1 []); [vm_compute; reflexivity|].
  assert (oev_Previous event1 = None) as -> by (vm_compute; reflexivity). constructor.
Qed.

Lemma ObligationLedgerBeforeRequest_spec_witness :
  ∃ b found, ObligationLedgerBeforeRequest sample_hash sample_read sample_ticket ref2 "r2" = Ok (b, found).
Proof.
  destruct (ObligationLedgerBeforeRequest_spec sample_hash sample_read sample_ticket ref2 "r2" ledger2
    [(event1, Sum sample_hash raw1); (event2, Sum sample_hash raw2)]) as (b & found & H & _);
    [vm_compute; reflexivity|exact sample_history|]. exists b, found. exact H.
Defined.

Lemma FoldObligationChain_ledger_witness : ledger_ok (TicketID_Raw sample_ticket) ledger2.
Proof. apply (FoldObligationChain_ledger sample_hash sample_read sample_ticket ref2). vm_compute. reflexivity. Defined.
