(* ===== verification/ValueSpec.v ===== *)
(** * The values records write

    Every value a record is written as has distinct keys in its objects,
    whatever the record: [Object.Set] never adds a key twice.  Two records
    written alike agree field by field. *)

From S2P Require Import Prelude Utf8 GoStd Codes Limits Value Canonical Primitives Ids.
From S2P Require Import SetsSpec PrimitivesSpec IdsSpec Parse ParseDoc.
From S2P Require Import Reader ReaderSpec Result ResultSpec Ticket Updates Inventory Marks MarksSpec.
From S2P Require Import KnowHow KnowHowSpec RecordParts Escalations RecordCodec PartsSpec RecordSpec RecordValid.
Local Open Scope Z_scope.
Local Open Scope go_scope.

Create HintDb distinct.

Lemma Set_elem o k v x : x ∈ Set_ o k v → x = (k, v) ∨ x ∈ o.
Proof.
  induction o as [|[k' w] o IH]; cbn [Set_]; [rewrite list_elem_of_singleton; auto|].
  destruct (k =s k') eqn:Hk; rewrite !elem_of_cons; [|naive_solver].
  apply String.eqb_eq in Hk as ->. tauto.
Qed.

Lemma Keys_Set o k v : Keys (Set_ o k v) = if bool_decide (k ∈ Keys o) then Keys o else Keys o ++ [k].
Proof.
  induction o as [|[k' w] o IH]; cbn [Set_ Keys fmap list_fmap]; [done|]. unfold Keys in *. cbn [fst].
  destruct (k =s k') eqn:Hk; cbn [fmap list_fmap fst].
  - apply String.eqb_eq in Hk as ->. rewrite bool_decide_true by set_solver. done.
  - apply String.eqb_neq in Hk. rewrite IH. case_bool_decide as H.
    + rewrite bool_decide_true by set_solver. done.
    + rewrite bool_decide_false by set_solver. done.
Qed.

Lemma distinct_new : distinct (VObject NewObject).
Proof. constructor; constructor. Qed.

Lemma distinct_Set o k v : distinct (VObject o) → distinct v → distinct (VObject (Set_ o k v)).
Proof.
  intros Ho Hv. inversion Ho as [| | | |? Hk Hf]; subst. constructor.
  - rewrite Keys_Set. case_bool_decide; [done|]. apply NoDup_app. split_and!; [done| |apply NoDup_singleton].
    intros x ? ?%list_elem_of_singleton. by subst.
  - rewrite Forall_forall in *. intros x [->|?]%Set_elem; auto.
Qed.

Lemma distinct_set_opt o k v : distinct (VObject o) → (∀ w, v = Some w → distinct w) → distinct (VObject (set_opt o k v)).
Proof. intros Ho Hv. destruct v; [|done]. apply distinct_Set; auto. Qed.

Lemma distinct_foldl {A} (f : Object → A → Object) l : ∀ o,
  (∀ o a, distinct (VObject o) → distinct (VObject (f o a))) → distinct (VObject o) → distinct (VObject (foldl f o l)).
Proof. induction l; cbn; auto. Qed.

Lemma distinct_when b v w : distinct v → when b v = Some w → distinct w.
Proof. destruct b; [|done]. by intros ? [= <-]. Qed.

Lemma distinct_fmap {A} (f : A → Value) x w : (∀ a, distinct (f a)) → f <$> x = Some w → distinct w.
Proof. destruct x; [|done]. by intros ? [= <-]. Qed.

Lemma distinct_list {A} (f : A → Value) l : (∀ a, distinct (f a)) → distinct (VArray (f <$> l)).
Proof. intros H. constructor. apply Forall_fmap, Forall_forall. intros a _. apply H. Qed.

Lemma distinct_strings l : distinct (Strings l).
Proof. apply distinct_list. constructor. Qed.

Lemma distinct_StringOrNull x : distinct (StringOrNull x).
Proof. destruct x; constructor. Qed.

Lemma distinct_ticketOrNull x : distinct (ticketOrNull x).
Proof. destruct x; constructor. Qed.

Lemma distinct_sorted w vs : Forall distinct vs → distinct (sorted_or_null (SortedSet w vs)).
Proof.
  intros H. unfold SortedSet. destruct (first_dup _ _); [constructor|]. constructor.
  apply Forall_fmap. set (l := (λ v, (Encode v, v)) <$> vs).
  assert (isort keyed_le l ≡ₚ l) as -> by apply isort_perm. subst l. by apply Forall_fmap.
Qed.

#[export] Hint Resolve distinct_new distinct_Set distinct_strings distinct_StringOrNull distinct_ticketOrNull : distinct.
#[export] Hint Constructors distinct : distinct.

(** Take the builder of an object apart. *)
Ltac distinct_tac :=
  repeat first [assumption|apply distinct_Set|apply distinct_set_opt; [|intros ? ?]|apply distinct_new|apply distinct_strings
    |apply distinct_StringOrNull|apply distinct_ticketOrNull|apply distinct_string|apply distinct_bool|apply distinct_null
    |case_match].

Lemma distinct_note kvs : Forall (λ kv, distinct kv.2) kvs → distinct (noteObject kvs).
Proof.
  unfold noteObject. intros H. generalize distinct_new. generalize NewObject. induction H as [|[k v] kvs Hv _ IH]; intros o Ho; [done|].
  cbn. apply IH. by apply distinct_Set.
Qed.

Lemma distinct_dependency d : distinct (dependency_value d).
Proof. unfold dependency_value. distinct_tac. Qed.

Lemma distinct_resource r : distinct (resource_value r).
Proof. unfold resource_value. distinct_tac. Qed.

Lemma distinct_effects e : distinct (effects_value e).
Proof. unfold effects_value, SetVerdictPaths. distinct_tac; by apply distinct_list, distinct_resource. Qed.

Lemma distinct_condition c : distinct (HoldCondition_Value c).
Proof. unfold HoldCondition_Value. distinct_tac. Qed.

Lemma distinct_hold h : distinct (hold_value h).
Proof. unfold hold_value. distinct_tac. apply distinct_condition. Qed.

Lemma distinct_approval a : distinct (approval_value a).
Proof. unfold approval_value. distinct_tac. Qed.

Lemma distinct_source s : distinct (source_value s).
Proof. unfold source_value, digestOrNull. distinct_tac. Qed.

Lemma distinct_completion c : distinct (completion_value c).
Proof. unfold completion_value, digestOrNull. distinct_tac. Qed.

Lemma distinct_progress p : distinct (ProgressEntryValue p).
Proof. unfold ProgressEntryValue, ProgressMarkValue. distinct_tac. Qed.

Lemma distinct_evidence a : distinct (attached_evidence_value a).
Proof. unfold attached_evidence_value, DigestsValue. distinct_tac. Qed.

Lemma distinct_anchor a : distinct (anchor_value a).
Proof. unfold anchor_value. distinct_tac. Qed.

Lemma distinct_know_how k : distinct (know_how_entry_value k).
Proof. unfold know_how_entry_value, KnowHowAnchorsValue. distinct_tac; apply distinct_list, distinct_anchor. Qed.

Lemma distinct_prerequisite p : distinct (prerequisite_value p).
Proof. unfold prerequisite_value. distinct_tac. apply distinct_sorted, Forall_fmap, Forall_forall. constructor. Qed.

Lemma distinct_obligations o : distinct (ObligationsReference_Value o).
Proof.
  unfold ObligationsReference_Value, ObligationCounts_Value, obligation_raise_value, countValue.
  repeat first [apply distinct_note|apply Forall_cons; split|apply Forall_nil_2|apply distinct_string|case_match|apply distinct_null].
Qed.

Lemma distinct_operator_note n : distinct (OperatorNoteReference_Value n).
Proof.
  unfold OperatorNoteReference_Value.
  repeat first [apply distinct_note|apply Forall_cons; split|apply Forall_nil_2|apply distinct_string|apply distinct_StringOrNull].
Qed.

Lemma distinct_reviews m : distinct (ExternalReviewsValue m).
Proof.
  unfold ExternalReviewsValue. apply distinct_foldl; [|apply distinct_new]. intros o gate Ho. case_match; [|done].
  apply distinct_Set; [done|]. unfold ExternalReviewRef_Value.
  repeat first [apply distinct_note|apply distinct_Set|apply distinct_new|apply Forall_cons; split|apply Forall_nil_2|apply distinct_string].
Qed.

Lemma distinct_roles m : distinct (StageRolesValue m).
Proof. unfold StageRolesValue. apply distinct_foldl; [|apply distinct_new]. intros o kv Ho. distinct_tac. Qed.

Lemma Record_Value_distinct rec : distinct (Record_Value rec).
Proof.
  unfold Record_Value, PrerequisitesValue, AttachedEvidenceValue, ProgressValue, KnowHowValue, digestOrNull.
  repeat first [apply distinct_Set|apply distinct_set_opt; [|intros ? ?]|apply distinct_new|apply distinct_strings
    |apply distinct_StringOrNull|apply distinct_ticketOrNull|apply distinct_string|apply distinct_bool|apply distinct_null
    |apply distinct_list|apply distinct_dependency|apply distinct_source|apply distinct_effects|apply distinct_hold
    |apply distinct_approval|apply distinct_completion|case_match].
  all: repeat match goal with
    | H : when _ _ = Some _ |- _ => eapply distinct_when in H; [exact H|]; clear H
    | H : _ <$> _ = Some _ |- _ => eapply distinct_fmap in H; [exact H|]; clear H
    end.
  all: intros; eauto using distinct_roles, escalation_value_distinct, distinct_operator_note, distinct_reviews,
    distinct_progress, distinct_evidence, distinct_know_how, distinct_obligations, distinct_list, distinct_string.
  apply distinct_sorted, Forall_fmap, Forall_forall. intros ? _. apply distinct_prerequisite.
Qed.

(** ** The checks of the whole change

    Two records of one value agree field by field; a record that [clone]
    accepts is valid; what [finalize] lets through is chained to the record
    before it. *)

From S2P Require Import ParsePrint Intent Mutation Outcomes Screen Writer Apply WriterSpec.

(** ** Records of one value *)

Definition same_value (a b : Record_) : Prop := canon (Record_Value a) = canon (Record_Value b).

Lemma Record_Value_object r : ∃ o, Record_Value r = VObject o ∧ NoDup (Keys o).
Proof. pose proof (Record_Value_distinct r) as H. rewrite Record_Value_members in *. eexists. split; [done|]. by apply distinct_keys. Qed.

Lemma member_distinct r k : distinct (member (Record_Value r) k).
Proof.
  pose proof (Record_Value_distinct r) as H. destruct (Record_Value_object r) as (o & Ho & _). rewrite Ho in *. cbn.
  destruct (Get o k) eqn:Hg; cbn; [by eapply distinct_member|constructor].
Qed.

Lemma Equal_canon v w : distinct v → distinct w → Equal v w = true ↔ canon v = canon w.
Proof. intros Hv Hw. unfold Equal. rewrite String.eqb_eq, !Encode_enc. by apply enc_inj. Qed.

Lemma fieldChanged_false a b k :
  fieldChanged a b k = false ↔ canon (member (Record_Value a) k) = canon (member (Record_Value b) k).
Proof. unfold fieldChanged. rewrite negb_false_iff. apply Equal_canon; apply member_distinct. Qed.

Lemma same_member a b k : same_value a b → canon (member (Record_Value a) k) = canon (member (Record_Value b) k).
Proof.
  unfold same_value. destruct (Record_Value_object a) as (o & -> & Ho), (Record_Value_object b) as (o' & -> & Ho').
  intros H. rewrite canon_object in H by done. specialize (H k). cbn [member].
  destruct (Get o k), (Get o' k); cbn in *; congruence.
Qed.

Lemma record_member r k v : (k, v) ∈ record_fields r → member (Record_Value r) k = default VNull v.
Proof.
  intros H. rewrite Record_Value_members. cbn [member]. by rewrite (Get_members _ _ _ (record_keys r) H).
Qed.

(** Find a member among the fields of a record. *)
Ltac in_fields := unfold record_fields; repeat first [apply list_elem_of_here|apply list_elem_of_further].

Section members.
Context (r : Record_).

Lemma member_ticketId : member (Record_Value r) "ticketId" = VString (TicketID_Raw (rec_TicketID r)).
Proof. exact (record_member r "ticketId" (Some _) ltac:(in_fields)). Qed.
Lemma member_revision : member (Record_Value r) "revision" = VString (rec_Revision r).
Proof. exact (record_member r "revision" (Some _) ltac:(in_fields)). Qed.
Lemma member_acceptance : member (Record_Value r) "acceptanceRevision" = VString (rec_AcceptanceRevision r).
Proof. exact (record_member r "acceptanceRevision" (Some _) ltac:(in_fields)). Qed.
Lemma member_status : member (Record_Value r) "status" = VString (rec_Status r).
Proof. exact (record_member r "status" (Some _) ltac:(in_fields)). Qed.
Lemma member_archivedFrom : member (Record_Value r) "archivedFrom" = StringOrNull (rec_ArchivedFrom r).
Proof. exact (record_member r "archivedFrom" (Some _) ltac:(in_fields)). Qed.
Lemma member_kind : member (Record_Value r) "kind" = VString (rec_Kind r).
Proof. exact (record_member r "kind" (Some _) ltac:(in_fields)). Qed.
Lemma member_createdAt : member (Record_Value r) "createdAt" = VString (rec_CreatedAt r).
Proof. exact (record_member r "createdAt" (Some _) ltac:(in_fields)). Qed.
Lemma member_previous : member (Record_Value r) "previousRecordSha256" = StringOrNull (rec_PreviousRecordSha256 r).
Proof. exact (record_member r "previousRecordSha256" (Some _) ltac:(in_fields)). Qed.
Lemma member_updatedAt : member (Record_Value r) "updatedAt" = VString (rec_UpdatedAt r).
Proof. exact (record_member r "updatedAt" (Some _) ltac:(in_fields)). Qed.
Lemma member_updatedBy : member (Record_Value r) "updatedBy" = VString (rec_UpdatedBy r).
Proof. exact (record_member r "updatedBy" (Some _) ltac:(in_fields)). Qed.
Lemma member_dependencies : member (Record_Value r) "dependencies" = VArray (dependency_value <$> rec_Dependencies r).
Proof. exact (record_member r "dependencies" (Some _) ltac:(in_fields)). Qed.
End members.

Section same.
Context (a b : Record_) (H : same_value a b).

Lemma same_text k s t :
  member (Record_Value a) k = VString s → member (Record_Value b) k = VString t → s = t.
Proof. intros Ha Hb. pose proof (same_member _ _ k H) as E. rewrite Ha, Hb in E. by injection E. Qed.

Lemma same_optional k s t :
  member (Record_Value a) k = StringOrNull s → member (Record_Value b) k = StringOrNull t → s = t.
Proof.
  intros Ha Hb. pose proof (same_member _ _ k H) as E. rewrite Ha, Hb, !canon_StringOrNull in E. by apply StringOrNull_inj.
Qed.

Lemma same_ticketId : TicketID_Raw (rec_TicketID a) = TicketID_Raw (rec_TicketID b).
Proof. eapply same_text; apply member_ticketId. Qed.
Lemma same_revision : rec_Revision a = rec_Revision b.
Proof. eapply same_text; apply member_revision. Qed.
Lemma same_acceptance : rec_AcceptanceRevision a = rec_AcceptanceRevision b.
Proof. eapply same_text; apply member_acceptance. Qed.
Lemma same_status : rec_Status a = rec_Status b.
Proof. eapply same_text; apply member_status. Qed.
Lemma same_archivedFrom : rec_ArchivedFrom a = rec_ArchivedFrom b.
Proof. eapply same_optional; apply member_archivedFrom. Qed.
Lemma same_previous : rec_PreviousRecordSha256 a = rec_PreviousRecordSha256 b.
Proof. eapply same_optional; apply member_previous. Qed.
Lemma same_createdAt : rec_CreatedAt a = rec_CreatedAt b.
Proof. eapply same_text; apply member_createdAt. Qed.
End same.

Lemma dependency_target v d : canon v = canon (dependency_value d) → distinct v → canon (member v "ticketId") = VString (raw d).
Proof.
  intros Hc Hd. pose proof (distinct_dependency d) as Hd'. unfold dependency_value in *.
  destruct v as [| | | |o]; try discriminate Hc. apply distinct_keys in Hd, Hd'.
  rewrite canon_object in Hc by done. specialize (Hc "ticketId"). cbn in Hc. cbn [member].
  destruct (Get o "ticketId"); cbn in *; congruence.
Qed.

Lemma cons_parts {A} (x y : A) l l' : x :: l = y :: l' → x = y ∧ l = l'.
Proof. by intros [= -> ->]. Qed.

Lemma dependencies_inj ds ds' :
  canon (VArray (dependency_value <$> ds)) = canon (VArray (dependency_value <$> ds')) → (λ d, raw d) <$> ds = (λ d, raw d) <$> ds'.
Proof.
  intros [= H]. revert ds' H. induction ds as [|d ds IH]; intros [|d' ds']; cbn [fmap list_fmap]; try done.
  intros [Hd Hds]%cons_parts. f_equal; [|by apply IH].
  assert (canon (member (dependency_value d) "ticketId") = VString (raw d')) as E
    by (by apply dependency_target; [|apply distinct_dependency]).
  by injection E.
Qed.

Lemma same_dependencies a b :
  fieldChanged a b "dependencies" = false → (λ d, raw d) <$> rec_Dependencies a = (λ d, raw d) <$> rec_Dependencies b.
Proof. rewrite fieldChanged_false, !member_dependencies. apply dependencies_inj. Qed.

(** ** Clones *)

Lemma clone_Ok ord rec work : clone ord rec = Ok work → same_value rec work ∧ valid work ∧ decoded work.
Proof.
  unfold clone. intros (Hc & Hv & Hd)%FromValue_ok; [|apply Record_Value_distinct]. split_and!; [done|by apply (validate_None ord)|done].
Qed.

Lemma revalidate_Ok ord work u :
  revalidate ord work = Ok u → ∃ post, clone ord work = Ok post ∧ slen (Record_Encode work) ≤ MaxTicketFileBytes.
Proof.
  unfold revalidate. intros H. apply obind_Ok in H as (post & Hp & H). apply or_refuse_Ok in Hp. exists post.
  destruct (Z.ltb_spec MaxTicketFileBytes (slen (Record_Encode work))); [done|]. by split.
Qed.

(** A record the writer may write: [Decode] accepts its file. *)
Definition writable (ord : bool) (rec : Record_) : Prop :=
  ∃ r, clone ord rec = Ok r ∧ slen (Record_Encode rec) ≤ MaxTicketFileBytes.

Lemma writable_revisions ord rec :
  writable ord rec → 1 ≤ Count_Int (rec_AcceptanceRevision rec) ≤ Count_Int (rec_Revision rec).
Proof. intros (r & (Hs & Hv & _)%clone_Ok & _). rewrite (same_revision _ _ Hs), (same_acceptance _ _ Hs). by apply valid_revisions. Qed.

(** The successor of an int64 whose decimal form is a positive Count. *)
Lemma succ_count n : int64_succ n ≤ MaxCountValue → 1 ≤ Count_Int (CountOf (int64_succ n)) →
  int64_succ n = n + 1 ∧ Count_Int (CountOf (int64_succ n)) = n + 1.
Proof.
  unfold int64_succ. destruct (Z.eqb_spec n (2 ^ 63 - 1)) as [->|_].
  - intros _. change (CountOf (- 2 ^ 63)) with "0". vm_compute. done.
  - intros Hm H1. split; [done|]. destruct (Z.ltb_spec (n + 1) 0) as [Hn|Hn].
    + assert (CountOf (n + 1) = "0") as E; [|by rewrite E in H1; vm_compute in H1].
      unfold CountOf. destruct (Z.ltb_spec (n + 1) 0); [done|lia].
    + apply Count_Int_CountOf. lia.
Qed.

(** ** Finalize *)

Section finalize.
Context (sha256 : string → string) (ord : bool) (ctx : MutationContext) (policy : Policy) (inv : Inventory).

(** [work] with the chain fields of a write after [pre]. *)
Definition chained (pre work : Record_) (bump : bool) : Record_ :=
  work <| rec_Revision := CountOf (int64_succ (Count_Int (rec_Revision pre))) |>
    <| rec_AcceptanceRevision :=
         if bump then CountOf (int64_succ (Count_Int (rec_AcceptanceRevision pre))) else rec_AcceptanceRevision pre |>
    <| rec_PreviousRecordSha256 := Some (FileDigest sha256 pre) |>
    <| rec_UpdatedAt := ctx_Now ctx |> <| rec_UpdatedBy := b_ID (ctx_Binding ctx) |>.

Record finalized_ (pre work : Record_) (forced : bool) (post : Record_) : Prop := {
  fin_completed : rec_Status pre = StatusCompleted → acceptanceChanged pre work = false;
  fin_checked : checkRecord policy inv (Some pre) work = Ok tt;
  fin_attempt : forced || acceptanceChanged pre work = true → check_attempt ctx work = Ok tt;
  fin_chained : post = chained pre work (forced || acceptanceChanged pre work);
  fin_revision : int64_succ (Count_Int (rec_Revision pre)) ≤ MaxCountValue;
  fin_acceptance : forced || acceptanceChanged pre work = true → int64_succ (Count_Int (rec_AcceptanceRevision pre)) ≤ MaxCountValue;
  fin_writable : writable ord post
}.

Lemma finalize_Ok pre work forced post :
  finalize sha256 ord ctx policy inv pre work forced = Ok post → finalized_ pre work forced post.
Proof.
  unfold finalize. intros H.
  destruct ((rec_Status pre =s StatusCompleted) && acceptanceChanged pre work) eqn:Hcc; [done|].
  apply obind_Ok in H as ([] & Hcheck & H). apply obind_Ok in H as ([] & Hatt & H).
  destruct (Z.ltb_spec MaxCountValue (int64_succ (Count_Int (rec_Revision pre)))); [done|].
  destruct (_ && _) eqn:Hacc in H; [done|]. apply obind_Ok in H as ([] & Hre & [= <-]).
  split; try done.
  - intros Hc. rewrite Hc in Hcc. by destruct (acceptanceChanged pre work).
  - intros Hb. by rewrite Hb in Hatt.
  - intros Hb. rewrite Hb in Hacc. by apply Z.ltb_ge in Hacc.
  - by apply revalidate_Ok in Hre.
Qed.
End finalize.
