(* ===== verification/StepSpec.v ===== *)
(** * What one operation does to a record

    [transition] states each operation of the ticket writer on its own: when
    it applies and what it changes.  [step] applies exactly the transitions
    its checks of authority let through; the status machine is a consequence. *)

From S2P Require Import Prelude View Utf8 GoStd Codes Limits Value Primitives Ids Parse Reader Ticket Inventory Collision Marks.
From S2P Require Import KnowHow RecordParts RecordCodec Obligations ObligationEvents ObligationLedger Intent Updates.
From S2P Require Import Mutation Outcomes Screen Writer Apply WriterSpec.
Local Open Scope Z_scope.
Local Open Scope go_scope.

Definition live_status (s : string) : Prop := s = StatusDraft ∨ s = StatusOpen ∨ s = StatusHeld.

Definition native (work : Record_) : Prop := src_Kind (rec_Source work) = "NATIVE".

(** The last element with an id is the one an operation names. *)
Definition last_with {A} (key : A → string) (id : string) (l : list A) (i : nat) (a : A) : Prop :=
  l !! i = Some a ∧ key a = id ∧ ∀ j b, (i < j)%nat → l !! j = Some b → key b ≠ id.

(** ** Guards *)

Lemma guard_refuse {A} (b : bool) outcome code format args (x : W A) w :
  (if b then refuse outcome code format args else x) = Ok w ↔ b = false ∧ x = Ok w.
Proof. destruct b; (split; [|intros []; done]); [done|by split]. Qed.

Lemma guard_status {A} (b : bool) format work (x : W A) w :
  (if b then wrong_status format work else x) = Ok w ↔ b = false ∧ x = Ok w.
Proof. apply guard_refuse. Qed.

Lemma Ok_eq {A} (a b : A) : @eq (W A) (Ok a) (Ok b) ↔ b = a.
Proof. split; [by intros [= ->]|by intros ->]. Qed.

Lemma isLive_iff s : isLive s = true ↔ live_status s.
Proof. unfold isLive, live_status. rewrite !orb_true_iff, !String.eqb_eq. tauto. Qed.

Lemma negb_isLive s : negb (isLive s) = false ↔ live_status s.
Proof. by rewrite negb_false_iff, isLive_iff. Qed.

Lemma negb_eqb s t : negb (s =s t) = false ↔ s = t.
Proof. by rewrite negb_false_iff, String.eqb_eq. Qed.

Lemma fresh_key {A} (key : A → string) id l : existsb (λ h, key h =s id) l = false ↔ id ∉ key <$> l.
Proof.
  induction l as [|a l IH]; cbn; [by split; [intros _ ?%not_elem_of_nil|]|].
  rewrite orb_false_iff, IH, String.eqb_neq, not_elem_of_cons. naive_solver.
Qed.

Lemma last_index_acc {A} (f : A → bool) l : ∀ i found,
  last_index f i l found = match last_index f i l None with Some j => Some j | None => found end.
Proof. induction l as [|a l IH]; intros i found; cbn; [done|]. rewrite IH. destruct (f a); [rewrite (IH _ (Some i))|]; by destruct (last_index f (S i) l None). Qed.

Lemma last_index_spec {A} (f : A → bool) l : ∀ k,
  match last_index f k l None with
  | Some i => ∃ j a, i = (k + j)%nat ∧ l !! j = Some a ∧ f a = true ∧ ∀ j' b, (j < j')%nat → l !! j' = Some b → f b = false
  | None => ∀ j b, l !! j = Some b → f b = false
  end.
Proof.
  induction l as [|a l IH]; intros k; cbn [last_index]; [done|]. rewrite last_index_acc. specialize (IH (S k)).
  destruct (last_index f (S k) l None) as [i|].
  - destruct IH as (j & b & -> & Hj & Hf & Hl). exists (S j), b. split_and!; [lia|done|done|].
    intros [|j'] c ?; [lia|]. apply Hl. lia.
  - destruct (f a) eqn:Hf; [|intros [|j] b; cbn; [by intros [= <-]|apply IH]].
    exists 0%nat, a. split_and!; [lia|done|done|]. intros [|j'] b ?; [lia|]. apply IH.
Qed.

Lemma last_with_unique {A} (key : A → string) id l i a j b : last_with key id l i a → last_with key id l j b → i = j ∧ a = b.
Proof.
  intros (Hi & Ha & Hl) (Hj & Hb & Hl'). destruct (Nat.lt_trichotomy i j) as [?|[->|?]]; [by edestruct Hl|by simplify_eq|by edestruct Hl'].
Qed.

Lemma last_index_last {A} (key : A → string) id l i :
  last_index (λ h, key h =s id) 0 l None = Some i ↔ ∃ a, last_with key id l i a.
Proof.
  pose proof (last_index_spec (λ h, key h =s id) l 0) as H. split.
  - intros E. rewrite E in H. destruct H as (j & a & -> & Hj & Ha & Hl). exists a. split_and!; [done|by apply String.eqb_eq|].
    intros ? ? ? ?%Hl; [|done]. by apply String.eqb_neq.
  - intros (a & Hi & Ha & Hl). destruct (last_index _ _ _ _) as [i'|].
    + destruct H as (j & b & -> & Hj & Hb & Hl'). apply String.eqb_eq in Hb. f_equal. cbn.
      edestruct (last_with_unique key id l i a j b) as [-> _]; [by split_and!|split_and!; [done..|]|done].
      intros ? ? ? ?%Hl'; [|done]. by apply String.eqb_neq.
    + apply H in Hi. apply String.eqb_neq in Hi. by destruct Hi.
Qed.

Lemma last_index_found {A} (key : A → string) id l i a :
  last_with key id l i a → last_index (λ h, key h =s id) 0 l None = Some i.
Proof. intros. apply last_index_last. by exists a. Qed.

Lemma none_left {A} (f : A → bool) l : filter (λ a, f a = true) l = [] ↔ Forall (λ a, f a = false) l.
Proof.
  induction l as [|a l IH]; [by split|]. rewrite filter_cons, Forall_cons, <-IH.
  destruct (f a) eqn:Hf; [rewrite decide_True by done|rewrite decide_False by congruence]; naive_solver.
Qed.

Lemma W_bind {A} (m : W unit) (k : W A) w : (m ;;; k) = Ok w ↔ m = Ok tt ∧ k = Ok w.
Proof. split; [by intros ([] & ? & ?)%obind_Ok|intros [? ?]; apply obind_Ok; by exists tt]. Qed.

Section step.
Context (secret : string → bool) (ctx : MutationContext) (policy : Policy).

Let actor : string := b_ID (ctx_Binding ctx).
Let role_ : string := b_Role (ctx_Binding ctx).

Definition manual_completion (reason : string) (evidence : list string) : Completion :=
  {| cmp_Kind := "MANUAL"; cmp_Actor := actor; cmp_Reason := Some reason; cmp_Evidence := evidence; cmp_ManifestSha256 := None;
     cmp_RecordedAt := ctx_Now ctx |}.

Definition granted (p : GrantApprovalPayload) : Approval :=
  {| apr_GrantID := ga_GrantID p; apr_Actor := actor; apr_Operation := ga_Operation p; apr_TargetRevision := ga_TargetRevision p;
     apr_Scope := ga_Scope p; apr_Revoked := false; apr_GrantedAt := ctx_Now ctx |}.

Definition placed (id reason : string) (c : option HoldCondition) : Hold :=
  {| hold_HoldID := id; hold_Actor := actor; hold_Reason := reason; hold_PlacedAt := ctx_Now ctx; hold_Condition := c |}.

(** The audited end of every attempt, that lets an OPEN ticket be reopened. *)
Definition exhausted (work : Record_) : Prop :=
  ∃ r, ctx_RetryRecovery ctx = Some r ∧ rr_State r = Satisfied ∧ rr_TicketID r = TicketID_Raw (rec_TicketID work) ∧
    rr_AcceptanceRevision r = rec_AcceptanceRevision work ∧ (rr_Phase r = "FAILED" ∨ rr_Phase r = "CANCELLED").

(** An entry the know-how operation [p] may append. *)
Definition noted (work : Record_) (p : Payload) (e : KnowHowEntry) : Prop :=
  let active := KnowHowActiveSeqs (rec_KnowHow work) in
  match p with
  | PKnowHowAdd k => know_how_add secret ctx work active k = Ok e
  | PKnowHowRetract note reason => know_how_retract secret ctx work active note reason = Ok e
  | PKnowHowReconfirm note anchors commit attempt generation =>
      know_how_reconfirm secret ctx work active note anchors commit attempt generation = Ok e
  | _ => False
  end.

Inductive transition (work : Record_) : Payload → Record_ → Prop :=
  | tr_refine p :
      (Refine_Has p "milestone" = true → rp_Milestone p = None → MilestoneRequired policy = false) →
      transition work (PRefine p) (refine work p)
  | tr_prioritize priority order :
      transition work (PPrioritize priority order) (work <| rec_Priority := priority |> <| rec_Order := order |>)
  | tr_dependencies ds :
      live_status (rec_Status work) → transition work (PSetDependencies ds) (work <| rec_Dependencies := ds |>)
  | tr_gates gs : live_status (rec_Status work) → transition work (PSetGates gs) (work <| rec_RequiredGates := gs |>)
  | tr_effects e cs class :
      live_status (rec_Status work) →
      transition work (PSetEffects e cs class)
        (work <| rec_Effects := e |> <| rec_Capabilities := cs |> <| rec_ExecutionClass := class |>)
  | tr_hold id reason c :
      rec_Status work = StatusOpen ∨ rec_Status work = StatusHeld → id ∉ hold_HoldID <$> rec_Holds work →
      Z.of_nat (length (rec_Holds work)) < MaxHolds →
      transition work (PHold id reason c)
        (work <| rec_Holds := rec_Holds work ++ [placed id reason c] |> <| rec_Status := StatusHeld |>)
  | tr_release id i h :
      rec_Status work = StatusHeld → last_with hold_HoldID id (rec_Holds work) i h →
      transition work (PReleaseHold id)
        (let w := work <| rec_Holds := take i (rec_Holds work) ++ drop (S i) (rec_Holds work) |> in
         match rec_Holds w with [] => w <| rec_Status := StatusOpen |> | _ => w end)
  | tr_reopen reason :
      rec_Status work = StatusCompleted ∨
        (rec_Status work = StatusOpen ∧ role_ = "OWNER" ∧ blank reason = false ∧ exhausted work) →
      transition work (PReason OpReopen reason) (work <| rec_Completion := None |> <| rec_Status := StatusOpen |>)
  | tr_archive reason :
      transition work (PReason OpArchive reason)
        (work <| rec_ArchivedFrom := Some (rec_Status work) |> <| rec_Status := StatusArchived |>)
  | tr_restore reason from :
      rec_Status work = StatusArchived → rec_ArchivedFrom work = Some from →
      transition work (PReason OpRestore reason) (work <| rec_Status := from |> <| rec_ArchivedFrom := None |>)
  | tr_complete reason evidence :
      rec_Status work = StatusOpen →
      transition work (PCompleteManual reason evidence)
        (work <| rec_Completion := Some (manual_completion reason evidence) |> <| rec_Status := StatusCompleted |>)
  | tr_attach evidence reason :
      rec_Status work = StatusOpen → native work →
      Forall (λ d, AttachedAt (rec_AttachedEvidence work) (rec_AcceptanceRevision work) d = false) evidence →
      Z.of_nat (length (rec_AttachedEvidence work)) < AttachedEvidenceMaxEntries →
      transition work (PAttachEvidence evidence reason)
        (work <| rec_AttachedEvidence := rec_AttachedEvidence work ++
           [{| att_AcceptanceRevision := rec_AcceptanceRevision work; att_Actor := actor; att_Evidence := evidence;
               att_Reason := reason; att_RecordedAt := ctx_Now ctx |}] |>)
  | tr_progress mark :
      live_status (rec_Status work) → native work →
      (∀ p, last (rec_Progress work) = Some p → ProgressMark_Equal (prg_Mark p) mark = false) →
      Z.of_nat (length (rec_Progress work)) < ProgressMaxEntries →
      transition work (PProgressSet mark)
        (work <| rec_Progress := rec_Progress work ++ [{| prg_Mark := mark; prg_Actor := actor; prg_RecordedAt := ctx_Now ctx |}] |>)
  | tr_know_how p e :
      live_status (rec_Status work) → native work → Z.of_nat (length (rec_KnowHow work)) < KnowHowMaxEntries →
      noted work p e → transition work p (work <| rec_KnowHow := rec_KnowHow work ++ [e] |>)
  | tr_grant p :
      ga_Actor p = actor → ga_TargetRevision p = rec_AcceptanceRevision work → ga_GrantID p ∉ apr_GrantID <$> rec_Approvals work →
      Z.of_nat (length (rec_Approvals work)) < MaxApprovals →
      transition work (PGrantApproval p) (work <| rec_Approvals := rec_Approvals work ++ [granted p] |>)
  | tr_revoke id reason i a :
      last_with apr_GrantID id (rec_Approvals work) i a → apr_Revoked a = false →
      transition work (PRevokeApproval id reason) (work <| rec_Approvals := <[i := revoke a]> (rec_Approvals work) |>).

(** ** Each operation is its transition *)

Lemma recovered_iff work : recovered ctx work = true ↔ exhausted work.
Proof.
  unfold recovered, exhausted. destruct (ctx_RetryRecovery ctx) as [r|].
  - rewrite !andb_true_iff, orb_true_iff, !String.eqb_eq. naive_solver.
  - naive_solver.
Qed.

Ltac guards := rewrite ?guard_status, ?guard_refuse, ?negb_isLive, ?negb_eqb, ?fresh_key, ?Z.leb_gt, ?Ok_eq.

(** The cases of a transition of a given payload. *)
Ltac tr_cases H := inversion H; subst; try (match goal with Hn : noted _ _ _ |- _ => by destruct Hn end).

Lemma open_or_held s : negb (s =s StatusOpen) && negb (s =s StatusHeld) = false ↔ s = StatusOpen ∨ s = StatusHeld.
Proof. by rewrite andb_false_iff, !negb_eqb. Qed.

Lemma refine_iff work p w : step_refine policy work p = Ok w ↔ transition work (PRefine p) w.
Proof.
  unfold step_refine. guards. split.
  - intros [Hm ->]. apply tr_refine. intros Hh Hn. rewrite Hh, Hn in Hm. by destruct (MilestoneRequired policy).
  - intros H. tr_cases H. split; [|done]. destruct (Refine_Has p "milestone"), (rp_Milestone p); cbn; auto.
Qed.

Lemma hold_iff work id reason c w : step_hold ctx work id reason c = Ok w ↔ transition work (PHold id reason c) w.
Proof.
  unfold step_hold. guards. rewrite open_or_held. split; [intros (? & ? & ? & ->); by apply tr_hold|]. intros H. by tr_cases H.
Qed.

Lemma no_length {A B} (l : list A) (x y : B) : (if (length l =? 0)%nat then x else y) = match l with [] => x | _ => y end.
Proof. by destruct l. Qed.

Lemma release_iff work id w : step_release work id = Ok w ↔ transition work (PReleaseHold id) w.
Proof.
  unfold step_release. guards. cbv zeta. split.
  - intros [Hs H]. destruct (last_index _ _ _ _) as [i|] eqn:Hi; [|done]. apply last_index_last in Hi as [h Hi].
    rewrite no_length in H. injection H as <-. by eapply tr_release.
  - intros H. tr_cases H. split; [done|].
    match goal with Hl : last_with _ _ _ _ _ |- _ => apply last_index_found in Hl as -> end. by rewrite no_length.
Qed.

Lemma reopen_iff work reason w : step_reopen ctx work reason = Ok w ↔ transition work (PReason OpReopen reason) w.
Proof.
  unfold step_reopen. rewrite W_bind. split.
  - intros [Hg [= <-]]. apply tr_reopen. destruct (rec_Status work =s StatusOpen) eqn:Ho.
    + right. apply String.eqb_eq in Ho. rewrite !guard_refuse in Hg. destruct Hg as (Hr & Hb & Hrec & _).
      rewrite negb_eqb in Hr. split_and!; [done..|]. apply recovered_iff. by apply negb_false_iff.
    + left. rewrite guard_status, negb_eqb in Hg. by destruct Hg.
  - intros H. tr_cases H. split; [|done]. match goal with Hs : _ ∨ _ |- _ => destruct Hs as [->|(-> & Hr & Hb & He)] end; [done|].
    apply recovered_iff in He. unfold role_ in Hr. by rewrite Hr, Hb, He.
Qed.

Lemma reason_iff work op reason w :
  step_reason ctx work op reason = Ok w ↔ transition work (PReason op reason) w.
Proof.
  unfold step_reason. destruct (op =s OpReopen) eqn:H1; [apply String.eqb_eq in H1 as ->; apply reopen_iff|].
  destruct (op =s OpArchive) eqn:H2; [apply String.eqb_eq in H2 as ->|destruct (op =s OpRestore) eqn:H3; [apply String.eqb_eq in H3 as ->|]].
  - rewrite Ok_eq. split; [intros ->; apply tr_archive|]. intros H. by tr_cases H.
  - split.
    + destruct (rec_ArchivedFrom work) as [from|] eqn:Hf; [|done]. destruct (rec_Status work =s StatusArchived) eqn:Hs; [|done].
      apply String.eqb_eq in Hs. intros [= <-]. by apply tr_restore.
    + intros H. tr_cases H. match goal with Hs : rec_Status work = _, Hf : rec_ArchivedFrom work = _ |- _ => by rewrite Hs, Hf end.
  - split; [done|]. intros H. tr_cases H; discriminate.
Qed.

Lemma complete_iff work reason evidence w :
  step_complete ctx work reason evidence = Ok w ↔ transition work (PCompleteManual reason evidence) w.
Proof. unfold step_complete. guards. split; [intros [? ->]; by apply tr_complete|]. intros H. by tr_cases H. Qed.

Lemma attach_iff work evidence reason w :
  step_attach ctx work evidence reason = Ok w ↔ transition work (PAttachEvidence evidence reason) w.
Proof.
  unfold step_attach. guards. destruct (filter _ evidence) as [|d ds] eqn:Hf.
  - apply none_left in Hf. guards. split; [intros (? & ? & ? & ->); by apply tr_attach|]. intros H. by tr_cases H.
  - split; [by intros (_ & _ & ?)|]. intros H. tr_cases H.
    match goal with Hn : Forall _ evidence |- _ => apply none_left in Hn; by rewrite Hn in Hf end.
Qed.

Lemma progress_iff work mark w : step_progress ctx work mark = Ok w ↔ transition work (PProgressSet mark) w.
Proof.
  unfold step_progress. change (Live (rec_Status work)) with (isLive (rec_Status work)). guards.
  assert ((match last (rec_Progress work) with Some p => ProgressMark_Equal (prg_Mark p) mark | None => false end) = false ↔
    ∀ p, last (rec_Progress work) = Some p → ProgressMark_Equal (prg_Mark p) mark = false) as ->.
  { destruct (last (rec_Progress work)); split; [by intros ? ? [= <-]|auto|done|done]. }
  split; [intros (? & ? & ? & ? & ->); by apply tr_progress|]. intros H. by tr_cases H.
Qed.

Lemma grant_iff work p w : step_grant ctx work p = Ok w ↔ transition work (PGrantApproval p) w.
Proof.
  unfold step_grant. guards. split.
  - intros (Ha & ? & ? & ? & ->). unfold actor in *. rewrite Ha. by apply tr_grant.
  - intros H. tr_cases H. match goal with Ha : ga_Actor p = _ |- _ => by rewrite Ha end.
Qed.

Lemma revoke_iff work id reason w : step_revoke work id = Ok w ↔ transition work (PRevokeApproval id reason) w.
Proof.
  unfold step_revoke. split.
  - destruct (last_index _ _ _ _) as [i|] eqn:Hi; [|done]. apply last_index_last in Hi as [a Hi].
    destruct (Hi) as (Hl & _). rewrite Hl. guards. intros [? ->]. by eapply tr_revoke.
  - intros H. tr_cases H. match goal with Hl : last_with _ _ _ _ _ |- _ => pose proof Hl as (Hx & _); apply last_index_found in Hl as -> end.
    rewrite Hx. by guards.
Qed.

Lemma know_how_iff work p (entry : gset string → W KnowHowEntry) w :
  (∀ e, entry (KnowHowActiveSeqs (rec_KnowHow work)) = Ok e ↔ noted work p e) →
  knowHowStep work (operation p) entry = Ok w ↔
    ∃ e, live_status (rec_Status work) ∧ native work ∧ Z.of_nat (length (rec_KnowHow work)) < KnowHowMaxEntries ∧ noted work p e ∧
      w = work <| rec_KnowHow := rec_KnowHow work ++ [e] |>.
Proof.
  intros He. unfold knowHowStep. guards. split.
  - intros (? & ? & ? & (e & ?%He & [= <-])%obind_Ok). by exists e.
  - intros (e & ? & ? & ? & ?%He & ->). split_and!; [done..|]. apply obind_Ok. by exists e.
Qed.

Lemma know_how_transition work p entry w :
  (∀ e, entry (KnowHowActiveSeqs (rec_KnowHow work)) = Ok e ↔ noted work p e) →
  match p with PKnowHowAdd _ | PKnowHowRetract _ _ | PKnowHowReconfirm _ _ _ _ _ => True | _ => False end →
  knowHowStep work (operation p) entry = Ok w ↔ transition work p w.
Proof.
  intros He Hp. rewrite know_how_iff by done. split; [intros (e & ? & ? & ? & ? & ->); by eapply tr_know_how|].
  intros H. destruct p; try done; tr_cases H; eauto 10.
Qed.

(** The operations that act on a record are those with a transition. *)
Lemma step_operation_iff work p w : step_operation secret ctx policy work p = Ok w ↔ transition work p w.
Proof.
  destruct p; cbn [step_operation].
  all: try (split; [done|intros H; by tr_cases H]).
  all: try (guards; split; [by intros [? ->]; constructor|intros H; by tr_cases H]).
  all: try (match goal with |- _ ↔ transition _ ?p _ => apply (know_how_transition work p) end; by intros).
  all: try (split; [intros [= <-]; constructor|intros H; by tr_cases H]).
  all: auto using refine_iff, hold_iff, release_iff, reason_iff, complete_iff, attach_iff, progress_iff, grant_iff, revoke_iff.
Qed.

(** ** Authority over a record *)

(** The live attempt generation of the ticket that the actor holds. *)
Definition holds_attempt (work : Record_) (attempt generation : string) : Prop :=
  CheckKnowHowProvenance (ctx_KnowHowAttempts ctx) (rec_TicketID work) (Some attempt) (Some generation) = None ∧
  let a := attempt_of (ctx_KnowHowAttempts ctx) attempt in
  ap_Live a = true ∧ ap_Holder a ≠ ε ∧ ap_Generation a = generation ∧ ap_Holder a = actor.

(** The operations a role may apply to a record, of those its row permits. *)
Inductive may (work : Record_) : string → Payload → Prop :=
  | may_any role p : role ∉ ["WORKER"; "IMPORTER"; "SYSTEM"; "OPERATOR"; "REVIEWER"] → may work role p
  | may_operator p : (∀ g, p = PGrantApproval g → ga_Operation g ≠ "ADJUDICATE") → may work "OPERATOR" p
  | may_importer p : src_Kind (rec_Source work) = "IMPORT" → may work "IMPORTER" p
  | may_escalate reason c : may work "SYSTEM" (PHold "ESCALATED" reason c)
  | may_body p : rp_Present p = {["body"]} → may work "WORKER" (PRefine p)
  | may_note p attempt generation :
      ka_Supersedes p = None → ka_Attempt p = Some attempt → ka_Generation p = Some generation →
      holds_attempt work attempt generation →
      Forall (λ a, ∃ t, t ∈ eff_TouchPaths (rec_Effects work) ∧ PathCovers t (kha_Path a) = true) (ka_Anchors p) →
      may work "WORKER" (PKnowHowAdd p).

Lemma uncovered_anchor_None touch anchors : ∀ i,
  uncovered_anchor touch i anchors = None ↔ Forall (λ a, ∃ t, t ∈ touch ∧ PathCovers t (kha_Path a) = true) anchors.
Proof.
  induction anchors as [|a anchors IH]; intros i; cbn [uncovered_anchor]; [by split|]. rewrite Forall_cons, <-(IH (i + 1)).
  destruct (existsb _ touch) eqn:Ht.
  - apply existsb_exists in Ht as (t & ?%list_elem_of_In & ?). split; [eauto|by intros [_ ?]].
  - split; [done|]. intros [(t & ?%list_elem_of_In & ?) _].
    assert (existsb (λ tp, PathCovers tp (kha_Path a)) touch = true) by (apply existsb_exists; eauto). congruence.
Qed.

Lemma live_generation_iff a g :
  live_generation a g = true ↔ ap_Live a = true ∧ ap_Holder a ≠ ε ∧ ap_Generation a = g.
Proof. unfold live_generation. rewrite !andb_true_iff, negb_true_iff, String.eqb_neq, String.eqb_eq. tauto. Qed.

Lemma worker_scope_iff work p :
  workerKnowHowScope ctx work p = Ok tt ↔ may work "WORKER" (PKnowHowAdd p).
Proof.
  split.
  - unfold workerKnowHowScope. destruct (ka_Supersedes p) eqn:Hs; [done|]. destruct (ka_Attempt p) as [t|] eqn:Ht; [|done].
    destruct (ka_Generation p) as [g|] eqn:Hg; [|done]. intros ([] & Hp%refuse_error_Ok & H)%obind_Ok. cbv zeta in H.
    rewrite !guard_refuse, !negb_false_iff, live_generation_iff, String.eqb_eq in H. destruct H as ((? & ? & ?) & ? & H).
    destruct (uncovered_anchor _ _ _) eqn:Hu; [done|]. apply uncovered_anchor_None in Hu. by eapply may_note.
  - intros H. inversion H as [? ? Hn| | | | |? t g Hs Ht Hg (Hp & ? & ? & ? & Hh) Ha]; subst; [by destruct Hn; set_solver|].
    unfold workerKnowHowScope. rewrite Hs, Ht, Hg, Hp. cbn [refuse_error obind]. cbv zeta.
    rewrite (proj2 (live_generation_iff _ _)) by done. fold actor. rewrite Hh, String.eqb_refl.
    by rewrite (proj2 (uncovered_anchor_None _ _ 0) Ha).
Qed.

Lemma worker_body_iff work p :
  (if bool_decide (rp_Present p = {["body"]}) then Ok tt else refuse OutcomeUnauthorized ε "WORKER may only REFINE body" [])
    = @Ok stop unit tt ↔ may work "WORKER" (PRefine p).
Proof.
  split; [case_bool_decide; [intros _; by apply may_body|done]|].
  intros H. inversion H as [? ? Hn| | | |? Hb|]; subst; [by destruct Hn; set_solver|]. by rewrite bool_decide_true.
Qed.

Lemma role_restriction_iff work p : role_restriction ctx work p = Ok tt ↔ may work role_ p.
Proof.
  unfold role_restriction. fold role_.
  destruct (role_ =s "WORKER") eqn:E1; [apply String.eqb_eq in E1; rewrite E1|].
  { destruct p; try apply worker_scope_iff; try apply worker_body_iff.
    all: split; [done|intros H; inversion H; subst; match goal with Hn : _ ∉ _ |- _ => by destruct Hn; set_solver end]. }
  destruct (role_ =s "IMPORTER") eqn:E2; [apply String.eqb_eq in E2; rewrite E2|].
  { destruct (_ =s "IMPORT") eqn:Hi; [apply String.eqb_eq in Hi; split; [intros _; by apply may_importer|done]|].
    apply String.eqb_neq in Hi. split; [done|]. intros H.
    inversion H; subst; [match goal with Hn : _ ∉ _ |- _ => by destruct Hn; set_solver end|done]. }
  destruct (role_ =s "SYSTEM") eqn:E3; [apply String.eqb_eq in E3; rewrite E3|].
  { split.
    - destruct p; try done. destruct (_ =s "ESCALATED") eqn:Hh; [|done]. apply String.eqb_eq in Hh as ->. intros _. apply may_escalate.
    - intros H. inversion H; subst; [match goal with Hn : _ ∉ _ |- _ => by destruct Hn; set_solver end|done]. }
  destruct (role_ =s "OPERATOR") eqn:E4; [apply String.eqb_eq in E4; rewrite E4|].
  { split.
    - intros H. apply may_operator. intros g -> Hg. by rewrite Hg in H.
    - intros H. inversion H as [? ? Hn|? Hg| | | |]; subst; [by destruct Hn; set_solver|].
      destruct p; try done. destruct (_ =s "ADJUDICATE") eqn:Ha; [|done]. apply String.eqb_eq in Ha. by destruct (Hg _ eq_refl). }
  destruct (role_ =s "REVIEWER") eqn:E5; [apply String.eqb_eq in E5; rewrite E5|].
  { split; [done|]. intros H. inversion H; subst. match goal with Hn : _ ∉ _ |- _ => by destruct Hn; set_solver end. }
  rewrite !String.eqb_neq in *. split; [|done]. intros _. apply may_any. set_solver.
Qed.

Lemma checkRole_iff op : checkRole ctx policy op = Ok tt ↔ op ∈ permittedOps policy role_.
Proof.
  unfold checkRole. fold role_. destruct (existsb _ _) eqn:H.
  - split; [intros _|done]. apply existsb_exists in H as (o & ?%list_elem_of_In & ->%String.eqb_eq). done.
  - split; [done|]. intros Hin. assert (existsb (λ o, o =s op) (permittedOps policy role_) = true); [|congruence].
    apply existsb_exists. exists op. split; [by apply list_elem_of_In|apply String.eqb_refl].
Qed.

(** What a step goes through. *)
Lemma step_iff work p w :
  step secret ctx policy work p = Ok w ↔
  operation p ∈ permittedOps policy role_ ∧ may work role_ p ∧
  (rec_Status work = StatusArchived → operation p = OpRestore) ∧ transition work p w.
Proof.
  unfold step. rewrite !W_bind, checkRole_iff, role_restriction_iff, guard_refuse, step_operation_iff, andb_false_iff, negb_eqb.
  rewrite String.eqb_neq. destruct (decide (rec_Status work = StatusArchived)); intuition.
Qed.

(** ** What no operation changes *)

Record kept (a b : Record_) : Prop := {
  kept_id : rec_TicketID b = rec_TicketID a;
  kept_created : rec_CreatedAt b = rec_CreatedAt a;
  kept_source : rec_Source b = rec_Source a;
  kept_shadow : rec_ShadowOverlay b = rec_ShadowOverlay a;
  kept_revision : rec_Revision b = rec_Revision a;
  kept_acceptance : rec_AcceptanceRevision b = rec_AcceptanceRevision a
}.

Lemma refine_kept work p : kept work (refine work p).
Proof. unfold refine. cbv zeta. destruct (_ && _); by split. Qed.

Lemma transition_kept work p w : transition work p w → kept work w.
Proof.
  destruct 1; try by split.
  - apply refine_kept.
  - cbv zeta. match goal with |- kept _ (match ?l with _ => _ end) => destruct l end; by split.
Qed.

(** ** The status machine *)

(** The status of a ticket, and the one it was archived from. *)
Definition phase (r : Record_) : string * option string := (rec_Status r, rec_ArchivedFrom r).

Inductive moves : string → string * option string → string * option string → Prop :=
  | mv_stay op s : s ≠ StatusArchived → moves op (s, None) (s, None)
  | mv_open : moves OpRefine (StatusDraft, None) (StatusOpen, None)
  | mv_hold s : s = StatusOpen ∨ s = StatusHeld → moves OpHold (s, None) (StatusHeld, None)
  | mv_release : moves OpReleaseHold (StatusHeld, None) (StatusOpen, None)
  | mv_complete : moves OpCompleteManual (StatusOpen, None) (StatusCompleted, None)
  | mv_reopen : moves OpReopen (StatusCompleted, None) (StatusOpen, None)
  | mv_archive s : s ≠ StatusArchived → moves OpArchive (s, None) (StatusArchived, Some s)
  | mv_restore s : s ≠ StatusArchived → moves OpRestore (StatusArchived, Some s) (s, None).

(** A ticket is archived from a status it can be restored to. *)
Definition archived_ok (r : Record_) : Prop :=
  (rec_Status r = StatusArchived ↔ is_Some (rec_ArchivedFrom r)) ∧ ∀ s, rec_ArchivedFrom r = Some s → s ≠ StatusArchived.

Lemma live_phase r : archived_ok r → rec_Status r ≠ StatusArchived → phase r = (rec_Status r, None).
Proof.
  intros [Ha _] Hs. unfold phase. f_equal. destruct (rec_ArchivedFrom r) eqn:E; [|done]. destruct Hs. apply Ha. by eexists.
Qed.

(** The operations that leave the status alone. *)
Lemma phase_same r w op :
  archived_ok r → rec_Status r ≠ StatusArchived → phase w = phase r → moves op (phase r) (phase w).
Proof. intros Ha Hs ->. rewrite live_phase by done. by apply mv_stay. Qed.

Lemma refine_phase work p :
  phase (refine work p) = phase work ∨
  (rec_Status work = StatusDraft ∧ phase (refine work p) = (StatusOpen, rec_ArchivedFrom work)).
Proof.
  unfold refine. cbv zeta. destruct (_ && opens _) eqn:Ho; [|by left].
  apply andb_true_iff in Ho as [Hd%String.eqb_eq _]. by right.
Qed.

Lemma refine_moves work p :
  archived_ok work → rec_Status work ≠ StatusArchived → moves OpRefine (phase work) (phase (refine work p)).
Proof.
  intros Ha Hs. destruct (refine_phase work p) as [He|[Hd He]]; [by apply phase_same|].
  pose proof (live_phase _ Ha Hs) as Hp. unfold phase in Hp at 1. injection Hp as Hn. rewrite He, Hn, live_phase, Hd by done.
  apply mv_open.
Qed.

Lemma transition_moves work p w :
  transition work p w → archived_ok work → (rec_Status work = StatusArchived → operation p = OpRestore) →
  moves (operation p) (phase work) (phase w).
Proof.
  intros H Ha Hop. destruct (decide (rec_Status work = StatusArchived)) as [Hs|Hs].
  { specialize (Hop Hs). destruct H; try discriminate Hop; [|by destruct p].
    unfold phase. cbn. rewrite Hs. match goal with Hf : _ = Some _ |- _ => rewrite Hf end. apply mv_restore. by apply Ha. }
  pose proof (live_phase _ Ha Hs) as Hp. unfold phase in Hp. injection Hp as Hn.
  assert (phase work = (rec_Status work, None)) as Hw by by apply live_phase.
  destruct H as [| | | | |id reason c|id i h Hst|reason Hst| |reason from Hst|reason evidence Hst| | | | |]; try by apply phase_same.
  - by apply refine_moves.
  - rewrite Hw. unfold phase. cbn. rewrite Hn. by apply mv_hold.
  - cbv zeta. match goal with |- context [match ?l with _ => _ end] => destruct l end; [|by apply phase_same].
    rewrite Hw, Hst. unfold phase. cbn. rewrite Hn. apply mv_release.
  - rewrite Hw. unfold phase. cbn. rewrite Hn. destruct Hst as [->|[-> _]]; [apply mv_reopen|by apply mv_stay].
  - rewrite Hw. by apply mv_archive.
  - rewrite Hw, Hst. unfold phase. cbn. rewrite Hn. apply mv_complete.
Qed.
End step.
