(* ===== verification/ApplySpec.v ===== *)
(** * What a planned envelope means

    The theorems of [Apply]: who may write, how the written record continues
    its chain, which statuses it may move between and that the dependency
    graph stays acyclic. *)

From S2P Require Import Prelude View Utf8 GoStd Codes Limits Value Canonical Primitives Ids.
From S2P Require Import SetsSpec PrimitivesSpec IdsSpec Parse ParseDoc ParsePrint.
From S2P Require Import Reader ReaderSpec Result ResultSpec Ticket Updates Inventory GraphSpec InventorySpec Marks MarksSpec.
From S2P Require Import KnowHow KnowHowSpec RecordParts Escalations RecordCodec PartsSpec RecordSpec RecordValid.
From S2P Require Import Obligations ObligationEvents ObligationLedger NoteEvents.
From S2P Require Import Intent Mutation Outcomes Screen Writer Apply ValueSpec WriterSpec StepSpec.
Local Open Scope Z_scope.
Local Open Scope go_scope.

(** ** The chain fields are no other field *)

Lemma chained_member sha256 ctx pre work b k :
  k ∈ AcceptanceRelevantFields →
  member (Record_Value (chained sha256 ctx pre work b)) k = member (Record_Value work) k.
Proof.
  intros H. assert (∃ v, (k, v) ∈ record_fields work ∧ (k, v) ∈ record_fields (chained sha256 ctx pre work b)) as (v & Hw & Hc).
  { unfold AcceptanceRelevantFields in H.
    repeat (rewrite elem_of_cons in H; destruct H as [->|H]; [eexists; split; in_fields|]).
    by apply not_elem_of_nil in H. }
  by rewrite (record_member _ _ _ Hw), (record_member _ _ _ Hc).
Qed.

Lemma chained_changed sha256 ctx pre work b :
  acceptanceChanged pre (chained sha256 ctx pre work b) = acceptanceChanged pre work.
Proof.
  unfold acceptanceChanged. pose proof (chained_member sha256 ctx pre work b) as H. revert H.
  generalize AcceptanceRelevantFields as ks. induction ks as [|k ks IH]; intros H; cbn [existsb]; [done|].
  rewrite IH by (intros; apply H; by apply list_elem_of_further). unfold fieldChanged.
  by rewrite H by apply list_elem_of_here.
Qed.

(** ** One write after another *)

Section apply.
Context (sha256 : string → string) (secret : string → bool) (ord : bool) (ctx : MutationContext).

Lemma change_kept policy env work work' : change secret ctx policy env work work' → kept work work'.
Proof. destruct 1 as [? _ _ _ (_ & _ & _ & H)%step_iff| | |]; [by eapply transition_kept|by split..]. Qed.

(** The write raises the acceptance revision: the operation always does, or
    it changes what the ticket was accepted as. *)
Definition bumps (op : string) (pre post : Record_) : bool :=
  bool_decide (op ∈ [OpReopen; OpRestore; OpCompleteManual]) || acceptanceChanged pre post.

Lemma forcesAcceptanceBump_spec op : forcesAcceptanceBump op = bool_decide (op ∈ [OpReopen; OpRestore; OpCompleteManual]).
Proof.
  apply eq_true_iff_eq. rewrite bool_decide_eq_true, !elem_of_cons, elem_of_nil. unfold forcesAcceptanceBump.
  rewrite !orb_true_iff, !String.eqb_eq. tauto.
Qed.

Definition count_of (b : bool) : Z := if b then 1 else 0.

(** No attempt at the ticket is live. *)
Definition no_attempt (id : string) : Prop := ∃ a, ctx_Attempts ctx = Some a ∧ LiveAttempt a id = Unsatisfied.

(** [post] is the revision of [pre] that the operation writes. *)
Record chains (op : string) (pre post : Record_) : Prop := {
  ch_id : TicketID_Raw (rec_TicketID post) = TicketID_Raw (rec_TicketID pre);
  ch_created : rec_CreatedAt post = rec_CreatedAt pre;
  ch_revision : Count_Int (rec_Revision post) = Count_Int (rec_Revision pre) + 1;
  ch_acceptance : Count_Int (rec_AcceptanceRevision post) = Count_Int (rec_AcceptanceRevision pre) + count_of (bumps op pre post);
  ch_previous : rec_PreviousRecordSha256 post = Some (FileDigest sha256 pre);
  ch_updated : rec_UpdatedAt post = ctx_Now ctx ∧ rec_UpdatedBy post = b_ID (ctx_Binding ctx);
  ch_attempt : bumps op pre post = true → no_attempt (TicketID_Raw (rec_TicketID post));
  ch_completed : rec_Status pre = StatusCompleted → acceptanceChanged pre post = false;
  ch_writable : writable ord post
}.

Lemma check_attempt_Ok work : check_attempt ctx work = Ok tt → no_attempt (TicketID_Raw (rec_TicketID work)).
Proof.
  unfold check_attempt, no_attempt. cbv zeta. destruct (ctx_Attempts ctx) as [a|]; [|done].
  destruct (LiveAttempt _ _ =s Unsatisfied) eqn:H; [|by destruct (_ =s Satisfied)].
  intros _. apply String.eqb_eq in H. by exists a.
Qed.

Lemma finalized_chains policy inv op pre work work' post :
  clone ord pre = Ok work → kept work work' →
  finalize sha256 ord ctx policy inv pre work' (forcesAcceptanceBump op) = Ok post → chains op pre post.
Proof.
  intros (Hs & _)%clone_Ok K H%finalize_Ok. destruct H as [Hcc _ Hatt -> Hrev Hacc Hw].
  set (b := forcesAcceptanceBump op || acceptanceChanged pre work') in *.
  assert (bumps op pre (chained sha256 ctx pre work' b) = b) as Hb by (unfold bumps; by rewrite chained_changed, <-forcesAcceptanceBump_spec).
  pose proof (writable_revisions _ _ Hw) as Hr. cbn in Hr.
  split; try done.
  - cbn. rewrite (kept_id _ _ K). symmetry. by apply same_ticketId.
  - cbn. rewrite (kept_created _ _ K). symmetry. by apply same_createdAt.
  - cbn. apply succ_count; [done|]. lia.
  - rewrite Hb. cbn. destruct b; cbn [count_of]; [|lia]. apply succ_count; [by apply Hacc|lia].
  - rewrite Hb. intros Hb'. by apply Hatt, check_attempt_Ok in Hb'.
  - intros Hc. rewrite chained_changed. by apply Hcc.
Qed.

Lemma moved_chains policy inv env pre post :
  moved sha256 secret ord ctx policy inv env pre post → chains (env_Operation env) pre post.
Proof. intros (work & work' & Hc & K%change_kept & Hf). by eapply finalized_chains. Qed.

(** The facts of a complete context. *)
Record context_of (queue : Queue) (policy : Policy) (inv : Inventory) : Prop := {
  co_queue : ctx_Queue ctx = Some queue;
  co_policy : ctx_Policy ctx = Some policy;
  co_inventory : ctx_Inventory ctx = Some inv;
  co_same : QueueID_Raw (inv_QueueID inv) = QueueID_Raw (q_QueueID queue);
  co_index : is_Some (ctx_Requests ctx);
  co_now : ParseTimestamp "/context/now" (ctx_Now ctx) = Ok (ctx_Now ctx)
}.

(** The trusted binding is a label in a role, and the envelope claims it. *)
Record bound (env : Envelope) : Prop := {
  bo_label : ∃ l, ParseLabel "/binding/id" (b_ID (ctx_Binding ctx)) = Ok l;
  bo_role : b_Role (ctx_Binding ctx) ∈ Roles;
  bo_actor : env_ActorID env = b_ID (ctx_Binding ctx) ∧ env_ActorRole env = b_Role (ctx_Binding ctx)
}.

Lemma timestamp_cases w s : ParseTimestamp w s = Ok s ∨ ∃ e, ParseTimestamp w s = Err e.
Proof. unfold ParseTimestamp. repeat case_match; eauto. Qed.

Lemma label_cases w s : ParseLabel w s = Ok s ∨ ∃ e, ParseLabel w s = Err e.
Proof. unfold ParseLabel, parseText. repeat case_match; eauto. Qed.

Lemma checkInputs_Ok queue policy inv : checkInputs ctx = Ok (queue, policy, inv) → context_of queue policy inv.
Proof.
  unfold checkInputs, missingIndex. intros H. destruct (ctx_Queue ctx) as [q|] eqn:Hq; [|done].
  destruct (ctx_Policy ctx) as [pol|] eqn:Hp; [|done]. destruct (ctx_Inventory ctx) as [i|] eqn:Hi; [|done].
  destruct (ctx_Requests ctx) as [f|] eqn:Hf; [|done]. cbn [is_none] in H.
  destruct (QueueID_Raw (inv_QueueID i) =s _) eqn:He; [|done]. apply String.eqb_eq in He.
  cbn [negb] in H. destruct (timestamp_cases "/context/now" (ctx_Now ctx)) as [Ht|[e Ht]]; rewrite Ht in H; [|done].
  injection H as -> -> ->. by split.
Qed.

Lemma binding_Ok : Binding_validate (ctx_Binding ctx) = Ok tt →
  (∃ l, ParseLabel "/binding/id" (b_ID (ctx_Binding ctx)) = Ok l) ∧ b_Role (ctx_Binding ctx) ∈ Roles.
Proof.
  unfold Binding_validate. destruct (_ && _); [done|].
  destruct (label_cases "/binding/id" (b_ID (ctx_Binding ctx))) as [Hl|[e Hl]]; rewrite Hl; [|done].
  destruct (existsb _ _) eqn:Hr; [|done]. intros _. split; [by eexists|].
  apply existsb_exists in Hr as (r & ?%list_elem_of_In & ->%String.eqb_eq). done.
Qed.

Lemma check_envelope_Ok env queue policy inv :
  check_envelope ctx env = Ok (queue, policy, inv) →
  bound env ∧ context_of queue policy inv ∧ QueueID_Raw (env_QueueID env) = QueueID_Raw (q_QueueID queue).
Proof.
  unfold check_envelope. intros H. apply W_bind in H as [Hb H]. apply W_bind in H as [Ha H].
  apply obind_Ok in H as ([[q pol] i] & Hi & H). cbn [fst snd] in H.
  destruct (QueueID_Raw (env_QueueID env) =s _) eqn:He; [|done]. injection H as -> -> ->. apply String.eqb_eq in He.
  apply binding_Ok in Hb as [Hl Hr]. split_and!; [|by apply checkInputs_Ok|done].
  unfold check_actor in Ha. destruct (_ && _) eqn:Hc; [|done]. apply andb_true_iff in Hc as [?%String.eqb_eq ?%String.eqb_eq]. by split.
Qed.

Lemma replay_None id digest :
  replay (ctx_Requests ctx) id digest = None ↔ ∃ lookup, ctx_Requests ctx = Some lookup ∧ lookup id = inr None.
Proof.
  unfold replay. destruct (ctx_Requests ctx) as [f|]; [|by split; [|intros (? & ? & _)]].
  split; [|intros (? & [= <-] & ->); done]. destruct (f id) as [e|[e|]] eqn:Hf; [done|by destruct (_ =s digest)|by exists f].
Qed.

(** C4: an envelope is planned only under a complete context for one queue, by
    a trusted binding that the envelope claims, in a role of the vocabulary, and
    for a request never seen before; the role's row permits the operation, or
    the operation is a review, whose observation was audited, refuses nothing
    and holds the event its reference names. *)
Theorem Apply_authorized env p :
  Apply sha256 secret ord ctx env = Ok p → Planned p = true →
  ∃ queue policy inv, context_of queue policy inv ∧ bound env ∧
    QueueID_Raw (env_QueueID env) = QueueID_Raw (q_QueueID queue) ∧
    (∃ lookup, ctx_Requests ctx = Some lookup ∧ lookup (env_RequestID env) = inr None) ∧
    (if IsReviewOperation (env_Operation env) then
       ∃ x event, ctx_ExternalReview ctx = Some x ∧ xr_Outcome x = ε ∧ xr_Event x = Some event ∧ Sum sha256 event = rev_Head (xr_Ref x)
     else env_Operation env ∈ permittedOps policy (b_Role (ctx_Binding ctx))).
Proof.
  intros H Hp. apply Apply_planned in H as (queue & policy & inv & Hc & Hr & Hrole & _); [|done].
  apply check_envelope_Ok in Hc as (? & ? & ?). exists queue, policy, inv. split_and!; [done..|by apply replay_None in Hr|].
  unfold authorized in Hrole. destruct (IsReviewOperation _); [exact Hrole|by apply checkRole_iff].
Qed.

(** What a planned envelope did to a ticket that exists. *)
Lemma Apply_move env p :
  Apply sha256 secret ord ctx env = Ok p → Planned p = true → env_Operation env ≠ OpCreate →
  ∃ queue policy inv pre post, context_of queue policy inv ∧ target inv env = Ok pre ∧ expected_met ord env pre ∧
    derived_live ord env pre ∧ operation (env_Payload env) = env_Operation env ∧
    moved sha256 secret ord ctx policy inv env pre post ∧ pl_Pre p = Some pre ∧ pl_Post p = Some post.
Proof.
  intros H Hp Hop. apply Apply_planned in H as (queue & policy & inv & Hc & _ & _ & Ha); [|done].
  apply check_envelope_Ok in Hc as (_ & Hc & _). destruct Ha as [|pre post]; [done|]. exists queue, policy, inv, pre, post. by split_and!.
Qed.

(** The revision a write expects of its target is the target's: that of the
    envelope, or for a note that of its request's own text; only a note or a
    review may expect none. *)
Definition expects (env : Envelope) (pre : Record_) : Prop :=
  if IsNoteOperation (env_Operation env) then
    ∃ q, DecodeOperatorNoteRequest (env_Raw env) = Ok q ∧ TicketID_Raw (onr_TicketID q) = TicketID_Raw (rec_TicketID pre) ∧
      (onr_ExpectedRevision q = None ∨ onr_ExpectedRevision q = Some (rec_Revision pre))
  else env_ExpectedRevision env = Some (rec_Revision pre) ∨ IsReviewOperation (env_Operation env) = true ∧ env_ExpectedRevision env = None.

Lemma expected_met_expects env pre : expected_met ord env pre → expects env pre.
Proof.
  unfold expected_met, expects. destruct (IsNoteOperation _).
  - intros (q & pre' & Hq & Hd & Ht & Hr). exists q. split; [done|].
    assert (same_value pre pre') as Hs.
    { apply Decode_value in Hd as (He & _). unfold same_value. symmetry. apply EncodeFile_inj; [apply Record_Value_distinct..|exact He]. }
    rewrite (same_ticketId _ _ Hs), (same_revision _ _ Hs). split; [done|]. destruct (onr_ExpectedRevision q) as [r|]; [right|by left].
    by rewrite (Hr r).
  - destruct (env_ExpectedRevision env) as [r|]; [intros ->; by left|by right].
Qed.

(** C1: a planned envelope other than CREATE reads its target at the revision it
    expects and writes the next revision of it: the revision grows by one and
    the acceptance revision by one exactly when the operation is REOPEN, RESTORE
    or COMPLETE_MANUAL or what was accepted changes, for which no attempt may be
    live; the digest of the file before is kept, and [Decode] accepts the file
    after.  A completed ticket stays as accepted.  A note or a review may leave
    the revision open. *)
Theorem Apply_chains env p :
  Apply sha256 secret ord ctx env = Ok p → Planned p = true → env_Operation env ≠ OpCreate →
  ∃ inv pre post, ctx_Inventory ctx = Some inv ∧ target inv env = Ok pre ∧ expects env pre ∧
    pl_Pre p = Some pre ∧ pl_Post p = Some post ∧ chains (env_Operation env) pre post.
Proof.
  intros H Hp Hop. apply Apply_move in H as (queue & policy & inv & pre & post & Hc & ? & ?%expected_met_expects & _ & _ & Hm%moved_chains & ? & ?); [|done..].
  exists inv, pre, post. split_and!; try done. apply Hc.
Qed.

(** ** Statuses *)

Lemma same_phase a b : same_value a b → phase a = phase b.
Proof. intros H. unfold phase. by rewrite (same_status _ _ H), (same_archivedFrom _ _ H). Qed.

Lemma clone_archived pre work : clone ord pre = Ok work → archived_ok work ∧ phase pre = phase work.
Proof.
  intros (Hs & Hv & Hd)%clone_Ok. split; [|by apply same_phase]. split; [apply Hv|].
  intros s Hs' ->. apply (dec_archived _ Hd) in Hs'. by vm_compute in Hs'; set_solver.
Qed.

Lemma unarchived_phase pre : unarchived ord pre → rec_Status pre ≠ StatusArchived.
Proof.
  intros [?|(pre' & Hd & Hs)]; [done|]. intros Hp. apply Hs. rewrite <-Hp.
  pose proof (Decode_value _ _ _ Hd) as (He & _). apply same_status. unfold same_value.
  apply EncodeFile_inj; [apply Record_Value_distinct..|exact He].
Qed.

Lemma moved_moves policy inv env pre post :
  moved sha256 secret ord ctx policy inv env pre post → derived_live ord env pre →
  operation (env_Payload env) = env_Operation env → moves (env_Operation env) (phase pre) (phase post).
Proof.
  intros (work & work' & Hc & Hch & [_ _ _ -> _ _ _]%finalize_Ok) Hd Hop. apply clone_archived in Hc as [Ha Hp]. rewrite Hp.
  change (phase (chained _ _ _ work' _)) with (phase work').
  assert (DeclaresDerivedEvent (env_Operation env) = true → rec_Status work ≠ StatusArchived) as Hlive.
  { intros ?%Hd%unarchived_phase. by injection Hp as <- _. }
  destruct Hch as [work' _ _ _ (_ & _ & ? & ?)%step_iff|ref Hn|gate ref Hn|ref Hn].
  - rewrite <-Hop. by eapply transition_moves.
  - apply phase_same; [done| |done]. apply Hlive. unfold DeclaresDerivedEvent. by rewrite Hn.
  - apply phase_same; [done| |done]. apply Hlive. unfold DeclaresDerivedEvent. by rewrite Hn, orb_true_r.
  - apply phase_same; [done| |done]. apply Hlive. unfold DeclaresDerivedEvent. by rewrite Hn, orb_true_r.
Qed.

(** C8: a planned envelope moves the status of its target as the status machine
    says: a ticket is opened by REFINE, held and released, completed only from
    OPEN, reopened, and archived with the status RESTORE returns it to; on an
    archived ticket only RESTORE is planned. *)
Theorem Apply_status env p :
  Apply sha256 secret ord ctx env = Ok p → Planned p = true → env_Operation env ≠ OpCreate →
  ∃ pre post, pl_Pre p = Some pre ∧ pl_Post p = Some post ∧ moves (env_Operation env) (phase pre) (phase post).
Proof.
  intros H Hp Hop.
  apply Apply_move in H as (queue & policy & inv & pre & post & _ & _ & _ & Hd & Hpay & Hm & ? & ?); [|done..].
  exists pre, post. split_and!; [done..|]. by eapply moved_moves.
Qed.

(** ** The dependency graph *)

(** An inventory whose records are those it summarises. *)
Definition summarises (inv : Inventory) : Prop :=
  ∀ id r, (Inventory_Get inv id).2 = Found r → TicketID_Raw (rec_TicketID r) = id ∧ inv_sum inv !! id = Some (SummaryOf r).

Lemma edge_overwritten sum t s u v :
  edge (<[t := s]> sum) u v ↔ if decide (u = t) then v ∈ (λ d, raw d) <$> sum_Dependencies s else edge sum u v.
Proof.
  destruct (decide (u = t)) as [->|Hu]; rewrite !edge_fmap; unfold deps; [by rewrite lookup_insert_eq|by rewrite lookup_insert_ne].
Qed.

Lemma same_edges sum t s s' :
  sum !! t = Some s → (λ d, raw d) <$> sum_Dependencies s = (λ d, raw d) <$> sum_Dependencies s' →
  ∀ u v, edge (<[t := s']> sum) u v ↔ edge sum u v.
Proof.
  intros Hs He u v. rewrite edge_overwritten. destruct (decide (u = t)) as [->|]; [|done].
  rewrite edge_fmap. unfold deps. by rewrite Hs, <-He.
Qed.

Lemma tc_edges (R S : string → string → Prop) x y : (∀ u v, R u v → S u v) → tc R x y → tc S x y.
Proof. intros H. induction 1; [by apply tc_once, H|eapply tc_l; [by apply H|done]]. Qed.

Lemma checked_dependencies policy inv pre work :
  checkRecord policy inv pre work = Ok tt →
  CheckDependencies inv work = Ok None ∨ ∃ r, pre = Some r ∧ fieldChanged r work "dependencies" = false.
Proof.
  unfold checkRecord. cbv zeta. intros [_ H]%W_bind. apply W_bind in H as [H _].
  destruct pre as [r|]; [destruct (fieldChanged r work "dependencies") eqn:Hf|]; [left|right; by exists r|left].
  all: unfold check_dependencies in H; destruct (CheckDependencies inv work) as [e| |]; try done; by apply refuse_error_Ok in H as ->.
Qed.

Lemma target_found inv env pre :
  summarises inv → target inv env = Ok pre →
  inv_sum inv !! TicketID_Raw (rec_TicketID pre) = Some (SummaryOf pre).
Proof.
  intros Hs H. unfold target in H. destruct (env_TargetID env) as [t|]; [|done].
  apply obind_Ok in H as ([r|] & Hg & H); [|done]. injection H as ->. apply get_Ok, Hs in Hg as [-> ?]. done.
Qed.

(** No record changes the cycles of the graph it is written to. *)
Definition closes_no_cycle (inv : Inventory) (post : Record_) : Prop :=
  ∀ v, tc (edge (<[TicketID_Raw (rec_TicketID post) := SummaryOf post]> (inv_sum inv))) v v → tc (edge (inv_sum inv)) v v.

Lemma moved_acyclic policy inv env pre post :
  summarises inv → target inv env = Ok pre → moved sha256 secret ord ctx policy inv env pre post → closes_no_cycle inv post.
Proof.
  intros Hs Ht (work & work' & (Hv & _)%clone_Ok & K%change_kept & [_ Hc _ -> _ _ _]%finalize_Ok) v.
  apply target_found in Ht; [|done]. apply checked_dependencies in Hc as [Hc|(? & [= <-] & Hd)].
  - exact (CheckDependencies_acyclic inv work' (SummaryOf (chained sha256 ctx pre work' _)) Hc eq_refl v).
  - apply tc_edges. intros x y. apply (same_edges _ _ (SummaryOf pre)); [|exact (same_dependencies pre work' Hd)].
    cbn. by rewrite (kept_id _ _ K), <-(same_ticketId _ _ Hv).
Qed.

Lemma created_acyclic queue policy inv cp post next :
  create_record ord ctx queue policy inv cp = Ok (post, next) → closes_no_cycle inv post.
Proof.
  intros H v. unfold create_record in H. w_inv. match goal with H : checkRecord _ _ None _ = Ok _ |- _ => rename H into Hc end.
  apply checked_dependencies in Hc as [Hc|(? & ? & _)]; [|done]. by apply (CheckDependencies_acyclic inv post (SummaryOf post) Hc).
Qed.

(** C18: no planned envelope closes a dependency cycle: every cycle of the queue
    with the written record is one of the queue before, so an acyclic queue
    stays so. *)
Theorem Apply_acyclic env inv p post :
  ctx_Inventory ctx = Some inv → summarises inv →
  Apply sha256 secret ord ctx env = Ok p → Planned p = true → pl_Post p = Some post → closes_no_cycle inv post.
Proof.
  intros Hi Hs H Hp Hpost. apply Apply_planned in H as (queue & policy & inv' & Hc & _ & _ & Ha); [|done].
  apply check_envelope_Ok in Hc as (_ & Hc & _). pose proof (co_inventory _ _ _ Hc) as Hi'. rewrite Hi in Hi'. injection Hi' as <-.
  destruct Ha as [cp post' next _ _ Hcr ->|pre post' _ _ Ht _ _ Hm _ Hp' _].
  - injection Hpost as <-. by eapply created_acyclic.
  - rewrite Hpost in Hp'. injection Hp' as <-. by eapply moved_acyclic.
Qed.
End apply.

(** An inventory as it is built, whose loader returns what it summarised. *)
Lemma built_summarises queue records closed load inv :
  NewLazyInventory queue records closed load = Ok inv →
  (∀ f s r, load = Some f → s ∈ closed → f s = inr r → SummaryOf r = s) → summarises inv.
Proof.
  intros H Hl. pose proof (NewLazyInventory_cases queue records closed load) as Hi. rewrite H in Hi. destruct Hi as (_ & _ & Hi).
  intros id r. unfold Inventory_Get. destruct (inv_byID inv !! id) as [r'|] eqn:Hb.
  - intros [= ->]. apply (io_byID _ _ _ _ _ Hi) in Hb as [Hr Hid]. split; [done|]. apply (io_sum _ _ _ _ _ Hi).
    split; [|done]. apply elem_of_app. left. by apply list_elem_of_fmap_2.
  - unfold materialize. destruct (inv_lazy inv !! id) as [x|] eqn:Hz; [|done]. apply (io_lazy _ _ _ _ _ Hi) in Hz as [-> Hz].
    rewrite (io_load _ _ _ _ _ Hi). destruct closed as [|c cs] eqn:Hcl; [done|]. rewrite <-Hcl in *. destruct load as [f|]; [|done].
    destruct (inv_sum inv !! id) as [s|] eqn:Hsum; [|done]. cbn. destruct (f s) as [|r'] eqn:Hf; [done|]. intros [= ->].
    unfold sids in Hz. apply list_elem_of_fmap in Hz as (s' & -> & Hz).
    assert (inv_sum inv !! sid s' = Some s') as E by (apply (io_sum _ _ _ _ _ Hi); split; [apply elem_of_app; by right|done]).
    rewrite E in Hsum. injection Hsum as ->. pose proof (Hl f s r eq_refl Hz Hf) as <-. by split.
Qed.

(** ** Requests that were seen *)

Section retry.
Context (sha256 : string → string) (secret : string → bool) (ord : bool).

(** Nothing is written. *)
Definition writes_nothing (p : Plan) : Prop :=
  Planned p = false ∧ pl_Post p = None ∧ pl_QueuePost p = None ∧ pl_DerivedEvent p = None.

Lemma recorded m e m' : MemoryIndex_Record m e = Ok m' → MemoryIndex_Lookup m' (ie_RequestID e) = inr (Some e).
Proof.
  unfold MemoryIndex_Record, MemoryIndex_Lookup. destruct (m !! _); [done|]. intros [= <-]. f_equal. apply lookup_insert_eq.
Qed.

(** Once the outcome of a request is recorded, a later envelope of the same
    request writes nothing, whatever the queue has become: its bytes again get
    the recorded outcome, marked as a replay; other bytes are a conflict. *)
Theorem Apply_retry m m' env digest out ctx env' inputs :
  MemoryIndex_Record m (mkIndexEntry (env_RequestID env) digest out) = Ok m' →
  ctx_Requests ctx = Some (MemoryIndex_Lookup m') → env_RequestID env' = env_RequestID env →
  check_envelope ctx env' = Ok inputs →
  ∃ p, Apply sha256 secret ord ctx env' = Ok p ∧ writes_nothing p ∧
    pl_Outcome p = if decide (Envelope_Sha256 sha256 env' = digest) then replayed_outcome out
                   else bare_outcome (env_RequestID env') OutcomeRequestIDConflict [CodeRequestIDConflict].
Proof.
  intros Hrec%recorded Hreq Hid Hc. cbn [ie_RequestID] in Hrec. rewrite <-Hid in Hrec.
  unfold Apply. cbv zeta. rewrite Hc. cbn [orelse]. destruct inputs as [[queue policy] inv]. unfold replay. rewrite Hreq, Hrec.
  cbn [ie_MutationSha256 ie_Outcome].
  set (plan := _ <| pl_MutationSha256 := _ |>). change (pl_MutationSha256 plan) with (Envelope_Sha256 sha256 env').
  destruct (digest =s _) eqn:Hd; (eexists; split; [done|]; split; [split; [by apply outcome_not_planned|done]|]).
  - apply String.eqb_eq in Hd. by rewrite decide_True.
  - apply String.eqb_neq in Hd. by rewrite decide_False.
Qed.
End retry.

(** ** On the sample *)

Definition sample_hold : Payload := PHold "h" "why" None.

Lemma sample_hold_applied :
  Apply sample_sha256 sample_secret false (sample_context "OWNER") (sample_envelope "OWNER" (Some "a") sample_hold) =
    Ok (sample_plan "OWNER" (Some "a") sample_hold) ∧ Planned (sample_plan "OWNER" (Some "a") sample_hold) = true.
Proof. by vm_compute. Qed.

Lemma sample_summarises : summarises sample_stock.
Proof. apply (built_summarises sample_queue [a_record; b_record] [] None); [by vm_compute|by intros ? ? ? ?]. Qed.

Lemma Apply_authorized_witness : ∃ queue policy inv, context_of (sample_context "OWNER") queue policy inv.
Proof.
  destruct (Apply_authorized sample_sha256 sample_secret false (sample_context "OWNER")
    (sample_envelope "OWNER" (Some "a") sample_hold) (sample_plan "OWNER" (Some "a") sample_hold)) as (q & p & i & H & _);
    [apply sample_hold_applied..|]. exists q, p, i. exact H.
Defined.

Lemma Apply_chains_witness :
  ∃ pre post, pl_Post (sample_plan "OWNER" (Some "a") sample_hold) = Some post ∧
    chains sample_sha256 false (sample_context "OWNER") OpHold pre post.
Proof.
  destruct (Apply_chains sample_sha256 sample_secret false (sample_context "OWNER")
    (sample_envelope "OWNER" (Some "a") sample_hold) (sample_plan "OWNER" (Some "a") sample_hold))
    as (i & pre & post & _ & _ & _ & _ & ? & ?); [apply sample_hold_applied..|discriminate|]. exists pre, post. split; assumption.
Defined.

Lemma Apply_status_witness :
  ∃ pre post, pl_Post (sample_plan "OWNER" (Some "a") sample_hold) = Some post ∧ moves OpHold (phase pre) (phase post).
Proof.
  destruct (Apply_status sample_sha256 sample_secret false (sample_context "OWNER")
    (sample_envelope "OWNER" (Some "a") sample_hold) (sample_plan "OWNER" (Some "a") sample_hold))
    as (pre & post & _ & ? & ?); [apply sample_hold_applied..|discriminate|]. exists pre, post. split; assumption.
Defined.

Definition held_a : Record_ := default a_record (pl_Post (sample_plan "OWNER" (Some "a") sample_hold)).

Lemma Apply_acyclic_witness : closes_no_cycle sample_stock held_a.
Proof.
  apply (Apply_acyclic sample_sha256 sample_secret false (sample_context "OWNER")
    (sample_envelope "OWNER" (Some "a") sample_hold) sample_stock (sample_plan "OWNER" (Some "a") sample_hold));
    [done|apply sample_summarises|apply sample_hold_applied..|by vm_compute].
Defined.

Lemma Apply_retry_witness :
  let env := sample_envelope "OWNER" (Some "a") sample_hold in
  let out := pl_Outcome (sample_plan "OWNER" (Some "a") sample_hold) in
  let e := mkIndexEntry "r1" (Envelope_Sha256 sample_sha256 env) out in
  ∃ p, Apply sample_sha256 sample_secret false (seen_context {["r1" := e]}) env = Ok p ∧ pl_Outcome p = replayed_outcome out.
Proof.
  intros env out e. destruct (Apply_retry sample_sha256 sample_secret false ∅ {["r1" := e]} env (Envelope_Sha256 sample_sha256 env) out
    (seen_context {["r1" := e]}) env (sample_manifest, sample_policy, sample_stock)) as (p & H & _ & Ho);
    [by vm_compute..|]. exists p. split; [exact H|]. rewrite Ho. by rewrite decide_True.
Defined.
