(* ===== verification/TotalSpec.v ===== *)
(** * The writer answers

    A computation of the writer that settles returns, or refuses; it neither
    panics nor runs out of fuel.  Every envelope [Decode] returns is answered
    with a plan, when the inventory's records load. *)

From S2P Require Import Prelude Utf8 GoStd Codes Limits Value Canonical Primitives Ids.
From S2P Require Import SetsSpec PrimitivesSpec IdsSpec Parse ParseTotal ParseDoc ParsePrint.
From S2P Require Import Reader ReaderSpec Result ResultSpec Ticket Updates Inventory GraphSpec InventorySpec Marks MarksSpec.
From S2P Require Import KnowHow KnowHowSpec RecordParts Escalations RecordCodec PartsSpec RecordSpec RecordValid.
From S2P Require Import Obligations ObligationEvents ObligationLedger NoteEvents EventsSpec ChainSpec.
From S2P Require Import Intent Mutation Outcomes Screen Writer Apply ValueSpec WriterSpec StepSpec ApplySpec.
Local Open Scope Z_scope.
Local Open Scope go_scope.

(** ** Computations that end *)

(** The fuel of a computation is enough. *)
Class Ends {E A} (x : outcome E A) : Prop := ends : x ≠ OutOfFuel.

#[export] Instance Ok_ends {E A} (a : A) : Ends (E := E) (Ok a).
Proof. done. Qed.
#[export] Instance Err_ends {E A} (e : E) : Ends (A := A) (Err e).
Proof. done. Qed.
#[export] Instance bind_ends {E A B} (x : outcome E A) (k : A → outcome E B) `{!Ends x, !∀ a, Ends (k a)} : Ends (obind x k).
Proof. intros [E0|(a & _ & E0)]%obind_OutOfFuel; [by apply ends in E0|by apply (ends (x := k a)) in E0]. Qed.
#[export] Instance run_ends {A} (m : M A) s : Ends (run m s).
Proof. apply run_no_fuel. Qed.
#[export] Instance Parse_ends data : Ends (Parse data).
Proof. apply ParseWith_no_fuel. Qed.
#[export] Instance DecodeObligationEvent_ends sha256 raw : Ends (DecodeObligationEvent sha256 raw).
Proof. apply DecodeObligationEvent_no_fuel. Qed.
#[export] Instance ApplyObligationEvent_ends l ev d : Ends (ApplyObligationEvent l ev d).
Proof. apply ApplyObligationEvent_no_fuel. Qed.
#[export] Instance ParseTicketID_ends w s : Ends (ParseTicketID w s).
Proof. apply ParseTicketID_fuel. Qed.
#[export] Instance ParseToken_ends w s n : Ends (ParseToken w s n).
Proof. unfold Ends, ParseToken. repeat case_match; congruence. Qed.
#[export] Instance label_ends w s : Ends (ParseLabel w s).
Proof. unfold Ends, ParseLabel, parseText. by repeat case_match. Qed.
#[export] Instance timestamp_ends w s : Ends (ParseTimestamp w s).
Proof. unfold Ends, ParseTimestamp. by repeat case_match. Qed.

(** Each case of a computation ends. *)
Ltac ends :=
  cbv zeta;
  repeat match goal with
  | |- Ends (obind _ _) => apply bind_ends; [|intros ?]; cbv beta zeta
  | |- Ends (match ?x with _ => _ end) =>
      lazymatch type of x with
      | outcome _ _ => let E := fresh in destruct x eqn:E; [clear E|clear E|exfalso; by apply ends in E]
      | _ => destruct x
      end
  | |- Ends _ => apply _
  end.

#[export] Instance escalationEncode_ends v : Ends (escalationEncode v).
Proof. unfold escalationEncode. ends. Qed.

#[export] Instance escalationDecode_ends raw : Ends (escalationDecode raw).
Proof. unfold escalationDecode. ends. Qed.

#[export] Instance DecodeEscalationRefs_ends raw : Ends (DecodeEscalationRefs raw).
Proof. unfold DecodeEscalationRefs. ends. Qed.

#[export] Instance read_escalations_ends v : Ends (read_escalations v).
Proof. unfold read_escalations. ends. Qed.

#[export] Instance external_reviews_ends r gates out : Ends (external_reviews_loop r gates out).
Proof. revert out. induction gates as [|g gates IH]; intros out; cbn [external_reviews_loop]; ends. Qed.

#[export] Instance note_reference_ends v : Ends (OperatorNoteReferenceFromValue v).
Proof. unfold OperatorNoteReferenceFromValue. ends. Qed.

#[export] Instance FromValue_ends ord v : Ends (FromValue ord v).
Proof.
  unfold FromValue, read_operator_note, read_external_reviews, ExternalReviewsFromValue. cbv zeta. ends.
Qed.

#[export] Instance Record_Decode_ends ord data : Ends (RecordCodec.Decode ord data).
Proof. unfold RecordCodec.Decode. ends. Qed.

#[export] Instance DecodeOperatorNoteRequest_ends raw : Ends (DecodeOperatorNoteRequest raw).
Proof. unfold DecodeOperatorNoteRequest. cbv zeta. ends. Qed.

#[export] Instance DecodeOperatorNoteEvent_ends sha256 raw : Ends (DecodeOperatorNoteEvent sha256 raw).
Proof. unfold DecodeOperatorNoteEvent. cbv zeta. ends. Qed.

#[export] Instance OperatorNoteEvent_Encode_ends sha256 n : Ends (OperatorNoteEvent_Encode sha256 n).
Proof. unfold OperatorNoteEvent_Encode. ends. Qed.

#[export] Instance ResolveOperatorNote_ends sha256 id ref raw : Ends (ResolveOperatorNote sha256 id ref raw).
Proof. unfold ResolveOperatorNote. ends. Qed.

#[export] Instance ObligationEvent_Encode_ends sha256 t r p d q : Ends (ObligationEvent_Encode sha256 t r p d q).
Proof. unfold ObligationEvent_Encode. ends. Qed.

#[export] Instance note_raise_ends {A} (x : res A) `{!Ends x} : Ends (note_raise x).
Proof. by destruct x. Qed.

(** ** Computations that settle *)

(** The computation returns or is refused. *)
Class Settles {A} (x : W A) : Prop := settles : match x with Ok _ | Err (Refuse _) => True | _ => False end.

#[export] Instance Ok_settles {A} (a : A) : Settles (Ok a).
Proof. done. Qed.
#[export] Instance refuse_settles {A} outcome code format args : Settles (@refuse A outcome code format args).
Proof. done. Qed.
#[export] Instance refuseErr_settles {A} e : Settles (@refuseErr A e).
Proof. done. Qed.
#[export] Instance or_refuse_settles {A} (x : res A) `{!Ends x} : Settles (or_refuse x).
Proof. by destruct x. Qed.
#[export] Instance refuse_error_settles e : Settles (refuse_error e).
Proof. by destruct e. Qed.
#[export] Instance wrong_status_settles {A} format work : Settles (@wrong_status A format work).
Proof. done. Qed.
#[export] Instance note_refusal_settles {A} (x : outcome note_error A) `{!Ends x} : Settles (note_refusal x).
Proof. by destruct x as [|[]|]. Qed.

Lemma bind_settles {A B} (x : W A) (k : A → W B) : Settles x → (∀ a, x = Ok a → Settles (k a)) → Settles (obind x k).
Proof. intros Hx Hk. destruct x as [a|[]|]; try done. by apply Hk. Qed.

(** Each case of a computation settles. *)
Ltac settle :=
  cbv zeta;
  repeat match goal with
  | |- Settles (obind _ _) => apply bind_settles; [|intros ? ?]; cbv beta zeta
  | |- Settles _ => apply _
  | |- Settles (match ?x with _ => _ end) =>
      lazymatch type of x with
      | outcome _ _ => let E := fresh in destruct x eqn:E; [| |exfalso; by apply ends in E]
      | _ => destruct x eqn:?
      end
  end.

#[export] Instance clone_canonical_settles ord pre : Settles (clone_canonical ord pre).
Proof.
  unfold clone_canonical, clone. settle.
Qed.

#[export] Instance each_check_settles {A} (f : A → W unit) l `{!∀ a, Settles (f a)} : Settles (each_check f l).
Proof. induction l; cbn [each_check]; settle. Qed.

Section step.
Context (secret : string → bool) (ctx : MutationContext) (policy : Policy).

#[export] Instance checkRole_settles op : Settles (checkRole ctx policy op).
Proof. unfold checkRole. settle. Qed.

#[export] Instance worker_scope_settles work p : Settles (workerKnowHowScope ctx work p).
Proof. unfold workerKnowHowScope. settle. Qed.

#[export] Instance role_restriction_settles work p : Settles (role_restriction ctx work p).
Proof. unfold role_restriction. settle. Qed.

#[export] Instance screenValues_settles v fields : Settles (screenValues v fields).
Proof. unfold screenValues. settle. Qed.

#[export] Instance screenKnowHow_settles fields : Settles (screenKnowHow secret fields).
Proof. unfold screenKnowHow. settle. Qed.

#[export] Instance screenPaths_settles anchors routes path : Settles (screenKnowHowPaths secret anchors routes path).
Proof. unfold screenKnowHowPaths. settle. Qed.

#[export] Instance inactive_settles note : Settles (inactive_note note).
Proof. unfold inactive_note. settle. Qed.

#[export] Instance know_how_settles work op entry `{!∀ s, Settles (entry s)} : Settles (knowHowStep work op entry).
Proof. unfold knowHowStep. settle. Qed.

Lemma revoke_settles work id : Settles (step_revoke work id).
Proof.
  unfold step_revoke. destruct (last_index _ _ _ _) as [i|] eqn:Hi; [|settle].
  apply last_index_last in Hi as (a & Ha & _). rewrite Ha. settle.
Qed.

#[export] Instance step_operation_settles work p : Settles (step_operation secret ctx policy work p).
Proof.
  destruct p; cbn [step_operation]; try apply revoke_settles;
    unfold step_refine, step_hold, step_release, step_reason, step_reopen, step_complete, step_attach, step_progress,
      step_grant, know_how_add, know_how_retract, know_how_reconfirm; settle.
  all: apply know_how_settles; intros; settle.
Qed.

#[export] Instance step_settles work p : Settles (step secret ctx policy work p).
Proof. unfold step. settle. Qed.
End step.

(** ** The checks and writes *)

(** Every ticket of the inventory can be read. *)
Definition loads (inv : Inventory) : Prop :=
  ∀ id, match (Inventory_Get inv id).2 with Found _ | Absent => True | _ => False end.

Section writer.
Context (sha256 : string → string) (secret : string → bool) (ord : bool).
Context (ctx : MutationContext) (queue : Queue) (policy : Policy) (inv : Inventory).
Context (Hloads : loads inv).

#[local] Instance get_settles id : Settles (get inv id).
Proof using Hloads. unfold get. specialize (Hloads id). by destruct (Inventory_Get inv id).2. Qed.

#[local] Instance prerequisites_settles ps i : Settles (checkPrerequisites_loop policy inv i ps).
Proof using Hloads. revert i. induction ps as [|p ps IH]; intros i; cbn [checkPrerequisites_loop]; settle. Qed.

#[local] Instance dependencies_settles work : Settles (check_dependencies inv work).
Proof. unfold check_dependencies. destruct (CheckDependencies_cases inv work) as (r & -> & _). settle. Qed.

#[local] Instance gates_settles work : Settles (check_gates policy work).
Proof. unfold check_gates. settle. Qed.

#[local] Instance exists_settles format t : Settles (check_exists inv format t).
Proof using Hloads. unfold check_exists. settle. Qed.

#[local] Instance checkRecord_settles pre work : Settles (checkRecord policy inv pre work).
Proof using Hloads. unfold checkRecord, checkPrerequisites. settle. Qed.

#[local] Instance revalidate_settles work : Settles (revalidate ord work).
Proof. unfold revalidate, clone. settle. Qed.

#[local] Instance attempt_settles work : Settles (check_attempt ctx work).
Proof. unfold check_attempt. settle. Qed.

#[local] Instance finalize_settles pre work forced : Settles (finalize sha256 ord ctx policy inv pre work forced).
Proof using Hloads. unfold finalize. settle. Qed.

#[local] Instance advances_settles pre work format : Settles (advances_only pre work format).
Proof. unfold advances_only. settle. Qed.

#[local] Instance allocate_settles tries q n : Settles (allocate_loop inv tries q n).
Proof. revert n. induction tries as [|tries IH]; intros n; cbn [allocate_loop]; settle. Qed.

#[local] Instance token_settles p : Settles (create_token queue inv p).
Proof. unfold create_token, allocateSerial. settle. Qed.

#[local] Instance create_settles p : Settles (create_record ord ctx queue policy inv p).
Proof using Hloads. unfold create_record, create_role, clone. settle. Qed.

#[local] Instance note_screen_settles v text : Settles (noteScreen secret v text).
Proof. unfold noteScreen. settle. Qed.

#[local] Instance Propose_ends c raw : Ends (ProposeOperatorNote sha256 ord c raw).
Proof. unfold ProposeOperatorNote, note_checks, note_record, prior_note, note_malformed. ends. Qed.

#[local] Instance note_settles env pre : Settles (note_record_of sha256 secret ord ctx queue policy inv env pre).
Proof using Hloads. unfold note_record_of. settle. Qed.

#[local] Instance review_settles env pre : Settles (review_record_of sha256 ord ctx policy inv env pre).
Proof using Hloads. unfold review_record_of. settle. Qed.

(** ** Obligations *)

#[local] Instance ledger_settles pre : Settles (current_ledger sha256 ctx pre).
Proof.
  unfold current_ledger. destruct (rec_ObligationsRef pre) as [ref|]; [|settle].
  destruct (FoldObligationChain_cases sha256 (event_read ctx) (rec_TicketID pre) ref) as [[l ->]|(e & -> & _)]; settle.
Qed.

#[local] Instance prefix_settles pre prefix : Settles (free_prefix inv pre prefix).
Proof using Hloads. unfold free_prefix. apply each_check_settles. intros id. settle. Qed.

#[local] Instance mismatch_settles what : Settles (credit_mismatch what).
Proof. unfold credit_mismatch. settle. Qed.

#[local] Instance report_settles c l w : Settles (report_matches c l w).
Proof. unfold report_matches. settle. Qed.

#[local] Instance screen_obligations_settles p : Settles (screenObligations secret p).
Proof. unfold screenObligations. settle. Qed.

#[local] Instance checks_settles pre ledger p : Settles (ledger_checks secret ctx inv pre ledger p).
Proof using Hloads. unfold ledger_checks. settle. Qed.

#[local] Instance authority_settles pre p : Settles (obligationAuthority ctx policy pre p).
Proof.
  unfold obligationAuthority, set_authority, witness_authority, witness_repository, worker_witness. settle.
  all: apply each_check_settles; intros; unfold owner_change, scoped_change, cited_change; settle.
  apply each_check_settles. intros. settle.
Qed.

#[local] Instance event_settles env pre l : Settles (obligation_event sha256 env pre l).
Proof. unfold obligation_event. settle. Qed.

(** A WORKER that may write names its attempt, so a raise can name it. *)
Lemma reference_settles pre p next head :
  obligationAuthority ctx policy pre p = Ok tt → Settles (next_reference ctx pre p next head).
Proof.
  intros Ha. unfold next_reference, next_raise. cbv zeta. destruct (next_high_water _ _) as [hw baseline].
  destruct p as [p|p|w]; [settle|settle|]. destruct (_ && _) eqn:Hr; [|settle]. apply andb_true_iff in Hr as [Hr _].
  unfold obligationAuthority, witness_authority in Ha. apply W_bind in Ha as [_ Ha]. apply W_bind in Ha as [_ Ha].
  rewrite Hr in Ha. unfold worker_witness in Ha. destruct (owp_Attempt w), (owp_Generation w); try discriminate Ha. exact I.
Qed.

Lemma obligations_settles env pre op p :
  env_Payload env = PObligations op p → Settles (obligations_record sha256 secret ord ctx policy inv env pre).
Proof using Hloads.
  intros Hp. unfold obligations_record. rewrite Hp. apply bind_settles; [unfold obligation_target; settle|intros [] _].
  apply bind_settles; [apply _|intros [] Ha]. settle. by apply reference_settles.
Qed.

Lemma mutate_settles env pre : is_Some (env_ExpectedRevision env) → Settles (mutate_record sha256 secret ord ctx policy inv env pre).
Proof using Hloads. intros [r Hr]. unfold mutate_record. rewrite Hr. settle. Qed.

Lemma target_settles env : is_Some (env_TargetID env) → Settles (target inv env).
Proof using Hloads. intros [t Ht]. unfold target. rewrite Ht. settle. Qed.

(** ** The plan of an envelope *)

(** What the writer needs of an envelope to answer it. *)
Record answerable (env : Envelope) : Prop := {
  an_target : env_Operation env ≠ OpCreate → is_Some (env_TargetID env);
  an_expected : env_Operation env ≠ OpCreate → IsNoteOperation (env_Operation env) = false →
    IsReviewOperation (env_Operation env) = false → is_Some (env_ExpectedRevision env);
  an_obligations : IsObligationOperation (env_Operation env) = true → ∃ op p, env_Payload env = PObligations op p
}.

Lemma orelse_returns {A} plan (m : W A) k : Settles m → (∀ a, m = Ok a → ∃ p : Plan, k a = Ok p) → ∃ p, orelse plan m k = Ok p.
Proof. intros Hm Hk. destruct m as [a|[r| |]|]; try done; [by apply Hk|by eexists]. Qed.

Lemma apply_operation_returns plan env :
  answerable env → ∃ p, apply_operation sha256 secret ord ctx queue policy inv plan env = Ok p.
Proof using Hloads.
  intros [Ht He Ho]. unfold apply_operation. cbv zeta. apply orelse_returns; [settle|intros [] _].
  destruct (env_Operation env =s OpCreate) eqn:Hc.
  { destruct (env_Payload env); try by eexists. apply orelse_returns; [apply _|]. intros [? ?] _. by eexists. }
  apply String.eqb_neq in Hc. destruct (negb _); [by eexists|].
  specialize (Ht Hc). specialize (He Hc). pose proof (target_settles env Ht).
  destruct (IsNoteOperation _); [|destruct (IsReviewOperation _)]; [| |destruct (IsObligationOperation _)].
  - apply orelse_returns; [done|intros pre _]. apply orelse_returns; [apply _|intros]. by eexists.
  - apply orelse_returns; [done|intros pre _]. apply orelse_returns; [apply _|intros]. by eexists.
  - destruct (Ho eq_refl) as (op & q & Hp). apply orelse_returns; [done|intros pre _].
    apply orelse_returns; [by eapply obligations_settles|intros]. by eexists.
  - apply orelse_returns; [done|intros pre _]. apply orelse_returns; [by apply mutate_settles; apply He|intros]. by eexists.
Qed.
End writer.

Lemma Apply_returns sha256 secret ord ctx env :
  answerable env → (∀ inv, ctx_Inventory ctx = Some inv → loads inv) → ∃ p, Apply sha256 secret ord ctx env = Ok p.
Proof.
  intros He Hl. unfold Apply. cbv zeta. apply orelse_returns.
  - unfold check_envelope, Binding_validate, check_actor, checkInputs. settle.
  - intros [[queue policy] inv] Hc. destruct (replay _ _ _); [by eexists|]. apply apply_operation_returns; [|done].
    apply check_envelope_Ok in Hc as (_ & Hc & _). apply Hl. apply Hc.
Qed.

(** ** Envelopes that were decoded *)

Lemma run_value {A} (m : M A) s a : run m s = Ok a → (m s).1 = a.
Proof. unfold run. destruct (m s) as [b t]. destruct (err t); [done|]. by intros [= ->]. Qed.

Lemma obligation_payload op r s :
  IsObligationOperation op = true → ∃ p, (read_mutation op r s).1 = PObligations op p.
Proof.
  unfold IsObligationOperation. rewrite !orb_true_iff, !String.eqb_eq. intros H.
  assert (∃ m : M ObligationPayload, read_mutation op r = (p ← m; mret (PObligations op p))) as [m ->].
  { destruct H as [[->| ->]| ->]; by eexists. }
  unfold mbind, M_bind. destruct (m s) as [p t]. by exists p.
Qed.

Lemma target_checked h :
  target_checks h = None → enh_Operation h ≠ OpCreate → is_Some (enh_TargetID h) ∧
    (IsNoteOperation (enh_Operation h) = false → IsReviewOperation (enh_Operation h) = false → is_Some (enh_ExpectedRevision h)).
Proof.
  unfold target_checks. intros H Hc. destruct (enh_Operation h =s OpCreate) eqn:E; [by apply String.eqb_eq in E|].
  destruct (enh_TargetID h); [|done]. split; [by eexists|]. intros Hn Hr. rewrite Hn, Hr in H.
  destruct (enh_ExpectedRevision h); [by eexists|done].
Qed.

Lemma Decode_answerable data env : Mutation.Decode data = Ok env → answerable env.
Proof.
  unfold Mutation.Decode. destruct (_ <? _); [done|]. intros (v & _ & H)%obind_Ok. destruct (ProfileVersion _ _ _); [done|].
  apply obind_Ok in H as (? & _ & H). destruct ((_ : M string) st0) as [profile st]. destruct (CheckProfile _ _ _); [done|].
  apply obind_Ok in H as (h & _ & H). destruct (target_checks h) eqn:Ht; [done|].
  apply obind_Ok in H as (p & Hp%run_value & [= <-]). split; cbn.
  - intros Hc. by apply target_checked.
  - intros Hc. by apply target_checked.
  - intros Ho. unfold mbind, M_bind in Hp. destruct (Field _ _ _) as [f s]. destruct (obligation_payload _ f s Ho) as [q Hq].
    exists (enh_Operation h), q. by rewrite <-Hp.
Qed.

(** C23: every envelope [Decode] accepts is answered with a plan, done or refused,
    in any context whose inventory loads its records: the writer never panics
    and no loop of it runs out of fuel. *)
Theorem Apply_total sha256 secret ord ctx data env :
  Mutation.Decode data = Ok env → (∀ inv, ctx_Inventory ctx = Some inv → loads inv) →
  ∃ p, Apply sha256 secret ord ctx env = Ok p.
Proof. intros He%Decode_answerable. by apply Apply_returns. Qed.

(** C7: a step is exactly the transition of its operation, let through by the
    row of the role matrix, the restrictions of the role on the record, and the
    rule that an archived ticket is only restored; anything else is refused. *)
Theorem step_spec secret ctx policy work p :
  (∀ w, step secret ctx policy work p = Ok w ↔
    operation p ∈ permittedOps policy (b_Role (ctx_Binding ctx)) ∧ may ctx work (b_Role (ctx_Binding ctx)) p ∧
    (rec_Status work = StatusArchived → operation p = OpRestore) ∧ transition secret ctx policy work p w) ∧
  ((∃ w, step secret ctx policy work p = Ok w) ∨ ∃ r, step secret ctx policy work p = Err (Refuse r)).
Proof.
  split; [intros w; apply step_iff|]. pose proof (step_settles secret ctx policy work p) as H.
  destruct (step _ _ _ _ _) as [w|[r| |]|]; try done; eauto.
Qed.

Definition sample_data : string := EncodeFile (Envelope_Value (sample_envelope "OWNER" (Some "a") sample_hold)).

Lemma sample_loads : loads sample_stock.
Proof.
  intros id. unfold Inventory_Get. destruct (inv_byID sample_stock !! id); [done|]. unfold materialize.
  assert (inv_lazy sample_stock = ∅) as -> by by vm_compute. by rewrite lookup_empty.
Qed.

Lemma Apply_total_witness :
  ∃ env p, Mutation.Decode sample_data = Ok env ∧ Apply sample_sha256 sample_secret false (sample_context "OWNER") env = Ok p.
Proof.
  destruct (Mutation.Decode sample_data) as [env|e|] eqn:H; [|by vm_compute in H..].
  destruct (Apply_total sample_sha256 sample_secret false (sample_context "OWNER") sample_data env H) as [p Hp].
  - intros inv Hi. enough (inv = sample_stock) as -> by apply sample_loads. symmetry. exact (Some_inj sample_stock inv Hi).
  - exists env, p. split; [reflexivity|exact Hp].
Defined.
