(* ===== verification/CreateSpec.v ===== *)
(** * Serials

    The serial [CREATE] allocates is the first free one from the manifest's
    next: the loop finds it within the number of tickets, or stops at the
    largest Count. *)

From S2P Require Import Prelude Utf8 GoStd Codes Limits Value Primitives PrimitivesSpec Ids IdsSpec Parse Reader Ticket Inventory.
From S2P Require Import KnowHow RecordParts RecordCodec Obligations ObligationEvents ObligationLedger Intent Updates.
From S2P Require Import Mutation Outcomes Screen Writer Apply WriterSpec.
Local Open Scope Z_scope.
Local Open Scope go_scope.

(** ** Serial tokens *)

Lemma pad4_digits n : 0 ≤ n → ∃ z, pad4 n = z +:+ strconv.FormatUint n ∧ strconv.digits 0 z = 0 ∧ str_forall strconv.isDigit z = true.
Proof.
  intros Hn. unfold pad4, strconv.FormatInt. destruct (Z.ltb_spec n 0); [lia|].
  destruct (String.length _) as [|[|[|[|]]]]; [exists ε|exists "000"|exists "00"|exists "0"|exists ε]; by split_and!.
Qed.

Lemma pad4_value n : 0 ≤ n → strconv.digits 0 (pad4 n) = n.
Proof.
  intros Hn. destruct (pad4_digits n Hn) as (z & -> & Hz & _). rewrite strconv.digits_app, Hz. by apply strconv.FormatUint_digits.
Qed.

Lemma pad4_isDigit n : 0 ≤ n → str_forall strconv.isDigit (pad4 n) = true.
Proof.
  intros Hn. destruct (pad4_digits n Hn) as (z & -> & _ & Hz). rewrite str_forall_app, Hz. by apply strconv.FormatUint_digits.
Qed.

Lemma str_map_app f a b : str_map f (a +:+ b) = str_map f a +:+ str_map f b.
Proof. induction a as [|c a IH]; [done|]. exact (f_equal (String (f c)) IH). Qed.

Lemma fold_digits s : str_forall strconv.isDigit s = true → FoldToken s = s.
Proof.
  induction s as [|c s IH]; [done|]. cbn. intros [Hc Hs]%andb_true_iff.
  change (str_map _ s) with (FoldToken s). rewrite IH by done. f_equal. revert Hc. clear. by all_bytes c.
Qed.

Section allocate.
Context (inv : Inventory) (q : Queue).

Definition serial (n : Z) : string := q_Prefix q +:+ "-" +:+ pad4 n.

Lemma fold_serial n : 0 ≤ n → FoldToken (serial n) = FoldToken (q_Prefix q) +:+ "-" +:+ pad4 n.
Proof.
  intros Hn. unfold serial. unfold FoldToken at 1, strings.ToLowerASCII. rewrite !str_map_app. do 2 f_equal. by apply fold_digits, pad4_isDigit.
Qed.

Lemma fold_serial_inj n m : 0 ≤ n → 0 ≤ m → FoldToken (serial n) = FoldToken (serial m) → n = m.
Proof.
  intros Hn Hm. rewrite !fold_serial by done. intros H%app_str_inj_l%app_str_inj_l.
  by rewrite <-(pad4_value n), <-(pad4_value m), H.
Qed.

(** A ticket of the inventory has the serial's token. *)
Definition taken (n : Z) : Prop := FoldToken (serial n) ∈ occupied inv.

Lemma taken_bool n : existsb (String.eqb (FoldToken (serial n))) (occupied inv) = true ↔ taken n.
Proof.
  unfold taken. rewrite existsb_exists. split.
  - intros (x & ?%list_elem_of_In & ->%String.eqb_eq). done.
  - intros H. exists (FoldToken (serial n)). split; [by apply list_elem_of_In|apply String.eqb_refl].
Qed.

#[local] Instance taken_dec n : Decision (taken n).
Proof. unfold taken. apply _. Defined.

(** Of as many serials as there are tickets and one more, one is free. *)
Lemma free_serial s : 0 ≤ s → ∃ k, (k ≤ length (inv_ids inv))%nat ∧ ¬ taken (s + Z.of_nat k).
Proof.
  intros Hs. set (ns := (λ k, s + Z.of_nat k) <$> seq 0 (S (length (inv_ids inv)))).
  destruct (decide (Forall (λ n, taken n) ns)) as [Hall|Hex].
  - exfalso. assert (NoDup ((λ n, FoldToken (serial n)) <$> ns)) as Hnd.
    { unfold ns. rewrite <-list_fmap_compose. apply NoDup_fmap_2_strong; [|apply NoDup_seq].
      intros x y _ _ H. apply fold_serial_inj in H; lia. }
    assert ((λ n, FoldToken (serial n)) <$> ns ⊆ occupied inv) as Hsub.
    { intros t (n & -> & Hn)%list_elem_of_fmap. rewrite Forall_forall in Hall. by apply Hall. }
    apply NoDup_submseteq in Hsub; [|done]. apply submseteq_length in Hsub.
    unfold ns in Hsub. rewrite !length_fmap, length_seq in Hsub. unfold occupied in Hsub.
    pose proof (length_omap (λ id, (λ s, FoldToken (TicketID_Local (sum_TicketID s))) <$> Inventory_Summary inv id) (IDs inv)) as Hl.
    unfold IDs in *. lia.
  - apply not_Forall_Exists, Exists_exists in Hex as (n & Hn & Hfree); [|apply _].
    unfold ns in Hn. apply list_elem_of_fmap in Hn as (k & -> & Hk%elem_of_seq). exists k. split; [lia|done].
Qed.

(** The first free serial from [s]. *)
Definition first_free (s n : Z) : Prop := s ≤ n ∧ ¬ taken n ∧ ∀ m, s ≤ m < n → taken m.

Lemma first_free_within k : ∀ s, ¬ taken (s + Z.of_nat k) → ∃ n, first_free s n ∧ n ≤ s + Z.of_nat k.
Proof.
  induction k as [|k IH]; intros s Hk.
  - exists s. rewrite Z.add_0_r in *. split; [|lia]. split_and!; [lia|done|]. intros m ?. lia.
  - destruct (decide (taken s)) as [Hs|Hs].
    + destruct (IH (s + 1)) as (n & (Hn & Hf & Ht) & Hb); [by replace (s + 1 + Z.of_nat k) with (s + Z.of_nat (S k)) by lia|].
      exists n. split; [|lia]. split_and!; [lia|done|]. intros m Hm. destruct (decide (m = s)) as [->|]; [done|]. apply Ht. lia.
    + exists s. split; [|lia]. split_and!; [lia|done|]. intros m ?. lia.
Qed.

(** What the loop answers when [n] is the first free serial. *)
Definition allocated (n : Z) : W (string * string) :=
  if n <? MaxCountValue then
    let* _ := or_refuse (ParseToken "/payload/localToken" (serial n) MaxLocalTokenBytes) in
    Ok (serial n, CountOf (n + 1))
  else refuse OutcomeValidationFailed CodeLimitExceeded "nextSerial %d would exceed the Count maximum; no serial allocated"
         [AInt MaxCountValue].

Lemma int64_succ_small n : n ≤ MaxCountValue → int64_succ n = n + 1.
Proof. unfold int64_succ, MaxCountValue. intros. destruct (Z.eqb_spec n (2 ^ 63 - 1)); [lia|done]. Qed.

Lemma allocate_loop_first tries : ∀ s n,
  0 ≤ s ≤ MaxCountValue → first_free s n → n < s + Z.of_nat tries → allocate_loop inv tries q s = allocated n.
Proof.
  induction tries as [|tries IH]; intros s n Hs (Hn & Hf & Ht) Hb; [lia|]. cbn [allocate_loop].
  rewrite int64_succ_small by lia. destruct (Z.ltb_spec s 0); [lia|]. cbn [orb].
  destruct (Z.ltb_spec MaxCountValue (s + 1)).
  { unfold allocated. destruct (Z.ltb_spec n MaxCountValue); [lia|]. by replace s with MaxCountValue by lia. }
  fold (serial s). destruct (existsb _ _) eqn:He.
  - apply taken_bool in He. apply IH; [lia| |lia]. split_and!; [|done|].
    + destruct (decide (n = s)) as [->|]; [done|lia].
    + intros m ?. apply Ht. lia.
  - destruct (decide (n = s)) as [->|].
    + unfold allocated. by destruct (Z.ltb_spec s MaxCountValue); [|lia].
    + exfalso. assert (taken s) as Hs' by (apply Ht; lia). apply taken_bool in Hs'. congruence.
Qed.

Lemma allocated_first :
  let s := Count_Int (q_NextSerial q) in
  0 ≤ s ≤ MaxCountValue →
  ∃ n, first_free s n ∧ n ≤ s + Inventory_Len inv ∧ allocateSerial inv q = allocated n.
Proof.
  intros s Hs. destruct (free_serial s) as (k & Hk & Hf); [lia|]. apply first_free_within in Hf as (n & Hn & Hb).
  exists n. unfold Inventory_Len. split_and!; [done|lia|]. unfold allocateSerial, Inventory_Len.
  apply allocate_loop_first; [done|done|]. rewrite Nat2Z.id. lia.
Qed.

(** The serial of a new ticket is the first one at or after the manifest's
    next that no ticket has; it is within the number of tickets, so the loop
    never runs out of tries, and it is refused only at the largest Count or for
    a token that is too long. *)
Theorem allocateSerial_spec :
  let s := Count_Int (q_NextSerial q) in
  0 ≤ s ≤ MaxCountValue →
  ∃ n, first_free s n ∧ n ≤ s + Inventory_Len inv ∧ allocateSerial inv q = allocated n.
Proof. exact allocated_first. Qed.
End allocate.

Lemma allocateSerial_spec_witness :
  ∃ n, first_free sample_stock sample_manifest 1 n ∧ n ≤ 3 ∧ allocateSerial sample_stock sample_manifest = allocated sample_manifest n.
Proof. apply (allocateSerial_spec sample_stock sample_manifest). by vm_compute. Defined.

(** ** New tickets

    A planned CREATE writes the first revision of a ticket the queue can be
    extended with: its id and local token are new, and the inventory with it is
    well-formed again. *)

From S2P Require Import Canonical SetsSpec ParseDoc ParsePrint ReaderSpec Result ResultSpec GraphSpec InventorySpec PlanSpec Marks MarksSpec KnowHowSpec Escalations PartsSpec RecordSpec RecordValid NoteEvents ValueSpec StepSpec ApplySpec.

(** ** Ids and tokens *)

(** An id that its text parses to is determined by the text. *)
Lemma parsed_inj t t' : ticket_parsed t → ticket_parsed t' → TicketID_Raw t = TicketID_Raw t' → t = t'.
Proof.
  intros [w H] [w' H'] E. rewrite E in H.
  apply ParseTicketID_spec in H as (a & q & l & Hs & Hl & Ha & Hq & Hl' & ->).
  assert (ParseTicketID w' (TicketID_Raw t') = Ok {| TicketID_Raw := TicketID_Raw t'; TicketID_Authority := a; TicketID_Queue := q; TicketID_Local := l |}) as E'.
  { apply ParseTicketID_spec. by exists a, q, l. }
  rewrite E' in H'. by injection H'.
Qed.

(** The queue and the local token of an id give its text. *)
Lemma parsed_text t : ticket_parsed t →
  TicketID_Raw t = "ticket:" +:+ TicketID_Authority t +:+ ":" +:+ TicketID_Queue t +:+ ":" +:+ TicketID_Local t.
Proof.
  intros [w H]. apply ParseTicketID_spec in H as (a & q & l & Hs & _ & _ & _ & _ & ->). exact Hs.
Qed.

Section create.
Context (qid : QueueID) (records : list Record_) (closed : list Summary) (load : option Loader) (inv : Inventory).
Context (Hinv : NewLazyInventory qid records closed load = Ok inv).

Let all : list Summary := (SummaryOf <$> records) ++ closed.

Lemma inventory_holds : good qid all ∧ Z.of_nat (length all) ≤ MaxTicketsPerQueue ∧ inventory_of qid records closed load inv.
Proof using Hinv. pose proof (NewLazyInventory_cases qid records closed load) as H. by rewrite Hinv in H. Qed.

Lemma occupied_tokens f : f ∈ occupied inv ↔ f ∈ stokens all.
Proof using Hinv.
  destruct inventory_holds as (_ & _ & Hio). unfold occupied, stokens. rewrite list_elem_of_omap, list_elem_of_fmap. unfold IDs, Inventory_Summary.
  split.
  - intros (id & _ & H). destruct (inv_sum inv !! id) as [s|] eqn:Hs; [|done]. injection H as <-.
    apply (io_sum _ _ _ _ _ Hio) in Hs as [Hs _]. by exists s.
  - intros (s & -> & Hs). exists (sid s). rewrite (io_ids _ _ _ _ _ Hio). split; [by apply (list_elem_of_fmap_2 (λ s, sid s))|].
    assert (inv_sum inv !! sid s = Some s) as -> by by apply (io_sum _ _ _ _ _ Hio). done.
Qed.

Lemma checked_token local : CheckLocalToken inv local = None ↔ FoldToken local ∉ stokens all.
Proof using Hinv.
  destruct inventory_holds as (_ & _ & Hio). unfold CheckLocalToken. rewrite CheckLocalToken_loop_None. setoid_rewrite (io_ids _ _ _ _ _ Hio).
  unfold stokens, sids. split.
  - intros H (s & Hf & Hs)%list_elem_of_fmap. apply (H (sid s)); [by apply (list_elem_of_fmap_2 (λ s, sid s))|].
    assert (inv_sum inv !! sid s = Some s) as -> by by apply (io_sum _ _ _ _ _ Hio). done.
  - intros H id (s & -> & Hs)%list_elem_of_fmap. assert (inv_sum inv !! sid s = Some s) as -> by by apply (io_sum _ _ _ _ _ Hio).
    intros Hf. apply H. apply list_elem_of_fmap. by exists s.
Qed.

(** The token of a new ticket is free. *)
Lemma created_token queue cp t : 0 ≤ Count_Int (q_NextSerial queue) ≤ MaxCountValue →
  create_token queue inv cp = Ok t → FoldToken t.1 ∉ stokens all.
Proof using Hinv.
  intros Hs H. unfold create_token in H. destruct (cp_LocalToken cp) as [local|].
  - apply W_bind in H as [Hc [= <-]]. by apply refuse_error_Ok, checked_token in Hc.
  - apply obind_Ok in H as ([c n] & Ha & [= <-]). cbn [fst]. destruct (allocated_first inv queue Hs) as (m & (_ & Hf & _) & _ & Hal).
    rewrite Hal in Ha. unfold allocated in Ha. destruct (_ <? _); [|done]. apply obind_Ok in Ha as (? & _ & [= <- _]).
    unfold taken in Hf. by rewrite occupied_tokens in Hf.
Qed.
End create.

(** ** The queue of an id *)

Definition no_colon (s : string) : Prop := str_forall (λ c, negb (c =b ":")) s = true.

(** A part before the first colon is determined. *)
Lemma colon_inj a a' r r' : no_colon a → no_colon a' → a +:+ ":" +:+ r = a' +:+ ":" +:+ r' → a = a' ∧ r = r'.
Proof.
  unfold no_colon. revert a'. induction a as [|c a IH]; intros [|c' a'] Ha Ha' H.
  - split; [done|]. by apply (app_str_inj_l ":") in H.
  - exfalso. injection H as Hc _. subst c'. done.
  - exfalso. injection H as Hc _. subst c. done.
  - apply andb_true_iff in Ha as [_ Ha], Ha' as [_ Ha']. injection H as -> H. by destruct (IH _ Ha Ha' H) as [-> ->].
Qed.

(** A queue's id is the one its text parses to. *)
Definition queue_parsed (q : QueueID) : Prop := ∃ w, ParseQueueID w (QueueID_Raw q) = Ok q.

Lemma queue_text q : queue_parsed q →
  no_colon (QueueID_Authority q) ∧ no_colon (QueueID_Queue q) ∧
  QueueID_Raw q = "queue:" +:+ QueueID_Authority q +:+ ":" +:+ QueueID_Queue q.
Proof.
  intros [w H]. unfold ParseQueueID in H. destruct (checkIDLength _ _); [done|].
  destruct (strings.Split _ _) as [|k [|a [|n [|]]]] eqn:Hs; try done. destruct (k =s "queue") eqn:Hk; [|done]. apply String.eqb_eq in Hk as ->.
  cbn [negb] in H. apply obind_Ok in H as (? & [_ Ha]%ParseToken_Ok & H). apply obind_Ok in H as (? & [_ Hn]%ParseToken_Ok & H).
  injection H as <-. cbn. split_and!; [by eapply token_no_colon..|]. by apply Split_colon in Hs.
Qed.

Lemma id_of_queue q local w id :
  queue_parsed q → ParseTicketID w ("ticket:" +:+ QueueID_Authority q +:+ ":" +:+ QueueID_Queue q +:+ ":" +:+ local) = Ok id →
  ticket_parsed id ∧ TicketID_QueueID id = QueueID_Raw q ∧ TicketID_Local id = local.
Proof.
  intros (Ha & Hq & Hraw)%queue_text H. pose proof (ParseTicketID_raw _ _ _ H) as Hid. split; [exists w; by rewrite Hid|].
  apply ParseTicketID_spec in H as (a & n & l & Hs & _ & Ha'%token_no_colon & Hn%token_no_colon & _ & ->). cbn.
  apply (app_str_inj_l "ticket:") in Hs. apply colon_inj in Hs as [Ea Hs]; [|done..]. apply colon_inj in Hs as [En El]; [|done..].
  unfold TicketID_QueueID. cbn. by rewrite Hraw, Ea, En, El.
Qed.

(** ** The queue with its new ticket *)

#[export] Instance good_proper queue : Proper (Permutation ==> iff) (good queue).
Proof.
  assert (∀ l l', l ≡ₚ l' → good queue l → good queue l') as H; [|by intros l l' E; split; apply H].
  intros l l' E [Hq Hi Ht]. split; unfold sids, stokens in *; by rewrite <-?E.
Qed.

(** The first revision of the ticket the payload asks for. *)
Record first_revision (ctx : MutationContext) (cp : CreatePayload) (post : Record_) : Prop := {
  fr_revision : rec_Revision post = "1" ∧ rec_AcceptanceRevision post = "1" ∧ rec_PreviousRecordSha256 post = None;
  fr_status : phase post = (if opens (created_record ctx cp (rec_TicketID post)) then StatusOpen else StatusDraft, None);
  fr_created : rec_CreatedAt post = ctx_Now ctx;
  fr_payload : same_value post (created_record ctx cp (rec_TicketID post));
  fr_token l : cp_LocalToken cp = Some l → TicketID_Local (rec_TicketID post) = l
}.

Section created.
Context (qid : QueueID) (records : list Record_) (closed : list Summary) (load : option Loader) (inv : Inventory).
Context (Hinv : NewLazyInventory qid records closed load = Ok inv).
Context (Hids : Forall (λ s, ticket_parsed (sum_TicketID s)) ((SummaryOf <$> records) ++ closed)).

(** A ticket with a new token has a new id. *)
Lemma extends post :
  ticket_parsed (rec_TicketID post) → TicketID_QueueID (rec_TicketID post) = QueueID_Raw qid →
  FoldToken (TicketID_Local (rec_TicketID post)) ∉ stokens ((SummaryOf <$> records) ++ closed) → Inventory_Len inv < MaxTicketsPerQueue →
  ∃ inv', NewLazyInventory qid (records ++ [post]) closed load = Ok inv'.
Proof using Hinv Hids.
  intros Hp Hq Ht Hn. pose proof (inventory_holds _ _ _ _ _ Hinv) as (Hg & _ & Hio).
  assert ((SummaryOf <$> records ++ [post]) ++ closed ≡ₚ ((SummaryOf <$> records) ++ closed) ++ [SummaryOf post]) as E.
  { rewrite fmap_app, <-!app_assoc. apply Permutation_app_head. apply Permutation_app_comm. }
  assert (good qid ((SummaryOf <$> records ++ [post]) ++ closed)) as Hg'.
  { rewrite E. apply good_snoc. split_and!; [done|done| |done]. unfold sids. intros (s & Hs & Hin)%list_elem_of_fmap.
    rewrite Forall_forall in Hids. specialize (Hids s Hin).
    assert (rec_TicketID post = sum_TicketID s) as Et by by apply parsed_inj.
    apply Ht. unfold stokens. apply list_elem_of_fmap. exists s. split; [|done]. unfold stoken. by rewrite Et. }
  pose proof (NewLazyInventory_cases qid (records ++ [post]) closed load) as H. cbv zeta in H.
  destruct (NewLazyInventory qid (records ++ [post]) closed load) as [inv'|e|]; [by eexists| |done].
  exfalso. destruct H as [[Hlen _]|[Hno _]]; [|done]. apply Permutation_length in E. rewrite E, length_app in Hlen.
  unfold Inventory_Len in Hn. pose proof (io_ids _ _ _ _ _ Hio) as Hi. apply Permutation_length in Hi. unfold sids in Hi.
  rewrite length_fmap in Hi. rewrite Hi in Hn. cbn in Hlen. lia.
Qed.

Context (sha256 : string → string) (secret : string → bool) (ord : bool) (ctx : MutationContext) (queue : Queue).
Context (Hqueue : ctx_Queue ctx = Some queue) (Hinventory : ctx_Inventory ctx = Some inv).
Context (Hqid : queue_parsed (q_QueueID queue)) (Hserial : 0 ≤ Count_Int (q_NextSerial queue) ≤ MaxCountValue).

Lemma created_phase cp id :
  phase (created_record ctx cp id) = (if opens (created_record ctx cp id) then StatusOpen else StatusDraft, None).
Proof.
  unfold created_record. cbv zeta. set (r := {| rec_RequiredRoles := _ |}).
  destruct (opens r) eqn:E; [change (opens (r <| rec_Status := StatusOpen |>)) with (opens r)|]; by rewrite E.
Qed.

Lemma created_first cp t w id post :
  ParseTicketID w ("ticket:" +:+ QueueID_Authority (q_QueueID queue) +:+ ":" +:+ QueueID_Queue (q_QueueID queue) +:+ ":" +:+ t.1) = Ok id →
  create_token queue inv cp = Ok t → clone ord (created_record ctx cp id) = Ok post →
  rec_TicketID post = id ∧ ticket_parsed id ∧ TicketID_QueueID id = QueueID_Raw (q_QueueID queue) ∧ TicketID_Local id = t.1 ∧
    first_revision ctx cp post.
Proof using Hqid.
  intros (Hp & Hq & Hl)%id_of_queue Ht (Hs & _ & Hd)%clone_Ok; [|done].
  assert (rec_TicketID (created_record ctx cp id) = id) as Hid by (unfold created_record; cbv zeta; by destruct (opens _)).
  assert (rec_TicketID post = id) as Hpid.
  { apply parsed_inj; [apply Hd|done|]. by rewrite <-(same_ticketId _ _ Hs), Hid. }
  assert (∀ A (f : Record_ → A) (x : A), f (created_record ctx cp id) = x → f (created_record ctx cp id) = f post → f post = x) as Hsame
    by congruence.
  split_and!; [done..|]. split.
  - split_and!; (eapply Hsame; [|by apply same_revision || apply same_acceptance || apply same_previous]);
      unfold created_record; cbv zeta; by destruct (opens _).
  - rewrite Hpid. eapply Hsame; [apply created_phase|by apply same_phase].
  - eapply Hsame; [|by apply same_createdAt]. unfold created_record; cbv zeta; by destruct (opens _).
  - rewrite Hpid. by symmetry.
  - intros l Hcl. rewrite Hpid, Hl. unfold create_token in Ht. rewrite Hcl in Ht. by apply W_bind in Ht as [_ [= <-]].
Qed.

(** C22: a planned CREATE writes the first revision of the ticket it asks for,
    OPEN when it can be worked on and a DRAFT otherwise, and the queue is
    well-formed with it: its id and folded local token are those of no ticket,
    and the bound on the number of tickets is kept. *)
Theorem Apply_creates env p :
  Apply sha256 secret ord ctx env = Ok p → Planned p = true → env_Operation env = OpCreate →
  ∃ cp post, env_Payload env = PCreate cp ∧ pl_Pre p = None ∧ pl_Post p = Some post ∧ first_revision ctx cp post ∧
    ∃ inv', NewLazyInventory qid (records ++ [post]) closed load = Ok inv'.
Proof using Hinv Hids Hqueue Hinventory Hqid Hserial.
  intros H Hp Hop. apply Apply_planned in H as (queue' & policy & inv0 & Hc & _ & _ & Ha); [|done].
  apply check_envelope_Ok in Hc as (_ & Hc & _). assert (queue' = queue) as -> by (pose proof (co_queue _ _ _ _ Hc); congruence).
  assert (inv0 = inv) as -> by (pose proof (co_inventory _ _ _ _ Hc); congruence).
  destruct Ha as [cp post next _ Hpay Hr ->|]; [|done]. exists cp, post. unfold create_record in Hr.
  apply W_bind in Hr as [_ Hr]. apply W_bind in Hr as [Hmax Hr]. apply obind_Ok in Hr as (t & Ht & Hr).
  apply obind_Ok in Hr as (id & Hid%or_refuse_Ok & Hr). apply obind_Ok in Hr as (work & Hw%or_refuse_Ok & Hr).
  apply W_bind in Hr as [_ Hr]. apply W_bind in Hr as [_ [= -> _]].
  destruct (created_first _ _ _ _ _ Hid Ht Hw) as (Hpid & Hpp & Hpq & Hpl & Hf). split_and!; [done..|].
  destruct (_ && _) in Hmax; [done|]. destruct (Z.leb_spec MaxTicketsPerQueue (Inventory_Len inv)) as [|Hlen]; [done|].
  pose proof (inventory_holds _ _ _ _ _ Hinv) as (_ & _ & Hio).
  apply extends; [by rewrite Hpid| | |done].
  - rewrite Hpid, Hpq, <-(co_same _ _ _ _ Hc). by rewrite (io_queue _ _ _ _ _ Hio).
  - rewrite Hpid, Hpl. by eapply created_token.
Qed.
End created.

(** ** On the sample *)

Definition sample_new : Payload := PCreate (sample_create None).

Lemma sample_new_applied :
  Apply sample_sha256 sample_secret false (sample_context "OWNER") (sample_envelope "OWNER" None sample_new) =
    Ok (sample_plan "OWNER" None sample_new) ∧ Planned (sample_plan "OWNER" None sample_new) = true.
Proof. by vm_compute. Qed.

Lemma sample_ids : Forall (λ s, ticket_parsed (sum_TicketID s)) ((SummaryOf <$> [a_record; b_record]) ++ []).
Proof. repeat constructor; exists ε; vm_compute; reflexivity. Qed.

Lemma Apply_creates_witness :
  ∃ post, pl_Post (sample_plan "OWNER" None sample_new) = Some post ∧
    ∃ inv', NewLazyInventory sample_queue ([a_record; b_record] ++ [post]) [] None = Ok inv'.
Proof.
  destruct (Apply_creates sample_queue [a_record; b_record] [] None sample_stock ltac:(vm_compute; reflexivity) sample_ids
    sample_sha256 sample_secret false (sample_context "OWNER") sample_manifest eq_refl eq_refl
    ltac:(exists ε; vm_compute; reflexivity) ltac:(vm_compute; split; discriminate)
    (sample_envelope "OWNER" None sample_new) (sample_plan "OWNER" None sample_new))
    as (cp & post & _ & _ & Hpost & _ & Hinv); [apply sample_new_applied..|reflexivity|]. exists post. split; assumption.
Defined.
