(* ===== verification/LedgerWrite.v ===== *)
(** * Obligation writes

    A planned obligation write extends the chain of its ticket: whoever stores
    the event of the plan folds, under the reference of the written record, the
    ledger the writer moved to. *)

From S2P Require Import Prelude Utf8 GoStd Codes Limits Value Canonical Primitives PrimitivesSpec Ids Parse Reader Ticket Updates.
From S2P Require Import Inventory Marks KnowHow RecordParts RecordCodec Obligations ObligationEvents ObligationLedger NoteEvents.
From S2P Require Import EventsSpec LedgerSpec ChainSpec Intent Mutation Outcomes Screen Writer Apply WriterSpec ValueSpec StepSpec ApplySpec.
Local Open Scope Z_scope.
Local Open Scope go_scope.

(** ** The reference *)

(** The acceptance's high water never falls, and covers what is witnessed. *)
Record water (pre : Record_) (ref : ObligationsReference) : Prop := {
  water_acceptance : hw_AcceptanceRevision (obl_HighWater ref) = rec_AcceptanceRevision pre;
  water_covers : oc_Witnessed (obl_Counts ref) ≤ hw_Witnessed (obl_HighWater ref);
  water_rises old : rec_ObligationsRef pre = Some old → hw_AcceptanceRevision (obl_HighWater old) = rec_AcceptanceRevision pre →
    hw_Witnessed (obl_HighWater old) ≤ hw_Witnessed (obl_HighWater ref)
}.

Lemma high_water_Ok pre n :
  n ≤ (next_high_water pre n).1 ∧
  ∀ old, rec_ObligationsRef pre = Some old → hw_AcceptanceRevision (obl_HighWater old) = rec_AcceptanceRevision pre →
    hw_Witnessed (obl_HighWater old) ≤ (next_high_water pre n).1.
Proof.
  unfold next_high_water. destruct (rec_ObligationsRef pre) as [o|]; [|by split]. cbv zeta. split.
  - destruct (_ =s _); cbn [fst]; [|done]. destruct (Z.ltb_spec n (hw_Witnessed (obl_HighWater o))); lia.
  - intros old [= <-] ->. rewrite String.eqb_refl. cbn [fst]. destruct (Z.ltb_spec n (hw_Witnessed (obl_HighWater o))); lia.
Qed.

Lemma next_reference_Ok ctx pre p next head ref :
  next_reference ctx pre p next head = Ok ref →
  obl_Head ref = head ∧ obl_Revision ref = CountOf (led_Revision next) ∧ obl_Prefix ref = led_Prefix next ∧
  obl_Counts ref = ObligationLedger_Counts (Some next) ∧ water pre ref.
Proof.
  unfold next_reference. cbv zeta. destruct (next_high_water _ _) as [hw baseline] eqn:Hh. intros (raise & _ & [= <-])%obind_Ok.
  pose proof (high_water_Ok pre (oc_Witnessed (ObligationLedger_Counts (Some next)))) as [? ?]. rewrite Hh in *. by split_and!.
Qed.

Section write.
Context (sha256 : string → string) (secret : string → bool) (ord : bool) (ctx : MutationContext).

(** The chain the ledger of the record is folded from. *)
Lemma current_ledger_Ok pre l :
  current_ledger sha256 ctx pre = Ok l →
  ∃ head chain, history sha256 (event_read ctx) (rec_TicketID pre) head chain ∧ fold_chain None chain = Ok l.
Proof.
  unfold current_ledger. destruct (rec_ObligationsRef pre) as [ref|].
  - destruct (FoldObligationChain _ _ _ _) as [l'|e|] eqn:Hf; [|done..]. intros [= <-].
    apply FoldObligationChain_Ok in Hf as (chain & Hc & _ & Hf & _). by exists (Some (obl_Head ref)), chain.
  - intros [= <-]. exists None, []. split; [constructor|done].
Qed.

Lemma obligation_event_Ok env pre l blob next :
  obligation_event sha256 env pre l = Ok (blob, next) →
  ∃ ev, DecodeObligationEvent sha256 blob = Ok ev ∧ TicketID_Raw (oev_TicketID ev) = TicketID_Raw (rec_TicketID pre) ∧
    ApplyObligationEvent l ev (Sum sha256 blob) = Ok next.
Proof.
  unfold obligation_event. cbv zeta. destruct (_ <=? _); [done|]. intros (b & Hb%or_refuse_Ok & H)%obind_Ok.
  apply obind_Ok in H as (ev & He%or_refuse_Ok & H). apply obind_Ok in H as (n & Hn%or_refuse_Ok & [= -> ->]).
  apply ObligationEvent_Encode_decode in Hb as (ev' & He' & Ht & _). assert (ev' = ev) as -> by congruence. by exists ev.
Qed.

(** The evidence store after the event is stored under its digest. *)
Definition stored (event : string) (d : string) : goerror + option string :=
  inr ((<[Sum sha256 event := event]> (ctx_ObligationEvents ctx)) !! d).

(** Storing an event hides no other, unless the digest collides. *)
Lemma stored_events event id id' :
  TicketID_Raw id = TicketID_Raw id' →
  (∀ d ev, chain_event sha256 (event_read ctx) id d = Ok ev → chain_event sha256 (stored event) id' d = Ok ev) ∨ collision sha256.
Proof.
  intros Hid. destruct (ctx_ObligationEvents ctx !! Sum sha256 event) as [raw|] eqn:Hs.
  - destruct (decide (raw = event)) as [->|Hne]; [left|].
    + intros d ev (raw & Hr & Hd & He & Ht)%chain_event_Ok. apply chain_event_Ok. exists raw. split_and!; [|done|done|congruence].
      unfold stored. rewrite <-Hr. unfold event_read. by rewrite insert_id.
    + destruct (decide (Sum sha256 raw = Sum sha256 event)) as [E|E]; [right; by exists raw, event|left].
      intros d ev (r & Hr & Hd & He & Ht)%chain_event_Ok. apply chain_event_Ok. exists r. split_and!; [|done|done|congruence].
      unfold stored. rewrite lookup_insert_ne; [done|]. intros Hd'. unfold event_read in Hr. rewrite <-Hd', Hs in Hr. congruence.
  - left. intros d ev (r & Hr & Hd & He & Ht)%chain_event_Ok. apply chain_event_Ok. exists r. split_and!; [|done|done|congruence].
    unfold stored. rewrite lookup_insert_ne; [done|]. intros Hd'. unfold event_read in Hr. rewrite <-Hd', Hs in Hr. congruence.
Qed.

Lemma advances_only_Ok pre work format :
  advances_only pre work format = Ok tt → rec_AcceptanceRevision work = rec_AcceptanceRevision pre.
Proof.
  unfold advances_only. destruct (_ || _) eqn:H; [done|]. intros _. apply orb_false_iff in H as [_ H].
  by apply negb_false_iff, String.eqb_eq in H.
Qed.

(** The reference describes the ledger at its head. *)
Lemma described pre p next head ref l :
  next_reference ctx pre p next head = Ok ref → ledger_ok l next → matches_reference next ref = true.
Proof.
  intros (_ & Hr & Hp & Hc & _)%next_reference_Ok Hok. apply matches_reference_spec. split_and!; [|done|done].
  rewrite Hr, Count_Int_CountOf; [done|]. pose proof (ledger_bound _ _ Hok). unfold ObligationsMaxEvents, MaxCountValue in *. lia.
Qed.

Lemma obligations_record_Ok policy inv env pre post event :
  obligations_record sha256 secret ord ctx policy inv env pre = Ok (post, event) →
  ∃ p l next ref, current_ledger sha256 ctx pre = Ok l ∧ obligation_event sha256 env pre l = Ok (event, next) ∧
    next_reference ctx pre p next (Sum sha256 event) = Ok ref ∧ rec_ObligationsRef post = Some ref ∧
    rec_AcceptanceRevision post = rec_AcceptanceRevision pre ∧ TicketID_Raw (rec_TicketID post) = TicketID_Raw (rec_TicketID pre).
Proof.
  intros H. unfold obligations_record in H. apply W_bind in H as [_ H]. destruct (env_Payload env) as [| | | | | | | | | | | | | | | | | | |op p]; try done.
  apply W_bind in H as [_ H]. apply obind_Ok in H as (l & Hl & H). apply W_bind in H as [_ H].
  apply obind_Ok in H as ([blob next] & He & H). apply obind_Ok in H as (ref & Hr & H).
  apply obind_Ok in H as (work & Hw%clone_canonical_Ok & H). apply obind_Ok in H as (w & Hf%finalize_Ok & H).
  apply W_bind in H as [Ha [= -> ->]]. exists p, l, next, ref. apply advances_only_Ok in Ha. destruct Hf as [_ _ _ -> _ _ _].
  split_and!; try done. apply clone_Ok in Hw as (Hs & _). cbn. symmetry. by apply same_ticketId.
Qed.

(** C17: a planned obligation write keeps the acceptance, never lowers its high
    water, and moves its ticket's ledger by one event: the ledger folded from
    the reference before, by the event of the plan, is the one the reference
    after describes in prefix, revision and counts; and once the event is stored
    under its digest, a reader folds the written reference to that very ledger,
    unless two texts have one digest. *)
Theorem Apply_obligations env p :
  Apply sha256 secret ord ctx env = Ok p → Planned p = true → IsObligationOperation (env_Operation env) = true →
  ∃ pre post event ref l ev next, pl_Pre p = Some pre ∧ pl_Post p = Some post ∧ pl_DerivedEvent p = Some event ∧
    rec_ObligationsRef post = Some ref ∧ obl_Head ref = Sum sha256 event ∧
    rec_AcceptanceRevision post = rec_AcceptanceRevision pre ∧ water pre ref ∧
    current_ledger sha256 ctx pre = Ok l ∧ DecodeObligationEvent sha256 event = Ok ev ∧
    ApplyObligationEvent l ev (Sum sha256 event) = Ok next ∧
    obl_Prefix ref = led_Prefix next ∧ obl_Revision ref = CountOf (led_Revision next) ∧
    obl_Counts ref = ObligationLedger_Counts (Some next) ∧
    (FoldObligationChain sha256 (stored event) (rec_TicketID post) ref = Ok next ∨ collision sha256).
Proof.
  intros H Hp Hop. unfold Apply in H. apply orelse_planned in H as ([[queue policy] inv] & _ & H); [|done].
  destruct (replay _ _ _); [injection H as <-; by rewrite outcome_not_planned in Hp|].
  apply derived_planned in H as (pre & [post event] & _ & Hpre & Hpost & Hev & Hw); [|done|].
  2:{ unfold DeclaresDerivedEvent. by rewrite Hop, orb_true_r. }
  assert (IsNoteOperation (env_Operation env) = false ∧ IsReviewOperation (env_Operation env) = false) as [Hn Hr].
  { unfold IsObligationOperation in Hop. rewrite !orb_true_iff, !String.eqb_eq in Hop. by destruct Hop as [[->| ->]| ->]. }
  rewrite Hn, Hr in Hw. apply obligations_record_Ok in Hw as (q & l & next & ref & Hl & He & Href & Hpr & Hacc & Hid).
  pose proof (next_reference_Ok _ _ _ _ _ _ Href) as (Hh & Hrev & Hpfx & Hcnt & Hwater).
  apply obligation_event_Ok in He as (ev & Hdec & Ht & Ha).
  exists pre, post, event, ref, l, ev, next. split_and!; [done..|].
  apply current_ledger_Ok in Hl as (head & chain & Hc & Hf).
  destruct (stored_events event _ _ (eq_sym Hid)) as [Hst|]; [left|by right].
  destruct (fold_history _ _ _ _ _ Hc _ Hf) as (Hok & _). destruct (DecodeObligationEvent_ok _ _ _ Hdec) as [Hevok _].
  pose proof (ApplyObligationEvent_keeps _ _ l _ _ _ Hevok Ht Hok Ha) as Hok'.
  eapply FoldObligationChain_extend; [by eapply history_weaken|done|done|congruence|done| |done|by eapply described].
  unfold stored. by rewrite lookup_insert_eq.
Qed.
End write.

(** ** On the sample *)

Definition sample_seed : Payload :=
  PObligations OpObligationsSeed
    (PSeed {| osd_Prefix := "A"; osd_Obligations := [{| osi_ID := "A-1"; osi_Alias := ε; osi_Title := "t"; osi_Core := true |}] |}).

Lemma sample_seed_applied :
  Apply sample_sha256 sample_secret false (sample_context "OWNER") (sample_sent "OWNER" (Some "a") sample_seed) =
    Ok (sent_plan "OWNER" (Some "a") sample_seed) ∧ Planned (sent_plan "OWNER" (Some "a") sample_seed) = true ∧
  IsObligationOperation (env_Operation (sample_sent "OWNER" (Some "a") sample_seed)) = true.
Proof. by vm_compute. Qed.

Lemma Apply_obligations_witness :
  ∃ event ref next, pl_DerivedEvent (sent_plan "OWNER" (Some "a") sample_seed) = Some event ∧ obl_Head ref = Sum sample_sha256 event ∧
    (FoldObligationChain sample_sha256 (stored sample_sha256 (sample_context "OWNER") event) (sample_id "a") ref = Ok next ∨
     collision sample_sha256).
Proof.
  destruct (Apply_obligations sample_sha256 sample_secret false (sample_context "OWNER") (sample_sent "OWNER" (Some "a") sample_seed)
    (sent_plan "OWNER" (Some "a") sample_seed)) as (pre & post & event & ref & l & ev & next & _ & Hpost & He & _ & Hh & _ & _ & _ & _ & _ & _ & _ & _ & Hf);
    [apply sample_seed_applied..|]. exists event, ref, next. split; [exact He|]. split; [exact Hh|].
  assert (rec_TicketID <$> pl_Post (sent_plan "OWNER" (Some "a") sample_seed) = Some (sample_id "a")) as Hid by (vm_compute; reflexivity).
  rewrite Hpost in Hid. injection Hid as <-. exact Hf.
Defined.
