(* ===== verification/AdoptSpec.v ===== *)
(** * Adopting a file

    An adopted file is what the written record says: they agree on every
    member the composition rule covers, nothing protected changed, and the
    composition is one revision of its canonical record. *)

From S2P Require Import Prelude Utf8 GoStd Codes Limits Value Canonical Primitives Ids.
From S2P Require Import SetsSpec PrimitivesSpec IdsSpec Parse ParseDoc ParsePrint.
From S2P Require Import Reader ReaderSpec Result ResultSpec Ticket Updates Inventory GraphSpec InventorySpec.
From S2P Require Import Marks MarksSpec KnowHow KnowHowSpec RecordParts Escalations RecordCodec PartsSpec RecordSpec RecordValid.
From S2P Require Import Obligations ObligationEvents ObligationLedger NoteEvents.
From S2P Require Import Intent Mutation Outcomes Screen Writer Apply Adopt ValueSpec WriterSpec StepSpec ApplySpec.
Local Open Scope Z_scope.
Local Open Scope go_scope.

(** ** Members of the written record *)

Lemma record_member_absent r k : k ∉ (record_fields r).*1 → member (Record_Value r) k = VNull.
Proof. intros H. rewrite Record_Value_members. cbn [member]. rewrite Get_absent; [done|]. intros ?. by apply H, Keys_members. Qed.

(** The fields of a record do not depend on it. *)
Lemma field_keys r r' : (record_fields r).*1 = (record_fields r').*1.
Proof. reflexivity. Qed.

(** Only the chain fields, which adopt ignores, are written by [finalize]. *)
Lemma chained_others sha256 ctx pre work b k :
  k ∉ adoptIgnoredFields →
  member (Record_Value (chained sha256 ctx pre work b)) k = member (Record_Value work) k.
Proof.
  intros Hk. destruct (decide (k ∈ (record_fields work).*1)) as [H|H].
  - assert (∃ v, (k, v) ∈ record_fields work ∧ (k, v) ∈ record_fields (chained sha256 ctx pre work b)) as (v & Hw & Hc).
    { unfold adoptIgnoredFields in Hk. cbn [record_fields fmap list_fmap fst] in H.
      repeat (rewrite elem_of_cons in H; destruct H as [->|H];
        [first [solve [eexists; split; in_fields]|exfalso; apply Hk; apply (bool_decide_unpack _); vm_compute; exact I]|]).
      by apply not_elem_of_nil in H. }
    by rewrite (record_member _ _ _ Hw), (record_member _ _ _ Hc).
  - rewrite !record_member_absent; [done|done|]. by rewrite (field_keys _ work).
Qed.

(** ** Steps composed *)

Section adopt.
Context (sha256 : string → string) (secret : string → bool) (ord : bool) (ctx : MutationContext).

Lemma kept_trans a b c : kept a b → kept b c → kept a c.
Proof. intros [] []. split; congruence. Qed.

Lemma compose_steps_Ok policy ops : ∀ work w,
  compose_steps secret ctx policy work ops = Ok w →
  kept work w ∧ composed_steps secret ctx policy work ops = operation <$> ops ∧
  Forall (λ op, op ∈ permittedOps policy (b_Role (ctx_Binding ctx))) (operation <$> ops).
Proof.
  induction ops as [|op ops IH]; intros work w; cbn [compose_steps composed_steps fmap list_fmap].
  - intros [= <-]. split_and!; [by split|done|done].
  - intros (x & Hx & H)%obind_Ok. rewrite Hx. apply step_iff in Hx as (Hop & _ & _ & Ht%transition_kept).
    apply IH in H as (Hk & -> & Hall). split_and!; [by eapply kept_trans|done|by constructor].
Qed.

Lemma union_keys a b k : k ∈ Keys a ∨ k ∈ Keys b → k ∈ unionKeys a b.
Proof.
  intros H. unfold unionKeys, SortedKeys. rewrite elem_of_app, SortStrings_perm.
  destruct (decide (k ∈ Keys a)) as [Ha|Ha]; [by left|right]. destruct H as [?|Hb]; [done|].
  apply list_elem_of_filter. split; [by apply Get_absent|]. by rewrite SortStrings_perm.
Qed.

Lemma no_member r k : k ∉ Keys (object_of (Record_Value r)) → member (Record_Value r) k = VNull.
Proof.
  destruct (Record_Value_object r) as (o & -> & _). cbn [object_of member]. intros H. by rewrite Get_absent.
Qed.

(** What the composition rule promises of the written record and the file. *)
Record agrees_with (canonical file post : Record_) : Prop := {
  ag_fields k : k ∉ adoptIgnoredFields → k ≠ "holds" → k ≠ "status" → fieldChanged post file k = false;
  ag_status : rec_Status post = rec_Status file ∨
    (rec_Status canonical = StatusDraft ∧ rec_Status file = StatusDraft ∧ rec_Status post = StatusOpen);
  ag_holds : Forall2 (λ w f, same_hold w f = true) (rec_Holds post) (rec_Holds file)
}.

Lemma zip_same {A} (f : A → A → bool) l l' :
  length l = length l' → Forall (λ wf, f wf.1 wf.2 = true) (zip l l') → Forall2 (λ w g, f w g = true) l l'.
Proof.
  revert l'. induction l as [|x l IH]; intros [|y l'] Hl; try done; cbn [zip zip_with].
  intros [? ?]%Forall_cons. constructor; [done|]. apply IH; [by injection Hl|done].
Qed.

Lemma covered_agrees canonical work file :
  adoptCovered canonical work file = Ok tt → agrees_with canonical file work.
Proof.
  unfold adoptCovered. intros [Hf H]%W_bind. apply W_bind in H as [Hs Hh]. split.
  - intros k Hk Hn Hst. destruct (decide (k ∈ Keys (object_of (Record_Value work)) ∨ k ∈ Keys (object_of (Record_Value file)))) as [Hin|Hno].
    + rewrite each_check_Ok, Forall_forall in Hf. specialize (Hf k). unfold covered_field in Hf.
      assert (uncompared k = false) as Hu.
      { unfold uncompared. apply orb_false_iff. rewrite orb_false_iff, !String.eqb_neq. split; [split; [|done]|done].
        apply not_true_iff_false. intros (x & ?%list_elem_of_In & ->%String.eqb_eq)%existsb_exists. done. }
      rewrite Hu in Hf. cbn [orb] in Hf. destruct (fieldChanged work file k) eqn:Hc; [|done].
      by specialize (Hf (union_keys _ _ _ Hin)).
    + apply fieldChanged_false. rewrite !no_member; [done|..]; tauto.
  - unfold adoptStatusCovered in Hs. destruct (_ =s rec_Status file) eqn:E; [left; by apply String.eqb_eq|right].
    destruct (_ && _) eqn:E2; [|done]. rewrite !andb_true_iff, !String.eqb_eq in E2. tauto.
  - destruct (negb _) eqn:Hl; [done|]. apply negb_false_iff, Nat.eqb_eq in Hl. apply zip_same; [done|].
    rewrite each_check_Ok in Hh. eapply Forall_impl; [exact Hh|]. intros [w f] H. cbn in *. by destruct (same_hold w f).
Qed.

Lemma chained_agrees canonical file pre work b :
  agrees_with canonical file work → agrees_with canonical file (chained sha256 ctx pre work b).
Proof.
  intros [Hf Hs Hh]. split; [|exact Hs|exact Hh]. intros k Hk Hn Hst. specialize (Hf k Hk Hn Hst).
  rewrite fieldChanged_false in *. by rewrite chained_others.
Qed.

(** ** What the file may not change *)

(** The file changes no protected field, but the derivable statuses. *)
Definition unprotected (canonical file : Record_) : Prop :=
  ∀ k, k ∈ AdoptProtectedFields →
    fieldChanged canonical file k = false ∨
    (k = "status" ∧ derivableStatus (rec_Status canonical) = true ∧ derivableStatus (rec_Status file) = true).

Lemma differs canonical file k : fieldChanged canonical file k = true → k ∈ differingFields canonical file.
Proof.
  intros H. unfold differingFields. apply list_elem_of_filter. split; [done|]. apply union_keys.
  destruct (decide (k ∈ Keys (object_of (Record_Value canonical)) ∨ k ∈ Keys (object_of (Record_Value file)))) as [?|Hno]; [done|].
  assert (fieldChanged canonical file k = false); [|congruence]. apply fieldChanged_false. rewrite !no_member; [done|..]; tauto.
Qed.

Lemma protected_kept canonical file :
  protected_changes canonical file (differingFields canonical file) = [] → unprotected canonical file.
Proof.
  intros H k Hk. destruct (fieldChanged canonical file k) eqn:Hc; [right|by left].
  destruct ((k =s "status") && derivableStatus (rec_Status canonical) && derivableStatus (rec_Status file)) eqn:He.
  - rewrite !andb_true_iff, String.eqb_eq in He. tauto.
  - exfalso. assert (k ∈ protected_changes canonical file (differingFields canonical file)) as Hin; [|rewrite H in Hin; by apply not_elem_of_nil in Hin].
    unfold protected_changes. apply list_elem_of_filter. split; [|done]. rewrite He. cbn [negb]. rewrite andb_true_r.
    apply existsb_exists. exists k. split; [by apply list_elem_of_In, differs|apply String.eqb_refl].
Qed.

Lemma adopt_file_Ok canonical data file ops :
  adopt_file ord canonical data = Ok (file, ops) →
  RecordCodec.Decode ord data = Ok file ∧ TicketID_Raw (rec_TicketID file) = TicketID_Raw (rec_TicketID canonical) ∧
  rec_Status canonical ≠ StatusArchived ∧ unprotected canonical file ∧
  composeAdopt canonical file (differingFields canonical file) = Ok ops.
Proof.
  unfold adopt_file. intros (f & Hd%or_refuse_Ok & H)%obind_Ok. destruct (TicketID_Raw _ =s _) eqn:Hid; [|done]. cbn [negb] in H.
  destruct (_ =s StatusArchived) eqn:Ha; [done|]. cbv zeta in H. apply W_bind in H as [_ H]. apply W_bind in H as [_ H].
  apply W_bind in H as [Hp H]. apply obind_Ok in H as (o & Ho & [= -> ->]). apply String.eqb_eq in Hid. apply String.eqb_neq in Ha.
  split_and!; [done..| |done]. apply protected_kept. by destruct (protected_changes _ _ _).
Qed.

(** C19: a planned adoption is issued by OWNER or OPERATOR; its file, decoded,
    is of the canonical ticket, unarchived, and changes nothing protected; the
    record written is one revision after the canonical one, made of permitted
    operations, and agrees with the file on every member but the chain fields,
    the actor and time of a hold, and a status the composition derives. *)
Theorem Adopt_adopts requestID canonical data p :
  Adopt sha256 secret ord ctx requestID canonical data = Ok p → Planned p = true →
  ∃ policy pre file post, ctx_Policy ctx = Some policy ∧ pl_Pre p = Some pre ∧ pl_Post p = Some post ∧
    b_Role (ctx_Binding ctx) ∈ ["OWNER"; "OPERATOR"] ∧ RecordCodec.Decode ord data = Ok file ∧
    TicketID_Raw (rec_TicketID file) = TicketID_Raw (rec_TicketID pre) ∧ rec_Status pre ≠ StatusArchived ∧ unprotected pre file ∧
    agrees_with pre file post ∧ chains sha256 ord ctx AdoptOperation pre post ∧
    Forall (λ op, op ∈ permittedOps policy (b_Role (ctx_Binding ctx))) (pl_Composed p).
Proof.
  unfold Adopt. cbv zeta. intros H Hp. apply orelse_planned in H as ([[[queue policy] inv] c] & Hi & H); [|done].
  destruct (replay _ _ _) as [out|]; [injection H as <-; by rewrite outcome_not_planned in Hp|].
  apply orelse_planned in H as ([file ops] & Hfile%adopt_file_Ok & H); [|done].
  apply orelse_planned in H as (work & Hw%clone_canonical_Ok & H); [|done]. cbn [fst snd] in H.
  apply orelse_planned in H as (work' & (Hk & Hcs & Hops)%compose_steps_Ok & H); [|done].
  apply orelse_planned in H as (post & Hfin & [= <-]); [|done].
  unfold adopt_inputs in Hi. apply obind_Ok in Hi as (? & _ & Hi). apply W_bind in Hi as [_ Hi]. apply W_bind in Hi as [Hrole Hi].
  apply obind_Ok in Hi as ([[q pol] i] & Hctx%checkInputs_Ok & Hi). apply obind_Ok in Hi as (c' & Ht & [= -> -> -> ->]).
  unfold adopt_finish in Hfin. apply W_bind in Hfin as [Hcov Hfin].
  destruct Hfile as (Hd & Hid & Har & Hun & _). exists policy, c, file, post. split_and!; try done.
  - apply Hctx.
  - unfold adopt_target in Ht. destruct canonical as [can|]; [|done]. cbn [snd fst] in Ht. destruct (negb _) in Ht; [done|].
    apply obind_Ok in Ht as (cur & _ & Ht). destruct (match cur with Some _ => _ | None => _ end) in Ht; [by injection Ht as ->|done].
  - unfold adopt_role in Hrole. destruct (_ || _) eqn:E; [|done]. rewrite orb_true_iff, !String.eqb_eq in E.
    destruct E as [-> | ->]; set_solver.
  - apply covered_agrees in Hcov. apply finalize_Ok in Hfin as [_ _ _ -> _ _ _]. by apply chained_agrees.
  - exact (finalized_chains sha256 secret ord ctx policy inv AdoptOperation c work work' post Hw Hk Hfin).
  - cbn. rewrite Hcs. exact Hops.
Qed.
End adopt.

(** ** On the sample *)

(** The file of [a] with another title and priority. *)
Definition edited_file : string := Record_Encode (a_record <| rec_Priority := "P0" |> <| rec_Title := "u" |>).

Definition edited_plan : Plan :=
  match Adopt sample_sha256 sample_secret false (sample_context "OWNER") "r1" (Some a_record) edited_file with
  | Ok p => p
  | _ => zero_plan ε
  end.

Lemma edited_adopted :
  Adopt sample_sha256 sample_secret false (sample_context "OWNER") "r1" (Some a_record) edited_file = Ok edited_plan ∧
  Planned edited_plan = true.
Proof. by vm_compute. Qed.

Lemma Adopt_adopts_witness :
  ∃ file post, RecordCodec.Decode false edited_file = Ok file ∧ pl_Post edited_plan = Some post ∧ agrees_with a_record file post.
Proof.
  destruct (Adopt_adopts sample_sha256 sample_secret false (sample_context "OWNER") "r1" (Some a_record) edited_file edited_plan)
    as (policy & pre & file & post & _ & Hpre & Hpost & _ & Hd & _ & _ & _ & Ha & _); [apply edited_adopted..|].
  assert (pl_Pre edited_plan = Some a_record) as E by (vm_compute; reflexivity). rewrite E in Hpre. injection Hpre as <-.
  exists file, post. split; [exact Hd|]. split; [exact Hpost|exact Ha].
Defined.
