(* ===== verification/ScreenSpec.v ===== *)
(** * What is never stored

    A planned write stores no text that the secret screen or the declared value
    screen matches: notes, know-how and obligations are screened whole. *)

From S2P Require Import Prelude View Utf8 GoStd Codes Limits Value Canonical Primitives Ids Parse Reader Ticket Updates Inventory.
From S2P Require Import Marks KnowHow RecordParts RecordCodec Obligations ObligationEvents ObligationLedger NoteEvents.
From S2P Require Import Intent Mutation Outcomes Screen Writer Apply WriterSpec ValueSpec StepSpec ApplySpec.
Local Open Scope Z_scope.
Local Open Scope go_scope.

(** The texts of an anchor. *)
Definition anchor_texts (a : KnowHowAnchor) : list string := kha_Path a :: if kha_Symbol a =s ε then [] else [kha_Symbol a].

Definition option_texts (o : option string) : list string := match o with Some s => [s] | None => [] end.

(** The texts a write of the payload stores, of those that are screened. *)
Definition stored_texts (p : Payload) : list string :=
  match p with
  | PKnowHowAdd k =>
      ka_Text k :: option_texts (ka_Reason k) ++ ka_Routes k ++ flat_map anchor_texts (ka_Anchors k) ++ option_texts (ka_EvidencePath k)
  | PKnowHowRetract _ reason => [reason]
  | PKnowHowReconfirm _ anchors _ _ _ => flat_map anchor_texts anchors
  | PObligations op o => if IsObligationOperation op then obligationFields o else []
  | _ => []
  end.

Section screen.
Context (sha256 : string → string) (secret : string → bool) (ord : bool) (ctx : MutationContext).

(** Neither screen matches the text. *)
Definition clear (s : string) : Prop := secret s = false ∧ ValueScreen_Match (ctx_Screen ctx) s = ε.

Lemma screenValues_Ok v fields : screenValues v fields = Ok tt → Forall (λ f, ValueScreen_Match v f.2 = ε) fields.
Proof.
  unfold screenValues. destruct v as [v|]; [|intros _; by apply Forall_forall].
  destruct (filter _ fields) as [|[n t] l] eqn:H; [|done]. intros _. apply Forall_forall. intros f Hf.
  destruct (decide (ValueScreen_Match (Some v) f.2 = ε)) as [?|Hne]; [done|].
  assert (f ∈ filter (λ f, ValueScreen_Match (Some v) f.2 ≠ ε) fields) as Hin by by apply list_elem_of_filter.
  rewrite H in Hin. by apply not_elem_of_nil in Hin.
Qed.

Lemma screenKnowHow_Ok fields : screenKnowHow secret fields = Ok tt → Forall (λ f, secret f.2 = false) fields.
Proof.
  unfold screenKnowHow. destruct (filter _ fields) as [|[n t] l] eqn:H; [|done]. intros _. by apply none_left.
Qed.

Lemma unmatched (l : list string) : existsb secret l = false → Forall (λ s, secret s = false) l.
Proof.
  intros H. apply Forall_forall. intros s Hs. apply not_true_iff_false. intros Ht.
  assert (existsb secret l = true); [|congruence]. apply existsb_exists. exists s. split; [by apply list_elem_of_In|done].
Qed.

Lemma screenPaths_Ok anchors routes path :
  screenKnowHowPaths secret anchors routes path = Ok tt →
  Forall (λ s, secret s = false) (routes ++ flat_map anchor_texts anchors ++ option_texts path).
Proof. unfold screenKnowHowPaths. cbv zeta. destruct (existsb _ _) eqn:H; [done|]. intros _. by apply unmatched. Qed.

(** The texts that were screened by their fields. *)
Lemma clear_fields (l : list string) (fields : list (string * string)) :
  Forall (λ s, secret s = false) l → Forall (λ f, ValueScreen_Match (ctx_Screen ctx) f.2 = ε) fields → l ⊆ fields.*2 → Forall clear l.
Proof.
  rewrite !Forall_forall. intros Hs Hf Hsub s Hin. split; [by apply Hs|].
  apply Hsub, list_elem_of_fmap in Hin as (f & -> & Hf'). by apply Hf.
Qed.

Lemma anchor_fields anchors :
  flat_map anchor_texts anchors ⊆ (flat_map (λ a, [("/payload/anchors", kha_Path a); ("/payload/anchors", kha_Symbol a)]) anchors).*2.
Proof.
  induction anchors as [|a anchors IH]; cbn [flat_map]; [done|]. rewrite fmap_app. cbn. unfold anchor_texts.
  destruct (_ =s ε); set_solver.
Qed.

Lemma noted_clear work p e : noted secret ctx work p e → Forall clear (stored_texts p).
Proof.
  destruct p; cbn [noted stored_texts]; try done; unfold know_how_add, know_how_retract, know_how_reconfirm; cbv zeta; intros H.
  - apply W_bind in H as [_ H]. apply W_bind in H as [Ht%screenKnowHow_Ok H]. apply W_bind in H as [Hp%screenPaths_Ok H].
    apply W_bind in H as [Hv%screenValues_Ok _]. eapply clear_fields; [|exact Hv|].
    + apply Forall_cons. unfold text_fields in Ht. rewrite Forall_app in Ht. destruct Ht as [Ht1 Ht2].
      split; [by apply Forall_inv in Ht1|]. apply Forall_app. split; [|done].
      unfold option_texts. destruct (ka_Reason p); [constructor; [by apply Forall_inv in Ht2|done]|done].
    + pose proof (anchor_fields (ka_Anchors p)). unfold knowHowScreenFields, text_fields, option_texts.
      destruct (ka_Reason p), (ka_EvidencePath p); rewrite ?fmap_app; cbn; rewrite <-?list_fmap_compose; set_solver.
  - apply W_bind in H as [_ H]. apply W_bind in H as [Ht%screenKnowHow_Ok H]. apply W_bind in H as [Hv%screenValues_Ok _].
    apply Forall_singleton. split; [by apply Forall_inv in Ht|by apply Forall_inv in Hv].
  - apply W_bind in H as [_ H]. apply W_bind in H as [_ H]. apply W_bind in H as [Hp%screenPaths_Ok H]. apply W_bind in H as [Hv%screenValues_Ok _].
    eapply clear_fields; [|exact Hv|].
    + cbn in Hp. by rewrite app_nil_r in Hp.
    + pose proof (anchor_fields anchors). unfold knowHowScreenFields. rewrite ?fmap_app. cbn. set_solver.
Qed.

Lemma obligations_clear policy inv env pre w :
  obligations_record sha256 secret ord ctx policy inv env pre = Ok w → Forall clear (stored_texts (env_Payload env)).
Proof.
  unfold obligations_record. intros [_ H]%W_bind. destruct (env_Payload env) as [| | | | | | | | | | | | | | | | | | |op o]; try done. cbn [stored_texts].
  destruct (IsObligationOperation op); [|done].
  apply W_bind in H as [_ H]. apply obind_Ok in H as (l & _ & H). apply W_bind in H as [Hc _]. unfold ledger_checks in Hc.
  apply W_bind in Hc as [_ Hc]. apply W_bind in Hc as [_ Hc]. apply W_bind in Hc as [Hs Hv%screenValues_Ok].
  eapply clear_fields; [|exact Hv|].
  - unfold screenObligations in Hs. destruct (existsb _ _) eqn:E; [done|]. by apply unmatched.
  - unfold obligationScreenFields. rewrite <-list_fmap_compose. by rewrite list_fmap_id.
Qed.

(** The note of a payload, stored when a value screen is declared. *)
Definition note_text (p : Payload) : list string :=
  match p with PNote op text _ => if op =s OpNoteSet then [text] else [] | _ => [] end.

Lemma note_clear queue policy inv env pre w :
  is_Some (ctx_Screen ctx) → note_record_of sha256 secret ord ctx queue policy inv env pre = Ok w → Forall clear (note_text (env_Payload env)).
Proof.
  intros [v Hv]. unfold note_record_of. intros [H _]%W_bind. destruct (env_Payload env); try done. cbn [note_text].
  destruct (_ =s OpNoteSet); [|done]. unfold noteScreen in H. rewrite Hv in H. destruct (secret _) eqn:Hs; [done|].
  apply screenValues_Ok, Forall_inv in H. apply Forall_singleton. split; [done|]. by rewrite Hv.
Qed.

(** The operation that was planned is the payload's. *)
Lemma planned_operation env p :
  Apply sha256 secret ord ctx env = Ok p → Planned p = true → operation (env_Payload env) = env_Operation env.
Proof.
  intros H Hp. apply Apply_planned in H as (q & pol & i & _ & _ & _ & [cp post next Hc Hpay _ _|]); [by rewrite Hpay, Hc|done..].
Qed.

Lemma planned_derived env p :
  Apply sha256 secret ord ctx env = Ok p → Planned p = true → DeclaresDerivedEvent (env_Operation env) = true →
  ∃ queue policy inv pre w,
    (if IsNoteOperation (env_Operation env) then note_record_of sha256 secret ord ctx queue policy inv env pre
     else if IsReviewOperation (env_Operation env) then review_record_of sha256 ord ctx policy inv env pre
     else obligations_record sha256 secret ord ctx policy inv env pre) = Ok w.
Proof.
  intros H Hp Hd. unfold Apply in H. apply orelse_planned in H as ([[queue policy] inv] & _ & H); [|done].
  destruct (replay _ _ _); [injection H as <-; by rewrite outcome_not_planned in Hp|].
  apply derived_planned in H as (pre & w & _ & _ & _ & _ & Hw); [|done..]. by exists queue, policy, inv, pre, w.
Qed.

(** A know-how operation was a step. *)
Lemma planned_note env p :
  Apply sha256 secret ord ctx env = Ok p → Planned p = true →
  match env_Payload env with PKnowHowAdd _ | PKnowHowRetract _ _ | PKnowHowReconfirm _ _ _ _ _ => True | _ => False end →
  ∃ work e, noted secret ctx work (env_Payload env) e.
Proof.
  intros H Hp Hk. pose proof (planned_operation _ _ H Hp) as Hop.
  apply Apply_planned in H as (q & pol & i & _ & _ & _ & [cp post next _ Hpay _ _|pre post _ _ _ _ _ Hm _ _ _]); [| |done..].
  - by rewrite Hpay in Hk.
  - destruct Hm as (work & work' & _ & Hc & _). exists work.
    assert (DeclaresDerivedEvent (env_Operation env) = false) as Hd by (rewrite <-Hop; by destruct (env_Payload env)).
    unfold DeclaresDerivedEvent in Hd. apply orb_false_iff in Hd as [[Hn Hr]%orb_false_iff Ho].
    destruct Hc as [w _ _ _ (_ & _ & _ & Ht)%step_iff|? Hx|? ? Hx|? Hx]; [|congruence..].
    destruct (env_Payload env); try done; inversion Ht; subst; eauto.
Qed.

(** C20: a planned write stores no screened text that the secret screen or the
    declared value screen matches: no text, reason, route, path or symbol of
    know-how, no title, alias, path, reason or provenance of obligations; and
    where a value screen is declared, no such note. *)
Theorem Apply_screened env p :
  Apply sha256 secret ord ctx env = Ok p → Planned p = true →
  Forall clear (stored_texts (env_Payload env)) ∧ (is_Some (ctx_Screen ctx) → Forall clear (note_text (env_Payload env))).
Proof.
  intros H Hp. pose proof (planned_operation _ _ H Hp) as Hop. split.
  - destruct (env_Payload env) as [| | | | | | | | | | | | | |k|n r|n a c t g| | |op o] eqn:Hpay; try done.
    1-3: destruct (planned_note env p H Hp) as (work & e & Hn); [by rewrite Hpay|]; rewrite Hpay in Hn; by eapply noted_clear.
    cbn [stored_texts operation] in *. destruct (IsObligationOperation op) eqn:Ho; [|done]. subst op.
    assert (IsNoteOperation (env_Operation env) = false ∧ IsReviewOperation (env_Operation env) = false) as [Hn Hr].
    { unfold IsObligationOperation in Ho. rewrite !orb_true_iff, !String.eqb_eq in Ho. by destruct Ho as [[->| ->]| ->]. }
    destruct (planned_derived env p H Hp) as (queue & policy & inv & pre & w & Hw); [by unfold DeclaresDerivedEvent; rewrite Ho, orb_true_r|].
    rewrite Hn, Hr in Hw. apply obligations_clear in Hw. rewrite Hpay in Hw. cbn [stored_texts] in Hw. by rewrite Ho in Hw.
  - intros Hv. destruct (env_Payload env) as [| | | | | | | | | | | | | | | | |op text sup| |] eqn:Hpay; try done.
    cbn [note_text operation] in *. destruct (op =s OpNoteSet) eqn:Ho; [|done]. subst op.
    assert (IsNoteOperation (env_Operation env) = true) as Hn by (unfold IsNoteOperation; by rewrite Ho).
    destruct (planned_derived env p H Hp) as (queue & policy & inv & pre & w & Hw); [by unfold DeclaresDerivedEvent; rewrite Hn|].
    rewrite Hn in Hw. apply note_clear in Hw; [|done]. rewrite Hpay in Hw. cbn [note_text] in Hw. by rewrite Ho in Hw.
Qed.
End screen.

(** ** The matcher

    What a match leaves is no longer than the text, and shorter when the
    expression has no empty match; one step per byte is then enough. *)

Lemma ends_le r s t : t ∈ ends r s → (String.length t ≤ String.length s)%nat.
Proof.
  revert s t. induction r as [f|a IHa b IHb|r IH min more]; intros s t; cbn [ends].
  - destruct s as [|c s]; [by intros ?%not_elem_of_nil|]. destruct (f c); [|by intros ?%not_elem_of_nil].
    intros ->%list_elem_of_singleton. cbn. lia.
  - intros (u & Hu & Ht)%list_elem_of_In%in_flat_map. apply list_elem_of_In, IHa in Hu. apply list_elem_of_In, IHb in Ht. lia.
  - match goal with |- t ∈ ?al min s → _ => set (at_least := al) end. revert s t. induction min as [|n IHn]; intros s t; cbn [at_least].
    + match goal with |- t ∈ ?up _ s → _ => set (up_to := up) end. generalize (default (String.length s) more) as k. intros k.
      revert s t. induction k as [|k IHk]; intros s t; cbn [up_to]; [by intros ->%list_elem_of_singleton|].
      rewrite elem_of_app. intros [(u & Hu & Ht)%list_elem_of_In%in_flat_map| ->%list_elem_of_singleton]; [|done].
      apply list_elem_of_In, IH in Hu. destruct (_ <? _)%nat; [|done]. apply list_elem_of_In, IHk in Ht. lia.
    + intros (u & Hu & Ht)%list_elem_of_In%in_flat_map. apply list_elem_of_In, IH in Hu. apply list_elem_of_In, IHn in Ht. lia.
Qed.

Definition shrinks (r : regex) : Prop := ∀ s t, t ∈ ends r s → (String.length t < String.length s)%nat.

Lemma shrinks_byte f : shrinks (RByte f).
Proof.
  intros [|c s] t; cbn [ends]; [by intros ?%not_elem_of_nil|]. destruct (f c); [|by intros ?%not_elem_of_nil].
  intros ->%list_elem_of_singleton. cbn. lia.
Qed.

Lemma shrinks_seq a b : shrinks a ∨ shrinks b → shrinks (RSeq a b).
Proof.
  intros H s t. cbn [ends]. intros (u & Hu & Ht)%list_elem_of_In%in_flat_map. apply list_elem_of_In in Hu. apply list_elem_of_In in Ht.
  pose proof (ends_le _ _ _ Hu). pose proof (ends_le _ _ _ Ht). destruct H as [H|H]; [apply H in Hu|apply H in Ht]; lia.
Qed.

Lemma find_all_fuel r fuel i s :
  shrinks r → (String.length s < fuel)%nat → find_all fuel r i s = find_all (S (String.length s)) r i s.
Proof.
  intros Hr. revert i s. induction fuel as [fuel IH] using lt_wf_ind. intros i s Hf. destruct fuel as [|fuel]; [lia|].
  cbn [find_all]. destruct (ends r s) as [|rest l] eqn:E.
  - destruct s as [|c s]; [done|]. cbn in Hf |- *. rewrite (IH fuel); [done|lia..].
  - assert (String.length rest < String.length s)%nat by (apply Hr; rewrite E; constructor). f_equal.
    rewrite (IH fuel) by lia. symmetry. apply IH; lia.
Qed.

(** The expressions the screen searches with have no empty match. *)
Lemma screen_expressions_shrink : shrinks cardShape ∧ Forall shrinks phoneShapes.
Proof.
  split; [apply shrinks_seq; left; apply shrinks_byte|]. unfold phoneShapes.
  repeat constructor; cbn [rseq]; repeat (apply shrinks_seq; first [left; apply shrinks_byte|right]); apply shrinks_byte.
Qed.

(** ** An instance *)

(** The owner's context with a declared value. *)
Definition screened_context : MutationContext :=
  mkContext {| b_ID := "op"; b_Role := "OWNER" |} (Some sample_manifest) (Some sample_policy) (Some sample_stock) (Some no_attempts) None
    noRequests "2026-01-02T00:00:00Z" ε None None ∅ None false (Some (mkValueScreen ["s3cret-value"] [])).

Definition sample_add (text : string) : Payload :=
  PKnowHowAdd (mkKnowHowAddPayload text
    [{| kha_Path := "a.go"; kha_Blob := "0123456789012345678901234567890123456789"; kha_Symbol := ε; kha_SymbolSha256 := ε |}]
    ["locks"] "0123456789012345678901234567890123456789" None None None None None ε).

Definition screened_plan (text : string) : Plan :=
  match Apply sample_sha256 sample_secret false screened_context (sample_envelope "OWNER" (Some "a") (sample_add text)) with
  | Ok plan => plan
  | _ => zero_plan ε
  end.

(** A text that holds the declared value is refused, and so is the one the secret screen matches. *)
Example screened_plans : (λ t, Planned (screened_plan t)) <$> ["Retry the lock."; "Use s3cret-value."; "secret"] = [true; false; false].
Proof. vm_compute. reflexivity. Qed.

Lemma Apply_screened_witness : clear sample_secret screened_context "Retry the lock.".
Proof.
  destruct (Apply_screened sample_sha256 sample_secret false screened_context
    (sample_envelope "OWNER" (Some "a") (sample_add "Retry the lock.")) (screened_plan "Retry the lock.")) as [H _];
    [vm_compute; reflexivity..|]. apply Forall_inv in H. exact H.
Defined.
