(* ===== verification/Attempt.v ===== *)
(** * Attempt records

    [attempt.go] of [src/internal/tasks/snapshot], with the parts of an attempt
    kept in [supervision.go], [shared_allocation.go], [released_allocation.go],
    [lane_untouched.go] and [pools.go] ([PoolAllocation]): the lease an agent
    holds on a ticket, its scope, its history, and the document it is stored
    as.  [AttemptQueue] is from [receipt.go].

    A pointer is an option, a string that is empty when absent stays a string.
    [supervisionValue] writes its record through [encoding/json] and reads it
    back; for the texts of a document that is the object written here. *)

From S2P Require Import Prelude Utf8 GoStd Codes Limits Value Primitives Ids Parse Reader.
From S2P Require Import Ticket Inventory Marks RecordParts RecordCodec Intent.
Local Open Scope Z_scope.
Local Open Scope go_scope.

Definition ProfileAttempt : string := "taskman-attempt/0".
Definition ProfileReservations : string := "taskman-reservation-set/0".
Definition RuntimeExternalAgent : string := "external-agent".
Definition SupervisedProfile : string := "taskman-codex-supervisor/0".
Definition CauseLeaseExpired : string := "LEASE_EXPIRED".
Definition ProfileRetryAccounting : string := "taskman-retry-accounting/0".
Definition ProfileDirectPoolAdmission : string := "taskman-direct-pool-admission/0".
Definition ProfileLaneUntouched : string := "taskman-lane-untouched-attestation/0".
Definition MaxScopeResources : Z := MaxTouchPaths + MaxResources.
Definition MaxEntryResources : Z := 4096.
Definition MaxEscalationAnswerRefs : Z := 64.

Definition AttemptPhases : list string :=
  ["ADMITTED"; "RUNNING"; "BUILT"; "CHECKING"; "REVIEWING"; "REPAIRING"; "STOPPING"; "QUARANTINED"; "BLOCKED_RECOVERY";
   "FAILED"; "CANCELLED"; "READY_FOR_INTEGRATION"; "WAITING"; "RETURNED"; "COMPLETED"].

(** [TerminalPhases[phase]] *)
Definition TerminalPhase (phase : string) : bool :=
  (phase =s "FAILED") || (phase =s "CANCELLED") || (phase =s "COMPLETED").

Definition ScopeSources : list string := ["DECLARED"; "REQUESTED"; "DERIVED"; "WHOLE_REPOSITORY"].
Definition HandoffReasons : list string := ["CHANGES_REQUESTED"; "STAGE_COMPLETE"; "STAGE_INCOMPLETE"].
Definition historyKeys : list string := ["stage"; "poolId"; "memberId"].
Definition RetryReasonNames : list string := ["EXPIRED"; "RELEASED"; "FAILED"; "UNKNOWN"].
Definition untouchedAcknowledgements : list string :=
  ["noLaneAccess"; "noLaneCommands"; "noPhysicalCapabilityIssuedOrRetained"; "operatorAcceptsSafeReuseResponsibility"].

(** ** Data *)

Record Lease := mkLease { ls_Holder : string; ls_GrantedSeq : string; ls_ExpiresAt : string }.

Record Scope := mkScope { sc_Source : string; sc_Resources : list Resource; sc_DerivationSha256 : option string }.

Record Supervisor := { sup_Pid : string; sup_StartTime : string }.

Record Lane := { lane_Pgid : string; lane_LeaderPid : string; lane_LeaderStartTime : string; lane_SpawnEffectKey : string }.

Record BudgetField := { bf_Value : option string; bf_State : string }.

Record LoopProgress := { lp_Signal : string; lp_Fingerprint : option string }.

Record LoopEvidence := mkLoopEvidence {
  le_Disposition : string; le_CandidateTreeOid : option string; le_GateResults : string; le_Reviews : string;
  le_Progress : option LoopProgress
}.

Record GenerationHistory := mkHistory {
  gh_Stage : option string; gh_PoolID : option string; gh_MemberID : option string; gh_HandoffTo : string;
  gh_HandoffReason : string; gh_Loop : option LoopEvidence
}.

Record PriorGeneration := mkPrior {
  pg_Generation : string; pg_Quiescence : string; pg_ProvedSeq : string; pg_History : option GenerationHistory
}.

Record RetryAccounting := mkAccounting { ra_FailedOrUnknown : bool; ra_Disposition : string }.

Record EscalationAnswerRef := { ear_RequestID : string; ear_OriginSha256 : string; ear_HeadSha256 : string }.

Record PoolAllocation := mkAllocation {
  pa_PoolID : string; pa_MemberID : string; pa_AllocationID : string; pa_DefinitionSha256 : string;
  pa_AllocatedSeq : string; pa_ConfigRef : option ConfigRef
}.

Record DirectPoolAdmission := mkDirect {
  dpa_AttemptID : string; dpa_Generation : string; dpa_OriginalAdmissionSeq : string; dpa_Allocation : option PoolAllocation;
  dpa_Holder : string; dpa_Stage : string
}.

Record LaneUntouchedAttestation := mkUntouched {
  lua_Direct : DirectPoolAdmission; lua_ActorID : string; lua_ActorRole : string; lua_Evidence : string;
  lua_RecordedSeq : string; lua_RecordedAt : string
}.

Record SharedAllocation := { sa_SourceAttemptID : string; sa_SourceGeneration : string; sa_BoundSeq : string }.

Record ReleasedPoolAllocation := { rpa_Allocation : PoolAllocation; rpa_ReleasedSeq : string }.

Record Supervision := {
  sv_WorkerHolder : string; sv_LeaderStarted : string; sv_ProgramID : string; sv_OwnerStarted : string; sv_Worker : bool;
  sv_SessionID : string; sv_AuthorHolder : string; sv_AuthorSession : string; sv_ReviewerHolder : string;
  sv_ReviewerSession : string; sv_ReviewTree : string; sv_ReviewDigest : string; sv_HandoffDigest : string;
  sv_QuestionID : string; sv_QuestionRevision : string; sv_Question : string; sv_Answer : string; sv_ResumePhase : string;
  sv_IntegrationExpected : string; sv_IntegrationCommit : string; sv_IntegrationGrant : string; sv_Turns : string
}.

Record Attempt := mkAttempt {
  atp_DirectPoolAdmission : option DirectPoolAdmission;
  atp_SharedAllocation : option SharedAllocation;
  atp_ReleasedPoolAllocation : option ReleasedPoolAllocation;
  atp_LaneUntouchedAttestation : option LaneUntouchedAttestation;
  atp_OperatorNote : option OperatorNoteReference;
  atp_EscalationAnswers : list EscalationAnswerRef;
  atp_HandoffTo : string;
  atp_HandoffReason : string;
  atp_LastHeartbeatAt : option string;
  atp_RetryReasons : option (gmap string string);
  atp_RetryAccounting : option RetryAccounting;
  atp_HandoffEvidence : string;
  atp_Supervision : option Supervision;
  atp_Stage : string;
  atp_PoolAllocation : option PoolAllocation;
  atp_AttemptID : string;
  atp_TicketID : TicketID;
  atp_TicketRevision : string;
  atp_TicketRecordSha256 : string;
  atp_Generation : string;
  atp_Phase : string;
  atp_PhaseSinceSeq : string;
  atp_Cause : option string;
  atp_Mode : string;
  atp_PlanSha256 : option string;
  atp_PolicySha256 : string;
  atp_ConfigSha256 : string;
  atp_RuntimeID : string;
  atp_CapabilityProfileSha256 : string;
  atp_BaseCommit : string;
  atp_Branch : string;
  atp_WorktreePath : option string;
  atp_CandidateTreeOid : option string;
  atp_Supervisor : option Supervisor;
  atp_Lane : option Lane;
  atp_Quiescence : string;
  atp_NoExec : option string;
  atp_SpawnNoExecCount : string;
  atp_PendingEffects : list string;
  atp_RetryCount : string;
  atp_RepairRound : string;
  atp_Budget : gmap string BudgetField;
  atp_GateResults : list string;
  atp_Reviews : list string;
  atp_ManifestSha256 : option string;
  atp_ScopeCheck : string;
  atp_PriorGenerations : list PriorGeneration;
  atp_Lease : option Lease;
  atp_Scope : option Scope
}.

(** [a.Live()] *)
Definition Live (a : Attempt) : bool := negb (TerminalPhase (atp_Phase a)).

(** [AttemptQueue(id)] *)
Definition AttemptQueue (id : string) : res QueueID :=
  match strings.Split id ":"%char with
  | [p0; p1; p2; p3] =>
      if negb (p0 =s "attempt") || negb (slen p3 =? 32) || (MaxIdentifierBytes <? slen id) then
        Err (Errorf CodeMalformed id "invalid attempt identity" [])
      else
        let* _ := ParseDigest id (p3 +:+ p3) in
        ParseQueueID id ("queue:" +:+ p1 +:+ ":" +:+ p2)
  | _ => Err (Errorf CodeMalformed id "invalid attempt identity" [])
  end.

(** [CheckHandoffTarget] *)
Definition CheckHandoffTarget (where_ disposition stage to reason : string) : option Error :=
  let bad detail := Some (Errorf CodeMalformed where_ "%s" [AStr detail]) in
  if to =s ε then
    if negb (reason =s ε) then bad "a handoff reason requires a handoff target" else None
  else if negb (disposition =s CodeHandoff) && negb (disposition =s CodeReviewReturned) then
    bad "a handoff target requires a HANDOFF or REVIEW_RETURNED release"
  else if negb (existsb (String.eqb to) PoolStageRoles) then bad "handoff target is not implement, review or integrate"
  else if (disposition =s CodeReviewReturned) && negb (to =s "implement") then
    bad "REVIEW_RETURNED hands off to implement"
  else if reason =s ε then None
  else if reason =s "CHANGES_REQUESTED" then
    if negb (to =s "implement") || (stage =s "implement")
    then bad "CHANGES_REQUESTED returns review or integrate work to implement" else None
  else if reason =s "STAGE_INCOMPLETE" then
    if negb (to =s stage) then bad "STAGE_INCOMPLETE hands off to the same stage" else None
  else if reason =s "STAGE_COMPLETE" then
    if to =s stage then bad "STAGE_COMPLETE hands off to another stage" else None
  else bad "unknown handoff reason".

(** [a.NextStage()] *)
Definition Attempt_NextStage (a : Attempt) : string :=
  match atp_RetryAccounting a with
  | Some x =>
      if Live a || (negb (ra_Disposition x =s CodeHandoff) && negb (ra_Disposition x =s CodeReviewReturned)) then ε
      else if negb (atp_HandoffTo a =s ε) then atp_HandoffTo a
      else if ra_Disposition x =s CodeReviewReturned then "implement"
      else ε
  | None => ε
  end.

(** [LoopEvidenceWith(a, signal)] *)
Definition LoopEvidenceWith (a : Attempt) (signal : string) : option LoopEvidence :=
  match atp_RetryAccounting a with
  | Some x =>
      if negb (atp_RuntimeID a =s RuntimeExternalAgent) then None
      else Some (mkLoopEvidence (ra_Disposition x) (atp_CandidateTreeOid a)
        (CountOf (Z.of_nat (length (atp_GateResults a)))) (CountOf (Z.of_nat (length (atp_Reviews a))))
        (if signal =s ProgressSignalHandoffEvidence
         then Some {| lp_Signal := signal;
                      lp_Fingerprint := if atp_HandoffEvidence a =s ε then None else Some (atp_HandoffEvidence a) |}
         else None))
  | None => None
  end.

(** The newest recorded fingerprint among prior generations. *)
Fixpoint recorded_fingerprint (newest_first : list PriorGeneration) : string :=
  match newest_first with
  | [] => ε
  | p :: ps =>
      match h ← pg_History p; e ← gh_Loop h; g ← le_Progress e;
            if lp_Signal g =s ProgressSignalHandoffEvidence then lp_Fingerprint g else None with
      | Some x => x
      | None => recorded_fingerprint ps
      end
  end.

Definition LatestHandoffEvidence (a : Attempt) : string :=
  if negb (atp_HandoffEvidence a =s ε) then atp_HandoffEvidence a
  else recorded_fingerprint (reverse (atp_PriorGenerations a)).

(** ** Reading *)

Definition readCause (r : Reader) : M string :=
  s ← String_ r;
  e ← failed;
  _ ← (if negb (e : bool) && negb (IsCode s) && negb (s =s CauseLeaseExpired)
       then Fail r CodeMalformed "unknown cause %q" [AStr s] else mret tt);
  mret s.

Definition readResources (r : Reader) (max : Z) : M (list Resource) :=
  items ← Array_ r max false;
  each read_resource items.

Definition readLease : Reader → M (option Lease) :=
  unless_null (λ r,
    _ ← Closed r ["holder"; "grantedSeq"; "expiresAt"];
    f ← Field r "holder"; holder ← Label f;
    f ← Field r "grantedSeq"; granted ← Size f;
    f ← Field r "expiresAt"; expires ← Timestamp f;
    mret (mkLease holder granted expires)).

(** [if r.Err() == nil && bad { r.Fail(...) }] *)
Definition fail_if (r : Reader) (bad : bool) (detail : string) : M unit :=
  e ← failed;
  if negb (e : bool) && bad then Fail r CodeMalformed detail [] else mret tt.

Definition readScope : Reader → M (option Scope) :=
  unless_null (λ r,
    _ ← Closed r ["source"; "resources"; "derivationSha256"];
    f ← Field r "source"; source ← Enum f ScopeSources;
    f ← Field r "resources"; resources ← readResources f MaxScopeResources;
    f ← Field r "derivationSha256"; derivation ← DigestOrNull f;
    _ ← fail_if r (negb (Bool.eqb (source =s "DERIVED") (some derivation))) "derivationSha256 is non-null exactly for DERIVED";
    mret (mkScope source resources derivation)).

Definition readSupervisor : Reader → M (option Supervisor) :=
  unless_null (λ r,
    _ ← Closed r ["pid"; "startTime"];
    f ← Field r "pid"; pid ← Size f;
    f ← Field r "startTime"; start ← Size f;
    mret {| sup_Pid := pid; sup_StartTime := start |}).

Definition readLane : Reader → M (option Lane) :=
  unless_null (λ r,
    _ ← Closed r ["pgid"; "leaderPid"; "leaderStartTime"; "spawnEffectKey"];
    f ← Field r "pgid"; pgid ← Size f;
    f ← Field r "leaderPid"; pid ← Size f;
    f ← Field r "leaderStartTime"; start ← Size f;
    f ← Field r "spawnEffectKey"; key ← Digest f;
    mret {| lane_Pgid := pgid; lane_LeaderPid := pid; lane_LeaderStartTime := start; lane_SpawnEffectKey := key |}).

Definition read_budget_field (f : Reader) : M BudgetField :=
  _ ← Closed f ["value"; "state"];
  v ← Field f "value"; value ← SizeOrNull v;
  s ← Field f "state"; state ← Enum s ["OBSERVED"; "NOT_OBSERVED"];
  mret {| bf_Value := value; bf_State := state |}.

(** [for _, name := range names { out[name] = read(r.Field(name)) }] *)
Fixpoint fields_loop {A} (read : Reader → M A) (r : Reader) (names : list string) (out : gmap string A) : M (gmap string A) :=
  match names with
  | [] => mret out
  | name :: names' => f ← Field r name; x ← read f; fields_loop read r names' (<[name := x]> out)
  end.

Definition readBudget (r : Reader) : M (gmap string BudgetField) :=
  _ ← Closed r LaneBudgetNames;
  fields_loop read_budget_field r LaneBudgetNames ∅.

Definition read_answer (x : Reader) : M EscalationAnswerRef :=
  _ ← Closed x ["requestId"; "originSha256"; "headSha256"];
  f ← Field x "requestId"; id ← Identifier f;
  f ← Field x "originSha256"; origin ← Digest f;
  f ← Field x "headSha256"; head ← Digest f;
  mret {| ear_RequestID := id; ear_OriginSha256 := origin; ear_HeadSha256 := head |}.

(** The loop of [readEscalationAnswers]; [prev] is the reference before. *)
Fixpoint answers_loop (items : list Reader) (prev : option EscalationAnswerRef) : M (list EscalationAnswerRef) :=
  match items with
  | [] => mret []
  | x :: items' =>
      ref ← read_answer x;
      _ ← fail_if x (match prev with Some p => negb (ear_RequestID p <s ear_RequestID ref) | None => false end)
            "escalation answers must be strictly sorted by requestId";
      rest ← answers_loop items' (Some ref);
      mret (ref :: rest)
  end.

Definition readEscalationAnswers (r : Reader) : M (list EscalationAnswerRef) :=
  items ← Array_ r MaxEscalationAnswerRefs true;
  out ← answers_loop items None;
  _ ← fail_if r (length out =? 0)%nat "escalationAnswers must be absent when empty";
  mret out.

(** How many of the history keys an entry has. *)
Definition history_present (v : Value) : nat := length (filter (λ k, Has v k = true) historyKeys).

Definition readGenerationHistory (p : Reader) : M (option GenerationHistory) :=
  if (history_present (rv p) =? 0)%nat then mret None
  else if negb (history_present (rv p) =? length historyKeys)%nat then
    _ ← Fail p CodeMalformed "stage, poolId and memberId are present together" []; mret None
  else
    f ← Field p "stage"; stage ← Reader_StringOrNull (λ x, Enum x PoolStageRoles) f;
    f ← Field p "poolId"; pool ← LabelOrNull f;
    f ← Field p "memberId"; member ← LabelOrNull f;
    _ ← fail_if p (negb (Bool.eqb (some pool) (some member))) "poolId and memberId are null together";
    mret (Some (mkHistory stage pool member ε ε None)).

(** [readPriorHandoff(p, g.History)]: the history it leaves. *)
Definition readPriorHandoff (p : Reader) (h : option GenerationHistory) : M (option GenerationHistory) :=
  let hasTo := Has (rv p) "handoffTo" in
  let hasReason := Has (rv p) "handoffReason" in
  if negb hasTo && negb hasReason then mret h
  else match h with
  | Some (mkHistory (Some stage) pool member _ _ loop) =>
      if negb hasTo then _ ← Fail p CodeMalformed "a handoff reason requires a handoff target" []; mret h
      else
        f ← Field p "handoffTo"; to ← Enum f PoolStageRoles;
        reason ← (if hasReason then f ← Field p "handoffReason"; Enum f HandoffReasons else mret ε);
        e ← failed;
        _ ← (if (e : bool) then mret tt
             else match CheckHandoffTarget (rwhere p) CodeHandoff stage to reason with
             | Some err => Fail p CodeMalformed "%s" [AMsg (EWire err)]
             | None => mret tt
             end);
        mret (Some (mkHistory (Some stage) pool member to reason loop))
  | _ => _ ← Fail p CodeMalformed "a prior handoff target requires a recorded stage" []; mret h
  end.

Definition read_loop_progress (g : Reader) : M LoopProgress :=
  _ ← Closed g ["signal"; "fingerprint"];
  f ← Field g "signal"; signal ← Enum f [ProgressSignalHandoffEvidence];
  f ← Field g "fingerprint"; fingerprint ← Reader_StringOrNull Identifier f;
  mret {| lp_Signal := signal; lp_Fingerprint := fingerprint |}.

Definition loopKeys : list string := ["disposition"; "candidateTreeOid"; "gateResults"; "reviews"].

Definition read_loop_evidence (x : Reader) : M LoopEvidence :=
  _ ← Closed x (OptionalKeys (rv x) loopKeys ["progress"]);
  f ← Field x "disposition"; disposition ← Enum f ["NONE"; CodeHandoff; CodeReviewReturned];
  f ← Field x "candidateTreeOid"; tree ← Reader_StringOrNull OID f;
  f ← Field x "gateResults"; gates ← Count f;
  f ← Field x "reviews"; reviews ← Count f;
  progress ← optional_member None x "progress" (λ g, p ← read_loop_progress g; mret (Some p));
  mret (mkLoopEvidence disposition tree gates reviews progress).

(** [readPriorLoop(p, g.History)]: the history it leaves. *)
Definition readPriorLoop (p : Reader) (h : option GenerationHistory) : M (option GenerationHistory) :=
  if negb (Has (rv p) "loopEvidence") then mret h
  else match h with
  | None => _ ← Fail p CodeMalformed "loopEvidence requires a recorded stage" []; mret h
  | Some g =>
      x ← Field p "loopEvidence"; ev ← read_loop_evidence x;
      failure ← failed;
      if (failure : bool) then mret h
      else if negb (gh_HandoffTo g =s ε) && (le_Disposition ev =s "NONE") then
        _ ← Fail p CodeMalformed "a prior handoff target requires a HANDOFF or REVIEW_RETURNED loopEvidence disposition" [];
        mret h
      else if (le_Disposition ev =s CodeReviewReturned) && negb (default ε (gh_Stage g) =s "review") then
        _ ← Fail p CodeMalformed "a REVIEW_RETURNED generation held review" []; mret h
      else if some (q ← le_Progress ev; lp_Fingerprint q) && (le_Disposition ev =s "NONE") then
        _ ← Fail p CodeMalformed
              "a hand-off evidence fingerprint requires a HANDOFF or REVIEW_RETURNED loopEvidence disposition" [];
        mret h
      else mret (Some (mkHistory (gh_Stage g) (gh_PoolID g) (gh_MemberID g) (gh_HandoffTo g) (gh_HandoffReason g) (Some ev)))
  end.

Definition priorKeys : list string := ["generation"; "quiescence"; "provedSeq"].

Definition read_prior (p : Reader) : M PriorGeneration :=
  _ ← Closed p (OptionalKeys (rv p) priorKeys (historyKeys ++ ["handoffTo"; "handoffReason"; "loopEvidence"]));
  f ← Field p "generation"; generation ← Size f;
  f ← Field p "quiescence"; quiescence ← Enum f ["PROVED"; "FENCED"];
  f ← Field p "provedSeq"; proved ← Size f;
  h ← readGenerationHistory p;
  h ← readPriorHandoff p h;
  h ← readPriorLoop p h;
  mret (mkPrior generation quiescence proved h).

Definition readPriorGenerations (r : Reader) : M (list PriorGeneration) :=
  items ← Array_ r (-1) true;
  each read_prior items.

Definition read_allocation (r : Reader) : M PoolAllocation :=
  _ ← Closed r (OptionalKeys (rv r) ["poolId"; "memberId"; "allocationId"; "definitionSha256"; "allocatedSeq"] ["configRef"]);
  f ← Field r "poolId"; pool ← Label f;
  f ← Field r "memberId"; member ← Label f;
  f ← Field r "allocationId"; allocation ← Digest f;
  f ← Field r "definitionSha256"; definition ← Digest f;
  f ← Field r "allocatedSeq"; seq ← Size f;
  ref ← optional_member None r "configRef" (λ f, x ← ReadConfigRef f; mret (Some x));
  mret (mkAllocation pool member allocation definition seq ref).

Definition readDirectPool (r : Reader) : M DirectPoolAdmission :=
  f ← Field r "attemptId"; attempt ← Identifier f;
  f ← Field r "generation"; generation ← Size f;
  f ← Field r "originalAdmissionSeq"; seq ← Size f;
  f ← Field r "allocation"; allocation ← read_allocation f;
  f ← Field r "holder"; holder ← Label f;
  f ← Field r "stage"; stage ← String_ f;
  _ ← (if negb (stage =s ε) then f ← Field r "stage"; s ← Enum f PoolStageRoles; mret tt else mret tt);
  mret (mkDirect attempt generation seq (Some allocation) holder stage).

Definition readDirectPoolAdmission (r : Reader) : M DirectPoolAdmission :=
  _ ← Reader.Profile r ProfileDirectPoolAdmission;
  _ ← Closed r ["profile"; "attemptId"; "generation"; "originalAdmissionSeq"; "allocation"; "holder"; "stage"];
  f ← Field r "profile"; _ ← Exact f ProfileDirectPoolAdmission;
  readDirectPool r.

Fixpoint acknowledgements_loop (ack : Reader) (names : list string) : M unit :=
  match names with
  | [] => mret tt
  | name :: names' =>
      f ← Field ack name; b ← Bool_ f;
      _ ← (if (b : bool) then mret tt else Fail ack CodeMalformed "all acknowledgements must be true" []);
      acknowledgements_loop ack names'
  end.

Definition readLaneUntouched (r : Reader) : M LaneUntouchedAttestation :=
  _ ← Reader.Profile r ProfileLaneUntouched;
  _ ← Closed r ["profile"; "attemptId"; "generation"; "originalAdmissionSeq"; "allocation"; "holder"; "stage"; "actorId";
                "actorRole"; "evidence"; "recordedSeq"; "recordedAt"; "acknowledgements"; "physicalFacts"];
  f ← Field r "profile"; _ ← Exact f ProfileLaneUntouched;
  f ← Field r "physicalFacts"; _ ← Exact f "NOT_OBSERVED";
  ack ← Field r "acknowledgements";
  _ ← Closed ack untouchedAcknowledgements;
  _ ← acknowledgements_loop ack untouchedAcknowledgements;
  direct ← readDirectPool r;
  f ← Field r "actorId"; actor ← Label f;
  f ← Field r "actorRole"; role ← Enum f ["OWNER"; "OPERATOR"];
  f ← Field r "evidence"; evidence ← Identifier f;
  f ← Field r "recordedSeq"; seq ← Size f;
  f ← Field r "recordedAt"; at_ ← Timestamp f;
  mret (mkUntouched direct actor role evidence seq at_).

Definition readSharedAllocation (r : Reader) : M SharedAllocation :=
  _ ← Closed r ["sourceAttemptId"; "sourceGeneration"; "boundSeq"];
  f ← Field r "sourceAttemptId"; attempt ← Identifier f;
  f ← Field r "sourceGeneration"; generation ← Size f;
  f ← Field r "boundSeq"; seq ← Size f;
  mret {| sa_SourceAttemptID := attempt; sa_SourceGeneration := generation; sa_BoundSeq := seq |}.

Definition readReleasedPoolAllocation (r : Reader) : M ReleasedPoolAllocation :=
  _ ← Closed r ["allocation"; "releasedSeq"];
  f ← Field r "releasedSeq"; seq ← Size f;
  f ← Field r "allocation"; allocation ← read_allocation f;
  mret {| rpa_Allocation := allocation; rpa_ReleasedSeq := seq |}.

Definition supervisionKeys : list string :=
  ["integrationExpected"; "questionId"; "questionRevision"; "workerHolder"; "leaderStarted"; "programId"; "ownerStarted";
   "worker"; "sessionId"; "authorHolder"; "authorSession"; "reviewerHolder"; "reviewerSession"; "reviewTree"; "reviewDigest";
   "handoffDigest"; "question"; "answer"; "resumePhase"; "integrationCommit"; "integrationGrant"; "turns"].

Definition readSupervision (r : Reader) : M Supervision :=
  _ ← Closed r supervisionKeys;
  f ← Field r "integrationExpected"; integrationExpected ← String_ f;
  f ← Field r "questionId"; questionID ← String_ f;
  f ← Field r "questionRevision"; questionRevision ← Count f;
  f ← Field r "workerHolder"; workerHolder ← String_ f;
  f ← Field r "leaderStarted"; leaderStarted ← String_ f;
  f ← Field r "programId"; programID ← Identifier f;
  f ← Field r "ownerStarted"; ownerStarted ← Identifier f;
  f ← Field r "worker"; worker ← Bool_ f;
  f ← Field r "sessionId"; sessionID ← String_ f;
  f ← Field r "authorHolder"; authorHolder ← String_ f;
  f ← Field r "authorSession"; authorSession ← String_ f;
  f ← Field r "reviewerHolder"; reviewerHolder ← String_ f;
  f ← Field r "reviewerSession"; reviewerSession ← String_ f;
  f ← Field r "reviewTree"; reviewTree ← String_ f;
  f ← Field r "reviewDigest"; reviewDigest ← String_ f;
  f ← Field r "handoffDigest"; handoffDigest ← String_ f;
  f ← Field r "question"; question ← String_ f;
  f ← Field r "answer"; answer ← String_ f;
  f ← Field r "resumePhase"; resumePhase ← String_ f;
  f ← Field r "integrationCommit"; integrationCommit ← String_ f;
  f ← Field r "integrationGrant"; integrationGrant ← String_ f;
  f ← Field r "turns"; turns ← Count f;
  mret {| sv_WorkerHolder := workerHolder; sv_LeaderStarted := leaderStarted; sv_ProgramID := programID;
          sv_OwnerStarted := ownerStarted; sv_Worker := worker; sv_SessionID := sessionID; sv_AuthorHolder := authorHolder;
          sv_AuthorSession := authorSession; sv_ReviewerHolder := reviewerHolder; sv_ReviewerSession := reviewerSession;
          sv_ReviewTree := reviewTree; sv_ReviewDigest := reviewDigest; sv_HandoffDigest := handoffDigest;
          sv_QuestionID := questionID; sv_QuestionRevision := questionRevision; sv_Question := question; sv_Answer := answer;
          sv_ResumePhase := resumePhase; sv_IntegrationExpected := integrationExpected;
          sv_IntegrationCommit := integrationCommit; sv_IntegrationGrant := integrationGrant; sv_Turns := turns |}.

(** *** The members of an attempt, a group at a time *)

Record binding_part := {
  bp_Direct : option DirectPoolAdmission; bp_Untouched : option LaneUntouchedAttestation;
  bp_Shared : option SharedAllocation; bp_Released : option ReleasedPoolAllocation
}.

(** The member [key] read by [m], if it is there. *)
Definition if_has {A} (m : Reader → M A) (r : Reader) (key : string) : M (option A) :=
  optional_member None r key (λ f, x ← m f; mret (Some x)).

Definition read_binding (r : Reader) : M binding_part :=
  direct ← if_has readDirectPoolAdmission r "directPoolAdmission";
  untouched ← if_has readLaneUntouched r "laneUntouchedAttestation";
  shared ← if_has readSharedAllocation r "sharedAllocation";
  released ← if_has readReleasedPoolAllocation r "releasedPoolAllocation";
  mret {| bp_Direct := direct; bp_Untouched := untouched; bp_Shared := shared; bp_Released := released |}.

Definition read_retry_reasons (x : Reader) : M (gmap string string) :=
  _ ← Closed x RetryReasonNames;
  fields_loop Count x RetryReasonNames ∅.

(** A newer profile is the first error of the document, as it is when the
    code returns at once. *)
Definition read_accounting (x : Reader) : M RetryAccounting :=
  _ ← Reader.Profile x ProfileRetryAccounting;
  _ ← Closed x ["profile"; "failedOrUnknown"; "disposition"];
  f ← Field x "profile"; _ ← Exact f ProfileRetryAccounting;
  f ← Field x "failedOrUnknown"; failed_ ← Bool_ f;
  f ← Field x "disposition"; disposition ← Enum f ["NONE"; "HANDOFF"; "REVIEW_RETURNED"];
  mret (mkAccounting failed_ disposition).

Record clean_part := {
  cp_EscalationAnswers : list EscalationAnswerRef; cp_LastHeartbeatAt : option string;
  cp_RetryReasons : option (gmap string string); cp_HandoffEvidence : string; cp_HandoffTo : string; cp_HandoffReason : string;
  cp_RetryAccounting : option RetryAccounting; cp_Supervision : option Supervision; cp_Stage : string;
  cp_PoolAllocation : option PoolAllocation
}.

Definition read_clean (r : Reader) : M clean_part :=
  answers ← optional_member [] r "escalationAnswers" readEscalationAnswers;
  heartbeat ← if_has Timestamp r "lastHeartbeatAt";
  reasons ← if_has read_retry_reasons r "retryReasons";
  evidence ← optional_member ε r "handoffEvidence" Identifier;
  to ← optional_member ε r "handoffTo" (λ f, Enum f PoolStageRoles);
  reason ← optional_member ε r "handoffReason" (λ f, Enum f HandoffReasons);
  accounting ← if_has read_accounting r "retryAccounting";
  supervision ← if_has readSupervision r "supervision";
  stage ← optional_member ε r "stage" (λ f, Enum f PoolStageRoles);
  allocation ← if_has read_allocation r "poolAllocation";
  mret {| cp_EscalationAnswers := answers; cp_LastHeartbeatAt := heartbeat; cp_RetryReasons := reasons;
          cp_HandoffEvidence := evidence; cp_HandoffTo := to; cp_HandoffReason := reason; cp_RetryAccounting := accounting;
          cp_Supervision := supervision; cp_Stage := stage; cp_PoolAllocation := allocation |}.

Record identity_part := {
  ip_AttemptID : string; ip_TicketID : TicketID; ip_TicketRevision : string; ip_TicketRecordSha256 : string;
  ip_Generation : string; ip_Phase : string; ip_PhaseSinceSeq : string; ip_Cause : option string; ip_Mode : string;
  ip_PlanSha256 : option string; ip_PolicySha256 : string; ip_ConfigSha256 : string; ip_RuntimeID : string;
  ip_CapabilityProfileSha256 : string; ip_BaseCommit : string; ip_Branch : string; ip_WorktreePath : option string;
  ip_CandidateTreeOid : option string; ip_Supervisor : option Supervisor; ip_Lane : option Lane; ip_Quiescence : string;
  ip_NoExec : option string
}.

Definition read_identity (r : Reader) : M identity_part :=
  f ← Field r "attemptId"; attempt ← Identifier f;
  f ← Field r "ticketId"; ticket ← Reader_TicketID f;
  f ← Field r "ticketRevision"; revision ← Count f;
  f ← Field r "ticketRecordSha256"; record ← Digest f;
  f ← Field r "generation"; generation ← Size f;
  f ← Field r "phase"; phase ← Enum f AttemptPhases;
  f ← Field r "phaseSinceSeq"; since ← Size f;
  f ← Field r "cause"; cause ← Reader_StringOrNull readCause f;
  f ← Field r "mode"; mode ← Enum f ["DEVELOPMENT"; "QUALIFIED"];
  f ← Field r "planSha256"; plan ← DigestOrNull f;
  f ← Field r "policySha256"; policy ← Digest f;
  f ← Field r "configSha256"; config ← Digest f;
  f ← Field r "runtimeId"; runtime ← Label f;
  f ← Field r "capabilityProfileSha256"; capability ← Digest f;
  f ← Field r "baseCommit"; base ← OID f;
  f ← Field r "branch"; branch ← Label f;
  f ← Field r "worktreePath"; worktree ← Reader_StringOrNull PathText f;
  f ← Field r "candidateTreeOid"; tree ← Reader_StringOrNull OID f;
  f ← Field r "supervisor"; supervisor ← readSupervisor f;
  f ← Field r "lane"; lane ← readLane f;
  f ← Field r "quiescence"; quiescence ← Enum f ["UNPROVED"; "PROVED"; "SURVIVORS"; "FENCED"];
  f ← Field r "noExec"; noExec ← Reader_StringOrNull (λ x, Exact x "PROVED") f;
  mret {| ip_AttemptID := attempt; ip_TicketID := ticket; ip_TicketRevision := revision; ip_TicketRecordSha256 := record;
          ip_Generation := generation; ip_Phase := phase; ip_PhaseSinceSeq := since; ip_Cause := cause; ip_Mode := mode;
          ip_PlanSha256 := plan; ip_PolicySha256 := policy; ip_ConfigSha256 := config; ip_RuntimeID := runtime;
          ip_CapabilityProfileSha256 := capability; ip_BaseCommit := base; ip_Branch := branch; ip_WorktreePath := worktree;
          ip_CandidateTreeOid := tree; ip_Supervisor := supervisor; ip_Lane := lane; ip_Quiescence := quiescence;
          ip_NoExec := noExec |}.

(** What is left of [retryCount] once the reasons are subtracted; [None] when
    one exceeds what remains. *)
Fixpoint reasons_left (reasons : gmap string string) (names : list string) (remaining : Z) : Z * bool :=
  match names with
  | [] => (remaining, false)
  | k :: names' =>
      let n := Count_Int (default ε (reasons !! k)) in
      if remaining <? n then (remaining, true) else reasons_left reasons names' (remaining - n)
  end.

Definition check_reasons (r : Reader) (reasons : option (gmap string string)) (retryCount : string) : M unit :=
  match reasons with
  | None => mret tt
  | Some m =>
      let '(remaining, exceeded) := reasons_left m RetryReasonNames (Count_Int retryCount) in
      _ ← (if exceeded then Fail r CodeMalformed "retry reasons exceed retryCount" [] else mret tt);
      if negb (remaining =? 0) then Fail r CodeMalformed "retry reasons must sum to retryCount" [] else mret tt
  end.

Record work_part := {
  wp_SpawnNoExecCount : string; wp_PendingEffects : list string; wp_RetryCount : string; wp_RepairRound : string;
  wp_Budget : gmap string BudgetField; wp_GateResults : list string; wp_Reviews : list string; wp_ManifestSha256 : option string;
  wp_ScopeCheck : string; wp_PriorGenerations : list PriorGeneration; wp_Lease : option Lease; wp_Scope : option Scope
}.

Definition read_work (r : Reader) (reasons : option (gmap string string)) : M work_part :=
  f ← Field r "spawnNoExecCount"; spawn ← Count f;
  f ← Field r "pendingEffects"; effects ← Reader_Strings f (-1) false Digest;
  f ← Field r "retryCount"; retries ← Count f;
  _ ← check_reasons r reasons retries;
  f ← Field r "repairRound"; round ← Count f;
  f ← Field r "budget"; budget ← readBudget f;
  f ← Field r "gateResults"; gates ← Reader_Strings f (-1) false Digest;
  f ← Field r "reviews"; reviews ← Reader_Strings f (-1) false Digest;
  f ← Field r "manifestSha256"; manifest ← DigestOrNull f;
  f ← Field r "scopeCheck"; check_ ← Enum f ["WITHIN"; "OUT_OF_SCOPE"; "UNKNOWN"];
  f ← Field r "priorGenerations"; prior ← readPriorGenerations f;
  f ← Field r "lease"; lease ← readLease f;
  f ← Field r "scope"; scope ← readScope f;
  mret {| wp_SpawnNoExecCount := spawn; wp_PendingEffects := effects; wp_RetryCount := retries; wp_RepairRound := round;
          wp_Budget := budget; wp_GateResults := gates; wp_Reviews := reviews; wp_ManifestSha256 := manifest;
          wp_ScopeCheck := check_; wp_PriorGenerations := prior; wp_Lease := lease; wp_Scope := scope |}.

Definition read_rest (r : Reader) : M (clean_part * identity_part * work_part) :=
  cp ← read_clean r;
  ip ← read_identity r;
  wp ← read_work r (cp_RetryReasons cp);
  mret (cp, ip, wp).

(** The attempt of the parts read. *)
Definition assemble_attempt (bp : binding_part) (note : option OperatorNoteReference) (cp : clean_part) (ip : identity_part)
    (wp : work_part) : Attempt :=
  mkAttempt (bp_Direct bp) (bp_Shared bp) (bp_Released bp) (bp_Untouched bp) note (cp_EscalationAnswers cp) (cp_HandoffTo cp)
    (cp_HandoffReason cp) (cp_LastHeartbeatAt cp) (cp_RetryReasons cp) (cp_RetryAccounting cp) (cp_HandoffEvidence cp)
    (cp_Supervision cp) (cp_Stage cp) (cp_PoolAllocation cp) (ip_AttemptID ip) (ip_TicketID ip) (ip_TicketRevision ip)
    (ip_TicketRecordSha256 ip) (ip_Generation ip) (ip_Phase ip) (ip_PhaseSinceSeq ip) (ip_Cause ip) (ip_Mode ip)
    (ip_PlanSha256 ip) (ip_PolicySha256 ip) (ip_ConfigSha256 ip) (ip_RuntimeID ip) (ip_CapabilityProfileSha256 ip)
    (ip_BaseCommit ip) (ip_Branch ip) (ip_WorktreePath ip) (ip_CandidateTreeOid ip) (ip_Supervisor ip) (ip_Lane ip)
    (ip_Quiescence ip) (ip_NoExec ip) (wp_SpawnNoExecCount wp) (wp_PendingEffects wp) (wp_RetryCount wp) (wp_RepairRound wp)
    (wp_Budget wp) (wp_GateResults wp) (wp_Reviews wp) (wp_ManifestSha256 wp) (wp_ScopeCheck wp) (wp_PriorGenerations wp)
    (wp_Lease wp) (wp_Scope wp).

(** ** Writing *)

Definition lease_value (l : option Lease) : Value :=
  match l with
  | None => VNull
  | Some l =>
      let o := Set_ NewObject "holder" (VString (ls_Holder l)) in
      let o := Set_ o "grantedSeq" (VString (ls_GrantedSeq l)) in
      VObject (Set_ o "expiresAt" (VString (ls_ExpiresAt l)))
  end.

Definition supervisor_value (s : option Supervisor) : Value :=
  match s with
  | None => VNull
  | Some s => VObject (Set_ (Set_ NewObject "pid" (VString (sup_Pid s))) "startTime" (VString (sup_StartTime s)))
  end.

Definition lane_value (l : option Lane) : Value :=
  match l with
  | None => VNull
  | Some l =>
      let o := Set_ NewObject "pgid" (VString (lane_Pgid l)) in
      let o := Set_ o "leaderPid" (VString (lane_LeaderPid l)) in
      let o := Set_ o "leaderStartTime" (VString (lane_LeaderStartTime l)) in
      VObject (Set_ o "spawnEffectKey" (VString (lane_SpawnEffectKey l)))
  end.

(** [ResourcesValue]: the resources as a set. *)
Definition ResourcesValue (where_ : string) (rs : list Resource) : res Value := SortedSet where_ (resource_value <$> rs).

Definition scope_value (s : Scope) : res Value :=
  let* resources := ResourcesValue "/scope/resources" (sc_Resources s) in
  let o := Set_ NewObject "source" (VString (sc_Source s)) in
  let o := Set_ o "resources" resources in
  Ok (VObject (Set_ o "derivationSha256" (digestOrNull (sc_DerivationSha256 s)))).

Definition sizeOrNull (s : option string) : Value := match s with None => VNull | Some s => VString s end.

Definition budget_field_value (f : BudgetField) : Value :=
  VObject (Set_ (Set_ NewObject "value" (sizeOrNull (bf_Value f))) "state" (VString (bf_State f))).

(** [b[name]], zero when it is not set. *)
Definition budget_of (b : gmap string BudgetField) (name : string) : BudgetField :=
  default {| bf_Value := None; bf_State := ε |} (b !! name).

Definition budgetValue (b : gmap string BudgetField) : Value :=
  VObject (foldl (λ o name, Set_ o name (budget_field_value (budget_of b name))) NewObject LaneBudgetNames).

Definition loop_progress_value (g : LoopProgress) : Value :=
  VObject (Set_ (Set_ NewObject "signal" (VString (lp_Signal g))) "fingerprint" (StringOrNull (lp_Fingerprint g))).

Definition loop_evidence_value (e : LoopEvidence) : Value :=
  let o := Set_ NewObject "disposition" (VString (le_Disposition e)) in
  let o := Set_ o "candidateTreeOid" (StringOrNull (le_CandidateTreeOid e)) in
  let o := Set_ o "gateResults" (VString (le_GateResults e)) in
  let o := Set_ o "reviews" (VString (le_Reviews e)) in
  VObject (set_opt o "progress" (loop_progress_value <$> le_Progress e)).

Definition nonempty (s : string) : option Value := when (negb (s =s ε)) (VString s).

Definition prior_value (p : PriorGeneration) : Value :=
  let o := Set_ NewObject "generation" (VString (pg_Generation p)) in
  let o := Set_ o "quiescence" (VString (pg_Quiescence p)) in
  let o := Set_ o "provedSeq" (VString (pg_ProvedSeq p)) in
  VObject
    match pg_History p with
    | None => o
    | Some h =>
        let o := Set_ o "stage" (StringOrNull (gh_Stage h)) in
        let o := Set_ o "poolId" (StringOrNull (gh_PoolID h)) in
        let o := Set_ o "memberId" (StringOrNull (gh_MemberID h)) in
        let o := set_opt o "handoffTo" (nonempty (gh_HandoffTo h)) in
        let o := set_opt o "handoffReason" (nonempty (gh_HandoffReason h)) in
        set_opt o "loopEvidence" (loop_evidence_value <$> gh_Loop h)
    end.

Definition answer_value (x : EscalationAnswerRef) : Value :=
  let o := Set_ NewObject "requestId" (VString (ear_RequestID x)) in
  let o := Set_ o "originSha256" (VString (ear_OriginSha256 x)) in
  VObject (Set_ o "headSha256" (VString (ear_HeadSha256 x))).

Definition EscalationAnswersValue (refs : list EscalationAnswerRef) : Value := VArray (answer_value <$> refs).

Definition PoolAllocationValue (a : PoolAllocation) : Value :=
  let o := Set_ NewObject "poolId" (VString (pa_PoolID a)) in
  let o := Set_ o "memberId" (VString (pa_MemberID a)) in
  let o := Set_ o "allocationId" (VString (pa_AllocationID a)) in
  let o := Set_ o "definitionSha256" (VString (pa_DefinitionSha256 a)) in
  let o := Set_ o "allocatedSeq" (VString (pa_AllocatedSeq a)) in
  VObject (set_opt o "configRef" (ConfigRefValue <$> pa_ConfigRef a)).

(** The allocation of an admission; the writers only call it with one. *)
Definition allocation_value (a : option PoolAllocation) : Value := match a with Some a => PoolAllocationValue a | None => VNull end.

Definition directPoolValue (x : DirectPoolAdmission) : Object :=
  let o := Set_ NewObject "attemptId" (VString (dpa_AttemptID x)) in
  let o := Set_ o "generation" (VString (dpa_Generation x)) in
  let o := Set_ o "originalAdmissionSeq" (VString (dpa_OriginalAdmissionSeq x)) in
  let o := Set_ o "allocation" (allocation_value (dpa_Allocation x)) in
  let o := Set_ o "holder" (VString (dpa_Holder x)) in
  Set_ o "stage" (VString (dpa_Stage x)).

Definition DirectPoolAdmissionValue (x : DirectPoolAdmission) : Value :=
  VObject (Set_ (directPoolValue x) "profile" (VString ProfileDirectPoolAdmission)).

Definition LaneUntouchedAcknowledgementsValue : Value :=
  VObject (foldl (λ o name, Set_ o name (VBool true)) NewObject untouchedAcknowledgements).

Definition LaneUntouchedAttestationValue (x : LaneUntouchedAttestation) : Value :=
  let o := Set_ (directPoolValue (lua_Direct x)) "profile" (VString ProfileLaneUntouched) in
  let o := Set_ o "actorId" (VString (lua_ActorID x)) in
  let o := Set_ o "actorRole" (VString (lua_ActorRole x)) in
  let o := Set_ o "evidence" (VString (lua_Evidence x)) in
  let o := Set_ o "recordedSeq" (VString (lua_RecordedSeq x)) in
  let o := Set_ o "recordedAt" (VString (lua_RecordedAt x)) in
  let o := Set_ o "acknowledgements" LaneUntouchedAcknowledgementsValue in
  VObject (Set_ o "physicalFacts" (VString "NOT_OBSERVED")).

Definition SharedAllocationValue (x : SharedAllocation) : Value :=
  let o := Set_ NewObject "sourceAttemptId" (VString (sa_SourceAttemptID x)) in
  let o := Set_ o "sourceGeneration" (VString (sa_SourceGeneration x)) in
  VObject (Set_ o "boundSeq" (VString (sa_BoundSeq x))).

Definition ReleasedPoolAllocationValue (x : ReleasedPoolAllocation) : Value :=
  VObject (Set_ (Set_ NewObject "allocation" (PoolAllocationValue (rpa_Allocation x))) "releasedSeq" (VString (rpa_ReleasedSeq x))).

Definition supervisionValue (s : Supervision) : Value :=
  let o := Set_ NewObject "workerHolder" (VString (sv_WorkerHolder s)) in
  let o := Set_ o "leaderStarted" (VString (sv_LeaderStarted s)) in
  let o := Set_ o "programId" (VString (sv_ProgramID s)) in
  let o := Set_ o "ownerStarted" (VString (sv_OwnerStarted s)) in
  let o := Set_ o "worker" (VBool (sv_Worker s)) in
  let o := Set_ o "sessionId" (VString (sv_SessionID s)) in
  let o := Set_ o "authorHolder" (VString (sv_AuthorHolder s)) in
  let o := Set_ o "authorSession" (VString (sv_AuthorSession s)) in
  let o := Set_ o "reviewerHolder" (VString (sv_ReviewerHolder s)) in
  let o := Set_ o "reviewerSession" (VString (sv_ReviewerSession s)) in
  let o := Set_ o "reviewTree" (VString (sv_ReviewTree s)) in
  let o := Set_ o "reviewDigest" (VString (sv_ReviewDigest s)) in
  let o := Set_ o "handoffDigest" (VString (sv_HandoffDigest s)) in
  let o := Set_ o "questionId" (VString (sv_QuestionID s)) in
  let o := Set_ o "questionRevision" (VString (sv_QuestionRevision s)) in
  let o := Set_ o "question" (VString (sv_Question s)) in
  let o := Set_ o "answer" (VString (sv_Answer s)) in
  let o := Set_ o "resumePhase" (VString (sv_ResumePhase s)) in
  let o := Set_ o "integrationExpected" (VString (sv_IntegrationExpected s)) in
  let o := Set_ o "integrationCommit" (VString (sv_IntegrationCommit s)) in
  let o := Set_ o "integrationGrant" (VString (sv_IntegrationGrant s)) in
  VObject (Set_ o "turns" (VString (sv_Turns s))).

Definition accounting_value (x : RetryAccounting) : Value :=
  let o := Set_ NewObject "profile" (VString ProfileRetryAccounting) in
  let o := Set_ o "failedOrUnknown" (VBool (ra_FailedOrUnknown x)) in
  VObject (Set_ o "disposition" (VString (ra_Disposition x))).

Definition reason_text (reasons : gmap string string) (k : string) : string :=
  let n := default ε (reasons !! k) in if n =s ε then "0" else n.

Definition RetryReasonsValue (reasons : gmap string string) : Value :=
  VObject (foldl (λ o k, Set_ o k (VString (reason_text reasons k))) NewObject RetryReasonNames).

(** ** Checks *)

Definition same_value (a b : Value) : bool := Encode a =s Encode b.

Definition sameAllocation (a b : PoolAllocation) : bool :=
  EncodeFile (PoolAllocationValue a) =s EncodeFile (PoolAllocationValue b).

Definition laneUntouched_error : Error :=
  Errorf CodeMalformed "laneUntouched" "origin or terminal attestation binding differs" [].

(** Whether the admission an attempt keeps is bound to it. *)
Definition origin_bound (a : Attempt) (origin : DirectPoolAdmission) : bool :=
  match dpa_Allocation origin with
  | None => false
  | Some allocation =>
      (dpa_AttemptID origin =s atp_AttemptID a) && (dpa_Generation origin =s atp_Generation a) &&
      negb (Size_Uint64 (dpa_OriginalAdmissionSeq origin) =? 0) &&
      (dpa_OriginalAdmissionSeq origin =s pa_AllocatedSeq allocation) &&
      (Size_Uint64 (dpa_OriginalAdmissionSeq origin) <=? Size_Uint64 (atp_PhaseSinceSeq a))
  end.

(** Whether an attestation repeats the admission, which is still in force. *)
Definition attestation_bound (a : Attempt) (origin : DirectPoolAdmission) (x : LaneUntouchedAttestation) : bool :=
  match atp_PoolAllocation a, atp_Lease a, dpa_Allocation (lua_Direct x), dpa_Allocation origin with
  | Some allocation, Some lease, Some _, Some first =>
      (atp_RuntimeID a =s RuntimeExternalAgent) && (dpa_Holder origin =s ls_Holder lease) &&
      (dpa_Stage origin =s atp_Stage a) && same_value (PoolAllocationValue first) (PoolAllocationValue allocation) &&
      same_value (DirectPoolAdmissionValue origin) (DirectPoolAdmissionValue (lua_Direct x)) &&
      (atp_Phase a =s "CANCELLED") && (atp_Quiescence a =s "FENCED") && (lua_RecordedSeq x =s atp_PhaseSinceSeq a) &&
      (Size_Uint64 (dpa_OriginalAdmissionSeq origin) <? Size_Uint64 (lua_RecordedSeq x)) &&
      (ls_GrantedSeq lease =s dpa_OriginalAdmissionSeq origin) && (lua_RecordedAt x <s ls_ExpiresAt lease) &&
      (atp_ConfigSha256 a =s atp_PolicySha256 a) && (atp_CapabilityProfileSha256 a =s atp_PolicySha256 a)
  | _, _, _, _ => false
  end.

(** Whether the attempt records no use of its lane. *)
Definition unused (a : Attempt) : bool :=
  negb (some (atp_CandidateTreeOid a)) && negb (some (atp_ManifestSha256 a)) &&
  (length (atp_GateResults a) + length (atp_Reviews a) + length (atp_PendingEffects a) =? 0)%nat &&
  negb (some (atp_Supervisor a)) && negb (some (atp_Supervision a)) && negb (some (atp_Lane a)) &&
  negb (some (atp_WorktreePath a)) && negb (some (atp_NoExec a)) && (Count_Int (atp_SpawnNoExecCount a) =? 0) &&
  (atp_ScopeCheck a =s "UNKNOWN") &&
  match atp_RetryAccounting a with Some x => negb (ra_FailedOrUnknown x) | None => false end &&
  (Count_Int (atp_RetryCount a) =? 0) && (Count_Int (atp_RepairRound a) =? 0) && (length (atp_PriorGenerations a) =? 0)%nat.

Definition checkLaneUntouched (a : Attempt) : option Error :=
  match atp_DirectPoolAdmission a, atp_LaneUntouchedAttestation a with
  | None, x => reject (some x) laneUntouched_error
  | Some origin, x =>
      if negb (origin_bound a origin) then Some laneUntouched_error
      else match x with
      | None => None
      | Some x => reject (negb (attestation_bound a origin x) || negb (unused a)) laneUntouched_error
      end
  end.

(** The queue of an id whose parse error is ignored. *)
Definition queue_of (id : string) : QueueID := match AttemptQueue id with Ok q => q | _ => zeroQueueID end.

Definition checkSharedAllocation (a : Attempt) : option Error :=
  match atp_SharedAllocation a with
  | None => None
  | Some x =>
      match AttemptQueue (sa_SourceAttemptID x) with
      | Err e => Some e
      | OutOfFuel => None
      | Ok q =>
          reject (negb (some (atp_PoolAllocation a)) || some (atp_DirectPoolAdmission a) ||
                  (sa_SourceAttemptID x =s atp_AttemptID a) ||
                  negb (QueueID_Raw q =s QueueID_Raw (queue_of (atp_AttemptID a))) || (Size_Uint64 (sa_BoundSeq x) =? 0))
            (Errorf CodeMalformed "sharedAllocation" "shared allocation binding differs" [])
      end
  end.

Definition checkReleasedPoolAllocation (a : Attempt) : option Error :=
  match atp_ReleasedPoolAllocation a with
  | None => None
  | Some x =>
      reject (negb (atp_RuntimeID a =s RuntimeExternalAgent) || some (atp_PoolAllocation a) || some (atp_SharedAllocation a) ||
              (Size_Uint64 (rpa_ReleasedSeq x) <=? Size_Uint64 (pa_AllocatedSeq (rpa_Allocation x))))
        (Errorf CodeMalformed "releasedPoolAllocation" "returned allocation binding differs" [])
  end.

(** The disposition of a clean hand-off, if the attempt records one. *)
Definition clean_accounting (a : Attempt) : option RetryAccounting :=
  match atp_RetryAccounting a with Some x => if ra_Disposition x =s "NONE" then None else Some x | None => None end.

Definition is_empty {A} (l : list A) : bool := (length l =? 0)%nat.

(** Whether a clean disposition agrees with the facts of a terminal hand-off. *)
Definition clean_facts (a : Attempt) (x : RetryAccounting) : bool :=
  let candidate := (atp_HandoffEvidence a =s ε) && some (atp_CandidateTreeOid a) && (atp_ScopeCheck a =s "WITHIN") in
  let externalWork := negb (atp_HandoffEvidence a =s ε) && negb (some (atp_CandidateTreeOid a)) &&
                      (atp_ScopeCheck a =s "UNKNOWN") && is_empty (atp_GateResults a) in
  (atp_RuntimeID a =s RuntimeExternalAgent) && (atp_Phase a =s "CANCELLED") && (atp_Quiescence a =s "FENCED") &&
  negb (ra_FailedOrUnknown x) && (candidate || externalWork) && is_empty (atp_PendingEffects a) &&
  match atp_Cause a with Some c => c =s ra_Disposition x | None => false end &&
  existsb (String.eqb (atp_Stage a)) PoolStageRoles &&
  (negb (ra_Disposition x =s "REVIEW_RETURNED") || (atp_Stage a =s "review")).

Definition checkHandoff (a : Attempt) : option Error :=
  let clean := clean_accounting a in
  if negb (atp_HandoffEvidence a =s ε) && negb (some clean) then
    Some (Errorf CodeMalformed "/handoffEvidence" "evidence requires a clean terminal handoff" [])
  else if match clean with Some x => negb (clean_facts a x) | None => false end then
    Some (Errorf CodeMalformed "/retryAccounting" "clean disposition differs from terminal handoff facts" [])
  else if negb (atp_HandoffTo a =s ε) || negb (atp_HandoffReason a =s ε) then
    CheckHandoffTarget "/handoffTo" (match clean with Some x => ra_Disposition x | None => ε end) (atp_Stage a)
      (atp_HandoffTo a) (atp_HandoffReason a)
  else None.

Definition checkRuntime (a : Attempt) : option Error :=
  let external := atp_RuntimeID a =s RuntimeExternalAgent in
  let supervised := atp_RuntimeID a =s SupervisedProfile in
  if negb (Bool.eqb (external || supervised) (some (atp_Lease a))) || negb (Bool.eqb (external || supervised) (some (atp_Scope a))) then
    Some (Errorf CodeMalformed "/lease" "lease and scope are non-null exactly for %s" [AStr RuntimeExternalAgent])
  else if negb (Bool.eqb supervised (some (atp_Supervision a))) then
    Some (Errorf CodeMalformed "supervision" "runtime binding" [])
  else if external && ((atp_Phase a =s "WAITING") || (atp_Phase a =s "RETURNED")) then
    Some (Errorf CodeMalformed "phase" "supervised-only phase" [])
  else if external && (some (atp_Supervisor a) || some (atp_Lane a)) then
    Some (Errorf CodeMalformed "/supervisor" "%s has no supervisor or lane" [AStr RuntimeExternalAgent])
  else None.

(** [a.check()] *)
Definition Attempt_check (a : Attempt) : option Error :=
  match first_error_of [checkLaneUntouched a; checkSharedAllocation a; checkReleasedPoolAllocation a] with
  | Some e => Some e
  | None =>
      match AttemptQueue (atp_AttemptID a) with
      | Err e => Some e
      | OutOfFuel => None
      | Ok q =>
          first_error_of
            [ reject (negb (QueueID_Raw q =s TicketID_QueueID (atp_TicketID a)))
                (Errorf CodeMalformed "/attemptId" "attempt and ticket name different queues" []);
              checkHandoff a; checkRuntime a ]
      end
  end.

(** ** The document *)

Definition attemptFields : list string :=
  ["profile"; "attemptId"; "ticketId"; "ticketRevision"; "ticketRecordSha256"; "generation"; "phase"; "phaseSinceSeq";
   "cause"; "mode"; "planSha256"; "policySha256"; "configSha256"; "runtimeId"; "capabilityProfileSha256"; "baseCommit";
   "branch"; "worktreePath"; "candidateTreeOid"; "supervisor"; "lane"; "quiescence"; "noExec"; "spawnNoExecCount";
   "pendingEffects"; "retryCount"; "repairRound"; "budget"; "gateResults"; "reviews"; "manifestSha256"; "scopeCheck";
   "priorGenerations"; "lease"; "scope"].

Definition attemptOptional : list string :=
  ["stage"; "poolAllocation"; "supervision"; "retryAccounting"; "handoffEvidence"; "handoffTo"; "handoffReason";
   "lastHeartbeatAt"; "retryReasons"; "directPoolAdmission"; "laneUntouchedAttestation"; "operatorNote";
   "escalationAnswers"; "sharedAllocation"; "releasedPoolAllocation"].

(** The operator note, through its own decoder. *)
Definition read_attempt_note (r : Reader) (v : Value) (st : readerState) : res (option OperatorNoteReference) :=
  if Has v "operatorNote" then
    let '(f, _) := Field r "operatorNote" st in
    let* n := OperatorNoteReferenceFromValue (rv f) in Ok (Some n)
  else Ok None.

Definition DecodeAttempt (data : string) : res Attempt :=
  if MaxAttemptRecordBytes <? slen data then
    Err (Errorf CodeLimitExceeded "/" "attempt larger than %d bytes" [AInt MaxAttemptRecordBytes])
  else
    let* v := Parse data in
    let r := NewReader v "/" in
    try ProfileVersion "/profile" v ProfileAttempt;
    let* _ := run (Closed r (OptionalKeys v attemptFields attemptOptional)) st0 in
    let '(profile, st) := (f ← Field r "profile"; String_ f) st0 in
    try CheckProfile "/profile" profile ProfileAttempt;
    let* bp := run (read_binding r) st in
    let* note := read_attempt_note r v st in
    let* parts := run (read_rest r) st in
    let '(cp, ip, wp) := parts in
    let a := assemble_attempt bp note cp ip wp in
    try Attempt_check a;
    Ok a.

(** The object [Encode] writes, but for the scope, which may fail. *)
Definition attempt_object (a : Attempt) (scope : Value) : Object :=
  let o := Set_ NewObject "profile" (VString ProfileAttempt) in
  let o := set_opt o "directPoolAdmission" (DirectPoolAdmissionValue <$> atp_DirectPoolAdmission a) in
  let o := set_opt o "laneUntouchedAttestation" (LaneUntouchedAttestationValue <$> atp_LaneUntouchedAttestation a) in
  let o := set_opt o "sharedAllocation" (SharedAllocationValue <$> atp_SharedAllocation a) in
  let o := set_opt o "operatorNote" (OperatorNoteReference_Value <$> atp_OperatorNote a) in
  let o := set_opt o "escalationAnswers"
    (when (0 <? length (atp_EscalationAnswers a))%nat (EscalationAnswersValue (atp_EscalationAnswers a))) in
  let o := set_opt o "lastHeartbeatAt" (VString <$> atp_LastHeartbeatAt a) in
  let o := set_opt o "retryReasons" (RetryReasonsValue <$> atp_RetryReasons a) in
  let o := set_opt o "handoffEvidence" (nonempty (atp_HandoffEvidence a)) in
  let o := set_opt o "handoffTo" (nonempty (atp_HandoffTo a)) in
  let o := set_opt o "handoffReason" (nonempty (atp_HandoffReason a)) in
  let o := set_opt o "retryAccounting" (accounting_value <$> atp_RetryAccounting a) in
  let o := set_opt o "supervision" (supervisionValue <$> atp_Supervision a) in
  let o := set_opt o "stage" (nonempty (atp_Stage a)) in
  let o := set_opt o "poolAllocation" (PoolAllocationValue <$> atp_PoolAllocation a) in
  let o := set_opt o "releasedPoolAllocation" (ReleasedPoolAllocationValue <$> atp_ReleasedPoolAllocation a) in
  let o := Set_ o "attemptId" (VString (atp_AttemptID a)) in
  let o := Set_ o "ticketId" (VString (TicketID_Raw (atp_TicketID a))) in
  let o := Set_ o "ticketRevision" (VString (atp_TicketRevision a)) in
  let o := Set_ o "ticketRecordSha256" (VString (atp_TicketRecordSha256 a)) in
  let o := Set_ o "generation" (VString (atp_Generation a)) in
  let o := Set_ o "phase" (VString (atp_Phase a)) in
  let o := Set_ o "phaseSinceSeq" (VString (atp_PhaseSinceSeq a)) in
  let o := Set_ o "cause" (StringOrNull (atp_Cause a)) in
  let o := Set_ o "mode" (VString (atp_Mode a)) in
  let o := Set_ o "planSha256" (digestOrNull (atp_PlanSha256 a)) in
  let o := Set_ o "policySha256" (VString (atp_PolicySha256 a)) in
  let o := Set_ o "configSha256" (VString (atp_ConfigSha256 a)) in
  let o := Set_ o "runtimeId" (VString (atp_RuntimeID a)) in
  let o := Set_ o "capabilityProfileSha256" (VString (atp_CapabilityProfileSha256 a)) in
  let o := Set_ o "baseCommit" (VString (atp_BaseCommit a)) in
  let o := Set_ o "branch" (VString (atp_Branch a)) in
  let o := Set_ o "worktreePath" (StringOrNull (atp_WorktreePath a)) in
  let o := Set_ o "candidateTreeOid" (StringOrNull (atp_CandidateTreeOid a)) in
  let o := Set_ o "quiescence" (VString (atp_Quiescence a)) in
  let o := Set_ o "noExec" (StringOrNull (atp_NoExec a)) in
  let o := Set_ o "spawnNoExecCount" (VString (atp_SpawnNoExecCount a)) in
  let o := Set_ o "pendingEffects" (Strings (atp_PendingEffects a)) in
  let o := Set_ o "retryCount" (VString (atp_RetryCount a)) in
  let o := Set_ o "repairRound" (VString (atp_RepairRound a)) in
  let o := Set_ o "budget" (budgetValue (atp_Budget a)) in
  let o := Set_ o "gateResults" (Strings (atp_GateResults a)) in
  let o := Set_ o "reviews" (Strings (atp_Reviews a)) in
  let o := Set_ o "manifestSha256" (digestOrNull (atp_ManifestSha256 a)) in
  let o := Set_ o "scopeCheck" (VString (atp_ScopeCheck a)) in
  let o := Set_ o "priorGenerations" (VArray (prior_value <$> atp_PriorGenerations a)) in
  let o := Set_ o "supervisor" (supervisor_value (atp_Supervisor a)) in
  let o := Set_ o "lane" (lane_value (atp_Lane a)) in
  let o := Set_ o "lease" (lease_value (atp_Lease a)) in
  Set_ o "scope" scope.

Definition Attempt_Value (a : Attempt) : res Value :=
  let* scope := match atp_Scope a with None => Ok VNull | Some s => scope_value s end in
  Ok (VObject (attempt_object a scope)).

(** [a.Encode()]: the bytes, which it proves decode. *)
Definition Attempt_Encode (a : Attempt) : res string :=
  try checkLaneUntouched a;
  let* v := Attempt_Value a in
  let raw := EncodeFile v in
  let* _ := DecodeAttempt raw in
  Ok raw.

(** ** The reservation set *)

Record CapacityUse := { cu_ClassID : string; cu_Units : string }.

Record ReservationEntry := mkEntry {
  en_AttemptID : string; en_Generation : string; en_TicketID : TicketID; en_TicketRevision : string;
  en_Resources : list Resource; en_CapacityUses : list CapacityUse; en_Workers : string; en_State : string;
  en_CreatedSeq : string; en_Coverage : string
}.

Record ReservationSet := mkReservations { rs_QueueID : QueueID; rs_Entries : list ReservationEntry }.

Definition read_use (c : Reader) : M CapacityUse :=
  _ ← Closed c ["classId"; "units"];
  f ← Field c "classId"; class ← Label f;
  f ← Field c "units"; units ← Count f;
  mret {| cu_ClassID := class; cu_Units := units |}.

Definition readEntry (e : Reader) : M ReservationEntry :=
  _ ← Closed e ["attemptId"; "generation"; "ticketId"; "ticketRevision"; "resources"; "capacityUses"; "workers"; "state";
                "createdSeq"; "coverage"];
  f ← Field e "attemptId"; attempt ← Identifier f;
  f ← Field e "generation"; generation ← Size f;
  f ← Field e "ticketId"; ticket ← Reader_TicketID f;
  f ← Field e "ticketRevision"; revision ← Count f;
  f ← Field e "resources"; resources ← readResources f MaxEntryResources;
  f ← Field e "capacityUses"; items ← Array_ f (-1) false; uses ← each read_use items;
  f ← Field e "workers"; workers ← Count f;
  f ← Field e "state"; state ← Enum f ["ACTIVE"; "QUIESCING"; "BLOCKED_RECOVERY"];
  f ← Field e "createdSeq"; created ← Size f;
  f ← Field e "coverage"; coverage ← Enum f ["QUALIFIED"; "WHOLE_REPOSITORY"];
  mret (mkEntry attempt generation ticket revision resources uses workers state created coverage).

Definition read_reservations (r : Reader) : M ReservationSet :=
  f ← Field r "queueId"; queue ← Reader_QueueID f;
  f ← Field r "entries"; items ← Array_ f MaxActiveAttempts false; entries ← each readEntry items;
  mret (mkReservations queue entries).

(** The loop of [s.check()]; [seen] are the attempts of the entries before. *)
Fixpoint check_entries (queue : QueueID) (seen : list string) (es : list ReservationEntry) : option Error :=
  match es with
  | [] => None
  | e :: es' =>
      match AttemptQueue (en_AttemptID e) with
      | Err err => Some err
      | OutOfFuel => None
      | Ok q =>
          if negb (QueueID_Raw q =s QueueID_Raw queue) || negb (TicketID_QueueID (en_TicketID e) =s QueueID_Raw queue) then
            Some (Errorf CodeMalformed "/entries" "entry names another queue" [])
          else if existsb (String.eqb (en_AttemptID e)) seen then
            Some (Errorf CodeMalformed "/entries" "two entries for %s" [AStr (en_AttemptID e)])
          else check_entries queue (en_AttemptID e :: seen) es'
      end
  end.

Definition Reservations_check (s : ReservationSet) : option Error := check_entries (rs_QueueID s) [] (rs_Entries s).

Definition DecodeReservations (data : string) : res ReservationSet :=
  if MaxReservationSetBytes <? slen data then
    Err (Errorf CodeLimitExceeded "/" "reservation set larger than %d bytes" [AInt MaxReservationSetBytes])
  else
    let* v := Parse data in
    let r := NewReader v "/" in
    try ProfileVersion "/profile" v ProfileReservations;
    let* _ := run (Closed r ["profile"; "queueId"; "entries"]) st0 in
    let '(profile, st) := (f ← Field r "profile"; String_ f) st0 in
    try CheckProfile "/profile" profile ProfileReservations;
    let* s := run (read_reservations r) st in
    try Reservations_check s;
    Ok s.

Definition use_value (c : CapacityUse) : Value :=
  VObject (Set_ (Set_ NewObject "classId" (VString (cu_ClassID c))) "units" (VString (cu_Units c))).

Definition entryValue (e : ReservationEntry) : res Value :=
  let* resources := ResourcesValue "/entries/resources" (en_Resources e) in
  let* uses := SortedSet "/entries/capacityUses" (use_value <$> en_CapacityUses e) in
  let o := Set_ NewObject "attemptId" (VString (en_AttemptID e)) in
  let o := Set_ o "generation" (VString (en_Generation e)) in
  let o := Set_ o "ticketId" (VString (TicketID_Raw (en_TicketID e))) in
  let o := Set_ o "ticketRevision" (VString (en_TicketRevision e)) in
  let o := Set_ o "resources" resources in
  let o := Set_ o "capacityUses" uses in
  let o := Set_ o "workers" (VString (en_Workers e)) in
  let o := Set_ o "state" (VString (en_State e)) in
  let o := Set_ o "createdSeq" (VString (en_CreatedSeq e)) in
  Ok (VObject (Set_ o "coverage" (VString (en_Coverage e)))).

Fixpoint entry_values (es : list ReservationEntry) : res (list Value) :=
  match es with
  | [] => Ok []
  | e :: es' => let* v := entryValue e in let* vs := entry_values es' in Ok (v :: vs)
  end.

Definition Reservations_Value (s : ReservationSet) : res Value :=
  let* vs := entry_values (rs_Entries s) in
  let* entries := SortedSet "/entries" vs in
  let o := Set_ NewObject "profile" (VString ProfileReservations) in
  let o := Set_ o "queueId" (VString (QueueID_Raw (rs_QueueID s))) in
  Ok (VObject (Set_ o "entries" entries)).

(** [s.Encode()]: the bytes, which it proves decode. *)
Definition Reservations_Encode (s : ReservationSet) : res string :=
  let* v := Reservations_Value s in
  let raw := EncodeFile v in
  let* _ := DecodeReservations raw in
  Ok raw.

(** ** Assigning to a field of an attempt *)

From S2P Require Import Updates.

Definition eta_attempt (a : Attempt) : Attempt :=
  mkAttempt
    (atp_DirectPoolAdmission a) (atp_SharedAllocation a) (atp_ReleasedPoolAllocation a)
    (atp_LaneUntouchedAttestation a) (atp_OperatorNote a) (atp_EscalationAnswers a) (atp_HandoffTo a)
    (atp_HandoffReason a) (atp_LastHeartbeatAt a) (atp_RetryReasons a) (atp_RetryAccounting a)
    (atp_HandoffEvidence a) (atp_Supervision a) (atp_Stage a) (atp_PoolAllocation a) (atp_AttemptID a)
    (atp_TicketID a) (atp_TicketRevision a) (atp_TicketRecordSha256 a) (atp_Generation a) (atp_Phase a)
    (atp_PhaseSinceSeq a) (atp_Cause a) (atp_Mode a) (atp_PlanSha256 a) (atp_PolicySha256 a) (atp_ConfigSha256 a)
    (atp_RuntimeID a) (atp_CapabilityProfileSha256 a) (atp_BaseCommit a) (atp_Branch a) (atp_WorktreePath a)
    (atp_CandidateTreeOid a) (atp_Supervisor a) (atp_Lane a) (atp_Quiescence a) (atp_NoExec a)
    (atp_SpawnNoExecCount a) (atp_PendingEffects a) (atp_RetryCount a) (atp_RepairRound a) (atp_Budget a)
    (atp_GateResults a) (atp_Reviews a) (atp_ManifestSha256 a) (atp_ScopeCheck a) (atp_PriorGenerations a)
    (atp_Lease a) (atp_Scope a).

#[export] Instance set_atp_LaneUntouchedAttestation : Setter atp_LaneUntouchedAttestation.
Proof. setter eta_attempt atp_LaneUntouchedAttestation. Defined.
#[export] Instance set_atp_HandoffTo : Setter atp_HandoffTo.
Proof. setter eta_attempt atp_HandoffTo. Defined.
#[export] Instance set_atp_HandoffReason : Setter atp_HandoffReason.
Proof. setter eta_attempt atp_HandoffReason. Defined.
#[export] Instance set_atp_LastHeartbeatAt : Setter atp_LastHeartbeatAt.
Proof. setter eta_attempt atp_LastHeartbeatAt. Defined.
#[export] Instance set_atp_RetryReasons : Setter atp_RetryReasons.
Proof. setter eta_attempt atp_RetryReasons. Defined.
#[export] Instance set_atp_RetryAccounting : Setter atp_RetryAccounting.
Proof. setter eta_attempt atp_RetryAccounting. Defined.
#[export] Instance set_atp_HandoffEvidence : Setter atp_HandoffEvidence.
Proof. setter eta_attempt atp_HandoffEvidence. Defined.
#[export] Instance set_atp_PoolAllocation : Setter atp_PoolAllocation.
Proof. setter eta_attempt atp_PoolAllocation. Defined.
#[export] Instance set_atp_DirectPoolAdmission : Setter atp_DirectPoolAdmission.
Proof. setter eta_attempt atp_DirectPoolAdmission. Defined.
#[export] Instance set_atp_SharedAllocation : Setter atp_SharedAllocation.
Proof. setter eta_attempt atp_SharedAllocation. Defined.
#[export] Instance set_atp_AttemptID : Setter atp_AttemptID.
Proof. setter eta_attempt atp_AttemptID. Defined.
#[export] Instance set_atp_Phase : Setter atp_Phase.
Proof. setter eta_attempt atp_Phase. Defined.
#[export] Instance set_atp_PhaseSinceSeq : Setter atp_PhaseSinceSeq.
Proof. setter eta_attempt atp_PhaseSinceSeq. Defined.
#[export] Instance set_atp_Cause : Setter atp_Cause.
Proof. setter eta_attempt atp_Cause. Defined.
#[export] Instance set_atp_Quiescence : Setter atp_Quiescence.
Proof. setter eta_attempt atp_Quiescence. Defined.
#[export] Instance set_atp_RetryCount : Setter atp_RetryCount.
Proof. setter eta_attempt atp_RetryCount. Defined.
#[export] Instance set_atp_PriorGenerations : Setter atp_PriorGenerations.
Proof. setter eta_attempt atp_PriorGenerations. Defined.
#[export] Instance set_atp_Lease : Setter atp_Lease.
Proof. setter eta_attempt atp_Lease. Defined.
#[export] Instance set_atp_Scope : Setter atp_Scope.
Proof. setter eta_attempt atp_Scope. Defined.
