(* ===== verification/Clock.v ===== *)
(** * Instants and timestamps

    What the code uses of the package [time]: an instant is the number of
    seconds since the first of January of the year 1, the zero [time.Time].
    [addMinutes] and [addSeconds] are those of [lease.go] and [pool_wait.go]
    of [src/internal/tasks/transaction].

    [Parse] is defined on the texts that [ParseTimestamp] accepts, which are
    the only ones the callers hold.  [Format] writes a year above 9999 with
    five digits, so that an instant out of range makes no valid timestamp. *)

From S2P Require Import Prelude Utf8 GoStd Codes Value Primitives SetsSpec PrimitivesSpec.
Local Open Scope Z_scope.
Local Open Scope go_scope.

(** ** Definitions *)

Module time.

(** The days from the first day of the year 1 to the first day of [y]. *)
Definition days_before_year (y : Z) : Z := 365 * (y - 1) + (y - 1) / 4 - (y - 1) / 100 + (y - 1) / 400.

(** The days of the months before [S m]. *)
Fixpoint days_before_month (year : Z) (m : nat) : Z :=
  match m with O => 0 | S m' => days_before_month year m' + daysIn (Z.of_nat m) year end.

Definition date (y m d : Z) : Z := days_before_year y + days_before_month y (Z.to_nat (m - 1)) + (d - 1).

Definition instant (day h mi s : Z) : Z := day * 86400 + h * 3600 + mi * 60 + s.

(** [time.Parse(layout, s)] *)
Definition Parse (s : string) : option Z :=
  '(y, m, d) ← date_at s; '(h, mi, sec) ← clock_at s; Some (instant (date y m d) h mi sec).

(** The year of a day: an estimate is at most one off. *)
Definition year_of (day : Z) : Z :=
  let y := day * 400 / 146097 + 1 in
  if day <? days_before_year y then y - 1 else if days_before_year (y + 1) <=? day then y + 1 else y.

(** The month and day of a day of the year, from the month [m] on. *)
Fixpoint month_of (fuel : nat) (year m doy : Z) : Z * Z :=
  match fuel with
  | O => (m, doy + 1)
  | S k => if doy <? daysIn m year then (m, doy + 1) else month_of k year (m + 1) (doy - daysIn m year)
  end.

Definition civil (day : Z) : Z * Z * Z :=
  let y := year_of day in
  let '(m, d) := month_of 11 y 1 (day - days_before_year y) in (y, m, d).

(** [appendInt(b, x, width)] *)
Definition zeros (n : nat) : string := Nat.iter n (String "0") ε.

Definition appendInt (x : Z) (width : nat) : string :=
  let s := strconv.FormatUint (Z.abs x) in
  (if x <? 0 then "-" else ε) +:+ zeros (width - String.length s) +:+ s.

(** [t.Format(layout)] *)
Definition Format (t : Z) : string :=
  let '(y, m, d) := civil (t / 86400) in
  let r := t mod 86400 in
  appendInt y 4 +:+ "-" +:+ appendInt m 2 +:+ "-" +:+ appendInt d 2 +:+ "T" +:+ appendInt (r / 3600) 2 +:+ ":" +:+
  appendInt (r / 60 mod 60) 2 +:+ ":" +:+ appendInt (r mod 60) 2 +:+ "Z".

(** A number as a signed 64-bit integer. *)
Definition int64 (n : Z) : Z := (n + 2 ^ 63) mod 2 ^ 64 - 2 ^ 63.

(** [t.Add(d)] of a duration in nanoseconds; only whole seconds are formatted. *)
Definition Add (t d : Z) : Z := t + d / 10 ^ 9.

End time.

Definition zero_time : Z := 0.

(** [at, _ := time.Parse(layout, t)] *)
Definition parse_time (t : string) : Z := default zero_time (time.Parse t).

Definition addMinutes (t m : string) : string :=
  time.Format (time.Add (parse_time t) (time.int64 (time.int64 (Size_Uint64 m) * 60000000000))).

Definition addSeconds (t : string) (n : Z) : string :=
  time.Format (time.Add (parse_time t) (time.int64 (n * 1000000000))).

(** ** Years, months and days *)

Lemma days_of_year y : time.days_before_year (y + 1) = time.days_before_year y + (if isLeap y then 366 else 365).
Proof.
  unfold time.days_before_year, isLeap. replace (y + 1 - 1) with y by lia.
  destruct (Z.eqb_spec (y mod 4) 0), (Z.eqb_spec (y mod 100) 0), (Z.eqb_spec (y mod 400) 0); cbn [negb andb orb]; lia.
Qed.

Lemma year_of_spec day :
  time.days_before_year (time.year_of day) ≤ day < time.days_before_year (time.year_of day + 1).
Proof.
  unfold time.year_of. set (y := day * 400 / 146097 + 1).
  assert (time.days_before_year (y - 1) ≤ day < time.days_before_year (y + 1 + 1)) as [H1 H2].
  { unfold y, time.days_before_year. lia. }
  destruct (Z.ltb_spec day (time.days_before_year y)) as [H|H].
  { replace (y - 1 + 1) with y by lia. lia. }
  destruct (Z.leb_spec (time.days_before_year (y + 1)) day); lia.
Qed.

Lemma daysIn_range m y : 28 ≤ daysIn m y ≤ 31.
Proof. unfold daysIn. repeat case_match; lia. Qed.

Lemma days_before_month_step y m :
  time.days_before_month y (S m) = time.days_before_month y m + daysIn (Z.of_nat (S m)) y.
Proof. done. Qed.

Lemma days_of_months y : time.days_before_month y 12 = if isLeap y then 366 else 365.
Proof. cbn -[isLeap]. unfold daysIn. simpl. destruct (isLeap y); reflexivity. Qed.

Lemma days_before_month_mono y m k : (m ≤ k)%nat → time.days_before_month y m ≤ time.days_before_month y k.
Proof. induction 1; [done|]. rewrite days_before_month_step. pose proof (daysIn_range (Z.of_nat (S m0)) y). lia. Qed.

Lemma validDate_spec y m d : validDate y m d = true ↔ 1 ≤ m ≤ 12 ∧ 1 ≤ d ≤ daysIn m y.
Proof. unfold validDate. rewrite !andb_true_iff, !Z.leb_le. lia. Qed.

(** The day of the year of a date lies in its month. *)
Lemma day_of_year y m d :
  validDate y m d = true →
  time.days_before_month y (Z.to_nat (m - 1)) ≤ time.days_before_month y (Z.to_nat (m - 1)) + (d - 1) <
    time.days_before_month y (Z.to_nat m).
Proof.
  rewrite validDate_spec. intros [Hm Hd]. split; [lia|].
  replace (Z.to_nat m) with (S (Z.to_nat (m - 1))) by lia. rewrite days_before_month_step.
  replace (Z.of_nat (S (Z.to_nat (m - 1)))) with m by lia. lia.
Qed.

Lemma date_in_year y m d :
  validDate y m d = true → time.days_before_year y ≤ time.date y m d < time.days_before_year (y + 1).
Proof.
  intros H. pose proof (day_of_year y m d H). apply validDate_spec in H as [Hm _].
  pose proof (days_before_month_mono y (Z.to_nat m) 12 ltac:(lia)) as Hle. rewrite days_of_months in Hle.
  pose proof (days_before_month_mono y 0 (Z.to_nat (m - 1)) ltac:(lia)) as Hge. simpl in Hge.
  unfold time.date. rewrite days_of_year. lia.
Qed.

Lemma month_of_spec fuel y : ∀ k doy,
  (k + fuel = 11)%nat → time.days_before_month y k ≤ doy < time.days_before_month y 12 →
  ∃ m d, time.month_of fuel y (Z.of_nat k + 1) (doy - time.days_before_month y k) = (m, d) ∧ validDate y m d = true ∧
    time.days_before_month y (Z.to_nat (m - 1)) + (d - 1) = doy.
Proof.
  induction fuel as [|fuel IH]; intros k doy Hk Hd; cbn [time.month_of].
  - do 2 eexists. split; [done|]. assert (k = 11)%nat as -> by lia.
    change (time.days_before_month y 12) with (time.days_before_month y 11 + daysIn 12 y) in Hd.
    rewrite validDate_spec. change (Z.of_nat 11 + 1) with 12. change (Z.to_nat (12 - 1)) with 11%nat. lia.
  - destruct (Z.ltb_spec (doy - time.days_before_month y k) (daysIn (Z.of_nat k + 1) y)) as [H|H].
    + do 2 eexists. split; [done|]. rewrite validDate_spec. replace (Z.to_nat (Z.of_nat k + 1 - 1)) with k by lia. lia.
    + specialize (IH (S k) doy ltac:(lia)). rewrite days_before_month_step in IH.
      replace (Z.of_nat (S k) + 1) with (Z.of_nat k + 1 + 1) in IH by lia.
      replace (Z.of_nat (S k)) with (Z.of_nat k + 1) in IH by lia.
      replace (doy - time.days_before_month y k - daysIn (Z.of_nat k + 1) y)
        with (doy - (time.days_before_month y k + daysIn (Z.of_nat k + 1) y)) by lia.
      apply IH. lia.
Qed.

(** Every day is the day of exactly the date [civil] gives it. *)
Lemma civil_spec day :
  ∃ m d, time.civil day = (time.year_of day, m, d) ∧ validDate (time.year_of day) m d = true ∧
    time.date (time.year_of day) m d = day.
Proof.
  pose proof (year_of_spec day) as [H1 H2]. rewrite days_of_year in H2. unfold time.civil. set (y := time.year_of day) in *.
  destruct (month_of_spec 11 y 0 (day - time.days_before_year y)) as (m & d & H & Hv & Hd);
    [lia|rewrite days_of_months; simpl; destruct (isLeap y); lia|].
  simpl time.days_before_month in H. rewrite Z.sub_0_r in H. change (Z.of_nat 0 + 1) with 1 in H.
  exists m, d. rewrite H. split_and!; [done|done|]. unfold time.date. lia.
Qed.

(** Dates are ordered as their year, month and day. *)
Definition date_lt (y m d y' m' d' : Z) : Prop := y < y' ∨ y = y' ∧ (m < m' ∨ m = m' ∧ d < d').

Lemma date_mono y m d y' m' d' :
  validDate y m d = true → validDate y' m' d' = true → date_lt y m d y' m' d' → time.date y m d < time.date y' m' d'.
Proof.
  intros H H' [Hy|[-> [Hm|[-> Hd]]]]; [| |unfold time.date; lia].
  - pose proof (date_in_year y m d H). pose proof (date_in_year y' m' d' H').
    assert (∀ n, time.days_before_year (y + 1) ≤ time.days_before_year (y + 1 + Z.of_nat n)) as Hmono.
    { intros n. induction n as [|n IH]; [by rewrite Z.add_0_r|]. rewrite Nat2Z.inj_succ, <-Z.add_1_r, Z.add_assoc,
        (days_of_year (y + 1 + Z.of_nat n)). destruct (isLeap _); lia. }
    specialize (Hmono (Z.to_nat (y' - (y + 1)))). replace (y + 1 + Z.of_nat (Z.to_nat (y' - (y + 1)))) with y' in Hmono by lia. lia.
  - pose proof (day_of_year _ _ _ H). pose proof (day_of_year _ _ _ H'). apply validDate_spec in H as [? _].
    apply validDate_spec in H' as [? _].
    pose proof (days_before_month_mono y' (Z.to_nat m) (Z.to_nat (m' - 1)) ltac:(lia)). unfold time.date. lia.
Qed.

(** ** Timestamps as text *)

(** [n] with [w] digits. *)
Fixpoint fixed (w : nat) (n : Z) : string :=
  match w with O => ε | S w' => fixed w' (n / 10) +:+ str1 (strconv.digit (n mod 10)) end.

Lemma length_fixed w n : String.length (fixed w n) = w.
Proof. revert n. induction w as [|w IH]; intros n; [done|]. cbn [fixed]. rewrite length_app_str, IH. simpl. lia. Qed.

Lemma zeros_snoc n : time.zeros (S n) = time.zeros n +:+ "0".
Proof. induction n as [|n IH]; [done|]. change (String "0" (time.zeros (S n)) = String "0" (time.zeros n +:+ "0")). by rewrite IH. Qed.

Lemma length_zeros n : String.length (time.zeros n) = n.
Proof. induction n as [|n IH]; [done|]. change (S (String.length (time.zeros n)) = S n). by rewrite IH. Qed.

Lemma fixed_zero w : fixed w 0 = time.zeros w.
Proof. induction w as [|w IH]; [done|]. rewrite zeros_snoc, <-IH. done. Qed.

Lemma pow_S w : 10 ^ Z.of_nat (S w) = 10 * 10 ^ Z.of_nat w.
Proof. rewrite Nat2Z.inj_succ, Z.pow_succ_r; lia. Qed.

Lemma FormatUint_fixed w : ∀ n, (0 < w)%nat → 0 ≤ n < 10 ^ Z.of_nat w →
  (String.length (strconv.FormatUint n) ≤ w)%nat ∧
  time.zeros (w - String.length (strconv.FormatUint n)) +:+ strconv.FormatUint n = fixed w n.
Proof.
  induction w as [|w IH]; intros n Hw Hn; [lia|]. rewrite pow_S in Hn. destruct (Z.ltb_spec n 10) as [H|H].
  - rewrite strconv.FormatUint_small by lia. cbn [fixed]. rewrite (Z.div_small n 10), (Z.mod_small n 10), fixed_zero by lia.
    cbn [String.length str1]. by replace (S w - 1)%nat with w by lia.
  - destruct w as [|w]; [simpl in Hn; lia|]. rewrite strconv.FormatUint_step by lia.
    destruct (IH (n / 10)) as [Hl He]; [lia|lia|]. cbn [fixed] in *. rewrite length_app_str. cbn [String.length str1].
    split; [lia|]. rewrite <-app_str_assoc, <-He. do 2 f_equal. f_equal. lia.
Qed.

Lemma appendInt_fixed w n : (0 < w)%nat → 0 ≤ n < 10 ^ Z.of_nat w → time.appendInt n w = fixed w n.
Proof.
  intros Hw Hn. unfold time.appendInt. rewrite Z.abs_eq by lia. destruct (Z.ltb_spec n 0); [lia|].
  by apply FormatUint_fixed.
Qed.

(** Strings of one length compare by their first parts, then by their second. *)
Lemma ltb_app a b x y :
  String.length a = String.length b →
  (a +:+ x <s b +:+ y) = (a <s b) || ((a =s b) && (x <s y)).
Proof.
  revert b. induction a as [|c a IH]; intros [|d b] Hl; try discriminate Hl; [by rewrite !app_nil_str|].
  injection Hl as Hl. rewrite !app_cons_str. specialize (IH b Hl). unfold String.ltb in *. cbn [String.compare].
  destruct (Ascii.compare c d) eqn:Hc.
  - apply Ascii.compare_eq_iff in Hc as ->. rewrite IH. f_equal. f_equal. cbn [String.eqb]. by rewrite Ascii.eqb_refl.
  - done.
  - destruct (String.eqb_spec (String c a) (String d b)) as [Heq|]; [|done]. injection Heq as -> _.
    unfold Ascii.compare in Hc. by rewrite N.compare_refl in Hc.
Qed.

Lemma digit_ltb n k : 0 ≤ n < 10 → 0 ≤ k < 10 → (str1 (strconv.digit n) <s str1 (strconv.digit k)) = (n <? k).
Proof.
  assert (∀ n, 0 ≤ n < 10 → n = 0 ∨ n = 1 ∨ n = 2 ∨ n = 3 ∨ n = 4 ∨ n = 5 ∨ n = 6 ∨ n = 7 ∨ n = 8 ∨ n = 9) as Hs by lia.
  intros Hn%Hs Hk%Hs. destruct_or!; subst; reflexivity.
Qed.

Lemma fixed_ltb w : ∀ n k, 0 ≤ n < 10 ^ Z.of_nat w → 0 ≤ k < 10 ^ Z.of_nat w → (fixed w n <s fixed w k) = (n <? k).
Proof.
  induction w as [|w IH]; intros n k Hn Hk; [simpl in *; symmetry; apply Z.ltb_ge; lia|]. rewrite pow_S in Hn, Hk.
  cbn [fixed]. rewrite ltb_app by (by rewrite !length_fixed). rewrite digit_ltb, IH by lia.
  assert ((fixed w (n / 10) =s fixed w (k / 10)) = (n / 10 =? k / 10)) as ->.
  { destruct (Z.eqb_spec (n / 10) (k / 10)) as [->|Hne]; [apply String.eqb_refl|]. apply String.eqb_neq. intros He.
    destruct (Z.lt_total (n / 10) (k / 10)) as [Hlt|[?|Hlt]]; [|done|]; apply Z.ltb_lt in Hlt; rewrite <-IH, He in Hlt by lia;
      by rewrite ltb_irrefl in Hlt. }
  apply eq_true_iff_eq. rewrite orb_true_iff, andb_true_iff, !Z.ltb_lt, Z.eqb_eq. lia.
Qed.

(** The text of a civil time. *)
Definition stamp (y m d h mi s : Z) : string :=
  fixed 4 y +:+ "-" +:+ fixed 2 m +:+ "-" +:+ fixed 2 d +:+ "T" +:+ fixed 2 h +:+ ":" +:+ fixed 2 mi +:+ ":" +:+ fixed 2 s +:+ "Z".

(** The fields of a time that has a timestamp. *)
Definition fields_ok (y m d h mi s : Z) : Prop :=
  0 ≤ y < 10000 ∧ validDate y m d = true ∧ 0 ≤ h < 24 ∧ 0 ≤ mi < 60 ∧ 0 ≤ s < 60.

Lemma digits_fixed w : ∀ n, 0 ≤ n < 10 ^ Z.of_nat w →
  str_forall strconv.isDigit (fixed w n) = true ∧ strconv.digits 0 (fixed w n) = n.
Proof.
  induction w as [|w IH]; intros n Hn; [simpl in *; split; [done|lia]|]. rewrite pow_S in Hn. cbn [fixed].
  destruct (IH (n / 10)) as [Hd Hv]; [lia|]. rewrite str_forall_app, strconv.digits_app, Hd, Hv. cbn [str_forall strconv.digits str1].
  unfold strconv.digit. rewrite strconv.isDigit_byte, strconv.digit_code by lia. split; [done|lia].
Qed.

(** A number read from digits is written with them. *)
Lemma fixed_snoc w n c : strconv.isDigit c = true → fixed (S w) (n * 10 + (code c - code "0")) = fixed w n +:+ str1 c.
Proof.
  unfold strconv.isDigit, between. rewrite andb_true_iff, !Z.leb_le. change (code "0") with 48. change (code "9") with 57.
  intros Hc. cbn [fixed]. replace ((n * 10 + (code c - 48)) / 10) with n by lia.
  replace ((n * 10 + (code c - 48)) mod 10) with (code c - 48) by lia. unfold strconv.digit. change (code "0") with 48.
  by replace (48 + (code c - 48)) with (code c) by lia; rewrite byte_of_code.
Qed.

Lemma num_at_fixed s i n x : num_at s i n = Some x → String.substring i n s = fixed n x ∧ 0 ≤ x < 10 ^ Z.of_nat n.
Proof.
  unfold num_at. destruct (Nat.eqb_spec (String.length (String.substring i n s)) n) as [Hl|]; [|done]. cbn [andb].
  destruct (str_forall _ _) eqn:Hd; [|done]. intros [= <-]. set (t := String.substring i n s) in *. clearbody t.
  assert (∀ t w acc, str_forall strconv.isDigit t = true → 0 ≤ acc < 10 ^ Z.of_nat w →
    fixed (w + String.length t) (strconv.digits acc t) = fixed w acc +:+ t ∧
    0 ≤ strconv.digits acc t < 10 ^ Z.of_nat (w + String.length t)) as Hgen.
  { clear. induction t as [|c t IH]; intros w acc Hd Ha; cbn [String.length strconv.digits].
    { by rewrite Nat.add_0_r, app_str_nil. }
    cbn [str_forall] in Hd. apply andb_true_iff in Hd as [Hc Hd].
    destruct (IH (S w) (acc * 10 + (code c - code "0")) Hd) as [He Hr].
    { rewrite pow_S. unfold strconv.isDigit, between in Hc. rewrite andb_true_iff, !Z.leb_le in Hc.
      change (code "0") with 48 in *. change (code "9") with 57 in *. lia. }
    rewrite <-Nat.add_succ_comm, He, fixed_snoc, app_str_assoc, str1_app by done. done. }
  destruct (Hgen t 0%nat 0 Hd) as [He Hr]; [simpl; lia|]. rewrite Hl in *. done.
Qed.

(** Every valid timestamp is the text of its fields. *)
Lemma ParseTimestamp_stamp w s t :
  ParseTimestamp w s = Ok t → t = s ∧ ∃ y m d h mi sec,
    fields_ok y m d h mi sec ∧ s = stamp y m d h mi sec ∧ time.Parse s = Some (time.instant (time.date y m d) h mi sec).
Proof.
  unfold ParseTimestamp, time.Parse, slen. destruct (Z.eqb_spec (Z.of_nat (String.length s)) 20) as [Hl|]; [|done]. cbn [negb].
  destruct (date_at s) as [[[y m] d]|] eqn:Hd; [|done]. destruct (clock_at s) as [[[h mi] sec]|] eqn:Hc; [|done].
  intros [= <-]. split; [done|]. exists y, m, d, h, mi, sec. unfold date_at in Hd. unfold clock_at in Hc.
  destruct (num_at s 0 4) as [y'|] eqn:E1; [|done]. destruct (num_at s 5 2) as [m'|] eqn:E2; [|done].
  destruct (num_at s 8 2) as [d'|] eqn:E3; [|done]. destruct (num_at s 11 2) as [h'|] eqn:E4; [|done].
  destruct (num_at s 14 2) as [mi'|] eqn:E5; [|done]. destruct (num_at s 17 2) as [s'|] eqn:E6; [|done]. cbn [mbind option_bind] in Hd, Hc.
  destruct (_ && validDate _ _ _) eqn:B in Hd; [|done]. injection Hd as -> -> ->.
  destruct (_ && (s' <? 60)) eqn:B' in Hc; [|done]. injection Hc as -> -> ->.
  apply num_at_fixed in E1 as [E1 ?], E2 as [E2 ?], E3 as [E3 ?], E4 as [E4 ?], E5 as [E5 ?], E6 as [E6 ?]. bool_hyps.
  split; [unfold fields_ok; change (10 ^ Z.of_nat 4) with 10000 in *; split_and!; try done; lia|]. split; [|done].
  do 21 (destruct s as [|? s]; [try (simpl in Hl; lia)|try (cbn [String.length] in Hl; lia)]).
  unfold byte_at, stamp in *. cbn [String.get String.substring] in *.
  repeat match goal with H : (_ =b _)%go = true |- _ => apply Ascii.eqb_eq in H; subst end.
  rewrite <-E1, <-E2, <-E3, <-E4, <-E5, <-E6. done.
Qed.

Lemma ltb_app_same c x y : (c +:+ x <s c +:+ y) = (x <s y).
Proof. rewrite ltb_app by done. by rewrite ltb_irrefl, String.eqb_refl. Qed.

(** A number of one width and the rest. *)
Lemma ltb_field w n k x y :
  0 ≤ n < 10 ^ Z.of_nat w → 0 ≤ k < 10 ^ Z.of_nat w →
  (fixed w n +:+ x <s fixed w k +:+ y) = true ↔ n < k ∨ n = k ∧ (x <s y) = true.
Proof.
  intros Hn Hk. rewrite ltb_app by (by rewrite !length_fixed). rewrite fixed_ltb, orb_true_iff, andb_true_iff, Z.ltb_lt by done.
  assert ((fixed w n =s fixed w k) = true ↔ n = k) as ->; [|done]. rewrite String.eqb_eq. split; [|by intros ->]. intros He.
  rewrite <-(proj2 (digits_fixed w n Hn)), <-(proj2 (digits_fixed w k Hk)). by rewrite He.
Qed.

Lemma instant_mono day h mi s day' h' mi' s' :
  0 ≤ h < 24 → 0 ≤ mi < 60 → 0 ≤ s < 60 → 0 ≤ h' < 24 → 0 ≤ mi' < 60 → 0 ≤ s' < 60 →
  day < day' ∨ day = day' ∧ (h < h' ∨ h = h' ∧ (mi < mi' ∨ mi = mi' ∧ s < s')) →
  time.instant day h mi s < time.instant day' h' mi' s'.
Proof. unfold time.instant. lia. Qed.

(** Times are ordered as their fields. *)
Definition time_lt (y m d h mi s y' m' d' h' mi' s' : Z) : Prop :=
  date_lt y m d y' m' d' ∨ (y = y' ∧ m = m' ∧ d = d') ∧ (h < h' ∨ h = h' ∧ (mi < mi' ∨ mi = mi' ∧ s < s')).

Lemma stamp_lex y m d h mi s y' m' d' h' mi' s' :
  fields_ok y m d h mi s → fields_ok y' m' d' h' mi' s' →
  (stamp y m d h mi s <s stamp y' m' d' h' mi' s') = true ↔ time_lt y m d h mi s y' m' d' h' mi' s'.
Proof.
  intros (Hy & Hd & Hh & Hmi & Hs) (Hy' & Hd' & Hh' & Hmi' & Hs').
  rewrite validDate_spec in Hd, Hd'. pose proof (daysIn_range m y). pose proof (daysIn_range m' y').
  unfold stamp, time_lt, date_lt. repeat (rewrite ltb_field by (simpl; lia); rewrite ?ltb_app_same).
  rewrite ltb_irrefl. intuition lia.
Qed.

Lemma time_mono y m d h mi s y' m' d' h' mi' s' :
  fields_ok y m d h mi s → fields_ok y' m' d' h' mi' s' → time_lt y m d h mi s y' m' d' h' mi' s' →
  time.instant (time.date y m d) h mi s < time.instant (time.date y' m' d') h' mi' s'.
Proof.
  intros (_ & Hd & ? & ? & ?) (_ & Hd' & ? & ? & ?) Hlt.
  apply instant_mono; try done. destruct Hlt as [Hlt|[(-> & -> & ->) ?]]; [left; by apply date_mono|by right].
Qed.

(** The order of timestamps as text is the order of their instants. *)
Lemma stamp_ltb y m d h mi s y' m' d' h' mi' s' :
  fields_ok y m d h mi s → fields_ok y' m' d' h' mi' s' →
  (stamp y m d h mi s <s stamp y' m' d' h' mi' s') = true ↔
  time.instant (time.date y m d) h mi s < time.instant (time.date y' m' d') h' mi' s'.
Proof.
  intros Hf Hf'. rewrite stamp_lex by done. split; [by apply time_mono|]. intros H.
  assert (time_lt y m d h mi s y' m' d' h' mi' s' ∨ (y = y' ∧ m = m' ∧ d = d' ∧ h = h' ∧ mi = mi' ∧ s = s') ∨
          time_lt y' m' d' h' mi' s' y m d h mi s) as [?|[(-> & -> & -> & -> & -> & ->)|Hgt]]; [|done|lia|].
  - unfold time_lt, date_lt. lia.
  - apply time_mono in Hgt; [lia|done..].
Qed.

(** ** Formatting *)

(** The instants from the year 0 to the year 9999. *)
Definition representable (t : Z) : Prop := time.instant (time.date 0 1 1) 0 0 0 ≤ t < time.instant (time.date 10000 1 1) 0 0 0.

Lemma Format_stamp t :
  representable t → ∃ y m d h mi s,
    fields_ok y m d h mi s ∧ time.Format t = stamp y m d h mi s ∧ time.instant (time.date y m d) h mi s = t.
Proof.
  unfold representable, time.instant. intros Ht. unfold time.Format. destruct (civil_spec (t / 86400)) as (m & d & -> & Hv & Hd).
  set (y := time.year_of _) in *. clearbody y. pose proof (date_in_year _ _ _ Hv) as Hyr. rewrite Hd in Hyr.
  assert (0 ≤ y < 10000) as Hy.
  { change (time.date 0 1 1) with (-366) in Ht. change (time.date 10000 1 1) with 3652059 in Ht.
    unfold time.days_before_year in Hyr. lia. }
  pose proof (proj1 (validDate_spec y m d) Hv) as [Hm Hdd]. pose proof (daysIn_range m y).
  exists y, m, d, (t mod 86400 / 3600), (t mod 86400 / 60 mod 60), (t mod 86400 mod 60).
  split; [|split].
  - split_and!; try done; lia.
  - unfold stamp. rewrite !appendInt_fixed by (simpl; lia). done.
  - rewrite Hd. unfold time.instant. lia.
Qed.

(** The digits of a field, when they are where the field is. *)
Lemma num_at_eq s i n x :
  String.substring i n s = fixed n x → 0 ≤ x < 10 ^ Z.of_nat n → num_at s i n = Some x.
Proof.
  intros Hs Hx. unfold num_at. rewrite Hs, length_fixed, Nat.eqb_refl. destruct (digits_fixed n x Hx) as [-> ->]. done.
Qed.

Lemma split_fixed2 n : ∃ a b, fixed 2 n = String a (str1 b).
Proof. do 2 eexists. reflexivity. Qed.

Lemma split_fixed4 n : ∃ a b c d, fixed 4 n = String a (String b (String c (str1 d))).
Proof. do 4 eexists. reflexivity. Qed.

(** What is formatted is read back, as a valid timestamp. *)
Lemma stamp_valid w y m d h mi s :
  fields_ok y m d h mi s →
  ParseTimestamp w (stamp y m d h mi s) = Ok (stamp y m d h mi s) ∧
  time.Parse (stamp y m d h mi s) = Some (time.instant (time.date y m d) h mi s).
Proof.
  intros (Hy & Hd & Hh & Hmi & Hs). pose proof (proj1 (validDate_spec y m d) Hd) as [Hm Hdd]. pose proof (daysIn_range m y).
  assert (date_at (stamp y m d h mi s) = Some (y, m, d) ∧ clock_at (stamp y m d h mi s) = Some (h, mi, s) ∧
          slen (stamp y m d h mi s) = 20) as (H1 & H2 & H3).
  { unfold stamp, date_at, clock_at. destruct (split_fixed4 y) as (y1 & y2 & y3 & y4 & Ey), (split_fixed2 m) as (m1 & m2 & Em),
      (split_fixed2 d) as (d1 & d2 & Ed), (split_fixed2 h) as (h1 & h2 & Eh), (split_fixed2 mi) as (i1 & i2 & Ei),
      (split_fixed2 s) as (s1 & s2 & Es).
    rewrite (num_at_eq _ 0 4 y), (num_at_eq _ 5 2 m), (num_at_eq _ 8 2 d), (num_at_eq _ 11 2 h), (num_at_eq _ 14 2 mi),
      (num_at_eq _ 17 2 s) by first [simpl; lia|rewrite Ey, Em, Ed, Eh, Ei, Es; reflexivity].
    rewrite Ey, Em, Ed, Eh, Ei, Es. cbn [mbind option_bind]. unfold byte_at. cbn [String.get String.append str1].
    rewrite Hd. destruct (Z.ltb_spec h 24), (Z.ltb_spec mi 60), (Z.ltb_spec s 60); try lia. done. }
  unfold ParseTimestamp, time.Parse. rewrite H1, H2, H3. done.
Qed.

(** A duration of minutes that does not overflow. *)
Lemma Add_minutes t m : 0 ≤ m < 2 ^ 26 → time.Add t (time.int64 (time.int64 m * 60000000000)) = t + 60 * m.
Proof.
  intros Hm. unfold time.Add. assert (∀ n, - 2 ^ 63 ≤ n < 2 ^ 63 → time.int64 n = n) as Hid.
  { intros n Hn. unfold time.int64. rewrite Z.mod_small; lia. }
  rewrite (Hid m) by lia. rewrite Hid by lia. lia.
Qed.

(** The lease of [m] minutes from a valid timestamp [t]: it ends at a valid
    timestamp, [m] minutes later, which as text is greater than [t]. *)
Lemma addMinutes_spec w t m :
  ParseTimestamp w t = Ok t → 0 ≤ Size_Uint64 m < 2 ^ 26 → representable (parse_time t + 60 * Size_Uint64 m) →
  ParseTimestamp w (addMinutes t m) = Ok (addMinutes t m) ∧
  parse_time (addMinutes t m) = parse_time t + 60 * Size_Uint64 m ∧
  (t <s addMinutes t m) = (0 <? Size_Uint64 m).
Proof.
  intros Ht Hm Hr. unfold addMinutes. rewrite Add_minutes by done.
  destruct (ParseTimestamp_stamp _ _ _ Ht) as (_ & y & mo & d & h & mi & s & Hf & -> & Hp).
  unfold parse_time in *. rewrite Hp in *. cbn [from_option id] in *. unfold id in *.
  destruct (Format_stamp _ Hr) as (y' & mo' & d' & h' & mi' & s' & Hf' & -> & Hi).
  destruct (stamp_valid w _ _ _ _ _ _ Hf') as [-> ->]. cbn [from_option id]. split_and!; [done|done|].
  apply eq_true_iff_eq. rewrite stamp_ltb, Z.ltb_lt by done. lia.
Qed.
