(* ===== verification/Pools.v ===== *)
(** * Pool state

    [pools.go], [slots.go], [waiters.go], [pool_operation.go],
    [pool_identity.go], [pool_recovery.go] and the owner of
    [pool_sweep.go], of [src/internal/tasks/snapshot]: which members of a
    pool are occupied and why, who holds and who waits for capacity slots, the
    waitlists, and the document [pools.json] they are stored as.

    A pool entry embeds its allocation, here the field [pe_Allocation]. *)

From S2P Require Import Prelude Utf8 GoStd Codes Limits Value Primitives Ids Parse Reader.
From S2P Require Import Ticket Inventory Marks RecordParts RecordCodec Intent Attempt Updates.
Local Open Scope Z_scope.
Local Open Scope go_scope.

Definition ProfilePools : string := "taskman-pool-state/0".
Definition ProfilePoolOperation : string := "taskman-pool-operation/0".
Definition ProfilePoolIdentity : string := "taskman-pool-identity/0".
Definition MaxSharedAttempts : Z := 4.
Definition MaxSlotEntries : Z := 512.
Definition MaxPoolWaiters : Z := 512.
Definition SlotHeld : string := "HELD".
Definition SlotWaiting : string := "WAITING".
Definition WaiterWait : string := "WAIT".
Definition WaiterGrace : string := "GRACE".
Definition PoolOperationOrphaned : string := "ORPHANED".
Definition PoolIdentityReported : string := "REPORTED".

Definition PoolOperationClasses : list string :=
  ["EXIT_ZERO"; "EXIT_NONZERO"; "SPAWN_FAILED"; "TIMEOUT"; "INTERRUPTED"; "OUTPUT_LIMIT"; "UNKNOWN"; "SOURCE_CHANGED";
   PoolOperationOrphaned].

Definition PoolIdentityClasses : list string :=
  [PoolIdentityReported; "EXIT_NONZERO"; "SPAWN_FAILED"; "TIMEOUT"; "INTERRUPTED"; "OUTPUT_LIMIT"; "UNKNOWN"; "SIGNAL";
   "SOURCE_CHANGED"; "MALFORMED_OUTPUT"].

(** [Enum("P0", "P1", "P2", "P3")] *)
Definition WaiterPriorities : list string := ["P0"; "P1"; "P2"; "P3"].

(** ** Data *)

Record PoolShare := mkShare { psh_AttemptID : string; psh_Generation : string }.

Record PoolHold := { ph_HeldAt : string; ph_ExpiresAt : string }.

Record PoolSweepOwner := {
  pso_RequestSha256 : string; pso_Previous : option string; pso_Phase : string; pso_Attempt : string; pso_Tree : string
}.

Record PoolOperationPending := { pop_Name : string; pop_RequestID : string; pop_Source : option PoolSource }.

Record PoolOperationReceipt := mkOperationReceipt {
  por_PoolID : string; por_MemberID : string; por_Operation : string; por_RequestID : string; por_AllocationID : string;
  por_Class : string; por_Passed : bool; por_OutputSha256 : option string; por_Source : option PoolSource;
  por_ObservedSeq : string
}.

Record PoolIdentity := mkIdentity {
  pid_PoolID : string; pid_MemberID : string; pid_AllocationID : string; pid_DefinitionSha256 : string; pid_Class : string;
  pid_Source : option PoolSource; pid_OutputSha256 : string; pid_ObservedAt : string; pid_ObservedSeq : string
}.

Record PoolRecovery := mkRecovery {
  prc_Kind : string; prc_Result : string; prc_DetailSha256 : string; prc_Consecutive : string; prc_FirstObservedAt : string;
  prc_ObservedAt : string; prc_ObservedSeq : string
}.

Record PoolEntry := mkPoolEntry {
  pe_RunnerPID : string; pe_RunnerStarted : string; pe_CommandKind : string; pe_CommandRevision : string;
  pe_CleanupPassed : bool; pe_Sweep : option PoolSweepOwner; pe_Allocation : PoolAllocation; pe_State : string;
  pe_Holder : string; pe_Stage : string; pe_AttemptID : string; pe_Generation : string; pe_ChangedSeq : string;
  pe_PolicySha256 : string; pe_RequestSha256 : string; pe_ObservationSha256 : option string; pe_Reason : string;
  pe_Shared : list PoolShare; pe_Source : option PoolSource; pe_Operation : option PoolOperationPending;
  pe_QuarantinedAt : string; pe_Recovery : option PoolRecovery; pe_Hold : option PoolHold
}.

(** Assigning to a field of an entry. *)
Definition eta_pool_entry (e : PoolEntry) : PoolEntry :=
  mkPoolEntry (pe_RunnerPID e) (pe_RunnerStarted e) (pe_CommandKind e) (pe_CommandRevision e) (pe_CleanupPassed e)
    (pe_Sweep e) (pe_Allocation e) (pe_State e) (pe_Holder e) (pe_Stage e) (pe_AttemptID e) (pe_Generation e)
    (pe_ChangedSeq e) (pe_PolicySha256 e) (pe_RequestSha256 e) (pe_ObservationSha256 e) (pe_Reason e) (pe_Shared e)
    (pe_Source e) (pe_Operation e) (pe_QuarantinedAt e) (pe_Recovery e) (pe_Hold e).

#[export] Instance set_pe_State : Setter pe_State.
Proof. setter eta_pool_entry pe_State. Defined.
#[export] Instance set_pe_AttemptID : Setter pe_AttemptID.
Proof. setter eta_pool_entry pe_AttemptID. Defined.
#[export] Instance set_pe_Generation : Setter pe_Generation.
Proof. setter eta_pool_entry pe_Generation. Defined.
#[export] Instance set_pe_ChangedSeq : Setter pe_ChangedSeq.
Proof. setter eta_pool_entry pe_ChangedSeq. Defined.
#[export] Instance set_pe_RunnerPID : Setter pe_RunnerPID.
Proof. setter eta_pool_entry pe_RunnerPID. Defined.
#[export] Instance set_pe_RunnerStarted : Setter pe_RunnerStarted.
Proof. setter eta_pool_entry pe_RunnerStarted. Defined.
#[export] Instance set_pe_ObservationSha256 : Setter pe_ObservationSha256.
Proof. setter eta_pool_entry pe_ObservationSha256. Defined.
#[export] Instance set_pe_Reason : Setter pe_Reason.
Proof. setter eta_pool_entry pe_Reason. Defined.
#[export] Instance set_pe_Shared : Setter pe_Shared.
Proof. setter eta_pool_entry pe_Shared. Defined.
#[export] Instance set_pe_Source : Setter pe_Source.
Proof. setter eta_pool_entry pe_Source. Defined.
#[export] Instance set_pe_QuarantinedAt : Setter pe_QuarantinedAt.
Proof. setter eta_pool_entry pe_QuarantinedAt. Defined.
#[export] Instance set_pe_Recovery : Setter pe_Recovery.
Proof. setter eta_pool_entry pe_Recovery. Defined.

Record SlotEntry := mkSlot {
  se_SlotsID : string; se_AttemptID : string; se_Generation : string; se_Holder : string; se_Count : string;
  se_Exclusive : bool; se_Class : string; se_Priority : string; se_Seq : string; se_State : string
}.

Record PoolWaiter := mkWaiter {
  pw_PoolID : string; pw_TicketID : string; pw_Kind : string; pw_AttemptID : string; pw_Generation : string;
  pw_Holder : string; pw_Priority : string; pw_Seq : string; pw_Since : string; pw_ExpiresAt : string
}.

Record PoolState := mkPools {
  pst_QueueID : QueueID; pst_Entries : list PoolEntry; pst_Slots : list SlotEntry; pst_Identities : list PoolIdentity;
  pst_Waiters : list PoolWaiter; pst_Operations : list PoolOperationReceipt
}.

Definition PoolHold_Expired (h : option PoolHold) (now : string) : bool :=
  match h with Some h => negb (now <s ph_ExpiresAt h) | None => false end.

(** ** Orders *)

(** Lexicographic order by a first key and then the rest. *)
Definition by_string (a b : string) (rest : bool) : bool := if negb (a =s b) then a <s b else rest.

Definition by_number (a b : Z) (rest : bool) : bool := if negb (a =? b) then a <? b else rest.

(** [sort.SliceStable(xs, less)] *)
Definition SliceStable {A} (less : A → A → bool) (xs : list A) : list A := isort (λ x y, negb (less y x)) xs.

Definition slot_less (a b : SlotEntry) : bool :=
  by_string (se_SlotsID a) (se_SlotsID b)
    (by_number (Size_Uint64 (se_Seq a)) (Size_Uint64 (se_Seq b)) (se_AttemptID a <s se_AttemptID b)).

Definition SortSlotEntries (entries : list SlotEntry) : list SlotEntry := SliceStable slot_less entries.

Definition waiter_less (a b : PoolWaiter) : bool :=
  by_string (pw_PoolID a) (pw_PoolID b) (pw_TicketID a <s pw_TicketID b).

Definition SortPoolWaiters (entries : list PoolWaiter) : list PoolWaiter := SliceStable waiter_less entries.

(** [WaiterBefore(a, b)]: the admission order within one pool. *)
Definition WaiterBefore (a b : PoolWaiter) : bool :=
  let grace w := pw_Kind w =s WaiterGrace in
  if negb (Bool.eqb (grace a) (grace b)) then grace a
  else by_string (pw_Priority a) (pw_Priority b)
         (by_number (Size_Uint64 (pw_Seq a)) (Size_Uint64 (pw_Seq b)) (pw_TicketID a <s pw_TicketID b)).

Definition operationBefore (a b : PoolOperationReceipt) : bool :=
  by_string (por_MemberID a) (por_MemberID b) (por_Operation a <s por_Operation b).

(** ** Reading *)

Definition readPoolSourceOrNull : Reader → M (option PoolSource) :=
  unless_null (λ r,
    _ ← Closed r ["revision"; "tree"];
    f ← Field r "revision"; revision ← OID f;
    f ← Field r "tree"; tree ← OID f;
    mret {| psrc_Revision := revision; psrc_Tree := tree |}).

Definition ReadPoolSweepOwner (r : Reader) : M PoolSweepOwner :=
  _ ← Closed r ["requestSha256"; "previous"; "phase"; "attempt"; "tree"];
  f ← Field r "requestSha256"; request ← Digest f;
  f ← Field r "previous"; previous ← DigestOrNull f;
  f ← Field r "phase"; phase ← Enum f ["cleanup"; "reset"; "verify"; "prepare"; "confirm"];
  f ← Field r "attempt"; attempt ← Count f;
  f ← Field r "tree"; tree ← OID f;
  _ ← fail_if r ((Count_Int attempt <? 1) || (2 <? Count_Int attempt)) "sweep attempt outside1..2";
  mret {| pso_RequestSha256 := request; pso_Previous := previous; pso_Phase := phase; pso_Attempt := attempt; pso_Tree := tree |}.

Definition readPoolOperationPending (r : Reader) : M PoolOperationPending :=
  _ ← Closed r ["name"; "requestId"; "source"];
  f ← Field r "name"; name ← Enum f PoolOperations;
  f ← Field r "requestId"; request ← Identifier f;
  f ← Field r "source"; source ← readPoolSourceOrNull f;
  _ ← fail_if r (negb (Bool.eqb (name =s "retarget") (some source)))
        "an operation carries a source pair exactly when it is retarget";
  mret {| pop_Name := name; pop_RequestID := request; pop_Source := source |}.

Definition readPoolOperationReceipt (r : Reader) : M PoolOperationReceipt :=
  _ ← Reader.Profile r ProfilePoolOperation;
  _ ← Closed r ["profile"; "poolId"; "memberId"; "operation"; "requestId"; "allocationId"; "class"; "passed"; "outputSha256";
                "source"; "observedSeq"];
  f ← Field r "profile"; _ ← Exact f ProfilePoolOperation;
  f ← Field r "poolId"; pool ← Label f;
  f ← Field r "memberId"; member ← Label f;
  f ← Field r "operation"; operation ← Enum f PoolOperations;
  f ← Field r "requestId"; request ← Identifier f;
  f ← Field r "allocationId"; allocation ← Digest f;
  f ← Field r "class"; class ← Enum f PoolOperationClasses;
  f ← Field r "passed"; passed ← Bool_ f;
  f ← Field r "outputSha256"; output ← DigestOrNull f;
  f ← Field r "source"; source ← readPoolSourceOrNull f;
  f ← Field r "observedSeq"; seq ← Size f;
  _ ← fail_if r (negb (Bool.eqb (class =s PoolOperationOrphaned) (negb (some output))))
        "an operation receipt lacks an output digest exactly when it is ORPHANED";
  _ ← fail_if r (passed && negb (class =s "EXIT_ZERO")) "a passed operation exited zero";
  _ ← fail_if r (negb (Bool.eqb (operation =s "retarget") (some source)))
        "an operation receipt carries a source pair exactly when it is retarget";
  mret (mkOperationReceipt pool member operation request allocation class passed output source seq).

(** The loop of [readPoolOperationReceipts]; [prev] is the receipt before. *)
Fixpoint operations_loop (items : list Reader) (prev : option PoolOperationReceipt) : M (list PoolOperationReceipt) :=
  match items with
  | [] => mret []
  | x :: items' =>
      p ← readPoolOperationReceipt x;
      _ ← fail_if x (match prev with Some q => negb (operationBefore q p) | None => false end)
            "operation receipts are sorted by member and operation, one per pair";
      rest ← operations_loop items' (Some p);
      mret (p :: rest)
  end.

Definition readPoolOperationReceipts (r : Reader) : M (list PoolOperationReceipt) :=
  items ← Array_ r (MaxPoolMembers * Z.of_nat (length PoolOperations)) true;
  out ← operations_loop items None;
  _ ← fail_if r (length out =? 0)%nat "operation receipts must be non-empty when present";
  mret out.

Definition readPoolIdentity (r : Reader) : M PoolIdentity :=
  _ ← Reader.Profile r ProfilePoolIdentity;
  _ ← Closed r ["profile"; "poolId"; "memberId"; "allocationId"; "definitionSha256"; "class"; "source"; "outputSha256";
                "observedAt"; "observedSeq"];
  f ← Field r "profile"; _ ← Exact f ProfilePoolIdentity;
  f ← Field r "poolId"; pool ← Label f;
  f ← Field r "memberId"; member ← Label f;
  f ← Field r "allocationId"; allocation ← Digest f;
  f ← Field r "definitionSha256"; definition ← Digest f;
  f ← Field r "class"; class ← Enum f PoolIdentityClasses;
  f ← Field r "source"; source ← readPoolSourceOrNull f;
  f ← Field r "outputSha256"; output ← Digest f;
  f ← Field r "observedAt"; at_ ← Timestamp f;
  f ← Field r "observedSeq"; seq ← Size f;
  _ ← fail_if r (negb (Bool.eqb (class =s PoolIdentityReported) (some source)))
        "an identity reports a source pair exactly when its class is REPORTED";
  mret (mkIdentity pool member allocation definition class source output at_ seq).

(** The loop over [identities]; [seen] are the members before, the last one
    first.  A member that repeats fails whatever its place. *)
Fixpoint identities_loop (items : list Reader) (seen : list string) : M (list PoolIdentity) :=
  match items with
  | [] => mret []
  | x :: items' =>
      id ← readPoolIdentity x;
      let member := pid_MemberID id in
      let later := match seen with last :: _ => member <s last | [] => false end in
      _ ← (if existsb (String.eqb member) seen || later
           then Fail x CodeMalformed "identities are sorted by member, one per member" [] else mret tt);
      rest ← identities_loop items' (member :: seen);
      mret (id :: rest)
  end.

Definition readPoolRecovery (r : Reader) : M PoolRecovery :=
  _ ← Closed r ["kind"; "result"; "detailSha256"; "consecutive"; "firstObservedAt"; "observedAt"; "observedSeq"];
  f ← Field r "kind"; kind ← Enum f ["health"; "cleanup"];
  f ← Field r "result"; result ← Enum f ["FAILED"];
  f ← Field r "detailSha256"; detail ← Digest f;
  f ← Field r "consecutive"; consecutive ← Count f;
  f ← Field r "firstObservedAt"; first ← Timestamp f;
  f ← Field r "observedAt"; at_ ← Timestamp f;
  f ← Field r "observedSeq"; seq ← Size f;
  _ ← fail_if r ((Count_Int consecutive <? 1) || (at_ <s first) || (Size_Uint64 seq =? 0))
        "recovery counts at least one failure, observed no earlier than the first";
  mret (mkRecovery kind result detail consecutive first at_ seq).

Definition readPoolHold (h : Reader) : M PoolHold :=
  _ ← Closed h ["heldAt"; "expiresAt"];
  f ← Field h "heldAt"; held ← Timestamp f;
  f ← Field h "expiresAt"; expires ← Timestamp f;
  mret {| ph_HeldAt := held; ph_ExpiresAt := expires |}.

(** Whether an attempt id names another queue than [q], or none. *)
Definition foreign_attempt (id : string) (q : QueueID) : bool :=
  match AttemptQueue id with Ok aq => negb (QueueID_Raw aq =s QueueID_Raw q) | _ => true end.

(** [x.Fail(code, detail)] under a condition. *)
Definition fail_with_code (x : Reader) (bad : bool) (code detail : string) : M unit :=
  if bad then Fail x code detail [] else mret tt.

(** The loop of [readPoolShares]; [seen] are the attempts before. *)
Fixpoint shares_loop (q : QueueID) (items : list Reader) (seen : list string) : M (list PoolShare) :=
  match items with
  | [] => mret []
  | x :: items' =>
      _ ← Closed x ["attemptId"; "generation"];
      f ← Field x "attemptId"; attempt ← Identifier f;
      f ← Field x "generation"; generation ← Size f;
      _ ← fail_with_code x (foreign_attempt attempt q) CodeMalformed "invalid shared attempt";
      _ ← fail_with_code x (existsb (String.eqb attempt) seen) CodeDuplicateID "duplicate shared attempt";
      rest ← shares_loop q items' (attempt :: seen);
      mret (mkShare attempt generation :: rest)
  end.

(** [readPoolShares(r, q, en)], of the entry's attempt and state. *)
Definition readPoolShares (r : Reader) (q : QueueID) (attempt state : string) : M (list PoolShare) :=
  items ← Array_ r (MaxSharedAttempts - 1) true;
  out ← shares_loop q items [attempt];
  _ ← fail_with_code r ((length out =? 0)%nat || negb (state =s "ALLOCATED")) CodeMalformed
        "shared attempts must be non-empty on an ALLOCATED entry";
  mret out.

(** The loop of [readSlotEntries]; [seen] are the keys before. *)
Fixpoint slots_loop (q : QueueID) (items : list Reader) (seen : list string) : M (list SlotEntry) :=
  match items with
  | [] => mret []
  | x :: items' =>
      _ ← Closed x ["slotsId"; "attemptId"; "generation"; "holder"; "count"; "exclusive"; "class"; "priority"; "seq"; "state"];
      f ← Field x "slotsId"; slots ← Label f;
      f ← Field x "attemptId"; attempt ← Identifier f;
      f ← Field x "generation"; generation ← Size f;
      f ← Field x "holder"; holder ← Label f;
      f ← Field x "count"; count ← Count f;
      f ← Field x "exclusive"; exclusive ← Bool_ f;
      f ← Field x "class"; class ← String_ f;
      f ← Field x "priority"; priority ← Enum f WaiterPriorities;
      f ← Field x "seq"; seq ← Size f;
      f ← Field x "state"; state ← Enum f [SlotHeld; SlotWaiting];
      _ ← (if negb (class =s ε) then f ← Field x "class"; c ← Label f; mret tt else mret tt);
      _ ← fail_with_code x (foreign_attempt attempt q) CodeMalformed "invalid slot attempt";
      _ ← fail_with_code x ((Count_Int count <? 1) || (MaxSlotCapacity <? Count_Int count) || (Size_Uint64 seq =? 0))
            CodeMalformed "invalid slot count or sequence";
      let key := slots +:+ str1 NUL +:+ attempt in
      _ ← fail_with_code x (existsb (String.eqb key) seen) CodeDuplicateID "duplicate slot entry";
      rest ← slots_loop q items' (key :: seen);
      mret (mkSlot slots attempt generation holder count exclusive class priority seq state :: rest)
  end.

Definition readSlotEntries (r : Reader) (q : QueueID) : M (list SlotEntry) :=
  items ← Array_ r MaxSlotEntries true;
  out ← slots_loop q items [];
  _ ← fail_if r (length out =? 0)%nat "slots must be non-empty when present";
  mret out.

(** The key under which a pool and a ticket wait. *)
Definition waiter_key (pool ticket : string) : string := pool +:+ str1 NUL +:+ ticket.

(** The attempt and generation a waiter names, empty when it names none. *)
Definition read_waiter_attempt (x : Reader) : M (string * string) :=
  let hasAttempt := Has (rv x) "attemptId" in
  _ ← fail_with_code x (negb (Bool.eqb hasAttempt (Has (rv x) "generation"))) CodeMalformed
        "a waiter names an attempt and its generation together or neither";
  if hasAttempt then
    f ← Field x "attemptId"; attempt ← Identifier f;
    f ← Field x "generation"; generation ← Size f;
    mret (attempt, generation)
  else mret (ε, ε).

(** The loop of [readPoolWaiters]; [seen] are the keys before. *)
Fixpoint waiters_loop (q : QueueID) (items : list Reader) (seen : list string) : M (list PoolWaiter) :=
  match items with
  | [] => mret []
  | x :: items' =>
      _ ← Closed x (OptionalKeys (rv x) ["poolId"; "ticketId"; "kind"; "holder"; "priority"; "seq"; "since"; "expiresAt"]
                      ["attemptId"; "generation"]);
      f ← Field x "poolId"; pool ← Label f;
      f ← Field x "ticketId"; ticket ← Reader_TicketID f;
      f ← Field x "kind"; kind ← Enum f [WaiterWait; WaiterGrace];
      f ← Field x "holder"; holder ← Label f;
      f ← Field x "priority"; priority ← Enum f WaiterPriorities;
      f ← Field x "seq"; seq ← Size f;
      f ← Field x "since"; since ← Timestamp f;
      f ← Field x "expiresAt"; expires ← Timestamp f;
      names ← read_waiter_attempt x;
      _ ← fail_with_code x (negb (names.1 =s ε) && foreign_attempt names.1 q) CodeMalformed "invalid waiter attempt";
      _ ← fail_with_code x ((Size_Uint64 seq =? 0) || negb (since <s expires)) CodeMalformed "invalid waiter sequence or expiry";
      let key := waiter_key pool (TicketID_Raw ticket) in
      _ ← fail_with_code x (existsb (String.eqb key) seen) CodeDuplicateID "one waiter per ticket and pool";
      rest ← waiters_loop q items' (key :: seen);
      mret (mkWaiter pool (TicketID_Raw ticket) kind names.1 names.2 holder priority seq since expires :: rest)
  end.

Definition readPoolWaiters (r : Reader) (q : QueueID) : M (list PoolWaiter) :=
  items ← Array_ r MaxPoolWaiters true;
  out ← waiters_loop q items [];
  _ ← fail_if r (length out =? 0)%nat "waiters must be non-empty when present";
  mret out.

Definition entryKeys : list string :=
  ["allocation"; "state"; "holder"; "stage"; "attemptId"; "generation"; "changedSeq"; "policySha256"; "requestSha256";
   "observationSha256"; "reason"; "runnerPid"; "runnerStarted"; "commandKind"; "commandRevision"; "cleanupPassed"].

Definition entryOptional : list string := ["sweep"; "shared"; "source"; "operation"; "quarantinedAt"; "recovery"; "hold"].

(** The required members of an entry, the optional ones left out. *)
Definition read_pool_entry (x : Reader) : M PoolEntry :=
  _ ← Closed x (OptionalKeys (rv x) entryKeys entryOptional);
  f ← Field x "runnerPid"; pid ← Count f;
  f ← Field x "runnerStarted"; started ← Prose f 0 128;
  f ← Field x "commandKind"; kind ← String_ f;
  f ← Field x "commandRevision"; revision ← String_ f;
  f ← Field x "cleanupPassed"; passed ← Bool_ f;
  f ← Field x "allocation"; allocation ← read_allocation f;
  f ← Field x "state"; state ← Enum f ["PREPARING"; "ALLOCATED"; "QUARANTINED"; "CLEANING"; "HELD"];
  f ← Field x "holder"; holder ← Label f;
  f ← Field x "stage"; stage ← String_ f;
  f ← Field x "attemptId"; attempt ← String_ f;
  f ← Field x "generation"; generation ← Size f;
  f ← Field x "changedSeq"; changed ← Size f;
  f ← Field x "policySha256"; policy ← Digest f;
  f ← Field x "requestSha256"; request ← Digest f;
  f ← Field x "observationSha256"; observation ← DigestOrNull f;
  f ← Field x "reason"; reason ← Prose f 0 4096;
  mret (mkPoolEntry pid started kind revision passed None allocation state holder stage attempt generation changed policy
          request observation reason [] None None ε None None).

(** A recorded source, which is not null. *)
Definition read_entry_source (x f : Reader) : M (option PoolSource) :=
  s ← readPoolSourceOrNull f;
  _ ← fail_with_code x (negb (some s)) CodeMalformed "a recorded source is a pair";
  mret s.

(** A pending operation, of an entry that runs it. *)
Definition read_entry_operation (x f : Reader) (state kind : string) : M (option PoolOperationPending) :=
  p ← readPoolOperationPending f;
  _ ← fail_if x ((negb (state =s "PREPARING") && negb (state =s "CLEANING")) || negb (kind =s pop_Name p))
        "a pending operation binds a PREPARING or CLEANING entry running it";
  mret (Some p).

(** The window of an operator hold. *)
Definition read_entry_hold (x f : Reader) : M (option PoolHold) :=
  h ← readPoolHold f;
  _ ← fail_if x (negb (ph_HeldAt h <s ph_ExpiresAt h)) "a hold expires after it began";
  mret (Some h).

(** The checks between the members of an entry. *)
Definition check_pool_entry (x : Reader) (q : QueueID) (hasShared : bool) (en : PoolEntry) : M unit :=
  let held := pe_State en =s "HELD" in
  _ ← fail_with_code x (negb (Bool.eqb held (some (pe_Hold en)))) CodeMalformed "a hold window binds exactly a HELD entry";
  _ ← fail_with_code x
        (held && (negb (pe_AttemptID en =s ε) || negb (Count_Int (pe_RunnerPID en) =? 0) || negb (pe_RunnerStarted en =s ε) ||
                  negb (pe_CommandKind en =s ε) || some (pe_Sweep en) || hasShared || some (pe_Source en) ||
                  some (pe_Operation en))) CodeMalformed
        "a HELD entry carries no attempt, runner, command, sweep, share, source or operation";
  _ ← fail_with_code x
        ((negb (pe_QuarantinedAt en =s ε) || some (pe_Recovery en)) && negb (pe_State en =s "QUARANTINED") &&
         negb (pe_State en =s "CLEANING")) CodeMalformed "quarantinedAt and recovery bind a QUARANTINED or CLEANING entry";
  _ ← (if negb (pe_Stage en =s ε) then f ← Field x "stage"; s ← Enum f PoolStageRoles; mret tt else mret tt);
  _ ← fail_with_code x (negb (pe_AttemptID en =s ε) && foreign_attempt (pe_AttemptID en) q) CodeMalformed
        "invalid pool owner attempt";
  _ ← fail_with_code x
        ((Size_Uint64 (pa_AllocatedSeq (pe_Allocation en)) =? 0) ||
         (Size_Uint64 (pe_ChangedSeq en) <? Size_Uint64 (pa_AllocatedSeq (pe_Allocation en)))) CodeMalformed
        "invalid allocation sequence";
  _ ← (if negb (pe_CommandKind en =s ε) then
         f ← Field x "commandKind"; k ← Enum f (["health"; "cleanup"; "sweep"] ++ PoolOperations);
         f ← Field x "commandRevision"; r ← OID f; mret tt
       else mret tt);
  fail_with_code x
    (((pe_State en =s "PREPARING") || (pe_State en =s "CLEANING")) &&
     ((Count_Int (pe_RunnerPID en) <=? 0) || (pe_RunnerStarted en =s ε) || (pe_CommandKind en =s ε))) CodeMalformed
    "pending command lacks runner binding".

(** One entry, all but the checks against the entries before it. *)
Definition read_full_entry (q : QueueID) (x : Reader) : M PoolEntry :=
  en ← read_pool_entry x;
  sweep ← if_has ReadPoolSweepOwner x "sweep";
  shared ← optional_member [] x "shared" (λ f, readPoolShares f q (pe_AttemptID en) (pe_State en));
  source ← optional_member None x "source" (read_entry_source x);
  operation ← optional_member None x "operation" (λ f, read_entry_operation x f (pe_State en) (pe_CommandKind en));
  at_ ← optional_member ε x "quarantinedAt" Timestamp;
  recovery ← if_has readPoolRecovery x "recovery";
  hold ← optional_member None x "hold" (read_entry_hold x);
  let en := mkPoolEntry (pe_RunnerPID en) (pe_RunnerStarted en) (pe_CommandKind en) (pe_CommandRevision en)
    (pe_CleanupPassed en) sweep (pe_Allocation en) (pe_State en) (pe_Holder en) (pe_Stage en) (pe_AttemptID en)
    (pe_Generation en) (pe_ChangedSeq en) (pe_PolicySha256 en) (pe_RequestSha256 en) (pe_ObservationSha256 en)
    (pe_Reason en) shared source operation at_ recovery hold in
  _ ← check_pool_entry x q (Has (rv x) "shared") en;
  mret en.

Definition pe_MemberID (en : PoolEntry) : string := pa_MemberID (pe_Allocation en).
Definition pe_PoolID (en : PoolEntry) : string := pa_PoolID (pe_Allocation en).
Definition pe_AllocationID (en : PoolEntry) : string := pa_AllocationID (pe_Allocation en).

(** The loop over [entries]; [seen] are the members before. *)
Fixpoint pool_entries_loop (q : QueueID) (items : list Reader) (seen : list string) : M (list PoolEntry) :=
  match items with
  | [] => mret []
  | x :: items' =>
      en ← read_full_entry q x;
      _ ← fail_with_code x (existsb (String.eqb (pe_MemberID en)) seen) CodeDuplicateID "duplicate pool occupancy";
      _ ← fail_with_code x ((pe_State en =s "ALLOCATED") && (pe_AttemptID en =s ε)) CodeMalformed
            "allocated member lacks owner";
      rest ← pool_entries_loop q items' (pe_MemberID en :: seen);
      mret (en :: rest)
  end.

Definition read_identities (f : Reader) : M (list PoolIdentity) :=
  items ← Array_ f MaxPoolMembers true;
  identities_loop items [].

Definition read_pools (v : Value) (r : Reader) : M PoolState :=
  _ ← Closed r (OptionalKeys v ["profile"; "queueId"; "entries"] ["slots"; "identities"; "waiters"; "operations"]);
  f ← Field r "profile"; _ ← Exact f ProfilePools;
  f ← Field r "queueId"; q ← Reader_QueueID f;
  f ← Field r "entries"; items ← Array_ f MaxPoolMembers true; entries ← pool_entries_loop q items [];
  slots ← optional_member [] r "slots" (λ f, readSlotEntries f q);
  waiters ← optional_member [] r "waiters" (λ f, readPoolWaiters f q);
  operations ← optional_member [] r "operations" readPoolOperationReceipts;
  identities ← optional_member [] r "identities" (λ f,
    out ← read_identities f;
    _ ← fail_if r (length out =? 0)%nat "identities must be non-empty when present";
    mret out);
  mret (mkPools q entries slots identities waiters operations).

Definition DecodePools (data : string) : res PoolState :=
  if MaxPoolStateBytes <? slen data then Err (Errorf CodeLimitExceeded "pools" "pool state bound" [])
  else
    let* v := Parse data in
    let r := NewReader v "/" in
    let '(e, st) := Reader.Profile r ProfilePools st0 in
    try e;
    run (read_pools v r) st.

(** ** Writing *)

Definition PoolSourceValue (s : option PoolSource) : Value :=
  match s with
  | None => VNull
  | Some s => VObject (Set_ (Set_ NewObject "revision" (VString (psrc_Revision s))) "tree" (VString (psrc_Tree s)))
  end.

Definition PoolHoldValue (h : PoolHold) : Value :=
  VObject (Set_ (Set_ NewObject "heldAt" (VString (ph_HeldAt h))) "expiresAt" (VString (ph_ExpiresAt h))).

Definition PoolSweepOwnerValue (x : PoolSweepOwner) : Value :=
  let o := Set_ NewObject "requestSha256" (VString (pso_RequestSha256 x)) in
  let o := Set_ o "previous" (digestOrNull (pso_Previous x)) in
  let o := Set_ o "phase" (VString (pso_Phase x)) in
  let o := Set_ o "attempt" (VString (pso_Attempt x)) in
  VObject (Set_ o "tree" (VString (pso_Tree x))).

Definition operation_pending_value (p : PoolOperationPending) : Value :=
  let o := Set_ NewObject "name" (VString (pop_Name p)) in
  let o := Set_ o "requestId" (VString (pop_RequestID p)) in
  VObject (Set_ o "source" (PoolSourceValue (pop_Source p))).

Definition PoolOperationReceipt_Value (p : PoolOperationReceipt) : Value :=
  let o := Set_ NewObject "profile" (VString ProfilePoolOperation) in
  let o := Set_ o "poolId" (VString (por_PoolID p)) in
  let o := Set_ o "memberId" (VString (por_MemberID p)) in
  let o := Set_ o "operation" (VString (por_Operation p)) in
  let o := Set_ o "requestId" (VString (por_RequestID p)) in
  let o := Set_ o "allocationId" (VString (por_AllocationID p)) in
  let o := Set_ o "class" (VString (por_Class p)) in
  let o := Set_ o "passed" (VBool (por_Passed p)) in
  let o := Set_ o "outputSha256" (digestOrNull (por_OutputSha256 p)) in
  let o := Set_ o "source" (PoolSourceValue (por_Source p)) in
  VObject (Set_ o "observedSeq" (VString (por_ObservedSeq p))).

Definition poolOperationReceiptsValue (ops : list PoolOperationReceipt) : Value :=
  VArray (PoolOperationReceipt_Value <$> SliceStable operationBefore ops).

Definition PoolIdentity_Value (p : PoolIdentity) : Value :=
  let o := Set_ NewObject "profile" (VString ProfilePoolIdentity) in
  let o := Set_ o "poolId" (VString (pid_PoolID p)) in
  let o := Set_ o "memberId" (VString (pid_MemberID p)) in
  let o := Set_ o "allocationId" (VString (pid_AllocationID p)) in
  let o := Set_ o "definitionSha256" (VString (pid_DefinitionSha256 p)) in
  let o := Set_ o "class" (VString (pid_Class p)) in
  let o := Set_ o "source" (PoolSourceValue (pid_Source p)) in
  let o := Set_ o "outputSha256" (VString (pid_OutputSha256 p)) in
  let o := Set_ o "observedAt" (VString (pid_ObservedAt p)) in
  VObject (Set_ o "observedSeq" (VString (pid_ObservedSeq p))).

Definition pool_recovery_value (x : PoolRecovery) : Value :=
  let o := Set_ NewObject "kind" (VString (prc_Kind x)) in
  let o := Set_ o "result" (VString (prc_Result x)) in
  let o := Set_ o "detailSha256" (VString (prc_DetailSha256 x)) in
  let o := Set_ o "consecutive" (VString (prc_Consecutive x)) in
  let o := Set_ o "firstObservedAt" (VString (prc_FirstObservedAt x)) in
  let o := Set_ o "observedAt" (VString (prc_ObservedAt x)) in
  VObject (Set_ o "observedSeq" (VString (prc_ObservedSeq x))).

Definition slot_value (e : SlotEntry) : Value :=
  let o := Set_ NewObject "slotsId" (VString (se_SlotsID e)) in
  let o := Set_ o "attemptId" (VString (se_AttemptID e)) in
  let o := Set_ o "generation" (VString (se_Generation e)) in
  let o := Set_ o "holder" (VString (se_Holder e)) in
  let o := Set_ o "count" (VString (se_Count e)) in
  let o := Set_ o "exclusive" (VBool (se_Exclusive e)) in
  let o := Set_ o "class" (VString (se_Class e)) in
  let o := Set_ o "priority" (VString (se_Priority e)) in
  let o := Set_ o "seq" (VString (se_Seq e)) in
  VObject (Set_ o "state" (VString (se_State e))).

Definition slotEntriesValue (entries : list SlotEntry) : Value := VArray (slot_value <$> SortSlotEntries entries).

Definition waiter_value (w : PoolWaiter) : Value :=
  let o := Set_ NewObject "poolId" (VString (pw_PoolID w)) in
  let o := Set_ o "ticketId" (VString (pw_TicketID w)) in
  let o := Set_ o "kind" (VString (pw_Kind w)) in
  let o := Set_ o "holder" (VString (pw_Holder w)) in
  let o := Set_ o "priority" (VString (pw_Priority w)) in
  let o := Set_ o "seq" (VString (pw_Seq w)) in
  let o := Set_ o "since" (VString (pw_Since w)) in
  let o := Set_ o "expiresAt" (VString (pw_ExpiresAt w)) in
  VObject
    (if negb (pw_AttemptID w =s ε)
     then Set_ (Set_ o "attemptId" (VString (pw_AttemptID w))) "generation" (VString (pw_Generation w)) else o).

Definition poolWaitersValue (entries : list PoolWaiter) : Value := VArray (waiter_value <$> SortPoolWaiters entries).

Definition share_value (x : PoolShare) : Value :=
  VObject (Set_ (Set_ NewObject "attemptId" (VString (psh_AttemptID x))) "generation" (VString (psh_Generation x))).

Definition pool_entry_value (e : PoolEntry) : Value :=
  let o := Set_ NewObject "runnerPid" (VString (if pe_RunnerPID e =s ε then "0" else pe_RunnerPID e)) in
  let o := Set_ o "runnerStarted" (VString (pe_RunnerStarted e)) in
  let o := Set_ o "commandKind" (VString (pe_CommandKind e)) in
  let o := Set_ o "commandRevision" (VString (pe_CommandRevision e)) in
  let o := Set_ o "cleanupPassed" (VBool (pe_CleanupPassed e)) in
  let o := Set_ o "allocation" (PoolAllocationValue (pe_Allocation e)) in
  let o := Set_ o "state" (VString (pe_State e)) in
  let o := Set_ o "holder" (VString (pe_Holder e)) in
  let o := Set_ o "stage" (VString (pe_Stage e)) in
  let o := Set_ o "attemptId" (VString (pe_AttemptID e)) in
  let o := Set_ o "generation" (VString (pe_Generation e)) in
  let o := Set_ o "changedSeq" (VString (pe_ChangedSeq e)) in
  let o := Set_ o "policySha256" (VString (pe_PolicySha256 e)) in
  let o := Set_ o "requestSha256" (VString (pe_RequestSha256 e)) in
  let o := Set_ o "observationSha256" (digestOrNull (pe_ObservationSha256 e)) in
  let o := Set_ o "reason" (VString (pe_Reason e)) in
  let o := set_opt o "sweep" (PoolSweepOwnerValue <$> pe_Sweep e) in
  let o := set_opt o "shared" (when (0 <? length (pe_Shared e))%nat (VArray (share_value <$> pe_Shared e))) in
  let o := set_opt o "source" ((λ s, PoolSourceValue (Some s)) <$> pe_Source e) in
  let o := set_opt o "operation" (operation_pending_value <$> pe_Operation e) in
  let o := set_opt o "quarantinedAt" (nonempty (pe_QuarantinedAt e)) in
  let o := set_opt o "recovery" (pool_recovery_value <$> pe_Recovery e) in
  VObject (set_opt o "hold" (PoolHoldValue <$> pe_Hold e)).

(** The document; sorting is by member, which no two entries share. *)
Definition Pools_Value (p : PoolState) : Value :=
  let entries := SliceStable (λ a b, pe_MemberID a <s pe_MemberID b) (pst_Entries p) in
  let ids := SliceStable (λ a b, pid_MemberID a <s pid_MemberID b) (pst_Identities p) in
  let o := Set_ NewObject "profile" (VString ProfilePools) in
  let o := Set_ o "queueId" (VString (QueueID_Raw (pst_QueueID p))) in
  let o := Set_ o "entries" (VArray (pool_entry_value <$> entries)) in
  let o := set_opt o "slots" (when (0 <? length (pst_Slots p))%nat (slotEntriesValue (pst_Slots p))) in
  let o := set_opt o "waiters" (when (0 <? length (pst_Waiters p))%nat (poolWaitersValue (pst_Waiters p))) in
  let o := set_opt o "operations" (when (0 <? length (pst_Operations p))%nat (poolOperationReceiptsValue (pst_Operations p))) in
  VObject (set_opt o "identities" (when (0 <? length (pst_Identities p))%nat (VArray (PoolIdentity_Value <$> ids)))).

(** [p.Encode()]: the bytes, which it proves decode. *)
Definition Pools_Encode (p : PoolState) : res string :=
  let raw := EncodeFile (Pools_Value p) in
  let* _ := DecodePools raw in
  Ok raw.

(** ** Readings of a pool's state *)

(** [p.PoolOperationReceiptFor(member, op)] *)
Definition PoolOperationReceiptFor (p : PoolState) (member op : string) : option PoolOperationReceipt :=
  head (filter (λ x, por_MemberID x = member ∧ por_Operation x = op) (pst_Operations p)).

(** [boundAttempts(en)] of the package [transaction]: the attempts of an entry. *)
Definition boundAttempts (en : PoolEntry) : list PoolShare := mkShare (pe_AttemptID en) (pe_Generation en) :: pe_Shared en.
