(* ===== verification/Planner.v ===== *)
(** * Planning

    [plan.go], [priority_admission.go], [authors.go], [loop_detect.go] and
    [retry_observation.go] of [src/internal/tasks/transaction], with what they
    use of its [stage.go], [pools.go], [pool_wait.go], [lease_handoff.go] and
    [lease_claim.go] and of [pool_recovery.go] of the package [snapshot]: which
    of the open tickets an agent may claim now, in what order, and why not the
    others.

    Reading a ticket that is held as its summary may panic, so the functions
    that read tickets return [planned]; the memo [Get] keeps of a loaded
    record is not threaded, since it changes no later answer.  A nil pointer
    the code would follow is a panic as well. *)

From S2P Require Import Prelude View Utf8 GoStd Codes Limits Value Primitives Ids Parse Ticket Inventory Marks.
From S2P Require Import RecordParts RecordCodec Collision Intent Attempt Updates Pools Clock.
Local Open Scope Z_scope.
Local Open Scope go_scope.

(** ** Panics *)

Inductive panic : Type :=
  | MaterializePanic (e : goerror)
  | NilPanic.

Definition planned : Type → Type := outcome panic.

(** [rec, _ := inv.Get(id)]; a nil record is [None]. *)
Definition get_record (inv : Inventory) (id : string) : planned (option Record_) :=
  match (Inventory_Get inv id).2 with
  | Found rec => Ok (Some rec)
  | Absent => Ok None
  | MaterializeError e => Err (MaterializePanic e)
  | NilLoader => Err NilPanic
  end.

(** The elements of a list for which a reading holds. *)
Fixpoint filter_planned {A} (f : A → planned bool) (l : list A) : planned (list A) :=
  match l with
  | [] => Ok []
  | x :: l' => let* b := f x in let* r := filter_planned f l' in Ok (if (b : bool) then x :: r else r)
  end.

Definition contains (l : list string) (x : string) : bool := existsb (String.eqb x) l.

(** [int64(len(xs))] *)
Definition len {A} (l : list A) : Z := Z.of_nat (length l).

(** ** Attempts of a ticket *)

(** [lastAttemptOf]: a fold over the map.  Go visits a map in any order; two
    generations of one ticket are never equal, so the order is not seen. *)
Definition newer (ticketID : string) (_ : string) (a : Attempt) (last : option Attempt) : option Attempt :=
  if (TicketID_Raw (atp_TicketID a) =s ticketID) &&
     match last with Some l => Size_Uint64 (atp_Generation l) <? Size_Uint64 (atp_Generation a) | None => true end
  then Some a else last.

Definition lastAttemptOf (attempts : gmap string Attempt) (ticketID : string) : option Attempt :=
  map_fold (newer ticketID) None attempts.

Definition cleanHandoff (a : Attempt) : bool :=
  (atp_RuntimeID a =s RuntimeExternalAgent) && (atp_Phase a =s "CANCELLED") &&
  match atp_RetryAccounting a with
  | Some x => negb (ra_FailedOrUnknown x) && ((ra_Disposition x =s CodeHandoff) || (ra_Disposition x =s CodeReviewReturned))
  | None => false
  end.

Definition exhaustedAttempt (a : Attempt) (limit : Z) : bool :=
  negb (atp_Phase a =s "COMPLETED") && (limit <=? Count_Int (atp_RetryCount a)) && negb (cleanHandoff a).

Definition record_id (rec : Record_) : string := TicketID_Raw (rec_TicketID rec).

Definition retryExhausted (attempts : gmap string Attempt) (rec : Record_) (limit : Z) : bool :=
  match lastAttemptOf attempts (record_id rec) with
  | Some last => (atp_TicketRevision last =s rec_AcceptanceRevision rec) && exhaustedAttempt last limit
  | None => false
  end.

(** *** What a retry is charged *)

Definition emptyRetryReasons : gmap string string := foldl (λ m k, <[k := "0"]> m) ∅ RetryReasonNames.

Definition retryReasons (a : Attempt) : gmap string string :=
  match atp_RetryReasons a with
  | None => <["UNKNOWN" := atp_RetryCount a]> emptyRetryReasons
  | Some reasons => foldl (λ m k, <[k := default ε (reasons !! k)]> m) emptyRetryReasons RetryReasonNames
  end.

Definition chargedReason (a : Attempt) : string :=
  if (atp_Phase a =s "FAILED") && match atp_Cause a with Some c => c =s CauseLeaseExpired | None => false end then "EXPIRED"
  else if atp_Phase a =s "FAILED" then "FAILED"
  else if atp_Phase a =s "CANCELLED" then "RELEASED"
  else "UNKNOWN".

Definition RetryObservation (attempts : gmap string Attempt) (rec : Record_) (limit : Z) : Value :=
  let a := lastAttemptOf attempts (record_id rec) in
  let current := match a with Some a => atp_TicketRevision a =s rec_AcceptanceRevision rec | None => false end in
  let charged := match a with Some a => if current then Count_Int (atp_RetryCount a) else 0 | None => 0 end in
  let reasons := match a with Some a => if current then retryReasons a else emptyRetryReasons | None => emptyRetryReasons end in
  let remaining := if limit - charged <? 0 then 0 else limit - charged in
  let history := if 0 <? Count_Int (default ε (reasons !! "UNKNOWN")) then "INCOMPLETE" else "COMPLETE" in
  let reason :=
    match a with
    | None => "INITIAL_ADMISSION"
    | Some x =>
        if negb (atp_TicketRevision x =s rec_AcceptanceRevision rec) then "NEW_ACCEPTANCE"
        else if atp_Phase x =s "COMPLETED" then "COMPLETED_ATTEMPT"
        else if cleanHandoff x then "VERIFIED_HANDOFF"
        else if retryExhausted attempts rec limit then "RETRY_EXHAUSTED"
        else "RETRY_AVAILABLE"
    end in
  let o := Set_ NewObject "remainingMeaning" (VString "RETRY_CAPACITY") in
  let o := Set_ o "retryAdmissionReason" (VString reason) in
  let o := Set_ o "charged" (VString (CountOf charged)) in
  let o := Set_ o "limit" (VString (CountOf limit)) in
  let o := Set_ o "remaining" (VString (CountOf remaining)) in
  let o := Set_ o "exhausted" (VBool (retryExhausted attempts rec limit)) in
  let o := Set_ o "byReason" (RetryReasonsValue reasons) in
  VObject (Set_ o "reasonHistory" (VString history)).

Definition NextStageStale : string := "STALE".

(** [NextStage(attempts, rec)] *)
Definition Plan_NextStage (attempts : gmap string Attempt) (rec : Record_) : Value :=
  match lastAttemptOf attempts (record_id rec) with
  | None => VNull
  | Some a =>
      let stage := Attempt_NextStage a in
      if stage =s ε then VNull
      else if negb (atp_TicketRevision a =s rec_AcceptanceRevision rec) then VString NextStageStale
      else VString stage
  end.

(** ** The history of a ticket *)

(** [endedHistory(prior)] *)
Definition endedHistory (prior : Attempt) : option GenerationHistory :=
  if negb (atp_RuntimeID prior =s RuntimeExternalAgent) then None
  else
    let stage := if negb (atp_Stage prior =s ε) then Some (atp_Stage prior) else None in
    let x := match atp_PoolAllocation prior with
             | Some x => Some x
             | None => rpa_Allocation <$> atp_ReleasedPoolAllocation prior
             end in
    Some (mkHistory stage (pa_PoolID <$> x) (pa_MemberID <$> x) (atp_HandoffTo prior) (atp_HandoffReason prior) None).

Record endedGeneration := mkEnded { eg_attemptID : string; eg_generation : string; eg_history : option GenerationHistory }.

(** The generations of one attempt: the prior ones and its own. *)
Definition endedGenerations (a : Attempt) : list endedGeneration :=
  ((λ p, mkEnded (atp_AttemptID a) (pg_Generation p) (pg_History p)) <$> atp_PriorGenerations a) ++
  [mkEnded (atp_AttemptID a) (atp_Generation a) (endedHistory a)].

(** [ticketGenerations]: newest first. *)
Definition ticketGenerations (attempts : gmap string Attempt) (ticketID : string) : list endedGeneration :=
  let out := flat_map (λ kv, if TicketID_Raw (atp_TicketID kv.2) =s ticketID then endedGenerations kv.2 else [])
               (map_to_list attempts) in
  SliceStable (λ x y, Size_Uint64 (eg_generation y) <? Size_Uint64 (eg_generation x)) out.

Definition ended_name (g : endedGeneration) : string := "generation " +:+ eg_generation g +:+ " of " +:+ eg_attemptID g.

(** ** The authors a claim excludes *)

Definition ExcludeAuthorsLatest : string := "LATEST".
Definition ExcludeAuthorsAll : string := "ALL".

Record Author := mkAuthor { au_AttemptID : string; au_Generation : string; au_PoolID : string; au_MemberID : string }.

Record AuthorExclusion := mkExclusion {
  ax_TicketID : string; ax_Authors : list Author; ax_Excluded : list string; ax_Covered : list string
}.

(** The walk of [DeriveAuthors], newest first: the authors and the covered
    generations, or why it is unverified. *)
Fixpoint derive_loop (mode : string) (cover : bool) (gens : list endedGeneration) : string + list Author * list string :=
  match gens with
  | [] => inr ([], [])
  | g :: gens' =>
      let covered why :=
        if negb cover then inl why
        else match derive_loop mode cover gens' with
             | inl w => inl w
             | inr (authors, names) => inr (authors, ended_name g :: names)
             end in
      match eg_history g with
      | None => covered (ended_name g +:+ " records no stage or pool member (NOT_OBSERVED); its author cannot be excluded")
      | Some h =>
          match gh_Stage h with
          | Some stage =>
              if (stage =s "review") || (stage =s "integrate") then derive_loop mode cover gens'
              else match gh_MemberID h with
              | None => covered ("implement " +:+ ended_name g +:+ " held no pool member")
              | Some member =>
                  let author := mkAuthor (eg_attemptID g) (eg_generation g) (default ε (gh_PoolID h)) member in
                  if mode =s ExcludeAuthorsLatest then inr ([author], [])
                  else match derive_loop mode cover gens' with
                       | inl w => inl w
                       | inr (authors, names) => inr (author :: authors, names)
                       end
              end
          | None =>
              let why := ended_name g +:+ " recorded no stage; it may have authored the ticket" in
              if some (gh_MemberID h) then inl why else covered why
          end
      end
  end.

(** The sorted keys of a map used as a set. *)
Definition sorted_set (l : list string) : list string := SortStrings (base.elements (list_to_set l : gset string)).

Definition DeriveAuthors (attempts : gmap string Attempt) (ticketID mode pool : string) (explicit : list string) :
    string + AuthorExclusion :=
  match derive_loop mode (negb (is_empty explicit)) (ticketGenerations attempts ticketID) with
  | inl why => inl why
  | inr (authors, covered) =>
      let members := au_MemberID <$> filter (λ a, au_PoolID a = pool) authors in
      inr (mkExclusion ticketID authors (sorted_set (explicit ++ members)) covered)
  end.

(** [x.Notes()] *)
Definition AuthorExclusion_Notes (x : AuthorExclusion) : list string :=
  (if negb (is_empty (ax_Covered x)) then
     ["author exclusion: " +:+ strings.Join (ax_Covered x) ", " +:+
      " record(s) no pool member; covered by the caller's explicit --exclude-member set, not by recorded members"] else []) ++
  (if is_empty (ax_Authors x) then
     ["author exclusion: no implement generation of " +:+ ax_TicketID x +:+
      " records an author; only explicit exclusions apply"] else []).

(** [x.AuthorsDetail()] *)
Definition AuthorsDetail (x : option AuthorExclusion) : string :=
  match x with
  | None => ε
  | Some x =>
      match (λ a, "member " +:+ au_MemberID a +:+ " of pool " +:+ au_PoolID a +:+ " (generation " +:+ au_Generation a +:+ ")")
            <$> ax_Authors x with
      | [] => "excluded implement authors: none recorded"
      | names => "excluded implement authors: " +:+ strings.Join names ", "
      end
  end.

(** ** Loops *)

Definition LoopNoProgress : string := "NO_PROGRESS".
Definition LoopAlternatingReturns : string := "ALTERNATING_RETURNS".

Record loopGeneration := mkLoopGeneration {
  lg_generation : string; lg_stage : string; lg_handoffTo : string; lg_evidence : option LoopEvidence
}.

Definition prior_generation (p : PriorGeneration) : loopGeneration :=
  match pg_History p with
  | Some h => mkLoopGeneration (pg_Generation p) (default ε (gh_Stage h)) (gh_HandoffTo h) (gh_Loop h)
  | None => mkLoopGeneration (pg_Generation p) ε ε None
  end.

(** [loopGenerations(a, signal)]: oldest first. *)
Definition loopGenerations (a : Attempt) (signal : string) : list loopGeneration :=
  (prior_generation <$> atp_PriorGenerations a) ++
  [mkLoopGeneration (atp_Generation a) (atp_Stage a) (atp_HandoffTo a) (LoopEvidenceWith a signal)].

Definition generationIDs (gens : list loopGeneration) : list string := lg_generation <$> gens.

Record progressChain := mkChain { pc_known : bool; pc_last : option string }.

(** [c.unchanged(p, signal)] *)
Definition unchanged (c : progressChain) (p : option LoopProgress) (signal : string) : progressChain * bool :=
  match p with
  | Some p =>
      if negb (lp_Signal p =s signal) then (mkChain false (pc_last c), false)
      else match lp_Fingerprint p with
      | None => (c, true)
      | Some f =>
          (mkChain true (Some f), pc_known c && match pc_last c with Some l => l =s f | None => false end)
      end
  | None => (mkChain false (pc_last c), false)
  end.

(** The loop that gives each generation its verdict; [known] and [tree] are
    what is known of the candidate so far. *)
Fixpoint verdicts (raised signal : string) (known : bool) (tree : option string) (chain : progressChain)
    (gens : list loopGeneration) : list bool :=
  match gens with
  | [] => []
  | g :: gens' =>
      match lg_evidence g with
      | None => false :: verdicts raised signal false tree (mkChain false (pc_last chain)) gens'
      | Some e =>
          let comparable :=
            match le_CandidateTreeOid e with
            | None => true
            | Some oid => known && match tree with Some t => t =s oid | None => false end
            end in
          let known' := some (le_CandidateTreeOid e) || known in
          let tree' := match le_CandidateTreeOid e with Some oid => Some oid | None => tree end in
          let '(chain', same) := if negb (signal =s ε) then unchanged chain (le_Progress e) signal else (chain, true) in
          ((le_Disposition e =s CodeHandoff) && (Count_Int (le_GateResults e) =? 0) && (Count_Int (le_Reviews e) =? 0) &&
           comparable && same && ((raised =s ε) || negb (lg_generation g =s raised)))
          :: verdicts raised signal known' tree' chain' gens'
      end
  end.

(** How many of the last elements are true. *)
Definition trailing (vs : list bool) : nat :=
  (fix go l := match l with true :: l' => S (go l') | _ => 0%nat end) (reverse vs).

Definition noProgressRun (gens : list loopGeneration) (raised signal : string) : list string :=
  let vs := verdicts raised signal true None (mkChain true None) gens in
  generationIDs (drop (length gens - trailing vs) gens).

Definition loop_implement (g : loopGeneration) : bool :=
  match lg_evidence g with
  | Some e => (le_Disposition e =s CodeHandoff) && (lg_stage g =s "implement") &&
              ((lg_handoffTo g =s ε) || (lg_handoffTo g =s "review"))
  | None => false
  end.

Definition loop_returned (g : loopGeneration) : bool :=
  match lg_evidence g with
  | Some e => (le_Disposition e =s CodeReviewReturned) && (lg_stage g =s "review")
  | None => false
  end.

(** The returns of the newest pairs; the list is newest first. *)
Fixpoint returns (newest_first : list loopGeneration) : nat :=
  match newest_first with
  | r :: i :: gens => if loop_returned r && loop_implement i then S (returns gens) else 0%nat
  | _ => 0%nat
  end.

Definition alternatingRun (gens : list loopGeneration) : list string * nat :=
  let rgens := reverse gens in
  let skip := match rgens with g :: _ => if loop_implement g then 1%nat else 0%nat | [] => 0%nat end in
  let n := returns (drop skip rgens) in
  if (n =? 0)%nat then ([], 0%nat) else (generationIDs (reverse (take (skip + 2 * n) rgens)), n).

(** The generation whose witness raised the obligation high water. *)
Definition raised_generation (rec : Record_) (last : Attempt) : string :=
  match o ← rec_ObligationsRef rec; obl_LastRaise o with
  | Some r =>
      if (or_Attempt r =s atp_AttemptID last) && (or_AcceptanceRevision r =s rec_AcceptanceRevision rec)
      then or_Generation r else ε
  | None => ε
  end.

Definition LoopHoldOf (attempts : gmap string Attempt) (rec : Record_) (policy : Policy) : option LoopHold :=
  match pol_LoopDetection policy, lastAttemptOf attempts (record_id rec) with
  | Some bounds, Some last =>
      if Live last || (atp_Phase last =s "COMPLETED") || negb (atp_TicketRevision last =s rec_AcceptanceRevision rec) then None
      else
        let signal := pol_ProgressSignal policy in
        let gens := loopGenerations last signal in
        let counted := noProgressRun gens (raised_generation rec last) signal in
        if Count_Int (ld_MaxNoProgressGenerations bounds) <? len counted then
          Some (mkLoopHold LoopNoProgress (rec_AcceptanceRevision rec) counted (ld_MaxNoProgressGenerations bounds) signal)
        else
          let '(counted, n) := alternatingRun gens in
          if Count_Int (ld_MaxAlternatingReturns bounds) <? Z.of_nat n then
            Some (mkLoopHold LoopAlternatingReturns (rec_AcceptanceRevision rec) counted (ld_MaxAlternatingReturns bounds) ε)
          else None
  | _, _ => None
  end.

(** ** Members of a pool *)

(** [malformed(detail)] and [limit(detail)] *)
Definition malformed (detail : string) : Error := Errorf CodeMalformed "transaction" "%s" [AStr detail].
Definition over_limit (detail : string) : Error := Errorf CodeLimitExceeded "transaction" "%s" [AStr detail].

Definition OrderedPoolMembers (pool : Pool) (stage : string) (excluded : list string) : list string :=
  let free m := negb (contains excluded m) in
  (if negb (stage =s ε) then List.filter (λ m, (Pool_Reserved pool m =s stage) && free m) (pool_Members pool) else []) ++
  List.filter (λ m, (Pool_Reserved pool m =s ε) && free m) (pool_Members pool).

(** The loop of [checkExcludedMembers]; [prev] is the member before. *)
Fixpoint check_sorted_members (prev : option string) (members : list string) : option Error :=
  match members with
  | [] => None
  | m :: members' =>
      match ParseLabel "excludeMembers" m with
      | Err e => Some e
      | _ =>
          if match prev with Some p => negb (p <s m) | None => false end
          then Some (malformed "excluded members must be sorted and duplicate-free")
          else check_sorted_members (Some m) members'
      end
  end.

(** A nil slice is [None]. *)
Definition checkExcludedMembers (pool : string) (excluded : option (list string)) : option Error :=
  match excluded with
  | None => None
  | Some members =>
      if pool =s ε then Some (malformed "member exclusions require an explicit pool")
      else if is_empty members || (MaxPoolMembers <? len members) then Some (over_limit "excluded member count")
      else check_sorted_members None members
  end.

Definition CheckPoolExclusions (poolID : string) (excluded : option (list string)) (policy : Policy) : option Error :=
  match checkExcludedMembers poolID excluded with
  | Some e => Some e
  | None =>
      match excluded with
      | None => None
      | Some members =>
          match Policy_Pool policy poolID with
          | None => Some (malformed "unknown exclusion pool")
          | Some pool =>
              if forallb (contains (pool_Members pool)) members then None
              else Some (malformed "excluded member does not belong to requested pool")
          end
      end
  end.

Definition PoolRecoveryStallFailures : Z := 3.

(** [24 * time.Hour], in seconds *)
Definition PoolRecoveryStallAge : Z := 86400.

(** [PoolRecoveryStall(en, now)]: whether it is stalled. *)
Definition recovery_stalled (en : PoolEntry) (now : Z) : bool :=
  if negb (pe_State en =s "QUARANTINED") then false
  else if match pe_Recovery en with Some r => PoolRecoveryStallFailures <=? Count_Int (prc_Consecutive r) | None => false end then true
  else if (pe_QuarantinedAt en =s ε) || (now =? zero_time) then false
  else match time.Parse (pe_QuarantinedAt en) with
       | None => false
       | Some since => PoolRecoveryStallAge <=? now - since
       end.

(** [p.MembersStalled(poolID, members, now)] *)
Definition MembersStalled (p : PoolState) (poolID : string) (members : list string) (now : Z) : bool :=
  let byMember : gmap string PoolEntry :=
    foldl (λ m en, if pe_PoolID en =s poolID then <[pe_MemberID en := en]> m else m) ∅ (pst_Entries p) in
  negb (is_empty members) &&
  forallb (λ m, match byMember !! m with Some en => recovery_stalled en now | None => false end) members.

(** ** Waitlists *)

(** [expired(a, now)] of [lease.go] *)
Definition expired (a : Attempt) (now : string) : bool :=
  negb (some (atp_Supervision a)) && match atp_Lease a with Some l => negb (now <s ls_ExpiresAt l) | None => false end.

(** [servedTickets(state, attempt)] *)
Definition servedTickets (state : PoolState) (attempt : string → option Attempt) : list string :=
  flat_map (λ en,
    if negb (pe_State en =s "ALLOCATED") then []
    else omap (λ x, match attempt (psh_AttemptID x) with
                    | Some a => if Live a then Some (waiter_key (pe_PoolID en) (TicketID_Raw (atp_TicketID a))) else None
                    | None => None
                    end) (boundAttempts en)) (pst_Entries state).

Definition waiterLive (w : PoolWaiter) (policy : Policy) (tickets : Inventory) (attempt : string → option Attempt)
    (served : list string) (now : string) : planned bool :=
  if negb (some (Policy_Pool policy (pw_PoolID w))) || negb (now <s pw_ExpiresAt w) ||
     contains served (waiter_key (pw_PoolID w) (pw_TicketID w)) then Ok false
  else
    let* rec := get_record tickets (pw_TicketID w) in
    match rec with
    | None => Ok false
    | Some rec =>
        if negb (rec_Status rec =s StatusOpen) then Ok false
        else if pw_AttemptID w =s ε then Ok true
        else Ok match attempt (pw_AttemptID w) with
                | Some a => Live a && (atp_Generation a =s pw_Generation w) && negb (some (atp_PoolAllocation a)) &&
                            negb (expired a now)
                | None => false
                end
    end.

Definition liveWaiters (entries : list PoolWaiter) (state : PoolState) (policy : Policy) (tickets : Inventory)
    (attempt : string → option Attempt) (now : string) : planned (list PoolWaiter) :=
  let served := servedTickets state attempt in
  let* out := filter_planned (λ w, waiterLive w policy tickets attempt served now) entries in
  Ok (SliceStable (λ a b, by_string (pw_PoolID a) (pw_PoolID b) (WaiterBefore a b)) out).

Definition waiterOf (live : list PoolWaiter) (pool ticketID : string) : option PoolWaiter :=
  head (filter (λ w, pw_PoolID w = pool ∧ pw_TicketID w = ticketID) live).

Definition waitlistAhead (live : list PoolWaiter) (pool : string) (rec : Record_) : list PoolWaiter :=
  let own := waiterOf live pool (record_id rec) in
  List.filter (λ w,
    (pw_PoolID w =s pool) && negb (pw_TicketID w =s record_id rec) &&
    match own with
    | Some own => WaiterBefore w own
    | None => (pw_Kind w =s WaiterGrace) || negb (rec_Priority rec <s pw_Priority w)
    end) live.

(** [ahead] is not empty. *)
Definition waitlistDetail (pool : string) (free : Z) (ahead : list PoolWaiter) : string :=
  match ahead with
  | [] => ε
  | head :: _ =>
      "pool " +:+ pool +:+ " waitlist holds its " +:+ strconv.FormatInt free +:+ " free member(s) for " +:+
      strconv.FormatInt (len ahead) +:+ " waiter(s) ahead; head waiter " +:+ pw_TicketID head +:+ " (" +:+ pw_Kind head +:+
      " " +:+ pw_Priority head +:+ ", seq " +:+ pw_Seq head +:+ ", until " +:+ pw_ExpiresAt head +:+ ")"
  end.

Definition waitlistBlock (live : list PoolWaiter) (pool : string) (rec : Record_) (free : Z) : string :=
  let ahead := waitlistAhead live pool rec in
  if is_empty ahead || (free =? 0) || (len ahead <? free) then ε else waitlistDetail pool free ahead.

Definition waitlistYielders (live : list PoolWaiter) (pool : string) (rec : Record_) (tickets : Inventory)
    (waiting : list string) : planned (list string) :=
  match waiterOf live pool (record_id rec) with
  | None => Ok waiting
  | Some own =>
      filter_planned (λ id,
        let* other := get_record tickets id in
        Ok match other with
           | None => true
           | Some other => negb (existsb (λ w, pw_TicketID w =s pw_TicketID own) (waitlistAhead live pool other))
           end) waiting
  end.

(** ** What a plan reads *)

(** A map to booleans is the set of the ids it maps to true; a nil pointer,
    slice or map that the code tells from an empty one is [None]. *)
Record PlanInput := mkPlanInput {
  pi_Pool : string; pi_Stage : string; pi_ExcludeMembers : option (list string); pi_ExcludeAuthors : string;
  pi_Pools : option PoolState; pi_Prepared : string; pi_Queue : Queue; pi_Policy : Policy; pi_Tickets : Inventory;
  pi_Barrier : bool; pi_Reservations : option ReservationSet; pi_Attempts : gmap string Attempt;
  pi_ClaimablePools : option (list string); pi_WorkStateHeld : gset string; pi_BudgetHeld : gset string;
  pi_MirrorsDecided : gset string; pi_Now : string
}.

(** [at.Pool, at.Stage, at.ExcludeMembers, at.ExcludeAuthors = ...] *)
Definition replan (i : PlanInput) (pool stage : string) (members : option (list string)) (authors : string) : PlanInput :=
  mkPlanInput pool stage members authors (pi_Pools i) (pi_Prepared i) (pi_Queue i) (pi_Policy i) (pi_Tickets i)
    (pi_Barrier i) (pi_Reservations i) (pi_Attempts i) (pi_ClaimablePools i) (pi_WorkStateHeld i) (pi_BudgetHeld i)
    (pi_MirrorsDecided i) (pi_Now i).

Definition plan_attempt (i : PlanInput) (id : string) : option Attempt := pi_Attempts i !! id.

Definition freePoolMembers (i : PlanInput) (poolID : string) (excluded : list string) : Z :=
  match Policy_Pool (pi_Policy i) poolID with
  | None => 0
  | Some p =>
      let busy m :=
        match pi_Pools i with
        | Some state => existsb (λ en, (pe_MemberID en =s m) && negb (pe_AllocationID en =s pi_Prepared i)) (pst_Entries state)
        | None => false
        end in
      len (List.filter (λ m, negb (busy m)) (OrderedPoolMembers p (pi_Stage i) excluded))
  end.

Definition poolSlotsExcluding (i : PlanInput) (excluded : list string) : Z :=
  if some (CheckPoolExclusions (pi_Pool i) (pi_ExcludeMembers i) (pi_Policy i)) then 0
  else freePoolMembers i (pi_Pool i) excluded.

Definition poolSlots (i : PlanInput) : Z := poolSlotsExcluding i (default [] (pi_ExcludeMembers i)).

(** The free members, and whether they were observed. *)
Definition defaultPoolFree (i : PlanInput) (poolID : string) : Z * bool :=
  match pi_Pools i with None => (0, false) | Some _ => (freePoolMembers i poolID [], true) end.

Definition poolStalled (i : PlanInput) (poolID : string) : bool :=
  match Policy_Pool (pi_Policy i) poolID, pi_Pools i with
  | Some p, Some state =>
      MembersStalled state poolID (pool_Members p) (if pi_Now i =s ε then zero_time else parse_time (pi_Now i))
  | _, _ => false
  end.

Definition poolAvailable (i : PlanInput) (rec : Record_) : bool :=
  if pi_Pool i =s ε then (rec_RequiresPool rec =s ε) || some (Policy_Pool (pi_Policy i) (rec_RequiresPool rec))
  else if negb (rec_RequiresPool rec =s ε) && negb (rec_RequiresPool rec =s pi_Pool i) then false
  else 0 <? poolSlots i.

(** A nil waitlist is [None]. *)
Definition planWaitlist (i : PlanInput) : planned (option (list PoolWaiter)) :=
  match pi_Pools i with
  | Some state =>
      if (pi_Now i =s ε) || (pi_Pool i =s ε) || is_empty (pst_Waiters state) then Ok None
      else
        let* live := liveWaiters (pst_Waiters state) state (pi_Policy i) (pi_Tickets i) (plan_attempt i) (pi_Now i) in
        Ok (Some live)
  | None => Ok None
  end.

(** [PoolWaitlist(in, now)], of a policy and tickets that are there. *)
Definition PoolWaitlist (i : PlanInput) (now : string) : planned (list PoolWaiter) :=
  match pi_Pools i with
  | None => Ok []
  | Some state =>
      if is_empty (pst_Waiters state) then Ok []
      else liveWaiters (pst_Waiters state) state (pi_Policy i) (pi_Tickets i) (plan_attempt i) now
  end.

(** ** Tickets and their declared scope *)

Definition planLess (a b : Record_) : bool :=
  by_string (rec_Priority a) (rec_Priority b)
    (by_number (Count_Int (rec_Order a)) (Count_Int (rec_Order b)) (record_id a <s record_id b)).

(** The records of [ids] that are open or held. *)
Fixpoint open_tickets (inv : Inventory) (ids : list string) : planned (list Record_) :=
  match ids with
  | [] => Ok []
  | id :: ids' =>
      let* rec := get_record inv id in
      match rec with
      | None => Err NilPanic
      | Some rec =>
          let* out := open_tickets inv ids' in
          Ok (if (rec_Status rec =s StatusOpen) || (rec_Status rec =s StatusHeld) then rec :: out else out)
      end
  end.

Definition planTickets (inv : Inventory) : planned (list Record_) :=
  let* out := open_tickets inv (IDs inv) in Ok (SliceStable planLess out).

Definition wholeRepositoryKey : string := "repo".

Definition wholeRepository : list Resource := [{| res_Class := "WHOLE_REPOSITORY"; res_Key := wholeRepositoryKey |}].

Definition pathResources (paths : list string) : list Resource := (λ p, {| res_Class := "PATH"; res_Key := p |}) <$> paths.

Definition is_path (r : Resource) : bool := res_Class r =s "PATH".

Definition declaredPaths (e : Effects) : list string :=
  if negb (eff_Coverage e =s "QUALIFIED") then []
  else sorted_set (eff_TouchPaths e ++ (res_Key <$> List.filter is_path (eff_Resources e))).

Definition Declared (rec : Record_) : list string := declaredPaths (rec_Effects rec).

Definition UnboundedEffects (e : Effects) : bool := negb (eff_ExternalUnbounded e) && is_empty (declaredPaths e).

Definition declaredOther (rec : Record_) : list Resource :=
  List.filter (λ r, negb (is_path r)) (eff_Resources (rec_Effects rec)).

(** ** What refuses a claim whatever is reserved *)

(** [entryOracle{set: set}]; [set] is there. *)
Definition entry_oracle (set : ReservationSet) : AttemptOracle :=
  {| LiveAttempt := λ id,
       if existsb (λ e, TicketID_Raw (en_TicketID e) =s id) (rs_Entries set) then Satisfied else Unsatisfied;
     DescribeLiveAttempt := None |}.

Record ObservedBlocker := mkObserved { ob_Blocker : Blocker; ob_Observed : bool }.

Definition observed_block (code detail : string) : list ObservedBlocker := [mkObserved (mkBlocker code ε detail) true].

Definition authorPlan (i : PlanInput) (rec : Record_) : string + AuthorExclusion :=
  DeriveAuthors (pi_Attempts i) (record_id rec) (pi_ExcludeAuthors i) (pi_Pool i) (default [] (pi_ExcludeMembers i)).

(** The first blockers: the pool has no member for the claim. *)
Definition pool_blockers (i : PlanInput) (rec : Record_) : list ObservedBlocker :=
  if negb (pi_ExcludeAuthors i =s ε) && negb (pi_Pool i =s ε) &&
     ((rec_RequiresPool rec =s ε) || (rec_RequiresPool rec =s pi_Pool i)) then
    match authorPlan i rec with
    | inl why => observed_block CodeIndependenceUnverified why
    | inr x =>
        if poolSlotsExcluding i (ax_Excluded x) =? 0
        then observed_block CodeResourceCollision ("requested pool has no eligible member; " +:+ AuthorsDetail (Some x))
        else []
    end
  else if negb (poolAvailable i rec)
  then observed_block CodeResourceCollision "required or requested pool has no eligible member"
  else [].

(** The context of the ticket's view. *)
Definition plan_context (i : PlanInput) (rec : Record_) : ViewContext :=
  mkViewContext (q_CanonicalWriter (pi_Queue i)) (pol_SerialFallback (pi_Policy i)) None (entry_oracle <$> pi_Reservations i)
    (pi_Stage i) (LoopHoldOf (pi_Attempts i) rec (pi_Policy i)).

(** [v, _ := inv.View(id, ctx)]: the blockers and the unknowns of the view. *)
Definition view_blockers (inv : Inventory) (id : string) (ctx : ViewContext) : planned (list Blocker * list Blocker) :=
  match Inventory_View inv id ctx with
  | Viewed v => Ok (v_Blockers v, v_Unknowns v)
  | NoView => Ok ([], [])
  | ViewPanics e => Err (MaterializePanic e)
  | ViewNilLoader => Err NilPanic
  end.

Definition not_coverage (b : Blocker) : bool := negb (blk_Code b =s CodeCoverageUnknown).

Definition ClaimBlockerObservations (i : PlanInput) (rec : Record_) : planned (list ObservedBlocker) :=
  let* v := view_blockers (pi_Tickets i) (record_id rec) (plan_context i rec) in
  Ok (pool_blockers i rec ++
      (if pi_Barrier i then observed_block CodePaused ε else []) ++
      (if negb (q_Fixture (pi_Queue i)) && negb (some (q_ExecutionCutover (pi_Queue i)))
       then observed_block CodeCutoverMissing ε else []) ++
      (if negb (is_empty (pol_RequireEnforcedFields (pi_Policy i))) then observed_block CodeBudgetUnknown ε else []) ++
      ((λ b, mkObserved b true) <$> List.filter not_coverage v.1) ++
      ((λ b, mkObserved b false) <$> List.filter not_coverage v.2) ++
      (if retryExhausted (pi_Attempts i) rec (Count_Int (pol_AdmissionsPerRevision (pi_Policy i)))
       then observed_block CodeRetryExhausted ε else [])).

(** All the blockers, the known ones and the unknown ones. *)
Definition claimBlockerObservations (i : PlanInput) (rec : Record_) :
    planned (list Blocker * list Blocker * list Blocker) :=
  let* bs := ClaimBlockerObservations i rec in
  Ok (ob_Blocker <$> bs, ob_Blocker <$> List.filter ob_Observed bs, ob_Blocker <$> List.filter (λ b, negb (ob_Observed b)) bs).

Definition claimBlockers (i : PlanInput) (rec : Record_) : planned (list Blocker) :=
  let* all := claimBlockerObservations i rec in Ok all.1.1.

Definition blockerRefs (bs : list Blocker) : list string :=
  sorted_set (flat_map (λ b, blk_Code b :: (if negb (blk_TicketID b =s ε) then [blk_TicketID b] else [])) bs).

(** ** Priority admission *)

Record admissionRank := mkRank { ar_rec : Record_; ar_stage : string; ar_since : Z }.

Definition admissionRankOf (attempts : gmap string Attempt) (rec : Record_) : admissionRank :=
  match lastAttemptOf attempts (record_id rec) with
  | Some a =>
      let stage := Attempt_NextStage a in
      if (atp_TicketRevision a =s rec_AcceptanceRevision rec) && ((stage =s "review") || (stage =s "integrate"))
      then mkRank rec stage (Size_Uint64 (atp_PhaseSinceSeq a)) else mkRank rec ε 0
  | None => mkRank rec ε 0
  end.

Definition admissionLess (a b : admissionRank) : bool :=
  let waits r := negb (ar_stage r =s ε) in
  by_string (rec_Priority (ar_rec a)) (rec_Priority (ar_rec b))
    (if negb (Bool.eqb (waits a) (waits b)) then waits a
     else if waits a && negb (ar_since a =? ar_since b) then ar_since a <? ar_since b
     else planLess (ar_rec a) (ar_rec b)).

Record admissionCandidate := mkCandidate { ac_rank : admissionRank; ac_unobserved : bool }.

Definition candidate_id (c : admissionCandidate) : string := record_id (ar_rec (ac_rank c)).

(** The candidates among the tickets, in their order. *)
Fixpoint candidates (i : PlanInput) (pool : string) (ts : list Record_) : planned (list admissionCandidate) :=
  match ts with
  | [] => Ok []
  | t :: ts' =>
      if negb (rec_Status t =s StatusOpen) || negb (rec_RequiresPool t =s pool) then candidates i pool ts'
      else
        let r := admissionRankOf (pi_Attempts i) t in
        let at_ := replan i pool (if negb (ar_stage r =s ε) then ar_stage r else pi_Stage i) None ε in
        let* bs := claimBlockerObservations at_ t in
        let* out := candidates i pool ts' in
        Ok (if is_empty bs.1.2 then mkCandidate r (negb (is_empty bs.2)) :: out else out)
  end.

Definition admissionQueue (i : PlanInput) (pool : string) : planned (list admissionCandidate) :=
  let* ts := planTickets (pi_Tickets i) in
  let* out := candidates i pool ts in
  Ok (SliceStable (λ a b, admissionLess (ac_rank a) (ac_rank b)) out).

(** The candidates ahead of [r], up to the first that is not. *)
Fixpoint ahead_of (queue : list admissionCandidate) (r : admissionRank) : list admissionCandidate :=
  match queue with
  | [] => []
  | c :: queue' => if negb (admissionLess (ac_rank c) r) then [] else c :: ahead_of queue' r
  end.

(** The waiting tickets and the unobserved ones. *)
Definition admissionAhead (queue : list admissionCandidate) (r : admissionRank) : list string * list string :=
  let ahead := ahead_of queue r in
  (candidate_id <$> List.filter (λ c, negb (ac_unobserved c)) ahead, candidate_id <$> List.filter ac_unobserved ahead).

Definition priorityWaiting (i : PlanInput) (rec : Record_) (pool : string) : planned (list string * list string) :=
  let* queue := admissionQueue i pool in
  Ok (admissionAhead queue (admissionRankOf (pi_Attempts i) rec)).

Record admissionPrefix := mkPrefix { ap_queue : list admissionCandidate; ap_waiting : list string; ap_counts : list nat }.

(** The loop of [newAdmissionWaits] over a queue. *)
Definition admission_prefix (queue : list admissionCandidate) : admissionPrefix :=
  foldl (λ pre c,
    let waiting := if negb (ac_unobserved c) then ap_waiting pre ++ [candidate_id c] else ap_waiting pre in
    mkPrefix (ap_queue pre) waiting (ap_counts pre ++ [length waiting])) (mkPrefix queue [] [0%nat]) queue.

Fixpoint newAdmissionWaits (i : PlanInput) (pools : list Pool) (out : gmap string admissionPrefix) :
    planned (gmap string admissionPrefix) :=
  match pools with
  | [] => Ok out
  | p :: pools' =>
      if negb (pool_PriorityAdmission p) then newAdmissionWaits i pools' out
      else
        let* queue := admissionQueue i (pool_ID p) in
        newAdmissionWaits i pools' (<[pool_ID p := admission_prefix queue]> out)
  end.

(** The waiting tickets of one pool ahead of [r]. *)
Definition waits_prefix (pre : admissionPrefix) (r : admissionRank) : list string :=
  let n := length (ap_queue pre) in
  let n := sort_Search n (λ k,
    match ap_queue pre !! k with Some c => negb (admissionLess (ac_rank c) r) | None => true end) 0 n in
  take (default 0%nat (ap_counts pre !! n)) (ap_waiting pre).

(** [w.of(in, rec)]; a nil map is [None]. *)
Definition waits_of (w : gmap string admissionPrefix) (i : PlanInput) (rec : Record_) : option (gmap string (list string)) :=
  if (size w =? 0)%nat then None
  else Some ((λ pre, waits_prefix pre (admissionRankOf (pi_Attempts i) rec)) <$> w).

Definition admissionNote (queue : list admissionCandidate) (to : string) : string :=
  match head (filter (λ c, candidate_id c = to ∧ ar_stage (ac_rank c) ≠ ε) queue) with
  | Some c => "; " +:+ to +:+ " awaits " +:+ ar_stage (ac_rank c) +:+ " since seq " +:+ strconv.FormatUint (ar_since (ac_rank c))
  | None => ε
  end.

(** The ticket to yield to, or the empty string. *)
Definition priorityYield (policy : Policy) (pool : string) (free : Z) (waiting : list string) : string :=
  match Policy_Pool policy pool with
  | Some p =>
      if negb (pool_PriorityAdmission p) || (free <=? 0) || (len waiting <? free) then ε else default ε (head waiting)
  | None => ε
  end.

Definition priorityYieldDetail (pool : string) (free : Z) (waiting : list string) (to : string) : string :=
  "pool " +:+ pool +:+ " priority admission: " +:+ strconv.FormatInt (len waiting) +:+ " higher-priority waiting ticket(s) for " +:+
  strconv.FormatInt free +:+ " free eligible member(s); yields to " +:+ to.

(** ** Plans *)

Definition PlanSelected : string := "SELECTED".
Definition PlanDeferred : string := "DEFERRED".
Definition PlanBlocked : string := "BLOCKED".
Definition PlanReasonWorkStateHeld : string := "WORK_STATE_HELD".
Definition PlanReasonBudgetHeld : string := "BUDGET_HELD".
Definition PlanReasonMirrorsDecided : string := "MIRRORS_DECIDED_ELSEWHERE".

(** The ticket of an entry is always there. *)
Record PlanEntry := mkPlanEntry {
  pl_Retries : Value; pl_NextStage : Value; pl_Ticket : Record_; pl_Resources : list Resource; pl_ClosureComplete :
  bool; pl_State : string; pl_Reason : string; pl_Blockers : list string; pl_poolDeferred : bool; pl_prerequisites :
  list string; pl_Detail : string; pl_Authors : option AuthorExclusion; pl_yieldTo : string; pl_Loop : option
  LoopHold; pl_SerialFallback : bool
}.

(** Assigning to a field of an entry. *)
Definition eta_plan_entry (e : PlanEntry) : PlanEntry :=
  mkPlanEntry (pl_Retries e) (pl_NextStage e) (pl_Ticket e) (pl_Resources e) (pl_ClosureComplete e) (pl_State e)
    (pl_Reason e) (pl_Blockers e) (pl_poolDeferred e) (pl_prerequisites e) (pl_Detail e) (pl_Authors e) (pl_yieldTo
    e) (pl_Loop e) (pl_SerialFallback e).

#[export] Instance set_pl_State : Setter pl_State.
Proof. setter eta_plan_entry pl_State. Defined.
#[export] Instance set_pl_Reason : Setter pl_Reason.
Proof. setter eta_plan_entry pl_Reason. Defined.
#[export] Instance set_pl_Blockers : Setter pl_Blockers.
Proof. setter eta_plan_entry pl_Blockers. Defined.
#[export] Instance set_pl_poolDeferred : Setter pl_poolDeferred.
Proof. setter eta_plan_entry pl_poolDeferred. Defined.
#[export] Instance set_pl_Detail : Setter pl_Detail.
Proof. setter eta_plan_entry pl_Detail. Defined.
#[export] Instance set_pl_yieldTo : Setter pl_yieldTo.
Proof. setter eta_plan_entry pl_yieldTo. Defined.
#[export] Instance set_pl_SerialFallback : Setter pl_SerialFallback.
Proof. setter eta_plan_entry pl_SerialFallback. Defined.

Record PoolSelection := mkSelection {
  psel_PoolID : string; psel_Observed : bool; psel_Free : Z; psel_Selected : Z; psel_Deferred : Z
}.

Record TicketPlan := mkPlan {
  tp_MaxActiveAttempts : string; tp_AvailableWorkers : string; tp_Entries : list PlanEntry; tp_Pools : list PoolSelection
}.

Definition entry_id (e : PlanEntry) : string := record_id (pl_Ticket e).

(** [p.SerialFallbackDeferred()] *)
Definition SerialFallbackDeferred (p : TicketPlan) : list string := entry_id <$> List.filter pl_SerialFallback (tp_Entries p).

Definition availableWorkers (i : PlanInput) (live : list ReservationEntry) : string :=
  let used := foldl (λ n en, n + Count_Int (en_Workers en)) 0 live in
  CountOf (Z.max (Count_Int (pol_MaxWorkersTotal (pi_Policy i)) - used) 0).

(** What a claim of the ticket would reserve, and whether it declares it. *)
Definition plan_scope (rec : Record_) : list Resource * bool :=
  match Declared rec with
  | [] => (wholeRepository, false)
  | declared => (pathResources declared ++ declaredOther rec, true)
  end.

Definition planEntry (i : PlanInput) (rec : Record_) : planned PlanEntry :=
  let '(resources, complete) := plan_scope rec in
  let excludes := negb (pi_ExcludeAuthors i =s ε) in
  let* bs := claimBlockers i rec in
  Ok (mkPlanEntry
        (RetryObservation (pi_Attempts i) rec (Count_Int (pol_AdmissionsPerRevision (pi_Policy i))))
        (Plan_NextStage (pi_Attempts i) rec) rec resources complete
        (match bs with [] => ε | _ => PlanBlocked end)
        (match bs with [] => ε | b :: _ => blk_Code b end)
        (blockerRefs bs) false
        (blk_Detail <$> List.filter (λ b, blk_Code b =s CodePrerequisiteUnsatisfied) bs)
        (match bs with b :: _ => if excludes then blk_Detail b else ε | [] => ε end)
        (if excludes then match authorPlan i rec with inr x => Some x | inl _ => None end else None)
        ε
        (if existsb (λ b, blk_Code b =s CodeLoopDetected) bs then LoopHoldOf (pi_Attempts i) rec (pi_Policy i) else None)
        false).

(** The set [live] of reservations is there; [fallbackOnly] reads its entries. *)
Definition fallbackOnly (i : PlanInput) (live : list ReservationEntry) (e : PlanEntry) (selected : list PlanEntry) : bool :=
  if pl_ClosureComplete e || (Count_Int (pol_MaxActiveAttempts (pi_Policy i)) <=? len live + len selected) then false
  else
    let other := declaredOther (pl_Ticket e) in
    let blocks rs := existsb (λ r, res_Class r =s "WHOLE_REPOSITORY") rs || Collide other rs in
    negb (existsb (λ en, blocks (en_Resources en)) live) && negb (existsb (λ s, blocks (pl_Resources s)) selected).

(** The deferral of an entry, with the blocker it names. *)
Definition deferred (e : PlanEntry) (blocker : string) : PlanEntry := e <| pl_Blockers := [blocker] |>.

(** The last part of [choose]: collisions and the capacity. *)
Definition choose_scope (i : PlanInput) (live : list ReservationEntry) (e : PlanEntry) (selected : list PlanEntry) : PlanEntry :=
  let shared := SharedReservationPaths (pi_Policy i) in
  match List.find (λ en, CollideShared (pl_Resources e) (en_Resources en) shared) live with
  | Some en => (deferred e (TicketID_Raw (en_TicketID en))) <| pl_SerialFallback := fallbackOnly i live e selected |>
  | None =>
      match List.find (λ s, CollideShared (pl_Resources e) (pl_Resources s) shared) selected with
      | Some s => (deferred e (entry_id s)) <| pl_SerialFallback := fallbackOnly i live e selected |>
      | None =>
          if Count_Int (pol_MaxActiveAttempts (pi_Policy i)) <=? len live + len selected then
            (deferred e CodeLimitExceeded) <| pl_Reason := CodeLimitExceeded |>
          else e <| pl_State := PlanSelected |> <| pl_Reason := CodeDevelopmentMode |> <| pl_Blockers := [] |>
      end
  end.

(** The part of [choose] for a requested pool: a deferral, if it is one. *)
Definition choose_requested (i : PlanInput) (e : PlanEntry) (selected : list PlanEntry) (waiting : gmap string (list string)) :
    option PlanEntry :=
  let slots := poolSlots i in
  let to := priorityYield (pi_Policy i) (pi_Pool i) slots (default [] (waiting !! pi_Pool i)) in
  if negb (to =s ε) then Some ((deferred e to) <| pl_yieldTo := to |>)
  else if slots <=? len selected then Some (deferred e CodeResourceCollision)
  else None.

Definition stalled_detail (pool : string) : string :=
  "every member of pool " +:+ pool +:+ " is QUARANTINED with a stalled recovery; read `corvint-tasks pool status --pool " +:+
  pool +:+ "`, repair a member, then confirm it safe".

(** The part of [choose] for the pool a ticket requires, in a default plan. *)
Definition choose_required (i : PlanInput) (e : PlanEntry) (selected : list PlanEntry) (waiting : gmap string (list string)) :
    option PlanEntry :=
  let pool := rec_RequiresPool (pl_Ticket e) in
  let '(free, observed) := defaultPoolFree i pool in
  let taken := len (List.filter (λ s, rec_RequiresPool (pl_Ticket s) =s pool) selected) in
  let to := priorityYield (pi_Policy i) pool free (default [] (waiting !! pool)) in
  if negb observed || match pi_ClaimablePools i with Some pools => negb (contains pools pool) | None => false end then
    Some ((deferred e pool) <| pl_poolDeferred := true |>)
  else if negb (to =s ε) then Some ((deferred e to) <| pl_poolDeferred := true |> <| pl_yieldTo := to |>)
  else if free <=? taken then
    let e := (deferred e pool) <| pl_poolDeferred := true |> in
    Some (if (taken =? 0) && poolStalled i pool
          then e <| pl_Reason := CodePoolMemberRecoveryStalled |> <| pl_Detail := stalled_detail pool |> else e)
  else None.

Definition choose (i : PlanInput) (live : list ReservationEntry) (e : PlanEntry) (selected : list PlanEntry)
    (waiting : gmap string (list string)) : PlanEntry :=
  let e := e <| pl_State := PlanDeferred |> <| pl_Reason := CodeResourceCollision |> in
  let pooled :=
    if negb (pi_Pool i =s ε) then choose_requested i e selected waiting
    else if negb (rec_RequiresPool (pl_Ticket e) =s ε) then choose_required i e selected waiting
    else None in
  match pooled with Some e => e | None => choose_scope i live e selected end.

(** [waitlistDefers(in, live, e, selected)]: the deferral, if it is one. *)
Definition waitlistDefers (i : PlanInput) (live : list PoolWaiter) (e : PlanEntry) (selected : list PlanEntry) : option PlanEntry :=
  if is_empty live then None
  else
    let free := poolSlots i - len selected in
    let ahead := List.filter (λ w, negb (existsb (λ s, entry_id s =s pw_TicketID w) selected))
                   (waitlistAhead live (pi_Pool i) (pl_Ticket e)) in
    match ahead with
    | [] => None
    | first :: _ =>
        if (free <=? 0) || (len ahead <? free) then None
        else Some (e <| pl_State := PlanDeferred |> <| pl_Reason := CodeResourceCollision |>
                     <| pl_Blockers := [pw_TicketID first] |> <| pl_Detail := waitlistDetail (pi_Pool i) free ahead |>)
    end.

(** A deferral of the dispatcher. *)
Definition held_entry (e : PlanEntry) (reason : string) : PlanEntry :=
  e <| pl_State := PlanDeferred |> <| pl_Reason := reason |> <| pl_Blockers := [reason] |>.

(** The decision on an entry that no blocker refuses. *)
Definition plan_decide (i : PlanInput) (live : list ReservationEntry) (waits : gmap string admissionPrefix)
    (wl : option (list PoolWaiter)) (rec : Record_) (e : PlanEntry) (selected : list PlanEntry) : planned PlanEntry :=
  let id := record_id rec in
  if bool_decide (id ∈ pi_WorkStateHeld i) then Ok (held_entry e PlanReasonWorkStateHeld)
  else if bool_decide (id ∈ pi_BudgetHeld i) then Ok (held_entry e PlanReasonBudgetHeld)
  else if bool_decide (id ∈ pi_MirrorsDecided i) then Ok (held_entry e PlanReasonMirrorsDecided)
  else match waitlistDefers i (default [] wl) e selected with
  | Some e => Ok e
  | None =>
      match wl, waits_of waits i rec with
      | Some l, Some waiting =>
          let* yielders := waitlistYielders l (pi_Pool i) rec (pi_Tickets i) (default [] (waiting !! pi_Pool i)) in
          Ok (choose i live e selected (<[pi_Pool i := yielders]> waiting))
      | _, waiting => Ok (choose i live e selected (default ∅ waiting))
      end
  end.

(** The loop of [PriorityFirst]; [selected] are the selections before. *)
Fixpoint plan_loop (i : PlanInput) (live : list ReservationEntry) (waits : gmap string admissionPrefix)
    (wl : option (list PoolWaiter)) (recs : list Record_) (selected : list PlanEntry) : planned (list PlanEntry) :=
  match recs with
  | [] => Ok []
  | rec :: recs' =>
      let* e := planEntry i rec in
      let* e := if pl_State e =s ε then plan_decide i live waits wl rec e selected else Ok e in
      let* out := plan_loop i live waits wl recs' (if pl_State e =s PlanSelected then selected ++ [e] else selected) in
      Ok (e :: out)
  end.

Definition poolSelections (i : PlanInput) (entries : list PlanEntry) : list PoolSelection :=
  if negb (pi_Pool i =s ε) then []
  else
    (λ p,
      let '(free, observed) := defaultPoolFree i (pool_ID p) in
      let mine := List.filter (λ e, rec_RequiresPool (pl_Ticket e) =s pool_ID p) entries in
      mkSelection (pool_ID p) observed free (len (List.filter (λ e, pl_State e =s PlanSelected) mine))
        (len (List.filter (λ e, negb (pl_State e =s PlanSelected) && pl_poolDeferred e) mine))) <$> pol_Pools (pi_Policy i).

Definition PriorityFirst (i : PlanInput) : planned TicketPlan :=
  match pi_Reservations i with
  | None => Err NilPanic
  | Some set =>
      let live := rs_Entries set in
      let* waits := newAdmissionWaits i (pol_Pools (pi_Policy i)) ∅ in
      let* wl := planWaitlist i in
      let* recs := planTickets (pi_Tickets i) in
      let* entries := plan_loop i live waits wl recs [] in
      Ok (mkPlan (pol_MaxActiveAttempts (pi_Policy i)) (availableWorkers i live) entries (poolSelections i entries))
  end.

(** [p.Selected()] *)
Definition Plan_Selected (p : TicketPlan) : option PlanEntry := List.find (λ e, pl_State e =s PlanSelected) (tp_Entries p).

(** [p.ClaimNext(pool)] *)
Definition ClaimNext (p : TicketPlan) (pool : string) : option PlanEntry :=
  List.find (λ e, (pl_State e =s PlanSelected) && (negb (pool =s ε) || (rec_RequiresPool (pl_Ticket e) =s ε))) (tp_Entries p).

(** [p.refusal()] of [lease_claim.go] *)
Definition Plan_refusal (p : TicketPlan) : string * string :=
  match tp_Entries p with
  | [] => (CodeTicketState, "no ticket is OPEN or HELD")
  | first :: _ =>
      match Plan_Selected p with
      | Some s =>
          (CodeResourceCollision, "no SELECTED ticket is claimable without --pool; the first, " +:+ entry_id s +:+
             ", requires pool " +:+ rec_RequiresPool (pl_Ticket s))
      | None =>
          let detail := "no ticket is SELECTED; the first of " +:+ CountOf (len (tp_Entries p)) +:+ " planned tickets, " +:+
                        entry_id first +:+ ", is " +:+ pl_State first +:+ " " +:+ pl_Reason first in
          (pl_Reason first,
           if pl_Reason first =s CodeEscalationPending
           then detail +:+ " on " +:+ strings.Join (Record_EscalationPending (pl_Ticket first)) ","
           else if pl_Reason first =s CodePrerequisiteUnsatisfied
           then detail +:+ ": " +:+ strings.Join (pl_prerequisites first) "; "
           else match pl_Loop first with
           | Some hold =>
               if pl_Reason first =s CodeLoopDetected then detail +:+ ": " +:+ LoopHold_Detail hold
               else if negb (pl_Detail first =s ε) then detail +:+ ": " +:+ pl_Detail first else detail
           | None => if negb (pl_Detail first =s ε) then detail +:+ ": " +:+ pl_Detail first else detail
           end)
      end
  end.

(** [RecordedClaimability(in, rec)]: true, false or null, and the reason. *)
Definition RecordedClaimability (i : PlanInput) (rec : Record_) : planned (Value * string) :=
  if negb (rec_Status rec =s StatusOpen) && negb (rec_Status rec =s StatusHeld) then Ok (VBool false, CodeTicketState)
  else
    let* bs := claimBlockerObservations i rec in
    match bs.1.2 with
    | b :: _ => Ok (VBool false, blk_Code b)
    | [] =>
        let* e := planEntry i rec in
        let pool := rec_RequiresPool rec in
        let* w := if negb (pool =s ε) then priorityWaiting i rec pool else Ok ([], []) in
        match pi_Reservations i with
        | None => Err NilPanic
        | Some set =>
            let e := choose i (rs_Entries set) e [] {[pool := w.1]} in
            if pl_poolDeferred e && negb (some (pi_Pools i)) then Ok (VNull, NotObserved)
            else if negb (pl_State e =s PlanSelected) then Ok (VBool false, pl_Reason e)
            else if negb (is_empty w.2) &&
                    negb (priorityYield (pi_Policy i) pool (defaultPoolFree i pool).1 (w.1 ++ w.2) =s ε)
            then Ok (VNull, NotObserved)
            else match bs.2 with
                 | b :: _ => Ok (VNull, blk_Code b)
                 | [] => Ok (VBool true, PlanSelected)
                 end
        end
    end.
