(* ===== verification/PlannerSpec.v ===== *)
(** * What a plan promises

    The orders of [plan.go] and [priority_admission.go] are strict and weak,
    so their sorts are well defined; the waits that a plan computes once are
    the ones a claim computes for itself; and a plan selects exactly the
    tickets that nothing refuses, nothing reserved or selected before them
    excludes, and whose pool has a member left. *)

From S2P Require Import Prelude View Utf8 GoStd Codes Limits Value Primitives SetsSpec Ids Parse Ticket Inventory Marks.
From S2P Require Import RecordParts RecordCodec Collision Intent Attempt Updates Pools Clock Planner.
Local Open Scope Z_scope.
Local Open Scope go_scope.

(** ** Strict weak orders

    What [sort.SliceStable] asks of its [less]. *)

Class WeakOrder {A} (less : A → A → bool) : Prop := {
  less_asym a b : less a b = true → less b a = false;
  less_trans a b c : less b a = false → less c b = false → less c a = false;
}.

#[export] Instance string_order {A} (key : A → string) : WeakOrder (λ a b, key a <s key b).
Proof.
  split; intros a b; [|intros c]; rewrite !ltb_leb.
  - intros H%negb_true_iff. apply negb_false_iff, leb_total, H.
  - intros H%negb_false_iff K%negb_false_iff. apply negb_false_iff. by eapply leb_trans.
Qed.

#[export] Instance by_string_order {A} (key : A → string) (less : A → A → bool) :
  WeakOrder less → WeakOrder (λ a b, by_string (key a) (key b) (less a b)).
Proof.
  intros [Ha Ht]. destruct (string_order key) as [Ka Kt]. unfold by_string. split; intros a b.
  - destruct (String.eqb_spec (key a) (key b)) as [->|He]; cbn [negb].
    + rewrite String.eqb_refl. apply Ha.
    + destruct (String.eqb_spec (key b) (key a)); [congruence|]. apply Ka.
  - intros c. destruct (String.eqb_spec (key b) (key a)) as [Eba|Nba], (String.eqb_spec (key c) (key b)) as [Ecb|Ncb]; cbn [negb].
    + rewrite Ecb, Eba, String.eqb_refl. apply Ht.
    + rewrite <-Eba. destruct (String.eqb_spec (key c) (key b)); [done|]. by cbn [negb].
    + rewrite Ecb. destruct (String.eqb_spec (key b) (key a)); [done|]. by cbn [negb].
    + intros H K. destruct (String.eqb_spec (key c) (key a)) as [Eca|Nca]; cbn [negb]; [|by eapply Kt].
      exfalso. rewrite Eca in K. rewrite ltb_leb in H, K. apply negb_false_iff in H, K. apply Nba. by apply leb_antisym.
Qed.

#[export] Instance by_number_order {A} (key : A → Z) (less : A → A → bool) :
  WeakOrder less → WeakOrder (λ a b, by_number (key a) (key b) (less a b)).
Proof.
  intros [Ha Ht]. unfold by_number. split; intros a b.
  - destruct (Z.eqb_spec (key a) (key b)) as [->|He]; cbn [negb].
    + rewrite Z.eqb_refl. apply Ha.
    + destruct (Z.eqb_spec (key b) (key a)); [congruence|]. cbn [negb]. lia.
  - intros c. destruct (Z.eqb_spec (key b) (key a)), (Z.eqb_spec (key c) (key b)), (Z.eqb_spec (key c) (key a)); cbn [negb];
      try lia. apply Ht.
Qed.

Lemma WeakOrder_ext {A} (f g : A → A → bool) : (∀ a b, f a b = g a b) → WeakOrder g → WeakOrder f.
Proof. intros E [Ha Ht]. split; intros a b; [|intros c]; rewrite !E; eauto. Qed.

Lemma on_key_order {A B} (key : B → A) (less : A → A → bool) : WeakOrder less → WeakOrder (λ a b, less (key a) (key b)).
Proof. intros [Ha Ht]. split; [intros a b; apply Ha|intros a b c; apply Ht]. Qed.

Section order.
Context {A : Type} (less : A → A → bool) `{!WeakOrder less}.

Lemma SliceStable_perm xs : SliceStable less xs ≡ₚ xs.
Proof using. apply isort_perm. Qed.

Lemma SliceStable_sorted xs : StronglySorted (λ a b, less b a = false) (SliceStable less xs).
Proof.
  assert (StronglySorted (λ a b, negb (less b a) = true) (SliceStable less xs)) as H.
  { apply isort_StronglySorted.
    - intros x y H%negb_false_iff. apply negb_true_iff. by apply less_asym.
    - intros x y z H%negb_true_iff K%negb_true_iff. apply negb_true_iff. by eapply less_trans. }
  induction H as [|x l _ IH Hx]; constructor; [done|]. eapply Forall_impl; [exact Hx|]. cbv beta. intros. by apply negb_true_iff.
Qed.

(** Sorting what is sorted changes nothing. *)
Lemma less_left a b c : less a b = true → less c b = false → less a c = true.
Proof. intros H K. destruct (less a c) eqn:E; [done|]. by rewrite (less_trans b c a) in H. Qed.
End order.

#[export] Instance planLess_order : WeakOrder planLess.
Proof. apply _. Qed.

(** The rank a waiting ticket has: before the others of its priority, the
    longest waiting first. *)
Definition rank_waits (r : admissionRank) : bool := negb (ar_stage r =s ε).

#[export] Instance admissionLess_order : WeakOrder admissionLess.
Proof.
  apply (WeakOrder_ext _ (λ a b, by_string (rec_Priority (ar_rec a)) (rec_Priority (ar_rec b))
    (by_number (if rank_waits a then 0 else 1) (if rank_waits b then 0 else 1)
      (by_number (if rank_waits a then ar_since a else 0) (if rank_waits b then ar_since b else 0)
        (planLess (ar_rec a) (ar_rec b)))))).
  - intros a b. unfold admissionLess. fold (rank_waits a) (rank_waits b). f_equal.
    unfold by_number. by destruct (rank_waits a), (rank_waits b).
  - do 3 first [apply (by_string_order (λ a, rec_Priority (ar_rec a))) | apply by_number_order].
    exact (on_key_order ar_rec _ planLess_order).
Qed.

(** ** What waits ahead of a ticket *)

Definition observed_ids (l : list admissionCandidate) : list string :=
  candidate_id <$> List.filter (λ c, negb (ac_unobserved c)) l.

Lemma take_filter {A} (f : A → bool) n l :
  take (length (List.filter f (take n l))) (List.filter f l) = List.filter f (take n l).
Proof. rewrite <-(take_drop n l) at 2. rewrite List.filter_app. apply take_app_length. Qed.

(** The prefix computed once: the waiting ids, and how many of them are among
    the first [k] candidates. *)
Lemma admission_prefix_spec queue :
  admission_prefix queue =
    mkPrefix queue (observed_ids queue) ((λ k, length (observed_ids (take k queue))) <$> seq 0 (S (length queue))).
Proof.
  unfold admission_prefix. generalize queue at 1 3. intros q.
  induction queue as [|c l IH] using rev_ind; [done|].
  rewrite foldl_app, IH. cbn [foldl ap_queue ap_waiting ap_counts]. rewrite length_app. cbn [length].
  assert (observed_ids (l ++ [c]) = if negb (ac_unobserved c) then observed_ids l ++ [candidate_id c] else observed_ids l) as <-.
  { unfold observed_ids. rewrite List.filter_app, fmap_app. cbn. destruct (ac_unobserved c); cbn; [apply app_nil_r|done]. }
  f_equal. rewrite Nat.add_comm. cbn [Nat.add]. rewrite (List.seq_S (S (length l)) 0), fmap_app.
  f_equal.
  - apply list_fmap_ext. intros k x [-> Hk]%lookup_seq. rewrite take_app_le by lia. done.
  - cbn [Nat.add fmap list_fmap]. rewrite take_ge; [done|]. rewrite length_app. cbn. lia.
Qed.

Lemma ahead_of_take r n : ∀ queue, (n ≤ length queue)%nat →
  (∀ k c, (k < n)%nat → queue !! k = Some c → admissionLess (ac_rank c) r = true) →
  (∀ c, queue !! n = Some c → admissionLess (ac_rank c) r = false) →
  ahead_of queue r = take n queue.
Proof.
  induction n as [|n IH]; intros [|c queue] Hn Hlt Hge; cbn [ahead_of take length] in *; try done; try lia.
  - by rewrite (Hge c).
  - rewrite (Hlt 0%nat c) by (done || lia). cbn [negb]. f_equal. apply IH; [lia| |done].
    intros k d Hk. apply (Hlt (S k)). lia.
Qed.

(** In a sorted queue the binary search finds the first candidate that is not
    ahead, so the precomputed prefix is what a walk of the queue gives. *)
Lemma waits_prefix_spec queue r :
  StronglySorted (λ a b, admissionLess (ac_rank b) (ac_rank a) = false) queue →
  waits_prefix (admission_prefix queue) r = (admissionAhead queue r).1.
Proof.
  intros Hs. unfold waits_prefix. rewrite admission_prefix_spec. cbn [ap_queue ap_waiting ap_counts]. cbv zeta.
  set (f := λ k, match queue !! k with Some c => negb (admissionLess (ac_rank c) r) | None => true end).
  assert (∀ i j, (i ≤ j)%nat → f i = true → f j = true) as Hmono.
  { intros i j Hij. unfold f. destruct (queue !! j) as [d|] eqn:Ej; [|done].
    destruct (queue !! i) as [c|] eqn:Ei; [|apply lookup_ge_None in Ei; apply lookup_lt_Some in Ej; lia].
    rewrite !negb_true_iff. intros Hc. destruct (decide (i = j)) as [->|]; [congruence|].
    eapply less_trans; [exact Hc|].
    apply (StronglySorted_lookup_lt _ _ Hs i j); [done..|lia]. }
  destruct (sort_Search_least f Hmono (length queue) 0 (length queue)) as ((_ & Hn) & Hlo & Hhi); [lia..|].
  set (n := sort_Search _ _ _ _) in *. clearbody n.
  assert (((λ k, length (observed_ids (take k queue))) <$> seq 0 (S (length queue))) !! n = Some (length (observed_ids (take n queue)))) as ->.
  { rewrite list_lookup_fmap, lookup_seq_lt by lia. done. }
  cbn [from_option id]. unfold admissionAhead. rewrite (ahead_of_take r n); [|done| |].
  - unfold observed_ids. rewrite length_fmap, <-fmap_take, take_filter. done.
  - intros k c Hk Hc. specialize (Hlo k ltac:(lia)). unfold f in Hlo. rewrite Hc in Hlo. by apply negb_false_iff.
  - intros c Hc. apply lookup_lt_Some in Hc as Hl. specialize (Hhi Hl). unfold f in Hhi. rewrite Hc in Hhi. by apply negb_true_iff.
Qed.

Lemma admissionQueue_sorted i pool queue : admissionQueue i pool = Ok queue →
  StronglySorted (λ a b, admissionLess (ac_rank b) (ac_rank a) = false) queue.
Proof.
  unfold admissionQueue. intros (ts & _ & (out & _ & [= <-])%obind_Ok)%obind_Ok.
  exact (SliceStable_sorted _ (WeakOrder0 := on_key_order ac_rank _ admissionLess_order) _).
Qed.

(** Each pool of the policy with priority admission has its prefix. *)
Lemma newAdmissionWaits_lookup i pools : ∀ out w, newAdmissionWaits i pools out = Ok w →
  ∀ pool, match w !! pool with
  | Some pre => out !! pool = Some pre ∨ ∃ queue, admissionQueue i pool = Ok queue ∧ pre = admission_prefix queue
  | None => out !! pool = None
  end ∧ ((∃ p, p ∈ pools ∧ pool_PriorityAdmission p = true ∧ pool_ID p = pool) → is_Some (w !! pool)) ∧
  ((¬ ∃ p, p ∈ pools ∧ pool_PriorityAdmission p = true ∧ pool_ID p = pool) → w !! pool = out !! pool) ∧
  (is_Some (out !! pool) → is_Some (w !! pool)).
Proof.
  induction pools as [|p pools IH]; intros out w H pool; cbn [newAdmissionWaits] in H.
  { injection H as <-. destruct (out !! pool) eqn:E; split_and!; try done; try (by left);
      intros (p & Hp%elem_of_nil & _); done. }
  destruct (pool_PriorityAdmission p) eqn:Ep; cbn [negb] in H.
  - apply obind_Ok in H as (queue & Hq & H). destruct (IH _ _ H pool) as (H1 & H2 & H3 & H4).
    destruct (decide (pool_ID p = pool)) as [<-|Hne].
    + rewrite lookup_insert_eq in H1, H3, H4. destruct (w !! pool_ID p) as [pre|]; [|done].
      split_and!; [|by eauto| |by eauto].
      * destruct H1 as [[= <-]|?]; right; eauto.
      * intros Hn. exfalso. apply Hn. exists p. split_and!; [left|done..].
    + rewrite lookup_insert_ne in H1, H3, H4 by done. split_and!; [done| | |done].
      * intros (q & [->|?]%elem_of_cons & ? & ?); [congruence|]. apply H2. eauto.
      * intros Hn. apply H3. intros (q & ? & ? & ?). apply Hn. exists q. split_and!; [by right|done..].
  - destruct (IH _ _ H pool) as (H1 & H2 & H3 & H4). split_and!; [done| | |done].
    + intros (q & [->|?]%elem_of_cons & ? & ?); [congruence|]. apply H2. eauto.
    + intros Hn. apply H3. intros (q & ? & ? & ?). apply Hn. exists q. split_and!; [by right|done..].
Qed.

(** C38: the waits a plan computes once for each pool, and searches by
    halving, are for every ticket and pool the waits that ticket's own claim
    derives by walking the pool's queue; a pool without priority admission
    makes no one wait. *)
Theorem waits_of_priorityWaiting i w rec : newAdmissionWaits i (pol_Pools (pi_Policy i)) ∅ = Ok w →
  ∀ pool, let waiting := default [] (default ∅ (waits_of w i rec) !! pool) in
  (∀ p, p ∈ pol_Pools (pi_Policy i) → pool_PriorityAdmission p = true → pool_ID p = pool →
     ∃ unobserved, priorityWaiting i rec pool = Ok (waiting, unobserved)) ∧
  ((∀ p, p ∈ pol_Pools (pi_Policy i) → pool_ID p = pool → pool_PriorityAdmission p = false) → waiting = []).
Proof.
  intros Hw pool. destruct (newAdmissionWaits_lookup _ _ _ _ Hw pool) as (H1 & H2 & H3 & _).
  assert (default ∅ (waits_of w i rec) !! pool = (λ pre, waits_prefix pre (admissionRankOf (pi_Attempts i) rec)) <$> w !! pool) as ->.
  { unfold waits_of. destruct (Nat.eqb_spec (size w) 0) as [->%map_size_empty_iff|]; cbn [from_option id].
    - by rewrite !lookup_empty.
    - by rewrite lookup_fmap. }
  split.
  - intros p Hp Ha <-. destruct (H2 ltac:(eauto)) as [pre Hpre]. rewrite Hpre in H1 |- *. cbn [fmap option_fmap option_map from_option id].
    destruct H1 as [H1|(queue & Hq & ->)]; [by rewrite lookup_empty in H1|].
    unfold priorityWaiting. rewrite Hq. cbn [obind]. rewrite waits_prefix_spec by by eapply admissionQueue_sorted.
    eexists. by rewrite <-surjective_pairing.
  - intros Hn. rewrite H3; [by rewrite lookup_empty|]. intros (p & ? & ? & ?). specialize (Hn p). naive_solver congruence.
Qed.

(** ** What a plan selects *)

Definition is_selected (e : PlanEntry) : bool := pl_State e =s PlanSelected.

Definition plan_selected (entries : list PlanEntry) : list PlanEntry := List.filter is_selected entries.

Definition of_pool (pool : string) (entries : list PlanEntry) : list PlanEntry :=
  List.filter (λ s, rec_RequiresPool (pl_Ticket s) =s pool) entries.

(** Nothing refuses the ticket of an entry, nothing reserved or selected
    before it excludes its scope, and there is room for one more attempt. *)
Record Admissible (i : PlanInput) (live : list ReservationEntry) (before : list PlanEntry) (rec : Record_) : Prop := {
  adm_unblocked : claimBlockers i rec = Ok [];
  adm_unheld : record_id rec ∉ pi_WorkStateHeld i ∪ pi_BudgetHeld i ∪ pi_MirrorsDecided i;
  adm_reserved en : en ∈ live → CollideShared (plan_scope rec).1 (en_Resources en) (SharedReservationPaths (pi_Policy i)) = false;
  adm_selected s : s ∈ before → CollideShared (plan_scope rec).1 (pl_Resources s) (SharedReservationPaths (pi_Policy i)) = false;
  adm_capacity : len live + len before < Count_Int (pol_MaxActiveAttempts (pi_Policy i))
}.

(** The pool an entry draws on has a member that no earlier selection took. *)
Definition Pooled (i : PlanInput) (before : list PlanEntry) (rec : Record_) : Prop :=
  if decide (pi_Pool i = ε) then
    rec_RequiresPool rec ≠ ε →
    some (pi_Pools i) = true ∧ (∀ pools, pi_ClaimablePools i = Some pools → contains pools (rec_RequiresPool rec) = true) ∧
    len (of_pool (rec_RequiresPool rec) before) < freePoolMembers i (rec_RequiresPool rec) []
  else len before < poolSlots i.

Lemma planEntry_fields i rec e : planEntry i rec = Ok e →
  ∃ bs, claimBlockers i rec = Ok bs ∧ pl_Ticket e = rec ∧ pl_Resources e = (plan_scope rec).1 ∧
    (bs = [] ∧ pl_State e = ε ∨ bs ≠ [] ∧ pl_State e = PlanBlocked).
Proof.
  unfold planEntry. destruct (plan_scope rec) as [rs c]. intros (bs & Hb & [= <-])%obind_Ok. exists bs.
  split_and!; try done. destruct bs; [by left|by right].
Qed.

(** The deferrals of [choose] keep the ticket and its scope, and select
    nothing. *)
Definition defers (e e' : PlanEntry) : Prop :=
  pl_Ticket e' = pl_Ticket e ∧ pl_Resources e' = pl_Resources e ∧ pl_State e' = pl_State e.

Lemma find_None_iff {A} (f : A → bool) l : List.find f l = None ↔ ∀ x, x ∈ l → f x = false.
Proof.
  split.
  - intros H x Hx%list_elem_of_In. by eapply List.find_none.
  - intros H. destruct (List.find f l) as [x|] eqn:E; [|done]. apply List.find_some in E as [Hx Hf].
    rewrite H in Hf; [done|]. by apply list_elem_of_In.
Qed.

Lemma choose_scope_spec i live e selected : let e' := choose_scope i live e selected in
  pl_Ticket e' = pl_Ticket e ∧ pl_Resources e' = pl_Resources e ∧
  (pl_State e' = PlanSelected ∧
     (∀ en, en ∈ live → CollideShared (pl_Resources e) (en_Resources en) (SharedReservationPaths (pi_Policy i)) = false) ∧
     (∀ s, s ∈ selected → CollideShared (pl_Resources e) (pl_Resources s) (SharedReservationPaths (pi_Policy i)) = false) ∧
     len live + len selected < Count_Int (pol_MaxActiveAttempts (pi_Policy i))
   ∨ pl_State e' = pl_State e ∧ ¬
    ((∀ en, en ∈ live → CollideShared (pl_Resources e) (en_Resources en) (SharedReservationPaths (pi_Policy i)) = false) ∧
     (∀ s, s ∈ selected → CollideShared (pl_Resources e) (pl_Resources s) (SharedReservationPaths (pi_Policy i)) = false) ∧
     len live + len selected < Count_Int (pol_MaxActiveAttempts (pi_Policy i)))).
Proof.
  cbv zeta. unfold choose_scope. cbv zeta.
  destruct (List.find _ live) as [en|] eqn:E1.
  { split_and!; [done..|right]. split; [done|]. intros (H & _). apply List.find_some in E1 as [Hin Hc].
    rewrite H in Hc; [done|by apply list_elem_of_In]. }
  pose proof (proj1 (find_None_iff _ _) E1) as H1. clear E1.
  destruct (List.find _ selected) as [s|] eqn:E2.
  { split_and!; [done..|right]. split; [done|]. intros (_ & H & _). apply List.find_some in E2 as [Hin Hc].
    rewrite H in Hc; [done|by apply list_elem_of_In]. }
  pose proof (proj1 (find_None_iff _ _) E2) as H2. clear E2.
  destruct (Z.leb_spec (Count_Int (pol_MaxActiveAttempts (pi_Policy i))) (len live + len selected)).
  - split_and!; [done..|right]. split; [done|]. intros (_ & _ & ?). lia.
  - split_and!; [done..|left]. split_and!; try done; lia.
Qed.

Lemma choose_requested_spec i e selected waiting :
  match choose_requested i e selected waiting with
  | Some e' => defers e e'
  | None => len selected < poolSlots i
  end.
Proof.
  unfold choose_requested. cbv zeta. destruct (negb _); [done|].
  destruct (Z.leb_spec (poolSlots i) (len selected)); [done|lia].
Qed.

Lemma choose_required_spec i e selected waiting :
  match choose_required i e selected waiting with
  | Some e' => defers e e'
  | None => Pooled i selected (pl_Ticket e) ∨ pi_Pool i ≠ ε
  end.
Proof.
  unfold choose_required, Pooled, defaultPoolFree. destruct (pi_Pools i) as [state|]; cbn [negb orb some]; [|done].
  destruct (pi_ClaimablePools i) as [pools|].
  1: destruct (contains pools _) eqn:Ec; cbn [negb]; [|done].
  all: destruct (negb (_ =s ε)); [done|];
    match goal with |- context [?a <=? ?b] => destruct (Z.leb_spec a b) end; [by destruct (_ && _)|].
  all: destruct (decide _) as [Hp|]; [left|by right]; intros _; split_and!; try done; intros ? [= <-]; done.
Qed.

(** [choose] selects when nothing defers the entry. *)
Lemma choose_spec i live e selected waiting : let e' := choose i live e selected waiting in
  pl_Ticket e' = pl_Ticket e ∧ pl_Resources e' = pl_Resources e ∧
  (pl_State e' = PlanSelected →
     (∀ en, en ∈ live → CollideShared (pl_Resources e) (en_Resources en) (SharedReservationPaths (pi_Policy i)) = false) ∧
     (∀ s, s ∈ selected → CollideShared (pl_Resources e) (pl_Resources s) (SharedReservationPaths (pi_Policy i)) = false) ∧
     len live + len selected < Count_Int (pol_MaxActiveAttempts (pi_Policy i)) ∧ Pooled i selected (pl_Ticket e)) ∧
  (pi_Pool i = ε → rec_RequiresPool (pl_Ticket e) = ε →
     (∀ en, en ∈ live → CollideShared (pl_Resources e) (en_Resources en) (SharedReservationPaths (pi_Policy i)) = false) →
     (∀ s, s ∈ selected → CollideShared (pl_Resources e) (pl_Resources s) (SharedReservationPaths (pi_Policy i)) = false) →
     len live + len selected < Count_Int (pol_MaxActiveAttempts (pi_Policy i)) → pl_State e' = PlanSelected).
Proof.
  cbv zeta. unfold choose. set (d := _ <| pl_Reason := _ |>).
  assert (pl_State d = PlanDeferred ∧ pl_Ticket d = pl_Ticket e ∧ pl_Resources d = pl_Resources e) as (Hd & Ht & Hr) by done.
  clearbody d. rewrite <-Ht, <-Hr. clear e Ht Hr.
  assert (∀ e', defers d e' → pl_State e' ≠ PlanSelected) as Hno by (intros e' (_ & _ & ->); by rewrite Hd).
  destruct (choose_scope_spec i live d selected) as (St & Sr & S).
  assert (pl_State d ≠ PlanSelected) as Hne by (by rewrite Hd).
  destruct (String.eqb_spec (pi_Pool i) ε) as [Ep|Ep]; cbn [negb].
  - destruct (String.eqb_spec (rec_RequiresPool (pl_Ticket d)) ε) as [Er|Er]; cbn [negb].
    + split_and!; [done..| |].
      * intros Hs. destruct S as [(_ & ? & ? & ?)|[He _]]; [|congruence]. split_and!; try done.
        unfold Pooled. rewrite decide_True by done. done.
      * intros _ _ H1 H2 H3. destruct S as [[? _]|[_ Hn]]; [done|]. tauto.
    + pose proof (choose_required_spec i d selected waiting) as Hc.
      destruct (choose_required _ _ _ _) as [e'|].
      * destruct Hc as (? & ? & ?) eqn:E. split_and!; try done. intros Hs. by destruct (Hno e').
      * split_and!; try done. intros Hs. destruct S as [(_ & ? & ? & ?)|[He _]]; [|congruence]. destruct Hc; [|done]. by split_and!.
  - pose proof (choose_requested_spec i d selected waiting) as Hc.
    destruct (choose_requested _ _ _ _) as [e'|].
    + destruct Hc as (? & ? & ?) eqn:E. split_and!; try done. intros Hs. by destruct (Hno e').
    + split_and!; try done. intros Hs. destruct S as [(_ & ? & ? & ?)|[He _]]; [|congruence]. split_and!; try done.
      unfold Pooled. by rewrite decide_False.
Qed.

(** The decision on an unblocked entry. *)
Lemma plan_decide_spec i live waits wl rec e selected e' : plan_decide i live waits wl rec e selected = Ok e' →
  pl_Ticket e = rec →
  pl_Ticket e' = pl_Ticket e ∧ pl_Resources e' = pl_Resources e ∧
  (pl_State e' = PlanSelected → (record_id rec ∉ pi_WorkStateHeld i ∪ pi_BudgetHeld i ∪ pi_MirrorsDecided i) ∧
     ∃ waiting, e' = choose i live e selected waiting) ∧
  (record_id rec ∉ pi_WorkStateHeld i ∪ pi_BudgetHeld i ∪ pi_MirrorsDecided i → is_empty (default [] wl) = true →
     ∃ waiting, e' = choose i live e selected waiting).
Proof.
  intros H Ht. unfold plan_decide in H. cbv zeta in H.
  repeat match type of H with
  | (if bool_decide ?P then _ else _) = _ =>
      destruct (bool_decide_reflect P);
        [injection H as <-; split_and!; [done..| |]; [by intros [=]|intros Hn; exfalso; apply Hn; set_solver]|]
  end.
  assert (record_id rec ∉ pi_WorkStateHeld i ∪ pi_BudgetHeld i ∪ pi_MirrorsDecided i) as Hn by set_solver.
  assert (∀ w, pl_Ticket (choose i live e selected w) = pl_Ticket e ∧ pl_Resources (choose i live e selected w) = pl_Resources e) as Hc
    by (intros w; destruct (choose_spec i live e selected w) as (? & ? & _); done).
  unfold waitlistDefers in H. destruct (is_empty (default [] wl)) eqn:Ew.
  - destruct wl as [l|], (waits_of waits i rec) as [waiting|];
      first [injection H as <- | apply obind_Ok in H as (ys & _ & [= <-])]; (split_and!; [apply Hc..| |]); eauto.
  - cbv zeta in H.
    match type of H with context [match ?x with [] => None | _ => _ end] => destruct x as [|first ahead] eqn:Ea end.
    2: destruct (_ || _) in H.
    all: try (injection H as <-; split_and!; [done..| |]; [by intros [=]|done]).
    all: destruct wl as [l|], (waits_of waits i rec) as [waiting|];
      first [injection H as <- | apply obind_Ok in H as (ys & _ & [= <-])]; (split_and!; [apply Hc..| |]); eauto; done.
Qed.

Lemma plan_selected_cons e l : plan_selected (e :: l) = if is_selected e then e :: plan_selected l else plan_selected l.
Proof. done. Qed.

Lemma plan_selected_app a b : plan_selected (a ++ b) = plan_selected a ++ plan_selected b.
Proof. apply List.filter_app. Qed.

(** Every entry of the loop is decided against the selections before it. *)
Lemma plan_loop_spec i live waits wl recs : ∀ selected out, plan_loop i live waits wl recs selected = Ok out →
  pl_Ticket <$> out = recs ∧
  ∀ k e, out !! k = Some e → let before := selected ++ plan_selected (take k out) in
    pl_Resources e = (plan_scope (pl_Ticket e)).1 ∧
    (is_selected e = true → Admissible i live before (pl_Ticket e) ∧ Pooled i before (pl_Ticket e)) ∧
    (pi_Pool i = ε → rec_RequiresPool (pl_Ticket e) = ε → is_empty (default [] wl) = true →
       Admissible i live before (pl_Ticket e) → is_selected e = true).
Proof.
  induction recs as [|rec recs IH]; intros selected out H; cbn [plan_loop] in H; [by injection H as <-|].
  apply obind_Ok in H as (e0 & He0 & (e & He & (out' & Hout & [= <-])%obind_Ok)%obind_Ok).
  destruct (planEntry_fields _ _ _ He0) as (bs & Hbs & Ht0 & Hr0 & Hst).
  fold (is_selected e) in Hout. destruct (IH _ _ Hout) as [Htk Hk]. clear IH.
  assert (pl_Ticket e = rec ∧ pl_Resources e = (plan_scope rec).1 ∧
    (is_selected e = true → Admissible i live selected rec ∧ Pooled i selected rec) ∧
    (pi_Pool i = ε → rec_RequiresPool rec = ε → is_empty (default [] wl) = true →
       Admissible i live selected rec → is_selected e = true)) as (Het & Her & Hsel & Hcomp).
  { destruct Hst as [[-> Hs]|[Hb Hs]]; rewrite Hs in He; simpl (_ =s _) in He; cbv iota in He.
    - destruct (plan_decide_spec _ _ _ _ _ _ _ _ He Ht0) as (T & R & S & C). unfold is_selected. rewrite String.eqb_eq.
      split_and!; [congruence|congruence| |].
      + intros Hsel. destruct (S Hsel) as (Hn & w & ->). destruct (choose_spec i live e0 selected w) as (_ & _ & Hc & _).
        destruct (Hc Hsel) as (? & ? & ? & ?). rewrite Hr0, Ht0 in *. by repeat (split; try done).
      + intros Hp Hq Hw [A1 A2 A3 A4 A5]. destruct (C A2 Hw) as (w & ->).
        destruct (choose_spec i live e0 selected w) as (_ & _ & _ & Hc). rewrite Hr0, Ht0 in Hc. by apply Hc.
    - injection He as <-. split_and!; [done..| |]; unfold is_selected; rewrite Hs; [done|]. intros _ _ _ [A1 _ _ _ _]. congruence. }
  split; [by rewrite fmap_cons, Het, Htk|].
  intros [|k] x Hx; cbn [lookup list_lookup take] in Hx |- *; cbv zeta.
  - injection Hx as <-. cbn [plan_selected List.filter]. by rewrite app_nil_r, Het.
  - specialize (Hk k x Hx). cbv zeta in Hk. rewrite plan_selected_cons.
    destruct (is_selected e) eqn:Es; [|done]. by rewrite <-!app_assoc in Hk.
Qed.

(** ** The order of a plan *)

Lemma open_tickets_spec inv ids : ∀ out, open_tickets inv ids = Ok out →
  ∀ rec, rec ∈ out ↔ ∃ id, id ∈ ids ∧ get_record inv id = Ok (Some rec) ∧ (rec_Status rec = StatusOpen ∨ rec_Status rec = StatusHeld).
Proof.
  induction ids as [|id ids IH]; intros out H rec; cbn [open_tickets] in H.
  { injection H as <-. split; [by intros ?%elem_of_nil|]. by intros (? & ?%elem_of_nil & _). }
  apply obind_Ok in H as ([r|] & Hr & H); [|done]. apply obind_Ok in H as (out' & Ho & [= <-]). specialize (IH _ Ho rec).
  transitivity ((rec = r ∧ (rec_Status r = StatusOpen ∨ rec_Status r = StatusHeld)) ∨ rec ∈ out').
  - rewrite <-!String.eqb_eq, <-orb_true_iff. destruct (_ || _); rewrite ?elem_of_cons; naive_solver.
  - rewrite IH. setoid_rewrite elem_of_cons. split.
    + intros [[-> ?]|(x & ? & ? & ?)]; [exists id|exists x]; auto.
    + intros (x & [->|?] & Hx & ?); [left|right; eauto]. rewrite Hr in Hx. by injection Hx as ->.
Qed.

Lemma planTickets_spec inv recs : planTickets inv = Ok recs →
  StronglySorted (λ a b, planLess b a = false) recs ∧
  ∀ rec, rec ∈ recs ↔ ∃ id, id ∈ IDs inv ∧ get_record inv id = Ok (Some rec) ∧
    (rec_Status rec = StatusOpen ∨ rec_Status rec = StatusHeld).
Proof.
  unfold planTickets. intros (out & Ho & [= <-])%obind_Ok. split; [apply (SliceStable_sorted planLess)|].
  intros rec. rewrite SliceStable_perm. by apply open_tickets_spec.
Qed.

(** ** The plan *)

Lemma PriorityFirst_inv i p set : pi_Reservations i = Some set → PriorityFirst i = Ok p →
  ∃ waits wl recs, planWaitlist i = Ok wl ∧ planTickets (pi_Tickets i) = Ok recs ∧
    plan_loop i (rs_Entries set) waits wl recs [] = Ok (tp_Entries p).
Proof.
  intros Hs H. unfold PriorityFirst in H. rewrite Hs in H. cbv zeta in H.
  apply obind_Ok in H as (waits & _ & (wl & Hwl & (recs & Hr & (entries & He & [= <-])%obind_Ok)%obind_Ok)%obind_Ok).
  exists waits, wl, recs. by split_and!.
Qed.

(** C5: a plan considers its tickets in order, each against the selections
    before it: it selects only a ticket that nothing refuses, whose scope no
    reservation and no earlier selection excludes, with room for one more
    attempt and a free member of the pool it draws on; and a ticket that draws
    on no pool it always selects when that is so. *)
Theorem PriorityFirst_selects i p set : pi_Reservations i = Some set → PriorityFirst i = Ok p →
  ∀ k e, tp_Entries p !! k = Some e → let before := plan_selected (take k (tp_Entries p)) in
  pl_Resources e = (plan_scope (pl_Ticket e)).1 ∧
  (is_selected e = true → Admissible i (rs_Entries set) before (pl_Ticket e) ∧ Pooled i before (pl_Ticket e)) ∧
  (pi_Pool i = ε → rec_RequiresPool (pl_Ticket e) = ε →
     Admissible i (rs_Entries set) before (pl_Ticket e) → is_selected e = true).
Proof.
  intros Hs H. destruct (PriorityFirst_inv _ _ _ Hs H) as (waits & wl & recs & Hwl & _ & Hl).
  intros k e Hk. destruct (plan_loop_spec _ _ _ _ _ _ _ Hl) as [_ Hspec]. destruct (Hspec k e Hk) as (Hr & Hsel & Hc).
  cbn [app] in *. cbv zeta. split_and!; [done..|]. intros Hp Hq. apply Hc; [done..|].
  unfold planWaitlist in Hwl. destruct (pi_Pools i); [|by injection Hwl as <-].
  rewrite Hp, orb_true_r in Hwl. by injection Hwl as <-.
Qed.

(** C40: the tickets of a plan are the open and held ones of the inventory,
    each before every ticket of a lower priority, a later order or, those
    being equal, a later id. *)
Theorem PriorityFirst_order i p : PriorityFirst i = Ok p →
  StronglySorted (λ a b, planLess b a = false) (pl_Ticket <$> tp_Entries p) ∧
  ∀ rec, rec ∈ pl_Ticket <$> tp_Entries p ↔ ∃ id, id ∈ IDs (pi_Tickets i) ∧
    get_record (pi_Tickets i) id = Ok (Some rec) ∧ (rec_Status rec = StatusOpen ∨ rec_Status rec = StatusHeld).
Proof.
  intros H. destruct (pi_Reservations i) as [set|] eqn:Hs; [|unfold PriorityFirst in H; by rewrite Hs in H].
  destruct (PriorityFirst_inv _ _ _ Hs H) as (waits & wl & recs & _ & Hr & Hl).
  destruct (plan_loop_spec _ _ _ _ _ _ _ Hl) as [-> _]. by apply planTickets_spec.
Qed.

(** The element a filter keeps at a position, where it was in the list. *)
Lemma filter_lookup {A} (f : A → bool) l : ∀ n x, List.filter f l !! n = Some x →
  ∃ k, l !! k = Some x ∧ f x = true ∧ List.filter f (take k l) = take n (List.filter f l).
Proof.
  induction l as [|y l IH]; intros n x Hx; [done|]. cbn [List.filter] in Hx |- *. destruct (f y) eqn:E.
  - destruct n as [|n]; [injection Hx as <-; by exists 0%nat|].
    destruct (IH n x Hx) as (k & Hk & Hf & Ht). exists (S k). cbn [take List.filter]. by rewrite E, Ht.
  - destruct (IH n x Hx) as (k & Hk & Hf & Ht). exists (S k). cbn [take List.filter]. by rewrite E, Ht.
Qed.

(** What holds of every element after those before it bounds their number. *)
Lemma bounded_length {A} (l : list A) (n : Z) :
  (∀ k x, l !! k = Some x → Z.of_nat k < n) → l = [] ∨ len l ≤ n.
Proof.
  intros H. destruct l as [|x l]; [by left|right].
  destruct (lookup_lt_is_Some_2 (x :: l) (length l)) as [y Hy]; [cbn; lia|]. apply H in Hy. unfold len. cbn [length]. lia.
Qed.

(** C37: the selections of a plan can all be claimed: no two exclude each other
    and none excludes a reservation, with the live ones they are no more than
    the policy allows, and no more of them draw on a pool than it has free
    members. *)
Theorem PriorityFirst_safe i p set : pi_Reservations i = Some set → PriorityFirst i = Ok p →
  let selected := plan_selected (tp_Entries p) in
  let excludes a b := CollideShared a b (SharedReservationPaths (pi_Policy i)) in
  (∀ j k a b, selected !! j = Some a → selected !! k = Some b → j ≠ k → excludes (pl_Resources a) (pl_Resources b) = false) ∧
  (∀ a en, a ∈ selected → en ∈ rs_Entries set → excludes (pl_Resources a) (en_Resources en) = false) ∧
  (selected = [] ∨ len (rs_Entries set) + len selected ≤ Count_Int (pol_MaxActiveAttempts (pi_Policy i))) ∧
  (pi_Pool i ≠ ε → selected = [] ∨ len selected ≤ poolSlots i) ∧
  (pi_Pool i = ε → ∀ pool, pool ≠ ε → of_pool pool selected = [] ∨ len (of_pool pool selected) ≤ freePoolMembers i pool []).
Proof.
  intros Hs H. cbv zeta. destruct (PriorityFirst_inv _ _ _ Hs H) as (waits & wl & recs & _ & _ & Hl).
  destruct (plan_loop_spec _ _ _ _ _ _ _ Hl) as [_ Hspec].
  set (selected := plan_selected (tp_Entries p)).
  assert (∀ n e, selected !! n = Some e → pl_Resources e = (plan_scope (pl_Ticket e)).1 ∧
    Admissible i (rs_Entries set) (take n selected) (pl_Ticket e) ∧ Pooled i (take n selected) (pl_Ticket e)) as Hn.
  { intros n e He. apply filter_lookup in He as (k & Hk & Hf & Ht). destruct (Hspec k e Hk) as (Hr & Hsel & _).
    cbn [app] in Hsel. unfold plan_selected in Hsel at 1 2. rewrite Ht in Hsel. split; [done|]. by apply Hsel. }
  assert (∀ n e, selected !! n = Some e → len (take n selected) = Z.of_nat n) as Hlen.
  { intros n e He. apply lookup_lt_Some in He. unfold len. rewrite length_take. lia. }
  assert (∀ j k a b, (j < k)%nat → selected !! j = Some a → selected !! k = Some b →
    CollideShared (pl_Resources b) (pl_Resources a) (SharedReservationPaths (pi_Policy i)) = false) as Hlt.
  { intros j k a b Hjk Ha Hb. destruct (Hn k b Hb) as (-> & [_ _ _ Hd _] & _). apply Hd.
    apply list_elem_of_lookup_2 with j. by rewrite lookup_take_lt. }
  split_and!.
  - intros j k a b Ha Hb Hjk. destruct (decide (j < k)%nat); [rewrite CollideShared_sym; by eapply Hlt|].
    apply (Hlt k j); [lia|done..].
  - intros a en [n Ha]%list_elem_of_lookup Hen. destruct (Hn n a Ha) as (-> & [_ _ Hd _ _] & _). by apply Hd.
  - destruct (bounded_length selected (Count_Int (pol_MaxActiveAttempts (pi_Policy i)) - len (rs_Entries set))) as [?|?];
      [|by left|right; lia].
    intros k x Hx. destruct (Hn k x Hx) as (_ & [_ _ _ _ Hc] & _). rewrite (Hlen _ _ Hx) in Hc. lia.
  - intros Hp. apply bounded_length. intros k x Hx. destruct (Hn k x Hx) as (_ & _ & Hc). unfold Pooled in Hc.
    rewrite decide_False in Hc by done. by rewrite (Hlen _ _ Hx) in Hc.
  - intros Hp pool Hne. apply bounded_length. intros k x Hx. apply lookup_lt_Some in Hx as Hk.
    apply filter_lookup in Hx as (n & Hx & Hf%String.eqb_eq & Ht).
    destruct (Hn n x Hx) as (_ & _ & Hc). unfold Pooled in Hc. rewrite decide_True in Hc by done. rewrite Hf in Hc.
    destruct (Hc Hne) as (_ & _ & Hlim). unfold of_pool in Hlim at 1. rewrite Ht in Hlim. revert Hlim. unfold len.
    rewrite length_take. unfold of_pool in Hk |- *. lia.
Qed.

(** ** The last attempt of a ticket *)

(** [lastAttemptOf] is an attempt of the ticket whose generation no other
    attempt of it exceeds, in whatever order the map is walked; there is none
    only when the ticket has no attempt. *)
Lemma lastAttemptOf_spec attempts ticketID :
  let of_ticket a := TicketID_Raw (atp_TicketID a) = ticketID in
  match lastAttemptOf attempts ticketID with
  | Some a => (∃ k, attempts !! k = Some a) ∧ of_ticket a ∧
      ∀ k b, attempts !! k = Some b → of_ticket b → Size_Uint64 (atp_Generation b) ≤ Size_Uint64 (atp_Generation a)
  | None => ∀ k b, attempts !! k = Some b → ¬ of_ticket b
  end.
Proof.
  cbv zeta. unfold lastAttemptOf. revert attempts.
  refine (map_fold_weak_ind (λ last attempts, match last with
    | Some a => (∃ k, attempts !! k = Some a) ∧ _ ∧ ∀ k b, attempts !! k = Some b → _ → _
    | None => ∀ k b, attempts !! k = Some b → _ end) _ _ _ _); [by intros k b; rewrite lookup_empty|].
  intros k a m last Hk IH. unfold newer. destruct (String.eqb_spec (TicketID_Raw (atp_TicketID a)) ticketID) as [E|E]; cbn [andb].
  - destruct last as [l|].
    + destruct IH as ((kl & Hl) & El & Hmax). destruct (Z.ltb_spec (Size_Uint64 (atp_Generation l)) (Size_Uint64 (atp_Generation a))).
      * split_and!; [exists k; by rewrite lookup_insert_eq|done|]. intros k' b [[<- <-]|[? Hb]]%lookup_insert_Some Et; [lia|].
        specialize (Hmax _ _ Hb Et). lia.
      * split_and!; [exists kl; rewrite lookup_insert_ne; [done|congruence]|done|].
        intros k' b [[<- <-]|[? Hb]]%lookup_insert_Some Et; [lia|]. by apply (Hmax _ _ Hb).
    + split_and!; [exists k; by rewrite lookup_insert_eq|done|]. intros k' b [[<- <-]|[? Hb]]%lookup_insert_Some Et; [lia|].
      by destruct (IH _ _ Hb).
  - destruct last as [l|].
    + destruct IH as ((kl & Hl) & El & Hmax). split_and!; [exists kl; rewrite lookup_insert_ne; [done|congruence]|done|].
      intros k' b [[<- <-]|[? Hb]]%lookup_insert_Some Et; [done|]. by apply (Hmax _ _ Hb).
    + intros k' b [[<- <-]|[? Hb]]%lookup_insert_Some; [done|]. by eapply IH.
Qed.

(** ** The authors a claim excludes *)

Lemma elem_of_sorted_set x l : x ∈ sorted_set l ↔ x ∈ l.
Proof. unfold sorted_set, SortStrings. rewrite elem_of_isort, elem_of_elements, elem_of_list_to_set. done. Qed.

Lemma elem_of_ticketGenerations g attempts id : g ∈ ticketGenerations attempts id ↔
  ∃ k a, attempts !! k = Some a ∧ TicketID_Raw (atp_TicketID a) = id ∧ g ∈ endedGenerations a.
Proof.
  unfold ticketGenerations. rewrite SliceStable_perm, list_elem_of_In, in_flat_map. split.
  - intros ([k a] & Hin%list_elem_of_In%elem_of_map_to_list & Hg). cbn [snd] in Hg.
    destruct (String.eqb_spec (TicketID_Raw (atp_TicketID a)) id); [|done]. exists k, a. by rewrite list_elem_of_In.
  - intros (k & a & Hk & <- & Hg). exists (k, a). rewrite <-!list_elem_of_In, elem_of_map_to_list. split; [done|].
    cbn [snd]. by rewrite String.eqb_refl.
Qed.

(** A stage that writes nothing of the candidate. *)
Definition reviewing (stage : option string) : Prop := stage = Some "review" ∨ stage = Some "integrate".

(** What a walk of every generation that succeeds says of each of them. *)
Definition author_of (authors : list Author) (cover : bool) (g : endedGeneration) : Prop :=
  match eg_history g with
  | None => cover = true
  | Some h =>
      reviewing (gh_Stage h) ∨
      match gh_MemberID h with
      | Some m => is_Some (gh_Stage h) ∧ mkAuthor (eg_attemptID g) (eg_generation g) (default ε (gh_PoolID h)) m ∈ authors
      | None => cover = true
      end
  end.

Lemma author_of_cons authors cover g a : author_of authors cover g → author_of (a :: authors) cover g.
Proof.
  unfold author_of. destruct (eg_history g) as [h|]; [|done]. destruct (gh_MemberID h); [|done].
  intros [?|[? ?]]; [by left|right]. split; [done|by right].
Qed.

(** A generation that records a member of a stage that writes. *)
Definition authored (g : endedGeneration) : Prop :=
  ∃ h, eg_history g = Some h ∧ ¬ reviewing (gh_Stage h) ∧ is_Some (gh_Stage h) ∧ is_Some (gh_MemberID h).

(** The walk reaches every generation, or in the mode of the latest author
    each one up to it. *)
Definition reached (mode : string) (newer : list endedGeneration) : Prop :=
  mode ≠ ExcludeAuthorsLatest ∨ ∀ g, g ∈ newer → ¬ authored g.

Lemma reached_cons mode g newer : reached mode (g :: newer) → reached mode newer ∧ (mode = ExcludeAuthorsLatest → ¬ authored g).
Proof. intros [Hm|Hn]; split; [by left|done|right; intros; apply Hn; by right|intros _; apply Hn; by left]. Qed.

Lemma derive_loop_reached mode cover older : ∀ newer g, reached mode newer → ∀ authors names,
  derive_loop mode cover (newer ++ g :: older) = inr (authors, names) → author_of authors cover g.
Proof.
  assert (∀ gens n why authors names, (if negb cover then inl why
     else match derive_loop mode cover gens with inl w => inl w | inr (a, l) => inr (a, n :: l) end) = inr (authors, names) →
     cover = true ∧ ∃ l : list string, derive_loop mode cover gens = inr (authors, l)) as Hcov.
  { intros gens n why authors names. destruct cover; [|done]. cbn [negb]. destruct (derive_loop mode true gens) as [|[? ?]]; [done|].
    intros [= <- <-]. eauto. }
  induction newer as [|x newer IH]; intros g Hr authors names H; cbn [app derive_loop] in H; cbv zeta in H.
  - unfold author_of. destruct (eg_history g) as [h|] eqn:Eh; [destruct (gh_Stage h) as [stage|] eqn:Es|].
    + destruct (_ || _) eqn:Er.
      * left. unfold reviewing. apply orb_true_iff in Er as [E%String.eqb_eq|E%String.eqb_eq]; subst; auto.
      * right. destruct (gh_MemberID h) as [m|]; [|by apply Hcov in H as [-> _]]. split; [by eexists|].
        destruct (mode =s ExcludeAuthorsLatest); [injection H as <- <-; by left|].
        destruct (derive_loop mode cover older) as [|[au nm]]; [done|]. injection H as <- <-. by left.
    + right. destruct (gh_MemberID h) as [m|]; cbn [some] in H; [done|]. by apply Hcov in H as [-> _].
    + by apply Hcov in H as [-> _].
  - apply reached_cons in Hr as [Hr Hx].
    destruct (eg_history x) as [h|] eqn:Eh; [destruct (gh_Stage h) as [stage|] eqn:Es|].
    + destruct (_ || _) eqn:Er; [by eapply IH|]. destruct (gh_MemberID h) as [m|] eqn:Em; [|apply Hcov in H as [_ [l H]]; by eapply IH].
      destruct (String.eqb_spec mode ExcludeAuthorsLatest) as [El|].
      * destruct (Hx El). exists h. rewrite Es, Em. split_and!; [done| |by eexists..]. unfold reviewing.
        apply orb_false_iff in Er as [E1%String.eqb_neq E2%String.eqb_neq]. intros [[= ->]|[= ->]]; done.
      * destruct (derive_loop mode cover (newer ++ g :: older)) as [|[au nm]] eqn:Ed; [done|]. injection H as <- <-.
        apply author_of_cons. by eapply IH.
    + destruct (gh_MemberID h) as [m|]; cbn [some] in H; [done|]. apply Hcov in H as [_ [l H]]. by eapply IH.
    + apply Hcov in H as [_ [l H]]. by eapply IH.
Qed.

Lemma OrderedPoolMembers_excluded p stage excluded m : m ∈ excluded → m ∉ OrderedPoolMembers p stage excluded.
Proof.
  intros Hm. unfold OrderedPoolMembers.
  assert (contains excluded m = true) as Hc.
  { unfold contains. apply existsb_exists. exists m. split; [by apply list_elem_of_In|apply String.eqb_refl]. }
  assert (∀ f l, m ∉ List.filter (λ x, (f x : bool) && negb (contains excluded x)) l) as H.
  { intros f l [_ Hf]%list_elem_of_In%filter_In. by rewrite Hc, andb_false_r in Hf. }
  rewrite elem_of_app. intros [Hin|Hin]; [|by apply H in Hin].
  destruct (negb _); [by apply H in Hin|by apply elem_of_nil in Hin].
Qed.

#[export] Instance generation_order : WeakOrder (λ x y, Size_Uint64 (eg_generation y) <? Size_Uint64 (eg_generation x)).
Proof. split; intros x y; [lia|intros z; lia]. Qed.

(** The generations of a ticket are walked from the newest. *)
Definition newer_first (x y : endedGeneration) : Prop := Size_Uint64 (eg_generation y) ≤ Size_Uint64 (eg_generation x).

Lemma ticketGenerations_newest attempts id : StronglySorted newer_first (ticketGenerations attempts id).
Proof.
  unfold ticketGenerations. eapply StronglySorted_weaken; [|apply SliceStable_sorted, generation_order].
  intros x y _ _ H%Z.ltb_ge. exact H.
Qed.

(** The walk reaches a generation: it walks all, or in the mode LATEST none
    before it has an author. *)
Definition walked (mode : string) (gens : list endedGeneration) (g : endedGeneration) : Prop :=
  ∃ newer older, gens = newer ++ g :: older ∧ reached mode newer.

(** C39: excluding the authors of a ticket, from a pool, keeps every member of
    the pool that held a generation of the ticket outside review and integration
    from every list of candidates of the pool, and in the mode LATEST every such
    member up to the newest generation that has an author; without an explicit
    set of members it is refused unless each generation walked records who held
    it.  The generations are walked from the newest. *)
Theorem DeriveAuthors_excludes attempts ticketID mode pool explicit x :
  DeriveAuthors attempts ticketID mode pool explicit = inr x →
  StronglySorted newer_first (ticketGenerations attempts ticketID) ∧
  ∀ k a g, attempts !! k = Some a → TicketID_Raw (atp_TicketID a) = ticketID → g ∈ endedGenerations a →
  mode ≠ ExcludeAuthorsLatest ∨ walked mode (ticketGenerations attempts ticketID) g →
  (explicit = [] → ∃ h, eg_history g = Some h ∧ (reviewing (gh_Stage h) ∨ is_Some (gh_Stage h) ∧ is_Some (gh_MemberID h))) ∧
  (∀ h m p stage, eg_history g = Some h → ¬ reviewing (gh_Stage h) → gh_PoolID h = Some pool → gh_MemberID h = Some m →
     m ∈ ax_Excluded x ∧ m ∉ OrderedPoolMembers p stage (ax_Excluded x)) ∧
  (∀ m p stage, m ∈ explicit → m ∉ OrderedPoolMembers p stage (ax_Excluded x)).
Proof.
  intros H. split; [apply ticketGenerations_newest|]. intros k a g Hk Ht Hg Hm.
  assert (walked mode (ticketGenerations attempts ticketID) g) as (newer & older & Hsplit & Hr).
  { destruct Hm as [Hm|Hm]; [|done]. assert (g ∈ ticketGenerations attempts ticketID) as Hin by (apply elem_of_ticketGenerations; eauto).
    apply list_elem_of_split in Hin as (newer & older & ->). exists newer, older. split; [done|by left]. }
  unfold DeriveAuthors in H. rewrite Hsplit in H.
  destruct (derive_loop _ _ _) as [|[authors names]] eqn:Ed; [done|]. injection H as <-. cbn [ax_Excluded].
  apply derive_loop_reached in Ed as Ha; [|done]. unfold author_of in Ha. split_and!.
  - intros ->. destruct (eg_history g) as [h|]; [|done]. exists h. split; [done|].
    destruct Ha as [?|Ha]; [by left|right]. destruct (gh_MemberID h); [|done]. destruct Ha. eauto.
  - intros h m p stage Eh Hnr Ep Em. rewrite Eh, Em, Ep in Ha. destruct Ha as [?|[_ Ha]]; [done|]. cbn [from_option id] in Ha.
    assert (m ∈ sorted_set (explicit ++ (au_MemberID <$> filter (λ a, au_PoolID a = pool) authors))) as Hin.
    { apply elem_of_sorted_set, elem_of_app. right. apply list_elem_of_fmap.
      exists (mkAuthor (eg_attemptID g) (eg_generation g) pool m). split; [done|]. by apply list_elem_of_filter. }
    split; [done|]. by apply OrderedPoolMembers_excluded.
  - intros m p stage Hin. apply OrderedPoolMembers_excluded, elem_of_sorted_set, elem_of_app. by left.
Qed.

(** ** A small plan *)

Definition sample_scoped (local priority pool : string) (paths : list string) : Record_ :=
  (sample_record local priority []) <| rec_RequiresPool := pool |>
    <| rec_Effects := {| eff_Coverage := "QUALIFIED"; eff_TouchPaths := paths; eff_Resources := []; eff_ExternalUnbounded := false;
                         eff_VerdictPaths := None |} |>.

Definition sample_pool : Pool := mkPool "gpu" ["m1"; "m2"] ∅ ∅ true 0 0 [] None.

Definition planning_policy : Policy :=
  mkPolicy ∅ [] [sample_pool] None None None "3" "8" [] "3" "WHOLE_REPOSITORY" None ε None None ε.

Definition planning_queue : Queue :=
  mkQueue sample_queue "repo" "TKT" "1" "0" "corvint" None "main" true None None {| wb_Reason := "NONE"; wb_Since := None |}.

(** [b] is under the path of [a]; [c] needs a pool and [d] comes last. *)
Definition planning_tickets : Inventory :=
  match NewInventory sample_queue [sample_scoped "d" "P2" ε ["lib"]; sample_scoped "b" "P1" ε ["src/a/b"];
                                   sample_scoped "c" "P1" "gpu" ["docs"]; sample_scoped "a" "P0" ε ["src/a/"]] with
  | Ok inv => inv
  | _ => sample_inventory
  end.

Definition planning_pools : PoolState := mkPools sample_queue [] [] [] [] [].

Definition no_reservations : ReservationSet := mkReservations sample_queue [].

Definition planning_input (attempts : gmap string Attempt) : PlanInput :=
  mkPlanInput ε ε None ε (Some planning_pools) ε planning_queue planning_policy planning_tickets false (Some no_reservations)
    attempts None ∅ ∅ ∅ ε.

Definition planned_sample : TicketPlan :=
  match PriorityFirst (planning_input ∅) with Ok p => p | _ => mkPlan ε ε [] [] end.


(** An attempt of [a] that [m1] implemented and handed off. *)
Definition sample_attempt : Attempt :=
  mkAttempt None None None None None [] ε ε None None (Some {| ra_FailedOrUnknown := false; ra_Disposition := CodeHandoff |}) ε None
    "implement" (Some (mkAllocation "gpu" "m1" "alloc" ε "1" None)) "attempt:x:q:0" (sample_id "a") "1" ε "2" "CANCELLED" "4" None
    CodeDevelopmentMode None ε ε RuntimeExternalAgent ε ε ε None None None None ε None "0" [] "1" "0" ∅ [] [] None ε
    [mkPrior "1" ε "2" (Some (mkHistory (Some "implement") (Some "gpu") (Some "m2") ε ε None))] None None.

Definition sample_attempts : gmap string Attempt := {["attempt:x:q:0" := sample_attempt]}.

Definition excluding (m : string + AuthorExclusion) : list string := match m with inr x => ax_Excluded x | inl _ => [] end.

Definition sample_exclusion : AuthorExclusion :=
  match DeriveAuthors sample_attempts "ticket:x:q:a" ExcludeAuthorsAll "gpu" [] with inr x => x | inl _ => mkExclusion ε [] [] [] end.

Lemma planned_sample_Ok : PriorityFirst (planning_input ∅) = Ok planned_sample.
Proof. vm_compute. reflexivity. Qed.

Lemma PriorityFirst_selects_witness :
  PriorityFirst (planning_input ∅) = Ok planned_sample ∧
  map (λ e, (entry_id e, pl_State e)) (tp_Entries planned_sample) =
    [("ticket:x:q:a", PlanSelected); ("ticket:x:q:b", PlanDeferred); ("ticket:x:q:c", PlanSelected); ("ticket:x:q:d", PlanSelected)] ∧
  match tp_Entries planned_sample !! 3%nat with
  | Some e => Admissible (planning_input ∅) [] (plan_selected (take 3 (tp_Entries planned_sample))) (pl_Ticket e)
  | None => False
  end.
Proof.
  split; [exact planned_sample_Ok|]. split; [vm_compute; reflexivity|].
  destruct (tp_Entries planned_sample !! 3%nat) as [e|] eqn:E; [|exfalso; revert E; vm_compute; discriminate].
  apply (PriorityFirst_selects (planning_input ∅) planned_sample no_reservations eq_refl planned_sample_Ok 3 e E).
  enough (is_selected <$> tp_Entries planned_sample !! 3%nat = Some true) as H by (rewrite E in H; injection H; auto).
  vm_compute. reflexivity.
Defined.

Lemma PriorityFirst_order_witness :
  StronglySorted (λ a b, planLess b a = false) (pl_Ticket <$> tp_Entries planned_sample).
Proof. exact (proj1 (PriorityFirst_order (planning_input ∅) planned_sample planned_sample_Ok)). Defined.

Lemma PriorityFirst_safe_witness :
  len (plan_selected (tp_Entries planned_sample)) ≤ 3 ∧ len (of_pool "gpu" (plan_selected (tp_Entries planned_sample))) ≤ 2.
Proof.
  destruct (PriorityFirst_safe (planning_input ∅) planned_sample no_reservations eq_refl planned_sample_Ok) as (_ & _ & H & _ & K).
  split.
  - destruct H as [->|L]; [vm_compute; discriminate|]. exact L.
  - destruct (K eq_refl "gpu" ltac:(discriminate)) as [->|L]; [vm_compute; discriminate|].
    refine (Z.le_trans _ _ _ L _). vm_compute. discriminate.
Defined.

Lemma waits_of_priorityWaiting_witness :
  ∃ w, newAdmissionWaits (planning_input ∅) (pol_Pools planning_policy) ∅ = Ok w ∧
    ∃ unobserved, priorityWaiting (planning_input ∅) (sample_scoped "z" "P3" "gpu" []) "gpu" = Ok (["ticket:x:q:c"], unobserved).
Proof.
  destruct (newAdmissionWaits (planning_input ∅) (pol_Pools planning_policy) ∅) as [w| |] eqn:E;
    [|exfalso; revert E; vm_compute; discriminate..].
  exists w. split; [reflexivity|].
  destruct (waits_of_priorityWaiting (planning_input ∅) w (sample_scoped "z" "P3" "gpu" []) E "gpu") as [H _].
  destruct (H sample_pool ltac:(apply list_elem_of_In; left; reflexivity) eq_refl eq_refl) as [u Hu]. exists u.
  rewrite Hu. repeat f_equal. assert (Ok w = newAdmissionWaits (planning_input ∅) (pol_Pools planning_policy) ∅) as K by (symmetry; exact E).
  vm_compute in K. injection K as ->. vm_compute. reflexivity.
Defined.

Lemma DeriveAuthors_excludes_witness : ("m1" ∉ OrderedPoolMembers sample_pool "implement" (ax_Excluded sample_exclusion)) ∧
  ax_Excluded sample_exclusion = ["m1"; "m2"] ∧
  ∃ x, DeriveAuthors sample_attempts "ticket:x:q:a" ExcludeAuthorsLatest "gpu" [] = inr x ∧ ax_Excluded x = ["m1"] ∧
    ("m1" ∉ OrderedPoolMembers sample_pool "implement" (ax_Excluded x)).
Proof.
  set (g := mkEnded "attempt:x:q:0" "2" (endedHistory sample_attempt)).
  assert (g ∈ endedGenerations sample_attempt) as Hg by (apply list_elem_of_In; right; left; reflexivity).
  assert (∀ h, eg_history g = Some h → ¬ reviewing (gh_Stage h)) as Hr.
  { intros h [= <-] [K|K]; vm_compute in K; discriminate. }
  split; [|split; [vm_compute; reflexivity|]].
  - destruct (DeriveAuthors_excludes sample_attempts "ticket:x:q:a" ExcludeAuthorsAll "gpu" [] sample_exclusion
      ltac:(vm_compute; reflexivity)) as [_ H].
    destruct (H "attempt:x:q:0" sample_attempt g ltac:(vm_compute; reflexivity) eq_refl Hg) as (_ & Hm & _); [left; discriminate|].
    eapply (Hm _ "m1" sample_pool "implement" eq_refl); [exact (Hr _ eq_refl)|reflexivity..].
  - destruct (DeriveAuthors sample_attempts "ticket:x:q:a" ExcludeAuthorsLatest "gpu" []) as [|x] eqn:E; [vm_compute in E; discriminate|].
    exists x. split; [reflexivity|]. split; [vm_compute in E; injection E as <-; reflexivity|].
    destruct (DeriveAuthors_excludes _ _ _ _ _ _ E) as [_ H].
    destruct (H "attempt:x:q:0" sample_attempt g ltac:(vm_compute; reflexivity) eq_refl Hg) as (_ & Hm & _).
    { right. exists [], (tail (ticketGenerations sample_attempts "ticket:x:q:a")). split; [vm_compute; reflexivity|]. right.
      intros n Hn. destruct (not_elem_of_nil n Hn). }
    eapply (Hm _ "m1" sample_pool "implement" eq_refl); [exact (Hr _ eq_refl)|reflexivity..].
Defined.
