(* ===== verification/LeaseRequest.v ===== *)
(** * Lease commands

    The request of one lease command: [LeaseRequest], its closed shapes, the
    checks of its fields and its digest preimage, of
    [src/internal/tasks/transaction/lease.go], with the checks it calls of
    [authors.go], [lease_gate.go] and [pool_operation.go], the definition a
    pool member has ([MemberDefinition] of [src/internal/tasks/intent/pools.go])
    and the observation of a pool command ([snapshot/pool_observation.go]).

    At the end, that the preimage identifies the request: two accepted
    requests with the same bytes are the same.

    [checkLabels] walks a Go map; here it goes through its fields in the order
    they are written, so of two invalid labels the error names the first. *)

From S2P Require Import Prelude View Utf8 GoStd Codes Limits Value Primitives Ids Parse Reader Ticket Inventory Marks.
From S2P Require Import RecordParts RecordCodec Collision Intent Attempt Updates Pools Clock Planner.
Local Open Scope Z_scope.
Local Open Scope go_scope.

(** ** Verbs and bounds *)

Definition LeaseSupervisor : string := "SUPERVISOR".
Definition LeaseProgram : string := "PROGRAM".
Definition LeasePoolPrepare : string := "POOL_PREPARE".
Definition LeasePoolObserve : string := "POOL_OBSERVE".
Definition LeasePoolReport : string := "POOL_REPORT".
Definition LeasePoolCleanup : string := "POOL_CLEANUP".
Definition LeasePoolRecover : string := "POOL_RECOVER".
Definition LeasePoolSafe : string := "POOL_CONFIRM_SAFE".
Definition LeasePoolSweep : string := "POOL_SWEEP".
Definition LeasePoolSweepFinish : string := "POOL_SWEEP_FINISH".
Definition LeasePoolAcquire : string := "POOL_ACQUIRE".
Definition LeasePoolRelease : string := "POOL_RELEASE".
Definition LeasePoolWait : string := "POOL_WAIT".
Definition LeaseClaim : string := "CLAIM".
Definition LeaseClaimNext : string := "CLAIM_NEXT".
Definition LeaseRenew : string := "RENEW".
Definition LeaseHeartbeat : string := "HEARTBEAT".
Definition LeaseRelease : string := "RELEASE".
Definition LeaseReap : string := "REAP".
Definition LeaseWiden : string := "WIDEN".
Definition LeaseSlotAcquire : string := "SLOT_ACQUIRE".
Definition LeaseSlotRelease : string := "SLOT_RELEASE".
Definition LeaseSubmit : string := "SUBMIT".
Definition LeaseGateRun : string := "GATE_RUN".
Definition LeaseComplete : string := "COMPLETE".
Definition LeaseRunOutcome : string := "RUN_OUTCOME".
Definition LeaseEscalate : string := "ESCALATE".
Definition LeaseAnswer : string := "ANSWER".
Definition LeasePoolOperate : string := "POOL_OPERATE".
Definition LeasePoolHold : string := "POOL_HOLD".
Definition LeasePoolHoldRenew : string := "POOL_HOLD_RENEW".
Definition LeasePoolHoldRelease : string := "POOL_HOLD_RELEASE".

Definition MinLeaseMinutes : Z := 5.
Definition MaxLeaseMinutes : Z := 1440.
Definition MaxPoolRecoverReasonBytes : Z := 224.
Definition MaxPoolWaitSeconds : Z := 600.

(** ** The request *)

(** A nil slice is [None]. *)
Record LeaseRequest := mkLeaseRequest {
  l_LaneUntouched : bool; l_SweepSeconds : string; l_Pool : string; l_Stage : string; l_Member : string;
  l_Allocation : string; l_Evidence : string; l_Verb : string; l_TicketID : string; l_Holder : string;
  l_LeaseMinutes : string; l_Branch : string; l_Base : string; l_Scope : option (list string);
  l_ExcludeMembers : option (list string); l_ExcludeAuthors : string; l_ShareAllocation : string;
  l_WholeRepository : bool; l_AttemptID : string; l_Generation : string; l_LeaseExpiresAt : string;
  l_Reason : string; l_HandoffTo : string; l_HandoffReason : string; l_Tree : string; l_Gate : string;
  l_Commit : string; l_Slots : string; l_SlotCount : string; l_SlotExclusive : bool; l_SlotClass : string;
  l_Source : string; l_WaitSeconds : string; l_Operation : string; l_ScopeFromDiff : string;
  l_AdmitUnderBarrier : bool
}.

(** The zero request of a verb, whose fields a command sets. *)
Definition emptyRequest (verb : string) : LeaseRequest :=
  mkLeaseRequest false ε ε ε ε ε ε verb ε ε ε ε ε None None ε ε false ε ε ε ε ε ε ε ε ε ε ε false ε ε ε ε ε false.

Definition eta_request (l : LeaseRequest) : LeaseRequest :=
  mkLeaseRequest (l_LaneUntouched l) (l_SweepSeconds l) (l_Pool l) (l_Stage l) (l_Member l) (l_Allocation l) (l_Evidence l)
    (l_Verb l) (l_TicketID l) (l_Holder l) (l_LeaseMinutes l) (l_Branch l) (l_Base l) (l_Scope l) (l_ExcludeMembers l)
    (l_ExcludeAuthors l) (l_ShareAllocation l) (l_WholeRepository l) (l_AttemptID l) (l_Generation l) (l_LeaseExpiresAt l)
    (l_Reason l) (l_HandoffTo l) (l_HandoffReason l) (l_Tree l) (l_Gate l) (l_Commit l) (l_Slots l) (l_SlotCount l)
    (l_SlotExclusive l) (l_SlotClass l) (l_Source l) (l_WaitSeconds l) (l_Operation l) (l_ScopeFromDiff l)
    (l_AdmitUnderBarrier l).

#[export] Instance set_l_Verb : Setter l_Verb.
Proof. setter eta_request l_Verb. Defined.
#[export] Instance set_l_TicketID : Setter l_TicketID.
Proof. setter eta_request l_TicketID. Defined.
#[export] Instance set_l_Holder : Setter l_Holder.
Proof. setter eta_request l_Holder. Defined.
#[export] Instance set_l_LeaseMinutes : Setter l_LeaseMinutes.
Proof. setter eta_request l_LeaseMinutes. Defined.
#[export] Instance set_l_Scope : Setter l_Scope.
Proof. setter eta_request l_Scope. Defined.
#[export] Instance set_l_AttemptID : Setter l_AttemptID.
Proof. setter eta_request l_AttemptID. Defined.
#[export] Instance set_l_Generation : Setter l_Generation.
Proof. setter eta_request l_Generation. Defined.

(** ** Shapes *)

Definition fieldTicket : Z := 2 ^ 0.
Definition fieldHolder : Z := 2 ^ 1.
Definition fieldMinutes : Z := 2 ^ 2.
Definition fieldBranch : Z := 2 ^ 3.
Definition fieldBase : Z := 2 ^ 4.
Definition fieldScope : Z := 2 ^ 5.
Definition fieldWhole : Z := 2 ^ 6.
Definition fieldAttempt : Z := 2 ^ 7.
Definition fieldGeneration : Z := 2 ^ 8.
Definition fieldReason : Z := 2 ^ 9.
Definition fieldTree : Z := 2 ^ 10.
Definition fieldGate : Z := 2 ^ 11.
Definition fieldCommit : Z := 2 ^ 12.
Definition fieldPool : Z := 2 ^ 13.
Definition fieldStage : Z := 2 ^ 14.
Definition fieldMember : Z := 2 ^ 15.
Definition fieldAllocation : Z := 2 ^ 16.
Definition fieldEvidence : Z := 2 ^ 17.
Definition fieldExclusions : Z := 2 ^ 18.
Definition fieldLaneUntouched : Z := 2 ^ 19.
Definition fieldSweepSeconds : Z := 2 ^ 20.
Definition fieldHandoff : Z := 2 ^ 21.
Definition fieldAuthors : Z := 2 ^ 22.
Definition fieldShare : Z := 2 ^ 23.
Definition fieldExpiry : Z := 2 ^ 24.
Definition fieldSlots : Z := 2 ^ 25.
Definition fieldSlotCount : Z := 2 ^ 26.
Definition fieldSlotExclusive : Z := 2 ^ 27.
Definition fieldSlotClass : Z := 2 ^ 28.
Definition fieldSource : Z := 2 ^ 29.
Definition fieldWait : Z := 2 ^ 30.
Definition fieldOperation : Z := 2 ^ 31.
Definition fieldScopeFromDiff : Z := 2 ^ 32.
Definition fieldAdmitUnderBarrier : Z := 2 ^ 33.

(** [a | b | ...] *)
Definition bits_of (fields : list Z) : Z := foldr Z.lor 0 fields.

Record leaseShape := mkShape { required : Z; allowed : Z }.

(** A shape by the fields it requires and the further ones it allows. *)
Definition shape (req more : list Z) : leaseShape := mkShape (bits_of req) (bits_of (req ++ more)).

Definition attemptBits : list Z := [fieldAttempt; fieldGeneration].

Definition leaseShapes : list (string * leaseShape) := [
  (LeasePoolSweep, shape [fieldSweepSeconds] [fieldMember; fieldAllocation]);
  (LeasePoolSweepFinish, shape [fieldEvidence] []);
  (LeasePoolAcquire, shape (attemptBits ++ [fieldPool]) [fieldExclusions; fieldAuthors; fieldSource]);
  (LeasePoolWait, shape [fieldPool; fieldWait] (fieldTicket :: fieldHolder :: attemptBits));
  (LeasePoolRelease, shape (attemptBits ++ [fieldAllocation]) []);
  (LeaseSupervisor, shape (attemptBits ++ [fieldEvidence]) [fieldPool; fieldStage; fieldHolder]);
  (LeaseProgram, shape [fieldEvidence] []);
  (LeasePoolPrepare, shape [fieldPool; fieldMember; fieldHolder; fieldEvidence]
                           [fieldStage; fieldTicket; fieldAuthors; fieldExclusions]);
  (LeasePoolObserve, shape [fieldMember; fieldAllocation] [fieldEvidence]);
  (LeasePoolCleanup, shape [fieldMember; fieldAllocation] []);
  (LeasePoolRecover, shape [fieldMember; fieldAllocation; fieldReason] []);
  (LeasePoolSafe, shape [fieldMember; fieldAllocation; fieldEvidence; fieldReason] []);
  (LeaseClaim, shape [fieldTicket; fieldHolder; fieldMinutes]
                     [fieldBranch; fieldBase; fieldScope; fieldPool; fieldStage; fieldExclusions; fieldAuthors; fieldShare;
                      fieldScopeFromDiff; fieldAdmitUnderBarrier]);
  (LeaseClaimNext, shape [fieldHolder; fieldMinutes]
                         [fieldBranch; fieldBase; fieldScope; fieldPool; fieldStage; fieldExclusions; fieldAuthors]);
  (LeaseHeartbeat, shape attemptBits []);
  (LeaseRenew, shape (attemptBits ++ [fieldMinutes]) []);
  (LeaseRelease, shape attemptBits [fieldReason; fieldEvidence; fieldLaneUntouched; fieldHandoff]);
  (LeaseReap, shape [] (attemptBits ++ [fieldExpiry]));
  (LeaseWiden, shape attemptBits [fieldScope; fieldWhole; fieldAdmitUnderBarrier]);
  (LeaseSubmit, shape (attemptBits ++ [fieldTree]) []);
  (LeaseGateRun, shape (attemptBits ++ [fieldGate]) []);
  (LeaseComplete, shape (attemptBits ++ [fieldCommit]) []);
  (LeaseRunOutcome, shape (attemptBits ++ [fieldEvidence]) []);
  (LeaseEscalate, shape [fieldEvidence] []);
  (LeaseAnswer, shape [fieldEvidence] []);
  (LeaseSlotAcquire, shape (attemptBits ++ [fieldSlots]) [fieldSlotCount; fieldSlotExclusive; fieldSlotClass]);
  (LeaseSlotRelease, shape (attemptBits ++ [fieldSlots]) []);
  (LeasePoolOperate, shape [fieldPool; fieldMember; fieldOperation] [fieldAllocation; fieldSource]);
  (LeasePoolReport, shape [fieldMember; fieldEvidence] [fieldAllocation]);
  (LeasePoolHold, shape [fieldPool; fieldMember; fieldHolder; fieldMinutes; fieldReason] []);
  (LeasePoolHoldRenew, shape [fieldMember; fieldAllocation; fieldMinutes] []);
  (LeasePoolHoldRelease, shape [fieldMember; fieldAllocation] [])
].

(** Which fields of a request are given. *)
Definition request_flags (l : LeaseRequest) : list (Z * bool) :=
  let given s := negb (s =s ε) in
  [(fieldSweepSeconds, given (l_SweepSeconds l)); (fieldLaneUntouched, l_LaneUntouched l); (fieldPool, given (l_Pool l));
   (fieldStage, given (l_Stage l)); (fieldMember, given (l_Member l)); (fieldAllocation, given (l_Allocation l));
   (fieldEvidence, given (l_Evidence l)); (fieldExclusions, some (l_ExcludeMembers l));
   (fieldAuthors, given (l_ExcludeAuthors l)); (fieldTicket, given (l_TicketID l)); (fieldHolder, given (l_Holder l));
   (fieldMinutes, given (l_LeaseMinutes l)); (fieldBranch, given (l_Branch l)); (fieldBase, given (l_Base l));
   (fieldScope, some (l_Scope l)); (fieldWhole, l_WholeRepository l); (fieldAttempt, given (l_AttemptID l));
   (fieldGeneration, given (l_Generation l)); (fieldReason, given (l_Reason l)); (fieldTree, given (l_Tree l));
   (fieldGate, given (l_Gate l)); (fieldCommit, given (l_Commit l));
   (fieldHandoff, given (l_HandoffTo l) || given (l_HandoffReason l)); (fieldShare, given (l_ShareAllocation l));
   (fieldExpiry, given (l_LeaseExpiresAt l)); (fieldSlots, given (l_Slots l)); (fieldSlotCount, given (l_SlotCount l));
   (fieldSlotExclusive, l_SlotExclusive l); (fieldSlotClass, given (l_SlotClass l)); (fieldSource, given (l_Source l));
   (fieldWait, given (l_WaitSeconds l)); (fieldOperation, given (l_Operation l));
   (fieldScopeFromDiff, given (l_ScopeFromDiff l)); (fieldAdmitUnderBarrier, l_AdmitUnderBarrier l)].

(** [l.present()] *)
Definition present (l : LeaseRequest) : Z :=
  foldr (λ f bits, if (f.2 : bool) then Z.lor bits f.1 else bits) 0 (request_flags l).

Definition has_bit (bits field : Z) : bool := negb (Z.land bits field =? 0).

Definition checkShape (l : LeaseRequest) : option Error :=
  match assoc (l_Verb l) leaseShapes with
  | None => Some (malformed "unknown lease verb")
  | Some s =>
      let bits := present l in
      let exactly fields := bits =? bits_of fields in
      if negb (Z.land bits (required s) =? required s) || negb (Z.land bits (Z.lnot (allowed s)) =? 0)
      then Some (malformed ("lease arguments do not fit " +:+ l_Verb l))
      else if (l_Verb l =s LeaseReap) && negb (bits =? 0) && negb (exactly attemptBits) &&
              negb (exactly (attemptBits ++ [fieldExpiry]))
      then Some (malformed "REAP names an attempt and its generation together or neither, and a lease expiry only with them")
      else if (l_Verb l =s LeaseWiden) && Bool.eqb (has_bit bits fieldScope) (has_bit bits fieldWhole)
      then Some (malformed "WIDEN takes paths or the whole repository, exactly one")
      else if (l_Verb l =s LeasePoolWait) && negb (exactly [fieldPool; fieldWait; fieldTicket; fieldHolder]) &&
              negb (exactly ([fieldPool; fieldWait] ++ attemptBits))
      then Some (malformed "POOL_WAIT names a ticket and holder, or an attempt and its generation, exactly one")
      else if l_SlotExclusive l && has_bit bits (Z.lor fieldSlotCount fieldSlotClass)
      then Some (malformed "an exclusive slot request takes no count or class")
      else None
  end.

(** ** Checks of the fields *)

(** The error of a parse, [_, e := ...]. *)
Definition error_of {A} (x : res A) : option Error := match x with Err e => Some e | _ => None end.

(** [if v != "" { if e := check; e != nil { return e } }] *)
Definition given (v : string) (check : option Error) : option Error := if v =s ε then None else check.

(** A parse and a check of what it gives. *)
Definition parse_then {A} (x : res A) (k : A → option Error) : option Error :=
  match x with Err e => Some e | Ok a => k a | OutOfFuel => None end.

Definition checkMinutes (m : string) : option Error :=
  given m (parse_then (ParseSize "leaseMinutes" m) (λ n,
    reject ((Size_Uint64 n <? MinLeaseMinutes) || (MaxLeaseMinutes <? Size_Uint64 n))
      (malformed "lease minutes outside 5..1440"))).

(** The loop of [checkScopePaths]; [prev] is the path before. *)
Fixpoint check_sorted_paths (prev : option string) (paths : list string) : option Error :=
  match paths with
  | [] => None
  | p :: paths' =>
      first_error_of
        [error_of (ParsePath "scope" p); error_of (ParseIdentifier "scope" p);
         reject (match prev with Some q => negb (q <s p) | None => false end)
           (malformed "scope paths must be sorted and duplicate-free");
         check_sorted_paths (Some p) paths']
  end.

Definition checkScopePaths (paths : option (list string)) : option Error :=
  match paths with
  | None => None
  | Some paths =>
      if is_empty paths || (MaxTouchPaths <? len paths) then Some (over_limit "scope path count")
      else check_sorted_paths None paths
  end.

Definition checkLabels (values : list (string * string)) : option Error :=
  first_error_of ((λ kv, given kv.2 (error_of (ParseLabel kv.1 kv.2))) <$> values).

Definition CheckExcludeAuthors (mode pool stage : string) : option Error :=
  given mode (first_error_of
    [reject (negb (mode =s ExcludeAuthorsLatest) && negb (mode =s ExcludeAuthorsAll)) (malformed "excludeAuthors is LATEST or ALL");
     reject (pool =s ε) (malformed "author exclusions require an explicit pool");
     reject (negb (stage =s "review") && negb (stage =s "integrate"))
       (malformed "author exclusions require --stage review or integrate")]).

Definition checkPoolStage (stage : string) : bool := (stage =s ε) || contains PoolStageRoles stage.

(** [ParsePoolSource(where, s)] of the package [intent]. *)
Definition ParsePoolSource (where_ s : string) : res PoolSource :=
  match str_span (λ c, negb (Ascii.eqb c ":")) s with
  | (_, ε) => Err (Errorf CodeMalformed where_ "source must be REVISION:TREE" [])
  | (rev, String _ rest) =>
      let* rev := ParseOID where_ rev in
      let* tree := ParseOID where_ rest in
      Ok {| psrc_Revision := rev; psrc_Tree := tree |}
  end.

Definition checkPoolOperation (l : LeaseRequest) : option Error :=
  if negb (l_Verb l =s LeasePoolOperate) then None
  else first_error_of
    [reject (negb (contains PoolOperations (l_Operation l))) (malformed "unknown pool operation");
     reject (negb (Bool.eqb (l_Operation l =s "retarget") (negb (l_Source l =s ε))))
       (malformed "retarget takes --source, and only retarget does")].

(** The two ids are checked in the order they are written. *)
Definition checkGateFields (l : LeaseRequest) : option Error :=
  first_error_of
    [given (l_Tree l) (error_of (ParseOID "tree" (l_Tree l))); given (l_Commit l) (error_of (ParseOID "commit" (l_Commit l)));
     checkLabels [("gate", l_Gate l)]].

Definition checkHandoffRequest (l : LeaseRequest) : option Error :=
  if (l_HandoffTo l =s ε) && (l_HandoffReason l =s ε) then None
  else first_error_of
    [reject (negb (l_HandoffReason l =s ε) && negb (contains HandoffReasons (l_HandoffReason l))) (malformed "unknown handoff reason");
     reject (l_HandoffTo l =s ε) (malformed "a handoff reason requires a handoff target");
     CheckHandoffTarget "handoffTo" (l_Reason l) ε (l_HandoffTo l) ε].

Definition ReleaseReasonRefusal : string :=
  "release reason is not a closed code; --reason takes exactly one of " +:+ strings.Join Codes ", " +:+
  ". HANDOFF and REVIEW_RETURNED request a stage handoff (see release --help --verbose handoffPreconditions); any other code only records why the attempt was freed. Omit --reason for a plain release (TCD-V0-178)".

(** A count between two bounds. *)
Definition check_count (where_ v : string) (lo hi : Z) (e : Error) : option Error :=
  given v (parse_then (ParseCount where_ v) (λ n, reject ((Count_Int n <? lo) || (hi <? Count_Int n)) e)).

Definition checkLeaseFields (l : LeaseRequest) (q : QueueID) : option Error :=
  let verb v := l_Verb l =s v in
  let no s := s =s ε in
  let returning := (l_Reason l =s CodeHandoff) || (l_Reason l =s CodeReviewReturned) in
  let stage := if verb LeasePoolAcquire && negb (no (l_ExcludeAuthors l)) then "review" else l_Stage l in
  first_error_of [
    reject (verb LeasePoolSweep && negb (no (l_Allocation l)) && no (l_Member l)) (malformed "sweep allocation requires member");
    reject (l_LaneUntouched l && no (l_Evidence l)) (malformed "lane-untouched requires inert evidence Identifier");
    checkExcludedMembers (l_Pool l) (l_ExcludeMembers l);
    CheckExcludeAuthors (l_ExcludeAuthors l) (l_Pool l) stage;
    reject (verb LeasePoolPrepare && negb (Bool.eqb (no (l_TicketID l)) (no (l_ExcludeAuthors l))))
      (malformed "preparation binds a ticket only with its author-exclusion mode");
    reject (verb LeasePoolPrepare && some (l_ExcludeMembers l) && no (l_ExcludeAuthors l))
      (malformed "preparation carries explicit exclusions only with its author-exclusion mode");
    reject (negb (checkPoolStage (l_Stage l))) (malformed "unknown pool stage");
    given (l_Allocation l) (error_of (ParseDigest "allocation" (l_Allocation l)));
    given (l_ShareAllocation l) (first_error_of
      [reject (no (l_Pool l) || some (l_ExcludeMembers l) || negb (no (l_ExcludeAuthors l)))
         (malformed "--share-allocation needs --pool and takes no member or author exclusion");
       error_of (ParseDigest "shareAllocation" (l_ShareAllocation l))]);
    given (l_Evidence l) (first_error_of
      [reject (verb LeaseRelease && negb returning && negb (l_LaneUntouched l))
         (malformed "release evidence requires HANDOFF or REVIEW_RETURNED");
       error_of (ParseIdentifier "evidence" (l_Evidence l));
       if verb LeaseRunOutcome || verb LeaseEscalate || verb LeaseAnswer || verb LeasePoolReport
       then error_of (ParseDigest "evidence" (l_Evidence l)) else None]);
    checkHandoffRequest l;
    given (l_TicketID l) (parse_then (ParseTicketID "ticketId" (l_TicketID l)) (λ id,
      reject (negb (TicketID_QueueID id =s QueueID_Raw q)) (malformed "lease ticket names another queue")));
    checkLabels [("holder", l_Holder l); ("branch", l_Branch l); ("pool", l_Pool l); ("member", l_Member l);
                 ("slots", l_Slots l); ("slotClass", l_SlotClass l)];
    given (l_Base l) (error_of (ParseOID "base" (l_Base l)));
    given (l_ScopeFromDiff l) (error_of (ParseOID "scopeFromDiff" (l_ScopeFromDiff l)));
    given (l_Source l) (error_of (ParsePoolSource "source" (l_Source l)));
    checkPoolOperation l;
    check_count "waitSeconds" (l_WaitSeconds l) 1 MaxPoolWaitSeconds
      (Errorf CodeLimitExceeded "waitSeconds" "wait seconds outside 1..%d" [AInt MaxPoolWaitSeconds]);
    checkMinutes (l_LeaseMinutes l);
    checkScopePaths (l_Scope l);
    given (l_AttemptID l) (parse_then (AttemptQueue (l_AttemptID l)) (λ aq,
      reject (negb (QueueID_Raw aq =s QueueID_Raw q)) (malformed "lease attempt names another queue")));
    given (l_Generation l) (error_of (ParseSize "generation" (l_Generation l)));
    given (l_LeaseExpiresAt l) (error_of (ParseTimestamp "leaseExpiresAt" (l_LeaseExpiresAt l)));
    (if verb LeasePoolHold then error_of (ParseProse "reason" (l_Reason l) 1 MaxPoolRecoverReasonBytes) else None);
    reject (negb (no (l_Reason l)) && negb (verb LeasePoolSafe) && negb (verb LeasePoolRecover) && negb (verb LeasePoolHold) &&
            negb (IsCode (l_Reason l))) (malformed ReleaseReasonRefusal);
    (if verb LeasePoolSafe || verb LeasePoolRecover then error_of (ParseProse "reason" (l_Reason l) 1 4096) else None);
    check_count "slotCount" (l_SlotCount l) 1 MaxSlotCapacity (over_limit "slotCount outside 1..64");
    check_count "sweepSeconds" (l_SweepSeconds l) 1 1800 (malformed "sweepSeconds outside1..1800");
    checkGateFields l
  ].

(** ** The digest preimage *)

Definition optionalString (v : string) : Value := if v =s ε then VNull else VString v.

(** [object(kv...)] *)
Definition object_of (kvs : list (string * Value)) : Object := foldl (λ o kv, Set_ o kv.1 kv.2) NewObject kvs.

(** The members that join the object when a condition holds. *)
Definition set_when (b : bool) (kvs : list (string * Value)) (o : Object) : Object :=
  if b then foldl (λ o kv, Set_ o kv.1 kv.2) o kvs else o.

Definition gateVerbs : list string := [LeaseSubmit; LeaseGateRun; LeaseComplete].

Definition isPoolHoldVerb (verb : string) : bool :=
  (verb =s LeasePoolHold) || (verb =s LeasePoolHoldRenew) || (verb =s LeasePoolHoldRelease).

Definition lease_object (l : LeaseRequest) : Object :=
  let s := VString in
  let verb v := l_Verb l =s v in
  let has v := negb (v =s ε) in
  let scope := match l_Scope l with Some xs => Strings xs | None => VNull end in
  let allocation := ("allocation", s (l_Allocation l)) in
  let o := object_of
    [("verb", s (l_Verb l)); ("ticketId", optionalString (l_TicketID l)); ("holder", optionalString (l_Holder l));
     ("leaseMinutes", optionalString (l_LeaseMinutes l)); ("branch", optionalString (l_Branch l));
     ("base", optionalString (l_Base l)); ("scope", scope); ("wholeRepository", VBool (l_WholeRepository l));
     ("attemptId", optionalString (l_AttemptID l)); ("generation", optionalString (l_Generation l));
     ("reason", optionalString (l_Reason l))] in
  let o := set_when (contains gateVerbs (l_Verb l))
    [("tree", optionalString (l_Tree l)); ("gate", optionalString (l_Gate l)); ("commit", optionalString (l_Commit l))] o in
  let o := set_when (has (l_Pool l)) [("pool", s (l_Pool l))] o in
  let o := set_when (has (l_Stage l)) [("stage", s (l_Stage l))] o in
  let o := set_when (some (l_ExcludeMembers l)) [("excludeMembers", Strings (default [] (l_ExcludeMembers l)))] o in
  let o := set_when (has (l_HandoffTo l)) [("handoffTo", s (l_HandoffTo l))] o in
  let o := set_when (has (l_HandoffReason l)) [("handoffReason", s (l_HandoffReason l))] o in
  let o := set_when (has (l_ExcludeAuthors l)) [("excludeAuthors", s (l_ExcludeAuthors l))] o in
  let o := set_when (has (l_ShareAllocation l)) [("shareAllocation", s (l_ShareAllocation l))] o in
  let o := set_when (has (l_LeaseExpiresAt l)) [("leaseExpiresAt", s (l_LeaseExpiresAt l))] o in
  let o := set_when (has (l_Slots l)) [("slots", s (l_Slots l))] o in
  let o := set_when (has (l_SlotCount l)) [("slotCount", s (l_SlotCount l))] o in
  let o := set_when (l_SlotExclusive l) [("slotExclusive", VBool true)] o in
  let o := set_when (has (l_SlotClass l)) [("slotClass", s (l_SlotClass l))] o in
  let o := set_when (has (l_Source l)) [("source", s (l_Source l))] o in
  let o := set_when (has (l_ScopeFromDiff l)) [("scopeFromDiff", s (l_ScopeFromDiff l))] o in
  let o := set_when (l_AdmitUnderBarrier l) [("admitUnderBarrier", VBool true)] o in
  let o := set_when (has (l_WaitSeconds l)) [("waitSeconds", s (l_WaitSeconds l))] o in
  let o := set_when (verb LeasePoolOperate) [("member", s (l_Member l)); ("operation", s (l_Operation l))] o in
  let o := set_when (verb LeasePoolOperate && has (l_Allocation l)) [allocation] o in
  let o := set_when (verb LeasePoolReport) [("member", s (l_Member l)); ("evidence", s (l_Evidence l))] o in
  let o := set_when (verb LeasePoolReport && has (l_Allocation l)) [allocation] o in
  let o := set_when (isPoolHoldVerb (l_Verb l)) [("member", s (l_Member l))] o in
  let o := set_when (isPoolHoldVerb (l_Verb l) && has (l_Allocation l)) [allocation] o in
  let o := set_when (verb LeaseRelease && has (l_Evidence l)) [("evidence", s (l_Evidence l))] o in
  let o := set_when (verb LeaseProgram || verb LeaseSupervisor || verb LeaseRunOutcome || verb LeaseEscalate || verb LeaseAnswer)
    [("evidence", s (l_Evidence l))] o in
  let o := set_when (verb LeasePoolSafe || verb LeasePoolPrepare || verb LeasePoolObserve || verb LeasePoolCleanup ||
                     verb LeasePoolRecover)
    [("member", s (l_Member l)); allocation; ("evidence", s (l_Evidence l))] o in
  let o := set_when (verb LeasePoolSweep) [("member", s (l_Member l)); ("sweepSeconds", s (l_SweepSeconds l))] o in
  let o := set_when (verb LeasePoolSweep && has (l_Allocation l)) [allocation] o in
  let o := set_when (verb LeasePoolSweepFinish) [("evidence", s (l_Evidence l))] o in
  let o := set_when (verb LeasePoolRelease) [allocation] o in
  set_when (l_LaneUntouched l)
    [("laneUntouched", VBool true); ("laneUntouchedProfile", s ProfileLaneUntouched);
     ("acknowledgements", LaneUntouchedAcknowledgementsValue)] o.

Definition leaseValue (l : LeaseRequest) (q : QueueID) : res Value :=
  try checkShape l;
  try checkLeaseFields l q;
  Ok (VObject (lease_object l)).

(** ** Pool observations *)

Definition MaxPoolObservationBytes : Z := 4096.

Record PoolObservation := {
  po_AllocationID : string; po_DefinitionSha256 : string; po_Kind : string; po_Revision : string; po_Tree : string;
  po_Class : string; po_Passed : bool; po_GroupClean : bool; po_OutputSha256 : string; po_EnvironmentSha256 : string
}.

Definition ProfilePoolObservation : string := "taskman-pool-observation/0".

Definition PoolObservation_Encode (p : PoolObservation) : string :=
  EncodeFile (VObject (object_of
    [("profile", VString ProfilePoolObservation); ("allocationId", VString (po_AllocationID p));
     ("definitionSha256", VString (po_DefinitionSha256 p)); ("kind", VString (po_Kind p)); ("revision", VString (po_Revision p));
     ("tree", VString (po_Tree p)); ("class", VString (po_Class p)); ("passed", VBool (po_Passed p));
     ("groupClean", VBool (po_GroupClean p)); ("outputSha256", VString (po_OutputSha256 p));
     ("environmentSha256", VString (po_EnvironmentSha256 p))])).

Definition observation_classes : list string :=
  ["EXIT_ZERO"; "EXIT_NONZERO"; "SPAWN_FAILED"; "TIMEOUT"; "INTERRUPTED"; "OUTPUT_LIMIT"; "UNKNOWN"; "SOURCE_CHANGED"].

Definition read_observation (r : Reader) : M PoolObservation :=
  _ ← Closed r ["profile"; "allocationId"; "definitionSha256"; "kind"; "revision"; "tree"; "class"; "passed"; "groupClean";
                "outputSha256"; "environmentSha256"];
  f ← Field r "profile"; _ ← Exact f ProfilePoolObservation;
  f ← Field r "allocationId"; allocation ← Digest f;
  f ← Field r "definitionSha256"; definition ← Digest f;
  f ← Field r "kind"; kind ← Enum f ("health" :: "cleanup" :: PoolOperations);
  f ← Field r "revision"; revision ← OID f;
  f ← Field r "tree"; tree ← OID f;
  f ← Field r "class"; class ← Enum f observation_classes;
  f ← Field r "passed"; passed ← Bool_ f;
  f ← Field r "groupClean"; clean ← Bool_ f;
  f ← Field r "outputSha256"; output ← Digest f;
  f ← Field r "environmentSha256"; environment ← Digest f;
  _ ← fail_if r (passed && (negb (class =s "EXIT_ZERO") || negb clean)) "passing observation lacks clean normal exit";
  mret {| po_AllocationID := allocation; po_DefinitionSha256 := definition; po_Kind := kind; po_Revision := revision;
          po_Tree := tree; po_Class := class; po_Passed := passed; po_GroupClean := clean; po_OutputSha256 := output;
          po_EnvironmentSha256 := environment |}.

Definition DecodePoolObservation (raw : string) : res PoolObservation :=
  if MaxPoolObservationBytes <? slen raw then Err (Errorf CodeLimitExceeded "pool observation" "byte bound" [])
  else
    let* v := Parse raw in
    let r := NewReader v "pool observation" in
    let '(e, st) := Reader.Profile r ProfilePoolObservation st0 in
    try e;
    run (read_observation r) st.

(** ** Digests *)

Section digests.
Context (sha256 : string → string).

Definition PoolClaimBinding (l : LeaseRequest) (q : QueueID) : string :=
  match leaseValue l q with Ok v => Sum sha256 (EncodeFile v) | _ => ε end.

(** A member of an object value; the zero value when it has none. *)
Definition object_member (v : Value) (key : string) : option Value :=
  match v with VObject o => Get o key | _ => None end.

(** [p.MemberDefinition(id, member)]: the digest of what the policy's bytes
    say of one member of a pool. *)
Definition MemberDefinition (p : Policy) (id member : string) : string :=
  match Policy_Pool p id with
  | None => ε
  | Some pool =>
      if negb (contains (pool_Members pool) member) then ε
      else match Parse (pol_Raw p) with
      | Ok v =>
          let pools := match object_member v "pools" with Some (VArray l) => l | _ => [] end in
          let named x := match object_member x "id" with Some (VString s) => s =s id | _ => ε =s id end in
          match List.find named pools with
          | None => ε
          | Some x =>
              let entry field := match object_member x field with Some (VObject o) => default VNull (Get o member) | _ => VNull end in
              Sum sha256 (EncodeFile (VObject (object_of
                [("pool", VString id); ("member", VString member); ("reservedFor", entry "reservedFor");
                 ("memberConfig", entry "memberConfig")])))
          end
      | _ => ε
      end
  end.
End digests.

(** ** The digest preimage identifies the command *)

From S2P Require Import Canonical ReaderSpec ParsePrint ValueSpec.

Lemma Get_Set o k v k' : Get (Set_ o k v) k' = if k' =s k then Some v else Get o k'.
Proof.
  unfold Get. induction o as [|[q w] o IH]; cbn [Set_ assoc]; [done|].
  destruct (String.eqb_spec k q) as [->|Hk]; cbn [assoc]; [by destruct (k' =s q)|].
  rewrite IH. destruct (String.eqb_spec k' q) as [->|]; [|done]. by rewrite (proj2 (String.eqb_neq _ _)) by congruence.
Qed.

(** The member a condition adds, or the one there. *)
Lemma Get_when b kvs o k :
  Get (set_when b kvs o) k = match (if b then assoc k (rev kvs) else None) with Some v => Some v | None => Get o k end.
Proof.
  destruct b; [|done]. cbn [set_when]. revert o. induction kvs as [|[q w] kvs IH]; intros o; [done|].
  cbn [foldl fst snd rev]. rewrite IH, Get_Set. generalize (rev kvs) as l. clear IH kvs.
  induction l as [|[q' w'] l IH]; cbn [app assoc]; [by destruct (k =s q)|]. by destruct (k =s q').
Qed.

Lemma if_none {A} (b : bool) : (if b then @None A else None) = None.
Proof. by destruct b. Qed.

Lemma distinct_when_members b kvs o :
  Forall (λ kv : string * Value, distinct kv.2) kvs → distinct (VObject o) → distinct (VObject (set_when b kvs o)).
Proof.
  intros Hk Ho. destruct b; [|done]. cbn [set_when]. revert o Ho. induction Hk as [|[k v] kvs Hv _ IH]; intros o Ho; [done|].
  cbn [foldl]. apply IH. by apply distinct_Set.
Qed.

Lemma distinct_optionalString v : distinct (optionalString v).
Proof. unfold optionalString. destruct (_ =s _); constructor. Qed.

Lemma distinct_acknowledgements : distinct LaneUntouchedAcknowledgementsValue.
Proof.
  apply (distinct_foldl (λ o name, Set_ o name (VBool true))); [|apply distinct_new].
  intros. apply distinct_Set; [done|constructor].
Qed.

Ltac distinct_members :=
  repeat first [exact distinct_acknowledgements | apply distinct_optionalString | apply distinct_strings | constructor; cbn [snd]].

Lemma object_when kvs : object_of kvs = set_when true kvs NewObject.
Proof. done. Qed.

Lemma distinct_lease_object l : distinct (VObject (lease_object l)).
Proof.
  unfold lease_object. cbv zeta. repeat (apply distinct_when_members; [distinct_members|]).
  rewrite object_when. apply distinct_when_members; [|apply distinct_new]. destruct (l_Scope l); distinct_members.
Qed.

(** Objects of one canonical form have the same members, each of one form. *)
Lemma canon_Get o o' k : distinct (VObject o) → distinct (VObject o') → canon (VObject o) = canon (VObject o') →
  canon <$> Get o k = canon <$> Get o' k.
Proof.
  intros Ho Ho' [= H]. inversion Ho as [| | | |? Hk _]; inversion Ho' as [| | | |? Hk' _]; subst. unfold Get.
  assert (∀ o : Object, NoDup (Keys o) → assoc k (isort key_le ((λ kv : string * Value, (kv.1, canon kv.2)) <$> o)) = canon <$> assoc k o) as Ha.
  { intros x Hx. rewrite assoc_isort, assoc_fmap; [done|]. by rewrite <-list_fmap_compose. }
  by rewrite <-!Ha, H.
Qed.

(** *** What a shape leaves out *)

Lemma present_bit l k : 0 ≤ k → (2 ^ k, true) ∈ request_flags l → Z.testbit (present l) k = true.
Proof.
  intros Hk. unfold present. induction (request_flags l) as [|[f b] fs IH]; [by intros ?%not_elem_of_nil|].
  cbn [foldr fst snd]. intros [[= <- <-]|H]%elem_of_cons.
  - by rewrite Z.lor_spec, Z.pow2_bits_true, orb_true_r.
  - destruct b; [rewrite Z.lor_spec|]; by rewrite IH.
Qed.

(** A field no shape allows but those of [verbs] is absent from the others. *)
Definition only_for (verbs : list string) (k : Z) : bool :=
  forallb (λ s : string * leaseShape, implb (Z.testbit (allowed s.2) k) (contains verbs s.1)) leaseShapes.

Lemma absent verbs k l b : only_for verbs k = true → 0 ≤ k → checkShape l = None → contains verbs (l_Verb l) = false →
  (2 ^ k, b) ∈ request_flags l → b = false.
Proof.
  intros Honly Hk Hc Hv Hin. destruct b; [|done]. apply present_bit in Hin; [|done]. unfold checkShape in Hc.
  destruct (assoc (l_Verb l) leaseShapes) as [s|] eqn:Es; [|done]. cbv zeta in Hc. destruct (_ || _) eqn:Eb in Hc; [done|].
  apply orb_false_iff in Eb as [_ Ha%negb_false_iff%Z.eqb_eq]. apply (f_equal (λ z, Z.testbit z k)) in Ha.
  rewrite Z.land_spec, Z.lnot_spec, Hin, Z.bits_0 in Ha by done. cbn [andb] in Ha. apply negb_false_iff in Ha.
  apply assoc_Some in Es. unfold only_for in Honly. rewrite forallb_forall in Honly.
  specialize (Honly _ (proj1 (list_elem_of_In _ _) Es)). cbn [fst snd] in Honly. by rewrite Ha, Hv in Honly.
Qed.

(** *** The members of the preimage *)

Lemma has_inj (a b : string) :
  (if negb (a =s ε) then Some (VString a) else None) = (if negb (b =s ε) then Some (VString b) else None) → a = b.
Proof. destruct (String.eqb_spec a ε), (String.eqb_spec b ε); cbn [negb]; congruence. Qed.

Lemma optional_inj (a b : string) : Some (optionalString a) = Some (optionalString b) → a = b.
Proof. unfold optionalString. destruct (String.eqb_spec a ε), (String.eqb_spec b ε); congruence. Qed.

Lemma flag_inj (a b : bool) : (if a then Some (VBool true) else None) = (if b then Some (VBool true) else None) → a = b.
Proof. by destruct a, b. Qed.

Lemma strings_inj xs ys : Strings xs = Strings ys → xs = ys.
Proof. 
  assert (Inj (=) (=) VString) by (by intros ? ? [= ->]). unfold Strings. intros [= E].
  by apply (inj (fmap VString)) in E.
Qed.

(** A member of the preimage, with the conditions that do not set it away. *)
Ltac lease_member :=
  unfold lease_object; cbv zeta; rewrite object_when, !Get_when;
  cbn [rev app assoc String.eqb Ascii.eqb Bool.eqb]; rewrite !if_none; cbn iota.

Definition memberVerbs : list string :=
  [LeasePoolSweep; LeasePoolSafe; LeasePoolPrepare; LeasePoolObserve; LeasePoolCleanup; LeasePoolRecover; LeasePoolHold; LeasePoolHoldRenew;
   LeasePoolHoldRelease; LeasePoolReport; LeasePoolOperate].

Definition allocationVerbs : list string :=
  [LeasePoolSafe; LeasePoolPrepare; LeasePoolObserve; LeasePoolCleanup; LeasePoolRecover; LeasePoolRelease].

Definition evidenceVerbs : list string :=
  [LeasePoolReport; LeaseProgram; LeaseSupervisor; LeaseRunOutcome; LeaseEscalate; LeaseAnswer; LeasePoolSafe; LeasePoolPrepare;
   LeasePoolObserve; LeasePoolCleanup; LeasePoolRecover; LeasePoolSweepFinish].

Section same.
Context (l m : LeaseRequest) (same : ∀ k, canon <$> Get (lease_object l) k = canon <$> Get (lease_object m) k).

(** A text member set when it is not empty. *)
Lemma same_has k (f : LeaseRequest → string) :
  (∀ x, Get (lease_object x) k = if negb (f x =s ε) then Some (VString (f x)) else None) → f l = f m.
Proof using same.
  intros H. apply has_inj. pose proof (same k) as G. rewrite !H in G.
  by destruct (negb (f l =s ε)), (negb (f m =s ε)).
Qed.

(** A text member that is always there, null when empty. *)
Lemma same_nullable k (f : LeaseRequest → string) :
  (∀ x, Get (lease_object x) k = Some (optionalString (f x))) → f l = f m.
Proof using same.
  intros H. apply optional_inj. pose proof (same k) as G. rewrite !H in G. revert G. unfold optionalString.
  by destruct (f l =s ε), (f m =s ε).
Qed.

Lemma same_flag k (f : LeaseRequest → bool) :
  (∀ x, Get (lease_object x) k = if f x then Some (VBool true) else None) → f l = f m.
Proof using same.
  intros H. apply flag_inj. pose proof (same k) as G. rewrite !H in G. by destruct (f l), (f m).
Qed.

Lemma same_texts :
  l_Pool l = l_Pool m ∧ l_Stage l = l_Stage m ∧ l_HandoffTo l = l_HandoffTo m ∧ l_HandoffReason l = l_HandoffReason m ∧
  l_ExcludeAuthors l = l_ExcludeAuthors m ∧ l_ShareAllocation l = l_ShareAllocation m ∧ l_LeaseExpiresAt l = l_LeaseExpiresAt m ∧
  l_Slots l = l_Slots m ∧ l_SlotCount l = l_SlotCount m ∧ l_SlotClass l = l_SlotClass m ∧ l_Source l = l_Source m ∧
  l_ScopeFromDiff l = l_ScopeFromDiff m ∧ l_WaitSeconds l = l_WaitSeconds m.
Proof using same.
  split_and!; [apply (same_has "pool")|apply (same_has "stage")|apply (same_has "handoffTo")|apply (same_has "handoffReason")
    |apply (same_has "excludeAuthors")|apply (same_has "shareAllocation")|apply (same_has "leaseExpiresAt")|apply (same_has "slots")
    |apply (same_has "slotCount")|apply (same_has "slotClass")|apply (same_has "source")|apply (same_has "scopeFromDiff")
    |apply (same_has "waitSeconds")]; intros x; lease_member; by destruct (negb _).
Qed.

Lemma same_always :
  l_TicketID l = l_TicketID m ∧ l_Holder l = l_Holder m ∧ l_LeaseMinutes l = l_LeaseMinutes m ∧ l_Branch l = l_Branch m ∧
  l_Base l = l_Base m ∧ l_AttemptID l = l_AttemptID m ∧ l_Generation l = l_Generation m ∧ l_Reason l = l_Reason m.
Proof using same.
  split_and!; [apply (same_nullable "ticketId")|apply (same_nullable "holder")|apply (same_nullable "leaseMinutes")
    |apply (same_nullable "branch")|apply (same_nullable "base")|apply (same_nullable "attemptId")|apply (same_nullable "generation")
    |apply (same_nullable "reason")]; intros x; by lease_member.
Qed.

Lemma same_flags :
  l_SlotExclusive l = l_SlotExclusive m ∧ l_AdmitUnderBarrier l = l_AdmitUnderBarrier m ∧ l_LaneUntouched l = l_LaneUntouched m.
Proof using same.
  split_and!; [apply (same_flag "slotExclusive")|apply (same_flag "admitUnderBarrier")|apply (same_flag "laneUntouched")];
    intros x; lease_member.
  - by destruct (l_SlotExclusive x).
  - by destruct (l_AdmitUnderBarrier x).
  - by destruct (l_LaneUntouched x).
Qed.

Lemma same_rest : l_Verb l = l_Verb m ∧ l_WholeRepository l = l_WholeRepository m ∧ l_Scope l = l_Scope m ∧
  l_ExcludeMembers l = l_ExcludeMembers m.
Proof using same.
  split_and!.
  - assert (∀ x, Get (lease_object x) "verb" = Some (VString (l_Verb x))) as H by (intros x; by lease_member).
    pose proof (same "verb") as G. rewrite !H in G. by injection G.
  - assert (∀ x, Get (lease_object x) "wholeRepository" = Some (VBool (l_WholeRepository x))) as H by (intros x; by lease_member).
    pose proof (same "wholeRepository") as G. rewrite !H in G. by injection G.
  - assert (∀ x, Get (lease_object x) "scope" = Some (match l_Scope x with Some xs => Strings xs | None => VNull end)) as H
      by (intros x; by lease_member).
    pose proof (same "scope") as G. rewrite !H in G. destruct (l_Scope l), (l_Scope m); cbn [fmap option_fmap option_map] in G;
      rewrite ?canon_Strings in G; try done. apply (inj Some), strings_inj in G. by f_equal.
  - assert (∀ x, Get (lease_object x) "excludeMembers" = Strings <$> l_ExcludeMembers x) as H
      by (intros x; lease_member; by destruct (l_ExcludeMembers x)).
    pose proof (same "excludeMembers") as G. rewrite !H in G. destruct (l_ExcludeMembers l), (l_ExcludeMembers m);
      cbn [fmap option_fmap option_map] in G; rewrite ?canon_Strings in G; try done. apply (inj Some), strings_inj in G. by f_equal.
Qed.
End same.

(** *** The members some verbs alone set *)

Section verbs.
Context (l m : LeaseRequest) (same : ∀ k, canon <$> Get (lease_object l) k = canon <$> Get (lease_object m) k).
Context (Hverb : l_Verb l = l_Verb m) (Hl : checkShape l = None) (Hm : checkShape m = None).

(** A text that the verbs listed record, and no other verb takes. *)
Lemma same_for verbs bit k (f : LeaseRequest → string) :
  only_for verbs bit = true → 0 ≤ bit → (∀ x, (2 ^ bit, negb (f x =s ε)) ∈ request_flags x) →
  (∀ x y, contains verbs (l_Verb x) = true → l_Verb x = l_Verb y → canon <$> Get (lease_object x) k = canon <$> Get (lease_object y) k → f x = f y) →
  f l = f m.
Proof using All.
  intros Ho Hb Hf Hin. destruct (contains verbs (l_Verb l)) eqn:E; [by apply Hin|].
  pose proof (absent verbs bit l _ Ho Hb Hl E (Hf l)) as H1.
  rewrite Hverb in E. pose proof (absent verbs bit m _ Ho Hb Hm E (Hf m)) as H2.
  apply negb_false_iff, String.eqb_eq in H1, H2. congruence.
Qed.

Ltac flag_there := intros x; unfold request_flags; cbv zeta; repeat first [left | right].

Lemma same_gates : l_Tree l = l_Tree m ∧ l_Gate l = l_Gate m ∧ l_Commit l = l_Commit m.
Proof using All.
  assert (∀ k (f : LeaseRequest → string) x y, contains gateVerbs (l_Verb x) = true → l_Verb x = l_Verb y →
    (∀ x, Get (lease_object x) k = if contains gateVerbs (l_Verb x) then Some (optionalString (f x)) else None) →
    canon <$> Get (lease_object x) k = canon <$> Get (lease_object y) k → f x = f y) as H.
  { intros k f x y Hv Hxy Hk G. rewrite !Hk, <-Hxy, Hv in G. apply optional_inj. revert G. unfold optionalString.
    by destruct (f x =s ε), (f y =s ε). }
  split_and!; [apply (same_for gateVerbs 10 "tree")|apply (same_for gateVerbs 11 "gate")|apply (same_for gateVerbs 12 "commit")];
    try reflexivity; try lia; try solve [flag_there]; intros x y Hv Hxy G.
  - apply (H "tree" l_Tree x y Hv Hxy); [|done]. intros z. lease_member. by destruct (contains gateVerbs (l_Verb z)).
  - apply (H "gate" l_Gate x y Hv Hxy); [|done]. intros z. lease_member. by destruct (contains gateVerbs (l_Verb z)).
  - apply (H "commit" l_Commit x y Hv Hxy); [|done]. intros z. lease_member. by destruct (contains gateVerbs (l_Verb z)).
Qed.
Lemma same_operation : l_Operation l = l_Operation m ∧ l_SweepSeconds l = l_SweepSeconds m.
Proof using All.
  split; [apply (same_for [LeasePoolOperate] 31 "operation")|apply (same_for [LeasePoolSweep] 20 "sweepSeconds")];
    try reflexivity; try lia; try solve [flag_there]; intros x y Hv Hxy G; unfold contains in Hv; cbn [existsb] in Hv.

  - assert (∀ z, Get (lease_object z) "operation" = if l_Verb z =s LeasePoolOperate then Some (VString (l_Operation z)) else None) as H
      by (intros z; lease_member; by destruct (l_Verb z =s LeasePoolOperate)).
    rewrite !H, <-Hxy in G. apply orb_true_iff in Hv as [Hv|]; [|done]. rewrite Hv in G. by injection G.
  - assert (∀ z, Get (lease_object z) "sweepSeconds" = if l_Verb z =s LeasePoolSweep then Some (VString (l_SweepSeconds z)) else None) as H
      by (intros z; lease_member; by destruct (l_Verb z =s LeasePoolSweep)).
    rewrite !H, <-Hxy in G. apply orb_true_iff in Hv as [Hv|]; [|done]. rewrite Hv in G. by injection G.
Qed.

Ltac verb_cases :=
  repeat match goal with |- context [l_Verb ?x =s ?v] => destruct (l_Verb x =s v); cbn; try reflexivity end.

Lemma Get_member x : Get (lease_object x) "member" = if contains memberVerbs (l_Verb x) then Some (VString (l_Member x)) else None.
Proof using Type.
  lease_member. unfold isPoolHoldVerb, contains, memberVerbs. cbn [existsb].
  verb_cases.
Qed.

Lemma Get_allocation x : Get (lease_object x) "allocation" =
  if contains allocationVerbs (l_Verb x) || contains [LeasePoolSweep; LeasePoolOperate; LeasePoolReport; LeasePoolHold; LeasePoolHoldRenew; LeasePoolHoldRelease] (l_Verb x) && negb (l_Allocation x =s ε)
  then Some (VString (l_Allocation x)) else None.
Proof using Type.
  lease_member. unfold isPoolHoldVerb, contains, allocationVerbs. cbn [existsb].
  destruct (negb (l_Allocation x =s ε)); rewrite ?andb_true_r, ?andb_false_r; cbn; verb_cases.
Qed.

Lemma Get_evidence x : Get (lease_object x) "evidence" =
  if contains evidenceVerbs (l_Verb x) || contains [LeaseRelease] (l_Verb x) && negb (l_Evidence x =s ε)
  then Some (VString (l_Evidence x)) else None.
Proof using Type.
  lease_member. unfold contains, evidenceVerbs. cbn [existsb].
  destruct (negb (l_Evidence x =s ε)); rewrite ?andb_true_r, ?andb_false_r; cbn; verb_cases.
Qed.

(** A text recorded always, or when it is given. *)
Lemma recorded_inj (always given_ : bool) (a b : string) : always || given_ = true →
  canon <$> (if always || given_ && negb (a =s ε) then Some (VString a) else None) =
  canon <$> (if always || given_ && negb (b =s ε) then Some (VString b) else None) → a = b.
Proof using Type.
  destruct always, given_; try done; cbn [orb andb]; intros _; [by intros [=]..|].
  destruct (String.eqb_spec a ε), (String.eqb_spec b ε); cbn; congruence.
Qed.

Lemma same_physical : l_Member l = l_Member m ∧ l_Allocation l = l_Allocation m ∧ l_Evidence l = l_Evidence m.
Proof using All.
  split_and!.
  - apply (same_for memberVerbs 15 "member"); try reflexivity; try lia; try solve [flag_there]. intros x y Hv Hxy G.
    rewrite !Get_member, <-Hxy, Hv in G. by injection G.
  - apply (same_for (allocationVerbs ++ [LeasePoolSweep; LeasePoolOperate; LeasePoolReport; LeasePoolHold; LeasePoolHoldRenew; LeasePoolHoldRelease]) 16 "allocation"); try reflexivity; try lia; try solve [flag_there].
    intros x y Hv Hxy G. rewrite !Get_allocation, <-Hxy in G. unfold contains in Hv. rewrite existsb_app in Hv. by eapply recorded_inj.
  - apply (same_for (evidenceVerbs ++ [LeaseRelease]) 17 "evidence"); try reflexivity; try lia; try solve [flag_there].
    intros x y Hv Hxy G. rewrite !Get_evidence, <-Hxy in G. unfold contains in Hv. rewrite existsb_app in Hv. by eapply recorded_inj.
Qed.
End verbs.

(** C32: the canonical bytes a lease command's digest is taken of identify the
    command: two accepted requests have the same only when every field of them
    is the same. *)
Theorem leaseValue_identifies l m q q' v w : leaseValue l q = Ok v → leaseValue m q' = Ok w → EncodeFile v = EncodeFile w → l = m.
Proof.
  unfold leaseValue. destruct (checkShape l) eqn:Hl; [done|]. destruct (checkLeaseFields l q); [done|]. intros [= <-].
  destruct (checkShape m) eqn:Hm; [done|]. destruct (checkLeaseFields m q'); [done|]. intros [= <-] He.
  apply EncodeFile_inj in He; [|apply distinct_lease_object..].
  assert (∀ k, canon <$> Get (lease_object l) k = canon <$> Get (lease_object m) k) as same
    by (intros k; apply canon_Get; [apply distinct_lease_object..|done]).
  pose proof (same_texts _ _ same) as H1. pose proof (same_always _ _ same) as H2. pose proof (same_flags _ _ same) as H3.
  pose proof (same_rest _ _ same) as H4. pose proof (proj1 H4) as Hv. pose proof (same_gates _ _ same Hv Hl Hm) as H5.
  pose proof (same_operation _ _ same Hv Hl Hm) as H6. pose proof (same_physical _ _ same Hv Hl Hm) as H7.
  clear same He Hl Hm Hv. destruct l, m. cbn in *. destruct_and!. by subst.
Qed.

Definition sample_renew (generation : string) : LeaseRequest :=
  (emptyRequest LeaseRenew) <| l_AttemptID := "attempt:x:q:0123456789abcdef0123456789abcdef" |> <| l_Generation := generation |>
    <| l_LeaseMinutes := "30" |>.

Lemma leaseValue_identifies_witness :
  (∃ v w, leaseValue (sample_renew "7") sample_queue = Ok v ∧ leaseValue (sample_renew "8") sample_queue = Ok w ∧ EncodeFile v ≠ EncodeFile w) ∧
  sample_renew "7" = sample_renew "7".
Proof.
  destruct (leaseValue (sample_renew "7") sample_queue) as [v| |] eqn:Ev; [|exfalso; revert Ev; vm_compute; discriminate..].
  destruct (leaseValue (sample_renew "8") sample_queue) as [w| |] eqn:Ew; [|exfalso; revert Ew; vm_compute; discriminate..].
  split.
  - exists v, w. split; [reflexivity|]. split; [reflexivity|]. intros He.
    pose proof (leaseValue_identifies _ _ _ _ _ _ Ev Ew He) as H. apply (f_equal l_Generation) in H. discriminate H.
  - exact (leaseValue_identifies _ _ _ _ _ _ Ev Ev eq_refl).
Defined.
