(* ===== verification/Lease.v ===== *)
(** * Leases

    [lease.go], [lease_claim.go], [lease_handoff.go], [lane_untouched.go],
    [pool_share.go] and [attempt_detail.go] of [src/internal/tasks/transaction],
    with what they use of its [pools.go], [pool_wait.go], [pool_report.go],
    [pool_commands.go], [priority_admission.go] and [authors.go]: what one
    lease command does to the attempt records, the reservation set and the
    pools. A planner reads the state its transaction observed and returns
    either the files it posts, with the effect the receipt records, or a
    refusal that posts nothing.

    The verbs modelled are CLAIM, CLAIM_NEXT, HEARTBEAT, RENEW, RELEASE, REAP
    and WIDEN. What [DecodePrograms] reads of [programs.json] (through
    [encoding/json]) and [intent.HandoffPolicyCompatible] (which decodes two
    policies, through [regexp]) are parameters. *)

From S2P Require Import Prelude View Utf8 GoStd Codes Limits Value Primitives Ids Parse Reader Ticket Inventory Marks.
From S2P Require Import RecordParts RecordCodec Collision Intent Updates Mutation Outcomes Writer Attempt Pools Clock Planner LeaseRequest.
Local Open Scope Z_scope.
Local Open Scope go_scope.

(** ** What a transaction observes *)

(** [archive.FileEntry], of a complete inventory. *)
Record FileEntry := { fe_Sha256 : string; fe_Bytes : string }.

Record HandoffPolicyObservation := {
  ho_AttemptID : string; ho_Generation : string; ho_LastSeq : string; ho_HeadSha256 : string;
  ho_LastReceiptSha256 : string; ho_FinalPolicySha256 : string; ho_PoolID : string; ho_MemberID : string;
  ho_OriginalPath : string; ho_OriginalSeq : string; ho_OriginalSha256 : string; ho_OriginalReceiptSha256 : string;
  ho_OriginalRaw : string; ho_FirstAttemptPath : string; ho_FirstAttemptSeq : string; ho_FirstAttemptSha256 : string;
  ho_FirstAttemptReceiptSha256 : string; ho_FirstPolicySha256 : string; ho_FirstConfigSha256 : string;
  ho_FirstCapabilitySha256 : string; ho_FirstAllocationSha256 : string; ho_Compatible : bool
}.

(** The facts a lease command of these verbs reads; nil paths are [None]. *)
Record LeaseFacts := mkFacts {
  lf_AllocationID : string; lf_Observation : string; lf_AttemptID : string; lf_BaseCommit : string;
  lf_DerivedTicketID : string; lf_DerivedPaths : option (list string); lf_DerivationSha256 : string; lf_DiffPaths : list string
}.

Record LeaseInput := mkInput {
  in_Files : gmap string FileEntry; in_Head : string; in_HeadReceipt : string; in_Programs : string; in_RecordedAt : string;
  in_Facts : LeaseFacts; in_HandoffPolicy : option HandoffPolicyObservation
}.

(** [snapshot.Head] and [snapshot.Barrier], the fields a lease reads. *)
Record Head := { hd_Generation : string; hd_LastSeq : string }.

Record Barrier := { bar_Scope : string; bar_Reason : string }.

Record inputState := mkState {
  st_Pools : PoolState; st_Head : Head; st_Barrier : option Barrier; st_Queue : Queue; st_Policy : Policy;
  st_Tickets : Inventory; st_Reservations : ReservationSet; st_Attempts : gmap string Attempt
}.

(** ** Outcomes *)

Record ExpiredLease := mkExpired { xl_AttemptID : string; xl_Generation : string }.

(** A text, or the text of an error. *)
Inductive detail : Type :=
  | Text (s : string)
  | ErrorText (e : Error).

(** The declared and the rejected paths. *)
Record ScopeRefusal := mkScopeRefusal { sr_Declared : list string; sr_Rejected : list string }.

(** [Result] of a command that posts nothing; [Coverage] is the same in all. *)
Record LeaseResult := mkResult {
  lr_Kind : string; lr_Outcome : Outcome; lr_Detail : detail; lr_Expired : list ExpiredLease;
  lr_AuthorExclusion : option AuthorExclusion; lr_ScopeRefusal : option ScopeRefusal
}.

Record RestoredScope := mkRestored { rsc_FromGeneration : string; rsc_Paths : list string }.

Definition restored_paths (r : option RestoredScope) : list string := match r with Some r => rsc_Paths r | None => [] end.

Record leaseEffect := mkEffect {
  ef_kind : string; ef_attemptID : string; ef_generation : string; ef_bumpHead : bool; ef_outcome : string; ef_codes : list string
}.

(** A nil map of posts is empty. *)
Record leaseOutcome := mkLeaseOutcome {
  lo_posts : gmap string string; lo_effect : option leaseEffect; lo_detail : string; lo_result : option LeaseResult;
  lo_authors : option AuthorExclusion; lo_restored : option RestoredScope
}.

Definition refusal_of (r : LeaseResult) : leaseOutcome := mkLeaseOutcome ∅ None ε (Some r) None None.

Definition refused (id outcome code : string) (why : detail) : LeaseResult :=
  mkResult "Refused" (bare_outcome id outcome (if negb (code =s ε) then [code] else [])) why [] None None.

Definition failed_result (id : string) (e : Error) : LeaseResult :=
  let out := if (Code e =s CodeUnsupported) || (Code e =s CodeUnsupportedVersion) then OutcomeUnsupported else OutcomeValidationFailed in
  refused id out (Code e) (ErrorText e).

Definition noChange (id : string) : LeaseResult :=
  mkResult "NoChange" (bare_outcome id OutcomeCompleted []) (Text ε) [] None None.

(** Assigning to a field of a refusal's result. *)
Definition with_expired (out : leaseOutcome) (xs : list ExpiredLease) : leaseOutcome :=
  match lo_result out with
  | Some r => refusal_of (mkResult (lr_Kind r) (lr_Outcome r) (lr_Detail r) xs (lr_AuthorExclusion r) (lr_ScopeRefusal r))
  | None => out
  end.

Definition with_scope_refusal (out : leaseOutcome) (x : ScopeRefusal) : leaseOutcome :=
  match lo_result out with
  | Some r => refusal_of (mkResult (lr_Kind r) (lr_Outcome r) (lr_Detail r) (lr_Expired r) (lr_AuthorExclusion r) (Some x))
  | None => out
  end.

Definition with_author_exclusion (out : leaseOutcome) (x : option AuthorExclusion) : leaseOutcome :=
  match lo_result out with
  | Some r => refusal_of (mkResult (lr_Kind r) (lr_Outcome r) (lr_Detail r) (lr_Expired r) x (lr_ScopeRefusal r))
  | None => out
  end.

(** ** The context of a command *)

Record leaseContext := mkLeaseContext {
  c_QueueID : string; c_RequestID : string; c_Actor : Writer.Binding; c_l : LeaseRequest; c_in : LeaseInput; c_st : inputState;
  c_seq : string; c_authors : option AuthorExclusion; c_source : option PoolSource
}.

Definition eta_context (c : leaseContext) : leaseContext :=
  mkLeaseContext (c_QueueID c) (c_RequestID c) (c_Actor c) (c_l c) (c_in c) (c_st c) (c_seq c) (c_authors c) (c_source c).

#[export] Instance set_c_l : Setter c_l.
Proof. setter eta_context c_l. Defined.
#[export] Instance set_c_authors : Setter c_authors.
Proof. setter eta_context c_authors. Defined.

Definition now (c : leaseContext) : string := in_RecordedAt (c_in c).
Definition facts (c : leaseContext) : LeaseFacts := in_Facts (c_in c).
Definition entries (c : leaseContext) : list ReservationEntry := rs_Entries (st_Reservations (c_st c)).
Definition attempt_of (c : leaseContext) (id : string) : option Attempt := st_Attempts (c_st c) !! id.
Definition policy_of (c : leaseContext) : Policy := st_Policy (c_st c).

Definition refuse (c : leaseContext) (outcome code why : string) : leaseOutcome :=
  refusal_of (refused (c_RequestID c) outcome code (Text why)).

Definition fail (c : leaseContext) (e : Error) : leaseOutcome := refusal_of (failed_result (c_RequestID c) e).

Definition unchanged (c : leaseContext) : leaseOutcome := refusal_of (noChange (c_RequestID c)).

(** An outcome, or what its error makes of it. *)
Definition or_fail {A} (c : leaseContext) (x : res A) (k : A → planned leaseOutcome) : planned leaseOutcome :=
  match x with Ok a => k a | Err e => Ok (fail c e) | OutOfFuel => OutOfFuel end.

(** [expired(a, now)] of an attempt that may be nil. *)
Definition expired_attempt (a : option Attempt) (t : string) : planned bool :=
  match a with Some a => Ok (expired a t) | None => Err NilPanic end.

Definition named (c : leaseContext) : res Attempt :=
  match attempt_of c (l_AttemptID (c_l c)) with
  | Some a => Ok a
  | None => Err (malformed ("unknown attempt " +:+ l_AttemptID (c_l c)))
  end.

Definition expiredRemedy : string :=
  "; no command of this generation takes effect and renew cannot revive it (CAL-V0-010): claim the ticket again, which reaps the expired lease (CAL-V0-011), then submit and run its gates at the new generation; renew or heartbeat before the lease expires to keep it through an idle gap".

Definition stale_generation (c : leaseContext) (a : Attempt) : string :=
  "generation " +:+ l_Generation (c_l c) +:+ " is not the attempt's current generation " +:+ atp_Generation a.

(** [c.fenced(a)]: why the command can no longer take effect, or empty. *)
Definition fenced (c : leaseContext) (a : Attempt) : string :=
  if negb (Size_Uint64 (atp_Generation a) =? Size_Uint64 (l_Generation (c_l c))) then stale_generation c a
  else if negb (Live a) then "the attempt is " +:+ atp_Phase a
  else if expired a (now c) then
    "the lease expired at " +:+ match atp_Lease a with Some l => ls_ExpiresAt l | None => ε end +:+ expiredRemedy
  else ε.

Definition recordFenced (c : leaseContext) (a : Attempt) (why : string) : leaseOutcome :=
  mkLeaseOutcome ∅ (Some (mkEffect "TRANSITION" (atp_AttemptID a) (l_Generation (c_l c)) false OutcomeRevisionConflict [CodeFenced]))
    why None None None.

Definition attemptPath (id : string) : string := "attempts/" +:+ id +:+ ".json".

Definition without (c : leaseContext) (id : string) : list ReservationEntry :=
  List.filter (λ e, negb (en_AttemptID e =s id)) (entries c).

Definition attemptLookup (c : leaseContext) (override : option Attempt) (id : string) : option Attempt :=
  match override with
  | Some a => if atp_AttemptID a =s id then Some a else attempt_of c id
  | None => attempt_of c id
  end.

(** The live waiters of the observed pools. *)
Definition observed_waiters (c : leaseContext) : planned (list PoolWaiter) :=
  liveWaiters (pst_Waiters (st_Pools (c_st c))) (st_Pools (c_st c)) (policy_of c) (st_Tickets (c_st c)) (attemptLookup c None) (now c).

(** ** Pools *)

Definition sharedEntry (c : leaseContext) : option PoolEntry :=
  List.find (λ en, pe_AllocationID en =s l_ShareAllocation (c_l c)) (pst_Entries (st_Pools (c_st c))).

Definition identityGuarded (p : Policy) (en : PoolEntry) : bool :=
  match Policy_Pool p (pe_PoolID en) with Some x => some (mc_Identity (Pool_Config x (pe_MemberID en))) | None => false end.

Definition same_bound (x : PoolShare) (a : Attempt) : bool :=
  (psh_AttemptID x =s atp_AttemptID a) && (psh_Generation x =s atp_Generation a).

(** The last index at which [f] holds. *)
Definition last_index {A} (f : A → bool) (l : list A) : option nat :=
  foldl (λ found ix, if f ix.2 then Some ix.1 else found) None (imap pair l).

(** [c.sharedPost(en, a)]; [en.Shared[0]] of an empty list panics. *)
Definition sharedPost (c : leaseContext) (en : PoolEntry) (a : Attempt) : planned PoolEntry :=
  let primary := (pe_AttemptID en =s atp_AttemptID a) && (pe_Generation en =s atp_Generation a) in
  let at_ := last_index (λ x, same_bound x a) (pe_Shared en) in
  let changed e := Ok ((e : PoolEntry) <| pe_ChangedSeq := c_seq c |>) in
  if Live a && negb primary && negb (some at_) then
    changed (en <| pe_Shared := pe_Shared en ++ [mkShare (atp_AttemptID a) (atp_Generation a)] |>)
  else if Live a then Ok en
  else match at_ with
  | Some k => changed (en <| pe_Shared := delete k (pe_Shared en) |>)
  | None =>
      if primary then
        match pe_Shared en with
        | x :: rest => changed (en <| pe_AttemptID := psh_AttemptID x |> <| pe_Generation := psh_Generation x |> <| pe_Shared := rest |>)
        | [] => Err NilPanic
        end
      else Ok en
  end.

Section digests.
Context (sha256 : string → string).

(** The entries [poolPosts] leaves, whether it found the attempt's, and the
    observation it posts. *)
Fixpoint pool_entries (c : leaseContext) (a : Attempt) (x : PoolAllocation) (l : list PoolEntry) :
    planned (list PoolEntry * bool * gmap string string) :=
  match l with
  | [] => Ok ([], false, ∅)
  | en :: l' =>
      if negb (pe_AllocationID en =s pa_AllocationID x) then
        let* r := pool_entries c a x l' in Ok (en :: r.1.1, r.1.2, r.2)
      else if (pe_State en =s "ALLOCATED") &&
              (negb (is_empty (pe_Shared en)) ||
               some (atp_SharedAllocation a) && (negb (pe_AttemptID en =s atp_AttemptID a) || negb (pe_Generation en =s atp_Generation a)))
      then let* en := sharedPost c en a in Ok (en :: l', true, ∅)
      else
        let admitted := Live a && (pe_State en =s "PREPARING") in
        let d := Sum sha256 (lf_Observation (facts c)) in
        let en1 :=
          if admitted then
            en <| pe_State := "ALLOCATED" |> <| pe_AttemptID := atp_AttemptID a |> <| pe_Generation := atp_Generation a |>
               <| pe_ChangedSeq := c_seq c |> <| pe_RunnerPID := "0" |> <| pe_RunnerStarted := ε |>
               <| pe_ObservationSha256 := Some d |> <| pe_Source := c_source c |>
          else en in
        let posts : gmap string string := if admitted then {["evidence/" +:+ d := lf_Observation (facts c)]} else ∅ in
        if negb (Live a) && (l_Verb (c_l c) =s LeaseRelease) && l_LaneUntouched (c_l c) && some (atp_LaneUntouchedAttestation a) &&
           negb (identityGuarded (policy_of c) en)
        then Ok (l', true, posts)
        else
          let en2 :=
            if negb (Live a) then
              en1 <| pe_State := "QUARANTINED" |> <| pe_ChangedSeq := c_seq c |>
                  <| pe_Reason := "logical attempt ended; physical safe reuse unproved" |>
            else en1 in
          let* r := pool_entries c a x l' in Ok (en2 :: r.1.1, true, posts ∪ r.2)
  end.

(** A fresh occupancy of an attempt; its lease is there. *)
Definition fresh_entry (c : leaseContext) (a : Attempt) (x : PoolAllocation) : planned PoolEntry :=
  match atp_Lease a with
  | None => Err NilPanic
  | Some l =>
      Ok (mkPoolEntry ε ε ε ε false None x "ALLOCATED" (ls_Holder l) (atp_Stage a) (atp_AttemptID a) (atp_Generation a) (c_seq c)
            (atp_PolicySha256 a) (Sum sha256 (c_RequestID c)) None ε [] (c_source c) None ε None None)
  end.

Definition with_entries (p : PoolState) (es : list PoolEntry) : PoolState :=
  mkPools (pst_QueueID p) es (pst_Slots p) (pst_Identities p) (pst_Waiters p) (pst_Operations p).

Definition with_waiters (p : PoolState) (ws : list PoolWaiter) : PoolState :=
  mkPools (pst_QueueID p) (pst_Entries p) (pst_Slots p) (pst_Identities p) ws (pst_Operations p).

(** [c.poolPosts(a, posts)]: the posts added, or the error. *)
Definition poolPosts (c : leaseContext) (a : Attempt) : planned (res (gmap string string)) :=
  match atp_PoolAllocation a with
  | None => Ok (Ok ∅)
  | Some x =>
      let state := st_Pools (c_st c) in
      let* r := pool_entries c a x (pst_Entries state) in
      let post es :=
        Ok (let* raw := Pools_Encode (with_entries state es) in Ok (<["pools.json" := raw]> r.2)) in
      if r.1.2 then post r.1.1
      else if negb (Live a) then Ok (Err (malformed "terminal attempt lacks pool allocation"))
      else let* en := fresh_entry c a x in post (r.1.1 ++ [en])
  end.

Definition graceWaiter (c : leaseContext) (a : Attempt) : planned (option PoolWaiter) :=
  match atp_Lease a with
  | None => Ok None
  | Some lease =>
      if negb (l_Verb (c_l c) =s LeaseRelease) || negb (l_Reason (c_l c) =s CodeHandoff) || Live a then Ok None
      else
        let* poolID :=
          match atp_PoolAllocation a with
          | Some x => Ok (pa_PoolID x)
          | None =>
              let* live := observed_waiters c in
              Ok (foldl (λ id w, if pw_AttemptID w =s atp_AttemptID a then pw_PoolID w else id) ε live)
          end in
        match Policy_Pool (policy_of c) poolID with
        | None => Ok None
        | Some pool =>
            if pool_HandoffGraceSeconds pool =? 0 then Ok None
            else
              let* rec := get_record (st_Tickets (c_st c)) (TicketID_Raw (atp_TicketID a)) in
              match rec with
              | None => Ok None
              | Some rec =>
                  Ok (Some (mkWaiter (pool_ID pool) (TicketID_Raw (atp_TicketID a)) WaiterGrace ε ε (ls_Holder lease) (rec_Priority rec)
                              (c_seq c) (now c) (addSeconds (now c) (pool_HandoffGraceSeconds pool))))
              end
        end
  end.

#[local] Instance PoolWaiter_eq_dec : EqDecision PoolWaiter.
Proof. solve_decision. Defined.

(** [c.waitlistPosts(a, posts)] *)
Definition waitlistPosts (c : leaseContext) (a : Attempt) (posts : gmap string string) : planned (res (gmap string string)) :=
  let* grace := graceWaiter c a in
  if is_empty (pst_Waiters (st_Pools (c_st c))) && negb (some grace) then Ok (Ok posts)
  else
    match match posts !! "pools.json" with Some raw => DecodePools raw | None => Ok (st_Pools (c_st c)) end with
    | Err e => Ok (Err e)
    | OutOfFuel => OutOfFuel
    | Ok state =>
        let* next := liveWaiters (pst_Waiters state) state (policy_of c) (st_Tickets (c_st c)) (attemptLookup c (Some a)) (now c) in
        let next :=
          match grace with
          | None => Ok next
          | Some g =>
              let kept := List.filter (λ w, negb (pw_PoolID w =s pw_PoolID g) || negb (pw_TicketID w =s pw_TicketID g)) next in
              if MaxPoolWaiters <=? len kept
              then Err (over_limit ("pool " +:+ pw_PoolID g +:+ " waitlist holds " +:+ strconv.FormatInt MaxPoolWaiters +:+
                     " entries; no room for the HANDOFF GRACE entry of " +:+ pw_TicketID g))
              else Ok (kept ++ [g])
          end in
        Ok (let* next := next in
            if (is_empty next && is_empty (pst_Waiters state)) || bool_decide (SortPoolWaiters next = SortPoolWaiters (pst_Waiters state))
            then Ok posts
            else let* raw := Pools_Encode (with_waiters state next) in Ok (<["pools.json" := raw]> posts))
    end.

(** [c.write(a, entries, kind, bump)]; nil entries are [None]. *)
Definition write (c : leaseContext) (a : Attempt) (es : option (list ReservationEntry)) (kind : string) (bump : bool) :
    planned leaseOutcome :=
  or_fail c (Attempt_Encode a) (λ raw,
    let* pools := poolPosts c a in
    or_fail c pools (λ pools,
      let* posts := waitlistPosts c a (pools ∪ {[attemptPath (atp_AttemptID a) := raw]}) in
      or_fail c posts (λ posts,
        let written := match es with
          | None => Ok posts
          | Some es =>
              let* raw := Reservations_Encode (mkReservations (rs_QueueID (st_Reservations (c_st c))) es) in
              Ok (<["reservations.json" := raw]> posts)
          end in
        or_fail c written (λ posts,
          Ok (mkLeaseOutcome posts (Some (mkEffect kind (atp_AttemptID a) (atp_Generation a) bump OutcomeCompleted [])) ε None None None))))).

(** ** Handoffs *)

(** [h.Sum == wire.Sum(...)] and the like of the original policy. *)
Section handoff.
(** Whether [intent.HandoffPolicyCompatible] of two policies' bytes, a pool and
    a member holds without an error. *)
Context (HandoffPolicyCompatible : string → string → string → string → bool).

Definition parses {A} (x : res A) : bool := match x with Ok _ => true | _ => false end.

(** [canonical(raw) == nil] *)
Definition is_canonical (raw : string) : bool := match Parse raw with Ok v => raw =s EncodeFile v | _ => false end.

Definition handoffPolicyCompatible (c : leaseContext) (a : Attempt) : bool :=
  match in_HandoffPolicy (c_in c) with
  | None => false
  | Some h =>
      let sum := Sum sha256 in
      let raw := pol_Raw (policy_of c) in
      let '(allocation, pool, member) :=
        match atp_PoolAllocation a with
        | Some x => (PoolAllocationValue x, pa_PoolID x, pa_MemberID x)
        | None => (VNull, ε, ε)
        end in
      ho_Compatible h && (ho_AttemptID h =s atp_AttemptID a) && (ho_Generation h =s atp_Generation a) &&
      (ho_HeadSha256 h =s sum (in_Head (c_in c))) && (ho_LastSeq h =s hd_LastSeq (st_Head (c_st c))) &&
      (ho_LastReceiptSha256 h =s sum (in_HeadReceipt (c_in c))) && (ho_FinalPolicySha256 h =s sum raw) &&
      forallb (λ seq, parses (ParseSize "handoff history sequence" seq)) [ho_OriginalSeq h; ho_FirstAttemptSeq h] &&
      (ho_OriginalPath h =s "intent/policy.json") && negb (Size_Uint64 (ho_OriginalSeq h) =? 0) &&
      (Size_Uint64 (ho_OriginalSeq h) <? Size_Uint64 (ho_FirstAttemptSeq h)) &&
      (Size_Uint64 (ho_FirstAttemptSeq h) <=? Size_Uint64 (ho_LastSeq h)) &&
      (ho_FirstAttemptPath h =s attemptPath (atp_AttemptID a)) && (ho_OriginalSha256 h =s atp_PolicySha256 a) &&
      (sum (ho_OriginalRaw h) =s atp_PolicySha256 a) && (ho_FirstPolicySha256 h =s atp_PolicySha256 a) &&
      (ho_FirstConfigSha256 h =s atp_ConfigSha256 a) && (ho_FirstCapabilitySha256 h =s atp_CapabilityProfileSha256 a) &&
      forallb (λ d, parses (ParseDigest "handoff history" d))
        [ho_OriginalReceiptSha256 h; ho_FirstAttemptReceiptSha256 h; ho_FirstAttemptSha256 h] &&
      is_canonical (ho_OriginalRaw h) && (ho_PoolID h =s pool) && (ho_MemberID h =s member) &&
      (ho_FirstAllocationSha256 h =s sum (EncodeFile allocation)) &&
      HandoffPolicyCompatible (ho_OriginalRaw h) raw pool member
  end.

Definition no_clean_accounting (a : Attempt) : bool :=
  match atp_RetryAccounting a with Some x => ra_FailedOrUnknown x || negb (ra_Disposition x =s "NONE") | None => true end.

Definition verifyHandoffWork (c : leaseContext) (a : Attempt) : option leaseOutcome :=
  let no code why := Some (refuse c OutcomeBlocked code why) in
  if negb (atp_RuntimeID a =s RuntimeExternalAgent) || negb (contains PoolStageRoles (atp_Stage a)) ||
     ((l_Reason (c_l c) =s CodeReviewReturned) && negb (atp_Stage a =s "review"))
  then no CodeTicketState "handoff requires an external-agent implement/review/integrate attempt; REVIEW_RETURNED requires review. HANDOFF and REVIEW_RETURNED are stage handoffs: to free the attempt without one, omit --reason or pass another closed code (TCD-V0-178)"
  else if no_clean_accounting a then no CodeMissingEvidence "generation has no clean prospective accounting evidence"
  else if negb (l_Evidence (c_l c) =s ε) then
    if negb (atp_Phase a =s "RUNNING") || some (atp_CandidateTreeOid a) || negb (atp_ScopeCheck a =s "UNKNOWN") ||
       negb (is_empty (atp_GateResults a)) || negb (is_empty (atp_PendingEffects a))
    then no CodeMissingEvidence "external evidence handoff requires RUNNING, no candidate, no gates and no pending effects"
    else None
  else if (negb (atp_Phase a =s "BUILT") && negb (atp_Phase a =s "CHECKING")) || negb (some (atp_CandidateTreeOid a)) ||
          negb (atp_ScopeCheck a =s "WITHIN") || negb (is_empty (atp_PendingEffects a))
  then no CodeMissingEvidence "handoff needs a scope-checked submitted candidate and no pending effects"
  else None.

Definition verifyHandoff (c : leaseContext) (a : Attempt) : planned (option leaseOutcome) :=
  let* rec := get_record (st_Tickets (c_st c)) (TicketID_Raw (atp_TicketID a)) in
  Ok (if match rec with Some rec => negb (rec_AcceptanceRevision rec =s atp_TicketRevision a) | None => true end
      then Some (refuse c OutcomeBlocked CodeStaleTicket "handoff acceptance revision changed")
      else if negb (atp_ConfigSha256 a =s atp_PolicySha256 a) ||
              (negb (atp_PolicySha256 a =s Sum sha256 (pol_Raw (policy_of c))) && negb (handoffPolicyCompatible c a))
      then Some (refuse c OutcomeBlocked CodeStalePolicy "handoff policy changed")
      else verifyHandoffWork c a).

(** ** Releasing an untouched lane *)

(** What [DecodePrograms] reads: the queue, the attempt and generation each
    program holds, and the bytes [Encode] gives. *)
Record ProgramState := mkPrograms { ps_QueueID : string; ps_Entries : list (string * string); ps_Encoded : string }.

Context (DecodePrograms : string → option ProgramState).

Definition matches (c : leaseContext) (path raw : string) : bool :=
  match in_Files (c_in c) !! path with
  | Some f => (fe_Sha256 f =s Sum sha256 raw) && (Size_Uint64 (fe_Bytes f) =? slen raw)
  | None => false
  end.

(** One program's entry is no evidence of use of the attempt. *)
Definition unassociated (c : leaseContext) (a : Attempt) (x : string * string) : bool :=
  let '(attempt, generation) := x in
  negb (attempt =s atp_AttemptID a) && negb (generation =s atp_Generation a) &&
  Bool.eqb (attempt =s ε) (generation =s ε) &&
  ((attempt =s ε) ||
   match AttemptQueue attempt with Ok q => QueueID_Raw q =s c_QueueID c | _ => false end &&
   parses (ParseSize "program generation" generation)).

Definition untouchedPrograms (c : leaseContext) (a : Attempt) : option Error :=
  let raw := in_Programs (c_in c) in
  let present := some (in_Files (c_in c) !! "programs.json") in
  let ok :=
    if raw =s ε then negb present
    else present && matches c "programs.json" raw &&
      match DecodePrograms raw with
      | Some p => (ps_QueueID p =s c_QueueID c) && (ps_Encoded p =s raw) && forallb (unassociated c a) (ps_Entries p)
      | None => false
      end in
  reject (negb ok)
    (Errorf CodeMissingEvidence "programs" "missing, unbound, malformed or associated native program evidence" []).

(** A generation that was used, or may have been. *)
Definition maybe_used (a : Attempt) : bool :=
  negb (atp_RuntimeID a =s RuntimeExternalAgent) || negb (atp_Phase a =s "RUNNING") || negb (atp_Quiescence a =s "UNPROVED") ||
  some (atp_Supervisor a) || some (atp_Supervision a) || some (atp_Lane a) || some (atp_WorktreePath a) || some (atp_NoExec a) ||
  negb (Count_Int (atp_SpawnNoExecCount a) =? 0) || some (atp_CandidateTreeOid a) || some (atp_ManifestSha256 a) ||
  negb (is_empty (atp_GateResults a ++ atp_Reviews a ++ atp_PendingEffects a)) || negb (atp_ScopeCheck a =s "UNKNOWN") ||
  no_clean_accounting a || negb (atp_HandoffEvidence a =s ε) || some (atp_LaneUntouchedAttestation a) ||
  negb (Count_Int (atp_RetryCount a) =? 0) || negb (Count_Int (atp_RepairRound a) =? 0) || negb (is_empty (atp_PriorGenerations a)).

(** The attempt was admitted directly to its member, and nothing since. *)
Definition direct_origin (a : Attempt) : option (DirectPoolAdmission * PoolAllocation * Lease) :=
  match atp_DirectPoolAdmission a, atp_PoolAllocation a, atp_Lease a with
  | Some o, Some x, Some l =>
      match dpa_Allocation o with
      | Some ox =>
          let seq := dpa_OriginalAdmissionSeq o in
          if (dpa_AttemptID o =s atp_AttemptID a) && (dpa_Generation o =s atp_Generation a) && (dpa_Holder o =s ls_Holder l) &&
             (dpa_Stage o =s atp_Stage a) && sameAllocation ox x && negb (Size_Uint64 seq =? 0) && (seq =s pa_AllocatedSeq x) &&
             (seq =s ls_GrantedSeq l) && (seq =s atp_PhaseSinceSeq a)
          then Some (o, x, l) else None
      | None => None
      end
  | _, _, _ => None
  end.

(** The occupancy is the one the admission wrote. *)
Definition fresh_occupancy (a : Attempt) (o : DirectPoolAdmission) (x : PoolAllocation) (l : Lease) (en : PoolEntry) : bool :=
  (pe_State en =s "ALLOCATED") && (pe_AttemptID en =s atp_AttemptID a) && (pe_Generation en =s atp_Generation a) &&
  (pe_Holder en =s ls_Holder l) && (pe_Stage en =s atp_Stage a) && sameAllocation (pe_Allocation en) x &&
  (pe_ChangedSeq en =s dpa_OriginalAdmissionSeq o) && (pe_PolicySha256 en =s atp_PolicySha256 a) &&
  (Count_Int (pe_RunnerPID en) =? 0) && (pe_RunnerStarted en =s ε) && (pe_CommandKind en =s ε) && (pe_CommandRevision en =s ε) &&
  negb (some (pe_ObservationSha256 en)) && negb (pe_CleanupPassed en) && (pe_Reason en =s ε) && is_empty (pe_Shared en).

Definition verifyLaneUntouched (c : leaseContext) (a : Attempt) : planned (option Error) :=
  let e code why := Some (Errorf code "lane-untouched" "%s" [AStr why]) in
  let missing why := Ok (e CodeMissingEvidence why) in
  if negb (b_Role (c_Actor c) =s "OWNER") && negb (b_Role (c_Actor c) =s "OPERATOR") then missing "OWNER or OPERATOR required"
  else
    let* rec := get_record (st_Tickets (c_st c)) (TicketID_Raw (atp_TicketID a)) in
    if match rec with Some rec => negb (rec_AcceptanceRevision rec =s atp_TicketRevision a) | None => true end
    then Ok (e CodeStaleTicket "acceptance changed")
    else if negb (atp_CapabilityProfileSha256 a =s atp_PolicySha256 a) || negb (atp_ConfigSha256 a =s atp_PolicySha256 a) ||
            negb (atp_PolicySha256 a =s Sum sha256 (pol_Raw (policy_of c)))
    then Ok (e CodeStalePolicy "exact current policy/config required")
    else if maybe_used a then missing "known or uncertain generation use"
    else match direct_origin a with
    | None => missing "fresh direct origin missing, renewed or changed"
    | Some (o, x, l) =>
        if negb (fenced c a =s ε) then missing "generation fenced"
        else if match Policy_Pool (policy_of c) (pa_PoolID x) with
                | None => true
                | Some pool =>
                    negb (MemberDefinition sha256 (policy_of c) (pool_ID pool) (pa_MemberID x) =s pa_DefinitionSha256 x) ||
                    some (mc_Health (Pool_Config pool (pa_MemberID x)))
                end
        then missing "direct no-health member definition changed"
        else match List.filter (λ en, pe_AllocationID en =s pa_AllocationID x) (pst_Entries (st_Pools (c_st c))) with
        | [] => missing "exact occupancy absent"
        | [en] =>
            if fresh_occupancy a o x l en then Ok (untouchedPrograms c a)
            else missing "occupancy has changed or recorded command use"
        | _ => missing "occupancy has changed or recorded command use"
        end
    end.

(** ** Heartbeat, renewal, release and reaping *)

Definition planHeartbeat (c : leaseContext) : planned leaseOutcome :=
  or_fail c (named c) (λ a,
    if negb (fenced c a =s ε) then Ok (recordFenced c a (fenced c a))
    else if negb (some (atp_Lease a)) then Ok (refuse c OutcomeBlocked CodeTicketState "heartbeat requires a work lease")
    else write c (a <| atp_LastHeartbeatAt := Some (now c) |>) None "TRANSITION" false).

Definition planRenew (c : leaseContext) : planned leaseOutcome :=
  or_fail c (named c) (λ a,
    if negb (fenced c a =s ε) then Ok (recordFenced c a (fenced c a))
    else match atp_Lease a with
    | None => Err NilPanic
    | Some l =>
        let lease := mkLease (ls_Holder l) (c_seq c) (addMinutes (now c) (l_LeaseMinutes (c_l c))) in
        write c (a <| atp_Lease := Some lease |> <| atp_LastHeartbeatAt := Some (now c) |>) None "TRANSITION" false
    end).

(** The attempt a release leaves, when it is a handoff. *)
Definition handed_off (c : leaseContext) (next : Attempt) : planned Attempt :=
  match atp_RetryAccounting next with
  | None => Err NilPanic
  | Some x =>
      Ok (next <| atp_RetryAccounting := Some {| ra_FailedOrUnknown := ra_FailedOrUnknown x; ra_Disposition := l_Reason (c_l c) |} |>
               <| atp_HandoffEvidence := l_Evidence (c_l c) |> <| atp_HandoffTo := l_HandoffTo (c_l c) |>
               <| atp_HandoffReason := l_HandoffReason (c_l c) |>)
  end.

(** A terminal phase, with the generation's lease fenced. *)
Definition ended (c : leaseContext) (a : Attempt) (phase : string) (cause : option string) : Attempt :=
  a <| atp_Phase := phase |> <| atp_PhaseSinceSeq := c_seq c |> <| atp_Quiescence := "FENCED" |> <| atp_Cause := cause |>.

Definition planRelease (c : leaseContext) : planned leaseOutcome :=
  let l := c_l c in
  or_fail c (named c) (λ a,
    if negb (fenced c a =s ε) then Ok (recordFenced c a (fenced c a))
    else
      let* bad := if l_LaneUntouched l then verifyLaneUntouched c a else Ok None in
      match bad with
      | Some e => Ok (fail c e)
      | None =>
          let* next :=
            if l_LaneUntouched l then
              match atp_DirectPoolAdmission a with
              | None => Err NilPanic
              | Some o =>
                  Ok (a <| atp_LaneUntouchedAttestation :=
                        Some (mkUntouched o (b_ID (c_Actor c)) (b_Role (c_Actor c)) (l_Evidence l) (c_seq c) (now c)) |>)
              end
            else Ok a in
          let cause := if negb (l_Reason l =s ε) then Some (l_Reason l) else None in
          let finish next := write c (ended c next "CANCELLED" cause) (Some (without c (atp_AttemptID a))) "TRANSITION" false in
          if (l_Reason l =s CodeHandoff) || (l_Reason l =s CodeReviewReturned) then
            let* refusal := verifyHandoff c a in
            match refusal with
            | Some out => Ok out
            | None =>
                match CheckHandoffTarget "handoffReason" (l_Reason l) (atp_Stage a) (l_HandoffTo l) (l_HandoffReason l) with
                | Some e => Ok (fail c e)
                | None => let* next := handed_off c next in finish next
                end
            end
          else finish next
      end).

(** The entries whose lease has expired, of those [f] takes. *)
Fixpoint expired_entries (c : leaseContext) (f : ReservationEntry → bool) (l : list ReservationEntry) : planned (list ExpiredLease) :=
  match l with
  | [] => Ok []
  | en :: l' =>
      let* x := expired_attempt (attempt_of c (en_AttemptID en)) (now c) in
      let* out := expired_entries c f l' in
      Ok (if x && f en then mkExpired (en_AttemptID en) (en_Generation en) :: out else out)
  end.

Definition expiredAll (c : leaseContext) : planned (list ExpiredLease) := expired_entries c (λ _, true) (entries c).

Definition lease_text (a : Attempt) : string :=
  match atp_Lease a with Some l => "a lease until " +:+ ls_ExpiresAt l | None => "no lease" end.

Definition planReap (c : leaseContext) : planned leaseOutcome :=
  let l := c_l c in
  if l_AttemptID l =s ε then let* xs := expiredAll c in Ok (with_expired (unchanged c) xs)
  else
    or_fail c (named c) (λ a,
      let conflict why := Ok (refuse c OutcomeRevisionConflict CodeFenced why) in
      if negb (Live a) then Ok (unchanged c)
      else if negb (Size_Uint64 (atp_Generation a) =? Size_Uint64 (l_Generation l)) then conflict (stale_generation c a)
      else if negb (l_LeaseExpiresAt l =s ε) &&
              match atp_Lease a with Some x => negb (ls_ExpiresAt x =s l_LeaseExpiresAt l) | None => true end
      then conflict ("the attempt now has " +:+ lease_text a +:+ ", not the observed lease until " +:+ l_LeaseExpiresAt l)
      else if negb (expired a (now c)) then
        match atp_Lease a with
        | None => Err NilPanic
        | Some x => Ok (refuse c OutcomeBlocked CodeAttemptLive ("the lease is live until " +:+ ls_ExpiresAt x))
        end
      else write c (ended c a "FAILED" (Some CauseLeaseExpired)) (Some (without c (atp_AttemptID a))) "TRANSITION" false).
End handoff.

(** ** Describing a live attempt *)

(** [HolderStatus(a, now, ttlSeconds)]; [now] is in seconds.  A recorded
    heartbeat is a timestamp, which both layouts of the code read alike. *)
Definition HolderStatus (a : Attempt) (t ttlSeconds : Z) : string :=
  match atp_LastHeartbeatAt a with
  | None => NotObserved
  | Some beat =>
      let at_ := parse_time beat in
      if negb (Live a) then "TERMINAL"
      else if match atp_Lease a with Some l => negb (time.Format t <s ls_ExpiresAt l) | None => false end then "LEASE_EXPIRED"
      else if t <? at_ then "CLOCK_BEFORE_HEARTBEAT"
      else if ttlSeconds <=? t - at_ then "STALE_HOLDER"
      else "FRESH_HOLDER"
  end.

Record AttemptSummary := mkSummary {
  as_AttemptID : string; as_TicketID : string; as_Generation : string; as_Phase : string; as_Holder : string;
  as_LeaseExpiresAt : string; as_HolderStatus : string; as_Recovery : string
}.

Definition SummarizeAttempt (en : ReservationEntry) (a : option Attempt) (t : string) (ttlSeconds : Z) : AttemptSummary :=
  let id := en_AttemptID en in
  let ticket := TicketID_Raw (en_TicketID en) in
  let gen := en_Generation en in
  match a with
  | None =>
      mkSummary id ticket gen NotObserved ε ε NotObserved
        ("this writer did not read its record; `corvint-tasks ticket show " +:+ ticket +:+ "` names its holder and recovery")
  | Some a =>
      let status := HolderStatus a (parse_time t) ttlSeconds in
      let '(holder, expires) := match atp_Lease a with Some l => (ls_Holder l, ls_ExpiresAt l) | None => (ε, ε) end in
      let release := "`corvint-tasks release --attempt " +:+ id +:+ " --generation " +:+ gen +:+ " --request-id NEW_ID`" in
      let recovery :=
        if expired a t then
          "the lease expired; reap it: `corvint-tasks reap --attempt " +:+ id +:+ " --generation " +:+ gen +:+
          " --lease-expires-at " +:+ expires +:+ " --request-id NEW_ID`"
        else match atp_Supervision a, atp_Lease a with
        | Some s, _ =>
            "it is supervised by program " +:+ sv_ProgramID s +:+
            ", whose liveness replaces a work lease, so nothing reaps it; it ends with its program, or its holder releases it: " +:+ release
        | None, None => "it has no work lease to reap; its holder releases it: " +:+ release
        | None, Some _ => "the lease is live until " +:+ expires +:+ "; wait for it, or its holder releases it: " +:+ release
        end in
      mkSummary id ticket gen (atp_Phase a) holder expires status
        (if status =s "STALE_HOLDER"
         then "its heartbeat is stale, which is advisory and frees nothing; " +:+ recovery else recovery)
  end.

Definition AttemptSummary_Detail (s : AttemptSummary) : string :=
  "attempt " +:+ as_AttemptID s +:+ " (ticket " +:+ as_TicketID s +:+ ", generation " +:+ as_Generation s +:+ ", phase " +:+
  as_Phase s +:+ ", holder " +:+ (if as_Holder s =s ε then "none" else as_Holder s) +:+ ", leaseExpiresAt " +:+
  (if as_LeaseExpiresAt s =s ε then "null" else as_LeaseExpiresAt s) +:+ ", holderStatus " +:+ as_HolderStatus s +:+
  "); recovery: " +:+ as_Recovery s.

(** The first entry of an attempt. *)
Definition entry_of (c : leaseContext) (attemptID : string) : option ReservationEntry :=
  List.find (λ en, en_AttemptID en =s attemptID) (entries c).

Definition collisionDetail (c : leaseContext) (attemptID : string) (rs : list Resource) : string :=
  match entry_of c attemptID with
  | None => "attempt " +:+ attemptID
  | Some en =>
      let keys := (λ x, res_Class x +:+ ":" +:+ res_Key x) <$> List.filter (λ x, Collide [x] (en_Resources en)) rs in
      let s := SummarizeAttempt en (attempt_of c (en_AttemptID en)) (now c) (HeartbeatTTLSeconds (policy_of c)) in
      AttemptSummary_Detail s +:+ "; colliding keys: " +:+ strings.Join keys ","
  end.

Definition directoryCollision (rs held : list Resource) : bool :=
  existsb (λ x, existsb (λ y, is_path x && is_path y && (strings.HasSuffix (res_Key x) "/" || strings.HasSuffix (res_Key y) "/") &&
    Collide [x] [y]) held) rs.

Definition collisionNextAction (c : leaseContext) (attemptID : string) (sc : Scope) : string :=
  (if existsb (λ en, (en_AttemptID en =s attemptID) && directoryCollision (sc_Resources sc) (en_Resources en)) (entries c)
   then "; a directory key reserves every path beneath it: if the tickets write distinct files, declare exact file touchPaths with ticket set-effects before claiming (ATR-V0-800)"
   else ε) +:+
  (if (sc_Source sc =s "DECLARED") && some (l_Scope (c_l c))
   then "; this claim holds the ticket's declared scope, not --scope (ATR-V0-215)" else ε).

(** ** The scope of a claim *)

Definition covered (resources : list Resource) (path : string) : bool :=
  existsb (λ r, (res_Class r =s "WHOLE_REPOSITORY") || is_path r && PathCovers (res_Key r) path) resources.

Definition claimScope (c : leaseContext) (rec : Record_) (restored : list string) : res Scope :=
  let other := declaredOther rec in
  match Declared rec with
  | d :: ds =>
      let paths := pathResources (d :: ds) ++ pathResources restored in
      if MaxScopeResources <? len paths + len other
      then Err (over_limit ("restored scope exceeds " +:+ CountOf MaxScopeResources +:+ " resources"))
      else Ok (mkScope "DECLARED" (paths ++ other) None)
  | [] =>
      match l_Scope (c_l c) with
      | Some scope => Ok (mkScope "REQUESTED" (pathResources scope ++ other) None)
      | None =>
          match lf_DerivedPaths (facts c) with
          | None => Ok (mkScope "WHOLE_REPOSITORY" wholeRepository None)
          | Some paths =>
              if negb (lf_DerivedTicketID (facts c) =s record_id rec) then Err (malformed "derived scope belongs to another ticket")
              else
                try checkScopePaths (Some paths);
                let* d := ParseDigest "derivationSha256" (lf_DerivationSha256 (facts c)) in
                Ok (mkScope "DERIVED" (pathResources paths ++ other) (Some d))
          end
      end
  end.

Definition entryCoverage (sc : Scope) : string := if sc_Source sc =s "WHOLE_REPOSITORY" then "WHOLE_REPOSITORY" else "QUALIFIED".

Definition requestedOutsideDeclared (rec : Record_) (requested : list string) : list string :=
  match Declared rec with
  | [] => []
  | declared => List.filter (λ p, negb (covered (pathResources declared) p)) requested
  end.

(** [slices.Compact] *)
Fixpoint Compact (l : list string) : list string :=
  match l with
  | x :: (y :: _) as l' => if x =s y then Compact l' else x :: Compact l'
  | _ => l
  end.

(** The last generation of a ticket a claim would restore a scope from. *)
Definition restorable (c : leaseContext) (rec : Record_) : option (Attempt * Scope) :=
  match lastAttemptOf (st_Attempts (c_st c)) (record_id rec) with
  | Some prior =>
      match atp_Scope prior with
      | Some sc =>
          if (atp_Phase prior =s "COMPLETED") || negb (atp_TicketRevision prior =s rec_AcceptanceRevision rec) ||
             negb (sc_Source sc =s "DECLARED") then None
          else Some (prior, sc)
      | None => None
      end
  | None => None
  end.

Definition restoreScope (c : leaseContext) (rec : Record_) (outside : list string) : list string * option RestoredScope :=
  match outside, restorable c rec with
  | _ :: _, Some (prior, sc) =>
      let held := List.filter is_path (sc_Resources sc) in
      let bad := List.filter (λ p, negb (covered held p)) outside in
      match List.filter (covered held) outside with
      | [] => (bad, None)
      | restored => (bad, Some (mkRestored (atp_Generation prior) (Compact (SortStrings restored))))
      end
  | _, _ => (outside, None)
  end.

Definition exactKeyHint (declared rejected : list string) : string :=
  match List.filter (λ p, negb (strings.HasSuffix p "/") && contains declared (p +:+ "/")) rejected with
  | [] => ε
  | hint => "; a directory scope ends in " +:+ str1 dquote +:+ "/" +:+ str1 dquote +:+ ": " +:+ strings.Join ((λ p, p +:+ " -> " +:+ p +:+ "/") <$> hint) " "
  end.

(** ** What blocks a claim *)

(** The first other live attempt whose resources collide, or empty. *)
Definition collision (c : leaseContext) (rs : list Resource) (self : string) : string :=
  match List.find (λ en, negb (en_AttemptID en =s self) && CollideShared rs (en_Resources en) (SharedReservationPaths (policy_of c)))
          (entries c) with
  | Some en => en_AttemptID en
  | None => ε
  end.

(** The set of reservations is as large as the policy allows. *)
Definition at_capacity (c : leaseContext) : bool := Count_Int (pol_MaxActiveAttempts (policy_of c)) <=? len (entries c).

Definition expiredBlocking (c : leaseContext) (ticketID : string) (rs : list Resource) : planned (list ExpiredLease) :=
  expired_entries c (λ en, at_capacity c || (TicketID_Raw (en_TicketID en) =s ticketID) ||
                           CollideShared rs (en_Resources en) (SharedReservationPaths (policy_of c))) (entries c).

Definition liveOn (c : leaseContext) (ticketID : string) : string :=
  match List.find (λ en, TicketID_Raw (en_TicketID en) =s ticketID) (entries c) with Some en => en_AttemptID en | None => ε end.

(** The refusal for the first blocker of the ticket's view that is not for a
    live attempt or an unknown coverage; the record is there. *)
Definition eligibility (c : leaseContext) (rec : Record_) : planned (option leaseOutcome) :=
  let ctx := mkViewContext (q_CanonicalWriter (st_Queue (c_st c))) (pol_SerialFallback (policy_of c)) None
    (Some (entry_oracle (st_Reservations (c_st c)))) (l_Stage (c_l c)) (LoopHoldOf (st_Attempts (c_st c)) rec (policy_of c)) in
  let* v := view_blockers (st_Tickets (c_st c)) (record_id rec) ctx in
  Ok match List.find (λ b, negb (blk_Code b =s CodeCoverageUnknown) && negb (blk_Code b =s CodeAttemptLive)) (v.1 ++ v.2) with
     | Some b => Some (refuse c OutcomeBlocked (blk_Code b) (blk_Detail b))
     | None => None
     end.

(** The attempt this claim retries, or its refusal. *)
Definition retryOf (c : leaseContext) (rec : Record_) : leaseOutcome + option Attempt :=
  match lastAttemptOf (st_Attempts (c_st c)) (record_id rec) with
  | None => inr None
  | Some last =>
      if (atp_Phase last =s "COMPLETED") || negb (atp_TicketRevision last =s rec_AcceptanceRevision rec) then inr None
      else if retryExhausted (st_Attempts (c_st c)) rec (Count_Int (pol_AdmissionsPerRevision (policy_of c))) then
        inl (refuse c OutcomeBlocked CodeRetryExhausted
               ("configured retry budget at acceptanceRevision " +:+ rec_AcceptanceRevision rec +:+ " is spent"))
      else inr (Some last)
  end.

(** The plan input of [waitlistRefusal] and [yieldRefusal]. *)
Definition claim_input (c : leaseContext) : PlanInput :=
  let st := c_st c in
  mkPlanInput (l_Pool (c_l c)) (l_Stage (c_l c)) (l_ExcludeMembers (c_l c)) ε (Some (st_Pools st)) (lf_AllocationID (facts c))
    (st_Queue st) (st_Policy st) (st_Tickets st) false (Some (st_Reservations st)) (st_Attempts st) None ∅ ∅ ∅ ε.

Definition waitlistRefusal (c : leaseContext) (rec : Record_) : planned (option leaseOutcome) :=
  if (l_Pool (c_l c) =s ε) || is_empty (pst_Waiters (st_Pools (c_st c))) then Ok None
  else
    let* live := observed_waiters c in
    let why := waitlistBlock live (l_Pool (c_l c)) rec (poolSlots (claim_input c)) in
    Ok (if why =s ε then None else Some (refuse c OutcomeBlocked CodeResourceCollision why)).

Definition yieldRefusal (c : leaseContext) (rec : Record_) : planned (option leaseOutcome) :=
  let pool := l_Pool (c_l c) in
  if pool =s ε then Ok None
  else
    let* refusal := waitlistRefusal c rec in
    match refusal with
    | Some out => Ok (Some out)
    | None =>
        if match Policy_Pool (policy_of c) pool with Some p => negb (pool_PriorityAdmission p) | None => true end then Ok None
        else
          let i := claim_input c in
          let free := poolSlots i in
          let* queue := admissionQueue i pool in
          let waiting := (admissionAhead queue (admissionRankOf (st_Attempts (c_st c)) rec)).1 in
          let* waiting :=
            if is_empty (pst_Waiters (st_Pools (c_st c))) then Ok waiting
            else let* live := observed_waiters c in waitlistYielders live pool rec (st_Tickets (c_st c)) waiting in
          let to := priorityYield (policy_of c) pool free waiting in
          Ok (if to =s ε then None
              else Some (refuse c OutcomeBlocked CodeResourceCollision
                           (priorityYieldDetail pool free waiting to +:+ admissionNote queue to)))
    end.

(** The walk of [shareRefusal] over the bound attempts: the expired ones. *)
Fixpoint bound_expired (c : leaseContext) (xs : list PoolShare) : leaseOutcome + list ExpiredLease :=
  match xs with
  | [] => inr []
  | x :: xs' =>
      match attempt_of c (psh_AttemptID x) with
      | Some a =>
          if negb (Live a) || negb (atp_Generation a =s psh_Generation x) then
            inl (refuse c OutcomeRevisionConflict CodeFenced "shared allocation is not current")
          else if some (atp_Supervision a) || negb (atp_RuntimeID a =s RuntimeExternalAgent) then
            inl (fail c (Errorf CodeUnsupported "pool" "a supervised allocation cannot be shared" []))
          else match bound_expired c xs' with
          | inl out => inl out
          | inr reap => inr (if expired a (now c) then mkExpired (psh_AttemptID x) (psh_Generation x) :: reap else reap)
          end
      | None => inl (refuse c OutcomeRevisionConflict CodeFenced "shared allocation is not current")
      end
  end.

Definition reap_first (c : leaseContext) (reap : list ExpiredLease) : leaseOutcome :=
  with_expired (refuse c OutcomeBlocked CodeAttemptLive "expired leases block this claim until reaped") reap.

Definition shareRefusal (c : leaseContext) : option leaseOutcome :=
  match sharedEntry c with
  | None => Some (refuse c OutcomeRevisionConflict CodeFenced "shared allocation is not current")
  | Some en =>
      if negb (pe_State en =s "ALLOCATED") then Some (refuse c OutcomeRevisionConflict CodeFenced "shared allocation is not current")
      else if negb (pe_PoolID en =s l_Pool (c_l c)) || negb (pe_Stage en =s l_Stage (c_l c)) then
        Some (fail c (malformed "shared allocation belongs to another pool or stage"))
      else if negb (pe_Holder en =s l_Holder (c_l c)) then
        Some (refuse c OutcomeBlocked CodeResourceCollision "shared allocation has another holder")
      else match bound_expired c (boundAttempts en) with
      | inl out => Some out
      | inr [] =>
          if MaxSharedAttempts <=? 1 + len (pe_Shared en) then
            Some (refuse c OutcomeCapacityExhausted CodeLimitExceeded
                    ("shared allocation already binds " +:+ CountOf MaxSharedAttempts +:+ " attempts"))
          else None
      | inr reap => Some (reap_first c reap)
      end
  end.

(** The derivation, or its refusal. *)
Definition authorExclusion (c : leaseContext) (ticketID : string) : leaseOutcome + option AuthorExclusion :=
  let l := c_l c in
  if l_ExcludeAuthors l =s ε then inr None
  else match DeriveAuthors (st_Attempts (c_st c)) ticketID (l_ExcludeAuthors l) (l_Pool l) (default [] (l_ExcludeMembers l)) with
  | inl why => inl (refuse c OutcomeBlocked CodeIndependenceUnverified why)
  | inr x => inr (Some x)
  end.

Definition excluded (c : leaseContext) : list string :=
  match c_authors c with Some x => ax_Excluded x | None => default [] (l_ExcludeMembers (c_l c)) end.

Definition authorsSuffix (c : leaseContext) : string :=
  match c_authors c with Some x => "; " +:+ AuthorsDetail (Some x) | None => ε end.

(** ** Allocating a member *)

Definition observation (c : leaseContext) (en : PoolEntry) : res PoolObservation :=
  let raw := lf_Observation (facts c) in
  let* o := DecodePoolObservation raw in
  if negb (raw =s PoolObservation_Encode o) || negb (po_AllocationID o =s pe_AllocationID en) ||
     negb (po_DefinitionSha256 o =s pa_DefinitionSha256 (pe_Allocation en)) || negb (po_Kind o =s pe_CommandKind en) ||
     negb (po_Revision o =s pe_CommandRevision en)
  then Err (malformed "pool observation binding differs") else Ok o.

Definition stalledRefusal (c : leaseContext) (poolID : string) (eligible : list string) : option Error :=
  match time.Parse (now c) with
  | None => None
  | Some t =>
      if negb (MembersStalled (st_Pools (c_st c)) poolID eligible t) then None
      else
        let more := if 8 <? len eligible then " and " +:+ strconv.FormatInt (len eligible - 8) +:+ " more" else ε in
        Some (Errorf CodePoolMemberRecoveryStalled "pool"
          "every eligible member of pool %s is QUARANTINED with a stalled recovery (%s%s); read `corvint-tasks pool status --pool %s`, repair the members, then confirm them safe"
          [AStr poolID; AStr (strings.Join (take 8 eligible) ", "); AStr more; AStr poolID])
  end.

(** The allocation a preparation left for this claim. *)
Definition prepared_allocation (c : leaseContext) (pool : Pool) (id : string) : res PoolAllocation :=
  let l := c_l c in
  match List.find (λ en, pe_AllocationID en =s id) (pst_Entries (st_Pools (c_st c))) with
  | None => Err (malformed "prepared allocation missing")
  | Some en =>
      if negb (pe_State en =s "PREPARING") || negb (pe_PoolID en =s l_Pool l) || negb (pe_Holder en =s l_Holder l) ||
         negb (pe_Stage en =s l_Stage l) || negb (pe_RequestSha256 en =s PoolClaimBinding sha256 l (q_QueueID (st_Queue (c_st c))))
      then Err (malformed "prepared allocation claim differs")
      else if negb (contains (OrderedPoolMembers pool (l_Stage l) (excluded c)) (pe_MemberID en)) then
        Err (Errorf CodeResourceCollision "pool" "prepared member is not eligible%s" [AStr (authorsSuffix c)])
      else
        let* o := observation c en in
        if negb (po_Passed o) then Err (malformed "health did not pass") else Ok (pe_Allocation en)
  end.

(** The first free member of those eligible. *)
Definition free_allocation (c : leaseContext) (pool : Pool) : res PoolAllocation :=
  let eligible := OrderedPoolMembers pool (l_Stage (c_l c)) (excluded c) in
  let occupied m := existsb (λ en, pe_MemberID en =s m) (pst_Entries (st_Pools (c_st c))) in
  match List.find (λ m, negb (occupied m)) eligible with
  | Some member =>
      let config := Pool_Config pool member in
      if some (mc_Health config) then Err (Errorf CodeQuiescenceUnproved "pool" "health preparation required" [])
      else
        Ok (mkAllocation (pool_ID pool) member (Sum sha256 (c_QueueID c +:+ ":" +:+ c_RequestID c +:+ ":" +:+ member))
              (MemberDefinition sha256 (policy_of c) (pool_ID pool) member) (c_seq c) (mc_ConfigRef config))
  | None =>
      try stalledRefusal c (pool_ID pool) eligible;
      Err (Errorf CodeResourceCollision "pool" "no eligible free member; occupied and quarantined members unavailable%s"
             [AStr (authorsSuffix c)])
  end.

Definition allocate (c : leaseContext) : res (option PoolAllocation) :=
  let l := c_l c in
  if l_Pool l =s ε then Ok None
  else
    try CheckPoolExclusions (l_Pool l) (l_ExcludeMembers l) (policy_of c);
    match Policy_Pool (policy_of c) (l_Pool l) with
    | None => Err (malformed "unknown pool")
    | Some pool =>
        if negb (l_ShareAllocation l =s ε) then
          match sharedEntry c with
          | Some en =>
              if pe_State en =s "ALLOCATED" then Ok (Some (pe_Allocation en))
              else Err (Errorf CodeFenced "pool" "shared allocation is not current" [])
          | None => Err (Errorf CodeFenced "pool" "shared allocation is not current" [])
          end
        else
          let id := lf_AllocationID (facts c) in
          let* x := if negb (id =s ε) then prepared_allocation c pool id else free_allocation c pool in
          Ok (Some x)
    end.

(** ** Admitting an attempt *)

Definition freshID (c : leaseContext) : res string :=
  let id := lf_AttemptID (facts c) in
  let* q := AttemptQueue id in
  if negb (QueueID_Raw q =s c_QueueID c) then Err (malformed "minted attempt names another queue")
  else if some (in_Files (c_in c) !! attemptPath id) then Err (malformed "minted attempt already exists")
  else Ok id.

Definition baseCommit (c : leaseContext) : res string :=
  let base := lf_BaseCommit (facts c) in
  let* _ := ParseOID "baseCommit" base in
  if negb (l_Base (c_l c) =s ε) && negb (l_Base (c_l c) =s base) then Err (malformed "resolved base commit differs from --base")
  else Ok base.

Definition pinnedEscalationAnswers (rec : Record_) : list EscalationAnswerRef :=
  match rec_Escalations rec with
  | None => []
  | Some x =>
      (λ e, {| ear_RequestID := esc_RequestID e; ear_OriginSha256 := esc_OriginSha256 e; ear_HeadSha256 := esc_HeadSha256 e |}) <$>
      List.filter (λ e, (esc_State e =s "ANSWERED") && (esc_AcceptanceRevision e =s rec_AcceptanceRevision rec)) (escs_Entries x)
  end.

Definition notObservedBudget : gmap string BudgetField :=
  list_to_map ((λ name, (name, {| bf_Value := None; bf_State := NotObserved |})) <$> LaneBudgetNames).

(** The next value of a 64-bit counter, [wire.SizeOf(n.Uint64() + 1)]. *)
Definition next_size (n : string) : string := SizeOf ((Size_Uint64 n + 1) mod 2 ^ 64).

(** [wire.CountOf(int64(n.Int() + 1))] *)
Definition next_count (n : string) : string := CountOf (time.int64 (Count_Int n + 1)).

(** The attempt before its identity: a fresh one of this claim. *)
Definition admitted_base (c : leaseContext) (rec : Record_) (sc : Scope) (base : string) (x : option PoolAllocation) : Attempt :=
  let l := c_l c in
  let policy := Sum sha256 (pol_Raw (policy_of c)) in
  let shared :=
    if negb (l_ShareAllocation l =s ε) then
      (λ en, {| sa_SourceAttemptID := pe_AttemptID en; sa_SourceGeneration := pe_Generation en; sa_BoundSeq := c_seq c |}) <$> sharedEntry c
    else None in
  mkAttempt None shared None None (rec_OperatorNote rec) (pinnedEscalationAnswers rec) ε ε (Some (now c)) (Some emptyRetryReasons)
    (Some {| ra_FailedOrUnknown := false; ra_Disposition := "NONE" |}) ε None (l_Stage l) x ε (rec_TicketID rec)
    (rec_AcceptanceRevision rec) (FileDigest sha256 rec) (next_size (hd_Generation (st_Head (c_st c)))) "RUNNING" (c_seq c) None
    "DEVELOPMENT" None policy policy RuntimeExternalAgent policy base
    (if l_Branch l =s ε then TicketID_Local (rec_TicketID rec) else l_Branch l) None None None None "UNPROVED" None "0" [] "0" "0"
    notObservedBudget [] [] None "UNKNOWN" []
    (Some (mkLease (l_Holder l) (c_seq c) (addMinutes (now c) (l_LeaseMinutes l)))) (Some sc).

(** The record of the generation a retry ends. *)
Definition ended_generation (c : leaseContext) (prior : Attempt) : PriorGeneration :=
  let p := policy_of c in
  let history :=
    match endedHistory prior with
    | Some h =>
        if some (pol_LoopDetection p) || negb (pol_ProgressSignal p =s ε) then
          Some (mkHistory (gh_Stage h) (gh_PoolID h) (gh_MemberID h) (gh_HandoffTo h) (gh_HandoffReason h)
                  (LoopEvidenceWith prior (pol_ProgressSignal p)))
        else Some h
    | None => None
    end in
  mkPrior (atp_Generation prior) (atp_Quiescence prior) (atp_PhaseSinceSeq prior) history.

(** A retry keeps the identity, and is charged unless the prior generation
    ended in a clean handoff. *)
Definition retried (c : leaseContext) (a prior : Attempt) : Attempt :=
  let reasons := retryReasons prior in
  let reason := chargedReason prior in
  let clean := cleanHandoff prior in
  a <| atp_AttemptID := atp_AttemptID prior |>
    <| atp_RetryCount := if clean then atp_RetryCount prior else next_count (atp_RetryCount prior) |>
    <| atp_RetryReasons := Some (if clean then reasons else <[reason := next_count (default ε (reasons !! reason))]> reasons) |>
    <| atp_PriorGenerations := atp_PriorGenerations prior ++ [ended_generation c prior] |>.

(** A fresh identity, with the origin of a direct admission to a pool. *)
Definition first_generation (c : leaseContext) (a : Attempt) (id : string) : Attempt :=
  let a := a <| atp_AttemptID := id |> in
  if (lf_AllocationID (facts c) =s ε) && negb (some (atp_SharedAllocation a)) then
    match atp_PoolAllocation a with
    | Some x =>
        a <| atp_DirectPoolAdmission :=
               Some (mkDirect id (atp_Generation a) (c_seq c) (Some x) (l_Holder (c_l c)) (atp_Stage a)) |>
    | None => a
    end
  else a.

Definition admitted (c : leaseContext) (rec : Record_) (prior : option Attempt) (sc : Scope) : res Attempt :=
  let* base := baseCommit c in
  let* x := allocate c in
  let a := admitted_base c rec sc base x in
  match prior with
  | None => let* id := freshID c in Ok (first_generation c a id)
  | Some prior => Ok (retried c a prior)
  end.

Definition reservation_of (c : leaseContext) (a : Attempt) (sc : Scope) : ReservationEntry :=
  mkEntry (atp_AttemptID a) (atp_Generation a) (atp_TicketID a) (atp_TicketRevision a) (sc_Resources sc) [] "0" "ACTIVE" (c_seq c)
    (entryCoverage sc).

(** The steps after the retry check: share, authors, and the attempt. *)
Definition admit_attempt (c : leaseContext) (rec : Record_) (sc : Scope) (prior : option Attempt) : planned leaseOutcome :=
  match if negb (l_ShareAllocation (c_l c) =s ε) then shareRefusal c else None with
  | Some out => Ok out
  | None =>
      match authorExclusion c (record_id rec) with
      | inl out => Ok out
      | inr authors =>
          let c := c <| c_authors := authors |> in
          match admitted c rec prior sc with
          | Err e => Ok (with_author_exclusion (fail c e) authors)
          | OutOfFuel => OutOfFuel
          | Ok a =>
              let* out := write c a (Some (entries c ++ [reservation_of c a sc])) "ADMIT" true in
              Ok (mkLeaseOutcome (lo_posts out) (lo_effect out) (lo_detail out) (lo_result out) authors (lo_restored out))
          end
      end
  end.

(** [c.admit(rec, sc)] *)
Definition admit_claim (c : leaseContext) (rec : Record_) (sc : Scope) : planned leaseOutcome :=
  let* reap := expiredBlocking c (record_id rec) (sc_Resources sc) in
  if negb (is_empty reap) then Ok (reap_first c reap)
  else
    let live := liveOn c (record_id rec) in
    if negb (live =s ε) then Ok (refuse c OutcomeBlocked CodeAttemptLive ("attempt " +:+ live +:+ " is live"))
    else
      let* refusal := if l_ShareAllocation (c_l c) =s ε then yieldRefusal c rec else Ok None in
      match refusal with
      | Some out => Ok out
      | None =>
          let other := collision c (sc_Resources sc) ε in
          if negb (other =s ε) then
            Ok (refuse c OutcomeBlocked CodeResourceCollision
                  ("scope collides with live " +:+ collisionDetail c other (sc_Resources sc) +:+ collisionNextAction c other sc))
          else if at_capacity c then
            Ok (refuse c OutcomeCapacityExhausted CodeLimitExceeded
                  ("maxActiveAttempts " +:+ pol_MaxActiveAttempts (policy_of c) +:+ " attempts are live"))
          else match retryOf c rec with
          | inl out => Ok out
          | inr prior => admit_attempt c rec sc prior
          end
      end.

(** ** Claims *)

Definition noExecutionCutover : string := "a non-fixture queue admits no claim before its execution cutover".

Definition widenPausedRemedy : string :=
  "an admission barrier is present: widen admits new paths to a live attempt's reservation, so the barrier refuses it like a claim; the owner or operator widens this attempt alone with --admit-under-barrier (TRM-V0-800), or lifts the barrier (corvint-tasks unpause), widens and restores it (corvint-tasks pause), or the attempt releases and a later claim restores its widened scope (TRM-V0-006); the attempt's existing scope stays held".

Definition claimPausedRemedy : string :=
  "an admission barrier is present; the owner or operator admits this one ticket with claim --admit-under-barrier (TRM-V0-800), or lifts the barrier (corvint-tasks unpause), claims and restores it (corvint-tasks pause)".

Definition barrierRefusal (c : leaseContext) (remedy : string) : string :=
  match st_Barrier (c_st c) with
  | None => ε
  | Some b =>
      if negb (l_AdmitUnderBarrier (c_l c)) then remedy
      else if negb (bar_Scope b =s "ADMISSION") || negb (bar_Reason b =s "OPERATOR") then
        "an admission barrier is present with reason " +:+ bar_Reason b +:+
        "; --admit-under-barrier passes only an OPERATOR admission barrier (TRM-V0-801)"
      else if negb (b_Role (c_Actor c) =s "OWNER") && negb (b_Role (c_Actor c) =s "OPERATOR") then
        "an admission barrier is present; --admit-under-barrier needs the OWNER or OPERATOR role, not " +:+ b_Role (c_Actor c) +:+
        " (TRM-V0-801)"
      else ε
  end.

Definition no_cutover (c : leaseContext) : bool :=
  negb (q_Fixture (st_Queue (c_st c))) && negb (some (q_ExecutionCutover (st_Queue (c_st c)))).

Definition ScopeRetry : string :=
  "retry the claim without --scope, or with only declared paths, to claim the declared scope; add other paths after the claim with widen".

(** The refusal of paths outside the declared scope. *)
Definition out_of_scope (c : leaseContext) (rec : Record_) (bad : list string) (what how : string) : leaseOutcome :=
  let declared := Declared rec in
  with_scope_refusal
    (refuse c OutcomeBlocked CodeOutOfScope
       (what +:+ " paths outside the ticket's declared scope: " +:+ strings.Join bad " " +:+ "; declared paths: " +:+
        strings.Join declared " " +:+ exactKeyHint declared bad +:+ how))
    (mkScopeRefusal declared bad).

(** The scope of a claim, checked against what the ticket declares. *)
Definition claim_scoped (c : leaseContext) (rec : Record_) : planned leaseOutcome :=
  let '(bad, restored) := restoreScope c rec (requestedOutsideDeclared rec (default [] (l_Scope (c_l c)))) in
  match bad, requestedOutsideDeclared rec (lf_DiffPaths (facts c)) with
  | _ :: _, _ =>
      Ok (out_of_scope c rec bad "requested --scope"
            ("; the declared scope takes precedence (CAL-V0-021): " +:+ ScopeRetry +:+ " (CAL-V0-025, ATR-V0-210, ATR-V0-214)"))
  | [], (_ :: _) as bad =>
      Ok (out_of_scope c rec bad "--scope-from-diff"
            "; the declared scope takes precedence (CAL-V0-021) and a derived scope never widens it: widen the declaration with set-effects, or claim without --scope-from-diff (TCD-V0-175)")
  | [], [] =>
      or_fail c (claimScope c rec (restored_paths restored)) (λ sc,
        let* out := admit_claim c rec sc in
        Ok (if some (lo_effect out)
            then mkLeaseOutcome (lo_posts out) (lo_effect out) (lo_detail out) (lo_result out) (lo_authors out) restored
            else out))
  end.

Definition planClaim (c : leaseContext) : planned leaseOutcome :=
  let l := c_l c in
  let no code why := Ok (refuse c OutcomeBlocked code why) in
  let why := barrierRefusal c claimPausedRemedy in
  if negb (why =s ε) then no CodePaused why
  else if no_cutover c then no CodeCutoverMissing noExecutionCutover
  else
    let* rec := get_record (st_Tickets (c_st c)) (l_TicketID l) in
    match rec with
    | None => Ok (fail c (malformed ("unknown ticket " +:+ l_TicketID l)))
    | Some rec =>
        if negb (is_empty (pol_RequireEnforcedFields (policy_of c))) then
          no CodeBudgetUnknown "policy requires enforced budget fields an external agent cannot report"
        else
          let* refusal := eligibility c rec in
          match refusal with
          | Some out => Ok out
          | None =>
              if negb (rec_RequiresPool rec =s ε) && negb (l_Pool l =s rec_RequiresPool rec) then
                no CodeResourceCollision "ticket requires explicit matching --pool"
              else if negb (l_Pool l =s ε) && negb (some (Policy_Pool (policy_of c) (l_Pool l))) then
                Ok (fail c (malformed "unknown pool"))
              else claim_scoped c rec
          end
    end.

(** [claimNextInput(l, in, st)] of [claim_next.go] *)
Definition claimNextInput (c : leaseContext) : PlanInput :=
  let l := c_l c in
  let st := c_st c in
  mkPlanInput (l_Pool l) (l_Stage l) (l_ExcludeMembers l) (l_ExcludeAuthors l) (Some (st_Pools st)) (lf_AllocationID (facts c))
    (st_Queue st) (st_Policy st) (st_Tickets st) (some (st_Barrier st)) (Some (st_Reservations st)) (st_Attempts st) None ∅ ∅ ∅ (now c).

Definition planClaimNext (c : leaseContext) : planned leaseOutcome :=
  let no code why := Ok (refuse c OutcomeBlocked code why) in
  if some (st_Barrier (c_st c)) then no CodePaused "an admission barrier is present"
  else if no_cutover c then no CodeCutoverMissing noExecutionCutover
  else
    let* reap := expiredAll c in
    if negb (is_empty reap) then Ok (reap_first c reap)
    else
      let* plan := PriorityFirst (claimNextInput c) in
      match ClaimNext plan (l_Pool (c_l c)) with
      | None => let '(code, why) := Plan_refusal plan in no code why
      | Some chosen => planClaim (c <| c_l := (c_l c) <| l_Verb := LeaseClaim |> <| l_TicketID := entry_id chosen |> |>)
      end.

(** ** Widening *)

Definition rescoped (a : Attempt) (sc : Scope) (en : ReservationEntry) : ReservationEntry :=
  if en_AttemptID en =s atp_AttemptID a
  then mkEntry (en_AttemptID en) (en_Generation en) (en_TicketID en) (en_TicketRevision en) (sc_Resources sc) (en_CapacityUses en)
         (en_Workers en) (en_State en) (en_CreatedSeq en) (entryCoverage sc)
  else en.

Definition rescope (c : leaseContext) (a : Attempt) (sc : Scope) : planned leaseOutcome :=
  write c (a <| atp_Scope := Some sc |>) (Some (rescoped a sc <$> entries c)) "TRANSITION" false.

Definition addedPaths (c : leaseContext) (sc : Scope) : list string :=
  let have := res_Key <$> List.filter is_path (sc_Resources sc) in
  List.filter (λ p, negb (contains have p)) (default [] (l_Scope (c_l c))).

Definition widenWhole (c : leaseContext) (a : Attempt) : planned leaseOutcome :=
  match List.find (λ en, negb (en_AttemptID en =s atp_AttemptID a)) (entries c) with
  | Some en =>
      Ok (refuse c OutcomeBlocked CodeResourceCollision
            ("WHOLE_REPOSITORY collides with live " +:+ collisionDetail c (en_AttemptID en) wholeRepository))
  | None => rescope c a (mkScope "WHOLE_REPOSITORY" wholeRepository None)
  end.

Definition planWiden (c : leaseContext) : planned leaseOutcome :=
  or_fail c (named c) (λ a,
    if negb (fenced c a =s ε) then Ok (recordFenced c a (fenced c a))
    else match atp_Scope a with
    | None => Err NilPanic
    | Some sc =>
        let why := barrierRefusal c widenPausedRemedy in
        let added := addedPaths c sc in
        let other := collision c (pathResources added) (atp_AttemptID a) in
        if sc_Source sc =s "WHOLE_REPOSITORY" then Ok (unchanged c)
        else if negb (why =s ε) then Ok (refuse c OutcomeBlocked CodePaused why)
        else if l_WholeRepository (c_l c) then widenWhole c a
        else if is_empty added then Ok (unchanged c)
        else if MaxScopeResources <? len (sc_Resources sc) + len added then
          Ok (fail c (over_limit ("widened scope exceeds " +:+ CountOf MaxScopeResources +:+ " resources")))
        else if negb (other =s ε) then
          Ok (refuse c OutcomeBlocked CodeResourceCollision
                ("added paths collide with live " +:+ collisionDetail c other (pathResources added)))
        else rescope c a (mkScope (sc_Source sc) (sc_Resources sc ++ pathResources added) (sc_DerivationSha256 sc))
    end).

(** ** A whole command *)

(** The quarantine stamp of one posted entry, and whether it changes it. *)
Definition stamp (c : leaseContext) (prior : gmap string PoolEntry) (en : PoolEntry) : PoolEntry * bool :=
  let was state p := pe_State p =s state in
  let p := prior !! pe_MemberID en in
  let same := match p with Some p => pe_AllocationID p =s pe_AllocationID en | None => false end in
  let held f := match p with Some p => same && f p | None => false end in
  let at_ := pe_QuarantinedAt en in
  let kept := if at_ =s ε then match p with Some p => pe_QuarantinedAt p | None => ε end else at_ in
  let '(new, cleared) :=
    if (pe_State en =s "QUARANTINED") && held (λ p, was "QUARANTINED" p || was "CLEANING" p && negb (pe_QuarantinedAt p =s ε))
    then (kept, false)
    else if pe_State en =s "QUARANTINED" then (now c, true)
    else if (pe_State en =s "CLEANING") && held (λ p, was "QUARANTINED" p || was "CLEANING" p) then (kept, false)
    else (ε, true) in
  if negb (new =s at_) || (cleared && some (pe_Recovery en))
  then (en <| pe_QuarantinedAt := new |> <| pe_Recovery := if cleared then None else pe_Recovery en |>, true)
  else (en, false).

Definition repost (c : leaseContext) (out : leaseOutcome) (state : PoolState) : planned leaseOutcome :=
  or_fail c (Pools_Encode state) (λ raw,
    Ok (mkLeaseOutcome (<["pools.json" := raw]> (lo_posts out)) (lo_effect out) (lo_detail out) (lo_result out) (lo_authors out)
          (lo_restored out))).

Definition stampQuarantine (c : leaseContext) (out : leaseOutcome) : planned leaseOutcome :=
  match lo_posts out !! "pools.json" with
  | None => Ok out
  | Some raw =>
      match DecodePools raw with
      | Ok state =>
          let prior := foldl (λ m en, <[pe_MemberID en := en]> m) ∅ (pst_Entries (st_Pools (c_st c))) in
          let stamped := stamp c prior <$> pst_Entries state in
          if negb (existsb snd stamped) then Ok out else repost c out (with_entries state stamped.*1)
      | Err _ => Ok out
      | OutOfFuel => OutOfFuel
      end
  end.

(** The attempt a post writes, or the observed one. *)
Definition posted_attempt (c : leaseContext) (out : leaseOutcome) (id : string) : option Attempt :=
  match lo_posts out !! attemptPath id with
  | Some raw => match DecodeAttempt raw with Ok a => Some a | _ => attempt_of c id end
  | None => attempt_of c id
  end.

Definition pruneWaitlist (c : leaseContext) (out : leaseOutcome) : planned leaseOutcome :=
  match lo_posts out !! "pools.json" with
  | None => Ok out
  | Some raw =>
      match DecodePools raw with
      | Ok state =>
          if is_empty (pst_Waiters state) then Ok out
          else
            let* live := liveWaiters (pst_Waiters state) state (policy_of c) (st_Tickets (c_st c)) (posted_attempt c out) (now c) in
            if len live =? len (pst_Waiters state) then Ok out else repost c out (with_waiters state live)
      | Err _ => Ok out
      | OutOfFuel => OutOfFuel
      end
  end.

Section planners.
Context (HandoffPolicyCompatible : string → string → string → string → bool) (DecodePrograms : string → option ProgramState).

(** The planners modelled here, by their verbs. *)
Definition leasePlanners : list (string * (leaseContext → planned leaseOutcome)) := [
  (LeaseClaim, planClaim); (LeaseClaimNext, planClaimNext); (LeaseHeartbeat, planHeartbeat); (LeaseRenew, planRenew);
  (LeaseRelease, planRelease HandoffPolicyCompatible DecodePrograms); (LeaseReap, planReap); (LeaseWiden, planWiden)
].

(** The context a request gives its planner. *)
Definition lease_context (queue request : string) (actor : Writer.Binding) (l : LeaseRequest) (i : LeaseInput) (st : inputState) :
    leaseContext :=
  mkLeaseContext queue request actor l i st (next_size (hd_LastSeq (st_Head st))) None None.

(** [planLease(r, in, st)] of a verb modelled here. *)
Definition planLease (c : leaseContext) (planner : leaseContext → planned leaseOutcome) : planned leaseOutcome :=
  let l := c_l c in
  match CheckPoolExclusions (l_Pool l) (l_ExcludeMembers l) (policy_of c) with
  | Some e => Ok (fail c e)
  | None =>
      let supervised := match attempt_of c (l_AttemptID l) with Some a => some (atp_Supervision a) | None => false end in
      if supervised && negb (contains [LeaseSupervisor; LeaseGateRun; LeaseComplete] (l_Verb l)) then
        Ok (refuse c OutcomeBlocked CodeQuiescenceUnproved "supervised attempt requires owned lifecycle transition")
      else
        let* out := planner c in
        let* out := stampQuarantine c out in
        pruneWaitlist c out
  end.
End planners.

(** ** The observed reservations and attempts

    [lease_state.go]: what a transaction checks of the state before it plans. *)

Definition sameResources (a b : list Resource) : bool :=
  match ResourcesValue ε a, ResourcesValue ε b with
  | Ok x, Ok y => EncodeFile x =s EncodeFile y
  | _, _ => false
  end.

Definition loadReservations (queue reservations : string) (c : leaseContext) : res ReservationSet :=
  let* set := DecodeReservations reservations in
  let* raw := Reservations_Encode set in
  if negb (raw =s reservations) || negb (QueueID_Raw (rs_QueueID set) =s queue) || negb (matches c "reservations.json" reservations)
  then Err (malformed "reservation set binding")
  else if existsb (λ en, negb (en_State en =s "ACTIVE") || negb (is_empty (en_CapacityUses en)) ||
                         negb (contains ["0"; "1"] (en_Workers en))) (rs_Entries set)
  then Err (malformed "reservation entry outside the external-agent subset")
  else if existsb (λ en, negb (some (in_Files (c_in c) !! attemptPath (en_AttemptID en)))) (rs_Entries set)
  then Err (malformed "reservation entry without an attempt record")
  else Ok set.

Definition decodeAttempt (c : leaseContext) (raw : string) : res Attempt :=
  let* a := DecodeAttempt raw in
  let* again := Attempt_Encode a in
  if negb (again =s raw) || negb (matches c (attemptPath (atp_AttemptID a)) raw) then Err (malformed "attempt record binding")
  else if negb (atp_RuntimeID a =s RuntimeExternalAgent) && negb (atp_RuntimeID a =s SupervisedProfile)
  then Err (malformed "attempt runtime outside the external-agent subset")
  else Ok a.

Fixpoint decode_attempts (c : leaseContext) (raws : list string) (out : gmap string Attempt) : res (gmap string Attempt) :=
  match raws with
  | [] => Ok out
  | raw :: raws' =>
      let* a := decodeAttempt c raw in
      if some (out !! atp_AttemptID a) then Err (malformed "duplicate attempt record")
      else decode_attempts c raws' (<[atp_AttemptID a := a]> out)
  end.

(** [countPrefix(in.Inventory, prefix)] of a complete inventory. *)
Definition countPrefix (c : leaseContext) (prefix : string) : nat :=
  length (List.filter (λ p, strings.HasPrefix p prefix) (map_to_list (in_Files (c_in c))).*1).

#[local] Instance TicketID_eq_dec : EqDecision TicketID.
Proof. solve_decision. Defined.

(** An entry and the live attempt it reserves for; the scope is there. *)
Definition entry_bound (attempts : gmap string Attempt) (en : ReservationEntry) : bool :=
  match attempts !! en_AttemptID en with
  | Some a =>
      Live a && (atp_Generation a =s en_Generation en) && bool_decide (atp_TicketID a = en_TicketID en) &&
      (atp_TicketRevision a =s en_TicketRevision en) &&
      match atp_Scope a with Some sc => sameResources (sc_Resources sc) (en_Resources en) | None => false end
  | None => false
  end.

(** The workers an entry reserves fit its attempt's runtime. *)
Definition workers_bound (attempts : gmap string Attempt) (en : ReservationEntry) : option Error :=
  match attempts !! en_AttemptID en with
  | Some a =>
      if (atp_RuntimeID a =s RuntimeExternalAgent) && negb (en_Workers en =s "0") then
        Some (malformed "legacy attempt has worker reservation")
      else match atp_Supervision a with
      | Some s => if negb (Bool.eqb (en_Workers en =s "1") (sv_Worker s)) then Some (malformed "supervised worker reservation differs") else None
      | None => None
      end
  | None => None
  end.

Fixpoint entries_bound (attempts : gmap string Attempt) (l : list ReservationEntry) : option Error :=
  match l with
  | [] => None
  | en :: l' =>
      if negb (entry_bound attempts en) then Some (malformed "reservation entry differs from its attempt")
      else match workers_bound attempts en with Some e => Some e | None => entries_bound attempts l' end
  end.

Definition loadAttempts (c : leaseContext) (raws : list string) (set : ReservationSet) : res (gmap string Attempt) :=
  let* out := decode_attempts c raws ∅ in
  if negb (countPrefix c "attempts/" =? size out)%nat then Err (malformed "incomplete attempt inventory")
  else if negb (length (List.filter (λ kv, Live kv.2) (map_to_list out)) =? length (rs_Entries set))%nat
  then Err (malformed "live attempts differ from reservation entries")
  else
    try entries_bound out (rs_Entries set);
    Ok out.
End digests.
