(* ===== verification/LeaseSpec.v ===== *)
(** * What a lease command promises

    Whatever a modelled command posts keeps the reservations consistent: the
    live attempts are exactly the reserved ones, one to a ticket, and no two
    reservations exclude each other. A command of a generation that is stale,
    ended or expired posts nothing; renewing and reaping do what their names
    say; a claim is admitted only when nothing refuses it, and CLAIM_NEXT
    admits the ticket the plan selects. *)

From S2P Require Import Prelude View Utf8 GoStd Codes Limits Value Primitives Ids Parse Reader Ticket Inventory Marks.
From S2P Require Import RecordParts RecordCodec Collision Intent Updates Mutation Outcomes Writer Attempt Pools Clock Planner PlannerSpec.
From S2P Require Import LeaseRequest Lease Canonical SetsSpec ParsePrint ValueSpec TotalSpec Apply.
Local Open Scope Z_scope.
Local Open Scope go_scope.

(** ** What is written *)

(** An outcome that posts nothing and has no effect. *)
Definition refuses (out : leaseOutcome) : Prop := lo_posts out = ∅ ∧ lo_effect out = None.

(** An outcome that posts one attempt and, when [es] are given, the
    reservations. *)
Record writes (c : leaseContext) (a : Attempt) (es : option (list ReservationEntry)) (out : leaseOutcome) : Prop := {
  wr_attempt : ∃ raw, Attempt_Encode a = Ok raw ∧ lo_posts out !! attemptPath (atp_AttemptID a) = Some raw;
  wr_only id : id ≠ atp_AttemptID a → lo_posts out !! attemptPath id = None;
  wr_reservations :
    match es with
    | Some es => ∃ raw, Reservations_Encode (mkReservations (rs_QueueID (st_Reservations (c_st c))) es) = Ok raw ∧
                        lo_posts out !! "reservations.json" = Some raw
    | None => lo_posts out !! "reservations.json" = None
    end;
  wr_effect : ∃ kind bump, lo_effect out = Some (mkEffect kind (atp_AttemptID a) (atp_Generation a) bump OutcomeCompleted [])
}.

Lemma refuse_refuses c outcome code why : refuses (refuse c outcome code why).
Proof. done. Qed.

Lemma fail_refuses c e : refuses (fail c e).
Proof. done. Qed.

Lemma unchanged_refuses c : refuses (unchanged c).
Proof. done. Qed.

Create HintDb lease.
#[export] Hint Resolve refuse_refuses fail_refuses unchanged_refuses : lease.

Lemma or_fail_Ok {A} c (x : res A) k out : or_fail c x k = Ok out → refuses out ∨ ∃ a, x = Ok a ∧ k a = Ok out.
Proof. destruct x; cbn; [eauto| |done]. intros [= <-]. left. done. Qed.

Lemma attemptPath_inj a b : attemptPath a = attemptPath b → a = b.
Proof. intros H%app_str_inj_l. by apply app_str_inj_r in H. Qed.

Lemma attemptPath_other id : attemptPath id ≠ "pools.json" ∧ attemptPath id ≠ "reservations.json".
Proof. by split. Qed.

(** A file beside the attempts and the reservations. *)
Definition pool_file (path : string) : Prop := path = "pools.json" ∨ ∃ d, path = "evidence/" +:+ d.

Lemma pool_file_other path : pool_file path → path ≠ "reservations.json" ∧ ∀ id, path ≠ attemptPath id.
Proof. by intros [->|[d ->]]. Qed.

Section digests.
Context (sha256 : string → string).

Lemma pool_entries_files c a x l : ∀ es found posts, pool_entries sha256 c a x l = Ok (es, found, posts) →
  ∀ path raw, posts !! path = Some raw → pool_file path.
Proof.
  induction l as [|en l IH]; intros es found posts H path raw Hp; cbn [pool_entries] in H.
  { injection H as <- <- <-. by rewrite lookup_empty in Hp. }
  cbv zeta in H. destruct (negb (pe_AllocationID en =s pa_AllocationID x)).
  { apply obind_Ok in H as ([[es' f'] p'] & Hr & [= <- <- <-]). by eapply IH. }
  destruct (_ && (_ || _)).
  { apply obind_Ok in H as (en' & _ & [= <- <- <-]). by rewrite lookup_empty in Hp. }
  assert (∀ b : bool, (if b then {["evidence/" +:+ Sum sha256 (lf_Observation (facts c)) := lf_Observation (facts c)]} else ∅ : gmap string string)
    !! path = Some raw → pool_file path) as He.
  { intros []; [|by rewrite lookup_empty]. intros [<- _]%lookup_singleton_Some. right. eauto. }
  destruct (_ && negb (identityGuarded _ _)).
  - injection H as <- <- <-. by eapply He.
  - apply obind_Ok in H as ([[es' f'] p'] & Hr & [= <- <- <-]). cbn [snd] in Hp.
    apply lookup_union_Some_raw in Hp as [Hp|[_ Hp]]; [by eapply He|by eapply IH].
Qed.

Lemma poolPosts_files c a posts : poolPosts sha256 c a = Ok (Ok posts) → ∀ path raw, posts !! path = Some raw → pool_file path.
Proof.
  intros H path raw Hp. unfold poolPosts in H. destruct (atp_PoolAllocation a) as [x|].
  2: { injection H as <-. by rewrite lookup_empty in Hp. }
  cbv zeta in H. apply obind_Ok in H as ([[es found] m] & Hr & H). cbn [fst snd] in H.
  assert (∀ l, obind (Pools_Encode (with_entries (st_Pools (c_st c)) l)) (λ raw, Ok (<["pools.json":=raw]> m)) = Ok posts →
    pool_file path) as Hpost.
  { intros l (b & _ & [= <-])%obind_Ok. apply lookup_insert_Some in Hp as [[<- _]|[_ Hp]]; [by left|].
    by eapply pool_entries_files. }
  destruct found.
  - injection H as H. by eapply Hpost.
  - destruct (negb (Live a)); [done|]. apply obind_Ok in H as (en & _ & [= H]). by eapply Hpost.
Qed.

Lemma waitlistPosts_spec c a posts posts' : waitlistPosts c a posts = Ok (Ok posts') →
  posts' = posts ∨ ∃ raw, posts' = <["pools.json" := raw]> posts.
Proof.
  unfold waitlistPosts. intros (grace & _ & H)%obind_Ok. destruct (_ && _); [injection H as <-; by left|].
  destruct (match posts !! _ with Some _ => _ | None => _ end) as [state|e|]; [|done..].
  apply obind_Ok in H as (next & _ & [= (nx & _ & H)%obind_Ok]).
  destruct (_ || _); [injection H as <-; by left|]. apply obind_Ok in H as (raw & _ & [= <-]). right. eauto.
Qed.

Lemma write_spec c a es kind bump out : write sha256 c a es kind bump = Ok out → refuses out ∨ writes c a es out.
Proof.
  unfold write. intros [?|(raw & Hraw & H)]%or_fail_Ok; [by left|].
  apply obind_Ok in H as (pools & Hpools & [?|(m & -> & H)]%or_fail_Ok); [by left|].
  apply obind_Ok in H as (posts & Hposts & [?|(m2 & -> & H)]%or_fail_Ok); [by left|].
  apply or_fail_Ok in H as [?|(m3 & Hm3 & [= <-])]; [by left|]. right.
  pose proof (poolPosts_files _ _ _ Hpools) as Hfiles.
  assert (∀ path, ¬ pool_file path → m2 !! path = ({[attemptPath (atp_AttemptID a) := raw]} : gmap string string) !! path) as Hm2.
  { intros path Hp.
    assert ((m ∪ {[attemptPath (atp_AttemptID a) := raw]}) !! path = ({[attemptPath (atp_AttemptID a) := raw]} : gmap string string) !! path) as Hu.
    { apply lookup_union_r. destruct (m !! path) eqn:E; [|done]. exfalso. eauto. }
    apply waitlistPosts_spec in Hposts as [->|[b ->]]; [done|]. rewrite lookup_insert_ne; [done|]. intros <-. apply Hp. by left. }
  assert (∀ id, ¬ pool_file (attemptPath id)) as Ha by (intros id Hf; by destruct (proj2 (pool_file_other _ Hf) id)).
  assert (¬ pool_file "reservations.json") as Hres by (intros Hf; by destruct (pool_file_other _ Hf)).
  assert (∀ id, m3 !! attemptPath id = m2 !! attemptPath id) as Hm3a.
  { intros id. destruct es as [es|]; [|by injection Hm3 as ->].
    apply obind_Ok in Hm3 as (b & _ & [= <-]). by rewrite lookup_insert_ne. }
  split; cbn [lo_posts lo_effect].
  - exists raw. split; [done|]. rewrite Hm3a, Hm2 by done. apply lookup_singleton_eq.
  - intros id Hid. rewrite Hm3a, Hm2 by done. apply lookup_singleton_ne. intros ?%attemptPath_inj. congruence.
  - destruct es as [es|].
    + apply obind_Ok in Hm3 as (b & Hb & [= <-]). exists b. split; [done|apply lookup_insert_eq].
    + injection Hm3 as <-. rewrite Hm2 by done. by apply lookup_singleton_ne.
  - eauto.
Qed.

(** ** The stamps after a planner *)

Lemma repost_spec c out state out' : repost c out state = Ok out' →
  refuses out' ∨ ∃ raw, out' = mkLeaseOutcome (<["pools.json" := raw]> (lo_posts out)) (lo_effect out) (lo_detail out) (lo_result out)
    (lo_authors out) (lo_restored out).
Proof. unfold repost. intros [?|(raw & _ & [= <-])]%or_fail_Ok; [by left|right; eauto]. Qed.

(** The later stamps change nothing of an outcome but the pools. *)
Definition same_but_pools (out out' : leaseOutcome) : Prop :=
  (∀ path, path ≠ "pools.json" → lo_posts out' !! path = lo_posts out !! path) ∧ lo_effect out' = lo_effect out ∧
  (lo_posts out = ∅ → lo_posts out' = ∅).

Lemma repost_same c out state out' raw : lo_posts out !! "pools.json" = Some raw → repost c out state = Ok out' →
  refuses out' ∨ same_but_pools out out'.
Proof.
  intros Hr [?|[b ->]]%repost_spec; [by left|right]. unfold same_but_pools. cbn [lo_posts lo_effect]. split_and!; [|done|].
  - intros path Hp. by rewrite lookup_insert_ne.
  - intros He. rewrite He in Hr. by rewrite lookup_empty in Hr.
Qed.

Lemma stamps_same c out out1 out2 : stampQuarantine c out = Ok out1 → pruneWaitlist c out1 = Ok out2 →
  refuses out2 ∨ same_but_pools out out2.
Proof.
  intros H1 H2.
  assert (∀ o, same_but_pools o o) as Hrefl by done.
  assert (refuses out1 ∨ same_but_pools out out1) as H.
  { unfold stampQuarantine in H1. destruct (lo_posts out !! _) as [raw|] eqn:E; [|injection H1 as <-; by right].
    destruct (DecodePools raw) as [state|e|]; [|injection H1 as <-; by right|done].
    cbv zeta in H1. destruct (negb _); [injection H1 as <-; by right|]. by eapply repost_same. }
  unfold pruneWaitlist in H2. destruct (lo_posts out1 !! _) as [raw|] eqn:E; [|injection H2 as <-; done].
  destruct (DecodePools raw) as [state|e|]; [|injection H2 as <-; done|done].
  destruct (is_empty _); [injection H2 as <-; done|].
  apply obind_Ok in H2 as (live & _ & H2). destruct (_ =? _); [injection H2 as <-; done|].
  destruct H as [[Hr _]|H]; [by rewrite Hr, lookup_empty in E|].
  destruct (repost_same _ _ _ _ _ E H2) as [?|H']; [by left|right].
  destruct H as (Ha & Hb & Hc), H' as (Ha' & Hb' & Hc'). unfold same_but_pools. split_and!; [|congruence|auto].
  intros path Hp. rewrite Ha' by done. by apply Ha.
Qed.

Lemma writes_same c a es out out' : writes c a es out → same_but_pools out out' → writes c a es out'.
Proof.
  intros [(raw & Hraw & Hp) Ho Hr He] (Hs & Heff & _).
  split; [exists raw; split; [done|]; by rewrite Hs| |..].
  - intros id Hid. rewrite Hs by done. by apply Ho.
  - destruct es; [destruct Hr as (r & ? & ?); exists r; split; [done|]|]; by rewrite Hs.
  - by rewrite Heff.
Qed.
End digests.

(** ** Consistent reservations *)

(** No two of the entries hold resources that exclude each other. *)
Definition no_exclusion (shared : list string) (es : list ReservationEntry) : Prop :=
  ∀ i j x y, es !! i = Some x → es !! j = Some y → i ≠ j → CollideShared (en_Resources x) (en_Resources y) shared = false.

Definition en_ticket (en : ReservationEntry) : string := TicketID_Raw (en_TicketID en).

(** An entry reserves for its attempt, at its generation and ticket, what the
    attempt's scope holds. *)
Definition reserves (attempts : gmap string Attempt) (en : ReservationEntry) : Prop :=
  ∃ a sc, attempts !! en_AttemptID en = Some a ∧ atp_Generation a = en_Generation en ∧ atp_TicketID a = en_TicketID en ∧
    atp_TicketRevision a = en_TicketRevision en ∧ atp_Scope a = Some sc ∧ ∀ r, r ∈ sc_Resources sc ↔ r ∈ en_Resources en.

(** The live attempts are exactly the reserved ones, at most one to a ticket,
    and no two reservations exclude each other. *)
Record Consistent (shared : list string) (attempts : gmap string Attempt) (es : list ReservationEntry) : Prop := {
  con_keys id a : attempts !! id = Some a → atp_AttemptID a = id ∧ id ≠ ε;
  con_ids : NoDup (en_AttemptID <$> es);
  con_live id : (∃ a, attempts !! id = Some a ∧ Live a = true) ↔ id ∈ en_AttemptID <$> es;
  con_bound en : en ∈ es → reserves attempts en;
  con_tickets : NoDup (en_ticket <$> es);
  con_disjoint : no_exclusion shared es
}.

Lemma lookup_entry (es : list ReservationEntry) en : en ∈ es → en_AttemptID en ∈ en_AttemptID <$> es.
Proof. intros H. apply list_elem_of_fmap. eauto. Qed.

Lemma NoDup_fmap_lookup {A B} (f : A → B) (l : list A) : NoDup (f <$> l) → ∀ i j x y, l !! i = Some x → l !! j = Some y → f x = f y → i = j.
Proof.
  intros H i j x y Hx Hy He. eapply (NoDup_lookup _ _ _ (f x) H).
  - by rewrite list_lookup_fmap, Hx.
  - rewrite list_lookup_fmap, Hy. cbn. by rewrite He.
Qed.

Lemma NoDup_fmap_filter {A B} (f : A → B) (p : A → bool) (l : list A) : NoDup (f <$> l) → NoDup (f <$> List.filter p l).
Proof.
  induction l as [|x l IH]; [done|]. rewrite fmap_cons, NoDup_cons. intros [Hx Hl]. cbn [List.filter].
  destruct (p x); [|auto]. rewrite fmap_cons, NoDup_cons. split; [|auto].
  intros (y & Hy & [Hin _]%list_elem_of_In%filter_In)%list_elem_of_fmap. apply Hx, list_elem_of_fmap. exists y. split; [done|].
  by apply list_elem_of_In.
Qed.

(** The entries of a key are one. *)
Lemma entry_unique (es : list ReservationEntry) x y : NoDup (en_AttemptID <$> es) → x ∈ es → y ∈ es → en_AttemptID x = en_AttemptID y → x = y.
Proof.
  intros Hnd [i Hi]%list_elem_of_lookup [j Hj]%list_elem_of_lookup He.
  assert (i = j) as -> by (by eapply (NoDup_fmap_lookup en_AttemptID)). congruence.
Qed.

(** Pairs of a duplicate-free list by elements instead of positions. *)
Lemma no_exclusion_alt shared es : NoDup (en_AttemptID <$> es) →
  no_exclusion shared es ↔ ∀ x y, x ∈ es → y ∈ es → en_AttemptID x ≠ en_AttemptID y → CollideShared (en_Resources x) (en_Resources y) shared = false.
Proof.
  intros Hnd. split.
  - intros H x y [i Hi]%list_elem_of_lookup [j Hj]%list_elem_of_lookup Hne. apply (H i j); [done..|]. intros ->. congruence.
  - intros H i j x y Hi Hj Hij. apply H; [by eapply list_elem_of_lookup_2..|]. intros He. apply Hij.
    by eapply (NoDup_fmap_lookup en_AttemptID).
Qed.

Lemma reserves_insert_ne attempts en id a : en_AttemptID en ≠ id → reserves attempts en → reserves (<[id := a]> attempts) en.
Proof. intros Hne (x & sc & Hx & H). exists x, sc. by rewrite lookup_insert_ne. Qed.

Section consistent.
Context (shared : list string) (attempts : gmap string Attempt) (es : list ReservationEntry).
Context (Hcon : Consistent shared attempts es).

Lemma keys_insert a : atp_AttemptID a ≠ ε → ∀ id x, <[atp_AttemptID a := a]> attempts !! id = Some x → atp_AttemptID x = id ∧ id ≠ ε.
Proof using Hcon.
  intros Ha id x [[<- <-]|[_ Hx]]%lookup_insert_Some; [done|]. by apply (con_keys _ _ _ Hcon).
Qed.

(** An attempt that keeps what its entry says of it. *)
Lemma Consistent_update a next : attempts !! atp_AttemptID a = Some a → Live next = Live a →
  atp_AttemptID next = atp_AttemptID a → atp_Generation next = atp_Generation a → atp_TicketID next = atp_TicketID a →
  atp_TicketRevision next = atp_TicketRevision a → atp_Scope next = atp_Scope a →
  Consistent shared (<[atp_AttemptID next := next]> attempts) es.
Proof using Hcon.
  intros Ha Hlive Hid Hg Ht Hr Hs. pose proof (con_keys _ _ _ Hcon _ _ Ha) as [_ Hne].
  destruct Hcon as [Hk Hids Hl Hb Htk Hd]. split; [by apply keys_insert; rewrite Hid|done| | |done..].
  - intros id. rewrite <-Hl, Hid. destruct (decide (id = atp_AttemptID a)) as [->|Hne'].
    + rewrite lookup_insert_eq, Ha. split; intros (x & [= <-] & Hx); eexists; (split; [done|]); congruence.
    + by rewrite lookup_insert_ne.
  - intros en Hen. rewrite Hid. destruct (decide (en_AttemptID en = atp_AttemptID a)) as [He|He]; [|apply reserves_insert_ne; auto].
    destruct (Hb en Hen) as (x & sc & Hx & H). rewrite He, Ha in Hx. injection Hx as <-.
    exists next, sc. rewrite He, lookup_insert_eq, Hg, Ht, Hr, Hs. by split.
Qed.

(** Ending an attempt removes its entry. *)
Lemma Consistent_end next : atp_AttemptID next ≠ ε → Live next = false →
  Consistent shared (<[atp_AttemptID next := next]> attempts) (List.filter (λ e, negb (en_AttemptID e =s atp_AttemptID next)) es).
Proof using Hcon.
  intros Hne Hdead. set (id := atp_AttemptID next) in *.
  assert (∀ en, en ∈ List.filter (λ e, negb (en_AttemptID e =s id)) es ↔ en ∈ es ∧ en_AttemptID en ≠ id) as Hin.
  { intros en. rewrite !list_elem_of_In, filter_In, negb_true_iff, String.eqb_neq. done. }
  destruct Hcon as [Hk Hids Hl Hb Htk Hd]. split.
  - by apply keys_insert.
  - by apply NoDup_fmap_filter.
  - intros id'. rewrite list_elem_of_fmap. setoid_rewrite Hin. destruct (decide (id' = id)) as [->|Hne'].
    + rewrite lookup_insert_eq. split; [intros (x & [= <-] & Hx); congruence|]. intros (en & -> & _ & H). done.
    + rewrite lookup_insert_ne, Hl, list_elem_of_fmap by done. split; [intros (en & -> & H)|intros (en & -> & H & _)]; eauto.
  - intros en [Hen He]%Hin. apply reserves_insert_ne; auto.
  - by apply NoDup_fmap_filter.
  - apply no_exclusion_alt; [by apply NoDup_fmap_filter|]. intros x y [Hx _]%Hin [Hy _]%Hin. by apply (proj1 (no_exclusion_alt _ _ Hids) Hd).
Qed.

(** Admitting an attempt of a ticket that has none. *)
Lemma Consistent_admit a sc en : atp_AttemptID a ≠ ε → Live a = true → atp_Scope a = Some sc →
  en_AttemptID en = atp_AttemptID a → en_Generation en = atp_Generation a → en_TicketID en = atp_TicketID a →
  en_TicketRevision en = atp_TicketRevision a → en_Resources en = sc_Resources sc →
  atp_AttemptID a ∉ en_AttemptID <$> es → en_ticket en ∉ en_ticket <$> es →
  (∀ x, x ∈ es → CollideShared (en_Resources en) (en_Resources x) shared = false) →
  Consistent shared (<[atp_AttemptID a := a]> attempts) (es ++ [en]).
Proof using Hcon.
  intros Hne Hlive Hsc E1 E2 E3 E4 E5 Hfresh Htick Hdis. destruct Hcon as [Hk Hids Hl Hb Htk Hd].
  assert (NoDup (en_AttemptID <$> (es ++ [en]))) as Hnd.
  { rewrite fmap_app. apply NoDup_app. split_and!; [done| |apply NoDup_singleton]. cbn.
    intros x Hx ->%list_elem_of_singleton. by rewrite E1 in Hx. }
  split; [by apply keys_insert|done|..].
  - intros id. rewrite fmap_app, elem_of_app, <-Hl. cbn. rewrite list_elem_of_singleton, E1.
    destruct (decide (id = atp_AttemptID a)) as [->|Hne'].
    + rewrite lookup_insert_eq. split; [by right|eauto].
    + rewrite lookup_insert_ne by done. naive_solver.
  - intros x [Hx| ->%list_elem_of_singleton]%elem_of_app.
    + apply reserves_insert_ne; [|auto]. intros He. apply Hfresh. rewrite <-He. by apply lookup_entry.
    + exists a, sc. rewrite E1, lookup_insert_eq, E2, E3, E4, E5. by split_and!.
  - rewrite fmap_app. apply NoDup_app. split_and!; [done| |apply NoDup_singleton]. cbn.
    intros x Hx ->%list_elem_of_singleton. done.
  - apply no_exclusion_alt; [done|]. pose proof (proj1 (no_exclusion_alt _ _ Hids) Hd) as Hd'.
    intros x y [Hx| ->%list_elem_of_singleton]%elem_of_app [Hy| ->%list_elem_of_singleton]%elem_of_app Hxy; auto.
    + rewrite CollideShared_sym. auto.
    + done.
Qed.

(** Widening an attempt by resources that exclude no other entry. *)
Lemma Consistent_rescope a next sc : attempts !! atp_AttemptID a = Some a → Live a = true → Live next = true →
  atp_AttemptID next = atp_AttemptID a → atp_Generation next = atp_Generation a → atp_TicketID next = atp_TicketID a →
  atp_TicketRevision next = atp_TicketRevision a → atp_Scope next = Some sc →
  (∀ x, x ∈ es → en_AttemptID x ≠ atp_AttemptID a → CollideShared (sc_Resources sc) (en_Resources x) shared = false) →
  Consistent shared (<[atp_AttemptID next := next]> attempts) (rescoped a sc <$> es).
Proof using Hcon.
  intros Ha Hlive Hlive' Hid Hg Ht Hr Hs Hdis. pose proof (con_keys _ _ _ Hcon _ _ Ha) as [_ Hne].
  destruct Hcon as [Hk Hids Hl Hb Htk Hd].
  assert (∀ en, en_AttemptID (rescoped a sc en) = en_AttemptID en) as Rid by (intros en; unfold rescoped; by destruct (_ =s _)).
  assert (∀ en, en_ticket (rescoped a sc en) = en_ticket en) as Rt by (intros en; unfold rescoped; by destruct (_ =s _)).
  assert (en_AttemptID <$> (rescoped a sc <$> es) = en_AttemptID <$> es) as Eids.
  { rewrite <-list_fmap_compose. by apply list_fmap_ext; intros; apply Rid. }
  split; [by apply keys_insert; rewrite Hid|by rewrite Eids|..].
  - intros id. rewrite Eids, <-Hl, Hid. destruct (decide (id = atp_AttemptID a)) as [->|Hne'].
    + rewrite lookup_insert_eq. split; eauto.
    + by rewrite lookup_insert_ne.
  - intros en (en0 & -> & Hen)%list_elem_of_fmap. rewrite Hid. destruct (Hb en0 Hen) as (x & s0 & Hx & Hrest).
    unfold rescoped. destruct (String.eqb_spec (en_AttemptID en0) (atp_AttemptID a)) as [He|He].
    + rewrite He, Ha in Hx. injection Hx as <-. destruct Hrest as (? & ? & ? & _). exists next, sc. cbn.
      rewrite He, lookup_insert_eq. split_and!; congruence || done.
    + exists x, s0. by rewrite lookup_insert_ne.
  - rewrite <-list_fmap_compose. rewrite (list_fmap_ext _ en_ticket) by (intros; apply Rt). done.
  - apply no_exclusion_alt; [by rewrite Eids|]. pose proof (proj1 (no_exclusion_alt _ _ Hids) Hd) as Hd'.
    intros x y (x0 & -> & Hx)%list_elem_of_fmap (y0 & -> & Hy)%list_elem_of_fmap. rewrite !Rid. intros Hxy. unfold rescoped.
    destruct (String.eqb_spec (en_AttemptID x0) (atp_AttemptID a)) as [Ex|Ex],
      (String.eqb_spec (en_AttemptID y0) (atp_AttemptID a)) as [Ey|Ey]; cbn [en_Resources]; [congruence|..|auto].
    + auto.
    + rewrite CollideShared_sym. auto.
Qed.
End consistent.


Section planners.
Context (sha256 : string → string).

(** ** The state after a command *)

Definition shared_of (c : leaseContext) : list string := SharedReservationPaths (policy_of c).

Definition attempts_of (c : leaseContext) : gmap string Attempt := st_Attempts (c_st c).

(** The state a transaction observes: consistent, with a file for each
    attempt, as [loadReservations] and [loadAttempts] check. *)
Record observed (c : leaseContext) : Prop := {
  obs_consistent : Consistent (shared_of c) (attempts_of c) (entries c);
  obs_stored id a : attempts_of c !! id = Some a → is_Some (in_Files (c_in c) !! attemptPath id)
}.

(** No more reservations than before, or one more within the policy's limit. *)
Definition grows_within (c : leaseContext) (es : list ReservationEntry) : Prop :=
  len es ≤ len (entries c) ∨
  len es = len (entries c) + 1 ∧ len es ≤ Count_Int (pol_MaxActiveAttempts (policy_of c)).

(** An outcome that posts nothing, or one attempt and the reservations that
    keep the state consistent and grow within the policy's limit. *)
Definition keeps (c : leaseContext) (out : leaseOutcome) : Prop :=
  lo_posts out = ∅ ∨
  ∃ next es, writes c next es out ∧ let es := default (entries c) es in
    Consistent (shared_of c) (<[atp_AttemptID next := next]> (attempts_of c)) es ∧
    grows_within c es.

Lemma refuses_keeps c out : refuses out → keeps c out.
Proof. intros [? _]. by left. Qed.

Hint Resolve refuses_keeps : lease.

Lemma keeps_write c a es kind bump out : write sha256 c a es kind bump = Ok out →
  Consistent (shared_of c) (<[atp_AttemptID a := a]> (attempts_of c)) (default (entries c) es) →
  grows_within c (default (entries c) es) →
  keeps c out.
Proof using Type. intros H Hc Hl. apply write_spec in H as [?|H]; [auto with lease|right; eauto]. Qed.

Lemma fenced_live c a : fenced c a = ε →
  Live a = true ∧ expired a (now c) = false ∧ Size_Uint64 (atp_Generation a) = Size_Uint64 (l_Generation (c_l c)).
Proof.
  unfold fenced. destruct (Z.eqb_spec (Size_Uint64 (atp_Generation a)) (Size_Uint64 (l_Generation (c_l c)))); [|done].
  cbn [negb]. destruct (Live a); [|done]. cbn [negb]. by destruct (expired a (now c)).
Qed.

(** What a planner of a named attempt has to show: the attempt is there, and
    its command is not fenced. *)
Lemma named_keeps c (k : Attempt → planned leaseOutcome) out :
  or_fail c (named c) (λ a, if negb (fenced c a =s ε) then Ok (recordFenced c a (fenced c a)) else k a) = Ok out →
  (∀ a, attempts_of c !! l_AttemptID (c_l c) = Some a → fenced c a = ε → k a = Ok out → keeps c out) → keeps c out.
Proof.
  intros [?|(a & Ha & H)]%or_fail_Ok Hk; [auto with lease|].
  unfold named in Ha. destruct (attempt_of c (l_AttemptID (c_l c))) as [a'|] eqn:E; [|done]. injection Ha as ->.
  destruct (String.eqb_spec (fenced c a) ε) as [Hf|Hf]; cbn [negb] in H; [by eapply Hk|]. injection H as <-. by left.
Qed.

Lemma len_without c id : len (without c id) ≤ len (entries c).
Proof. unfold len, without. pose proof (List.filter_length_le (λ e, negb (en_AttemptID e =s id)) (entries c)). lia. Qed.

Lemma terminal_ended c a phase cause : TerminalPhase phase = true → Live (ended c a phase cause) = false.
Proof. intros H. unfold Live. cbn. by rewrite H. Qed.

Lemma ended_id c a phase cause : atp_AttemptID (ended c a phase cause) = atp_AttemptID a.
Proof. done. Qed.

Section observed.
Context (c : leaseContext) (Hobs : observed c).

Lemma attempt_key id a : attempts_of c !! id = Some a → atp_AttemptID a = id ∧ id ≠ ε.
Proof using Hobs. apply (con_keys _ _ _ (obs_consistent _ Hobs)). Qed.

(** Ending an attempt keeps the state. *)
Lemma end_keeps key a next kind bump out : write sha256 c next (Some (without c (atp_AttemptID a))) kind bump = Ok out →
  attempts_of c !! key = Some a → atp_AttemptID next = atp_AttemptID a → Live next = false → keeps c out.
Proof using Hobs.
  intros H Ha Hid Hdead. destruct (attempt_key _ _ Ha) as [Hk Hne]. eapply keeps_write; [exact H|..]; cbn [from_option id].
  - unfold without. rewrite <-Hid. apply Consistent_end; [apply Hobs|by rewrite Hid, Hk|done].
  - left. apply len_without.
Qed.

(** Rewriting a live attempt's marks keeps the state. *)
Lemma update_keeps a next kind bump out : write sha256 c next None kind bump = Ok out → attempts_of c !! l_AttemptID (c_l c) = Some a → Live next = Live a →
  atp_AttemptID next = atp_AttemptID a → atp_Generation next = atp_Generation a → atp_TicketID next = atp_TicketID a →
  atp_TicketRevision next = atp_TicketRevision a → atp_Scope next = atp_Scope a → keeps c out.
Proof using Hobs.
  intros H Ha ? ? ? ? ? ?. destruct (attempt_key _ _ Ha) as [Hk _]. eapply keeps_write; [exact H|..]; cbn [from_option]; [|by left].
  rewrite <-Hk in Ha. by apply (Consistent_update _ _ _ (obs_consistent _ Hobs) a).
Qed.

Lemma planHeartbeat_keeps out : planHeartbeat sha256 c = Ok out → keeps c out.
Proof using Hobs.
  intros H. eapply named_keeps; [exact H|]. cbv beta. intros a Ha _ Hk. destruct (negb _); [injection Hk as <-; auto with lease|].
  exact (update_keeps a _ _ _ out Hk Ha eq_refl eq_refl eq_refl eq_refl eq_refl eq_refl).
Qed.

Lemma planRenew_keeps out : planRenew sha256 c = Ok out → keeps c out.
Proof using Hobs.
  intros H. eapply named_keeps; [exact H|]. cbv beta. intros a Ha _ Hk. destruct (atp_Lease a); [|done].
  exact (update_keeps a _ _ _ out Hk Ha eq_refl eq_refl eq_refl eq_refl eq_refl eq_refl).
Qed.

Lemma planRelease_keeps compatible programs out : planRelease sha256 compatible programs c = Ok out → keeps c out.
Proof using Hobs.
  intros H. unfold planRelease in H. cbv zeta in H. eapply named_keeps; [exact H|]. cbv beta. intros a Ha _ Hk.
  apply obind_Ok in Hk as (bad & _ & Hk). destruct bad; [injection Hk as <-; auto with lease|].
  apply obind_Ok in Hk as (next & Hnext & Hk).
  assert (atp_AttemptID next = atp_AttemptID a) as Hid.
  { destruct (l_LaneUntouched (c_l c)); [|by injection Hnext as <-].
    destruct (atp_DirectPoolAdmission a); [|done]. by injection Hnext as <-. }
  destruct (_ || _).
  2: { eapply end_keeps; [exact Hk|exact Ha|done|by apply terminal_ended]. }
  apply obind_Ok in Hk as ([r|] & Hr & Hk).
  { injection Hk as <-. unfold verifyHandoff in Hr. apply obind_Ok in Hr as (rec & _ & [= Hr]).
    repeat match type of Hr with (if ?b then _ else _) = _ => destruct b; [injection Hr as <-; auto with lease|] end.
    unfold verifyHandoffWork in Hr. cbv zeta in Hr.
    repeat match type of Hr with (if ?b then _ else _) = _ => destruct b; try done end; injection Hr as <-; auto with lease. }
  destruct (CheckHandoffTarget _ _ _ _ _); [injection Hk as <-; auto with lease|].
  apply obind_Ok in Hk as (next' & Hn' & Hk). unfold handed_off in Hn'. destruct (atp_RetryAccounting next); [|done].
  injection Hn' as <-. eapply end_keeps; [exact Hk|exact Ha|done|by apply terminal_ended].
Qed.

Lemma planReap_keeps out : planReap sha256 c = Ok out → keeps c out.
Proof using Hobs.
  unfold planReap. cbv zeta. destruct (_ =s ε); [intros (xs & _ & [= <-])%obind_Ok; by left|].
  intros [?|(a & Ha & H)]%or_fail_Ok; [auto with lease|].
  unfold named in Ha. destruct (attempt_of c (l_AttemptID (c_l c))) as [a'|] eqn:E; [|done]. injection Ha as ->.
  repeat match type of H with (if ?b then _ else _) = _ => destruct b; [first [injection H as <-; auto with lease|destruct (atp_Lease a); [injection H as <-; auto with lease|done]]|] end.
  eapply end_keeps; [exact H|exact E|done|by apply terminal_ended].
Qed.
End observed.

(** ** Claims *)

(** What an admitted claim found: no live attempt of the ticket, no colliding
    reservation, room for one more, a retry the policy allows; and what it
    posts. *)
Record admits (c : leaseContext) (rec : Record_) (sc : Scope) (out : leaseOutcome) (a : Attempt) : Prop := {
  adt_unclaimed : liveOn c (record_id rec) = ε;
  adt_free : collision c (sc_Resources sc) ε = ε;
  adt_room : at_capacity c = false;
  adt_attempt : ∃ prior authors, retryOf c rec = inr prior ∧ admitted sha256 (c <| c_authors := authors |>) rec prior sc = Ok a;
  adt_writes : writes c a (Some (entries c ++ [reservation_of c a sc])) out
}.

Lemma writes_ext c a es out out' : lo_posts out' = lo_posts out → lo_effect out' = lo_effect out → writes c a es out → writes c a es out'.
Proof using Type. intros Hp He [H1 H2 H3 H4]. split; rewrite ?Hp, ?He; done. Qed.

Lemma reap_first_refuses c reap : refuses (reap_first c reap).
Proof using Type. done. Qed.

Lemma shareRefusal_refuses c out : shareRefusal c = Some out → refuses out.
Proof using Type.
  unfold shareRefusal. destruct (sharedEntry c) as [en|]; [|intros [= <-]; done].
  repeat match goal with |- (if ?b then _ else _) = _ → _ => destruct b; [intros [= <-]; done|] end.
  assert (∀ xs o, bound_expired c xs = inl o → refuses o) as Hb.
  { induction xs as [|x xs IH]; intros o; cbn [bound_expired]; [done|].
    destruct (attempt_of c _) as [a|]; [|intros [= <-]; done].
    repeat match goal with |- (if ?b then _ else _) = _ → _ => destruct b; [intros [= <-]; done|] end.
    destruct (bound_expired c xs); [intros [= <-]; by apply IH|done]. }
  destruct (bound_expired c _) as [o|[|x reap]] eqn:E.
  - intros [= <-]. by eapply Hb.
  - destruct (_ <=? _); [intros [= <-]; done|done].
  - intros [= <-]. done.
Qed.

Lemma yieldRefusal_refuses c rec out : yieldRefusal c rec = Ok (Some out) → refuses out.
Proof using Type.
  unfold yieldRefusal. cbv zeta. destruct (_ =s ε); [done|]. intros (w & Hw & H)%obind_Ok. destruct w as [o|].
  - injection H as <-. unfold waitlistRefusal in Hw. destruct (_ || _); [done|].
    apply obind_Ok in Hw as (live & _ & [= Hw]). cbv zeta in Hw. destruct (_ =s ε); [done|]. injection Hw as <-. done.
  - match type of H with (if ?b then _ else _) = _ => destruct b; [done|] end.
    apply obind_Ok in H as (queue & _ & (waiting & _ & [= H])%obind_Ok). cbv zeta in H. destruct (_ =s ε); [done|].
    injection H as <-. done.
Qed.

Lemma retryOf_refuses c rec out : retryOf c rec = inl out → refuses out.
Proof using Type.
  unfold retryOf. destruct (lastAttemptOf _ _); [|done]. destruct (_ || _); [done|]. destruct (retryExhausted _ _ _); [|done].
  intros [= <-]. done.
Qed.

Lemma authorExclusion_refuses c id out : authorExclusion c id = inl out → refuses out.
Proof using Type.
  unfold authorExclusion. cbv zeta. destruct (_ =s ε); [done|]. destruct (DeriveAuthors _ _ _ _ _); [|done]. intros [= <-]. done.
Qed.

Lemma admit_attempt_spec c rec sc prior out : admit_attempt sha256 c rec sc prior = Ok out →
  refuses out ∨ ∃ a authors, admitted sha256 (c <| c_authors := authors |>) rec prior sc = Ok a ∧
    writes c a (Some (entries c ++ [reservation_of c a sc])) out.
Proof using Type.
  unfold admit_attempt. intros H.
  destruct (if negb _ then shareRefusal c else None) as [o|] eqn:Es.
  { injection H as <-. left. destruct (negb _); [|done]. by eapply shareRefusal_refuses. }
  destruct (authorExclusion c (record_id rec)) as [o|authors] eqn:Ea.
  { injection H as <-. left. by eapply authorExclusion_refuses. }
  cbv zeta in H. destruct (admitted sha256 _ rec prior sc) as [a|e|] eqn:E; [|injection H as <-; by left|done].
  apply obind_Ok in H as (o & Hw & [= <-]). apply write_spec in Hw as [[Hp He]|Hw].
  - left. by split.
  - right. exists a, authors. split; [done|]. destruct Hw as [H1 H2 H3 H4].
    apply (writes_ext _ _ _ o); [done..|]. split; [exact H1|exact H2|exact H3|exact H4].
Qed.

Lemma admit_claim_spec c rec sc out : admit_claim sha256 c rec sc = Ok out → refuses out ∨ ∃ a, admits c rec sc out a.
Proof using Type.
  unfold admit_claim. intros (reap & _ & H)%obind_Ok. destruct (negb _); [injection H as <-; left; done|].
  cbv zeta in H. destruct (String.eqb_spec (liveOn c (record_id rec)) ε) as [El|_]; cbn [negb] in H; [|injection H as <-; by left].
  apply obind_Ok in H as ([o|] & Hy & H).
  { injection H as <-. left. destruct (_ =s ε) in Hy; [|done]. by eapply yieldRefusal_refuses. }
  destruct (String.eqb_spec (collision c (sc_Resources sc) ε) ε) as [Ec|_]; cbn [negb] in H; [|injection H as <-; by left].
  destruct (at_capacity c) eqn:Ecap; [injection H as <-; by left|].
  destruct (retryOf c rec) as [o|prior] eqn:Er; [injection H as <-; left; by eapply retryOf_refuses|].
  apply admit_attempt_spec in H as [?|(a & authors & Ha & Hw)]; [by left|right]. exists a. split; eauto.
Qed.

(** ** A claim keeps the state *)

Lemma find_entry_ids (es : list ReservationEntry) f : (∀ en, en ∈ es → en_AttemptID en ≠ ε) →
  match List.find f es with Some en => en_AttemptID en | None => ε end = ε ↔ ∀ en, en ∈ es → f en = false.
Proof using Type.
  intros Hne. rewrite <-find_None_iff. destruct (List.find f es) as [en|] eqn:E; [|done].
  apply List.find_some in E as [Hin _]. split; [|done]. intros H. by destruct (Hne en (proj2 (list_elem_of_In _ _) Hin)).
Qed.

Lemma admitted_fields c rec prior sc a : admitted sha256 c rec prior sc = Ok a →
  Live a = true ∧ atp_TicketID a = rec_TicketID rec ∧ atp_Scope a = Some sc ∧ atp_TicketRevision a = rec_AcceptanceRevision rec ∧
  atp_Generation a = next_size (hd_Generation (st_Head (c_st c))) ∧
  match prior with Some p => atp_AttemptID a = atp_AttemptID p | None => freshID c = Ok (atp_AttemptID a) end.
Proof using Type.
  unfold admitted. intros (base & _ & (x & _ & H)%obind_Ok)%obind_Ok. cbv zeta in H. destruct prior as [p|].
  - injection H as <-. by split_and!.
  - apply obind_Ok in H as (id & Hid & [= <-]). unfold first_generation. cbv zeta. destruct (_ && _); [|by split_and!].
    destruct (atp_PoolAllocation _); by split_and!.
Qed.

Lemma freshID_spec c id : freshID c = Ok id → id ≠ ε ∧ in_Files (c_in c) !! attemptPath id = None.
Proof using Type.
  unfold freshID. cbv zeta. intros (q & Hq & H)%obind_Ok. destruct (negb _); [done|].
  destruct (in_Files (c_in c) !! _) as [f|] eqn:E; cbn [some] in H; [done|]. injection H as <-. split; [|done].
  intros He. rewrite He in Hq. revert Hq. vm_compute. discriminate.
Qed.

Lemma retryOf_prior c rec p : retryOf c rec = inr (Some p) →
  ∃ k, attempts_of c !! k = Some p ∧ TicketID_Raw (atp_TicketID p) = record_id rec ∧
    (atp_Phase p =s "COMPLETED") = false ∧ atp_TicketRevision p = rec_AcceptanceRevision rec ∧
    exhaustedAttempt p (Count_Int (pol_AdmissionsPerRevision (policy_of c))) = false.
Proof using Type.
  unfold retryOf, retryExhausted. pose proof (lastAttemptOf_spec (st_Attempts (c_st c)) (record_id rec)) as Hlast. cbv zeta in Hlast.
  destruct (lastAttemptOf _ _) as [last|]; [|done]. destruct Hlast as ((k & Hk) & Ht & _).
  destruct (_ || _) eqn:Eo; [done|]. apply orb_false_iff in Eo as [Ec Er%negb_false_iff]. rewrite Er. cbn [andb].
  destruct (exhaustedAttempt _ _) eqn:Ee; [done|]. intros [= <-]. exists k. split_and!; [done..| |done]. by apply String.eqb_eq.
Qed.

Section observed.
Context (c : leaseContext) (Hobs : observed c).

Lemma entry_ids en : en ∈ entries c → en_AttemptID en ≠ ε.
Proof using Hobs.
  intros Hen. destruct (con_bound _ _ _ (obs_consistent _ Hobs) en Hen) as (a & sc & Ha & _).
  by destruct (attempt_key c Hobs _ _ Ha).
Qed.

Lemma liveOn_none id : liveOn c id = ε → ∀ en, en ∈ entries c → en_ticket en ≠ id.
Proof using Hobs.
  unfold liveOn. rewrite find_entry_ids by apply entry_ids. intros H en Hen. apply String.eqb_neq. by apply H.
Qed.

Lemma collision_none rs self : collision c rs self = ε →
  ∀ en, en ∈ entries c → en_AttemptID en ≠ self → CollideShared rs (en_Resources en) (shared_of c) = false.
Proof using Hobs.
  unfold collision. rewrite find_entry_ids by apply entry_ids. intros H en Hen Hs. specialize (H en Hen).
  rewrite (proj2 (String.eqb_neq _ _) Hs) in H. by cbn [negb andb] in H.
Qed.

Lemma admits_keeps rec sc out a : admits c rec sc out a → keeps c out.
Proof using Hobs.
  intros [Hlive Hfree Hroom (prior & authors & Hretry & Ha) Hw]. right. exists a, (Some (entries c ++ [reservation_of c a sc])).
  split; [done|]. cbv zeta. cbn [from_option id].
  destruct (admitted_fields _ _ _ _ _ Ha) as (La & Ta & Sa & Ra & _ & Ia).
  pose proof (liveOn_none _ Hlive) as Hun.
  assert (atp_AttemptID a ≠ ε ∧ atp_AttemptID a ∉ en_AttemptID <$> entries c) as [Hne Hfresh].
  { destruct prior as [p|].
    - apply retryOf_prior in Hretry as (k & Hk & Htk & _). destruct (attempt_key c Hobs _ _ Hk) as [Hid Hkne].
      rewrite Ia, Hid. split; [done|]. intros (en & Hen & Hin)%list_elem_of_fmap.
      destruct (con_bound _ _ _ (obs_consistent _ Hobs) en Hin) as (x & s & Hx & _ & Htx & _).
      rewrite <-Hen in Hx. unfold attempts_of in *. rewrite Hk in Hx. injection Hx as <-.
      apply (Hun en Hin). unfold en_ticket. by rewrite <-Htx.
    - apply freshID_spec in Ia as [Hid Hnone]. split; [done|]. intros (en & Hen & Hin)%list_elem_of_fmap.
      destruct (con_bound _ _ _ (obs_consistent _ Hobs) en Hin) as (x & s & Hx & _).
      rewrite <-Hen in Hx. destruct (obs_stored _ Hobs _ _ Hx) as [f Hf]. cbn in Hnone. congruence. }
  split.
  - apply (Consistent_admit _ _ _ (obs_consistent _ Hobs) a sc); try done.
    + intros (en & Hen & Hin)%list_elem_of_fmap. apply (Hun en Hin). rewrite <-Hen. unfold en_ticket. cbn. by rewrite Ta.
    + intros x Hx. apply (collision_none _ _ Hfree x Hx). by apply entry_ids.
  - unfold at_capacity in Hroom. apply Z.leb_gt in Hroom. right. unfold len in *. rewrite length_app. cbn. lia.
Qed.

Lemma admit_claim_keeps rec sc out : admit_claim sha256 c rec sc = Ok out → keeps c out.
Proof using Hobs. intros [?|(a & Ha)]%admit_claim_spec; [by apply refuses_keeps|by eapply admits_keeps]. Qed.
End observed.

(** What an admitted claim passed, in the order of the checks. *)
Record claims (c : leaseContext) (rec : Record_) (sc : Scope) (out : leaseOutcome) (a : Attempt) : Prop := {
  clm_barrier : barrierRefusal c claimPausedRemedy = ε;
  clm_cutover : no_cutover c = false;
  clm_record : get_record (st_Tickets (c_st c)) (l_TicketID (c_l c)) = Ok (Some rec);
  clm_enforced : pol_RequireEnforcedFields (policy_of c) = [];
  clm_eligible : eligibility c rec = Ok None;
  clm_pool : rec_RequiresPool rec = ε ∨ l_Pool (c_l c) = rec_RequiresPool rec;
  clm_scope : ∃ restored, restoreScope c rec (requestedOutsideDeclared rec (default [] (l_Scope (c_l c)))) = ([], restored) ∧
                claimScope c rec (restored_paths restored) = Ok sc;
  clm_diff : requestedOutsideDeclared rec (lf_DiffPaths (facts c)) = [];
  clm_admits : admits c rec sc out a
}.

Lemma admits_ext c rec sc a out out' : lo_posts out' = lo_posts out → lo_effect out' = lo_effect out →
  admits c rec sc out a → admits c rec sc out' a.
Proof using Type. intros Hp He [H1 H2 H3 H4 H5]. split; [done..|]. by eapply writes_ext. Qed.

Lemma is_empty_nil {A} (l : list A) : is_empty l = true ↔ l = [].
Proof using Type. by destruct l. Qed.

Lemma planClaim_spec c out : planClaim sha256 c = Ok out → refuses out ∨ ∃ rec sc a, claims c rec sc out a.
Proof using Type.
  unfold planClaim. cbv zeta.
  destruct (String.eqb_spec (barrierRefusal c claimPausedRemedy) ε) as [Hb|_]; cbn [negb]; [|intros [= <-]; by left].
  destruct (no_cutover c) eqn:Hc; [intros [= <-]; by left|].
  intros ([rec|] & Hrec & H)%obind_Ok; [|injection H as <-; by left].
  destruct (is_empty (pol_RequireEnforcedFields (policy_of c))) eqn:He; cbn [negb] in H; [|injection H as <-; by left].
  apply is_empty_nil in He. apply obind_Ok in H as ([o|] & Hel & H).
  { injection H as <-. unfold eligibility in Hel. apply obind_Ok in Hel as (v & _ & [= Hel]).
    destruct (List.find _ _); [|done]. injection Hel as <-. by left. }
  destruct (negb (rec_RequiresPool rec =s ε) && negb (l_Pool (c_l c) =s rec_RequiresPool rec)) eqn:Hp; [injection H as <-; by left|].
  destruct (_ && _) in H; [injection H as <-; by left|].
  unfold claim_scoped in H.
  destruct (restoreScope c rec _) as [bad restored] eqn:Hres. destruct bad as [|b bad]; [|injection H as <-; by left].
  destruct (requestedOutsideDeclared rec (lf_DiffPaths (facts c))) as [|d bad] eqn:Hd; [|injection H as <-; by left].
  apply or_fail_Ok in H as [?|(sc & Hsc & H)]; [by left|].
  apply obind_Ok in H as (o & Ho & [= <-]). apply admit_claim_spec in Ho as [[Hpo Heo]|(a & Ha)].
  - left. rewrite Heo. by split.
  - right. exists rec, sc, a. split; try done.
    + apply andb_false_iff in Hp as [Hp%negb_false_iff%String.eqb_eq|Hp%negb_false_iff%String.eqb_eq]; auto.
    + eauto.
    + destruct (some (lo_effect o)); [|done]. by eapply admits_ext; [..|exact Ha].
Qed.

Section observed.
Context (c : leaseContext) (Hobs : observed c).

Lemma planClaim_keeps out : planClaim sha256 c = Ok out → keeps c out.
Proof using Hobs.
  intros [?|(rec & sc & a & [_ _ _ _ _ _ _ _ H])]%planClaim_spec; [by apply refuses_keeps|by eapply admits_keeps].
Qed.

(** *** Widening *)

Lemma rescope_keeps a sc out : rescope sha256 c a sc = Ok out → attempts_of c !! l_AttemptID (c_l c) = Some a → Live a = true →
  (∀ x, x ∈ entries c → en_AttemptID x ≠ atp_AttemptID a → CollideShared (sc_Resources sc) (en_Resources x) (shared_of c) = false) →
  keeps c out.
Proof using Hobs.
  intros H Ha Hlive Hdis. destruct (attempt_key c Hobs _ _ Ha) as [Hk _]. rewrite <-Hk in Ha. unfold rescope in H.
  eapply keeps_write; [exact H|..]; cbn [from_option id].
  - by apply (Consistent_rescope _ _ _ (obs_consistent _ Hobs) a).
  - left. unfold len. by rewrite length_fmap.
Qed.

(** The resources an entry reserves exclude what its attempt's scope does. *)
Lemma CollideShared_elements a a' b shared : (∀ r, r ∈ a ↔ r ∈ a') → CollideShared a b shared = CollideShared a' b shared.
Proof using Type.
  intros H. apply eq_true_iff_eq. rewrite !(proj1 (CollideShared_spec _ _ _)).
  split; intros (x & y & Hx & ? & ?); exists x, y; apply H in Hx; done.
Qed.

Lemma CollideShared_app a a' b shared : CollideShared (a ++ a') b shared = CollideShared a b shared || CollideShared a' b shared.
Proof using Type. unfold CollideShared. by rewrite existsb_app. Qed.

Lemma planWiden_keeps out : planWiden sha256 c = Ok out → keeps c out.
Proof using Hobs.
  intros H. eapply named_keeps; [exact H|]. cbv beta. intros a Ha Hf Hk. destruct (fenced_live _ _ Hf) as (Hlive & _).
  destruct (atp_Scope a) as [sc|] eqn:Es; [|done]. cbv zeta in Hk.
  destruct (attempt_key c Hobs _ _ Ha) as [Hkey _].
  destruct (obs_consistent _ Hobs) as [_ Hids Hl Hb _ Hd].
  destruct (sc_Source sc =s "WHOLE_REPOSITORY"); [injection Hk as <-; by left|].
  destruct (negb _) in Hk; [injection Hk as <-; by left|].
  destruct (l_WholeRepository (c_l c)).
  { unfold widenWhole in Hk. destruct (List.find _ _) as [en|] eqn:E; [injection Hk as <-; by left|].
    eapply rescope_keeps; [exact Hk|done..|]. intros x Hx Hne. exfalso. apply Hne.
    apply String.eqb_eq, negb_false_iff. by apply (proj1 (find_None_iff _ _) E). }
  destruct (is_empty _); [injection Hk as <-; by left|]. destruct (_ <? _); [injection Hk as <-; by left|].
  destruct (String.eqb_spec (collision c (pathResources (addedPaths c sc)) (atp_AttemptID a)) ε) as [Hcol|]; cbn [negb] in Hk;
    [|injection Hk as <-; by left].
  eapply rescope_keeps; [exact Hk|done..|]. intros x Hx Hne. cbn [sc_Resources].
  rewrite CollideShared_app. apply orb_false_iff. split; [|by apply collision_none with (self := atp_AttemptID a)].
  (* the entry of [a] reserves what its scope holds *)
  assert (atp_AttemptID a ∈ en_AttemptID <$> entries c) as (en & Hen & Hin)%list_elem_of_fmap.
  { apply Hl. exists a. by rewrite Hkey. }
  destruct (Hb en Hin) as (a' & sc' & Ha' & _ & _ & _ & Hsc' & Hr). rewrite <-Hen, Hkey in Ha'.
  unfold attempts_of in *. rewrite Ha in Ha'. injection Ha' as <-. rewrite Es in Hsc'. injection Hsc' as <-.
  rewrite (CollideShared_elements _ _ _ _ Hr). apply (proj1 (no_exclusion_alt _ _ Hids) Hd); [done..|congruence].
Qed.
End observed.

Lemma planClaimNext_spec c out : planClaimNext sha256 c = Ok out → refuses out ∨
  ∃ plan e, PriorityFirst (claimNextInput c) = Ok plan ∧ ClaimNext plan (l_Pool (c_l c)) = Some e ∧ expiredAll c = Ok [] ∧
    st_Barrier (c_st c) = None ∧ no_cutover c = false ∧
    planClaim sha256 (c <| c_l := (c_l c) <| l_Verb := LeaseClaim |> <| l_TicketID := entry_id e |> |>) = Ok out.
Proof using Type.
  unfold planClaimNext. cbv zeta. destruct (st_Barrier (c_st c)) eqn:Hb; cbn [some]; [intros [= <-]; by left|].
  destruct (no_cutover c) eqn:Hc; [intros [= <-]; by left|]. intros (reap & Hr & H)%obind_Ok.
  destruct reap; cbn [is_empty negb] in H; [|injection H as <-; by left].
  apply obind_Ok in H as (plan & Hp & H). destruct (ClaimNext plan _) as [e|] eqn:E.
  - right. exists plan, e. by split_and!.
  - left. destruct (Plan_refusal plan). by injection H as <-.
Qed.

Lemma planClaimNext_keeps c out : observed c → planClaimNext sha256 c = Ok out → keeps c out.
Proof using Type.
  intros Hobs [?|(plan & e & _ & _ & _ & _ & _ & H)]%planClaimNext_spec; [by apply refuses_keeps|].
  assert (observed (c <| c_l := (c_l c) <| l_Verb := LeaseClaim |> <| l_TicketID := entry_id e |> |>)) as Ho
    by (destruct Hobs as [H1 H2]; split; [exact H1|exact H2]).
  destruct (planClaim_keeps _ Ho _ H) as [?|(next & es & [H1 H2 H3 H4] & Hk)]; [by left|right].
  exists next, es. split; [|exact Hk]. split; [exact H1|exact H2|exact H3|exact H4].
Qed.
End planners.

(** ** The state a transaction loads *)

Lemma SortedSet_values w vs x : SortedSet w vs = Ok x → ∃ ws, x = VArray ws ∧ ws ≡ₚ vs.
Proof.
  unfold SortedSet. cbv zeta. destruct (first_dup _ _); [done|]. intros [= <-]. eexists. split; [done|].
  rewrite isort_perm, <-list_fmap_compose. by rewrite list_fmap_id.
Qed.

Lemma canon_resource r : canon (resource_value r) = resource_value r.
Proof. reflexivity. Qed.

Lemma resource_value_inj r s : resource_value r = resource_value s → r = s.
Proof. destruct r, s. unfold resource_value. cbn. by intros [= -> ->]. Qed.

(** Two lists of resources that encode alike hold the same resources. *)
Lemma sameResources_spec a b : sameResources a b = true → a ≡ₚ b.
Proof.
  unfold sameResources, ResourcesValue. destruct (SortedSet ε (resource_value <$> a)) as [x| |] eqn:Ea; [|done..].
  destruct (SortedSet ε (resource_value <$> b)) as [y| |] eqn:Eb; [|done..]. intros H%String.eqb_eq.
  apply SortedSet_values in Ea as (xs & -> & Hx), Eb as (ys & -> & Hy).
  assert (∀ l (ws : list Value), ws ≡ₚ resource_value <$> l → distinct (VArray ws) ∧ canon <$> ws = ws) as Hws.
  { intros l ws Hw. assert (Forall (λ v, ∃ r, v = resource_value r) ws) as Hall.
    { rewrite Hw. apply Forall_fmap, Forall_forall. intros r _. by exists r. }
    split.
    - constructor. eapply Forall_impl; [exact Hall|]. intros v [r ->]. apply distinct_resource.
    - clear Hw. induction Hall as [|v ws [r ->] _ IH]; [done|]. by rewrite fmap_cons, IH, canon_resource. }
  destruct (Hws _ _ Hx) as [Dx Cx], (Hws _ _ Hy) as [Dy Cy].
  apply EncodeFile_inj in H; [|done..]. cbn [canon] in H. fold (canon) in H. rewrite Cx, Cy in H. injection H as ->.
  rewrite Hx in Hy. apply Permutation_map_inv in Hy as (l & Hl & Hb).
  assert (Inj (=) (=) resource_value) by (intros ? ?; apply resource_value_inj).
  apply (inj (fmap resource_value)) in Hl. by rewrite Hl, Hb.
Qed.

Section load.
Context (sha256 : string → string).

#[export] Instance AttemptQueue_ends id : Ends (AttemptQueue id).
Proof using Type. unfold AttemptQueue, ParseQueueID, ParseDigest. ends. Qed.

Lemma check_entries_ids queue es : ∀ seen, check_entries queue seen es = None →
  NoDup (en_AttemptID <$> es) ∧ ∀ en : ReservationEntry, en ∈ es → en_AttemptID en ∉ seen.
Proof using Type.
  induction es as [|e es IH]; intros seen H; cbn [check_entries] in H.
  { split; [constructor|]. intros en ?%not_elem_of_nil. done. }
  destruct (AttemptQueue _) as [q|err|] eqn:Eq; [|done|by apply ends in Eq].
  destruct (_ || _); [done|]. destruct (existsb _ _) eqn:Es; [done|]. apply IH in H as [Hnd Hs]. split.
  - rewrite fmap_cons, NoDup_cons. split; [|done]. intros (x & Hx & Hin)%list_elem_of_fmap.
    apply (Hs x Hin). rewrite Hx. by left.
  - intros en [->|Hin]%elem_of_cons; [|intros Hen; apply (Hs en Hin); by right].
    intros Hen. assert (existsb (String.eqb (en_AttemptID e)) seen = true); [|congruence].
    apply existsb_exists. exists (en_AttemptID e). split; [by apply list_elem_of_In|apply String.eqb_refl].
Qed.

Lemma loadReservations_spec queue raw c set : loadReservations sha256 queue raw c = Ok set → NoDup (en_AttemptID <$> rs_Entries set).
Proof using Type.
  unfold loadReservations. intros (s & Hs & H)%obind_Ok. apply obind_Ok in H as (x & _ & H).
  repeat match type of H with (if ?b then _ else _) = _ => destruct b; [done|] end. injection H as <-.
  unfold DecodeReservations in Hs. destruct (_ <? _); [done|]. apply obind_Ok in Hs as (v & _ & Hs).
  destruct (ProfileVersion _ _ _); [done|]. apply obind_Ok in Hs as (u & _ & Hs).
  match type of Hs with (let '(_, _) := ?x in _) = _ => destruct x as [profile st] end. destruct (CheckProfile _ _ _); [done|].
  apply obind_Ok in Hs as (s' & _ & Hs). destruct (Reservations_check s') eqn:Ec; [done|]. injection Hs as ->.
  by apply check_entries_ids in Ec as [? _].
Qed.
(** What [decodeAttempt] returns is identified, and its file is observed. *)
Lemma decodeAttempt_spec c raw a : decodeAttempt sha256 c raw = Ok a →
  atp_AttemptID a ≠ ε ∧ is_Some (in_Files (c_in c) !! attemptPath (atp_AttemptID a)).
Proof using Type.
  unfold decodeAttempt. intros (x & Hx & H)%obind_Ok. apply obind_Ok in H as (again & _ & H).
  destruct (negb (again =s raw) || _) eqn:Em; [done|]. destruct (_ && _); [done|]. injection H as ->.
  apply orb_false_iff in Em as [_ Hm%negb_false_iff]. split.
  - unfold DecodeAttempt in Hx. destruct (_ <? _); [done|]. apply obind_Ok in Hx as (v & _ & Hx).
    destruct (ProfileVersion _ _ _); [done|]. apply obind_Ok in Hx as (u & _ & Hx).
    match type of Hx with (let '(_, _) := ?x in _) = _ => destruct x as [profile st] end. destruct (CheckProfile _ _ _); [done|].
    apply obind_Ok in Hx as (bp & _ & Hx). apply obind_Ok in Hx as (note & _ & Hx). apply obind_Ok in Hx as ([[[cp ip] wp] ?] & _ & Hx).
    destruct (Attempt_check _) eqn:Ec; [done|]. injection Hx as <-. unfold Attempt_check in Ec.
    destruct (first_error_of _) in Ec; [done|]. intros He. rewrite He in Ec. revert Ec. vm_compute. discriminate.
  - unfold matches in Hm. destruct (in_Files _ !! _); [by eexists|done].
Qed.

Definition keyed (c : leaseContext) (m : gmap string Attempt) : Prop :=
  ∀ id a, m !! id = Some a → atp_AttemptID a = id ∧ id ≠ ε ∧ is_Some (in_Files (c_in c) !! attemptPath id).

Lemma decode_attempts_spec c raws : ∀ out m, decode_attempts sha256 c raws out = Ok m → keyed c out → keyed c m.
Proof using Type.
  induction raws as [|raw raws IH]; intros out m; cbn [decode_attempts]; [by intros [= <-]|].
  intros (a & Ha & H)%obind_Ok Hk. destruct (some _) in H; [done|]. eapply IH; [exact H|].
  apply decodeAttempt_spec in Ha as [Hne Hf]. intros id x [[<- <-]|[_ Hx]]%lookup_insert_Some; [done|by apply Hk].
Qed.

(** The entries are bound to live attempts. *)
Lemma entries_bound_spec attempts es : entries_bound attempts es = None →
  ∀ en, en ∈ es → reserves attempts en ∧ ∃ a, attempts !! en_AttemptID en = Some a ∧ Live a = true.
Proof using Type.
  induction es as [|e es IH]; intros H en Hen; [by apply not_elem_of_nil in Hen|]. cbn [entries_bound] in H.
  destruct (entry_bound attempts e) eqn:Eb; cbn [negb] in H; [|done]. destruct (workers_bound _ _); [done|].
  apply elem_of_cons in Hen as [->|Hen]; [|by apply IH].
  unfold entry_bound in Eb. destruct (attempts !! en_AttemptID e) as [a|] eqn:Ea; [|done].
  destruct (atp_Scope a) as [sc|] eqn:Es; [|by rewrite andb_false_r in Eb].
  apply andb_prop in Eb as [Eb Hr]. apply andb_prop in Eb as [Eb Hrev%String.eqb_eq]. apply andb_prop in Eb as [Eb Ht%bool_decide_eq_true_1].
  apply andb_prop in Eb as [Hlive Hg%String.eqb_eq]. split; [|by exists a]. exists a, sc. split_and!; [done..|].
  intros r. by rewrite (sameResources_spec _ _ Hr).
Qed.

End load.

Lemma live_entries attempts (ids : list string) :
  length (List.filter (λ kv : string * Attempt, Live kv.2) (map_to_list attempts)) = length ids → NoDup ids →
  (∀ id, id ∈ ids → ∃ a, attempts !! id = Some a ∧ Live a = true) →
  ∀ id, (∃ a, attempts !! id = Some a ∧ Live a = true) ↔ id ∈ ids.
Proof.
  set (live := (List.filter (λ kv : string * Attempt, Live kv.2) (map_to_list attempts)).*1). intros Hlen Hnd Hin id.
  assert (∀ id, id ∈ live ↔ ∃ a, attempts !! id = Some a ∧ Live a = true) as Hlive.
  { intros k. unfold live. rewrite list_elem_of_fmap. split.
    - intros ([k' a] & -> & [Hm%list_elem_of_In%elem_of_map_to_list Hl]%list_elem_of_In%filter_In). by exists a.
    - intros (a & Ha & Hl). exists (k, a). split; [done|]. apply list_elem_of_In, filter_In. split; [|done].
      by apply list_elem_of_In, elem_of_map_to_list. }
  rewrite <-Hlive. assert (ids ≡ₚ live) as ->; [|done].
  apply submseteq_length_Permutation.
  - apply NoDup_submseteq; [done|]. intros k Hk. by apply Hlive, Hin.
  - unfold live. rewrite length_fmap. lia.
Qed.

Lemma ParseSize_no_fuel w m : ParseSize w m ≠ OutOfFuel.
Proof. unfold ParseSize. by repeat case_match. Qed.

Lemma checkMinutes_range m : m ≠ ε → checkMinutes m = None → 5 ≤ Size_Uint64 m ≤ 1440.
Proof.
  intros Hm%String.eqb_neq. unfold checkMinutes, given, parse_then. rewrite Hm.
  assert (∀ n, ParseSize "leaseMinutes" m = Ok n → n = m) as Hn.
  { intros n. unfold ParseSize. repeat case_match; congruence. }
  destruct (ParseSize _ _) as [n| |] eqn:E; [|done|by destruct (ParseSize_no_fuel "leaseMinutes" m)]. rewrite <-(Hn _ eq_refl).
  unfold reject, MinLeaseMinutes, MaxLeaseMinutes. destruct (_ || _) eqn:Er; [done|]. bool_hyps. lia.
Qed.

(** Timestamps compare as text as their times do. *)
Lemma timestamps_ltb w s t : ParseTimestamp w s = Ok s → ParseTimestamp w t = Ok t → (s <s t) = (parse_time s <? parse_time t).
Proof.
  intros Hs Ht. destruct (ParseTimestamp_stamp _ _ _ Hs) as (_ & y & mo & d & h & mi & x & Hf & -> & Hp).
  destruct (ParseTimestamp_stamp _ _ _ Ht) as (_ & y' & mo' & d' & h' & mi' & x' & Hf' & -> & Hp').
  unfold parse_time. rewrite Hp, Hp'. cbn [from_option]. unfold id. apply eq_true_iff_eq. by rewrite stamp_ltb, Z.ltb_lt.
Qed.

(** What a reap names: a live attempt of its generation, whose expired lease
    is the one observed. *)
Record reapable (c : leaseContext) (a : Attempt) (l : Lease) : Prop := {
  rpb_live : Live a = true;
  rpb_generation : Size_Uint64 (atp_Generation a) = Size_Uint64 (l_Generation (c_l c));
  rpb_expired : expired a (now c) = true;
  rpb_lease : atp_Lease a = Some l;
  rpb_observed : l_LeaseExpiresAt (c_l c) = ε ∨ ls_ExpiresAt l = l_LeaseExpiresAt (c_l c)
}.

(** An attempt admitted again: charged, unless it is a clean handoff. *)
Record retries (c : leaseContext) (p a : Attempt) : Prop := {
  rtr_id : atp_AttemptID a = atp_AttemptID p;
  rtr_phase : atp_Phase p ≠ "COMPLETED";
  rtr_revision : atp_TicketRevision p = atp_TicketRevision a;
  rtr_count :
    if cleanHandoff p then atp_RetryCount a = atp_RetryCount p
    else Count_Int (atp_RetryCount p) < Count_Int (pol_AdmissionsPerRevision (policy_of c)) ∧
         atp_RetryCount a = next_count (atp_RetryCount p);
  rtr_generations : ∃ g, atp_PriorGenerations a = atp_PriorGenerations p ++ [g] ∧ pg_Generation g = atp_Generation p
}.

Lemma expired_lease a t : expired a t = true → ∃ l, atp_Lease a = Some l ∧ atp_Supervision a = None.
Proof.
  unfold expired. destruct (atp_Supervision a); [done|]. destruct (atp_Lease a) as [l|]; [|done]. by exists l.
Qed.

Lemma retryOf_last c rec p : retryOf c rec = inr (Some p) → lastAttemptOf (attempts_of c) (record_id rec) = Some p.
Proof.
  unfold retryOf, attempts_of. destruct (lastAttemptOf _ _); [|done]. destruct (_ || _); [done|]. destruct (retryExhausted _ _ _); [done|].
  by intros [= <-].
Qed.

Lemma admitted_retry sha256 c rec p sc a : admitted sha256 c rec (Some p) sc = Ok a →
  atp_AttemptID a = atp_AttemptID p ∧
  atp_RetryCount a = (if cleanHandoff p then atp_RetryCount p else next_count (atp_RetryCount p)) ∧
  ∃ g, atp_PriorGenerations a = atp_PriorGenerations p ++ [g] ∧ pg_Generation g = atp_Generation p.
Proof.
  unfold admitted. intros (base & _ & (x & _ & H)%obind_Ok)%obind_Ok. cbv zeta in H. injection H as <-.
  split_and!; [done..|]. by eexists.
Qed.

(** Nothing to reap: every entry's attempt is there, and none is expired. *)
Lemma expired_entries_nil c es : expired_entries c (λ _, true) es = Ok [] →
  ∀ en, en ∈ es → ∃ a, attempt_of c (en_AttemptID en) = Some a ∧ expired a (now c) = false.
Proof.
  induction es as [|e es IH]; intros H en Hen; [by apply not_elem_of_nil in Hen|]. cbn [expired_entries] in H.
  apply obind_Ok in H as (x & Hx & (out & Ho & [= H])%obind_Ok). rewrite andb_true_r in H. destruct x; [done|]. subst out.
  apply elem_of_cons in Hen as [->|Hen]; [|by apply IH].
  destruct (attempt_of c (en_AttemptID e)) as [a|]; [|done]. injection Hx as Hx. by exists a.
Qed.

Lemma find_first {A} (f : A → bool) l x : List.find f l = Some x →
  ∃ k, l !! k = Some x ∧ f x = true ∧ ∀ j y, (j < k)%nat → l !! j = Some y → f y = false.
Proof.
  induction l as [|y l IH]; [done|]. cbn [List.find]. destruct (f y) eqn:E.
  - intros [= <-]. exists 0%nat. split_and!; [done..|lia].
  - intros (k & Hk & Hf & Hb)%IH. exists (S k). split_and!; [done..|]. intros [|j] z Hj Hz; [by injection Hz as <-|].
    by apply (Hb j); [lia|].
Qed.

(** ** A small state *)

Definition lease_id : string := "attempt:x:q:0123456789abcdef0123456789abcdef".

Definition lease_actor : Writer.Binding := Build_Binding "u1" "OWNER".

Definition claim_request (ticket : string) : LeaseRequest :=
  (emptyRequest LeaseClaim) <| l_TicketID := ticket |> <| l_Holder := "h1" |> <| l_LeaseMinutes := "60" |>.

Definition lease_facts : LeaseFacts :=
  mkFacts ε ε lease_id "0123456789abcdef0123456789abcdef01234567" ε None ε [].

Definition lease_input (files : gmap string FileEntry) (at_ : string) : LeaseInput :=
  mkInput files ε ε ε at_ lease_facts None.

Definition lease_state (attempts : gmap string Attempt) (es : list ReservationEntry) : inputState :=
  mkState planning_pools {| hd_Generation := "6"; hd_LastSeq := "40" |} None planning_queue planning_policy planning_tickets
    (mkReservations sample_queue es) attempts.

(** A claim of [a] in an empty state. *)
Definition claiming : leaseContext :=
  lease_context "queue:x:q" "r1" lease_actor (claim_request "ticket:x:q:a") (lease_input ∅ "2026-01-02T03:04:05Z") (lease_state ∅ []).

Definition claimed : leaseOutcome := Eval vm_compute in
  match planClaim sample_sha256 claiming with Ok o => o | _ => refuse claiming ε ε ε end.

(** The state a transaction loads of what that claim posts, at a later time. *)
Definition holding_input (at_ : string) : LeaseInput :=
  lease_input ((λ raw, {| fe_Sha256 := Sum sample_sha256 raw; fe_Bytes := SizeOf (slen raw) |}) <$> lo_posts claimed) at_.

Definition posted (path : string) : string := default ε (lo_posts claimed !! path).

Definition holding_raws : list string := [posted (attemptPath lease_id)].

Definition holding_with (l : LeaseRequest) (at_ : string) (attempts : gmap string Attempt) (es : list ReservationEntry) : leaseContext :=
  lease_context "queue:x:q" "r2" lease_actor l (holding_input at_) (lease_state attempts es).

Definition held_set : ReservationSet := Eval vm_compute in
  match loadReservations sample_sha256 "queue:x:q" (posted "reservations.json") (holding_with (emptyRequest LeaseRenew) ε ∅ []) with
  | Ok s => s
  | _ => no_reservations
  end.

Definition held_attempts : gmap string Attempt := Eval vm_compute in
  match loadAttempts sample_sha256 (holding_with (emptyRequest LeaseRenew) ε ∅ []) holding_raws held_set with Ok m => m | _ => ∅ end.

(** A command of the attempt claimed, at a generation and a time. *)
Definition holding (verb generation at_ : string) : leaseContext :=
  holding_with ((emptyRequest verb) <| l_AttemptID := lease_id |> <| l_Generation := generation |> <| l_LeaseMinutes := "30" |>) at_
    held_attempts (rs_Entries held_set).

Definition sample_compatible (_ _ _ _ : string) : bool := false.
Definition sample_programs (_ : string) : option ProgramState := None.

(** The command's outcome. *)
Definition outcome_of (x : planned leaseOutcome) : leaseOutcome := match x with Ok o => o | _ => refusal_of (noChange ε) end.

Lemma held_loads at_ l attempts es :
  loadReservations sample_sha256 "queue:x:q" (posted "reservations.json") (holding_with l at_ attempts es) = Ok held_set ∧
  loadAttempts sample_sha256 (holding_with l at_ attempts es) holding_raws held_set = Ok held_attempts.
Proof. split; vm_compute; reflexivity. Qed.

Lemma held_distinct : NoDup (en_ticket <$> rs_Entries held_set) ∧ ∀ shared, no_exclusion shared (rs_Entries held_set).
Proof.
  assert (∃ en, rs_Entries held_set = [en]) as [en ->].
  { destruct (rs_Entries held_set) as [|en [|]] eqn:E; [exfalso|by eexists|exfalso]; revert E; vm_compute; discriminate. }
  split; [apply NoDup_singleton|]. intros shared [|i] [|j] x y Hx Hy Hne; done.
Qed.

Lemma claiming_observed : observed claiming.
Proof.
  split; [split|]; try (intros ? ? H; vm_compute in H; discriminate H).
  - constructor.
  - intros id. split; [intros (a & H & _); vm_compute in H; discriminate H|intros H; by apply not_elem_of_nil in H].
  - intros en H. by apply not_elem_of_nil in H.
  - constructor.
  - intros i j x y H. vm_compute in H. destruct i; discriminate H.
Qed.

(** ** A whole command *)

Section command.
Context (sha256 : string → string).

(** The reservations and attempts a transaction loads are in agreement: a live
    attempt for each entry and an entry for each, of one generation, ticket and
    scope; so a state that reserves once for a ticket and excludes nothing is
    one every command keeps. *)
Lemma load_observed queue reservations raws c set attempts :
  loadReservations sha256 queue reservations c = Ok set → loadAttempts sha256 c raws set = Ok attempts →
  st_Reservations (c_st c) = set → st_Attempts (c_st c) = attempts →
  NoDup (en_ticket <$> rs_Entries set) → no_exclusion (shared_of c) (rs_Entries set) → observed c.
Proof using Type.
  intros Hset Hload <- <- Ht Hx. apply loadReservations_spec in Hset.
  unfold loadAttempts in Hload. apply obind_Ok in Hload as (m & Hm & Hload).
  destruct (negb _); [done|]. destruct (negb _) eqn:Hlen in Hload; [done|].
  destruct (entries_bound m _) eqn:Eb; [done|]. injection Hload as Hload. rewrite Hload in *.
  pose proof (entries_bound_spec _ _ Eb) as Hb. apply negb_false_iff, Nat.eqb_eq in Hlen.
  assert (keyed c (attempts_of c)) as Hk by (eapply decode_attempts_spec; [exact Hm|intros ? ? Hl; by rewrite lookup_empty in Hl]).
  split; [split|].
  - intros id a Ha. by apply Hk in Ha as (? & ? & _).
  - done.
  - apply live_entries; [by rewrite (length_fmap en_AttemptID (entries c))|done|]. intros id (en & -> & Hen)%list_elem_of_fmap. by apply Hb.
  - intros en Hen. by apply Hb.
  - done.
  - done.
  - intros id a Ha. by apply Hk in Ha as (_ & _ & ?).
Qed.

(** Every planner and stamp keeps what it observed. *)
Lemma planLease_preserves compatible programs verb planner c out : observed c →
  (verb, planner) ∈ leasePlanners sha256 compatible programs → planLease c planner = Ok out → keeps c out.
Proof using Type.
  intros Hobs Hin H. unfold planLease in H. cbv zeta in H. destruct (CheckPoolExclusions _ _ _); [injection H as <-; by left|].
  destruct (_ && _); [injection H as <-; by left|].
  apply obind_Ok in H as (out0 & Hp & (out1 & H1 & H2)%obind_Ok).
  assert (keeps c out0) as Hk.
  { unfold leasePlanners in Hin. repeat (apply elem_of_cons in Hin as [[= -> ->]|Hin]); [..|by apply not_elem_of_nil in Hin];
      eauto using planClaim_keeps, planClaimNext_keeps, planHeartbeat_keeps, planRenew_keeps, planRelease_keeps, planReap_keeps, planWiden_keeps. }
  destruct (stamps_same _ _ _ _ H1 H2) as [[? _]|Hs]; [by left|].
  destruct Hk as [He|(next & es & Hw & Hk)]; [left; by apply Hs|right]. exists next, es. split; [by eapply writes_same|done].
Qed.
End command.

(** ** The properties *)

Section properties.
Context (sha256 : string → string).

(** C3: from a consistent state, whatever one of the lease commands posts keeps
    it consistent: its reservations are exactly those of the live attempts, one
    to a ticket, none excluding another; and they are no more than before, or
    one more and then no more than the policy allows. *)
Theorem planLease_keeps compatible programs verb planner c out : observed c →
  (verb, planner) ∈ leasePlanners sha256 compatible programs → planLease c planner = Ok out → keeps c out.
Proof using Type. exact (planLease_preserves sha256 compatible programs verb planner c out). Qed.

(** C33: a command that names a stale generation, or an attempt that ended or
    whose lease expired, posts nothing; it records the conflict. *)
Theorem fenced_posts_nothing compatible programs planner c a :
  planner ∈ [planHeartbeat sha256; planRenew sha256; planRelease sha256 compatible programs; planWiden sha256] →
  attempt_of c (l_AttemptID (c_l c)) = Some a →
  Size_Uint64 (atp_Generation a) ≠ Size_Uint64 (l_Generation (c_l c)) ∨ Live a = false ∨ expired a (now c) = true →
  ∃ why, why ≠ ε ∧ planner c = Ok (mkLeaseOutcome ∅
    (Some (mkEffect "TRANSITION" (atp_AttemptID a) (l_Generation (c_l c)) false OutcomeRevisionConflict [CodeFenced]))
    why None None None).
Proof using Type.
  intros Hin Ha Hst. exists (fenced c a).
  assert (fenced c a ≠ ε) as Hf.
  { intros Hf%fenced_live. destruct Hf as (? & ? & ?). destruct Hst as [?|[?|?]]; congruence. }
  split; [done|]. assert (named c = Ok a) as Hn by (unfold named; by rewrite Ha).
  apply String.eqb_neq in Hf.
  repeat (apply elem_of_cons in Hin as [->|Hin]); [..|by apply not_elem_of_nil in Hin];
    unfold planHeartbeat, planRenew, planRelease, planWiden; cbv zeta; rewrite Hn; cbn [or_fail]; rewrite Hf; reflexivity.
Qed.

(** C35: a renewal of an unexpired lease changes it and the heartbeat alone: the
    lease posted ends so many minutes after the command, and is expired from
    then on and not before. *)
Theorem planRenew_extends c out : planRenew sha256 c = Ok out → lo_posts out ≠ ∅ →
  ParseTimestamp "recordedAt" (now c) = Ok (now c) → l_LeaseMinutes (c_l c) ≠ ε → checkMinutes (l_LeaseMinutes (c_l c)) = None →
  representable (parse_time (now c) + 60 * Size_Uint64 (l_LeaseMinutes (c_l c))) →
  ∃ a l expires raw, attempt_of c (l_AttemptID (c_l c)) = Some a ∧ atp_Lease a = Some l ∧ Live a = true ∧ expired a (now c) = false ∧
    let next := a <| atp_Lease := Some (mkLease (ls_Holder l) (c_seq c) expires) |> <| atp_LastHeartbeatAt := Some (now c) |> in
    Attempt_Encode next = Ok raw ∧ lo_posts out !! attemptPath (atp_AttemptID a) = Some raw ∧
    lo_posts out !! "reservations.json" = None ∧
    ∀ t, ParseTimestamp "recordedAt" t = Ok t → atp_Supervision a = None →
      expired next t = (parse_time (now c) + 60 * Size_Uint64 (l_LeaseMinutes (c_l c)) <=? parse_time t).
Proof using Type.
  intros H Hp Hnow Hm Hc Hrep. unfold planRenew in H.
  apply or_fail_Ok in H as [[? _]|(a & Ha & H)]; [done|]. destruct (String.eqb_spec (fenced c a) ε) as [Hf|_]; cbn [negb] in H.
  2: { by injection H as <-. }
  destruct (fenced_live _ _ Hf) as (Hlive & Hexp & _). destruct (atp_Lease a) as [l|] eqn:El; [|done].
  unfold named in Ha. destruct (attempt_of c _) as [a'|] eqn:Ea; [|done]. injection Ha as ->.
  apply write_spec in H as [[? _]|[(raw & Hraw & Hpost) _ Hres _]]; [done|].
  apply checkMinutes_range in Hc; [|done].
  destruct (addMinutes_spec "recordedAt" (now c) (l_LeaseMinutes (c_l c)) Hnow ltac:(lia) Hrep) as (He & Ht & _).
  exists a, l, (addMinutes (now c) (l_LeaseMinutes (c_l c))), raw. cbv zeta. split_and!; [done..|].
  intros t Hpt Hsup. unfold expired. cbn.
  rewrite Hsup. cbn [some negb andb].
  rewrite (timestamps_ltb _ _ _ Hpt He), Ht. by rewrite Z.leb_antisym.
Qed.

(** C34: reaping ends exactly the live attempt named, of the generation and,
    when it is given, the lease observed, once that lease has expired: it fails
    with LEASE_EXPIRED and its reservation is removed, and nothing else posts. *)
Theorem planReap_reaps c : l_AttemptID (c_l c) ≠ ε →
  (∀ out, planReap sha256 c = Ok out → lo_posts out ≠ ∅ →
     ∃ a l, attempt_of c (l_AttemptID (c_l c)) = Some a ∧ reapable c a l ∧
       writes c (ended c a "FAILED" (Some CauseLeaseExpired)) (Some (without c (atp_AttemptID a))) out ∧
       ∀ en, en ∈ without c (atp_AttemptID a) ↔ en ∈ entries c ∧ en_AttemptID en ≠ atp_AttemptID a) ∧
  (∀ a l, attempt_of c (l_AttemptID (c_l c)) = Some a → reapable c a l →
     planReap sha256 c =
       write sha256 c (ended c a "FAILED" (Some CauseLeaseExpired)) (Some (without c (atp_AttemptID a))) "TRANSITION" false).
Proof using Type.
  intros Hid%String.eqb_neq. unfold planReap. cbv zeta. rewrite Hid. split.
  - intros out [[? _]|(a & Ha & H)]%or_fail_Ok Hp; [done|].
    unfold named in Ha. destruct (attempt_of c _) as [a'|] eqn:Ea; [|done]. injection Ha as ->.
    destruct (Live a) eqn:Hlive; cbn [negb] in H; [|by injection H as <-].
    destruct (Z.eqb_spec (Size_Uint64 (atp_Generation a)) (Size_Uint64 (l_Generation (c_l c)))) as [Hg|]; cbn [negb] in H; [|by injection H as <-].
    destruct (_ && _) eqn:Hx in H; [by injection H as <-|].
    destruct (expired a (now c)) eqn:He; cbn [negb] in H; [|destruct (atp_Lease a); [by injection H as <-|done]].
    apply write_spec in H as [[? _]|Hw]; [done|].
    destruct (expired_lease _ _ He) as (l & Hl & _). exists a, l. split_and!; [done| |done|].
    + rewrite Hl in Hx. split; [done..|]. apply andb_false_iff in Hx as [Hx%negb_false_iff%String.eqb_eq|Hx%negb_false_iff%String.eqb_eq]; auto.
    + intros en. unfold without. rewrite list_elem_of_In, filter_In, <-list_elem_of_In. by rewrite negb_true_iff, String.eqb_neq.
  - intros a l Ha [Hlive Hg He Hl Hx]. unfold named. rewrite Ha. cbn [or_fail]. rewrite Hlive, He, Hl, (proj2 (Z.eqb_eq _ _) Hg). cbn [negb].
    destruct Hx as [->| ->]; [by rewrite String.eqb_refl|]. by rewrite String.eqb_refl, andb_false_r.
Qed.

(** C6: a claim that posts anything admits one running attempt of the ticket
    named, at its acceptance revision and the next generation, holding the
    claimed scope: no reservation is of the ticket or excludes the scope, and
    one more is within the policy. The attempt is a fresh one, or the ticket's
    last of that revision again, whose retry is charged within the budget
    unless its generation ended in a clean handoff. *)
Theorem planClaim_admits c out : observed c → planClaim sha256 c = Ok out → lo_posts out ≠ ∅ →
  ∃ rec sc a, get_record (st_Tickets (c_st c)) (l_TicketID (c_l c)) = Ok (Some rec) ∧
    barrierRefusal c claimPausedRemedy = ε ∧ eligibility c rec = Ok None ∧ (∃ paths, claimScope c rec paths = Ok sc) ∧
    writes c a (Some (entries c ++ [reservation_of c a sc])) out ∧
    Live a = true ∧ atp_TicketID a = rec_TicketID rec ∧ atp_TicketRevision a = rec_AcceptanceRevision rec ∧
    atp_Generation a = next_size (hd_Generation (st_Head (c_st c))) ∧ atp_Scope a = Some sc ∧
    (∀ en, en ∈ entries c → en_ticket en ≠ record_id rec ∧ CollideShared (sc_Resources sc) (en_Resources en) (shared_of c) = false) ∧
    len (entries c) < Count_Int (pol_MaxActiveAttempts (policy_of c)) ∧
    (in_Files (c_in c) !! attemptPath (atp_AttemptID a) = None ∨
     ∃ p, lastAttemptOf (attempts_of c) (record_id rec) = Some p ∧ retries c p a).
Proof using Type.
  intros Hobs [[? _]|(rec & sc & a & [Hb _ Hrec _ Hel _ (restored & _ & Hsc) _ Ha])]%planClaim_spec Hp; [done|].
  destruct Ha as [Hlive Hfree Hroom (prior & authors & Hretry & Ha) Hw]. exists rec, sc, a.
  pose proof (admitted_fields _ _ _ _ _ _ Ha) as (La & Ta & Sa & Ra & Ga & Ia).
  split_and!; [done..|eauto|done|done|done|done|done|done| | |].
  - intros en Hen. split; [by apply (liveOn_none c Hobs)|]. apply (collision_none c Hobs _ _ Hfree en Hen).
    by apply (entry_ids c Hobs).
  - unfold at_capacity in Hroom. apply Z.leb_gt in Hroom. lia.
  - destruct prior as [p|]; [right|left; by apply freshID_spec in Ia as [_ ?]].
    destruct (retryOf_prior _ _ _ Hretry) as (_ & _ & _ & Hc & Hr & Hx). exists p.
    split; [by eapply retryOf_last|]. apply admitted_retry in Ha as (Hid & Hcount & Hgen).
    split; [done|by apply String.eqb_neq|congruence| |done].
    unfold exhaustedAttempt in Hx. rewrite Hc in Hx. cbn [negb andb] in Hx. rewrite Hcount.
    destruct (cleanHandoff p); [done|]. split; [|done]. cbn [negb] in Hx. rewrite andb_true_r in Hx. apply Z.leb_gt in Hx. lia.
Qed.

(** C36: CLAIM_NEXT posts what a claim posts of the ticket the plan names: the
    first the plan selects that the claim can take; under no barrier, and with
    no expired lease left to reap. *)
Theorem planClaimNext_selects c out : planClaimNext sha256 c = Ok out → lo_posts out ≠ ∅ →
  st_Barrier (c_st c) = None ∧ (∀ en, en ∈ entries c → ∃ a, attempt_of c (en_AttemptID en) = Some a ∧ expired a (now c) = false) ∧
  ∃ plan k e, PriorityFirst (claimNextInput c) = Ok plan ∧ tp_Entries plan !! k = Some e ∧ is_selected e = true ∧
    (l_Pool (c_l c) = ε → rec_RequiresPool (pl_Ticket e) = ε) ∧
    (∀ j x, (j < k)%nat → tp_Entries plan !! j = Some x → is_selected x = true → l_Pool (c_l c) = ε ∧ rec_RequiresPool (pl_Ticket x) ≠ ε) ∧
    planClaim sha256 (c <| c_l := (c_l c) <| l_Verb := LeaseClaim |> <| l_TicketID := entry_id e |> |>) = Ok out.
Proof using Type.
  intros [[? _]|(plan & e & Hp & He & Hx & Hb & _ & H)]%planClaimNext_spec Hne; [done|].
  split; [done|]. split; [by apply expired_entries_nil|].
  apply find_first in He as (k & Hk & Hf & Hbefore). exists plan, k, e.
  apply andb_prop in Hf as [Hs Hpool]. split_and!; try done.
  - intros Hl. rewrite Hl in Hpool. by apply String.eqb_eq.
  - intros j x Hj Hxj Hsel. specialize (Hbefore j x Hj Hxj). unfold is_selected in Hsel. rewrite Hsel in Hbefore. cbn [andb] in Hbefore.
    apply orb_false_iff in Hbefore as [H1%negb_false_iff%String.eqb_eq H2%String.eqb_neq]. done.
Qed.
End properties.

(** ** Witnesses *)

Lemma load_observed_witness : observed (holding LeaseRenew "7" "2026-01-02T03:30:05Z") ∧ size held_attempts = 1%nat.
Proof.
  split; [|vm_compute; reflexivity]. destruct held_distinct as [Ht Hx].
  destruct (held_loads "2026-01-02T03:30:05Z" (c_l (holding LeaseRenew "7" "2026-01-02T03:30:05Z")) held_attempts (rs_Entries held_set)) as [Hs Ha].
  exact (load_observed sample_sha256 _ _ _ _ _ _ Hs Ha eq_refl eq_refl Ht (Hx _)).
Defined.

Lemma planLease_keeps_witness :
  (let out := outcome_of (planLease claiming (planClaim sample_sha256)) in keeps claiming out ∧ some (lo_posts out !! attemptPath lease_id) = true).
Proof.
  split; [|vm_compute; reflexivity].
  pose proof claiming_observed as Hobs.
  destruct (planLease claiming (planClaim sample_sha256)) as [out| |] eqn:E; [|exfalso; revert E; vm_compute; discriminate..].
  refine (planLease_keeps sample_sha256 sample_compatible sample_programs LeaseClaim _ _ _ Hobs _ E).
  apply list_elem_of_In. left. reflexivity.
Defined.

Lemma fenced_posts_nothing_witness :
  (let c := holding LeaseRenew "6" "2026-01-02T03:30:05Z" in
   ∃ why, planRenew sample_sha256 c = Ok (mkLeaseOutcome ∅ (Some (mkEffect "TRANSITION" lease_id "6" false OutcomeRevisionConflict [CodeFenced])) why None None None)) ∧
  (let c := holding LeaseHeartbeat "7" "2026-01-02T05:30:05Z" in
   ∃ why, planHeartbeat sample_sha256 c = Ok (mkLeaseOutcome ∅ (Some (mkEffect "TRANSITION" lease_id "7" false OutcomeRevisionConflict [CodeFenced])) why None None None)).
Proof.
  split; cbv zeta.
  - destruct (attempt_of (holding LeaseRenew "6" "2026-01-02T03:30:05Z") lease_id) as [a|] eqn:Ea; [|exfalso; revert Ea; vm_compute; discriminate].
    destruct (fenced_posts_nothing sample_sha256 sample_compatible sample_programs (planRenew sample_sha256)
      (holding LeaseRenew "6" "2026-01-02T03:30:05Z") a) as (why & _ & H).
    + apply list_elem_of_In. right. left. reflexivity.
    + exact Ea.
    + left. vm_compute in Ea. injection Ea as <-. vm_compute. discriminate.
    + exists why. rewrite H. assert (atp_AttemptID a = lease_id) as -> by (vm_compute in Ea; injection Ea as <-; reflexivity). reflexivity.
  - destruct (attempt_of (holding LeaseHeartbeat "7" "2026-01-02T05:30:05Z") lease_id) as [a|] eqn:Ea; [|exfalso; revert Ea; vm_compute; discriminate].
    destruct (fenced_posts_nothing sample_sha256 sample_compatible sample_programs (planHeartbeat sample_sha256)
      (holding LeaseHeartbeat "7" "2026-01-02T05:30:05Z") a) as (why & _ & H).
    + apply list_elem_of_In. left. reflexivity.
    + exact Ea.
    + right. right. vm_compute in Ea. injection Ea as <-. vm_compute. reflexivity.
    + exists why. rewrite H. assert (atp_AttemptID a = lease_id) as -> by (vm_compute in Ea; injection Ea as <-; reflexivity). reflexivity.
Defined.

Lemma planRenew_extends_witness : ∃ a expires,
  attempt_of (holding LeaseRenew "7" "2026-01-02T03:30:05Z") lease_id = Some a ∧
  ∀ t, ParseTimestamp "recordedAt" t = Ok t → atp_Supervision a = None →
    expired (a <| atp_Lease := Some (mkLease "h1" "41" expires) |> <| atp_LastHeartbeatAt := Some "2026-01-02T03:30:05Z" |>) t =
      (parse_time "2026-01-02T04:00:05Z" <=? parse_time t).
Proof.
  destruct (planRenew sample_sha256 (holding LeaseRenew "7" "2026-01-02T03:30:05Z")) as [out| |] eqn:E;
    [|exfalso; revert E; vm_compute; discriminate..].
  destruct (planRenew_extends sample_sha256 (holding LeaseRenew "7" "2026-01-02T03:30:05Z") out E) as
    (a & l & expires & raw & Ha & Hl & _ & _ & _ & _ & _ & Ht).
  - assert (some (lo_posts out !! attemptPath lease_id) = true) as H.
    { assert (some (lo_posts (outcome_of (planRenew sample_sha256 (holding LeaseRenew "7" "2026-01-02T03:30:05Z"))) !! attemptPath lease_id) = true) as K
        by (vm_compute; reflexivity). rewrite E in K. exact K. }
    intros Hn. rewrite Hn, lookup_empty in H. discriminate.
  - vm_compute. reflexivity.
  - discriminate.
  - vm_compute. reflexivity.
  - vm_compute. split; [discriminate|reflexivity].
  - exists a, expires. split; [exact Ha|]. intros t Hpt Hs. specialize (Ht t Hpt Hs).
    assert (c_seq (holding LeaseRenew "7" "2026-01-02T03:30:05Z") = "41" ∧ ls_Holder l = "h1") as [Eq Eh].
    { split; [vm_compute; reflexivity|]. assert (Some a = attempt_of (holding LeaseRenew "7" "2026-01-02T03:30:05Z") lease_id) as K by (symmetry; exact Ha).
      vm_compute in K. injection K as ->. vm_compute in Hl. injection Hl as <-. reflexivity. }
    rewrite Eq, Eh in Ht. refine (eq_trans Ht _).
    apply (f_equal (λ z, z <=? parse_time t)). vm_compute. reflexivity.
Defined.

Lemma planReap_reaps_witness : ∃ a l, reapable (holding LeaseReap "7" "2026-01-02T05:30:05Z") a l ∧
  without (holding LeaseReap "7" "2026-01-02T05:30:05Z") (atp_AttemptID a) = [].
Proof.
  destruct (planReap sample_sha256 (holding LeaseReap "7" "2026-01-02T05:30:05Z")) as [out| |] eqn:E;
    [|exfalso; revert E; vm_compute; discriminate..].
  destruct (proj1 (planReap_reaps sample_sha256 (holding LeaseReap "7" "2026-01-02T05:30:05Z") ltac:(discriminate)) out E) as
    (a & l & Ha & Hr & _ & Hw).
  - assert (some (lo_posts (outcome_of (planReap sample_sha256 (holding LeaseReap "7" "2026-01-02T05:30:05Z"))) !! attemptPath lease_id) = true) as K
      by (vm_compute; reflexivity).
    rewrite E in K. intros Hn. cbn [outcome_of] in K. rewrite Hn, lookup_empty in K. discriminate.
  - exists a, l. split; [exact Hr|].
    assert (Some a = attempt_of (holding LeaseReap "7" "2026-01-02T05:30:05Z") lease_id) as K by (symmetry; exact Ha).
    vm_compute in K. injection K as ->. vm_compute. reflexivity.
Defined.

Lemma planClaim_admits_witness : ∃ rec sc a, record_id rec = "ticket:x:q:a" ∧
  writes claiming a (Some (entries claiming ++ [reservation_of claiming a sc])) claimed ∧ atp_Generation a = "7".
Proof.
  pose proof claiming_observed as Hobs.
  destruct (planClaim_admits sample_sha256 claiming claimed Hobs) as (rec & sc & a & Hrec & _ & _ & _ & Hw & _ & _ & _ & Hg & _).
  - vm_compute. reflexivity.
  - intros Hn. assert (some (lo_posts claimed !! attemptPath lease_id) = true) as K by (vm_compute; reflexivity).
    rewrite Hn, lookup_empty in K. discriminate.
  - exists rec, sc, a. split; [|split; [exact Hw|rewrite Hg; vm_compute; reflexivity]].
    assert (Ok (Some rec) = get_record (st_Tickets (c_st claiming)) "ticket:x:q:a") as K by (symmetry; exact Hrec).
    vm_compute in K. injection K as ->. vm_compute. reflexivity.
Defined.

(** A claim of the ticket the plan selects, of any. *)
Definition claiming_next : leaseContext := claiming <| c_l := (claim_request ε) <| l_Verb := LeaseClaimNext |> |>.

Lemma planClaimNext_selects_witness : ∃ plan e, PriorityFirst (claimNextInput claiming_next) = Ok plan ∧ tp_Entries plan !! 0%nat = Some e ∧
  entry_id e = "ticket:x:q:a" ∧ is_selected e = true.
Proof.
  destruct (planClaimNext sample_sha256 claiming_next) as [out| |] eqn:E; [|exfalso; revert E; vm_compute; discriminate..].
  destruct (planClaimNext_selects sample_sha256 claiming_next out E) as (_ & _ & plan & k & e & Hp & Hk & Hs & _ & Hb & _).
  - assert (some (lo_posts (outcome_of (planClaimNext sample_sha256 claiming_next)) !! attemptPath lease_id) = true) as K by (vm_compute; reflexivity).
    rewrite E in K. intros Hn. cbn [outcome_of] in K. rewrite Hn, lookup_empty in K. discriminate.
  - exists plan. assert (Ok plan = PriorityFirst (claimNextInput claiming_next)) as K by (symmetry; exact Hp).
    vm_compute in K. injection K as K.
    destruct k as [|k].
    + exists e. split; [exact Hp|]. split; [exact Hk|]. split; [|exact Hs]. rewrite K in Hk. injection Hk as <-. vm_compute. reflexivity.
    + exfalso. rewrite K in Hb. destruct (Hb 0%nat _ (Nat.lt_0_succ k) eq_refl eq_refl) as [_ H]. apply H. reflexivity.
Defined.
