(* ===== verification/LeaseHistory.v ===== *)
(** * Any history of lease commands

    A transaction reads the files of a directory and posts files to it.  The
    reservations a command posts are decoded by the next as the same entries,
    in some order; so whatever commands ran, the state a transaction loads is
    consistent. *)

From S2P Require Import Prelude View Utf8 GoStd Codes Limits Value Canonical Primitives Ids SetsSpec PrimitivesSpec IdsSpec.
From S2P Require Import Parse ParseDoc ParsePrint Reader ReaderSpec Result ResultSpec Ticket Inventory Marks MarksSpec.
From S2P Require Import KnowHow RecordParts RecordCodec PartsSpec RecordSpec Collision Intent Updates Mutation Outcomes Writer.
From S2P Require Import EventsSpec Attempt Pools Clock Planner PlannerSpec LeaseRequest Lease ValueSpec TotalSpec LeaseSpec Apply.
Local Open Scope Z_scope.
Local Open Scope go_scope.

(** ** What the reservation set reads *)

(** An entry as [entryValue] writes it, its sets in the order given. *)
Definition entry_object (e : ReservationEntry) (resources uses : Value) : Object :=
  let o := Set_ NewObject "attemptId" (VString (en_AttemptID e)) in
  let o := Set_ o "generation" (VString (en_Generation e)) in
  let o := Set_ o "ticketId" (VString (TicketID_Raw (en_TicketID e))) in
  let o := Set_ o "ticketRevision" (VString (en_TicketRevision e)) in
  let o := Set_ o "resources" resources in
  let o := Set_ o "capacityUses" uses in
  let o := Set_ o "workers" (VString (en_Workers e)) in
  let o := Set_ o "state" (VString (en_State e)) in
  let o := Set_ o "createdSeq" (VString (en_CreatedSeq e)) in
  Set_ o "coverage" (VString (en_Coverage e)).

Definition plain_entry (e : ReservationEntry) : Value :=
  VObject (entry_object e (VArray (resource_value <$> en_Resources e)) (VArray (use_value <$> en_CapacityUses e))).

#[global] Instance Sticky_readResources r max : Sticky (readResources r max).
Proof. unfold readResources. apply _. Qed.

#[global] Instance Sticky_read_use r : Sticky (read_use r).
Proof. unfold read_use. apply _. Qed.

#[global] Instance Sticky_readEntry r : Sticky (readEntry r).
Proof. unfold readEntry. apply _. Qed.

#[global] Instance Sticky_read_reservations r : Sticky (read_reservations r).
Proof. unfold read_reservations. apply _. Qed.

#[global] Instance use_codec : Codec read_use use_value.
Proof.
  split; [apply _|]. intros r x Hd H. unfold read_use in H. record_inv. subst x.
  unfold use_value. cbn [cu_ClassID cu_Units]. same_members Hd.
Qed.

Lemma distinct_use c : distinct (use_value c).
Proof. unfold use_value. distinct_tac. Qed.

#[global] Instance entry_codec : Codec readEntry plain_entry.
Proof.
  split; [apply _|]. intros r x Hd H. unfold readEntry, readResources in H. record_inv. array_inv. array_inv. subst x.
  unfold plain_entry, entry_object. cbn [en_AttemptID en_Generation en_TicketID en_TicketRevision en_Resources en_CapacityUses en_Workers
    en_State en_CreatedSeq en_Coverage]. same_members Hd; congruence.
Qed.

(** What an entry writes, and what is read as the same entry. *)
Lemma entryValue_spec e v : entryValue e = Ok v → ∃ rs us, rs ≡ₚ resource_value <$> en_Resources e ∧
  us ≡ₚ use_value <$> en_CapacityUses e ∧ v = VObject (entry_object e (VArray rs) (VArray us)) ∧ distinct v.
Proof.
  unfold entryValue, ResourcesValue. intros (x & (rs & -> & Hr)%SortedSet_values & (y & (us & -> & Hu)%SortedSet_values & [= <-])%obind_Ok)%obind_Ok.
  exists rs, us. split_and!; [done..|].
  assert (distinct (VArray rs)) as Dr.
  { constructor. rewrite Hr. apply Forall_fmap, Forall_forall. intros r _. apply distinct_resource. }
  assert (distinct (VArray us)) as Du.
  { constructor. rewrite Hu. apply Forall_fmap, Forall_forall. intros r _. apply distinct_use. }
  change (distinct (VObject (entry_object e (VArray rs) (VArray us)))). unfold entry_object. distinct_tac.
Qed.

(** Entries of one attempt and one ticket that hold the same resources. *)
Record same_entry (x y : ReservationEntry) : Prop := {
  sm_AttemptID : en_AttemptID x = en_AttemptID y;
  sm_ticket : en_ticket x = en_ticket y;
  sm_Resources : en_Resources x ≡ₚ en_Resources y
}.

(** The same entry but for the order of its sets. *)
Record copied (x y : ReservationEntry) : Prop := {
  cp_same : same_entry x y;
  cp_Generation : en_Generation x = en_Generation y;
  cp_TicketRevision : en_TicketRevision x = en_TicketRevision y;
  cp_CapacityUses : en_CapacityUses x ≡ₚ en_CapacityUses y;
  cp_Workers : en_Workers x = en_Workers y;
  cp_State : en_State x = en_State y;
  cp_CreatedSeq : en_CreatedSeq x = en_CreatedSeq y;
  cp_Coverage : en_Coverage x = en_Coverage y
}.

(** The sets of an entry: each element is written as itself, and as no other. *)
Section sets.
Context {A : Type} (enc : A → Value) (enc_inj : ∀ x y, enc x = enc y → x = y) (enc_canon : ∀ x, canon (enc x) = enc x).

Lemma canon_set l : canon (VArray (enc <$> l)) = VArray (enc <$> l).
Proof using enc_canon. cbn [canon]. f_equal. rewrite <-list_fmap_compose. apply list_fmap_ext. intros. apply enc_canon. Qed.

Lemma Permutation_set (l l' : list A) : enc <$> l ≡ₚ enc <$> l' → l ≡ₚ l'.
Proof using enc_inj.
  intros (k & Hk & Hl)%Permutation_map_inv. assert (Inj (=) (=) enc) by (intros ? ?; apply enc_inj).
  apply (inj (fmap enc)) in Hk. subst k. by symmetry.
Qed.

(** What is read of the values written of a set is the set. *)
Lemma set_read l l' ws : ws ≡ₚ enc <$> l' → Some (canon (VArray (enc <$> l))) = Some (canon (VArray ws)) → l ≡ₚ l'.
Proof using enc_inj enc_canon.
  intros Hw H. apply Permutation_set. rewrite <-Hw. apply Permutation_map_inv in Hw as (k & -> & _).
  change (map enc k) with (enc <$> k) in *. rewrite !canon_set in H. by injection H as ->.
Qed.
End sets.

Lemma use_value_inj x y : use_value x = use_value y → x = y.
Proof. destruct x, y. unfold use_value. cbn. by intros [= -> ->]. Qed.

Lemma distinct_plain x : distinct (plain_entry x).
Proof.
  unfold plain_entry, entry_object. distinct_tac; by (apply distinct_list; first [apply distinct_resource|apply distinct_use]).
Qed.

Lemma copied_read x e v : entryValue e = Ok v → canon (plain_entry x) = canon v → copied x e.
Proof.
  intros (rs & us & Hr & Hu & -> & Hd)%entryValue_spec H.
  pose proof (λ k, canon_Get _ _ k (distinct_plain x) Hd H) as Hg.
  pose proof (Hg "attemptId") as [= Ha]. pose proof (Hg "generation") as [= Hgen]. pose proof (Hg "ticketId") as [= Ht].
  pose proof (Hg "ticketRevision") as [= Hrev]. pose proof (Hg "workers") as [= Hw]. pose proof (Hg "state") as [= Hs].
  pose proof (Hg "createdSeq") as [= Hc]. pose proof (Hg "coverage") as [= Hcov].
  split; [|done|done| |done..].
  - split; [done|done|]. exact (set_read resource_value resource_value_inj canon_resource _ _ _ Hr (Hg "resources")).
  - exact (set_read use_value use_value_inj (λ c, eq_refl) _ _ _ Hu (Hg "capacityUses")).
Qed.

Lemma entry_values_spec es : ∀ vs, entry_values es = Ok vs → Forall2 (λ e v, entryValue e = Ok v) es vs.
Proof.
  induction es as [|e es IH]; intros vs; cbn [entry_values]; [by intros [= <-]|].
  intros (v & Hv & (vs' & Hvs & [= <-])%obind_Ok)%obind_Ok. constructor; auto.
Qed.

Lemma Reservations_Value_spec s v : Reservations_Value s = Ok v → ∃ o ws es, v = VObject o ∧ distinct v ∧
  Get o "queueId" = Some (VString (QueueID_Raw (rs_QueueID s))) ∧ Get o "entries" = Some (VArray ws) ∧ es ≡ₚ rs_Entries s ∧ Forall2 (λ e v, entryValue e = Ok v) es ws.
Proof.
  unfold Reservations_Value. intros (vs & Hvs%entry_values_spec & (x & (ws & -> & Hw)%SortedSet_values & [= <-])%obind_Ok)%obind_Ok.
  assert (∃ es, rs_Entries s ≡ₚ es ∧ Forall2 (λ e v, entryValue e = Ok v) es ws) as (es & He & Hes).
  { symmetry in Hw. apply Forall2_flip in Hvs. destruct (Permutation_Forall2 Hw Hvs) as (es & He & Hf).
    exists es. split; [done|]. by apply Forall2_flip. }
  eexists _, ws, es. split_and!; [done| |reflexivity|reflexivity|by symmetry|done].
  assert (distinct (VArray ws)).
  { constructor. clear -Hes. induction Hes as [|e v es ws (? & ? & _ & _ & _ & ?)%entryValue_spec _ IH]; by constructor. }
  change (distinct (VObject (Set_ (Set_ (Set_ NewObject "profile" (VString ProfileReservations)) "queueId"
    (VString (QueueID_Raw (rs_QueueID s)))) "entries" (VArray ws)))). distinct_tac.
Qed.

(** What the decoder of a reservation set accepts. *)
Lemma DecodeReservations_ok raw t : DecodeReservations raw = Ok t → ∃ u o w, u = VObject o ∧ distinct u ∧ raw = EncodeFile u ∧
  Get o "queueId" = Some (VString (QueueID_Raw (rs_QueueID t))) ∧ Get o "entries" = Some w ∧ canon w = canon (VArray (plain_entry <$> rs_Entries t)).
Proof.
  unfold DecodeReservations. destruct (_ <? _); [done|]. intros (u & Hp & H)%obind_Ok.
  apply ParseWith_object in Hp as (Hd & _ & ->). destruct (ProfileVersion _ _ _); [done|].
  set (r := NewReader u "/") in *. assert (rv r = u) as Hrv by done. rewrite <-Hrv in Hd |- *. clearbody r. clear Hrv u.
  apply obind_Ok in H as (x & _ & H).
  destruct ((f ← Field r "profile"; String_ f) st0) as [profile st] eqn:Eprof. destruct (CheckProfile _ _ _) eqn:Hcheck; [done|].
  apply obind_Ok in H as (s & Hs & H). destruct (Reservations_check s); [done|]. injection H as <-.
  destruct (profile_ok _ _ _ _ _ _ _ Eprof Hcheck Hs) as [_ Hok].
  unfold read_reservations in Hok. record_inv. array_inv. subst. same_object.
  match goal with Ho : rv r = VObject ?o, Hg : Get ?o "entries" = Some ?w |- _ =>
    rewrite Ho in Hd |- *; exists (VObject o), o, w end. split_and!; try done.
  match goal with H : ok (Reader_QueueID _) _ |- _ => apply QueueID_value in H; cbn [child rv] in H; subst end. done.
Qed.

(** The entries a reservation set is decoded to are those it was encoded from,
    in some order. *)
Lemma Reservations_read s raw t : Reservations_Encode s = Ok raw → DecodeReservations raw = Ok t →
  QueueID_Raw (rs_QueueID t) = QueueID_Raw (rs_QueueID s) ∧ ∃ es, es ≡ₚ rs_Entries s ∧ Forall2 copied (rs_Entries t) es.
Proof.
  unfold Reservations_Encode. intros (v & Hv & (x & _ & [= <-])%obind_Ok)%obind_Ok.
  apply Reservations_Value_spec in Hv as (o & ws & es & -> & Hd & Hq & Hg & Hes & Hf).
  intros (u & o' & w & -> & Hdu & Hraw & Hq' & Hg' & Hw)%DecodeReservations_ok.
  apply EncodeFile_inj in Hraw; [|done..]. split.
  { pose proof (canon_Get _ _ "queueId" Hd Hdu Hraw) as H. rewrite Hq, Hq' in H. by injection H. }
  exists es. split; [done|]. pose proof (canon_Get _ _ "entries" Hd Hdu Hraw) as H. rewrite Hg, Hg' in H.
  injection H as H. rewrite Hw, !canon_VArray in H. injection H as H. rewrite <-list_fmap_compose in H.
  clear -Hf H. revert H. generalize (rs_Entries t). induction Hf as [|e v es ws He _ IH]; intros [|x xs]; try done.
  rewrite !fmap_cons. intros [= Hx Hxs]. constructor; [by eapply copied_read|by apply IH].
Qed.

Lemma copied_same xs es : Forall2 copied xs es → Forall2 same_entry xs es.
Proof. intros H. eapply Forall2_impl; [exact H|]. by intros x y []. Qed.

(** C31: a reservation set that is encoded is decoded again as the same set: the
    same queue and the same entries, member by member, but for the order of the
    entries, of the resources of each and of its capacity uses. *)
Theorem Reservations_roundtrip s raw : Reservations_Encode s = Ok raw →
  ∃ t es, DecodeReservations raw = Ok t ∧ QueueID_Raw (rs_QueueID t) = QueueID_Raw (rs_QueueID s) ∧
    es ≡ₚ rs_Entries s ∧ Forall2 copied (rs_Entries t) es.
Proof.
  intros He. assert (∃ t, DecodeReservations raw = Ok t) as [t Ht].
  { unfold Reservations_Encode in He. apply obind_Ok in He as (v & _ & (t & Ht & [= <-])%obind_Ok). by exists t. }
  destruct (Reservations_read _ _ _ He Ht) as (Hq & es & Hp & Hf). by exists t, es.
Qed.

(** ** Histories *)

(** [emptyReservations(q)]: what a queue starts with. *)
Definition emptyReservations (q : string) : string :=
  EncodeFile (VObject (object_of [("profile", VString "taskman-reservation-set/0"); ("queueId", VString q); ("entries", VArray [])])).

(** What the stored reservations satisfy, whatever the attempts: one to a
    ticket, none excluding another but for the shared paths, no more than a
    limit. *)
Definition sound (shared : list string) (limit : Z) (es : list ReservationEntry) : Prop :=
  NoDup (en_ticket <$> es) ∧ no_exclusion shared es ∧ len es ≤ Z.max 0 limit.

Definition stores_sound (shared : list string) (limit : Z) (files : gmap string string) : Prop :=
  ∀ raw t, files !! "reservations.json" = Some raw → DecodeReservations raw = Ok t → sound shared limit (rs_Entries t).

Lemma CollideShared_perm shared a a' b b' : a ≡ₚ a' → b ≡ₚ b' → CollideShared a b shared = CollideShared a' b' shared.
Proof.
  intros Ha Hb. apply eq_true_iff_eq. rewrite !(proj1 (CollideShared_spec _ _ _)). by setoid_rewrite Ha; setoid_rewrite Hb.
Qed.

Lemma sound_same shared limit xs es : Forall2 same_entry xs es → sound shared limit es → sound shared limit xs.
Proof.
  intros H (Ht & Hx & Hl). split_and!.
  - assert (en_ticket <$> xs = en_ticket <$> es) as ->; [|done]. clear -H. induction H as [|? ? ? ? []]; [done|]. rewrite !fmap_cons. by f_equal.
  - intros i j x y Hi Hj Hij. destruct (Forall2_lookup_l _ _ _ _ _ H Hi) as (x' & Hi' & [_ _ ?]).
    destruct (Forall2_lookup_l _ _ _ _ _ H Hj) as (y' & Hj' & [_ _ ?]). erewrite CollideShared_perm by done. by eapply Hx.
  - unfold len in *. by rewrite (Forall2_length _ _ _ H).
Qed.

Lemma sound_perm shared limit es es' : NoDup (en_AttemptID <$> es) → es' ≡ₚ es → sound shared limit es → sound shared limit es'.
Proof.
  intros Hnd Hp (Ht & Hx & Hl). split_and!.
  - by rewrite Hp.
  - apply no_exclusion_alt; [by rewrite Hp|]. setoid_rewrite Hp. by apply no_exclusion_alt.
  - unfold len in *. by rewrite Hp.
Qed.

(** Dropping entries, and sharing more paths, keeps what was sound. *)
Lemma sound_sublist shared limit es es' : NoDup (en_AttemptID <$> es) → es' `sublist_of` es → sound shared limit es → sound shared limit es'.
Proof.
  intros Hnd Hs (Ht & Hx & Hl). assert (NoDup (en_AttemptID <$> es')) as Hnd' by (eapply sublist_NoDup; [exact Hnd|by apply fmap_sublist]).
  split_and!.
  - eapply sublist_NoDup; [exact Ht|by apply fmap_sublist].
  - apply no_exclusion_alt; [done|]. intros x y Hix Hiy. apply (proj1 (no_exclusion_alt _ _ Hnd) Hx); by eapply elem_of_sublist.
  - pose proof (sublist_length _ _ Hs). unfold len in *. lia.
Qed.

Lemma sound_shares shared shared' limit es : shared ⊆ shared' → sound shared limit es → sound shared' limit es.
Proof.
  intros Hsub (Ht & Hx & Hl). split_and!; [done| |done]. intros i j x y Hi Hj Hij. apply not_true_iff_false. intros Hc.
  pose proof (Hx i j x y Hi Hj Hij) as Hn. apply not_true_iff_false in Hn. apply Hn.
  by apply (proj2 (proj2 (CollideShared_spec _ _ shared'))).
Qed.

Lemma empty_sound shared limit queue files : files !! "reservations.json" = Some (emptyReservations queue) → stores_sound shared limit files.
Proof.
  intros Hf raw t Hr Hd. rewrite Hf in Hr. injection Hr as <-.
  apply DecodeReservations_ok in Hd as (u & o & w & -> & Hd & Hraw & _ & Hg & Hw).
  apply EncodeFile_inj in Hraw; [|unfold object_of; cbn [foldl fst snd]; distinct_tac; constructor; done|done].
  eapply canon_Get with (k := "entries") in Hraw; [|unfold object_of; cbn [foldl fst snd]; distinct_tac; constructor; done|done].
  rewrite Hg in Hraw. cbn in Hraw. injection Hraw as Hraw. rewrite <-Hraw in Hw. cbn [canon] in Hw.
  destruct (rs_Entries t); [|done]. split_and!; [constructor|by intros i j x y ?%list_elem_of_lookup_2%not_elem_of_nil|unfold len; cbn; lia].
Qed.

(** What is decoded of an encoded set is as sound as the set. *)
Lemma encoded_sound shared limit s raw t : NoDup (en_AttemptID <$> rs_Entries s) → Reservations_Encode s = Ok raw →
  DecodeReservations raw = Ok t → sound shared limit (rs_Entries s) → sound shared limit (rs_Entries t).
Proof.
  intros Hnd He Hd Hs. destruct (Reservations_read _ _ _ He Hd) as (_ & es & Hp & Hf%copied_same). eapply sound_same; [exact Hf|]. by eapply sound_perm.
Qed.

Section history.
Context (sha256 : string → string) (HandoffPolicyCompatible : string → string → string → string → bool).
Context (DecodePrograms : string → option ProgramState) (queue : string) (limit : Z).

(** The inventory a transaction observes of a directory. *)
Definition inventory_of (files : gmap string string) : gmap string FileEntry :=
  (λ raw, {| fe_Sha256 := Sum sha256 raw; fe_Bytes := SizeOf (slen raw) |}) <$> files.

Definition attempt_files (files : gmap string string) : list string :=
  (List.filter (λ kv, strings.HasPrefix kv.1 "attempts/") (map_to_list files)).*2.

(** The context of a command whose transaction loads its state from the files,
    under a policy of at most so many attempts. *)
Record loads (files : gmap string string) (c : leaseContext) : Prop := {
  lds_files : in_Files (c_in c) = inventory_of files;
  lds_state : ∃ raw raws, files !! "reservations.json" = Some raw ∧ raws ≡ₚ attempt_files files ∧
    loadReservations sha256 queue raw c = Ok (st_Reservations (c_st c)) ∧
    loadAttempts sha256 c raws (st_Reservations (c_st c)) = Ok (attempts_of c);
  lds_limit : Count_Int (pol_MaxActiveAttempts (policy_of c)) ≤ limit
}.

(** The files, and the paths shared so far, after any sequence of transactions
    of a new queue: lease commands of the verbs modelled, each of a policy that
    shares at least the paths of those before; transactions that leave the
    reservations, as most do; and those that only drop reservations or rewrite
    the other members of one, as COMPLETE and the supervisor do. *)
Inductive history : gmap string string → list string → Prop :=
  | history_genesis files : files !! "reservations.json" = Some (emptyReservations queue) → history files []
  | history_other files files' shared : history files shared →
      files' !! "reservations.json" = files !! "reservations.json" → history files' shared
  | history_reduced files files' shared raw t kept es q raw' : history files shared →
      files !! "reservations.json" = Some raw → DecodeReservations raw = Ok t →
      kept `sublist_of` rs_Entries t → Forall2 same_entry es kept → Reservations_Encode (mkReservations q es) = Ok raw' →
      files' !! "reservations.json" = Some raw' → history files' shared
  | history_command files shared c verb planner out : history files shared → loads files c → shared ⊆ shared_of c →
      (verb, planner) ∈ leasePlanners sha256 HandoffPolicyCompatible DecodePrograms → planLease c planner = Ok out →
      history (lo_posts out ∪ files) (shared_of c).

Lemma DecodeReservations_ids raw t : DecodeReservations raw = Ok t → NoDup (en_AttemptID <$> rs_Entries t).
Proof using Type.
  unfold DecodeReservations. destruct (_ <? _); [done|]. intros (v & _ & Hs)%obind_Ok.
  destruct (ProfileVersion _ _ _); [done|]. apply obind_Ok in Hs as (u & _ & Hs).
  match type of Hs with (let '(_, _) := ?x in _) = _ => destruct x as [profile st] end. destruct (CheckProfile _ _ _); [done|].
  apply obind_Ok in Hs as (s' & _ & Hs). destruct (Reservations_check s') eqn:Ec; [done|]. injection Hs as ->.
  by apply check_entries_ids in Ec as [? _].
Qed.

(** What a transaction loads of sound files is observed. *)
Lemma loads_observed shared files c : stores_sound shared limit files → loads files c → shared ⊆ shared_of c →
  observed c ∧ len (entries c) ≤ Z.max 0 limit.
Proof using Type.
  intros Hs [_ (raw & raws & Hf & _ & Hr & Ha) _] Hsub.
  assert (DecodeReservations raw = Ok (st_Reservations (c_st c))) as Hd.
  { unfold loadReservations in Hr. apply obind_Ok in Hr as (s & -> & H). apply obind_Ok in H as (x & _ & H).
    repeat match type of H with (if ?b then _ else _) = _ => destruct b; [done|] end. by injection H as ->. }
  destruct (sound_shares _ _ _ _ Hsub (Hs _ _ Hf Hd)) as (Ht & Hx & Hl). split; [|done].
  by eapply load_observed; [exact Hr|exact Ha|..].
Qed.

Lemma command_sound shared files c verb planner out : stores_sound shared limit files → loads files c → shared ⊆ shared_of c →
  (verb, planner) ∈ leasePlanners sha256 HandoffPolicyCompatible DecodePrograms → planLease c planner = Ok out →
  stores_sound (shared_of c) limit (lo_posts out ∪ files).
Proof using Type.
  intros Hs Hl Hsub Hin H. destruct (loads_observed _ _ _ Hs Hl Hsub) as [Hobs Hlen]. pose proof (lds_limit _ _ Hl) as Hlim.
  assert (stores_sound (shared_of c) limit files) as Hs' by (intros raw t Hr Hd; eapply sound_shares; [exact Hsub|by eapply Hs]).
  destruct (planLease_preserves _ _ _ _ _ _ _ Hobs Hin H) as [->|(next & es & Hw & Hc & Hmax)]; [by rewrite map_empty_union|].
  pose proof (wr_reservations _ _ _ _ Hw) as Hres. intros raw t Hraw Hd. destruct es as [es|]; cbn [from_option id] in *.
  - destruct Hres as (b & Henc & Hb). apply (lookup_union_Some_l _ files) in Hb. rewrite Hb in Hraw. injection Hraw as ->.
    eapply encoded_sound; [|exact Henc|exact Hd|]; cbn [rs_Entries]; [apply (con_ids _ _ _ Hc)|].
    destruct Hc. split_and!; [done..|]. unfold grows_within in Hmax. lia.
  - rewrite lookup_union_r in Hraw by done. by eapply Hs'.
Qed.

Lemma same_ids xs es : Forall2 same_entry xs es → en_AttemptID <$> xs = en_AttemptID <$> es.
Proof using Type. induction 1 as [|? ? ? ? []]; [done|]. rewrite !fmap_cons. by f_equal. Qed.

(** C2: whatever claims, claim-nexts, heartbeats, renewals, releases, reapings
    and widenings a queue has run since its genesis, each loading its state from
    the stored files and posting to them, under policies that share no path
    less than those before; and whatever other transactions left the
    reservations, dropped some or rewrote but their bookkeeping: the state the
    next command loads is consistent. The live attempts are exactly the reserved
    ones, one to a ticket, none excluding another, no more than the greatest
    limit of the policies. *)
Theorem history_observed files shared c : history files shared → loads files c → shared ⊆ shared_of c →
  observed c ∧ len (entries c) ≤ Z.max 0 limit.
Proof using Type.
  intros H. apply loads_observed. clear c.
  induction H as [files Hf|files files' shared _ IH He|files files' shared raw t kept es q raw' _ IH Hf Hd Hk He Henc Hf'
    |files shared c verb planner out _ IH Hl Hsub Hin Hp].
  - by eapply empty_sound.
  - intros raw t Hr. rewrite He in Hr. by apply IH.
  - intros raw2 t' Hr Hd'. rewrite Hf' in Hr. injection Hr as <-. pose proof (DecodeReservations_ids _ _ Hd) as Hnd.
    eapply encoded_sound; [|exact Henc|exact Hd'|]; cbn [rs_Entries].
    + rewrite (same_ids _ _ He). eapply sublist_NoDup; [exact Hnd|by apply fmap_sublist].
    + eapply sound_same; [exact He|]. eapply sound_sublist; [exact Hnd|exact Hk|by apply (IH raw t)].
  - by eapply command_sound.
Qed.
End history.

(** ** A first claim, stored and loaded *)

Definition new_queue : gmap string string := {[ "reservations.json" := emptyReservations "queue:x:q" ]}.

Definition first_claim : leaseContext :=
  lease_context "queue:x:q" "r1" lease_actor (claim_request "ticket:x:q:a") (lease_input (inventory_of sample_sha256 new_queue) "2026-01-02T03:04:05Z")
    (lease_state ∅ []).

Definition after_claim : gmap string string := Eval vm_compute in
  lo_posts (outcome_of (planLease first_claim (planClaim sample_sha256))) ∪ new_queue.

Definition next_command : leaseContext :=
  lease_context "queue:x:q" "r2" lease_actor (emptyRequest LeaseRenew) (lease_input (inventory_of sample_sha256 after_claim) "2026-01-02T03:30:05Z")
    (lease_state held_attempts (rs_Entries held_set)).

(** A directory of the sample queue is loaded as the state its files
    encode. *)
Lemma stored_loads files c l raw : in_Files (c_in c) = inventory_of sample_sha256 files → l = attempt_files files →
  files !! "reservations.json" = Some raw → loadReservations sample_sha256 "queue:x:q" raw c = Ok (st_Reservations (c_st c)) →
  loadAttempts sample_sha256 c l (st_Reservations (c_st c)) = Ok (attempts_of c) → policy_of c = planning_policy →
  loads sample_sha256 "queue:x:q" (Count_Int (pol_MaxActiveAttempts planning_policy)) files c.
Proof.
  intros Hf -> Hr H1 H2 Hp. split; [exact Hf|exists raw, (attempt_files files); split_and!; [exact Hr|done|exact H1|exact H2]|by rewrite Hp].
Qed.

Lemma first_claim_loads :
  loads sample_sha256 "queue:x:q" (Count_Int (pol_MaxActiveAttempts planning_policy)) new_queue first_claim.
Proof. apply (stored_loads _ _ [] (emptyReservations "queue:x:q")); [vm_compute; reflexivity..]. Qed.

Lemma next_command_loads :
  loads sample_sha256 "queue:x:q" (Count_Int (pol_MaxActiveAttempts planning_policy)) after_claim next_command.
Proof.
  apply (stored_loads _ _ [default ε (after_claim !! attemptPath lease_id)] (default ε (after_claim !! "reservations.json")));
    [vm_compute; reflexivity..].
Qed.

Lemma after_claim_posted out : planLease first_claim (planClaim sample_sha256) = Ok out → after_claim = lo_posts out ∪ new_queue.
Proof.
  intros E. assert (after_claim = lo_posts (outcome_of (planLease first_claim (planClaim sample_sha256))) ∪ new_queue) as H by (vm_compute; reflexivity).
  rewrite E in H. exact H.
Qed.

Lemma history_observed_witness : observed next_command ∧ en_AttemptID <$> entries next_command = [lease_id].
Proof.
  split; [|vm_compute; reflexivity].
  refine (proj1 (history_observed sample_sha256 sample_compatible sample_programs "queue:x:q"
    (Count_Int (pol_MaxActiveAttempts planning_policy)) after_claim (shared_of first_claim) next_command _ next_command_loads (reflexivity _))).
  destruct (planLease first_claim (planClaim sample_sha256)) as [out| |] eqn:E; [|exfalso; revert E; vm_compute; discriminate..].
  rewrite (after_claim_posted _ E).
  refine (history_command _ _ _ _ _ _ _ _ LeaseClaim _ _ (history_genesis _ _ _ _ _ _ _) first_claim_loads (list_subseteq_nil _) _ E).
  - exact (lookup_singleton_eq _ _).
  - apply list_elem_of_In. left. reflexivity.
Defined.

Lemma Reservations_roundtrip_witness : ∃ raw t, Reservations_Encode held_set = Ok raw ∧ DecodeReservations raw = Ok t ∧
  en_AttemptID <$> rs_Entries t = [lease_id].
Proof.
  destruct (Reservations_Encode held_set) as [raw| |] eqn:E; [|exfalso; revert E; vm_compute; discriminate..].
  destruct (Reservations_roundtrip held_set raw E) as (t & es & Ht & _ & Hp & Hf). exists raw, t.
  split; [reflexivity|]. split; [exact Ht|].
  assert (∀ xs, Forall2 copied xs es → en_AttemptID <$> xs = en_AttemptID <$> es) as Hids.
  { clear. induction 1 as [|x e xs es [[Hx _ _] _ _ _ _ _ _ _] _ IH]; [reflexivity|]. rewrite !fmap_cons, Hx, IH. reflexivity. }
  rewrite (Hids _ Hf). assert (en_AttemptID <$> rs_Entries held_set = [lease_id]) as Hh by (vm_compute; reflexivity).
  pose proof (fmap_Permutation en_AttemptID _ _ Hp) as Hq. rewrite Hh in Hq. apply Permutation_singleton_r in Hq. exact Hq.
Defined.
